(* ===== verification/_CoqProject ===== *)
-Q . S2P
Prelude.v
Text.v
Json.v
Reader.v
Utf8.v
ReaderSafety.v
Floats.v
RoundTrip.v
Causes.v
Calendar.v
Platform.v
Requests.v
Human.v
Transcripts.v
Redaction.v
RedactionSafety.v
Executor.v
ActionFiles.v
Wire.v
Instants.v
Notices.v
Schedule.v
Dates.v
Starts.v
Plans.v
RunDocuments.v
Team.v
Definitions.v
Define.v
StateCodec.v
Claims.v
Runs.v
Holds.v
Frames.v
Invariants.v
Samples.v
Reachable.v
Leases.v
Selection.v
Lifecycle.v
Changes.v
Pages.v
Cursors.v
CursorSafety.v
Journal.v
JournalSpec.v
JournalSafety.v
JournalPrepare.v
JournalHistory.v
Projection.v
ExecFrames.v
Rpc.v
Runner.v
Batches.v
RunnerSafety.v
Routes.v
Credentials.v
Broker.v
BrokerSafety.v
Walk.v
Traces.v
Outputs.v
Previews.v
TraceSafety.v
OutputSafety.v
Admission.v
Disk.v
DiskSafety.v
Sealing.v
RoutineStore.v
Diagnostics.v
Service.v
Replay.v
Recovery.v
StoreSafety.v
StoreResets.v
DiagnosticSafety.v
ReplaySafety.v
RecoverySafety.v
StoreSamples.v
