(* ===== verification/Prelude.v ===== *)
(** * Verification of Shimpz Teams

    Shimpz Teams runs a person's Routines: standing plans of Assistant Actions
    that Team starts on a schedule, drives one step at a time, and reports by
    notices.  This library models the Routine core of the repository, the crate
    [routine/] and the parts of [protocol/http/rust/], [vendor/strict-json/] and
    [core/] it is built on, and the executor of Actions, the crate [action/] with
    the rules of [vendor/assistant-protocol/] that it enforces, and the store that
    keeps them, [local/src/routine/store/] on [storage/]; and proves what makes them
    safe to leave running.

    ** How the program is put together

    A Team's whole Routine state is one record, [TeamRoutines] (Routines, run
    records, undelivered notices, the starts of the last 24 hours, archived
    generations).  Every operation is a transition: a function from a state to a
    new state or a stable refusal code, applied to a copy that is kept only when
    every part succeeds.  A worker asks for work ([claim]), which first skips the
    firings that are too late ([sweep]) and then leases at most one run; the
    lease lets the worker drive the run ([spend], [freeze], [finish]); a run that
    may have acted without an answer is fenced ([fence]) and becomes an incident
    a person settles ([reopen_incident], [skip_incident], [run_incident]).  While
    it runs, the position of a run in its plan is a sealed [Cursor], advanced
    step by step.  Plans and definitions are strict JSON documents admitted once,
    when a person confirms them.

    The Actions of a step are run by batches over a journal, one SQLite database:
    a batch of operations is prepared under a generation, each operation begins
    before its container is called and is completed with the result, and an
    operation found begun after a crash is uncertain and not run again.  Between
    the two journal calls is one attempt: Team collects the private values the
    Action was granted, delivers a file only when a person authorized it, starts
    the Action's process in its container ([rpc_exchange]), demultiplexes its
    output ([FrameReader]) while a broker answers its provider calls, and
    projects the terminal frame ([project]) into a result, a request to a person
    or a redacted failure.  A person's answers accumulate in transcripts that are
    replayed to the Action.  Every failure says its cause.

    The controller keeps the state of a Team in one private file, replaced whole by
    every transition, and seals what belongs to one run (its cursor, its recovery
    snapshot, its continuation, its incident) in an envelope of its own, bound to
    the run by its associated data.

    ** Files

    - [Prelude]: results, random draws, record updates, strings, keyed lists,
      sorting, bounded loops; the tactic [inv_ok] that splits a successful
      transition into its calls; the hint databases.
    - [Text], [Json]: UTF-8 text and the declared patterns; strict JSON values,
      Python's view of them and the canonical writer
      ([protocol/.../python/{text,value,json}.rs], [routine/src/json.rs],
      [vendor/strict-json/src/value.rs]).
    - [Reader]: the strict JSON reader, [vendor/strict-json/src/], as a reader
      monad over a position and a depth, with every error at its offset.  [Utf8],
      [ReaderSafety], [Floats] (doubles and their shortest decimal text) and
      [RoundTrip] are its theory.
    - [Causes]: the closed vocabulary of failures and its wire form,
      [protocol/.../payload/cause.rs].
    - [Calendar]: [python/datetime.rs] and [routine/src/dates/date.rs].
    - [Platform]: the interfaces ([Class]) to code outside the repository, with a
      concrete instance on which every definition runs.
    - [Wire]: the protocol's rules on schedules, steps, outputs, notices and
      progress ([protocol/.../routine/], [routine_notice.rs], [progress.rs]).
    - [Instants], [Notices]: ISO instants ([python/datetime.rs], the record times of
      [storage/src/private.rs]), and the rest of the protocol's rules on usage,
      notices and views ([routine_notice.rs], [payload/chat.rs]).
    - [Schedule], [Dates], [Starts]: [routine/src/schedule/mod.rs],
      [dates/mod.rs] (templates), [claim/starts.rs].
    - [Plans], [Definitions], [Define]: [plan/mod.rs], [definition.rs],
      [record/define.rs].
    - [Team], [Claims], [Runs], [Holds]: [record/mod.rs] with [record/notice.rs],
      [claim/mod.rs], [runs/mod.rs], [hold/mod.rs].
    - [Cursors]: [cursor/mod.rs].
    - [Frames], [Invariants]: what each transition leaves alone, and the
      invariant [Inv] that all twenty-eight of them and [claim] keep ([calm],
      [step]).  [Samples] is one concrete Team for the witnesses.
    - [Reachable], [Leases], [Selection], [Lifecycle], [Changes],
      [Pages] (with the generations of runs), [CursorSafety]: the properties.
    - [Journal]: [action/src/journal/{mod,handle,lifecycle}.rs] and
      [action/src/result.rs]: two tables with the schema's constraints, each SQL
      statement as the operation on the tables it denotes, each call as a
      transaction over them on an [Engine] that may fail any statement.
      [JournalSpec] is the abstract journal (a partial map from generations to
      batches) and what each call promises; [JournalSafety] and [JournalPrepare]
      prove each promise; [JournalHistory] holds the
      properties over whole histories.

    - [Requests]: the Assistant protocol's rules on human requests, responses and
      input files ([vendor/assistant-protocol/src/{human_request,input_file}.rs]);
      [Human]: [action/src/human/mod.rs]; [Transcripts]: their theory.
    - [Redaction]: failure envelopes and their redaction
      ([vendor/assistant-protocol/src/failure.rs], [action/src/failure/mod.rs]),
      with [RedactionSafety]; [Projection]: [action/src/projection.rs].
    - [Executor], [ActionFiles]: [action/src/executor.rs], [action/src/files/mod.rs].
    - [ExecFrames], [Rpc]: [action/src/frames/mod.rs], [action/src/rpc/mod.rs].
    - [Runner], [Batches]: [action/src/runner/{mod,batch}.rs] as state passing over
      a [World] (what is outside, the journal, the blocked workloads and the record of
      what happened).  [RunnerSafety] proves what each call adds to that record
      and composes it with the journal's theorems.
    - [Routes]: the routes a credential is reviewed for and the providers Team
      knows ([vendor/assistant-protocol/src/route.rs], [assistant/src/provider.rs]).
      [Credentials]: the frames of provider calls and the credentials placed on
      them ([action/src/provider/{frame,credential}.rs]).  [Broker]: the broker that
      answers an Action's calls ([provider/{mod,transport}.rs]).  [BrokerSafety]
      is their theory.
    - [Walk], [Admission]: the subschemas of an Action's schema that apply at a
      position and whether it is reserved for a secret ([plan/walk.rs]), and the
      admission of a plan against the contracts of its Actions (the rest of
      [plan/mod.rs]), with its theory.
    - [Traces], [Outputs], [Previews]: what a recording keeps of a value and what a run
      protects ([trace/mod.rs]), what a completed run shows of its result
      ([plan/output.rs]), what a person sees of a step's input ([plan/preview.rs]).
      [TraceSafety] and [OutputSafety] are their theory; [Admission] ends with their
      witnesses.
    - [Disk]: custody and atomic replacement of private files
      ([storage/src/{custody,durable,private}.rs]) over a file system, a finite map
      from paths to nodes, any of whose calls may fail.  [Sealing]: envelopes and the
      keyring ([storage/src/envelope.rs], [private.rs]).  [DiskSafety] is
      the theory of the first.
    - [StateCodec]: the schema of a Team's state file
      ([local/src/routine/store/codec.rs]) and its round trip.  [RoutineStore]:
      the store over both ([local/src/routine/store/{mod,records,remove}.rs]), as
      state passing over its fields and the disk.  [StoreSafety] and [StoreResets] are
      its theory, [StoreSamples] a concrete store.
    - [RunDocuments], [Diagnostics]: the protocol's documents of a run's steps
      ([protocol/.../routine_run.rs]) and the encrypted store of diagnostics, step
      records and run records ([local/src/routine/diagnostics/]), with
      [DiagnosticSafety].
    - [Service]: the Routine service around a run ([local/src/routine/{protection,
      state,contracts}.rs], [service/mod.rs], [incident/mod.rs]); [Replay]: the runtime
      that replays a plan ([local/src/routine/{replay,executor}/mod.rs]), as state
      passing over the runtime and the service.  [ReplaySafety] is the theory of both.
    - [Recovery]: holding a run, verifying its held step, the recovery episode and the
      continuation, and what ended runs leave ([local/src/routine/incident/{hold,
      settle}.rs], [recovery/], [lifecycle.rs], [watchdog.rs], [run/{mod,finish}.rs],
      [replay/execute.rs]).  [RecoverySafety] is its theory, and that of the histories
      of one run ([moves]) over the store, the disk and the service.

    ** What the theorems show

    - Capacity: whatever a Team's Routines, changes and Rodars, the runs it
      starts in any 24 hours reserve at most 20,000 steps, on any clock that does
      not run backwards between claims and with run ids drawn fresh
      ([Reachable.team_daily_steps]); the gate
      is exact ([Starts.free_at_least]); the Team's records stay within their
      declared bounds ([Reachable.team_bounds]).
    - Exclusion: at most one run holds a Routine, so the frozen-run limit never
      refuses a freeze ([Reachable.one_holder]), and a claim starts one run and
      only when none is leased ([Leases.claim_starts_one]); a stopped run accepts
      no lease ([Leases.stopped_run_refuses]) and a resumed one only the person's
      ([Leases.resumed_by_person]); run statuses follow one machine, in which a
      held run or an unresolved incident is never lost
      ([Lifecycle.run_status_machine]).
    - Choice: a claim takes exactly the oldest due Routine that fits, and
      [next_due] is exactly when something becomes claimable
      ([Selection.claimable_oldest], [Selection.next_due_wakes]).
    - Time: the next run is the first instant of the schedule after an instant
      ([Schedule.next_run_first], [Schedule.next_run_continuous]); missed firings
      are counted exactly and a sweep leaves none behind
      ([Selection.count_before_exact], [Selection.sweep_catches_up]); dates and their
      ordinals are a bijection ([Calendar.calendar_exact]); templates always
      write ([Dates.template_writes]).
    - Cursors: they only move forward ([CursorSafety.cursor_forward]), open one recovery episode, keep every
      value a later step copies, and read back from what was sealed, the values
      they keep in canonical member order ([CursorSafety.decode_encode]).
    - Definitions: a well-formed plan never looks ahead
      ([Plans.well_formed_looks_back]); digests ignore member order; a change
      keeps what it must ([Changes]); pages and summaries show every step
      ([Pages]); generations name their run ([Pages]).
    - Admission: a plan is admitted only with its contracts' pins, declared members and
      valid values, and writes nothing at a position reserved for a secret, however
      deep ([Admission.admit_granted]).
    - Results: what is kept of a value is safe, and exact wherever it is available
      ([TraceSafety.keep_exact]); the safe form of a result shows nothing unsafe
      ([OutputSafety.safe_form_safe]), and what is shown of it is always a form the
      protocol admits ([OutputSafety.shown_admitted]).
    - JSON: whatever the reader admits is a well-formed value
      ([ReaderSafety.read_admissible]), and it reads back what the writer wrote,
      within 512 levels ([RoundTrip.read_written]): the shortest decimal text of
      every finite double is rounded back to that double
      ([Floats.float_reads_back]).
    - The journal: every history of its tables is one of the abstract journal
      ([JournalHistory.journal_refines]), a refusal changes nothing
      ([JournalHistory.refusal_changes_nothing]), an execution granted once is
      granted again only after it was returned or removed
      ([JournalHistory.no_double_execution]), and beginning a completed operation
      replays its value or reports a failed statement, on any engine
      ([JournalHistory.complete_replays]).
    - Execution: over any history of batches, an operation's process is not
      started twice ([RunnerSafety.operation_runs_once]); an RPC that failed after
      it may have started fail-stopped its workload, unless its process was read as
      ended and only its result is invalid ([Rpc.rpc_leaves]); output is demultiplexed exactly,
      however it is cut ([ExecFrames.demultiplexed]).
    - Confidentiality: neither a projected frame nor an admitted failure shows a
      value Team injected ([Projection.projection_shows_no_secret],
      [RedactionSafety.failure_shows_no_secret], which holds encodings of at least
      four characters); a file's bytes travel exactly under an authorization
      ([ActionFiles.bytes_travel_authorized]).
    - Credentials: over any calls of an attempt, a credential leaves Team only on the
      call its frame asked for, on a reviewed route of its host
      ([BrokerSafety.credentials_stay_reviewed]), and
      no reply shows one ([BrokerSafety.reply_shows_no_credential]).
    - People's answers: transcripts keep their bounds and order
      ([Transcripts.turn_transcripts]) and what Team replays is what the Assistant
      protocol's own validator admits ([Transcripts.replay_admitted]).
    - Storage: a private file is replaced whole or not at all, whichever system calls
      fail ([DiskSafety.private_write_atomic]); an update is its transition applied
      to what the file shows, persisted before it is answered
      ([StoreSafety.update_persists]); a sealed record reads back as its bytes and
      a recovery snapshot is written once ([StoreResets.record_reads_back]); a lock
      that a reset overtook writes nothing ([StoreResets.reset_stops_writes]).
    - Records of runs: the bodies a Team keeps stay within their bytes
      ([DiagnosticSafety.recordings_bounded]); a recorded diagnostic reads back, its
      failure document in canonical member order, only in its incarnation, and holds
      no protected value ([DiagnosticSafety.diagnostic_reads_back]).
    - Runs: through any interleaving of a run's segments with crashes, restarts, holds
      and recovery, every RPC of a step carries one operation and one exact input and
      none follows the step's sealed completion
      ([RecoverySafety.one_operation_per_step]); a held run is continued at most once,
      and only past what was completed or proven to have had no effect
      ([RecoverySafety.continuation_proven]); what durable state says of a run's
      progress is true of what it sent and of the answers it was given, while its
      records are kept ([RecoverySafety.progress_sound]; [StoreSamples.drained_progress_forgotten] shows
      that a continuation whose snapshot was removed is called unstarted); protection
      once lost stays lost ([RecoverySafety.loss_stays]).  Verifying a held run that
      completed every step panics ([RecoverySafety.finished_verify_panics]).
    - Causes: a stated cause survives its wire form ([Causes.cause_canonical]).

    ** Conventions and bounds

    An [i64] instant, count or duration is a [Z].  Where the code saturates or
    checks, the model does ([i64_sat], [in_i64]); elsewhere sums of instants are
    taken in [Z], since the code's instants are seconds of real clocks.  A
    [usize] index is a [nat].  Rust's [String] is its UTF-8 bytes.  An [f64] is a
    [spec_float] that is a double ([doubles]).  [BTreeMap]s
    are sorted association lists.  Loops carry explicit fuel that is proved
    enough: the day search of [next_run] has [2 ^ 22] turns, above the 3,652,059
    days of the calendar; [count_before] has its own bound of 9,600 turns; the
    format scan of a template and the pages of a definition have their length;
    the reader has one turn per byte and one more, and never spends them all
    ([ReaderSafety]); the walk of a schema has the 65 levels the code allows; the
    numbering of a label has one turn more than there are labels, which always finds
    a free one ([OutputSafety.free_exists]).

    SHA-256, URL-safe base64, the time zone database and Unicode normalisation are fields
    of [Platform]; the standard base64 encoding is a [Base64], the replacement of
    a pattern's matches a [Regexes] (with [RegexLaws] where a theorem needs what a
    replacement leaves), the validation of an Action's schemas a [Schemas], the
    matcher of their member patterns a [Patterns], the
    container engine an [ExecEngine], the broker of provider calls a
    [CallBroker] (which [Broker] instantiates), its network, clock and Stop a
    [Provision], the generated case tables a [CaseTables] (with [CaseLaws] for the
    ASCII letters), HMAC and base64 decoding [Decoders], and the stores, audit log, observer and workloads around the
    runner [Collaborators]; SQLite's willingness to run a statement is an [Engine], which
    never fails the rollback of a transaction; the
    Unicode category table and the regular
    expressions of credentials are fields of [Vocabulary]; randomness is an
    [Entropy].  The theorems hold for every instance; [Platform] asks only that a
    SHA-256 is 32 bytes long.

    A call of the executor is one step of a history: the interleaving of
    concurrent calls, the panic of a task and a poisoned lock are not modelled.
    A Stop that wins its race drops the answer of the attempt it interrupts.
    The exchange with a process is driven by the list of reads and writes its
    stream offers; the frame reader has one turn per buffered byte, which it
    never spends.

    The disk's oracle ([System]) may refuse any call, also every call from some
    point on, which is a crash; a refused call has no effect, so a write cut short is
    one that wrote nothing, which matters only for temporaries; each version of a file
    has an identity of its own, and the loss of power between a rename and its synchronization is not
    modelled.  The ciphers and base64 engine of envelopes are a [Crypto], with
    [CryptoLaws] (decryption inverts encryption, a 16-byte tag, decoding inverts an
    ASCII encoding) and [FullDraws] (a source that fills a buffer fills all of it)
    where a theorem needs them.  A call on a Team's lock is one step: waiting for
    the lock is the order of the calls.

    The service reaches the journal through [RoutineJournal] (which [Journal]
    instantiates) and the clock, the Team's scope, the executions and the audit log
    through [Surroundings]; that what the journal answers is text is a [TextJournal],
    and the engine's turn for a verifier is a [VerifierEngine], which reaches the
    service only by its hooks.  An index out of range is a value of [Halt].  A history
    of a run is a sequence of calls of its runtime and of the service (opening, begin,
    dispatch, failure, advance, hold, episode, verification, continuation, orphan), of
    restarts, and of what others do ([elsewhere]), which is anything that leaves the
    run's cursor, snapshot, evidence and the keyring as they were; it ends before the
    run's own records are removed.  [verify_events] records what a verification saw
    ([Observed]), whether its verifier answered the held step, and what it completed.

    ** Not modelled

    Date recognition, the composition and refinement of plans from a recording
    ([compose/], [refine/], [recording.rs], [provenance.rs], [pin/],
    [reference.rs]), which is the plan for extending this library; how the
    journal opens its file ([journal/file.rs], pragmas); the stored inputs, the
    challenges and the operations endpoint of [action/]; the registry of executions,
    the loops of the watchdog and the freezing of a run around the Routine service;
    message catalogs and language packs; the services around the core
    (HTTP, browser, chat, egress, installation), which are input and
    output; vendored and generated code. *)

From stdpp Require Import base tactics list strings.
From Stdlib Require Import ZArith Lia Sorting.Sorted.

#[local] Open Scope Z_scope.

Declare Scope routine_scope.
Delimit Scope routine_scope with routine.
Open Scope routine_scope.

(** Lemmas on keyed lists, and what a transition's frame resolves. *)
Create HintDb keyed.
Create HintDb frames.

(** ** Fallible code

    A Rust [Result<T, E>] whose error is a stable reason ([RoutineStateError],
    [CursorError], [PlanError], [ScheduleError]) is a [result]. *)
Inductive result (A : Type) : Type :=
| Ok (a : A)
| Err (code : string).
Arguments Ok {A} a.
Arguments Err {A} code.

#[global] Instance result_ret : MRet result := fun A a => Ok a.
#[global] Instance result_bind : MBind result :=
  fun A B f r => match r with Ok a => f a | Err code => Err code end.
#[global] Instance result_fmap : FMap result :=
  fun A B f r => match r with Ok a => Ok (f a) | Err code => Err code end.

Definition is_ok {A} (r : result A) : bool := match r with Ok _ => true | Err _ => false end.

Definition is_some {A} (o : option A) : bool := match o with Some _ => true | None => false end.

(** [option.ok_or(error)]. *)
Definition ok_or {A} (code : string) (o : option A) : result A :=
  match o with Some a => Ok a | None => Err code end.

(** [if refused { return Err(code) }]. *)
Definition refuse (refused : bool) (code : string) : result unit :=
  if refused then Err code else Ok tt.

Lemma result_bind_Ok {A B} (r : result A) (f : A -> result B) b :
  (r ≫= f) = Ok b <-> exists a, r = Ok a /\ f a = Ok b.
Proof. destruct r; cbn; split; [eauto| |discriminate|]; intros (a' & Ha & Hf); by simplify_eq. Qed.

Lemma ok_or_Ok {A} code (o : option A) a : ok_or code o = Ok a <-> o = Some a.
Proof. destruct o; cbn; split; congruence. Qed.

Lemma refuse_Ok b code u : refuse b code = Ok u <-> b = false.
Proof. destruct u, b; cbn; split; congruence. Qed.

(** ** Randomness

    [team_core::entropy::Entropy]: a source that fills a buffer or fails.  The
    source is shared and stateful, so a draw returns the source's next state. *)
Class Entropy (E : Type) := fill : nat -> E -> E * option string.

(** Code that may draw random bytes and may be refused. *)
Definition drawing (E A : Type) : Type := E -> E * result A.

#[global] Instance drawing_ret {E} : MRet (drawing E) := fun A a e => (e, Ok a).
#[global] Instance drawing_bind {E} : MBind (drawing E) :=
  fun A B f m e =>
    match m e with
    | (e', Ok a) => f a e'
    | (e', Err code) => (e', Err code)
    end.

Definition lift {E A} (r : result A) : drawing E A := fun e => (e, r).

Lemma drawing_bind_Ok {E A B} (m : drawing E A) (f : A -> drawing E B) e e' b :
  (m ≫= f) e = (e', Ok b) <-> exists e1 a, m e = (e1, Ok a) /\ f a e1 = (e', Ok b).
Proof.
  unfold mbind, drawing_bind. destruct (m e) as [e1 [a|c]] eqn:Hm; split.
  - eauto.
  - intros (? & ? & ? & ?); by simplify_eq.
  - discriminate.
  - intros (? & ? & ? & ?); by simplify_eq.
Qed.

Lemma lift_Ok {E A} (r : result A) (e e' : E) a :
  lift r e = (e', Ok a) <-> e' = e /\ r = Ok a.
Proof. unfold lift. split; [intros [=]; subst; auto | intros [-> ->]; auto]. Qed.

Lemma drawing_ret_Ok {E A} (a b : A) (e e' : E) :
  (mret a : drawing E A) e = (e', Ok b) <-> e' = e /\ b = a.
Proof. unfold mret, drawing_ret. split; [intros [=]; subst; auto | intros [-> ->]; auto]. Qed.

Lemma Ok_inj {A} (a b : A) : Ok a = Ok b -> a = b.
Proof. by intros [=]. Qed.
Lemma pair_inj {A B} (a c : A) (b d : B) : (a, b) = (c, d) -> a = c /\ b = d.
Proof. by intros [=]. Qed.

(** Splits every successful sequence of calls in the context into its calls;
    results are compared without looking inside the records they hold. *)
Ltac inv_ok1 :=
  match goal with
  | H : (_ ≫= _) = Ok _ |- _ => apply result_bind_Ok in H as (? & ? & H)
  | H : (_ ≫= _) _ = (_, Ok _) |- _ => apply drawing_bind_Ok in H as (? & ? & ? & H)
  | H : lift _ _ = (_, Ok _) |- _ => apply lift_Ok in H as (-> & H)
  | H : mret _ _ = (_, Ok _) |- _ => apply drawing_ret_Ok in H as (-> & H)
  | H : mret _ = Ok _ |- _ => unfold mret, result_ret in H
  | H : ok_or _ _ = Ok _ |- _ => apply ok_or_Ok in H
  | H : refuse _ _ = Ok _ |- _ => apply refuse_Ok in H
  | H : (let '(_, _) := ?p in _) _ = (_, Ok _) |- _ => is_var p; destruct p
  | H : (let '(_, _) := ?p in _) = Ok _ |- _ => is_var p; destruct p
  | H : Ok _ = Ok _ |- _ => apply Ok_inj in H
  | H : (_, _) = (_, _) |- _ => apply pair_inj in H as [? H]
  | H : ?x = ?y |- _ => is_var x; lazymatch type of x with
                        | result _ => fail | bool => fail | Z => fail | string => fail | _ => subst x end
  | H : ?x = ?y |- _ => is_var y; lazymatch type of y with
                        | result _ => fail | bool => fail | Z => fail | string => fail | _ => subst y end
  | H : Err _ = Ok _ |- _ => discriminate H
  | H : (_, Err _) = (_, Ok _) |- _ => discriminate H
  | H : _ || _ = false |- _ => apply orb_false_iff in H as (? & H)
  | H : _ && _ = true |- _ => apply andb_true_iff in H as (? & H)
  | H : negb _ = false |- _ => apply negb_false_iff in H
  | H : negb _ = true |- _ => apply negb_true_iff in H
  end.
Ltac inv_ok := repeat (inv_ok1; cbv beta iota zeta in * |-).

(** ** Assigning one field of a record: [r <| field := v |>]. *)
Class Eta (R : Type) := eta : R -> R.
Class Upd {R T : Type} (field : R -> T) := upd : T -> R -> R.
Arguments upd {R T} field {_} v r /.

Ltac solve_upd :=
  match goal with
  | |- @Upd ?R ?T ?p =>
      unfold Upd;
      let v := fresh "v" in let r := fresh "r" in
      intros v r;
      let i := constr:(_ : Eta R) in
      let e := eval hnf in i in
      let t := eval cbv beta in (e r) in
      match eval pattern (p r) in t with
      | ?g _ => let b := eval cbv beta in (g v) in exact b
      end
  end.

Notation "r <| p := v |>" := (upd p v r)
  (at level 1, left associativity, p at level 9, format "r  <| p  :=  v |>") : routine_scope.

(** ** Strings: Rust's [String], as its UTF-8 bytes *)
Definition seqb (a b : string) : bool := String.eqb a b.
Infix "=s" := seqb (at level 70, no associativity) : routine_scope.

Lemma seqb_true a b : (a =s b) = true <-> a = b.
Proof. apply String.eqb_eq. Qed.
Lemma seqb_false a b : (a =s b) = false <-> a <> b.
Proof. apply String.eqb_neq. Qed.
Lemma seqb_refl a : (a =s a) = true.
Proof. apply String.eqb_refl. Qed.
Lemma seqb_spec a b : reflect (a = b) (a =s b).
Proof. apply String.eqb_spec. Qed.
#[global] Opaque seqb.

Definition is_empty (s : string) : bool := match s with EmptyString => true | _ => false end.

(** [options.contains(&text)]. *)
Definition contains (options : list string) (s : string) : bool := existsb (seqb s) options.

Lemma contains_In options s : contains options s = true <-> In s options.
Proof.
  unfold contains. rewrite existsb_exists. split.
  - intros (x & Hx & He). apply seqb_true in He. by subst.
  - intros H. exists s. by rewrite seqb_refl.
Qed.

(** ** Counting in [Z] *)
Definition len {A} (l : list A) : Z := Z.of_nat (length l).
Definition slen (s : string) : Z := Z.of_nat (String.length s).
Definition zsum (l : list Z) : Z := fold_right Z.add 0 l.

Lemma len_nonneg {A} (l : list A) : 0 <= len l.
Proof. unfold len. lia. Qed.
Lemma len_app {A} (l k : list A) : len (l ++ k) = len l + len k.
Proof. unfold len. rewrite length_app. lia. Qed.
Lemma zsum_app l k : zsum (l ++ k) = zsum l + zsum k.
Proof. induction l; cbn; unfold zsum in *; cbn in *; lia. Qed.

(** ** [i64] *)
Definition i64_max : Z := 9223372036854775807.
Definition i64_min : Z := -9223372036854775808.
Definition i64_sat (z : Z) : Z := Z.max i64_min (Z.min i64_max z).
Definition in_i64 (z : Z) : bool := (i64_min <=? z) && (z <=? i64_max).

Lemma i64_sat_id z : i64_min <= z <= i64_max -> i64_sat z = z.
Proof. unfold i64_sat. lia. Qed.
Lemma i64_sat_range z : i64_min <= i64_sat z <= i64_max.
Proof. unfold i64_sat, i64_min, i64_max. lia. Qed.

(** ** Lists of keyed records

    Team keeps its Routines, runs and notices in vectors and finds each by its
    id: [iter().find], [*iter_mut().find() = updated] and [retain]. *)
Fixpoint update_first {A} (p : A -> bool) (f : A -> A) (l : list A) : list A :=
  match l with
  | [] => []
  | a :: l' => if p a then f a :: l' else a :: update_first p f l'
  end.

Section Keyed.
  Context {A : Type} (key : A -> string).
  Implicit Types (l : list A) (x y : A) (id : string).

Definition find_key id l : option A := List.find (fun a => key a =s id) l.
Definition replace_key x l : list A := update_first (fun a => key a =s key x) (fun _ => x) l.
Definition drop_key id l : list A := List.filter (fun a => negb (key a =s id)) l.

Lemma find_key_Some id l x : find_key id l = Some x -> In x l /\ key x = id.
Proof. intros H. apply find_some in H as [? ?%seqb_true]. auto. Qed.

Lemma find_key_None id l : find_key id l = None <-> ~ In id (map key l).
Proof.
  unfold find_key. induction l as [|a l IH]; cbn; [naive_solver|].
  destruct (seqb_spec (key a) id); [naive_solver|]. rewrite IH. naive_solver.
Qed.

Lemma find_key_is_Some id l : is_Some (find_key id l) <-> In id (map key l).
Proof.
  destruct (find_key id l) eqn:H.
  - apply find_key_Some in H as [? <-]. split; [by intros _; apply in_map|eauto].
  - rewrite find_key_None in H. split; [by intros [??]|done].
Qed.

Lemma in_find_key l x : List.NoDup (map key l) -> In x l -> find_key (key x) l = Some x.
Proof.
  unfold find_key. induction l as [|a l IH]; cbn; [done|].
  inversion_clear 1 as [|? ? Hni Hnd]. intros [->|Hin].
  - by rewrite seqb_refl.
  - destruct (seqb_spec (key a) (key x)) as [He|]; [|auto].
    exfalso. apply Hni. rewrite He. by apply in_map.
Qed.

Lemma replace_key_keys x l : map key (replace_key x l) = map key l.
Proof.
  unfold replace_key. induction l as [|a l IH]; cbn; [done|].
  destruct (seqb_spec (key a) (key x)); cbn; congruence.
Qed.

Lemma length_replace_key x l : length (replace_key x l) = length l.
Proof. by rewrite <- (length_map key), replace_key_keys, length_map. Qed.

Lemma replace_key_absent x l : ~ In (key x) (map key l) -> replace_key x l = l.
Proof.
  unfold replace_key. induction l as [|a l IH]; cbn; [done|].
  destruct (seqb_spec (key a) (key x)); intros H; [naive_solver|].
  f_equal. naive_solver.
Qed.

Lemma in_replace_key x y l : In y (replace_key x l) -> y = x \/ In y l.
Proof.
  unfold replace_key. induction l as [|a l IH]; cbn; [naive_solver|].
  destruct (key a =s key x); cbn; naive_solver.
Qed.

Lemma in_replace_key_iff x y l :
  List.NoDup (map key l) -> In (key x) (map key l) ->
  (In y (replace_key x l) <-> y = x \/ (In y l /\ key y <> key x)).
Proof.
  unfold replace_key. induction l as [|a l IH]; cbn; [naive_solver|].
  inversion_clear 1 as [|? ? Hni Hnd].
  destruct (seqb_spec (key a) (key x)) as [He|Hne]; cbn.
  - intros _. rewrite He in Hni. split; [|naive_solver].
    intros [->|Hy]; [auto|]. right. split; [auto|].
    intros Hk. apply Hni. rewrite <- Hk. by apply in_map.
  - intros [|Hin]; [done|]. specialize (IH Hnd Hin). naive_solver.
Qed.

Lemma find_replace_key_eq x l :
  In (key x) (map key l) -> find_key (key x) (replace_key x l) = Some x.
Proof.
  unfold find_key, replace_key. induction l as [|a l IH]; cbn; [done|].
  destruct (seqb_spec (key a) (key x)) as [He|Hne]; cbn.
  - by rewrite seqb_refl.
  - intros [|H]; [done|]. destruct (seqb_spec (key a) (key x)); [done|]. auto.
Qed.

Lemma find_replace_key_ne x id l :
  key x <> id -> find_key id (replace_key x l) = find_key id l.
Proof.
  intros Hne. unfold find_key, replace_key. induction l as [|a l IH]; cbn; [done|].
  destruct (seqb_spec (key a) (key x)) as [He|Hne']; cbn.
  - destruct (seqb_spec (key x) id); [done|].
    destruct (seqb_spec (key a) id); [congruence|done].
  - destruct (key a =s id); [done|]. auto.
Qed.

Lemma Forall_replace_key (P : A -> Prop) x l :
  P x -> List.Forall P l -> List.Forall P (replace_key x l).
Proof.
  intros Hx Hl. apply List.Forall_forall. intros y Hy.
  apply in_replace_key in Hy as [->|Hy]; [done|]. by eapply List.Forall_forall in Hl.
Qed.

Lemma in_drop_key id y l : In y (drop_key id l) <-> In y l /\ key y <> id.
Proof.
  unfold drop_key. rewrite filter_In, negb_true_iff, seqb_false. done.
Qed.

Lemma drop_key_absent id l : ~ In id (map key (drop_key id l)).
Proof. intros (y & Hk & Hy)%in_map_iff. by apply in_drop_key in Hy as [_ ?]. Qed.

Lemma length_drop_key id l : (length (drop_key id l) <= length l)%nat.
Proof. unfold drop_key. induction l as [|a l IH]; cbn; [done|]. destruct (negb _); cbn; lia. Qed.

Lemma find_drop_key_ne id id' l :
  id <> id' -> find_key id' (drop_key id l) = find_key id' l.
Proof.
  intros Hne. unfold find_key, drop_key. induction l as [|a l IH]; cbn; [done|].
  destruct (seqb_spec (key a) id) as [He|He]; cbn.
  - destruct (seqb_spec (key a) id'); [congruence|done].
  - destruct (key a =s id'); [done|]. auto.
Qed.

(** Replacing the one element of a key exchanges its share of a sum. *)
Lemma zsum_replace_key (f : A -> Z) x l :
  List.NoDup (map key l) -> In (key x) (map key l) ->
  zsum (map f (replace_key x l)) = zsum (map f (drop_key (key x) l)) + f x.
Proof.
  unfold replace_key, drop_key. induction l as [|a l IH]; cbn; [done|].
  inversion_clear 1 as [|? ? Hni Hnd]. intros Hin.
  destruct (seqb_spec (key a) (key x)) as [He|Hne]; cbn.
  - rewrite (proj2 (List.filter_ext_in_iff _ (fun _ => true) l)).
    + rewrite List.filter_true. unfold zsum. lia.
    + intros b Hb. apply negb_true_iff, seqb_false. intros Hk. apply Hni. rewrite He, <- Hk. by apply in_map.
  - destruct Hin as [|Hin]; [done|]. specialize (IH Hnd Hin). unfold zsum in *. lia.
Qed.

Lemma zsum_drop_key_le (f : A -> Z) id l :
  List.Forall (fun x => 0 <= f x) l -> zsum (map f (drop_key id l)) <= zsum (map f l).
Proof.
  unfold drop_key, zsum. induction 1 as [|a l Ha Hl IH]; cbn; [done|]. destruct (negb _); cbn; lia.
Qed.
End Keyed.

Lemma NoDup_map_filter {A B} (f : A -> B) (p : A -> bool) l :
  List.NoDup (map f l) -> List.NoDup (map f (List.filter p l)).
Proof.
  induction l as [|a l IH]; cbn; [done|]. inversion_clear 1 as [|? ? Hni Hnd].
  destruct (p a); cbn; [|auto]. constructor; [|auto].
  intros (y & Hf & Hy)%in_map_iff. apply filter_In in Hy as [Hy _].
  apply Hni. rewrite <- Hf. by apply in_map.
Qed.

Lemma NoDup_map_app_1 {A B} (f : A -> B) l x :
  List.NoDup (map f l) -> ~ In (f x) (map f l) -> List.NoDup (map f (l ++ [x])).
Proof.
  intros Hl Hx. rewrite map_app. cbn. apply NoDup_ListNoDup, NoDup_app. repeat split.
  - by apply NoDup_ListNoDup.
  - intros y Hy Hy'. apply list_elem_of_In in Hy. apply list_elem_of_singleton in Hy'. by subst.
  - apply NoDup_singleton.
Qed.

#[export] Hint Resolve NoDup_map_filter Forall_replace_key find_replace_key_eq in_find_key : keyed.
#[export] Hint Rewrite @replace_key_keys @length_replace_key @len_app @zsum_app : keyed.

(** ** Stable sorting: [slice::sort_by_key], [slice::sort_by] *)
Section Sorting.
  Context {A : Type} (le : A -> A -> bool).

Fixpoint insert_sorted (x : A) (l : list A) : list A :=
  match l with
  | [] => [x]
  | y :: l' => if le x y then x :: l else y :: insert_sorted x l'
  end.
Definition stable_sort (l : list A) : list A := fold_right insert_sorted [] l.

Lemma insert_sorted_perm x l : insert_sorted x l ≡ₚ x :: l.
Proof.
  induction l as [|y l IH]; cbn; [done|]. destruct (le x y); [done|].
  rewrite IH. by rewrite Permutation_swap.
Qed.

Lemma stable_sort_perm l : stable_sort l ≡ₚ l.
Proof. induction l as [|x l IH]; cbn; [done|]. by rewrite insert_sorted_perm, IH. Qed.

Lemma length_stable_sort l : length (stable_sort l) = length l.
Proof. apply Permutation_length, stable_sort_perm. Qed.

Lemma insert_sorted_Sorted x l :
  (forall a b, le a b = false -> le b a = true) ->
  StronglySorted (fun a b => le a b = true) l ->
  (forall a b c, le a b = true -> le b c = true -> le a c = true) ->
  StronglySorted (fun a b => le a b = true) (insert_sorted x l).
Proof.
  intros Htot Hs Htr. induction Hs as [|y l Hs IH Hall]; cbn; [by repeat constructor|].
  destruct (le x y) eqn:Hxy.
  - constructor; [by constructor|]. constructor; [done|].
    eapply List.Forall_impl; [|exact Hall]. eauto.
  - constructor; [done|]. rewrite insert_sorted_perm. constructor; auto.
Qed.

Lemma stable_sort_Sorted l :
  (forall a b, le a b = false -> le b a = true) ->
  (forall a b c, le a b = true -> le b c = true -> le a c = true) ->
  StronglySorted (fun a b => le a b = true) (stable_sort l).
Proof.
  intros Htot Htr. induction l as [|x l IH]; cbn; [constructor|].
  by apply insert_sorted_Sorted.
Qed.

(** A list already in order is left as it is. *)
Lemma stable_sort_id l :
  StronglySorted (fun a b => le a b = true) l -> stable_sort l = l.
Proof.
  induction 1 as [|x l Hs IH Hall]; [done|]. unfold stable_sort in *. cbn. rewrite IH.
  destruct Hall as [|y l' Hy _]; cbn; [done|]. by rewrite Hy.
Qed.
End Sorting.

(** A filter that keeps everything, or nothing. *)
Lemma filter_all {A} (p : A -> bool) l : List.Forall (fun x => p x = true) l -> List.filter p l = l.
Proof. induction 1 as [|x l Hx Hl IH]; cbn; [done|]. by rewrite Hx, IH. Qed.

Lemma filter_none {A} (p : A -> bool) l : List.Forall (fun x => p x = false) l -> List.filter p l = [].
Proof. induction 1 as [|x l Hx Hl IH]; cbn; [done|]. by rewrite Hx, IH. Qed.

(** Sorting by what a map keeps. *)
Lemma insert_sorted_map {A B} (f : A -> B) (le : A -> A -> bool) (le' : B -> B -> bool) x l :
  (forall a b, le' (f a) (f b) = le a b) -> insert_sorted le' (f x) (map f l) = map f (insert_sorted le x l).
Proof.
  intros H. induction l as [|y l IH]; cbn [map insert_sorted]; [done|]. rewrite H. destruct (le x y); [done|].
  cbn [map]. by rewrite IH.
Qed.
Lemma stable_sort_map {A B} (f : A -> B) (le : A -> A -> bool) (le' : B -> B -> bool) l :
  (forall a b, le' (f a) (f b) = le a b) -> stable_sort le' (map f l) = map f (stable_sort le l).
Proof.
  intros H. unfold stable_sort. induction l as [|x l IH]; cbn [map fold_right]; [done|].
  rewrite IH. by apply insert_sorted_map.
Qed.

(** ** Consecutive pairs: [windows(2).all(..)] *)
Fixpoint windows2 {A} (p : A -> A -> bool) (l : list A) : bool :=
  match l with
  | x :: ((y :: _) as l') => p x y && windows2 p l'
  | _ => true
  end.

(** [Vec::dedup]: equal neighbours become one. *)
Fixpoint dedup (l : list string) : list string :=
  match l with
  | a :: ((b :: _) as l') => if a =s b then dedup l' else a :: dedup l'
  | _ => l
  end.
Lemma in_dedup l s : In s (dedup l) <-> In s l.
Proof.
  induction l as [|a [|b l] IH]; [done..|]. cbn [dedup] in *. destruct (seqb_spec a b) as [->|_].
  - rewrite IH. cbn. tauto.
  - change (In s (a :: dedup (b :: l)) <-> In s (a :: b :: l)). cbn [In] in *. cbn [dedup]. rewrite IH. tauto.
Qed.

(** ** Loops

    A [loop] whose body returns a next state or leaves with a result runs up to
    [2 ^ n] times in [loop_pow2 n]: enough for any loop whose measure is below. *)
Fixpoint loop_pow2 {S R : Type} (n : nat) (body : S -> S + R) (s : S) : S + R :=
  match n with
  | O => body s
  | Datatypes.S n' =>
      match loop_pow2 n' body s with
      | inl s' => loop_pow2 n' body s'
      | inr r => inr r
      end
  end.

Section Loop.
  Context {S R : Type} (body : S -> S + R) (I : S -> Prop) (Q : R -> Prop) (mu : S -> Z).
  Context (mu_nonneg : forall s, I s -> 0 <= mu s).
  Context (next : forall s s', I s -> body s = inl s' -> I s' /\ mu s' < mu s).
  Context (leave : forall s r, I s -> body s = inr r -> Q r).

Lemma loop_pow2_inv n s : I s ->
  match loop_pow2 n body s with
  | inl s' => I s' /\ mu s' <= mu s - 2 ^ Z.of_nat n
  | inr r => Q r
  end.
Proof.
  revert s. induction n as [|n IH]; intros s Hs; cbn [loop_pow2].
  - destruct (body s) as [s'|r] eqn:E; [|eauto].
    destruct (next s s' Hs E). change (2 ^ Z.of_nat 0) with 1. split; [done|lia].
  - pose proof (IH s Hs) as H1. destruct (loop_pow2 n body s) as [s1|r]; [|done].
    destruct H1 as [Hs1 Hm1]. pose proof (IH s1 Hs1) as H2.
    destruct (loop_pow2 n body s1) as [s2|r]; [|done]. destruct H2 as [? ?]. split; [done|].
    replace (Z.of_nat (Datatypes.S n)) with (Z.of_nat n + 1) by lia.
    rewrite Z.pow_add_r by lia. lia.
Qed.

(** Below the fuel the loop leaves, with a result the body justifies. *)
Lemma loop_pow2_total n s : I s -> mu s < 2 ^ Z.of_nat n ->
  exists r, loop_pow2 n body s = inr r /\ Q r.
Proof.
  intros Hs Hm. pose proof (loop_pow2_inv n s Hs) as H.
  destruct (loop_pow2 n body s) as [s'|r]; [|eauto].
  destruct H as [Hs' ?]. pose proof (mu_nonneg s' Hs'). lia.
Qed.
End Loop.
