(* ===== verification/Text.v ===== *)
(** * Text: UTF-8 strings and the closed patterns Team declares

    [protocol/http/rust/src/python/text.rs] and the regular expressions of the
    protocol crate, each as a decidable recogniser of its full match.  A Rust
    [String] is its UTF-8 bytes; [chars] decodes its code points. *)

From stdpp Require Import base tactics list strings.
From Stdlib Require Import ZArith Lia Ascii.
From S2P Require Import Prelude.

#[local] Open Scope Z_scope.

Definition byte_code (a : ascii) : Z := Z.of_nat (Ascii.nat_of_ascii a).
Definition byte_of (z : Z) : ascii := Ascii.ascii_of_nat (Z.to_nat z).

(** [text.chars()]: the code points of well-formed UTF-8. *)
Fixpoint chars (s : string) : list Z :=
  match s with
  | EmptyString => []
  | String a s1 =>
      let b := byte_code a in
      if b <? 0xe0 then
        if b <? 0xc0 then b :: chars s1
        else match s1 with
             | String c s2 => ((b - 0xc0) * 64 + (byte_code c - 0x80)) :: chars s2
             | EmptyString => [b]
             end
      else if b <? 0xf0 then
        match s1 with
        | String c (String d s3) =>
            ((b - 0xe0) * 4096 + (byte_code c - 0x80) * 64 + (byte_code d - 0x80)) :: chars s3
        | _ => [b]
        end
      else
        match s1 with
        | String c (String d (String e s4)) =>
            ((b - 0xf0) * 262144 + (byte_code c - 0x80) * 4096
             + (byte_code d - 0x80) * 64 + (byte_code e - 0x80)) :: chars s4
        | _ => [b]
        end
  end.

(** [String::push(char)]: the UTF-8 bytes of one code point. *)
Definition utf8 (c : Z) : string :=
  if c <? 0x80 then String (byte_of c) ""
  else if c <? 0x800 then
    String (byte_of (0xc0 + c / 64)) (String (byte_of (0x80 + c mod 64)) "")
  else if c <? 0x10000 then
    String (byte_of (0xe0 + c / 4096))
      (String (byte_of (0x80 + (c / 64) mod 64)) (String (byte_of (0x80 + c mod 64)) ""))
  else
    String (byte_of (0xf0 + c / 262144))
      (String (byte_of (0x80 + (c / 4096) mod 64))
         (String (byte_of (0x80 + (c / 64) mod 64)) (String (byte_of (0x80 + c mod 64)) ""))).

(** [text::len]: Python's [len(text)], the number of code points. *)
Definition text_len (s : string) : Z := len (chars s).

Fixpoint all_bytes (p : ascii -> bool) (s : string) : bool :=
  match s with
  | EmptyString => true
  | String a s' => p a && all_bytes p s'
  end.

Definition between (lo hi : Z) (a : ascii) : bool :=
  let b := byte_code a in (lo <=? b) && (b <=? hi).
Definition is_digit : ascii -> bool := between 0x30 0x39.
Definition is_lower : ascii -> bool := between 0x61 0x7a.
Definition is_upper : ascii -> bool := between 0x41 0x5a.
Definition is_hex (a : ascii) : bool := is_digit a || between 0x61 0x66 a.
Definition is_alnum (a : ascii) : bool := is_digit a || is_lower a || is_upper a.
Definition one_of (s : string) (a : ascii) : bool :=
  negb (all_bytes (fun c => negb (byte_code c =? byte_code a)) s).

Definition exactly (n : Z) (p : ascii -> bool) (s : string) : bool :=
  (slen s =? n) && all_bytes p s.

Fixpoint split_at (n : nat) (s : string) : string * string :=
  match n, s with
  | O, _ => ("", s)
  | S n', String a s' => let (l, r) := split_at n' s' in (String a l, r)
  | S _, EmptyString => ("", "")
  end.

Lemma split_at_app (s t : string) : split_at (String.length s) (s +:+ t) = (s, t).
Proof.
  induction s as [|a s IH]; [done|]. change (String a s +:+ t) with (String a (s +:+ t)).
  cbn [String.length split_at]. by rewrite IH.
Qed.

(** [text.strip_prefix(prefix)]. *)
Fixpoint strip_prefix (prefix s : string) : option string :=
  match prefix with
  | EmptyString => Some s
  | String a p' =>
      match s with
      | String b s' => if byte_code a =? byte_code b then strip_prefix p' s' else None
      | EmptyString => None
      end
  end.

(** A class of first byte, then at most [n] bytes of another class. *)
Definition head_tail (first rest : ascii -> bool) (n : Z) (s : string) : bool :=
  match s with
  | String a s' => first a && (slen s' <=? n) && all_bytes rest s'
  | EmptyString => false
  end.

(** [[0-9a-f]{32}\Z]: [ROUTINE_ID_RE], [BOOT_RE], [HEX32_RE]. *)
Definition ROUTINE_ID_RE (s : string) : bool := exactly 32 is_hex s.
Definition HEX32_RE (s : string) : bool := exactly 32 is_hex s.
Definition BOOT_RE (s : string) : bool := exactly 32 is_hex s.
(** [[0-9a-f]{64}]. *)
Definition SHA256_RE (s : string) : bool := exactly 64 is_hex s.
(** [sha256:[0-9a-f]{64}\Z]. *)
Definition PLAN_DIGEST_RE (s : string) : bool :=
  match strip_prefix "sha256:" s with Some d => SHA256_RE d | None => false end.
(** [[a-z][a-z0-9_-]{0,31}\Z]. *)
Definition ROUTINE_STEP_ID_RE (s : string) : bool :=
  head_tail is_lower (fun a => is_lower a || is_digit a || one_of "_-" a) 31 s.
(** [[A-Za-z0-9][A-Za-z0-9._:/-]{0,255}\Z]. *)
Definition SAFE_ID_RE (s : string) : bool :=
  head_tail is_alnum (fun a => is_alnum a || one_of "._:/-" a) 255 s.
(** [[A-Za-z0-9][A-Za-z0-9_.-]{0,127}\Z]. *)
Definition WORKLOAD_RE (s : string) : bool :=
  head_tail is_alnum (fun a => is_alnum a || one_of "_.-" a) 127 s.
(** [[a-z][a-z0-9-]{0,63}\Z]. *)
Definition ERROR_CODE_RE (s : string) : bool :=
  head_tail is_lower (fun a => is_lower a || is_digit a || one_of "-" a) 63 s.
(** [[0-9a-f]{8}-[0-9a-f]{4}-4[0-9a-f]{3}-[89ab][0-9a-f]{3}-[0-9a-f]{12}\Z]. *)
Definition OPERATION_ID_RE (s : string) : bool :=
  (slen s =? 36) &&
  (fix go (i : Z) (s : string) : bool :=
     match s with
     | EmptyString => true
     | String a s' =>
         (if (i =? 8) || (i =? 13) || (i =? 18) || (i =? 23) then one_of "-" a
          else if i =? 14 then one_of "4" a
          else if i =? 19 then one_of "89ab" a
          else is_hex a) && go (i + 1) s'
     end) 0 s.

(** A lower-case word, then words of lower-case letters and digits, each after
    one separator. *)
Fixpoint words (sep : string) (open : bool) (s : string) : bool :=
  match s with
  | EmptyString => negb open
  | String a s' =>
      if is_lower a || is_digit a then words sep false s'
      else one_of sep a && negb open && words sep true s'
  end.
Definition separated (sep : string) (s : string) : bool :=
  match s with
  | String a s' => is_lower a && words sep false s'
  | EmptyString => false
  end.
Definition IDENTIFIER_RE (s : string) : bool := separated "-" s.
Definition ACTION_ID_RE (s : string) : bool := separated "._-" s.
(** [^[a-z0-9_]{1,40}$]. *)
Definition TEAM_ID_RE (s : string) : bool :=
  (1 <=? slen s) && (slen s <=? 40) && all_bytes (fun a => is_lower a || is_digit a || one_of "_" a) s.

(** An RFC 6901 pointer: segments after [/], each of bytes other than [/] and
    [~] and of the escapes [~0] and [~1]. *)
Fixpoint pointer_body (s : string) : bool :=
  match s with
  | EmptyString => true
  | String a s' =>
      if one_of "~" a then
        match s' with
        | String b s2 => one_of "01" b && pointer_body s2
        | EmptyString => false
        end
      else pointer_body s'
  end.
Definition POINTER_RE (s : string) : bool :=
  match s with
  | EmptyString => true
  | String a s' => one_of "/" a && pointer_body s'
  end.

(** [(?:[01][0-9]|2[0-3]):[0-5][0-9]\Z]. *)
Definition TIME_RE (s : string) : bool :=
  match s with
  | String a (String b (String c (String d (String e EmptyString)))) =>
      ((one_of "01" a && is_digit b) || (one_of "2" a && between 0x30 0x33 b))
      && one_of ":" c && between 0x30 0x35 d && is_digit e
  | _ => false
  end.

(** [[A-Za-z][A-Za-z0-9_+-]{0,31}(?:/[A-Za-z0-9][A-Za-z0-9_+-]{0,31}){0,2}\Z]. *)
Fixpoint split_on (sep : ascii) (s : string) : list string :=
  match s with
  | EmptyString => [EmptyString]
  | String a s' =>
      if byte_code a =? byte_code sep then EmptyString :: split_on sep s'
      else match split_on sep s' with
           | [] => [String a EmptyString]
           | w :: ws => String a w :: ws
           end
  end.
Definition TIMEZONE_RE (s : string) : bool :=
  let rest a := is_alnum a || one_of "_+-" a in
  match split_on "/" s with
  | [] => false
  | w :: ws =>
      head_tail (fun a => is_lower a || is_upper a) rest 31 w
      && (len ws <=? 2) && forallb (head_tail is_alnum rest 31) ws
  end.

Example time_re_ok : TIME_RE "23:59" = true /\ TIME_RE "24:00" = false.
Proof. split; reflexivity. Qed.
Example timezone_re_ok :
  TIMEZONE_RE "America/Argentina/Buenos_Aires" = true /\ TIMEZONE_RE "/etc/passwd" = false.
Proof. split; reflexivity. Qed.
Example identifiers_ok :
  IDENTIFIER_RE "stock-checker" = true /\ IDENTIFIER_RE "stock--checker" = false
  /\ ACTION_ID_RE "stock.lookup_all" = true.
Proof. repeat split; reflexivity. Qed.

Lemma exactly_slen n p s : exactly n p s = true -> slen s = n.
Proof. unfold exactly. intros [H%Z.eqb_eq _]%andb_true_iff. done. Qed.

Lemma all_bytes_app p s t : all_bytes p (s +:+ t) = all_bytes p s && all_bytes p t.
Proof.
  induction s as [|a s IH]; [done|]. change (String a s +:+ t) with (String a (s +:+ t)).
  cbn [all_bytes]. by rewrite IH, andb_assoc.
Qed.
