(* ===== verification/Json.v ===== *)
(** * JSON values

    The strict JSON value ([vendor/strict-json/src/value.rs]), Python's view of
    one ([protocol/http/rust/src/python/value.rs]), the canonical writer
    ([protocol/http/rust/src/python/json.rs]) and the helpers of the Routine
    crate ([routine/src/json.rs]).  A finite [f64] is a [spec_float]. *)

From stdpp Require Import base tactics list strings pretty relations sorting.
From Stdlib Require Import ZArith Lia Ascii SpecFloat.
From S2P Require Import Prelude Text.

#[local] Open Scope Z_scope.

(** A decoded number: an [i64], a larger integer's decimal text, or a float. *)
Inductive Number : Type :=
| NInt (z : Z)
| NBigInt (digits : string)
| NFloat (f : spec_float).

Inductive Value : Type :=
| VNull
| VBool (b : bool)
| VNumber (n : Number)
| VString (s : string)
| VArray (items : list Value)
| VObject (members : list (string * Value)).

Section ValueInd.
  Context (P : Value -> Prop).
  Context (Hnull : P VNull) (Hbool : forall b, P (VBool b)) (Hnum : forall n, P (VNumber n)).
  Context (Hstr : forall s, P (VString s)).
  Context (Harr : forall l, List.Forall P l -> P (VArray l)).
  Context (Hobj : forall l, List.Forall (fun kv => P (snd kv)) l -> P (VObject l)).

Fixpoint value_ind' (v : Value) : P v :=
  match v with
  | VNull => Hnull
  | VBool b => Hbool b
  | VNumber n => Hnum n
  | VString s => Hstr s
  | VArray l =>
      Harr l ((fix go (l : list Value) : List.Forall P l :=
                 match l with
                 | [] => List.Forall_nil _
                 | x :: l' => List.Forall_cons _ x l' (value_ind' x) (go l')
                 end) l)
  | VObject l =>
      Hobj l ((fix go (l : list (string * Value)) : List.Forall (fun kv => P (snd kv)) l :=
                 match l with
                 | [] => List.Forall_nil _
                 | x :: l' => List.Forall_cons _ x l' (value_ind' (snd x)) (go l')
                 end) l)
  end.
End ValueInd.

(** ** Equality: the derived [PartialEq], members in order *)
Definition number_eqb (a b : Number) : bool :=
  match a, b with
  | NInt x, NInt y => x =? y
  | NBigInt x, NBigInt y => x =s y
  | NFloat x, NFloat y => SFeqb x y
  | _, _ => false
  end.

Fixpoint value_eqb (a b : Value) {struct a} : bool :=
  match a, b with
  | VNull, VNull => true
  | VBool x, VBool y => Bool.eqb x y
  | VNumber x, VNumber y => number_eqb x y
  | VString x, VString y => x =s y
  | VArray l, VArray r =>
      (fix go (l r : list Value) : bool :=
         match l, r with
         | [], [] => true
         | x :: l', y :: r' => value_eqb x y && go l' r'
         | _, _ => false
         end) l r
  | VObject l, VObject r =>
      (fix go (l r : list (string * Value)) : bool :=
         match l, r with
         | [], [] => true
         | (k, x) :: l', (h, y) :: r' => (k =s h) && value_eqb x y && go l' r'
         | _, _ => false
         end) l r
  | _, _ => false
  end.

(** ** Reading values *)
Definition lookup_member (members : list (string * Value)) (key : string) : option Value :=
  option_map snd (List.find (fun kv => fst kv =s key) members).

Definition get (v : Value) (key : string) : option Value :=
  match v with VObject members => lookup_member members key | _ => None end.

(** [at]: [value[key]], [null] when it is missing. *)
Definition at_ (v : Value) (key : string) : Value := default VNull (get v key).

Definition members (v : Value) : list (string * Value) :=
  match v with VObject l => l | _ => [] end.
Definition elements (v : Value) : list Value :=
  match v with VArray l => l | _ => [] end.
Definition is_object (v : Value) : bool := match v with VObject _ => true | _ => false end.
Definition is_bool (v : Value) : bool := match v with VBool _ => true | _ => false end.
Definition is_null (v : Value) : bool := match v with VNull => true | _ => false end.
Definition is_array (v : Value) : bool := match v with VArray _ => true | _ => false end.
Definition as_str (v : Value) : option string := match v with VString s => Some s | _ => None end.
Definition array (v : Value) : option (list Value) := match v with VArray l => Some l | _ => None end.
Definition object_members (v : Value) : option (list (string * Value)) :=
  match v with VObject l => Some l | _ => None end.
Definition is_integer (v : Value) : bool :=
  match v with VNumber (NInt _ | NBigInt _) => true | _ => false end.
Definition small_int (v : Value) : option Z :=
  match v with VNumber (NInt z) => Some z | _ => None end.

(** [as_str(value) == Some(text)]. *)
Definition is_str (v : Value) (s : string) : bool :=
  match as_str v with Some t => t =s s | None => false end.
Definition str_or_empty (v : Value) : string := default "" (as_str v).
(** [pattern.is_full_value(value)]. *)
Definition full_value (re : string -> bool) (v : Value) : bool :=
  match as_str v with Some s => re s | None => false end.

(** [has_exactly] and [has_fields]: exactly these member names, in any order. *)
Definition has_exactly (ms : list (string * Value)) (fields : list string) : bool :=
  Nat.eqb (length ms) (length fields) && forallb (fun kv => contains fields (fst kv)) ms.
Definition has_fields (v : Value) (fields : list string) : bool :=
  match v with VObject ms => has_exactly ms fields | _ => false end.
Definition exact_object (v : Value) (fields : list string) : option (list (string * Value)) :=
  match object_members v with
  | Some ms => if has_exactly ms fields then Some ms else None
  | None => None
  end.
Definition field (ms : list (string * Value)) (key : string) : Value :=
  default VNull (lookup_member ms key).
(** [type(x) is int and low <= x <= high]. *)
Definition whole (v : Value) (low high : Z) : bool :=
  match small_int v with Some z => (low <=? z) && (z <=? high) | None => false end.
(** A string equal to one of these. *)
Definition among (v : Value) (options : list string) : bool :=
  match as_str v with Some s => contains options s | None => false end.

(** ** Building values *)
Definition text (s : string) : Value := VString s.
Definition int (z : Z) : Value := VNumber (NInt z).
Definition object (ms : list (string * Value)) : Value := VObject ms.

(** [set]: one member of an object, replaced in place or appended. *)
Definition set_member (v : Value) (key : string) (m : Value) : Value :=
  match v with
  | VObject ms =>
      if existsb (fun kv => fst kv =s key) ms
      then VObject (update_first (fun kv => fst kv =s key) (fun kv => (fst kv, m)) ms)
      else VObject (ms ++ [(key, m)])
  | _ => v
  end.

(** ** Python's [==] *)
Inductive Numeric : Type :=
| NumInteger (z : Z)
| NumBig (digits : string)
| NumFloat (f : spec_float).

Definition numeric (v : Value) : option Numeric :=
  match v with
  | VBool b => Some (NumInteger (if b then 1 else 0))
  | VNumber (NInt z) => Some (NumInteger z)
  | VNumber (NBigInt d) => Some (NumBig d)
  | VNumber (NFloat f) => Some (NumFloat f)
  | _ => None
  end.

(** The exact decimal text of a whole float, [None] when it has a fraction. *)
Definition whole_float_text (f : spec_float) : option string :=
  match f with
  | S754_zero _ => Some (pretty 0)
  | S754_finite s m e =>
      let sign (z : Z) := if s then - z else z in
      if 0 <=? e then Some (pretty (sign (Zpos m * 2 ^ e)))
      else if (Zpos m) mod 2 ^ (- e) =? 0 then Some (pretty (sign (Zpos m / 2 ^ (- e))))
      else None
  | _ => None
  end.

Definition numbers_equal (a b : Numeric) : bool :=
  match a, b with
  | NumInteger x, NumInteger y => x =? y
  | NumBig x, NumBig y => x =s y
  | NumFloat x, NumFloat y => SFeqb x y
  | NumInteger _, NumBig _ | NumBig _, NumInteger _ => false
  | NumInteger z, NumFloat f | NumFloat f, NumInteger z =>
      match whole_float_text f with Some t => t =s pretty z | None => false end
  | NumBig d, NumFloat f | NumFloat f, NumBig d =>
      match whole_float_text f with Some t => t =s d | None => false end
  end.

Fixpoint py_eq (a b : Value) {struct a} : bool :=
  match numeric a, numeric b with
  | Some x, Some y => numbers_equal x y
  | _, _ =>
      match a, b with
      | VNull, VNull => true
      | VString x, VString y => x =s y
      | VArray l, VArray r =>
          (fix go (l r : list Value) : bool :=
             match l, r with
             | [], [] => true
             | x :: l', y :: r' => py_eq x y && go l' r'
             | _, _ => false
             end) l r
      | VObject l, VObject r =>
          Nat.eqb (length l) (length r) &&
          forallb (fun kv => match lookup_member r (fst kv) with
                             | Some y => py_eq (snd kv) y
                             | None => false
                             end) l
      | _, _ => false
      end
  end.

(** [natural_digits]: the decimal text of a non-negative integer. *)
Definition natural_digits (v : Value) : option string :=
  match v with
  | VNumber (NInt z) => if 0 <=? z then Some (pretty z) else None
  | VNumber (NBigInt d) =>
      match strip_prefix "-" d with Some _ => None | None => Some d end
  | _ => None
  end.

(** ** Writing values *)

(** The standard library's [{:e}]: the shortest decimal digits that round to
    the same double, and the decimal exponent of the first digit. *)
Definition scale10 (num den k : Z) : Z * Z :=
  if 0 <=? k then (num, den * 10 ^ k) else (num * 10 ^ (- k), den).

Fixpoint trim_zeros (l : list ascii) : list ascii :=
  match l with
  | a :: l' => if one_of "0" a then trim_zeros l' else l
  | [] => []
  end.
Definition significant (z : Z) : string :=
  String.string_of_list_ascii (rev (trim_zeros (rev (String.list_ascii_of_string (pretty z))))).

Fixpoint shortest_digits (fuel : nat) (n k : Z) (v lo hi den : Z) (closed : bool) : string * Z :=
  let '(vn, vd) := scale10 v den (k - n + 1) in
  let '(ln, _) := scale10 lo den (k - n + 1) in
  let '(hn, _) := scale10 hi den (k - n + 1) in
  let inside c :=
    if closed then (ln <=? c * vd) && (c * vd <=? hn) else (ln <? c * vd) && (c * vd <? hn) in
  let below := vn / vd in
  let above := below + 1 in
  let found c := (significant c, k + (if 10 ^ n <=? c then 1 else 0)) in
  let nearer := if vn - below * vd <? above * vd - vn then below else above in
  match fuel with
  | O => found nearer
  | S fuel' =>
      if inside below && inside above then found nearer
      else if inside below then found below
      else if inside above then found above
      else shortest_digits fuel' (n + 1) k v lo hi den closed
  end.

Definition decimal_exponent (num den est : Z) : Z :=
  let fits k := let '(n, d) := scale10 num den k in d <=? n in
  if fits (est + 1) then est + 1 else if fits est then est else est - 1.

Definition float_digits (f : spec_float) : string * Z :=
  match f with
  | S754_finite _ m e =>
      let '(s, den) := if 2 <=? e then (2 ^ (e - 2), 1) else (1, 2 ^ (2 - e)) in
      let v := 4 * Zpos m * s in
      let hi := (4 * Zpos m + 2) * s in
      let lo := (if (Zpos m =? 2 ^ 52) && (-1074 <? e)
                 then 4 * Zpos m - 1 else 4 * Zpos m - 2) * s in
      let k := decimal_exponent v den ((Z.log2 (Zpos m) + e) * 30103 / 100000) in
      shortest_digits 17 1 k v lo hi den (Z.even (Zpos m))
  | _ => ("0"%string, 0)
  end.

Definition is_sign_negative (f : spec_float) : bool :=
  match f with
  | S754_zero s | S754_infinity s | S754_finite s _ _ => s
  | S754_nan => false
  end.

Fixpoint zeros (n : nat) : string :=
  match n with O => "" | S n' => String "0" (zeros n') end.
Definition pad2 (z : Z) : string := if z <? 10 then "0" +:+ pretty z else pretty z.

Definition positional (digits : string) (exponent : Z) : string :=
  let point := exponent + 1 in
  let count := slen digits in
  if point <=? 0 then "0." +:+ zeros (Z.to_nat (- point)) +:+ digits
  else if count <=? point then digits +:+ zeros (Z.to_nat (point - count)) +:+ ".0"
  else let '(whole_part, fraction) := split_at (Z.to_nat point) digits in
       whole_part +:+ "." +:+ fraction.

Definition float_repr (f : spec_float) : string :=
  let '(digits, exponent) := float_digits f in
  let sign := if is_sign_negative f then "-"%string else ""%string in
  let body :=
    if (-4 <=? exponent) && (exponent <? 16) then positional digits exponent
    else
      let '(first, rest) := split_at 1 digits in
      let fraction := if is_empty rest then ""%string else "." +:+ rest in
      first +:+ fraction +:+ "e" +:+ (if exponent <? 0 then "-"%string else "+"%string)
      +:+ pad2 (Z.abs exponent) in
  sign +:+ body.

Definition number_text (n : Number) : string :=
  match n with
  | NInt z => pretty z
  | NBigInt digits => digits
  | NFloat f => float_repr f
  end.

Definition hex_digit (d : Z) : ascii := byte_of (if d <? 10 then 0x30 + d else 0x57 + d).

(** The escape [\uXXXX] of one UTF-16 unit. *)
Definition push_escape (unit : Z) : string :=
  "\u" +:+ String (hex_digit (unit / 4096)) (String (hex_digit ((unit / 256) mod 16))
    (String (hex_digit ((unit / 16) mod 16)) (String (hex_digit (unit mod 16)) ""))).

Definition utf16_units (c : Z) : list Z :=
  if c <? 0x10000 then [c]
  else [0xd800 + (c - 0x10000) / 0x400; 0xdc00 + (c - 0x10000) mod 0x400].

Definition quote : string := String (byte_of 0x22) "".

Definition write_char (ensure_ascii : bool) (c : Z) : string :=
  if c =? 0x22 then "\" +:+ quote
  else if c =? 0x5c then "\\"
  else if c =? 0x0a then "\n"
  else if c =? 0x0d then "\r"
  else if c =? 0x09 then "\t"
  else if c =? 0x08 then "\b"
  else if c =? 0x0c then "\f"
  else if c <? 0x20 then push_escape c
  else if c <=? 0x7e then utf8 c
  else if negb ensure_ascii then utf8 c
  else String.concat "" (map push_escape (utf16_units c)).

Definition write_string (ensure_ascii : bool) (s : string) : string :=
  quote +:+ String.concat "" (map (write_char ensure_ascii) (chars s)) +:+ quote.

Record Options : Type := mkOptions { ensure_ascii : bool; sort_keys : bool; compact : bool }.

Definition CANONICAL : Options := mkOptions false true true.

Definition item_separator (o : Options) : string := if compact o then "," else ", ".

(** Byte order on strings, which [String::cmp] and Python's code-point order share. *)
Definition sleb (a b : string) : bool :=
  match String.compare a b with Gt => false | _ => true end.
Definition sltb (a b : string) : bool :=
  match String.compare a b with Lt => true | _ => false end.

(** It is a total order. *)
Lemma compare_trans c a b d : String.compare a b = c -> String.compare b d = c -> String.compare a d = c.
Proof.
  revert b d. induction a as [|x a IH]; intros [|y b] [|z d]; cbn; try congruence.
  unfold Ascii.compare.
  destruct (N.compare_spec (Ascii.N_of_ascii x) (Ascii.N_of_ascii y)) as [Hxy|Hxy|Hxy];
    destruct (N.compare_spec (Ascii.N_of_ascii y) (Ascii.N_of_ascii z)) as [Hyz|Hyz|Hyz];
    intros H1 H2; try congruence;
    destruct (N.compare_spec (Ascii.N_of_ascii x) (Ascii.N_of_ascii z)); try lia; try congruence.
  by apply (IH b d).
Qed.

Lemma compare_refl a : String.compare a a = Eq.
Proof. pose proof (String.compare_antisym a a) as H. destruct (String.compare a a); done. Qed.

Lemma sltb_trans a b c : sltb a b = true -> sltb b c = true -> sltb a c = true.
Proof.
  unfold sltb. destruct (String.compare a b) eqn:H1; try done. destruct (String.compare b c) eqn:H2; try done.
  by rewrite (compare_trans Lt a b c H1 H2).
Qed.
Lemma sltb_asym a b : sltb a b = true -> sltb b a = false.
Proof. unfold sltb. rewrite (String.compare_antisym b a). by destruct (String.compare a b). Qed.
Lemma sltb_total a b : sltb a b = false -> sltb b a = false -> a = b.
Proof.
  unfold sltb. rewrite (String.compare_antisym b a). destruct (String.compare a b) eqn:H; try done.
  by apply String.compare_eq_iff in H.
Qed.
Lemma sleb_sltb a b : sleb a b = negb (sltb b a).
Proof. unfold sleb, sltb. rewrite (String.compare_antisym b a). by destruct (String.compare a b). Qed.
Lemma sleb_total a b : sleb a b = false -> sleb b a = true.
Proof. rewrite !sleb_sltb. intros ?%negb_false_iff. apply negb_true_iff. by apply sltb_asym. Qed.
Lemma sleb_antisym a b : sleb a b = true -> sleb b a = true -> a = b.
Proof. rewrite !sleb_sltb, !negb_true_iff. intros ? ?. by apply sltb_total. Qed.
Lemma sleb_trans a b c : sleb a b = true -> sleb b c = true -> sleb a c = true.
Proof.
  rewrite !sleb_sltb, !negb_true_iff. intros H1 H2. destruct (sltb c a) eqn:H3; [|done].
  destruct (sltb a b) eqn:H4; [by rewrite (sltb_trans _ _ _ H3 H4) in H2|].
  apply (sltb_total b a) in H1; [|done]. congruence.
Qed.

Definition sorted_by_name {A} (ms : list (string * A)) : list (string * A) :=
  stable_sort (fun x y => sleb (fst x) (fst y)) ms.

(** [dumps]: the members are written sorted by name when the options ask so. *)
Fixpoint dumps (o : Options) (v : Value) : string :=
  match v with
  | VNull => "null"
  | VBool true => "true"
  | VBool false => "false"
  | VNumber n => number_text n
  | VString s => write_string (ensure_ascii o) s
  | VArray items =>
      "[" +:+ String.concat (item_separator o) (map (dumps o) items) +:+ "]"
  | VObject ms =>
      let written := map (fun kv => (fst kv, dumps o (snd kv))) ms in
      let ordered := if sort_keys o then sorted_by_name written else written in
      "{" +:+ String.concat (item_separator o)
                (map (fun kv => write_string (ensure_ascii o) (fst kv)
                                +:+ (if compact o then ":" else ": ") +:+ snd kv) ordered)
      +:+ "}"
  end.

(** The canonical bytes of a value, and their length. *)
Definition canonical (v : Value) : string := dumps CANONICAL v.
Definition encoded_bytes (v : Value) : Z := slen (canonical v).

(** [sorted_members]: an object's members sorted by name. *)
Definition sorted_members (v : Value) : list (string * Value) := sorted_by_name (members v).

(** [json_text]: Python's default [json.dumps(value, ensure_ascii=False)]. *)
Definition json_text (v : Value) : string := dumps (mkOptions false false false) v.

Definition f64 (m : positive) (e : Z) : spec_float := S754_finite false m e.
Example float_repr_tests :
  float_repr (f64 6755399441055744 (-52)) = "1.5"%string
  /\ float_repr (f64 7205759403792794 (-56)) = "0.1"%string
  /\ float_repr (f64 5000000000000000 1) = "1e+16"%string
  /\ float_repr (f64 1 (-1074)) = "5e-324"%string
  /\ float_repr (f64 9007199254740991 971) = "1.7976931348623157e+308"%string
  /\ float_repr (S754_zero true) = "-0.0"%string.
Proof. vm_compute. auto 10. Qed.
Example canonical_test :
  canonical (object [("b"%string, VArray [int 1; VNull; VBool true]); ("a"%string, object [])])
  = ("{" +:+ quote +:+ "a" +:+ quote +:+ ":{}," +:+ quote +:+ "b" +:+ quote +:+ ":[1,null,true]}")%string.
Proof. vm_compute. reflexivity. Qed.

(** ** Members of closed objects *)
Lemma lookup_member_in ms key v : lookup_member ms key = Some v -> In (key, v) ms.
Proof.
  unfold lookup_member. destruct (List.find _ ms) as [[k x]|] eqn:Hf; cbn; [|done].
  intros [= <-]. apply find_some in Hf as [Hin Hk%seqb_true]. cbn in Hk. by subst k.
Qed.

Lemma exact_object_Some v fields ms :
  exact_object v fields = Some ms -> v = VObject ms /\ has_exactly ms fields = true.
Proof.
  unfold exact_object, object_members. destruct v; try done.
  destruct (has_exactly members0 fields) eqn:Hx; intros [= <-]. done.
Qed.

Lemma has_exactly_member ms fields key v :
  has_exactly ms fields = true -> lookup_member ms key = Some v -> In key fields.
Proof.
  unfold has_exactly. intros [_ Hall]%andb_true_iff Hl%lookup_member_in.
  rewrite forallb_forall in Hall. apply Hall in Hl. by apply contains_In in Hl.
Qed.

Lemma get_object ms key : get (VObject ms) key = lookup_member ms key.
Proof. done. Qed.
Lemma at_object ms key : at_ (VObject ms) key = field ms key.
Proof. done. Qed.
Lemma at_get v key x : get v key = Some x -> at_ v key = x.
Proof. unfold at_. by intros ->. Qed.

(** With distinct names, the order of the members does not matter. *)
Lemma lookup_member_perm l l' key :
  List.NoDup (map fst l) -> l ≡ₚ l' -> lookup_member l key = lookup_member l' key.
Proof.
  intros Hnd Hp. unfold lookup_member. induction Hp as [|[k v] l l' Hp IH|[k v] [h w] l|l l' l'' H1 IH1 H2 IH2];
    cbn in *.
  - done.
  - inversion_clear Hnd. destruct (k =s key); [done|]. auto.
  - inversion_clear Hnd as [|? ? Hni _]. destruct (seqb_spec h key) as [->|]; destruct (seqb_spec k key) as [->|];
      try done. destruct Hni. cbn. auto.
  - rewrite IH1 by done. apply IH2. apply NoDup_ListNoDup. apply NoDup_ListNoDup in Hnd.
    by rewrite <- H1.
Qed.

(** ** Canonical bytes do not depend on the order of members

    One exchange of members somewhere inside a value. *)
Inductive reorder : Value -> Value -> Prop :=
| reorder_members ms ms' :
    List.NoDup (map fst ms) -> ms ≡ₚ ms' -> reorder (VObject ms) (VObject ms')
| reorder_element before v w after :
    reorder v w -> reorder (VArray (before ++ v :: after)) (VArray (before ++ w :: after))
| reorder_member before key v w after :
    reorder v w -> reorder (VObject (before ++ (key, v) :: after)) (VObject (before ++ (key, w) :: after)).
Definition reordered : Value -> Value -> Prop := rtsc reorder.

Lemma sorted_by_name_perm {A} (ms ms' : list (string * A)) :
  List.NoDup (map fst ms) -> ms ≡ₚ ms' -> sorted_by_name ms = sorted_by_name ms'.
Proof.
  intros Hnd Hp. unfold sorted_by_name.
  apply (StronglySorted_unique_strong (fun x y => sleb (fst x) (fst y) = true)).
  - intros [k v] [h w] Hx Hy H1 H2. cbn in *. pose proof (sleb_antisym _ _ H1 H2) as ->.
    rewrite stable_sort_perm in Hx. rewrite stable_sort_perm, <- Hp in Hy.
    apply list_elem_of_In in Hx, Hy. f_equal.
    pose proof (in_find_key fst ms _ Hnd Hx) as E1. pose proof (in_find_key fst ms _ Hnd Hy) as E2.
    cbn in *. congruence.
  - apply stable_sort_Sorted; eauto using sleb_total, sleb_trans.
  - apply stable_sort_Sorted; eauto using sleb_total, sleb_trans.
  - by rewrite !stable_sort_perm.
Qed.

Lemma dumps_reorder o v w : sort_keys o = true -> reorder v w -> dumps o v = dumps o w.
Proof.
  intros Hs. induction 1 as [ms ms' Hnd Hp|before v w after _ IH|before key v w after _ IH]; cbn [dumps].
  - rewrite Hs. do 2 f_equal. f_equal. f_equal. apply sorted_by_name_perm.
    + by rewrite map_map.
    + by apply Permutation_map.
  - by rewrite !map_app, !map_cons, IH.
  - by rewrite !map_app, !map_cons; cbn [fst snd]; rewrite IH.
Qed.

#[global] Instance canonical_reordered : Proper (reordered ==> eq) canonical.
Proof.
  intros v w. induction 1 as [|u v w [H|H] _ IH]; [done| |]; rewrite <- IH; [|symmetry]; by apply dumps_reorder.
Qed.
