(* ===== verification/Reader.v ===== *)
(** * The strict JSON reader

    [vendor/strict-json/src]: a recursive-descent reader of one UTF-8 document
    ([lib.rs], [parser.rs], [parser/string.rs], [parser/number.rs]).  The Rust
    parser keeps the whole text and a byte position; here it keeps the text not
    yet read, from which the position is computed.  Every loop consumes at least
    one byte, so the length of the document bounds the turns of them all; running
    out of turns is the separate answer [Spent], which [ReaderSafety] shows is
    never given. *)

From stdpp Require Import base tactics list strings pretty.
From Stdlib Require Import ZArith Lia Ascii SpecFloat.
From S2P Require Import Prelude Text Json.

#[local] Open Scope Z_scope.

Module Strict.

(** ** Refusals *)
Inductive Error : Type :=
| ByteOrderMark
| InvalidUtf8 (offset : Z)
| Syntax (offset : Z)
| ControlCharacter (offset : Z)
| InvalidEscape (offset : Z)
| LoneSurrogate (offset : Z)
| DuplicateKey (offset : Z)
| NonFiniteNumber (offset : Z)
| IntegerTooLong (offset : Z)
| TooDeep (offset : Z)
| TrailingData (offset : Z).

Definition MAX_DEPTH : Z := 512.
Definition MAX_INTEGER_DIGITS : Z := 4300.
Definition BYTE_ORDER_MARK : string :=
  String (byte_of 0xef) (String (byte_of 0xbb) (String (byte_of 0xbf) "")).

(** ** The parser

    [rest] is [bytes[pos..]]. *)
Record Parser : Type := mkParser { bytes : string; rest : string; depth : Z }.
#[global] Instance eta_parser : Eta Parser := fun p => mkParser (bytes p) (rest p) (depth p).
#[global] Instance upd_rest : Upd rest := ltac:(solve_upd).
#[global] Instance upd_depth : Upd depth := ltac:(solve_upd).

Definition pos (p : Parser) : Z := slen (bytes p) - slen (rest p).

(** Reading answers a value and the parser after it, a refusal, or that the
    turns were spent. *)
Inductive reading (A : Type) : Type :=
| Read (a : A) (p : Parser)
| Refused (e : Error)
| Spent.
Arguments Read {A} a p.
Arguments Refused {A} e.
Arguments Spent {A}.

Definition reader (A : Type) : Type := Parser -> reading A.
#[global] Instance reader_ret : MRet reader := fun A a p => Read a p.
#[global] Instance reader_bind : MBind reader :=
  fun A B f m p =>
    match m p with
    | Read a q => f a q
    | Refused e => Refused e
    | Spent => Spent
    end.

Definition peek (p : Parser) : option ascii :=
  match rest p with String a _ => Some a | EmptyString => None end.
Definition next_is (c : ascii) (p : Parser) : bool :=
  match peek p with Some a => Ascii.eqb a c | None => false end.
(** [self.pos += n]. *)
Fixpoint drop_bytes (n : nat) (s : string) : string :=
  match n, s with
  | O, _ => s
  | S n', String _ s' => drop_bytes n' s'
  | S _, EmptyString => EmptyString
  end.
Definition skip (n : nat) (p : Parser) : Parser := p <| rest := drop_bytes n (rest p) |>.

(** [Err(error)] and [Err(self.syntax())]. *)
Definition fail {A} (e : Error) : reader A := fun _ => Refused e.
Definition syntax {A} : reader A := fun p => Refused (Syntax (pos p)).

Definition is_space (a : ascii) : bool :=
  Ascii.eqb a " " || Ascii.eqb a "009" || Ascii.eqb a "010" || Ascii.eqb a "013".
(** The bytes of the longest prefix of a class, and what follows it. *)
Fixpoint span (p : ascii -> bool) (s : string) : string * string :=
  match s with
  | String a s' => if p a then let (l, r) := span p s' in (String a l, r) else ("", s)
  | EmptyString => ("", "")
  end.
Definition skip_whitespace : reader unit := fun p => Read tt (p <| rest := snd (span is_space (rest p)) |>).

Definition eat (c : ascii) : reader bool := fun p =>
  if next_is c p then Read true (skip 1 p) else Read false p.

(** ** Strings ([parser/string.rs]) *)
Definition HIGH_SURROGATES (unit : Z) : bool := (0xD800 <=? unit) && (unit <? 0xDC00).
Definition LOW_SURROGATES (unit : Z) : bool := (0xDC00 <=? unit) && (unit <? 0xE000).

(** [char::to_digit(16)]. *)
Definition to_digit16 (a : ascii) : option Z :=
  if is_digit a then Some (byte_code a - 0x30)
  else if between 0x61 0x66 a then Some (byte_code a - 0x57)
  else if between 0x41 0x46 a then Some (byte_code a - 0x37)
  else None.

Definition hex4 (at_ : Z) : reader Z := fun p =>
  match rest p with
  | String a (String b (String c (String d s))) =>
      match to_digit16 a, to_digit16 b, to_digit16 c, to_digit16 d with
      | Some a, Some b, Some c, Some d =>
          Read (((a * 16 + b) * 16 + c) * 16 + d) (p <| rest := s |>)
      | _, _, _, _ => Refused (InvalidEscape at_)
      end
  | _ => Refused (InvalidEscape at_)
  end.

Definition low_surrogate (at_ : Z) : reader Z := fun p =>
  match strip_prefix "\u" (rest p) with
  | Some s =>
      (unit ← hex4 (pos p);
       if LOW_SURROGATES unit then mret unit else fail (LoneSurrogate at_))
        (p <| rest := s |>)
  | None => Refused (LoneSurrogate at_)
  end.

(** [char::from_u32]: a surrogate is no character. *)
Definition from_u32 (code : Z) : option Z :=
  if (code <=? 0x10FFFF) && negb ((0xD800 <=? code) && (code <=? 0xDFFF)) then Some code else None.

Definition unicode (at_ : Z) : reader Z :=
  unit ← hex4 at_;
  code ← (if HIGH_SURROGATES unit
          then low ← low_surrogate at_;
               mret (0x10000 + Z.shiftl (unit - 0xD800) 10 + (low - 0xDC00))
          else mret unit);
  match from_u32 code with
  | Some c => mret c
  | None => fail (LoneSurrogate at_)
  end.

(** The escape whose backslash is the current byte. *)
Definition escape : reader Z := fun p =>
  let at_ := pos p in
  let p := skip 1 p in
  match peek p with
  | Some a =>
      let p := skip 1 p in
      if Ascii.eqb a "034" then Read 0x22 p
      else if Ascii.eqb a "\" then Read 0x5c p
      else if Ascii.eqb a "/" then Read 0x2f p
      else if Ascii.eqb a "b" then Read 0x08 p
      else if Ascii.eqb a "f" then Read 0x0c p
      else if Ascii.eqb a "n" then Read 0x0a p
      else if Ascii.eqb a "r" then Read 0x0d p
      else if Ascii.eqb a "t" then Read 0x09 p
      else if Ascii.eqb a "u" then unicode at_ p
      else Refused (InvalidEscape at_)
  | None => Refused (InvalidEscape at_)
  end.

(** A byte of a raw run: not a quote, a backslash or a control character. *)
Definition raw_byte (a : ascii) : bool :=
  negb (Ascii.eqb a "034") && negb (Ascii.eqb a "\") && (0x20 <=? byte_code a).

Fixpoint string_loop (turns : nat) (decoded : string) : reader string := fun p =>
  match turns with
  | O => Spent
  | S turns' =>
      let (run, after) := span raw_byte (rest p) in
      let decoded := decoded +:+ run in
      let p := p <| rest := after |> in
      match peek p with
      | Some a =>
          if Ascii.eqb a "034" then Read decoded (skip 1 p)
          else if Ascii.eqb a "\" then (c ← escape; string_loop turns' (decoded +:+ utf8 c)) p
          else Refused (ControlCharacter (pos p))
      | None => Refused (Syntax (pos p))
      end
  end.
Definition string_ : reader string := fun p =>
  string_loop (S (String.length (rest p))) "" (skip 1 p).

(** ** Numbers ([parser/number.rs]) *)
Definition required_digits : reader unit := fun p =>
  let (digits, after) := span is_digit (rest p) in
  if is_empty digits then syntax p else Read tt (p <| rest := after |>).

(** The decimal value of a run of digits, after [acc]. *)
Fixpoint digits_value (acc : Z) (s : string) : Z :=
  match s with
  | String a s' => digits_value (acc * 10 + (byte_code a - 0x30)) s'
  | EmptyString => acc
  end.
(** [literal.parse::<i64>()] on a literal of the grammar. *)
Definition parse_i64 (literal : string) : option Z :=
  let z := match strip_prefix "-" literal with
           | Some digits => - digits_value 0 digits
           | None => digits_value 0 literal
           end in
  if in_i64 z then Some z else None.

Definition integer (literal : string) (offset : Z) : Error + Number :=
  let digits := default literal (strip_prefix "-" literal) in
  if MAX_INTEGER_DIGITS <? slen digits then inl (IntegerTooLong offset)
  else inr (match parse_i64 literal with Some z => NInt z | None => NBigInt literal end).

(** [literal.parse::<f64>()]: the decimal fraction, rounded to the nearest
    double, ties to even; an overflow is infinite. *)
Definition decimal_float (negative : bool) (digits : Z) (exponent : Z) : spec_float :=
  match digits with
  | Zpos m =>
      if 0 <=? exponent then binary_normalize 53 1024 ((if negative then -1 else 1) * (Zpos m * 10 ^ exponent)) 0 negative
      else match 10 ^ (- exponent) with
           | Zpos d => SFdiv 53 1024 (S754_finite negative m 0) (S754_finite false d 0)
           | _ => S754_zero negative
           end
  | _ => S754_zero negative
  end.
Definition parse_f64 (literal : string) : spec_float :=
  let negative := match strip_prefix "-" literal with Some _ => true | None => false end in
  let body := default literal (strip_prefix "-" literal) in
  let (whole, after) := span is_digit body in
  let (fraction, after) := match strip_prefix "." after with
                           | Some s => span is_digit s
                           | None => ("", after)
                           end in
  let exponent := match after with
                  | String _ s =>
                      match strip_prefix "-" s with
                      | Some e => - digits_value 0 e
                      | None => digits_value 0 (default s (strip_prefix "+" s))
                      end
                  | EmptyString => 0
                  end in
  decimal_float negative (digits_value 0 (whole +:+ fraction)) (exponent - slen fraction).

Definition is_finite (f : spec_float) : bool :=
  match f with S754_zero _ | S754_finite _ _ _ => true | _ => false end.
Definition float (literal : string) (offset : Z) : Error + Number :=
  let f := parse_f64 literal in
  if is_finite f then inr (NFloat f) else inl (NonFiniteNumber offset).

Definition position : reader Z := fun p => Read (pos p) p.

(** The fraction and the exponent that may follow. *)
Definition fractional_part (integral : Z) : reader bool :=
  point ← eat ".";
  _ ← (if point : bool then required_digits else mret tt);
  small ← eat "e";
  large ← (if small : bool then mret true else eat "E");
  _ ← (if large : bool then
         plus ← eat "+";
         _ ← (if plus : bool then mret true else eat "-");
         required_digits
       else mret tt);
  now ← position;
  mret (negb (now =? integral)).

(** The grammar of one number: whether it has a fraction or an exponent. *)
Definition number_grammar : reader bool :=
  _ ← eat "-";
  zero ← eat "0";
  _ ← (if zero : bool then mret tt else required_digits);
  integral ← position;
  fractional_part integral.

(** The text from one position to a later one. *)
Definition text_between (p q : Parser) : string :=
  fst (split_at (Z.to_nat (pos q - pos p)) (rest p)).

Definition number : reader Number := fun p =>
  match number_grammar p with
  | Read fractional q =>
      let literal := text_between p q in
      match (if fractional then float literal (pos p) else integer literal (pos p)) with
      | inr n => Read n q
      | inl e => Refused e
      end
  | Refused e => Refused e
  | Spent => Spent
  end.

(** ** Values *)
Definition literal (word : string) (v : Value) : reader Value := fun p =>
  match strip_prefix word (rest p) with
  | Some s => Read v (p <| rest := s |>)
  | None => syntax p
  end.

Definition enter : reader unit := fun p =>
  if depth p =? MAX_DEPTH then Refused (TooDeep (pos p))
  else skip_whitespace (skip 1 (p <| depth := depth p + 1 |>)).

Definition leave : reader unit := fun p => Read tt (p <| depth := depth p - 1 |>).

Definition separator (close : ascii) : reader bool :=
  _ ← skip_whitespace;
  closed ← eat close;
  if closed : bool then _ ← leave; mret true
  else
    comma ← eat ",";
    if comma : bool then _ ← skip_whitespace; mret false else syntax.

(** A repeated field name, by sorting the names. *)
Definition unique (ms : list (string * Value)) (offset : Z) : Error + Value :=
  let keys := stable_sort sleb (map fst ms) in
  if windows2 (fun a b => negb (a =s b)) keys then inr (VObject ms) else inl (DuplicateKey offset).

Section Containers.
  Context (value : reader Value).

Definition member : reader (string * Value) := fun p =>
  if next_is "034" p then
    (key ← string_;
     _ ← skip_whitespace;
     colon ← eat ":";
     if colon : bool then
       _ ← skip_whitespace;
       v ← value;
       mret (key, v)
     else syntax) p
  else syntax p.

Fixpoint array_loop (turns : nat) (items : list Value) : reader Value :=
  match turns with
  | O => fun _ => Spent
  | S turns' =>
      v ← value;
      closed ← separator "]";
      if closed : bool then mret (VArray (items ++ [v])) else array_loop turns' (items ++ [v])
  end.
Definition array_ (turns : nat) : reader Value :=
  _ ← enter;
  closed ← eat "]";
  if closed : bool then _ ← leave; mret (VArray []) else array_loop turns [].

Fixpoint object_loop (turns : nat) (start : Z) (ms : list (string * Value)) : reader Value :=
  match turns with
  | O => fun _ => Spent
  | S turns' =>
      kv ← member;
      closed ← separator "}";
      if closed : bool then
        match unique (ms ++ [kv]) start with inr v => mret v | inl e => fail e end
      else object_loop turns' start (ms ++ [kv])
  end.
Definition object_ (turns : nat) : reader Value := fun p =>
  (_ ← enter;
   closed ← eat "}";
   if closed : bool then _ ← leave; mret (VObject []) else object_loop turns (pos p) []) p.
End Containers.

(** One value; [turns] bounds both the nesting and the members of a container. *)
Fixpoint value (turns : nat) : reader Value := fun p =>
  match turns with
  | O => Spent
  | S turns' =>
      match peek p with
      | Some a =>
          if Ascii.eqb a "{" then object_ (value turns') turns' p
          else if Ascii.eqb a "[" then array_ (value turns') turns' p
          else if Ascii.eqb a "034" then (s ← string_; mret (VString s)) p
          else if Ascii.eqb a "t" then literal "true" (VBool true) p
          else if Ascii.eqb a "f" then literal "false" (VBool false) p
          else if Ascii.eqb a "n" then literal "null" VNull p
          else if Ascii.eqb a "-" || is_digit a then (n ← number; mret (VNumber n)) p
          else syntax p
      | None => syntax p
      end
  end.

Definition ended (v : Value) : reader Value := fun p =>
  match rest p with
  | EmptyString => Read v p
  | _ => Refused (TrailingData (pos p))
  end.
Definition document (text : string) : reading Value :=
  (_ ← skip_whitespace;
   v ← value (S (String.length text));
   _ ← skip_whitespace;
   ended v) (mkParser text text 0).

(** ** UTF-8 ([std::str::from_utf8])

    The offset of the first byte of no valid sequence, [None] for valid text. *)
Definition continuation (a : ascii) : bool := between 0x80 0xbf a.
(** The second byte a lead byte of three or four bytes admits. *)
Definition second3 (lead : Z) (a : ascii) : bool :=
  if lead =? 0xe0 then between 0xa0 0xbf a else if lead =? 0xed then between 0x80 0x9f a else continuation a.
Definition second4 (lead : Z) (a : ascii) : bool :=
  if lead =? 0xf0 then between 0x90 0xbf a else if lead =? 0xf4 then between 0x80 0x8f a else continuation a.

Fixpoint invalid_from (s : string) (offset : Z) : option Z :=
  match s with
  | EmptyString => None
  | String a s1 =>
      let b := byte_code a in
      if b <? 0x80 then invalid_from s1 (offset + 1)
      else if (0xc2 <=? b) && (b <=? 0xdf) then
        match s1 with
        | String c s2 => if continuation c then invalid_from s2 (offset + 2) else Some offset
        | _ => Some offset
        end
      else if (0xe0 <=? b) && (b <=? 0xef) then
        match s1 with
        | String c (String d s3) =>
            if second3 b c && continuation d then invalid_from s3 (offset + 3) else Some offset
        | _ => Some offset
        end
      else if (0xf0 <=? b) && (b <=? 0xf4) then
        match s1 with
        | String c (String d (String e s4)) =>
            if second4 b c && continuation d && continuation e
            then invalid_from s4 (offset + 4) else Some offset
        | _ => Some offset
        end
      else Some offset
  end.

(** [parse]. *)
Definition read_document (input : string) : reading Value :=
  match strip_prefix BYTE_ORDER_MARK input with
  | Some _ => Refused ByteOrderMark
  | None =>
      match invalid_from input 0 with
      | Some offset => Refused (InvalidUtf8 offset)
      | None => document input
      end
  end.
End Strict.

(** [strict_json::parse(input).ok()]. *)
Definition json_parse (input : string) : option Value :=
  match Strict.read_document input with Strict.Read v _ => Some v | _ => None end.

Example reads_numbers :
  json_parse "[1, -0, 12345678901234567890, 1.5, 1e-7, 5e-324]"
  = Some (VArray [int 1; int 0; VNumber (NBigInt "12345678901234567890");
                  VNumber (NFloat (f64 6755399441055744 (-52)));
                  VNumber (NFloat (f64 7555786372591432 (-76))); VNumber (NFloat (f64 1 (-1074)))]).
Proof. vm_compute. reflexivity. Qed.
Example refuses_documents :
  Strict.read_document "[1,]" = Strict.Refused (Strict.Syntax 3)
  /\ Strict.read_document "1e999" = Strict.Refused (Strict.NonFiniteNumber 0)
  /\ Strict.read_document "01" = Strict.Refused (Strict.TrailingData 1)
  /\ Strict.read_document "{}x" = Strict.Refused (Strict.TrailingData 2).
Proof. vm_compute. auto. Qed.
