(* ===== verification/Utf8.v ===== *)
(** * UTF-8 text and decimal text

    Valid UTF-8 is exactly a sequence of encoded scalar values, which [chars]
    decodes; and [pretty] writes exactly the decimal literal that reads back. *)

From stdpp Require Import base tactics list strings pretty.
From Stdlib Require Import ZArith Lia Ascii.
From S2P Require Import Prelude Text Json Reader.
Import Strict.

#[local] Open Scope Z_scope.

(** ** Bytes *)
Lemma byte_code_range a : 0 <= byte_code a < 256.
Proof. unfold byte_code. pose proof (Ascii.nat_ascii_bounded a). lia. Qed.

Lemma byte_of_code a : byte_of (byte_code a) = a.
Proof. unfold byte_of, byte_code. rewrite Nat2Z.id. apply Ascii.ascii_nat_embedding. Qed.

Lemma byte_code_of z : 0 <= z < 256 -> byte_code (byte_of z) = z.
Proof. intros H. unfold byte_of, byte_code. rewrite Ascii.nat_ascii_embedding by lia. lia. Qed.

Lemma byte_code_inj a b : byte_code a = byte_code b -> a = b.
Proof. intros H. by rewrite <- (byte_of_code a), H, byte_of_code. Qed.

Lemma between_spec lo hi a : between lo hi a = true <-> lo <= byte_code a <= hi.
Proof. unfold between. rewrite andb_true_iff, !Z.leb_le. done. Qed.

Lemma string_app_cons x (a b : string) : String x a +:+ b = String x (a +:+ b).
Proof. done. Qed.
Lemma string_app_assoc (a b c : string) : (a +:+ b) +:+ c = a +:+ (b +:+ c).
Proof. induction a as [|x a IH]; [done|]. by rewrite !string_app_cons, IH. Qed.
Lemma string_app_nil (a : string) : a +:+ "" = a.
Proof. induction a as [|x a IH]; [done|]. by rewrite string_app_cons, IH. Qed.
Lemma length_string_app (a b : string) : String.length (a +:+ b) = (String.length a + String.length b)%nat.
Proof. induction a as [|x a IH]; [done|]. rewrite string_app_cons. cbn [String.length]. by rewrite IH. Qed.
Lemma slen_app a b : slen (a +:+ b) = slen a + slen b.
Proof. unfold slen. rewrite length_string_app. lia. Qed.

Lemma string_app_inj (a b c : string) : a +:+ c = b +:+ c -> a = b.
Proof.
  revert b. induction a as [|x a IH]; intros [|y b] H; [done|..].
  - apply (f_equal String.length) in H. rewrite !length_string_app in H. cbn in H. lia.
  - apply (f_equal String.length) in H. rewrite !length_string_app in H. cbn in H. lia.
  - rewrite !string_app_cons in H. injection H as -> H. by rewrite (IH b).
Qed.

(** ** Scalar values *)
Definition scalar (c : Z) : Prop := 0 <= c /\ from_u32 c = Some c.

Lemma scalar_spec c : scalar c <-> 0 <= c <= 0x10FFFF /\ ~ (0xD800 <= c <= 0xDFFF).
Proof.
  unfold scalar, from_u32. destruct (Z.leb_spec c 0x10FFFF); cbn [andb]; [|split; [by intros [? ?]|lia]].
  destruct (Z.leb_spec 0xD800 c); cbn [andb negb]; [|split; [lia|by split; [lia|]]].
  destruct (Z.leb_spec c 0xDFFF); cbn [negb]; [split; [by intros [? ?]|lia]|split; [lia|by split; [lia|]]].
Qed.

(** Splits on which of the four lengths a scalar value's encoding has. *)
Ltac byte_cases :=
  repeat match goal with
  | |- context [Z.ltb ?x ?y] => destruct (Z.ltb_spec x y); try lia
  | |- context [Z.leb ?x ?y] => destruct (Z.leb_spec x y); try lia
  | |- context [Z.eqb ?x ?y] => destruct (Z.eqb_spec x y); try lia
  end.

Ltac bytes := cbn [chars invalid_from all_bytes]; cbv zeta; rewrite ?byte_code_of by lia.

(** The encoding of a scalar value, by its length. *)
Lemma utf8_cases c s : scalar c ->
  (0 <= c < 0x80 /\ utf8 c +:+ s = String (byte_of c) s)
  \/ (exists a b, c = a * 64 + b /\ 2 <= a < 32 /\ 0 <= b < 64 /\
        utf8 c +:+ s = String (byte_of (0xc0 + a)) (String (byte_of (0x80 + b)) s))
  \/ (exists a b d, c = a * 4096 + b * 64 + d /\ 0 <= a < 16 /\ 0 <= b < 64 /\ 0 <= d < 64
        /\ (a = 0 -> 32 <= b) /\ (a = 13 -> b < 32) /\
        utf8 c +:+ s = String (byte_of (0xe0 + a)) (String (byte_of (0x80 + b)) (String (byte_of (0x80 + d)) s)))
  \/ (exists a b d e, c = a * 262144 + b * 4096 + d * 64 + e /\ 0 <= a <= 4 /\ 0 <= b < 64 /\ 0 <= d < 64 /\ 0 <= e < 64
        /\ (a = 0 -> 16 <= b) /\ (a = 4 -> b < 16) /\
        utf8 c +:+ s = String (byte_of (0xf0 + a)) (String (byte_of (0x80 + b))
                         (String (byte_of (0x80 + d)) (String (byte_of (0x80 + e)) s)))).
Proof.
  intros Hc%scalar_spec. unfold utf8.
  pose proof (Z.div_mod c 64). pose proof (Z.mod_pos_bound c 64).
  pose proof (Z.div_mod (c / 64) 64). pose proof (Z.mod_pos_bound (c / 64) 64).
  pose proof (Z.div_mod (c / 4096) 64). pose proof (Z.mod_pos_bound (c / 4096) 64).
  assert (c / 4096 = c / 64 / 64) as E1 by (rewrite Z.div_div by lia; f_equal; lia).
  assert (c / 262144 = c / 64 / 64 / 64) as E2 by (rewrite !Z.div_div by lia; f_equal; lia).
  rewrite E1, E2 in *.
  destruct (Z.ltb_spec c 0x80); [left; split; [lia|done]|right].
  destruct (Z.ltb_spec c 0x800); [left; exists (c / 64), (c mod 64); repeat split; try lia; done|right].
  destruct (Z.ltb_spec c 0x10000); [left|right].
  - exists (c / 64 / 64), ((c / 64) mod 64), (c mod 64). repeat split; try lia; done.
  - exists (c / 64 / 64 / 64), ((c / 64 / 64) mod 64), ((c / 64) mod 64), (c mod 64). repeat split; try lia; done.
Qed.

Ltac utf8_split c s :=
  let a := fresh "a" in let b := fresh "b" in let d := fresh "d" in let e := fresh "e" in
  intros [[? ->]|[(a & b & -> & ? & ? & ->)|[(a & b & d & -> & ? & ? & ? & ? & ? & ->)
         |(a & b & d & e & -> & ? & ? & ? & ? & ? & ? & ->)]]]%(utf8_cases c s).

Lemma chars_utf8 c s : scalar c -> chars (utf8 c +:+ s) = c :: chars s.
Proof. utf8_split c s; bytes; byte_cases; try done; f_equal; lia. Qed.

(** ** Valid text *)
Inductive Utf8 : string -> Prop :=
| Utf8_nil : Utf8 ""
| Utf8_cons c s : scalar c -> Utf8 s -> Utf8 (utf8 c +:+ s).

Ltac second_bytes := unfold second3, second4, continuation, between.

(** One turn of the check. *)
Lemma invalid_from_cons a s1 o :
  invalid_from (String a s1) o =
  (let b := byte_code a in
   if b <? 0x80 then invalid_from s1 (o + 1)
   else if (0xc2 <=? b) && (b <=? 0xdf) then
     match s1 with
     | String c s2 => if continuation c then invalid_from s2 (o + 2) else Some o
     | _ => Some o
     end
   else if (0xe0 <=? b) && (b <=? 0xef) then
     match s1 with
     | String c (String d s3) => if second3 b c && continuation d then invalid_from s3 (o + 3) else Some o
     | _ => Some o
     end
   else if (0xf0 <=? b) && (b <=? 0xf4) then
     match s1 with
     | String c (String d (String e s4)) =>
         if second4 b c && continuation d && continuation e then invalid_from s4 (o + 4) else Some o
     | _ => Some o
     end
   else Some o).
Proof. done. Qed.

Lemma invalid_utf8 c s o : scalar c -> exists o', invalid_from (utf8 c +:+ s) o = invalid_from s o'.
Proof.
  utf8_split c s; rewrite invalid_from_cons; cbv zeta; second_bytes; cbv zeta; rewrite ?byte_code_of by lia;
    byte_cases; cbn [andb]; eauto.
Qed.

Lemma Utf8_admitted s o : Utf8 s -> invalid_from s o = None.
Proof.
  intros H. revert o. induction H as [|c s Hc _ IH]; intros o; [done|].
  destruct (invalid_utf8 c s o Hc) as [o' ->]. apply IH.
Qed.

(** The bytes [invalid_from] accepts first encode one scalar value. *)
Lemma first_scalar c s t : scalar c -> utf8 c +:+ s = t -> Utf8 s -> Utf8 t.
Proof. intros ? <- ?. by constructor. Qed.

Lemma byte_of_eq z a : z = byte_code a -> byte_of z = a.
Proof. intros ->. apply byte_of_code. Qed.

Ltac scalar_of c s :=
  let Hc := fresh "Hc" in
  assert (scalar c) as Hc by (apply scalar_spec; lia);
  apply (first_scalar c s); [done| |auto];
  let a := fresh "a" in let b := fresh "b" in let d := fresh "d" in let e := fresh "e" in
  pose proof (utf8_cases c s Hc) as [[? ->]|[(a & b & ? & ? & ? & ->)|[(a & b & d & ? & ? & ? & ? & ? & ? & ->)
         |(a & b & d & e & ? & ? & ? & ? & ? & ? & ? & ->)]]]; try lia;
  repeat f_equal; apply byte_of_eq; lia.

Lemma admitted_Utf8 s o : invalid_from s o = None -> Utf8 s.
Proof.
  remember (String.length s) as n eqn:Hn. assert (String.length s <= n)%nat as Hle by lia. clear Hn.
  revert s Hle o. induction n as [|n IH]; intros [|x1 s1] Hle o; cbn [String.length] in Hle; try lia; try by constructor.
  pose proof (byte_code_range x1). cbn [invalid_from]. cbv zeta.
  destruct (Z.ltb_spec (byte_code x1) 0x80).
  { intros Hv%IH; [|lia]. scalar_of (byte_code x1) s1. }
  destruct ((0xc2 <=? byte_code x1) && (byte_code x1 <=? 0xdf)) eqn:E2.
  { destruct s1 as [|x2 s2]; [done|]. destruct (continuation x2) eqn:C2; [|done].
    intros Hv%IH; [|cbn in Hle; lia]. apply between_spec in C2.
    apply andb_true_iff in E2 as [?%Z.leb_le ?%Z.leb_le].
    scalar_of ((byte_code x1 - 0xc0) * 64 + (byte_code x2 - 0x80)) s2. }
  destruct ((0xe0 <=? byte_code x1) && (byte_code x1 <=? 0xef)) eqn:E3.
  { destruct s1 as [|x2 [|x3 s3]]; try done. destruct (second3 (byte_code x1) x2) eqn:C2; [|done].
    destruct (continuation x3) eqn:C3; [|done]. cbn [andb].
    intros Hv%IH; [|cbn in Hle; lia]. apply between_spec in C3.
    apply andb_true_iff in E3 as [?%Z.leb_le ?%Z.leb_le].
    assert (0x80 <= byte_code x2 <= 0xbf /\ (byte_code x1 = 0xe0 -> 0xa0 <= byte_code x2)
            /\ (byte_code x1 = 0xed -> byte_code x2 <= 0x9f)) as (? & ? & ?).
    { revert C2. unfold second3, continuation. byte_cases; rewrite between_spec; lia. }
    scalar_of ((byte_code x1 - 0xe0) * 4096 + (byte_code x2 - 0x80) * 64 + (byte_code x3 - 0x80)) s3. }
  destruct ((0xf0 <=? byte_code x1) && (byte_code x1 <=? 0xf4)) eqn:E4; [|done].
  destruct s1 as [|x2 [|x3 [|x4 s4]]]; try done. destruct (second4 (byte_code x1) x2) eqn:C2; [|done].
  destruct (continuation x3) eqn:C3; [|done]. destruct (continuation x4) eqn:C4; [|done]. cbn [andb].
  intros Hv%IH; [|cbn in Hle; lia]. apply between_spec in C3, C4.
  apply andb_true_iff in E4 as [?%Z.leb_le ?%Z.leb_le].
  assert (0x80 <= byte_code x2 <= 0xbf /\ (byte_code x1 = 0xf0 -> 0x90 <= byte_code x2)
          /\ (byte_code x1 = 0xf4 -> byte_code x2 <= 0x8f)) as (? & ? & ?).
  { revert C2. unfold second4, continuation. byte_cases; rewrite between_spec; lia. }
  scalar_of ((byte_code x1 - 0xf0) * 262144 + (byte_code x2 - 0x80) * 4096
             + (byte_code x3 - 0x80) * 64 + (byte_code x4 - 0x80)) s4.
Qed.

(** Decoding and encoding again gives the text back. *)
Definition encode_chars (cs : list Z) : string := String.concat "" (map utf8 cs).

Lemma concat_cons x (l : list string) : String.concat "" (x :: l) = x +:+ String.concat "" l.
Proof. cbn [String.concat]. destruct l; [by rewrite string_app_nil|done]. Qed.

Lemma Utf8_chars s : Utf8 s -> List.Forall scalar (chars s) /\ encode_chars (chars s) = s.
Proof.
  induction 1 as [|c s Hc _ [IH1 IH2]]; [split; [constructor|done]|].
  rewrite chars_utf8 by done. split; [by constructor|].
  unfold encode_chars in *. cbn [map]. by rewrite concat_cons, IH2.
Qed.

(** ** Decimal text *)

(** The integer literals of the grammar: a sign or none, then zero alone or
    digits that do not start with zero. *)
Definition natural_literal (s : string) : bool :=
  match s with
  | String a s' => (Ascii.eqb a "0" && is_empty s') || (between 0x31 0x39 a && all_bytes is_digit s')
  | EmptyString => false
  end.
Definition integer_literal (s : string) : bool :=
  match strip_prefix "-" s with Some n => natural_literal n | None => natural_literal s end.

Lemma pretty_char_code x : (x < 10)%N -> byte_code (pretty_N_char x) = 0x30 + Z.of_N x.
Proof.
  intros H. assert (x = 0 \/ x = 1 \/ x = 2 \/ x = 3 \/ x = 4 \/ x = 5 \/ x = 6 \/ x = 7 \/ x = 8 \/ x = 9)%N
    as [->|[->|[->|[->|[->|[->|[->|[->|[->| ->]]]]]]]]] by lia; done.
Qed.

Lemma pretty_go_value x s : digits_value 0 (pretty_N_go x s) = digits_value (Z.of_N x) s.
Proof.
  revert s. induction (N.lt_wf_0 x) as [x _ IH]; intros s.
  destruct (N.eq_dec x 0) as [->|Hx]; [by rewrite pretty_N_go_0|].
  rewrite pretty_N_go_step by lia. rewrite IH by (apply N.div_lt; lia). cbn [digits_value].
  rewrite pretty_char_code by (apply N.mod_lt; lia). f_equal.
  pose proof (N.div_mod x 10). lia.
Qed.

Lemma pretty_go_digits x s : all_bytes is_digit s = true -> all_bytes is_digit (pretty_N_go x s) = true.
Proof.
  revert s. induction (N.lt_wf_0 x) as [x _ IH]; intros s Hs.
  destruct (N.eq_dec x 0) as [->|Hx]; [by rewrite pretty_N_go_0|].
  rewrite pretty_N_go_step by lia. apply IH; [apply N.div_lt; lia|]. cbn [all_bytes]. rewrite Hs, andb_true_r.
  apply between_spec. pose proof (N.mod_lt x 10 ltac:(done)). rewrite pretty_char_code by done.
  revert H. generalize (x `mod` 10)%N. lia.
Qed.

Lemma pretty_go_head x s : (0 < x)%N -> exists a r, pretty_N_go x s = String a r /\ between 0x31 0x39 a = true.
Proof.
  revert s. induction (N.lt_wf_0 x) as [x _ IH]; intros s Hx. rewrite pretty_N_go_step by lia.
  destruct (N.lt_ge_cases x 10) as [Hlt|Hge].
  - rewrite N.div_small by lia. rewrite pretty_N_go_0. do 2 eexists. split; [done|].
    rewrite N.mod_small by lia. apply between_spec. rewrite pretty_char_code by lia. lia.
  - apply IH; [apply N.div_lt; lia|]. apply N.div_str_pos. lia.
Qed.

Lemma pretty_N_literal (n : N) :
  natural_literal (pretty n) = true /\ digits_value 0 (pretty n) = Z.of_N n.
Proof.
  unfold pretty, pretty_N. destruct (decide (n = 0%N)) as [->|Hn]; [done|].
  rewrite pretty_go_value. split; [|done].
  destruct (pretty_go_head n "") as (a & r & Hg & Ha); [lia|].
  pose proof (pretty_go_digits n "" eq_refl) as Hd. rewrite Hg in *. cbn [natural_literal all_bytes] in *.
  apply andb_true_iff in Hd as [_ ->]. rewrite Ha. apply orb_true_r.
Qed.

(** A natural literal has no sign. *)
Lemma natural_literal_unsigned s : natural_literal s = true -> strip_prefix "-" s = None.
Proof.
  destruct s as [|a s]; [done|]. cbn [natural_literal strip_prefix].
  destruct (Z.eqb_spec (byte_code "-") (byte_code a)) as [E|]; [|done].
  apply byte_code_inj in E. by subst a.
Qed.

Lemma pretty_Z_literal (z : Z) : integer_literal (pretty z) = true.
Proof.
  destruct z as [|p|p].
  - done.
  - change (pretty (Zpos p)) with (pretty (Npos p)). destruct (pretty_N_literal (Npos p)) as [H _].
    unfold integer_literal. by rewrite natural_literal_unsigned.
  - change (pretty (Zneg p)) with ("-" +:+ pretty (Npos p)). destruct (pretty_N_literal (Npos p)) as [H _]. done.
Qed.

(** The decimal text of an [i64] reads back as it. *)
Lemma parse_pretty (z : Z) : in_i64 z = true -> parse_i64 (pretty z) = Some z.
Proof.
  intros Hz. unfold parse_i64. destruct z as [|p|p].
  - done.
  - change (pretty (Zpos p)) with (pretty (Npos p)). destruct (pretty_N_literal (Npos p)) as [H Hv].
    rewrite natural_literal_unsigned, Hv by done. cbn [Z.of_N]. by rewrite Hz.
  - change (pretty (Zneg p)) with ("-" +:+ pretty (Npos p)). destruct (pretty_N_literal (Npos p)) as [H Hv].
    change (strip_prefix "-" ("-" +:+ pretty (Npos p))) with (Some (pretty (Npos p))). cbv iota.
    rewrite Hv. change (- Z.of_N (N.pos p)) with (Z.neg p). by rewrite Hz.
Qed.
