(* ===== verification/ReaderSafety.v ===== *)
(** * What the strict JSON reader promises

    Every document is read or refused; what is read is admissible JSON: UTF-8
    text, distinct names, numbers in their type, nesting within the bound.  The
    writer's text of an admissible value reads back as that value. *)

From stdpp Require Import base tactics list strings pretty.
From Stdlib Require Import ZArith Lia Ascii SpecFloat Sorting.Sorted.
From S2P Require Import Prelude Text Json Reader Utf8.
Import Strict.

#[local] Open Scope Z_scope.

(** ** Admissible values *)
Definition valid_utf8 (s : string) : bool :=
  match invalid_from s 0 with None => true | Some _ => false end.

Definition unsigned (literal : string) : string := default literal (strip_prefix "-" literal).
Definition number_ok (n : Number) : bool :=
  match n with
  | NInt z => in_i64 z
  | NBigInt d =>
      integer_literal d && (slen (unsigned d) <=? MAX_INTEGER_DIGITS)
      && match parse_i64 d with None => true | Some _ => false end
  | NFloat f => is_finite f
  end.

(** No name is repeated: no two neighbours of the sorted names are equal. *)
Definition distinct (keys : list string) : bool :=
  windows2 (fun a b => negb (a =s b)) (stable_sort sleb keys).

Fixpoint admissible (v : Value) : bool :=
  match v with
  | VNull | VBool _ => true
  | VNumber n => number_ok n
  | VString s => valid_utf8 s
  | VArray items => forallb admissible items
  | VObject ms =>
      distinct (map fst ms) && forallb (fun kv => valid_utf8 (fst kv) && admissible (snd kv)) ms
  end.

Fixpoint height (v : Value) : Z :=
  match v with
  | VArray items => 1 + fold_right Z.max 0 (map height items)
  | VObject ms => 1 + fold_right Z.max 0 (map (fun kv => height (snd kv)) ms)
  | _ => 0
  end.

Lemma valid_utf8_iff s : valid_utf8 s = true <-> Utf8 s.
Proof.
  unfold valid_utf8. split.
  - destruct (invalid_from s 0) eqn:H; [done|]. intros _. by eapply admitted_Utf8.
  - intros H. by rewrite (Utf8_admitted s 0).
Qed.

(** ** Specifications of readers

    From a parser with at most [k] bytes left and of which [pre] holds, [m] is
    never spent and consumes at least [n] bytes; from valid text it leaves valid
    text, and [P] relates the depth before, the answer and the depth after. *)
Definition spec {A} (pre : Parser -> Prop) (k n : nat) (P : Z -> A -> Z -> Prop) (m : reader A) : Prop :=
  forall p, pre p -> (String.length (rest p) <= k)%nat ->
  match m p with
  | Read a q => bytes q = bytes p /\ (String.length (rest q) + n <= String.length (rest p))%nat
                /\ (Utf8 (rest p) -> Utf8 (rest q) /\ P (depth p) a (depth q))
  | Refused _ => True
  | Spent => False
  end.
Abbreviation anywhere := (fun _ : Parser => True).
(** The next byte is an ASCII byte of this class. *)
Definition at_byte (c : ascii -> bool) (p : Parser) : Prop :=
  exists a s, rest p = String a s /\ c a = true /\ byte_code a < 0x80.

Lemma spec_bind {A B} pre k n n' N P Q (m : reader A) (f : A -> reader B) :
  spec pre k n P m ->
  (forall a, spec anywhere (k - n) n' (fun d' b d'' => forall d, P d a d' -> Q d b d'') (f a)) ->
  (N <= n + n')%nat -> spec pre k N Q (m ≫= f).
Proof.
  intros Hm Hf HN p Hpre Hp. unfold mbind, reader_bind. specialize (Hm p Hpre Hp).
  destruct (m p) as [a q| |]; [|done..]. destruct Hm as (Hb & Hl & Hu).
  specialize (Hf a q I ltac:(lia)). destruct (f a q) as [b r| |]; [|done..].
  destruct Hf as (Hb' & Hl' & Hu'). split; [congruence|split; [lia|]].
  intros [H HP]%Hu. apply Hu' in H as [? HQ]. auto.
Qed.

(** Nothing is left to read. *)
Lemma spec_nothing {A B} pre P Q (m : reader A) (f : A -> reader B) :
  spec pre 0 1 P m -> spec pre 0 1 Q (m ≫= f).
Proof.
  intros Hm p Hpre Hp. unfold mbind, reader_bind. specialize (Hm p Hpre Hp).
  destruct (m p) as [a q| |]; [|done..]. lia.
Qed.

Lemma spec_weaken {A} pre k k' n n' P Q (m : reader A) :
  spec pre k n P m -> (k' <= k)%nat -> (n' <= n)%nat -> (forall d a d', P d a d' -> Q d a d') ->
  spec pre k' n' Q m.
Proof.
  intros Hm Hk Hn HPQ p Hpre Hp. specialize (Hm p Hpre ltac:(lia)).
  destruct (m p) as [a q| |]; [|done..]. destruct Hm as (? & ? & Hu). split; [done|split; [lia|]].
  intros [? ?]%Hu. auto.
Qed.

Definition level {A} (P : A -> Prop) (d : Z) (a : A) (d' : Z) : Prop := d' = d /\ P a.
Abbreviation any := (fun _ => True).

Lemma spec_ret {A} pre k (a : A) P : (forall d, P d a d) -> spec pre k 0 P (mret a).
Proof. intros H p _ _. cbn. repeat split; [lia|done..]. Qed.
Lemma spec_fail {A} pre k n P e : spec (A:=A) pre k n P (fail e).
Proof. intros p _ _. done. Qed.
Lemma spec_syntax {A} pre k n P : spec (A:=A) pre k n P syntax.
Proof. intros p _ _. done. Qed.

(** Dropping ASCII bytes leaves valid text. *)
Lemma Utf8_tail a s : byte_code a < 0x80 -> Utf8 (String a s) -> Utf8 s.
Proof.
  intros Ha H%(Utf8_admitted _ 0). rewrite invalid_from_cons in H. cbv zeta in H.
  destruct (Z.ltb_spec (byte_code a) 0x80); [|lia]. by apply admitted_Utf8 in H.
Qed.

Lemma span_app_eq p s : s = fst (span p s) +:+ snd (span p s).
Proof.
  induction s as [|a s IH]; [done|]. cbn [span]. destruct (p a); [|done].
  destruct (span p s) as [l r]. cbn [fst snd] in *. by rewrite string_app_cons, <- IH.
Qed.

Lemma span_fst p s : all_bytes p (fst (span p s)) = true.
Proof.
  induction s as [|a s IH]; [done|]. cbn [span]. destruct (p a) eqn:Hp; [|done].
  destruct (span p s) as [l r]. cbn [fst all_bytes] in *. by rewrite Hp.
Qed.

Lemma Utf8_drop p s t :
  (forall a, p a = true -> byte_code a < 0x80) -> all_bytes p s = true -> Utf8 (s +:+ t) -> Utf8 t.
Proof.
  intros Hp. induction s as [|a s IH]; [done|]. cbn [all_bytes]. intros [Ha Hs]%andb_true_iff.
  rewrite string_app_cons. intros H%Utf8_tail; auto.
Qed.

Lemma span_spec p s :
  (forall a, p a = true -> byte_code a < 0x80) ->
  (String.length (snd (span p s)) + String.length (fst (span p s)) = String.length s)%nat
  /\ (Utf8 s -> Utf8 (snd (span p s))).
Proof.
  intros Hp. pose proof (span_app_eq p s) as E. split.
  - rewrite E at 3. rewrite length_string_app. lia.
  - rewrite E at 1. apply (Utf8_drop p); [done|]. apply span_fst.
Qed.

Lemma is_space_ascii a : is_space a = true -> byte_code a < 0x80.
Proof.
  unfold is_space. intros H. repeat (apply orb_true_iff in H as [H|H]); apply Ascii.eqb_eq in H; by subst.
Qed.
Lemma is_digit_ascii a : is_digit a = true -> byte_code a < 0x80.
Proof. unfold is_digit. rewrite between_spec. lia. Qed.

Lemma spec_whitespace pre k : spec pre k 0 (level any) skip_whitespace.
Proof.
  intros p _ _. cbn. destruct (span_spec is_space (rest p) is_space_ascii). repeat split; [lia|auto].
Qed.

Lemma spec_eat pre k c : byte_code c < 0x80 -> spec pre k 0 (level any) (eat c).
Proof.
  intros Hc [b r d] _ _. unfold eat, next_is, peek. cbn [rest].
  destruct r as [|a s]; [|destruct (Ascii.eqb_spec a c) as [->|]]; cbn; repeat split; try lia; try done.
  by eapply Utf8_tail.
Qed.

(** *** Strings *)
Lemma digit16_ascii a d : to_digit16 a = Some d -> byte_code a < 0x80 /\ 0 <= d < 16.
Proof.
  unfold to_digit16, is_digit.
  destruct (between 0x30 0x39 a) eqn:H1; [apply between_spec in H1; intros [= <-]; lia|].
  destruct (between 0x61 0x66 a) eqn:H2; [apply between_spec in H2; intros [= <-]; lia|].
  destruct (between 0x41 0x46 a) eqn:H3; [apply between_spec in H3; intros [= <-]; lia|done].
Qed.

Lemma spec_hex4 pre k at_ : spec pre k 4 (level (fun u => 0 <= u < 0x10000)) (hex4 at_).
Proof.
  intros [b r d] _ _. unfold hex4. cbn [rest].
  destruct r as [|x1 [|x2 [|x3 [|x4 s]]]]; try done.
  destruct (to_digit16 x1) eqn:E1; [|done]. destruct (to_digit16 x2) eqn:E2; [|done].
  destruct (to_digit16 x3) eqn:E3; [|done]. destruct (to_digit16 x4) eqn:E4; [|done].
  apply digit16_ascii in E1, E2, E3, E4. cbn [bytes rest depth upd upd_rest].
  split; [done|split; [cbn; lia|]]. intros H. split; [|split; [done|lia]].
  do 4 (apply Utf8_tail in H; [|tauto]). done.
Qed.

Lemma strip_prefix_app w s t : strip_prefix w s = Some t <-> s = w +:+ t.
Proof.
  revert s. induction w as [|a w IH]; intros s; cbn [strip_prefix].
  - split; [by intros [= ->]|]. by intros ->.
  - rewrite string_app_cons. destruct s as [|b s]; [done|].
    destruct (Z.eqb_spec (byte_code a) (byte_code b)) as [E|E].
    + apply byte_code_inj in E as ->. rewrite IH. split; [by intros ->|by intros [= ->]].
    + split; [done|]. intros [= -> ->]. done.
Qed.

Definition is_ascii (a : ascii) : bool := byte_code a <? 0x80.

(** Reading on after a word of ASCII bytes. *)
Lemma spec_strip {A} pre k n P (m : Parser -> reader A) w e :
  all_bytes is_ascii w = true -> (forall p0, spec anywhere (k - String.length w) n P (m p0)) ->
  spec pre k (String.length w + n) P
    (fun p => match strip_prefix w (rest p) with Some s => m p (p <| rest := s |>) | None => Refused (e p) end).
Proof.
  intros Hw Hm [b r d] _ Hk. cbn [rest] in *. destruct (strip_prefix w r) as [s|] eqn:Hs; [|done].
  apply strip_prefix_app in Hs as ->. rewrite length_string_app in Hk.
  specialize (Hm (mkParser b (w +:+ s) d) (mkParser b s d) I ltac:(cbn; lia)). cbn [upd upd_rest bytes rest depth].
  destruct (m _ _) as [a q| |]; [|done..]. cbn [bytes rest depth] in Hm. destruct Hm as (? & ? & Hu).
  split; [done|split; [rewrite length_string_app; lia|]]. intros Hv. apply Hu.
  apply (Utf8_drop is_ascii w); [|done..]. intros a'. apply Z.ltb_lt.
Qed.

Lemma spec_if {A} pre k n P (b : bool) (m m' : reader A) :
  (b = true -> spec pre k n P m) -> (b = false -> spec pre k n P m') -> spec pre k n P (if b then m else m').
Proof. destruct b; auto. Qed.

Lemma spec_low_surrogate pre k at_ : spec pre k 0 (level (fun u => LOW_SURROGATES u = true)) (low_surrogate at_).
Proof.
  unfold low_surrogate. eapply spec_weaken; [|done| |].
  - apply (spec_strip _ _ 4 (level (fun u => LOW_SURROGATES u = true))
             (fun p => unit ← hex4 (pos p); if LOW_SURROGATES unit then mret unit else fail (LoneSurrogate at_))
             "\u" (fun _ => LoneSurrogate at_)); [done|]. intros p0.
    eapply spec_bind; [apply spec_hex4|intros u|lia]. apply spec_if; intros Hu; [|apply spec_fail].
    apply spec_ret. intros d d' [-> _]. done.
  - lia.
  - done.
Qed.

Lemma spec_unicode pre k at_ : spec pre k 1 (level scalar) (unicode at_).
Proof.
  unfold unicode. eapply (spec_bind _ _ 4 0); [apply spec_hex4|intros u|lia].
  eapply (spec_bind _ _ 0 0 _ (level (fun c => 0 <= u < 0x10000 -> 0 <= c))); [|intros c|lia].
  - apply spec_if; intros Hu.
    + eapply spec_bind; [apply spec_low_surrogate|intros low|lia].
      apply spec_ret. intros d d' [-> Hl]. split; [done|]. intros Hr.
      unfold HIGH_SURROGATES, LOW_SURROGATES in *. rewrite Z.shiftl_mul_pow2 by lia. lia.
    + apply spec_ret. intros d. split; [done|lia].
  - destruct (from_u32 c) as [c'|] eqn:Hc; [|apply spec_fail]. apply spec_ret.
    intros d d' [-> H1] d'' [-> H2]. split; [done|]. unfold from_u32 in Hc.
    unfold scalar, from_u32. destruct (_ && _) eqn:E in Hc; [|done]. injection Hc as ->. rewrite E. auto.
Qed.

Lemma scalar_ascii c : 0 <= c < 0x80 -> scalar c.
Proof. intros H. apply scalar_spec. lia. Qed.

Lemma spec_escape k : spec (at_byte (Ascii.eqb "\")) k 1 (level scalar) escape.
Proof.
  intros [b r d] (a & s & Hr & Ha & Hc) Hk. cbn [rest] in *. subst r. apply Ascii.eqb_eq in Ha as <-.
  unfold escape, peek. cbn [skip upd upd_rest rest drop_bytes bytes depth].
  destruct s as [|a s]; [done|].
  repeat (match goal with |- context [Ascii.eqb a ?c] => destruct (Ascii.eqb_spec a c) as [->|] end;
    [cbn; split; [done|split; [lia|]]; intros Hv; split;
       [do 2 (apply Utf8_tail in Hv; [|done]); done|split; [done|apply scalar_ascii; lia]]|]).
  destruct (Ascii.eqb_spec a "u") as [->|]; [|done].
  pose proof (spec_unicode anywhere k (pos (mkParser b (String "\" (String "u" s)) d)) (mkParser b s d) I) as H.
  cbn [rest String.length] in *. specialize (H ltac:(lia)).
  change (skip 1 (skip 1 (mkParser b (String "\" (String "u" s)) d))) with (mkParser b s d).
  destruct (unicode _ _) as [c q| |]; [|done..]. cbn [bytes rest depth] in *. destruct H as (? & ? & Hu).
  split; [done|split; [lia|]]. intros Hv. apply Hu. by do 2 (apply Utf8_tail in Hv; [|done]).
Qed.

(** A raw run ends at a character. *)
Lemma raw_byte_of z : 0x20 <= z < 256 -> z <> 0x22 -> z <> 0x5c -> raw_byte (byte_of z) = true.
Proof.
  intros H1 H2 H3. unfold raw_byte.
  destruct (Ascii.eqb_spec (byte_of z) "034") as [E|_];
    [apply (f_equal byte_code) in E; rewrite byte_code_of in E by lia; vm_compute in E; done|].
  destruct (Ascii.eqb_spec (byte_of z) "\") as [E|_];
    [apply (f_equal byte_code) in E; rewrite byte_code_of in E by lia; vm_compute in E; done|].
  rewrite byte_code_of by lia. apply Z.leb_le. lia.
Qed.

Definition raw_char (c : Z) : Prop := 0x20 <= c /\ c <> 0x22 /\ c <> 0x5c.

Lemma raw_utf8 c s : scalar c -> raw_char c -> all_bytes raw_byte (utf8 c +:+ s) = all_bytes raw_byte s.
Proof.
  unfold raw_char. utf8_split c s; intros (? & ? & ?); cbn [all_bytes]; rewrite !raw_byte_of by lia; done.
Qed.

Lemma span_app p s t : all_bytes p s = true ->
  span p (s +:+ t) = (s +:+ fst (span p t), snd (span p t)).
Proof.
  induction s as [|a s IH]; intros H.
  - change (span p t = (fst (span p t), snd (span p t))). by destruct (span p t).
  - rewrite string_app_cons. cbn [span all_bytes] in *. apply andb_true_iff in H as [-> H]. by rewrite IH.
Qed.

Lemma span_raw_utf8 c s : scalar c -> raw_char c ->
  span raw_byte (utf8 c +:+ s) = (utf8 c +:+ fst (span raw_byte s), snd (span raw_byte s)).
Proof. intros Hc Hr. apply span_app. rewrite <- (string_app_nil (utf8 c)). by rewrite raw_utf8. Qed.

Lemma span_raw_stop c s : scalar c -> ~ raw_char c -> span raw_byte (utf8 c +:+ s) = ("", utf8 c +:+ s).
Proof.
  unfold raw_char. intros Hc Hr. pose proof (proj1 (scalar_spec c) Hc) as Hc'.
  assert (0 <= c < 0x20 \/ c = 0x22 \/ c = 0x5c) as [H|[->| ->]] by lia; try done.
  destruct (utf8_cases c s Hc) as [[_ ->]|[(? & ? & ? & ?)|[(? & ? & ? & ? & ?)|(? & ? & ? & ? & ? & ?)]]]; try lia.
  cbn [span]. unfold raw_byte. rewrite byte_code_of by lia. destruct (Z.leb_spec 0x20 c); [lia|].
  by rewrite andb_false_r.
Qed.

Lemma span_raw_Utf8 s : Utf8 s -> Utf8 (fst (span raw_byte s)) /\ Utf8 (snd (span raw_byte s)).
Proof.
  induction 1 as [|c s Hc Hs [IH1 IH2]]; [split; constructor|].
  destruct (Z.le_decidable 0x20 c); [destruct (Z.eq_dec c 0x22); [|destruct (Z.eq_dec c 0x5c)]|].
  all: try (rewrite span_raw_stop by (unfold raw_char; tauto); split; [constructor|by constructor]).
  rewrite span_raw_utf8 by (unfold raw_char; auto). split; [by constructor|done].
Qed.

Lemma Utf8_app s t : Utf8 s -> Utf8 t -> Utf8 (s +:+ t).
Proof. intros Hs Ht. induction Hs; [done|]. rewrite string_app_assoc. by constructor. Qed.
Lemma Utf8_one c : scalar c -> Utf8 (utf8 c).
Proof. intros Hc. rewrite <- (string_app_nil (utf8 c)). by apply Utf8_cons; [|apply Utf8_nil]. Qed.

Lemma spec_string_loop turns k decoded : (k < turns)%nat ->
  spec anywhere k 1 (level (fun s => Utf8 decoded -> Utf8 s)) (string_loop turns decoded).
Proof.
  revert k decoded. induction turns as [|turns IH]; intros k decoded Hk [b r d] _ Hr; [lia|].
  cbn [string_loop rest] in *. pose proof (span_app_eq raw_byte r) as Er. pose proof (span_raw_Utf8 r) as Hu.
  destruct (span raw_byte r) as [run after]. cbn [fst snd] in *.
  assert (String.length after <= String.length r)%nat as Hle by (rewrite Er, length_string_app; lia).
  unfold peek, upd, upd_rest. cbn [rest bytes depth].
  destruct after as [|a after]; [done|]. cbn [String.length] in Hle.
  destruct (Ascii.eqb_spec a "034") as [->|_].
  { cbn. split; [done|split; [lia|]]. intros Hv. apply Hu in Hv as [H1 H2]. split; [by apply Utf8_tail in H2|].
    split; [done|]. intros Hd. by apply Utf8_app. }
  destruct (Ascii.eqb_spec a "\") as [->|_]; [|done].
  assert (spec (at_byte (Ascii.eqb "\")) k 1 (level (fun s => Utf8 (decoded +:+ run) -> Utf8 s))
            (c ← escape; string_loop turns ((decoded +:+ run) +:+ utf8 c))) as Hs.
  { eapply (spec_bind _ _ 1 1); [apply spec_escape|intros c|lia].
    eapply spec_weaken; [apply (IH (k - 1)%nat); lia|lia..|].
    intros d1 s d2 [-> Hd] d3 [-> Hc]. split; [done|]. intros H. apply Hd, Utf8_app; [done|by apply Utf8_one]. }
  specialize (Hs (mkParser b (String "\" after) d)).
  destruct ((c ← escape; _) _) as [s q| |]; cbn [bytes rest depth String.length] in Hs.
  - destruct Hs as (? & ? & Hq); [by exists "\"%char, after|lia|]. split; [done|split; [lia|]].
    intros Hv. apply Hu in Hv as [H1 H2]. apply Hq in H2 as [? [-> ?]]. split; [done|split; [done|]].
    intros Hd. auto using Utf8_app.
  - done.
  - apply Hs; [by exists "\"%char, after|lia].
Qed.

Lemma spec_string k : spec (at_byte (Ascii.eqb "034")) k 1 (level Utf8) string_.
Proof.
  intros [b r d] (a & s & Hr & Ha & Hc) Hk. cbn [rest] in *. subst r. apply Ascii.eqb_eq in Ha as <-.
  unfold string_. cbn [rest skip upd upd_rest drop_bytes bytes depth String.length] in *.
  pose proof (spec_string_loop (S (S (String.length s))) (String.length s) "" ltac:(lia) (mkParser b s d) I ltac:(done)) as H.
  destruct (string_loop _ _ _) as [t q| |]; [|done..]. cbn [bytes rest depth] in *. destruct H as (? & ? & Hu).
  split; [done|split; [lia|]]. intros Hv. apply Utf8_tail in Hv; [|done]. apply Hu in Hv as [? [-> Ht]].
  split; [done|split; [done|]]. apply Ht. constructor.
Qed.

(** *** Numbers *)
Lemma spec_eat_bind {B} pre k N Q c (f : bool -> reader B) :
  byte_code c < 0x80 -> spec anywhere (k - 1) (N - 1) Q (f true) -> spec anywhere k N Q (f false) ->
  spec pre k N Q (eat c ≫= f).
Proof.
  intros Hc Ht Hf [b r d] _ Hk. unfold mbind, reader_bind, eat, next_is, peek. cbn [rest] in *.
  destruct r as [|a s]; [by apply Hf|]. destruct (Ascii.eqb_spec a c) as [->|]; [|by apply Hf].
  cbn [String.length] in Hk. specialize (Ht (mkParser b s d) I ltac:(cbn; lia)).
  change (skip 1 (mkParser b (String c s) d)) with (mkParser b s d).
  destruct (f true _) as [x q| |]; [|done..]. cbn [bytes rest depth String.length] in *. destruct Ht as (? & ? & Hu).
  split; [done|split; [lia|]]. intros Hv. apply Hu. by apply Utf8_tail in Hv.
Qed.

Lemma spec_required_digits pre k : spec pre k 1 (level any) required_digits.
Proof.
  intros [b r d] _ _. unfold required_digits. cbn [rest]. pose proof (span_spec is_digit r is_digit_ascii) as [Hl Hu].
  destruct (span is_digit r) as [digits after]. cbn [fst snd] in *. destruct digits as [|a digits]; [done|].
  cbn. cbn in Hl. split; [done|split; [lia|]]. intros Hv. split; [auto|done].
Qed.

Lemma spec_position pre k : spec pre k 0 (level any) position.
Proof. intros p _ _. cbn. repeat split; [lia|done..]. Qed.

Ltac spec_level := intros; repeat match goal with H : level _ _ _ _ |- _ => destruct H as [? ?]; subst end; repeat split; auto.
Ltac ignore_bind n n' := eapply (spec_bind _ _ n n' _ (level any)); [|intros ?|lia].

Lemma spec_fractional pre k i : spec pre k 0 (level any) (fractional_part i).
Proof.
  unfold fractional_part. ignore_bind 0%nat 0%nat; [by apply spec_eat|].
  ignore_bind 0%nat 0%nat.
  { apply spec_if; intros _; [eapply spec_weaken; [apply spec_required_digits|done|lia|done]|apply spec_ret; spec_level]. }
  ignore_bind 0%nat 0%nat; [by apply spec_eat|].
  ignore_bind 0%nat 0%nat; [apply spec_if; intros _; [apply spec_ret; spec_level|by apply spec_eat]|].
  ignore_bind 0%nat 0%nat.
  { apply spec_if; intros _; [|apply spec_ret; spec_level].
    ignore_bind 0%nat 0%nat; [by apply spec_eat|]. ignore_bind 0%nat 0%nat.
    { apply spec_if; intros _; [apply spec_ret; spec_level|by apply spec_eat]. }
    eapply spec_weaken; [apply spec_required_digits|done|lia|spec_level]. }
  ignore_bind 0%nat 0%nat; [apply spec_position|]. apply spec_ret. spec_level.
Qed.

Lemma spec_number_grammar pre k : spec pre k 1 (level any) number_grammar.
Proof.
  unfold number_grammar. ignore_bind 0%nat 1%nat; [by apply spec_eat|].
  apply spec_eat_bind; [done| |].
  - ignore_bind 0%nat 0%nat; [apply spec_ret; spec_level|].
    ignore_bind 0%nat 0%nat; [apply spec_position|].
    eapply spec_weaken; [apply spec_fractional|done..|spec_level].
  - ignore_bind 1%nat 0%nat; [apply spec_required_digits|].
    ignore_bind 0%nat 0%nat; [apply spec_position|].
    eapply spec_weaken; [apply spec_fractional|done..|spec_level].
Qed.

(** What a reader of a number consumes is a prefix of the text. *)
Definition prefixed {A} (m : reader A) : Prop :=
  forall p a q, m p = Read a q -> bytes q = bytes p /\ depth q = depth p /\
  exists s, rest p = s +:+ rest q /\ all_bytes is_ascii s = true.

Lemma prefixed_bind {A B} (m : reader A) (f : A -> reader B) :
  prefixed m -> (forall a, prefixed (f a)) -> prefixed (m ≫= f).
Proof.
  intros Hm Hf p b q. unfold mbind, reader_bind. destruct (m p) as [a r| |] eqn:E; [|done..].
  intros H. apply Hm in E as (? & ? & s & Hs & Hsa). apply Hf in H as (? & ? & t & Ht & Hta).
  split; [congruence|split; [congruence|]]. exists (s +:+ t). split; [by rewrite Hs, Ht, string_app_assoc|].
  by rewrite all_bytes_app, Hsa, Hta.
Qed.
Lemma prefixed_ret {A} (a : A) : prefixed (mret a).
Proof. intros p b q [= <- <-]. split; [done|split; [done|]]. by exists "". Qed.
Lemma prefixed_position : prefixed position.
Proof. intros p b q [= <- <-]. split; [done|split; [done|]]. by exists "". Qed.
Lemma prefixed_eat c : byte_code c < 0x80 -> prefixed (eat c).
Proof.
  intros Hc [b r d] a q. unfold eat, next_is, peek. cbn [rest].
  destruct r as [|x s]; [|destruct (Ascii.eqb_spec x c) as [->|]]; intros [= <- <-]; (split; [done|split; [done|]]);
    [by exists ""|exists (String c "")|by exists ""].
  split; [done|]. cbn [all_bytes]. rewrite andb_true_r. by apply Z.ltb_lt.
Qed.
Lemma prefixed_digits : prefixed required_digits.
Proof.
  intros [b r d] a q. unfold required_digits. cbn [rest]. pose proof (span_app_eq is_digit r) as Er.
  pose proof (span_fst is_digit r) as Hd. destruct (span is_digit r) as [digits after]. cbn [fst snd] in *. destruct (is_empty digits); [done|].
  intros [= <- <-]. split; [done|split; [done|]]. exists digits. split; [done|].
  revert Hd. clear. induction digits as [|x digits IH]; [done|]. cbn [all_bytes].
  intros [Hx ?]%andb_true_iff. apply andb_true_iff. split; [by apply Z.ltb_lt, is_digit_ascii|auto].
Qed.
Lemma prefixed_fractional i : prefixed (fractional_part i).
Proof.
  unfold fractional_part.
  repeat first [apply prefixed_bind; [|intros ?] | apply prefixed_ret | apply prefixed_position
               | by apply prefixed_eat | apply prefixed_digits | match goal with |- prefixed (if ?b then _ else _) => destruct b end].
Qed.

Lemma reader_bind_Read {A B} (m : reader A) (f : A -> reader B) p b q :
  (m ≫= f) p = Read b q <-> exists a r, m p = Read a r /\ f a r = Read b q.
Proof.
  unfold mbind, reader_bind. destruct (m p) as [a r| |] eqn:E; split; try done; try naive_solver.
Qed.

Lemma eat_Read c p b q : eat c p = Read b q ->
  (b = true /\ rest p = String c (rest q)) \/ (b = false /\ q = p /\ next_is c p = false).
Proof.
  unfold eat. destruct (next_is c p) eqn:Hn; intros [= <- <-]; [left|by right].
  unfold next_is, peek in Hn. destruct p as [bs r d]; cbn [rest] in *. destruct r as [|a r]; [done|].
  apply Ascii.eqb_eq in Hn. by subst a.
Qed.

Lemma digits_Read p u q : required_digits p = Read u q ->
  exists a s, rest p = String a s +:+ rest q /\ is_digit a = true /\ all_bytes is_digit s = true.
Proof.
  unfold required_digits. pose proof (span_app_eq is_digit (rest p)) as Er. pose proof (span_fst is_digit (rest p)) as Hd.
  destruct (span is_digit (rest p)) as [[|a s] after]; [done|]. intros [= <- <-].
  cbn [fst snd all_bytes] in *. apply andb_true_iff in Hd as [? ?]. by exists a, s.
Qed.

(** The integral part is an integer literal. *)
Lemma integral_literal p q :
  (_ ← eat "-"; zero ← eat "0"; if zero : bool then mret tt else required_digits) p = Read tt q ->
  exists lit, rest p = lit +:+ rest q /\ integer_literal lit = true.
Proof.
  intros (sg & p1 & H1 & (zero & p2 & H2 & H3)%reader_bind_Read)%reader_bind_Read.
  assert (exists nat_, rest p1 = nat_ +:+ rest q /\ natural_literal nat_ = true) as (nat_ & Hn & Hl).
  { apply eat_Read in H2 as [[-> Hr]|(-> & -> & Hz)]; cbv iota in H3.
    - injection H3 as ->. by exists "0".
    - apply digits_Read in H3 as (a & s & Hr & Ha & Hs). exists (String a s). split; [done|].
      cbn [natural_literal]. rewrite Hs, andb_true_r. apply orb_true_iff. right.
      unfold next_is, peek in Hz. rewrite Hr in Hz. cbn in Hz. apply between_spec in Ha. apply between_spec.
      assert (byte_code a <> 0x30); [|lia]. intros E. apply (byte_code_inj a "0") in E. by subst a. }
  apply eat_Read in H1 as [[-> Hr]|(-> & -> & _)].
  - exists ("-" +:+ nat_). split; [by rewrite Hr, Hn|]. done.
  - exists nat_. split; [done|]. unfold integer_literal. by rewrite natural_literal_unsigned.
Qed.

Lemma text_between_app p q s : bytes q = bytes p -> rest p = s +:+ rest q -> text_between p q = s.
Proof.
  intros Hb Hr. unfold text_between, pos. rewrite Hb, Hr, slen_app.
  replace (Z.to_nat _) with (String.length s) by (unfold slen; lia). by rewrite split_at_app.
Qed.

Lemma number_grammar_Read p fr q : number_grammar p = Read fr q ->
  bytes q = bytes p /\ depth q = depth p /\
  exists lit, rest p = lit +:+ rest q /\ all_bytes is_ascii lit = true /\ (fr = false -> integer_literal lit = true).
Proof.
  intros Hg. assert (prefixed number_grammar) as Hpre.
  { unfold number_grammar. repeat first [apply prefixed_bind; [|intros ?] | apply prefixed_fractional | apply prefixed_ret
      | apply prefixed_position | by apply prefixed_eat | apply prefixed_digits
      | match goal with |- prefixed (if ?b then _ else _) => destruct b end]. }
  pose proof (Hpre _ _ _ Hg) as (Hb & Hd & s & Hs & Ha). split; [done|split; [done|]]. exists s.
  split; [done|split; [done|]]. intros ->. unfold number_grammar in Hg.
  apply reader_bind_Read in Hg as (sg & p1 & H1 & (zero & p2 & H2 & (u & p3 & H3 & (i & p4 & [= <- <-] & H4)%reader_bind_Read)%reader_bind_Read)%reader_bind_Read).
  pose proof (prefixed_fractional _ _ _ _ H4) as (Hb4 & _ & s4 & Hs4 & _).
  destruct (integral_literal p p3) as (lit & Hl & Hi).
  { apply reader_bind_Read. exists sg, p1. split; [done|]. apply reader_bind_Read. exists zero, p2. by destruct u. }
  assert (s4 = "") as E4.
  { unfold fractional_part in H4. repeat match goal with
    | H : (_ ≫= _) _ = Read _ _ |- _ => apply reader_bind_Read in H as (? & ? & ? & H)
    | H : position _ = Read _ _ |- _ => injection H as <- <-
    end.
    injection H4 as Hz Hq. apply negb_false_iff, Z.eqb_eq in Hz. subst q.
    unfold pos in Hz. rewrite Hb4, Hs4, slen_app in Hz. unfold slen in Hz. destruct s4; [done|cbn in Hz; lia]. }
  subst s4. change (rest p3 = rest q) in Hs4. rewrite Hs4, Hs in Hl. by apply string_app_inj in Hl as ->.
Qed.

Lemma integer_ok lit o n : integer lit o = inr n -> integer_literal lit = true -> number_ok n = true.
Proof.
  unfold integer. destruct (Z.ltb_spec MAX_INTEGER_DIGITS (slen (default lit (strip_prefix "-" lit)))); [done|].
  intros [= <-] Hl. destruct (parse_i64 lit) as [z|] eqn:Hp; cbn [number_ok].
  - unfold parse_i64 in Hp. cbv zeta in Hp. by destruct (in_i64 _) eqn:Hi in Hp; [injection Hp as <-|].
  - rewrite Hl, Hp, andb_true_r. apply Z.leb_le. done.
Qed.

Lemma spec_number pre k : spec pre k 1 (level (fun n => number_ok n = true)) number.
Proof.
  intros p Hpre Hk. unfold number. pose proof (spec_number_grammar pre k p Hpre Hk) as H.
  destruct (number_grammar p) as [fr q| |] eqn:E; [|done..]. destruct H as (Hb & Hl & Hu).
  apply number_grammar_Read in E as (_ & _ & lit & Hr & _ & Hi). rewrite (text_between_app p q lit) by done.
  destruct fr.
  - unfold float. destruct (is_finite (parse_f64 lit)) eqn:Hf; [|done].
    split; [done|split; [done|]]. intros [? [-> _]]%Hu. done.
  - destruct (integer lit (pos p)) as [e|n] eqn:Hn; [done|].
    split; [done|split; [done|]]. intros [? [-> _]]%Hu. split; [done|split; [done|]]. by eapply integer_ok; eauto.
Qed.

(** *** Containers and values *)
Lemma spec_leave pre k : spec pre k 0 (fun d _ d' => d' = d - 1) leave.
Proof. intros p _ _. cbn. repeat split; [lia|done..]. Qed.

Lemma spec_enter k c : spec (at_byte (Ascii.eqb c)) k 1 (fun d _ d' => d <> MAX_DEPTH /\ d' = d + 1) enter.
Proof.
  intros [b r d] (a & s & Hr & _ & Ha) Hk. cbn [rest] in *. subst r. unfold enter. cbn [depth].
  destruct (Z.eqb_spec d MAX_DEPTH); [done|].
  pose proof (spec_whitespace anywhere k (mkParser b s (d + 1)) I ltac:(cbn in *; lia)) as H.
  change (skip 1 _) with (mkParser b s (d + 1)). cbn [skip_whitespace bytes rest depth String.length] in *.
  destruct H as (? & ? & Hu). split; [done|split; [lia|]]. intros Hv. apply Utf8_tail in Hv; [|done].
  apply Hu in Hv as [? [? _]]. done.
Qed.

Lemma spec_separator pre k c : byte_code c < 0x80 ->
  spec pre k 0 (fun d (closed : bool) d' => d' = if closed then d - 1 else d) (separator c).
Proof.
  intros Hc. unfold separator. ignore_bind 0%nat 0%nat; [apply spec_whitespace|].
  ignore_bind 0%nat 0%nat; [by apply spec_eat|]. apply spec_if; intros _.
  - eapply (spec_bind _ _ 0 0 _ _); [apply spec_leave|intros ?|lia]. apply spec_ret. spec_level.
  - ignore_bind 0%nat 0%nat; [by apply spec_eat|]. apply spec_if; intros _; [|apply spec_syntax].
    ignore_bind 0%nat 0%nat; [apply spec_whitespace|]. apply spec_ret. spec_level.
Qed.

(** What reading one value at depth [d] ensures. *)
Definition fits (d : Z) (v : Value) : Prop := admissible v = true /\ d + height v <= MAX_DEPTH.
Definition reads_value (d : Z) (v : Value) (d' : Z) : Prop := d <= MAX_DEPTH -> d' = d /\ fits d v.
Definition reads_container (d : Z) (v : Value) (d' : Z) : Prop := d <= MAX_DEPTH -> d' = d - 1 /\ fits (d - 1) v.

Lemma heights_le {A} (f : A -> Z) l m :
  0 <= m -> (fold_right Z.max 0 (map f l) <= m <-> List.Forall (fun x => f x <= m) l).
Proof.
  intros Hm. rewrite List.Forall_forall. induction l as [|x l IH]; cbn [map fold_right]; [done|].
  rewrite Z.max_lub_iff, IH. cbn [In]. naive_solver.
Qed.

Lemma fits_array d items : d < MAX_DEPTH -> List.Forall (fits (d + 1)) items -> fits d (VArray items).
Proof.
  intros Hd H. split.
  - cbn [admissible]. apply forallb_forall. intros x Hx. by eapply List.Forall_forall in H as [? _].
  - cbn [height]. assert (fold_right Z.max 0 (map height items) <= MAX_DEPTH - d - 1); [|lia].
    apply heights_le; [lia|]. eapply List.Forall_impl; [|exact H]. intros x [_ ?]. lia.
Qed.

Lemma fits_object d ms v o : d < MAX_DEPTH -> unique ms o = inr v ->
  List.Forall (fun kv => Utf8 (fst kv) /\ fits (d + 1) (snd kv)) ms -> fits d v.
Proof.
  intros Hd Hu H. unfold unique in Hu. destruct (windows2 _ _) eqn:Hw; [|done]. injection Hu as <-. split.
  - cbn [admissible]. apply andb_true_iff. split; [done|]. apply forallb_forall. intros [k x] Hx.
    eapply List.Forall_forall in H as [Hk [? _]]; [|exact Hx]. apply andb_true_iff. split; [by apply valid_utf8_iff|done].
  - cbn [height]. assert (fold_right Z.max 0 (map (fun kv => height (snd kv)) ms) <= MAX_DEPTH - d - 1); [|lia].
    apply heights_le; [lia|]. eapply List.Forall_impl; [|exact H]. intros x [_ [_ ?]]. lia.
Qed.

Section Containers.
  Context (value : reader Value) (K : nat) (Hvalue : spec anywhere K 1 reads_value value).

Lemma spec_value_le k : (k <= K)%nat -> spec anywhere k 1 reads_value value.
Proof. intros Hk. by eapply spec_weaken; [exact Hvalue|..|done]. Qed.

Lemma spec_member k : (k <= S K)%nat ->
  spec anywhere k 1 (fun d kv d' => d <= MAX_DEPTH -> d' = d /\ Utf8 (fst kv) /\ fits d (snd kv)) (member value).
Proof.
  intros Hk p _ Hp. unfold member. destruct (next_is "034" p) eqn:Hn; [|done].
  match goal with |- context [(string_ ≫= ?f) p] => set (rest_ := f) end.
  assert (spec (at_byte (Ascii.eqb "034")) k 1
            (fun d kv d' => d <= MAX_DEPTH -> d' = d /\ Utf8 (fst kv) /\ fits d (snd kv)) (string_ ≫= rest_)) as H.
  { eapply (spec_bind _ _ 1 0); [apply spec_string|intros key; unfold rest_|lia].
    ignore_bind 0%nat 0%nat; [apply spec_whitespace|]. ignore_bind 0%nat 0%nat; [by apply spec_eat|].
    apply spec_if; intros _; [|apply spec_syntax]. ignore_bind 0%nat 0%nat; [apply spec_whitespace|].
    eapply (spec_bind _ _ 1 0); [apply spec_value_le; lia|intros v|lia]. apply spec_ret.
    intros d4 d Hv d0 [-> _] d1 [-> _] d2 [-> _] d3 [-> Hkey] Hd. apply Hv in Hd as [-> ?]. done. }
  apply (H p); [|done]. unfold next_is, peek in Hn. destruct (rest p) as [|a s] eqn:Hr; [done|].
  apply Ascii.eqb_eq in Hn as ->. by exists "034"%char, s.
Qed.

Lemma spec_array_loop turns k items : (k <= K)%nat -> (k < turns)%nat ->
  spec anywhere k 1 (fun d v d' => List.Forall (fits d) items -> reads_container d v d') (array_loop value turns items).
Proof.
  revert k items. induction turns as [|turns IH]; intros k items Hk Ht; [lia|]. cbn [array_loop].
  destruct k as [|k]; [by eapply spec_nothing, spec_value_le|].
  eapply (spec_bind _ _ 1 0); [by apply spec_value_le|intros v|lia].
  eapply (spec_bind _ _ 0 0); [by apply spec_separator|intros closed|lia]. apply spec_if; intros ->.
  - apply spec_ret. intros d d0 -> d1 Hv Hi Hd. destruct (Hv Hd) as [-> Hf]. split; [done|].
    apply fits_array; [lia|]. replace (d1 - 1 + 1) with d1 by lia.
    apply List.Forall_app. split; [done|by constructor].
  - eapply spec_weaken; [apply (IH k); lia|lia..|].
    intros d x d' H d0 -> d1 Hv Hi Hd. destruct (Hv Hd) as [-> Hf]. apply H; [|done].
    apply List.Forall_app. split; [done|by constructor].
Qed.

Lemma spec_object_loop turns k start ms : (k <= K)%nat -> (k < turns)%nat ->
  spec anywhere k 1
    (fun d v d' => List.Forall (fun kv => Utf8 (fst kv) /\ fits d (snd kv)) ms -> reads_container d v d')
    (object_loop value turns start ms).
Proof.
  revert k ms. induction turns as [|turns IH]; intros k ms Hk Ht; [lia|]. cbn [object_loop].
  destruct k as [|k]; [eapply spec_nothing, spec_member; lia|].
  eapply (spec_bind _ _ 1 0); [apply spec_member; lia|intros kv|lia].
  eapply (spec_bind _ _ 0 0); [by apply spec_separator|intros closed|lia]. apply spec_if; intros ->.
  - destruct (unique (ms ++ [kv]) start) as [e|v] eqn:Hu; [apply spec_fail|]. apply spec_ret.
    intros d d0 -> d1 Hv Hi Hd. destruct (Hv Hd) as [-> Hf]. split; [done|].
    eapply fits_object; [lia|done|]. replace (d1 - 1 + 1) with d1 by lia.
    apply List.Forall_app. split; [done|by constructor].
  - eapply spec_weaken; [apply (IH k); lia|lia..|].
    intros d x d' H d0 -> d1 Hv Hi Hd. destruct (Hv Hd) as [-> Hf]. apply H; [|done].
    apply List.Forall_app. split; [done|by constructor].
Qed.

Lemma fits_empty d v : d <> MAX_DEPTH -> d <= MAX_DEPTH -> v = VArray [] \/ v = VObject [] -> fits d v.
Proof. intros ? ? [-> | ->]; (split; [done|cbn [height map fold_right]; lia]). Qed.

Lemma spec_array c turns : (K < turns)%nat -> spec (at_byte (Ascii.eqb c)) (S K) 1 reads_value (array_ value turns).
Proof.
  intros Ht. unfold array_. eapply (spec_bind _ _ 1 0); [apply spec_enter|intros u|lia].
  ignore_bind 0%nat 0%nat; [by apply spec_eat|]. apply spec_if; intros _.
  - eapply (spec_bind _ _ 0 0); [apply spec_leave|intros ?|lia]. apply spec_ret.
    intros d d1 -> d2 [-> _] d3 [Hne ->] Hd. split; [lia|]. apply fits_empty; auto.
  - eapply spec_weaken; [apply (spec_array_loop turns K); lia|lia..|].
    intros d v d' H d0 [-> _] d1 [Hne ->] Hd. destruct H as [-> Hf]; [constructor|lia|].
    by replace (d1 + 1 - 1) with d1 in * by lia.
Qed.

Lemma spec_object c turns : (K < turns)%nat -> spec (at_byte (Ascii.eqb c)) (S K) 1 reads_value (object_ value turns).
Proof.
  intros Ht p Hpre Hp. unfold object_.
  match goal with |- context [(enter ≫= ?f) p] => set (rest_ := f) end.
  assert (spec (at_byte (Ascii.eqb c)) (S K) 1 reads_value (enter ≫= rest_)) as H; [|by apply (H p)].
  eapply (spec_bind _ _ 1 0); [apply spec_enter|intros u; unfold rest_|lia].
  ignore_bind 0%nat 0%nat; [by apply spec_eat|]. apply spec_if; intros _.
  - eapply (spec_bind _ _ 0 0); [apply spec_leave|intros ?|lia]. apply spec_ret.
    intros d d1 -> d2 [-> _] d3 [Hne ->] Hd. split; [lia|]. apply fits_empty; auto.
  - eapply spec_weaken; [apply (spec_object_loop turns K); lia|lia..|].
    intros d v d' H d0 [-> _] d1 [Hne ->] Hd. destruct H as [-> Hf]; [constructor|lia|].
    by replace (d1 + 1 - 1) with d1 in * by lia.
Qed.
End Containers.

Lemma spec_literal pre k w v : all_bytes is_ascii w = true -> (1 <= String.length w)%nat ->
  fits 0 v -> height v = 0 -> spec pre k 1 reads_value (literal w v).
Proof.
  intros Hw Hl Hv H0. unfold literal. eapply spec_weaken.
  - apply (spec_strip pre k 0 reads_value (fun _ => mret v) w (fun p => Syntax (pos p))); [done|].
    intros p0. apply spec_ret. intros d Hd. split; [done|]. split; [apply Hv|lia].
  - done.
  - lia.
  - done.
Qed.

Lemma spec_value turns k : (k < turns)%nat -> spec anywhere k 1 reads_value (value turns).
Proof.
  revert k. induction turns as [|turns IH]; intros k Hk p _ Hp; [lia|]. cbn [value]. unfold peek.
  destruct (rest p) as [|a s] eqn:Hr; [done|].
  assert (forall c, a = c -> byte_code c < 0x80 -> at_byte (Ascii.eqb c) p) as Hat.
  { intros c -> Hc. exists c, s. by rewrite Ascii.eqb_refl. }
  destruct k as [|k]; [cbn in Hp; lia|]. specialize (IH k ltac:(lia)). rewrite <- Hr in Hp |- *.
  destruct (Ascii.eqb_spec a "{") as [E|_]; [by apply (spec_object _ k IH "{" turns ltac:(lia)); [apply Hat|]|].
  destruct (Ascii.eqb_spec a "[") as [E|_]; [by apply (spec_array _ k IH "[" turns ltac:(lia)); [apply Hat|]|].
  destruct (Ascii.eqb_spec a "034") as [E|_].
  { assert (spec (at_byte (Ascii.eqb "034")) (S k) 1 reads_value (s ← string_; mret (VString s))) as H;
      [|by apply (H p); [apply Hat|]].
    eapply (spec_bind _ _ 1 0); [apply spec_string|intros t|lia]. apply spec_ret.
    intros d d0 [-> Ht] Hd. split; [done|split; [by apply valid_utf8_iff|cbn [height]; lia]]. }
  do 3 (match goal with |- context [Ascii.eqb a ?c] => destruct (Ascii.eqb_spec a c) as [E|_] end;
    [by eapply (spec_literal anywhere (S k)); [done|cbn; lia|done|done|done|done]|]).
  destruct (_ || _); [|done].
  assert (spec anywhere (S k) 1 reads_value (n ← number; mret (VNumber n))) as H; [|by apply (H p)].
  eapply (spec_bind _ _ 1 0); [apply spec_number|intros n|lia]. apply spec_ret.
  intros d d0 [-> Hn] Hd. split; [done|split; [done|cbn [height]; lia]].
Qed.

Lemma document_spec text : match document text with
  | Read v _ => Utf8 text -> admissible v = true /\ height v <= MAX_DEPTH
  | Refused _ => True
  | Spent => False
  end.
Proof.
  unfold document. match goal with |- context [(skip_whitespace ≫= ?f) ?p] => set (rest_ := f); set (p0 := p) end.
  assert (spec anywhere (String.length text) 1 (fun d v _ => d = 0 -> fits 0 v) (skip_whitespace ≫= rest_)) as H.
  { ignore_bind 0%nat 1%nat; [apply spec_whitespace|unfold rest_].
    eapply (spec_bind _ _ 1 0); [apply spec_value; lia|intros v|lia]. ignore_bind 0%nat 0%nat; [apply spec_whitespace|].
    intros p _ _. unfold ended. destruct (rest p) eqn:Hr; [|done]. rewrite Hr. split; [done|split; [cbn; lia|]].
    intros _. split; [constructor|]. intros d [_ _] d0 Hv d1 [-> _] ->. apply Hv. done. }
  specialize (H p0 I (le_n _)). destruct ((skip_whitespace ≫= rest_) p0) as [v q| |]; [|done..].
  destruct H as (_ & _ & Hu). intros Hv. apply Hu in Hv as [_ Hf]. destruct (Hf eq_refl). done.
Qed.

(** C35. Type safety of the strict JSON reader.  Every input is read or refused
    within the turns it is given; what is read has only valid UTF-8 text and
    names, no repeated name in any object, integers in [i64] or as a canonical
    decimal literal beyond it of at most 4,300 digits, finite floats, and nests
    at most 512 deep. *)
Theorem read_admissible (input : string) :
  match read_document input with
  | Read v _ => admissible v = true /\ height v <= MAX_DEPTH
  | Refused _ => True
  | Spent => False
  end.
Proof.
  unfold read_document. destruct (strip_prefix _ _); [done|].
  destruct (invalid_from input 0) eqn:Hu; [done|]. pose proof (document_spec input) as H.
  destruct (document input); [|done..]. apply H. by eapply admitted_Utf8.
Qed.
