(* ===== verification/Floats.v ===== *)
(** * Doubles and their decimal text

    The writer's shortest decimal text of a double ([float_repr]) is read back by the
    reader's rounding ([decimal_float]) as the same double: the candidates of
    [shortest_digits] lie where every decimal rounds to the double, seventeen digits
    always reach one, and the three shapes of the text parse to the digits written. *)

From stdpp Require Import base tactics list strings pretty.
From Stdlib Require Import ZArith Lia Ascii SpecFloat.
From S2P Require Import Prelude Text Json Reader Utf8 ReaderSafety.
Import Strict.

#[local] Open Scope Z_scope.

(** ** Rounding to the nearest double *)
Abbreviation fexp64 := (fexp 53 1024).
Lemma fexp_is e : fexp64 e = Z.max (e - 53) (-1074).
Proof. done. Qed.
Lemma digits_bounds p : 2 ^ (Zpos (digits2_pos p) - 1) <= Zpos p < 2 ^ Zpos (digits2_pos p).
Proof.
  induction p as [p IH|p IH|]; cbn [digits2_pos]; [..|by vm_compute].
  all: rewrite Pos2Z.inj_succ; replace (Z.succ (Zpos (digits2_pos p)) - 1) with (Z.succ (Zpos (digits2_pos p) - 1)) by lia;
    rewrite !Z.pow_succ_r by lia; lia.
Qed.
Lemma digits_above n : 0 <= n -> n < 2 ^ Zdigits2 n.
Proof. intros Hn. destruct n as [|p|p]; [by vm_compute|apply digits_bounds|lia]. Qed.
Lemma digits_below n : 0 < n -> 2 ^ (Zdigits2 n - 1) <= n /\ 1 <= Zdigits2 n.
Proof. intros Hn. destruct n as [|p|p]; [lia| |lia]. split; [apply digits_bounds|cbn; lia]. Qed.

(** A shift record stands for the fraction [a / b] when [2 m + r] is the whole part of its
    double and [s] says whether anything is left. *)
Definition stands (a b : Z) (mrs : shr_record) : Prop :=
  let q := 2 * shr_m mrs + Z.b2z (shr_r mrs) in 0 <= shr_m mrs /\ q * b <= 2 * a < (q + 1) * b /\ (shr_s mrs = false <-> 2 * a = q * b).
Lemma stands_shr a b mrs : stands a b mrs -> 0 < b -> stands a (2 * b) (shr_1 mrs).
Proof.
  destruct mrs as [m r s]. unfold stands. cbn [shr_m shr_r shr_s]. intros (Hm & Hq & Hs) Hb.
  assert (m = 2 * shr_m (shr_1 (Build_shr_record m r s)) + Z.b2z (shr_r (shr_1 (Build_shr_record m r s))) /\ 0 <= shr_m (shr_1 (Build_shr_record m r s))
    /\ shr_s (shr_1 (Build_shr_record m r s)) = r || s) as (E & H0 & Es).
  { destruct m as [|[p|p|]|p]; cbn; lia || done. }
  rewrite <- E. split; [done|]. rewrite Es. split; [destruct r; cbn [Z.b2z] in *; nia|].
  destruct r, s; cbn [orb Z.b2z] in *; destruct Hs as [Hs1 Hs2]; split; intros H; try done; try (specialize (Hs1 eq_refl)); try nia; exfalso; try nia.
Qed.
Lemma stands_iter a b mrs p : stands a b mrs -> 0 < b -> stands a (b * 2 ^ Zpos p) (iter_pos shr_1 p mrs).
Proof.
  revert b mrs. induction p as [p IH|p IH|]; intros b mrs H Hb; cbn [iter_pos].
  - replace (b * 2 ^ Zpos p~1) with (2 * b * 2 ^ Zpos p * 2 ^ Zpos p) by (replace (Zpos p~1) with (1 + Zpos p + Zpos p) by lia; rewrite !Z.pow_add_r by lia; change (2 ^ 1) with 2; ring).
    assert (0 < 2 ^ Zpos p) by (apply Z.pow_pos_nonneg; lia). apply IH; [|nia]. apply IH; [|lia]. by apply stands_shr.
  - replace (b * 2 ^ Zpos p~0) with (b * 2 ^ Zpos p * 2 ^ Zpos p) by (replace (Zpos p~0) with (Zpos p + Zpos p) by lia; rewrite !Z.pow_add_r by lia; ring).
    assert (0 < 2 ^ Zpos p) by (apply Z.pow_pos_nonneg; lia). apply IH; [|nia]. by apply IH.
  - change (2 ^ 1) with 2. rewrite Z.mul_comm. by apply stands_shr.
Qed.
(** A fraction within half a unit of [k], strictly when [k] is odd, rounds to it. *)
Lemma nearest a b mrs k : stands a b mrs -> 0 < b -> (2 * k - 1) * b <= 2 * a <= (2 * k + 1) * b -> (Z.even k = false -> (2 * k - 1) * b < 2 * a < (2 * k + 1) * b) ->
  round_nearest_even (shr_m mrs) (loc_of_shr_record mrs) = k.
Proof.
  destruct mrs as [m r s]. unfold stands. cbn [shr_m shr_r shr_s]. intros (Hm & Hq & Hs) Hb Hk Hodd.
  destruct r, s; cbn [loc_of_shr_record round_nearest_even Z.b2z] in *.
  - assert (2 * a <> (2 * m + 1) * b) by (intros E; apply Hs in E; done). nia.
  - assert (2 * a = (2 * m + 1) * b) as E by by apply Hs. assert (m = k \/ m = k - 1) as [-> | ->] by nia.
    + destruct (Z.even k) eqn:Ek; [done|]. specialize (Hodd eq_refl). lia.
    + destruct (Z.even k) eqn:Ek; [|specialize (Hodd eq_refl); nia]. rewrite Z.even_sub, Ek. cbn. lia.
  - assert (2 * a <> (2 * m + 0) * b) by (intros E; apply Hs in E; done). nia.
  - assert (2 * a = (2 * m + 0) * b) as E by by apply Hs. nia.
Qed.

(** The fraction [num / den] in units of [2 ^ -1074], and the unit of an exponent. *)
Definition scaled (num : Z) : Z := num * 2 ^ 1074.
Definition unit_at (den e : Z) : Z := den * 2 ^ (e + 1074).
Lemma unit_pos den e : 0 < den -> -1074 <= e -> 0 < unit_at den e.
Proof. intros Hd He. unfold unit_at. assert (0 < 2 ^ (e + 1074)) by (apply Z.pow_pos_nonneg; lia). nia. Qed.
Lemma unit_shift den e k : -1074 <= e -> 0 <= k -> unit_at den (e + k) = unit_at den e * 2 ^ k.
Proof. intros He Hk. unfold unit_at. replace (e + k + 1074) with (e + 1074 + k) by lia. rewrite Z.pow_add_r by lia. ring. Qed.
(** Where every fraction rounds to the double [m * 2 ^ e]. *)
Definition low_quarters (m e : Z) : Z := if (m =? 2 ^ 52) && (-1074 <? e) then 4 * m - 1 else 4 * m - 2.
Definition rounds_to (m e num den : Z) : Prop :=
  let a := 4 * scaled num in let b := unit_at den e in
  low_quarters m e * b <= a <= (4 * m + 2) * b /\ (Z.even m = false -> low_quarters m e * b < a < (4 * m + 2) * b).
Lemma shr_stands a den m e l : stands a (unit_at den e) (shr_record_of_loc m l) -> 0 < den -> -1074 <= e -> e <= fexp64 (Zdigits2 m + e) ->
  let '(mrs, e') := shr_fexp 53 1024 m e l in e' = fexp64 (Zdigits2 m + e) /\ stands a (unit_at den e') mrs.
Proof.
  intros H Hd He Hf. unfold shr_fexp, shr. destruct (fexp64 (Zdigits2 m + e) - e) as [|p|p] eqn:E; [split; [lia|done]| |lia].
  split; [lia|]. rewrite unit_shift by lia. apply stands_iter; [done|]. by apply unit_pos.
Qed.
(** A mantissa already at its exponent is not moved. *)
Lemma shr_fixed m e : fexp64 (Zdigits2 m + e) = e -> shr_fexp 53 1024 m e loc_Exact = ({| shr_m := m; shr_r := false; shr_s := false |}, e).
Proof. intros H. unfold shr_fexp. by rewrite H, Z.sub_diag. Qed.
Lemma bounded_fields m e : bounded 53 1024 m e = true -> fexp64 (Zpos (digits2_pos m) + e) = e /\ e <= 971 /\ -1074 <= e.
Proof.
  unfold bounded, canonical_mantissa. intros [H1%Z.eqb_eq H2%Z.leb_le]%andb_true_iff. split_and!; [done|lia|]. rewrite <- H1, fexp_is. lia.
Qed.
Lemma pow_lt_inv a b : 2 ^ a < 2 ^ b -> 0 <= b -> a < b.
Proof. intros H Hb. destruct (Z.lt_ge_cases a b) as [|Hge]; [done|]. pose proof (Z.pow_le_mono_r 2 b a ltac:(lia) Hge). lia. Qed.
(** The exponent a fraction is rounded at is that of its double, or one less just below a
    power of two. *)
Lemma rounding_exponent m e mx ex num den l : 0 < den -> -1074 <= ex -> ex <= fexp64 (Zdigits2 mx + ex) -> stands (scaled num) (unit_at den ex) (shr_record_of_loc mx l) ->
  0 <= mx -> bounded 53 1024 m e = true -> rounds_to (Zpos m) e num den ->
  fexp64 (Zdigits2 mx + ex) = e
  \/ (fexp64 (Zdigits2 mx + ex) = e - 1 /\ -1074 < e /\ Zpos m = 2 ^ 52 /\ scaled num < 2 ^ 52 * unit_at den e).
Proof.
  intros Hd Hex Hf Hst Hmx Hb Hr. pose proof (bounded_fields _ _ Hb) as (Hc & He1 & He2). pose proof (digits_bounds m) as Hm.
  remember (Zpos (digits2_pos m)) as dm eqn:Edm. assert (1 <= dm) by lia. remember (Zdigits2 mx) as d eqn:Ed.
  assert (mx * unit_at den ex <= scaled num < (mx + 1) * unit_at den ex) as Hmx'.
  { destruct Hst as (_ & Hst & _). destruct l as [|[]]; cbn [shr_record_of_loc shr_m shr_r Z.b2z] in Hst; pose proof (unit_pos den ex Hd Hex); nia. }
  pose proof (unit_pos den ex Hd Hex) as Hu. pose proof (unit_pos den e Hd He2) as Hue. pose proof (digits_above mx Hmx) as Hab. rewrite <- Ed in Hab.
  assert (0 <= d) as Hd0 by (subst d; destruct mx; cbn; lia).
  assert (scaled num < den * 2 ^ (d + ex + 1074)) as Hup.
  { replace (d + ex + 1074) with (ex + 1074 + d) by lia. rewrite Z.pow_add_r by lia. unfold unit_at in *. nia. }
  assert (mx = 0 \/ den * 2 ^ (d - 1 + ex + 1074) <= scaled num) as Hlow.
  { destruct (Z.eq_dec mx 0) as [|Hn]; [by left|right]. destruct (digits_below mx ltac:(lia)) as [Hl1 Hl2]. rewrite <- Ed in Hl1, Hl2.
    replace (d - 1 + ex + 1074) with (ex + 1074 + (d - 1)) by lia. rewrite Z.pow_add_r by lia. unfold unit_at in *. nia. }
  destruct Hr as [[Hr1 Hr2] _]. cbv zeta in Hr1, Hr2. unfold unit_at in Hr1, Hr2, Hue.
  assert (fexp64 (d + ex) <= e) as Hle.
  { destruct Hlow as [-> | Hlow]; [subst d; rewrite fexp_is in *; cbn [Zdigits2] in *; lia|].
    assert (4 * (den * 2 ^ (d - 1 + ex + 1074)) < 4 * (den * 2 ^ (dm + e + 1074))) as Hlt.
    { replace (dm + e + 1074) with (e + 1074 + dm) by lia. rewrite (Z.pow_add_r 2 (e + 1074) dm) by lia. nia. }
    assert (2 ^ (d - 1 + ex + 1074) < 2 ^ (dm + e + 1074)) as Hlt2 by nia. apply pow_lt_inv in Hlt2; [|lia]. rewrite !fexp_is in *. lia. }
  destruct (Z.eq_dec (fexp64 (d + ex)) e) as [|Hne]; [by left|right]. rewrite fexp_is in *.
  assert (dm = 53 /\ -1074 < e /\ d + ex <= 52 + e) as (-> & He & Hdx) by lia.
  assert (scaled num < 2 ^ 52 * (den * 2 ^ (e + 1074))) as Hlt.
  { eapply Z.lt_le_trans; [exact Hup|]. rewrite Z.mul_assoc, (Z.mul_comm (2 ^ 52)), <- Z.mul_assoc, <- Z.pow_add_r by lia. apply Z.mul_le_mono_nonneg_l; [lia|]. apply Z.pow_le_mono_r; lia. }
  change (53 - 1) with 52 in Hm. assert (Zpos m = 2 ^ 52) as Em.
  { unfold low_quarters in Hr1. destruct (Zpos m =? 2 ^ 52) eqn:E; [by apply Z.eqb_eq|]. apply Z.eqb_neq in E. cbn [andb] in Hr1. nia. }
  split_and!; [|done|done|done]. unfold low_quarters in Hr1. rewrite Em, Z.eqb_refl, (proj2 (Z.ltb_lt _ _) He) in Hr1. cbn [andb] in Hr1.
  assert (den * 2 ^ (51 + e + 1074) < den * 2 ^ (d + ex + 1074)) as Hx.
  { eapply Z.le_lt_trans; [|exact Hup]. replace (51 + e + 1074) with (51 + (e + 1074)) by lia. rewrite Z.pow_add_r by lia. nia. }
  assert (2 ^ (51 + e + 1074) < 2 ^ (d + ex + 1074)) as Hx2 by nia. apply pow_lt_inv in Hx2; lia.
Qed.
Lemma round_exact s mx ex l m e num den : 0 < den -> -1074 <= ex -> ex <= fexp64 (Zdigits2 mx + ex) -> stands (scaled num) (unit_at den ex) (shr_record_of_loc mx l) ->
  0 <= mx -> bounded 53 1024 m e = true -> rounds_to (Zpos m) e num den -> binary_round_aux 53 1024 s mx ex l = S754_finite s m e.
Proof.
  intros Hd Hex Hf Hst Hmx Hb Hr. pose proof (bounded_fields _ _ Hb) as (Hc & He1 & He2).
  pose proof (rounding_exponent _ _ _ _ _ _ _ Hd Hex Hf Hst Hmx Hb Hr) as Hcase. pose proof (shr_stands _ _ _ _ _ Hst Hd Hex Hf) as Hsh.
  unfold binary_round_aux. destruct (shr_fexp 53 1024 mx ex l) as [mrs e']. destruct Hsh as [-> Hs]. destruct Hr as [Hr1 Hr2]. cbv zeta in Hr1, Hr2. unfold low_quarters in *.
  pose proof (unit_pos den e Hd He2) as Hue. destruct Hcase as [Ee|(Ee & He & Em & Hlt)]; rewrite Ee in *.
  - rewrite (nearest _ _ _ (Zpos m) Hs Hue); [..|intros Ho; specialize (Hr2 Ho)]; [|destruct (_ && _); lia..].
    rewrite shr_fixed by done. cbn [shr_m]. destruct (Z.leb_spec e (1024 - 53)); [done|lia].
  - assert (unit_at den e = 2 * unit_at den (e - 1)) as Eu by (replace e with (e - 1 + 1) at 1 by lia; rewrite unit_shift by lia; change (2 ^ 1) with 2; ring).
    pose proof (unit_pos den (e - 1) Hd ltac:(lia)) as Hu1. rewrite Em, Z.eqb_refl, (proj2 (Z.ltb_lt _ _) He) in Hr1. cbn [andb] in Hr1. rewrite Eu in Hr1, Hlt.
    rewrite (nearest _ _ _ (2 ^ 53) Hs Hu1); [|lia|by vm_compute].
    assert (Zpos m = Zpos 4503599627370496) as [= ->] by exact Em.
    unfold shr_fexp. change (Zdigits2 (2 ^ 53)) with 54. assert (fexp64 (54 + (e - 1)) - (e - 1) = 1) as -> by (rewrite fexp_is; lia).
    change (shr (shr_record_of_loc (2 ^ 53) loc_Exact) (e - 1) 1) with (Build_shr_record (Zpos 4503599627370496) false false, e - 1 + 1). cbn [shr_m].
    replace (e - 1 + 1) with e by lia. destruct (Z.leb_spec e (1024 - 53)); [done|lia].
Qed.

(** ** Reading a decimal *)
Lemma shifted_pos q d : Zpos (Pos.iter xO q d) = Zpos q * 2 ^ Zpos d /\ Zpos (digits2_pos (Pos.iter xO q d)) = Zpos (digits2_pos q) + Zpos d.
Proof.
  induction d as [|d [IH1 IH2]] using Pos.peano_ind; [change (Pos.iter xO q 1) with (xO q); cbn [digits2_pos]; change (2 ^ 1) with 2; lia|].
  rewrite Pos.iter_succ, Pos2Z.inj_succ, Z.pow_succ_r by lia. cbn [digits2_pos]. rewrite Pos2Z.inj_xO, Pos2Z.inj_succ. lia.
Qed.
Definition decimal_num (digits exponent : Z) : Z := if 0 <=? exponent then digits * 10 ^ exponent else digits.
Definition decimal_den (exponent : Z) : Z := if 0 <=? exponent then 1 else 10 ^ (- exponent).
Definition decimal_rounds (m e digits exponent : Z) : Prop := rounds_to m e (decimal_num digits exponent) (decimal_den exponent).
Lemma whole_float s q m e : bounded 53 1024 m e = true -> rounds_to (Zpos m) e (Zpos q) 1 -> binary_round 53 1024 s q 0 = S754_finite s m e.
Proof.
  intros Hb Hr. unfold binary_round, shl_align. rewrite Z.add_0_r. pose proof (fexp_is (Zpos (digits2_pos q))) as Ef.
  assert (forall mz ez, Zpos mz * 2 ^ (ez + 1074) = scaled (Zpos q) -> -1074 <= ez -> stands (scaled (Zpos q)) (unit_at 1 ez) (shr_record_of_loc (Zpos mz) loc_Exact)) as Hst.
  { intros mz ez E Hez. unfold stands, unit_at. cbn [shr_record_of_loc shr_m shr_r shr_s Z.b2z]. assert (0 < 2 ^ (ez + 1074)) by (apply Z.pow_pos_nonneg; lia). split; [lia|]. split; [nia|split; [nia|done]]. }
  destruct (fexp64 (Zpos (digits2_pos q)) - 0) as [|d|d] eqn:E.
  - eapply round_exact; [..|exact Hb|exact Hr]; try lia; [cbn [Zdigits2]; rewrite Z.add_0_r; lia|]. by apply Hst.
  - eapply round_exact; [..|exact Hb|exact Hr]; try lia; [cbn [Zdigits2]; rewrite Z.add_0_r; lia|]. by apply Hst.
  - destruct (shifted_pos q d) as [E1 E2]. eapply round_exact; [..|exact Hb|exact Hr]; try lia; [|apply Hst; [|lia]].
    + cbn [Zdigits2]. rewrite E2. replace (Zpos (digits2_pos q) + Zpos d + fexp64 (Zpos (digits2_pos q))) with (Zpos (digits2_pos q)) by lia. lia.
    + rewrite E1. unfold scaled. rewrite <- Z.mul_assoc, <- Z.pow_add_r by lia. do 2 f_equal. lia.
Qed.
Lemma located d r : 0 < d -> 0 <= r < d -> let mrs := shr_record_of_loc 0 (new_location d r) in
  shr_m mrs = 0 /\ Z.b2z (shr_r mrs) * d <= 2 * r < (Z.b2z (shr_r mrs) + 1) * d /\ (shr_s mrs = false <-> 2 * r = Z.b2z (shr_r mrs) * d).
Proof.
  intros Hd Hr. cbv zeta. unfold new_location, new_location_even, new_location_odd. destruct (Z.even d) eqn:Ed.
  - destruct (Z.eqb_spec r 0) as [-> |]; [cbn; repeat split; intros; lia || done|]. destruct (Z.compare_spec (2 * r) d); cbn; repeat split; intros; lia || done.
  - assert (2 * r <> d) by (intros <-; by rewrite Z.even_mul in Ed). destruct (Z.eqb_spec r 0) as [-> |]; [cbn; repeat split; intros; lia || done|].
    destruct (Z.compare_spec (2 * r + 1) d); cbn; repeat split; intros; lia || done.
Qed.
Lemma located_at m d r : shr_record_of_loc m (new_location d r) = {| shr_m := m; shr_r := shr_r (shr_record_of_loc 0 (new_location d r)); shr_s := shr_s (shr_record_of_loc 0 (new_location d r)) |}.
Proof. by destruct (new_location d r) as [|[]]. Qed.
Lemma quotient_float s c d m e : bounded 53 1024 m e = true -> rounds_to (Zpos m) e (Zpos c) (Zpos d) -> SFdiv 53 1024 (S754_finite s c 0) (S754_finite false d 0) = S754_finite s m e.
Proof.
  intros Hb Hr. unfold SFdiv, SFdiv_core_binary. cbn [Zdigits2]. rewrite !Z.add_0_r, Z.sub_0_r.
  pose proof (digits_bounds c) as Hc. pose proof (digits_bounds d) as Hdd. set (d1 := Zpos (digits2_pos c)) in *. set (d2 := Zpos (digits2_pos d)) in *.
  pose proof (fexp_is (d1 - d2)) as Ef. set (e' := Z.min (fexp64 (d1 - d2)) 0) in *. assert (-1074 <= e' <= 0) as He' by lia. rewrite Z.sub_0_l.
  assert (match - e' with Zpos _ => Z.shiftl (Zpos c) (- e') | Z0 => Zpos c | Zneg _ => 0 end = Zpos c * 2 ^ (- e')) as ->.
  { destruct (- e') as [|k|k] eqn:E; [lia| |lia]. by rewrite Z.shiftl_mul_pow2 by lia. }
  pose proof (Z_div_mod (Zpos c * 2 ^ (- e')) (Zpos d) ltac:(lia)) as Hdm. destruct (Z.div_eucl _ _) as [q r]. destruct Hdm as [Eq Hr0].
  assert (0 < 2 ^ (- e')) as Hp by (apply Z.pow_pos_nonneg; lia). assert (0 <= q) as Hq by nia. rewrite xorb_false_r.
  assert (2 ^ (d1 - 1 + - e') <= Zpos c * 2 ^ (- e')) as Hlow by (rewrite Z.pow_add_r by lia; nia).
  eapply round_exact; [..|exact Hb|exact Hr]; try lia.
  - destruct (Z.eq_dec q 0) as [-> | Hn].
    + cbn [Zdigits2]. assert (2 ^ (d1 - 1 + - e') < 2 ^ d2) as Hlt by lia. apply pow_lt_inv in Hlt; [|lia]. rewrite fexp_is. lia.
    + pose proof (digits_above q Hq) as Hab. assert (0 <= Zdigits2 q) by (destruct q; cbn; lia).
      assert (2 ^ (d1 - 1 + - e') < 2 ^ (Zdigits2 q + d2)) as Hlt by (rewrite (Z.pow_add_r 2 (Zdigits2 q)) by lia; nia). apply pow_lt_inv in Hlt; [|lia]. rewrite fexp_is. lia.
  - rewrite located_at. destruct (located (Zpos d) r ltac:(lia) Hr0) as (_ & Hl & Hs). cbv zeta in Hl, Hs. unfold stands. cbn [shr_m shr_r shr_s].
    assert (scaled (Zpos c) = (Zpos d * q + r) * 2 ^ (e' + 1074)) as Ea by (rewrite <- Eq, <- Z.mul_assoc, <- Z.pow_add_r by lia; unfold scaled; do 2 f_equal; lia).
    assert (0 < 2 ^ (e' + 1074)) by (apply Z.pow_pos_nonneg; lia). unfold unit_at. rewrite Ea. split; [done|]. split; [nia|].
    rewrite Hs. split; intros; nia.
Qed.
(** Every decimal that lies where fractions round to a double is read as it. *)
Lemma decimal_reads s c x m e : 0 < c -> bounded 53 1024 m e = true -> decimal_rounds (Zpos m) e c x -> decimal_float s c x = S754_finite s m e.
Proof.
  intros Hc Hb. unfold decimal_rounds, decimal_num, decimal_den, decimal_float. destruct c as [|c|c]; [lia| |lia]. destruct (Z.leb_spec 0 x) as [Hx|Hx]; intros Hr.
  - assert (exists q, Zpos c * 10 ^ x = Zpos q) as [q Eq] by (assert (0 < 10 ^ x) by (apply Z.pow_pos_nonneg; lia); destruct (Zpos c * 10 ^ x) eqn:E; [lia|by eexists|lia]).
    rewrite Eq in *. destruct s; cbn [Z.mul binary_normalize]; by apply whole_float.
  - assert (exists d, 10 ^ (- x) = Zpos d) as [d Ed] by (assert (0 < 10 ^ (- x)) by (apply Z.pow_pos_nonneg; lia); destruct (10 ^ (- x)) eqn:E; [lia|by eexists|lia]).
    rewrite Ed in *. by apply quotient_float.
Qed.

(** ** The shortest digits *)
Definition power_num (j : Z) : Z := if 0 <=? j then 10 ^ j else 1.
Lemma ten_pos j : 0 <= j -> 0 < 10 ^ j.
Proof. intros H. apply Z.pow_pos_nonneg; lia. Qed.
Lemma power_pos j : 0 < power_num j /\ 0 < decimal_den j.
Proof. unfold power_num, decimal_den. destruct (Z.leb_spec 0 j); (split; [|]); try lia; apply ten_pos; lia. Qed.
Lemma scale_is x den j : scale10 x den j = (x * decimal_den j, den * power_num j).
Proof. unfold scale10, decimal_den, power_num. destruct (0 <=? j); f_equal; lia. Qed.
Lemma decimal_num_is c j : decimal_num c j = c * power_num j.
Proof. unfold decimal_num, power_num. destruct (0 <=? j); lia. Qed.
(** One power of ten for the exponents a double has. *)
Definition TENS : Z := 400.
Lemma power_ratio j : - TENS <= j -> power_num j * 10 ^ TENS = decimal_den j * 10 ^ (j + TENS).
Proof.
  intros Hj. unfold power_num, decimal_den. destruct (Z.leb_spec 0 j).
  - rewrite Z.mul_1_l, <- Z.pow_add_r by (unfold TENS in *; lia). done.
  - rewrite <- Z.pow_add_r by lia. rewrite Z.mul_1_l. f_equal. lia.
Qed.
Lemma power_scale a b den j i : - TENS <= j -> 0 <= i -> a * (den * power_num j) * 10 ^ i * 10 ^ TENS = a * den * 10 ^ (j + i + TENS) * decimal_den j /\ b * decimal_den j * 10 ^ TENS = b * 10 ^ TENS * decimal_den j.
Proof.
  intros Hj Hi. split; [|ring]. replace (j + i + TENS) with (j + TENS + i) by lia. rewrite (Z.pow_add_r 10 (j + TENS)) by lia. transitivity (a * den * 10 ^ i * (power_num j * 10 ^ TENS)); [ring|]. rewrite power_ratio by done. ring.
Qed.

Section Shortest.
  Context (m : positive) (e s den : Z) (Hb : bounded 53 1024 m e = true) (Hs : 0 < s) (Hden : 0 < den)
    (Hval : 4 * s * 2 ^ 1074 = den * 2 ^ (e + 1074)).

Lemma quarters_le q c j : q * s * decimal_den j <= c * (den * power_num j) <-> q * unit_at (decimal_den j) e <= 4 * scaled (decimal_num c j).
Proof.
  rewrite decimal_num_is. unfold unit_at, scaled. destruct (power_pos j) as [Hp Hd]. generalize dependent (power_num j). generalize dependent (decimal_den j). intros d Hd p Hp.
  pose proof (Z.pow_pos_nonneg 2 1074 ltac:(lia) ltac:(lia)) as Ht. generalize dependent (2 ^ 1074). intros t. generalize (2 ^ (e + 1074)). intros u Hv Ht.
  rewrite (Z.mul_le_mono_pos_l _ _ (4 * t)) by lia. rewrite (Z.mul_le_mono_pos_l (q * (d * u)) _ den) by lia.
  replace (4 * t * (q * s * d)) with (den * (q * (d * u))) by (transitivity (q * d * (den * u)); [ring|rewrite <- Hv; ring]).
  replace (4 * t * (c * (den * p))) with (den * (4 * (c * p * t))) by ring. done.
Qed.
Lemma quarters_ge q c j : c * (den * power_num j) <= q * s * decimal_den j <-> 4 * scaled (decimal_num c j) <= q * unit_at (decimal_den j) e.
Proof.
  rewrite decimal_num_is. unfold unit_at, scaled. destruct (power_pos j) as [Hp Hd]. generalize dependent (power_num j). generalize dependent (decimal_den j). intros d Hd p Hp.
  pose proof (Z.pow_pos_nonneg 2 1074 ltac:(lia) ltac:(lia)) as Ht. generalize dependent (2 ^ 1074). intros t. generalize (2 ^ (e + 1074)). intros u Hv Ht.
  rewrite (Z.mul_le_mono_pos_l _ _ (4 * t)) by lia. rewrite (Z.mul_le_mono_pos_l _ (q * (d * u)) den) by lia.
  replace (4 * t * (q * s * d)) with (den * (q * (d * u))) by (transitivity (q * d * (den * u)); [ring|rewrite <- Hv; ring]).
  replace (4 * t * (c * (den * p))) with (den * (4 * (c * p * t))) by ring. done.
Qed.
(** The candidates the writer accepts are those the reader rounds to the double. *)
Definition accepted (c j : Z) : bool :=
  let ln := low_quarters (Zpos m) e * s * decimal_den j in let hn := (4 * Zpos m + 2) * s * decimal_den j in let c := c * (den * power_num j) in
  if Z.even (Zpos m) then (ln <=? c) && (c <=? hn) else (ln <? c) && (c <? hn).
Lemma accepted_rounds c j : accepted c j = true -> decimal_rounds (Zpos m) e c j.
Proof.
  unfold accepted, decimal_rounds, rounds_to. pose proof (quarters_le (low_quarters (Zpos m) e) c j) as H1. pose proof (quarters_ge (4 * Zpos m + 2) c j) as H2.
  pose proof (quarters_ge (low_quarters (Zpos m) e) c j) as H3. pose proof (quarters_le (4 * Zpos m + 2) c j) as H4.
  destruct (Z.even (Zpos m)); intros [A B]%andb_true_iff; [apply Z.leb_le in A; apply Z.leb_le in B|apply Z.ltb_lt in A; apply Z.ltb_lt in B]; (split; [|intros; try done]); lia.
Qed.

Definition fits (k : Z) : Prop := den * 10 ^ (k + TENS) <= 4 * Zpos m * s * 10 ^ TENS.
Lemma scaled_le a c j : - TENS <= j -> 0 <= a -> 10 ^ a * (den * power_num j) <= c * decimal_den j <-> den * 10 ^ (j + a + TENS) <= c * 10 ^ TENS.
Proof.
  intros Hj Ha. destruct (power_pos j) as [Hp Hd]. pose proof (ten_pos TENS ltac:(done)) as Ht. destruct (power_scale 1 c den j a Hj Ha) as [E1 E2].
  rewrite (Z.mul_le_mono_pos_r (_ * _) _ (10 ^ TENS)) by lia. rewrite E2. replace (10 ^ a * (den * power_num j) * 10 ^ TENS) with (1 * (den * power_num j) * 10 ^ a * 10 ^ TENS) by ring.
  rewrite E1, <- Z.mul_le_mono_pos_r by lia. by rewrite Z.mul_1_l.
Qed.
Context (k : Z) (Hk : fits k) (Hk' : ~ fits (k + 1)) (Hrange : - TENS + 20 <= k).

Lemma below_range n : 1 <= n <= 17 -> let j := k - n + 1 in 10 ^ (n - 1) <= 4 * Zpos m * s * decimal_den j / (den * power_num j) < 10 ^ n.
Proof.
  intros Hn j. destruct (power_pos j) as [Hp Hd]. assert (0 < den * power_num j) as Hvd by lia. split.
  - apply Z.div_le_lower_bound; [done|]. rewrite Z.mul_comm. apply scaled_le; [lia..|]. replace (j + (n - 1) + TENS) with (k + TENS) by lia. exact Hk.
  - apply Z.div_lt_upper_bound; [done|]. rewrite (Z.mul_comm _ (10 ^ n)). apply Z.nle_gt. intros H. apply Hk'. unfold fits. apply scaled_le in H; [|lia..]. by replace (j + n + TENS) with (k + 1 + TENS) in H by lia.
Qed.
(** At seventeen digits the step between decimals is below the double's own. *)
Lemma seventeen : let j := k - 17 + 1 in accepted (4 * Zpos m * s * decimal_den j / (den * power_num j)) j || accepted (4 * Zpos m * s * decimal_den j / (den * power_num j) + 1) j = true.
Proof.
  intros j. destruct (power_pos j) as [Hp Hd]. assert (0 < den * power_num j) as Hvd by lia. unfold accepted. set (vd := den * power_num j) in *. set (Q := decimal_den j) in *.
  assert (10 ^ 16 * vd <= 4 * Zpos m * s * Q) as H16 by (apply scaled_le; [lia..|]; replace (j + 16 + TENS) with (k + TENS) by lia; exact Hk).
  pose proof (bounded_fields _ _ Hb) as (Hc & He1 & He2). pose proof (digits_bounds m) as Hm. rewrite fexp_is in Hc.
  assert (Zpos m < 2 ^ 53) as Hm53 by (eapply Z.lt_le_trans; [apply Hm|]; apply Z.pow_le_mono_r; lia). change (2 ^ 53) with 9007199254740992 in *. change (10 ^ 16) with 10000000000000000 in *.
  pose proof (Z.div_mod (4 * Zpos m * s * Q) vd ltac:(lia)) as Ed. pose proof (Z.mod_pos_bound (4 * Zpos m * s * Q) vd Hvd) as Hr.
  set (b := 4 * Zpos m * s * Q / vd) in *. set (r := 4 * Zpos m * s * Q mod vd) in *. assert (0 < s * Q) as HsQ by nia.
  assert (low_quarters (Zpos m) e * s * Q <= (4 * Zpos m) * s * Q - s * Q) as Hl by (unfold low_quarters; destruct (_ && _); nia).
  assert (2 * vd < 4 * (s * Q) \/ (vd < 4 * (s * Q) /\ low_quarters (Zpos m) e = 4 * Zpos m - 2)) as Hw.
  { unfold low_quarters. destruct (Zpos m =? 2 ^ 52) eqn:E; [apply Z.eqb_eq in E; change (2 ^ 52) with 4503599627370496 in E; left; rewrite E in H16; nia|right; cbn [andb]; split; [nia|done]]. }
  apply orb_true_iff. destruct (Z.le_gt_cases (2 * r) vd) as [Hn|Hn]; [left|right].
  - assert (low_quarters (Zpos m) e * s * Q < b * vd) by (destruct Hw as [|[? ->]]; nia).
    assert (b * vd < (4 * Zpos m + 2) * s * Q) by nia. destruct (Z.even _); apply andb_true_iff; rewrite ?Z.leb_le, ?Z.ltb_lt; lia.
  - assert (low_quarters (Zpos m) e * s * Q < (b + 1) * vd) by nia.
    assert ((b + 1) * vd < (4 * Zpos m + 2) * s * Q) by (destruct Hw as [|[? ?]]; nia). destruct (Z.even _); apply andb_true_iff; rewrite ?Z.leb_le, ?Z.ltb_lt; lia.
Qed.
Lemma shortest_found fuel n : n + Z.of_nat fuel = 18 -> 1 <= n -> (1 <= fuel)%nat ->
  exists c n', 1 <= n' <= 17 /\ 10 ^ (n' - 1) <= c <= 10 ^ n' /\ decimal_rounds (Zpos m) e c (k - n' + 1)
    /\ shortest_digits fuel n k (4 * Zpos m * s) (low_quarters (Zpos m) e * s) ((4 * Zpos m + 2) * s) den (Z.even (Zpos m)) = (significant c, k + (if 10 ^ n' <=? c then 1 else 0)).
Proof.
  revert n. induction fuel as [|fuel IH]; intros n Hn H1 Hf; [lia|]. cbn [shortest_digits]. rewrite !scale_is. cbv zeta iota beta.
  pose proof (below_range n ltac:(lia)) as Hbel. cbv zeta in Hbel. set (b := 4 * Zpos m * s * decimal_den (k - n + 1) / (den * power_num (k - n + 1))) in *.
  fold (accepted b (k - n + 1)). fold (accepted (b + 1) (k - n + 1)).
  pose proof (accepted_rounds b (k - n + 1)) as Ha. pose proof (accepted_rounds (b + 1) (k - n + 1)) as Ha'.
  destruct (accepted b (k - n + 1)) eqn:E1, (accepted (b + 1) (k - n + 1)) eqn:E2; cbn [andb].
  - destruct (_ <? _); [exists b, n|exists (b + 1), n]; (split; [lia|]); (split; [lia|]); split; [by apply Ha|done|by apply Ha'|done].
  - exists b, n. split; [lia|]. split; [lia|]. split; [by apply Ha|done].
  - exists (b + 1), n. split; [lia|]. split; [lia|]. split; [by apply Ha'|done].
  - destruct (Z.eq_dec n 17) as [-> | Hn17]; [|apply IH; lia]. pose proof seventeen as H17. cbv zeta in H17. fold b in H17. by rewrite E1, E2 in H17.
Qed.
End Shortest.

(** The estimate of the decimal exponent, at every binary exponent of a double. *)
Definition estimate_close (E : Z) : bool :=
  let est := E * 30103 / 100000 in (10 ^ (est - 1 + TENS) * 2 ^ 1074 <=? 2 ^ (E + 1074) * 10 ^ TENS) && (2 ^ (E + 1075) * 10 ^ TENS <=? 10 ^ (est + 2 + TENS) * 2 ^ 1074).
Definition estimate (E : Z) : Z := E * 30103 / 100000.
Fixpoint estimates_close (tens twos : Z) (fuel : nat) (E est two ten : Z) : bool :=
  match fuel with
  | O => true
  | S fuel =>
      let t := two * tens in let u := twos * ten in
      (u <=? t) && (2 * t <=? 1000 * u) && (let est' := estimate (E + 1) in if est' =? est then estimates_close tens twos fuel (E + 1) est (2 * two) ten
                                            else (est' =? est + 1) && estimates_close tens twos fuel (E + 1) est' (2 * two) (10 * ten))
  end.
Lemma estimates_sound fuel E est two ten : -1074 <= E -> - TENS < est -> estimates_close (10 ^ TENS) (2 ^ 1074) fuel E est two ten = true -> est = estimate E -> two = 2 ^ (E + 1074) -> ten = 10 ^ (est - 1 + TENS) ->
  forall F, E <= F < E + Z.of_nat fuel -> estimate_close F = true.
Proof.
  revert E est two ten. induction fuel as [|fuel IH]; intros E est two ten HE Hest Hc He Etwo Eten F HF; [lia|]. cbn [estimates_close] in Hc. cbv zeta in Hc.
  apply andb_true_iff in Hc as [[H1%Z.leb_le H2%Z.leb_le]%andb_true_iff Hnext]. destruct (Z.eq_dec F E) as [-> |HFE].
  - unfold estimate_close. fold (estimate E). rewrite <- He. cbv zeta. apply andb_true_iff. rewrite !Z.leb_le. replace (est + 2 + TENS) with (3 + (est - 1 + TENS)) by lia. replace (E + 1075) with (1 + (E + 1074)) by lia.
    rewrite (Z.pow_add_r 10 3), (Z.pow_add_r 2 1) by lia. rewrite <- Etwo, <- Eten. change (10 ^ 3) with 1000. change (2 ^ 1) with 2. lia.
  - destruct (Z.eqb_spec (estimate (E + 1)) est) as [Ee|Ee].
    + refine (IH _ _ _ _ _ Hest Hnext _ _ _ _ _); [lia|done| |done|lia]. rewrite Etwo. replace (E + 1 + 1074) with (Z.succ (E + 1074)) by lia. rewrite Z.pow_succ_r by lia. done.
    + apply andb_true_iff in Hnext as [Ee'%Z.eqb_eq Hnext]. refine (IH _ _ _ _ _ _ Hnext _ _ _ _ _); [lia|lia|done| |rewrite Eten|lia].
      * rewrite Etwo. replace (E + 1 + 1074) with (Z.succ (E + 1074)) by lia. rewrite Z.pow_succ_r by lia. done.
      * rewrite Ee'. replace (est + 1 - 1 + TENS) with (Z.succ (est - 1 + TENS)) by lia. rewrite Z.pow_succ_r by lia. done.
Qed.
Lemma estimate_at E : -1074 <= E <= 1023 -> estimate_close E = true.
Proof.
  intros HE. eapply (estimates_sound 2098 (-1074) (estimate (-1074)) 1 (10 ^ (estimate (-1074) - 1 + TENS))); [lia|by vm_compute|vm_compute; reflexivity|done|done|done|lia].
Qed.
Lemma log_range m e : bounded 53 1024 m e = true -> -1074 <= Z.log2 (Zpos m) + e <= 1023.
Proof.
  intros Hb. pose proof (bounded_fields _ _ Hb) as (Hc & He1 & He2). pose proof (digits_bounds m) as Hm. rewrite fexp_is in Hc.
  pose proof (Z.log2_nonneg (Zpos m)). assert (Zpos m < 2 ^ 53) as Hm53 by (eapply Z.lt_le_trans; [apply Hm|]; apply Z.pow_le_mono_r; lia).
  apply Z.log2_lt_pow2 in Hm53; lia.
Qed.
Lemma float_digits_found sg m e : bounded 53 1024 m e = true -> exists c n k, 1 <= n <= 17 /\ 10 ^ (n - 1) <= c <= 10 ^ n /\ decimal_rounds (Zpos m) e c (k - n + 1)
  /\ float_digits (S754_finite sg m e) = (significant c, k + (if 10 ^ n <=? c then 1 else 0)).
Proof.
  intros Hb. unfold float_digits. set (sd := if 2 <=? e then (2 ^ (e - 2), 1) else (1, 2 ^ (2 - e))). pose proof (bounded_fields _ _ Hb) as (_ & He1 & He2).
  assert (0 < fst sd /\ 0 < snd sd /\ 4 * fst sd * 2 ^ 1074 = snd sd * 2 ^ (e + 1074)) as (Hs & Hd & Hv).
  { subst sd. destruct (Z.leb_spec 2 e); cbn [fst snd]; (split; [try lia; apply Z.pow_pos_nonneg; lia|]); (split; [try lia; apply Z.pow_pos_nonneg; lia|]); change 4 with (2 ^ 2).
    - rewrite Z.mul_1_l, <- !Z.pow_add_r by lia. f_equal. lia.
    - rewrite Z.mul_1_r, <- !Z.pow_add_r by lia. f_equal. lia. }
  destruct sd as [s den]. cbn [fst snd] in *. fold (low_quarters (Zpos m) e).
  pose proof (log_range _ _ Hb) as HE. pose proof (estimate_at _ HE) as Hest. unfold estimate_close in Hest. set (E := Z.log2 (Zpos m) + e) in *. set (est := E * 30103 / 100000) in *.
  assert (-330 <= est) as Hge by (subst est; apply Z.div_le_lower_bound; lia). apply andb_true_iff in Hest as [Hlo%Z.leb_le Hhi%Z.leb_le].
  pose proof (Z.log2_spec (Zpos m) ltac:(lia)) as [Hl1 Hl2]. rewrite Z.pow_succ_r in Hl2 by apply Z.log2_nonneg.
  assert (2 ^ (E + 1074) <= Zpos m * 2 ^ (e + 1074) < 2 ^ (E + 1075)) as Hm.
  { pose proof (Z.log2_nonneg (Zpos m)). subst E. replace (Z.log2 (Zpos m) + e + 1075) with (1 + Z.log2 (Zpos m) + (e + 1074)) by lia. replace (Z.log2 (Zpos m) + e + 1074) with (Z.log2 (Zpos m) + (e + 1074)) by lia.
    rewrite !(Z.pow_add_r 2 _ (e + 1074)), (Z.pow_add_r 2 1) by lia. change (2 ^ 1) with 2. assert (0 < 2 ^ (e + 1074)) as Hpos by (apply Z.pow_pos_nonneg; lia). split; [by apply Z.mul_le_mono_nonneg_r; [lia|]|by apply Z.mul_lt_mono_pos_r]. }
  assert (forall j, fits m s den j <-> 10 ^ (j + TENS) * 2 ^ 1074 <= Zpos m * 2 ^ (e + 1074) * 10 ^ TENS) as Hfits.
  { intros j. unfold fits. pose proof (Z.pow_pos_nonneg 2 1074 ltac:(lia) ltac:(lia)) as Ht. rewrite (Z.mul_le_mono_pos_r _ _ (2 ^ 1074)) by done.
    rewrite (Z.mul_le_mono_pos_l (10 ^ (j + TENS) * 2 ^ 1074) _ den) by done.
    replace (4 * Zpos m * s * 10 ^ TENS * 2 ^ 1074) with (den * (Zpos m * 2 ^ (e + 1074) * 10 ^ TENS)) by (transitivity (Zpos m * 10 ^ TENS * (den * 2 ^ (e + 1074))); [ring|rewrite <- Hv; ring]).
    rewrite <- (Z.mul_assoc den (10 ^ _)). reflexivity. }
  assert (fits m s den (est - 1)) as Hfl by (apply Hfits; pose proof (ten_pos TENS ltac:(done)); nia).
  assert (~ fits m s den (est + 2)) as Hfh by (rewrite Hfits; pose proof (ten_pos TENS ltac:(done)); nia).
  assert (forall j, - TENS <= j -> (let '(n, d) := scale10 (4 * Zpos m * s) den j in d <=? n) = true <-> fits m s den j) as Hsc.
  { intros j Hj. rewrite scale_is, Z.leb_le. enough (10 ^ 0 * (den * power_num j) <= 4 * Zpos m * s * decimal_den j <-> den * 10 ^ (j + 0 + TENS) <= 4 * Zpos m * s * 10 ^ TENS) as H by (rewrite Z.mul_1_l, Z.add_0_r in H; apply H). eapply scaled_le; eassumption || lia. }
  assert (exists k, decimal_exponent (4 * Zpos m * s) den est = k /\ fits m s den k /\ ~ fits m s den (k + 1) /\ - TENS + 20 <= k) as (k & -> & Hk1 & Hk2 & Hk3).
  { eexists. split; [reflexivity|]. unfold decimal_exponent. pose proof (Hsc (est + 1) ltac:(unfold TENS; lia)) as Ha. pose proof (Hsc est ltac:(unfold TENS; lia)) as Hc.
    destruct (let '(_, _) := scale10 _ _ (est + 1) in _); [replace (est + 1 + 1) with (est + 2) by lia; split_and!; [by apply Ha|done|unfold TENS; lia]|].
    destruct (let '(_, _) := scale10 _ _ est in _); [split_and!; [by apply Hc|by intros ?%Ha|unfold TENS; lia]|].
    replace (est - 1 + 1) with est by lia. split_and!; [done|by intros ?%Hc|unfold TENS; lia]. }
  destruct (shortest_found m e s den Hb Hs Hd Hv k Hk1 Hk2 Hk3 17 1) as (c & n & H); [lia..|]. by exists c, n, k.
Qed.

(** ** Digits as text *)
Lemma span_all p s : all_bytes p s = true -> span p s = (s, "").
Proof. intros H. rewrite <- (string_app_nil s) at 1. rewrite span_app by done. by rewrite string_app_nil. Qed.

Lemma digits_value_ge s acc : all_bytes is_digit s = true -> 0 <= acc -> acc * 10 ^ slen s <= digits_value acc s.
Proof.
  revert acc. induction s as [|a s IH]; intros acc Hs Hacc; cbn [digits_value].
  - change (slen "") with 0. lia.
  - cbn [all_bytes] in Hs. apply andb_true_iff in Hs as [Ha%between_spec Hs].
    specialize (IH (acc * 10 + (byte_code a - 0x30)) Hs ltac:(lia)).
    replace (slen (String a s)) with (1 + slen s) by (unfold slen; cbn; lia).
    rewrite Z.pow_add_r by (unfold slen; lia). change (10 ^ 1) with 10.
    assert (0 < 10 ^ slen s) by (apply Z.pow_pos_nonneg; unfold slen; lia). nia.
Qed.
Lemma digits_value_lt s acc : all_bytes is_digit s = true -> digits_value acc s < (acc + 1) * 10 ^ slen s.
Proof.
  revert acc. induction s as [|a s IH]; intros acc Hs; cbn [digits_value]; [change (slen "") with 0; lia|].
  cbn [all_bytes] in Hs. apply andb_true_iff in Hs as [Ha%between_spec Hs]. specialize (IH (acc * 10 + (byte_code a - 0x30)) Hs).
  replace (slen (String a s)) with (1 + slen s) by (unfold slen; cbn; lia). rewrite Z.pow_add_r by (unfold slen; lia). change (10 ^ 1) with 10.
  assert (0 < 10 ^ slen s) by (apply ten_pos; unfold slen; lia). nia.
Qed.
Lemma digits_value_app s t acc : digits_value acc (s +:+ t) = digits_value (digits_value acc s) t.
Proof. revert acc. induction s as [|a s IH]; intros acc; [done|]. rewrite string_app_cons. apply IH. Qed.
Lemma zeros_value n acc : digits_value acc (zeros n) = acc * 10 ^ Z.of_nat n.
Proof.
  revert acc. induction n as [|n IH]; intros acc; cbn [zeros digits_value]; [change (10 ^ Z.of_nat 0) with 1; lia|].
  rewrite IH, Nat2Z.inj_succ, Z.pow_succ_r by lia. change (byte_code "0") with 48. ring.
Qed.
Lemma zeros_digits n : all_bytes is_digit (zeros n) = true /\ slen (zeros n) = Z.of_nat n.
Proof. induction n as [|n [H1 H2]]; [done|]. split; [done|]. unfold slen in *. cbn [zeros String.length]. lia. Qed.
Lemma zeros_snoc n : zeros n +:+ "0" = zeros (S n).
Proof. induction n as [|n IH]; [done|]. cbn [zeros]. rewrite string_app_cons, IH. done. Qed.

(** Digits that open with a nonzero one. *)
Definition leading (s : string) : bool :=
  match s with String a s => between 0x31 0x39 a && all_bytes is_digit s | EmptyString => false end.
Lemma leading_digits s : leading s = true -> all_bytes is_digit s = true /\ natural_literal s = true /\ 10 ^ (slen s - 1) <= digits_value 0 s < 10 ^ slen s /\ 1 <= slen s.
Proof.
  destruct s as [|a s]; [done|]. cbn [leading natural_literal all_bytes digits_value]. intros [Ha Hs]%andb_true_iff. rewrite Ha, Hs, orb_true_r. apply between_spec in Ha.
  replace (slen (String a s)) with (1 + slen s) by (unfold slen; cbn; lia). replace (1 + slen s - 1) with (slen s) by lia. rewrite Z.pow_add_r by (unfold slen; lia). change (10 ^ 1) with 10.
  pose proof (digits_value_ge s (0 * 10 + (byte_code a - 0x30)) Hs ltac:(lia)). pose proof (digits_value_lt s (0 * 10 + (byte_code a - 0x30)) Hs).
  assert (0 < 10 ^ slen s) by (apply ten_pos; unfold slen; lia). split_and!; [|done|nia|nia|unfold slen; lia]. rewrite andb_true_r. apply between_spec. lia.
Qed.
Lemma leading_app s t : leading s = true -> all_bytes is_digit t = true -> leading (s +:+ t) = true.
Proof.
  destruct s as [|a s]; [done|]. rewrite string_app_cons. cbn [leading]. intros [-> Hs]%andb_true_iff Ht. by rewrite all_bytes_app, Hs, Ht.
Qed.
Lemma leading_prefix s t : leading (s +:+ t) = true -> s <> EmptyString -> leading s = true /\ all_bytes is_digit t = true.
Proof.
  destruct s as [|a s]; [done|]. rewrite string_app_cons. cbn [leading]. rewrite all_bytes_app. intros [-> [-> ->]%andb_true_iff]%andb_true_iff _. done.
Qed.
Lemma pretty_leading c : 0 < c -> leading (pretty c) = true /\ digits_value 0 (pretty c) = c.
Proof.
  destruct c as [|p|p]; [lia| |lia]. intros _. change (pretty (Zpos p)) with (pretty (Npos p)). destruct (pretty_N_literal (Npos p)) as [H Hv]. split; [|done].
  destruct (pretty (Npos p)) as [|a s]; [done|]. cbn [natural_literal leading] in *. apply orb_true_iff in H as [[->%Ascii.eqb_eq Hs]%andb_true_iff|]; [|done]. by destruct s.
Qed.
Lemma string_of_list_app l l' : String.string_of_list_ascii (l ++ l') = String.string_of_list_ascii l +:+ String.string_of_list_ascii l'.
Proof. induction l as [|a l IH]; [done|]. cbn [app String.string_of_list_ascii]. by rewrite IH. Qed.
(** The significant digits are the number's, less its trailing zeros. *)
Lemma trim_zeros_split l : exists z, String.string_of_list_ascii (rev l) = String.string_of_list_ascii (rev (trim_zeros l)) +:+ zeros z.
Proof.
  induction l as [|a l [z IH]]; [by exists O|]. cbn [trim_zeros]. destruct (one_of "0" a) eqn:E; [|exists O; by rewrite string_app_nil].
  exists (S z). cbn [rev]. rewrite string_of_list_app, IH, string_app_assoc. f_equal. assert (a = "0"%char) as ->; [|apply zeros_snoc].
  revert E. clear. destruct a as [[] [] [] [] [] [] [] []]; vm_compute; congruence.
Qed.
Lemma significant_split c : exists z, pretty c = significant c +:+ zeros z.
Proof.
  unfold significant. destruct (trim_zeros_split (rev (String.list_ascii_of_string (pretty c)))) as [z H]. exists z.
  by rewrite rev_involutive, String.string_of_list_ascii_of_string in H.
Qed.
Lemma significant_digits c n : 1 <= n -> 10 ^ (n - 1) <= c <= 10 ^ n -> let D := significant c in
  leading D = true /\ exists z, 0 <= z /\ c = digits_value 0 D * 10 ^ z /\ slen D + z = n + (if 10 ^ n <=? c then 1 else 0).
Proof.
  intros Hn Hc D. pose proof (ten_pos (n - 1) ltac:(lia)). destruct (pretty_leading c ltac:(lia)) as [Hl Hv]. destruct (significant_split c) as [z Hz]. fold D in Hz. rewrite Hz in Hl, Hv.
  destruct (leading_digits _ Hl) as (_ & _ & Hr & H1). rewrite Hv, slen_app in Hr. rewrite slen_app in H1. destruct (zeros_digits z) as [_ Ez]. rewrite Ez in Hr, H1. rewrite digits_value_app, zeros_value in Hv. split.
  - apply (leading_prefix D (zeros z)); [done|]. intros E. rewrite E in Hv. cbn [digits_value] in Hv. lia.
  - exists (Z.of_nat z). split; [lia|]. split; [done|]. destruct (Z.leb_spec (10 ^ n) c).
    + assert (c = 10 ^ n) as -> by lia. assert (n < slen D + Z.of_nat z) by (eapply (Z.pow_lt_mono_r_iff 10); lia). assert (slen D + Z.of_nat z - 1 <= n) by (eapply (Z.pow_le_mono_r_iff 10); lia). lia.
    + assert (n - 1 < slen D + Z.of_nat z) by (eapply (Z.pow_lt_mono_r_iff 10); lia). assert (slen D + Z.of_nat z - 1 < n) by (eapply (Z.pow_lt_mono_r_iff 10); lia). lia.
Qed.

(** The same decimal at another exponent. *)
Lemma cross_le u a u' a' d d' : 0 < d -> 0 < d' -> u * d' = u' * d -> a * d' = a' * d -> u <= a <-> u' <= a'.
Proof. intros Hd Hd' Eu Ea. rewrite (Z.mul_le_mono_pos_r u a d') by done. rewrite Eu, Ea. by rewrite <- Z.mul_le_mono_pos_r by done. Qed.
Lemma rounds_ratio m e num den num' den' : 0 < den -> 0 < den' -> num * den' = num' * den -> rounds_to m e num den -> rounds_to m e num' den'.
Proof.
  intros Hd Hd' E. unfold rounds_to. assert (4 * scaled num * den' = 4 * scaled num' * den) as Ea by (unfold scaled; transitivity (4 * 2 ^ 1074 * (num * den')); [ring|rewrite E; ring]).
  assert (unit_at den e * den' = unit_at den' e * den) as Eb by (unfold unit_at; ring). cbv zeta.
  generalize dependent (4 * scaled num). generalize dependent (4 * scaled num'). generalize dependent (unit_at den e). generalize dependent (unit_at den' e). intros u' u Eu a' a Ea [H1 H2].
  assert (forall q, q * u * den' = q * u' * den) as Eq by (intros q; rewrite <- !Z.mul_assoc; by rewrite Eu).
  pose proof (cross_le _ _ _ _ _ _ Hd Hd' (Eq (low_quarters m e)) Ea). pose proof (cross_le _ _ _ _ _ _ Hd Hd' (Eq (4 * m + 2)) Ea).
  pose proof (cross_le _ _ _ _ _ _ Hd Hd' Ea (Eq (low_quarters m e))). pose proof (cross_le _ _ _ _ _ _ Hd Hd' Ea (Eq (4 * m + 2))). split; [lia|]. intros Ho. specialize (H2 Ho). lia.
Qed.
Lemma decimal_shift m e c x w : 0 <= w -> decimal_rounds m e c x <-> decimal_rounds m e (c * 10 ^ w) (x - w).
Proof.
  intros Hw. unfold decimal_rounds. rewrite !decimal_num_is. destruct (power_pos x) as [_ H1]. destruct (power_pos (x - w)) as [_ H2].
  assert (c * power_num x * decimal_den (x - w) = c * 10 ^ w * power_num (x - w) * decimal_den x) as E.
  { unfold power_num, decimal_den. destruct (Z.leb_spec 0 x), (Z.leb_spec 0 (x - w)); try lia.
    - replace x with (w + (x - w)) at 1 by lia. rewrite Z.pow_add_r by lia. ring.
    - rewrite <- Z.mul_assoc, <- Z.pow_add_r by lia. replace (x + - (x - w)) with w by lia. ring.
    - replace (- (x - w)) with (w + - x) by lia. rewrite Z.pow_add_r by lia. ring. }
  split; apply rounds_ratio; done || lia.
Qed.
(** The digits and exponent written for a double, at any number of added zeros. *)
Lemma written_digits sg m e : bounded 53 1024 m e = true -> let '(D, x) := float_digits (S754_finite sg m e) in
  leading D = true /\ forall w neg, 0 <= w -> decimal_float neg (digits_value 0 D * 10 ^ w) (x - slen D + 1 - w) = S754_finite neg m e.
Proof.
  intros Hb. destruct (float_digits_found sg m e Hb) as (c & n & k & Hn & Hc & Hr & ->). destruct (significant_digits c n ltac:(lia) Hc) as (Hl & z & Hz & Ec & El). cbv zeta in Hl, Ec, El.
  split; [done|]. intros w neg Hw. destruct (leading_digits _ Hl) as (_ & _ & Hv & _). pose proof (ten_pos (slen (significant c) - 1) ltac:(destruct (leading_digits _ Hl) as (_ & _ & _ & ?); lia)). pose proof (ten_pos w Hw).
  apply decimal_reads; [nia|done|]. apply decimal_shift; [done|]. rewrite Ec in Hr at 1. apply (decimal_shift _ _ _ _ z Hz).
  by replace (k + (if 10 ^ n <=? c then 1 else 0) - slen (significant c) + 1 - z) with (k - n + 1) by lia.
Qed.

(** ** Reading the text of a double *)
Definition start (s : string) : Parser := mkParser s s 0.
(** The written number, read alone, is the number. *)
Definition reads_back (n : Number) : Prop :=
  number (start (number_text n)) = Read n (mkParser (number_text n) "" 0).

Definition fraction_text (F : string) : string := if is_empty F then "" else String "." F.
Definition exponent_text (X : option (bool * string)) : string :=
  match X with Some (negative, digits) => String "e" (String (if negative then "-" else "+")%char digits) | None => "" end.
Definition exponent_value (X : option (bool * string)) : Z :=
  match X with Some (negative, digits) => if negative then - digits_value 0 digits else digits_value 0 digits | None => 0 end.
Definition exponent_ok (X : option (bool * string)) : bool :=
  match X with Some (_, digits) => negb (is_empty digits) && all_bytes is_digit digits | None => true end.
Definition stops (s : string) : bool := match s with String a _ => negb (is_digit a) | EmptyString => true end.
Lemma span_stops D s : all_bytes is_digit D = true -> stops s = true -> span is_digit (D +:+ s) = (D, s).
Proof.
  intros HD Hs. rewrite span_app by done. assert (span is_digit s = (""%string, s)) as ->; [|by rewrite string_app_nil].
  destruct s as [|a s]; [done|]. cbn [span stops] in *. by destruct (is_digit a).
Qed.
Lemma digits_run b D s d : all_bytes is_digit D = true -> D <> EmptyString -> stops s = true -> required_digits (mkParser b (D +:+ s) d) = Read tt (mkParser b s d).
Proof. intros HD Hn Hs. unfold required_digits. cbn [rest]. rewrite span_stops by done. by destruct D. Qed.
Lemma eat_next c b s d : eat c (mkParser b (String c s) d) = Read true (mkParser b s d).
Proof. unfold eat, next_is, peek. cbn [rest]. by rewrite Ascii.eqb_refl. Qed.
Lemma eat_other c a b s d : Ascii.eqb a c = false -> eat c (mkParser b (String a s) d) = Read false (mkParser b (String a s) d).
Proof. intros H. unfold eat, next_is, peek. cbn [rest]. by rewrite H. Qed.
Lemma bind_read {A B} (r : reader A) (f : A -> reader B) p a q : r p = Read a q -> (r ≫= f) p = f a q.
Proof. intros H. unfold mbind, reader_bind. by rewrite H. Qed.

Lemma exponent_run i b X d : exponent_ok X = true -> i <> slen b ->
  (small ← eat "e"; large ← (if small : bool then mret true else eat "E");
   _ ← (if large : bool then plus ← eat "+"; _ ← (if plus : bool then mret true else eat "-"); required_digits else mret tt);
   now ← position; mret (negb (now =? i))) (mkParser b (exponent_text X) d) = Read true (mkParser b "" d).
Proof.
  intros HX Hi. assert ((now ← position; mret (negb (now =? i))) (mkParser b "" d) = Read true (mkParser b "" d)) as Hend.
  { change (Read (negb (slen b - 0 =? i)) (mkParser b "" d) = Read true (mkParser b "" d)). rewrite Z.sub_0_r. by rewrite (proj2 (Z.eqb_neq _ _)) by done. }
  destruct X as [[neg D]|]; cbn [exponent_text exponent_ok] in *; [|exact Hend]. apply andb_true_iff in HX as [Hn HD]. assert (D <> EmptyString) as Hne by by intros ->.
  rewrite (bind_read _ _ _ _ _ (eat_next "e" b _ d)). rewrite (bind_read (mret true) _ _ true _ eq_refl). cbv beta iota.
  pose proof (digits_run b D "" d HD Hne eq_refl) as Hrun. rewrite string_app_nil in Hrun. destruct neg; cbv iota.
  - erewrite bind_read; [exact Hend|]. rewrite (bind_read _ _ _ _ _ (eat_other "+" "-" b D d eq_refl)). rewrite (bind_read _ _ _ _ _ (eat_next "-" b D d)). exact Hrun.
  - erewrite bind_read; [exact Hend|]. rewrite (bind_read _ _ _ _ _ (eat_next "+" b D d)). rewrite (bind_read (mret true) _ _ true _ eq_refl). exact Hrun.
Qed.
Lemma fraction_run i b F X d : all_bytes is_digit F = true -> exponent_ok X = true -> i <> slen b ->
  fractional_part i (mkParser b (fraction_text F +:+ exponent_text X) d) = Read true (mkParser b "" d).
Proof.
  intros HF HX Hi. unfold fractional_part, fraction_text. destruct F as [|a F]; cbn [is_empty].
  - change ("" +:+ exponent_text X) with (exponent_text X). assert (eat "." (mkParser b (exponent_text X) d) = Read false (mkParser b (exponent_text X) d)) as E by by destruct X as [[]|].
    rewrite (bind_read _ _ _ _ _ E). rewrite (bind_read (mret tt) _ _ tt _ eq_refl). by apply exponent_run.
  - rewrite string_app_cons, (bind_read _ _ _ _ _ (eat_next "." b _ d)). cbv iota. erewrite bind_read; [by apply exponent_run|].
    apply digits_run; [done|done|by destruct X as [[]|]].
Qed.
Lemma decimal_grammar b W F X d : natural_literal W = true -> all_bytes is_digit F = true -> exponent_ok X = true -> fraction_text F +:+ exponent_text X <> EmptyString ->
  (zero ← eat "0"; _ ← (if zero : bool then mret tt else required_digits); integral ← position; fractional_part integral)
    (mkParser b (W +:+ (fraction_text F +:+ exponent_text X)) d) = Read true (mkParser b "" d).
Proof.
  intros HW HF HX Hne. assert (stops (fraction_text F +:+ exponent_text X) = true) as Hst by by destruct F, X as [[]|].
  assert (forall r, r = fraction_text F +:+ exponent_text X -> (integral ← position; fractional_part integral) (mkParser b r d) = Read true (mkParser b "" d)) as Hrest.
  { intros r ->. rewrite (bind_read _ _ _ _ _ (eq_refl : position _ = Read _ _)). apply fraction_run; [done..|]. unfold pos. cbn [bytes rest]. destruct (fraction_text F +:+ exponent_text X); [done|]. unfold slen. cbn [String.length]. lia. }
  destruct W as [|a W]; [done|]. cbn [natural_literal] in HW. rewrite string_app_cons. destruct (Ascii.eqb_spec a "0") as [-> |Ha].
  - cbn in HW. rewrite orb_false_r in HW. destruct W; [|done]. rewrite (bind_read _ _ _ _ _ (eat_next "0" b _ d)). cbv iota. rewrite (bind_read (mret tt) _ _ tt _ eq_refl). by apply Hrest.
  - cbn [andb orb] in HW. apply andb_true_iff in HW as [Hd HW]. rewrite (bind_read _ _ _ _ _ (eat_other "0" a b _ d (proj2 (Ascii.eqb_neq _ _) Ha))). cbv iota.
    erewrite bind_read; [by apply Hrest|]. rewrite <- string_app_cons. apply digits_run; [|done|done]. cbn [all_bytes]. rewrite HW, andb_true_r. apply between_spec in Hd. apply between_spec. lia.
Qed.
Lemma digit_first W : natural_literal W = true -> exists a W', W = String a W' /\ Ascii.eqb a "-" = false.
Proof.
  destruct W as [|a W]; [done|]. intros H. exists a, W. split; [done|]. apply natural_literal_unsigned in H. cbn [strip_prefix] in H. destruct (Ascii.eqb_spec a "-") as [-> |]; [done|done].
Qed.
Definition sign_text (negative : bool) : string := if negative then "-" else "".
Lemma signed_grammar b neg W F X d : natural_literal W = true -> all_bytes is_digit F = true -> exponent_ok X = true -> fraction_text F +:+ exponent_text X <> EmptyString ->
  number_grammar (mkParser b (sign_text neg +:+ (W +:+ (fraction_text F +:+ exponent_text X))) d) = Read true (mkParser b "" d).
Proof.
  intros HW HF HX Hne. unfold number_grammar. destruct neg; cbn [sign_text].
  - change ("-" +:+ ?s) with (String "-" s). rewrite (bind_read _ _ _ _ _ (eat_next "-" b _ d)). by apply decimal_grammar.
  - change ("" +:+ ?s) with s. destruct (digit_first W HW) as (a & W' & -> & Ha). rewrite string_app_cons. rewrite (bind_read _ _ _ _ _ (eat_other "-" a b _ d Ha)). rewrite <- string_app_cons. by apply decimal_grammar.
Qed.
Lemma parse_decimal neg W F X : natural_literal W = true -> all_bytes is_digit F = true -> exponent_ok X = true ->
  parse_f64 (sign_text neg +:+ (W +:+ (fraction_text F +:+ exponent_text X))) = decimal_float neg (digits_value 0 (W +:+ F)) (exponent_value X - slen F).
Proof.
  intros HW HF HX. unfold parse_f64.
  assert (strip_prefix "-" (sign_text neg +:+ (W +:+ (fraction_text F +:+ exponent_text X))) = if neg then Some (W +:+ (fraction_text F +:+ exponent_text X)) else None) as ->.
  { destruct neg; [by apply strip_prefix_app|]. change (sign_text false +:+ ?s) with s. destruct (digit_first W HW) as (a & W' & -> & Ha). rewrite string_app_cons. cbn [strip_prefix].
    destruct (Z.eqb_spec (byte_code "-") (byte_code a)) as [E|]; [|done]. apply byte_code_inj in E. by subst a. }
  assert (forall s, default (sign_text neg +:+ s) (if neg then Some s else None) = s) as -> by by destruct neg.
  assert (all_bytes is_digit W = true) as HWd.
  { destruct W as [|a W]; [done|]. cbn [natural_literal all_bytes] in *. apply orb_true_iff in HW as [[->%Ascii.eqb_eq Hs]%andb_true_iff|[Ha Hs]%andb_true_iff]; [by destruct W|]. rewrite Hs, andb_true_r. apply between_spec in Ha. apply between_spec. lia. }
  rewrite span_stops by (done || by destruct F, X as [[]|]).
  assert (match strip_prefix "." (fraction_text F +:+ exponent_text X) with Some s => span is_digit s | None => (""%string, fraction_text F +:+ exponent_text X) end = (F, exponent_text X)) as ->.
  { destruct F as [|a F]; [by destruct X as [[]|]|]. cbn [fraction_text is_empty]. rewrite string_app_cons. change (strip_prefix "." (String "." ?s)) with (Some s). cbv iota. apply span_stops; [done|by destruct X as [[]|]]. }
  assert ((if neg then Some (W +:+ (fraction_text F +:+ exponent_text X)) else None) = None \/ neg = true) as Hneg by (destruct neg; auto).
  replace (match (if neg then Some (W +:+ (fraction_text F +:+ exponent_text X)) else None) with Some _ => true | None => false end) with neg by by destruct neg.
  destruct X as [[[] D]|]; cbn [exponent_text exponent_value exponent_ok] in *; [..|done].
  - by change (strip_prefix "-" (String "-" D)) with (Some D).
  - by change (strip_prefix "-" (String "+" D)) with (@None string); change (strip_prefix "+" (String "+" D)) with (Some D).
Qed.
Lemma decimal_number neg W F X f : natural_literal W = true -> all_bytes is_digit F = true -> exponent_ok X = true -> fraction_text F +:+ exponent_text X <> EmptyString ->
  decimal_float neg (digits_value 0 (W +:+ F)) (exponent_value X - slen F) = f -> is_finite f = true ->
  let t := sign_text neg +:+ (W +:+ (fraction_text F +:+ exponent_text X)) in number (start t) = Read (NFloat f) (mkParser t "" 0).
Proof.
  intros HW HF HX Hne Hf Hfin t. unfold number, start. subst t. rewrite signed_grammar by done. rewrite (text_between_app _ _ (sign_text neg +:+ (W +:+ (fraction_text F +:+ exponent_text X)))) by (done || cbn [rest]; by rewrite string_app_nil).
  unfold float. rewrite parse_decimal by done. by rewrite Hf, Hfin.
Qed.

(** The three shapes of the text. *)
Lemma split_at_spec n s : s = fst (split_at n s) +:+ snd (split_at n s) /\ ((n <= String.length s)%nat -> String.length (fst (split_at n s)) = n).
Proof.
  revert s. induction n as [|n IH]; intros [|a s]; cbn [split_at]; [by split..|cbn; split; [done|lia]|]. destruct (IH s) as [E El]. destruct (split_at n s) as [l r]. cbn [fst snd] in *.
  split; [by rewrite string_app_cons, <- E|]. cbn [String.length]. intros H. f_equal. apply El. lia.
Qed.
Lemma positional_text D x : leading D = true -> exists W F, natural_literal W = true /\ all_bytes is_digit F = true /\ F <> EmptyString /\ positional D x = W +:+ String "." F
  /\ exists w, 0 <= w /\ digits_value 0 (W +:+ F) = digits_value 0 D * 10 ^ w /\ - slen F = x - slen D + 1 - w.
Proof.
  intros HD. destruct (leading_digits D HD) as (Hd & Hnat & _ & Hlen). unfold positional. destruct (Z.leb_spec (x + 1) 0) as [Hx|Hx].
  - destruct (zeros_digits (Z.to_nat (- (x + 1)))) as [Hz Ez]. exists "0"%string, (zeros (Z.to_nat (- (x + 1))) +:+ D). split; [done|]. split; [by rewrite all_bytes_app, Hz, Hd|]. split; [|split; [done|]].
    { intros E. apply (f_equal slen) in E. rewrite slen_app in E. change (slen "") with 0 in E. unfold slen in *. lia. }
    exists 0. split; [lia|]. split; [|rewrite slen_app; lia]. rewrite !digits_value_app. change (digits_value 0 "0") with 0. rewrite zeros_value, Z.mul_0_l. lia.
  - destruct (Z.leb_spec (slen D) (x + 1)) as [Hc|Hc].
    + destruct (zeros_digits (Z.to_nat (x + 1 - slen D))) as [Hz Ez]. exists (D +:+ zeros (Z.to_nat (x + 1 - slen D))), "0"%string. split; [apply leading_digits; by apply leading_app|].
      split; [done|]. split; [done|]. split; [by rewrite string_app_assoc|]. exists (x + 1 - slen D + 1). split; [lia|]. split; [|change (slen "0") with 1; lia].
      rewrite !digits_value_app, zeros_value. rewrite Z2Nat.id by lia. rewrite (Z.pow_add_r 10 _ 1) by lia. cbn [digits_value]. change (byte_code "0") with 48. change (10 ^ 1) with 10. ring.
    + destruct (split_at_spec (Z.to_nat (x + 1)) D) as [E El]. destruct (split_at (Z.to_nat (x + 1)) D) as [W F]. cbn [fst snd] in *. assert (String.length W = Z.to_nat (x + 1)) as EW by (apply El; unfold slen in *; lia). clear El. subst D.
      rewrite slen_app in *. destruct (leading_prefix W F HD) as [HW HF]; [by intros ->; cbn in *; lia|]. exists W, F. split; [by apply leading_digits|]. split; [done|].
      split; [intros ->; change (slen "") with 0 in *; unfold slen in *; lia|]. split; [done|]. exists 0. split; [lia|]. unfold slen in *. lia.
Qed.
Lemma pad2_digits z : 0 <= z -> all_bytes is_digit (pad2 z) = true /\ is_empty (pad2 z) = false /\ digits_value 0 (pad2 z) = z.
Proof.
  intros Hz. assert (all_bytes is_digit (pretty z) = true /\ digits_value 0 (pretty z) = z) as [H1 H2].
  { destruct (Z.eq_dec z 0) as [-> |]; [done|]. destruct (pretty_leading z ltac:(lia)) as [Hl Hv]. split; [|done]. by apply leading_digits. }
  unfold pad2. destruct (Z.ltb_spec z 10) as [|Hge]; [by split_and!|]. split_and!; [done| |done]. destruct (pretty z); [cbn in H2; lia|done].
Qed.
Lemma scientific_text D x : leading D = true -> exists W F X, natural_literal W = true /\ all_bytes is_digit F = true /\ exponent_ok (Some X) = true
  /\ (let '(first, rest) := split_at 1 D in let fraction := if is_empty rest then ""%string else "." +:+ rest in first +:+ fraction +:+ "e" +:+ (if x <? 0 then "-"%string else "+"%string) +:+ pad2 (Z.abs x))
     = W +:+ (fraction_text F +:+ exponent_text (Some X))
  /\ digits_value 0 (W +:+ F) = digits_value 0 D /\ exponent_value (Some X) - slen F = x - slen D + 1.
Proof.
  intros HD. destruct (split_at_spec 1 D) as [E El]. destruct (split_at 1 D) as [W F]. cbn [fst snd] in *. destruct (leading_digits D HD) as (_ & _ & _ & Hlen).
  assert (String.length W = 1%nat) as EW by (apply El; unfold slen in *; lia). clear El. subst D. destruct (leading_prefix W F HD) as [HW HF]; [by intros ->|].
  destruct (pad2_digits (Z.abs x) ltac:(lia)) as (Hp1 & Hp2 & Hp3). exists W, F, (x <? 0, pad2 (Z.abs x)). split; [by apply leading_digits|]. split; [done|].
  split; [cbn [exponent_ok]; by rewrite Hp1, Hp2|]. split; [|split; [done|]].
  - f_equal. unfold fraction_text. cbn [exponent_text]. destruct (x <? 0), (is_empty F); done.
  - cbn [exponent_value]. rewrite Hp3, slen_app. replace (slen W) with 1 by (unfold slen; lia). destruct (Z.ltb_spec x 0); lia.
Qed.
(** The written text of a finite double reads back as it. *)
Lemma float_reads_back f : valid_binary 53 1024 f = true -> is_finite f = true -> reads_back (NFloat f).
Proof.
  intros Hv Hf. destruct f as [sg|sg| |sg m e]; [by destruct sg|done..|]. cbn [valid_binary] in Hv. unfold reads_back. cbn [number_text]. unfold float_repr.
  pose proof (written_digits sg m e Hv) as Hw. destruct (float_digits (S754_finite sg m e)) as [D x]. destruct Hw as [HD Hw]. cbn [is_sign_negative]. fold (sign_text sg).
  destruct (_ && _).
  - destruct (positional_text D x HD) as (W & F & HW & HF & Hne & -> & w & Hw0 & Ev & Es). assert (fraction_text F = String "." F) as EF by by destruct F.
    rewrite <- EF, <- (string_app_nil (fraction_text F)). change ""%string with (exponent_text None). apply decimal_number; try done; [by rewrite EF|]. rewrite Ev. cbn [exponent_value]. rewrite Z.sub_0_l, Es. by apply Hw.
  - destruct (scientific_text D x HD) as (W & F & X & HW & HF & HX & E & Ev & Es). cbv zeta in E |- *. rewrite E. apply decimal_number; try done; [by destruct F, X|]. rewrite Ev, Es. rewrite <- (Z.mul_1_r (digits_value 0 D)). change 1 with (10 ^ 0) at 1.
    replace (x - slen D + 1) with (x - slen D + 1 - 0) by lia. by apply Hw.
Qed.
