(* ===== verification/RoundTrip.v ===== *)
(** * What the writer writes, the reader reads back

    [dumps] under any options, read by the strict reader: the same value, its
    members in the order they were written. *)

From stdpp Require Import base tactics list strings pretty sorting.
From Stdlib Require Import ZArith Lia Ascii SpecFloat Sorting.Sorted.
From S2P Require Import Prelude Text Json Reader Utf8 ReaderSafety Floats.
Import Strict.

#[local] Open Scope Z_scope.

(** ** Strings *)
Lemma to_digit16_hex d : 0 <= d < 16 -> to_digit16 (hex_digit d) = Some d.
Proof.
  intros H. assert (d = 0 \/ d = 1 \/ d = 2 \/ d = 3 \/ d = 4 \/ d = 5 \/ d = 6 \/ d = 7 \/ d = 8 \/ d = 9 \/ d = 10
    \/ d = 11 \/ d = 12 \/ d = 13 \/ d = 14 \/ d = 15)
    as [->|[->|[->|[->|[->|[->|[->|[->|[->|[->|[->|[->|[->|[->|[->| ->]]]]]]]]]]]]]]] by lia; done.
Qed.

(** The escape of one UTF-16 unit is its backslash, [u] and four digits. *)
Definition four_digits (u : Z) (s : string) : string :=
  String (hex_digit (u / 4096)) (String (hex_digit ((u / 256) mod 16))
    (String (hex_digit ((u / 16) mod 16)) (String (hex_digit (u mod 16)) s))).

Lemma hex4_digits at_ b d u t : 0 <= u < 0x10000 ->
  hex4 at_ (mkParser b (four_digits u t) d) = Read u (mkParser b t d).
Proof.
  intros Hu. unfold hex4, four_digits. cbn [rest].
  rewrite !to_digit16_hex by (try apply Z.mod_pos_bound; Z.to_euclidean_division_equations; lia).
  cbn. f_equal. Z.to_euclidean_division_equations. lia.
Qed.

Lemma escape_unit b d u t : 0 <= u < 0xD800 \/ 0xE000 <= u < 0x10000 ->
  escape (mkParser b (push_escape u +:+ t) d) = Read u (mkParser b t d).
Proof.
  intros Hu. unfold escape. cbn [peek skip]. change (push_escape u +:+ t) with (String "\" (String "u" (four_digits u t))).
  cbn [rest drop_bytes upd upd_rest peek skip].
  change (unicode (pos (mkParser b (String "\" (String "u" (four_digits u t))) d)) (mkParser b (four_digits u t) d)
          = Read u (mkParser b t d)).
  generalize (pos (mkParser b (String "\" (String "u" (four_digits u t))) d)). intros at_.
  unfold unicode, mbind, reader_bind. rewrite hex4_digits by lia.
  unfold HIGH_SURROGATES. replace ((0xD800 <=? u) && (u <? 0xDC00)) with false by lia.
  cbn [mret reader_ret]. unfold mret, reader_ret, from_u32.
  replace (_ && _) with true by lia. done.
Qed.

Lemma escape_pair b d c t : 0x10000 <= c <= 0x10FFFF ->
  escape (mkParser b (push_escape (0xd800 + (c - 0x10000) / 0x400)
                      +:+ (push_escape (0xdc00 + (c - 0x10000) mod 0x400) +:+ t)) d)
  = Read c (mkParser b t d).
Proof.
  intros Hc. pose proof (Z.div_mod (c - 0x10000) 0x400). pose proof (Z.mod_pos_bound (c - 0x10000) 0x400).
  set (hi := (c - 0x10000) / 0x400) in *. set (lo := (c - 0x10000) mod 0x400) in *.
  change (push_escape (0xd800 + hi) +:+ (push_escape (0xdc00 + lo) +:+ t))
    with (String "\" (String "u" (four_digits (0xd800 + hi) (String "\" (String "u" (four_digits (0xdc00 + lo) t)))))).
  set (low := String "\" (String "u" (four_digits (0xdc00 + lo) t))).
  unfold escape. set (at_ := pos _).
  change (unicode at_ (mkParser b (four_digits (0xd800 + hi) low) d) = Read c (mkParser b t d)).
  unfold unicode, mbind, reader_bind. rewrite hex4_digits by lia.
  unfold HIGH_SURROGATES. replace ((0xD800 <=? 0xd800 + hi) && (0xd800 + hi <? 0xDC00)) with true by lia.
  unfold low_surrogate. cbn [rest]. change (strip_prefix "\u" low) with (Some (four_digits (0xdc00 + lo) t)).
  unfold upd, upd_rest. cbn [bytes rest depth]. unfold mbind, reader_bind. rewrite hex4_digits by lia.
  unfold LOW_SURROGATES. replace ((0xDC00 <=? 0xdc00 + lo) && (0xdc00 + lo <? 0xE000)) with true by lia.
  unfold mret, reader_ret. rewrite Z.shiftl_mul_pow2 by lia. unfold from_u32.
  replace (0x10000 + (0xd800 + hi - 0xD800) * 2 ^ 10 + (0xdc00 + lo - 0xDC00)) with c by lia.
  by replace ((c <=? 0x10FFFF) && negb ((0xD800 <=? c) && (c <=? 0xDFFF))) with true by lia.
Qed.

(** A character is written as itself, or as an escape that reads back. *)
Lemma write_char_reads ea c b d t : scalar c ->
  (raw_char c /\ write_char ea c = utf8 c) \/
  (exists s, write_char ea c +:+ t = String "\" s /\
   escape (mkParser b (write_char ea c +:+ t) d) = Read c (mkParser b t d)).
Proof.
  intros Hc%scalar_spec. unfold write_char, raw_char.
  destruct (Z.eqb_spec c 0x22) as [->|]; [right; eexists; split; done|].
  destruct (Z.eqb_spec c 0x5c) as [->|]; [right; eexists; split; done|].
  destruct (Z.eqb_spec c 0x0a) as [->|]; [right; eexists; split; done|].
  destruct (Z.eqb_spec c 0x0d) as [->|]; [right; eexists; split; done|].
  destruct (Z.eqb_spec c 0x09) as [->|]; [right; eexists; split; done|].
  destruct (Z.eqb_spec c 0x08) as [->|]; [right; eexists; split; done|].
  destruct (Z.eqb_spec c 0x0c) as [->|]; [right; eexists; split; done|].
  destruct (Z.ltb_spec c 0x20).
  { right. eexists. split; [done|]. apply escape_unit. lia. }
  destruct (Z.leb_spec c 0x7e); [left; split; [lia|done]|].
  destruct ea; cbn [negb]; [right|left; split; [lia|done]].
  unfold utf16_units. destruct (Z.ltb_spec c 0x10000); cbn [map String.concat].
  - eexists. split; [done|]. apply escape_unit. lia.
  - change ("" +:+ ?x) with x. rewrite string_app_assoc. eexists. split; [done|]. apply escape_pair. lia.
Qed.

Definition written ea (cs : list Z) : string := String.concat "" (map (write_char ea) cs).

Lemma string_loop_raw n decoded b d c t : scalar c -> raw_char c ->
  string_loop n decoded (mkParser b (utf8 c +:+ t) d) = string_loop n (decoded +:+ utf8 c) (mkParser b t d).
Proof.
  intros Hc Hr. destruct n as [|n]; [done|]. cbn [string_loop rest]. rewrite span_raw_utf8 by done.
  destruct (span raw_byte t) as [run after]. cbn [fst snd]. by rewrite string_app_assoc.
Qed.

Lemma string_loop_written ea n decoded b d cs t : List.Forall scalar cs -> (length cs < n)%nat ->
  string_loop n decoded (mkParser b (written ea cs +:+ (quote +:+ t)) d)
  = Read (decoded +:+ encode_chars cs) (mkParser b t d).
Proof.
  revert n decoded. induction cs as [|c cs IH]; intros n decoded Hcs Hn; cbn [length] in Hn.
  - destruct n as [|n]; [lia|]. change (written ea [] +:+ (quote +:+ t)) with (String "034" t).
    cbn. by rewrite !string_app_nil.
  - inversion_clear Hcs as [|? ? Hc Hcs']. unfold written, encode_chars in *. cbn [map].
    rewrite !concat_cons, string_app_assoc.
    set (t' := String.concat "" (map (write_char ea) cs) +:+ (quote +:+ t)) in *.
    destruct (write_char_reads ea c b d t' Hc) as [[Hr ->]|(s & Hs & He)].
    + rewrite string_loop_raw by done. rewrite IH by (done || lia). by rewrite string_app_assoc.
    + destruct n as [|n]; [lia|]. cbn [string_loop rest]. rewrite Hs in *.
      change (span raw_byte (String "\" s)) with ("", String "\" s).
      unfold peek, upd, upd_rest. cbn [bytes rest depth]. cbv iota zeta. change (Ascii.eqb "\" "034") with false. change (Ascii.eqb "\" "\") with true. cbv iota.
      unfold mbind, reader_bind. rewrite He. rewrite IH by (done || lia). by rewrite string_app_nil, string_app_assoc.
Qed.

Lemma write_char_nonempty ea c : scalar c -> (1 <= String.length (write_char ea c))%nat.
Proof.
  intros Hc. destruct (write_char_reads ea c "" 0 "" Hc) as [[_ ->]|(s & Hs & _)].
  - unfold utf8. repeat case_match; cbn; lia.
  - rewrite string_app_nil in Hs. rewrite Hs. cbn. lia.
Qed.

Lemma written_length ea cs : List.Forall scalar cs -> (length cs <= String.length (written ea cs))%nat.
Proof.
  induction 1 as [|c cs Hc _ IH]; [cbn; lia|]. unfold written in *. cbn [map length].
  rewrite concat_cons, length_string_app. pose proof (write_char_nonempty ea c Hc). lia.
Qed.

Lemma string_reads ea s b d t : Utf8 s ->
  string_ (mkParser b (write_string ea s +:+ t) d) = Read s (mkParser b t d).
Proof.
  intros [Hs He]%Utf8_chars. unfold string_, write_string. rewrite !string_app_assoc. fold (written ea (chars s)).
  change (skip 1 _) with (mkParser b (written ea (chars s) +:+ (quote +:+ t)) d).
  rewrite string_loop_written; [by rewrite He|done|]. cbn [rest].
  rewrite !length_string_app. pose proof (written_length ea (chars s) Hs). lia.
Qed.

(** ** Numbers

    What may follow a value: nothing, a comma or a closing bracket. *)
Definition sealed (t : string) : bool :=
  match t with String a _ => one_of ",]}" a | EmptyString => true end.

(** A reader of a number does not look past its text: from [p0] it reads the
    same with [t] appended, where positions are [k] later. *)
Definition extends {A} (R : A -> A -> Prop) (k : Z) (t : string) (m m' : reader A) : Prop :=
  forall p0 a q0, m p0 = Read a q0 -> forall p,
  rest p = rest p0 +:+ t -> slen (bytes p) = slen (bytes p0) + slen t + k ->
  bytes q0 = bytes p0 /\ exists a', R a a' /\ m' p = Read a' (mkParser (bytes p) (rest q0 +:+ t) (depth p)).

Lemma sealed_next t c : sealed t = true -> one_of ",]}" c = false ->
  match t with String a _ => Ascii.eqb a c | EmptyString => false end = false.
Proof.
  destruct t as [|a t]; [done|]. cbn [sealed]. intros Ha Hc.
  destruct (Ascii.eqb_spec a c) as [->|]; [congruence|done].
Qed.

Lemma sealed_digits t : sealed t = true -> span is_digit t = ("", t).
Proof.
  destruct t as [|x s]; [done|]. cbn [span sealed]. destruct (is_digit x) eqn:Hd; [|done]. intros Hx. exfalso.
  revert Hd Hx. clear. destruct x as [[] [] [] [] [] [] [] []]; vm_compute; congruence.
Qed.

Lemma span_sealed t r : sealed t = true ->
  span is_digit (r +:+ t) = (fst (span is_digit r), snd (span is_digit r) +:+ t).
Proof.
  intros Ht. induction r as [|a r IH]; [by apply sealed_digits|].
  rewrite string_app_cons. cbn [span]. destruct (is_digit a); [|done]. rewrite IH. by destruct (span is_digit r).
Qed.

Section Extends.
  Context (k : Z) (t : string) (Ht : sealed t = true).

Lemma extends_bind {A B} (R : A -> A -> Prop) (S : B -> B -> Prop) m m' f f' :
  extends R k t m m' -> (forall a a', R a a' -> extends S k t (f a) (f' a')) ->
  extends S k t (m ≫= f) (m' ≫= f').
Proof.
  intros Hm Hf p0 b q0 (a & r0 & H1 & H2)%reader_bind_Read p Hr Hb.
  destruct (Hm _ _ _ H1 p Hr Hb) as (Hb0 & a' & HR & H1').
  destruct (Hf _ _ HR _ _ _ H2 (mkParser (bytes p) (rest r0 +:+ t) (depth p))) as (Hb1 & b' & HS & H2');
    [done|cbn [bytes]; congruence|].
  split; [congruence|]. exists b'. split; [done|]. apply reader_bind_Read. eauto.
Qed.

Lemma extends_ret {A} (R : A -> A -> Prop) a a' : R a a' -> extends R k t (mret a) (mret a').
Proof.
  intros HR p0 b q0 [= <- <-] [bs r d] Hr Hb. cbn [rest] in Hr. subst r. split; [done|]. by exists a'.
Qed.

Lemma extends_position : extends (fun i i' => i' = i + k) k t position position.
Proof.
  intros p0 b q0 [= <- <-] [bs r d] Hr Hb. cbn [rest bytes] in *. subst r. split; [done|].
  eexists. split; [|done]. unfold pos. cbn [bytes rest]. rewrite slen_app. lia.
Qed.

Lemma extends_eat c : one_of ",]}" c = false -> extends eq k t (eat c) (eat c).
Proof.
  intros Hc [b0 r0 d0] b q0 He [bs r d] Hr Hb. cbn [rest bytes depth] in *. subst r.
  unfold eat, next_is, peek in *. cbn [rest] in *. destruct r0 as [|a r0].
  - injection He as <- <-. split; [done|]. exists false. split; [done|]. change ("" +:+ t) with t.
    pose proof (sealed_next t c Ht Hc) as Hn. by destruct t as [|x s]; [|rewrite Hn].
  - rewrite string_app_cons. destruct (Ascii.eqb a c); injection He as <- <-; (split; [done|]); eauto.
Qed.

Lemma extends_digits : extends eq k t required_digits required_digits.
Proof.
  intros [b0 r0 d0] u q0 He [bs r d] Hr Hb. cbn [rest bytes depth] in *. subst r.
  unfold required_digits in *. cbn [rest] in *. rewrite span_sealed by done.
  destruct (span is_digit r0) as [digits after]. cbn [fst snd]. destruct (is_empty digits); [done|].
  injection He as <- <-. split; [done|]. by exists tt.
Qed.

Lemma extends_if {A} (R : A -> A -> Prop) (b : bool) m1 m2 :
  extends R k t m1 m1 -> extends R k t m2 m2 -> extends R k t (if b then m1 else m2) (if b then m1 else m2).
Proof. by destruct b. Qed.

Lemma extends_grammar : extends eq k t number_grammar number_grammar.
Proof.
  unfold number_grammar, fractional_part.
  repeat first [ apply extends_digits | by apply extends_eat | apply (extends_ret eq); reflexivity
    | apply extends_if
    | eapply extends_bind; [apply extends_position|intros ? ? ->]
    | eapply (extends_bind eq); [|intros ? ? <-]].
  apply extends_ret. f_equal. lia.
Qed.
End Extends.

Lemma number_reads n b d t : reads_back n -> sealed t = true ->
  number (mkParser b (number_text n +:+ t) d) = Read n (mkParser b t d).
Proof.
  unfold reads_back, start. generalize (number_text n). intros lit Hn Ht. unfold number in Hn |- *.
  destruct (number_grammar (mkParser lit lit 0)) as [fr q0| |] eqn:Hg; [|done..].
  assert (q0 = mkParser lit "" 0) as -> by (by repeat case_match; simplify_eq).
  destruct (extends_grammar (slen b - slen lit - slen t) t Ht _ _ _ Hg (mkParser b (lit +:+ t) d))
    as (_ & fr' & <- & ->); [done|cbn [bytes]; lia|].
  rewrite (text_between_app (mkParser lit lit 0) (mkParser lit "" 0) lit) in Hn by (done || cbn [rest]; by rewrite string_app_nil).
  cbn [bytes rest depth]. change ("" +:+ t) with t.
  rewrite (text_between_app (mkParser b (lit +:+ t) d) (mkParser b t d) lit) by done.
  destruct fr; unfold float, integer in *; by repeat case_match; simplify_eq.
Qed.

(** An integer literal is read whole. *)
Lemma natural_grammar bs d s : natural_literal s = true ->
  (zero ← eat "0"; _ ← (if zero : bool then mret tt else required_digits); integral ← position; fractional_part integral)
    (mkParser bs s d) = Read false (mkParser bs "" d).
Proof.
  intros Hs. assert (forall i, i = slen bs -> fractional_part i (mkParser bs "" d) = Read false (mkParser bs "" d)) as Hf.
  { intros i ->. change (Read (negb (slen bs - 0 =? slen bs)) (mkParser bs "" d) = Read false (mkParser bs "" d)).
    by rewrite Z.sub_0_r, Z.eqb_refl. }
  destruct s as [|a s]; [done|]. cbn [natural_literal] in Hs.
  unfold mbind at 1, reader_bind at 1, eat, next_is, peek. cbn [rest].
  destruct (Ascii.eqb_spec a "0") as [->|].
  - cbn in Hs. rewrite orb_false_r in Hs. destruct s; [|done]. cbv iota. apply Hf. apply Z.sub_0_r.
  - cbn [andb orb] in Hs. apply andb_true_iff in Hs as [Ha Hs].
    assert (all_bytes is_digit (String a s) = true) as Hd.
    { cbn [all_bytes]. rewrite Hs, andb_true_r. apply between_spec in Ha. apply between_spec. lia. }
    unfold mbind at 1, reader_bind at 1, required_digits. cbn [rest]. rewrite (span_all is_digit _ Hd). cbn [is_empty].
    apply Hf. apply Z.sub_0_r.
Qed.

Lemma integer_grammar s : integer_literal s = true ->
  number_grammar (start s) = Read false (mkParser s "" 0).
Proof.
  unfold integer_literal, number_grammar, start. intros Hs. unfold mbind at 1, reader_bind at 1.
  destruct (strip_prefix "-" s) as [n|] eqn:Hp.
  - apply strip_prefix_app in Hp as ->. by apply natural_grammar.
  - assert (eat "-" (mkParser s s 0) = Read false (mkParser s s 0)) as ->; [|by apply natural_grammar].
    unfold eat, next_is, peek. cbn [rest]. destruct s as [|a s]; [done|].
    destruct (Ascii.eqb_spec a "-") as [->|]; done.
Qed.

(** A literal of twenty digits is beyond [i64]. *)
Lemma natural_short s : natural_literal s = true -> digits_value 0 s <= 2 ^ 63 -> slen s <= MAX_INTEGER_DIGITS.
Proof.
  destruct s as [|a s]; [done|]. cbn [natural_literal]. intros Hs Hv.
  apply orb_true_iff in Hs as [[_ Hs]%andb_true_iff|[Ha%between_spec Hs]%andb_true_iff]; [by destruct s|].
  cbn [digits_value] in Hv. pose proof (digits_value_ge s (0 * 10 + (byte_code a - 0x30)) Hs ltac:(lia)).
  destruct (Z.le_gt_cases (slen (String a s)) MAX_INTEGER_DIGITS) as [|Hgt]; [done|].
  assert (10 ^ 19 <= 10 ^ slen s) by (apply Z.pow_le_mono_r; unfold MAX_INTEGER_DIGITS, slen in *; cbn in *; lia).
  change (10 ^ 19) with 10000000000000000000 in *. change (2 ^ 63) with 9223372036854775808 in *. nia.
Qed.

Lemma in_i64_range z : in_i64 z = true <-> i64_min <= z <= i64_max.
Proof. unfold in_i64. rewrite andb_true_iff, !Z.leb_le. done. Qed.

Lemma unsigned_short s : integer_literal s = true -> parse_i64 s <> None -> slen (unsigned s) <= MAX_INTEGER_DIGITS.
Proof.
  unfold integer_literal, parse_i64, unsigned. intros Hs Hp.
  destruct (strip_prefix "-" s) as [n|]; cbn [default from_option id]; unfold id; apply natural_short; try done;
    destruct (in_i64 _) eqn:Hi in Hp; try done; apply in_i64_range in Hi; unfold i64_min, i64_max in Hi;
    change (2 ^ 63) with 9223372036854775808; lia.
Qed.

Lemma integer_reads s n : integer_literal s = true -> slen (unsigned s) <= MAX_INTEGER_DIGITS ->
  n = match parse_i64 s with Some z => NInt z | None => NBigInt s end ->
  number (start s) = Read n (mkParser s "" 0).
Proof.
  intros Hl Hs ->. unfold number. rewrite integer_grammar by done. unfold start.
  rewrite (text_between_app _ _ s) by (done || cbn [rest]; by rewrite string_app_nil).
  unfold integer. fold (unsigned s). destruct (Z.ltb_spec MAX_INTEGER_DIGITS (slen (unsigned s))); [lia|done].
Qed.

Lemma whole_reads_back n : number_ok n = true -> (forall f, n <> NFloat f) -> reads_back n.
Proof.
  destruct n as [z|s|f]; intros Hn Hf; [..|by destruct (Hf f)]; unfold reads_back; cbn [number_text number_ok] in *.
  - assert (parse_i64 (pretty z) = Some z) as Hp by by apply parse_pretty.
    apply integer_reads; [apply pretty_Z_literal|apply unsigned_short; [apply pretty_Z_literal|congruence]|by rewrite Hp].
  - apply andb_true_iff in Hn as [[Hl Hs%Z.leb_le]%andb_true_iff Hp].
    apply integer_reads; [done..|]. by destruct (parse_i64 s).
Qed.

(** ** Values *)

(** The value as it is written: members sorted when the options ask so. *)
Fixpoint ordered (o : Options) (v : Value) : Value :=
  match v with
  | VArray items => VArray (map (ordered o) items)
  | VObject ms =>
      let ms := map (fun kv => (fst kv, ordered o (snd kv))) ms in
      VObject (if sort_keys o then sorted_by_name ms else ms)
  | _ => v
  end.

(** Every float of the value is a double: its mantissa and exponent are those of an [f64]. *)
Fixpoint doubles (v : Value) : Prop :=
  match v with
  | VNumber (NFloat f) => valid_binary 53 1024 f = true
  | VArray items => fold_right and True (map doubles items)
  | VObject ms => fold_right and True (map (fun kv => doubles (snd kv)) ms)
  | _ => True
  end.

Lemma all_and {A} (P : A -> Prop) l : fold_right and True (map P l) <-> List.Forall P l.
Proof.
  induction l as [|x l IH]; cbn [map fold_right]; [done|]. rewrite IH. split; [by intros []; constructor|].
  by inversion_clear 1.
Qed.

(** A text that starts a value: not with a space or a closing bracket. *)
Definition opens (s : string) : bool :=
  match s with String a _ => negb (is_space a) && negb (one_of ",]}" a) | EmptyString => false end.

Lemma opens_app s t : opens s = true -> opens (s +:+ t) = true.
Proof. by destruct s. Qed.

Lemma skip_opens b s d : opens s = true -> skip_whitespace (mkParser b s d) = Read tt (mkParser b s d).
Proof.
  destruct s as [|a s]; [done|]. cbn [opens]. intros [Ha%negb_true_iff _]%andb_true_iff.
  unfold skip_whitespace. cbn [rest span]. by rewrite Ha.
Qed.

Lemma eat_opens b s d c : opens s = true -> one_of ",]}" c = true -> eat c (mkParser b s d) = Read false (mkParser b s d).
Proof.
  destruct s as [|a s]; [done|]. cbn [opens]. intros [_ Ha%negb_true_iff]%andb_true_iff Hc.
  unfold eat, next_is, peek. cbn [rest]. destruct (Ascii.eqb_spec a c) as [->|]; [congruence|done].
Qed.

Lemma separator_close b t d c : c = "]"%char \/ c = "}"%char ->
  separator c (mkParser b (String c t) d) = Read true (mkParser b t (d - 1)).
Proof. by intros [-> | ->]. Qed.

Lemma separator_next b s d c o : c = "]"%char \/ c = "}"%char -> opens s = true ->
  separator c (mkParser b (item_separator o +:+ s) d) = Read false (mkParser b s d).
Proof.
  intros Hc Hs. assert (separator c (mkParser b (item_separator o +:+ s) d)
    = (skip_whitespace ≫= fun _ => mret false) (mkParser b (if compact o then s else String " " s) d)) as ->.
  { unfold item_separator. destruct Hc as [-> | ->], (compact o); done. }
  unfold mbind, reader_bind. destruct (compact o); [by rewrite skip_opens|].
  destruct s as [|a s]; [done|]. cbn [opens] in Hs. apply andb_true_iff in Hs as [Ha%negb_true_iff _].
  unfold skip_whitespace. cbn [rest span]. change (is_space " ") with true. cbv iota. rewrite Ha. done.
Qed.

Lemma number_opens n : reads_back n -> exists a s, number_text n = String a s /\ (a = "-"%char \/ is_digit a = true).
Proof.
  unfold reads_back, number, start. generalize (number_text n). intros lit H.
  destruct (number_grammar (mkParser lit lit 0)) as [fr q| |] eqn:Hg; [|done..]. clear H.
  unfold number_grammar in Hg.
  apply reader_bind_Read in Hg as (sg & p1 & H1 & (zero & p2 & H2 & (u & p3 & H3 & _)%reader_bind_Read)%reader_bind_Read).
  destruct (integral_literal (mkParser lit lit 0) p3) as (l & Hl & Hi).
  { apply reader_bind_Read. exists sg, p1. split; [done|]. apply reader_bind_Read. exists zero, p2. by destruct u. }
  cbn [rest] in Hl. subst lit. unfold integer_literal in Hi. destruct (strip_prefix "-" l) as [n'|] eqn:Hp.
  - apply strip_prefix_app in Hp as ->. do 2 eexists. split; [done|by left].
  - destruct l as [|a l]; [done|]. exists a, (l +:+ rest p3). split; [done|right]. cbn [natural_literal] in Hi.
    apply orb_true_iff in Hi as [[Ha%Ascii.eqb_eq _]%andb_true_iff|[Ha%between_spec _]%andb_true_iff]; [by subst|].
    apply between_spec. lia.
Qed.

Lemma digit_opens a s : a = "-"%char \/ is_digit a = true -> opens (String a s) = true.
Proof.
  intros [-> |Ha]; [done|]. cbn [opens]. revert Ha. clear.
  destruct a as [[] [] [] [] [] [] [] []]; vm_compute; congruence.
Qed.

Lemma number_ok_reads n : number_ok n = true -> doubles (VNumber n) -> reads_back n.
Proof. destruct n as [z|s|f]; intros H Hf; [by apply whole_reads_back..|by apply float_reads_back]. Qed.

Lemma dumps_opens o v : admissible v = true -> doubles v -> opens (dumps o v) = true.
Proof.
  destruct v as [|[]|n|s|l|ms]; intros Ha Hf; try done.
  cbn [dumps]. destruct (number_opens n (number_ok_reads n Ha Hf)) as (a & s & -> & H). by apply digit_opens.
Qed.

Section Loops.
  Context (o : Options) (value : reader Value) (b : string) (d : Z).
  (** [value] reads this value's text. *)
  Context (reads : Value -> Prop).
  Context (Hreads : forall v t, reads v -> sealed t = true ->
             value (mkParser b (dumps o v +:+ t) d) = Read (ordered o v) (mkParser b t d)).
  Context (Hopens : forall v, reads v -> opens (dumps o v) = true).

Lemma concat_next sep x y (l : list string) :
  String.concat sep (x :: y :: l) = x +:+ (sep +:+ String.concat sep (y :: l)).
Proof. done. Qed.

Lemma separator_sealed t : sealed (item_separator o +:+ t) = true.
Proof. unfold item_separator. by destruct (compact o). Qed.

Lemma array_loop_reads turns items v vs t :
  List.Forall reads (v :: vs) -> (length vs < turns)%nat ->
  array_loop value turns items (mkParser b (String.concat (item_separator o) (map (dumps o) (v :: vs)) +:+ String "]" t) d)
  = Read (VArray (items ++ map (ordered o) (v :: vs))) (mkParser b t (d - 1)).
Proof.
  revert turns items v. induction vs as [|w vs IH]; intros turns items v H Ht; (destruct turns as [|turns]; [lia|]).
  - inversion_clear H as [|? ? Hv _]. cbn [map String.concat array_loop]. unfold mbind, reader_bind.
    rewrite Hreads by done. rewrite separator_close by auto. done.
  - inversion_clear H as [|? ? Hv Hvs]. cbn [map length] in *. rewrite concat_next, !string_app_assoc.
    cbn [array_loop]. unfold mbind at 1, reader_bind at 1. rewrite Hreads by (done || apply separator_sealed).
    unfold mbind, reader_bind. rewrite separator_next.
    + rewrite (IH turns (items ++ [ordered o v]) w) by (done || lia). by rewrite <- app_assoc.
    + auto.
    + inversion_clear Hvs. destruct vs; cbn [map]; [|rewrite concat_next, string_app_assoc]; by apply opens_app, Hopens.
Qed.

Definition member_text (kv : string * Value) : string :=
  write_string (ensure_ascii o) (fst kv) +:+ ((if compact o then ":" else ": ") +:+ dumps o (snd kv)).
Definition ordered_member (kv : string * Value) : string * Value := (fst kv, ordered o (snd kv)).

Lemma member_reads kv t : Utf8 (fst kv) -> reads (snd kv) -> sealed t = true ->
  member value (mkParser b (member_text kv +:+ t) d) = Read (ordered_member kv) (mkParser b t d).
Proof.
  intros Hk Hv Ht. unfold member, member_text. rewrite !string_app_assoc.
  assert (forall s, next_is "034" (mkParser b (write_string (ensure_ascii o) (fst kv) +:+ s) d) = true) as -> by done.
  unfold mbind at 1, reader_bind at 1. rewrite string_reads by done.
  set (s := dumps o (snd kv) +:+ t). assert (opens s = true) as Hs by by apply opens_app, Hopens.
  unfold mbind, reader_bind.
  assert (skip_whitespace (mkParser b ((if compact o then ":" else ": ") +:+ s) d)
          = Read tt (mkParser b ((if compact o then ":" else ": ") +:+ s) d)) as -> by by destruct (compact o).
  assert (eat ":" (mkParser b ((if compact o then ":" else ": ") +:+ s) d)
          = Read true (mkParser b (if compact o then s else String " " s) d)) as -> by by destruct (compact o).
  assert (skip_whitespace (mkParser b (if compact o then s else String " " s) d) = Read tt (mkParser b s d)) as ->.
  { destruct (compact o); [by apply skip_opens|]. destruct s as [|a s']; [done|]. cbn [opens] in Hs.
    apply andb_true_iff in Hs as [Ha%negb_true_iff _]. unfold skip_whitespace. cbn [rest span].
    change (is_space " ") with true. cbv iota. by rewrite Ha. }
  unfold s. by rewrite Hreads.
Qed.

Lemma object_loop_reads turns start ms kv kvs t :
  List.Forall (fun kv => Utf8 (fst kv) /\ reads (snd kv)) (kv :: kvs) -> (length kvs < turns)%nat ->
  distinct (map fst (ms ++ map ordered_member (kv :: kvs))) = true ->
  object_loop value turns start ms
    (mkParser b (String.concat (item_separator o) (map member_text (kv :: kvs)) +:+ String "}" t) d)
  = Read (VObject (ms ++ map ordered_member (kv :: kvs))) (mkParser b t (d - 1)).
Proof.
  revert turns ms kv. induction kvs as [|kw kvs IH]; intros turns ms kv H Ht Hd; (destruct turns as [|turns]; [lia|]).
  - inversion_clear H as [|? ? [Hk Hv] _]. cbn [map String.concat object_loop]. unfold mbind, reader_bind.
    rewrite member_reads by done. rewrite separator_close by auto. cbv iota. unfold unique.
    unfold distinct in Hd. cbn [map] in Hd. rewrite Hd. done.
  - inversion_clear H as [|? ? [Hk Hv] Hvs]. cbn [map length] in *. rewrite concat_next, !string_app_assoc.
    cbn [object_loop]. unfold mbind at 1, reader_bind at 1. rewrite member_reads by (done || apply separator_sealed).
    unfold mbind, reader_bind. rewrite separator_next.
    + rewrite (IH turns (ms ++ [ordered_member kv]) kw) by (done || lia || by rewrite <- app_assoc). by rewrite <- app_assoc.
    + auto.
    + destruct kvs; [cbn [map String.concat]|cbn [map]; rewrite concat_next]; unfold member_text; rewrite !string_app_assoc; done.
Qed.
End Loops.

(** *** The order members are written in *)
Lemma sorted_by_name_map {A B} (f : A -> B) (ms : list (string * A)) :
  sorted_by_name (map (fun kv => (fst kv, f (snd kv))) ms) = map (fun kv => (fst kv, f (snd kv))) (sorted_by_name ms).
Proof. unfold sorted_by_name. by apply stable_sort_map. Qed.

Definition in_order {A} (o : Options) (ms : list (string * A)) : list (string * A) :=
  if sort_keys o then sorted_by_name ms else ms.

Lemma in_order_perm {A} o (ms : list (string * A)) : in_order o ms ≡ₚ ms.
Proof. unfold in_order. destruct (sort_keys o); [apply stable_sort_perm|done]. Qed.

Lemma dumps_object o ms :
  dumps o (VObject ms) = "{" +:+ (String.concat (item_separator o) (map (member_text o) (in_order o ms)) +:+ "}").
Proof.
  cbn [dumps]. do 3 f_equal. unfold in_order, member_text.
  destruct (sort_keys o); [rewrite sorted_by_name_map|]; by rewrite map_map.
Qed.
Lemma ordered_object o ms : ordered o (VObject ms) = VObject (map (ordered_member o) (in_order o ms)).
Proof.
  cbn [ordered]. f_equal. unfold in_order, ordered_member. destruct (sort_keys o); [by rewrite sorted_by_name_map|done].
Qed.

(** Distinct names stay distinct in any order. *)
Lemma sorted_keys_perm keys keys' : keys ≡ₚ keys' -> stable_sort sleb keys = stable_sort sleb keys'.
Proof.
  intros Hp. apply (StronglySorted_unique_strong (fun x y => sleb x y = true)).
  - intros x y _ _. apply sleb_antisym.
  - apply stable_sort_Sorted; eauto using sleb_total, sleb_trans.
  - apply stable_sort_Sorted; eauto using sleb_total, sleb_trans.
  - by rewrite !stable_sort_perm.
Qed.
Lemma distinct_perm keys keys' : keys ≡ₚ keys' -> distinct keys = distinct keys'.
Proof. intros Hp. unfold distinct. by rewrite (sorted_keys_perm keys keys'). Qed.

(** *** Reading one written value *)
Definition readable (o : Options) (v : Value) : Prop :=
  forall turns b d t, sealed t = true -> (String.length (dumps o v) < turns)%nat -> d + height v <= MAX_DEPTH ->
  value turns (mkParser b (dumps o v +:+ t) d) = Read (ordered o v) (mkParser b t d).

(** Reading at most [turns] bytes at depth [d]. *)
Definition bounded (o : Options) (turns : nat) (d : Z) (v : Value) : Prop :=
  readable o v /\ opens (dumps o v) = true /\ (String.length (dumps o v) < turns)%nat /\ d + height v <= MAX_DEPTH.

Lemma bounded_reads o turns b d v t : bounded o turns d v -> sealed t = true ->
  value turns (mkParser b (dumps o v +:+ t) d) = Read (ordered o v) (mkParser b t d).
Proof. intros (H & _ & ? & ?) Ht. by apply H. Qed.
Lemma bounded_opens o turns d v : bounded o turns d v -> opens (dumps o v) = true.
Proof. by intros (_ & ? & _). Qed.

Lemma enter_opens b a s d : d <> MAX_DEPTH -> opens s = true ->
  enter (mkParser b (String a s) d) = Read tt (mkParser b s (d + 1)).
Proof.
  intros Hd Hs. unfold enter. cbn [depth]. destruct (Z.eqb_spec d MAX_DEPTH); [done|].
  change (skip 1 _) with (mkParser b s (d + 1)). by apply skip_opens.
Qed.

(** Each part of a concatenation is shorter than the whole. *)
Lemma concat_part sep (l : list string) x : In x l -> (String.length x <= String.length (String.concat sep l))%nat.
Proof.
  induction l as [|y l IH]; [done|]. intros [->|Hx].
  - destruct l; [cbn; lia|]. rewrite concat_next, length_string_app. lia.
  - destruct l as [|z l]; [done|]. rewrite concat_next, !length_string_app. specialize (IH Hx). lia.
Qed.
Lemma concat_count sep (l : list string) : List.Forall (fun x => opens x = true) l ->
  (length l <= String.length (String.concat sep l))%nat.
Proof.
  induction 1 as [|x l Hx Hl IH]; [cbn; lia|]. destruct l as [|y l].
  - cbn. destruct x; [done|cbn; lia].
  - rewrite concat_next, !length_string_app. destruct x; [done|]. cbn [String.length length] in *. lia.
Qed.

Lemma heights_in {A} (f : A -> Z) l x : In x l -> f x <= fold_right Z.max 0 (map f l).
Proof. induction l as [|y l IH]; [done|]. cbn [map fold_right]. intros [->|Hx]; [lia|]. specialize (IH Hx). lia. Qed.

Lemma bracket_text a body close t : (String a "" +:+ (body +:+ close)) +:+ t = String a (body +:+ (close +:+ t)).
Proof. by rewrite !string_app_assoc. Qed.

Lemma array_reads o l : List.Forall (fun v => readable o v /\ opens (dumps o v) = true) l -> readable o (VArray l).
Proof.
  intros Hl turns b d t Ht Hlen Hh. destruct turns as [|turns]; [lia|].
  cbn [dumps height ordered] in *. rewrite bracket_text.
  cbn [value]. unfold peek. cbn [rest]. change (Ascii.eqb "[" "{") with false. change (Ascii.eqb "[" "[") with true. cbv iota.
  rewrite !length_string_app in Hlen. cbn [String.length] in Hlen.
  pose proof (heights_le height l (MAX_DEPTH - d - 1)) as Hm.
  destruct l as [|v l].
  - unfold array_. unfold mbind, reader_bind, enter. cbn [depth map fold_right] in *.
    destruct (Z.eqb_spec d MAX_DEPTH); [lia|].
    change (Read (VArray []) (mkParser b t (d + 1 - 1)) = Read (VArray []) (mkParser b t d)). do 2 f_equal. lia.
  - assert (0 <= fold_right Z.max 0 (map height (v :: l))) by (clear; induction (v :: l); cbn; lia).
    assert (List.Forall (bounded o turns (d + 1)) (v :: l)) as Hb.
    { apply List.Forall_forall. intros x Hx. eapply List.Forall_forall in Hl as [H1 H2]; [|exact Hx].
      pose proof (concat_part (item_separator o) (map (dumps o) (v :: l)) (dumps o x) (in_map _ _ _ Hx)).
      pose proof (heights_in height (v :: l) x Hx). repeat split; [done..|lia|lia]. }
    assert (List.Forall (fun x => opens x = true) (map (dumps o) (v :: l))) as Ho.
    { apply List.Forall_map. eapply List.Forall_impl; [|exact Hl]. by intros x [_ ?]. }
    pose proof (concat_count (item_separator o) _ Ho) as Hc. rewrite length_map in Hc. cbn [length] in Hc.
    set (body := String.concat (item_separator o) (map (dumps o) (v :: l))) in *.
    assert (opens (body +:+ ("]" +:+ t)) = true) as Hob.
    { apply opens_app. unfold body. inversion_clear Ho. destruct l; [done|]. cbn [map]. rewrite concat_next. by apply opens_app. }
    unfold array_. unfold mbind at 1, reader_bind at 1. rewrite enter_opens by (done || lia).
    unfold mbind, reader_bind. rewrite eat_opens by done.
    change ("]" +:+ t) with (String "]" t). unfold body.
    rewrite (array_loop_reads o (value turns) b (d + 1) (bounded o turns (d + 1)));
      [do 2 f_equal; lia|intros; by apply bounded_reads|intros; by eapply bounded_opens|done|lia].
Qed.

Lemma object_reads o ms :
  List.Forall (fun kv => Utf8 (fst kv) /\ readable o (snd kv) /\ opens (dumps o (snd kv)) = true) ms ->
  distinct (map fst ms) = true -> readable o (VObject ms).
Proof.
  intros Hms Hd turns b d t Ht Hlen Hh. destruct turns as [|turns]; [lia|].
  rewrite dumps_object, ordered_object in *. cbn [height] in Hh.
  assert (distinct (map fst (map (ordered_member o) (in_order o ms))) = true) as Hd'.
  { rewrite <- Hd. apply distinct_perm. rewrite map_map. apply Permutation_map, in_order_perm. }
  assert (List.Forall (fun kv => height (snd kv) <= MAX_DEPTH - d - 1) (in_order o ms)) as Hhs.
  { rewrite in_order_perm. apply heights_le; [|lia].
    assert (0 <= fold_right Z.max 0 (map (fun kv => height (snd kv)) ms)) by (clear; induction ms; cbn; lia). lia. }
  rewrite <- (in_order_perm o ms) in Hms. revert Hms Hhs Hd' Hlen. clear Hd. generalize (in_order o ms).
  intros l Hl Hhs Hd Hlen. rewrite bracket_text.
  cbn [value]. unfold peek. cbn [rest]. change (Ascii.eqb "{" "{") with true. cbv iota.
  rewrite !length_string_app in Hlen. cbn [String.length] in Hlen.
  assert (d <> MAX_DEPTH) as Hne.
  { assert (0 <= fold_right Z.max 0 (map (fun kv => height (snd kv)) ms)) by (clear; induction ms; cbn; lia). lia. }
  destruct l as [|kv l].
  - unfold object_, mbind, reader_bind, enter. cbn [depth map]. destruct (Z.eqb_spec d MAX_DEPTH); [lia|].
    change (Read (VObject []) (mkParser b t (d + 1 - 1)) = Read (VObject []) (mkParser b t d)). do 2 f_equal. lia.
  - assert (List.Forall (fun x => opens x = true) (map (member_text o) (kv :: l))) as Ho
      by (apply List.Forall_map, List.Forall_forall; done).
    assert (List.Forall (fun kv => Utf8 (fst kv) /\ bounded o turns (d + 1) (snd kv)) (kv :: l)) as Hb.
    { apply List.Forall_forall. intros x Hx. eapply List.Forall_forall in Hl as (H1 & H2 & H3); [|exact Hx].
      eapply List.Forall_forall in Hhs; [|exact Hx]. cbv beta in Hhs.
      pose proof (concat_part (item_separator o) (map (member_text o) (kv :: l)) (member_text o x) (in_map _ _ _ Hx)) as Hp.
      unfold member_text at 1 in Hp. rewrite !length_string_app in Hp. repeat split; [done..|lia|lia]. }
    pose proof (concat_count (item_separator o) _ Ho) as Hc. rewrite length_map in Hc. cbn [length] in Hc.
    set (body := String.concat (item_separator o) (map (member_text o) (kv :: l))) in *.
    assert (opens (body +:+ ("}" +:+ t)) = true) as Hob.
    { apply opens_app. unfold body. destruct l; [done|]. cbn [map]. rewrite concat_next. by apply opens_app. }
    unfold object_. unfold mbind at 1, reader_bind at 1. rewrite enter_opens by done.
    unfold mbind, reader_bind. rewrite eat_opens by done.
    change ("}" +:+ t) with (String "}" t). unfold body.
    rewrite (object_loop_reads o (value turns) b (d + 1) (bounded o turns (d + 1)));
      [do 2 f_equal; lia|intros; by apply bounded_reads|intros; by eapply bounded_opens|done|lia|done].
Qed.

Lemma value_reads o v : admissible v = true -> doubles v -> readable o v.
Proof.
  induction v as [|bl|n|s|l IH|ms IH] using value_ind'; intros Ha Hf.
  - intros [|turns] b d t Ht Hlen Hh; [lia|]. done.
  - intros [|turns] b d t Ht Hlen Hh; [lia|]. by destruct bl.
  - intros [|turns] b d t Ht Hlen Hh; [lia|]. pose proof (number_ok_reads n Ha Hf) as Hn.
    destruct (number_opens n Hn) as (a & s & Hs & Hd). cbn [dumps ordered value]. unfold peek. cbn [rest].
    pose proof (number_reads n b d t Hn Ht) as Hr. rewrite Hs in *. rewrite string_app_cons in *.
    assert (Ascii.eqb a "-" || is_digit a = true) as ->.
    { destruct Hd as [->| ->]; [done|]. by rewrite orb_true_r. }
    do 6 (match goal with |- context [Ascii.eqb a ?c] => destruct (Ascii.eqb_spec a c) as [->|_]; [by destruct Hd|] end).
    unfold mbind, reader_bind. by rewrite Hr.
  - intros [|turns] b d t Ht Hlen Hh; [lia|]. apply valid_utf8_iff in Ha. cbn [dumps ordered value].
    unfold peek. cbn [rest]. unfold mbind, reader_bind. rewrite string_reads by done. done.
  - cbn [admissible doubles] in *. rewrite all_and in Hf. rewrite forallb_forall in Ha. apply array_reads.
    rewrite List.Forall_forall in *. intros x Hx. split; [apply IH; auto|apply dumps_opens; auto].
  - cbn [admissible doubles] in *. rewrite (all_and (fun kv => doubles (snd kv))) in Hf.
    apply andb_true_iff in Ha as [Hd Ha]. rewrite forallb_forall in Ha. apply object_reads; [|done].
    rewrite List.Forall_forall in *. intros x Hx. specialize (Ha x Hx). apply andb_true_iff in Ha as [Hk Hv].
    split; [by apply valid_utf8_iff|]. split; [apply IH; auto|apply dumps_opens; auto].
Qed.

(** ** Documents *)
Lemma ascii_Utf8 s t : all_bytes is_ascii s = true -> Utf8 t -> Utf8 (s +:+ t).
Proof.
  intros Hs Ht. induction s as [|a s IH]; [done|]. cbn [all_bytes] in Hs. apply andb_true_iff in Hs as [Ha%Z.ltb_lt Hs].
  pose proof (byte_code_range a). assert (scalar (byte_code a)) as Hc by (apply scalar_ascii; lia).
  eapply (first_scalar (byte_code a) (s +:+ t)); [done| |auto].
  destruct (utf8_cases (byte_code a) (s +:+ t) Hc) as [[_ ->]|[(? & ? & ? & ?)|[(? & ? & ? & ? & ?)|(? & ? & ? & ? & ? & ?)]]]; try lia.
  by rewrite byte_of_code, string_app_cons.
Qed.
Lemma ascii_only s : all_bytes is_ascii s = true -> Utf8 s.
Proof. intros H. rewrite <- (string_app_nil s). apply ascii_Utf8; [done|constructor]. Qed.

Lemma concat_Utf8 sep (l : list string) : Utf8 sep -> List.Forall Utf8 l -> Utf8 (String.concat sep l).
Proof.
  intros Hs. induction 1 as [|x l Hx Hl IH]; [constructor|]. destruct l; [done|].
  rewrite concat_next. auto using Utf8_app.
Qed.

Lemma hex_digit_ascii d : 0 <= d < 16 -> is_ascii (hex_digit d) = true.
Proof.
  intros H. unfold is_ascii, hex_digit. apply Z.ltb_lt. destruct (d <? 10); rewrite byte_code_of by lia; lia.
Qed.
Lemma push_escape_ascii u : 0 <= u < 0x10000 -> all_bytes is_ascii (push_escape u) = true.
Proof.
  intros Hu. change (push_escape u) with (String "\" (String "u" (four_digits u ""))). unfold four_digits. cbn [all_bytes].
  rewrite !hex_digit_ascii by (try apply Z.mod_pos_bound; Z.to_euclidean_division_equations; lia). done.
Qed.

Lemma write_char_Utf8 ea c : scalar c -> Utf8 (write_char ea c).
Proof.
  intros Hc. pose proof (proj1 (scalar_spec c) Hc) as Hr. unfold write_char.
  repeat match goal with |- context [Z.eqb c ?k] => destruct (Z.eqb_spec c k); [by apply ascii_only|] end.
  destruct (Z.ltb_spec c 0x20); [apply ascii_only, push_escape_ascii; lia|].
  destruct (Z.leb_spec c 0x7e); [by apply Utf8_one|]. destruct ea; cbn [negb]; [|by apply Utf8_one].
  apply concat_Utf8; [constructor|]. apply List.Forall_map. unfold utf16_units. destruct (Z.ltb_spec c 0x10000).
  - repeat constructor. apply ascii_only, push_escape_ascii. lia.
  - repeat constructor; apply ascii_only, push_escape_ascii; Z.to_euclidean_division_equations; lia.
Qed.

Lemma write_string_Utf8 ea s : Utf8 s -> Utf8 (write_string ea s).
Proof.
  intros [Hs _]%Utf8_chars. unfold write_string. apply ascii_Utf8; [done|]. apply Utf8_app; [|by apply ascii_only].
  apply concat_Utf8; [constructor|]. apply List.Forall_map. eapply List.Forall_impl; [|exact Hs]. intros c. apply write_char_Utf8.
Qed.

Lemma number_Utf8 n : reads_back n -> Utf8 (number_text n).
Proof.
  unfold reads_back, number, start. generalize (number_text n). intros lit H. apply ascii_only.
  destruct (number_grammar (mkParser lit lit 0)) as [fr q| |] eqn:Hg; [|done..].
  assert (q = mkParser lit "" 0) as -> by (by repeat case_match; simplify_eq).
  apply number_grammar_Read in Hg as (_ & _ & l & Hl & Ha & _). cbn [rest] in Hl. rewrite string_app_nil in Hl. by subst l.
Qed.

Lemma dumps_Utf8 o v : admissible v = true -> doubles v -> Utf8 (dumps o v).
Proof.
  assert (Utf8 (item_separator o)) as Hsep by (unfold item_separator; destruct (compact o); by apply ascii_only).
  induction v as [|bl|n|s|l IH|ms IH] using value_ind'; intros Ha Hf.
  - by apply ascii_only.
  - destruct bl; by apply ascii_only.
  - apply number_Utf8. by apply number_ok_reads.
  - apply write_string_Utf8. by apply valid_utf8_iff.
  - cbn [admissible doubles dumps] in *. rewrite all_and in Hf. rewrite forallb_forall in Ha.
    apply ascii_Utf8; [done|]. apply Utf8_app; [|by apply ascii_only]. apply concat_Utf8; [done|].
    apply List.Forall_map. rewrite List.Forall_forall in *. auto.
  - rewrite dumps_object. cbn [admissible doubles] in *. rewrite (all_and (fun kv => doubles (snd kv))) in Hf.
    apply andb_true_iff in Ha as [_ Ha]. rewrite forallb_forall in Ha.
    apply ascii_Utf8; [done|]. apply Utf8_app; [|by apply ascii_only]. apply concat_Utf8; [done|].
    apply List.Forall_map. rewrite in_order_perm. rewrite List.Forall_forall in *. intros x Hx.
    specialize (Ha x Hx). apply andb_true_iff in Ha as [Hk Hv]. unfold member_text.
    apply Utf8_app; [by apply write_string_Utf8, valid_utf8_iff|].
    apply Utf8_app; [by destruct (compact o); apply ascii_only|]. auto.
Qed.

Lemma parse_dumps o v : admissible v = true -> doubles v -> height v <= MAX_DEPTH ->
  json_parse (dumps o v) = Some (ordered o v).
Proof.
  intros Ha Hf Hh. pose proof (dumps_opens o v Ha Hf) as Ho. pose proof (dumps_Utf8 o v Ha Hf) as Hu.
  unfold json_parse, read_document.
  assert (strip_prefix BYTE_ORDER_MARK (dumps o v) = None) as ->.
  { destruct v as [|[]|n|s|l|ms]; try done. cbn [dumps].
    destruct (number_opens n (number_ok_reads n Ha Hf)) as (a & s & -> & Hd). cbn [BYTE_ORDER_MARK strip_prefix].
    change (byte_code (byte_of 0xef)) with 0xef. destruct (Z.eqb_spec 0xef (byte_code a)); [|done].
    destruct Hd as [-> |Hd%is_digit_ascii]; [done|lia]. }
  rewrite (Utf8_admitted _ 0 Hu). unfold document. unfold mbind at 1, reader_bind at 1. rewrite skip_opens by done.
  unfold mbind, reader_bind.
  pose proof (value_reads o v Ha Hf (S (String.length (dumps o v))) (dumps o v) 0 "" eq_refl ltac:(lia) ltac:(lia)) as Hv.
  rewrite string_app_nil in Hv. by rewrite Hv.
Qed.

(** ** Distinct names *)
Lemma windows2_NoDup l : StronglySorted (fun a b => sleb a b = true) l ->
  windows2 (fun a b => negb (a =s b)) l = true <-> List.NoDup l.
Proof.
  induction 1 as [|x l Hs IH Hall]; [split; [constructor|done]|]. destruct l as [|y l]; [split; [repeat constructor; auto|done]|].
  cbn [windows2]. rewrite andb_true_iff, negb_true_iff, seqb_false. cbn [windows2] in IH. rewrite IH. split.
  - intros [Hne Hnd]. constructor; [|done]. intros [<-|Hin]; [done|]. apply Hne.
    inversion_clear Hs as [|? ? _ Hy]. inversion_clear Hall as [|? ? Hxy _]. rewrite List.Forall_forall in Hy.
    apply sleb_antisym; auto.
  - intros H. inversion_clear H as [|? ? Hni Hnd]. split; [|done]. intros ->. apply Hni. by left.
Qed.

Lemma distinct_NoDup keys : distinct keys = true <-> List.NoDup keys.
Proof.
  unfold distinct. rewrite windows2_NoDup by (apply stable_sort_Sorted; eauto using sleb_total, sleb_trans).
  rewrite <- !NoDup_ListNoDup. by rewrite stable_sort_perm.
Qed.

(** ** Ordered values *)
Lemma admissible_NoDup ms : admissible (VObject ms) = true -> List.NoDup (map fst ms).
Proof. cbn [admissible]. intros [H _]%andb_true_iff. by apply distinct_NoDup. Qed.
Lemma lookup_member_map o ms key :
  lookup_member (map (ordered_member o) ms) key = option_map (ordered o) (lookup_member ms key).
Proof.
  unfold lookup_member. induction ms as [|[k v] ms IH]; [done|]. cbn [map List.find ordered_member fst].
  by destruct (k =s key).
Qed.

Lemma get_ordered o v key : admissible v = true -> get (ordered o v) key = option_map (ordered o) (get v key).
Proof.
  destruct v as [| | | | |ms]; try done. intros Hnd%admissible_NoDup. rewrite ordered_object. cbn [get].
  rewrite lookup_member_map. f_equal. symmetry. apply lookup_member_perm; [done|]. by rewrite in_order_perm.
Qed.

Lemma admissible_get v key x : admissible v = true -> get v key = Some x -> admissible x = true.
Proof.
  destruct v as [| | | | |ms]; try done. cbn [admissible get]. rewrite andb_true_iff, forallb_forall.
  intros [_ H] Hin%lookup_member_in. specialize (H _ Hin). by apply andb_true_iff in H as [_ H].
Qed.

Lemma in_order_twice {A} o (ms : list (string * A)) : in_order o (in_order o ms) = in_order o ms.
Proof.
  unfold in_order. destruct (sort_keys o); [|done]. unfold sorted_by_name. apply stable_sort_id.
  apply stable_sort_Sorted; eauto using sleb_total, sleb_trans.
Qed.
Lemma in_order_map {A B} o (f : A -> B) (ms : list (string * A)) :
  in_order o (map (fun kv => (fst kv, f (snd kv))) ms) = map (fun kv => (fst kv, f (snd kv))) (in_order o ms).
Proof. unfold in_order. destruct (sort_keys o); [apply sorted_by_name_map|done]. Qed.

Lemma ordered_twice o v : ordered o (ordered o v) = ordered o v.
Proof.
  induction v as [|b|n|s|items IH|ms IH] using value_ind'; try done; rewrite List.Forall_forall in IH.
  - cbn [ordered]. rewrite map_map. f_equal. apply map_ext_in. auto.
  - rewrite !ordered_object. unfold ordered_member.
    rewrite (in_order_map o (ordered o)), in_order_twice, map_map. f_equal. apply map_ext_in.
    intros x Hx. cbn [fst snd]. rewrite IH; [done|].
    apply list_elem_of_In. rewrite <- (in_order_perm o ms). by apply list_elem_of_In.
Qed.
Lemma dumps_ordered o v : dumps o (ordered o v) = dumps o v.
Proof.
  induction v as [|b|n|s|items IH|ms IH] using value_ind'; try done; rewrite List.Forall_forall in IH.
  - cbn [ordered dumps]. rewrite map_map. do 3 f_equal. apply map_ext_in. auto.
  - rewrite ordered_object, !dumps_object. unfold ordered_member.
    rewrite (in_order_map o (ordered o)), in_order_twice, map_map. do 3 f_equal. apply map_ext_in.
    intros x Hx. unfold member_text. cbn [fst snd]. rewrite IH; [done|].
    apply list_elem_of_In. rewrite <- (in_order_perm o ms). by apply list_elem_of_In.
Qed.

(** C34. What the writer writes, the reader reads back: an admissible value of at
    most 512 levels, under any options (escaping, sorting, spacing), is read
    from its own text as the same value with its members in the written order.
    Every float of the value is a double, and reads back from its shortest decimal
    text ([float_reads_back]). *)
Theorem read_written (o : Options) (v : Value) :
  admissible v = true -> doubles v -> height v <= MAX_DEPTH ->
  json_parse (dumps o v) = Some (ordered o v).
Proof. apply parse_dumps. Qed.

Definition sample_value : Value :=
  VObject [("b"%string, VArray [int (-7); VNumber (NBigInt "99999999999999999999"); VNumber (NFloat (f64 6755399441055744 (-52)))]);
           ("a"%string, VObject [(utf8 0x1F600 +:+ quote, VString (utf8 0xe9 +:+ utf8 0x0a)); ("k"%string, VNull)])].

Lemma read_written_witness :
  json_parse (dumps (mkOptions true true false) sample_value) = Some (ordered (mkOptions true true false) sample_value).
Proof.
  apply (read_written (mkOptions true true false) sample_value);
    [vm_compute; reflexivity|vm_compute; repeat split|vm_compute; discriminate].
Defined.
