(* ===== verification/Causes.v ===== *)
(** * Causes

    [protocol/http/rust/src/payload/cause.rs]: the closed cause of a failed
    Action.  Every word is one of a closed list; a cause reads back exactly what
    it writes, and stays within its bounds. *)

From stdpp Require Import base tactics list strings pretty.
From Stdlib Require Import ZArith Lia Ascii.
From S2P Require Import Prelude Text Json Reader Utf8 ReaderSafety Floats RoundTrip.

#[local] Open Scope Z_scope.

Definition MAX_CAUSE_BYTES : Z := 1024.
Definition MAX_RENDERED_CHARS : Z := 512.
Definition MAX_CAUSE_COUNT : Z := 2 ^ 31 - 1.
Definition CAUSE_MEMBERS : list string :=
  ["kind"; "condition"; "phase"; "exit_code"; "http_status"; "bytes"; "stderr_bytes"; "cleanup"]%string.
Definition UNKNOWN_CAUSE : string := "cause unknown".

(** ** The closed words *)
(** The part of the system that failed. *)
Module Kind.
Inductive Kind : Type :=
| ActionAdmission
| AssistantRequest
| TeamAudit
| TeamState
| Docker
| Integration
| File
| Stop
| Workload
| AssistantTransport
| AssistantTimeout
| AssistantExit
| AssistantOutputInvalid
| AssistantSecretEcho
| AssistantAnswer.
Definition ALL : list Kind :=
  [ActionAdmission; AssistantRequest; TeamAudit; TeamState; Docker; Integration; File; Stop; Workload;
   AssistantTransport; AssistantTimeout; AssistantExit; AssistantOutputInvalid; AssistantSecretEcho;
   AssistantAnswer].
Definition as_str (v : Kind) : string :=
  match v with
  | ActionAdmission => "action-admission"
  | AssistantRequest => "assistant-request"
  | TeamAudit => "team-audit"
  | TeamState => "team-state"
  | Docker => "docker"
  | Integration => "integration"
  | File => "file"
  | Stop => "stop"
  | Workload => "workload"
  | AssistantTransport => "assistant-transport"
  | AssistantTimeout => "assistant-timeout"
  | AssistantExit => "assistant-exit"
  | AssistantOutputInvalid => "assistant-output-invalid"
  | AssistantSecretEcho => "assistant-secret-echo"
  | AssistantAnswer => "assistant-answer"
  end.
Definition parse (text : string) : option Kind := List.find (fun v => as_str v =s text) ALL.
#[global] Instance kind_eq_dec : EqDecision Kind.
Proof. solve_decision. Defined.
End Kind.

(** What Team observed. *)
Module Condition.
Inductive Condition : Type :=
| ActionNotDeclared
| InputInvalid
| ContextChanged
| InvocationTooLarge
| AttemptUncertain
| HumanRequestRequired
| RecordRefused
| WriteFailed
| JournalClosed
| JournalUnavailable
| StoredInputUnavailable
| DispatchSealRefused
| OperationIdUnavailable
| DockerUnavailable
| SlotTimeout
| IntegrationUnavailable
| FileUnavailable
| FileBusy
| Stopped
| WorkloadBlocked
| ExecStartFailed
| StreamFailed
| ReplyWriteFailed
| DeadlinePassed
| ExitStatus
| ExitUnavailable
| StillRunning
| StderrOutput
| StreamUnknown
| OutputTooLarge
| FrameTruncated
| LineNotJson
| OutputAfterTerminal
| TerminalNotObject
| RequestAfterProviderCall
| FrameTypeInvalid
| FrameMembersInvalid
| FailureInvalid
| RequestInvalid
| AuthorizationRepeated
| HeldInputRequested
| StoredInputNotHeld
| ResultWithWithheldFile
| ResultNotObject
| ResultTooDeep
| ResultSchemaMismatch
| SchemaPatternUnevaluable
| ResultNumberUnevaluable
| SchemaUnsupported
| ResultNotDurable
| InjectedValueEchoed
| HandledFailure
| StoredInputRejected.
Definition ALL : list Condition :=
  [ActionNotDeclared; InputInvalid; ContextChanged; InvocationTooLarge; AttemptUncertain;
   HumanRequestRequired; RecordRefused; WriteFailed; JournalClosed; JournalUnavailable;
   StoredInputUnavailable; DispatchSealRefused; OperationIdUnavailable; DockerUnavailable; SlotTimeout;
   IntegrationUnavailable; FileUnavailable; FileBusy; Stopped; WorkloadBlocked; ExecStartFailed; StreamFailed;
   ReplyWriteFailed; DeadlinePassed; ExitStatus; ExitUnavailable; StillRunning; StderrOutput; StreamUnknown;
   OutputTooLarge; FrameTruncated; LineNotJson; OutputAfterTerminal; TerminalNotObject;
   RequestAfterProviderCall; FrameTypeInvalid; FrameMembersInvalid; FailureInvalid; RequestInvalid;
   AuthorizationRepeated; HeldInputRequested; StoredInputNotHeld; ResultWithWithheldFile; ResultNotObject;
   ResultTooDeep; ResultSchemaMismatch; SchemaPatternUnevaluable; ResultNumberUnevaluable; SchemaUnsupported;
   ResultNotDurable; InjectedValueEchoed; HandledFailure; StoredInputRejected].
Definition as_str (v : Condition) : string :=
  match v with
  | ActionNotDeclared => "action-not-declared"
  | InputInvalid => "input-invalid"
  | ContextChanged => "context-changed"
  | InvocationTooLarge => "invocation-too-large"
  | AttemptUncertain => "attempt-uncertain"
  | HumanRequestRequired => "human-request-required"
  | RecordRefused => "record-refused"
  | WriteFailed => "write-failed"
  | JournalClosed => "journal-closed"
  | JournalUnavailable => "journal-unavailable"
  | StoredInputUnavailable => "stored-input-unavailable"
  | DispatchSealRefused => "dispatch-seal-refused"
  | OperationIdUnavailable => "operation-id-unavailable"
  | DockerUnavailable => "docker-unavailable"
  | SlotTimeout => "slot-timeout"
  | IntegrationUnavailable => "integration-unavailable"
  | FileUnavailable => "file-unavailable"
  | FileBusy => "file-busy"
  | Stopped => "stopped"
  | WorkloadBlocked => "workload-blocked"
  | ExecStartFailed => "exec-start-failed"
  | StreamFailed => "stream-failed"
  | ReplyWriteFailed => "reply-write-failed"
  | DeadlinePassed => "deadline-passed"
  | ExitStatus => "exit-status"
  | ExitUnavailable => "exit-unavailable"
  | StillRunning => "still-running"
  | StderrOutput => "stderr-output"
  | StreamUnknown => "stream-unknown"
  | OutputTooLarge => "output-too-large"
  | FrameTruncated => "frame-truncated"
  | LineNotJson => "line-not-json"
  | OutputAfterTerminal => "output-after-terminal"
  | TerminalNotObject => "terminal-not-object"
  | RequestAfterProviderCall => "request-after-provider-call"
  | FrameTypeInvalid => "frame-type-invalid"
  | FrameMembersInvalid => "frame-members-invalid"
  | FailureInvalid => "failure-invalid"
  | RequestInvalid => "request-invalid"
  | AuthorizationRepeated => "authorization-repeated"
  | HeldInputRequested => "held-input-requested"
  | StoredInputNotHeld => "stored-input-not-held"
  | ResultWithWithheldFile => "result-with-withheld-file"
  | ResultNotObject => "result-not-object"
  | ResultTooDeep => "result-too-deep"
  | ResultSchemaMismatch => "result-schema-mismatch"
  | SchemaPatternUnevaluable => "schema-pattern-unevaluable"
  | ResultNumberUnevaluable => "result-number-unevaluable"
  | SchemaUnsupported => "schema-unsupported"
  | ResultNotDurable => "result-not-durable"
  | InjectedValueEchoed => "injected-value-echoed"
  | HandledFailure => "handled-failure"
  | StoredInputRejected => "stored-input-rejected"
  end.
Definition parse (text : string) : option Condition := List.find (fun v => as_str v =s text) ALL.
#[global] Instance condition_eq_dec : EqDecision Condition.
Proof. solve_decision. Defined.
End Condition.

(** When the failure happened. *)
Module Phase.
Inductive Phase : Type :=
| Admission
| Preparation
| FileSlot
| Journal
| DispatchRecord
| SlotAdmission
| ExecStart
| Exchange
| ProviderCall
| ExitInspection
| ResultValidation
| Settlement.
Definition ALL : list Phase :=
  [Admission; Preparation; FileSlot; Journal; DispatchRecord; SlotAdmission; ExecStart; Exchange;
   ProviderCall; ExitInspection; ResultValidation; Settlement].
Definition as_str (v : Phase) : string :=
  match v with
  | Admission => "admission"
  | Preparation => "preparation"
  | FileSlot => "file-slot"
  | Journal => "journal"
  | DispatchRecord => "dispatch-record"
  | SlotAdmission => "slot-admission"
  | ExecStart => "exec-start"
  | Exchange => "exchange"
  | ProviderCall => "provider-call"
  | ExitInspection => "exit-inspection"
  | ResultValidation => "result-validation"
  | Settlement => "settlement"
  end.
Definition parse (text : string) : option Phase := List.find (fun v => as_str v =s text) ALL.
#[global] Instance phase_eq_dec : EqDecision Phase.
Proof. solve_decision. Defined.
End Phase.

(** What became of the cleanup the failure caused. *)
Module Cleanup.
Inductive Cleanup : Type :=
| WorkloadStopped
| WorkloadStopUnconfirmed
| JournalUnavailable.
Definition ALL : list Cleanup :=
  [WorkloadStopped; WorkloadStopUnconfirmed; JournalUnavailable].
Definition as_str (v : Cleanup) : string :=
  match v with
  | WorkloadStopped => "workload-stopped"
  | WorkloadStopUnconfirmed => "workload-stop-unconfirmed"
  | JournalUnavailable => "journal-unavailable"
  end.
Definition parse (text : string) : option Cleanup := List.find (fun v => as_str v =s text) ALL.
#[global] Instance cleanup_eq_dec : EqDecision Cleanup.
Proof. solve_decision. Defined.
End Cleanup.

(** [Condition::kind]: the one kind a condition belongs to. *)
Definition condition_kind (c : Condition.Condition) : Kind.Kind :=
  match c with
  | Condition.ActionNotDeclared | Condition.InputInvalid | Condition.ContextChanged |
    Condition.InvocationTooLarge | Condition.AttemptUncertain => Kind.ActionAdmission
  | Condition.HumanRequestRequired => Kind.AssistantRequest
  | Condition.RecordRefused | Condition.WriteFailed | Condition.JournalClosed => Kind.TeamAudit
  | Condition.JournalUnavailable | Condition.StoredInputUnavailable | Condition.DispatchSealRefused |
    Condition.OperationIdUnavailable => Kind.TeamState
  | Condition.DockerUnavailable | Condition.SlotTimeout => Kind.Docker
  | Condition.IntegrationUnavailable => Kind.Integration
  | Condition.FileUnavailable | Condition.FileBusy => Kind.File
  | Condition.Stopped => Kind.Stop
  | Condition.WorkloadBlocked => Kind.Workload
  | Condition.ExecStartFailed | Condition.StreamFailed | Condition.ReplyWriteFailed => Kind.AssistantTransport
  | Condition.DeadlinePassed => Kind.AssistantTimeout
  | Condition.ExitStatus | Condition.ExitUnavailable | Condition.StillRunning | Condition.StderrOutput => Kind.AssistantExit
  | Condition.InjectedValueEchoed => Kind.AssistantSecretEcho
  | Condition.HandledFailure | Condition.StoredInputRejected => Kind.AssistantAnswer
  | Condition.StreamUnknown | Condition.OutputTooLarge | Condition.FrameTruncated | Condition.LineNotJson |
    Condition.OutputAfterTerminal | Condition.TerminalNotObject | Condition.RequestAfterProviderCall |
    Condition.FrameTypeInvalid | Condition.FrameMembersInvalid | Condition.FailureInvalid |
    Condition.RequestInvalid | Condition.AuthorizationRepeated | Condition.HeldInputRequested |
    Condition.StoredInputNotHeld | Condition.ResultWithWithheldFile | Condition.ResultNotObject |
    Condition.ResultTooDeep | Condition.ResultSchemaMismatch | Condition.SchemaPatternUnevaluable |
    Condition.ResultNumberUnevaluable | Condition.SchemaUnsupported | Condition.ResultNotDurable => Kind.AssistantOutputInvalid
  end.
Definition states_stderr (c : Condition.Condition) : bool := bool_decide (condition_kind c = Kind.AssistantExit).

(** ** Causes *)
Module Cause.
Record Cause : Type := mk {
  condition : Condition.Condition;
  phase : Phase.Phase;
  exit_code : option Z;
  http_status : option Z;
  bytes : option Z;
  stderr_bytes : option Z;
  cleanup : option Cleanup.Cleanup
}.
#[global] Instance eta_cause : Eta Cause :=
  fun c => mk (condition c) (phase c) (exit_code c) (http_status c) (bytes c) (stderr_bytes c) (cleanup c).
#[global] Instance cause_eq_dec : EqDecision Cause.
Proof. solve_decision. Defined.
End Cause.
#[global] Instance upd_exit_code : Upd Cause.exit_code := ltac:(solve_upd).
#[global] Instance upd_http_status : Upd Cause.http_status := ltac:(solve_upd).
#[global] Instance upd_bytes : Upd Cause.bytes := ltac:(solve_upd).
#[global] Instance upd_stderr_bytes : Upd Cause.stderr_bytes := ltac:(solve_upd).
#[global] Instance upd_cleanup : Upd Cause.cleanup := ltac:(solve_upd).

(** A count within the bound a cause states; a [usize] beyond [u32] saturates. *)
Definition cause_count (value : Z) : Z := Z.min (Z.min value (2 ^ 32 - 1)) MAX_CAUSE_COUNT.

(** [Cause::new]. *)
Definition cause_new (c : Condition.Condition) (p : Phase.Phase) : Cause.Cause := Cause.mk c p None None None None None.
Definition exit_status (exit_code : Z) : Cause.Cause :=
  (cause_new Condition.ExitStatus Phase.ExitInspection)
    <| Cause.exit_code := Some (Z.max (- 2 ^ 31) (Z.min exit_code (2 ^ 31 - 1))) |>.
Definition stderr_output (stderr_bytes : Z) : Cause.Cause :=
  (cause_new Condition.StderrOutput Phase.ExitInspection)
    <| Cause.stderr_bytes := Some (cause_count (Z.max stderr_bytes 1)) |>.
Definition output_too_large (bytes : Z) (p : Phase.Phase) : Cause.Cause :=
  (cause_new Condition.OutputTooLarge p) <| Cause.bytes := Some (cause_count bytes) |>.
(** [Cause::handled]. *)
Definition cause_handled (http_status : option Z) : Cause.Cause :=
  (cause_new Condition.HandledFailure Phase.ResultValidation)
    <| Cause.http_status := match http_status with
                            | Some status => if (100 <=? status) && (status <=? 599) then Some status else None
                            | None => None
                            end |>.
Definition with_stderr (c : Cause.Cause) (stderr_bytes : Z) : Cause.Cause :=
  if negb (states_stderr (Cause.condition c)) || (stderr_bytes =? 0) then c
  else c <| Cause.stderr_bytes := Some (cause_count stderr_bytes) |>.
Definition with_cleanup (c : Cause.Cause) (cleanup : Cleanup.Cleanup) : Cause.Cause :=
  c <| Cause.cleanup := Some cleanup |>.
(** [Cause::kind]. *)
Definition cause_kind (c : Cause.Cause) : Kind.Kind := condition_kind (Cause.condition c).

(** *** The wire form *)
Definition stated (name : string) (number : option Z) : list (string * Value) :=
  match number with Some z => [(name, int z)] | None => [] end.
Definition cause_members (c : Cause.Cause) : list (string * Value) :=
  [("kind", text (Kind.as_str (cause_kind c))); ("condition", text (Condition.as_str (Cause.condition c)));
   ("phase", text (Phase.as_str (Cause.phase c)))]%string
  ++ stated "exit_code" (Cause.exit_code c) ++ stated "http_status" (Cause.http_status c)
  ++ stated "bytes" (Cause.bytes c) ++ stated "stderr_bytes" (Cause.stderr_bytes c)
  ++ match Cause.cleanup c with Some w => [("cleanup"%string, text (Cleanup.as_str w))] | None => [] end.
Definition to_value (c : Cause.Cause) : Value := VObject (cause_members c).

(** An optional number of the document: [None] when it is stated outside its
    bounds. *)
Definition stated_number (ms : list (string * Value)) (name : string) (low high : Z) : option (option Z) :=
  if negb (existsb (fun kv => fst kv =s name) ms) then Some None
  else match small_int (field ms name) with
       | Some z => if (low <=? z) && (z <=? high) then Some (Some z) else None
       | None => None
       end.

Definition from_value (v : Value) : option Cause.Cause :=
  ms ← object_members v;
  if (len CAUSE_MEMBERS <? len ms) || existsb (fun kv => negb (contains CAUSE_MEMBERS (fst kv))) ms then None
  else
    condition_word ← as_str (field ms "condition");
    condition ← Condition.parse condition_word;
    phase_word ← as_str (field ms "phase");
    phase ← Phase.parse phase_word;
    kind_word ← as_str (field ms "kind");
    if negb (kind_word =s Kind.as_str (condition_kind condition)) then None
    else
      exit_code ← stated_number ms "exit_code" (- 2 ^ 31) (2 ^ 31 - 1);
      http_status ← stated_number ms "http_status" 100 599;
      bytes ← stated_number ms "bytes" 0 MAX_CAUSE_COUNT;
      stderr_bytes ← stated_number ms "stderr_bytes" 1 MAX_CAUSE_COUNT;
      cleanup ← (if existsb (fun kv => fst kv =s "cleanup") ms
                 then word ← as_str (field ms "cleanup"); option_map Some (Cleanup.parse word)
                 else Some None);
      if Bool.eqb (is_some exit_code) (bool_decide (condition = Condition.ExitStatus))
         && Bool.eqb (is_some bytes) (bool_decide (condition = Condition.OutputTooLarge))
         && (negb (is_some http_status) || bool_decide (condition = Condition.HandledFailure))
         && (negb (is_some stderr_bytes) || states_stderr condition)
         && (is_some stderr_bytes || negb (bool_decide (condition = Condition.StderrOutput)))
      then Some (Cause.mk condition phase exit_code http_status bytes stderr_bytes cleanup)
      else None.

(** *** The rendered line *)
Definition middle_dot : string := " " +:+ utf8 0xb7 +:+ " ".
Definition rendered_number (name : string) (number : option Z) : list string :=
  match number with Some z => [name +:+ " " +:+ pretty z] | None => [] end.
(** [Cause::render]. *)
Definition render_parts (c : Cause.Cause) : list string :=
  [Kind.as_str (cause_kind c); Condition.as_str (Cause.condition c); Phase.as_str (Cause.phase c)]
  ++ rendered_number "exit-code" (Cause.exit_code c) ++ rendered_number "http-status" (Cause.http_status c)
  ++ rendered_number "bytes" (Cause.bytes c) ++ rendered_number "stderr-bytes" (Cause.stderr_bytes c)
  ++ match Cause.cleanup c with Some w => [Cleanup.as_str w] | None => [] end.
Definition cause_render (c : Cause.Cause) : string := String.concat middle_dot (render_parts c).

Definition canonical_cause (v : Value) : option Value :=
  cause ← from_value v;
  let canonical := to_value cause in
  if slen (dumps (mkOptions true false true) canonical) <=? MAX_CAUSE_BYTES then Some canonical else None.
Definition render_cause (c : option Cause.Cause) : string :=
  match c with Some c => cause_render c | None => UNKNOWN_CAUSE end.

(** ** What a cause states *)
Definition in_range (low high : Z) (number : option Z) : bool :=
  match number with Some z => (low <=? z) && (z <=? high) | None => true end.

(** Its parameters are exactly the ones its condition admits. *)
Definition fits (c : Cause.Cause) : bool :=
  Bool.eqb (is_some (Cause.exit_code c)) (bool_decide (Cause.condition c = Condition.ExitStatus))
  && Bool.eqb (is_some (Cause.bytes c)) (bool_decide (Cause.condition c = Condition.OutputTooLarge))
  && (negb (is_some (Cause.http_status c)) || bool_decide (Cause.condition c = Condition.HandledFailure))
  && (negb (is_some (Cause.stderr_bytes c)) || states_stderr (Cause.condition c))
  && (is_some (Cause.stderr_bytes c) || negb (bool_decide (Cause.condition c = Condition.StderrOutput))).
(** .. and within their bounds. *)
Definition cause_ok (c : Cause.Cause) : bool :=
  in_range (- 2 ^ 31) (2 ^ 31 - 1) (Cause.exit_code c) && in_range 100 599 (Cause.http_status c)
  && in_range 0 MAX_CAUSE_COUNT (Cause.bytes c) && in_range 1 MAX_CAUSE_COUNT (Cause.stderr_bytes c) && fits c.

Lemma condition_parse c : Condition.parse (Condition.as_str c) = Some c.
Proof. by destruct c. Qed.
Lemma phase_parse p : Phase.parse (Phase.as_str p) = Some p.
Proof. by destruct p. Qed.
Lemma cleanup_parse w : Cleanup.parse (Cleanup.as_str w) = Some w.
Proof. by destruct w. Qed.

(** What is read from a written cause. *)
Definition read_number (low high : Z) (number : option Z) : option (option Z) :=
  match number with Some z => if (low <=? z) && (z <=? high) then Some (Some z) else None | None => Some None end.

Ltac each_shape_of c := destruct c as [? ? [?|] [?|] [?|] [?|] [?|]]; reflexivity.

Lemma written_members c :
  (len CAUSE_MEMBERS <? len (cause_members c)) || existsb (fun kv => negb (contains CAUSE_MEMBERS (fst kv))) (cause_members c) = false.
Proof. each_shape_of c. Qed.
Lemma written_condition c : as_str (field (cause_members c) "condition") = Some (Condition.as_str (Cause.condition c)).
Proof. each_shape_of c. Qed.
Lemma written_phase c : as_str (field (cause_members c) "phase") = Some (Phase.as_str (Cause.phase c)).
Proof. each_shape_of c. Qed.
Lemma written_kind c : as_str (field (cause_members c) "kind") = Some (Kind.as_str (cause_kind c)).
Proof. each_shape_of c. Qed.
Lemma written_exit_code c low high : stated_number (cause_members c) "exit_code" low high = read_number low high (Cause.exit_code c).
Proof. each_shape_of c. Qed.
Lemma written_http_status c low high : stated_number (cause_members c) "http_status" low high = read_number low high (Cause.http_status c).
Proof. each_shape_of c. Qed.
Lemma written_bytes c low high : stated_number (cause_members c) "bytes" low high = read_number low high (Cause.bytes c).
Proof. each_shape_of c. Qed.
Lemma written_stderr c low high : stated_number (cause_members c) "stderr_bytes" low high = read_number low high (Cause.stderr_bytes c).
Proof. each_shape_of c. Qed.
Lemma written_cleanup c :
  (if existsb (fun kv => fst kv =s "cleanup") (cause_members c)
   then word ← as_str (field (cause_members c) "cleanup"); option_map Some (Cleanup.parse word)
   else Some None) = Some (Cause.cleanup c).
Proof. destruct c as [? ? [?|] [?|] [?|] [?|] [[]|]]; reflexivity. Qed.

Lemma read_in_range low high number : in_range low high number = true -> read_number low high number = Some number.
Proof. destruct number as [z|]; cbn; [|done]. by intros ->. Qed.

Lemma from_to_value c : cause_ok c = true -> from_value (to_value c) = Some c.
Proof.
  intros Hok. unfold cause_ok in Hok. repeat apply andb_true_iff in Hok as [Hok ?].
  unfold from_value, to_value. cbn [object_members mbind option_bind].
  rewrite written_members, written_condition. cbn [mbind option_bind]. rewrite condition_parse. cbn [mbind option_bind].
  rewrite written_phase. cbn [mbind option_bind]. rewrite phase_parse. cbn [mbind option_bind].
  rewrite written_kind. cbn [mbind option_bind]. unfold cause_kind. rewrite seqb_refl. cbn [negb].
  rewrite written_exit_code, written_http_status, written_bytes, written_stderr, written_cleanup.
  rewrite !read_in_range by done. cbn [mbind option_bind]. fold (fits c).
  by destruct c as [? ? ? ? ? ? ?]; cbn [Cause.condition Cause.phase Cause.exit_code Cause.http_status Cause.bytes
    Cause.stderr_bytes Cause.cleanup] in *; rewrite H.
Qed.

Lemma stated_in_range ms name low high number : stated_number ms name low high = Some number -> in_range low high number = true.
Proof.
  unfold stated_number. destruct (negb _); [by intros [= <-]|]. destruct (small_int _) as [z|]; [|done].
  destruct (_ && _) eqn:H; [|done]. by intros [= <-].
Qed.

Lemma from_value_ok v c : from_value v = Some c -> cause_ok c = true.
Proof.
  unfold from_value. intros (ms & _ & H)%bind_Some. destruct (_ || _); [done|].
  apply bind_Some in H as (cw & _ & H). apply bind_Some in H as (cond & _ & H). apply bind_Some in H as (pw & _ & H).
  apply bind_Some in H as (ph & _ & H). apply bind_Some in H as (kw & _ & H). destruct (negb _); [done|].
  apply bind_Some in H as (ex & H1%stated_in_range & H). apply bind_Some in H as (ht & H2%stated_in_range & H).
  apply bind_Some in H as (by_ & H3%stated_in_range & H). apply bind_Some in H as (se & H4%stated_in_range & H).
  apply bind_Some in H as (cl & _ & H).
  match type of H with (if ?f then _ else _) = _ => destruct f eqn:Hf; [|done] end.
  injection H as <-. unfold cause_ok, fits.
  cbn [Cause.condition Cause.phase Cause.exit_code Cause.http_status Cause.bytes Cause.stderr_bytes Cause.cleanup].
  by rewrite H1, H2, H3, H4, Hf.
Qed.

(** *** Bounds *)
Lemma slen_nonneg s : 0 <= slen s.
Proof. unfold slen. lia. Qed.

Lemma slen_concat sep l : slen (String.concat sep l) <= zsum (map (fun s => slen s + slen sep) l).
Proof.
  induction l as [|x l IH]; [done|]. pose proof (slen_nonneg sep).
  destruct l as [|y l]; cbn [map zsum fold_right String.concat] in *; [lia|]. rewrite !slen_app. lia.
Qed.

Lemma text_len_le s : text_len s <= slen s.
Proof.
  unfold text_len, len, slen. enough (length (chars s) <= String.length s)%nat by lia.
  remember (String.length s) as n eqn:Hn. assert (String.length s <= n)%nat as Hle by lia. clear Hn. revert s Hle.
  induction n as [|n IH]; intros s Hle; destruct s as [|a s]; try (cbn in *; lia); cbn [chars]; cbv zeta.
  cbn [String.length] in Hle.
  repeat match goal with |- context [if ?b then _ else _] => destruct b end;
    repeat match goal with |- context [match ?s with EmptyString => _ | String _ _ => _ end] => destruct s as [|? s] end;
    cbn [length String.length] in *; try lia;
    match goal with |- context [chars ?s] => pose proof (IH s ltac:(lia)); lia end.
Qed.

Lemma slen_natural s : natural_literal s = true -> Strict.digits_value 0 s < 10 ^ 10 -> slen s <= 10.
Proof.
  destruct s as [|a s]; [done|]. cbn [natural_literal]. intros Hs Hv.
  apply orb_true_iff in Hs as [[_ Hs]%andb_true_iff|[Ha%between_spec Hs]%andb_true_iff]; [destruct s; [done|done]|].
  cbn [Strict.digits_value] in Hv. pose proof (digits_value_ge s (0 * 10 + (byte_code a - 0x30)) Hs ltac:(lia)).
  destruct (Z.le_gt_cases (slen (String a s)) 10) as [|Hgt]; [done|].
  assert (10 ^ 10 <= 10 ^ slen s) by (apply Z.pow_le_mono_r; unfold slen in *; cbn [String.length] in *; lia).
  nia.
Qed.
Lemma slen_number z : - 2 ^ 31 <= z <= 2 ^ 31 - 1 -> slen (pretty z) <= 11.
Proof.
  intros Hz. destruct z as [|p|p]; [done|..].
  - change (pretty (Zpos p)) with (pretty (Npos p)). destruct (pretty_N_literal (Npos p)) as [H Hv].
    pose proof (slen_natural _ H ltac:(rewrite Hv; lia)). lia.
  - change (pretty (Zneg p)) with ("-" +:+ pretty (Npos p)). destruct (pretty_N_literal (Npos p)) as [H Hv].
    rewrite slen_app. change (slen "-") with 1. pose proof (slen_natural _ H ltac:(rewrite Hv; lia)). lia.
Qed.

Lemma kind_len k : slen (Kind.as_str k) <= 24 /\ slen (write_string true (Kind.as_str k)) <= 26.
Proof. destruct k; vm_compute; split; discriminate. Qed.
Lemma condition_len c : slen (Condition.as_str c) <= 27 /\ slen (write_string true (Condition.as_str c)) <= 29.
Proof. destruct c; vm_compute; split; discriminate. Qed.
Lemma phase_len p : slen (Phase.as_str p) <= 17 /\ slen (write_string true (Phase.as_str p)) <= 19.
Proof. destruct p; vm_compute; split; discriminate. Qed.
Lemma cleanup_len w : slen (Cleanup.as_str w) <= 25 /\ slen (write_string true (Cleanup.as_str w)) <= 27.
Proof. destruct w; vm_compute; split; discriminate. Qed.

Lemma number_len low high number : - 2 ^ 31 <= low -> high <= 2 ^ 31 - 1 -> in_range low high number = true ->
  forall z, number = Some z -> slen (pretty z) <= 11.
Proof.
  intros Hl Hh H z ->. cbn in H. apply andb_true_iff in H as [H1%Z.leb_le H2%Z.leb_le]. apply slen_number. lia.
Qed.

(** The written length of one member and its separator. *)
Definition member_len (kv : string * Value) : Z := slen (member_text (mkOptions true false true) kv) + slen ",".

Lemma stated_len name number : (forall z, number = Some z -> slen (pretty z) <= 11) ->
  zsum (map member_len (stated name number)) <= slen (write_string true name) + 13.
Proof.
  intros H. pose proof (slen_nonneg (write_string true name)). destruct number as [z|]; cbn [stated map zsum fold_right]; [|lia].
  specialize (H z eq_refl). unfold member_len, member_text. cbn [fst snd dumps int compact ensure_ascii number_text].
  rewrite !slen_app. change (slen ":") with 1. change (slen ",") with 1. lia.
Qed.
Lemma word_len name word : member_len (name, text word) = slen (write_string true name) + slen (write_string true word) + 2.
Proof.
  unfold member_len, member_text. cbn [fst snd dumps text compact ensure_ascii]. rewrite !slen_app.
  change (slen ":") with 1. change (slen ",") with 1. lia.
Qed.

Lemma ok_numbers c : cause_ok c = true ->
  (forall z, Cause.exit_code c = Some z -> slen (pretty z) <= 11) /\ (forall z, Cause.http_status c = Some z -> slen (pretty z) <= 11)
  /\ (forall z, Cause.bytes c = Some z -> slen (pretty z) <= 11) /\ (forall z, Cause.stderr_bytes c = Some z -> slen (pretty z) <= 11).
Proof.
  intros Hok. unfold cause_ok in Hok. repeat apply andb_true_iff in Hok as [Hok ?].
  split_and!; (eapply number_len; [| |eassumption]); unfold MAX_CAUSE_COUNT; lia.
Qed.

Lemma cause_bytes c : cause_ok c = true -> slen (dumps (mkOptions true false true) (to_value c)) <= MAX_CAUSE_BYTES.
Proof.
  intros (H1 & H2 & H3 & H4)%ok_numbers. unfold to_value. rewrite dumps_object, !slen_app.
  assert (slen (String.concat "," (map (member_text (mkOptions true false true)) (cause_members c)))
          <= zsum (map member_len (cause_members c))) as Hc.
  { pose proof (slen_concat "," (map (member_text (mkOptions true false true)) (cause_members c))) as H. by rewrite map_map in H. }
  unfold in_order, item_separator. cbn [sort_keys compact].
  set (L := slen (String.concat "," _)) in *. clearbody L. unfold cause_members in Hc.
  rewrite !map_app, !zsum_app in Hc. cbn [map zsum fold_right] in Hc. rewrite !word_len in Hc.
  pose proof (stated_len "exit_code" _ H1). pose proof (stated_len "http_status" _ H2).
  pose proof (stated_len "bytes" _ H3). pose proof (stated_len "stderr_bytes" _ H4).
  destruct (kind_len (cause_kind c)) as [_ ?], (condition_len (Cause.condition c)) as [_ ?], (phase_len (Cause.phase c)) as [_ ?].
  assert (zsum (map member_len (match Cause.cleanup c with Some w => [("cleanup"%string, text (Cleanup.as_str w))] | None => [] end)) <= 60).
  { destruct (Cause.cleanup c) as [w|]; cbn [map zsum fold_right]; [|lia]. rewrite word_len. destruct (cleanup_len w) as [_ ?].
    change (slen (write_string true "cleanup")) with 9. lia. }
  change (slen (write_string true "kind")) with 6 in *. change (slen (write_string true "condition")) with 11 in *.
  change (slen (write_string true "phase")) with 7 in *. change (slen (write_string true "exit_code")) with 11 in *.
  change (slen (write_string true "http_status")) with 13 in *. change (slen (write_string true "bytes")) with 7 in *.
  change (slen (write_string true "stderr_bytes")) with 14 in *.
  change (slen "{") with 1. change (slen "}") with 1. unfold MAX_CAUSE_BYTES. lia.
Qed.

Lemma rendered_len name number : (forall z, number = Some z -> slen (pretty z) <= 11) ->
  zsum (map (fun s => slen s + slen middle_dot) (rendered_number name number)) <= slen name + 16.
Proof.
  intros H. pose proof (slen_nonneg name). destruct number as [z|]; cbn [rendered_number map zsum fold_right]; [|lia].
  specialize (H z eq_refl). rewrite !slen_app. change (slen middle_dot) with 4. change (slen " ") with 1. lia.
Qed.

Lemma cause_line c : cause_ok c = true -> text_len (cause_render c) <= MAX_RENDERED_CHARS.
Proof.
  intros (H1 & H2 & H3 & H4)%ok_numbers. pose proof (text_len_le (cause_render c)) as Ht.
  assert (slen (cause_render c) <= zsum (map (fun s => slen s + slen middle_dot) (render_parts c))) as Hc by apply slen_concat.
  unfold render_parts in Hc. rewrite !map_app, !zsum_app in Hc. cbn [map zsum fold_right] in Hc.
  pose proof (rendered_len "exit-code" _ H1). pose proof (rendered_len "http-status" _ H2).
  pose proof (rendered_len "bytes" _ H3). pose proof (rendered_len "stderr-bytes" _ H4).
  destruct (kind_len (cause_kind c)) as [? _], (condition_len (Cause.condition c)) as [? _], (phase_len (Cause.phase c)) as [? _].
  assert (zsum (map (fun s => slen s + slen middle_dot) (match Cause.cleanup c with Some w => [Cleanup.as_str w] | None => [] end)) <= 29).
  { destruct (Cause.cleanup c) as [w|]; cbn [map zsum fold_right]; [|lia]. destruct (cleanup_len w) as [? _].
    change (slen middle_dot) with 4. lia. }
  change (slen middle_dot) with 4 in *. change (slen "exit-code") with 9 in *. change (slen "http-status") with 11 in *.
  change (slen "bytes") with 5 in *. change (slen "stderr-bytes") with 12 in *. unfold MAX_RENDERED_CHARS. lia.
Qed.

(** A cause whose parameters fit its condition is read back exactly from its
    wire object, that object is always within [MAX_CAUSE_BYTES] and its line within
    [MAX_RENDERED_CHARS]; and whatever document is admitted states such a cause, so
    the size check of [canonical_cause] never refuses one. *)
Theorem cause_canonical (v : Value) :
  (forall c, cause_ok c = true -> from_value (to_value c) = Some c
     /\ slen (dumps (mkOptions true false true) (to_value c)) <= MAX_CAUSE_BYTES
     /\ text_len (cause_render c) <= MAX_RENDERED_CHARS)
  /\ canonical_cause v = option_map to_value (from_value v)
  /\ (forall w, canonical_cause v = Some w -> canonical_cause w = Some w).
Proof.
  assert (forall v, canonical_cause v = option_map to_value (from_value v)) as Hc.
  { intros w. unfold canonical_cause. destruct (from_value w) as [c|] eqn:H; [|done]. cbn [mbind option_bind option_map].
    pose proof (cause_bytes c (from_value_ok _ _ H)) as Hb. apply Z.leb_le in Hb. by rewrite Hb. }
  split_and!; [|done|].
  - intros c Hok. split_and!; [by apply from_to_value|by apply cause_bytes|by apply cause_line].
  - intros w Hw. rewrite Hc in *. destruct (from_value v) as [c|] eqn:H; [|done]. injection Hw as <-.
    by rewrite (from_to_value c (from_value_ok _ _ H)).
Qed.

(** Every cause the code builds fits its condition. *)
Lemma built_ok : (forall n, cause_ok (exit_status n) = true) /\ (forall n, cause_ok (stderr_output n) = true)
  /\ (forall n p, 0 <= n -> cause_ok (output_too_large n p) = true) /\ (forall s, cause_ok (cause_handled s) = true)
  /\ (forall c n, cause_ok c = true -> 0 <= n -> cause_ok (with_stderr c n) = true)
  /\ (forall c w, cause_ok c = true -> cause_ok (with_cleanup c w) = true).
Proof.
  assert (forall low high z, low <= z <= high -> in_range low high (Some z) = true) as Hr.
  { intros low high z Hz. cbn. apply andb_true_iff. split; apply Z.leb_le; lia. }
  split_and!.
  - intros n. unfold cause_ok, exit_status. change (Cause.exit_code (?c <| Cause.exit_code := ?x |>)) with x.
    rewrite Hr; [done|lia].
  - intros n. unfold cause_ok, stderr_output. change (Cause.stderr_bytes (?c <| Cause.stderr_bytes := ?x |>)) with x.
    rewrite (Hr 1 MAX_CAUSE_COUNT); [done|]. unfold cause_count, MAX_CAUSE_COUNT. lia.
  - intros n p Hn. unfold cause_ok, output_too_large. change (Cause.bytes (?c <| Cause.bytes := ?x |>)) with x.
    rewrite (Hr 0 MAX_CAUSE_COUNT); [done|]. unfold cause_count, MAX_CAUSE_COUNT. lia.
  - intros [s|]; [|done]. unfold cause_ok, cause_handled. change (Cause.http_status (?c <| Cause.http_status := ?x |>)) with x.
    destruct ((100 <=? s) && (s <=? 599)) eqn:H; [|done]. cbn [in_range]. by rewrite H.
  - intros c n Hok Hn. unfold with_stderr. destruct (states_stderr (Cause.condition c)) eqn:Hs; cbn [negb orb]; [|done].
    destruct (Z.eqb_spec n 0); [done|]. unfold cause_ok, fits in *. destruct c as [cond ph ex ht by_ se cl].
    unfold upd, upd_stderr_bytes. cbn [Cause.condition Cause.phase Cause.exit_code Cause.http_status Cause.bytes
      Cause.stderr_bytes Cause.cleanup is_some negb orb] in *. repeat apply andb_true_iff in Hok as [Hok ?].
    rewrite (Hr 1 MAX_CAUSE_COUNT) by (unfold cause_count, MAX_CAUSE_COUNT; lia).
    rewrite !andb_true_iff in *. naive_solver.
  - intros [] w Hok. exact Hok.
Qed.
