(* ===== verification/Calendar.v ===== *)
(** * The calendar

    The proleptic Gregorian calendar of [protocol/http/rust/src/python/datetime.rs]
    and the Routine crate's [Date] ([routine/src/dates/date.rs]): ordinals, their
    inverse, day arithmetic and weekdays.  The theorems show that counting and
    reading an ordinal are inverse, that the loops end, and that day arithmetic
    is arithmetic on ordinals inside years 1 to 9999. *)

From stdpp Require Import base tactics list strings pretty.
From Stdlib Require Import ZArith Lia Ascii.
From S2P Require Import Prelude.

#[local] Open Scope Z_scope.

Definition MAX_YEAR : Z := 9999.
Definition DAYS_IN_400_YEARS : Z := 146097.

Definition is_leap (year : Z) : bool :=
  (Z.rem year 4 =? 0) && (negb (Z.rem year 100 =? 0) || (Z.rem year 400 =? 0)).

Definition days_in_month (year month : Z) : Z :=
  if month =? 2 then if is_leap year then 29 else 28
  else if (month =? 4) || (month =? 6) || (month =? 9) || (month =? 11) then 30
  else 31.

Definition days_before_year (year : Z) : Z :=
  let previous := year - 1 in
  previous * 365 + Z.quot previous 4 - Z.quot previous 100 + Z.quot previous 400.

(** [while current < month { days += days_in_month(year, current); current += 1 }]. *)
Fixpoint month_days (fuel : nat) (year month current days : Z) : Z :=
  match fuel with
  | O => days
  | S fuel' =>
      if current <? month
      then month_days fuel' year month (current + 1) (days + days_in_month year current)
      else days
  end.
Definition days_before_month (year month : Z) : Z := month_days (Z.to_nat month) year month 1 0.

Definition ymd_to_ord (year month day : Z) : Z :=
  days_before_year year + days_before_month year month + day.

Definition days_in_year (year : Z) : Z := if is_leap year then 366 else 365.

(** [while rest >= days_in_year(year)] and [while rest >= days_in_month(year, month)]. *)
Fixpoint year_loop (fuel : nat) (year rest : Z) : Z * Z :=
  match fuel with
  | O => (year, rest)
  | S fuel' =>
      if days_in_year year <=? rest then year_loop fuel' (year + 1) (rest - days_in_year year)
      else (year, rest)
  end.
Fixpoint month_loop (fuel : nat) (year month rest : Z) : Z * Z :=
  match fuel with
  | O => (month, rest)
  | S fuel' =>
      if days_in_month year month <=? rest
      then month_loop fuel' year (month + 1) (rest - days_in_month year month)
      else (month, rest)
  end.

(** The year loop runs at most 400 times and the month loop at most 12. *)
Definition ord_to_ymd (ordinal : Z) : Z * Z * Z :=
  let offset := ordinal - 1 in
  let year := Z.quot offset DAYS_IN_400_YEARS * 400 + 1 in
  let rest := Z.rem offset DAYS_IN_400_YEARS in
  let '(year, rest) := year_loop 401 year rest in
  let '(month, rest) := month_loop 12 year 1 rest in
  (year, month, rest + 1).

Module Date.
Record Date : Type := mk { year : Z; month : Z; day : Z }.
End Date.
Import Date (Date).

#[global] Instance Date_eq_dec : EqDecision Date.
Proof. solve_decision. Defined.

(** [Date::new]. *)
Definition date_new (year month day : Z) : option Date :=
  if (year <? 1) || (MAX_YEAR <? year) || (month <? 1) || (12 <? month) || (day <? 1) then None
  else if days_in_month year month <? day then None
  else Some (Date.mk year month day).

(** [Date::ordinal]. *)
Definition ordinal (d : Date) : Z := ymd_to_ord (Date.year d) (Date.month d) (Date.day d).

(** [Date::from_ordinal]. *)
Definition from_ordinal (n : Z) : option Date :=
  if (1 <=? n) && (n <=? ymd_to_ord MAX_YEAR 12 31)
  then let '(y, m, d) := ord_to_ymd n in Some (Date.mk y m d)
  else None.

(** [Date::add_days]: [None] past [i64], [i32] or the calendar. *)
Definition add_days (d : Date) (days : Z) : option Date :=
  let n := ordinal d + days in
  if in_i64 n then
    if (-2147483648 <=? n) && (n <=? 2147483647) then from_ordinal n else None
  else None.

(** [Date::days_since], [Date::weekday] (0 for Monday), [Date::isoformat]. *)
Definition days_since (d other : Date) : Z := ordinal d - ordinal other.
Definition weekday (d : Date) : Z := Z.rem (ordinal d + 6) 7.

Definition zero_padded (width : nat) (z : Z) : string :=
  let s := pretty z in
  (fix go (k : nat) : string := match k with O => s | S k' => String "0"%char (go k') end)
    (width - String.length s)%nat.
Definition isoformat (d : Date) : string :=
  zero_padded 4 (Date.year d) +:+ "-" +:+ zero_padded 2 (Date.month d) +:+ "-"
  +:+ zero_padded 2 (Date.day d).

(** A date Python's [datetime.date] admits. *)
Definition date_valid (d : Date) : Prop :=
  1 <= Date.year d <= MAX_YEAR /\ 1 <= Date.month d <= 12
  /\ 1 <= Date.day d <= days_in_month (Date.year d) (Date.month d).

Example date_tests :
  weekday (Date.mk 2026 10 15) = 3
  /\ add_days (Date.mk 2026 10 15) 17 = Some (Date.mk 2026 11 1)
  /\ add_days (Date.mk 2026 10 15) (-288) = Some (Date.mk 2025 12 31)
  /\ isoformat (Date.mk 2026 10 15) = "2026-10-15"%string
  /\ date_new 2026 2 29 = None
  /\ add_days (Date.mk 9999 12 31) 1 = None
  /\ ordinal (Date.mk 1 1 1) = 1.
Proof. vm_compute. auto 10. Qed.

(** ** Years *)
Lemma quot_succ n y : 0 < n -> 1 <= y ->
  Z.quot y n - Z.quot (y - 1) n = if Z.rem y n =? 0 then 1 else 0.
Proof.
  intros Hn Hy. rewrite !Z.quot_div_nonneg, Z.rem_mod_nonneg by lia.
  destruct (Z.eqb_spec (y mod n) 0) as [H|H].
  - assert (y = n * (y / n)) by (pose proof (Z.div_mod y n); lia).
    assert ((y - 1) / n = y / n - 1); [|lia].
    symmetry. apply Z.div_unique with (r := n - 1); lia.
  - assert ((y - 1) / n = y / n); [|lia].
    symmetry. apply Z.div_unique with (r := y mod n - 1).
    + pose proof (Z.mod_pos_bound y n). lia.
    + pose proof (Z.div_mod y n). lia.
Qed.

Lemma leap_terms y : 1 <= y ->
  (if Z.rem y 4 =? 0 then 1 else 0) - (if Z.rem y 100 =? 0 then 1 else 0)
  + (if Z.rem y 400 =? 0 then 1 else 0) = if is_leap y then 1 else 0.
Proof.
  intros Hy. unfold is_leap. rewrite !Z.rem_mod_nonneg by lia.
  destruct (Z.eqb_spec (y mod 400) 0) as [H4|H4].
  - assert (y mod 100 = 0) as -> by (apply Z.mod_divide in H4 as [k ->]; [|lia];
      replace (k * 400) with (k * 4 * 100) by lia; apply Z.mod_mul; lia).
    assert (y mod 4 = 0) as -> by (apply Z.mod_divide in H4 as [k ->]; [|lia];
      replace (k * 400) with (k * 100 * 4) by lia; apply Z.mod_mul; lia).
    reflexivity.
  - destruct (Z.eqb_spec (y mod 100) 0) as [H1|H1].
    + assert (y mod 4 = 0) as -> by (apply Z.mod_divide in H1 as [k ->]; [|lia];
        replace (k * 100) with (k * 25 * 4) by lia; apply Z.mod_mul; lia).
      reflexivity.
    + destruct (y mod 4 =? 0); reflexivity.
Qed.

Lemma days_before_year_succ y : 1 <= y ->
  days_before_year (y + 1) = days_before_year y + days_in_year y.
Proof.
  intros Hy. unfold days_before_year, days_in_year. replace (y + 1 - 1) with y by lia.
  pose proof (quot_succ 4 y). pose proof (quot_succ 100 y). pose proof (quot_succ 400 y).
  pose proof (leap_terms y Hy). destruct (is_leap y); lia.
Qed.

Lemma days_in_year_bound y : 365 <= days_in_year y <= 366.
Proof. unfold days_in_year. destruct (is_leap y); lia. Qed.

Lemma days_before_year_mono y z : 1 <= y -> y <= z ->
  days_before_year y + 365 * (z - y) <= days_before_year z.
Proof.
  intros Hy Hz. replace z with (y + (z - y)) by lia.
  assert (0 <= z - y) as Hk by lia. revert Hk. generalize (z - y) as k.
  intros k Hk. revert k Hk. apply (natlike_ind (fun k => _)); cbn -[Z.add Z.sub Z.mul].
  - rewrite Z.add_0_r. lia.
  - intros k Hk IH. replace (y + Z.succ k) with (y + k + 1) by lia.
    rewrite days_before_year_succ by lia. pose proof (days_in_year_bound (y + k)). lia.
Qed.

Lemma days_before_cycle q : 0 <= q -> days_before_year (q * 400 + 1) = q * DAYS_IN_400_YEARS.
Proof.
  intros Hq. unfold days_before_year, DAYS_IN_400_YEARS.
  replace (q * 400 + 1 - 1) with (q * 400) by lia.
  rewrite !Z.quot_div_nonneg by lia.
  replace (q * 400 / 4) with (q * 100) by (apply Z.div_unique with 0; lia).
  replace (q * 400 / 100) with (q * 4) by (apply Z.div_unique with 0; lia).
  rewrite Z.div_mul by lia. lia.
Qed.

(** ** Months *)
Lemma days_before_month_succ y m : 1 <= m <= 12 ->
  days_before_month y (m + 1) = days_before_month y m + days_in_month y m.
Proof.
  intros Hm. assert (m = 1 \/ m = 2 \/ m = 3 \/ m = 4 \/ m = 5 \/ m = 6 \/ m = 7 \/ m = 8
    \/ m = 9 \/ m = 10 \/ m = 11 \/ m = 12) as Hc by lia.
  unfold days_before_month, days_in_month.
  destruct_or! Hc; subst m; destruct (is_leap y) eqn:E;
    cbv -[is_leap]; rewrite ?E; reflexivity.
Qed.

Lemma days_before_month_1 y : days_before_month y 1 = 0.
Proof. reflexivity. Qed.

Lemma days_before_month_13 y : days_before_month y 13 = days_in_year y.
Proof.
  destruct (is_leap y) eqn:E; cbv -[is_leap]; rewrite ?E; reflexivity.
Qed.

Lemma days_in_month_bound y m : 28 <= days_in_month y m <= 31.
Proof.
  unfold days_in_month. repeat match goal with |- context [if ?b then _ else _] => destruct b end; lia.
Qed.

Lemma days_before_month_mono y m n : 1 <= m -> m <= n -> n <= 13 ->
  days_before_month y m <= days_before_month y n.
Proof.
  intros Hm Hmn Hn. replace n with (m + (n - m)) in * by lia.
  assert (0 <= n - m) as Hk by lia. revert Hk Hn. generalize (n - m) as k. clear Hmn.
  intros k Hk. revert k Hk.
  apply (natlike_ind (fun k => m + k <= 13 -> days_before_month y m <= days_before_month y (m + k))).
  - rewrite Z.add_0_r. lia.
  - intros k Hk IH Hn. replace (m + Z.succ k) with (m + k + 1) in * by lia.
    rewrite days_before_month_succ by lia. pose proof (days_in_month_bound y (m + k)). lia.
Qed.

(** ** The loops *)
Lemma year_loop_spec fuel y r : 1 <= y -> 0 <= r < 365 * Z.of_nat fuel ->
  let '(y', r') := year_loop fuel y r in
  y <= y' /\ 0 <= r' < days_in_year y' /\ days_before_year y' + r' = days_before_year y + r.
Proof.
  revert y r. induction fuel as [|fuel IH]; intros y r Hy Hr; [lia|].
  cbn [year_loop]. pose proof (days_in_year_bound y).
  destruct (Z.leb_spec (days_in_year y) r); [|lia].
  specialize (IH (y + 1) (r - days_in_year y)).
  destruct (year_loop fuel (y + 1) (r - days_in_year y)) as [y' r'].
  rewrite days_before_year_succ in IH by lia. destruct IH as (? & ? & ?); lia.
Qed.

Lemma month_loop_spec fuel y m r :
  1 <= m <= 12 -> 0 <= r -> days_before_month y m + r < days_in_year y ->
  12 - m < Z.of_nat fuel ->
  let '(m', r') := month_loop fuel y m r in
  m <= m' <= 12 /\ 0 <= r' < days_in_month y m'
  /\ days_before_month y m' + r' = days_before_month y m + r.
Proof.
  revert m r. induction fuel as [|fuel IH]; intros m r Hm Hr Hlt Hf; [lia|].
  cbn [month_loop]. destruct (Z.leb_spec (days_in_month y m) r); [|lia].
  assert (m <> 12).
  { intros ->. pose proof (days_before_month_succ y 12 ltac:(lia)).
    rewrite days_before_month_13 in *. lia. }
  specialize (IH (m + 1) (r - days_in_month y m)).
  destruct (month_loop fuel y (m + 1) (r - days_in_month y m)) as [m' r'].
  rewrite days_before_month_succ in IH by lia. destruct IH as (? & ? & ?); lia.
Qed.

(** ** Reading an ordinal back

    (C: calendar) Every ordinal from 1 is the ordinal of exactly the date
    [ord_to_ymd] reads, which is a real calendar date: both loops end inside
    their fuel, in a month of the year and a day of the month. *)
Lemma ord_to_ymd_spec n : 1 <= n ->
  let '(y, m, d) := ord_to_ymd n in
  1 <= y /\ 1 <= m <= 12 /\ 1 <= d <= days_in_month y m /\ ymd_to_ord y m d = n.
Proof.
  intros Hn. unfold ord_to_ymd.
  rewrite Z.quot_div_nonneg, Z.rem_mod_nonneg by (unfold DAYS_IN_400_YEARS; lia).
  set (q := (n - 1) / DAYS_IN_400_YEARS). set (r := (n - 1) mod DAYS_IN_400_YEARS).
  assert (0 <= q) by (apply Z.div_pos; unfold DAYS_IN_400_YEARS; lia).
  assert (0 <= r < DAYS_IN_400_YEARS) by (apply Z.mod_pos_bound; unfold DAYS_IN_400_YEARS; lia).
  assert (n - 1 = DAYS_IN_400_YEARS * q + r) by (apply Z.div_mod; unfold DAYS_IN_400_YEARS; lia).
  pose proof (year_loop_spec 401 (q * 400 + 1) r) as Hy.
  destruct (year_loop 401 (q * 400 + 1) r) as [y r'].
  destruct Hy as (Hy & Hr' & Heq); [lia|unfold DAYS_IN_400_YEARS in *; lia|].
  rewrite days_before_cycle in Heq by done.
  pose proof (month_loop_spec 12 y 1 r') as Hm.
  destruct (month_loop 12 y 1 r') as [m d].
  destruct Hm as (Hm & Hd & Heq'); [lia|lia|rewrite days_before_month_1; lia|lia|].
  rewrite days_before_month_1 in Heq'. unfold ymd_to_ord. repeat split; lia.
Qed.

(** Ordinals order dates as years, then months, then days do. *)
Lemma ymd_to_ord_year_bound y m d : 1 <= y -> 1 <= m <= 12 -> 1 <= d <= days_in_month y m ->
  days_before_year y < ymd_to_ord y m d <= days_before_year y + days_in_year y.
Proof.
  intros Hy Hm Hd. unfold ymd_to_ord.
  pose proof (days_before_month_mono y 1 m). rewrite days_before_month_1 in *.
  pose proof (days_before_month_mono y (m + 1) 13). rewrite days_before_month_13 in *.
  rewrite days_before_month_succ in *; lia.
Qed.

Lemma ymd_to_ord_inj y m d y' m' d' :
  1 <= y -> 1 <= m <= 12 -> 1 <= d <= days_in_month y m ->
  1 <= y' -> 1 <= m' <= 12 -> 1 <= d' <= days_in_month y' m' ->
  ymd_to_ord y m d = ymd_to_ord y' m' d' -> y = y' /\ m = m' /\ d = d'.
Proof.
  intros Hy Hm Hd Hy' Hm' Hd' He.
  assert (y = y') as <-.
  { pose proof (ymd_to_ord_year_bound y m d Hy Hm Hd).
    pose proof (ymd_to_ord_year_bound y' m' d' Hy' Hm' Hd').
    destruct (Z.lt_trichotomy y y') as [Hlt|[?|Hlt]]; [exfalso|done|exfalso].
    - pose proof (days_before_year_mono (y + 1) y').
      rewrite days_before_year_succ in *; lia.
    - pose proof (days_before_year_mono (y' + 1) y).
      rewrite days_before_year_succ in *; lia. }
  unfold ymd_to_ord in He.
  assert (m = m') as <-; [|repeat split; lia].
  destruct (Z.lt_trichotomy m m') as [Hlt|[?|Hlt]]; [exfalso|done|exfalso].
  - pose proof (days_before_month_mono y (m + 1) m').
    rewrite days_before_month_succ in *; lia.
  - pose proof (days_before_month_mono y (m' + 1) m).
    rewrite days_before_month_succ in *; lia.
Qed.

Lemma ord_to_ymd_ymd_to_ord y m d :
  1 <= y -> 1 <= m <= 12 -> 1 <= d <= days_in_month y m ->
  ord_to_ymd (ymd_to_ord y m d) = (y, m, d).
Proof.
  intros Hy Hm Hd. pose proof (ymd_to_ord_year_bound y m d Hy Hm Hd).
  pose proof (days_before_year_mono 1 y ltac:(lia) ltac:(lia)).
  change (days_before_year 1) with 0 in *.
  pose proof (ord_to_ymd_spec (ymd_to_ord y m d) ltac:(lia)) as Hs.
  destruct (ord_to_ymd _) as [[y' m'] d']. destruct Hs as (? & ? & ? & He).
  by destruct (ymd_to_ord_inj y' m' d' y m d) as (-> & -> & ->).
Qed.

(** ** Dates *)
Lemma date_new_Some y m d x :
  date_new y m d = Some x <-> x = Date.mk y m d /\ date_valid (Date.mk y m d).
Proof.
  unfold date_new, date_valid. cbn.
  destruct ((y <? 1) || (MAX_YEAR <? y) || (m <? 1) || (12 <? m) || (d <? 1)) eqn:E1.
  { split; [done|]. intros (_ & ? & ? & ?). exfalso. lia. }
  destruct (days_in_month y m <? d) eqn:E2.
  { split; [done|]. intros (_ & ? & ? & ?). exfalso. lia. }
  split; [intros [= <-]; split; [done|lia]|intros [-> _]; done].
Qed.

Definition last_ordinal : Z := ymd_to_ord MAX_YEAR 12 31.
Lemma last_ordinal_eq : last_ordinal = 3652059.
Proof. reflexivity. Qed.

Lemma ordinal_bound d : date_valid d -> 1 <= ordinal d <= last_ordinal.
Proof.
  intros (Hy & Hm & Hd). unfold ordinal.
  pose proof (ymd_to_ord_year_bound _ _ _ (proj1 Hy) Hm Hd).
  pose proof (days_before_year_mono 1 (Date.year d) ltac:(lia) ltac:(lia)).
  pose proof (days_before_year_mono (Date.year d + 1) (MAX_YEAR + 1) ltac:(lia) ltac:(lia)).
  rewrite days_before_year_succ in * by lia.
  change (days_before_year 1) with 0 in *.
  change (days_before_year (MAX_YEAR + 1)) with 3652059 in *. rewrite last_ordinal_eq.
  split; [lia|]. pose proof (days_before_year_mono (Date.year d + 1) (MAX_YEAR + 1)). lia.
Qed.

Lemma from_ordinal_Some n d : from_ordinal n = Some d -> date_valid d /\ ordinal d = n.
Proof.
  unfold from_ordinal. destruct ((1 <=? n) && _) eqn:E; [|done].
  apply andb_true_iff in E as [H1%Z.leb_le H2%Z.leb_le].
  pose proof (ord_to_ymd_spec n H1) as Hs. destruct (ord_to_ymd n) as [[y m] dd].
  intros [= <-]. destruct Hs as (Hy & Hm & Hd & He). unfold date_valid, ordinal. cbn.
  split; [|done]. split; [|done]. split; [done|].
  pose proof (ymd_to_ord_year_bound y m dd Hy Hm Hd).
  destruct (Z.le_gt_cases y MAX_YEAR) as [|Hgt]; [done|exfalso].
  pose proof (days_before_year_mono (MAX_YEAR + 1) y ltac:(unfold MAX_YEAR; lia) ltac:(lia)).
  change (days_before_year (MAX_YEAR + 1)) with 3652059 in *.
  change (ymd_to_ord MAX_YEAR 12 31) with 3652059 in *. lia.
Qed.

Lemma from_ordinal_ordinal d : date_valid d -> from_ordinal (ordinal d) = Some d.
Proof.
  intros Hv. pose proof (ordinal_bound d Hv). unfold from_ordinal, last_ordinal in *.
  rewrite (proj2 (Z.leb_le 1 _)), (proj2 (Z.leb_le (ordinal d) _)) by lia. cbn [andb].
  destruct Hv as (Hy & Hm & Hd). unfold ordinal. rewrite ord_to_ymd_ymd_to_ord by tauto.
  by destruct d.
Qed.

Lemma from_ordinal_is_Some n : 1 <= n <= last_ordinal -> exists d, from_ordinal n = Some d.
Proof.
  intros [H1 H2]. unfold from_ordinal, last_ordinal in *.
  rewrite (proj2 (Z.leb_le 1 n)), (proj2 (Z.leb_le n _)) by lia. cbn [andb].
  destruct (ord_to_ymd n) as [[y m] d]. eauto.
Qed.

(** Day arithmetic is arithmetic on ordinals, refused exactly outside the calendar. *)
Lemma add_days_Some d k d' : add_days d k = Some d' -> date_valid d' /\ ordinal d' = ordinal d + k.
Proof. unfold add_days. do 2 (case_match; [|done]). apply from_ordinal_Some. Qed.

Lemma add_days_is_Some d k :
  1 <= ordinal d + k <= last_ordinal -> exists d', add_days d k = Some d'.
Proof.
  intros H. unfold add_days, in_i64, i64_min, i64_max. rewrite last_ordinal_eq in *.
  do 2 (rewrite (proj2 (Z.leb_le _ _)), (proj2 (Z.leb_le _ _)) by lia; cbn [andb]).
  by apply from_ordinal_is_Some.
Qed.

Lemma add_days_None d k :
  add_days d k = None -> ~ (1 <= ordinal d + k <= last_ordinal).
Proof. intros H Hr. destruct (add_days_is_Some d k Hr). congruence. Qed.

Lemma ordinal_inj d d' : date_valid d -> date_valid d' -> ordinal d = ordinal d' -> d = d'.
Proof.
  intros Hd Hd' He. apply from_ordinal_ordinal in Hd, Hd'. rewrite He in Hd. congruence.
Qed.

Lemma weekday_range d : date_valid d -> 0 <= weekday d <= 6.
Proof.
  intros Hv. pose proof (ordinal_bound d Hv). unfold weekday.
  pose proof (Z.rem_bound_pos (ordinal d + 6) 7). lia.
Qed.

(** Dates and their ordinals are one and the same: every valid date is found
    again from its ordinal, and adding days is adding to the ordinal, refused
    exactly when the sum leaves the years 1 to 9999. *)
Theorem calendar_exact d days : date_valid d ->
  from_ordinal (ordinal d) = Some d
  /\ match add_days d days with
     | Some d' => date_valid d' /\ ordinal d' = ordinal d + days /\ days_since d' d = days
                  /\ weekday d' = (weekday d + days) mod 7
     | None => ~ (1 <= ordinal d + days <= last_ordinal)
     end.
Proof.
  intros Hd. split; [by apply from_ordinal_ordinal|]. destruct (add_days d days) as [d'|] eqn:Ha.
  - apply add_days_Some in Ha as [Hv Ho]. pose proof (ordinal_bound d Hd). pose proof (ordinal_bound d' Hv).
    unfold days_since, weekday. split_and!; [done|lia|lia|]. rewrite !Z.rem_mod_nonneg, Ho by lia.
    rewrite Z.add_mod_idemp_l by lia. f_equal. lia.
  - by apply add_days_None.
Qed.

Lemma calendar_exact_witness :
  from_ordinal (ordinal (Date.mk 2028 2 29)) = Some (Date.mk 2028 2 29)
  /\ match add_days (Date.mk 2028 2 29) 366 with
     | Some d' => date_valid d' /\ ordinal d' = ordinal (Date.mk 2028 2 29) + 366
                  /\ days_since d' (Date.mk 2028 2 29) = 366
                  /\ weekday d' = (weekday (Date.mk 2028 2 29) + 366) mod 7
     | None => ~ (1 <= ordinal (Date.mk 2028 2 29) + 366 <= last_ordinal)
     end.
Proof. apply (calendar_exact (Date.mk 2028 2 29) 366). unfold date_valid. vm_compute. intuition congruence. Defined.
