(* ===== verification/Platform.v ===== *)
(** * What the code takes from elsewhere

    [Platform] is what the Rust code calls in crates outside the repository:
    SHA-256 ([sha2]), URL-safe base64 ([base64]), time zones ([jiff]) and
    Unicode normalisation ([unicode-normalization]).  [Vocabulary] is the text
    that a table or an engine outside this development decides: the Unicode
    general category of a code point ([protocol/http/rust/src/python/tables])
    and whether the [fancy-regex] engine finds a credential's shape.  Every
    definition that reaches one of them takes the class as an argument. *)

From stdpp Require Import base tactics list strings.
From Stdlib Require Import ZArith Lia Ascii.
From S2P Require Import Prelude Text Json Calendar.

#[local] Open Scope Z_scope.

Class Platform : Type := {
  (** [sha2::Sha256::digest], 32 bytes. *)
  sha256 : string -> string;
  sha256_length : forall s, String.length (sha256 s) = 32%nat;
  (** [base64::URL_SAFE_NO_PAD.encode]. *)
  base64_url_no_pad : string -> string;
  (** [jiff::tz::TimeZone]: a zone by name, the name the database gives it, its
      local date at an instant, and the instant of a wall-clock time on a date
      under [Disambiguation::Compatible]; [TimeZone::UTC]. *)
  TimeZone : Type;
  tz_utc : TimeZone;
  tz_get : string -> option TimeZone;
  tz_iana_name : TimeZone -> option string;
  tz_date : TimeZone -> Z -> option (Z * Z * Z);
  tz_instant : TimeZone -> Date.Date -> Z -> Z -> option Z;
  (** [text.nfc().eq(text.chars())]. *)
  is_nfc : string -> bool;
}.

Class Vocabulary : Type := {
  (** [text::category]: the general category of a code point. *)
  category : Z -> string;
  (** [credential::resembles_credential]. *)
  resembles_credential : string -> bool;
}.

(** [base64::STANDARD.encode] of the Action crate. *)
Class Base64 : Type := base64_standard : string -> string.

(** ** A concrete platform

    UTC on the modelled calendar, and a digest that keeps the text's first 32
    bytes: enough to run every definition on concrete inputs. *)
Definition epoch_ordinal : Z := 719163.

Fixpoint pad32 (n : nat) (s : string) : string :=
  match n, s with
  | O, _ => EmptyString
  | S n', EmptyString => String "." (pad32 n' EmptyString)
  | S n', String a s' => String a (pad32 n' s')
  end.

Lemma pad32_length n s : String.length (pad32 n s) = n.
Proof. revert s. induction n as [|n IH]; intros [|a s]; cbn; auto. Qed.

Definition utc_date (z : unit) (instant : Z) : option (Z * Z * Z) :=
  match from_ordinal (epoch_ordinal + instant / 86400) with
  | Some d => Some (Date.year d, Date.month d, Date.day d)
  | None => None
  end.
Definition utc_instant (z : unit) (d : Date.Date) (hour minute : Z) : option Z :=
  Some ((ordinal d - epoch_ordinal) * 86400 + hour * 3600 + minute * 60).

Definition utc_platform : Platform := {|
  sha256 := pad32 32;
  sha256_length := pad32_length 32;
  base64_url_no_pad := fun s => s;
  TimeZone := unit;
  tz_utc := tt;
  tz_get := fun name => if name =s "UTC" then Some tt else None;
  tz_iana_name := fun _ => Some "UTC"%string;
  tz_date := utc_date;
  tz_instant := utc_instant;
  is_nfc := fun _ => true
|}.

Definition plain_vocabulary : Vocabulary := {|
  category := fun c => if c <? 0x20 then "Cc"%string else "Ll"%string;
  resembles_credential := fun s => match strip_prefix "Bearer " s with Some _ => true | None => false end
|}.

(** An entropy source that replays a tape of answers. *)
#[global] Instance tape_entropy : Entropy (list (option string)) :=
  fun _ tape => match tape with [] => ([], None) | answer :: rest => (rest, answer) end.

(** ** Digests and random text *)
Section Digests.
  Context {PF : Platform}.

Definition hex_of (bytes : string) : string :=
  String.concat "" (map (fun a => String (hex_digit (byte_code a / 16))
                                   (String (hex_digit (byte_code a mod 16)) EmptyString))
                        (String.list_ascii_of_string bytes)).

(** [sha256_hex]: the lowercase hexadecimal SHA-256. *)
Definition sha256_hex (bytes : string) : string := hex_of (sha256 bytes).

(** [token_hex]: random bytes as lowercase hexadecimal. *)
Definition token_hex {E} `{!Entropy E} (length : nat) (e : E) : E * option string :=
  match fill length e with
  | (e', Some bytes) => (e', Some (hex_of bytes))
  | (e', None) => (e', None)
  end.
End Digests.

(** The two digits of every byte are hexadecimal. *)
Lemma hex_pair_ok a :
  is_hex (hex_digit (byte_code a / 16)) && is_hex (hex_digit (byte_code a mod 16)) = true.
Proof. destruct a as [[] [] [] [] [] [] [] []]; vm_compute; reflexivity. Qed.

Lemma hex_of_cons a s :
  hex_of (String a s) = String (hex_digit (byte_code a / 16))
                          (String (hex_digit (byte_code a mod 16)) (hex_of s)).
Proof.
  unfold hex_of. cbn [String.list_ascii_of_string map]. destruct s; [reflexivity|].
  cbn [String.list_ascii_of_string map]. reflexivity.
Qed.

Lemma hex_of_hex s :
  all_bytes is_hex (hex_of s) = true /\ slen (hex_of s) = 2 * Z.of_nat (String.length s).
Proof.
  induction s as [|a s [IH1 IH2]]; [done|]. rewrite hex_of_cons. cbn [all_bytes].
  pose proof (hex_pair_ok a) as [-> ->]%andb_true_iff. cbn [andb]. split; [done|].
  unfold slen in *. cbn [String.length]. lia.
Qed.

(** A digest always has the form [SHA256_RE] admits; it is never empty. *)
Lemma sha256_hex_form {PF : Platform} s : SHA256_RE (sha256_hex s) = true.
Proof.
  unfold SHA256_RE, exactly, sha256_hex. destruct (hex_of_hex (sha256 s)) as [-> ->].
  by rewrite sha256_length.
Qed.

Lemma sha256_hex_nonempty {PF : Platform} s : sha256_hex s <> EmptyString.
Proof. intros Heq. pose proof (sha256_hex_form s) as Hf. rewrite Heq in Hf. discriminate. Qed.
