(* ===== verification/Requests.v ===== *)
(** * Human requests and file inputs of Assistants

    [vendor/assistant-protocol/src]: the rules one Action's human request, its
    replay responses and its delivered files must satisfy ([human_request.rs],
    [input_file.rs], the lookup of [catalog.rs] and the helpers of [python.rs] and
    [unicode.rs]). *)

From stdpp Require Import base tactics list strings pretty.
From Stdlib Require Import ZArith Lia Ascii.
From S2P Require Import Prelude Text Json Calendar Platform.

#[local] Open Scope Z_scope.

(** ** Python's view ([python.rs]) *)
Definition member_of (ms : list (string * Value)) (key : string) : option Value := lookup_member ms key.
(** [has_exactly]: as many members as keys, and every key. *)
Definition holds_exactly (ms : list (string * Value)) (keys : list string) : bool :=
  Nat.eqb (length ms) (length keys) && forallb (fun key => is_some (member_of ms key)) keys.
Definition int_within (v : Value) (low high : Z) : bool :=
  match v with VNumber (NInt z) => (low <=? z) && (z <=? high) | _ => false end.
Definition is_true (v : Value) : bool := match v with VBool true => true | _ => false end.
(** [value in items]. *)
Definition holds_value (items : list Value) (v : Value) : bool := existsb (fun item => py_eq item v) items.
(** [same]: equal canonical encodings. *)
Definition same_json (a b : Value) : bool := canonical a =s canonical b.
(** [str.isspace] of one character. *)
Definition is_space_char (c : Z) : bool :=
  (0x09 <=? c) && (c <=? 0x0d) || (0x1c <=? c) && (c <=? 0x20) || (c =? 0x85) || (c =? 0xa0) || (c =? 0x1680)
  || (0x2000 <=? c) && (c <=? 0x200a) || (c =? 0x2028) || (c =? 0x2029) || (c =? 0x202f) || (c =? 0x205f) || (c =? 0x3000).
Definition is_stripped (s : string) : bool :=
  match chars s with
  | [] => true
  | c :: _ => negb (is_space_char c) && negb (is_space_char (List.last (chars s) 0))
  end.
Definition char_len (s : string) : Z := len (chars s).
(** [value.and_then(string) == Some(text)]. *)
Definition is_text (v : option Value) (s : string) : bool :=
  match v with Some (VString t) => t =s s | _ => false end.
Definition text_of (v : option Value) : option string := v ← v; as_str v.
Definition array_of (v : option Value) : option (list Value) := v ← v; array v.
Definition object_of (v : option Value) : option (list (string * Value)) := v ← v; object_members v.

(** No text equals an earlier one. *)
Fixpoint distinct_texts (seen texts : list string) : bool :=
  match texts with
  | [] => true
  | t :: rest => negb (contains seen t) && distinct_texts (seen ++ [t]) rest
  end.

(** ** Printable text ([unicode.rs]) *)
Definition NOT_PRINTABLE : list string := ["Cc"; "Cf"; "Cs"; "Co"; "Cn"; "Zl"; "Zp"; "Zs"]%string.
Definition printable {V : Vocabulary} (s : string) : bool :=
  forallb (fun c => (c =? 0x20) || negb (contains NOT_PRINTABLE (category c))) (chars s).

(** ** Human requests ([human_request.rs]) *)
Definition BASE : list string := ["kind"; "ordinal"; "title"; "description"]%string.
Definition LENGTH_KINDS : list (string * Z) :=
  [("input:text", 4096); ("input:textarea", 16000); ("input:password", 1024); ("input:phone", 64)]%string.
Definition CHOICE_KINDS : list string := ["input:select"; "input:choice"]%string.
Definition AUTH_KINDS : list string := ["auth:password"; "auth:totp"; "auth:passkey"]%string.
Definition AUTHORIZATION_KINDS : list string := ["approval"; "auth:password"; "auth:totp"; "auth:passkey"]%string.
Definition COPY_BOUNDS : list (string * Z) :=
  [("title", 80); ("description", 500); ("label", 80); ("placeholder", 120); ("option_label", 80);
   ("option_description", 160)]%string.
Definition MAX_OPTIONS : Z := 32.

(** A reviewed catalog: its messages with their ids, in order; a later one of the
    same id replaces an earlier one. *)
Definition Catalog : Type := list (string * list (string * Value)).
Definition catalog_get (catalog : Catalog) (id : string) : option (list (string * Value)) :=
  option_map snd (List.find (fun e => fst e =s id) (rev catalog)).
Definition catalog_by_id (messages : Value) : Catalog :=
  omap (fun message =>
          ms ← object_members message;
          id ← text_of (member_of ms "id");
          Some (id, ms)) (default [] (array messages)).
(** [max_length]: a message's, when it is a [usize]. *)
Definition max_length (message : list (string * Value)) : option Z :=
  z ← (v ← member_of message "max_length"; small_int v);
  if 0 <=? z then Some z else None.

(** *** Parameters of displayed texts *)
Definition ends_with (p : ascii -> bool) (s : string) : bool :=
  match rev (String.list_ascii_of_string s) with a :: _ => p a | [] => false end.
Definition starts_with (p : ascii -> bool) (s : string) : bool :=
  match s with String a _ => p a | EmptyString => false end.
Definition host_label (extra : ascii -> bool) (s : string) : bool :=
  let character a := is_lower a || is_digit a || extra a in
  (1 <=? slen s) && (slen s <=? 63) && all_bytes (fun a => character a || one_of "-" a) s
  && starts_with character s && ends_with character s.
Definition domain_text (s : string) : bool :=
  let labels := split_on "." s in
  (2 <=? len labels) && forallb (host_label (fun _ => false)) labels.
Definition dns_name (s : string) : bool := forallb (host_label (one_of "_")) (split_on "." s).
Definition identifier_text (s : string) : bool :=
  starts_with is_alnum s && all_bytes (fun a => is_alnum a || one_of "._:-" a) s.

(** [10_i64.checked_pow(exponent).unwrap_or(i64::MAX)], an exponent outside
    [u32] included. *)
Definition decimal_limit (maximum : Z) : Z :=
  if (0 <=? maximum) && (maximum <=? 18) then 10 ^ maximum else i64_max.
Definition param_value (declaration value : Value) : bool :=
  match (v ← get declaration "max_length"; small_int v) with
  | None => false
  | Some maximum =>
      let kind := default "" (text_of (get declaration "kind")) in
      if kind =s "integer" then int_within value 0 (decimal_limit maximum - 1)
      else match as_str value with
           | Some text =>
               if maximum <? char_len text then false
               else if kind =s "domain" then domain_text text
               else if kind =s "dns_name" then dns_name text
               else if kind =s "identifier" then identifier_text text
               else false
           | None => false
           end
  end.

Definition reference_error (reference : Value) (catalog : Catalog) (bound : Z) : option string :=
  match object_members reference with
  | None => Some "copy_reference"%string
  | Some ms =>
      if negb (holds_exactly ms ["message"; "params"]%string) then Some "copy_reference"%string
      else
        match (id ← text_of (member_of ms "message"); catalog_get catalog id), object_of (member_of ms "params") with
        | Some message, Some values =>
            match max_length message with
            | Some length => if bound <? length then Some "copy_bound"%string else None
            | None => Some "copy_bound"%string
            end ∪
            (let declared := default [] (array_of (member_of message "params")) in
             let names := omap (fun item => text_of (get item "name")) declared in
             let same_names := Nat.eqb (length values) (length names)
                               && forallb (fun kv => contains names (fst kv)) values in
             if same_names
                && forallb (fun item =>
                     match member_of values (default "" (text_of (get item "name"))) with
                     | Some value => param_value item value
                     | None => false
                     end) declared
             then None else Some "copy_params"%string)
        | _, _ => Some "copy_reference"%string
        end
  end.

(** *** The copy of a request *)
Definition copy_bound (field_ : string) : Z :=
  match List.find (fun e => fst e =s field_) COPY_BOUNDS with Some (_, bound) => bound | None => 0 end.
(** The first error of the named references; an absent field has none. *)
Fixpoint copy_error (ms : list (string * Value)) (catalog : Catalog) (fields : list (string * bool)) : option string :=
  match fields with
  | [] => None
  | (field_, nullable) :: fields =>
      match member_of ms (match strip_prefix "option_" field_ with Some f => f | None => field_ end) with
      | None => copy_error ms catalog fields
      | Some reference =>
          if is_null reference && nullable then copy_error ms catalog fields
          else match reference_error reference catalog (copy_bound field_) with
               | Some e => Some e
               | None => copy_error ms catalog fields
               end
      end
  end.

Definition base_error (request : Value) (catalog : Catalog) : string + list (string * Value) :=
  match object_members request with
  | None => inl "request_shape"%string
  | Some ms =>
      if negb (forallb (fun key => is_some (member_of ms key)) BASE) then inl "request_shape"%string
      else if negb (is_some (text_of (member_of ms "kind"))
                    && match member_of ms "ordinal" with Some o => int_within o 0 7 | None => false end)
      then inl "request_shape"%string
      else match copy_error ms catalog [("title", false); ("description", false)]%string with
           | Some e => inl e
           | None => inr ms
           end
  end.

(** A Stored Input slot. *)
Fixpoint double_hyphen (s : string) : bool :=
  match s with
  | String a ((String b _) as s') => one_of "-" a && one_of "-" b || double_hyphen s'
  | _ => false
  end.
Definition slot_identifier (s : string) : bool :=
  (1 <=? slen s) && (slen s <=? 64) && starts_with is_lower s && negb (ends_with (one_of "-") s)
  && negb (double_hyphen s) && all_bytes (fun a => is_lower a || is_digit a || one_of "-" a) s.

Definition required_flag (ms : list (string * Value)) : bool :=
  match member_of ms "required" with Some (VBool _) => true | _ => false end.
(** [0 <= minimum && minimum <= maximum && maximum <= limit]. *)
Definition bounded_pair (minimum maximum : option Value) (limit : Z) : bool :=
  match (v ← minimum; small_int v), (v ← maximum; small_int v) with
  | Some low, Some high => (0 <=? low) && (low <=? high) && (high <=? limit)
  | _, _ => false
  end.

Definition length_error (ms : list (string * Value)) (limit : Z) (catalog : Catalog) : option string :=
  let password := is_text (member_of ms "kind") "input:password" in
  let expected := BASE ++ ["label"; "required"; "placeholder"; "min_length"; "max_length"]%string
                  ++ (if password then ["stored_input"%string] else []) in
  if negb (holds_exactly ms expected) || negb (required_flag ms) then Some "request_shape"%string
  else if match member_of ms "stored_input" with
          | Some slot => negb (match as_str slot with Some s => slot_identifier s | None => false end)
          | None => false
          end then Some "stored_input"%string
  else match copy_error ms catalog [("label", false); ("placeholder", true)]%string with
  | Some e => Some e
  | None =>
      if bounded_pair (member_of ms "min_length") (member_of ms "max_length") limit then None
      else Some "length_bounds"%string
  end.

Section Choices.
  Context {V : Vocabulary}.

Definition choice_text (s : string) (maximum : Z) : bool :=
  is_stripped s && ((1 <=? char_len s) && (char_len s <=? maximum)) && printable s.
Definition choice_option (v : Value) : bool :=
  match object_members v with
  | Some ms => holds_exactly ms ["value"; "label"; "description"]%string
               && match text_of (member_of ms "value") with Some s => choice_text s 128 | None => false end
  | None => false
  end.

Fixpoint options_copy_error (catalog : Catalog) (options : list Value) : option string :=
  match options with
  | [] => None
  | item :: options =>
      match object_members item with
      | None => options_copy_error catalog options
      | Some ms =>
          match copy_error ms catalog [("option_label", false); ("option_description", true)]%string with
          | Some e => Some e
          | None => options_copy_error catalog options
          end
      end
  end.

Definition choice_error (ms : list (string * Value)) (catalog : Catalog) (multiple : bool) : option string :=
  let expected := BASE ++ ["label"; "required"; "options"]%string
                  ++ (if multiple then ["min_selections"; "max_selections"]%string else []) in
  if negb (holds_exactly ms expected) || negb (required_flag ms) then Some "request_shape"%string
  else
    let options := default [] (array_of (member_of ms "options")) in
    if negb ((2 <=? len options) && (len options <=? MAX_OPTIONS)) || negb (forallb choice_option options)
    then Some "options"%string
    else if negb (distinct_texts [] (omap (fun item => text_of (get item "value")) options)) then Some "options"%string
    else
      let copy := match copy_error ms catalog [("label", false)]%string with
                  | Some e => Some e
                  | None => options_copy_error catalog options
                  end in
      match copy with
      | Some e => Some e
      | None =>
          if negb multiple then None
          else if bounded_pair (member_of ms "min_selections") (member_of ms "max_selections") (len options) then None
          else Some "selection_bounds"%string
      end.

Definition request_error (request : Value) (catalog : Catalog) : option string :=
  match base_error request catalog with
  | inl e => Some e
  | inr ms =>
      let kind := default "" (text_of (member_of ms "kind")) in
      if (kind =s "approval") || contains AUTH_KINDS kind then
        if Nat.eqb (length ms) (length BASE) then None else Some "request_shape"%string
      else match List.find (fun e => fst e =s kind) LENGTH_KINDS with
      | Some (_, limit) => length_error ms limit catalog
      | None =>
          if contains CHOICE_KINDS kind then choice_error ms catalog false
          else if kind =s "input:choices" then choice_error ms catalog true
          else Some "request_kind"%string
      end
  end.
End Choices.

(** ** File inputs ([input_file.rs]) *)
Definition MAX_INPUT_FILES : Z := 1.
Definition MAX_PROPERTY_NAME : Z := 128.
Definition MAX_FILE_BYTES : Z := 8 * 1024 * 1024.
Definition MAX_BASE64_CHARACTERS : Z := 4 * ((8 * 1024 * 1024 + 2) / 3).
Definition MAX_NAME_BYTES : Z := 255.
Definition MAX_MEDIA_TYPE : Z := 127.
Definition MAX_INVOCATION_BYTES : Z := 512 * 1024.
Definition MAX_FILE_INVOCATION_BYTES : Z := 12 * 1024 * 1024.
Definition MAX_RESPONSES : Z := 8.
Definition MAX_CHOICES : Z := 32.
Definition MAX_CHOICE_CHARACTERS : Z := 128.
Definition TEXT_RESPONSE_BOUNDS : list (string * Z) :=
  [("input:text", 16000); ("input:textarea", 16000); ("input:password", 1024); ("input:phone", 64);
   ("input:select", 128); ("input:choice", 128)]%string.
Definition FILE_KEYS : list string := ["name"; "media_type"; "size"; "sha256"; "content"]%string.

Definition file_id_schema : Value :=
  VObject [("type", text "string"); ("minLength", int 32); ("maxLength", int 32); ("pattern", text "^[0-9a-f]{32}$")]%string.
Definition withheld_content : Value := VObject [("type", text "withheld")]%string.

Definition lowercase_hex (s : string) (n : Z) : bool := exactly n is_hex s.
(** [authorizes] of a declared kind. *)
Definition kind_authorizes (kind : Value) : bool :=
  match as_str kind with Some k => contains AUTHORIZATION_KINDS k | None => false end.

(** *** The declaration of a file input *)
Definition property_error (schema : option Value) (declared : list Value) : option string :=
  let schema := object_of schema in
  let properties := (s ← schema; object_of (member_of s "properties")) in
  let required := (s ← schema; match member_of s "required" with Some v => array v | None => Some [] end) in
  match properties, required with
  | Some properties, Some required =>
      let names := omap as_str declared in
      if negb (forallb (fun name => is_some (member_of properties name) && holds_value required (VString name)) names)
      then Some "input_file_unknown"%string
      else if forallb (fun name => match member_of properties name with
                                   | Some schema => same_json schema file_id_schema
                                   | None => false
                                   end) names
      then None else Some "input_file_schema"%string
  | _, _ => Some "input_file_unknown"%string
  end.

Definition declaration_error (action : list (string * Value)) : option string :=
  match array_of (member_of action "input_files") with
  | None => Some "input_files_invalid"%string
  | Some declared =>
      if negb ((len declared <=? MAX_INPUT_FILES)
               && forallb (fun name => match as_str name with
                                       | Some s => (1 <=? char_len s) && (char_len s <=? MAX_PROPERTY_NAME)
                                       | None => false
                                       end) declared)
      then Some "input_files_invalid"%string
      else if bool_decide (declared = []) then None
      else match property_error (member_of action "input_schema") declared with
      | Some e => Some e
      | None =>
          match array_of (member_of action "human_requests") with
          | Some requests =>
              if len (List.filter kind_authorizes requests) =? 1 then None else Some "input_file_unauthorized"%string
          | None => Some "input_file_unauthorized"%string
          end
      end
  end.

(** *** Replay responses *)
Definition valid_response_value (kind : string) (value : Value) : bool :=
  if contains AUTHORIZATION_KINDS kind then is_true value
  else if kind =s "input:choices" then
    match array value with
    | Some items =>
        let texts := omap as_str items in
        (len items <=? MAX_CHOICES) && Nat.eqb (length texts) (length items)
        && forallb (fun t => char_len t <=? MAX_CHOICE_CHARACTERS) texts && distinct_texts [] texts
    | None => false
    end
  else match List.find (fun e => fst e =s kind) TEXT_RESPONSE_BOUNDS with
  | Some (_, bound) => match as_str value with Some t => char_len t <=? bound | None => false end
  | None => false
  end.
Definition valid_response (response : Value) (ordinal : Z) : bool :=
  match object_members response with
  | Some ms =>
      holds_exactly ms ["ordinal"; "fingerprint"; "kind"; "value"]%string
      && match (v ← member_of ms "ordinal"; small_int v) with Some z => z =? ordinal | None => false end
      && match text_of (member_of ms "fingerprint") with Some d => lowercase_hex d 64 | None => false end
      && match text_of (member_of ms "kind"), member_of ms "value" with
         | Some kind, Some value => valid_response_value kind value
         | _, _ => false
         end
  | None => false
  end.
Fixpoint each_response_error (declared responses : list Value) (ordinal : Z) : option string :=
  match responses with
  | [] => None
  | response :: responses =>
      if negb (valid_response response ordinal) then Some "responses_invalid"%string
      else if negb (match get response "kind" with Some kind => holds_value declared kind | None => false end)
      then Some "response_undeclared"%string
      else each_response_error declared responses (ordinal + 1)
  end.
Definition response_authorizes (response : Value) : bool :=
  match get response "kind" with Some kind => kind_authorizes kind | None => false end.
Definition responses_error (action : list (string * Value)) (responses : Value) : option string :=
  match array responses, array_of (member_of action "human_requests") with
  | Some responses, Some declared =>
      if MAX_RESPONSES <? len responses then Some "responses_invalid"%string
      else match each_response_error declared responses 0 with
      | Some e => Some e
      | None => if 1 <? len (List.filter response_authorizes responses) then Some "authorization_duplicate"%string else None
      end
  | _, _ => Some "responses_invalid"%string
  end.

(** *** File records *)
Definition valid_name (name : string) : bool :=
  negb (is_empty name) && is_stripped name && (slen name <=? MAX_NAME_BYTES) && negb (name =s ".") && negb (name =s "..")
  && forallb (fun c => negb ((c <? 0x20) || (c =? 0x7f) || (c =? 0x2f) || (c =? 0x5c))) (chars name).
Definition media_part (s : string) : bool :=
  starts_with (fun a => is_lower a || is_digit a) s
  && all_bytes (fun a => is_lower a || is_digit a || one_of "!#$&^_.+-" a) s.
Fixpoint split_first (sep : ascii) (s : string) : option (string * string) :=
  match s with
  | EmptyString => None
  | String a s' =>
      if byte_code a =? byte_code sep then Some (""%string, s')
      else match split_first sep s' with Some (l, r) => Some (String a l, r) | None => None end
  end.
Definition media_type (s : string) : bool :=
  match split_first "/" s with Some (kind, subtype) => media_part kind && media_part subtype | None => false end.

Definition valid_content_branch (content : Value) : bool :=
  py_eq content withheld_content
  || match object_members content with
     | Some ms =>
         holds_exactly ms ["type"; "base64"]%string && is_text (member_of ms "type") "delivered"
         && match text_of (member_of ms "base64") with Some t => char_len t <=? MAX_BASE64_CHARACTERS | None => false end
     | None => false
     end.
Definition valid_record (record : Value) : bool :=
  match object_members record with
  | Some ms =>
      holds_exactly ms FILE_KEYS
      && match member_of ms "content" with Some c => valid_content_branch c | None => false end
      && match text_of (member_of ms "name") with Some n => valid_name n | None => false end
      && match text_of (member_of ms "media_type") with
         | Some t => (char_len t <=? MAX_MEDIA_TYPE) && media_type t
         | None => false
         end
      && match member_of ms "size" with Some s => int_within s 1 MAX_FILE_BYTES | None => false end
      && match text_of (member_of ms "sha256") with Some d => lowercase_hex d 64 | None => false end
  | None => false
  end.
Definition files_shape_error (files : option Value) : option string :=
  match object_of files with
  | Some ms =>
      if MAX_INPUT_FILES <? len ms then Some "files_invalid"%string
      else if forallb (fun kv => lowercase_hex (fst kv) 32 && valid_record (snd kv)) ms then None
      else Some "file_invalid"%string
  | None => Some "files_invalid"%string
  end.

Definition content_type (record : Value) : option Value := content ← get record "content"; get content "type".
Definition delivers_content (invocation : Value) : bool :=
  match object_of (get invocation "files") with
  | Some files => existsb (fun kv => is_text (content_type (snd kv)) "delivered") files
  | None => false
  end.

(** *** Canonical base64 *)
Definition sextet (a : ascii) : option Z :=
  let b := byte_code a in
  if is_upper a then Some (b - 0x41)
  else if is_lower a then Some (b - 0x61 + 26)
  else if is_digit a then Some (b - 0x30 + 52)
  else if one_of "+" a then Some 62
  else if one_of "/" a then Some 63
  else None.
(** The bits of a group's characters, most significant first. *)
Fixpoint group_bits (bits : Z) (chunk : list ascii) : option Z :=
  match chunk with
  | [] => Some bits
  | a :: chunk => s ← sextet a; group_bits (Z.lor (Z.shiftl bits 6) s) chunk
  end.
Definition padding_of (chunk : list ascii) : nat :=
  (fix count (l : list ascii) : nat := match l with a :: l' => if one_of "=" a then S (count l') else O | [] => O end)
    (rev chunk).
Definition decode_chunk (chunk : list ascii) (last : bool) : option string :=
  let padding := padding_of chunk in
  if (2 <? padding)%nat || ((0 <? padding)%nat && negb last) then None
  else
    bits ← group_bits 0 (take (4 - padding) chunk);
    let bits := Z.shiftl bits (6 * Z.of_nat padding) in
    let bytes := [byte_of (Z.land (Z.shiftr bits 16) 255); byte_of (Z.land (Z.shiftr bits 8) 255); byte_of (Z.land bits 255)] in
    let kept := (3 - padding)%nat in
    if existsb (fun a => negb (byte_code a =? 0)) (drop kept bytes) then None
    else Some (String.string_of_list_ascii (take kept bytes)).
Fixpoint decode_chunks (bytes : list ascii) : option string :=
  match bytes with
  | a :: b :: c :: d :: rest =>
      data ← decode_chunk [a; b; c; d] (bool_decide (rest = []));
      more ← decode_chunks rest;
      Some (data +:+ more)
  | [] => Some ""%string
  | _ => None
  end.
Definition decode_content (s : string) : option string :=
  if (MAX_BASE64_CHARACTERS <? slen s) || negb (slen s mod 4 =? 0) then None
  else decode_chunks (String.list_ascii_of_string s).

(** *** The files of one invocation *)
Section Invocation.
  Context {PF : Platform}.

Definition content_error (record : list (string * Value)) (authorized : bool) : option string :=
  let content := default VNull (member_of record "content") in
  if py_eq content withheld_content then
    if authorized then Some "file_withheld_after_authorization"%string else None
  else if negb authorized then Some "file_delivered_without_authorization"%string
  else
    let data := (t ← text_of (get content "base64"); decode_content t) in
    let size := (v ← member_of record "size"; small_int v) in
    let digest := text_of (member_of record "sha256") in
    match data with
    | Some data =>
        if bool_decide (Some (slen data) = size) && bool_decide (Some (sha256_hex data) = digest) then None
        else Some "file_content_mismatch"%string
    | None => Some "file_content_mismatch"%string
    end.

(** Exactly one declared authorization, and a response of its kind. *)
Definition action_authorized (action : list (string * Value)) (responses : list Value) : bool :=
  match List.filter kind_authorizes (default [] (array_of (member_of action "human_requests"))) with
  | [kind] => existsb (fun response => match get response "kind" with Some c => py_eq c kind | None => false end) responses
  | _ => false
  end.

Fixpoint records_error (files : list (string * Value)) (authorized : bool) : option string :=
  match files with
  | [] => None
  | (_, record) :: files =>
      match content_error (default [] (object_members record)) authorized with
      | Some e => Some e
      | None => records_error files authorized
      end
  end.

Definition invocation_files_error (action invocation : Value) : option string :=
  match object_members action with
  | None => Some "invocation_invalid"%string
  | Some action =>
      if is_some (declaration_error action) then Some "invocation_invalid"%string
      else
        let responses := default (VArray []) (get invocation "responses") in
        let files := get invocation "files" in
        match responses_error action responses with
        | Some e => Some e
        | None =>
            match files_shape_error files with
            | Some e => Some e
            | None =>
                let files := default [] (object_of files) in
                let declared := default [] (array_of (member_of action "input_files")) in
                let selected := (inputs ← object_of (get invocation "input");
                                 mapM (fun name => n ← as_str name; text_of (member_of inputs n)) declared) in
                let matched := match selected with
                               | Some selected =>
                                   forallb (fun kv => contains selected (fst kv)) files
                                   && forallb (fun id => is_some (member_of files id)) selected
                               | None => false
                               end in
                if negb matched then Some "files_mismatch"%string
                else records_error files (action_authorized action (default [] (array responses)))
            end
        end
  end.
End Invocation.
