(* ===== verification/Human.v ===== *)
(** * Human requests of Actions and their replay transcripts

    [action/src/human/mod.rs]: admission of one Action's human request, of a
    person's answer to it, and the transcripts that carry the admitted answers to
    the Action's replays. *)

From stdpp Require Import base tactics list strings pretty.
From Stdlib Require Import ZArith Lia Ascii.
From S2P Require Import Prelude Text Json Reader Utf8 ReaderSafety Floats RoundTrip Calendar Platform Requests.

#[local] Open Scope Z_scope.

Definition MAX_REQUESTS_PER_ACTION : nat := 8.
Definition MAX_REQUESTS_PER_TURN : nat := 16.
Definition COPY_FIELDS : list string := ["title"; "description"; "label"; "placeholder"]%string.
Definition OPTION_COPY_FIELDS : list string := ["label"; "description"]%string.

(** [Result<T, HumanRequestError>]: an error carries its message. *)
Definition human (A : Type) : Type := (string + A)%type.
#[global] Instance human_ret : MRet human := fun A a => inr a.
#[global] Instance human_bind : MBind human := fun A B f m => match m with inl e => inl e | inr a => f a end.

Definition authorizes (kind : string) : bool := contains AUTHORIZATION_KINDS kind.

Module HumanRequest.
Record HumanRequest : Type := mk {
  kind : string;
  ordinal : nat;
  fingerprint : string;
  canonical : string;
  stored_input : option string;
  catalog : string
}.
End HumanRequest.

(** [payload] and [messages]. *)
Definition request_payload (r : HumanRequest.HumanRequest) : Value :=
  default VNull (json_parse (HumanRequest.canonical r)).
Definition request_messages (r : HumanRequest.HumanRequest) : Value :=
  default VNull (json_parse (HumanRequest.catalog r)).

(** ** Admitting a request *)
Definition declared_stored_input (request : Value) (stored_inputs : list string) : human (option string) :=
  match get request "stored_input" with
  | Some (VString id) =>
      if contains stored_inputs id then inr (Some id)
      else inl "Assistant Action Stored Input request is undeclared"%string
  | _ => inr None
  end.

Definition framed (request : Value) (fingerprint : string) : string :=
  match request with
  | VObject ms => canonical (VObject (ms ++ [("fingerprint"%string, VString fingerprint)]))
  | _ => canonical request
  end.

(** The message ids of every copy reference, in the order of the fields. *)
Definition message_of (reference : Value) : option string := text_of (get reference "message").
Definition referenced_messages (request : Value) : list string :=
  let own := omap (get request) COPY_FIELDS in
  let optional := match get request "options" with
                  | Some (VArray options) => concat (map (fun o => omap (get o) OPTION_COPY_FIELDS) options)
                  | _ => []
                  end in
  omap message_of (own ++ optional).

Definition referenced_catalog (request : Value) (catalog : Catalog) : string :=
  canonical (VArray (map VObject (omap (catalog_get catalog) (dedup (stable_sort sleb (referenced_messages request)))))).

Section AdmitRequest.
  Context {PF : Platform} {V : Vocabulary}.

Definition validate_request (value : Value) (capabilities stored_inputs : list string) (messages : Value)
  : human HumanRequest.HumanRequest :=
  let invalid := "Assistant Action human request is invalid"%string in
  match value with
  | VObject ms =>
      match get value "fingerprint" with
      | Some (VString fingerprint) =>
          if negb (SHA256_RE fingerprint) then inl invalid
          else
            let request := VObject (List.filter (fun kv => negb (fst kv =s "fingerprint")) ms) in
            let catalog := catalog_by_id messages in
            match get request "kind" with
            | Some (VString kind) =>
                if negb (contains capabilities kind) then inl invalid
                else if is_some (request_error request catalog) then inl invalid
                else if negb (fingerprint =s sha256_hex (canonical request))
                then inl "Assistant Action human request fingerprint is invalid"%string
                else
                  stored_input ← declared_stored_input request stored_inputs;
                  match (v ← get request "ordinal"; small_int v) with
                  | Some ordinal =>
                      if ordinal <? 0 then inl invalid
                      else inr (HumanRequest.mk kind (Z.to_nat ordinal) fingerprint (framed request fingerprint)
                                  stored_input (referenced_catalog request catalog))
                  | None => inl invalid
                  end
            | _ => inl invalid
            end
      | _ => inl invalid
      end
  | _ => inl invalid
  end.
End AdmitRequest.

(** ** Admitting a response *)
Module HumanResponse.
Record HumanResponse : Type := mk {
  kind : string;
  ordinal : nat;
  fingerprint : string;
  value : Value
}.
End HumanResponse.

(** [payload]: the replay frame. *)
Definition response_payload (r : HumanResponse.HumanResponse) : Value :=
  VObject [("kind", VString (HumanResponse.kind r)); ("ordinal", int (Z.min (Z.of_nat (HumanResponse.ordinal r)) i64_max));
           ("fingerprint", VString (HumanResponse.fingerprint r)); ("value", HumanResponse.value r)]%string.

Definition request_int (request : Value) (key : string) : option Z := v ← get request key; small_int v.
Definition option_values (request : Value) : option (list string) :=
  match get request "options" with
  | Some (VArray options) => Some (omap (fun o => text_of (get o "value")) options)
  | _ => None
  end.
Definition optional (request : Value) : bool :=
  match get request "required" with Some (VBool false) => true | _ => false end.
(** [is_some_and(|minimum| minimum <= n)] and its upper counterpart. *)
Definition at_least (bound : option Z) (n : Z) : bool := match bound with Some low => low <=? n | None => false end.
Definition at_most (bound : option Z) (n : Z) : bool := match bound with Some high => n <=? high | None => false end.

(** [admitted]: whether the request admits the answer. *)
Definition response_admitted (request : Value) (kind : string) (value : Value) : bool :=
  if authorizes kind then is_true value
  else if (kind =s "input:select") || (kind =s "input:choice") then
    match as_str value with
    | Some choice =>
        match option_values request with
        | Some allowed => contains allowed choice || (is_empty choice && optional request)
        | None => false
        end
    | None => false
    end
  else if kind =s "input:choices" then
    match array value, option_values request with
    | Some items, Some allowed =>
        match mapM as_str items with
        | Some chosen =>
            let count := Z.min (len chosen) i64_max in
            distinct_texts [] chosen
            && (at_least (request_int request "min_selections") count && at_most (request_int request "max_selections") count)
            && forallb (contains allowed) chosen
        | None => false
        end
    | _, _ => false
    end
  else match as_str value with
  | Some text =>
      let length := Z.min (char_len text) i64_max in
      (optional request || negb (is_empty text))
      && at_least (request_int request "min_length") length && at_most (request_int request "max_length") length
  | None => false
  end.

Definition admit_response (request : HumanRequest.HumanRequest) (value : Value) : human HumanResponse.HumanResponse :=
  if negb (response_admitted (request_payload request) (HumanRequest.kind request) value)
  then inl "human response does not match its reviewed request"%string
  else inr (HumanResponse.mk (HumanRequest.kind request) (HumanRequest.ordinal request) (HumanRequest.fingerprint request) value).

(** ** Transcripts *)
Module ActionTranscript.
Record ActionTranscript : Type := mk {
  interrupt_id : string;
  responses : list HumanResponse.HumanResponse
}.
End ActionTranscript.
Definition transcript_new (interrupt_id : string) : ActionTranscript.ActionTranscript :=
  ActionTranscript.mk interrupt_id [].

Definition require_next (t : ActionTranscript.ActionTranscript) (request : HumanRequest.HumanRequest) : human unit :=
  if (MAX_REQUESTS_PER_ACTION <=? length (ActionTranscript.responses t))%nat
     || negb (Nat.eqb (HumanRequest.ordinal request) (length (ActionTranscript.responses t)))
  then inl "Assistant Action human request sequence is invalid"%string
  else inr tt.

Definition authorizing (r : HumanResponse.HumanResponse) : bool := authorizes (HumanResponse.kind r).

(** [append]. *)
Definition transcript_append (t : ActionTranscript.ActionTranscript) (request : HumanRequest.HumanRequest) (value : Value)
  : human ActionTranscript.ActionTranscript :=
  if is_some (HumanRequest.stored_input request) then inl "Assistant Action Stored Input is answered by injection"%string
  else
    _ ← require_next t request;
    if authorizes (HumanRequest.kind request) && existsb authorizing (ActionTranscript.responses t)
    then inl "Assistant Action requested authorization more than once"%string
    else
      response ← admit_response request value;
      inr (ActionTranscript.mk (ActionTranscript.interrupt_id t) (ActionTranscript.responses t ++ [response])).

(** [authorized]. *)
Definition transcript_authorized (t : ActionTranscript.ActionTranscript) (human_requests : list string) : bool :=
  match List.filter authorizes human_requests with
  | [declared] => existsb (fun r => HumanResponse.kind r =s declared) (ActionTranscript.responses t)
  | _ => false
  end.
Definition payloads (t : ActionTranscript.ActionTranscript) : list Value :=
  map response_payload (ActionTranscript.responses t).

Module Admission.
Record Admission : Type := mk {
  transcripts : list ActionTranscript.ActionTranscript;
  requests_used : nat;
  stored_input : option (string * string)
}.
End Admission.

Definition of_interrupt (interrupt_id : string) (t : ActionTranscript.ActionTranscript) : bool :=
  ActionTranscript.interrupt_id t =s interrupt_id.

Definition append_response (transcripts : list ActionTranscript.ActionTranscript) (interrupt_id : string)
  (request : HumanRequest.HumanRequest) (value : Value) (requests_used : nat) : human Admission.Admission :=
  if (MAX_REQUESTS_PER_TURN <=? requests_used)%nat then inl "Team turn exceeded its human request limit"%string
  else
    let matching := List.filter (of_interrupt interrupt_id) transcripts in
    if (1 <? length matching)%nat then inl "Action human transcript is ambiguous"%string
    else
      let current := match matching with current :: _ => current | [] => transcript_new interrupt_id end in
      match HumanRequest.stored_input request with
      | Some stored_input =>
          _ ← require_next current request;
          response ← admit_response request value;
          match HumanResponse.value response with
          | VString secret => inr (Admission.mk transcripts (S requests_used) (Some (stored_input, secret)))
          | _ => inl "human response does not match its reviewed request"%string
          end
      | None =>
          updated ← transcript_append current request value;
          inr (Admission.mk (List.filter (fun t => negb (of_interrupt interrupt_id t)) transcripts ++ [updated])
                 (S requests_used) None)
      end.

Definition retain_unfinished (transcripts : list ActionTranscript.ActionTranscript) (completed : list string)
  : list ActionTranscript.ActionTranscript :=
  List.filter (fun t => negb (contains completed (ActionTranscript.interrupt_id t))) transcripts.
