(* ===== verification/Transcripts.v ===== *)
(** * What transcripts keep

    The invariant of a turn's transcripts over every answer and completion, and
    the agreement of the two sides: what Team admits into a transcript is what
    the Assistant protocol's own validator admits in a replay. *)

From stdpp Require Import base tactics list strings pretty relations.
From Stdlib Require Import ZArith Lia Ascii Sorted.
From S2P Require Import Prelude Text Json Reader Utf8 ReaderSafety Floats RoundTrip Calendar Platform Requests Human.

#[local] Open Scope Z_scope.

Lemma human_bind_inr {A B} (m : human A) (f : A -> human B) b :
  m ≫= f = inr b <-> exists a, m = inr a /\ f a = inr b.
Proof. unfold mbind, human_bind. destruct m; naive_solver. Qed.

(** ** The transcripts of a turn *)

(** At most [MAX_REQUESTS_PER_ACTION] responses, each at the position its ordinal
    names, and at most one authorization, which is a plain consent. *)
Definition transcript_ok (t : ActionTranscript.ActionTranscript) : Prop :=
  (length (ActionTranscript.responses t) <= MAX_REQUESTS_PER_ACTION)%nat
  /\ (forall i r, ActionTranscript.responses t !! i = Some r -> HumanResponse.ordinal r = i)
  /\ (length (List.filter authorizing (ActionTranscript.responses t)) <= 1)%nat
  /\ (forall r, In r (ActionTranscript.responses t) -> authorizing r = true -> HumanResponse.value r = VBool true).

Definition answers (ts : list ActionTranscript.ActionTranscript) : nat :=
  list_sum (map (fun t => length (ActionTranscript.responses t)) ts).

Definition turn_ok (turn : list ActionTranscript.ActionTranscript * nat) : Prop :=
  (snd turn <= MAX_REQUESTS_PER_TURN)%nat
  /\ List.NoDup (map ActionTranscript.interrupt_id (fst turn))
  /\ List.Forall transcript_ok (fst turn)
  /\ (answers (fst turn) <= snd turn)%nat.

(** A person's answer is admitted, or interrupts complete. *)
Inductive turn_step : list ActionTranscript.ActionTranscript * nat -> list ActionTranscript.ActionTranscript * nat -> Prop :=
| turn_answer ts interrupt request value used a :
    append_response ts interrupt request value used = inr a ->
    turn_step (ts, used) (Admission.transcripts a, Admission.requests_used a)
| turn_complete ts completed used : turn_step (ts, used) (retain_unfinished ts completed, used).

Lemma admit_response_inr request value r : admit_response request value = inr r ->
  response_admitted (request_payload request) (HumanRequest.kind request) value = true
  /\ r = HumanResponse.mk (HumanRequest.kind request) (HumanRequest.ordinal request) (HumanRequest.fingerprint request) value.
Proof.
  unfold admit_response. destruct (response_admitted _ _ _); cbn [negb]; [|done]. by intros [= <-].
Qed.

Lemma require_next_inr t request u : require_next t request = inr u ->
  (length (ActionTranscript.responses t) < MAX_REQUESTS_PER_ACTION)%nat
  /\ HumanRequest.ordinal request = length (ActionTranscript.responses t).
Proof.
  unfold require_next. destruct (Nat.leb_spec MAX_REQUESTS_PER_ACTION (length (ActionTranscript.responses t))); [done|].
  destruct (Nat.eqb_spec (HumanRequest.ordinal request) (length (ActionTranscript.responses t))); [|done]. done.
Qed.

Lemma transcript_append_inr t request value t' : transcript_append t request value = inr t' ->
  exists r, HumanRequest.stored_input request = None
  /\ (length (ActionTranscript.responses t) < MAX_REQUESTS_PER_ACTION)%nat
  /\ HumanRequest.ordinal request = length (ActionTranscript.responses t)
  /\ (authorizes (HumanRequest.kind request) = true -> existsb authorizing (ActionTranscript.responses t) = false)
  /\ admit_response request value = inr r
  /\ t' = ActionTranscript.mk (ActionTranscript.interrupt_id t) (ActionTranscript.responses t ++ [r]).
Proof.
  unfold transcript_append. destruct (HumanRequest.stored_input request); cbn [is_some]; [done|].
  intros ([] & [Hl Ho]%require_next_inr & H)%human_bind_inr.
  destruct (authorizes _ && existsb _ _) eqn:Ha; [done|]. apply human_bind_inr in H as (r & Hr & [= <-]).
  exists r. split_and!; try done. intros Hk. by rewrite Hk in Ha.
Qed.

Lemma filter_existsb {A} (p : A -> bool) l : existsb p l = false -> List.filter p l = [].
Proof. intros H. apply filter_none. apply List.Forall_forall. intros x Hx. destruct (p x) eqn:E; [|done].
  assert (existsb p l = true) by (apply existsb_exists; eauto). congruence. Qed.

Lemma append_ok t request value t' : transcript_ok t -> transcript_append t request value = inr t' -> transcript_ok t'.
Proof.
  intros (Hl & Ho & Ha & Hv) (r & _ & Hlt & Hord & Hauth & [Hadm ->]%admit_response_inr & ->)%transcript_append_inr.
  unfold transcript_ok. cbn [ActionTranscript.responses]. split_and!.
  - rewrite length_app. cbn. lia.
  - intros i x [Hi|[Hi Hx]]%lookup_app_Some; [by apply Ho|]. apply list_lookup_singleton_Some in Hx as [Hi0 <-].
    cbn [HumanResponse.ordinal]. rewrite Hord. lia.
  - rewrite List.filter_app, length_app. cbn [List.filter]. unfold authorizing at 2. cbn [HumanResponse.kind].
    destruct (authorizes (HumanRequest.kind request)) eqn:Hk; cbn [length]; [|lia].
    rewrite filter_existsb by auto. cbn. lia.
  - intros x [Hx|[<-|[]]]%in_app_iff; [by apply Hv|]. unfold authorizing. cbn [HumanResponse.kind HumanResponse.value].
    intros Hk. unfold response_admitted in Hadm. rewrite Hk in Hadm. by destruct value as [|[]| | | |].
Qed.

Lemma transcript_new_ok i : transcript_ok (transcript_new i).
Proof. split_and!; cbn; [lia|done|lia|done]. Qed.

Lemma list_sum_filter {A} (f : A -> nat) (p : A -> bool) l :
  (list_sum (map f l) = list_sum (map f (List.filter p l)) + list_sum (map f (List.filter (fun a => negb (p a)) l)))%nat.
Proof.
  unfold list_sum in *. induction l as [|a l IH]; [done|]. cbn [map List.filter fold_right].
  destruct (p a); cbn [map List.filter fold_right negb]; lia.
Qed.

Lemma retain_ok ts completed used : turn_ok (ts, used) -> turn_ok (retain_unfinished ts completed, used).
Proof.
  unfold turn_ok, retain_unfinished. cbn [fst snd]. intros (Hu & Hnd & Hok & Hn). split_and!; [done| | |].
  - by apply NoDup_map_filter.
  - rewrite List.Forall_forall in *. intros t [Ht _]%filter_In. auto.
  - unfold answers in *. rewrite (list_sum_filter _ (fun t => contains completed (ActionTranscript.interrupt_id t))) in Hn. lia.
Qed.

(** The transcripts after one more response: those of the other interrupts and
    the extended one. *)
Lemma replace_ok ts i used current t' request value :
  turn_ok (ts, used) -> (used < MAX_REQUESTS_PER_TURN)%nat ->
  current = match List.filter (of_interrupt i) ts with c :: _ => c | [] => transcript_new i end ->
  transcript_append current request value = inr t' ->
  turn_ok (List.filter (fun t => negb (of_interrupt i t)) ts ++ [t'], S used).
Proof.
  unfold turn_ok. cbn [fst snd]. intros (Hu & Hnd & Hok & Hn) Hlt Hc Happ.
  assert (transcript_ok current /\ ActionTranscript.interrupt_id current = i
          /\ (length (ActionTranscript.responses current) <= answers (List.filter (of_interrupt i) ts))%nat) as (Hcok & Hi & Hlen).
  { subst current. destruct (List.filter (of_interrupt i) ts) as [|c l] eqn:E; [by split_and!; [apply transcript_new_ok|..]|].
    assert (In c (List.filter (of_interrupt i) ts)) as [Hin Hof]%filter_In by (rewrite E; by left).
    rewrite List.Forall_forall in Hok. split_and!; [auto|by apply seqb_true|]. unfold answers. cbn. lia. }
  pose proof (append_ok _ _ _ _ Hcok Happ) as Hok'. apply transcript_append_inr in Happ as (r & _ & _ & _ & _ & _ & ->).
  split_and!; [lia| | |].
  - apply NoDup_map_app_1; [by apply NoDup_map_filter|]. cbn [ActionTranscript.interrupt_id].
    intros (t & Ht & [_ Hf]%filter_In)%in_map_iff. unfold of_interrupt in Hf. rewrite Ht, Hi, seqb_refl in Hf. done.
  - apply List.Forall_app. split; [|by apply List.Forall_cons]. rewrite List.Forall_forall in *. intros t [Ht _]%filter_In. auto.
  - unfold answers in *. rewrite (list_sum_filter _ (of_interrupt i)) in Hn. rewrite map_app, list_sum_app. cbn.
    rewrite length_app. cbn. lia.
Qed.

Lemma turn_step_ok turn turn' : turn_ok turn -> turn_step turn turn' -> turn_ok turn'.
Proof.
  intros Hok Hs. destruct Hs as [ts i request value used a Ha|ts completed used]; [|by apply retain_ok].
  unfold append_response in Ha. destruct (Nat.leb_spec MAX_REQUESTS_PER_TURN used) as [|Hlt]; [done|].
  destruct (1 <? length _)%nat; [done|]. destruct (HumanRequest.stored_input request).
  - apply human_bind_inr in Ha as ([] & _ & Ha). apply human_bind_inr in Ha as (r & _ & Ha).
    destruct (HumanResponse.value r); try done. apply (inj inr) in Ha. subst a. unfold turn_ok in *. cbn in *. intuition lia.
  - apply human_bind_inr in Ha as (t' & Ht & Ha). apply (inj inr) in Ha. subst a.
    cbn [Admission.transcripts Admission.requests_used]. by eapply replace_ok.
Qed.

(** C37. However a turn's answers and completions interleave, no interrupt has two
    transcripts, every transcript holds at most 8 responses at the positions
    their ordinals name, at most one of them an authorization and that one a
    plain consent, and the turn never holds more responses than the requests it
    used, which never exceed 16. *)
Theorem turn_transcripts (ts : list ActionTranscript.ActionTranscript) (used : nat) :
  rtc turn_step ([], O) (ts, used) -> turn_ok (ts, used).
Proof.
  intros H. apply (rtc_ind_r (fun turn => turn_ok turn) ([], O)) in H; [done| |].
  - repeat split; cbn; try lia; constructor.
  - intros y z _ Hs Hy. by eapply turn_step_ok.
Qed.

(** ** Reading an ordered value *)
Lemma text_of_ordered o x : text_of (option_map (ordered o) x) = text_of x.
Proof. by destruct x as [[]|]. Qed.

Lemma request_int_ordered o v key : admissible v = true -> request_int (ordered o v) key = request_int v key.
Proof. intros Ha. unfold request_int. rewrite get_ordered by done. by destruct (get v key) as [[]|]. Qed.

Lemma optional_ordered o v : admissible v = true -> optional (ordered o v) = optional v.
Proof. intros Ha. unfold optional. rewrite get_ordered by done. by destruct (get v "required") as [[]|]. Qed.

Lemma option_values_ordered o v : admissible v = true -> option_values (ordered o v) = option_values v.
Proof.
  intros Ha. unfold option_values. rewrite get_ordered by done. destruct (get v "options") as [x|] eqn:Hx; [|done].
  apply admissible_get in Hx; [|done]. destruct x as [| | | |l|]; try done. cbn [option_map ordered admissible] in *. f_equal.
  rewrite forallb_forall in Hx. induction l as [|i l IH]; [done|]. cbn [map omap list_omap].
  rewrite get_ordered, text_of_ordered by (apply Hx; by left). destruct (text_of (get i "value")); [f_equal|]; apply IH; intros y Hy; apply Hx; by right.
Qed.

(** What is admitted depends only on these readings of the request. *)
Lemma response_admitted_ext v w kind a :
  (forall key, request_int v key = request_int w key \/ key = "fingerprint"%string) ->
  optional v = optional w -> option_values v = option_values w ->
  response_admitted v kind a = response_admitted w kind a.
Proof.
  intros Hi Ho Hv. unfold response_admitted. rewrite Ho, Hv.
  destruct (Hi "min_selections"%string) as [->|]; [|done]. destruct (Hi "max_selections"%string) as [->|]; [|done].
  destruct (Hi "min_length"%string) as [->|]; [|done]. by destruct (Hi "max_length"%string) as [->|].
Qed.

(** ** The request without its fingerprint *)
Definition unframed (ms : list (string * Value)) : list (string * Value) :=
  List.filter (fun kv => negb (fst kv =s "fingerprint")) ms.

Lemma lookup_unframed ms key : key <> "fingerprint"%string -> lookup_member (unframed ms) key = lookup_member ms key.
Proof.
  intros Hk. unfold lookup_member, unframed. f_equal. induction ms as [|[k v] ms IH]; [done|]. cbn [List.filter List.find fst].
  destruct (seqb_spec k "fingerprint"); cbn [negb].
  - subst k. destruct (seqb_spec "fingerprint" key); [congruence|done].
  - cbn [List.find fst]. by destruct (k =s key).
Qed.

Lemma unframed_perm ms x : List.NoDup (map fst ms) -> lookup_member ms "fingerprint" = Some x ->
  ms ≡ₚ unframed ms ++ [("fingerprint"%string, x)].
Proof.
  unfold lookup_member, unframed. induction ms as [|[k v] ms IH]; [done|]. cbn [map fst List.find List.filter].
  intros Hnd. inversion_clear Hnd as [|? ? Hni Hnd']. destruct (seqb_spec k "fingerprint"); cbn [negb option_map snd].
  - intros [= <-]. subst k. rewrite filter_all; [by rewrite Permutation_app_comm|]. apply List.Forall_forall.
    intros [h w] Hh. cbn [fst]. destruct (seqb_spec h "fingerprint"); [|done]. subst h. destruct Hni. apply in_map_iff. by exists ("fingerprint"%string, w).
  - intros H. cbn [app]. f_equiv. auto.
Qed.

Section Agreement.
  Context {PF : Platform} {V : Vocabulary}.

Lemma validate_request_inr value caps inputs messages hr :
  validate_request value caps inputs messages = inr hr ->
  exists ms fingerprint kind ordinal,
    value = VObject ms /\ get value "fingerprint" = Some (VString fingerprint) /\ SHA256_RE fingerprint = true
    /\ get (VObject (unframed ms)) "kind" = Some (VString kind) /\ contains caps kind = true
    /\ request_error (VObject (unframed ms)) (catalog_by_id messages) = None
    /\ fingerprint = sha256_hex (canonical (VObject (unframed ms)))
    /\ (v ← get (VObject (unframed ms)) "ordinal"; small_int v) = Some ordinal /\ 0 <= ordinal
    /\ HumanRequest.kind hr = kind /\ HumanRequest.ordinal hr = Z.to_nat ordinal
    /\ HumanRequest.fingerprint hr = fingerprint
    /\ HumanRequest.canonical hr = framed (VObject (unframed ms)) fingerprint.
Proof.
  unfold validate_request. destruct value as [| | | | |ms]; try done.
  destruct (get (VObject ms) "fingerprint") as [[| | |fingerprint| |]|]; try done.
  destruct (SHA256_RE fingerprint) eqn:Hf; cbn [negb]; [|done]. fold (unframed ms).
  destruct (get (VObject (unframed ms)) "kind") as [[| | |kind| |]|] eqn:Hk; try done.
  destruct (contains caps kind) eqn:Hc; cbn [negb]; [|done].
  destruct (request_error _ _) eqn:He; cbn [is_some]; [done|].
  destruct (seqb_spec fingerprint (sha256_hex (canonical (VObject (unframed ms))))) as [Hs|]; cbn [negb]; [|done].
  intros (input & _ & H)%human_bind_inr. destruct (get (VObject (unframed ms)) "ordinal" ≫= _) as [ordinal|] eqn:Ho; [|done].
  destruct (Z.ltb_spec ordinal 0); [done|]. apply (inj inr) in H. subst hr. exists ms, fingerprint, kind, ordinal. done.
Qed.

(** The frame of an admitted request is the request as it came, in canonical form. *)
Lemma request_payload_ordered value caps inputs messages hr :
  admissible value = true -> doubles value -> height value <= Strict.MAX_DEPTH ->
  validate_request value caps inputs messages = inr hr -> request_payload hr = ordered CANONICAL value.
Proof.
  intros Ha Hf Hh (ms & fingerprint & kind & ordinal & -> & Hfp & _ & _ & _ & _ & _ & _ & _ & _ & _ & _ & Hc)%validate_request_inr.
  unfold request_payload. rewrite Hc. unfold framed.
  assert (canonical (VObject (unframed ms ++ [("fingerprint"%string, VString fingerprint)])) = canonical (VObject ms)) as ->.
  { apply admissible_NoDup in Ha. apply canonical_reordered. symmetry. apply rtsc_lr. constructor; [done|]. by apply unframed_perm. }
  unfold canonical. rewrite parse_dumps by done. done.
Qed.

Lemma response_admitted_request value ms caps inputs messages hr kind a :
  admissible value = true -> doubles value -> height value <= Strict.MAX_DEPTH -> value = VObject ms ->
  validate_request value caps inputs messages = inr hr ->
  response_admitted (request_payload hr) kind a = response_admitted (VObject (unframed ms)) kind a.
Proof.
  intros Ha Hf Hh -> Hr. rewrite (request_payload_ordered _ _ _ _ _ Ha Hf Hh Hr). apply response_admitted_ext.
  - intros key. destruct (decide (key = "fingerprint"%string)); [by right|left]. rewrite request_int_ordered by done.
    unfold request_int. cbn [get]. by rewrite lookup_unframed.
  - rewrite optional_ordered by done. unfold optional. cbn [get]. by rewrite lookup_unframed.
  - rewrite option_values_ordered by done. unfold option_values. cbn [get]. by rewrite lookup_unframed.
Qed.

(** *** What a well-formed request admits *)

(** A check that did not refuse. *)
Ltac past H E := match type of H with (if ?b then Some _ else _) = None => destruct b eqn:E; [discriminate H|] end.

Lemma bounded_pair_high low high limit : bounded_pair low high limit = true ->
  exists n, (v ← high; small_int v) = Some n /\ n <= limit.
Proof.
  unfold bounded_pair. destruct (low ≫= small_int); [|done]. destruct (high ≫= small_int) as [n|]; [|done].
  rewrite !andb_true_iff, !Z.leb_le. intros [_ ?]. eauto.
Qed.

Lemma length_answer ms limit catalog a : length_error ms limit catalog = None -> limit <= i64_max - 1 ->
  match as_str a with
  | Some text =>
      at_most (request_int (VObject ms) "max_length") (Z.min (char_len text) i64_max) = true -> char_len text <= limit
  | None => True
  end.
Proof.
  unfold length_error. intros H Hl. destruct (_ || _); [done|].
  destruct (match member_of ms "stored_input" with Some _ => _ | None => _ end); [done|].
  destruct (copy_error _ _ _); [done|]. destruct (bounded_pair _ _ _) eqn:Hb; [|done].
  apply bounded_pair_high in Hb as (n & Hn & Hle). destruct (as_str a) as [text|]; [|done].
  unfold request_int, at_most. cbn [get]. unfold member_of in Hn. rewrite Hn. rewrite Z.leb_le. lia.
Qed.

(** The options of an admitted choice: at most [MAX_OPTIONS], each a short text. *)
Lemma choice_options ms catalog multiple : choice_error ms catalog multiple = None ->
  exists allowed, option_values (VObject ms) = Some allowed
  /\ (forall s, contains allowed s = true -> char_len s <= MAX_CHOICE_CHARACTERS)
  /\ (multiple = true -> exists n, request_int (VObject ms) "max_selections" = Some n /\ n <= MAX_CHOICES).
Proof.
  unfold choice_error. intros H. past H Hshape. past H Ho.
  apply orb_false_iff in Ho as [Hl Hc]. rewrite negb_false_iff in Hl, Hc. apply andb_true_iff in Hl as [Hl1 Hl2].
  unfold option_values. cbn [get]. change (lookup_member ms "options") with (member_of ms "options").
  destruct (member_of ms "options") as [[| | | |options|]|]; cbn [array_of mbind option_bind array default] in *; try done.
  eexists. split; [done|]. apply Z.leb_le in Hl2. split.
  - intros s (x & Hx & Hv)%contains_In%list_elem_of_In%list_elem_of_omap. apply list_elem_of_In in Hx.
    rewrite forallb_forall in Hc. specialize (Hc x Hx). unfold choice_option in Hc.
    destruct x as [| | | | |xs]; try done. cbn [object_members] in Hc. apply andb_true_iff in Hc as [_ Hc].
    cbn [get] in Hv. unfold member_of in Hc. rewrite Hv in Hc. unfold choice_text in Hc. rewrite !andb_true_iff, !Z.leb_le in Hc. apply Hc.
  - intros ->. cbn [negb] in H. destruct (distinct_texts _ _); cbn [negb] in H; [|done].
    destruct (match copy_error _ _ _ with Some _ => _ | None => _ end); [done|].
    destruct (bounded_pair _ _ _) eqn:Hb; [|done]. apply bounded_pair_high in Hb as (n & Hn & Hle).
    exists n. unfold MAX_OPTIONS in Hl2. unfold MAX_CHOICES. split; [done|lia].
Qed.

Lemma mapM_as_str items chosen : mapM as_str items = Some chosen -> omap as_str items = chosen /\ length chosen = length items.
Proof.
  intros H. apply mapM_Some in H. induction H as [|x y l k Hx _ [IH1 IH2]]; [done|]. cbn [omap list_omap length].
  rewrite Hx. split; [by f_equal|by f_equal].
Qed.

Lemma base_error_inr request catalog ms : base_error request catalog = inr ms ->
  request = VObject ms /\ exists n, (v ← member_of ms "ordinal"; small_int v) = Some n /\ 0 <= n <= 7.
Proof.
  unfold base_error. destruct request as [| | | | |xs]; try done. cbn [object_members].
  destruct (negb (forallb _ _)); [done|].
  destruct (is_some _ && _) eqn:Ho; cbn [negb]; [|done]. destruct (copy_error _ _ _); [done|]. intros [= <-]. split; [done|].
  apply andb_true_iff in Ho as [_ Ho]. destruct (member_of xs "ordinal") as [[| |[n| |]| | |]|]; try done.
  cbn [int_within] in Ho. rewrite andb_true_iff, !Z.leb_le in Ho. by exists n.
Qed.

Lemma text_answer kind limit bound ms catalog a :
  In (kind, limit) LENGTH_KINDS -> In (kind, bound) TEXT_RESPONSE_BOUNDS -> length_error ms limit catalog = None ->
  response_admitted (VObject ms) kind a = true -> valid_response_value kind a = true.
Proof.
  intros Hk Hb He Ha.
  assert (match as_str a with Some text => char_len text <= limit | None => False end) as Ht.
  { pose proof (length_answer ms limit catalog a He) as Hl. revert Ha Hl. unfold response_admitted.
    assert (authorizes kind = false /\ (kind =s "input:select") || (kind =s "input:choice") = false
            /\ (kind =s "input:choices") = false /\ limit <= i64_max - 1) as (-> & -> & -> & Hlim).
    { cbn in Hk. destruct Hk as [[= <- <-]|[[= <- <-]|[[= <- <-]|[[= <- <-]|[]]]]]; done. }
    destruct (as_str a) as [text|]; [|done]. rewrite !andb_true_iff. intros [_ Hm] Hl. by apply Hl. }
  destruct (as_str a) as [text|] eqn:Hs; [|done]. unfold LENGTH_KINDS in Hk. cbn in Hk, Hb.
  destruct Hk as [[= <- <-]|[[= <- <-]|[[= <- <-]|[[= <- <-]|[]]]]];
    unfold valid_response_value; lazy -[as_str char_len Z.leb]; rewrite Hs; apply Z.leb_le; lia.
Qed.

Lemma choice_answer kind ms catalog a : contains CHOICE_KINDS kind = true -> choice_error ms catalog false = None ->
  response_admitted (VObject ms) kind a = true -> valid_response_value kind a = true.
Proof.
  intros Hk (allowed & Hv & Hb & _)%choice_options Ha.
  assert (match as_str a with Some text => char_len text <= 128 | None => False end) as Ht.
  { revert Ha. unfold response_admitted. assert (authorizes kind = false /\ (kind =s "input:select") || (kind =s "input:choice") = true) as [-> ->].
    { apply contains_In in Hk. cbn in Hk. by destruct Hk as [<-|[<-|[]]]. }
    destruct (as_str a) as [text|]; [|done]. rewrite Hv. intros [H|[H _]%andb_true_iff]%orb_true_iff; [by apply Hb|].
    by destruct text. }
  apply contains_In in Hk. cbn in Hk. destruct (as_str a) as [text|] eqn:Hs; [|done].
  destruct Hk as [<-|[<-|[]]]; unfold valid_response_value; lazy -[as_str char_len Z.leb]; rewrite Hs; apply Z.leb_le; lia.
Qed.

Lemma choices_answer ms catalog a : choice_error ms catalog true = None ->
  response_admitted (VObject ms) "input:choices" a = true -> valid_response_value "input:choices" a = true.
Proof.
  intros (allowed & Hv & Hb & (n & Hn & Hle)%(fun f => f eq_refl))%choice_options. unfold response_admitted.
  change (authorizes "input:choices") with false. change (("input:choices" =s "input:select") || _) with false.
  change ("input:choices" =s "input:choices") with true. cbv iota. destruct (array a) as [items|] eqn:Hi; [|done].
  rewrite Hv. destruct (mapM as_str items) as [chosen|] eqn:Hm; [|done]. apply mapM_as_str in Hm as [Hm Hlen].
  rewrite !andb_true_iff, Hn. cbn [at_most]. rewrite Z.leb_le. intros [[Hd [_ Hc]] Hall]. unfold valid_response_value.
  change (contains AUTHORIZATION_KINDS "input:choices") with false. change ("input:choices" =s "input:choices") with true.
  cbv iota. rewrite Hi, Hm, Hd, Hlen, Nat.eqb_refl. rewrite !andb_true_iff. split_and!; try done.
  - unfold len in *. rewrite <- Hlen. apply Z.leb_le. unfold MAX_CHOICES, i64_max in *. lia.
  - rewrite forallb_forall in *. intros s Hs. apply Z.leb_le. auto.
Qed.

Lemma answer_admitted request catalog kind a :
  request_error request catalog = None -> get request "kind" = Some (VString kind) ->
  response_admitted request kind a = true -> valid_response_value kind a = true.
Proof.
  intros He Hk Ha. destruct (authorizes kind) eqn:Hau.
  { unfold response_admitted in Ha. rewrite Hau in Ha. unfold valid_response_value. unfold authorizes in Hau. by rewrite Hau. }
  unfold request_error in He. destruct (base_error request catalog) as [e|ms] eqn:Hb; [done|].
  apply base_error_inr in Hb as [-> _]. cbn [get] in Hk. unfold member_of in He. rewrite Hk in He. cbv zeta in He.
  change (default ""%string (text_of (Some (VString kind)))) with kind in He.
  assert ((kind =s "approval") || contains AUTH_KINDS kind = false) as Hna.
  { unfold authorizes in Hau. unfold contains, AUTHORIZATION_KINDS, AUTH_KINDS in *. cbn [existsb] in *. done. }
  rewrite Hna in He. destruct (List.find _ LENGTH_KINDS) as [[k limit]|] eqn:Hf.
  - apply List.find_some in Hf as [Hin Hkk%seqb_true]. cbn [fst] in Hkk. subst k.
    assert (exists bound, In (kind, bound) TEXT_RESPONSE_BOUNDS) as [bound Hbound].
    { cbn in Hin. destruct Hin as [[= <- <-]|[[= <- <-]|[[= <- <-]|[[= <- <-]|[]]]]]; eexists; cbn; eauto 10. }
    by eapply text_answer.
  - destruct (contains CHOICE_KINDS kind) eqn:Hch; [by eapply choice_answer|].
    destruct (seqb_spec kind "input:choices"); [|done]. subst kind. by eapply choices_answer.
Qed.

(** *** Replays *)

(** A transcript an Action's admitted requests built: each request was read by the
    strict reader and admitted against the Action's declared kinds. *)
Inductive replayed (caps inputs : list string) (messages : Value) : ActionTranscript.ActionTranscript -> Prop :=
| replayed_new interrupt : replayed caps inputs messages (transcript_new interrupt)
| replayed_append t value request answer t' :
    replayed caps inputs messages t ->
    admissible value = true -> doubles value -> height value <= Strict.MAX_DEPTH ->
    validate_request value caps inputs messages = inr request ->
    transcript_append t request answer = inr t' -> replayed caps inputs messages t'.

Lemma response_valid value caps inputs messages request answer r :
  admissible value = true -> doubles value -> height value <= Strict.MAX_DEPTH ->
  validate_request value caps inputs messages = inr request -> admit_response request answer = inr r ->
  valid_response (response_payload r) (Z.of_nat (HumanResponse.ordinal r)) = true /\ contains caps (HumanResponse.kind r) = true.
Proof.
  intros Ha Hf Hh Hr [Hadm ->]%admit_response_inr.
  pose proof Hr as (ms & fingerprint & kind & ordinal & Hv & _ & Hsha & Hk & Hc & He & _ & Ho & _ & Ek & Eo & Ef & _)%validate_request_inr.
  rewrite (response_admitted_request _ ms _ _ _ _ _ _ Ha Hf Hh Hv Hr), Ek in Hadm.
  cbn [HumanResponse.kind HumanResponse.ordinal]. rewrite Ek. split; [|done].
  pose proof (answer_admitted _ _ _ _ He Hk Hadm) as Hval.
  unfold request_error in He. destruct (base_error _ _) as [|ms'] eqn:Hb; [done|].
  apply base_error_inr in Hb as [[= <-] (n & Hn & Hbound)]. cbn [get] in Ho. unfold member_of in Hn. rewrite Hn in Ho. injection Ho as ->.
  rewrite Eo, Ef. unfold valid_response, response_payload. cbn [object_members HumanResponse.kind HumanResponse.ordinal HumanResponse.fingerprint HumanResponse.value].
  unfold member_of, lookup_member. lazy [holds_exactly].
  rewrite !andb_true_iff. split_and!; [done|done| | |].
  - change (List.find _ _) with (Some ("ordinal"%string, int (Z.min (Z.of_nat (Z.to_nat ordinal)) i64_max))).
    cbn. apply Z.eqb_eq. unfold i64_max. lia.
  - done.
  - done.
Qed.

Lemma each_response_replayed caps rs n :
  (forall i r, rs !! i = Some r -> valid_response (response_payload r) (n + Z.of_nat i) = true /\ contains caps (HumanResponse.kind r) = true) ->
  each_response_error (map VString caps) (map response_payload rs) n = None.
Proof.
  revert n. induction rs as [|r rs IH]; intros n H; [done|]. cbn [map each_response_error].
  destruct (H O r eq_refl) as [Hv Hc]. rewrite Z.add_0_r in Hv. rewrite Hv. cbn [negb].
  assert (holds_value (map VString caps) (VString (HumanResponse.kind r)) = true) as Hd.
  { unfold holds_value. apply existsb_exists. exists (VString (HumanResponse.kind r)). split; [apply in_map; by apply contains_In|].
    cbn [py_eq]. apply seqb_refl. }
  change (get (response_payload r) "kind") with (Some (VString (HumanResponse.kind r))). cbv beta iota. rewrite Hd. cbn [negb].
  apply IH. intros i x Hx. replace (n + 1 + Z.of_nat i) with (n + Z.of_nat (S i)) by lia. by apply H.
Qed.

Lemma replayed_ok caps inputs messages t : replayed caps inputs messages t ->
  transcript_ok t /\ forall i r, ActionTranscript.responses t !! i = Some r ->
    valid_response (response_payload r) (Z.of_nat i) = true /\ contains caps (HumanResponse.kind r) = true.
Proof.
  induction 1 as [interrupt|t value request answer t' _ [Hok IH] Ha Hf Hh Hr Happ]; [split; [apply transcript_new_ok|done]|].
  pose proof (append_ok _ _ _ _ Hok Happ) as Hok'. split; [done|].
  pose proof Happ as (r & _ & _ & Ho & _ & Hadm & ->)%transcript_append_inr. cbn [ActionTranscript.responses].
  intros i x [Hi|[Hi Hx]]%lookup_app_Some; [by apply IH|]. apply list_lookup_singleton_Some in Hx as [Hi0 <-].
  assert (i = HumanResponse.ordinal r) as ->.
  { apply admit_response_inr in Hadm as [_ ->]. cbn [HumanResponse.ordinal]. lia. }
  by eapply response_valid.
Qed.

Lemma filter_of_map {A B} (f : A -> B) (p : B -> bool) l : List.filter p (map f l) = map f (List.filter (fun a => p (f a)) l).
Proof. induction l as [|a l IH]; [done|]. cbn [map List.filter]. destruct (p (f a)); cbn [map]; by rewrite IH. Qed.

(** C38. Both sides of a replay agree: whatever requests an Action made and a person
    answered through the admission of requests and responses, the Assistant
    protocol's own validator admits the replay frames of the transcript for an
    Action that declares those kinds. *)
Theorem replay_admitted (action : list (string * Value)) (caps inputs : list string) (messages : Value)
  (t : ActionTranscript.ActionTranscript) :
  member_of action "human_requests" = Some (VArray (map VString caps)) ->
  replayed caps inputs messages t -> responses_error action (VArray (payloads t)) = None.
Proof.
  intros Hd [(Hl & _ & Hau & _) Hr]%replayed_ok. unfold responses_error. rewrite Hd. cbn [array array_of mbind option_bind].
  unfold payloads, len. rewrite length_map. unfold MAX_REQUESTS_PER_ACTION, MAX_RESPONSES in *.
  destruct (Z.ltb_spec 8 (Z.of_nat (length (ActionTranscript.responses t)))); [lia|].
  rewrite each_response_replayed by done. rewrite filter_of_map, length_map.
  destruct (Z.ltb_spec 1 (Z.of_nat (length (List.filter (fun r => response_authorizes (response_payload r)) (ActionTranscript.responses t)))));
    [|done]. change (fun r => response_authorizes (response_payload r)) with authorizing in *. lia.
Qed.
End Agreement.

(** ** A replay *)
Definition sample_copy : Value := VObject [("message", VString "m"); ("params", VObject [])]%string.
Definition sample_messages : Value :=
  VArray [VObject [("id", VString "m"); ("max_length", int 80); ("params", VArray [])]]%string.
Definition sample_request_members : list (string * Value) :=
  [("kind", VString "input:select"); ("ordinal", int 0); ("title", sample_copy); ("description", sample_copy);
   ("label", sample_copy); ("required", VBool true);
   ("options", VArray [VObject [("value", VString "a"); ("label", sample_copy); ("description", VNull)];
                       VObject [("value", VString "b"); ("label", sample_copy); ("description", VNull)]])]%string.
Definition sample_request : Value :=
  Eval vm_compute in VObject (sample_request_members
    ++ [("fingerprint"%string, VString (sha256_hex (PF := utc_platform) (canonical (VObject sample_request_members))))]).
Definition sample_kinds : list string := ["input:select"; "approval"]%string.
Definition sample_admitted : HumanRequest.HumanRequest :=
  Eval vm_compute in
    match validate_request (PF := utc_platform) (V := plain_vocabulary) sample_request sample_kinds [] sample_messages with
    | inr r => r
    | inl _ => HumanRequest.mk "" 0 "" "" None ""
    end.
Definition sample_transcript : ActionTranscript.ActionTranscript :=
  Eval vm_compute in
    match transcript_append (transcript_new "i") sample_admitted (VString "b") with inr t => t | inl _ => transcript_new "i" end.

Lemma turn_transcripts_witness : turn_ok ([sample_transcript], 1%nat).
Proof.
  apply (turn_transcripts [sample_transcript] 1). apply rtc_once.
  apply (turn_answer [] "i" sample_admitted (VString "b") 0 (Admission.mk [sample_transcript] 1 None)). vm_compute. reflexivity.
Defined.

Lemma replay_admitted_witness :
  length (payloads sample_transcript) = 1%nat
  /\ responses_error [("human_requests"%string, VArray (map VString sample_kinds))] (VArray (payloads sample_transcript)) = None.
Proof.
  split; [reflexivity|].
  apply (replay_admitted (PF := utc_platform) (V := plain_vocabulary) _ sample_kinds [] sample_messages sample_transcript); [reflexivity|].
  eapply (replayed_append _ _ _ (transcript_new "i") sample_request sample_admitted (VString "b")); [constructor|..];
    [vm_compute; reflexivity|vm_compute; repeat split|vm_compute; discriminate|vm_compute; reflexivity|vm_compute; reflexivity].
Defined.
