(* ===== verification/Redaction.v ===== *)
(** * Sanitized failures of Actions

    The closed failure envelope ([vendor/assistant-protocol/src/failure.rs]) and
    Team's own redaction of it ([action/src/failure/mod.rs]).  The regular
    expression engine ([fancy-regex]) is [Regexes]. *)

From stdpp Require Import base tactics list strings pretty.
From Stdlib Require Import ZArith Lia Ascii.
From S2P Require Import Prelude Text Json Calendar Platform Requests.

#[local] Open Scope Z_scope.

(** [Regex::try_replacen(text, 0, replace)] of a compiled pattern: every match
    replaced by what [replace] makes of its named groups, [None] when the engine
    gives up. *)
Class Regexes : Type := try_replacen : string -> string -> ((string -> string) -> string) -> option string.

(** ** The envelope ([vendor/assistant-protocol/src/failure.rs]) *)
Definition FAILURE_KEYS : list string :=
  ["error_type"; "message"; "provider"; "http_status"; "response_excerpt"; "redacted"; "truncated"]%string.
Definition MAX_TEXT_BYTES : Z := 2048.
Definition MAX_PROVIDER : Z := 253.
Definition MAX_ERROR_TYPE : Z := 128.

Definition error_type_admitted (failure : list (string * Value)) : bool :=
  match text_of (member_of failure "error_type") with
  | Some text => (1 <=? slen text) && (slen text <=? MAX_ERROR_TYPE) && all_bytes (between 0x21 0x7e) text
  | None => false
  end.
Definition unsafe_character (c : Z) : bool :=
  (0 <=? c) && (c <=? 8) || (0xb <=? c) && (c <=? 0x1f) || (0x7f <=? c) && (c <=? 0x9f)
  || (0x200b <=? c) && (c <=? 0x200f) || (0x202a <=? c) && (c <=? 0x202e) || (0x2060 <=? c) && (c <=? 0x206f)
  || (c =? 0xfeff).
Definition text_admitted (v : Value) : bool :=
  match as_str v with
  | Some text => (slen text <=? MAX_TEXT_BYTES) && negb (existsb unsafe_character (chars text))
  | None => false
  end.
Definition message_admitted (failure : list (string * Value)) : bool :=
  match member_of failure "message" with Some v => text_admitted v | None => false end.
Definition excerpt_admitted (failure : list (string * Value)) : bool :=
  match member_of failure "response_excerpt" with Some v => is_null v || text_admitted v | None => false end.
Definition dns_labels (host : string) (minimum : Z) : bool :=
  let labels := split_on "." host in
  (minimum <=? len labels)
  && forallb (fun label =>
       (1 <=? slen label) && (slen label <=? 63)
       && all_bytes (fun a => is_lower a || is_digit a || one_of "-" a) label
       && negb (starts_with (one_of "-") label) && negb (ends_with (one_of "-") label)) labels.
Definition provider_admitted (failure : list (string * Value)) : bool :=
  match member_of failure "provider" with
  | Some VNull => true
  | Some (VString host) => (slen host <=? MAX_PROVIDER) && dns_labels host 1
  | _ => false
  end.
Definition status_admitted (failure : list (string * Value)) : bool :=
  match member_of failure "http_status" with Some v => is_null v || int_within v 100 599 | None => false end.
Definition flags_admitted (failure : list (string * Value)) : bool :=
  forallb (fun key => match member_of failure key with Some (VBool _) => true | _ => false end)
    ["redacted"; "truncated"]%string.

Definition failure_rules : list (string * (list (string * Value) -> bool)) :=
  [("error_type_invalid", error_type_admitted); ("message_invalid", message_admitted);
   ("response_excerpt_invalid", excerpt_admitted); ("provider_invalid", provider_admitted);
   ("http_status_invalid", status_admitted); ("flag_invalid", flags_admitted)]%string.
Definition failure_error (envelope : Value) : option string :=
  match object_members envelope with
  | Some ms =>
      if holds_exactly ms ["type"; "failure"]%string && is_text (member_of ms "type") "failure" then
        match object_of (member_of ms "failure") with
        | Some failure =>
            if holds_exactly failure FAILURE_KEYS
            then option_map fst (List.find (fun rule => negb (snd rule failure)) failure_rules)
            else Some "failure_invalid"%string
        | None => Some "failure_invalid"%string
        end
      else Some "envelope_invalid"%string
  | None => Some "envelope_invalid"%string
  end.

(** ** The admitted failure ([action/src/failure/mod.rs]) *)
Definition REDACTED : string := "[REDACTED]".
Definition MIN_DERIVED : Z := 4.
Definition MIN_CLIPPED : Z := 4.

Module Failure.
Record Failure : Type := mk {
  error_type : string;
  message : string;
  provider : option string;
  http_status : option Z;
  response_excerpt : option string;
  redacted : bool;
  truncated : bool
}.
End Failure.

Definition optional_text (o : option string) : Value := match o with Some s => VString s | None => VNull end.
(** [document]. *)
Definition failure_document (f : Failure.Failure) : Value :=
  VObject [("error_type", VString (Failure.error_type f)); ("message", VString (Failure.message f));
           ("provider", optional_text (Failure.provider f));
           ("http_status", match Failure.http_status f with Some status => int status | None => VNull end);
           ("response_excerpt", optional_text (Failure.response_excerpt f));
           ("redacted", VBool (Failure.redacted f)); ("truncated", VBool (Failure.truncated f))]%string.
(** [withheld]. *)
Definition failure_withheld (f : Failure.Failure) : Failure.Failure :=
  Failure.mk "withheld" "" None (Failure.http_status f) None true false.
Definition is_failure (raw : Value) : bool := is_object raw && is_text (get raw "type") "failure".

(** ** Text *)

(** [to_ascii_lowercase]. *)
Definition lower_byte (a : ascii) : ascii := if is_upper a then byte_of (byte_code a + 32) else a.
Fixpoint lower (s : string) : string :=
  match s with EmptyString => EmptyString | String a s' => String (lower_byte a) (lower s') end.
(** [str::starts_with] and [str::contains]. *)
Definition has_prefix (p s : string) : bool := is_some (strip_prefix p s).
Fixpoint has_sub (needle s : string) : bool :=
  has_prefix needle s || match s with EmptyString => false | String _ s' => has_sub needle s' end.
(** [str::replace] of one character. *)
Fixpoint replace_char (from : ascii) (to : string) (s : string) : string :=
  match s with
  | EmptyString => EmptyString
  | String a s' => (if byte_code a =? byte_code from then to else String a EmptyString) +:+ replace_char from to s'
  end.
(** Positions where a character begins, and the text from a position. *)
Definition continues_char (a : ascii) : bool := between 0x80 0xbf a.
Fixpoint char_indices (i : nat) (s : string) : list nat :=
  match s with
  | EmptyString => []
  | String a s' => if continues_char a then char_indices (S i) s' else i :: char_indices (S i) s'
  end.
Definition from (i : nat) (s : string) : string := snd (split_at i s).
Definition upto (i : nat) (s : string) : string := fst (split_at i s).

(** [bound]: cut to at most [limit] bytes, on a character boundary. *)
Definition is_char_boundary (s : string) (e : nat) : bool :=
  match e with
  | O => true
  | _ => match from e s with String a _ => negb (continues_char a) | EmptyString => Nat.eqb e (String.length s) end
  end.
Fixpoint boundary (s : string) (e : nat) : nat :=
  match e with O => O | S e' => if is_char_boundary s e then e else boundary s e' end.
Definition bound (value : string) (limit : Z) : string :=
  if slen value <=? limit then value else upto (boundary value (Z.to_nat limit)) value.

(** ** Encodings of a held value *)
Definition unreserved (a : ascii) : bool := is_alnum a || one_of "_.-~" a.
Definition hex_upper (d : Z) : ascii := byte_of (if d <? 10 then 0x30 + d else 0x37 + d).
Fixpoint percent (s : string) (plus : bool) : string :=
  match s with
  | EmptyString => EmptyString
  | String a s' =>
      (if unreserved a then String a EmptyString
       else if one_of " " a && plus then "+"%string
       else String "%" (String (hex_upper (byte_code a / 16)) (String (hex_upper (byte_code a mod 16)) EmptyString)))
      +:+ percent s' plus
  end.
Definition json_body (s : string) (ensure_ascii : bool) : string :=
  let quoted := write_string ensure_ascii s in
  upto (String.length quoted - 2) (from 1 quoted).

Fixpoint nul_bytes (n : nat) : string := match n with O => EmptyString | S n' => String (byte_of 0) (nul_bytes n') end.
(** [encoded.get(first..last).unwrap_or_default()]. *)
Definition get_range (first last : nat) (s : string) : string :=
  if (first <=? last)%nat && (last <=? String.length s)%nat then upto (last - first) (from first s) else EmptyString.

Section Redactor.
  Context {B : Base64} {X : Regexes}.

(** The characters of the encoding of a value after [offset] bytes that depend on
    the value alone. *)
Definition aligned (offset : nat) (raw : string) : string :=
  let encoded := base64_standard (nul_bytes offset +:+ raw) in
  get_range ((offset * 4 + 2) / 3) ((offset + String.length raw) * 8 / 6) encoded.
Definition encodings (secret : string) : list string :=
  let escaped := json_body secret true in
  [escaped; json_body secret false; replace_char "/" "\/" escaped; percent secret false; percent secret true; hex_of secret]
  ++ concat (map (fun offset =>
       let core := aligned offset secret in
       [replace_char "/" "_" (replace_char "+" "-" core); core]) [0; 1; 2]%nat).

(** [Redactor::new]: the folded needles, longest first. *)
Definition needle_le (a b : string) : bool :=
  (char_len b <? char_len a) || (char_len a =? char_len b) && sleb a b.
Definition needles_of (secret : string) : list string :=
  lower secret :: map lower (List.filter (fun form => MIN_DERIVED <=? char_len form) (encodings secret)).
Definition redactor (secrets : list string) : list string :=
  dedup (stable_sort needle_le (concat (map needles_of (List.filter (fun s => negb (is_empty s)) secrets)))).

(** [replace_held]: every occurrence of a needle, leftmost first, replaced. *)
Fixpoint replace_from (needle : string) (skip : nat) (value : string) : string :=
  match value with
  | EmptyString => EmptyString
  | String a rest =>
      match skip with
      | S skip => replace_from needle skip rest
      | O =>
          if has_prefix needle (lower value) then REDACTED +:+ replace_from needle (String.length needle - 1) rest
          else String a (replace_from needle 0 rest)
      end
  end.
Definition replace_needle (value needle : string) : string :=
  if has_sub needle (lower value) then replace_from needle 0 value else value.
Definition replace_held (needles : list string) (value : string) : string := fold_left replace_needle needles value.

(** [withhold_clipped]. *)
Definition clipped_at (folded : string) (start : nat) (needle : string) : nat :=
  let earliest := (String.length folded - (String.length needle - 1))%nat in
  match List.find (fun index =>
          (earliest <=? index)%nat && (index <? start)%nat && (MIN_CLIPPED <=? char_len (from index folded))
          && has_prefix (from index folded) needle) (char_indices 0 folded) with
  | Some index => index
  | None => start
  end.
Definition withhold_clipped (needles : list string) (value : string) : string :=
  let folded := lower value in
  let start := fold_left (clipped_at folded) needles (String.length folded) in
  if Nat.eqb start (String.length value) then value else upto start value +:+ REDACTED.

(** ** Secret-shaped text *)
Definition keyword (text : string) : string := replace_char "i" ("[i" +:+ utf8 0x130 +:+ utf8 0x131 +:+ "]") text.
Definition SHAPED : list string :=
  ["(?s)-----BEGIN [A-Z0-9 ]*PRIVATE KEY-----.*?(?:-----END [A-Z0-9 ]*PRIVATE KEY-----|\z)"%string;
   "(?i)\b(?:bearer|" +:+ keyword "basic" +:+ ")\s+\S+";
   "\beyJ[A-Za-z0-9_-]+\.[A-Za-z0-9_-]*(?:\.[A-Za-z0-9_-]*)?"%string;
   "\b(?:sk|pk|rk|ghp|gho|ghu|ghs|ghr|github_pat|glpat|xox[abprs]|AKIA|ASIA|AIza|ya29)[-_.]?[A-Za-z0-9_.-]{8,}"%string].
Definition ASSIGNED : string :=
  "(?is)(?P<key>\b(?:" +:+ keyword ("api[_-]?key|access[_-]?token|refresh[_-]?token|id[_-]?token|client[_-]?secret|secret|password|passwd|pwd"
    +:+ "|token|authorization|cookie|session|signature|private[_-]?key")
  +:+ ")\b[" +:+ quote +:+ "']?\s*[:=]\s*)(?:\[REDACTED\]|" +:+ quote +:+ "(?:[^" +:+ quote +:+ "\\]|\\.)*(?:" +:+ quote
  +:+ "|\z)|'[^']*(?:'|\z)|[^\s,;&}\]]+)".
Definition URL_USERINFO : string := "(?i)(?P<scheme>\b[a-z][a-z0-9+.-]*://)[^\s/@]+@".

Definition substitute (pattern text : string) (replace : (string -> string) -> string) : string :=
  match try_replacen pattern text replace with Some out => out | None => REDACTED end.

(** [Redactor::text]: the redacted text, whether it changed, whether it was cut. *)
Definition redacted_text (needles : list string) (value : string) (limit : Z) : string * bool * bool :=
  let redacted := replace_held needles value in
  let redacted := fold_left (fun text pattern => substitute pattern text (fun _ => REDACTED)) SHAPED redacted in
  let redacted := substitute ASSIGNED redacted (fun captures => captures "key"%string +:+ REDACTED) in
  let redacted := substitute URL_USERINFO redacted (fun captures => captures "scheme"%string +:+ REDACTED +:+ "@") in
  let redacted := withhold_clipped needles redacted in
  let bounded := bound redacted limit in
  (bounded, negb (redacted =s value), negb (slen bounded =? slen redacted)).

(** ** Failures *)
Definition sanitize (needles : list string) (f : Failure.Failure) : Failure.Failure :=
  let '(error_type, type_changed, type_cut) := redacted_text needles (Failure.error_type f) MAX_ERROR_TYPE in
  let '(message, message_changed, message_cut) := redacted_text needles (Failure.message f) MAX_TEXT_BYTES in
  let '(excerpt, excerpt_changed, excerpt_cut) :=
    match Failure.response_excerpt f with
    | Some excerpt =>
        let '(text, changed, cut) := redacted_text needles excerpt MAX_TEXT_BYTES in (Some text, changed, cut)
    | None => (None, false, false)
    end in
  let provider_changed :=
    match Failure.provider f with
    | Some provider => let '(_, changed, _) := redacted_text needles provider MAX_TEXT_BYTES in changed
    | None => false
    end in
  Failure.mk error_type message (if provider_changed then None else Failure.provider f) (Failure.http_status f) excerpt
    (Failure.redacted f || type_changed || message_changed || excerpt_changed || provider_changed)
    (Failure.truncated f || type_cut || message_cut || excerpt_cut).
Definition redacted_with (f : Failure.Failure) (secrets : list string) : Failure.Failure := sanitize (redactor secrets) f.

(** [admit]: a failure frame, re-redacted; an error carries its reason code. *)
Definition admit_failure (envelope : Value) (secrets : list string) : string + Failure.Failure :=
  match failure_error envelope with
  | Some reason => inl reason
  | None =>
      match get envelope "failure" with
      | None => inl "failure_invalid"%string
      | Some failure =>
          let text key := text_of (get failure key) in
          let flag key := match get failure key with Some v => is_true v | None => false end in
          let admitted :=
            Failure.mk (default "" (text "error_type"%string)) (default "" (text "message"%string)) (text "provider"%string)
              (v ← get failure "http_status"; small_int v) (text "response_excerpt"%string)
              (flag "redacted"%string) (flag "truncated"%string) in
          inr (sanitize (redactor secrets) admitted)
      end
  end.
End Redactor.
