(* ===== verification/RedactionSafety.v ===== *)
(** * What redaction leaves

    A held value, or a listed encoding of it, does not survive in a sanitized
    failure, whatever the Assistant put there; and sanitized texts keep their
    bounds and say what was done to them. *)

From stdpp Require Import base tactics list strings pretty.
From Stdlib Require Import ZArith Lia Ascii.
From S2P Require Import Prelude Text Json Reader Utf8 ReaderSafety Calendar Platform Requests Redaction.

#[local] Open Scope Z_scope.

(** ** Occurrences *)
Lemma has_prefix_iff p s : has_prefix p s = true <-> exists t, s = p +:+ t.
Proof.
  unfold has_prefix. destruct (strip_prefix p s) as [t|] eqn:H; cbn [is_some].
  - apply strip_prefix_app in H. split; [eauto|done].
  - split; [done|]. intros [t Ht%strip_prefix_app]. congruence.
Qed.
Lemma has_prefix_nil s : has_prefix "" s = true.
Proof. apply has_prefix_iff. by exists s. Qed.
Lemma has_prefix_cons a p b s : has_prefix (String a p) (String b s) = true <-> a = b /\ has_prefix p s = true.
Proof.
  rewrite !has_prefix_iff. split.
  - intros [t H]. rewrite string_app_cons in H. injection H as -> ->. eauto.
  - intros [-> [t ->]]. by exists t.
Qed.
Lemma has_prefix_cons_nil a p : has_prefix (String a p) "" = false.
Proof. done. Qed.

Lemma has_sub_cons n a s : has_sub n (String a s) = has_prefix n (String a s) || has_sub n s.
Proof. done. Qed.
Lemma has_prefix_app_l n s t : has_prefix n s = true -> has_prefix n (s +:+ t) = true.
Proof. rewrite !has_prefix_iff. intros [u ->]. exists (u +:+ t). by rewrite string_app_assoc. Qed.
Lemma has_prefix_sub n s : has_prefix n s = true -> has_sub n s = true.
Proof. intros H. destruct s; cbn [has_sub]; by rewrite H. Qed.
Lemma has_sub_app_l n s t : has_sub n s = true -> has_sub n (s +:+ t) = true.
Proof.
  induction s as [|a s IH].
  - cbn [has_sub]. rewrite orb_false_r. intros H. apply has_prefix_sub. by apply (has_prefix_app_l n "" t).
  - rewrite string_app_cons, !has_sub_cons, !orb_true_iff. intros [H|H]; [left|right; auto].
    rewrite <- string_app_cons. by apply has_prefix_app_l.
Qed.
Lemma has_sub_app_r n s t : has_sub n t = true -> has_sub n (s +:+ t) = true.
Proof. intros H. induction s as [|a s IH]; [done|]. rewrite string_app_cons, has_sub_cons, IH. apply orb_true_r. Qed.

Lemma lower_app s t : lower (s +:+ t) = lower s +:+ lower t.
Proof. induction s as [|a s IH]; [done|]. rewrite string_app_cons. cbn [lower]. by rewrite IH. Qed.
Lemma length_lower s : String.length (lower s) = String.length s.
Proof. induction s as [|a s IH]; [done|]. cbn. by rewrite IH. Qed.

(** ** Needles free of the marker

    A needle that has neither bracket of the marker and is no part of its word
    cannot overlap a marker. *)
Fixpoint has_byte (c : ascii) (s : string) : bool :=
  match s with EmptyString => false | String a s' => Ascii.eqb a c || has_byte c s' end.
Definition marker_free (n : string) : bool :=
  negb (is_empty n) && negb (has_byte "[" n) && negb (has_byte "]" n) && negb (has_sub n "redacted").

Lemma has_prefix_bracket n u t : has_byte "]" n = false -> has_prefix n (u +:+ String "]" t) = true -> has_prefix n u = true.
Proof.
  revert n. induction u as [|a u IH]; intros [|b n] Hn H; try apply has_prefix_nil.
  - change ("" +:+ String "]" t) with (String "]" t) in H. apply has_prefix_cons in H as [-> _]. done.
  - rewrite string_app_cons in H. apply has_prefix_cons in H as [-> H]. cbn [has_byte] in Hn.
    apply orb_false_iff in Hn as [_ Hn]. apply has_prefix_cons. auto.
Qed.
Lemma has_sub_bracket n u t : negb (is_empty n) = true -> has_byte "]" n = false ->
  has_sub n (u +:+ String "]" t) = true -> has_sub n u = true \/ has_sub n t = true.
Proof.
  intros He Hn. induction u as [|a u IH].
  - change ("" +:+ String "]" t) with (String "]" t). rewrite has_sub_cons, orb_true_iff. intros [H|H]; [|by right].
    apply (has_prefix_bracket n "" t Hn) in H. by destruct n.
  - rewrite string_app_cons, !has_sub_cons, !orb_true_iff. intros [H|H]; [left; left|].
    + rewrite <- string_app_cons in H. by eapply has_prefix_bracket.
    + apply IH in H as [H|H]; auto.
Qed.

Lemma has_sub_marker n t : marker_free n = true -> has_sub n (lower (REDACTED +:+ t)) = true -> has_sub n (lower t) = true.
Proof.
  unfold marker_free. rewrite !andb_true_iff, !negb_true_iff. intros [[[He Hl] Hr] Hw].
  rewrite lower_app. change (lower REDACTED +:+ lower t) with ("[redacted" +:+ String "]" (lower t)).
  intros [H|H]%has_sub_bracket; [|done|by rewrite He|done].
  change ("[redacted"%string) with (String "[" "redacted") in H. rewrite has_sub_cons, Hw, orb_false_r in H.
  destruct n as [|b n]; [done|]. apply has_prefix_cons in H as [-> _]. cbn [has_byte] in Hl. done.
Qed.

(** ** Replacing pieces by the marker *)
Inductive redacts : string -> string -> Prop :=
| redacts_nil : redacts "" ""
| redacts_keep a s t : redacts s t -> redacts (String a s) (String a t)
| redacts_drop r s t : redacts s t -> redacts (r +:+ s) (REDACTED +:+ t).

Lemma redacts_refl s : redacts s s.
Proof. induction s; by constructor. Qed.
Lemma redacts_app r s t : redacts s t -> redacts (r +:+ s) (r +:+ t).
Proof. intros H. induction r as [|a r IH]; [done|]. rewrite !string_app_cons. by constructor. Qed.

Lemma redacts_prefix n s t : has_byte "[" n = false -> redacts s t ->
  has_prefix n (lower t) = true -> has_prefix n (lower s) = true.
Proof.
  intros Hn H. revert n Hn. induction H as [|a s t H IH|r s t H IH]; intros [|b n] Hn; try (intros; apply has_prefix_nil); try done.
  - cbn [lower]. rewrite !has_prefix_cons. cbn [has_byte] in Hn. apply orb_false_iff in Hn as [_ Hn]. intros [-> ?]. auto.
  - rewrite lower_app. change (lower REDACTED +:+ lower t) with (String "[" ("redacted]" +:+ lower t)).
    intros [-> _]%has_prefix_cons. done.
Qed.

Lemma marker_free_open n : marker_free n = true -> has_byte "[" n = false.
Proof. unfold marker_free. rewrite !andb_true_iff, !negb_true_iff. tauto. Qed.

(** An occurrence after the replacement was there before it. *)
Lemma redacts_sub n s t : marker_free n = true -> redacts s t -> has_sub n (lower t) = true -> has_sub n (lower s) = true.
Proof.
  intros Hn H. induction H as [|a s t H IH|r s t H IH]; [done| |].
  - cbn [lower]. rewrite !has_sub_cons, !orb_true_iff. intros [Hp|Hp]; [left|right; auto].
    eapply (redacts_prefix n (String a s) (String a t)); [by apply marker_free_open|by constructor|done].
  - intros Hs%has_sub_marker; [|done]. rewrite lower_app. by apply has_sub_app_r, IH.
Qed.

(** *** One needle *)
Lemma split_at_length k s : split_at k s = (upto k s, from k s).
Proof. unfold upto, from. by destruct (split_at k s). Qed.
Lemma upto_from k s : upto k s +:+ from k s = s.
Proof.
  unfold upto, from. revert s. induction k as [|k IH]; intros [|a s]; try done. cbn [split_at].
  specialize (IH s). destruct (split_at k s) as [l r]. cbn [fst snd] in *. by rewrite string_app_cons, IH.
Qed.

Lemma replace_from_redacts n k s : redacts (from k s) (replace_from n k s).
Proof.
  revert k. induction s as [|a s IH]; intros k; [destruct k; constructor|]. cbn [replace_from]. destruct k as [|k].
  - change (from 0 (String a s)) with (String a s). destruct (has_prefix _ _).
    + specialize (IH (String.length n - 1)%nat). rewrite <- (upto_from (String.length n - 1) s) at 1.
      rewrite <- string_app_cons. by constructor.
    + constructor. apply (IH O).
  - specialize (IH k). unfold from in *. cbn [split_at]. destruct (split_at k s). done.
Qed.

Lemma replace_from_clean n k s : marker_free n = true -> has_sub n (lower (replace_from n k s)) = false.
Proof.
  intros Hn. revert k. induction s as [|a s IH]; intros k.
  - cbn. rewrite orb_false_r. destruct n; [done|apply has_prefix_cons_nil].
  - cbn [replace_from]. destruct k as [|k]; [|apply IH].
    destruct (has_prefix n (lower (String a s))) eqn:Hp.
    + apply not_true_is_false. intros H%has_sub_marker; [|done]. rewrite IH in H. done.
    + cbn [lower]. rewrite has_sub_cons, IH, orb_false_r. apply not_true_is_false. intros H.
      assert (redacts (String a s) (String a (replace_from n 0 s))) as Hr by (constructor; apply (replace_from_redacts n 0)).
      apply (redacts_prefix n _ _ (marker_free_open n Hn) Hr) in H. congruence.
Qed.

Lemma replace_needle_redacts n s : redacts s (replace_needle s n).
Proof. unfold replace_needle. destruct (has_sub _ _); [apply (replace_from_redacts n 0)|apply redacts_refl]. Qed.

Lemma replace_needle_clean n s : marker_free n = true -> has_sub n (lower (replace_needle s n)) = false.
Proof. intros Hn. unfold replace_needle. destruct (has_sub n (lower s)) eqn:H; [by apply replace_from_clean|done]. Qed.

Lemma clean_redacts n s t : marker_free n = true -> redacts s t -> has_sub n (lower s) = false -> has_sub n (lower t) = false.
Proof. intros Hn Hr Hs. apply not_true_is_false. intros H%(redacts_sub n s t Hn Hr). congruence. Qed.

Lemma replace_held_clean needles n s : marker_free n = true -> In n needles -> has_sub n (lower (replace_held needles s)) = false.
Proof.
  intros Hn. unfold replace_held. revert s. induction needles as [|m ms IH]; intros s; [done|]. cbn [fold_left].
  intros [->|Hin]; [|by apply IH].
  assert (forall ms s, has_sub n (lower s) = false -> has_sub n (lower (fold_left replace_needle ms s)) = false) as H.
  { clear -Hn. induction ms as [|m ms IH]; intros s Hs; [done|]. cbn [fold_left]. apply IH.
    by eapply clean_redacts; [|apply replace_needle_redacts|]. }
  apply H. by apply replace_needle_clean.
Qed.

(** ** The engine

    What the engine documents of replacing: the matches of a pattern do not
    overlap and each is replaced by what the closure makes of its groups.  In
    [ASSIGNED] the group [key] opens the match; in [URL_USERINFO] the group
    [scheme] opens it and the sign [@] closes it. *)
Section Spliced.
  Context (matched : string -> (string -> string) -> Prop) (replace : (string -> string) -> string).

Inductive spliced : string -> string -> Prop :=
| spliced_nil : spliced "" ""
| spliced_keep a s t : spliced s t -> spliced (String a s) (String a t)
| spliced_match m captures s t : matched m captures -> spliced s t -> spliced (m +:+ s) (replace captures +:+ t).
End Spliced.

Class RegexLaws `{X : Regexes} : Type := {
  matched : string -> string -> (string -> string) -> Prop;
  replacen_splices : forall pattern text replace out,
    try_replacen pattern text replace = Some out -> spliced (matched pattern) replace text out;
  assigned_key : forall m captures, matched ASSIGNED m captures -> exists value, m = captures "key"%string +:+ value;
  userinfo_scheme : forall m captures, matched URL_USERINFO m captures ->
    exists userinfo, m = captures "scheme"%string +:+ (userinfo +:+ "@")
}.

Section Texts.
  Context {B : Base64} {X : Regexes} {L : RegexLaws}.

Lemma substitute_redacts pattern text replace :
  (forall m captures s t, matched pattern m captures -> redacts s t -> redacts (m +:+ s) (replace captures +:+ t)) ->
  redacts text (substitute pattern text replace).
Proof.
  intros H. unfold substitute. destruct (try_replacen pattern text replace) as [out|] eqn:E.
  - apply replacen_splices in E. induction E; [constructor|by constructor|auto].
  - rewrite <- (string_app_nil text). apply (redacts_drop text "" ""). constructor.
Qed.

Lemma shaped_redacts pattern text : redacts text (substitute pattern text (fun _ => REDACTED)).
Proof. apply substitute_redacts. intros m captures s t _ H. by constructor. Qed.
Lemma assigned_redacts text : redacts text (substitute ASSIGNED text (fun captures => captures "key"%string +:+ REDACTED)).
Proof.
  apply substitute_redacts. intros m captures s t [value ->]%assigned_key H. rewrite !string_app_assoc.
  apply redacts_app. by constructor.
Qed.
Lemma userinfo_redacts text :
  redacts text (substitute URL_USERINFO text (fun captures => captures "scheme"%string +:+ REDACTED +:+ "@")).
Proof.
  apply substitute_redacts. intros m captures s t [userinfo ->]%userinfo_scheme H. rewrite !string_app_assoc.
  apply redacts_app. constructor. by apply redacts_app.
Qed.
Lemma withheld_redacts needles text : redacts text (withhold_clipped needles text).
Proof.
  unfold withhold_clipped. set (start := fold_left _ _ _). destruct (Nat.eqb start _); [apply redacts_refl|].
  rewrite <- (upto_from start text) at 1. apply redacts_app. rewrite <- (string_app_nil (from start text)) at 1.
  rewrite <- (string_app_nil REDACTED). apply redacts_drop. constructor.
Qed.

(** *** Bounds *)
Lemma boundary_le s e : (boundary s e <= e)%nat.
Proof. induction e as [|e IH]; [done|]. cbn [boundary]. destruct (is_char_boundary s (S e)); lia. Qed.
Lemma length_upto k s : (String.length (upto k s) <= k)%nat.
Proof.
  unfold upto. revert s. induction k as [|k IH]; intros [|a s]; cbn; [lia..|]. specialize (IH s).
  destruct (split_at k s). cbn in *. lia.
Qed.
Lemma bound_prefix s limit : exists t, s = bound s limit +:+ t.
Proof.
  unfold bound. destruct (slen s <=? limit); [exists EmptyString; by rewrite string_app_nil|].
  eexists. symmetry. apply upto_from.
Qed.
Lemma bound_slen s limit : 0 <= limit -> slen (bound s limit) <= limit.
Proof.
  intros Hl. unfold bound. destruct (Z.leb_spec (slen s) limit); [done|]. unfold slen.
  pose proof (length_upto (boundary s (Z.to_nat limit)) s). pose proof (boundary_le s (Z.to_nat limit)). lia.
Qed.

(** *** One redacted text *)
Lemma redacted_text_clean needles n value limit : marker_free n = true -> In n needles ->
  has_sub n (lower (fst (fst (redacted_text needles value limit)))) = false
  /\ (snd (fst (redacted_text needles value limit)) = false -> has_sub n (lower value) = false).
Proof.
  intros Hn Hin. unfold redacted_text. cbv zeta. cbn [fst snd].
  set (final := withhold_clipped needles _).
  assert (has_sub n (lower final) = false) as Hf.
  { subst final. eapply clean_redacts; [done|apply withheld_redacts|]. eapply clean_redacts; [done|apply userinfo_redacts|].
    eapply clean_redacts; [done|apply assigned_redacts|]. cbn [SHAPED fold_left].
    do 4 (eapply clean_redacts; [done|apply shaped_redacts|]). by apply replace_held_clean. }
  clearbody final. split.
  - destruct (bound_prefix final limit) as [t Ht]. apply not_true_is_false. intros H.
    rewrite Ht, lower_app in Hf. rewrite (has_sub_app_l _ _ _ H) in Hf. done.
  - rewrite negb_false_iff, seqb_true. by intros ->.
Qed.

Lemma redacted_text_bound needles value limit : 0 <= limit ->
  slen (fst (fst (redacted_text needles value limit))) <= limit
  /\ (snd (fst (redacted_text needles value limit)) = false -> snd (redacted_text needles value limit) = false ->
      fst (fst (redacted_text needles value limit)) = value).
Proof.
  intros Hl. unfold redacted_text. cbv zeta. cbn [fst snd]. split; [by apply bound_slen|].
  rewrite !negb_false_iff, seqb_true, Z.eqb_eq. intros H1 H2. rewrite H1 in *.
  destruct (bound_prefix value limit) as [t Ht]. rewrite Ht in H2 at 2. rewrite slen_app in H2.
  destruct t as [|a t]; [by rewrite string_app_nil in Ht|]. unfold slen in H2. cbn [String.length] in H2. lia.
Qed.
End Texts.

Section Failures.
  Context {B : Base64} {X : Regexes}.

Lemma redactor_holds secrets secret n : In secret secrets -> secret <> ""%string -> In n (needles_of secret) ->
  In n (redactor secrets).
Proof.
  intros Hs Hne Hn. unfold redactor. apply in_dedup, list_elem_of_In. rewrite stable_sort_perm. apply list_elem_of_In, in_concat.
  exists (needles_of secret). split; [|done]. apply in_map, filter_In. split; [done|]. by destruct secret.
Qed.

(** The free texts of a failure. *)
Definition failure_texts (f : Failure.Failure) : list string :=
  [Failure.error_type f; Failure.message f] ++ option_list (Failure.provider f) ++ option_list (Failure.response_excerpt f).

Lemma sanitize_clean `{L : !RegexLaws} needles n f t : marker_free n = true -> In n needles ->
  In t (failure_texts (sanitize needles f)) -> has_sub n (lower t) = false.
Proof.
  intros Hn Hin. unfold sanitize.
  destruct (redacted_text needles (Failure.error_type f) MAX_ERROR_TYPE) as [[ty b1] c1] eqn:H1.
  destruct (redacted_text needles (Failure.message f) MAX_TEXT_BYTES) as [[msg b2] c2] eqn:H2.
  pose proof (redacted_text_clean needles n (Failure.error_type f) MAX_ERROR_TYPE Hn Hin) as [C1 _]. rewrite H1 in C1.
  pose proof (redacted_text_clean needles n (Failure.message f) MAX_TEXT_BYTES Hn Hin) as [C2 _]. rewrite H2 in C2.
  assert (forall p, Failure.provider f = Some p ->
    (let '(_, changed, _) := redacted_text needles p MAX_TEXT_BYTES in changed) = false -> has_sub n (lower p) = false) as Cp.
  { intros p _. pose proof (redacted_text_clean needles n p MAX_TEXT_BYTES Hn Hin) as [_ C].
    destruct (redacted_text needles p MAX_TEXT_BYTES) as [[x b] c]. done. }
  assert (forall e, Failure.response_excerpt f = Some e ->
    has_sub n (lower (fst (fst (redacted_text needles e MAX_TEXT_BYTES)))) = false) as Ce.
  { intros e _. by apply redacted_text_clean. }
  destruct (Failure.response_excerpt f) as [e|]; [specialize (Ce e eq_refl)|clear Ce];
    [destruct (redacted_text needles e MAX_TEXT_BYTES) as [[ex b3] c3]|];
    (destruct (Failure.provider f) as [p|]; [specialize (Cp p eq_refl)|clear Cp];
     [destruct (let '(_, changed, _) := redacted_text needles p MAX_TEXT_BYTES in changed)|]);
    cbn [failure_texts Failure.error_type Failure.message Failure.provider Failure.response_excerpt app option_list fst snd] in *;
    intros Ht; cbn in Ht; naive_solver.
Qed.

(** C12. A sanitized failure shows no held value: when the value Team injected, or
    a listed encoding of it of at least four characters, shares nothing with the
    marker's own text, no text of the admitted failure contains it, in any ASCII
    case, whatever the Assistant answered.  Shorter encodings are not held and may
    remain. *)
Theorem failure_shows_no_secret `{L : !RegexLaws} (envelope : Value) (secrets : list string) (f : Failure.Failure)
  (secret needle text : string) :
  admit_failure envelope secrets = inr f -> In secret secrets -> secret <> ""%string ->
  In needle (needles_of secret) -> marker_free needle = true ->
  In text (failure_texts f) -> has_sub needle (lower text) = false.
Proof.
  unfold admit_failure. destruct (failure_error envelope); [done|]. destruct (get envelope "failure"); [|done].
  intros H Hs Hne Hn Hm Ht. apply (inj inr) in H. subst f. eapply sanitize_clean; [done| |exact Ht]. by eapply redactor_holds.
Qed.

(** Sanitizing keeps every bound and says what it did: the texts fit their
    limits, and a failure that carries neither flag is exactly what it was. *)
Theorem sanitize_honest (needles : list string) (f : Failure.Failure) :
  let g := sanitize needles f in
  slen (Failure.error_type g) <= MAX_ERROR_TYPE /\ slen (Failure.message g) <= MAX_TEXT_BYTES
  /\ (forall e, Failure.response_excerpt g = Some e -> slen e <= MAX_TEXT_BYTES)
  /\ (Failure.redacted g = false -> Failure.truncated g = false -> g = f).
Proof.
  unfold sanitize.
  pose proof (redacted_text_bound needles (Failure.error_type f) MAX_ERROR_TYPE ltac:(done)) as [B1 E1].
  pose proof (redacted_text_bound needles (Failure.message f) MAX_TEXT_BYTES ltac:(done)) as [B2 E2].
  destruct (redacted_text needles (Failure.error_type f) MAX_ERROR_TYPE) as [[ty b1] c1].
  destruct (redacted_text needles (Failure.message f) MAX_TEXT_BYTES) as [[msg b2] c2].
  destruct f as [fty fmsg fp fh fe fr ft]. cbn [Failure.error_type Failure.message Failure.response_excerpt Failure.provider] in *.
  assert (forall e, let '(x, b, c) := redacted_text needles e MAX_TEXT_BYTES in
            slen x <= MAX_TEXT_BYTES /\ (b = false -> c = false -> x = e)) as He.
  { intros e. pose proof (redacted_text_bound needles e MAX_TEXT_BYTES ltac:(done)) as H.
    by destruct (redacted_text needles e MAX_TEXT_BYTES) as [[x b] c]. }
  set (changed := match fp with Some _ => _ | None => false end). clearbody changed. cbn [fst snd] in *.
  destruct fe as [e|]; [specialize (He e); destruct (redacted_text needles e MAX_TEXT_BYTES) as [[x b3] c3]|];
    cbn [Failure.error_type Failure.message Failure.response_excerpt Failure.redacted Failure.truncated];
    (split_and!; [done|done|naive_solver|]); intros Hr Ht; cbn [Failure.redacted Failure.truncated Failure.http_status] in *;
    rewrite !orb_false_iff in *; destruct_and!; simplify_eq;
    rewrite E1, E2 by done; f_equal; naive_solver.
Qed.
End Failures.

(** ** A failure that echoes its token *)
Definition plain_base64 : Base64 := fun s => s.
(** An engine whose patterns match nothing. *)
Definition silent_regexes : Regexes := fun _ text _ => Some text.
Lemma silent_splices pattern text replace out : try_replacen (Regexes := silent_regexes) pattern text replace = Some out ->
  spliced (fun _ _ => False) replace text out.
Proof. unfold try_replacen, silent_regexes. intros [= <-]. induction text; by constructor. Qed.
Definition silent_laws : RegexLaws (X := silent_regexes) :=
  Build_RegexLaws silent_regexes (fun _ _ _ => False) silent_splices (fun _ _ H => match H with end) (fun _ _ H => match H with end).

Definition sample_envelope : Value :=
  VObject [("type", VString "failure");
           ("failure", VObject [("error_type", VString "HttpError"); ("message", VString "denied for TOKEN-7f3a9c: retry token-7");
                                ("provider", VString "api.example.com"); ("http_status", int 401);
                                ("response_excerpt", VNull); ("redacted", VBool false); ("truncated", VBool false)])]%string.
Definition sample_failure : Failure.Failure :=
  Failure.mk "HttpError" "denied for [REDACTED]: retry [REDACTED]" (Some "api.example.com"%string) (Some 401) None true false.

Lemma failure_shows_no_secret_witness :
  admit_failure (B := plain_base64) (X := silent_regexes) sample_envelope ["token-7f3a9c"%string] = inr sample_failure
  /\ has_sub "token-7f3a9c" (lower (Failure.message sample_failure)) = false.
Proof.
  split; [vm_compute; reflexivity|].
  apply (failure_shows_no_secret (B := plain_base64) (L := silent_laws) sample_envelope ["token-7f3a9c"%string] sample_failure "token-7f3a9c" "token-7f3a9c"
           (Failure.message sample_failure)); [vm_compute; reflexivity|by left|done|vm_compute; by left|vm_compute; reflexivity|vm_compute; auto].
Defined.
