(* ===== verification/Executor.v ===== *)
(** * Actions and their failures

    The data of the Action crate: Actions as a binding declares them
    ([assistant/src/spec.rs]), requests, scopes, outcomes, failures and faults
    ([action/src/executor.rs]). *)

From stdpp Require Import base tactics list strings pretty.
From Stdlib Require Import ZArith Lia Ascii.
From S2P Require Import Prelude Text Json Causes Calendar Platform Requests Human Redaction.

#[local] Open Scope Z_scope.

(** ** Actions ([assistant/src/spec.rs]) *)
Module ActionSpec.
Record ActionSpec : Type := mk {
  id : string;
  summary : string;
  input_schema : Value;
  output_schema : Value;
  integrations : list string;
  stored_inputs : list string;
  human_requests : list string;
  input_files : list string;
  effect : string;
  verifier : option Value;
  idempotency : option Value
}.
End ActionSpec.

Inductive Direction : Type := Input | Output.
(** [action_schema::PayloadError]. *)
Inductive PayloadError : Type := NotAnObject | TooDeep | Invalid | Pattern (code : string) | Arithmetic | Unsupported.
(** [action_schema::validate_payload]: the schema and the payload. *)
Class Schemas : Type := validate_payload : Value -> Value -> option PayloadError.
(** [ActionSpec::validate]. *)
Definition validate_action {S : Schemas} (a : ActionSpec.ActionSpec) (d : Direction) (payload : Value) : option PayloadError :=
  validate_payload match d with Input => ActionSpec.input_schema a | Output => ActionSpec.output_schema a end payload.

(** ** Requests *)
Module ActionFile.
Record ActionFile : Type := mk { id : string; name : string; media_type : string; size : Z; sha256 : string }.
End ActionFile.

Module ActionRequest.
Record ActionRequest : Type := mk {
  interrupt_id : string;
  assistant_id : string;
  action : string;
  input : Value;
  files : list ActionFile.ActionFile
}.
End ActionRequest.

Module BatchScope.
Record BatchScope : Type := mk {
  team_id : string;
  generation : string;
  thread_id : string;
  routine : bool;
  transcripts : list ActionTranscript.ActionTranscript
}.
End BatchScope.

Inductive InvokeOutcome : Type :=
| OutcomeCompleted (result : Value)
| OutcomeHumanRequest (request : Value).

(** ** Failures *)
Module ActionFailure.
Inductive ActionFailure : Type :=
| NotDeclared | InvalidInput | ContextChanged | Blocked | HumanRequestRequired | Stopped | Uncertain | Failed
| StateUnavailable | DockerUnavailable | IntegrationUnavailable | FileUnavailable | FileBusy.
End ActionFailure.

Module ActionError.
Record ActionError : Type := mk { failure : ActionFailure.ActionFailure; cause : option Cause.Cause }.
End ActionError.
(** [ActionError::new]. *)
Definition error_new (f : ActionFailure.ActionFailure) (c : Cause.Cause) : ActionError.ActionError :=
  ActionError.mk f (Some c).
(** [ActionError::at]. *)
Definition implied_condition (f : ActionFailure.ActionFailure) : option Condition.Condition :=
  match f with
  | ActionFailure.NotDeclared => Some Condition.ActionNotDeclared
  | ActionFailure.InvalidInput => Some Condition.InputInvalid
  | ActionFailure.ContextChanged => Some Condition.ContextChanged
  | ActionFailure.Blocked => Some Condition.WorkloadBlocked
  | ActionFailure.HumanRequestRequired => Some Condition.HumanRequestRequired
  | ActionFailure.Stopped => Some Condition.Stopped
  | ActionFailure.StateUnavailable => Some Condition.JournalUnavailable
  | ActionFailure.DockerUnavailable => Some Condition.DockerUnavailable
  | ActionFailure.IntegrationUnavailable => Some Condition.IntegrationUnavailable
  | ActionFailure.FileUnavailable => Some Condition.FileUnavailable
  | ActionFailure.FileBusy => Some Condition.FileBusy
  | ActionFailure.Uncertain | ActionFailure.Failed => None
  end.
Definition error_at (f : ActionFailure.ActionFailure) (p : Phase.Phase) : ActionError.ActionError :=
  match implied_condition f with
  | Some condition => error_new f (cause_new condition p)
  | None => ActionError.mk f None
  end.

Definition journal_cleanup (c : Cause.Cause) : Cause.Cause :=
  match Cause.cleanup c with
  | Some Cleanup.WorkloadStopUnconfirmed => c
  | _ => with_cleanup c Cleanup.JournalUnavailable
  end.

(** [core/src/audit.rs]: why a record was not written. *)
Inductive AuditUnavailable : Type := AuditRefused | AuditUnwritten | AuditClosed.
Definition audit_condition (reason : AuditUnavailable) : Condition.Condition :=
  match reason with
  | AuditRefused => Condition.RecordRefused
  | AuditUnwritten => Condition.WriteFailed
  | AuditClosed => Condition.JournalClosed
  end.

(** Team's classification of a failed dispatched attempt. *)
Inductive Fault : Type :=
| FaultHandled (f : Failure.Failure)
| FaultTransport (condition : string)
| FaultUnquiesced
| FaultPolicy (condition : option string)
| FaultOther.
