(* ===== verification/ActionFiles.v ===== *)
(** * Files of Actions

    [action/src/files/mod.rs]: the one file a turn selected for an Action, what
    is disclosed of it, and the delivery of its bytes behind the Action's own
    authorization. *)

From stdpp Require Import base tactics list strings pretty.
From Stdlib Require Import ZArith Lia Ascii.
From S2P Require Import Prelude Text Json Reader Utf8 ReaderSafety Floats RoundTrip Causes Calendar Platform Requests Human Transcripts Redaction Executor.

#[local] Open Scope Z_scope.

(** A stored file as Team storage returns it. *)
Module Stored.
Record Stored : Type := mk { size : Z; sha256 : string; data : string }.
End Stored.

(** [metadata]. *)
Definition file_metadata_members (f : ActionFile.ActionFile) : list (string * Value) :=
  [("id", VString (ActionFile.id f)); ("name", VString (ActionFile.name f));
   ("media_type", VString (ActionFile.media_type f)); ("size", int (ActionFile.size f));
   ("sha256", VString (ActionFile.sha256 f))]%string.
Definition file_metadata (f : ActionFile.ActionFile) : Value := VObject (file_metadata_members f).
Definition deliverable (f : ActionFile.ActionFile) : bool :=
  (1 <=? ActionFile.size f) && (ActionFile.size f <=? MAX_FILE_BYTES) && valid_name (ActionFile.name f)
  && (slen (ActionFile.media_type f) <=? MAX_MEDIA_TYPE) && media_type (ActionFile.media_type f).

(** [selected]: the files of a turn's attachments. *)
Definition selected (attachments : list Value) : list ActionFile.ActionFile :=
  omap (fun item =>
          id ← text_of (get item "id");
          name ← text_of (get item "name");
          media_type ← text_of (get item "media_type");
          size ← (v ← get item "size"; small_int v);
          sha256 ← text_of (get item "sha256");
          Some (ActionFile.mk id name media_type size sha256)) attachments.

(** [FileUnavailable] is [inl tt]. *)
Definition action_file (input_files : list string) (input : Value) (selected : list ActionFile.ActionFile)
  : unit + option ActionFile.ActionFile :=
  match input_files with
  | [] => inr None
  | name :: _ =>
      match (id ← text_of (get input name); List.find (fun f => ActionFile.id f =s id) selected) with
      | Some file => if deliverable file then inr (Some file) else inl tt
      | None => inl tt
      end
  end.

Definition disclosure (input_files : list string) (input : Value) (selected : list ActionFile.ActionFile) (kind : string)
  : unit + option Value :=
  if negb (authorizes kind) then inr None
  else match action_file input_files input selected with
       | inl e => inl e
       | inr file => inr (option_map file_metadata file)
       end.
Definition commitments (file : option ActionFile.ActionFile) : Value :=
  VArray (option_list (option_map file_metadata file)).
Definition grants_file (file : option ActionFile.ActionFile) (action : ActionSpec.ActionSpec)
  (transcript : ActionTranscript.ActionTranscript) : bool :=
  is_some file && transcript_authorized transcript (ActionSpec.human_requests action).

Section Delivery.
  Context {PF : Platform} {B : Base64}.

Definition invocation_files (file : option ActionFile.ActionFile) (granted : option Stored.Stored) : unit + Value :=
  match file with
  | None => inr (VObject [])
  | Some file =>
      let record content :=
        inr (VObject [(ActionFile.id file,
               VObject (List.filter (fun kv => negb (fst kv =s "id")) (file_metadata_members file)
                        ++ [("content"%string, VObject content)]))]) in
      match granted with
      | None => record [("type", VString "withheld")]%string
      | Some stored =>
          if (Stored.sha256 stored =s ActionFile.sha256 file) && (Stored.size stored =? ActionFile.size file)
             && (slen (Stored.data stored) =? ActionFile.size file)
             && (sha256_hex (Stored.data stored) =s ActionFile.sha256 file)
          then record [("type", VString "delivered"); ("base64", VString (base64_standard (Stored.data stored)))]%string
          else inl tt
      end
  end.

Definition names_value (values : list string) : Value := VArray (map VString values).
Definition file_declaration (action : ActionSpec.ActionSpec) : list (string * Value) :=
  [("input_files", names_value (ActionSpec.input_files action)); ("input_schema", ActionSpec.input_schema action);
   ("human_requests", names_value (ActionSpec.human_requests action))]%string.
Definition deliver (action : ActionSpec.ActionSpec) (file : option ActionFile.ActionFile)
  (transcript : ActionTranscript.ActionTranscript) (input : Value) (granted : option Stored.Stored) : unit + Value :=
  if negb (is_some file) && bool_decide (ActionSpec.input_files action = []) then inr (VObject [])
  else
    match invocation_files file granted with
    | inl e => inl e
    | inr files =>
        let invocation := VObject [("input", input); ("files", files); ("responses", VArray (payloads transcript))]%string in
        match invocation_files_error (VObject (file_declaration action)) invocation with
        | None => inr files
        | Some _ => inl tt
        end
    end.

(** [delivered]: the id and size of the file whose bytes travel. *)
Definition file_delivered (files : Value) : option (string * Z) :=
  ms ← object_members files;
  List.hd_error (omap (fun kv =>
    content ← get (snd kv) "content";
    size ← (v ← get (snd kv) "size"; small_int v);
    if is_text (get content "type") "delivered" then Some (fst kv, size) else None) ms).
End Delivery.

(** ** Bytes travel exactly with the authorization *)
Lemma kind_authorizes_text k : kind_authorizes (VString k) = authorizes k.
Proof. done. Qed.

Lemma filter_kinds kinds : List.filter kind_authorizes (map VString kinds) = map VString (List.filter authorizes kinds).
Proof. by rewrite filter_of_map. Qed.

Lemma action_authorized_transcript action t :
  action_authorized (file_declaration action) (payloads t) = transcript_authorized t (ActionSpec.human_requests action).
Proof.
  unfold action_authorized, transcript_authorized. change (array_of (member_of (file_declaration action) "human_requests"))
    with (Some (map VString (ActionSpec.human_requests action))). cbn [from_option id]. unfold id. rewrite filter_kinds.
  destruct (List.filter authorizes (ActionSpec.human_requests action)) as [|k [|k' l]]; [done| |done]. cbn [map].
  unfold payloads. induction (ActionTranscript.responses t) as [|r rs IH]; [done|]. cbn [map existsb]. rewrite IH. f_equal.
Qed.

Section Delivered.
  Context {PF : Platform} {B : Base64}.

(** The text of the delivered content of a file, as the invocation carries it. *)
Definition delivered_text (files : Value) (id : string) : option string :=
  record ← get files id; content ← get record "content"; text_of (get content "base64").

Definition file_record (f : ActionFile.ActionFile) (content : list (string * Value)) : list (string * Value) :=
  [("name", VString (ActionFile.name f)); ("media_type", VString (ActionFile.media_type f));
   ("size", int (ActionFile.size f)); ("sha256", VString (ActionFile.sha256 f)); ("content", VObject content)]%string.

Lemma invocation_files_inr f granted files : invocation_files (Some f) granted = inr files ->
  exists content, files = VObject [(ActionFile.id f, VObject (file_record f content))]
  /\ ((content = [("type", VString "withheld")]%string)
      \/ exists data, content = [("type", VString "delivered"); ("base64", VString data)]%string).
Proof.
  unfold invocation_files. destruct granted as [stored|]; [destruct (_ && _); [|done]|]; intros H; apply (inj inr) in H; subst files; eauto.
Qed.

Lemma deliver_checked action f t input granted files : deliver action (Some f) t input granted = inr files ->
  exists content, files = VObject [(ActionFile.id f, VObject (file_record f content))]
  /\ ((content = [("type", VString "withheld")]%string)
      \/ exists data, content = [("type", VString "delivered"); ("base64", VString data)]%string)
  /\ content_error (file_record f content) (transcript_authorized t (ActionSpec.human_requests action)) = None.
Proof.
  unfold deliver. cbn [is_some negb andb]. destruct (invocation_files (Some f) granted) as [|files0] eqn:Hf; [done|].
  apply invocation_files_inr in Hf as (content & -> & Hc). destruct (invocation_files_error _ _) eqn:He; [done|].
  intros H. apply (inj inr) in H. subst files. exists content. split; [done|split; [done|]].
  unfold invocation_files_error in He. cbn [object_members] in He. destruct (is_some _); [done|].
  destruct (responses_error _ _); [done|]. destruct (files_shape_error _); [done|]. destruct (negb _); [done|].
  revert He. rewrite <- action_authorized_transcript.
  change (records_error (default [] (object_of (get _ "files")))) with
    (records_error [(ActionFile.id f, VObject (file_record f content))]).
  cbn [records_error]. change (default [] (object_members (VObject (file_record f content)))) with (file_record f content).
  by destruct (content_error _ _).
Qed.

(** C13. A file's bytes travel exactly when the transcript holds the Action's own
    declared authorization: without it the invocation carries the metadata
    alone, with it the content decodes to bytes of the size and digest the turn
    selected. *)
Theorem bytes_travel_authorized (action : ActionSpec.ActionSpec) (f : ActionFile.ActionFile)
  (t : ActionTranscript.ActionTranscript) (input : Value) (granted : option Stored.Stored) (files : Value) :
  deliver action (Some f) t input granted = inr files ->
  if transcript_authorized t (ActionSpec.human_requests action)
  then file_delivered files = Some (ActionFile.id f, ActionFile.size f)
       /\ exists text data, delivered_text files (ActionFile.id f) = Some text /\ decode_content text = Some data
          /\ slen data = ActionFile.size f /\ sha256_hex data = ActionFile.sha256 f
  else file_delivered files = None /\ delivered_text files (ActionFile.id f) = None.
Proof.
  intros (content & -> & Hc & He)%deliver_checked. unfold delivered_text. cbn [get].
  assert (forall v, lookup_member [(ActionFile.id f, v)] (ActionFile.id f) = Some v) as ->.
  { intros v. unfold lookup_member. cbn [List.find fst]. by rewrite seqb_refl. }
  destruct Hc as [->|[text ->]]; unfold content_error in He.
  - change (py_eq (default VNull (member_of (file_record f _) "content")) withheld_content) with true in He. cbv iota in He.
    by destruct (transcript_authorized _ _).
  - change (py_eq (default VNull (member_of (file_record f _) "content")) withheld_content) with false in He. cbv iota in He.
    destruct (transcript_authorized _ _); cbn [negb] in He; [|done]. split; [done|]. exists text.
    change (text_of (get (default VNull (member_of (file_record f _) "content")) "base64")) with (Some text) in He.
    change (member_of (file_record f _) "size" ≫= _) with (Some (ActionFile.size f)) in He.
    change (text_of (member_of (file_record f _) "sha256")) with (Some (ActionFile.sha256 f)) in He.
    cbn [mbind option_bind] in He. destruct (decode_content text) as [data|]; [|done]. exists data.
    destruct (bool_decide (Some (slen data) = _)) eqn:E1; cbn [andb] in He; [|done].
    destruct (bool_decide (Some (sha256_hex data) = _)) eqn:E2; [|done].
    apply bool_decide_eq_true in E1, E2. by simplify_eq.
Qed.
End Delivered.

(** ** A delivery *)

(** The standard alphabet, padded. *)
Definition sextet_char (n : Z) : ascii :=
  byte_of (if n <? 26 then 0x41 + n else if n <? 52 then 0x61 + (n - 26) else if n <? 62 then 0x30 + (n - 52)
           else if n =? 62 then 0x2b else 0x2f).
Fixpoint encode_groups (bytes : list ascii) : string :=
  match bytes with
  | a :: b :: c :: rest =>
      let n := byte_code a * 65536 + byte_code b * 256 + byte_code c in
      String (sextet_char (n / 262144)) (String (sextet_char (n / 4096 mod 64)) (String (sextet_char (n / 64 mod 64))
        (String (sextet_char (n mod 64)) (encode_groups rest))))
  | [a; b] =>
      let n := byte_code a * 65536 + byte_code b * 256 in
      String (sextet_char (n / 262144)) (String (sextet_char (n / 4096 mod 64)) (String (sextet_char (n / 64 mod 64)) "="))
  | [a] => let n := byte_code a * 65536 in String (sextet_char (n / 262144)) (String (sextet_char (n / 4096 mod 64)) "==")
  | [] => EmptyString
  end.
Definition standard_base64 : Base64 := fun s => encode_groups (String.list_ascii_of_string s).

Definition sample_file_action : ActionSpec.ActionSpec :=
  ActionSpec.mk "send" "Send"
    (VObject [("properties", VObject [("file", file_id_schema)]); ("required", VArray [VString "file"])]%string)
    VNull [] [] ["approval"%string] ["file"%string] "mutating" None None.
Definition sample_digest : string := Eval vm_compute in sha256_hex (PF := utc_platform) "hello".
Definition sample_file : ActionFile.ActionFile :=
  ActionFile.mk "0123456789abcdef0123456789abcdef" "a.txt" "text/plain" 5 sample_digest.
Definition sample_consent : ActionTranscript.ActionTranscript :=
  ActionTranscript.mk "i" [HumanResponse.mk "approval" 0 sample_digest (VBool true)].
Definition sample_input : Value := VObject [("file", VString "0123456789abcdef0123456789abcdef")]%string.
Definition sample_stored : Stored.Stored := Stored.mk 5 sample_digest "hello".
Definition sample_files : Value :=
  Eval vm_compute in match deliver (PF := utc_platform) (B := standard_base64) sample_file_action (Some sample_file)
                             sample_consent sample_input (Some sample_stored) with inr v => v | inl _ => VNull end.

Lemma bytes_travel_authorized_witness :
  file_delivered sample_files = Some ("0123456789abcdef0123456789abcdef"%string, 5)
  /\ deliver (PF := utc_platform) (B := standard_base64) sample_file_action (Some sample_file) sample_consent sample_input None = inl tt.
Proof.
  split; [|vm_compute; reflexivity].
  apply (bytes_travel_authorized (PF := utc_platform) (B := standard_base64) sample_file_action sample_file sample_consent sample_input
           (Some sample_stored) sample_files). vm_compute. reflexivity.
Defined.
