(* ===== verification/Wire.v ===== *)
(** * Canonical Routine wire forms

    The Routine part of Team's HTTP protocol: identifiers
    ([protocol/http/rust/src/identifiers.rs]), schedules, names and bounds
    ([routine/mod.rs]), projected steps and summaries ([routine/plan.rs]),
    outputs ([routine/output.rs]), progress events ([progress.rs]) and the closed
    detail of each notice ([routine_notice.rs]). *)

From stdpp Require Import base tactics list strings pretty.
From Stdlib Require Import ZArith Lia Ascii.
From S2P Require Import Prelude Text Json Calendar Platform.

#[local] Open Scope Z_scope.

(** ** Identifiers *)
Definition bounded (v : Value) (re : string -> bool) (maximum : Z) : option string :=
  match v with
  | VString s => if (text_len s <=? maximum) && re s then Some s else None
  | _ => None
  end.
Definition canonical_team_id (v : Value) : option string :=
  match v with VString s => if TEAM_ID_RE s then Some s else None | _ => None end.
Definition canonical_assistant_id (v : Value) : option string := bounded v IDENTIFIER_RE 40.
Definition canonical_identifier (v : Value) : option string := bounded v IDENTIFIER_RE 64.
Definition canonical_action_id (v : Value) : option string := bounded v ACTION_ID_RE 128.
Definition valid_assistant (v : Value) : bool := bool_decide (is_Some (canonical_assistant_id v)).
Definition valid_action (v : Value) : bool := bool_decide (is_Some (canonical_action_id v)).

(** ** Bounds *)
Definition MAX_ROUTINES : Z := 8.
Definition MAX_ROUTINE_NAME_CHARS : Z := 80.
Definition MAX_ROUTINE_DESCRIPTION_CHARS : Z := 600.
Definition MAX_ROUTINE_STEPS : Z := 256.
Definition MIN_CONTINUOUS_GAP_SECONDS : Z := 5.
Definition MAX_CONTINUOUS_GAP_SECONDS : Z := 366 * 86400.
Definition DAY_SECONDS : Z := 86400.
Definition MAX_CONTINUOUS_CAP : Z :=
  Z.quot (DAY_SECONDS + MIN_CONTINUOUS_GAP_SECONDS - 1) MIN_CONTINUOUS_GAP_SECONDS.
Definition MAX_ROLLUP_RUNS : Z := 60.
Definition MAX_ROUTINE_ASSISTANTS : Z := 16.
Definition MAX_PERMITTED : Z := MAX_ROUTINE_STEPS.
Definition MAX_FAILURE_STREAK : Z := 3.
Definition MAX_UNRESOLVED_INCIDENTS : Z := 32.
Definition OUTCOMES : list string :=
  ["changed"; "created"; "deleted"; "denied"; "done"; "failed"; "frozen"; "healthy"; "held";
   "paused"; "recovered"; "scope-changed"; "skipped"; "stopped"; "streak-paused"; "user-skipped"]%string.
Definition PAUSE_REASONS : list string := ["exhausted"; "policy"; "evidence"]%string.
Definition REQUEST_KINDS : list string := ["human"; "integrations"]%string.
Definition SCHEDULE_KINDS : list string := ["continuous"; "daily"; "monthly"; "weekly"]%string.
Definition TIMEZONE_SOURCES : list string := ["browser"; "person"; "none"]%string.
Definition CONVENTIONAL_TIMEZONE : string := "UTC".
Definition OUTPUT_MODES : list string := ["show"; "changes"; "none"]%string.
Definition SHOWN_MODES : list string := ["changes"; "show"]%string.
Definition OUTPUT_STATES : list string := ["shown"; "unchanged"; "unavailable"]%string.

(** ** Schedules *)
Definition schedule_fields (kind : string) : list string :=
  if kind =s "daily" then ["kind"; "time"]%string
  else if kind =s "weekly" then ["kind"; "weekday"; "time"]%string
  else if kind =s "monthly" then ["kind"; "day"; "time"]%string
  else ["kind"; "gap"]%string.

Definition canonical_schedule (v : Value) : option Value :=
  match get v "kind" ≫= as_str with
  | Some kind =>
      if contains SCHEDULE_KINDS kind then
        match exact_object v (schedule_fields kind) with
        | Some ms =>
            let valid :=
              if kind =s "continuous"
              then whole (field ms "gap") MIN_CONTINUOUS_GAP_SECONDS MAX_CONTINUOUS_GAP_SECONDS
              else full_value TIME_RE (field ms "time")
                   && (negb (kind =s "weekly") || whole (field ms "weekday") 0 6)
                   && (negb (kind =s "monthly") || whole (field ms "day") 1 28) in
            if valid then Some v else None
        | None => None
        end
      else None
  | None => None
  end.

(** [ceil(86400 / gap)] starts in any rolling 24 hours. *)
Definition continuous_cap (gap : Z) : Z := Z.quot (DAY_SECONDS - 1) gap + 1.

Definition daily_cap (schedule : Value) : Z :=
  match get schedule "gap" ≫= small_int with
  | Some gap => if is_str (at_ schedule "kind") "continuous" then continuous_cap gap else 1
  | None => 1
  end.

(** ** Names, zones, positions, revisions *)
Definition WHITESPACE : list Z :=
  [0x9; 0xa; 0xb; 0xc; 0xd; 0x1c; 0x1d; 0x1e; 0x1f; 0x20; 0x85; 0xa0; 0x1680; 0x2000; 0x2001;
   0x2002; 0x2003; 0x2004; 0x2005; 0x2006; 0x2007; 0x2008; 0x2009; 0x200a; 0x2028; 0x2029;
   0x202f; 0x205f; 0x3000].
Definition isspace (c : Z) : bool := existsb (Z.eqb c) WHITESPACE.
(** [text::strip(line) == line]: neither end is whitespace. *)
Definition trimmed (cs : list Z) : bool :=
  match head cs, last cs with
  | Some a, Some b => negb (isspace a) && negb (isspace b)
  | _, _ => true
  end.

Section Lines.
  Context {PF : Platform} {VO : Vocabulary}.

Definition forbidden_category (c : Z) : bool :=
  let cat := category c in
  match strip_prefix "C" cat with Some _ => true | None => (cat =s "Zl") || (cat =s "Zp") end.
Definition line (v : Value) (maximum : Z) : option string :=
  match as_str v with
  | Some s =>
      if (1 <=? text_len s) && (text_len s <=? maximum) && is_nfc s && trimmed (chars s)
         && negb (existsb forbidden_category (chars s))
      then Some s else None
  | None => None
  end.
Definition canonical_name (v : Value) : option string := line v MAX_ROUTINE_NAME_CHARS.
Definition canonical_description (v : Value) : option string := line v MAX_ROUTINE_DESCRIPTION_CHARS.
Definition exact_name (v : Value) : bool := bool_decide (is_Some (canonical_name v)).
Definition exact_description (v : Value) : bool := bool_decide (is_Some (canonical_description v)).
End Lines.

Definition canonical_timezone (v : Value) : option string :=
  match as_str v with Some s => if TIMEZONE_RE s then Some s else None | None => None end.

Definition zoned (timezone source : Value) : bool :=
  match as_str source with
  | Some src =>
      contains TIMEZONE_SOURCES src
      && match canonical_timezone timezone with
         | Some zone => negb (src =s "none") || (zone =s CONVENTIONAL_TIMEZONE)
         | None => false
         end
  | None => false
  end.

Definition position (v : Value) (maximum : Z) : bool := whole v 1 maximum.
Definition canonical_position (v steps : Value) : option Value :=
  match small_int steps with
  | Some n => if (0 <=? n) && (n <=? MAX_ROUTINE_STEPS) && position v n then Some v else None
  | None => None
  end.
Definition valid_revision (v : Value) : bool := whole v 1 (2 ^ 31 - 1).

(** ** Escaped previews *)
Definition plan_unsafe (c : Z) : bool :=
  ((0 <=? c) && (c <=? 0x1f)) || ((0x7f <=? c) && (c <=? 0x9f))
  || ((0x200b <=? c) && (c <=? 0x200f)) || ((0x2028 <=? c) && (c <=? 0x202e))
  || ((0x2060 <=? c) && (c <=? 0x206f)) || ((0xd800 <=? c) && (c <=? 0xdfff)) || (c =? 0xfeff).
Definition push_escaped (c : Z) : string := if plan_unsafe c then push_escape c else utf8 c.
Definition escaped (s : string) : string := String.concat "" (map push_escaped (chars s)).
Definition MAX_PREVIEW_CHARS : Z := 120.
Definition MAX_MEMBER_CHARS : Z := 128.
Definition MAX_POINTER_CHARS : Z := 256.
Definition preview (s : string) : string :=
  let e := escaped s in
  if text_len e <=? MAX_PREVIEW_CHARS then e
  else String.concat "" (map utf8 (take (Z.to_nat (MAX_PREVIEW_CHARS - 1)) (chars e))) +:+ utf8 0x2026.
Definition literal_preview (v : Value) : string := preview (canonical v).
Definition plain (v : Value) (maximum : Z) : bool :=
  match as_str v with
  | Some s => (1 <=? text_len s) && (text_len s <=? maximum) && negb (existsb plan_unsafe (chars s))
  | None => false
  end.
Definition wire_pointer (v : Value) : bool :=
  match as_str v with
  | Some s => (text_len s <=? MAX_POINTER_CHARS) && POINTER_RE s && negb (existsb plan_unsafe (chars s))
  | None => false
  end.

(** ** Selectors *)
Definition MAX_WHERE_CHARS : Z := 4096.

(** The JSON text of a decoded string, escaped as [where_text] escapes it. *)
Definition where_char (c : Z) : string :=
  if (c <? 0x20) || (c =? 0x22) || (c =? 0x5c) then write_char false c else push_escaped c.
Definition where_string (points : list Z) : string :=
  quote +:+ String.concat "" (map where_char points) +:+ quote.
Definition where_text (constant : Value) : option string :=
  match constant with
  | VString s => Some (where_string (chars s))
  | VNumber (NInt _ | NBigInt _) => Some (canonical constant)
  | _ => None
  end.

Inductive Scalar : Type :=
| ScalarString (points : list Z)
| ScalarInteger.

Definition hex_value (c : Z) : option Z :=
  if (0x30 <=? c) && (c <=? 0x39) then Some (c - 0x30)
  else if (0x61 <=? c) && (c <=? 0x66) then Some (c - 0x57)
  else if (0x41 <=? c) && (c <=? 0x46) then Some (c - 0x37)
  else None.
Definition hex4 (l : list Z) : option (Z * list Z) :=
  match l with
  | a :: b :: c :: d :: rest =>
      match hex_value a, hex_value b, hex_value c, hex_value d with
      | Some a, Some b, Some c, Some d => Some (a * 4096 + b * 256 + c * 16 + d, rest)
      | _, _, _, _ => None
      end
  | _ => None
  end.
Definition simple_escape (c : Z) : option Z :=
  if c =? 0x22 then Some 0x22 else if c =? 0x5c then Some 0x5c
  else if c =? 0x62 then Some 0x08 else if c =? 0x66 then Some 0x0c
  else if c =? 0x6e then Some 0x0a else if c =? 0x72 then Some 0x0d
  else if c =? 0x74 then Some 0x09 else None.

(** One escape after its backslash: its code point and what follows, [None]
    where the selector cannot be admitted. *)
Definition json_escape (l : list Z) : option (Z * list Z) :=
  match l with
  | [] => None
  | c :: rest =>
      match simple_escape c with
      | Some p => Some (p, rest)
      | None =>
          if c =? 0x75 then
            match hex4 rest with
            | Some (high, after) =>
                match after with
                | 0x5c :: 0x75 :: low_digits =>
                    if (0xd800 <=? high) && (high <=? 0xdbff) then
                      match hex4 low_digits with
                      | Some (low, _) =>
                          if (0xdc00 <=? low) && (low <=? 0xdfff) then None else Some (high, after)
                      | None => None
                      end
                    else Some (high, after)
                | _ => Some (high, after)
                end
            | None => None
            end
          else None
      end
  end.

(** The loop of [json_scalar], one character or escape each time; the text's
    length bounds it. *)
Fixpoint json_points (fuel : nat) (l : list Z) (points : list Z) : option (list Z) :=
  match fuel, l with
  | O, _ | _, [] => None
  | S fuel', c :: rest =>
      if c =? 0x22 then match rest with [] => Some (rev points) | _ => None end
      else if c =? 0x5c then
        match json_escape rest with
        | Some (p, rest') => json_points fuel' rest' (p :: points)
        | None => None
        end
      else json_points fuel' rest (c :: points)
  end.

Definition json_scalar (s : string) : option Scalar :=
  let digits := default s (strip_prefix "-" s) in
  if negb (is_empty digits) && all_bytes is_digit digits then
    if (digits =s "0") || negb (match digits with String a _ => one_of "0" a | _ => false end)
    then Some ScalarInteger else None
  else
    match chars s with
    | 0x22 :: rest => option_map ScalarString (json_points (length rest) rest [])
    | _ => None
    end.

Definition wire_selector (v : Value) : bool :=
  match exact_object v ["member"; "value_json"]%string with
  | Some ms =>
      let t := field ms "value_json" in
      plain (field ms "member") MAX_MEMBER_CHARS && plain t MAX_WHERE_CHARS
      && match json_scalar (str_or_empty t) with
         | Some (ScalarString points) => where_string points =s str_or_empty t
         | Some ScalarInteger => negb (str_or_empty t =s "-0")
         | None => false
         end
  | None => false
  end.

(** ** Projected steps *)
Definition MAX_STEP_INPUTS : Z := 64.
Definition MAX_STEP_STORED_INPUTS : Z := 8.
Definition MAX_STEP_VIEW_BYTES : Z := 24 * 1024.
Definition MAX_PAGE_STEPS : Z := 64.
Definition MAX_PAGE_BYTES : Z := 96 * 1024.
Definition MAX_SUMMARY_RUNS : Z := 16.

Definition wire_reference (ms : list (string * Value)) (at_pos : Z) : bool :=
  let selected := negb (is_null (field ms "where")) in
  position (field ms "step") (at_pos - 1) && wire_pointer (field ms "pointer")
  && (if selected then wire_selector (field ms "where") && wire_pointer (field ms "item")
      else is_null (field ms "item")).

Definition wire_input (v : Value) (at_pos : Z) : bool :=
  let source := get v "source" ≫= as_str in
  let fields :=
    match source with
    | Some s =>
        if (s =s "literal") || (s =s "run_clock") then Some ["member"; "source"; "value"]%string
        else if s =s "step_output"
             then Some ["member"; "source"; "step"; "pointer"; "where"; "item"]%string
        else None
    | None => None
    end in
  match fields with
  | None => false
  | Some fields =>
      match exact_object v fields with
      | None => false
      | Some ms =>
          plain (field ms "member") MAX_MEMBER_CHARS
          && (if is_str (at_ v "source") "step_output" then wire_reference ms at_pos
              else plain (field ms "value") MAX_PREVIEW_CHARS)
      end
  end.

(** [string(a) < string(b)] on options: [None] is least. *)
Definition ostr_ltb (a b : option string) : bool :=
  match a, b with
  | None, Some _ => true
  | Some x, Some y => sltb x y
  | _, _ => false
  end.

Definition wire_members (items : Value) (admits : Value -> bool) : bool :=
  match array items with
  | Some l =>
      (len l <=? MAX_STEP_INPUTS) && forallb admits l
      && windows2 (fun a b => ostr_ltb (as_str (at_ a "member")) (as_str (at_ b "member"))) l
  | None => false
  end.

Definition canonical_step (v : Value) (at_pos : Z) : option Value :=
  match exact_object v ["position"; "assistant"; "action"; "read_only"; "inputs"; "stored_inputs"]%string with
  | None => None
  | Some ms =>
      let valid :=
        (1 <=? at_pos) && (at_pos <=? MAX_ROUTINE_STEPS)
        && match small_int (field ms "position") with Some p => p =? at_pos | None => false end
        && valid_assistant (field ms "assistant") && valid_action (field ms "action")
        && is_bool (field ms "read_only")
        && wire_members (field ms "inputs") (fun item => wire_input item at_pos)
        && match array (field ms "stored_inputs") with
           | Some stored =>
               (len stored <=? MAX_STEP_STORED_INPUTS)
               && forallb (fun name => bool_decide (is_Some (canonical_identifier name))) stored
               && windows2 (fun a b => sltb (str_or_empty a) (str_or_empty b)) stored
           | None => false
           end
        && (encoded_bytes v <=? MAX_STEP_VIEW_BYTES) in
      if valid then Some v else None
  end.

(** ** Plan summaries *)
Definition summary_run (run : Value) : option (Value * Value * Z) :=
  match array run with
  | Some [assistant; action; count] =>
      if valid_assistant assistant && valid_action action && position count MAX_ROUTINE_STEPS
      then match small_int count with Some n => Some (assistant, action, n) | None => None end
      else None
  | _ => None
  end.

Definition canonical_summary (v : Value) : option Value :=
  match exact_object v ["revision"; "plan_digest"; "steps"; "actions"; "more"]%string with
  | None => None
  | Some ms =>
      match array (field ms "actions") with
      | None => None
      | Some runs =>
          let total := field ms "steps" in
          let valid :=
            valid_revision (field ms "revision")
            && full_value PLAN_DIGEST_RE (field ms "plan_digest")
            && whole total 1 MAX_ROUTINE_STEPS
            && (1 <=? len runs) && (len runs <=? MAX_SUMMARY_RUNS)
            && match mapM summary_run runs with
               | Some parsed =>
                   windows2 (fun a b => negb (py_eq a.1.1 b.1.1 && py_eq a.1.2 b.1.2)) parsed
                   && match small_int (field ms "more") with
                      | Some more =>
                          (0 <=? more) && ((more =? 0) || (len runs =? MAX_SUMMARY_RUNS))
                          && match small_int total with
                             | Some t => t =? zsum (map snd parsed) + more
                             | None => false
                             end
                      | None => false
                      end
               | None => false
               end in
          if valid then Some v else None
      end
  end.

(** ** Outputs *)
Definition MAX_OUTPUT_DEPTH : nat := 4.
Definition MAX_OUTPUT_ITEMS : Z := 50.
Definition MAX_OUTPUT_FIELDS : Z := 24.
Definition MAX_OUTPUT_TEXT_CHARS : Z := 300.
Definition MAX_OUTPUT_KEY_CHARS : Z := 64.
Definition MAX_OUTPUT_NUMBER_CHARS : Z := 64.
Definition MAX_OUTPUT_BYTES : Z := 16 * 1024.

(** A number node's exact JSON text: [-? int frac? exp?]. *)
Fixpoint span_digits (s : string) : nat * string :=
  match s with
  | String a s' => if is_digit a then let (n, r) := span_digits s' in (S n, r) else (O, s)
  | EmptyString => (O, EmptyString)
  end.
Definition exponent_part (s : string) : bool :=
  match s with
  | EmptyString => true
  | String a s' =>
      one_of "eE" a &&
      let signed := match s' with String b s2 => if one_of "+-" b then s2 else s' | _ => s' end in
      let (n, r) := span_digits signed in negb (Nat.eqb n 0) && is_empty r
  end.
Definition fraction_part (s : string) : bool :=
  match s with
  | String a s' =>
      if one_of "." a
      then let (n, r) := span_digits s' in negb (Nat.eqb n 0) && exponent_part r
      else exponent_part s
  | EmptyString => true
  end.
Definition OUTPUT_NUMBER_RE (s : string) : bool :=
  let body := default s (strip_prefix "-" s) in
  match body with
  | String a s' =>
      if one_of "0" a then fraction_part s'
      else is_digit a && let (_, r) := span_digits s' in fraction_part r
  | EmptyString => false
  end.

Definition count_node (v : option Value) : bool :=
  match v with Some n => whole n 0 (2 ^ 31 - 1) | None => false end.
Definition plain_text (v : option Value) (maximum : Z) : bool :=
  match v ≫= as_str with
  | Some s => (text_len s <=? maximum) && negb (existsb plan_unsafe (chars s))
  | None => false
  end.

Definition scalar_node (ms : list (string * Value)) (kind : option string) : bool :=
  let item := lookup_member ms "value" in
  match kind with
  | Some k =>
      if (k =s "null") || (k =s "redacted") || (k =s "elided") then has_exactly ms ["kind"]%string
      else if k =s "bool" then
        has_exactly ms ["kind"; "value"]%string && match item with Some v => is_bool v | None => false end
      else if k =s "number" then
        has_exactly ms ["kind"; "value"]%string
        && match item ≫= as_str with
           | Some n => (text_len n <=? MAX_OUTPUT_NUMBER_CHARS) && OUTPUT_NUMBER_RE n
           | None => false
           end
      else if k =s "text" then
        has_exactly ms ["kind"; "value"; "cut"]%string && is_bool (field ms "cut")
        && plain_text item MAX_OUTPUT_TEXT_CHARS
      else false
  | None => false
  end.

Definition key_of (entry : Value) : option Value := array entry ≫= head.
Definition okey_eqb (a b : option Value) : bool :=
  match a, b with
  | None, None => true
  | Some x, Some y => value_eqb x y
  | _, _ => false
  end.
Fixpoint distinct_keys (before : list Value) (l : list Value) : bool :=
  match l with
  | [] => true
  | e :: l' => negb (existsb (fun o => okey_eqb (key_of o) (key_of e)) before) && distinct_keys (before ++ [e]) l'
  end.

(** Containers nest at most [MAX_OUTPUT_DEPTH] deep: [room] counts the levels left. *)
Fixpoint output_node (room : nat) (v : Value) : bool :=
  match object_members v with
  | None => false
  | Some ms =>
      let kind := get v "kind" ≫= as_str in
      let container := match kind with Some k => (k =s "list") || (k =s "fields") | None => false end in
      if negb container then scalar_node ms kind
      else
        match room with
        | O => false
        | S room' =>
            count_node (get v "omitted")
            && if is_str (at_ v "kind") "list" then
                 has_exactly ms ["kind"; "items"; "omitted"]%string
                 && match array (field ms "items") with
                    | Some items => (len items <=? MAX_OUTPUT_ITEMS) && forallb (output_node room') items
                    | None => false
                    end
               else
                 has_exactly ms ["kind"; "fields"; "omitted"]%string
                 && match array (field ms "fields") with
                    | Some fields =>
                        (len fields <=? MAX_OUTPUT_FIELDS)
                        && forallb (fun entry => match array entry with
                                                 | Some [k; node] => plain k MAX_OUTPUT_KEY_CHARS && output_node room' node
                                                 | _ => false
                                                 end) fields
                        && distinct_keys [] fields
                    | None => false
                    end
        end
  end.

Definition canonical_output (v : Value) : option Value :=
  match exact_object v ["step"; "state"; "value"; "truncated"]%string with
  | None => None
  | Some ms =>
      let state := match as_str (field ms "state") with
                   | Some s => if contains OUTPUT_STATES s then Some s else None
                   | None => None
                   end in
      let valid :=
        position (field ms "step") MAX_ROUTINE_STEPS && is_bool (field ms "truncated")
        && match state with
           | Some s => if s =s "shown" then output_node MAX_OUTPUT_DEPTH (field ms "value")
                       else is_null (field ms "value") && value_eqb (field ms "truncated") (VBool false)
           | None => false
           end
        && (encoded_bytes v <=? MAX_OUTPUT_BYTES) in
      if valid then Some v else None
  end.

(** ** Progress events *)
Definition PHASES : list string :=
  ["action"; "action-delivery"; "action-preparation"; "browser"; "model"; "team-context"]%string.
Definition STATES : list string := ["finished"; "started"]%string.
Definition MAX_EVENTS : Z := 2048.
Definition MAX_ACTION_COUNT : Z := 512.
Definition MAX_ELAPSED_MS : Z := 24 * 60 * 60 * 1000.
Definition progress_error : string := "progress-contract".

Definition progress_integer (v : Value) (minimum maximum : Z) : result Value :=
  match small_int v with
  | Some z => if (minimum <=? z) && (z <=? maximum) then Ok v else Err progress_error
  | None => Err progress_error
  end.
Definition progress_identifier (s : option string) : result Value :=
  match s with Some t => Ok (VString t) | None => Err progress_error end.

(** The members of an Action occurrence. *)
Definition push_action (ms event : list (string * Value)) : result (list (string * Value)) :=
  total ← progress_integer (field ms "total") 1 MAX_ACTION_COUNT;
  assistant ← progress_identifier (canonical_assistant_id (field ms "assistant_id"));
  index ← progress_integer (field ms "index") 1 (default 1 (small_int total));
  action ← progress_identifier (canonical_action_id (field ms "action"));
  Ok (event ++ [("assistant_id"%string, assistant); ("index"%string, index);
                ("action"%string, action); ("total"%string, total)]).

Definition canonical_members (ms : list (string * Value)) : result (list (string * Value)) :=
  let pick key options :=
    match lookup_member ms key ≫= as_str with
    | Some s => if contains options s then Some s else None
    | None => None
    end in
  match pick "phase"%string PHASES, pick "state"%string STATES with
  | Some phase, Some state =>
      let finished := state =s "finished" in
      let action := phase =s "action" in
      let expected :=
        (["seq"; "phase"; "state"]%string
           ++ (if finished then ["elapsed_ms"]%string else [])
           ++ (if action then ["assistant_id"; "index"; "action"; "total"]%string else [])) in
      if negb (has_exactly ms expected) then Err progress_error
      else
        seq ← progress_integer (field ms "seq") 1 MAX_EVENTS;
        let event := [("seq"%string, seq); ("phase"%string, VString phase); ("state"%string, VString state)] in
        event ← (if finished
                 then elapsed ← progress_integer (field ms "elapsed_ms") 0 MAX_ELAPSED_MS;
                      Ok (event ++ [("elapsed_ms"%string, elapsed)])
                 else Ok event);
        if action then push_action ms event else Ok event
  | _, _ => Err progress_error
  end.

Definition canonical_event (v : Value) : result Value :=
  match object_members v with
  | Some ms => VObject <$> canonical_members ms
  | None => Err progress_error
  end.

(** ** The closed detail of each notice *)
Definition MAX_CREATION_STEPS : Z := 64.

Definition positive (v : Value) : bool :=
  match natural_digits v with Some d => negb (d =s "0") | None => false end.

Definition completed_detail (ms : list (string * Value)) : bool :=
  let output := field ms "output" in
  match canonical_summary (field ms "plan") with
  | Some summary =>
      is_null output
      || (bool_decide (is_Some (canonical_output output)) && py_eq (at_ output "step") (at_ summary "steps"))
  | None => false
  end.

Definition creation_step (step : Value) (pos : Z) : bool :=
  match canonical_event step with
  | Ok event => is_str (at_ event "state") "finished" && py_eq (at_ event "seq") (int pos)
  | Err _ => false
  end.
Fixpoint creation_steps (steps : list Value) (pos : Z) : bool :=
  match steps with
  | [] => true
  | s :: rest => creation_step s pos && creation_steps rest (pos + 1)
  end.
Definition creation (ms : list (string * Value)) : bool :=
  match array (field ms "steps") with
  | Some steps => (len steps <=? MAX_CREATION_STEPS) && creation_steps steps 1
  | None => false
  end.

Definition detail_rule (outcome : string) : list string * (list (string * Value) -> bool) :=
  if (outcome =s "done") || (outcome =s "recovered") then (["plan"; "output"]%string, completed_detail)
  else if outcome =s "paused" then (["reason"]%string, fun ms => among (field ms "reason") PAUSE_REASONS)
  else if outcome =s "skipped" then (["missed"]%string, fun ms => positive (field ms "missed"))
  else if outcome =s "healthy" then (["runs"]%string, fun ms => whole (field ms "runs") 1 MAX_ROLLUP_RUNS)
  else if outcome =s "frozen" then
    (["request_kind"]%string, fun ms => among (field ms "request_kind") REQUEST_KINDS)
  else if outcome =s "failed" then (["code"]%string, fun ms => full_value ERROR_CODE_RE (field ms "code"))
  else if outcome =s "created" then (["steps"]%string, creation)
  else if outcome =s "streak-paused" then
    (["failures"]%string, fun ms => whole (field ms "failures") 1 MAX_FAILURE_STREAK)
  else ([], fun _ => true).

Definition canonical_notice_detail (outcome detail : Value) : option Value :=
  match as_str outcome with
  | Some o =>
      if contains OUTCOMES o then
        let '(fields, valid) := detail_rule o in
        match exact_object detail fields with
        | Some ms => if valid ms then Some detail else None
        | None => None
        end
      else None
  | None => None
  end.

(** An admitted detail is the detail itself. *)
Lemma canonical_notice_detail_id outcome detail d :
  canonical_notice_detail outcome detail = Some d -> d = detail.
Proof.
  unfold canonical_notice_detail. intros H. destruct (as_str outcome) as [o|]; [|done].
  destruct (contains OUTCOMES o); [|done]. destruct (detail_rule o) as [fs valid].
  destruct (exact_object detail fs) as [ms|]; [|done]. destruct (valid ms); congruence.
Qed.

Example details :
  canonical_notice_detail (text "skipped") (object [("missed"%string, int 3)])
    = Some (object [("missed"%string, int 3)])
  /\ canonical_notice_detail (text "skipped") (object [("missed"%string, int 0)]) = None
  /\ canonical_notice_detail (text "deleted") (object []) = Some (object [])
  /\ canonical_notice_detail (text "vanished") (object []) = None.
Proof. vm_compute. auto. Qed.

(** ** Schedules: what a canonical one is *)
Lemma canonical_schedule_id v s : canonical_schedule v = Some s -> s = v.
Proof.
  unfold canonical_schedule. intros H. repeat case_match; by simplify_eq.
Qed.

Lemma continuous_cap_bound gap :
  MIN_CONTINUOUS_GAP_SECONDS <= gap <= MAX_CONTINUOUS_GAP_SECONDS ->
  1 <= continuous_cap gap <= MAX_CONTINUOUS_CAP.
Proof.
  unfold continuous_cap, MIN_CONTINUOUS_GAP_SECONDS, MAX_CONTINUOUS_GAP_SECONDS, DAY_SECONDS.
  intros H. change MAX_CONTINUOUS_CAP with 17280. rewrite Z.quot_div_nonneg by lia.
  pose proof (Z.div_pos (86400 - 1) gap ltac:(lia) ltac:(lia)).
  pose proof (Z.div_le_compat_l (86400 - 1) 5 gap ltac:(lia) ltac:(lia)).
  change ((86400 - 1) / 5) with 17279 in *. lia.
Qed.

(** What a canonical schedule holds: a continuous one a gap in its bounds and
    nothing else, any other a wall-clock time and no gap. *)
Definition schedule_shape (v : Value) : Prop :=
  (exists gap, get v "gap" = Some (int gap) /\ is_str (at_ v "kind") "continuous" = true
     /\ MIN_CONTINUOUS_GAP_SECONDS <= gap <= MAX_CONTINUOUS_GAP_SECONDS)
  \/ (exists time, get v "gap" = None /\ is_str (at_ v "kind") "continuous" = false
        /\ get v "time" = Some (VString time) /\ TIME_RE time = true
        /\ (is_str (at_ v "kind") "weekly" = true ->
             exists w, get v "weekday" = Some (int w) /\ 0 <= w <= 6)
        /\ (is_str (at_ v "kind") "monthly" = true ->
             exists d, get v "day" = Some (int d) /\ 1 <= d <= 28)).

Lemma whole_field ms key low high : whole (field ms key) low high = true ->
  exists z, lookup_member ms key = Some (int z) /\ low <= z <= high.
Proof.
  unfold whole, field. destruct (lookup_member ms key) as [[]|]; cbn; try done.
  destruct n; try done. intros [? ?]%andb_true_iff. exists z. split; [done|lia].
Qed.

Lemma full_field ms re key : full_value re (field ms key) = true ->
  exists s, lookup_member ms key = Some (VString s) /\ re s = true.
Proof.
  unfold full_value, field. destruct (lookup_member ms key) as [[]|]; cbn; try done. eauto.
Qed.

Lemma schedule_fields_gap kind : contains SCHEDULE_KINDS kind = true ->
  In "gap"%string (schedule_fields kind) -> kind = "continuous"%string.
Proof.
  intros Hk%contains_In. unfold SCHEDULE_KINDS in Hk. cbn in Hk.
  destruct_or! Hk; subst kind; vm_compute; intuition discriminate.
Qed.

Lemma canonical_schedule_shape v s : canonical_schedule v = Some s -> schedule_shape v.
Proof.
  unfold canonical_schedule. destruct (get v "kind" ≫= as_str) as [kind|] eqn:Hk; [|done].
  destruct (contains SCHEDULE_KINDS kind) eqn:Hkinds; [|done].
  destruct (exact_object v (schedule_fields kind)) as [ms|] eqn:Hx; [|done].
  apply exact_object_Some in Hx as [-> Hx].
  assert (Hkind : forall t, is_str (at_ (VObject ms) "kind") t = (kind =s t)).
  { intros t. unfold at_. apply bind_Some in Hk as (kv & -> & Hkv).
    cbn. unfold is_str. by rewrite Hkv. }
  unfold schedule_shape. rewrite !Hkind, !get_object.
  destruct (seqb_spec kind "continuous") as [->|Hne].
  - intros H. left. destruct (whole _ _ _) eqn:Hw; [|done].
    apply whole_field in Hw as (gap & -> & ?). eauto.
  - intros H. right. destruct (full_value _ _ && _ && _) eqn:Hv; [|done].
    apply andb_true_iff in Hv as [[Hv Hweek]%andb_true_iff Hmonth].
    apply full_field in Hv as (time & Ht & Hre). exists time.
    assert (lookup_member ms "gap" = None) as ->.
    { destruct (lookup_member ms "gap") eqn:Hg; [|done]. exfalso. apply Hne.
      apply schedule_fields_gap; [done|]. by eapply has_exactly_member. }
    split_and!; try done.
    + intros Hw. rewrite Hw in Hweek. by apply whole_field.
    + intros Hm. rewrite Hm in Hmonth. by apply whole_field.
Qed.
