(* ===== verification/Instants.v ===== *)
(** * Instants in text

    [protocol/http/rust/src/python/datetime.rs]: Python's [fromisoformat], byte by
    byte as the C implementation reads its buffer; the instants of notices
    ([routine_notice.rs]) and the record times Team stamps
    ([storage/src/private.rs]).  What Team stamps is read back as the instant it
    was stamped for. *)

From stdpp Require Import base tactics list strings pretty.
From Stdlib Require Import ZArith Lia Ascii.
From S2P Require Import Prelude Text Json Calendar.

#[local] Open Scope Z_scope.

Definition MIN_YEAR : Z := 1.
Definition DAY_MICROSECONDS : Z := 86400000000.

Module DateTime.
Record DateTime : Type := mk {
  year : Z; month : Z; day : Z; hour : Z; minute : Z; second : Z; microsecond : Z;
  (** [utcoffset()] in microseconds; none for a naive one. *)
  offset : option Z
}.
End DateTime.

(** ** The buffer: the bytes, then NUL forever *)
Definition buffer_at (s : string) (index : nat) : Z :=
  match String.get index s with Some a => byte_code a | None => 0 end.
Definition ascii_digit (byte : Z) : bool := (48 <=? byte) && (byte <=? 57).
(** [Buffer::digits]: [count] digits from [index], accumulated onto [value]. *)
Fixpoint digits (s : string) (index count : nat) (value : Z) : option (nat * Z) :=
  match count with
  | O => Some (index, value)
  | S count =>
      let byte := buffer_at s index in
      if ascii_digit byte then digits s (S index) count (value * 10 + (byte - 48)) else None
  end.

(** ** Dates *)
Definition week_day (year month day : Z) : Z := Z.rem (ymd_to_ord year month day + 6) 7.
Definition iso_to_ymd (year week day : Z) : option (Z * Z * Z) :=
  if negb ((MIN_YEAR <=? year) && (year <=? MAX_YEAR)) then None
  else
    let first := week_day year 1 1 in
    if ((week <=? 0) || (53 <=? week)) && negb ((week =? 53) && ((first =? 3) || ((first =? 2) && is_leap year))) then None
    else if negb ((1 <=? day) && (day <=? 7)) then None
    else
      let first_day := ymd_to_ord year 1 1 in
      let first_weekday := Z.rem (first_day + 6) 7 in
      let week1_monday := first_day - first_weekday in
      let week1_monday := if 3 <? first_weekday then week1_monday + 7 else week1_monday in
      Some (ord_to_ymd (week1_monday + (week - 1) * 7 + day - 1)).

(** [while buffer.at(index).is_ascii_digit() { index += 1 }]; a digit lies within
    the text, so its length is fuel enough. *)
Fixpoint skip_digits (fuel : nat) (s : string) (index : nat) : nat :=
  match fuel with
  | O => index
  | S fuel => if ascii_digit (buffer_at s index) then skip_digits fuel s (S index) else index
  end.
(** [separator]: where the date of a text of at least 7 bytes ends. *)
Definition separator (s : string) (length : nat) : option nat :=
  if Nat.eqb length 7 then Some 7%nat
  else if buffer_at s 4 =? 45 then
    if negb (buffer_at s 5 =? 87) then Some 10%nat
    else if buffer_at s 8 =? 45 then
      if Nat.eqb length 9 then None
      else Some (if ascii_digit (buffer_at s 10) then 8%nat else 10%nat)
    else Some 8%nat
  else if negb (buffer_at s 4 =? 87) then Some 8%nat
  else
    let index := skip_digits (String.length s) s 7 in
    if (index <? 9)%nat then Some index else if Nat.even index then Some 7%nat else Some 8%nat.

Definition parse_date (s : string) (length : nat) : option (Z * Z * Z) :=
  '(position, year) ← digits s 0 4 0;
  let separated := buffer_at s position =? 45 in
  let position := if separated then S position else position in
  if buffer_at s position =? 87 then
    '(position, week) ← digits s (S position) 2 0;
    if (position <? length)%nat then
      '(_, day) ← digits s (if separated then S position else position) 1 0;
      iso_to_ymd year week day
    else iso_to_ymd year week 1
  else
    '(position, month) ← digits s position 2 0;
    if separated then
      if buffer_at s position =? 45 then '(_, day) ← digits s (S position) 2 0; Some (year, month, day) else None
    else '(_, day) ← digits s position 2 0; Some (year, month, day).

(** ** Times *)
Module Clock.
Record Clock : Type := mk { fields : list Z; trailing : bool }.
End Clock.
(** The loop of [parse_clock] over the hour, minute and second: it returns, or goes
    on to the fraction from a position. *)
Fixpoint clock_fields (turns index : nat) (s : string) (position end_ : nat) (separated : bool) (fields : list Z)
  : option Clock.Clock + nat * list Z :=
  match turns with
  | O => inr (position, fields)
  | S turns =>
      match digits s position 2 0 with
      | None => inl None
      | Some (position, value) =>
          let fields := <[index := value]> fields in
          let character := buffer_at s position in
          let position := S position in
          let separated := if Nat.eqb index 0 then character =? 58 else separated in
          if (end_ <=? position)%nat then inl (Some (Clock.mk fields (negb (character =? 0))))
          else if separated && (character =? 58) then
            if Nat.eqb index 2 then inl None else clock_fields turns (S index) s position end_ separated fields
          else if (character =? 46) || (character =? 44) then
            if (index <? 2)%nat then inl None else inr (position, fields)
          else if separated then inl None
          else clock_fields turns (S index) s (position - 1)%nat end_ separated fields
      end
  end.
Definition SCALES : list Z := [1; 100000; 10000; 1000; 100; 10].
Definition parse_clock (s : string) (start end_ : nat) : option Clock.Clock :=
  match clock_fields 3 0 s start end_ true [0; 0; 0; 0] with
  | inl answer => answer
  | inr (position, fields) =>
      let count := Nat.min (end_ - position) 6 in
      '(position, value) ← digits s position count 0;
      let value := if (count <? 6)%nat then value * List.nth count SCALES 1 else value in
      let position := skip_digits (String.length s) s position in
      Some (Clock.mk (<[3%nat := value]> fields) (negb (buffer_at s position =? 0)))
  end.
(** [(start..end).find(...).unwrap_or(end)]. *)
Fixpoint find_zone (turns : nat) (s : string) (index : nat) : nat :=
  match turns with
  | O => index
  | S turns =>
      let byte := buffer_at s index in
      if (byte =? 90) || (byte =? 43) || (byte =? 45) then index else find_zone turns s (S index)
  end.
Definition parse_time (s : string) (start end_ : nat) : option (list Z * option (Z * Z)) :=
  let zone := find_zone (end_ - start) s start in
  clock ← parse_clock s start zone;
  if Nat.eqb zone end_ then if Clock.trailing clock then None else Some (Clock.fields clock, None)
  else if buffer_at s zone =? 90 then
    if buffer_at s (S zone) =? 0 then Some (Clock.fields clock, Some (0, 0)) else None
  else
    let sign := if buffer_at s zone =? 45 then -1 else 1 in
    offset ← parse_clock s (S zone) end_;
    if Clock.trailing offset then None
    else match Clock.fields offset with
         | [hours; minutes; seconds; microseconds] =>
             Some (Clock.fields clock, Some (sign * (hours * 3600 + minutes * 60 + seconds), sign * microseconds))
         | _ => None
         end.

(** [parse]: the date and time parts, before any range check. *)
Definition width_of (byte : Z) : nat :=
  if Z.land byte 0x80 =? 0 then 1%nat
  else if Z.land byte 0xf0 =? 0xe0 then 3%nat
  else if Z.land byte 0xf0 =? 0xf0 then 4%nat
  else 2%nat.
Definition parse_parts (s : string) : option ((Z * Z * Z) * (list Z * option (Z * Z))) :=
  let length := String.length s in
  if text_len s <? 7 then None
  else
    split ← separator s length;
    date ← parse_date s split;
    if (length <=? split)%nat then Some (date, ([0; 0; 0; 0], None))
    else time ← parse_time s (split + width_of (buffer_at s split)) length; Some (date, time).

(** Hour 24 of a valid day is midnight of the next day. *)
Definition next_midnight (year month day hour minute second microsecond : Z) : option (Z * Z * Z * Z) :=
  if negb (hour =? 24) || (12 <? month) || (days_in_month year month <? day) then Some (year, month, day, hour)
  else if negb (minute =? 0) || negb (second =? 0) || negb (microsecond =? 0) then None
  else if day <? days_in_month year month then Some (year, month, day + 1, 0)
  else if month <? 12 then Some (year, month + 1, 1, 0)
  else Some (year + 1, 1, 1, 0).

Definition offset_of (zone : Z * Z) : Z :=
  let '(seconds, microseconds) := zone in if seconds =? 0 then 0 else seconds * 1000000 + microseconds.
Definition fromisoformat (s : string) : option DateTime.DateTime :=
  '(date, time) ← parse_parts s;
  let '(year, month, day) := date in
  let '(clock, zone) := time in
  let offset := option_map offset_of zone in
  if match offset with
     | Some o => (o <=? - DAY_MICROSECONDS) || (DAY_MICROSECONDS <=? o)
     | None => false
     end then None
  else match clock with
       | [hour; minute; second; microsecond] =>
           '(year, month, day, hour) ← next_midnight year month day hour minute second microsecond;
           if (MIN_YEAR <=? year) && (year <=? MAX_YEAR) && (1 <=? month) && (month <=? 12)
              && (1 <=? day) && (day <=? days_in_month year month) && (0 <=? hour) && (hour <=? 23)
              && (0 <=? minute) && (minute <=? 59) && (0 <=? second) && (second <=? 59)
              && (0 <=? microsecond) && (microsecond <=? 999999)
           then Some (DateTime.mk year month day hour minute second microsecond offset)
           else None
       | _ => None
       end.

Example iso_reads :
  fromisoformat "2026-10-15T24:00:00Z" = Some (DateTime.mk 2026 10 16 0 0 0 0 (Some 0))
  /\ fromisoformat "2026W421" = Some (DateTime.mk 2026 10 12 0 0 0 0 None)
  /\ fromisoformat "2026-W42-4 0930.5" = None
  /\ fromisoformat "20261015T093015,25-03:30" = Some (DateTime.mk 2026 10 15 9 30 15 250000 (Some (-12600000000)))
  /\ fromisoformat "2026-02-29" = None
  /\ fromisoformat "2026-10-15T09:30:15+24:00" = None.
Proof. vm_compute. auto 10. Qed.

(** ** Instants *)

(** [[0-9]{4}-[0-9]{2}-[0-9]{2}T[0-9]{2}:[0-9]{2}:[0-9]{2}Z], which [is_timestamp]
    spells out. *)
Definition stamp_byte (index : nat) (a : ascii) : bool :=
  match index with
  | 4%nat | 7%nat => one_of "-" a
  | 10%nat => one_of "T" a
  | 13%nat | 16%nat => one_of ":" a
  | 19%nat => one_of "Z" a
  | _ => is_digit a
  end.
Fixpoint stamp_bytes (index : nat) (s : string) : bool :=
  match s with EmptyString => true | String a s => stamp_byte index a && stamp_bytes (S index) s end.
Definition is_timestamp (s : string) : bool := Nat.eqb (String.length s) 20 && stamp_bytes 0 s.
Definition INSTANT_RE (s : string) : bool := is_timestamp s.
Definition instant (v : Value) : bool :=
  match as_str v with Some s => INSTANT_RE s && is_some (fromisoformat s) | None => false end.

(** [{:0width}]: the sign counts in the width. *)
Definition signed_padded (width : nat) (z : Z) : string :=
  if z <? 0 then "-" +:+ zero_padded (width - 1) (- z) else zero_padded width z.
Definition instant_text (epoch : Z) : string :=
  let days := epoch / 86400 in
  let seconds := epoch mod 86400 in
  let ordinal := ymd_to_ord 1970 1 1 + days in
  let '(year, month, day) := ord_to_ymd (if (- 2 ^ 31 <=? ordinal) && (ordinal <? 2 ^ 31) then ordinal else 2 ^ 31 - 1) in
  signed_padded 4 year +:+ "-" +:+ signed_padded 2 month +:+ "-" +:+ signed_padded 2 day +:+ "T"
  +:+ signed_padded 2 (seconds / 3600) +:+ ":" +:+ signed_padded 2 (seconds mod 3600 / 60) +:+ ":"
  +:+ signed_padded 2 (seconds mod 60) +:+ "Z".

Example instants :
  instant_text 1760520615 = "2025-10-15T09:30:15Z"%string
  /\ instant (VString "1970-01-01T00:00:00Z") = true
  /\ instant (VString "1970-02-30T00:00:00Z") = false.
Proof. vm_compute. auto. Qed.

(** ** What is stamped is read back *)
Definition digit (d : Z) : ascii := byte_of (48 + d).

Lemma padded_two n : 0 <= n < 100 -> signed_padded 2 n = String (digit (n / 10)) (String (digit (n mod 10)) "").
Proof.
  intros Hn. assert (forallb (fun k => String.eqb (signed_padded 2 (Z.of_nat k))
    (String (digit (Z.of_nat k / 10)) (String (digit (Z.of_nat k mod 10)) ""))) (seq 0 100) = true) as H by by vm_compute.
  eapply forallb_forall with (x := Z.to_nat n) in H; [|apply in_seq; lia]. rewrite Z2Nat.id in H by lia. by apply String.eqb_eq in H.
Qed.
Lemma digit_char d : 0 <= d <= 9 -> pretty_N_char (Z.to_N d) = digit d.
Proof.
  intros Hd. assert (forallb (fun k => Ascii.eqb (pretty_N_char (Z.to_N (Z.of_nat k))) (digit (Z.of_nat k))) (seq 0 10) = true) as H by by vm_compute.
  eapply forallb_forall with (x := Z.to_nat d) in H; [|apply in_seq; lia]. rewrite Z2Nat.id in H by lia. by apply Ascii.eqb_eq in H.
Qed.
Lemma pretty_step n t : 0 < n -> pretty_N_go (Z.to_N n) t = pretty_N_go (Z.to_N (n / 10)) (String (digit (n mod 10)) t).
Proof.
  intros Hn. rewrite pretty_N_go_step by lia. rewrite <- digit_char by (pose proof (Z.mod_pos_bound n 10); lia).
  f_equal; [by rewrite Z2N.inj_div by lia|]. by rewrite Z2N.inj_mod by lia.
Qed.
Lemma pretty_last t : pretty_N_go (Z.to_N 0) t = t.
Proof. apply pretty_N_go_0. Qed.
Lemma padded_four n : 0 <= n < 10000 -> signed_padded 4 n
  = String (digit (n / 1000)) (String (digit (n / 100 mod 10)) (String (digit (n / 10 mod 10)) (String (digit (n mod 10)) ""))).
Proof.
  intros Hn. unfold signed_padded. destruct (Z.ltb_spec n 0); [lia|]. destruct (Z.eq_dec n 0) as [->|Hz]; [reflexivity|].
  unfold zero_padded. assert (pretty n = pretty_N_go (Z.to_N n) "") as ->.
  { destruct n as [|p|p]; [lia|reflexivity|lia]. }
  replace (n / 1000) with (n / 10 / 10 / 10) by (rewrite !Z.div_div by lia; done).
  replace (n / 100) with (n / 10 / 10) by (rewrite !Z.div_div by lia; done).
  pose proof (Z.div_mod n 10). pose proof (Z.div_mod (n / 10) 10). pose proof (Z.div_mod (n / 10 / 10) 10).
  pose proof (Z.mod_pos_bound n 10). pose proof (Z.mod_pos_bound (n / 10) 10). pose proof (Z.mod_pos_bound (n / 10 / 10) 10).
  rewrite pretty_step by lia. set (a := n / 10) in *.
  destruct (Z.eq_dec a 0) as [->|Ha]; [by rewrite pretty_last|].
  rewrite pretty_step by lia. set (b := a / 10) in *.
  destruct (Z.eq_dec b 0) as [->|Hb]; [by rewrite pretty_last|].
  rewrite pretty_step by lia. set (c := b / 10) in *.
  destruct (Z.eq_dec c 0) as [->|Hc]; [by rewrite pretty_last|].
  rewrite pretty_step by lia. rewrite (Z.div_small c 10), (Z.mod_small c 10) by lia. by rewrite pretty_last.
Qed.

Lemma digit_code d : 0 <= d <= 9 -> byte_code (digit d) = 48 + d.
Proof.
  intros Hd. assert (forallb (fun k => byte_code (digit (Z.of_nat k)) =? 48 + Z.of_nat k) (seq 0 10) = true) as H by by vm_compute.
  eapply forallb_forall with (x := Z.to_nat d) in H; [|apply in_seq; lia]. rewrite Z2Nat.id in H by lia. by apply Z.eqb_eq in H.
Qed.
Lemma digit_is_digit d : 0 <= d <= 9 -> is_digit (digit d) = true.
Proof. intros Hd. unfold is_digit, between. rewrite digit_code by done. apply andb_true_iff. split; apply Z.leb_le; lia. Qed.
Lemma ascii_digit_code d : 0 <= d <= 9 -> ascii_digit (48 + d) = true.
Proof. intros Hd. apply andb_true_iff. split; apply Z.leb_le; lia. Qed.

Lemma digits_app s i a b v : digits s i (a + b) v = '(j, w) ← digits s i a v; digits s j b w.
Proof. revert i v. induction a as [|a IH]; intros i v; [done|]. cbn [Nat.add digits]. by destruct (ascii_digit _). Qed.

Lemma plain_length s : all_bytes (fun a => byte_code a <? 0x80) s = true -> length (chars s) = String.length s.
Proof.
  induction s as [|a s IH]; [done|]. cbn [all_bytes]. intros [Ha%Z.ltb_lt Hs]%andb_true_iff. cbn [chars String.length].
  rewrite (proj2 (Z.ltb_lt (byte_code a) 0xe0)) by lia. rewrite (proj2 (Z.ltb_lt (byte_code a) 0xc0)) by lia. cbn [length]. by rewrite IH.
Qed.

(** The text of a date and time of day, digit by digit. *)
Definition stamp (y3 y2 y1 y0 m1 m0 d1 d0 h1 h0 n1 n0 s1 s0 : Z) : string :=
  String (digit y3) (String (digit y2) (String (digit y1) (String (digit y0) (String "-" (String (digit m1) (String (digit m0)
  (String "-" (String (digit d1) (String (digit d0) (String "T" (String (digit h1) (String (digit h0) (String ":"
  (String (digit n1) (String (digit n0) (String ":" (String (digit s1) (String (digit s0) (String "Z" ""))))))))))))))))))).

Section Stamp.
  Context (y3 y2 y1 y0 m1 m0 d1 d0 h1 h0 n1 n0 s1 s0 : Z).
  Hypothesis Hdigits : List.Forall (fun d => 0 <= d <= 9) [y3; y2; y1; y0; m1; m0; d1; d0; h1; h0; n1; n0; s1; s0].
  Abbreviation s := (stamp y3 y2 y1 y0 m1 m0 d1 d0 h1 h0 n1 n0 s1 s0).
  (** Where its digits stand. *)
  Abbreviation placed := [(0%nat, y3); (1%nat, y2); (2%nat, y1); (3%nat, y0); (5%nat, m1); (6%nat, m0); (8%nat, d1); (9%nat, d0);
    (11%nat, h1); (12%nat, h0); (14%nat, n1); (15%nat, n0); (17%nat, s1); (18%nat, s0)].

Lemma stamp_at k d : List.nth_error placed k = Some d ->
  buffer_at s (fst d) = 48 + snd d /\ 0 <= snd d <= 9.
Proof.
  rewrite List.Forall_forall in Hdigits.
  do 14 (destruct k as [|k]; [intros [= <-]; cbn [fst snd]; match goal with |- _ /\ 0 <= ?d <= 9 =>
    assert (0 <= d <= 9) by (apply Hdigits; cbn; tauto); split; [exact (digit_code d ltac:(done))|done] end|]).
  by destruct k.
Qed.
Lemma stamp_pair k i a b : List.nth_error placed k = Some (i, a) ->
  List.nth_error placed (S k) = Some (S i, b) ->
  forall v, digits s i 2 v = Some (S (S i), (v * 10 + a) * 10 + b).
Proof.
  intros Ha Hb v. destruct (stamp_at _ _ Ha) as [Ea Ra], (stamp_at _ _ Hb) as [Eb Rb]. cbn [fst snd] in *.
  cbn [digits]. rewrite Ea, ascii_digit_code by done. rewrite Eb, ascii_digit_code by done. do 2 f_equal; lia.
Qed.

Lemma stamp_date : separator s (String.length s) = Some 10%nat
  /\ parse_date s 10 = Some (((y3 * 10 + y2) * 10 + y1) * 10 + y0, m1 * 10 + m0, d1 * 10 + d0).
Proof.
  destruct (stamp_at 4 _ eq_refl) as [E R]. cbn [fst snd] in E, R.
  assert (buffer_at s 5 =? 87 = false) as E5 by (rewrite E; apply Z.eqb_neq; lia).
  split; [unfold separator; rewrite E5; reflexivity|]. unfold parse_date.
  assert (digits s 0 4 0 = Some (4%nat, ((y3 * 10 + y2) * 10 + y1) * 10 + y0)) as ->.
  { change 4%nat with (2 + 2)%nat at 1. rewrite digits_app, (stamp_pair 0 0 y3 y2 eq_refl eq_refl). cbn [mbind option_bind].
    rewrite (stamp_pair 2 2 y1 y0 eq_refl eq_refl). f_equal. }
  cbn [mbind option_bind]. change (buffer_at s 4 =? 45) with true. cbv iota.
  rewrite E5. cbv iota.
  rewrite (stamp_pair 4 5 m1 m0 eq_refl eq_refl). cbn [mbind option_bind]. change (buffer_at s 7 =? 45) with true. cbv iota.
  rewrite (stamp_pair 6 8 d1 d0 eq_refl eq_refl). cbn [mbind option_bind]. do 3 f_equal; lia.
Qed.

Lemma stamp_no_zone k i d : List.nth_error placed k = Some (i, d) ->
  (buffer_at s i =? 90) || (buffer_at s i =? 43) || (buffer_at s i =? 45) = false.
Proof.
  intros Hk. destruct (stamp_at _ _ Hk) as [E R]. cbn [fst snd] in *. rewrite E.
  apply orb_false_iff; split; [apply orb_false_iff; split|]; apply Z.eqb_neq; lia.
Qed.
Lemma stamp_time : parse_time s 11 (String.length s) = Some ([h1 * 10 + h0; n1 * 10 + n0; s1 * 10 + s0; 0], Some (0, 0)).
Proof.
  assert (find_zone (String.length s - 11) s 11 = 19%nat) as Hz.
  { change (String.length s - 11)%nat with 9%nat. cbn [find_zone].
    rewrite (stamp_no_zone 8 11 h1 eq_refl), (stamp_no_zone 9 12 h0 eq_refl), (stamp_no_zone 10 14 n1 eq_refl),
      (stamp_no_zone 11 15 n0 eq_refl), (stamp_no_zone 12 17 s1 eq_refl), (stamp_no_zone 13 18 s0 eq_refl). reflexivity. }
  unfold parse_time. rewrite Hz. unfold parse_clock. cbn [clock_fields].
  rewrite (stamp_pair 8 11 h1 h0 eq_refl eq_refl). change (buffer_at s 13) with 58. cbn [Nat.eqb Nat.leb Z.eqb Pos.eqb andb].
  rewrite (stamp_pair 10 14 n1 n0 eq_refl eq_refl). change (buffer_at s 16) with 58. cbn [Nat.eqb Nat.leb Z.eqb Pos.eqb andb].
  rewrite (stamp_pair 12 17 s1 s0 eq_refl eq_refl). change (buffer_at s 19) with 90.
  cbn [Nat.eqb Nat.leb Z.eqb Pos.eqb andb mbind option_bind negb]. reflexivity.
Qed.
Lemma stamp_plain : text_len s = 20.
Proof.
  unfold text_len, len. rewrite plain_length; [done|]. rewrite List.Forall_forall in Hdigits. cbn [stamp all_bytes].
  rewrite !digit_code by (apply Hdigits; cbn; tauto).
  repeat (apply andb_true_iff; split); [..|reflexivity]; try reflexivity;
    match goal with |- (48 + ?d <? _) = true => assert (0 <= d <= 9) by (apply Hdigits; cbn; tauto); apply Z.ltb_lt; lia end.
Qed.
Lemma stamp_shape : is_timestamp s = true.
Proof.
  unfold is_timestamp. change (Nat.eqb (String.length s) 20) with true. rewrite List.Forall_forall in Hdigits.
  cbn [andb stamp_bytes stamp stamp_byte]. rewrite !digit_is_digit by (apply Hdigits; cbn; tauto). reflexivity.
Qed.
End Stamp.

Lemma two_digits n : 0 <= n < 100 -> 0 <= n / 10 <= 9 /\ 0 <= n mod 10 <= 9 /\ n / 10 * 10 + n mod 10 = n.
Proof. intros Hn. pose proof (Z.div_mod n 10). pose proof (Z.mod_pos_bound n 10). lia. Qed.
Lemma four_digits n : 0 <= n < 10000 ->
  List.Forall (fun d => 0 <= d <= 9) [n / 1000; n / 100 mod 10; n / 10 mod 10; n mod 10]
  /\ ((n / 1000 * 10 + n / 100 mod 10) * 10 + n / 10 mod 10) * 10 + n mod 10 = n.
Proof.
  intros Hn. replace (n / 1000) with (n / 10 / 10 / 10) by (rewrite !Z.div_div by lia; done).
  replace (n / 100) with (n / 10 / 10) by (rewrite !Z.div_div by lia; done).
  pose proof (Z.div_mod n 10). pose proof (Z.div_mod (n / 10) 10). pose proof (Z.div_mod (n / 10 / 10) 10).
  pose proof (Z.mod_pos_bound n 10). pose proof (Z.mod_pos_bound (n / 10) 10). pose proof (Z.mod_pos_bound (n / 10 / 10) 10).
  split; [repeat constructor; lia|lia].
Qed.

(** The seconds of the calendar, from its first midnight to its last second. *)
Definition FIRST_SECOND : Z := (1 - ymd_to_ord 1970 1 1) * 86400.
Definition LAST_SECOND : Z := (last_ordinal - ymd_to_ord 1970 1 1) * 86400 + 86399.

Lemma instant_text_stamp epoch : FIRST_SECOND <= epoch <= LAST_SECOND ->
  exists date, date_valid date /\ ordinal date = ymd_to_ord 1970 1 1 + epoch / 86400
  /\ instant_text epoch = signed_padded 4 (Date.year date) +:+ "-" +:+ signed_padded 2 (Date.month date) +:+ "-"
       +:+ signed_padded 2 (Date.day date) +:+ "T" +:+ signed_padded 2 (epoch mod 86400 / 3600) +:+ ":"
       +:+ signed_padded 2 (epoch mod 86400 mod 3600 / 60) +:+ ":" +:+ signed_padded 2 (epoch mod 86400 mod 60) +:+ "Z".
Proof.
  intros [Hf Hl]. unfold FIRST_SECOND, LAST_SECOND in *. set (o := ymd_to_ord 1970 1 1) in *.
  pose proof (Z.div_mod epoch 86400). pose proof (Z.mod_pos_bound epoch 86400). pose proof last_ordinal_eq as Ho.
  destruct (from_ordinal_is_Some (o + epoch / 86400) ltac:(lia)) as (date & Hd). exists date.
  destruct (from_ordinal_Some _ _ Hd) as [Hv Heq]. split; [done|]. split; [done|].
  unfold instant_text. fold o. unfold from_ordinal in Hd.
  replace ((- 2 ^ 31 <=? o + epoch / 86400) && (o + epoch / 86400 <? 2 ^ 31)) with true
    by (symmetry; apply andb_true_iff; split; [apply Z.leb_le|apply Z.ltb_lt]; lia).
  case_match; [|done]. destruct (ord_to_ymd (o + epoch / 86400)) as [[y m] d]. by injection Hd as <-.
Qed.

(** A record time is read back: the text Team stamps for an instant of the calendar
    has the form of a timestamp, is an instant to the notices, and Python's
    [fromisoformat] reads it as exactly that instant, in UTC. *)
Theorem instant_text_reads epoch : FIRST_SECOND <= epoch <= LAST_SECOND ->
  is_timestamp (instant_text epoch) = true /\ instant (VString (instant_text epoch)) = true
  /\ exists at_, fromisoformat (instant_text epoch) = Some at_ /\ DateTime.offset at_ = Some 0 /\ DateTime.microsecond at_ = 0
     /\ (ymd_to_ord (DateTime.year at_) (DateTime.month at_) (DateTime.day at_) - ymd_to_ord 1970 1 1) * 86400
        + DateTime.hour at_ * 3600 + DateTime.minute at_ * 60 + DateTime.second at_ = epoch.
Proof.
  intros He. destruct (instant_text_stamp epoch He) as ([y m d] & (Hy & Hm & Hd) & Ho & Ht). unfold ordinal in Ho. cbn [Date.year Date.month Date.day] in *.
  pose proof (days_in_month_bound y m). unfold MAX_YEAR in Hy.
  pose proof (Z.div_mod epoch 86400). pose proof (Z.mod_pos_bound epoch 86400). set (t := epoch mod 86400) in *.
  pose proof (Z.div_mod t 3600). pose proof (Z.mod_pos_bound t 3600). set (h := t / 3600) in *.
  pose proof (Z.div_mod (t mod 3600) 60). pose proof (Z.mod_pos_bound (t mod 3600) 60). set (n := t mod 3600 / 60) in *.
  assert (t mod 3600 mod 60 = t mod 60) as Hs. { apply Z.mod_mod_divide. by exists 60. }
  rewrite Hs in *. set (s := t mod 60) in *.
  rewrite padded_four, !padded_two in Ht by lia. destruct (four_digits y ltac:(lia)) as [Fy Ey].
  destruct (two_digits m ltac:(lia)) as (Fm1 & Fm0 & Em), (two_digits d ltac:(lia)) as (Fd1 & Fd0 & Ed),
    (two_digits h ltac:(lia)) as (Fh1 & Fh0 & Eh), (two_digits n ltac:(lia)) as (Fn1 & Fn0 & En), (two_digits s ltac:(lia)) as (Fs1 & Fs0 & Es).
  assert (List.Forall (fun d => 0 <= d <= 9) [y / 1000; y / 100 mod 10; y / 10 mod 10; y mod 10; m / 10; m mod 10; d / 10; d mod 10;
    h / 10; h mod 10; n / 10; n mod 10; s / 10; s mod 10]) as Fall.
  { change [y / 1000; y / 100 mod 10; y / 10 mod 10; y mod 10; m / 10; m mod 10; d / 10; d mod 10;
      h / 10; h mod 10; n / 10; n mod 10; s / 10; s mod 10] with ([y / 1000; y / 100 mod 10; y / 10 mod 10; y mod 10]
      ++ [m / 10; m mod 10; d / 10; d mod 10; h / 10; h mod 10; n / 10; n mod 10; s / 10; s mod 10]).
    apply List.Forall_app. split; [done|]. repeat constructor; lia. }
  assert (instant_text epoch = stamp (y / 1000) (y / 100 mod 10) (y / 10 mod 10) (y mod 10) (m / 10) (m mod 10) (d / 10) (d mod 10)
    (h / 10) (h mod 10) (n / 10) (n mod 10) (s / 10) (s mod 10)) as -> by done.
  destruct (stamp_date _ _ _ _ _ _ _ _ _ _ _ _ _ _ Fall) as [Hsep Hdate]. pose proof (stamp_time _ _ _ _ _ _ _ _ _ _ _ _ _ _ Fall) as Htime.
  pose proof (stamp_shape _ _ _ _ _ _ _ _ _ _ _ _ _ _ Fall) as Hshape.
  set (txt := stamp _ _ _ _ _ _ _ _ _ _ _ _ _ _) in *.
  assert (fromisoformat txt = Some (DateTime.mk y m d h n s 0 (Some 0))) as Hread.
  2: { split; [done|]. split; [unfold instant, INSTANT_RE; cbn [as_str]; by rewrite Hshape, Hread|].
       eexists. split; [exact Hread|]. cbn [DateTime.year DateTime.month DateTime.day DateTime.hour DateTime.minute DateTime.second DateTime.offset DateTime.microsecond].
       split; [done|]. split; [done|]. rewrite Ho. lia. }
  unfold fromisoformat, parse_parts. unfold txt at 1. rewrite stamp_plain by done. fold txt. rewrite Hsep.
  change (20 <? 7) with false. cbn [mbind option_bind]. rewrite Hdate. cbn [mbind option_bind].
  change (String.length txt <=? 10)%nat with false. cbv iota.
  change (10 + width_of (buffer_at txt 10))%nat with 11%nat. rewrite Htime. cbn [mbind option_bind option_map offset_of Z.eqb].
  rewrite Ey, Em, Ed, Eh, En, Es. unfold next_midnight. replace (h =? 24) with false by (symmetry; apply Z.eqb_neq; lia).
  change ((0 <=? - DAY_MICROSECONDS) || (DAY_MICROSECONDS <=? 0)) with false. cbv iota.
  cbn [negb orb mbind option_bind]. unfold MIN_YEAR, MAX_YEAR.
  match goal with |- (if ?b then _ else _) = _ => assert (b = true) as ->; [|done] end.
  rewrite !andb_true_iff, !Z.leb_le. lia.
Qed.

Lemma instant_text_reads_witness :
  instant_text 1760520615 = "2025-10-15T09:30:15Z"%string /\ instant (VString (instant_text 1760520615)) = true.
Proof. split; [vm_compute; reflexivity|]. apply (instant_text_reads 1760520615). vm_compute. split; discriminate. Defined.
