(* ===== verification/Notices.v ===== *)
(** * Notices and views

    [protocol/http/rust/src/routine_notice.rs] and the usage of
    [protocol/http/rust/src/payload/chat.rs]: the closed shape of what Team shows a
    Supervisor of its Routines, runs and incidents, and of the notices Admin writes
    to a Team's transcript. *)

From stdpp Require Import base tactics list strings pretty.
From Stdlib Require Import ZArith Lia Ascii.
From S2P Require Import Prelude Text Json Calendar Platform Wire Instants.

#[local] Open Scope Z_scope.

Definition MAX_NOTICE_BATCH : Z := 1024.
Definition MAX_NOTICE_BATCH_BYTES : Z := 112 * 1024.
Definition RUN_STATUSES : list string := ["frozen"; "held"; "leased"]%string.
Definition ROUTINE_STATES : list string := ["active"; "paused"]%string.
Definition MAX_SUMMARY_BYTES : Z := 4 * 1024.
Definition ROUTINE_OUTCOMES : list string :=
  ["skipped"; "scope-changed"; "created"; "changed"; "healthy"; "deleted"; "streak-paused"]%string.
Definition valid_team (v : Value) : bool := is_some (canonical_team_id v).
Definition exact_schedule (v : Value) : bool := is_some (canonical_schedule v).

(** [optional]: null, or a string that fully matches a pattern. *)
Definition optional_text (v : Value) (re : string -> bool) : bool := is_null v || full_value re v.

(** ** Usage *)
Definition MAX_TURN_DURATION_MS : Z := 86400000.
Definition MAX_TURN_USAGE_MODELS : Z := 16.
Definition MAX_TURN_USAGE_TOKENS : Z := 1000000000.
Definition TURN_USAGE_MODEL_FIELDS : list string := ["input_tokens"; "model"; "output_tokens"; "provider"]%string.
(** [[a-z0-9][a-z0-9._-]{0,63}]. *)
Definition TURN_USAGE_ID_RE (s : string) : bool :=
  let first a := is_digit a || is_lower a in
  head_tail first (fun a => first a || one_of "._-" a) 63 s.
Definition usage_model (v : Value) : option (string * string) :=
  ms ← exact_object v TURN_USAGE_MODEL_FIELDS;
  provider ← as_str (field ms "provider");
  model ← as_str (field ms "model");
  if TURN_USAGE_ID_RE provider && TURN_USAGE_ID_RE model
     && whole (field ms "input_tokens") 0 MAX_TURN_USAGE_TOKENS && whole (field ms "output_tokens") 0 MAX_TURN_USAGE_TOKENS
  then Some (provider, model) else None.
Definition model_ltb (a b : string * string) : bool :=
  match String.compare (fst a) (fst b) with Lt => true | Eq => sltb (snd a) (snd b) | Gt => false end.
Definition canonical_turn_usage (v : Value) : option Value :=
  ms ← exact_object v ["duration_ms"; "models"]%string;
  models ← array (field ms "models");
  if negb (whole (field ms "duration_ms") 0 MAX_TURN_DURATION_MS)
     || negb ((1 <=? len models) && (len models <=? MAX_TURN_USAGE_MODELS)) then None
  else
    keys ← mapM usage_model models;
    if windows2 model_ltb keys then Some (object [("duration_ms", field ms "duration_ms"); ("models", VArray models)]%string) else None.
Definition canonical_run_usage (v : Value) : option Value :=
  ms ← exact_object v ["duration_ms"]%string;
  let duration := field ms "duration_ms" in
  if whole duration 0 MAX_TURN_DURATION_MS then Some (object [("duration_ms"%string, duration)]) else None.
(** [notice_usage]: whether the usage is exactly what a notice of the outcome carries. *)
Definition notice_usage (outcome usage : Value) : bool :=
  if is_str outcome "created"
  then is_null usage || match canonical_turn_usage usage with Some admitted => py_eq admitted usage | None => false end
  else if among outcome ROUTINE_OUTCOMES && negb (is_str outcome "healthy") then is_null usage
  else is_some (canonical_run_usage usage).

Section Views.
  Context {PF : Platform} {VO : Vocabulary}.

Definition canonical_disposition (v total : Value) : option Value :=
  ms ← exact_object v ["mode"; "step"]%string;
  mode ← as_str (field ms "mode");
  total ← small_int total;
  if negb (contains OUTPUT_MODES mode) || negb ((1 <=? total) && (total <=? MAX_ROUTINE_STEPS)) then None
  else if (if contains SHOWN_MODES mode then whole (field ms "step") total total else is_null (field ms "step"))
  then Some (object [("mode", VString mode); ("step", field ms "step")]%string)
  else None.

Definition canonical_routine_view (v : Value) : option Value :=
  ms ← exact_object v ["routine_id"; "name"; "schedule"; "timezone"; "timezone_source"; "next_run_at"; "needs_reconfirm";
                       "state"; "deleting"; "plan"; "output"]%string;
  summary ← canonical_summary (field ms "plan");
  if full_value ROUTINE_ID_RE (field ms "routine_id") && exact_name (field ms "name")
     && is_some (canonical_disposition (field ms "output") (at_ summary "steps")) && exact_schedule (field ms "schedule")
     && zoned (field ms "timezone") (field ms "timezone_source") && instant (field ms "next_run_at")
     && is_bool (field ms "needs_reconfirm") && is_bool (field ms "deleting") && among (field ms "state") ROUTINE_STATES
  then Some v else None.
Definition canonical_run_view (v : Value) : option Value :=
  ms ← exact_object v ["run_id"; "routine_id"; "status"; "request_kind"; "assistant_id"; "action"]%string;
  let request :=
    if is_str (field ms "status") "frozen"
    then among (field ms "request_kind") REQUEST_KINDS && valid_assistant (field ms "assistant_id") && valid_action (field ms "action")
    else is_null (field ms "request_kind") && is_null (field ms "assistant_id") && is_null (field ms "action") in
  if full_value ROUTINE_ID_RE (field ms "run_id") && full_value ROUTINE_ID_RE (field ms "routine_id")
     && among (field ms "status") RUN_STATUSES && request
  then Some v else None.
Definition held_step (ms : list (string * Value)) : bool :=
  if is_null (field ms "assistant_id")
  then is_null (field ms "action") && is_null (field ms "position") && is_null (field ms "steps")
  else valid_assistant (field ms "assistant_id") && valid_action (field ms "action")
       && is_some (canonical_position (field ms "position") (field ms "steps")).
Definition canonical_incident_view (v : Value) : option Value :=
  ms ← exact_object v ["run_id"; "routine_id"; "assistant_id"; "action"; "position"; "steps"]%string;
  if full_value ROUTINE_ID_RE (field ms "run_id") && full_value ROUTINE_ID_RE (field ms "routine_id") && held_step ms
  then Some v else None.

Definition notice_valid (ms : list (string * Value)) : bool :=
  let outcome := field ms "outcome" in
  let run_id := field ms "run_id" in
  let routine_outcome := among outcome ROUTINE_OUTCOMES in
  let protection := field ms "protection_lost" in
  valid_team (field ms "team_id") && full_value ROUTINE_ID_RE (field ms "notice_id") && positive (field ms "version")
  && full_value ROUTINE_ID_RE (field ms "routine_id") && exact_name (field ms "name") && optional_text run_id ROUTINE_ID_RE
  && Bool.eqb (is_null run_id) routine_outcome && (is_null run_id || py_eq run_id (field ms "notice_id"))
  && instant (field ms "created_at") && is_some (canonical_notice_detail outcome (field ms "detail"))
  && notice_usage outcome (field ms "usage") && is_bool protection
  && (negb routine_outcome || match protection with VBool false => true | _ => false end).
Definition canonical_notice (v : Value) : option Value :=
  ms ← exact_object v ["team_id"; "notice_id"; "version"; "routine_id"; "name"; "run_id"; "outcome"; "created_at"; "detail";
                       "usage"; "protection_lost"]%string;
  if notice_valid ms then Some v else None.
(** [canonical_notice_batch]. *)
Definition notice_key (v : Value) : option string * option string := (as_str (at_ v "team_id"), as_str (at_ v "notice_id")).
Definition canonical_notice_batch (v : Value) : option Value :=
  ms ← exact_object v ["notices"; "more"]%string;
  more ← match field ms "more" with VBool more => Some more | _ => None end;
  notices ← array (field ms "notices");
  if (MAX_NOTICE_BATCH <? len notices) || (more && match notices with [] => true | _ => false end) then None
  else
    admitted ← mapM canonical_notice notices;
    if MAX_NOTICE_BATCH_BYTES <? encoded_bytes (VArray admitted) then None
    else if bool_decide (base.NoDup (map notice_key notices))
    then Some (object [("notices", VArray admitted); ("more", VBool more)]%string) else None.
End Views.

(** A notice of a Routine's scope change, and one that names a run it is not of. *)
Example notices_read (PF := utc_platform) (VO := plain_vocabulary) :
  let id := "0123456789abcdef0123456789abcdef"%string in
  let notice run outcome detail usage :=
    object [("team_id", text "alpha"); ("notice_id", text id); ("version", int 1); ("routine_id", text id); ("name", text "Report");
            ("run_id", run); ("outcome", text outcome); ("created_at", text "1970-01-01T00:00:00Z"); ("detail", detail);
            ("usage", usage); ("protection_lost", VBool false)]%string in
  is_some (canonical_notice (notice VNull "scope-changed" (object []) VNull)) = true
  /\ is_some (canonical_notice (notice (text id) "denied" (object []) (object [("duration_ms"%string, int 5)]))) = true
  /\ is_some (canonical_notice (notice VNull "denied" (object []) (object [("duration_ms"%string, int 5)]))) = false
  /\ is_some (canonical_notice (notice (text "0") "denied" (object []) VNull)) = false.
Proof. vm_compute. auto. Qed.
