(* ===== verification/Schedule.v ===== *)
(** * When a Routine fires

    [routine/src/schedule/mod.rs]: the next occurrence of a canonical schedule
    strictly after an instant, in the zone its plan names.  The day loop is
    modelled as written; it leaves within the days left to the calendar's end. *)

From stdpp Require Import base tactics list strings pretty.
From Stdlib Require Import ZArith Lia Ascii.
From S2P Require Import Prelude Text Json Calendar Platform Wire.

#[local] Open Scope Z_scope.

(** Decimal digits, as [str::parse] reads them. *)
Fixpoint parse_digits (s : string) (acc : Z) : option Z :=
  match s with
  | EmptyString => Some acc
  | String a s' => if is_digit a then parse_digits s' (acc * 10 + (byte_code a - 0x30)) else None
  end.
Definition parse_int (s : string) : option Z :=
  match s with EmptyString => None | _ => parse_digits s 0 end.

(** [text.split_once(':')]. *)
Fixpoint split_once (sep : ascii) (s : string) : option (string * string) :=
  match s with
  | EmptyString => None
  | String a s' =>
      if byte_code a =? byte_code sep then Some (EmptyString, s')
      else match split_once sep s' with
           | Some (l, r) => Some (String a l, r)
           | None => None
           end
  end.

Section Schedule.
  Context {PF : Platform}.

Definition zone_named (name : string) : result TimeZone :=
  match canonical_timezone (VString name) with
  | None => Err "invalid timezone"
  | Some _ =>
      match tz_get name with
      | Some z => if bool_decide (tz_iana_name z = Some name) then Ok z else Err "unknown timezone"
      | None => Err "unknown timezone"
      end
  end.
Definition zone (name : Value) : result TimeZone :=
  n ← ok_or "invalid timezone" (canonical_timezone name); zone_named n.

(** [Date::at]: the date of an instant in a zone. *)
Definition date_at (instant : Z) (z : TimeZone) : option Date.Date :=
  match tz_date z instant with Some (y, m, d) => date_new y m d | None => None end.

Definition wall_clock (day : Date.Date) (time : string) (z : TimeZone) : option Z :=
  '(hour, minute) ← split_once ":" time;
  h ← parse_int hour;
  m ← parse_int minute;
  tz_instant z day h m.

Definition matches (schedule : Value) (day : Date.Date) : bool :=
  let kind := at_ schedule "kind" in
  if is_str kind "weekly" then value_eqb (at_ schedule "weekday") (int (weekday day))
  else if is_str kind "monthly" then value_eqb (at_ schedule "day") (int (Date.day day))
  else true.

(** One turn of the day loop: leave with a firing or a refusal, or try the next day. *)
Definition day_step (schedule : Value) (time : string) (z : TimeZone) (after : Z)
    (day : Date.Date) : Date.Date + result Z :=
  let next_day := match add_days day 1 with
                  | Some d => inl d
                  | None => inr (Err "invalid schedule"%string)
                  end in
  if matches schedule day then
    match wall_clock day time z with
    | None => inr (Err "invalid schedule")
    | Some candidate => if after <? candidate then inr (Ok candidate) else next_day
    end
  else next_day.

(** Fewer than [2 ^ 22] days lie between any date and 9999-12-31. *)
Definition day_loop (schedule : Value) (time : string) (z : TimeZone) (after : Z)
    (day : Date.Date) : result Z :=
  match loop_pow2 22 (day_step schedule time z after) day with
  | inr r => r
  | inl _ => Err "invalid schedule"
  end.

Definition next_run (schedule timezone : Value) (anchor after : Z) : result Z :=
  canonical ← ok_or "invalid schedule" (canonical_schedule schedule);
  z ← zone timezone;
  let after := Z.max after anchor in
  match get canonical "gap" ≫= small_int with
  | Some gap => if in_i64 (after + gap) then Ok (after + gap) else Err "invalid schedule"
  | None =>
      time ← ok_or "invalid schedule" (as_str (at_ canonical "time"));
      day ← ok_or "invalid schedule" (date_at after z ≫= fun d => add_days d (-1));
      day_loop canonical time z after day
  end.

(** ** The day loop *)
Lemma day_step_next schedule time z after d d' :
  day_step schedule time z after d = inl d' -> add_days d 1 = Some d'.
Proof. unfold day_step. intros H. repeat case_match; by simplify_eq. Qed.

Lemma day_step_leave schedule time z after d t :
  day_step schedule time z after d = inr (Ok t) ->
  matches schedule d = true /\ wall_clock d time z = Some t /\ after < t.
Proof. unfold day_step. intros H. repeat case_match; simplify_eq; split_and!; auto; lia. Qed.

Definition days_left (d : Date.Date) : Z := last_ordinal - ordinal d.

(** The loop never runs out of fuel. *)
Lemma day_loop_total schedule time z after d : date_valid d ->
  exists r, loop_pow2 22 (day_step schedule time z after) d = inr r.
Proof.
  intros Hd. edestruct (loop_pow2_total (day_step schedule time z after) date_valid
    (fun _ => True) days_left) with (n := 22%nat) (s := d) as (r & Hr & _); [| | | | |eauto]; auto.
  - intros s Hs. pose proof (ordinal_bound s Hs). unfold days_left. lia.
  - intros s s' _ Hs'%day_step_next. apply add_days_Some in Hs' as [? He]. unfold days_left. split; [done|lia].
  - pose proof (ordinal_bound d Hd) as H1. unfold days_left. rewrite last_ordinal_eq in *.
    change (2 ^ Z.of_nat 22) with 4194304. lia.
Qed.

Lemma day_loop_sound schedule time z after d t : date_valid d ->
  day_loop schedule time z after d = Ok t ->
  exists day, date_valid day /\ ordinal d <= ordinal day
    /\ matches schedule day = true /\ wall_clock day time z = Some t /\ after < t
    /\ (forall e, date_valid e -> ordinal d <= ordinal e < ordinal day ->
         matches schedule e = true -> exists c, wall_clock e time z = Some c /\ c <= after).
Proof.
  intros Hd. unfold day_loop.
  set (I := fun s => date_valid s /\ ordinal d <= ordinal s
    /\ forall e, date_valid e -> ordinal d <= ordinal e < ordinal s ->
         matches schedule e = true -> exists c, wall_clock e time z = Some c /\ c <= after).
  set (Q := fun r : result Z => forall t, r = Ok t -> exists day, date_valid day
    /\ ordinal d <= ordinal day /\ matches schedule day = true
    /\ wall_clock day time z = Some t /\ after < t
    /\ (forall e, date_valid e -> ordinal d <= ordinal e < ordinal day ->
         matches schedule e = true -> exists c, wall_clock e time z = Some c /\ c <= after)).
  pose proof (loop_pow2_inv (day_step schedule time z after) I Q days_left) as Hl.
  specialize (Hl) with (n := 22%nat) (s := d).
  destruct (day_loop_total schedule time z after d Hd) as [r Hr]. rewrite Hr in *.
  apply Hl.
  - intros s s' (Hs & Hle & Hb) Hst. pose proof (day_step_next _ _ _ _ _ _ Hst) as Hn.
    apply add_days_Some in Hn as [Hv Ho]. unfold I, days_left. split; [|lia].
    split; [done|]. split; [lia|]. intros e He Hr' Hm.
    destruct (decide (ordinal e = ordinal s)) as [Heq|]; [|apply Hb; [done|lia|done]].
    apply ordinal_inj in Heq; [subst e|done|done]. unfold day_step in Hst.
    rewrite Hm in Hst. destruct (wall_clock s time z) as [c|]; [|done].
    exists c. split; [done|]. destruct (Z.ltb_spec after c); [done|lia].
  - intros s q (Hs & Hle & Hb) Hst t' ->. apply day_step_leave in Hst as (? & ? & ?). exists s. auto 10.
  - unfold I. split; [done|]. split; [lia|]. intros. lia.
Qed.

(** Every firing is strictly after the instant it was asked for, and after the anchor. *)
Lemma date_at_valid instant z d : date_at instant z = Some d -> date_valid d.
Proof.
  unfold date_at. destruct (tz_date z instant) as [[[y m] dd]|]; [|done].
  intros [-> Hv]%date_new_Some. done.
Qed.

Lemma next_run_after schedule timezone anchor after t :
  next_run schedule timezone anchor after = Ok t -> after < t /\ anchor < t.
Proof.
  unfold next_run. intros Hn. inv_ok.
  rename select (canonical_schedule _ = Some _) into Hc.
  pose proof (canonical_schedule_id _ _ Hc). simplify_eq.
  destruct (canonical_schedule_shape _ _ Hc) as [(gap & Hg & _ & Hb)|(time & Hg & _)]; rewrite Hg in Hn; cbn in Hn.
  - unfold MIN_CONTINUOUS_GAP_SECONDS in Hb. case_match; inv_ok. lia.
  - inv_ok. rename select (_ ≫= _ = Some _) into Hd. apply bind_Some in Hd as (d0 & Hd0 & Hd).
    apply add_days_Some in Hd as [Hv _]. apply day_loop_sound in Hn as (day & _ & _ & _ & _ & ? & _); [|done].
    lia.
Qed.

(** ** The loop finds a firing

    What the time-zone database documents of a zone [z]: a wall-clock time on a
    calendar date names an instant, less than 26 hours from the same time in UTC
    ([jiff] offsets stay below 26 hours, and a time in a gap is read with the
    offset before it); the local date of an instant is that near its UTC date;
    and the same wall-clock time on a later date is no earlier. The last days of
    the calendar are left out, as the database's own range ends there. *)
Definition utc_of (d : Date.Date) (hour minute : Z) : Z :=
  (ordinal d - epoch_ordinal) * 86400 + hour * 3600 + minute * 60.
Definition calendar_margin : Z := 3.

Record ZoneLaws (z : TimeZone) : Prop := {
  zone_instant : forall d h m, date_valid d -> ordinal d <= last_ordinal - calendar_margin ->
    0 <= h <= 23 -> 0 <= m <= 59 ->
    exists t, tz_instant z d h m = Some t /\ Z.abs (t - utc_of d h m) < 93600;
  zone_date : forall t,
    calendar_margin < epoch_ordinal + t / 86400 <= last_ordinal - calendar_margin ->
    exists d, date_at t z = Some d /\ Z.abs (ordinal d - (epoch_ordinal + t / 86400)) <= 2;
  zone_later : forall d e h m t u, date_valid d -> date_valid e -> ordinal d <= ordinal e ->
    tz_instant z d h m = Some t -> tz_instant z e h m = Some u -> t <= u;
  zone_past : forall d e h m t u, date_valid e -> 0 <= h <= 23 -> 0 <= m <= 59 ->
    date_at t z = Some d -> ordinal e + 2 <= ordinal d -> tz_instant z e h m = Some u -> u <= t
}.

Lemma one_of_cons c s a : one_of (String c s) a = (byte_code c =? byte_code a) || one_of s a.
Proof. unfold one_of. cbn. by rewrite negb_andb, negb_involutive. Qed.
Lemma one_of_nil a : one_of EmptyString a = false.
Proof. done. Qed.

(** A time the protocol admits reads as an hour and a minute of the day. *)
Lemma time_re_parse s : TIME_RE s = true ->
  exists hour minute h m, split_once ":" s = Some (hour, minute)
    /\ parse_int hour = Some h /\ parse_int minute = Some m /\ 0 <= h <= 23 /\ 0 <= m <= 59.
Proof.
  unfold TIME_RE. destruct s as [|a [|b [|c [|d [|e [|]]]]]]; try done.
  rewrite !one_of_cons, !one_of_nil. unfold is_digit, between.
  change (byte_code "0") with 0x30. change (byte_code "1") with 0x31.
  change (byte_code "2") with 0x32. change (byte_code ":") with 0x3a.
  intros Ht. cbn [split_once]. change (byte_code ":") with 0x3a.
  assert ((byte_code a =? 58) = false) as -> by lia.
  assert ((byte_code b =? 58) = false) as -> by lia.
  assert ((byte_code c =? 58) = true) as -> by lia.
  eexists _, _, (10 * (byte_code a - 0x30) + (byte_code b - 0x30)),
    (10 * (byte_code d - 0x30) + (byte_code e - 0x30)).
  split; [reflexivity|]. unfold parse_int. cbn [parse_digits]. unfold is_digit, between.
  assert (((48 <=? byte_code a) && (byte_code a <=? 57)) = true) as -> by lia.
  assert (((48 <=? byte_code b) && (byte_code b <=? 57)) = true) as -> by lia.
  assert (((48 <=? byte_code d) && (byte_code d <=? 57)) = true) as -> by lia.
  assert (((48 <=? byte_code e) && (byte_code e <=? 57)) = true) as -> by lia.
  split_and!; try (f_equal; lia); lia.
Qed.

(** Any 31 days from a date hold each day of the month up to 28, and any 7 each weekday. *)
Lemma day_of_month_near d k : date_valid d -> 1 <= k <= 28 -> ordinal d + 31 <= last_ordinal ->
  exists e, date_valid e /\ ordinal d <= ordinal e <= ordinal d + 31 /\ Date.day e = k.
Proof.
  intros (Hy & Hm & Hd) Hk Hl. pose proof (days_in_month_bound (Date.year d) (Date.month d)).
  destruct (Z.le_gt_cases (Date.day d) k).
  - exists (Date.mk (Date.year d) (Date.month d) k). unfold date_valid, ordinal, ymd_to_ord. cbn.
    split_and!; lia.
  - destruct (Z.eq_dec (Date.month d) 12) as [H12|Hne].
    + assert (Date.year d < MAX_YEAR).
      { destruct (Z.eq_dec (Date.year d) MAX_YEAR) as [He|]; [|lia]. exfalso.
        unfold ordinal, ymd_to_ord in Hl. rewrite He, H12 in Hl. rewrite last_ordinal_eq in Hl.
        change (days_before_year MAX_YEAR) with 3651694 in Hl.
        change (days_before_month MAX_YEAR 12) with 334 in Hl. lia. }
      exists (Date.mk (Date.year d + 1) 1 k). unfold date_valid, ordinal, ymd_to_ord. cbn [Date.year Date.month Date.day].
      rewrite days_before_month_1. pose proof (days_before_year_succ (Date.year d) ltac:(lia)) as Hs.
      pose proof (days_before_month_succ (Date.year d) 12 ltac:(lia)) as Hms.
      change (12 + 1) with 13 in Hms. rewrite days_before_month_13 in Hms. rewrite H12 in *.
      pose proof (days_in_month_bound (Date.year d + 1) 1). split_and!; lia.
    + exists (Date.mk (Date.year d) (Date.month d + 1) k). unfold date_valid, ordinal, ymd_to_ord.
      cbn [Date.year Date.month Date.day].
      pose proof (days_before_month_succ (Date.year d) (Date.month d) ltac:(lia)).
      pose proof (days_in_month_bound (Date.year d) (Date.month d + 1)). split_and!; lia.
Qed.

Lemma weekday_near d w : date_valid d -> 0 <= w <= 6 -> ordinal d + 6 <= last_ordinal ->
  exists e, date_valid e /\ ordinal d <= ordinal e <= ordinal d + 6 /\ weekday e = w.
Proof.
  intros Hd Hw Hl. pose proof (ordinal_bound d Hd).
  set (k := (w - (ordinal d + 6)) mod 7).
  assert (0 <= k < 7) by (apply Z.mod_pos_bound; lia).
  destruct (from_ordinal_is_Some (ordinal d + k) ltac:(lia)) as [e He].
  apply from_ordinal_Some in He as [He Ho]. exists e. split; [done|]. split; [lia|].
  unfold weekday. rewrite Ho, Z.rem_mod_nonneg by lia. unfold k.
  replace (ordinal d + (w - (ordinal d + 6)) mod 7 + 6)
    with ((w - (ordinal d + 6)) mod 7 + (ordinal d + 6)) by lia.
  rewrite Zplus_mod_idemp_l. replace (w - (ordinal d + 6) + (ordinal d + 6)) with w by lia.
  apply Z.mod_small. lia.
Qed.

Lemma value_eqb_int z w : value_eqb (int z) (int w) = (z =? w).
Proof. done. Qed.

Lemma matches_near v s d : canonical_schedule v = Some s -> get v "gap" = None ->
  date_valid d -> ordinal d + 31 <= last_ordinal ->
  exists e, date_valid e /\ ordinal d <= ordinal e <= ordinal d + 31 /\ matches v e = true.
Proof.
  intros Hc Hg Hd Hl.
  destruct (canonical_schedule_shape _ _ Hc) as [(gap & Hg' & _)|(time & _ & _ & _ & _ & Hw & Hm)]; [congruence|].
  unfold matches. destruct (is_str (at_ v "kind") "weekly").
  - destruct (Hw eq_refl) as (w & Hgw & Hwr). rewrite (at_get _ _ _ Hgw).
    destruct (weekday_near d w Hd Hwr ltac:(lia)) as (e & He & ? & <-).
    exists e. rewrite value_eqb_int, Z.eqb_refl. split_and!; auto; lia.
  - destruct (is_str (at_ v "kind") "monthly").
    + destruct (Hm eq_refl) as (k & Hgk & Hkr). rewrite (at_get _ _ _ Hgk).
      destruct (day_of_month_near d k Hd Hkr Hl) as (e & He & ? & <-).
      exists e. rewrite value_eqb_int, Z.eqb_refl. auto.
    + exists d. split_and!; auto; lia.
Qed.

Lemma day_loop_finds schedule time z after d e : date_valid d -> date_valid e ->
  ordinal d <= ordinal e -> matches schedule e = true ->
  (forall x, date_valid x -> ordinal d <= ordinal x <= ordinal e -> is_Some (wall_clock x time z)) ->
  (forall c, wall_clock e time z = Some c -> after < c) ->
  exists t, day_loop schedule time z after d = Ok t.
Proof.
  intros Hd He Hle Hm Htot Hc. unfold day_loop.
  pose proof (loop_pow2_total (day_step schedule time z after)
    (fun s => date_valid s /\ ordinal d <= ordinal s <= ordinal e)
    (fun r => exists t, r = Ok t) days_left) as Hl.
  edestruct Hl as (r & Hr & t & ->); [| | |split; [exact Hd|lia]| |by rewrite Hr; eauto].
  - intros s [Hs _]. pose proof (ordinal_bound s Hs). unfold days_left. lia.
  - intros s s' [Hs Hr] Hst. pose proof (day_step_next _ _ _ _ _ _ Hst) as Hn.
    apply add_days_Some in Hn as [? ?]. unfold days_left. split; [|lia]. split; [done|].
    destruct (decide (ordinal s = ordinal e)) as [Heq|]; [|lia].
    apply ordinal_inj in Heq; [subst s|done|done]. unfold day_step in Hst. rewrite Hm in Hst.
    destruct (Htot e He ltac:(lia)) as [c Hcw]. rewrite Hcw in Hst. apply Hc in Hcw.
    destruct (Z.ltb_spec after c); [done|lia].
  - intros s r [Hs Hr] Hst. unfold day_step in Hst.
    destruct (Htot s Hs Hr) as [c Hcw]. rewrite Hcw in Hst.
    assert (is_Some (add_days s 1) \/ s = e) as Hnext.
    { destruct (decide (ordinal s = ordinal e)) as [Heq|]; [right; by apply ordinal_inj|left].
      pose proof (ordinal_bound s Hs). pose proof (ordinal_bound e He).
      destruct (add_days_is_Some s 1 ltac:(lia)) as [x ->]. eauto. }
    destruct (matches schedule s) eqn:Hms.
    + destruct (Z.ltb_spec after c); [injection Hst as <-; eauto|].
      destruct Hnext as [[x Hx]| ->]; [by rewrite Hx in Hst|]. apply Hc in Hcw. lia.
    + destruct Hnext as [[x Hx]| ->]; [by rewrite Hx in Hst|]. congruence.
  - pose proof (ordinal_bound d Hd). unfold days_left. rewrite last_ordinal_eq in *.
    change (2 ^ Z.of_nat 22) with 4194304. lia.
Qed.

Lemma wall_clock_parts time z : TIME_RE time = true ->
  exists h m, 0 <= h <= 23 /\ 0 <= m <= 59 /\ forall d, wall_clock d time z = tz_instant z d h m.
Proof.
  intros (hour & minute & h & m & Hs & Hh & Hm & ? & ?)%time_re_parse. exists h, m.
  split; [done|]. split; [done|]. intros d. unfold wall_clock. rewrite Hs. cbn. rewrite Hh. cbn. by rewrite Hm.
Qed.

(** The search window: from the day before the local date to 37 days on. *)
Lemma day_window z time a d0 start : ZoneLaws z -> TIME_RE time = true ->
  calendar_margin < epoch_ordinal + a / 86400 <= last_ordinal - 45 ->
  date_at a z = Some d0 -> Z.abs (ordinal d0 - (epoch_ordinal + a / 86400)) <= 2 ->
  add_days d0 (-1) = Some start ->
  (forall x, date_valid x -> ordinal start <= ordinal x <= ordinal start + 37 ->
     is_Some (wall_clock x time z))
  /\ (forall x c, date_valid x -> wall_clock x time z = Some c ->
       ordinal start + 6 <= ordinal x <= ordinal start + 37 -> a < c)
  /\ (forall x c, date_valid x -> wall_clock x time z = Some c ->
       ordinal x <= ordinal start + 37 -> c <= a + 41 * 86400).
Proof.
  intros [Hi Hdate _ _] Ht Hr Hd0 Hnear Hst.
  destruct (wall_clock_parts time z Ht) as (h & m & Hh & Hm & Hw).
  apply add_days_Some in Hst as [Hvs Hos]. unfold calendar_margin in *.
  pose proof (Z.div_mod a 86400 ltac:(lia)) as Ha. pose proof (Z.mod_pos_bound a 86400 ltac:(lia)).
  assert (forall x c, date_valid x -> wall_clock x time z = Some c ->
    ordinal x <= ordinal start + 37 -> Z.abs (c - utc_of x h m) < 93600) as Hclose.
  { intros x c Hx Hc Hle. rewrite Hw in Hc.
    destruct (Hi x h m Hx ltac:(lia) Hh Hm) as (t & Htt & ?). congruence. }
  split_and!.
  - intros x Hx ?. rewrite Hw. destruct (Hi x h m Hx ltac:(lia) Hh Hm) as (t & -> & _). eauto.
  - intros x c Hx Hc ?. pose proof (Hclose x c Hx Hc ltac:(lia)). unfold utc_of in *. lia.
  - intros x c Hx Hc ?. pose proof (Hclose x c Hx Hc ltac:(lia)). unfold utc_of in *. lia.
Qed.

(** ** Claims *)

(** C31. A wall-clock schedule in a zone the database knows always fires again: the
    next firing exists, is strictly after the later of [after] and the anchor,
    is at most 41 days later, falls on a matching day, and no firing of the
    schedule lies between. *)
Theorem next_run_first schedule s timezone z time anchor after :
  canonical_schedule schedule = Some s -> get schedule "gap" = None ->
  get schedule "time" = Some (VString time) ->
  zone timezone = Ok z -> ZoneLaws z ->
  calendar_margin < epoch_ordinal + Z.max after anchor / 86400 <= last_ordinal - 45 ->
  exists t day, next_run schedule timezone anchor after = Ok t
    /\ Z.max after anchor < t <= Z.max after anchor + 41 * 86400
    /\ date_valid day /\ matches schedule day = true /\ wall_clock day time z = Some t
    /\ (forall e u, date_valid e -> matches schedule e = true -> wall_clock e time z = Some u ->
         Z.max after anchor < u -> t <= u).
Proof.
  intros Hc Hg Htime Hz HL Hr. pose proof (canonical_schedule_id _ _ Hc) as ->.
  destruct (canonical_schedule_shape _ _ Hc) as [(gap & ? & _)|(time' & _ & _ & Htime' & Hre & _)]; [congruence|].
  simplify_eq. set (a := Z.max after anchor) in *.
  destruct (zone_date z HL a) as (d0 & Hd0 & Hnear); [unfold calendar_margin in *; lia|].
  pose proof (date_at_valid _ _ _ Hd0) as Hv0. pose proof (ordinal_bound _ Hv0).
  destruct (add_days_is_Some d0 (-1)) as [start Hst]; [unfold calendar_margin in *; lia|].
  destruct (day_window z time a d0 start HL Hre Hr Hd0 Hnear Hst) as (Hwin & Hafter & Hbound).
  pose proof (add_days_Some _ _ _ Hst) as [Hvs Hos].
  destruct (from_ordinal_is_Some (ordinal start + 6)) as [base Hb]; [unfold calendar_margin in *; lia|].
  apply from_ordinal_Some in Hb as [Hvb Hob].
  destruct (matches_near schedule schedule base Hc Hg Hvb) as (e & He & Hre' & Hme);
    [unfold calendar_margin in *; lia|].
  destruct (day_loop_finds schedule time z a start e) as [t Ht]; auto; [lia|intros; apply Hwin; auto; lia| |].
  { intros c Hcw. apply (Hafter e c); auto. lia. }
  destruct (day_loop_sound _ _ _ _ _ _ Hvs Ht) as (day & Hday & Hge & Hmd & Hwd & Hlt & Hfirst).
  assert (ordinal day <= ordinal e) as Hde.
  { destruct (Z.le_gt_cases (ordinal day) (ordinal e)) as [|Hgt]; [done|exfalso].
    destruct (Hfirst e He ltac:(lia) Hme) as (c & Hcw & ?).
    pose proof (Hafter e c He Hcw ltac:(lia)). lia. }
  exists t, day. split.
  { unfold next_run. rewrite Hc. cbn. rewrite Hz. cbn. rewrite Hg. cbn.
    rewrite (at_get _ _ _ Htime). cbn. fold a. rewrite Hd0. cbn. by rewrite Hst. }
  split; [split; [done|apply (Hbound day t); auto; lia]|].
  split_and!; try done. intros x u Hx Hmx Hwx Hu.
  destruct (wall_clock_parts time z Hre) as (h & m & Hh & Hm & Hw). rewrite Hw in *.
  destruct (Z.le_gt_cases (ordinal day) (ordinal x)) as [Hle|Hgt].
  - eapply (zone_later z HL day x); eauto.
  - destruct (Z.le_gt_cases (ordinal start) (ordinal x)).
    + destruct (Hfirst x Hx ltac:(lia) Hmx) as (c & Hcw & ?). rewrite Hw in Hcw. simplify_eq. lia.
    + pose proof (zone_past z HL d0 x h m a u Hx Hh Hm Hd0 ltac:(lia) Hwx). lia.
Qed.

(** A continuous schedule fires exactly its gap after the later of [after] and
    the anchor, unless the sum leaves [i64], which refuses. *)
Theorem next_run_continuous schedule s timezone z gap anchor after :
  canonical_schedule schedule = Some s -> get schedule "gap" = Some (int gap) ->
  zone timezone = Ok z ->
  next_run schedule timezone anchor after =
    (if in_i64 (Z.max after anchor + gap) then Ok (Z.max after anchor + gap)
     else Err "invalid schedule")
  /\ MIN_CONTINUOUS_GAP_SECONDS <= gap.
Proof.
  intros Hc Hg Hz. pose proof (canonical_schedule_id _ _ Hc) as ->. split.
  - unfold next_run. rewrite Hc. cbn. rewrite Hz. cbn. by rewrite Hg.
  - destruct (canonical_schedule_shape _ _ Hc) as [(g & ? & _ & ?)|(t & ? & _)]; [|congruence].
    simplify_eq. lia.
Qed.
End Schedule.

(** ** On UTC *)
Lemma utc_date_at t :
  1 <= epoch_ordinal + t / 86400 <= last_ordinal ->
  exists d, @date_at utc_platform t tt = Some d /\ ordinal d = epoch_ordinal + t / 86400.
Proof.
  intros Hr. destruct (from_ordinal_is_Some _ Hr) as [d Hd].
  pose proof (from_ordinal_Some _ _ Hd) as [Hv Ho]. exists d. split; [|done].
  unfold date_at. cbn. unfold utc_date. rewrite Hd. apply date_new_Some. by destruct d.
Qed.

Lemma utc_zone_laws : @ZoneLaws utc_platform tt.
Proof.
  constructor.
  - intros d h m _ _ _ _. exists (utc_of d h m). split; [done|lia].
  - intros t Hr. unfold calendar_margin in Hr. destruct (utc_date_at t ltac:(lia)) as (d & Hd & Ho).
    exists d. split; [done|lia].
  - intros d e h m t u _ _ Hle [= <-] [= <-]. unfold ordinal in *. lia.
  - intros d e h m t u _ Hh Hm Hd Hle [= <-]. unfold date_at in Hd. cbn in Hd. unfold utc_date in Hd.
    destruct (from_ordinal _) as [x|] eqn:Hx; [|done]. apply from_ordinal_Some in Hx as [_ Ho].
    apply date_new_Some in Hd as [-> _].
    assert (ordinal (Date.mk (Date.year x) (Date.month x) (Date.day x)) = ordinal x) as Hxx
      by (by destruct x).
    rewrite Hxx in Hle.
    pose proof (Z.div_mod t 86400 ltac:(lia)). pose proof (Z.mod_pos_bound t 86400 ltac:(lia)). lia.
Qed.

Definition daily_0930 : Value :=
  object [("kind"%string, text "daily"); ("time"%string, text "09:30")].
Definition monthly_28 : Value :=
  object [("kind"%string, text "monthly"); ("day"%string, int 28); ("time"%string, text "23:59")].
Example next_run_daily :
  @next_run utc_platform daily_0930 (text "UTC") 0 1767225600 = Ok 1767259800.
Proof. vm_compute. reflexivity. Qed.
Example next_run_monthly :
  @next_run utc_platform monthly_28 (text "UTC") 0 1767225600 = Ok 1769644740.
Proof. vm_compute. reflexivity. Qed.

Lemma next_run_first_witness :
  exists t day, @next_run utc_platform daily_0930 (text "UTC") 0 1767225600 = Ok t
    /\ Z.max 1767225600 0 < t <= Z.max 1767225600 0 + 41 * 86400
    /\ date_valid day /\ matches daily_0930 day = true
    /\ @wall_clock utc_platform day "09:30" tt = Some t
    /\ (forall e u, date_valid e -> matches daily_0930 e = true ->
         @wall_clock utc_platform e "09:30" tt = Some u -> Z.max 1767225600 0 < u -> t <= u).
Proof.
  apply (@next_run_first utc_platform daily_0930 daily_0930 (text "UTC") tt "09:30" 0 1767225600).
  1-4: vm_compute; reflexivity.
  - apply utc_zone_laws.
  - vm_compute. split; [reflexivity|discriminate].
Defined.

Definition every_minute : Value :=
  object [("kind"%string, text "continuous"); ("gap"%string, int 60)].
Lemma next_run_continuous_witness :
  @next_run utc_platform every_minute (text "UTC") 0 1767225600
    = (if in_i64 (Z.max 1767225600 0 + 60) then Ok (Z.max 1767225600 0 + 60)
       else Err "invalid schedule")
  /\ MIN_CONTINUOUS_GAP_SECONDS <= 60.
Proof.
  apply (@next_run_continuous utc_platform every_minute every_minute (text "UTC") tt 60 0 1767225600);
    vm_compute; reflexivity.
Defined.
