(* ===== verification/Dates.v ===== *)
(** * Run-clock templates

    [routine/src/dates/mod.rs]: the text a template writes for a run's date, the
    closed shape a template is admitted in, and how a person reads one.  The
    recognition of dates in a recorded text, which is a search by regular
    expressions, is not modelled. *)

From stdpp Require Import base tactics list strings pretty.
From Stdlib Require Import ZArith Lia Ascii.
From S2P Require Import Prelude Text Json Calendar Platform Schedule.

#[local] Open Scope Z_scope.

Definition MAX_OFFSET_DAYS : Z := 31.
Definition MAX_PARTS : Z := 32.
Definition MAX_FORMAT_CHARS : Z := 64.
Definition LANGUAGES : list string := ["pt"; "en"; "es"; "fr"; "de"; "ar"]%string.
Definition MONTHS : list (string * list string) :=
  [("pt", ["janeiro"; "fevereiro"; "março"; "abril"; "maio"; "junho"; "julho"; "agosto"; "setembro"; "outubro";
           "novembro"; "dezembro"]);
   ("en", ["january"; "february"; "march"; "april"; "may"; "june"; "july"; "august"; "september"; "october";
           "november"; "december"]);
   ("es", ["enero"; "febrero"; "marzo"; "abril"; "mayo"; "junio"; "julio"; "agosto"; "septiembre"; "octubre";
           "noviembre"; "diciembre"]);
   ("fr", ["janvier"; "février"; "mars"; "avril"; "mai"; "juin"; "juillet"; "août"; "septembre"; "octobre";
           "novembre"; "décembre"]);
   ("de", ["januar"; "februar"; "märz"; "april"; "mai"; "juni"; "juli"; "august"; "september"; "oktober";
           "november"; "dezember"]);
   ("ar", ["يناير"; "فبراير"; "مارس"; "أبريل"; "مايو"; "يونيو"; "يوليو"; "أغسطس"; "سبتمبر"; "أكتوبر";
           "نوفمبر"; "ديسمبر"])]%string.
Definition TOKENS : list string := ["d"; "dd"; "M"; "MM"; "yyyy"; "mmmm"; "Mmmm"; "MMMM"]%string.
Definition NAMED : list string := ["mmmm"; "Mmmm"; "MMMM"]%string.
Definition SHOWN_TOKENS : list (string * string) :=
  [("d", "D"); ("dd", "DD"); ("M", "M"); ("MM", "MM"); ("yyyy", "YYYY"); ("mmmm", "month"); ("Mmmm", "Month");
   ("MMMM", "MONTH")]%string.

Definition names_of (language : string) : option (list string) :=
  option_map snd (List.find (fun entry => fst entry =s language) MONTHS).

(** [char::to_uppercase] and [text::lower] on the letters the month names are
    written with: ASCII, Latin-1, and Arabic, which has no case. *)
Definition upper_char (c : Z) : Z :=
  if ((97 <=? c) && (c <=? 122)) || ((0xe0 <=? c) && (c <=? 0xfe) && negb (c =? 0xf7)) then c - 32 else c.
Definition lower_char (c : Z) : Z :=
  if ((65 <=? c) && (c <=? 90)) || ((0xc0 <=? c) && (c <=? 0xde) && negb (c =? 0xd7)) then c + 32 else c.
Definition text_of (codes : list Z) : string := String.concat "" (map utf8 codes).

Definition capitalized (name : string) : string :=
  match chars name with
  | [] => EmptyString
  | first :: rest => text_of (upper_char first :: rest)
  end.

Definition cased (case name : string) : string :=
  if case =s "mmmm" then text_of (map lower_char (chars name))
  else if case =s "Mmmm" then capitalized name
  else text_of (map upper_char (chars name)).

(** ** Formats *)

(** The token after an opening brace, and what follows its closing brace. *)
Definition token_at (rest : string) : option (string * string) :=
  '(name, following) ← split_once "}" rest;
  if contains TOKENS name then Some (name, following) else None.

(** A piece of a format: literal text, or a token. *)
Definition literal_piece (literal : string) : list (string * option string) :=
  if is_empty literal then [] else [(literal, None)].
Fixpoint tokenized_loop (fuel : nat) (literal format : string) : list (string * option string) :=
  match fuel, format with
  | S fuel', String a rest =>
      match (if byte_code a =? byte_code "{" then token_at rest else None) with
      | Some (token, following) => literal_piece literal ++ (EmptyString, Some token) :: tokenized_loop fuel' EmptyString following
      | None => tokenized_loop fuel' (literal +:+ String a EmptyString) rest
      end
  | _, _ => literal_piece literal
  end.
Definition tokenized (format : string) : list (string * option string) :=
  tokenized_loop (String.length format) EmptyString format.

(** ** Writing *)
Definition written_piece (part : Value) (day : Date.Date) (piece : string * option string) : option string :=
  match piece with
  | (literal, None) => Some literal
  | (_, Some token) =>
      if contains NAMED token then
        language ← as_str (at_ part "lang");
        names ← names_of language;
        name ← names !! Z.to_nat (Date.month day - 1);
        Some (cased token name)
      else
        let value := if (token =s "d") || (token =s "dd") then Date.day day
                     else if (token =s "M") || (token =s "MM") then Date.month day else Date.year day in
        Some (if (token =s "dd") || (token =s "MM") then zero_padded 2 value else pretty value)
  end.

Fixpoint written_pieces (part : Value) (day : Date.Date) (pieces : list (string * option string)) : option string :=
  match pieces with
  | [] => Some EmptyString
  | piece :: rest =>
      written ← written_piece part day piece; more ← written_pieces part day rest; Some (written +:+ more)
  end.

Definition written_part (part : Value) (run_date : Date.Date) : option string :=
  days ← small_int (at_ part "days");
  day ← add_days run_date days;
  format ← as_str (at_ part "format");
  written_pieces part day (tokenized format).

Fixpoint render (parts : list Value) (run_date : Date.Date) : option string :=
  match parts with
  | [] => Some EmptyString
  | part :: rest =>
      written ← match part with VString literal => Some literal | _ => written_part part run_date end;
      more ← render rest run_date;
      Some (written +:+ more)
  end.

(** ** The closed shape *)
Definition braced (literal : string) : bool :=
  negb (all_bytes (fun a => negb (one_of "{}" a)) literal).

Definition format_tokens (format : string) : option (list string) :=
  let pieces := tokenized format in
  if existsb (fun piece => braced (fst piece)) pieces || is_empty format then None
  else Some (omap snd pieces).

Definition date_part (part : Value) : bool :=
  has_fields part ["days"; "format"; "lang"]%string
  && match small_int (at_ part "days") with
     | Some days => (- MAX_OFFSET_DAYS <=? days) && (days <=? MAX_OFFSET_DAYS)
     | None => false
     end
  && match as_str (at_ part "format") with
     | Some format =>
         (text_len format <=? MAX_FORMAT_CHARS)
         && match format_tokens format with
            | Some [] | None => false
            | Some tokens =>
                if existsb (contains NAMED) tokens
                then match as_str (at_ part "lang") with Some language => contains LANGUAGES language | None => false end
                else is_null (at_ part "lang")
            end
     | None => false
     end.

Fixpoint admitted_parts (parts : list Value) (previous_text dated : bool) : bool :=
  match parts with
  | [] => dated
  | VString literal :: rest => negb (is_empty literal || previous_text) && admitted_parts rest true dated
  | part :: rest => date_part part && admitted_parts rest false true
  end.
(** [dates::admitted]. *)
Definition template_admitted (parts : Value) : bool :=
  match parts with
  | VArray l => negb ((len l =? 0) || (MAX_PARTS <? len l)) && admitted_parts l false false
  | _ => false
  end.

(** ** Reading *)
Fixpoint doubled (literal : string) : string :=
  match literal with
  | EmptyString => EmptyString
  | String a rest => if one_of "{}" a then String a (String a (doubled rest)) else String a (doubled rest)
  end.
Definition signed (days : Z) : string := (if 0 <=? days then "+" else "") +:+ pretty days.

Definition shown_piece (piece : string * option string) : string :=
  match piece with
  | (literal, None) => literal
  | (_, Some token) => from_option snd token (List.find (fun entry => fst entry =s token) SHOWN_TOKENS)
  end.
Definition shown_part (part : Value) : string :=
  match part with
  | VString literal => doubled literal
  | _ =>
      let form := String.concat "" (map shown_piece (tokenized (str_or_empty (at_ part "format")))) in
      let notes := form :: match as_str (at_ part "lang") with Some language => [language] | None => [] end in
      let days := default 0 (small_int (at_ part "days")) in
      let notes := if days =? 0 then notes else notes ++ [signed days] in
      "{" +:+ String.concat "|" notes +:+ "}"
  end.
(** [dates::shown]. *)
Definition template_shown (parts : list Value) : string := String.concat "" (map shown_part parts).

(** [dates::clock_value] and [dates::admitted_clock]. *)
Definition clock_value {PF : Platform} (source : Value) (instant : Z) (z : TimeZone) : option Value :=
  day ← date_at instant z;
  if is_str (at_ source "format") "date" then Some (text (isoformat day))
  else option_map VString (render (elements (at_ source "parts")) day).

Definition admitted_clock (source : Value) : bool :=
  let format := at_ source "format" in
  let parts := get source "parts" in
  if is_str format "date" then bool_decide (parts = None)
  else is_str format "text" && match parts with Some p => template_admitted p | None => false end.

Definition news : list Value :=
  [text "AI news ";
   object [("days", int 0); ("format", text "{d} de {mmmm} de {yyyy}"); ("lang", text "pt")]%string;
   text " {x} ";
   object [("days", int (-1)); ("format", text "{MMMM} {dd}/{M}"); ("lang", text "fr")]%string].
Example news_written :
  render news (Date.mk 2026 3 1) = Some "AI news 1 de março de 2026 {x} FÉVRIER 28/2"%string
  /\ template_admitted (VArray news) = true
  /\ template_shown news = "AI news {D de month de YYYY|pt} {{x}} {MONTH DD/M|fr|-1}"%string.
Proof. vm_compute. auto. Qed.

(** ** An admitted template always writes *)
Lemma names_of_language language : contains LANGUAGES language = true ->
  exists names, names_of language = Some names /\ length names = 12%nat.
Proof.
  intros H%contains_In. cbn in H. destruct H as [<-|[<-|[<-|[<-|[<-|[<-|[]]]]]]];
    eexists; (split; [vm_compute; reflexivity|reflexivity]).
Qed.

Lemma omap_In {A B} (f : A -> option B) l a b : In a l -> f a = Some b -> In b (omap f l).
Proof.
  intros Ha Hf. apply list_elem_of_In, list_elem_of_omap. exists a. split; [by apply list_elem_of_In|done].
Qed.

Lemma written_pieces_total part day pieces :
  date_valid day ->
  (forall token, In token (omap snd pieces) -> contains NAMED token = true ->
     exists language, as_str (at_ part "lang") = Some language /\ contains LANGUAGES language = true) ->
  exists s, written_pieces part day pieces = Some s.
Proof.
  intros Hd. induction pieces as [|[literal [token|]] pieces IH]; intros Hl; cbn [written_pieces]; [eauto| |].
  - destruct IH as [more ->]; [intros t Ht; apply Hl; by right|].
    enough (exists s, written_piece part day (literal, Some token) = Some s) as [s ->] by (cbn; eauto).
    cbn [written_piece]. destruct (contains NAMED token) eqn:Hn; [|eauto].
    destruct (Hl token ltac:(by left) Hn) as (language & -> & Hlang). cbn [mbind option_bind].
    destruct (names_of_language _ Hlang) as (names & -> & Hlen). cbn [mbind option_bind].
    destruct Hd as (_ & Hm & _). destruct (lookup_lt_is_Some_2 names (Z.to_nat (Date.month day - 1))) as [name ->]; [lia|].
    cbn. eauto.
  - destruct IH as [more ->]; [exact Hl|]. cbn. eauto.
Qed.

Lemma date_part_writes part run_date :
  date_valid run_date -> MAX_OFFSET_DAYS < ordinal run_date <= last_ordinal - MAX_OFFSET_DAYS ->
  date_part part = true -> exists s, written_part part run_date = Some s.
Proof.
  intros Hd Ho [[_ Hdays]%andb_true_iff Hformat]%andb_true_iff. unfold written_part.
  destruct (small_int (at_ part "days")) as [days|]; [|done]. cbn [mbind option_bind].
  destruct (add_days_is_Some run_date days) as [day Hday]; [unfold MAX_OFFSET_DAYS in *; lia|].
  rewrite Hday. cbn [mbind option_bind]. apply add_days_Some in Hday as [Hv _].
  destruct (as_str (at_ part "format")) as [format|]; [|done]. cbn [mbind option_bind].
  apply andb_true_iff in Hformat as [_ Htokens]. apply written_pieces_total; [done|].
  unfold format_tokens in Htokens. destruct (_ || _); [done|]. intros token Hin Hn.
  destruct (omap snd (tokenized format)) as [|first rest] eqn:Ht; [done|].
  assert (existsb (contains NAMED) (first :: rest) = true) as He by (apply existsb_exists; eauto).
  rewrite He in Htokens. destruct (as_str (at_ part "lang")) as [language|]; [|done]. eauto.
Qed.

Lemma render_total parts run_date previous dated :
  date_valid run_date -> MAX_OFFSET_DAYS < ordinal run_date <= last_ordinal - MAX_OFFSET_DAYS ->
  admitted_parts parts previous dated = true -> exists s, render parts run_date = Some s.
Proof.
  intros Hd Ho. revert previous dated. induction parts as [|part parts IH]; intros previous dated Hp; cbn [render]; [eauto|].
  destruct part; cbn [admitted_parts] in Hp; apply andb_true_iff in Hp as [H1 H2];
    apply IH in H2 as [more ->]; cbn [mbind option_bind];
    try (destruct (date_part_writes _ run_date Hd Ho H1) as [s ->]); cbn; eauto.
Qed.

(** C40. An admitted run-clock template writes a text on every date at least
    [MAX_OFFSET_DAYS] inside the calendar: a run never stops because its date
    could not be written. *)
Theorem template_writes parts run_date :
  template_admitted (VArray parts) = true -> date_valid run_date ->
  MAX_OFFSET_DAYS < ordinal run_date <= last_ordinal - MAX_OFFSET_DAYS ->
  exists written, render parts run_date = Some written.
Proof. intros [_ Hp]%andb_true_iff Hd Ho. by eapply render_total. Qed.

Lemma template_writes_witness : exists written, render news (Date.mk 2026 3 1) = Some written.
Proof.
  apply (template_writes news (Date.mk 2026 3 1)).
  - vm_compute. reflexivity.
  - unfold date_valid. vm_compute. intuition congruence.
  - vm_compute. intuition congruence.
Defined.
