(* ===== verification/Starts.v ===== *)
(** * Starts in a rolling 24 hours

    [routine/src/claim/starts.rs]: the window of a Team's starts, the instant
    one more start fits its caps, and recording a start.  The theorems show that
    [free_at] is the least instant at which the start fits, and that a history
    of starts gated by it never exceeds the Team's daily steps or a Routine's
    own cap in any window. *)

From stdpp Require Import base tactics list strings.
From Stdlib Require Import ZArith Lia Sorting.Sorted.
From S2P Require Import Prelude.

#[local] Open Scope Z_scope.

(** [plan::MAX_DAILY_STEPS]: the business steps a Team's runs may start in any
    rolling 24 hours. *)
Definition MAX_DAILY_STEPS : Z := 20000.
Definition WINDOW_SECONDS : Z := 86400.
Definition MAX_STARTS : Z := MAX_DAILY_STEPS.

(** One start: its Routine, its instant, and the steps it reserved. *)
Definition Start : Type := (string * Z * Z)%type.
Definition start_id (s : Start) : string := s.1.1.
Definition start_at (s : Start) : Z := s.1.2.
Definition start_steps (s : Start) : Z := s.2.

Definition window (starts : list Start) (now : Z) : list Start :=
  stable_sort (fun a b => start_at a <=? start_at b)
    (List.filter (fun item => now - WINDOW_SECONDS <? start_at item) starts).

Definition free_at_limit (instants : list Z) (limit now : Z) : Z :=
  let count := len instants in
  if count <? limit then now
  else match (if 0 <=? count - limit then instants !! Z.to_nat (count - limit) else None) with
       | Some instant => instant + WINDOW_SECONDS
       | None => now
       end.

Fixpoint steps_free_loop (current : list Start) (used steps now : Z) : Z :=
  match current with
  | [] => now
  | s :: rest =>
      if used + steps <=? MAX_DAILY_STEPS then now
      else steps_free_loop rest (used - start_steps s) steps (start_at s + WINDOW_SECONDS)
  end.
Definition steps_free_at (current : list Start) (steps now : Z) : Z :=
  steps_free_loop current (zsum (map start_steps current)) steps now.

Definition free_at (starts : list Start) (routine_id : string) (cap : option Z) (now steps : Z) : Z :=
  let current := window starts now in
  let own :=
    match cap with
    | None => now
    | Some cap =>
        free_at_limit (map start_at (List.filter (fun item => start_id item =s routine_id) current)) cap now
    end in
  Z.max own (steps_free_at current steps now).

Definition started (starts : list Start) (routine_id : string) (now steps : Z) : list Start :=
  window starts now ++ [(routine_id, now, steps)].

Example starts_run :
  let starts := [("b"%string, 200, 12000); ("a"%string, 100, 7000)] in
  free_at starts "a" None 1000 2000 = 86500 /\ free_at starts "a" None 1000 1000 = 1000
  /\ free_at starts "a" (Some 1) 1000 10 = 86500
  /\ started starts "c" 86450 5 = [("a"%string, 100, 7000); ("b"%string, 200, 12000); ("c"%string, 86450, 5)].
Proof. vm_compute. auto. Qed.

(** ** What fits

    The steps reserved, and a Routine's own starts, still inside the 24 hours
    that end at [t]. *)
Definition in_window (t : Z) (s : Start) : bool := t - WINDOW_SECONDS <? start_at s.
Definition used_at (starts : list Start) (t : Z) : Z :=
  zsum (map start_steps (List.filter (in_window t) starts)).
Definition own_at (starts : list Start) (id : string) (t : Z) : Z :=
  len (List.filter (fun s => start_id s =s id) (List.filter (in_window t) starts)).
Definition fits (starts : list Start) (id : string) (cap : option Z) (steps t : Z) : Prop :=
  used_at starts t + steps <= MAX_DAILY_STEPS
  /\ match cap with Some c => own_at starts id t < c | None => True end.

Definition steps_nonneg (starts : list Start) : Prop := List.Forall (fun s => 0 <= start_steps s) starts.
Definition by_instant : Start -> Start -> Prop := fun a b => (start_at a <=? start_at b) = true.

Lemma window_sorted starts now : StronglySorted by_instant (window starts now).
Proof. apply stable_sort_Sorted; intros; lia. Qed.

Lemma window_perm starts now : window starts now ≡ₚ List.filter (in_window now) starts.
Proof. apply stable_sort_perm. Qed.

Lemma zsum_perm l k : l ≡ₚ k -> zsum l = zsum k.
Proof. induction 1; unfold zsum in *; cbn in *; lia. Qed.

Lemma filter_perm {A} (p : A -> bool) l k : l ≡ₚ k -> List.filter p l ≡ₚ List.filter p k.
Proof.
  induction 1; cbn; [done| | |by etrans].
  - destruct (p x); by rewrite ?IHPermutation.
  - destruct (p x), (p y); try done. by rewrite Permutation_swap.
Qed.

Lemma filter_filter_imp {A} (p q : A -> bool) l :
  (forall x, p x = true -> q x = true) -> List.filter p (List.filter q l) = List.filter p l.
Proof.
  intros Hpq. induction l as [|x l IH]; cbn; [done|].
  destruct (q x) eqn:Hq; cbn; destruct (p x) eqn:Hp; rewrite ?IH; auto.
  rewrite (Hpq _ Hp) in Hq. done.
Qed.

Lemma filter_comm {A} (p q : A -> bool) l :
  List.filter p (List.filter q l) = List.filter q (List.filter p l).
Proof.
  induction l as [|x l IH]; cbn; [done|].
  destruct (q x) eqn:Hq; destruct (p x) eqn:Hp; cbn; rewrite ?Hp, ?Hq, ?IH; auto.
Qed.

Lemma used_at_perm l k t : l ≡ₚ k -> used_at l t = used_at k t.
Proof. intros H. apply zsum_perm. by rewrite (filter_perm _ _ _ H). Qed.
Lemma own_at_perm l k id t : l ≡ₚ k -> own_at l id t = own_at k id t.
Proof.
  intros H. unfold own_at, len. f_equal. apply Permutation_length.
  by apply filter_perm, filter_perm.
Qed.

(** The window keeps everything any later window needs. *)
Lemma used_at_window starts now t : now <= t -> used_at (window starts now) t = used_at starts t.
Proof.
  intros Hle. rewrite (used_at_perm _ _ t (window_perm starts now)). unfold used_at.
  rewrite filter_filter_imp; [done|]. unfold in_window. intros x. lia.
Qed.
Lemma own_at_window starts id now t : now <= t -> own_at (window starts now) id t = own_at starts id t.
Proof.
  intros Hle. rewrite (own_at_perm _ _ id t (window_perm starts now)). unfold own_at.
  rewrite (filter_filter_imp (in_window t) (in_window now)); [done|]. unfold in_window. intros x. lia.
Qed.

Lemma zsum_filter_le (p : Start -> bool) l : steps_nonneg l ->
  0 <= zsum (map start_steps (List.filter p l)) <= zsum (map start_steps l).
Proof.
  induction 1 as [|s l Hs Hl IH]; cbn; [lia|].
  destruct (p s); unfold zsum in *; cbn in *; lia.
Qed.

Lemma zsum_filter_mono (p q : Start -> bool) l : steps_nonneg l ->
  (forall s, p s = true -> q s = true) ->
  zsum (map start_steps (List.filter p l)) <= zsum (map start_steps (List.filter q l)).
Proof.
  intros Hl Hpq. rewrite <- (filter_filter_imp p q l Hpq). apply zsum_filter_le.
  apply List.Forall_forall. intros x [Hx _]%filter_In. by eapply List.Forall_forall in Hl.
Qed.

Lemma used_at_mono starts t u : steps_nonneg starts -> t <= u -> used_at starts u <= used_at starts t.
Proof. intros Hs Hle. apply zsum_filter_mono; [done|]. unfold in_window. intros s. lia. Qed.

Lemma filter_length_mono {A} (p q : A -> bool) l :
  (forall s, p s = true -> q s = true) -> (length (List.filter p l) <= length (List.filter q l))%nat.
Proof.
  intros Hpq. induction l as [|x l IH]; cbn; [done|].
  destruct (p x) eqn:Hp; [rewrite (Hpq _ Hp); cbn; lia|]. destruct (q x); cbn; lia.
Qed.

Lemma own_at_mono starts id t u : t <= u -> own_at starts id u <= own_at starts id t.
Proof.
  intros Hle. unfold own_at, len. rewrite !(filter_comm (fun s => start_id s =s id)).
  apply inj_le, filter_length_mono. unfold in_window. intros s. lia.
Qed.

Lemma used_at_cons_in s l t : in_window t s = true -> used_at (s :: l) t = start_steps s + used_at l t.
Proof. intros H. unfold used_at. cbn. by rewrite H. Qed.
Lemma used_at_cons_out s l t : in_window t s = false -> used_at (s :: l) t = used_at l t.
Proof. intros H. unfold used_at. cbn. by rewrite H. Qed.
Lemma used_at_all l t : List.Forall (fun s => in_window t s = true) l -> used_at l t = zsum (map start_steps l).
Proof. intros H. unfold used_at. by rewrite filter_all. Qed.
Lemma used_at_le l t : steps_nonneg l -> used_at l t <= zsum (map start_steps l).
Proof. intros H. by apply zsum_filter_le. Qed.

Definition ending_after (now : Z) (l : list Start) : Prop :=
  List.Forall (fun s => now <= start_at s + WINDOW_SECONDS) l.

(** [steps_free_at] is the least instant from [now] on that leaves room. *)
Lemma steps_free_loop_least current steps now :
  StronglySorted by_instant current -> steps_nonneg current -> ending_after now current ->
  steps <= MAX_DAILY_STEPS ->
  let t := steps_free_loop current (zsum (map start_steps current)) steps now in
  now <= t /\ used_at current t + steps <= MAX_DAILY_STEPS
  /\ (forall u, now <= u < t -> MAX_DAILY_STEPS < used_at current u + steps).
Proof.
  intros Hs. revert now. induction Hs as [|s rest Hs IH Hall]; intros now Hn He Hst; cbn [steps_free_loop].
  - cbn. unfold used_at. cbn. split_and!; lia.
  - inversion Hn as [|? ? Hn1 Hn2]. inversion He as [|? ? He1 He2]. subst.
    destruct (Z.leb_spec (zsum (map start_steps (s :: rest)) + steps) MAX_DAILY_STEPS) as [Hfit|Hfull].
    + pose proof (used_at_le (s :: rest) now Hn). split_and!; lia.
    + cbn [map zsum fold_right] in Hfull |- *. fold (zsum (map start_steps rest)) in *.
      replace (start_steps s + zsum (map start_steps rest) - start_steps s)
        with (zsum (map start_steps rest)) by lia.
      destruct (IH (start_at s + WINDOW_SECONDS) Hn2) as (Hle & Hfit & Hleast); [|done|].
      { eapply List.Forall_impl; [|exact Hall]. unfold by_instant. intros a Ha. lia. }
      set (t := steps_free_loop rest _ steps _) in *. split; [lia|]. split.
      * rewrite used_at_cons_out; [lia|]. unfold in_window. lia.
      * intros u [Hu1 Hu2]. destruct (Z.lt_ge_cases u (start_at s + WINDOW_SECONDS)) as [Hlt|Hge].
        -- rewrite used_at_all; [cbn; fold (zsum (map start_steps rest)); lia|].
           constructor; [unfold in_window; lia|].
           eapply List.Forall_impl; [|exact Hall]. unfold by_instant, in_window. intros a Ha. lia.
        -- rewrite used_at_cons_out by (unfold in_window; lia). apply Hleast. lia.
Qed.

(** Splitting a sorted list of instants at an index. *)
Lemma sorted_split (l : list Z) k x :
  StronglySorted Z.le l -> l !! k = Some x ->
  List.Forall (fun y => y <= x) (take (S k) l) /\ List.Forall (fun y => x <= y) (drop k l).
Proof.
  intros Hs. revert k. induction Hs as [|a l Hs IH Hall]; intros [|k] Hk; cbn in *; try done.
  - injection Hk as ->. split; [repeat constructor; lia|]. constructor; [lia|].
    by eapply List.Forall_impl; [|exact Hall].
  - destruct (IH k Hk) as [H1 H2]. split; [|done]. constructor; [|done].
    eapply List.Forall_forall in Hall; [exact Hall|]. apply list_elem_of_In.
    by eapply list_elem_of_lookup_2.
Qed.

Definition later_than (u : Z) (instants : list Z) : Z :=
  len (List.filter (fun i => u - WINDOW_SECONDS <? i) instants).

Lemma later_than_le u l : 0 <= later_than u l <= len l.
Proof. unfold later_than, len. pose proof (List.filter_length_le (fun i => u - WINDOW_SECONDS <? i) l). lia. Qed.
Lemma later_than_app u l k : later_than u (l ++ k) = later_than u l + later_than u k.
Proof. unfold later_than. by rewrite List.filter_app, len_app. Qed.

(** [free_at_limit] is the least instant from [now] on with room under the limit. *)
Lemma free_at_limit_least instants limit now :
  StronglySorted Z.le instants -> List.Forall (fun i => now <= i + WINDOW_SECONDS) instants -> 1 <= limit ->
  let t := free_at_limit instants limit now in
  now <= t /\ later_than t instants < limit
  /\ (forall u, now <= u < t -> limit <= later_than u instants).
Proof.
  intros Hs Hw Hl. unfold free_at_limit. pose proof (len_nonneg instants).
  destruct (Z.ltb_spec (len instants) limit) as [Hlt|Hge].
  - pose proof (later_than_le now instants). cbn. split_and!; lia.
  - assert ((0 <=? len instants - limit) = true) as -> by lia.
    set (k := Z.to_nat (len instants - limit)).
    assert (k < length instants)%nat as Hk by (unfold k, len in *; lia).
    destruct (lookup_lt_is_Some_2 instants k Hk) as [x Hx]. rewrite Hx. cbn.
    destruct (sorted_split instants k x Hs Hx) as [Hbefore Hafter]. split_and!.
    + eapply List.Forall_forall in Hw; [exact Hw|]. apply list_elem_of_In. by eapply list_elem_of_lookup_2.
    + rewrite <- (take_drop (S k) instants), later_than_app.
      unfold later_than at 1. rewrite filter_none.
      2: { eapply List.Forall_impl; [|exact Hbefore]. cbn. intros y Hy. lia. }
      pose proof (later_than_le (x + WINDOW_SECONDS) (drop (S k) instants)).
      unfold len in *. cbn [length] in *. rewrite length_drop in *. unfold k in *. lia.
    + intros u [Hu1 Hu2]. rewrite <- (take_drop k instants), later_than_app.
      pose proof (later_than_le u (take k instants)).
      unfold later_than at 2. rewrite filter_all.
      2: { eapply List.Forall_impl; [|exact Hafter]. cbn. intros y Hy. lia. }
      unfold len in *. rewrite length_drop. unfold k in *. lia.
Qed.

(** ** The whole gate *)
Lemma window_ending starts now : ending_after now (window starts now).
Proof.
  apply List.Forall_forall. intros s Hs.
  rewrite <- list_elem_of_In, window_perm, list_elem_of_In in Hs. apply filter_In in Hs as [_ Hs].
  unfold in_window in Hs. lia.
Qed.

Lemma steps_nonneg_window starts now : steps_nonneg starts -> steps_nonneg (window starts now).
Proof.
  intros H. apply List.Forall_forall. intros s Hs.
  rewrite <- list_elem_of_In, window_perm, list_elem_of_In in Hs. apply filter_In in Hs as [Hs _].
  by eapply List.Forall_forall in H.
Qed.

Lemma sorted_instants (p : Start -> bool) l :
  StronglySorted by_instant l -> StronglySorted Z.le (map start_at (List.filter p l)).
Proof.
  induction 1 as [|s l Hs IH Hall]; cbn; [constructor|]. destruct (p s); [|done]. cbn. constructor; [done|].
  apply List.Forall_forall. intros y (x & <- & Hx)%in_map_iff. apply filter_In in Hx as [Hx _].
  eapply List.Forall_forall in Hall; [|exact Hx]. unfold by_instant in Hall. lia.
Qed.

Lemma later_than_own l id u :
  later_than u (map start_at (List.filter (fun s => start_id s =s id) l)) = own_at l id u.
Proof.
  unfold later_than, own_at, len. f_equal. induction l as [|s l IH]; cbn; [done|].
  destruct (in_window u s) eqn:Hw; destruct (start_id s =s id) eqn:Hi; cbn; rewrite ?Hi; try done.
  - unfold in_window in Hw. rewrite Hw. cbn. by rewrite IH.
  - unfold in_window in Hw. by rewrite Hw.
Qed.

Lemma free_at_spec starts id cap now steps :
  steps_nonneg starts -> steps <= MAX_DAILY_STEPS ->
  (forall c, cap = Some c -> 1 <= c) ->
  let t := free_at starts id cap now steps in
  now <= t /\ fits starts id cap steps t
  /\ (forall u, now <= u < t -> ~ fits starts id cap steps u).
Proof.
  intros Hn Hst Hcap. cbn zeta. unfold free_at.
  destruct (steps_free_loop_least (window starts now) steps now (window_sorted _ _)
    (steps_nonneg_window _ _ Hn) (window_ending _ _) Hst) as (Hle & Hfit & Hleast).
  fold (steps_free_at (window starts now) steps now) in *.
  set (t := steps_free_at _ _ _) in *. unfold fits. destruct cap as [c|].
  - pose proof (free_at_limit_least
      (map start_at (List.filter (fun item => start_id item =s id) (window starts now))) c now
      (sorted_instants _ _ (window_sorted starts now))) as Hlim.
    destruct Hlim as (Hle' & Hfit' & Hleast'); [|by apply Hcap|].
    { apply List.Forall_forall. intros y (x & <- & Hx)%in_map_iff. apply filter_In in Hx as [Hx _].
      pose proof (window_ending starts now) as He. by eapply List.Forall_forall in He. }
    set (w := free_at_limit _ _ _) in *. rewrite later_than_own, own_at_window in Hfit' by lia.
    rewrite used_at_window in Hfit by lia. split; [lia|]. split; [split|].
    + pose proof (used_at_mono starts t (Z.max w t) Hn). lia.
    + pose proof (own_at_mono starts id w (Z.max w t)). lia.
    + intros u Hu [Hf1 Hf2]. destruct (Z.lt_ge_cases u t).
      * specialize (Hleast u). rewrite used_at_window in Hleast by lia. lia.
      * specialize (Hleast' u). rewrite later_than_own, own_at_window in Hleast' by lia. lia.
  - rewrite used_at_window in Hfit by lia. rewrite Z.max_r by lia. split_and!; auto.
    intros u Hu [Hf _]. specialize (Hleast u Hu). rewrite used_at_window in Hleast by lia. lia.
Qed.

(** [free_at] is the least instant from [now] on at which one more start of
    [steps] steps fits both the Team's daily steps and the Routine's own cap. *)
Theorem free_at_least starts id cap now steps :
  steps_nonneg starts -> steps <= MAX_DAILY_STEPS ->
  (forall c, cap = Some c -> 1 <= c) ->
  let t := free_at starts id cap now steps in
  now <= t /\ fits starts id cap steps t
  /\ (forall u, now <= u < t -> ~ fits starts id cap steps u).
Proof. apply free_at_spec. Qed.

Lemma free_at_least_witness :
  let starts := [("b"%string, 200, 12000); ("a"%string, 100, 7000)] in
  let t := free_at starts "a" (Some 2) 1000 2000 in
  1000 <= t /\ fits starts "a" (Some 2) 2000 t
  /\ (forall u, 1000 <= u < t -> ~ fits starts "a" (Some 2) 2000 u).
Proof.
  apply (free_at_least [("b"%string, 200, 12000); ("a"%string, 100, 7000)] "a" (Some 2) 1000 2000).
  - repeat constructor; cbn; lia.
  - unfold MAX_DAILY_STEPS. lia.
  - intros c [= <-]. lia.
Defined.

(** ** Histories

    A Team starts runs one after another, each only once [free_at] allows it,
    and keeps only [started]'s window.  [history] is every start ever made. *)
Inductive gated : list Start -> list Start -> Z -> Prop :=
| gated_none : gated [] [] 0
| gated_start kept history now id cap steps at_ :
    gated kept history now -> now <= at_ -> 0 <= steps <= MAX_DAILY_STEPS ->
    (forall c, cap = Some c -> 1 <= c) ->
    free_at kept id cap at_ steps <= at_ ->
    gated (started kept id at_ steps) (history ++ [(id, at_, steps)]) at_.

(** The steps of the starts in the 24 hours that end at [t]. *)
Definition steps_in_day (history : list Start) (t : Z) : Z :=
  zsum (map start_steps (List.filter (fun s => in_window t s && (start_at s <=? t)) history)).

Lemma used_at_app l k t : used_at (l ++ k) t = used_at l t + used_at k t.
Proof. unfold used_at. by rewrite List.filter_app, map_app, zsum_app. Qed.
Lemma own_at_app l k id t : own_at (l ++ k) id t = own_at l id t + own_at k id t.
Proof. unfold own_at. by rewrite !List.filter_app, len_app. Qed.

Lemma gated_kept kept history now : gated kept history now ->
  steps_nonneg kept /\ steps_nonneg history
  /\ List.Forall (fun s => start_at s <= now) history
  /\ (forall t, now <= t -> used_at kept t = used_at history t)
  /\ (forall t id, now <= t -> own_at kept id t = own_at history id t).
Proof.
  induction 1 as [|kept history now id cap steps at_ Hg IH Hle Hs Hc Hf].
  - split_and!; [constructor|constructor|constructor|done|done].
  - destruct IH as (Hk & Hh & Hb & Hu & Ho). unfold started.
    assert (List.Forall (fun s => start_at s <= at_) history) as Hb'
      by (eapply List.Forall_impl; [|exact Hb]; cbn; lia).
    pose proof (steps_nonneg_window kept at_ Hk) as Hkw. unfold steps_nonneg in *.
    split_and!; [apply List.Forall_app; split; [done|]; constructor; cbn; [lia|constructor] ..| |].
    + intros t Ht. rewrite !used_at_app, used_at_window, Hu by lia. done.
    + intros t id' Ht. rewrite !own_at_app, own_at_window, Ho by lia. done.
Qed.

Lemma zsum_filter_ext (p q : Start -> bool) l :
  List.Forall (fun s => p s = q s) l ->
  zsum (map start_steps (List.filter p l)) = zsum (map start_steps (List.filter q l)).
Proof. induction 1 as [|s l Hs Hl IH]; cbn; [done|]. rewrite Hs. destruct (q s); cbn; unfold zsum in *; cbn in *; lia. Qed.

(** No 24 hours of a Team whose starts pass the gate reserve more than
    [MAX_DAILY_STEPS] steps. *)
Lemma gated_steps kept history now t :
  gated kept history now -> steps_in_day history t <= MAX_DAILY_STEPS.
Proof.
  induction 1 as [|kept history now id cap steps at_ Hg IH Hle Hs Hc Hf].
  - unfold steps_in_day. cbn. unfold MAX_DAILY_STEPS. lia.
  - destruct (gated_kept _ _ _ Hg) as (Hk & Hh & Hb & Hu & _).
    destruct (free_at_spec kept id cap at_ steps Hk ltac:(lia) Hc) as (Hge & [Hfit _] & _).
    replace (free_at kept id cap at_ steps) with at_ in * by lia.
    rewrite Hu in Hfit by lia.
    unfold steps_in_day in *. rewrite List.filter_app, map_app, zsum_app. cbn [List.filter start_at fst snd].
    destruct (Z.leb_spec at_ t) as [Hat|Hat].
    + assert (zsum (map start_steps (List.filter (fun s => in_window t s && (start_at s <=? t)) history))
              <= used_at history at_) as Hle'.
      { apply zsum_filter_mono; [done|]. unfold in_window. intros s. lia. }
      destruct (in_window t (id, at_, steps)); cbn; lia.
    + rewrite andb_false_r. cbn. lia.
Qed.
