(* ===== verification/Plans.v ===== *)
(** * Plans

    [routine/src/plan/mod.rs]: the bounds of a plan, its closed shape, the
    selection of values from a step's result by RFC 6901 pointers, and the
    resolution of a step's inputs.  [well_formed] is the
    shape check every kept plan passes; [Admission] has the admission against the
    contracts of the Actions. *)

From stdpp Require Import base tactics list strings relations.
From Stdlib Require Import ZArith Lia Ascii.
From S2P Require Import Prelude Text Json Reader Calendar Platform Wire Schedule Dates Starts.

#[local] Open Scope Z_scope.

Definition PLAN_VERSION : Z := 4.
Definition MAX_STEPS : Z := 256.
Definition MAX_PLAN_BYTES : Z := 256 * 1024.
Definition MAX_DEFINITION_BYTES : Z := 512 * 1024.
Definition TEAM_DEFINITION_BYTES : Z := 1024 * 1024.
Definition MAX_RESOLVED_INPUT_BYTES : Z := 128 * 1024.
Definition START_LEASE_SECONDS : Z := 900.
Definition LEASE_MARGIN_SECONDS : Z := 300.
Definition SHORT_ACTIVE_SECONDS : Z := 600.
Definition MAX_ACTIVE_SECONDS : Z := 7200.
Definition MAX_RETAINED_BYTES : Z := 128 * 1024.
Definition MAX_POINTER : Z := MAX_POINTER_CHARS.
Definition SAMPLE_INSTANT : Z := 1767225600.

Definition active_seconds (units : Z) : Z :=
  Z.min (i64_sat (i64_sat (units * 30) + 360)) MAX_ACTIVE_SECONDS.
Definition long_run (steps : Z) : bool := SHORT_ACTIVE_SECONDS <? active_seconds steps.

(** ** Pointers *)

(** [token.replace("~1", "/")] and the like: a two-byte pattern by one byte. *)
Fixpoint replace_pair (p q r : ascii) (s : string) : string :=
  match s with
  | String a ((String b s') as t) =>
      if Ascii.eqb a p && Ascii.eqb b q then String r (replace_pair p q r s')
      else String a (replace_pair p q r t)
  | _ => s
  end.

Definition index_token (token : string) : option nat :=
  let valid := negb (is_empty token) && (slen token <=? 9) && all_bytes is_digit token
               && ((token =s "0") || negb (bool_decide (is_Some (strip_prefix "0" token)))) in
  if valid then option_map Z.to_nat (parse_int token) else None.

Definition unescape (token : string) : string :=
  replace_pair "~" "0" "~" (replace_pair "~" "1" "/" token).

Definition pointer_tokens_of (pointer : string) : option (list string) :=
  if (MAX_POINTER <? text_len pointer) || negb (POINTER_RE pointer) then None
  else match pointer with
       | EmptyString => Some []
       | String _ rest => Some (map unescape (split_on "/" rest))
       end.

Definition pointer_tokens (pointer : Value) : option (list string) :=
  p ← as_str pointer; pointer_tokens_of p.

(** One token's descent into a value. *)
Definition descend (current : Value) (token : string) : option Value :=
  match current with
  | VObject found => lookup_member found token
  | VArray items => index_token token ≫= fun index => items !! index
  | _ => None
  end.

Fixpoint select_tokens (current : Value) (tokens : list string) : result Value :=
  match tokens with
  | [] => Ok current
  | token :: rest =>
      next ← ok_or "plan-reference-missing" (descend current token);
      select_tokens next rest
  end.

Definition select (value pointer : Value) : result Value :=
  tokens ← ok_or "plan-reference-invalid" (pointer_tokens pointer);
  select_tokens value tokens.

(** ** Exact equality of JSON values *)
Fixpoint same (left right : Value) {struct left} : bool :=
  match left, right with
  | VBool a, VBool b => Bool.eqb a b
  | VNumber _, VNumber _ => py_eq left right
  | VArray l, VArray r =>
      Nat.eqb (length l) (length r) &&
      (fix go (l r : list Value) : bool :=
         match l, r with
         | a :: l', b :: r' => same a b && go l' r'
         | _, _ => true
         end) l r
  | VObject l, VObject r =>
      Nat.eqb (length l) (length r) &&
      forallb (fun kv => match lookup_member r (fst kv) with
                         | Some other => same (snd kv) other
                         | None => false
                         end) l
  | VString a, VString b => a =s b
  | VNull, VNull => true
  | _, _ => false
  end.

Definition where_shape (value : Value) : bool :=
  match value with
  | VObject found =>
      Nat.eqb (length found) 1
      && forallb (fun kv => match snd kv with VString _ => true | c => is_integer c end) found
  | _ => false
  end.

Definition where_matches (key : string) (constant entry : Value) : bool :=
  match get entry key with
  | Some member => is_object entry && same member constant
  | None => false
  end.

Definition select_where (value pointer where_ item : Value) : result Value :=
  if negb (bool_decide (is_Some (pointer_tokens pointer)))
     || negb (bool_decide (is_Some (pointer_tokens item))) || negb (where_shape where_)
  then Err "plan-reference-invalid"
  else
    chosen ← select value pointer;
    match chosen with
    | VArray items =>
        match members where_ with
        | (key, constant) :: _ =>
            match List.filter (where_matches key constant) items with
            | [] => Err "plan-reference-missing"
            | [one] => select one item
            | _ => Err "plan-reference-ambiguous"
            end
        | [] => Err "plan-reference-invalid"
        end
    | _ => Err "plan-reference-missing"
    end.

(** ** Ordered maps: [BTreeMap] and [BTreeSet] over tuples of strings *)
Fixpoint compare_strings (a b : list string) : comparison :=
  match a, b with
  | [], [] => Eq
  | [], _ => Lt
  | _, [] => Gt
  | x :: a', y :: b' => match String.compare x y with Eq => compare_strings a' b' | c => c end
  end.

Section Tree.
  Context {K V : Type} (parts : K -> list string).

Fixpoint tree_insert (k : K) (v : V) (tree : list (K * V)) : list (K * V) :=
  match tree with
  | [] => [(k, v)]
  | (h, w) :: rest =>
      match compare_strings (parts k) (parts h) with
      | Lt => (k, v) :: tree
      | Eq => (h, v) :: rest
      | Gt => (h, w) :: tree_insert k v rest
      end
  end.
Definition tree_of (entries : list (K * V)) : list (K * V) :=
  fold_left (fun tree kv => tree_insert (fst kv) (snd kv) tree) entries [].
Definition tree_get (k : K) (tree : list (K * V)) : option V :=
  option_map snd
    (List.find (fun kv => match compare_strings (parts k) (parts (fst kv)) with Eq => true | _ => false end)
       tree).
End Tree.

(** ** Plans and steps *)
Module Step.
Record Step : Type := mk {
  step_id : string;
  assistant_id : string;
  action : string;
  pin : string;
  inputs : list (string * Value);
  output_schema : Value;
  input_schema : Value;
}.
End Step.

Definition step_input (s : Step.Step) (member : string) : option Value :=
  lookup_member (Step.inputs s) member.

(** [Selector]: pointer, [where] text, item pointer; a [Key] has the step before them. *)
Definition Selector : Type := (string * string * string)%type.
Definition Key : Type := (string * string * string * string)%type.
Definition selector_parts (k : Selector) : list string := let '(pointer, w, item) := k in [pointer; w; item].
Definition key_parts (k : Key) : list string :=
  let '(step, pointer, w, item) := k in [step; pointer; w; item].

Module Plan.
Record Plan : Type := mk {
  timezone : string;
  steps : list Step.Step;
  digest : string;
  output : Value;
}.
End Plan.

Section Plans.
  Context {PF : Platform} {VO : Vocabulary}.

(** [selector]: a [step_output] source's complete selection key. *)
Definition selector (source : Value) : Key :=
  let where_text :=
    match get source "where" with
    | None | Some VNull => ""%string
    | Some constant => canonical constant
    end in
  (str_or_empty (at_ source "step"), str_or_empty (at_ source "pointer"), where_text,
   default "" (get source "item" ≫= as_str)).

Definition key_selector (k : Key) : Selector := let '(_, pointer, w, item) := k in (pointer, w, item).

(** [Plan::shown], [Plan::references] and [Plan::step]. *)
Definition plan_shown (plan : Plan.Plan) : option Step.Step :=
  mode ← as_str (at_ (Plan.output plan) "mode");
  if contains SHOWN_MODES mode then last (Plan.steps plan) else None.

Definition refers_to (step_id : string) (source : Value) : bool :=
  is_str (at_ source "kind") "step_output" && is_str (at_ source "step") step_id.

Definition references (plan : Plan.Plan) (step_id : string) : list Selector :=
  map fst (tree_of selector_parts
    (map (fun source => (key_selector (selector source), tt))
      (List.filter (refers_to step_id)
        (flat_map (fun step => map snd (Step.inputs step)) (Plan.steps plan))))).

Definition plan_step (plan : Plan.Plan) (step_id : string) : option Step.Step :=
  List.find (fun step => Step.step_id step =s step_id) (Plan.steps plan).

Definition digest (document : Value) : string := "sha256:" +:+ sha256_hex (canonical document).

(** ** The closed shape of a plan document *)
Definition document_parts (document : Value) : result (string * list Value * Value * string) :=
  if negb (has_fields document ["version"; "timezone"; "steps"; "output"]%string)
  then Err "plan-invalid" else
  let encoded := canonical document in
  _ ← refuse (negb (match get document "version" with
                     | Some (VNumber (NInt v)) => v =? PLAN_VERSION
                     | _ => false
                     end) || (MAX_PLAN_BYTES <? slen encoded)) "plan-invalid";
  let timezone := at_ document "timezone" in
  _ ← (if is_ok (zone timezone) then Ok tt else Err "plan-timezone-invalid");
  match at_ document "steps" with
  | VArray raw_steps =>
      _ ← refuse (MAX_STEPS <? len raw_steps) "plan-invalid";
      Ok (str_or_empty timezone, raw_steps, at_ document "output", encoded)
  | _ => Err "plan-invalid"
  end.

Definition check_output (value : Value) (ids : list string) : result unit :=
  if negb (has_fields value ["mode"; "step"]%string) then Err "plan-output-invalid" else
  match as_str (at_ value "mode") with
  | Some mode =>
      if negb (contains OUTPUT_MODES mode) then Err "plan-output-invalid" else
      match last ids with
      | None => Err "plan-output-invalid"
      | Some last_id =>
          let shown := at_ value "step" in
          let valid := if contains SHOWN_MODES mode then is_str shown last_id else is_null shown in
          if valid then Ok tt else Err "plan-output-invalid"
      end
  | None => Err "plan-output-invalid"
  end.

Definition sample_clock (source : Value) : result Value :=
  ok_or "plan-input-invalid" (clock_value source SAMPLE_INSTANT tz_utc).

Fixpoint holds_credential (value : Value) : bool :=
  match value with
  | VString s => resembles_credential s
  | VArray items => existsb holds_credential items
  | VObject found => existsb (fun kv => resembles_credential (fst kv) || holds_credential (snd kv)) found
  | _ => false
  end.

Definition SOURCE_FIELDS : list (string * list string) :=
  [("literal", ["kind"; "value"]);
   ("run_clock", ["kind"; "format"]);
   ("run_clock", ["kind"; "format"; "parts"]);
   ("step_output", ["kind"; "step"; "pointer"]);
   ("step_output", ["kind"; "step"; "pointer"; "where"; "item"])]%string.

Definition is_present (o : option Value) : bool := match o with Some _ => true | None => false end.

Definition check_source (source : Value) (earlier : list string) : result unit :=
  match as_str (default VNull (get source "kind")) with
  | None => Err "plan-input-invalid"
  | Some kind =>
      if negb (existsb (fun nf => (kind =s fst nf) && has_fields source (snd nf)) SOURCE_FIELDS)
      then Err "plan-input-invalid" else
      _ ← refuse ((kind =s "literal") && holds_credential (at_ source "value")) "plan-secret-literal";
      _ ← refuse ((kind =s "run_clock") && negb (admitted_clock source)) "plan-input-invalid";
      _ ← (if (kind =s "run_clock") && is_present (get source "parts")
           then sample ← sample_clock source;
                refuse (holds_credential sample) "plan-secret-literal"
           else Ok tt);
      refuse ((kind =s "step_output")
              && (negb (existsb (fun known => is_str (at_ source "step") known) earlier)
                  || negb (bool_decide (is_Some (pointer_tokens (at_ source "pointer"))))
                  || (is_present (get source "where")
                      && negb (where_shape (at_ source "where")
                               && bool_decide (is_Some (pointer_tokens (at_ source "item")))))))
             "plan-reference-invalid"
  end.

Fixpoint check_sources (sources : list (string * Value)) (earlier : list string) : result unit :=
  match sources with
  | [] => Ok tt
  | (_, source) :: rest => _ ← check_source source earlier; check_sources rest earlier
  end.

Definition Shape : Type := (string * string * string * string * list (string * Value))%type.
Definition shape_id (s : Shape) : string := let '(id, _, _, _, _) := s in id.

Definition step_shape (raw : Value) (earlier : list string) : result Shape :=
  if negb (has_fields raw ["id"; "assistant"; "action"; "pin"; "input"]%string)
  then Err "plan-step-invalid" else
  let step_id := at_ raw "id" in
  let inputs := at_ raw "input" in
  _ ← refuse (negb (full_value ROUTINE_STEP_ID_RE step_id)
              || existsb (fun known => is_str step_id known) earlier
              || negb (bool_decide (is_Some (canonical_assistant_id (at_ raw "assistant"))))
              || negb (bool_decide (is_Some (canonical_action_id (at_ raw "action"))))
              || negb (full_value PLAN_DIGEST_RE (at_ raw "pin"))
              || negb (is_object inputs)) "plan-step-invalid";
  _ ← check_sources (members inputs) earlier;
  Ok (str_or_empty step_id, str_or_empty (at_ raw "assistant"), str_or_empty (at_ raw "action"),
      str_or_empty (at_ raw "pin"), members inputs).

(** The ids of the steps, each shaped against those before it. *)
Fixpoint step_ids (raw_steps : list Value) (ids : list string) : result (list string) :=
  match raw_steps with
  | [] => Ok ids
  | raw :: rest => shape ← step_shape raw ids; step_ids rest (ids ++ [shape_id shape])
  end.

Definition well_formed (document : Value) : bool :=
  match document_parts document with
  | Err _ => false
  | Ok (_, raw_steps, output, _) =>
      match step_ids raw_steps [] with
      | Err _ => false
      | Ok ids => is_ok (check_output output ids)
      end
  end.

(** ** Selections and resolution *)
Definition selected_value (result_ : Value) (key : Selector) : result Value :=
  let '(pointer, where_text, item) := key in
  if is_empty where_text then select result_ (text pointer)
  else where_ ← ok_or "plan-reference-invalid" (json_parse where_text);
       select_where result_ (text pointer) where_ (text item).

Fixpoint select_all (keys : list Selector) (result_ : Value) (chosen : list (Selector * Value))
  : result (list (Selector * Value)) :=
  match keys with
  | [] => Ok chosen
  | key :: rest =>
      value ← selected_value result_ key;
      select_all rest result_ (tree_insert selector_parts key value chosen)
  end.
Definition selections (plan : Plan.Plan) (step_id : string) (result_ : Value)
  : result (list (Selector * Value)) :=
  select_all (references plan step_id) result_ [].

Definition retained_bytes (selected : list (Key * Value)) : Z :=
  encoded_bytes (VArray (map (fun kv : Key * Value =>
    let '((step, pointer, where_text, item), value) := kv in
    VArray [text step; text pointer; text where_text; text item; value]) selected)).
Definition retained_within (selected : list (Key * Value)) : bool :=
  retained_bytes selected <=? MAX_RETAINED_BYTES.

Definition resolve_input (plan : Plan.Plan) (selected : list (Key * Value)) (started_at : Z) (source : Value)
  : result Value :=
  let kind := at_ source "kind" in
  if is_str kind "literal" then Ok (at_ source "value")
  else if is_str kind "run_clock" then
    match zone_named (Plan.timezone plan) with
    | Ok z => ok_or "plan-input-invalid" (clock_value source started_at z)
    | Err _ => Err "plan-timezone-invalid"
    end
  else ok_or "plan-reference-missing" (tree_get key_parts (selector source) selected).

Fixpoint resolve_inputs (plan : Plan.Plan) (selected : list (Key * Value)) (started_at : Z)
    (inputs : list (string * Value)) : result (list (string * Value)) :=
  match inputs with
  | [] => Ok []
  | (name, source) :: rest =>
      value ← resolve_input plan selected started_at source;
      more ← resolve_inputs plan selected started_at rest;
      Ok ((name, value) :: more)
  end.

Definition resolve (plan : Plan.Plan) (step : Step.Step) (selected : list (Key * Value)) (started_at : Z)
    (validate : Value -> bool) : result Value :=
  resolved ← resolve_inputs plan selected started_at (Step.inputs step);
  let resolved := VObject resolved in
  if MAX_RESOLVED_INPUT_BYTES <? encoded_bytes resolved then Err "plan-input-too-large" else
  _ ← (if validate resolved then Ok tt else Err "plan-input-type");
  Ok resolved.

Definition commitment (resolved : Value) : string := sha256_hex (canonical resolved).
End Plans.

(** [plan::output_state]. *)
Definition output_state (step : Value) (state : string) : Value :=
  object [("step"%string, step); ("state"%string, text state); ("value"%string, VNull);
          ("truncated"%string, VBool false)].

(** ** Pointers decode what RFC 6901 encodes *)

(** RFC 6901's own escaping of one token, and the pointer of a list of tokens. *)
Fixpoint escape_token (s : string) : string :=
  match s with
  | EmptyString => EmptyString
  | String a s' =>
      if Ascii.eqb a "~" then String "~" (String "0" (escape_token s'))
      else if Ascii.eqb a "/" then String "~" (String "1" (escape_token s'))
      else String a (escape_token s')
  end.
Fixpoint pointer_of (tokens : list string) : string :=
  match tokens with
  | [] => EmptyString
  | t :: rest => String "/" (escape_token t +:+ pointer_of rest)
  end.

Lemma replace_pair_cons p q r a s :
  a <> p -> replace_pair p q r (String a s) = String a (replace_pair p q r s).
Proof. intros Hn. destruct s as [|b s]; cbn; [done|]. destruct (Ascii.eqb_spec a p); [done|done]. Qed.

Lemma replace_pair_miss p q r a b s :
  b <> q -> replace_pair p q r (String a (String b s)) = String a (replace_pair p q r (String b s)).
Proof. intros Hn. cbn [replace_pair]. destruct (Ascii.eqb_spec b q); [done|]. by rewrite andb_false_r. Qed.
Lemma replace_pair_hit p q r s : replace_pair p q r (String p (String q s)) = String r (replace_pair p q r s).
Proof. cbn [replace_pair]. by rewrite !Ascii.eqb_refl. Qed.

Lemma unescape_escape t : unescape (escape_token t) = t.
Proof.
  unfold unescape. induction t as [|a t IH]; cbn [escape_token]; [done|].
  destruct (Ascii.eqb_spec a "~") as [->|Hne]; [|destruct (Ascii.eqb_spec a "/") as [->|Hne']].
  - rewrite (replace_pair_miss "~" "1"), (replace_pair_cons "~" "1"), replace_pair_hit by done. by rewrite IH.
  - rewrite replace_pair_hit, replace_pair_cons by done. by rewrite IH.
  - rewrite !replace_pair_cons by done. by rewrite IH.
Qed.

Lemma eq_byte a b : (byte_code a =? byte_code b) = Ascii.eqb a b.
Proof.
  destruct (Ascii.eqb_spec a b) as [->|Hne]; [lia|].
  apply Z.eqb_neq. intros He. apply Hne. unfold byte_code in He.
  apply Nat2Z.inj in He. apply (f_equal Ascii.ascii_of_nat) in He. by rewrite !Ascii.ascii_nat_embedding in He.
Qed.

Lemma one_of_1 c a : one_of (String c EmptyString) a = Ascii.eqb a c.
Proof. unfold one_of. cbn. rewrite andb_true_r, negb_involutive, Z.eqb_sym. apply eq_byte. Qed.

Lemma split_on_cons sep a s : a <> sep ->
  split_on sep (String a s) =
  match split_on sep s with [] => [String a EmptyString] | w :: ws => String a w :: ws end.
Proof. intros Hne. cbn [split_on]. rewrite eq_byte. by destruct (Ascii.eqb_spec a sep). Qed.
Lemma append_cons a s t : String a s +:+ t = String a (s +:+ t).
Proof. done. Qed.

(** An escaped token is a segment: no separator inside, closed under escapes. *)
Lemma split_on_escape t rest :
  split_on "/" (escape_token t +:+ rest) =
  match split_on "/" rest with [] => [escape_token t] | w :: ws => (escape_token t +:+ w) :: ws end.
Proof.
  assert (split_on "/" rest <> []) as Hne.
  { destruct rest as [|b r]; cbn; [done|]. destruct (_ =? _); [done|]. by destruct (split_on _ r). }
  induction t as [|a t IH]; cbn [escape_token].
  - change (EmptyString +:+ rest) with rest. by destruct (split_on "/" rest).
  - destruct (Ascii.eqb_spec a "~") as [->|H1]; [|destruct (Ascii.eqb_spec a "/") as [->|H2]];
      rewrite !append_cons, !split_on_cons, IH by done; by destruct (split_on "/" rest).
Qed.

Lemma append_empty_r s : s +:+ EmptyString = s.
Proof. induction s as [|a s IH]; [done|]. by rewrite append_cons, IH. Qed.

Lemma split_on_pointer t tokens :
  split_on "/" (escape_token t +:+ pointer_of tokens) = map escape_token (t :: tokens).
Proof.
  revert t. induction tokens as [|u tokens IH]; intros t; rewrite split_on_escape; cbn [pointer_of].
  - cbn [split_on map]. by rewrite append_empty_r.
  - cbn [split_on]. rewrite Z.eqb_refl, IH. cbn [map]. by rewrite append_empty_r.
Qed.

Lemma pointer_body_cons a s : a <> "~"%char -> pointer_body (String a s) = pointer_body s.
Proof. intros Hne. cbn [pointer_body]. rewrite one_of_1. by destruct (Ascii.eqb_spec a "~"). Qed.

Lemma pointer_body_escape t rest : pointer_body (escape_token t +:+ rest) = pointer_body rest.
Proof.
  induction t as [|a t IH]; cbn [escape_token]; [done|].
  destruct (Ascii.eqb_spec a "~") as [->|H1]; [|destruct (Ascii.eqb_spec a "/") as [->|H2]].
  - exact IH.
  - exact IH.
  - rewrite append_cons, pointer_body_cons by done. exact IH.
Qed.
Lemma pointer_body_of tokens : pointer_body (pointer_of tokens) = true.
Proof.
  induction tokens as [|t tokens IH]; [done|]. cbn [pointer_of].
  by rewrite pointer_body_cons, pointer_body_escape.
Qed.

(** Decoding inverts RFC 6901's encoding. *)
Theorem pointer_roundtrip tokens :
  text_len (pointer_of tokens) <= MAX_POINTER -> pointer_tokens_of (pointer_of tokens) = Some tokens.
Proof.
  intros Hl. unfold pointer_tokens_of. destruct (Z.ltb_spec MAX_POINTER (text_len (pointer_of tokens))); [lia|].
  destruct tokens as [|t tokens]; [done|]. cbn [pointer_of POINTER_RE]. rewrite one_of_1.
  rewrite pointer_body_escape, pointer_body_of. cbn. rewrite split_on_pointer. f_equal.
  rewrite map_map. rewrite (map_ext _ id) by apply unescape_escape. apply map_id.
Qed.

Lemma pointer_roundtrip_witness :
  pointer_tokens_of (pointer_of ["a/b"; "m~n"; ""; "0"]%string) = Some ["a/b"; "m~n"; ""; "0"]%string.
Proof. apply (pointer_roundtrip ["a/b"; "m~n"; ""; "0"]%string). vm_compute. congruence. Defined.

(** ** Well-formed plans only look back *)
Lemma is_str_true v s : is_str v s = true <-> v = VString s.
Proof.
  unfold is_str, as_str. destruct v; try (split; [done|intros [=]]). rewrite seqb_true. split; congruence.
Qed.

Section WellFormed.
  Context {PF : Platform} {VO : Vocabulary}.

Definition raw_id (raw : Value) : string := str_or_empty (at_ raw "id").

(** What one source of a step may read: literals that hold no credential, and
    results of [earlier] steps. *)
Definition source_safe (earlier : list string) (source : Value) : Prop :=
  (is_str (at_ source "kind") "literal" = true -> holds_credential (at_ source "value") = false)
  /\ (is_str (at_ source "kind") "step_output" = true ->
      exists id, at_ source "step" = VString id /\ In id earlier).

Lemma check_source_safe source earlier u : check_source source earlier = Ok u -> source_safe earlier source.
Proof.
  unfold check_source. fold (at_ source "kind"). intros H.
  destruct (as_str (at_ source "kind")) as [kind|] eqn:Hk; [|done].
  destruct (negb (existsb _ SOURCE_FIELDS)); [done|].
  assert (at_ source "kind" = VString kind) as Hkind by (by destruct (at_ source "kind"); simplify_eq/=).
  inv_ok. unfold source_safe. rewrite Hkind. split; intros Hs%is_str_true; injection Hs as ->.
  - by rewrite seqb_refl in *.
  - rewrite seqb_refl in H. cbn in H. inv_ok. destruct (existsb _ earlier) eqn:He; [|done].
    apply existsb_exists in He as (id & Hin & Hid%is_str_true). eauto.
Qed.

Lemma check_sources_safe sources earlier u : check_sources sources earlier = Ok u ->
  List.Forall (fun kv => source_safe earlier (snd kv)) sources.
Proof.
  induction sources as [|[name source] rest IH]; cbn; intros H; [constructor|]. inv_ok.
  constructor; [by eapply check_source_safe|by apply IH].
Qed.

Lemma step_shape_safe raw earlier shape : step_shape raw earlier = Ok shape ->
  shape_id shape = raw_id raw /\ ~ In (raw_id raw) earlier
  /\ List.Forall (fun kv => source_safe earlier (snd kv)) (members (at_ raw "input")).
Proof.
  unfold step_shape. destruct (negb _); [done|]. intros H. inv_ok. cbn.
  split; [done|]. split; [|by eapply check_sources_safe]. intros Hin.
  assert (at_ raw "id" = VString (raw_id raw)) as Hid.
  { unfold raw_id, str_or_empty. match goal with H : full_value _ (at_ raw "id") = true |- _ => revert H end.
    by destruct (at_ raw "id"). }
  match goal with H : existsb _ earlier = false |- _ => rename H into He end.
  enough (existsb (fun known => is_str (at_ raw "id") known) earlier = true) by congruence.
  apply existsb_exists. exists (raw_id raw). split; [done|]. by apply is_str_true.
Qed.

Lemma step_ids_safe raws ids final : List.NoDup ids -> step_ids raws ids = Ok final ->
  final = ids ++ map raw_id raws /\ List.NoDup final
  /\ forall i raw, raws !! i = Some raw ->
       List.Forall (fun kv => source_safe (ids ++ map raw_id (take i raws)) (snd kv)) (members (at_ raw "input")).
Proof.
  revert ids. induction raws as [|raw raws IH]; intros ids Hnd; cbn [step_ids]; intros H; inv_ok.
  - cbn. rewrite app_nil_r. split_and!; [done|done|]. intros i raw Hr. by rewrite lookup_nil in Hr.
  - match goal with H : step_shape _ _ = Ok _ |- _ => apply step_shape_safe in H as (Hid & Hni & Hsafe) end.
    rewrite Hid in H. apply IH in H as (-> & Hnd' & Hall).
    2: { rewrite <- (map_id ids). rewrite <- (map_id ids) in Hnd, Hni.
         change [raw_id raw] with (map (fun x => x) [raw_id raw]). rewrite <- map_app.
         by apply (NoDup_map_app_1 (fun x => x)). }
    rewrite <- app_assoc in *. cbn in *. split_and!; [done|done|].
    intros [|i] raw' Hr; cbn in *; [simplify_eq; by rewrite app_nil_r|].
    specialize (Hall i raw' Hr). by rewrite <- app_assoc in Hall.
Qed.

Lemma well_formed_safe document :
  well_formed document = true ->
  exists raws, at_ document "steps" = VArray raws
    /\ 1 <= len raws <= MAX_STEPS /\ List.NoDup (map raw_id raws)
    /\ forall i raw, raws !! i = Some raw ->
         List.Forall (fun kv => source_safe (map raw_id (take i raws)) (snd kv)) (members (at_ raw "input")).
Proof.
  unfold well_formed, document_parts. intros H.
  destruct (negb (has_fields _ _)); [done|].
  destruct (refuse _ _) eqn:?; cbn in H; [|done]. destruct (is_ok (zone _)); cbn in H; [|done].
  destruct (at_ document "steps") as [| | | |raws|]; try done.
  destruct (Z.ltb_spec MAX_STEPS (len raws)); cbn in H; [done|].
  destruct (step_ids raws []) as [ids|] eqn:Hids; [|done].
  apply step_ids_safe in Hids as (-> & Hnd & Hall); [|constructor]. exists raws. split_and!; auto.
  destruct raws; [|unfold len; cbn; lia]. exfalso. unfold check_output in H. cbn in H. by repeat case_match.
Qed.
(** A well-formed plan has between 1 and [MAX_STEPS] steps with distinct ids,
    and each step's inputs hold no credential and copy only from results of
    steps before it: a plan has no cycle and never reads ahead. *)
Theorem well_formed_looks_back document :
  well_formed document = true ->
  exists raws, at_ document "steps" = VArray raws
    /\ 1 <= len raws <= MAX_STEPS /\ List.NoDup (map raw_id raws)
    /\ forall i raw, raws !! i = Some raw ->
         List.Forall (fun kv => source_safe (map raw_id (take i raws)) (snd kv)) (members (at_ raw "input")).
Proof. apply well_formed_safe. Qed.
End WellFormed.

(** A plan of two steps: the second copies a value from the first's result. *)
Definition pin_a : string := "sha256:0123456789012345678901234567890123456789012345678901234567890123".
Definition sample_plan : Value :=
  object
    [("version", int 4); ("timezone", text "UTC");
     ("steps", VArray
        [object [("id", text "find"); ("assistant", text "stock"); ("action", text "stock.lookup");
                 ("pin", text pin_a);
                 ("input", object [("sku", object [("kind", text "literal"); ("value", text "A-1")])])];
         object [("id", text "order"); ("assistant", text "stock"); ("action", text "stock.order");
                 ("pin", text pin_a);
                 ("input", object [("count", object [("kind", text "step_output"); ("step", text "find");
                                                     ("pointer", text "/items/0")])])]]);
     ("output", object [("mode", text "show"); ("step", text "order")])]%string.

Lemma well_formed_looks_back_witness :
  exists raws, at_ sample_plan "steps" = VArray raws
    /\ 1 <= len raws <= MAX_STEPS /\ List.NoDup (map raw_id raws)
    /\ forall i raw, raws !! i = Some raw ->
         List.Forall (fun kv => @source_safe plain_vocabulary (map raw_id (take i raws)) (snd kv))
           (members (at_ raw "input")).
Proof. apply (@well_formed_looks_back utc_platform plain_vocabulary sample_plan). vm_compute. reflexivity. Defined.

(** ** Digests are of content, not of order *)

(** A plan's digest and a call's commitment depend on the values alone: the
    order in which members were written, at any depth, does not change them. *)
Theorem digest_ignores_order {PF : Platform} v w : reordered v w ->
  digest v = digest w /\ commitment v = commitment w.
Proof. intros H. unfold digest, commitment. by rewrite H. Qed.

Lemma digest_ignores_order_witness :
  let v := VArray [object [("a", int 1); ("b", text "x")]%string; VNull] in
  let w := VArray [object [("b", text "x"); ("a", int 1)]%string; VNull] in
  @digest utc_platform v = @digest utc_platform w /\ @commitment utc_platform v = @commitment utc_platform w.
Proof.
  apply digest_ignores_order. apply rtsc_lr.
  apply (reorder_element [] (object [("a", int 1); ("b", text "x")]%string)
    (object [("b", text "x"); ("a", int 1)]%string) [VNull]).
  apply reorder_members.
  - repeat constructor; cbn; intuition discriminate.
  - apply Permutation_swap.
Defined.
