(* ===== verification/RunDocuments.v ===== *)
(** * What Team says of a run

    [protocol/http/rust/src/routine_run.rs]: the closed shapes of recovery cards,
    claims, segments, diagnostics and the steps of a run. *)

From stdpp Require Import base tactics list strings pretty.
From Stdlib Require Import ZArith Lia Ascii.
From S2P Require Import Prelude Text Json Calendar Platform Requests Redaction Wire Instants Notices Plans.

#[local] Open Scope Z_scope.

Definition LOCALES : list string := ["ar"; "de"; "en"; "es"; "fr"; "ja"; "pt"; "zh"]%string.
Definition LEASE_TOKEN_RE (s : string) : bool := exactly 43 (fun a => is_alnum a || one_of "_-" a) s.
Definition TAG_RE (s : string) : bool := exactly 64 is_hex s.
Definition CARD_EVIDENCE : list string := ["recorded"; "absent"; "unavailable"]%string.
Definition SEGMENT_STATUSES : list string := ["denied"; "done"; "failed"; "frozen"; "held"; "recovered"; "stopped"]%string.
Definition MAX_ACK_DELIVERIES : Z := 256.
Definition MAX_RUN_DIAGNOSTICS : Z := 32.
Definition MAX_DIAGNOSTIC_ATTEMPTS : Z := 64.
Definition MAX_DIAGNOSTIC_TEXT_BYTES : Z := 2048.
(** [[!-~]{1,128}]. *)
Definition ERROR_TYPE_RE (s : string) : bool := (1 <=? slen s) && (slen s <=? 128) && all_bytes (between 0x21 0x7e) s.
(** Labels of letters, digits and inner hyphens, at most 63 bytes each. *)
Definition PROVIDER_RE (s : string) : bool := dns_labels s 1.
Definition CONDITION_RE (s : string) : bool :=
  match strip_prefix "exit-status:" s with
  | Some code =>
      let digits := default code (strip_prefix "-" code) in (1 <=? slen digits) && (slen digits <=? 10) && all_bytes is_digit digits
  | None => contains ["stderr-output"; "timeout"; "frame-invalid"; "exit-unavailable"; "transport-failed"]%string s
  end.
Definition RUN_STEP_STATUSES : list string := ["done"; "recovered"; "failed"; "stopped"; "waiting"]%string.
Definition RUN_STEP_GAPS : list string := ["not_run"; "unavailable"]%string.
Definition SNAPSHOT_RE (s : string) : bool := exactly 32 is_hex s.
Definition RUN_STEP_FIELDS : list string :=
  ["action"; "assistant_id"; "attempt"; "duration_ms"; "inputs"; "position"; "status"]%string.

(** [routine::paged]: whole consecutive entries from an offset, the next offset or
    null. *)
Fixpoint entries_at (step : Value -> Z -> bool) (steps : list Value) (at_pos : Z) : bool :=
  match steps with [] => true | item :: steps => step item at_pos && entries_at step steps (at_pos + 1) end.
Definition wire_paged (ms : list (string * Value)) (step : Value -> Z -> bool) : bool :=
  match array (field ms "steps"), small_int (field ms "total"), small_int (field ms "offset") with
  | Some steps, Some total, Some offset =>
      whole (field ms "total") 1 MAX_ROUTINE_STEPS
      && (0 <=? offset) && (offset <? total) && (0 <? len steps) && (len steps <=? MAX_PAGE_STEPS) && (len steps <=? total - offset)
      && entries_at step steps (offset + 1)
      && (if offset + len steps =? total then is_null (field ms "next") else py_eq (field ms "next") (int (offset + len steps)))
      && (encoded_bytes (VArray steps) <=? MAX_PAGE_BYTES)
  | _, _, _ => false
  end.

Section Documents.
  Context {PF : Platform} {VO : Vocabulary}.

(** ** Diagnostics *)
(** [unsafe_text]: the same characters [failure.rs] refuses. *)
Definition diagnostic_unsafe (c : Z) : bool :=
  (0 <=? c) && (c <=? 0x08) || (0x0b <=? c) && (c <=? 0x1f) || (0x7f <=? c) && (c <=? 0x9f)
  || (0x200b <=? c) && (c <=? 0x200f) || (0x202a <=? c) && (c <=? 0x202e) || (0x2060 <=? c) && (c <=? 0x206f) || (c =? 0xfeff).
Definition diagnostic_text (v : Value) : bool :=
  match as_str v with
  | Some s => negb (existsb diagnostic_unsafe (chars s)) && (slen s <=? MAX_DIAGNOSTIC_TEXT_BYTES)
  | None => false
  end.
Definition canonical_failure (v : Value) : option Value :=
  ms ← exact_object v ["error_type"; "message"; "provider"; "http_status"; "response_excerpt"; "redacted"; "truncated"]%string;
  let provider := field ms "provider" in
  let status := field ms "http_status" in
  let excerpt := field ms "response_excerpt" in
  if full_value ERROR_TYPE_RE (field ms "error_type") && diagnostic_text (field ms "message")
     && (is_null provider || (full_value PROVIDER_RE provider && (text_len (str_or_empty provider) <=? 253)))
     && (is_null status || whole status 100 599)
     && (is_null excerpt || diagnostic_text excerpt)
     && is_bool (field ms "redacted") && is_bool (field ms "truncated")
  then Some v else None.
Definition canonical_diagnostic (v : Value) : option Value :=
  ms ← exact_object v ["operation_id"; "attempt"; "assistant_id"; "action"; "position"; "recorded_at"; "failure"; "condition"]%string;
  let failure := field ms "failure" in
  let condition := field ms "condition" in
  if full_value OPERATION_ID_RE (field ms "operation_id") && whole (field ms "attempt") 1 MAX_DIAGNOSTIC_ATTEMPTS
     && valid_assistant (field ms "assistant_id") && valid_action (field ms "action")
     && is_some (canonical_position (field ms "position") (int MAX_ROUTINE_STEPS))
     && instant (field ms "recorded_at")
     && negb (Bool.eqb (is_null failure) (is_null condition))
     && (is_null failure || is_some (canonical_failure failure))
     && (is_null condition || full_value CONDITION_RE condition)
  then Some v else None.
(** The order of diagnostics: when recorded, the operation, the attempt. *)
Definition diagnostic_key (v : Value) : string * string * option Z :=
  (str_or_empty (at_ v "recorded_at"), str_or_empty (at_ v "operation_id"), small_int (at_ v "attempt")).
Definition oint_leb (a b : option Z) : bool :=
  match a, b with None, _ => true | Some _, None => false | Some a, Some b => a <=? b end.
Definition diagnostic_leb (a b : string * string * option Z) : bool :=
  let '(at_a, op_a, n_a) := a in
  let '(at_b, op_b, n_b) := b in
  match String.compare at_a at_b with
  | Lt => true
  | Gt => false
  | Eq => match String.compare op_a op_b with Lt => true | Gt => false | Eq => oint_leb n_a n_b end
  end.
Definition canonical_diagnostics (v : Value) : option Value :=
  ms ← exact_object v ["team_id"; "run_id"; "diagnostics"]%string;
  entries ← array (field ms "diagnostics");
  if negb (valid_team (field ms "team_id") && full_value ROUTINE_ID_RE (field ms "run_id")
           && (len entries <=? MAX_RUN_DIAGNOSTICS) && forallb (fun entry => is_some (canonical_diagnostic entry)) entries)
  then None
  else
    let keys := map diagnostic_key entries in
    if bool_decide (base.NoDup (map (fun key : string * string * option Z => (snd (fst key), snd key)) keys)) && windows2 diagnostic_leb keys
    then Some v else None.

(** ** Recovery cards *)
Definition card_evidence (ms : list (string * Value)) : bool :=
  let evidence := field ms "evidence" in
  let diagnostic := field ms "diagnostic" in
  if negb (among evidence CARD_EVIDENCE) || Bool.eqb (is_null diagnostic) (is_str evidence "recorded") then false
  else if is_null diagnostic then true
  else match canonical_diagnostic diagnostic with
       | Some admitted => forallb (fun key => py_eq (at_ admitted key) (field ms key)) ["assistant_id"; "action"; "position"]%string
       | None => false
       end.
Definition canonical_card (v : Value) : option Value :=
  ms ← exact_object v ["team_id"; "run_id"; "assistant_id"; "action"; "tag"; "position"; "steps"; "evidence"; "diagnostic"]%string;
  if valid_team (field ms "team_id") && full_value ROUTINE_ID_RE (field ms "run_id") && valid_assistant (field ms "assistant_id")
     && valid_action (field ms "action") && is_some (canonical_position (field ms "position") (field ms "steps"))
     && card_evidence ms && full_value TAG_RE (field ms "tag")
  then Some v else None.
Definition canonical_card_answer_request (v : Value) : option Value :=
  ms ← exact_object v ["tag"]%string;
  let tag := field ms "tag" in if full_value TAG_RE tag then Some (object [("tag"%string, tag)]) else None.
Definition canonical_card_answer (v : Value) : option Value :=
  ms ← exact_object v ["team_id"; "run_id"]%string;
  if valid_team (field ms "team_id") && full_value ROUTINE_ID_RE (field ms "run_id") then Some v else None.
Definition canonical_challenge_open (v : Value) : option Value :=
  ms ← exact_object v ["locale"]%string;
  locale ← as_str (field ms "locale");
  if contains LOCALES locale then Some (object [("locale"%string, text locale)]) else None.

(** ** Claims and segments *)
Definition canonical_claim_request (v : Value) : option Value :=
  ms ← exact_object v ["long"]%string;
  let long := field ms "long" in if is_bool long then Some (object [("long"%string, long)]) else None.
Definition positive_number (v : Value) : bool := match natural_digits v with Some digits => negb (digits =s "0") | None => false end.
Definition claimed_run (run : Value) : bool :=
  match exact_object run ["team_id"; "run_id"; "lease_token"; "active_seconds"; "revision"; "plan_digest"]%string with
  | Some ms =>
      whole (field ms "active_seconds") 1 MAX_ACTIVE_SECONDS && valid_team (field ms "team_id") && full_value ROUTINE_ID_RE (field ms "run_id")
      && full_value LEASE_TOKEN_RE (field ms "lease_token") && valid_revision (field ms "revision")
      && full_value PLAN_DIGEST_RE (field ms "plan_digest")
  | None => false
  end.
Definition canonical_claim (v : Value) : option Value :=
  ms ← exact_object v ["run"; "next_due_at"]%string;
  let run := field ms "run" in
  let hint := field ms "next_due_at" in
  if is_null run then
    if is_null hint || positive_number hint then Some (object [("run", VNull); ("next_due_at", hint)]%string) else None
  else if is_null hint && claimed_run run then Some v else None.
Definition canonical_segment_request (v : Value) : option Value :=
  ms ← exact_object v ["revision"; "plan_digest"]%string;
  let revision := field ms "revision" in
  let digest := field ms "plan_digest" in
  if valid_revision revision && full_value PLAN_DIGEST_RE digest then Some (object [("revision", revision); ("plan_digest", digest)]%string) else None.
Definition canonical_segment_answer (v : Value) : option Value :=
  ms ← exact_object v ["team_id"; "run_id"; "status"]%string;
  if valid_team (field ms "team_id") && full_value ROUTINE_ID_RE (field ms "run_id") && among (field ms "status") SEGMENT_STATUSES
  then Some v else None.

(** ** The steps of a run *)
Definition run_input (v : Value) : bool :=
  match exact_object v ["member"; "value"]%string with
  | Some ms => let preview := field ms "value" in
               plain (field ms "member") MAX_MEMBER_CHARS && (is_null preview || plain preview MAX_PREVIEW_CHARS)
  | None => false
  end.
Definition ran (ms : list (string * Value)) : bool :=
  let status := field ms "status" in
  let duration := field ms "duration_ms" in
  let inputs := field ms "inputs" in
  among status RUN_STEP_STATUSES && valid_assistant (field ms "assistant_id") && valid_action (field ms "action")
  && whole (field ms "attempt") 1 MAX_DIAGNOSTIC_ATTEMPTS
  && (is_null duration || whole duration 0 (2 ^ 53 - 1))
  && (negb (is_str status "recovered") || is_null duration)
  && (is_null inputs || wire_members inputs run_input).
Definition canonical_run_step (v : Value) (position : Z) (steps : Value) : option Value :=
  ms ← exact_object v RUN_STEP_FIELDS;
  if negb (py_eq (field ms "position") (int position)) then None
  else
    let valid := if among (field ms "status") RUN_STEP_GAPS
                 then forallb (fun key => is_null (field ms key)) ["assistant_id"; "action"; "attempt"; "duration_ms"; "inputs"]%string
                 else ran ms in
    if valid && is_some (canonical_position (field ms "position") steps) && (encoded_bytes v <=? MAX_STEP_VIEW_BYTES) then Some v else None.
Definition canonical_run_steps (v : Value) : option Value :=
  ms ← exact_object v ["team_id"; "run_id"; "routine_id"; "revision"; "plan_digest"; "total"; "snapshot"; "offset"; "steps"; "next"]%string;
  let total := field ms "total" in
  if valid_team (field ms "team_id") && full_value ROUTINE_ID_RE (field ms "run_id") && full_value ROUTINE_ID_RE (field ms "routine_id")
     && valid_revision (field ms "revision") && full_value PLAN_DIGEST_RE (field ms "plan_digest")
     && full_value SNAPSHOT_RE (field ms "snapshot") && wire_paged ms (fun item at_pos => is_some (canonical_run_step item at_pos total))
  then Some v else None.
End Documents.
