(* ===== verification/Team.v ===== *)
(** * A Team's Routines, runs and notices

    [routine/src/record/mod.rs] and [routine/src/record/notice.rs]: the state of
    a Team, the lookups and replacements every transition is made of, the
    versioned notices, pausing, deletion and scope changes.  A Rust function
    that takes [&mut TeamRoutines] returns the next state, or the refusal after
    which its callers drop the state they were changing. *)

From stdpp Require Import base tactics list strings pretty.
From Stdlib Require Import ZArith Lia Ascii.
From S2P Require Import Prelude Text Json Calendar Platform Wire Schedule Dates Starts Plans.

#[local] Open Scope Z_scope.

Definition MAX_FROZEN_RUNS : Z := 8.
Definition MAX_UNDELIVERED_NOTICES : Z := 32.
Definition LEASE_SECONDS : Z := START_LEASE_SECONDS.
Definition ACTIVE_SECONDS : Z := MAX_ACTIVE_SECONDS.
Definition MAX_GRACE_SECONDS : Z := 12 * 3600.
Definition MAX_COUNTED_MISSES : Z := 24 * 400.
Definition HUMAN_LEASE : string := "human".
Definition FROZEN_OUTCOMES : list string := ["denied"; "stopped"; "failed"]%string.
Definition MAX_DISCARDS : Z := 3 * MAX_ROUTINES.
Definition MAX_RUNS : Z := 2 * MAX_UNRESOLVED_INCIDENTS.
Definition MAX_ROUTINE_NOTICES : Z := 3 * MAX_ROUTINES.
Definition ENTROPY_UNAVAILABLE : string := "entropy-unavailable".

(** ** Records *)
Module Routine.
Record Routine : Type := mk {
  routine_id : string;
  name : string;
  schedule : Value;
  assistants : list (string * string);
  plan : Value;
  anchor : Z;
  next_run_at : Z;
  description : string;
  needs_reconfirm : bool;
  deleting : bool;
  gap_started_at : Z;
  missed : Z;
  reported_missed : Z;
  revision : Z;
  timezone_source : string;
  paused : bool;
  confirmation : option Value;
  permitted : list Value;
  failures : Z;
  rollup_minute : Z;
  rollup_runs : Z;
  rollup_usage : option Value;
  run_requested : Z;
  output_digest : string;
}.
#[global] Instance eta_Routine : Eta Routine := fun r =>
  mk (routine_id r) (name r) (schedule r) (assistants r) (plan r) (anchor r) (next_run_at r) (description r) (needs_reconfirm r) (deleting r) (gap_started_at r) (missed r) (reported_missed r) (revision r) (timezone_source r) (paused r) (confirmation r) (permitted r) (failures r) (rollup_minute r) (rollup_runs r) (rollup_usage r) (run_requested r) (output_digest r).
#[global] Instance upd_routine_id : Upd routine_id.
Proof. solve_upd. Defined.
#[global] Instance upd_name : Upd name.
Proof. solve_upd. Defined.
#[global] Instance upd_schedule : Upd schedule.
Proof. solve_upd. Defined.
#[global] Instance upd_assistants : Upd assistants.
Proof. solve_upd. Defined.
#[global] Instance upd_plan : Upd plan.
Proof. solve_upd. Defined.
#[global] Instance upd_anchor : Upd anchor.
Proof. solve_upd. Defined.
#[global] Instance upd_next_run_at : Upd next_run_at.
Proof. solve_upd. Defined.
#[global] Instance upd_description : Upd description.
Proof. solve_upd. Defined.
#[global] Instance upd_needs_reconfirm : Upd needs_reconfirm.
Proof. solve_upd. Defined.
#[global] Instance upd_deleting : Upd deleting.
Proof. solve_upd. Defined.
#[global] Instance upd_gap_started_at : Upd gap_started_at.
Proof. solve_upd. Defined.
#[global] Instance upd_missed : Upd missed.
Proof. solve_upd. Defined.
#[global] Instance upd_reported_missed : Upd reported_missed.
Proof. solve_upd. Defined.
#[global] Instance upd_revision : Upd revision.
Proof. solve_upd. Defined.
#[global] Instance upd_timezone_source : Upd timezone_source.
Proof. solve_upd. Defined.
#[global] Instance upd_paused : Upd paused.
Proof. solve_upd. Defined.
#[global] Instance upd_confirmation : Upd confirmation.
Proof. solve_upd. Defined.
#[global] Instance upd_permitted : Upd permitted.
Proof. solve_upd. Defined.
#[global] Instance upd_failures : Upd failures.
Proof. solve_upd. Defined.
#[global] Instance upd_rollup_minute : Upd rollup_minute.
Proof. solve_upd. Defined.
#[global] Instance upd_rollup_runs : Upd rollup_runs.
Proof. solve_upd. Defined.
#[global] Instance upd_rollup_usage : Upd rollup_usage.
Proof. solve_upd. Defined.
#[global] Instance upd_run_requested : Upd run_requested.
Proof. solve_upd. Defined.
#[global] Instance upd_output_digest : Upd output_digest.
Proof. solve_upd. Defined.
End Routine.

Definition Routine_new (routine_id name : string) (schedule : Value) (assistants : list (string * string))
    (plan : Value) (anchor next_run_at : Z) : Routine.Routine :=
  {| Routine.routine_id := routine_id; Routine.name := name; Routine.schedule := schedule;
     Routine.assistants := assistants; Routine.plan := plan; Routine.anchor := anchor;
     Routine.next_run_at := next_run_at; Routine.description := ""; Routine.needs_reconfirm := false;
     Routine.deleting := false; Routine.gap_started_at := 0; Routine.missed := 0;
     Routine.reported_missed := 0; Routine.revision := 1; Routine.timezone_source := "browser";
     Routine.paused := false; Routine.confirmation := None; Routine.permitted := [];
     Routine.failures := 0; Routine.rollup_minute := 0; Routine.rollup_runs := 0;
     Routine.rollup_usage := None; Routine.run_requested := 0; Routine.output_digest := "" |}.

(** [Routine::timezone]. *)
Definition timezone (r : Routine.Routine) : string := str_or_empty (at_ (Routine.plan r) "timezone").

(** Where a run stands. *)
Inductive RunStatus : Type := Leased | Frozen | Held | Unresolved | Skipped.
#[global] Instance RunStatus_eq_dec : EqDecision RunStatus.
Proof. solve_decision. Defined.
Definition status_eqb (a b : RunStatus) : bool := bool_decide (a = b).

Definition status_name (s : RunStatus) : string :=
  match s with
  | Leased => "leased" | Frozen => "frozen" | Held => "held"
  | Unresolved => "unresolved" | Skipped => "skipped"
  end.
Definition status_parse (name : string) : option RunStatus :=
  List.find (fun s => status_name s =s name) [Leased; Frozen; Held; Unresolved; Skipped].
Definition live (s : RunStatus) : bool :=
  match s with Leased | Frozen | Held => true | _ => false end.

Module Run.
Record Run : Type := mk {
  run_id : string;
  routine_id : string;
  status : RunStatus;
  lease_sha256 : string;
  lease_key : string;
  lease_expires_at : Z;
  active_seconds_left : Z;
  request_kind : string;
  assistant_id : string;
  action : string;
  generation : string;
  notice_version : Z;
  requests_used : Z;
  position : option Z;
  steps : Z;
  usage : Value;
  protection_lost : bool;
  revision : Z;
}.
#[global] Instance eta_Run : Eta Run := fun r =>
  mk (run_id r) (routine_id r) (status r) (lease_sha256 r) (lease_key r) (lease_expires_at r) (active_seconds_left r) (request_kind r) (assistant_id r) (action r) (generation r) (notice_version r) (requests_used r) (position r) (steps r) (usage r) (protection_lost r) (revision r).
#[global] Instance upd_run_id : Upd run_id.
Proof. solve_upd. Defined.
#[global] Instance upd_routine_id : Upd routine_id.
Proof. solve_upd. Defined.
#[global] Instance upd_status : Upd status.
Proof. solve_upd. Defined.
#[global] Instance upd_lease_sha256 : Upd lease_sha256.
Proof. solve_upd. Defined.
#[global] Instance upd_lease_key : Upd lease_key.
Proof. solve_upd. Defined.
#[global] Instance upd_lease_expires_at : Upd lease_expires_at.
Proof. solve_upd. Defined.
#[global] Instance upd_active_seconds_left : Upd active_seconds_left.
Proof. solve_upd. Defined.
#[global] Instance upd_request_kind : Upd request_kind.
Proof. solve_upd. Defined.
#[global] Instance upd_assistant_id : Upd assistant_id.
Proof. solve_upd. Defined.
#[global] Instance upd_action : Upd action.
Proof. solve_upd. Defined.
#[global] Instance upd_generation : Upd generation.
Proof. solve_upd. Defined.
#[global] Instance upd_notice_version : Upd notice_version.
Proof. solve_upd. Defined.
#[global] Instance upd_requests_used : Upd requests_used.
Proof. solve_upd. Defined.
#[global] Instance upd_position : Upd position.
Proof. solve_upd. Defined.
#[global] Instance upd_steps : Upd steps.
Proof. solve_upd. Defined.
#[global] Instance upd_usage : Upd usage.
Proof. solve_upd. Defined.
#[global] Instance upd_protection_lost : Upd protection_lost.
Proof. solve_upd. Defined.
#[global] Instance upd_revision : Upd revision.
Proof. solve_upd. Defined.
End Run.

Definition Run_new (run_id routine_id : string) (status : RunStatus) : Run.Run :=
  {| Run.run_id := run_id; Run.routine_id := routine_id; Run.status := status;
     Run.lease_sha256 := ""; Run.lease_key := ""; Run.lease_expires_at := 0;
     Run.active_seconds_left := SHORT_ACTIVE_SECONDS; Run.request_kind := "";
     Run.assistant_id := ""; Run.action := ""; Run.generation := ""; Run.notice_version := 0;
     Run.requests_used := 0; Run.position := None; Run.steps := 0;
     Run.usage := object [("duration_ms"%string, int 0)]; Run.protection_lost := false;
     Run.revision := 1 |}.

Module Notice.
Record Notice : Type := mk {
  notice_id : string;
  routine_id : string;
  run_id : string;
  outcome : string;
  created_at : Z;
  detail : Value;
  version : Z;
  name : string;
  usage : option Value;
  protection_lost : bool;
}.
#[global] Instance eta_Notice : Eta Notice := fun r =>
  mk (notice_id r) (routine_id r) (run_id r) (outcome r) (created_at r) (detail r) (version r) (name r) (usage r) (protection_lost r).
#[global] Instance upd_notice_id : Upd notice_id.
Proof. solve_upd. Defined.
#[global] Instance upd_routine_id : Upd routine_id.
Proof. solve_upd. Defined.
#[global] Instance upd_run_id : Upd run_id.
Proof. solve_upd. Defined.
#[global] Instance upd_outcome : Upd outcome.
Proof. solve_upd. Defined.
#[global] Instance upd_created_at : Upd created_at.
Proof. solve_upd. Defined.
#[global] Instance upd_detail : Upd detail.
Proof. solve_upd. Defined.
#[global] Instance upd_version : Upd version.
Proof. solve_upd. Defined.
#[global] Instance upd_name : Upd name.
Proof. solve_upd. Defined.
#[global] Instance upd_usage : Upd usage.
Proof. solve_upd. Defined.
#[global] Instance upd_protection_lost : Upd protection_lost.
Proof. solve_upd. Defined.
End Notice.

Definition Notice_new (notice_id routine_id run_id outcome : string) (created_at : Z) (detail : Value)
  : Notice.Notice :=
  {| Notice.notice_id := notice_id; Notice.routine_id := routine_id; Notice.run_id := run_id;
     Notice.outcome := outcome; Notice.created_at := created_at; Notice.detail := detail;
     Notice.version := 1; Notice.name := ""; Notice.usage := None; Notice.protection_lost := false |}.

Module TeamRoutines.
Record TeamRoutines : Type := mk {
  routines : list Routine.Routine;
  runs : list Run.Run;
  notices : list Notice.Notice;
  served_at : Z;
  starts : list Start;
  discards : list (string * string);
}.
#[global] Instance eta_TeamRoutines : Eta TeamRoutines := fun r =>
  mk (routines r) (runs r) (notices r) (served_at r) (starts r) (discards r).
#[global] Instance upd_routines : Upd routines.
Proof. solve_upd. Defined.
#[global] Instance upd_runs : Upd runs.
Proof. solve_upd. Defined.
#[global] Instance upd_notices : Upd notices.
Proof. solve_upd. Defined.
#[global] Instance upd_served_at : Upd served_at.
Proof. solve_upd. Defined.
#[global] Instance upd_starts : Upd starts.
Proof. solve_upd. Defined.
#[global] Instance upd_discards : Upd discards.
Proof. solve_upd. Defined.
End TeamRoutines.

Definition no_routines : TeamRoutines.TeamRoutines := TeamRoutines.mk [] [] [] 0 [] [].

Module Claim.
Record Claim : Type := mk {
  run : Run.Run;
  lease_token : string;
  revision : Z;
  plan_digest : string;
  active_seconds : Z;
}.
#[global] Instance eta_Claim : Eta Claim := fun r =>
  mk (run r) (lease_token r) (revision r) (plan_digest r) (active_seconds r).
#[global] Instance upd_run : Upd run.
Proof. solve_upd. Defined.
#[global] Instance upd_lease_token : Upd lease_token.
Proof. solve_upd. Defined.
#[global] Instance upd_revision : Upd revision.
Proof. solve_upd. Defined.
#[global] Instance upd_plan_digest : Upd plan_digest.
Proof. solve_upd. Defined.
#[global] Instance upd_active_seconds : Upd active_seconds.
Proof. solve_upd. Defined.
End Claim.

Module Lease.
Record Lease : Type := mk { sha256 : string; key : string }.
End Lease.

#[local] Abbreviation state := TeamRoutines.TeamRoutines.

(** ** Ids, tokens and leases *)
Section Tokens.
  Context {PF : Platform} {E : Type} {EN : Entropy E}.

Definition new_id : drawing E string := fun e =>
  match token_hex 16 e with
  | (e', Some id) => (e', Ok id)
  | (e', None) => (e', Err ENTROPY_UNAVAILABLE)
  end.
Definition new_token : drawing E string := fun e =>
  match fill 32 e with
  | (e', Some bytes) => (e', Ok (base64_url_no_pad bytes))
  | (e', None) => (e', Err ENTROPY_UNAVAILABLE)
  end.
Definition lease_sha256 (token : string) : string := sha256_hex token.
Definition lease_of (token key : string) : Lease.Lease := Lease.mk (lease_sha256 token) key.
End Tokens.

(** ** Reading a Team *)
Definition is_live (r : Run.Run) : bool := live (Run.status r).
Definition live_runs (st : state) : list Run.Run := List.filter is_live (TeamRoutines.runs st).
Definition incidents (st : state) : list Run.Run :=
  List.filter (fun r => negb (is_live r)) (TeamRoutines.runs st).

Definition find_routine (st : state) (id : string) : option Routine.Routine :=
  find_key Routine.routine_id id (TeamRoutines.routines st).
Definition find_run (st : state) (id : string) : option Run.Run :=
  find_key Run.run_id id (TeamRoutines.runs st).

(** [record::routine] and [record::run]. *)
Definition routine (st : state) (routine_id : string) : result Routine.Routine :=
  ok_or "routine-not-found" (find_routine st routine_id).
Definition run (st : state) (run_id : string) : result Run.Run :=
  ok_or "run-not-found" (find_run st run_id).

Definition replace_routine (st : state) (updated : Routine.Routine) : state :=
  st <| TeamRoutines.routines := replace_key Routine.routine_id updated (TeamRoutines.routines st) |>.
Definition replace_run (st : state) (updated : Run.Run) : state :=
  st <| TeamRoutines.runs := replace_key Run.run_id updated (TeamRoutines.runs st) |>.

Definition continuous (r : Routine.Routine) : bool := is_str (at_ (Routine.schedule r) "kind") "continuous".

Definition grace_seconds (r : Routine.Routine) : Z :=
  let kind := at_ (Routine.schedule r) "kind" in
  let period :=
    if is_str kind "daily" then 86400
    else if is_str kind "weekly" then 7 * 86400
    else if is_str kind "monthly" then 28 * 86400
    else MAX_GRACE_SECONDS in
  Z.min period MAX_GRACE_SECONDS.

Definition next_after {PF : Platform} (r : Routine.Routine) (after : Z) : result Z :=
  match next_run (Routine.schedule r) (at_ (Routine.plan r) "timezone") (Routine.anchor r) after with
  | Ok t => Ok t
  | Err _ => Err "routine-invalid"
  end.

(** ** Ending runs *)
Definition rebase_continuous (st : state) (routine_id : string) (now : Z) : state :=
  st <| TeamRoutines.routines :=
    update_first (fun item => Routine.routine_id item =s routine_id)
      (fun item => if continuous item
                   then item <| Routine.next_run_at := Z.max now (Routine.next_run_at item) |> else item)
      (TeamRoutines.routines st) |>.

Definition ended (st : state) (value : Run.Run) (now : Z) : state :=
  rebase_continuous
    (st <| TeamRoutines.discards := TeamRoutines.discards st ++ [(Run.run_id value, Run.generation value)] |>)
    (Run.routine_id value) now.

Definition without_run (st : state) (run_id : string) (now : Z) : result state :=
  value ← run st run_id;
  Ok (ended (st <| TeamRoutines.runs := drop_key Run.run_id run_id (TeamRoutines.runs st) |>) value now).

Definition discarded (st : state) (run_id generation : string) : state :=
  st <| TeamRoutines.discards :=
    List.filter (fun rg => negb ((fst rg =s run_id) && (snd rg =s generation))) (TeamRoutines.discards st) |>.

(** ** Notices *)
Definition change_room (st : state) : option string :=
  if MAX_UNDELIVERED_NOTICES + MAX_ROUTINE_NOTICES <? len (TeamRoutines.notices st) + 1
  then Some "notices-full"%string else None.

Definition undelivered (st : state) : Z := len (TeamRoutines.notices st).

(** [put_notice] and [put_notice_into]. *)
Definition put_notice (st : state) (notice : Notice.Notice) : result state :=
  detail ← ok_or "notice-invalid"
    (canonical_notice_detail (text (Notice.outcome notice)) (Notice.detail notice));
  let notice := notice <| Notice.detail := detail |> in
  notice ← (if is_empty (Notice.name notice)
            then named ← routine st (Notice.routine_id notice);
                 Ok (notice <| Notice.name := Routine.name named |>)
            else Ok notice);
  _ ← refuse (Notice.version notice <? 1) "notice-invalid";
  let kept := drop_key Notice.notice_id (Notice.notice_id notice) (TeamRoutines.notices st) in
  _ ← refuse (MAX_UNDELIVERED_NOTICES + MAX_ROUTINE_NOTICES <=? len kept) "notices-full";
  Ok (st <| TeamRoutines.notices := kept ++ [notice] |>).

Definition acknowledge (st : state) (delivered : list (string * Z)) : state :=
  st <| TeamRoutines.notices :=
    List.filter (fun item => negb (existsb (fun iv => (fst iv =s Notice.notice_id item)
                                                      && (snd iv =? Notice.version item)) delivered))
      (TeamRoutines.notices st) |>.

Section Notices.
  Context {PF : Platform} {E : Type} {EN : Entropy E}.

(** The streak a run's outcome leaves its Routine with, paused at the third failure. *)
Definition outcome_streak (current : Routine.Routine) (outcome : string) : Z * bool :=
  let failures := if outcome =s "failed" then Routine.failures current + 1 else 0 in
  (failures, negb (Routine.paused current) && (MAX_FAILURE_STREAK <=? failures)).

Definition run_notice (st : state) (value : Run.Run) (outcome : string) (now : Z) (detail : Value)
  : drawing E (state * Run.Run) :=
  let version := Run.notice_version value + 1 in
  let notice :=
    (Notice_new (Run.run_id value) (Run.routine_id value) (Run.run_id value) outcome now detail)
      <| Notice.version := version |> <| Notice.usage := Some (Run.usage value) |>
      <| Notice.protection_lost := Run.protection_lost value |> in
  st ← lift (put_notice st notice);
  st ← (if contains ["done"; "recovered"; "failed"]%string outcome then
          current ← lift (routine st (Run.routine_id value));
          let '(failures, streak) := outcome_streak current outcome in
          let current := current <| Routine.failures := failures |>
                                 <| Routine.paused := Routine.paused current || streak |> in
          let st := replace_routine st current in
          if streak then
            id ← new_id;
            lift (put_notice st (Notice_new id (Routine.routine_id current) "" "streak-paused" now
                                   (object [("failures"%string, int failures)])))
          else mret st
        else mret st : drawing E state);
  mret (st, value <| Run.notice_version := version |>).

(** ** Pausing, deleting and scope changes *)
Definition set_paused (st : state) (routine_id : string) (paused : bool) : result state :=
  value ← routine st routine_id;
  _ ← refuse (Routine.deleting value) "routine-not-found";
  let value := value <| Routine.paused := paused |> in
  let value := if paused then value else value <| Routine.failures := 0 |> in
  Ok (replace_routine st value).

Definition begin_delete (st : state) (routine_id : string) : result (state * list Run.Run) :=
  value ← routine st routine_id;
  let runs := List.filter (fun item => Run.routine_id item =s routine_id) (live_runs st) in
  Ok (replace_routine st (value <| Routine.deleting := true |>), runs).

Definition complete_delete (st : state) (routine_id : string) (now : Z) : drawing E state :=
  value ← lift (routine st routine_id);
  _ ← lift (refuse (negb (Routine.deleting value)
                    || existsb (fun item => Run.routine_id item =s routine_id) (TeamRoutines.runs st))
              "routine-busy");
  id ← new_id;
  st ← lift (put_notice st (Notice_new id routine_id "" "deleted" now (object [])));
  mret (st <| TeamRoutines.routines := drop_key Routine.routine_id routine_id (TeamRoutines.routines st) |>).

Definition mark_scope_changed (st : state) (routine_id : string) (now : Z) : drawing E state :=
  value ← lift (routine st routine_id);
  id ← new_id;
  st ← lift (put_notice st (Notice_new id routine_id "" "scope-changed" now (object [])));
  mret (replace_routine st (value <| Routine.needs_reconfirm := true |>)).
End Notices.

(** [generation_parts]: [network:routine:run], with [:s1] or [:v1] after a hold. *)
Definition generation_parts (generation : string) : option (string * string) :=
  '(network, rest) ← split_once ":" generation;
  rest ← strip_prefix "routine:" rest;
  let '(run_id, tail) := split_at 32 rest in
  if head_tail is_alnum (fun a => is_alnum a || one_of "._/-" a) 127 network
     && HEX32_RE run_id && contains [""; ":s1"; ":v1"]%string tail
  then Some (network, run_id) else None.
