(* ===== verification/Definitions.v ===== *)
(** * Definitions and budgets

    [routine/src/definition.rs]: the safe projection of a plan's steps, its
    compact summary and its pages, and a definition's share of its Team's daily
    steps and bytes. *)

From stdpp Require Import base tactics list strings pretty.
From Stdlib Require Import ZArith Lia Ascii.
From S2P Require Import Prelude Text Json Calendar Platform Wire Schedule Dates Starts Plans Team.

#[local] Open Scope Z_scope.

Definition plan_steps (plan : Value) : list Value := elements (at_ plan "steps").

Definition run_units (r : Routine.Routine) : Z := len (plan_steps (Routine.plan r)).
Definition routine_state (r : Routine.Routine) : string :=
  if Routine.paused r then "paused" else "active".

(** [iter().position(..)]. *)
Fixpoint index_of {A} (p : A -> bool) (l : list A) : option nat :=
  match l with
  | [] => None
  | a :: l' => if p a then Some O else option_map S (index_of p l')
  end.
Definition position_of (plan : Value) (step_id : string) : option Z :=
  option_map (fun i => Z.of_nat i + 1) (index_of (fun step => is_str (at_ step "id") step_id) (plan_steps plan)).

(** [permitted_entry]: the entry of an Assistant's Action. *)
Definition permitted_for (permitted : list Value) (assistant action : Value) : option Value :=
  List.find (fun item => value_eqb (at_ item "assistant") assistant && value_eqb (at_ item "action") action)
    permitted.

Definition shown_where (source : Value) : option Value :=
  w ← get source "where";
  '(key, constant) ← head (members w);
  Some (object [("member", text key);
                ("value_json", from_option VString VNull (where_text constant))]%string).

Section Projection.
  Context {PF : Platform}.

Definition input_view (member : string) (source plan : Value) : Value :=
  let kind := at_ source "kind" in
  if is_str kind "literal" then
    object [("member", text member); ("source", text "literal");
            ("value", text (literal_preview (at_ source "value")))]%string
  else if is_str kind "run_clock" then
    let shown := if is_str (at_ source "format") "date" then "date"%string
                 else template_shown (elements (at_ source "parts")) in
    object [("member", text member); ("source", text "run_clock"); ("value", text (preview shown))]%string
  else
    object [("member", text member); ("source", text "step_output");
            ("step", from_option int VNull (as_str (at_ source "step") ≫= position_of plan));
            ("pointer", at_ source "pointer");
            ("where", default VNull (shown_where source));
            ("item", default VNull (get source "item"))]%string.

(** [step]: the projection of the step at a 1-based position. *)
Definition step_view (plan : Value) (permitted : list Value) (position : Z) : option Value :=
  if position - 1 <? 0 then None else
  value ← plan_steps plan !! Z.to_nat (position - 1);
  entry ← permitted_for permitted (at_ value "assistant") (at_ value "action");
  Some (object
    [("position", int position); ("assistant", at_ value "assistant"); ("action", at_ value "action");
     ("read_only", at_ entry "read_only");
     ("inputs", VArray (map (fun kv => input_view (fst kv) (snd kv) plan) (sorted_members (at_ value "input"))));
     ("stored_inputs", at_ entry "stored_inputs")]%string).

(** [selected]: a Routine as a recording's Brain sees it. *)
Fixpoint selected_steps (plan : Value) (permitted : list Value) (position : Z) (steps : list Value)
  : option (list Value) :=
  match steps with
  | [] => Some []
  | item :: rest =>
      projected ← step_view plan permitted position;
      match projected with
      | VObject ms =>
          more ← selected_steps plan permitted (position + 1) rest;
          Some (VObject (("id"%string, at_ item "id") :: ms) :: more)
      | _ => None
      end
  end.
Definition selected_routine (r : Routine.Routine) (last_run : option Value) : option Value :=
  steps ← selected_steps (Routine.plan r) (Routine.permitted r) 1 (plan_steps (Routine.plan r));
  Some (object
    [("routine_id", text (Routine.routine_id r)); ("name", text (Routine.name r));
     ("description", text (Routine.description r)); ("revision", int (Routine.revision r));
     ("output", at_ (Routine.plan r) "output"); ("steps", VArray steps);
     ("last_run", default VNull last_run)]%string).

Definition positions (from count : nat) : list Z := map Z.of_nat (seq from count).

Definition steps_fit (plan : Value) (permitted : list Value) : bool :=
  forallb (fun position =>
             match step_view plan permitted position with
             | Some projected => bool_decide (is_Some (canonical_step projected position))
             | None => false
             end)
    (positions 1 (length (plan_steps plan))).

(** [summary]: consecutive steps of one Action are one run of a count. *)
Definition push_action_run (runs : list (Value * Value * Z)) (value : Value) : list (Value * Value * Z) :=
  let assistant := at_ value "assistant" in
  let action := at_ value "action" in
  match last runs with
  | Some (a, x, count) =>
      if value_eqb a assistant && value_eqb x action
      then removelast runs ++ [(a, x, count + 1)]
      else runs ++ [(assistant, action, 1)]
  | None => runs ++ [(assistant, action, 1)]
  end.
Definition action_runs (steps : list Value) : list (Value * Value * Z) :=
  fold_left push_action_run steps [].

Definition summary (plan : Value) (revision : Z) : Value :=
  let runs := take (Z.to_nat MAX_SUMMARY_RUNS) (action_runs (plan_steps plan)) in
  let total := len (plan_steps plan) in
  let more := total - zsum (map snd runs) in
  object
    [("revision", int revision); ("plan_digest", text (digest plan)); ("steps", int total);
     ("actions", VArray (map (fun r : Value * Value * Z =>
        let '(assistant, action, count) := r in VArray [assistant; action; int count]) runs));
     ("more", int more)]%string.

Definition disposition (plan : Value) : Value :=
  let output := at_ plan "output" in
  object [("mode", at_ output "mode");
          ("step", if is_null (at_ output "step") then VNull else int (len (plan_steps plan)))]%string.

Definition shows (plan : Value) : bool := among (at_ (at_ plan "output") "mode") SHOWN_MODES.

(** [paged]: whole entries from [offset], as many as fit a page. *)
Fixpoint page_loop (entry : Z -> option Value) (todo : list Z) (chosen : list Value) (used : Z)
  : option (list Value) :=
  match todo with
  | [] => Some chosen
  | position :: rest =>
      item ← entry position;
      let cost := encoded_bytes item + 1 in
      if negb (bool_decide (chosen = []))
         && ((len chosen =? MAX_PAGE_STEPS) || (MAX_PAGE_BYTES <? used + cost))
      then Some chosen
      else page_loop entry rest (chosen ++ [item]) (used + cost)
  end.
Definition paged (entry : Z -> option Value) (offset total : Z) : option (list Value) :=
  page_loop entry (map (fun i => offset + Z.of_nat i) (seq 1 (Z.to_nat (total - offset)))) [] 2.

Definition page (routine_id : string) (revision : Z) (plan : Value) (permitted : list Value) (offset : Z)
  : option Value :=
  let total := len (plan_steps plan) in
  chosen ← paged (step_view plan permitted) offset total;
  let following := offset + len chosen in
  Some (object
    [("routine_id", text routine_id); ("revision", int revision); ("plan_digest", text (digest plan));
     ("total", int total); ("offset", int offset); ("steps", VArray chosen);
     ("next", if (following =? total)%Z then VNull else int following)]%string).

(** ** Budgets *)
Definition definition_bytes (r : Routine.Routine) : Z :=
  let standing := object [("permitted", VArray (Routine.permitted r));
                          ("confirmation", default VNull (Routine.confirmation r))]%string in
  encoded_bytes (Routine.plan r) + encoded_bytes standing.

Definition fits_within (r : Routine.Routine) (maximum : Z) : bool :=
  steps_fit (Routine.plan r) (Routine.permitted r) && (definition_bytes r <=? maximum).
Definition definition_fits (r : Routine.Routine) : bool := fits_within r MAX_DEFINITION_BYTES.
End Projection.

Definition daily_steps (r : Routine.Routine) : Z := i64_sat (daily_cap (Routine.schedule r) * run_units r).
Definition capacity (routines : list Routine.Routine) : Z :=
  MAX_DAILY_STEPS - zsum (map daily_steps routines).

Definition over_budget (others : list Routine.Routine) (admitted : Routine.Routine) : option string :=
  if capacity others <? daily_steps admitted then Some "routine-step-budget"%string
  else if TEAM_DEFINITION_BYTES <? zsum (map definition_bytes others) + definition_bytes admitted
  then Some "routine-team-budget"%string else None.
