(* ===== verification/Define.v ===== *)
(** * Admitting definitions

    [routine/src/record/define.rs]: the closed contract of a Routine's
    definition, and the transitions that admit one: creation, update and
    refinement. *)

From stdpp Require Import base tactics list strings pretty.
From Stdlib Require Import ZArith Lia Ascii.
From S2P Require Import Prelude Text Json Calendar Platform Wire Schedule Dates Starts Plans Team Definitions.

#[local] Open Scope Z_scope.
#[local] Abbreviation state := TeamRoutines.TeamRoutines.

Definition positive_integer (v : Value) : bool :=
  is_integer v
  && negb (match v with VNumber (NInt z) => z <=? 0 | _ => false end)
  && negb (match v with VNumber (NBigInt d) => bool_decide (is_Some (strip_prefix "-" d)) | _ => false end).

Definition confirmed (value : option Value) : bool :=
  match value with
  | None => false
  | Some v =>
      has_fields v ["proposal_id"; "proposal_digest"; "principal"; "incarnation"; "confirmed_at"]%string
      && full_value ROUTINE_ID_RE (at_ v "proposal_id")
      && full_value PLAN_DIGEST_RE (at_ v "proposal_digest")
      && full_value HEX32_RE (at_ v "principal")
      && full_value SHA256_RE (at_ v "incarnation")
      && positive_integer (at_ v "confirmed_at")
  end.

(** [payload::SOURCE_DIGEST_RE]. *)
Definition SOURCE_DIGEST_RE (s : string) : bool := PLAN_DIGEST_RE s.

Definition strings_of (l : list Value) : list string := omap as_str l.

Definition permitted_shape (item : Value) : bool :=
  let stored := elements (at_ item "stored_inputs") in
  let names := strings_of stored in
  has_fields item ["assistant"; "action"; "pin"; "read_only"; "stored_inputs"]%string
  && bool_decide (is_Some (canonical_assistant_id (at_ item "assistant")))
  && bool_decide (is_Some (canonical_action_id (at_ item "action")))
  && full_value PLAN_DIGEST_RE (at_ item "pin")
  && is_bool (at_ item "read_only")
  && is_array (at_ item "stored_inputs")
  && (len stored <=? MAX_STEP_STORED_INPUTS)
  && forallb (fun name => bool_decide (is_Some (canonical_identifier name))) stored
  && Nat.eqb (length names) (length stored)
  && windows2 sltb names.

(** A step's, or an entry's, Assistant and Action. *)
Definition step_key (step : Value) : string * string :=
  (str_or_empty (at_ step "assistant"), str_or_empty (at_ step "action")).
Definition pair_eqb (a b : string * string) : bool := (fst a =s fst b) && (snd a =s snd b).
Definition pair_ltb (a b : string * string) : bool :=
  match String.compare (fst a) (fst b) with Lt => true | Eq => sltb (snd a) (snd b) | Gt => false end.

Definition permitted_valid (r : Routine.Routine) : bool :=
  let entries := Routine.permitted r in
  if (MAX_PERMITTED <? len entries) || negb (forallb permitted_shape entries) then false else
  let pins := map (fun item => (step_key item, str_or_empty (at_ item "pin"))) entries in
  let steps := plan_steps (Routine.plan r) in
  windows2 (fun a b => pair_ltb (fst a) (fst b)) pins
  && forallb (fun kp => existsb (fun step => pair_eqb (step_key step) (fst kp)) steps) pins
  && forallb (fun step =>
        match List.find (fun kp => pair_eqb (fst kp) (step_key step)) pins with
        | Some kp => is_str (at_ step "pin") (snd kp)
        | None => false
        end) steps.

Definition strings_eqb (a b : list string) : bool := bool_decide (a = b).

Definition assistants_valid (r : Routine.Routine) : bool :=
  let used := dedup (stable_sort sleb
                (strings_of (map (fun item => at_ item "assistant") (Routine.permitted r)))) in
  let named := map fst (Routine.assistants r) in
  strings_eqb named used
  && (len (Routine.assistants r) <=? MAX_ROUTINE_ASSISTANTS)
  && windows2 pair_ltb (Routine.assistants r)
  && forallb (fun ad => bool_decide (is_Some (canonical_assistant_id (text (fst ad))))
                        && SOURCE_DIGEST_RE (snd ad)) (Routine.assistants r).

Section Define.
  Context {PF : Platform} {VO : Vocabulary}.

Definition definition_valid (r : Routine.Routine) : bool :=
  if negb (well_formed (Routine.plan r)) then false else
  ROUTINE_ID_RE (Routine.routine_id r)
  && bool_decide (is_Some (canonical_name (text (Routine.name r))))
  && exact_description (text (Routine.description r))
  && zoned (at_ (Routine.plan r) "timezone") (text (Routine.timezone_source r))
  && bool_decide (is_Some (canonical_schedule (Routine.schedule r)))
  && permitted_valid r
  && assistants_valid r
  && confirmed (Routine.confirmation r)
  && valid_revision (int (Routine.revision r)).

Definition defined (r : Routine.Routine) (revision : Z) : result Routine.Routine :=
  let d := r <| Routine.revision := revision |> in
  _ ← refuse (negb (definition_valid d)) "routine-invalid";
  _ ← refuse (negb (definition_fits r)) "routine-too-large";
  Ok (d <| Routine.needs_reconfirm := false |> <| Routine.deleting := false |>
        <| Routine.failures := 0 |> <| Routine.output_digest := ""%string |>).

Definition first_run (r : Routine.Routine) : result Z :=
  if continuous r then Ok (Routine.anchor r) else next_after r (Routine.anchor r).

Definition admitted (r : Routine.Routine) (revision : Z) : result Routine.Routine :=
  a ← defined r revision;
  first ← first_run a;
  _ ← refuse (negb (Routine.next_run_at r =? first)) "routine-invalid";
  Ok (a <| Routine.gap_started_at := 0 |> <| Routine.missed := 0 |> <| Routine.reported_missed := 0 |>
        <| Routine.rollup_minute := 0 |> <| Routine.rollup_runs := 0 |> <| Routine.rollup_usage := None |>
        <| Routine.run_requested := 0 |>).

Definition scheduled (r : Routine.Routine) (now : Z) : result Routine.Routine :=
  let anchored := r <| Routine.anchor := now |> in
  first ← first_run anchored;
  Ok (anchored <| Routine.next_run_at := first |>).

Definition budgets (others : list Routine.Routine) (a : Routine.Routine) : result unit :=
  match over_budget others a with None => Ok tt | Some refused => Err refused end.

Definition add_routine (st : state) (value : Routine.Routine) : result state :=
  a ← admitted value 1;
  _ ← refuse (existsb (fun item => Routine.routine_id item =s Routine.routine_id a) (TeamRoutines.routines st))
        "routine-exists";
  _ ← refuse (MAX_ROUTINES <=? len (TeamRoutines.routines st)) "routine-limit";
  _ ← budgets (TeamRoutines.routines st) a;
  Ok (st <| TeamRoutines.routines := TeamRoutines.routines st ++ [a] |>).

Definition changeable (st : state) (routine_id : string) (expected_revision : Z) : result Routine.Routine :=
  current ← routine st routine_id;
  _ ← refuse (Routine.deleting current) "routine-not-found";
  _ ← refuse (negb (Routine.revision current =? expected_revision)) "routine-revision-changed";
  _ ← refuse (existsb (fun item => Run.routine_id item =s Routine.routine_id current) (live_runs st))
        "routine-busy";
  Ok current.

Definition others (st : state) (routine_id : string) : list Routine.Routine :=
  List.filter (fun item => negb (Routine.routine_id item =s routine_id)) (TeamRoutines.routines st).

Context {E : Type} {EN : Entropy E}.

Definition create (st : state) (value : Routine.Routine) (now : Z) (usage : option Value)
    (steps : list Value) : drawing E state :=
  st ← lift (add_routine st value);
  id ← new_id;
  lift (put_notice st
    ((Notice_new id (Routine.routine_id value) "" "created" now (object [("steps"%string, VArray steps)]))
       <| Notice.usage := usage |>)).

Definition update (st : state) (value : Routine.Routine) (expected_revision now : Z) : drawing E state :=
  current ← lift (changeable st (Routine.routine_id value) expected_revision);
  a ← lift (admitted value (Routine.revision current + 1));
  _ ← lift (budgets (others st (Routine.routine_id current)) a);
  let a := a <| Routine.paused := Routine.paused current |>
             <| Routine.rollup_minute := Routine.rollup_minute current |>
             <| Routine.rollup_runs := Routine.rollup_runs current |>
             <| Routine.rollup_usage := Routine.rollup_usage current |> in
  let st := replace_routine st a in
  id ← new_id;
  lift (put_notice st (Notice_new id (Routine.routine_id a) "" "changed" now (object []))).

Definition refine (st : state) (value : Routine.Routine) (expected_revision now : Z) : drawing E state :=
  current ← lift (changeable st (Routine.routine_id value) expected_revision);
  _ ← lift (refuse (negb (timezone value =s timezone current)) "routine-invalid");
  let definition :=
    current <| Routine.description := Routine.description value |>
            <| Routine.assistants := Routine.assistants value |>
            <| Routine.plan := Routine.plan value |>
            <| Routine.permitted := Routine.permitted value |>
            <| Routine.confirmation := Routine.confirmation value |> in
  refined ← lift (defined definition (Routine.revision current + 1));
  _ ← lift (budgets (others st (Routine.routine_id current)) refined);
  let st := replace_routine st refined in
  id ← new_id;
  lift (put_notice st (Notice_new id (Routine.routine_id refined) "" "changed" now (object []))).
End Define.
