(* ===== verification/StateCodec.v ===== *)
(** * A Team's state file

    [local/src/routine/store/codec.rs]: the canonical bytes of a Team's Routine
    state, and the decoding that admits exactly the records Team writes: every
    member of every record, each run status with exactly its own fields, every
    bound and every invariant across records.  A state written to its file is read
    back as the same records, the documents they hold with their members in the
    written order, or it is refused before it replaces anything. *)

From stdpp Require Import base tactics list strings pretty.
From Stdlib Require Import ZArith Lia Ascii.
From S2P Require Import Prelude Text Json Reader Utf8 ReaderSafety Floats RoundTrip Calendar Platform Wire Instants Notices Schedule Dates Starts Plans Team Definitions Define.

#[local] Open Scope Z_scope.

(** [StoreError]: Routine state is invalid or unavailable. *)
Inductive StoreError : Type :=
| InvalidTeam | InvalidRun | InvalidRecord | NotJson | Malformed | Unsafe | TooLarge | Unavailable | NotPersisted
| Unauthentic | Immutable | Resetting | Layout.
#[global] Instance StoreError_eq_dec : EqDecision StoreError.
Proof. solve_decision. Defined.
Definition stored (A : Type) : Type := StoreError + A.
#[global] Instance stored_ret : MRet stored := fun A a => inr a.
#[global] Instance stored_bind : MBind stored := fun A B f m => match m with inl e => inl e | inr a => f a end.
Definition require (condition : bool) : stored unit := if condition then inr tt else inl Malformed.

Definition SCHEMA : Z := 13.
Definition MAX_REQUESTS_PER_TURN : Z := 16.
Definition ROUTINE_FIELDS : list string :=
  ["routine_id"; "name"; "description"; "plan"; "schedule"; "timezone_source"; "assistants"; "anchor"; "next_run_at"; "needs_reconfirm";
   "deleting"; "gap_started_at"; "missed"; "reported_missed"; "revision"; "paused"; "confirmation"; "permitted"; "failures";
   "rollup_minute"; "rollup_runs"; "rollup_usage"; "run_requested"; "output_digest"]%string.
Definition RUN_FIELDS : list string :=
  ["run_id"; "routine_id"; "status"; "lease_sha256"; "lease_key"; "lease_expires_at"; "active_seconds_left"; "request_kind";
   "assistant_id"; "action"; "generation"; "notice_version"; "requests_used"; "position"; "steps"; "usage"; "protection_lost"; "revision"]%string.
Definition NOTICE_FIELDS : list string :=
  ["notice_id"; "routine_id"; "run_id"; "outcome"; "created_at"; "detail"; "version"; "name"; "usage"; "protection_lost"]%string.
Definition STATE_FIELDS : list string :=
  ["schema"; "team_id"; "routines"; "runs"; "notices"; "served_at"; "starts"; "discards"]%string.

(** ** Writing *)
Definition optional_value (v : option Value) : Value := default VNull v.
Definition pair_value (p : string * string) : Value := VArray [text (fst p); text (snd p)].
Definition routine_value (r : Routine.Routine) : Value :=
  object
    [("routine_id", text (Routine.routine_id r)); ("name", text (Routine.name r)); ("description", text (Routine.description r));
     ("plan", Routine.plan r); ("schedule", Routine.schedule r); ("timezone_source", text (Routine.timezone_source r));
     ("assistants", VArray (map pair_value (Routine.assistants r))); ("anchor", int (Routine.anchor r));
     ("next_run_at", int (Routine.next_run_at r)); ("needs_reconfirm", VBool (Routine.needs_reconfirm r));
     ("deleting", VBool (Routine.deleting r)); ("gap_started_at", int (Routine.gap_started_at r)); ("missed", int (Routine.missed r));
     ("reported_missed", int (Routine.reported_missed r)); ("revision", int (Routine.revision r)); ("paused", VBool (Routine.paused r));
     ("confirmation", optional_value (Routine.confirmation r)); ("permitted", VArray (Routine.permitted r));
     ("failures", int (Routine.failures r)); ("rollup_minute", int (Routine.rollup_minute r)); ("rollup_runs", int (Routine.rollup_runs r));
     ("rollup_usage", optional_value (Routine.rollup_usage r)); ("run_requested", int (Routine.run_requested r));
     ("output_digest", text (Routine.output_digest r))]%string.
Definition run_value (r : Run.Run) : Value :=
  object
    [("run_id", text (Run.run_id r)); ("routine_id", text (Run.routine_id r)); ("status", text (status_name (Run.status r)));
     ("lease_sha256", text (Run.lease_sha256 r)); ("lease_key", text (Run.lease_key r)); ("lease_expires_at", int (Run.lease_expires_at r));
     ("active_seconds_left", int (Run.active_seconds_left r)); ("request_kind", text (Run.request_kind r));
     ("assistant_id", text (Run.assistant_id r)); ("action", text (Run.action r)); ("generation", text (Run.generation r));
     ("notice_version", int (Run.notice_version r)); ("requests_used", int (Run.requests_used r));
     ("position", from_option int VNull (Run.position r)); ("steps", int (Run.steps r)); ("usage", Run.usage r);
     ("protection_lost", VBool (Run.protection_lost r)); ("revision", int (Run.revision r))]%string.
Definition notice_value (n : Notice.Notice) : Value :=
  object
    [("notice_id", text (Notice.notice_id n)); ("routine_id", text (Notice.routine_id n)); ("run_id", text (Notice.run_id n));
     ("outcome", text (Notice.outcome n)); ("created_at", int (Notice.created_at n)); ("detail", Notice.detail n);
     ("version", int (Notice.version n)); ("name", text (Notice.name n)); ("usage", optional_value (Notice.usage n));
     ("protection_lost", VBool (Notice.protection_lost n))]%string.
Definition start_value (s : Start) : Value := let '(routine_id, at_, steps) := s in VArray [text routine_id; int at_; int steps].
(** [encode]. *)
Definition state_value (st : TeamRoutines.TeamRoutines) (team_id : string) : Value :=
  object
    [("schema", int SCHEMA); ("team_id", text team_id); ("routines", VArray (map routine_value (TeamRoutines.routines st)));
     ("runs", VArray (map run_value (TeamRoutines.runs st))); ("notices", VArray (map notice_value (TeamRoutines.notices st)));
     ("served_at", int (TeamRoutines.served_at st)); ("starts", VArray (map start_value (TeamRoutines.starts st)));
     ("discards", VArray (map pair_value (TeamRoutines.discards st)))]%string.
Definition state_encode (st : TeamRoutines.TeamRoutines) (team_id : string) : string := dumps CANONICAL (state_value st team_id).

(** ** Reading *)
Definition exactly_fields (v : Value) (fields : list string) : stored (list (string * Value)) :=
  match exact_object v fields with Some ms => inr ms | None => inl Malformed end.
Definition string_of (v : Value) : stored string := match v with VString s => inr s | _ => inl Malformed end.
Definition boolean_of (v : Value) : stored bool := match v with VBool b => inr b | _ => inl Malformed end.
Definition integer_of (v : Value) : stored Z := match small_int v with Some z => inr z | None => inl Malformed end.
Definition bounded_of (v : Value) (low high : Z) : stored Z :=
  z ← integer_of v; _ ← require ((low <=? z) && (z <=? high)); mret z.
(** An epoch instant Team writes: an integer from 0 below [2 ^ 40]. *)
Definition instant_of (v : Value) : stored Z := bounded_of v 0 (2 ^ 40 - 1).
Definition count_of (v : Value) : stored Z := bounded_of v 0 (MAX_COUNTED_MISSES * 1024).
Definition nullable_value (v : Value) : option Value := match v with VNull => None | _ => Some v end.
Definition array_of_value (v : Value) : stored (list Value) := match v with VArray l => inr l | _ => inl Malformed end.
Fixpoint each {A} (f : Value -> stored A) (l : list Value) : stored (list A) :=
  match l with [] => mret [] | v :: l => a ← f v; rest ← each f l; mret (a :: rest) end.
Definition pair_of (v : Value) : stored (string * string) :=
  match v with VArray [a; b] => a ← string_of a; b ← string_of b; mret (a, b) | _ => inl Malformed end.
Definition assistants_of (v : Value) : stored (list (string * string)) := pairs ← array_of_value v; each pair_of pairs.

(** [split_once(separator)]. *)
Fixpoint split_once (separator s : string) : option (string * string) :=
  match strip_prefix separator s with
  | Some rest => Some (""%string, rest)
  | None =>
      match s with
      | EmptyString => None
      | String a s => '(before, rest) ← split_once separator s; Some (String a before, rest)
      end
  end.
(** None yet, or exactly this run's own or continuation generation in a Team
    network.  [rest.strip_suffix(":s1") == Some(run_id)] is [rest == run_id + ":s1"]. *)
Definition generation_of (run_id generation : string) : bool :=
  if is_empty generation then true
  else match split_once ":routine:" generation with
       | None => false
       | Some (network, rest) => exactly 64 is_hex network && ((rest =s run_id) || (rest =s run_id +:+ ":s1"))
       end.

(** *** Runs *)
Definition shape_text (v : Value) (name : string) : string := str_or_empty (at_ v name).
Definition is_zero (v : Value) : bool := match small_int v with Some z => z =? 0 | None => false end.
Definition no_call (v : Value) : bool :=
  is_empty (shape_text v "assistant_id") && is_empty (shape_text v "action") && is_null (at_ v "position") && is_zero (at_ v "steps").
Definition no_request (v : Value) : bool := is_empty (shape_text v "request_kind") && no_call v.
Definition unleased (v : Value) : bool :=
  is_empty (shape_text v "lease_sha256") && is_empty (shape_text v "lease_key") && is_zero (at_ v "lease_expires_at").
Definition names_action (v : Value) : bool := valid_assistant (at_ v "assistant_id") && valid_action (at_ v "action").
Definition shape_incident (v : Value) : bool :=
  unleased v && negb (is_empty (shape_text v "generation")) && is_empty (shape_text v "request_kind")
  && (no_call v || (names_action v && is_some (canonical_position (at_ v "position") (at_ v "steps")))).
(** Each status admits exactly its own fields. *)
Definition shape_admits (v : Value) (status : RunStatus) : bool :=
  match status with
  | Leased =>
      SHA256_RE (shape_text v "lease_sha256")
      && ((shape_text v "lease_key" =s HUMAN_LEASE) || SHA256_RE (shape_text v "lease_key")) && no_request v
  | Frozen =>
      unleased v && contains REQUEST_KINDS (shape_text v "request_kind") && names_action v && is_null (at_ v "position")
      && is_zero (at_ v "steps")
  | Held => unleased v && no_request v && negb (is_empty (shape_text v "generation"))
  | Unresolved | Skipped => shape_incident v
  end.
Definition RUN_STRINGS : list string :=
  ["run_id"; "routine_id"; "status"; "lease_sha256"; "lease_key"; "request_kind"; "assistant_id"; "action"; "generation"]%string.
Definition run_members (v : Value) : bool :=
  let run_id := shape_text v "run_id" in
  let usage := at_ v "usage" in
  forallb (fun name => is_some (as_str (at_ v name))) RUN_STRINGS
  && (ROUTINE_ID_RE run_id && ROUTINE_ID_RE (shape_text v "routine_id") && generation_of run_id (shape_text v "generation")
      && match small_int (at_ v "active_seconds_left") with Some seconds => seconds <=? ACTIVE_SECONDS | None => false end
      && match small_int (at_ v "notice_version") with Some version => 0 <=? version | None => false end
      && whole (at_ v "requests_used") 0 MAX_REQUESTS_PER_TURN && valid_revision (at_ v "revision") && is_some (small_int (at_ v "steps")))
  && match canonical_run_usage usage with Some canonical => py_eq canonical usage | None => false end.
Definition decode_run (v : Value) : stored Run.Run :=
  _ ← exactly_fields v RUN_FIELDS;
  _ ← require (run_members v);
  protection_lost ← boolean_of (at_ v "protection_lost");
  lease_expires_at ← instant_of (at_ v "lease_expires_at");
  status ← match status_parse (shape_text v "status") with Some status => inr status | None => inl Malformed end;
  _ ← require (shape_admits v status);
  position ← match at_ v "position" with VNull => mret None | other => z ← integer_of other; mret (Some z) end;
  active_seconds_left ← integer_of (at_ v "active_seconds_left");
  notice_version ← integer_of (at_ v "notice_version");
  requests_used ← integer_of (at_ v "requests_used");
  steps ← integer_of (at_ v "steps");
  revision ← integer_of (at_ v "revision");
  mret (Run.mk (shape_text v "run_id") (shape_text v "routine_id") status (shape_text v "lease_sha256") (shape_text v "lease_key")
          lease_expires_at active_seconds_left (shape_text v "request_kind") (shape_text v "assistant_id") (shape_text v "action")
          (shape_text v "generation") notice_version requests_used position steps (at_ v "usage") protection_lost revision).

(** *** Starts and discards *)
Definition decode_discard (v : Value) : stored (string * string) :=
  p ← pair_of v; _ ← require (ROUTINE_ID_RE (fst p) && generation_of (fst p) (snd p)); mret p.
Definition decode_start (v : Value) : stored Start :=
  match v with
  | VArray [routine_id; at_; steps] =>
      routine_id ← string_of routine_id;
      _ ← require (ROUTINE_ID_RE routine_id);
      at_ ← instant_of at_;
      steps ← bounded_of steps 1 MAX_STEPS;
      mret (routine_id, at_, steps)
  | _ => inl Malformed
  end.
Definition list_of (v : Value) (maximum : Z) : stored (list Value) :=
  l ← array_of_value v; _ ← require (len l <=? maximum); mret l.

Section Codec.
  Context {PF : Platform} {VO : Vocabulary}.

(** *** Routines *)
Definition decode_routine (v : Value) : stored Routine.Routine :=
  _ ← exactly_fields v ROUTINE_FIELDS;
  permitted ← array_of_value (at_ v "permitted");
  output_digest ← string_of (at_ v "output_digest");
  _ ← require (is_empty output_digest || SHA256_RE output_digest);
  let rollup_usage := nullable_value (at_ v "rollup_usage") in
  _ ← require match rollup_usage with Some usage => is_some (canonical_run_usage usage) | None => true end;
  routine_id ← string_of (at_ v "routine_id");
  name ← string_of (at_ v "name");
  assistants ← assistants_of (at_ v "assistants");
  anchor ← instant_of (at_ v "anchor");
  next_run_at ← instant_of (at_ v "next_run_at");
  description ← string_of (at_ v "description");
  needs_reconfirm ← boolean_of (at_ v "needs_reconfirm");
  deleting ← boolean_of (at_ v "deleting");
  gap_started_at ← instant_of (at_ v "gap_started_at");
  missed ← count_of (at_ v "missed");
  reported_missed ← count_of (at_ v "reported_missed");
  revision ← integer_of (at_ v "revision");
  timezone_source ← string_of (at_ v "timezone_source");
  paused ← boolean_of (at_ v "paused");
  failures ← count_of (at_ v "failures");
  rollup_minute ← instant_of (at_ v "rollup_minute");
  rollup_runs ← bounded_of (at_ v "rollup_runs") 0 MAX_ROLLUP_RUNS;
  run_requested ← instant_of (at_ v "run_requested");
  let decoded :=
    Routine.mk routine_id name (at_ v "schedule") assistants (at_ v "plan") anchor next_run_at description needs_reconfirm deleting
      gap_started_at missed reported_missed revision timezone_source paused (nullable_value (at_ v "confirmation")) permitted
      failures rollup_minute rollup_runs rollup_usage run_requested output_digest in
  _ ← require (definition_valid decoded && (definition_bytes decoded <=? MAX_DEFINITION_BYTES));
  mret decoded.

(** *** Notices: a stored notice is exactly its wire form for some Team *)
Definition wire_notice (ms : list (string * Value)) (run_id : string) : Value :=
  object (List.filter (fun kv => negb (fst kv =s "run_id") && negb (fst kv =s "created_at")) ms
          ++ [("team_id", text "stored"); ("run_id", if is_empty run_id then VNull else text run_id);
              ("created_at", text "1970-01-01T00:00:00Z")]%string).
Definition decode_notice (v : Value) : stored Notice.Notice :=
  ms ← exactly_fields v NOTICE_FIELDS;
  run_id ← string_of (at_ v "run_id");
  _ ← require (is_some (canonical_notice (wire_notice ms run_id)));
  notice_id ← string_of (at_ v "notice_id");
  routine_id ← string_of (at_ v "routine_id");
  outcome ← string_of (at_ v "outcome");
  created_at ← instant_of (at_ v "created_at");
  version ← integer_of (at_ v "version");
  name ← string_of (at_ v "name");
  protection_lost ← boolean_of (at_ v "protection_lost");
  mret (Notice.mk notice_id routine_id run_id outcome created_at (at_ v "detail") version name (nullable_value (at_ v "usage")) protection_lost).

(** *** The whole state *)
(** [distinct]: sorting and removing equal neighbours removes nothing. *)
Definition distinct_by {A} (leb eqb : A -> A -> bool) (l : list A) : bool := windows2 (fun a b => negb (eqb a b)) (stable_sort leb l).
Definition distinct_texts : list string -> bool := distinct_by sleb seqb.
Definition pair_leb (a b : string * string) : bool := negb (pair_ltb b a).
Definition consistent (st : TeamRoutines.TeamRoutines) : bool :=
  let identifiers := map Routine.routine_id (TeamRoutines.routines st) in
  distinct_texts identifiers
  && windows2 (fun a b : Start => snd (fst a) <=? snd (fst b)) (TeamRoutines.starts st)
  && (zsum (map definition_bytes (TeamRoutines.routines st)) <=? TEAM_DEFINITION_BYTES)
  && distinct_texts (map Run.run_id (TeamRoutines.runs st))
  && distinct_texts (map Notice.notice_id (TeamRoutines.notices st))
  && distinct_by pair_leb pair_eqb (TeamRoutines.discards st)
  && (len (live_runs st) <=? MAX_ROUTINES)
  && (len (List.filter (fun r => status_eqb (Run.status r) Unresolved) (TeamRoutines.runs st)) <=? MAX_UNRESOLVED_INCIDENTS)
  && forallb (fun r => contains identifiers (Run.routine_id r)) (TeamRoutines.runs st).
Definition decode_value (v : Value) (team_id : string) : stored TeamRoutines.TeamRoutines :=
  _ ← exactly_fields v STATE_FIELDS;
  _ ← require (match small_int (at_ v "schema") with Some schema => schema =? SCHEMA | None => false end && is_str (at_ v "team_id") team_id);
  routines ← list_of (at_ v "routines") MAX_ROUTINES;
  routines ← each decode_routine routines;
  runs ← list_of (at_ v "runs") MAX_RUNS;
  runs ← each decode_run runs;
  notices ← list_of (at_ v "notices") (MAX_UNDELIVERED_NOTICES + MAX_ROUTINE_NOTICES);
  notices ← each decode_notice notices;
  served_at ← instant_of (at_ v "served_at");
  starts ← list_of (at_ v "starts") MAX_STARTS;
  starts ← each decode_start starts;
  discards ← list_of (at_ v "discards") MAX_DISCARDS;
  discards ← each decode_discard discards;
  let st := TeamRoutines.mk routines runs notices served_at starts discards in
  _ ← require (consistent st);
  mret st.
(** [decode]. *)
Definition state_decode (payload team_id : string) : stored TeamRoutines.TeamRoutines :=
  match json_parse payload with Some v => decode_value v team_id | None => inl NotJson end.
End Codec.

(** * What is saved is read back *)

Lemma stored_bind_inr {A B} (m : stored A) (f : A -> stored B) b :
  (m ≫= f) = inr b <-> exists a, m = inr a /\ f a = inr b.
Proof. destruct m; cbn; split; [done|by intros (? & ? & _)|eauto|intros (a' & Ha & Hf); by simplify_eq]. Qed.
Lemma require_inr b u : require b = inr u <-> b = true.
Proof. destruct b, u; cbn; split; done. Qed.

(** Splits a successful decoding into its reads. *)
Ltac inv_stored :=
  repeat match goal with
    | H : (_ ≫= _) = inr _ |- _ => apply stored_bind_inr in H as (? & ? & ?)
    | H : require _ = inr _ |- _ => apply require_inr in H
    | H : mret _ = inr _ |- _ => unfold mret, stored_ret in H
    | H : inr _ = inr _ |- _ => injection H as H
    end; subst.

(** ** Records as they are read back *)
Abbreviation kept := (ordered CANONICAL).
Definition kept_optional (v : option Value) : option Value := nullable_value (kept (optional_value v)).
Definition kept_routine (r : Routine.Routine) : Routine.Routine :=
  Routine.mk (Routine.routine_id r) (Routine.name r) (kept (Routine.schedule r)) (Routine.assistants r) (kept (Routine.plan r))
    (Routine.anchor r) (Routine.next_run_at r) (Routine.description r) (Routine.needs_reconfirm r) (Routine.deleting r)
    (Routine.gap_started_at r) (Routine.missed r) (Routine.reported_missed r) (Routine.revision r) (Routine.timezone_source r)
    (Routine.paused r) (kept_optional (Routine.confirmation r)) (map kept (Routine.permitted r)) (Routine.failures r)
    (Routine.rollup_minute r) (Routine.rollup_runs r) (kept_optional (Routine.rollup_usage r)) (Routine.run_requested r)
    (Routine.output_digest r).
Definition kept_run (r : Run.Run) : Run.Run := r <| Run.usage := kept (Run.usage r) |>.
Definition kept_notice (n : Notice.Notice) : Notice.Notice :=
  Notice.mk (Notice.notice_id n) (Notice.routine_id n) (Notice.run_id n) (Notice.outcome n) (Notice.created_at n)
    (kept (Notice.detail n)) (Notice.version n) (Notice.name n) (kept_optional (Notice.usage n)) (Notice.protection_lost n).
Definition kept_state (st : TeamRoutines.TeamRoutines) : TeamRoutines.TeamRoutines :=
  TeamRoutines.mk (map kept_routine (TeamRoutines.routines st)) (map kept_run (TeamRoutines.runs st))
    (map kept_notice (TeamRoutines.notices st)) (TeamRoutines.served_at st) (TeamRoutines.starts st) (TeamRoutines.discards st).

(** ** Members *)
Lemma at_kept v key : admissible v = true -> at_ (kept v) key = kept (at_ v key).
Proof. intros H. unfold at_. rewrite get_ordered by done. by destruct (get v key). Qed.

Lemma each_kept {A B} (value : A -> Value) (decode : Value -> stored B) (read_back : A -> B) l bs :
  (forall a b, In a l -> decode (kept (value a)) = inr b -> b = read_back a) ->
  each decode (map kept (map value l)) = inr bs -> bs = map read_back l.
Proof.
  revert bs. induction l as [|a l IH]; intros bs Hd H; cbn [map each] in H; inv_stored; [done|].
  cbn [map]. f_equal; [by apply Hd; [left|]|]. apply IH; [|done]. intros a' b' Hin. apply Hd. by right.
Qed.
Lemma pair_kept p q : pair_of (kept (pair_value p)) = inr q -> q = p.
Proof. destruct p as [a b]. cbn. intros [= <-]. done. Qed.

Lemma routine_members r : let at_r key := at_ (routine_value r) key in
  at_r "routine_id"%string = text (Routine.routine_id r) /\ at_r "name"%string = text (Routine.name r)
  /\ at_r "description"%string = text (Routine.description r) /\ at_r "plan"%string = Routine.plan r
  /\ at_r "schedule"%string = Routine.schedule r /\ at_r "timezone_source"%string = text (Routine.timezone_source r)
  /\ at_r "assistants"%string = VArray (map pair_value (Routine.assistants r)) /\ at_r "anchor"%string = int (Routine.anchor r)
  /\ at_r "next_run_at"%string = int (Routine.next_run_at r) /\ at_r "needs_reconfirm"%string = VBool (Routine.needs_reconfirm r)
  /\ at_r "deleting"%string = VBool (Routine.deleting r) /\ at_r "gap_started_at"%string = int (Routine.gap_started_at r)
  /\ at_r "missed"%string = int (Routine.missed r) /\ at_r "reported_missed"%string = int (Routine.reported_missed r)
  /\ at_r "revision"%string = int (Routine.revision r) /\ at_r "paused"%string = VBool (Routine.paused r)
  /\ at_r "confirmation"%string = optional_value (Routine.confirmation r) /\ at_r "permitted"%string = VArray (Routine.permitted r)
  /\ at_r "failures"%string = int (Routine.failures r) /\ at_r "rollup_minute"%string = int (Routine.rollup_minute r)
  /\ at_r "rollup_runs"%string = int (Routine.rollup_runs r) /\ at_r "rollup_usage"%string = optional_value (Routine.rollup_usage r)
  /\ at_r "run_requested"%string = int (Routine.run_requested r) /\ at_r "output_digest"%string = text (Routine.output_digest r).
Proof. vm_compute. split_and!; reflexivity. Qed.

Lemma run_fields r : let at_r key := at_ (run_value r) key in
  at_r "run_id"%string = text (Run.run_id r) /\ at_r "routine_id"%string = text (Run.routine_id r)
  /\ at_r "status"%string = text (status_name (Run.status r)) /\ at_r "lease_sha256"%string = text (Run.lease_sha256 r)
  /\ at_r "lease_key"%string = text (Run.lease_key r) /\ at_r "lease_expires_at"%string = int (Run.lease_expires_at r)
  /\ at_r "active_seconds_left"%string = int (Run.active_seconds_left r) /\ at_r "request_kind"%string = text (Run.request_kind r)
  /\ at_r "assistant_id"%string = text (Run.assistant_id r) /\ at_r "action"%string = text (Run.action r)
  /\ at_r "generation"%string = text (Run.generation r) /\ at_r "notice_version"%string = int (Run.notice_version r)
  /\ at_r "requests_used"%string = int (Run.requests_used r) /\ at_r "position"%string = from_option int VNull (Run.position r)
  /\ at_r "steps"%string = int (Run.steps r) /\ at_r "usage"%string = Run.usage r
  /\ at_r "protection_lost"%string = VBool (Run.protection_lost r) /\ at_r "revision"%string = int (Run.revision r).
Proof. vm_compute. split_and!; reflexivity. Qed.
Lemma notice_fields n : let at_n key := at_ (notice_value n) key in
  at_n "notice_id"%string = text (Notice.notice_id n) /\ at_n "routine_id"%string = text (Notice.routine_id n)
  /\ at_n "run_id"%string = text (Notice.run_id n) /\ at_n "outcome"%string = text (Notice.outcome n)
  /\ at_n "created_at"%string = int (Notice.created_at n) /\ at_n "detail"%string = Notice.detail n
  /\ at_n "version"%string = int (Notice.version n) /\ at_n "name"%string = text (Notice.name n)
  /\ at_n "usage"%string = optional_value (Notice.usage n) /\ at_n "protection_lost"%string = VBool (Notice.protection_lost n).
Proof. vm_compute. split_and!; reflexivity. Qed.
Lemma state_fields st team : let at_s key := at_ (state_value st team) key in
  at_s "schema"%string = int SCHEMA /\ at_s "team_id"%string = text team
  /\ at_s "routines"%string = VArray (map routine_value (TeamRoutines.routines st))
  /\ at_s "runs"%string = VArray (map run_value (TeamRoutines.runs st))
  /\ at_s "notices"%string = VArray (map notice_value (TeamRoutines.notices st))
  /\ at_s "served_at"%string = int (TeamRoutines.served_at st)
  /\ at_s "starts"%string = VArray (map start_value (TeamRoutines.starts st))
  /\ at_s "discards"%string = VArray (map pair_value (TeamRoutines.discards st)).
Proof. vm_compute. split_and!; reflexivity. Qed.

Lemma status_parse_name s : status_parse (status_name s) = Some s.
Proof. by destruct s. Qed.

(** The reads of text, flags and numbers. *)
Ltac read_members H :=
  cbn [ordered text int] in H;
  unfold instant_of, count_of, bounded_of, string_of, boolean_of, integer_of, assistants_of, list_of, array_of_value in H;
  cbn [small_int as_str] in H.

Lemma run_kept r r' : admissible (run_value r) = true -> decode_run (kept (run_value r)) = inr r' -> r' = kept_run r.
Proof.
  intros Ha H. unfold decode_run, shape_text, str_or_empty in H. apply stored_bind_inr in H as (? & _ & H). apply stored_bind_inr in H as (? & _ & H).
  rewrite !at_kept in H by done.
  destruct (run_fields r) as (F1 & F2 & F3 & F4 & F5 & F6 & F7 & F8 & F9 & F10 & F11 & F12 & F13 & F14 & F15 & F16 & F17 & F18).
  rewrite F1, F2, F3, F4, F5, F6, F7, F8, F9, F10, F11, F12, F13, F14, F15, F16, F17, F18 in H.
  clear F1 F2 F3 F4 F5 F6 F7 F8 F9 F10 F11 F12 F13 F14 F15 F16 F17 F18. read_members H. cbn [default from_option id] in H. unfold id in H.
  rewrite status_parse_name in H. inv_stored. unfold kept_run. destruct r as [? ? ? ? ? ? ? ? ? ? ? ? ? position]. cbn in *.
  destruct position; cbn in *; by inv_stored.
Qed.
Lemma start_kept t t' : decode_start (kept (start_value t)) = inr t' -> t' = t.
Proof. destruct t as [[routine_id at'] steps]. unfold decode_start, start_value. intros H. cbn [map ordered text int] in H. read_members H. by inv_stored. Qed.
Lemma discard_kept d d' : decode_discard (kept (pair_value d)) = inr d' -> d' = d.
Proof. unfold decode_discard. intros H. inv_stored. by apply pair_kept. Qed.

Section RoundTrip.
  Context {PF : Platform} {VO : Vocabulary}.

Lemma routine_kept r r' : admissible (routine_value r) = true ->
  decode_routine (kept (routine_value r)) = inr r' -> r' = kept_routine r.
Proof.
  intros Ha H. unfold decode_routine in H. rewrite !at_kept in H by done.
  destruct (routine_members r) as (F1 & F2 & F3 & F4 & F5 & F6 & F7 & F8 & F9 & F10 & F11 & F12 & F13 & F14 & F15 & F16 & F17 & F18
    & F19 & F20 & F21 & F22 & F23 & F24).
  rewrite F1, F2, F3, F4, F5, F6, F7, F8, F9, F10, F11, F12, F13, F14, F15, F16, F17, F18, F19, F20, F21, F22, F23, F24 in H.
  clear F1 F2 F3 F4 F5 F6 F7 F8 F9 F10 F11 F12 F13 F14 F15 F16 F17 F18 F19 F20 F21 F22 F23 F24.
  read_members H. inv_stored. unfold kept_routine, kept_optional. f_equal.
  match goal with H : each pair_of _ = inr ?l |- ?l = _ => apply (each_kept pair_value pair_of id) in H; [by rewrite map_id in H|] end.
  intros p q _. apply pair_kept.
Qed.

Lemma notice_kept n n' : admissible (notice_value n) = true -> decode_notice (kept (notice_value n)) = inr n' -> n' = kept_notice n.
Proof.
  intros Ha H. unfold decode_notice in H. rewrite !at_kept in H by done.
  destruct (notice_fields n) as (F1 & F2 & F3 & F4 & F5 & F6 & F7 & F8 & F9 & F10).
  rewrite F1, F2, F3, F4, F5, F6, F7, F8, F9, F10 in H. clear F1 F2 F3 F4 F5 F6 F7 F8 F9 F10. read_members H. by inv_stored.
Qed.

Lemma admissible_element {A} (value : A -> Value) l a : admissible (VArray (map value l)) = true -> In a l -> admissible (value a) = true.
Proof. cbn [admissible]. rewrite forallb_forall. intros H Hin. apply H. by apply in_map. Qed.

Lemma value_kept st team st' : admissible (state_value st team) = true ->
  decode_value (kept (state_value st team)) team = inr st' -> st' = kept_state st.
Proof.
  intros Ha H. unfold decode_value in H. rewrite !at_kept in H by done.
  assert (forall key v, get (state_value st team) key = Some v -> admissible v = true) as Hin by (intros; by eapply admissible_get).
  destruct (state_fields st team) as (F1 & F2 & F3 & F4 & F5 & F6 & F7 & F8).
  rewrite F1, F2, F3, F4, F5, F6, F7, F8 in H. clear F1 F2 F3 F4 F5 F6 F7 F8. read_members H. inv_stored. unfold kept_state. f_equal.
  - match goal with H : each decode_routine _ = inr _ |- _ => revert H end. apply each_kept. intros r r' Hr. apply routine_kept.
    apply (admissible_element routine_value (TeamRoutines.routines st)); [|done]. apply (Hin "routines"%string). by vm_compute.
  - match goal with H : each decode_run _ = inr _ |- _ => revert H end. apply each_kept. intros r r' Hr. apply run_kept.
    apply (admissible_element run_value (TeamRoutines.runs st)); [|done]. apply (Hin "runs"%string). by vm_compute.
  - match goal with H : each decode_notice _ = inr _ |- _ => revert H end. apply each_kept. intros r r' Hr. apply notice_kept.
    apply (admissible_element notice_value (TeamRoutines.notices st)); [|done]. apply (Hin "notices"%string). by vm_compute.
  - match goal with H : each decode_start _ = inr ?l |- ?l = _ => rewrite <- (map_id (TeamRoutines.starts st)); revert H end.
    apply (each_kept start_value decode_start id). intros r r' _. apply start_kept.
  - match goal with H : each decode_discard _ = inr ?l |- ?l = _ => rewrite <- (map_id (TeamRoutines.discards st)); revert H end.
    apply (each_kept pair_value decode_discard id). intros r r' _. apply discard_kept.
Qed.

(** The read-back state is written as the same bytes. *)
Lemma optional_kept v : kept (optional_value (kept_optional v)) = kept (optional_value v).
Proof.
  unfold kept_optional. rewrite <- (ordered_twice _ (optional_value v)) at 2. f_equal. destruct (kept (optional_value v)); reflexivity.
Qed.
Lemma map_kept_twice l : map kept (map kept l) = map kept l.
Proof. rewrite map_map. apply map_ext. intros v. apply ordered_twice. Qed.
Lemma object_kept ms ms' : map fst ms = map fst ms' -> map (fun kv => kept (snd kv)) ms = map (fun kv => kept (snd kv)) ms' ->
  kept (object ms) = kept (object ms').
Proof.
  intros Hk Hv. unfold object. rewrite !ordered_object. unfold ordered_member. rewrite <- !(in_order_map CANONICAL kept).
  f_equal. f_equal. revert ms' Hk Hv. induction ms as [|[k v] ms IH]; intros [|[k' v'] ms'] Hk Hv; try done.
  cbn in *. injection Hk as -> Hk. injection Hv as Hv Hvs. rewrite Hv. f_equal. by apply IH.
Qed.
Lemma routine_written r : kept (routine_value (kept_routine r)) = kept (routine_value r).
Proof.
  apply object_kept; [done|]. unfold kept_routine. cbn [map snd ordered]. cbn [Routine.plan Routine.schedule Routine.confirmation Routine.rollup_usage Routine.permitted Routine.assistants].
  rewrite !ordered_twice, !optional_kept, map_kept_twice. reflexivity.
Qed.
Lemma run_written r : kept (run_value (kept_run r)) = kept (run_value r).
Proof.
  apply object_kept; [done|]. cbn [map snd]. repeat (apply f_equal2; [first [reflexivity | apply (ordered_twice CANONICAL)]|]). reflexivity.
Qed.
Lemma notice_written n : kept (notice_value (kept_notice n)) = kept (notice_value n).
Proof.
  apply object_kept; [done|]. unfold kept_notice. cbn [map snd]. cbn [Notice.detail Notice.usage]. by rewrite ordered_twice, optional_kept.
Qed.
Lemma state_written st team : kept (state_value (kept_state st) team) = kept (state_value st team).
Proof.
  apply object_kept; [done|]. unfold kept_state. cbn [map snd ordered TeamRoutines.routines TeamRoutines.runs TeamRoutines.notices]. rewrite !map_map.
  rewrite (map_ext _ _ routine_written), (map_ext _ _ run_written), (map_ext _ _ notice_written). reflexivity.
Qed.
Lemma kept_encoded st team : state_encode (kept_state st) team = state_encode st team.
Proof. unfold state_encode. rewrite <- (dumps_ordered _ (state_value (kept_state st) team)), state_written. apply dumps_ordered. Qed.

(** The state's documents are values a strict reader admits, within its depth, and
    its floats read back from their shortest text: what every document that entered
    Team through the reader is. *)
Definition writable_state (st : TeamRoutines.TeamRoutines) (team : string) : Prop :=
  admissible (state_value st team) = true /\ doubles (state_value st team) /\ height (state_value st team) <= Strict.MAX_DEPTH.

Lemma decoded_kept st team st' : writable_state st team ->
  state_decode (state_encode st team) team = inr st' -> st' = kept_state st.
Proof.
  intros (Ha & Hf & Hh) H. unfold state_decode, state_encode in H. rewrite parse_dumps in H by done. by eapply value_kept.
Qed.
End RoundTrip.
