(* ===== verification/Claims.v ===== *)
(** * Claiming due runs

    [routine/src/claim/mod.rs]: sweeping missed firings into one gap notice,
    which Routines may start, leasing a run, the leases that may drive it, and
    its journal generations. *)

From stdpp Require Import base tactics list strings pretty.
From Stdlib Require Import ZArith Lia Ascii.
From S2P Require Import Prelude Text Json Calendar Platform Wire Schedule Dates Starts Plans Team Definitions.

#[local] Open Scope Z_scope.
#[local] Abbreviation state := TeamRoutines.TeamRoutines.

Definition VERIFY_SUFFIX : string := "v1".

(** ** Missed firings *)
Section Sweep.
  Context {PF : Platform}.

(** The loop of [count_before], at most [MAX_COUNTED_MISSES] turns. *)
Fixpoint count_loop (turns : nat) (r : Routine.Routine) (count current limit : Z) : result (Z * Z) :=
  match turns with
  | O => Ok (count, current)
  | S turns' =>
      if current <? limit
      then next ← next_after r current; count_loop turns' r (count + 1) next limit
      else Ok (count, current)
  end.

Definition count_before (r : Routine.Routine) (first limit : Z) : result (Z * Z) :=
  '(count, current) ← count_loop (Z.to_nat MAX_COUNTED_MISSES) r 0 first limit;
  current ← (if current <? limit then next_after r (limit - 1) else Ok current);
  Ok (count, current).

Definition gap_notice_id (r : Routine.Routine) : string :=
  fst (split_at 32 (sha256_hex ("skipped:" +:+ Routine.routine_id r +:+ ":" +:+ pretty (Routine.gap_started_at r)))).

Definition report_gap (st : state) (r : Routine.Routine) (now : Z) (in_flight : bool) : result state :=
  if Routine.missed r =? Routine.reported_missed r then Ok st else
  let notice_id := gap_notice_id r in
  let pending := existsb (fun item => Notice.notice_id item =s notice_id) (TeamRoutines.notices st) in
  if negb (pending || in_flight || (undelivered st <? MAX_UNDELIVERED_NOTICES)) then Ok st else
  let notice :=
    (Notice_new notice_id (Routine.routine_id r) "" "skipped" now
       (object [("missed"%string, int (Routine.missed r))]))
      <| Notice.version := Routine.missed r |> in
  st ← put_notice st notice;
  Ok (replace_routine st (r <| Routine.reported_missed := Routine.missed r |>)).

Definition miss (r : Routine.Routine) (first count next_run_at : Z) : Routine.Routine :=
  let m := if Routine.gap_started_at r =? 0 then r <| Routine.gap_started_at := first |> else r in
  m <| Routine.missed := Routine.missed m + count |> <| Routine.next_run_at := next_run_at |>.

(** One Routine's turn of the sweep. *)
Definition sweep_item (st : state) (item : Routine.Routine) (now : Z) : result state :=
  if continuous item then Ok st else
  let cutoff := now - grace_seconds item in
  '(st, item) ← (if Routine.next_run_at item <? cutoff then
                   '(count, next_run_at) ← count_before item (Routine.next_run_at item) cutoff;
                   let item := miss item (Routine.next_run_at item) count next_run_at in
                   Ok (replace_routine st item, item)
                 else Ok (st, item));
  report_gap st item now false.

Fixpoint sweep_items (st : state) (items : list Routine.Routine) (now : Z) : result state :=
  match items with
  | [] => Ok st
  | item :: rest => st ← sweep_item st item now; sweep_items st rest now
  end.

Definition sweep (st : state) (now : Z) : result state := sweep_items st (TeamRoutines.routines st) now.
End Sweep.

(** ** Readiness *)

(** [claim::free_at]. *)
Definition routine_free_at (st : state) (r : Routine.Routine) (now : Z) : Z :=
  let cap := if continuous r then Some (daily_cap (Routine.schedule r)) else None in
  free_at (TeamRoutines.starts st) (Routine.routine_id r) cap now (run_units r).

Definition due_at (r : Routine.Routine) : Z :=
  if negb (Routine.run_requested r =? 0) && (Routine.run_requested r <? Routine.next_run_at r)
  then Routine.run_requested r else Routine.next_run_at r.

Definition held_routines (st : state) : list string :=
  map Run.routine_id (List.filter (fun r => status_eqb (Run.status r) Unresolved) (TeamRoutines.runs st)).

Definition busy (st : state) : list string := map Run.routine_id (live_runs st) ++ held_routines st.

Definition ready (st : state) (busy : list string) (long : bool) : list Routine.Routine :=
  List.filter (fun item => negb (Routine.needs_reconfirm item) && negb (Routine.deleting item)
                           && negb (Routine.paused item) && negb (contains busy (Routine.routine_id item))
                           && (long || negb (long_run (run_units item))))
    (TeamRoutines.routines st).

Definition segment_leased (st : state) : bool :=
  existsb (fun r => status_eqb (Run.status r) Leased) (TeamRoutines.runs st).

Definition incident_capacity (st : state) : bool :=
  let unresolved := len (List.filter (fun r => status_eqb (Run.status r) Unresolved) (TeamRoutines.runs st)) in
  let live := len (live_runs st) + 1 in
  (unresolved + live <=? MAX_UNRESOLVED_INCIDENTS) && (len (TeamRoutines.runs st) <? MAX_RUNS).

Definition backpressured (st : state) : bool :=
  (MAX_UNDELIVERED_NOTICES <=? undelivered st) || (MAX_ROUTINES <=? len (TeamRoutines.discards st))
  || negb (incident_capacity st).

(** [min_by]: the first of the least, by due instant and then id. *)
Definition due_before (a b : Routine.Routine) : bool :=
  (due_at a <? due_at b) || ((due_at a =? due_at b) && sltb (Routine.routine_id a) (Routine.routine_id b)).
Fixpoint oldest (l : list Routine.Routine) : option Routine.Routine :=
  match l with
  | [] => None
  | a :: l' => match oldest l' with
               | Some b => if due_before b a then Some b else Some a
               | None => Some a
               end
  end.

Definition claimable (st : state) (now : Z) (long : bool) : option Routine.Routine :=
  if backpressured st || segment_leased st then None else
  oldest (List.filter (fun item => (due_at item <=? now) && (routine_free_at st item now <=? now))
            (ready st (busy st) long)).

Fixpoint least (l : list Z) : option Z :=
  match l with
  | [] => None
  | a :: l' => match least l' with Some b => Some (Z.min a b) | None => Some a end
  end.
Definition next_due (st : state) (now : Z) : option Z :=
  if backpressured st || segment_leased st then None else
  least (List.filter (fun due => now <? due)
           (map (fun item => Z.max (due_at item) (routine_free_at st item now)) (ready st (busy st) true))).

(** ** Leases *)
Definition lease_until (value : Run.Run) (now : Z) : Z :=
  now + (if 0 <? Run.active_seconds_left value then Run.active_seconds_left value else 0) + LEASE_MARGIN_SECONDS.

Definition same_digest (left right : string) : bool := left =s right.

Definition require_lease (value : Run.Run) (lease : Lease.Lease) (now : Z) : result unit :=
  refuse (negb (status_eqb (Run.status value) Leased)
          || negb (same_digest (Run.lease_sha256 value) (Lease.sha256 lease))
          || negb (Run.lease_key value =s Lease.key lease)
          || (Run.lease_expires_at value <=? now)
          || (Run.active_seconds_left value <=? 0)) "lease-invalid".

Definition leased (st : state) (run_id : string) : result Run.Run :=
  value ← run st run_id;
  _ ← refuse (negb (status_eqb (Run.status value) Leased)) "run-not-running";
  Ok value.

Definition live_lease (st : state) (run_id : string) (lease : Lease.Lease) (now : Z) : result Run.Run :=
  value ← leased st run_id;
  _ ← require_lease value lease now;
  Ok value.

Definition read_lease (st : state) (run_id lease_sha256 : string) : result Run.Run :=
  value ← leased st run_id;
  _ ← refuse (negb (same_digest (Run.lease_sha256 value) lease_sha256)) "run-changed";
  Ok value.

(** ** Generations *)
Definition generation_for (network_id run_id suffix : string) : string :=
  if is_empty suffix then network_id +:+ ":routine:" +:+ run_id
  else network_id +:+ ":routine:" +:+ run_id +:+ ":" +:+ suffix.

Definition network_of (generation run_id : string) : option string :=
  '(network, r) ← generation_parts generation;
  if r =s run_id then Some network else None.

Definition verification_of (generation run_id : string) : result string :=
  network ← ok_or "routine-generation-invalid" (network_of generation run_id);
  Ok (generation_for network run_id VERIFY_SUFFIX).

Definition bind_generation (st : state) (run_id : string) (lease : Lease.Lease) (now : Z) (network_id : string)
  : result state :=
  value ← live_lease st run_id lease now;
  let unbound := is_empty (Run.generation value) in
  let generation := if unbound then generation_for network_id run_id "" else Run.generation value in
  _ ← refuse (negb (SAFE_ID_RE generation)
              || negb (bool_decide (network_of generation run_id = Some network_id))) "generation-invalid";
  let extended := if unbound then Z.max (Run.lease_expires_at value) (lease_until value now)
                  else Run.lease_expires_at value in
  Ok (replace_run st (value <| Run.generation := generation |> <| Run.lease_expires_at := extended |>)).

(** ** Claims *)
Section Claim.
  Context {PF : Platform} {E : Type} {EN : Entropy E}.

Definition lease (st : state) (due : Routine.Routine) (now : Z) (key_fingerprint : string)
  : drawing E (state * Claim.Claim) :=
  token ← new_token;
  let units := run_units due in
  id ← new_id;
  let leased :=
    (Run_new id (Routine.routine_id due) Leased)
      <| Run.lease_sha256 := lease_sha256 token |> <| Run.lease_key := key_fingerprint |>
      <| Run.lease_expires_at := now + LEASE_SECONDS |>
      <| Run.active_seconds_left := active_seconds units |>
      <| Run.revision := Routine.revision due |> in
  let plan_digest := digest (Routine.plan due) in
  let st := st <| TeamRoutines.starts := started (TeamRoutines.starts st) (Routine.routine_id due) now units |>
               <| TeamRoutines.served_at := now |>
               <| TeamRoutines.runs := TeamRoutines.runs st ++ [leased] |> in
  let st := replace_routine st due in
  mret (st, Claim.mk leased token (Routine.revision due) plan_digest (Run.active_seconds_left leased)).

(** The Routine a claim leaves behind when its standing firing starts. *)
Definition advance (due : Routine.Routine) (now : Z) : result Routine.Routine :=
  let scheduled_at := Routine.next_run_at due in
  let due := due <| Routine.run_requested := 0 |> in
  if continuous due then
    next ← next_after due now; Ok (due <| Routine.next_run_at := next |>)
  else
    following ← next_after due scheduled_at;
    '(extra, next_run_at) ← count_before due following (now + 1);
    Ok (if extra =? 0 then due <| Routine.next_run_at := next_run_at |>
        else miss due following extra next_run_at).

Definition claim (st : state) (now : Z) (key_fingerprint : string) (long : bool)
  : drawing E (state * option Claim.Claim) :=
  _ ← lift (refuse (negb (SHA256_RE key_fingerprint)) "routine-key-invalid");
  next ← lift (sweep st now);
  match claimable next now long with
  | None => mret (next, None)
  | Some due =>
      if negb (Routine.run_requested due =? 0) && (now <? Routine.next_run_at due) then
        '(next, c) ← lease next (due <| Routine.run_requested := 0 |>) now key_fingerprint;
        mret (next, Some c)
      else
        due ← lift (advance due now);
        let next := replace_routine next due in
        next ← lift (report_gap next due now true);
        ended ← lift (routine next (Routine.routine_id due));
        let ended := ended <| Routine.gap_started_at := 0 |> <| Routine.missed := 0 |>
                           <| Routine.reported_missed := 0 |> in
        '(next, c) ← lease next ended now key_fingerprint;
        mret (next, Some c)
  end.

Definition human_lease (value : Run.Run) (now : Z) : drawing E (Run.Run * string) :=
  token ← new_token;
  mret (value <| Run.status := Leased |> <| Run.lease_sha256 := lease_sha256 token |>
              <| Run.lease_key := HUMAN_LEASE |> <| Run.lease_expires_at := lease_until value now |>
              <| Run.request_kind := ""%string |> <| Run.assistant_id := ""%string |>
              <| Run.action := ""%string |> <| Run.position := None |> <| Run.steps := 0 |>, token).
End Claim.
