(* ===== verification/Runs.v ===== *)
(** * A claimed run's transitions

    [routine/src/runs/mod.rs]: spending, freezing and thawing a run, ending it
    by its Routine's output disposition, and the minute rollups of continuous
    Routines. *)

From stdpp Require Import base tactics list strings pretty.
From Stdlib Require Import ZArith Lia Ascii.
From S2P Require Import Prelude Text Json Calendar Platform Wire Schedule Dates Starts Plans Team Definitions Claims.

#[local] Open Scope Z_scope.
#[local] Abbreviation state := TeamRoutines.TeamRoutines.

(** [payload::MAX_TURN_DURATION_MS]. *)
Definition MAX_USAGE_MS : Z := 86400000.

Definition duration (usage : Value) : Z := default 0 (small_int (at_ usage "duration_ms")).

Definition spend (st : state) (run_id : string) (lease : Lease.Lease) (now seconds milliseconds : Z)
  : result state :=
  _ ← refuse ((seconds <? 0) || (milliseconds <? 0)) "invalid-duration";
  value ← live_lease st run_id lease now;
  let spent := Z.min (i64_sat (duration (Run.usage value) + milliseconds)) MAX_USAGE_MS in
  Ok (replace_run st
        (value <| Run.usage := set_member (Run.usage value) "duration_ms" (int spent) |>
               <| Run.active_seconds_left := Run.active_seconds_left value - seconds |>)).

Definition joined_usage (first second : Value) : Value :=
  object [("duration_ms"%string,
           int (Z.min (i64_sat (duration first + duration second)) MAX_USAGE_MS))].

(** [runs::lose_protection]. *)
Definition run_lose_protection (st : state) (run_id : string) : result state :=
  value ← run st run_id;
  Ok (replace_run st (value <| Run.protection_lost := true |>)).

Module Request.
Record Request : Type := mk { kind : string; assistant_id : string; action : string; position : Z }.
End Request.

(** The plan step a request names by its position, its Assistant and its Action. *)
Definition matches_step (plan : Value) (request : Request.Request) : bool :=
  let steps := plan_steps plan in
  let placed :=
    position ← (canonical_position (int (Request.position request)) (int (len steps)) ≫= small_int);
    if position - 1 <? 0 then None else steps !! Z.to_nat (position - 1) in
  match placed with
  | Some step => is_str (at_ step "assistant") (Request.assistant_id request)
                 && is_str (at_ step "action") (Request.action request)
  | None => false
  end.

Section Runs.
  Context {PF : Platform} {E : Type} {EN : Entropy E}.

Definition freeze (st : state) (run_id : string) (lease : Lease.Lease) (now : Z) (request : Request.Request)
  : drawing E state :=
  value ← lift (live_lease st run_id lease now);
  current ← lift (routine st (Run.routine_id value));
  _ ← lift (refuse (Routine.deleting current) "routine-deleting");
  _ ← lift (refuse (negb (contains REQUEST_KINDS (Request.kind request))
                    || negb (bool_decide (is_Some (canonical_assistant_id (text (Request.assistant_id request)))))
                    || negb (bool_decide (is_Some (canonical_action_id (text (Request.action request)))))
                    || negb (matches_step (Routine.plan current) request)) "freeze-invalid");
  _ ← lift (refuse (MAX_FROZEN_RUNS <=? len (List.filter (fun item => status_eqb (Run.status item) Frozen)
                                               (TeamRoutines.runs st))) "frozen-limit");
  '(next, frozen) ← run_notice st value "frozen" now
                      (object [("request_kind"%string, text (Request.kind request))]);
  mret (replace_run next
    (frozen <| Run.status := Frozen |> <| Run.lease_sha256 := ""%string |> <| Run.lease_key := ""%string |>
            <| Run.lease_expires_at := 0 |> <| Run.request_kind := Request.kind request |>
            <| Run.assistant_id := Request.assistant_id request |> <| Run.action := Request.action request |>)).

Definition thaw (st : state) (run_id : string) (now requests_used : Z) : drawing E (state * string) :=
  value ← lift (run st run_id);
  _ ← lift (if negb (status_eqb (Run.status value) Frozen) then Err "run-not-frozen"
            else current ← routine st (Run.routine_id value);
                 refuse (Routine.deleting current) "run-not-frozen");
  '(resumed, token) ← human_lease value now;
  mret (replace_run st (resumed <| Run.requests_used := Z.max (Run.requests_used value) requests_used |>), token).

(** [quiet]: a silent completion still resets the failure streak. *)
Definition quiet (st : state) (current : Routine.Routine) : state :=
  replace_routine st (current <| Routine.failures := 0 |>).

Definition healthy_notice_id (routine_id : string) (minute : Z) : string :=
  fst (split_at 32 (sha256_hex ("healthy:" +:+ routine_id +:+ ":" +:+ pretty minute))).

Definition healthy (st : state) (value : Run.Run) (now : Z) : result (state * bool) :=
  current ← routine st (Run.routine_id value);
  if negb (continuous current) then Ok (st, false) else
  let minute := now - now mod 60 in
  let same := Routine.rollup_minute current =? minute in
  let runs := if same then Routine.rollup_runs current + 1 else 1 in
  if (minute <? Routine.rollup_minute current) || (MAX_ROLLUP_RUNS <? runs) then Ok (st, false) else
  let usage := match Routine.rollup_usage current, same with
               | Some rollup, true => joined_usage rollup (Run.usage value)
               | _, _ => Run.usage value
               end in
  let st := replace_routine st
    (current <| Routine.rollup_minute := minute |> <| Routine.rollup_runs := runs |>
             <| Routine.rollup_usage := Some usage |> <| Routine.failures := 0 |>) in
  let notice :=
    (Notice_new (healthy_notice_id (Routine.routine_id current) minute) (Routine.routine_id current) ""
       "healthy" minute (object [("runs"%string, int runs)]))
      <| Notice.version := runs |> <| Notice.usage := Some usage |> in
  st ← put_notice st notice;
  Ok (st, true).

Definition opt_str_eqb (a : option string) (b : string) : bool :=
  match a with Some s => s =s b | None => false end.

(** [completion]: how a completed run tells the person. *)
Definition completion (st : state) (value : Run.Run) (outcome : string) (now : Z) (shown : option Value)
  : drawing E state :=
  current ← lift (routine st (Run.routine_id value));
  let disposed := at_ (Routine.plan current) "output" in
  let mode := str_or_empty (at_ disposed "mode") in
  let plan_summary := summary (Routine.plan current) (Routine.revision current) in
  if contains SHOWN_MODES mode then
    let position := at_ (disposition (Routine.plan current)) "step" in
    let valid := match shown with
                 | Some s => if value_eqb (at_ s "step") (at_ disposed "step") && negb (Run.protection_lost value)
                             then Some s else None
                 | None => None
                 end in
    let output := match valid with
                  | Some s => at_ s "output"
                  | None => output_state position "unavailable"
                  end in
    let digest := valid ≫= fun s => as_str (at_ s "digest") in
    let publish (st : state) (output : Value) : drawing E state :=
      '(st, _) ← run_notice st value outcome now
                   (object [("plan", plan_summary); ("output", output)]%string);
      mret st in
    if (mode =s "changes") && is_str (at_ output "state") "shown" then
      if opt_str_eqb digest (Routine.output_digest current) then
        if Run.notice_version value =? 0 then mret (quiet st current)
        else publish st (output_state position "unchanged")
      else publish (replace_routine st (current <| Routine.output_digest := default "" digest |>)) output
    else publish st output
  else if (Run.notice_version value =? 0) && negb (Run.protection_lost value) then
    '(st, done_) ← lift (if outcome =s "done" then healthy st value now else Ok (st, false));
    (mret (if done_ : bool then st else quiet st current) : drawing E state)
  else
    '(st, _) ← run_notice st value outcome now
                 (object [("plan", plan_summary); ("output", VNull)]%string);
    mret st.

(** [completed]: recovered when a continuation after a hold completed the run. *)
Definition completed (value : Run.Run) : string :=
  match network_of (Run.generation value) (Run.run_id value) with
  | Some network =>
      if generation_for network (Run.run_id value) "" =s Run.generation value then "done" else "recovered"
  | None => "recovered"
  end.

Definition completed_run (st : state) (value : Run.Run) (now : Z) (shown : option Value) : drawing E state :=
  next ← completion st value (completed value) now shown;
  lift (without_run next (Run.run_id value) now).

Definition finish (st : state) (run_id : string) (lease : Lease.Lease) (now : Z) (shown : option Value)
  : drawing E state :=
  value ← lift (live_lease st run_id lease now);
  completed_run st value now shown.

Definition complete_recovered (st : state) (run_id lease_sha256 : string) (now : Z) (shown : option Value)
  : drawing E state :=
  value ← lift (read_lease st run_id lease_sha256);
  completed_run st value now shown.

Definition allowed_outcomes (s : RunStatus) : list string :=
  match s with
  | Leased => ["stopped"; "failed"]%string
  | Frozen => FROZEN_OUTCOMES
  | _ => []
  end.

(** [runs::end]. *)
Definition end_run (st : state) (run_id : string) (now : Z) (outcome : string) (detail : Value)
    (status : option RunStatus) : drawing E state :=
  value ← lift (run st run_id);
  _ ← lift (refuse (match status with Some s => negb (status_eqb (Run.status value) s) | None => false end)
              "run-changed");
  _ ← lift (refuse (negb (contains (allowed_outcomes (Run.status value)) outcome)) "invalid-outcome");
  '(next, _) ← run_notice st value outcome now detail;
  lift (without_run next run_id now).
End Runs.
