(* ===== verification/Holds.v ===== *)
(** * Holds and incidents

    [routine/src/hold/mod.rs]: fencing a run, indexing it as its incident,
    resuming it in place, setting it aside, and releasing it. *)

From stdpp Require Import base tactics list strings pretty.
From Stdlib Require Import ZArith Lia Ascii.
From S2P Require Import Prelude Text Json Calendar Platform Wire Schedule Dates Starts Plans Team Definitions Claims.

#[local] Open Scope Z_scope.
#[local] Abbreviation state := TeamRoutines.TeamRoutines.

(** Assistant, Action, position and step count of the call a run stopped at. *)
Definition HeldStep : Type := (string * string * option Z * Z)%type.
Definition unknown_step : HeldStep := (""%string, ""%string, None, 0).

Inductive PauseReason : Type := Exhausted | Policy | Evidence.
Definition reason_name (r : PauseReason) : string :=
  match r with Exhausted => "exhausted" | Policy => "policy" | Evidence => "evidence" end.

Module Expected.
Record Expected : Type := mk { revision : Z; generation : string; current : Z }.
End Expected.

Definition incident (st : state) (incident_id : string) : result Run.Run :=
  ok_or "incident-not-found" (find_key Run.run_id incident_id (incidents st)).

Definition current_revision (st : state) (routine_id : string) : Z :=
  match List.find (fun item => (Routine.routine_id item =s routine_id) && negb (Routine.deleting item))
          (TeamRoutines.routines st) with
  | Some item => Routine.revision item
  | None => 0
  end.

Definition expect (st : state) (value : Run.Run) (expected : option Expected.Expected) : result unit :=
  match expected with
  | None => Ok tt
  | Some x =>
      refuse (negb ((Run.revision value =? Expected.revision x)
                    && (Run.generation value =s Expected.generation x)
                    && (current_revision st (Run.routine_id value) =? Expected.current x)))
        "incident-changed"
  end.

Definition require_unresolved (value : Run.Run) : result unit :=
  refuse (negb (status_eqb (Run.status value) Unresolved)) "incident-not-unresolved".

Definition spend_incident (st : state) (incident_id : string) (seconds : Z) : result state :=
  value ← incident st incident_id;
  Ok (replace_run st
        (value <| Run.active_seconds_left := Z.max (Run.active_seconds_left value - seconds) 0 |>)).

Definition step_detail (step : HeldStep) : Value :=
  let '(assistant_id, action, position, steps) := step in
  if is_empty assistant_id then
    object [("assistant_id", VNull); ("action", VNull); ("position", VNull); ("steps", VNull)]%string
  else
    object [("assistant_id", text assistant_id); ("action", text action);
            ("position", from_option int VNull position); ("steps", int steps)]%string.

Definition held_step (value : Run.Run) : HeldStep :=
  (Run.assistant_id value, Run.action value, Run.position value, Run.steps value).

(** [held]: the lease is dropped, so no worker may advance the run. *)
Definition held (st : state) (value : Run.Run) : result state :=
  _ ← refuse (is_empty (Run.generation value)) "generation-invalid";
  Ok (replace_run st (value <| Run.status := Held |> <| Run.lease_sha256 := ""%string |>
                            <| Run.lease_key := ""%string |> <| Run.lease_expires_at := 0 |>)).

Definition fence (st : state) (run_id : string) (lease : Lease.Lease) (now : Z) : result state :=
  value ← live_lease st run_id lease now; held st value.
Definition hold_recovered (st : state) (run_id lease_sha256 : string) : result state :=
  value ← read_lease st run_id lease_sha256; held st value.

Definition expired (st : state) (now : Z) : list Run.Run :=
  List.filter (fun item => status_eqb (Run.status item) Leased
                           && ((Run.lease_expires_at item <=? now) || (Run.active_seconds_left item <=? 0)))
    (TeamRoutines.runs st).
Definition rekeyed (st : state) (key_fingerprint : string) : list Run.Run :=
  List.filter (fun item => status_eqb (Run.status item) Leased
                           && negb (Run.lease_key item =s key_fingerprint)
                           && negb (Run.lease_key item =s HUMAN_LEASE))
    (TeamRoutines.runs st).

Definition release_incident (st : state) (incident_id : string) : result state :=
  match find_run st incident_id with
  | None => Ok st
  | Some value =>
      _ ← refuse (negb (status_eqb (Run.status value) Skipped)) "incident-not-skipped";
      Ok (st <| TeamRoutines.runs := drop_key Run.run_id incident_id (TeamRoutines.runs st) |>)
  end.

Definition pair_in (discards : list (string * string)) (x : string * string) : bool :=
  existsb (fun y => (fst y =s fst x) && (snd y =s snd x)) discards.

Section Holds.
  Context {PF : Platform} {E : Type} {EN : Entropy E}.

Definition skip_incident (st : state) (incident_id : string) (now : Z)
    (expected : option Expected.Expected) : drawing E state :=
  value ← lift (incident st incident_id);
  _ ← lift (require_unresolved value);
  _ ← lift (expect st value expected);
  '(next, skipped) ← run_notice st value "user-skipped" now (object []);
  mret (replace_run next (skipped <| Run.status := Skipped |>)).

Definition settle_hold (st : state) (run_id : string) (now : Z) (step : HeldStep) : drawing E state :=
  value ← lift (run st run_id);
  _ ← lift (refuse (negb (status_eqb (Run.status value) Held)) "run-not-held");
  owner ← lift (routine st (Run.routine_id value));
  '(next, indexed) ← run_notice st value "held" now (object []);
  let '(assistant_id, action, position, steps) := step in
  let indexed := indexed <| Run.status := Unresolved |> <| Run.assistant_id := assistant_id |>
                         <| Run.action := action |> <| Run.position := position |> <| Run.steps := steps |> in
  let next := ended (replace_run next indexed) indexed now in
  if Routine.deleting owner then skip_incident next run_id now None else mret next.

Definition reopen_incident (st : state) (incident_id : string) (now : Z) (generation : string)
  : drawing E (state * string) :=
  value ← lift (incident st incident_id);
  _ ← lift (require_unresolved value);
  current ← lift (routine st (Run.routine_id value));
  _ ← lift (refuse (Routine.deleting current || Routine.paused current
                    || negb (Routine.revision current =? Run.revision value)) "routine-not-resumable");
  _ ← lift (refuse (Run.active_seconds_left value <=? 0) "run-time-exhausted");
  _ ← lift (refuse (existsb (fun item => Run.routine_id item =s Run.routine_id value) (live_runs st)
                    || negb (bool_decide (is_Some (network_of generation incident_id)))) "routine-busy");
  '(resumed, token) ← human_lease value now;
  let archived := (incident_id, Run.generation value) in
  let next := replace_run st (resumed <| Run.generation := generation |>) in
  let next := if pair_in (TeamRoutines.discards next) archived then next
              else next <| TeamRoutines.discards := TeamRoutines.discards next ++ [archived] |> in
  mret (next, token).

Definition run_incident (st : state) (incident_id : string) (now : Z) (expected : Expected.Expected)
  : drawing E state :=
  value ← lift (incident st incident_id);
  skipped ← skip_incident st incident_id now (Some expected);
  next ← lift (set_paused skipped (Run.routine_id value) false);
  current ← lift (routine next (Run.routine_id value));
  mret (replace_routine next (current <| Routine.run_requested := now |>)).

Definition pause_incident (st : state) (incident_id : string) (now : Z) (reason : PauseReason)
  : drawing E state :=
  value ← lift (incident st incident_id);
  _ ← lift (require_unresolved value);
  next ← lift (set_paused st (Run.routine_id value) true);
  '(next, noticed) ← run_notice next value "paused" now (object [("reason"%string, text (reason_name reason))]);
  mret (replace_run next noticed).
End Holds.
