(* ===== verification/Frames.v ===== *)
(** * What a transition leaves alone

    Every transition of a Team is made of four moves: put a notice, replace a
    Routine, replace a run, drop a run.  [core] is the part of a Routine only a
    new definition changes; [frame] relates two states that differ in nothing
    but notices, discards and the rest of their Routines.  The lemmas say which
    functions stay inside a frame. *)

From stdpp Require Import base tactics list strings pretty.
From Stdlib Require Import ZArith Lia Ascii.
From S2P Require Import Prelude Text Json Calendar Platform Wire Schedule Dates Starts Plans Team Definitions Claims Runs Holds.

#[local] Open Scope Z_scope.
#[local] Abbreviation state := TeamRoutines.TeamRoutines.

Definition MAX_NOTICES : Z := MAX_UNDELIVERED_NOTICES + MAX_ROUTINE_NOTICES.

(** Notices: one per id, and never more than the bound. *)
Definition notices_wf (st : state) : Prop :=
  List.NoDup (map Notice.notice_id (TeamRoutines.notices st)) /\ len (TeamRoutines.notices st) <= MAX_NOTICES.

(** What a definition fixes of a Routine. *)
Definition core (r : Routine.Routine) : string * Z * Value * Value * list Value * option Value :=
  (Routine.routine_id r, Routine.revision r, Routine.plan r, Routine.schedule r, Routine.permitted r,
   Routine.confirmation r).
Definition cores (st : state) := map core (TeamRoutines.routines st).

Record frame (st st' : state) : Prop := {
  frame_cores : cores st' = cores st;
  frame_runs : TeamRoutines.runs st' = TeamRoutines.runs st;
  frame_starts : TeamRoutines.starts st' = TeamRoutines.starts st;
  frame_notices : notices_wf st -> notices_wf st';
}.

#[global] Instance frame_preorder : PreOrder frame.
Proof.
  split.
  - intros st. by split.
  - intros a b c [H1 H2 H3 H4] [K1 K2 K3 K4]. split; [congruence|congruence|congruence|auto].
Qed.

Lemma core_id r r' : core r = core r' -> Routine.routine_id r = Routine.routine_id r'.
Proof. unfold core. congruence. Qed.

Lemma find_routine_Some st id r :
  find_routine st id = Some r -> In r (TeamRoutines.routines st) /\ Routine.routine_id r = id.
Proof. apply find_key_Some. Qed.
Lemma find_run_Some st id r : find_run st id = Some r -> In r (TeamRoutines.runs st) /\ Run.run_id r = id.
Proof. apply find_key_Some. Qed.

Lemma routine_Ok st id r : routine st id = Ok r <-> find_routine st id = Some r.
Proof. apply ok_or_Ok. Qed.
Lemma run_Ok st id r : run st id = Ok r <-> find_run st id = Some r.
Proof. apply ok_or_Ok. Qed.

(** Replacing a Routine by one with the core of the first of its id. *)
Lemma replace_key_core x r l :
  find_key Routine.routine_id (Routine.routine_id x) l = Some r -> core x = core r ->
  map core (replace_key Routine.routine_id x l) = map core l.
Proof.
  intros Hf Hc. unfold find_key, replace_key in *. induction l as [|a l IH]; cbn [List.find update_first map] in *; [done|].
  destruct (Routine.routine_id a =s Routine.routine_id x) eqn:He; cbn [map].
  - injection Hf as ->. by rewrite Hc.
  - f_equal. auto.
Qed.

Lemma replace_routine_frame st x r :
  find_routine st (Routine.routine_id x) = Some r -> core x = core r -> frame st (replace_routine st x).
Proof. intros Hf Hc. split; try done. cbn. by eapply replace_key_core. Qed.

(** The same, from the id's first Routine having [x]'s core. *)
Definition holds_core (st : state) (x : Routine.Routine) : Prop :=
  exists r, find_routine st (Routine.routine_id x) = Some r /\ core x = core r.

Lemma holds_core_frame st st' x : frame st st' -> holds_core st x -> holds_core st' x.
Proof.
  intros [Hc _ _ _] (r & Hf & Hx). unfold holds_core, find_routine, cores in *.
  revert Hc Hf. generalize (TeamRoutines.routines st). induction (TeamRoutines.routines st') as [|a l IH];
    intros [|b k] Hc Hf; try done. unfold find_key in *. cbn [List.find map] in *.
  assert (core a = core b /\ map core l = map core k) as [Hab Hlk] by (split; congruence).
  rewrite (core_id _ _ Hab).
  destruct (Routine.routine_id b =s Routine.routine_id x) eqn:He; [|by eauto].
  injection Hf as ->. exists a. split; [done|congruence].
Qed.

Lemma replace_core_frame st x : holds_core st x -> frame st (replace_routine st x).
Proof. intros (r & Hf & Hc). by eapply replace_routine_frame. Qed.

Lemma routine_holds_core st id r : routine st id = Ok r -> holds_core st r.
Proof. intros H%routine_Ok. pose proof (find_routine_Some _ _ _ H) as [_ <-]. by exists r. Qed.

(** ** Notices *)
Lemma put_notice_Ok st n st' : put_notice st n = Ok st' ->
  exists m, st' = st <| TeamRoutines.notices :=
        drop_key Notice.notice_id (Notice.notice_id n) (TeamRoutines.notices st) ++ [m] |>
    /\ Notice.notice_id m = Notice.notice_id n /\ Notice.version m = Notice.version n
    /\ Notice.outcome m = Notice.outcome n /\ Notice.routine_id m = Notice.routine_id n
    /\ Notice.usage m = Notice.usage n /\ Notice.protection_lost m = Notice.protection_lost n
    /\ Notice.detail m = Notice.detail n /\ 1 <= Notice.version n
    /\ len (drop_key Notice.notice_id (Notice.notice_id n) (TeamRoutines.notices st)) < MAX_NOTICES.
Proof.
  unfold put_notice. intros H. inv_ok.
  match goal with H : canonical_notice_detail _ _ = Some _ |- _ => apply canonical_notice_detail_id in H as -> end.
  case_match; inv_ok; eexists; (split; [reflexivity|]);
    cbn in *; split_and!; try done; unfold MAX_NOTICES; lia.
Qed.

Lemma put_notice_frame st n st' : put_notice st n = Ok st' -> frame st st'.
Proof.
  intros (m & -> & Hid & _ & _ & _ & _ & _ & _ & _ & Hlen)%put_notice_Ok. split; try done.
  intros [Hnd Hle]. unfold notices_wf. cbn. split.
  - apply NoDup_map_app_1; [by apply NoDup_map_filter|]. rewrite Hid. apply drop_key_absent.
  - rewrite len_app. unfold len in *. cbn. lia.
Qed.

Section RunNotice.
  Context {PF : Platform} {E : Type} {EN : Entropy E}.

(** A run's notice changes no run; it hands back the run with its next version. *)
Lemma run_notice_frame st v outcome now detail e e' st' v' :
  run_notice st v outcome now detail e = (e', Ok (st', v')) ->
  frame st st' /\ v' = v <| Run.notice_version := Run.notice_version v + 1 |>.
Proof.
  unfold run_notice. intros H. inv_ok. split; [|done].
  match goal with H : put_notice st _ = Ok _ |- _ => apply put_notice_frame in H as Hput end.
  etrans; [exact Hput|]. case_match; inv_ok; [|done].
  match goal with H : routine ?s _ = Ok ?c |- _ => apply routine_holds_core in H as Hcore;
    assert (forall f b, frame s (replace_routine s (c <| Routine.failures := f |>
      <| Routine.paused := b |>))) as Hrep by (intros f b; by apply replace_core_frame) end.
  destruct (outcome_streak _ outcome) as [failures streak].
  etrans; [apply Hrep|]. destruct streak; inv_ok; [|done]. by eapply put_notice_frame.
Qed.
End RunNotice.

(** ** The other functions that stay inside a frame *)
Lemma set_paused_frame st id b st' : set_paused st id b = Ok st' -> frame st st'.
Proof.
  unfold set_paused. intros H. inv_ok. apply replace_core_frame.
  match goal with H : routine _ _ = Ok _ |- _ => apply routine_holds_core in H end. by destruct b.
Qed.

Lemma update_first_core p f l : (forall r, core (f r) = core r) -> map core (update_first p f l) = map core l.
Proof.
  intros Hf. induction l as [|a l IH]; [done|]. cbn [update_first]. destruct (p a); cbn [map]; congruence.
Qed.

Lemma ended_frame st v now : frame st (ended st v now).
Proof. split; try done. apply update_first_core. intros r. by destruct (continuous r). Qed.

Lemma acknowledge_frame st delivered : frame st (acknowledge st delivered).
Proof.
  split; try done. intros [Hnd Hle]. split; [by apply NoDup_map_filter|].
  etrans; [|exact Hle]. unfold len. apply inj_le, List.filter_length_le.
Qed.

Lemma discarded_frame st id g : frame st (discarded st id g).
Proof. by split. Qed.

Lemma begin_delete_frame st id st' runs : begin_delete st id = Ok (st', runs) -> frame st st'.
Proof.
  unfold begin_delete. intros H. inv_ok. apply replace_core_frame.
  by match goal with H : routine _ _ = Ok _ |- _ => apply routine_holds_core in H end.
Qed.

Lemma in_routines_core st r : List.NoDup (map Routine.routine_id (TeamRoutines.routines st)) ->
  In r (TeamRoutines.routines st) -> holds_core st r.
Proof. intros Hnd Hin. exists r. split; [|done]. by apply (in_find_key Routine.routine_id). Qed.

Section Sweeps.
  Context {PF : Platform}.

Lemma report_gap_frame st r now b st' : holds_core st r -> report_gap st r now b = Ok st' -> frame st st'.
Proof.
  intros Hc. unfold report_gap. intros H. do 2 (case_match; [by simplify_eq|]). inv_ok.
  match goal with H : put_notice st _ = Ok _ |- _ => apply put_notice_frame in H as Hput end.
  etrans; [exact Hput|]. apply replace_core_frame, (holds_core_frame _ _ _ Hput Hc).
Qed.

Lemma miss_core r first count next : core (miss r first count next) = core r.
Proof. unfold miss. by case_match. Qed.

Lemma sweep_item_frame st item now st' : holds_core st item -> sweep_item st item now = Ok st' -> frame st st'.
Proof.
  intros Hc. unfold sweep_item. intros H. case_match; [by simplify_eq|]. inv_ok.
  match goal with H : (if _ then _ else _) = Ok _ |- _ => rename H into Hif end. case_match; inv_ok.
  - match goal with H : report_gap _ ?i _ _ = Ok _ |- _ => set (m := i) in * end.
    assert (holds_core st m) as Hm.
    { destruct Hc as (r & Hf & Hr). exists r. unfold m.
      rewrite (core_id _ _ (miss_core _ _ _ _)), miss_core. done. }
    pose proof (replace_core_frame _ _ Hm) as Hrep. etrans; [exact Hrep|].
    eapply report_gap_frame; [|eassumption]. by eapply holds_core_frame.
  - by eapply report_gap_frame.
Qed.

Lemma sweep_items_frame items st now st' :
  List.Forall (holds_core st) items -> sweep_items st items now = Ok st' -> frame st st'.
Proof.
  revert st. induction items as [|item items IH]; intros st Hc; cbn [sweep_items]; intros H; inv_ok; [done|].
  inversion Hc as [|? ? Hi Hrest]. subst.
  match goal with H : sweep_item _ _ _ = Ok _ |- _ => apply sweep_item_frame in H as Hf; [|done] end.
  etrans; [exact Hf|]. apply IH; [|done].
  eapply List.Forall_impl; [|exact Hrest]. intros r. by apply holds_core_frame.
Qed.

Lemma sweep_frame st now st' : List.NoDup (map Routine.routine_id (TeamRoutines.routines st)) ->
  sweep st now = Ok st' -> frame st st'.
Proof.
  intros Hnd. apply sweep_items_frame. apply List.Forall_forall. intros r. by apply in_routines_core.
Qed.

Lemma advance_core r now r' : advance r now = Ok r' -> core r' = core r.
Proof.
  unfold advance. intros H. case_match; inv_ok; [done|].
  case_match; [done|]. by rewrite miss_core.
Qed.
End Sweeps.

Section Completion.
  Context {PF : Platform} {E : Type} {EN : Entropy E}.

Lemma healthy_frame st v now st' b : healthy st v now = Ok (st', b) -> frame st st'.
Proof.
  unfold healthy. intros H. inv_ok. do 2 (case_match; [by inv_ok|]). inv_ok.
  match goal with H : routine st _ = Ok _ |- _ => apply routine_holds_core in H as Hcore end.
  etrans; [|by eapply put_notice_frame]. by apply replace_core_frame.
Qed.

Lemma completion_frame st v outcome now shown e e' st' :
  completion st v outcome now shown e = (e', Ok st') -> frame st st'.
Proof.
  unfold completion. intros H. inv_ok.
  match goal with H : routine st _ = Ok _ |- _ => apply routine_holds_core in H as Hcore end.
  assert (frame st (quiet st x0)) as Hq by (by apply replace_core_frame).
  repeat case_match; inv_ok; try done;
    repeat match goal with
    | H : (let '(_, _) := ?p in _) _ = (_, Ok _) |- _ => destruct p; inv_ok
    | H : run_notice _ _ _ _ _ _ = (_, Ok _) |- _ => apply run_notice_frame in H as [? _]
    | H : healthy _ _ _ = Ok _ |- _ => apply healthy_frame in H
    | H : frame (replace_routine _ _) _ |- _ => etrans; [|exact H]; by apply replace_core_frame
    end; try done; repeat case_match; inv_ok; try done.
  clear Hq. etrans; [eassumption|]. apply replace_core_frame. by eapply holds_core_frame.
Qed.
End Completion.

#[export] Hint Resolve put_notice_frame acknowledge_frame discarded_frame set_paused_frame begin_delete_frame
  sweep_frame ended_frame replace_core_frame routine_holds_core : frames.
