(* ===== verification/Invariants.v ===== *)
(** * The invariant of a Team

    Every transition of the Routine crate as one step relation, and the
    invariant all of them keep: at most eight Routines with distinct ids whose
    allocations fit the Team's daily steps and bytes; at most 64 run records
    with distinct ids, each of a Routine that still exists, at most one of them
    holding its Routine, a live one at its Routine's current revision; leases
    only on leased runs; one notice per id, at most 56. *)

From stdpp Require Import base tactics list strings pretty relations.
From Stdlib Require Import ZArith Lia Ascii.
From S2P Require Import Prelude Text Json Calendar Platform Wire Schedule Dates Starts Plans Team Definitions Define Claims Runs Holds Frames.

#[local] Open Scope Z_scope.
#[local] Abbreviation state := TeamRoutines.TeamRoutines.

(** A run that keeps its Routine from starting another. *)
Definition holding (r : Run.Run) : bool := is_live r || status_eqb (Run.status r) Unresolved.

(** Only a leased run has a lease, under a key fingerprint or a person's answer. *)
Definition lease_ok (r : Run.Run) : Prop :=
  match Run.status r with
  | Leased => SHA256_RE (Run.lease_sha256 r) = true
              /\ (SHA256_RE (Run.lease_key r) = true \/ Run.lease_key r = HUMAN_LEASE)
  | _ => Run.lease_sha256 r = ""%string /\ Run.lease_key r = ""%string
  end.

Section Invariant.
  Context {PF : Platform} {VO : Vocabulary}.

Definition routine_ok (r : Routine.Routine) : Prop :=
  ROUTINE_ID_RE (Routine.routine_id r) = true /\ well_formed (Routine.plan r) = true
  /\ is_Some (canonical_schedule (Routine.schedule r)) /\ valid_revision (int (Routine.revision r)) = true.

(** A run's Routine exists, at the run's own revision while the run is live. *)
Definition owned (routines : list Routine.Routine) (r : Run.Run) : Prop :=
  exists o, In o routines /\ Routine.routine_id o = Run.routine_id r
    /\ (is_live r = true -> Routine.revision o = Run.revision r).

Record Inv (st : state) : Prop := {
  inv_ids : List.NoDup (map Routine.routine_id (TeamRoutines.routines st));
  inv_count : len (TeamRoutines.routines st) <= MAX_ROUTINES;
  inv_routines : List.Forall routine_ok (TeamRoutines.routines st);
  inv_steps : zsum (map daily_steps (TeamRoutines.routines st)) <= MAX_DAILY_STEPS;
  inv_bytes : zsum (map definition_bytes (TeamRoutines.routines st)) <= TEAM_DEFINITION_BYTES;
  inv_run_ids : List.NoDup (map Run.run_id (TeamRoutines.runs st));
  inv_run_count : len (TeamRoutines.runs st) <= MAX_RUNS;
  inv_owner : List.Forall (owned (TeamRoutines.routines st)) (TeamRoutines.runs st);
  inv_slot : forall a b, In a (TeamRoutines.runs st) -> In b (TeamRoutines.runs st) ->
    holding a = true -> holding b = true -> Run.routine_id a = Run.routine_id b -> Run.run_id a = Run.run_id b;
  inv_leases : List.Forall lease_ok (TeamRoutines.runs st);
  inv_notices : notices_wf st;
}.

Lemma Inv_none : Inv no_routines.
Proof.
  split; try apply List.NoDup_nil; try apply List.Forall_nil; try (vm_compute; congruence); [done|].
  split; [apply List.NoDup_nil|vm_compute; congruence].
Qed.

(** ** What the core of a Routine decides *)
Lemma map_core {B} (f : Routine.Routine -> B) l l' :
  (forall r r', core r = core r' -> f r = f r') -> map core l' = map core l -> map f l' = map f l.
Proof.
  intros Hf. revert l. induction l' as [|a l' IH]; intros [|b l] H; try done. cbn [map] in *.
  assert (core a = core b /\ map core l' = map core l) as [Hab Hl] by (split; congruence).
  rewrite (Hf _ _ Hab), (IH l Hl). done.
Qed.

Lemma Forall_core (P : Routine.Routine -> Prop) l l' :
  (forall r r', core r = core r' -> P r' -> P r) -> map core l' = map core l ->
  List.Forall P l -> List.Forall P l'.
Proof.
  intros Hp. revert l. induction l' as [|a l' IH]; intros [|b l] H Hall; try done. cbn [map] in *.
  assert (core a = core b /\ map core l' = map core l) as [Hab Hl] by (split; congruence).
  inversion Hall; subst. constructor; eauto.
Qed.

Lemma in_core l l' r : map core l' = map core l -> In r l -> exists r', In r' l' /\ core r' = core r.
Proof.
  intros Hm Hin. apply (in_map core) in Hin. rewrite <- Hm in Hin. apply in_map_iff in Hin as (r' & ? & ?). eauto.
Qed.

Lemma core_ok r r' : core r = core r' -> routine_ok r' -> routine_ok r.
Proof. unfold core, routine_ok. intros [= -> -> -> -> _ _]. done. Qed.
Lemma core_daily r r' : core r = core r' -> daily_steps r = daily_steps r'.
Proof. unfold core, daily_steps, run_units. intros [= _ _ Hp Hs _ _]. by rewrite Hp, Hs. Qed.
Lemma core_bytes r r' : core r = core r' -> definition_bytes r = definition_bytes r'.
Proof. unfold core, definition_bytes. intros [= _ _ Hp _ Hm Hf]. by rewrite Hp, Hm, Hf. Qed.

Lemma owned_core l l' r : map core l' = map core l -> owned l r -> owned l' r.
Proof.
  intros Hm (o & Hin & Hid & Hrev). destruct (in_core l l' o Hm Hin) as (o' & Hin' & Hc).
  exists o'. unfold core in Hc. injection Hc as Hi Hv _ _ _ _. rewrite Hi, Hv. auto.
Qed.

(** A frame keeps the invariant. *)
Lemma Inv_frame st st' : frame st st' -> Inv st -> Inv st'.
Proof.
  intros [Hc Hr Hs Hn] [H1 H2 H3 H4 H5 H6 H7 H8 H9 H10 H11]. unfold cores in Hc. split; rewrite ?Hr; auto.
  - rewrite (map_core Routine.routine_id _ _ core_id Hc). done.
  - unfold len in *. rewrite <- (length_map core), Hc, length_map. done.
  - by eapply Forall_core; [apply core_ok| |].
  - by rewrite (map_core daily_steps _ _ core_daily Hc).
  - by rewrite (map_core definition_bytes _ _ core_bytes Hc).
  - eapply List.Forall_impl; [|exact H8]. intros r. by apply owned_core.
Qed.

(** ** Moves on run records *)
Lemma Inv_replace_run st v v' :
  Inv st -> In v (TeamRoutines.runs st) -> Run.run_id v' = Run.run_id v ->
  Run.routine_id v' = Run.routine_id v -> (holding v' = true -> holding v = true) ->
  (owned (TeamRoutines.routines st) v -> owned (TeamRoutines.routines st) v') -> lease_ok v' ->
  Inv (replace_run st v').
Proof.
  intros [H1 H2 H3 H4 H5 H6 H7 H8 H9 H10 H11] Hin Hid Hrid Hh Ho Hl.
  assert (In (Run.run_id v') (map Run.run_id (TeamRoutines.runs st))) as Hk by (rewrite Hid; by apply in_map).
  split; auto; cbn [TeamRoutines.runs TeamRoutines.routines replace_run upd TeamRoutines.upd_runs].
  - by rewrite replace_key_keys.
  - unfold len. by rewrite length_replace_key.
  - apply Forall_replace_key; [|done]. apply Ho. by eapply List.Forall_forall in H8.
  - assert (Hor : forall x, In x (replace_key Run.run_id v' (TeamRoutines.runs st)) ->
      exists y, In y (TeamRoutines.runs st) /\ Run.run_id x = Run.run_id y
        /\ Run.routine_id x = Run.routine_id y /\ (holding x = true -> holding y = true)).
    { intros x Hx. apply in_replace_key in Hx as [->|Hx]; [exists v|exists x]; auto. }
    intros a b Ha Hb Hha Hhb Hab.
    destruct (Hor a Ha) as (a' & ? & Ea & Ra & Ha'). destruct (Hor b Hb) as (b' & ? & Eb & Rb & Hb').
    rewrite Ea, Eb. apply H9; auto. congruence.
  - by apply Forall_replace_key.
Qed.

Lemma Inv_drop_run st id :
  Inv st -> Inv (st <| TeamRoutines.runs := drop_key Run.run_id id (TeamRoutines.runs st) |>).
Proof.
  intros [H1 H2 H3 H4 H5 H6 H7 H8 H9 H10 H11]. split; auto; cbn.
  - by apply NoDup_map_filter.
  - pose proof (length_drop_key Run.run_id id (TeamRoutines.runs st)). unfold len in *. lia.
  - apply List.Forall_forall. intros x [Hx _]%in_drop_key. by eapply List.Forall_forall in H8.
  - intros a b [Ha _]%in_drop_key [Hb _]%in_drop_key. auto.
  - apply List.Forall_forall. intros x [Hx _]%in_drop_key. by eapply List.Forall_forall in H10.
Qed.

Lemma Inv_add_run st v starts now :
  Inv st -> ~ In (Run.run_id v) (map Run.run_id (TeamRoutines.runs st)) ->
  len (TeamRoutines.runs st) < MAX_RUNS -> owned (TeamRoutines.routines st) v ->
  (forall r, In r (TeamRoutines.runs st) -> holding r = true -> Run.routine_id r <> Run.routine_id v) ->
  lease_ok v ->
  Inv (st <| TeamRoutines.starts := starts |> <| TeamRoutines.served_at := now |>
          <| TeamRoutines.runs := TeamRoutines.runs st ++ [v] |>).
Proof.
  intros [H1 H2 H3 H4 H5 H6 H7 H8 H9 H10 H11] Hf Hlen Ho Hfree Hl. split; auto; cbn.
  - by apply NoDup_map_app_1.
  - rewrite len_app. unfold len in *. cbn. lia.
  - apply List.Forall_app. auto.
  - intros a b [Ha|[<-|[]]]%in_app_or [Hb|[<-|[]]]%in_app_or Hha Hhb Heq; auto.
    + destruct (Hfree a Ha Hha Heq).
    + destruct (Hfree b Hb Hhb). done.
  - apply List.Forall_app. auto.
Qed.

(** ** Moves on definitions *)
Lemma routine_ok_daily r : routine_ok r -> 1 <= daily_cap (Routine.schedule r).
Proof.
  intros (_ & _ & [s Hs] & _). unfold daily_cap.
  destruct (canonical_schedule_shape _ _ Hs) as [(gap & Hg & Hk & Hb)|(time & Hg & _)]; rewrite Hg; cbn; [|lia].
  rewrite Hk. apply continuous_cap_bound in Hb. lia.
Qed.

Lemma daily_steps_nonneg r : routine_ok r -> 0 <= daily_steps r.
Proof.
  intros H%routine_ok_daily. unfold daily_steps, run_units, i64_sat, i64_min, i64_max.
  pose proof (len_nonneg (plan_steps (Routine.plan r))). nia.
Qed.

Lemma definition_bytes_nonneg r : 0 <= definition_bytes r.
Proof. unfold definition_bytes, encoded_bytes, slen. lia. Qed.

Lemma definition_valid_ok r : definition_valid r = true -> routine_ok r.
Proof.
  unfold definition_valid. destruct (well_formed (Routine.plan r)) eqn:Hw; [|done]. cbn [negb]. intros H. inv_ok.
  split_and!; auto. by eapply bool_decide_eq_true.
Qed.

Lemma defined_ok r revision d : defined r revision = Ok d ->
  routine_ok d /\ core d = core (r <| Routine.revision := revision |>)
  /\ definition_bytes d = definition_bytes r /\ daily_steps d = daily_steps r.
Proof.
  unfold defined. intros H. inv_ok.
  match goal with H : definition_valid _ = true |- _ => apply definition_valid_ok in H end. done.
Qed.

Lemma admitted_ok r revision a : admitted r revision = Ok a ->
  routine_ok a /\ core a = core (r <| Routine.revision := revision |>).
Proof.
  unfold admitted. intros H. inv_ok.
  match goal with H : defined _ _ = Ok _ |- _ => apply defined_ok in H as (Hok & Hc & _) end. done.
Qed.

Lemma budgets_ok others a u : budgets others a = Ok u ->
  zsum (map daily_steps others) + daily_steps a <= MAX_DAILY_STEPS
  /\ zsum (map definition_bytes others) + definition_bytes a <= TEAM_DEFINITION_BYTES.
Proof.
  unfold budgets, over_budget, capacity. intros H. repeat case_match; simplify_eq.
  split; lia.
Qed.

Lemma add_routine_Inv st r st' : add_routine st r = Ok st' -> Inv st -> Inv st'.
Proof.
  unfold add_routine. intros H. inv_ok.
  match goal with H : admitted _ _ = Ok _ |- _ => apply admitted_ok in H as (Hok & _) end.
  match goal with H : budgets _ _ = Ok _ |- _ => apply budgets_ok in H as (Hb1 & Hb2) end.
  intros [H1' H2' H3' H4' H5' H6' H7' H8' H9' H10' H11']. split; auto; cbn.
  - apply NoDup_map_app_1; [done|]. intros (o & Hid & Hin)%in_map_iff.
    match goal with H : existsb _ _ = false |- _ => rename H into He end.
    enough (existsb (fun item => Routine.routine_id item =s Routine.routine_id x) (TeamRoutines.routines st) = true)
      by congruence.
    apply existsb_exists. exists o. split; [done|]. by apply seqb_true.
  - rewrite len_app. unfold len in *. cbn. lia.
  - apply List.Forall_app. auto.
  - rewrite map_app, zsum_app. cbn. lia.
  - rewrite map_app, zsum_app. cbn. lia.
  - eapply List.Forall_impl; [|exact H8']. intros v (o & Hin & ?). exists o. split; [|done]. by apply in_or_app; left.
Qed.

(** A new definition of a Routine with no live run. *)
Lemma Inv_redefine st a :
  Inv st -> In (Routine.routine_id a) (map Routine.routine_id (TeamRoutines.routines st)) -> routine_ok a ->
  (forall v, In v (TeamRoutines.runs st) -> is_live v = true -> Run.routine_id v <> Routine.routine_id a) ->
  zsum (map daily_steps (others st (Routine.routine_id a))) + daily_steps a <= MAX_DAILY_STEPS ->
  zsum (map definition_bytes (others st (Routine.routine_id a))) + definition_bytes a <= TEAM_DEFINITION_BYTES ->
  Inv (replace_routine st a).
Proof.
  intros [H1 H2 H3 H4 H5 H6 H7 H8 H9 H10 H11] Hin Hok Hfree Hs Hb.
  split; auto; cbn [TeamRoutines.runs TeamRoutines.routines replace_routine upd TeamRoutines.upd_routines].
  - by rewrite replace_key_keys.
  - unfold len. by rewrite length_replace_key.
  - by apply Forall_replace_key.
  - by rewrite zsum_replace_key.
  - by rewrite zsum_replace_key.
  - apply List.Forall_forall. intros v Hv. eapply List.Forall_forall in H8 as (o & Ho & Hid & Hrev); [|exact Hv].
    destruct (decide (Routine.routine_id o = Routine.routine_id a)) as [He|Hne].
    + exists a. split; [apply in_replace_key_iff; auto|]. split; [congruence|]. intros Hl.
      destruct (Hfree v Hv Hl). congruence.
    + exists o. split; [apply in_replace_key_iff; auto|]. done.
Qed.

Lemma changeable_ok st id rev c : changeable st id rev = Ok c ->
  find_routine st id = Some c /\ Routine.revision c = rev /\ Routine.deleting c = false
  /\ forall v, In v (TeamRoutines.runs st) -> is_live v = true -> Run.routine_id v <> Routine.routine_id c.
Proof.
  unfold changeable. intros H. inv_ok.
  match goal with H : routine _ _ = Ok _ |- _ => apply routine_Ok in H as Hf end.
  split_and!; auto; [lia|]. intros v Hv Hl Heq.
  match goal with H : existsb _ (live_runs st) = false |- _ => rename H into He end.
  enough (existsb (fun item => Run.routine_id item =s Routine.routine_id c) (live_runs st) = true) by congruence.
  apply existsb_exists. exists v. split; [by apply filter_In|by apply seqb_true].
Qed.

(** ** Leases found *)
Lemma run_in st id v : run st id = Ok v -> In v (TeamRoutines.runs st) /\ Run.run_id v = id.
Proof. intros H%run_Ok. by apply find_run_Some. Qed.

Lemma leased_in st id v : leased st id = Ok v ->
  In v (TeamRoutines.runs st) /\ Run.run_id v = id /\ Run.status v = Leased.
Proof.
  unfold leased. intros H. inv_ok.
  match goal with H : run _ _ = Ok _ |- _ => apply run_in in H as [? ?] end.
  split_and!; auto. by eapply bool_decide_eq_true.
Qed.

Lemma live_lease_in st id l now v : live_lease st id l now = Ok v ->
  In v (TeamRoutines.runs st) /\ Run.run_id v = id /\ Run.status v = Leased.
Proof.
  unfold live_lease. intros H. inv_ok. by match goal with H : leased _ _ = Ok _ |- _ => apply leased_in in H end.
Qed.

Lemma read_lease_in st id l v : read_lease st id l = Ok v ->
  In v (TeamRoutines.runs st) /\ Run.run_id v = id /\ Run.status v = Leased.
Proof.
  unfold read_lease. intros H. inv_ok. by match goal with H : leased _ _ = Ok _ |- _ => apply leased_in in H end.
Qed.

Lemma incident_in st id v : incident st id = Ok v ->
  In v (TeamRoutines.runs st) /\ Run.run_id v = id /\ is_live v = false.
Proof.
  unfold incident. intros H. inv_ok. apply find_key_Some in H as [Hin Hid].
  apply filter_In in Hin as [? ?%negb_true_iff]. auto.
Qed.

Lemma unresolved_status v u : require_unresolved v = Ok u -> Run.status v = Unresolved.
Proof. unfold require_unresolved. intros H. inv_ok. by eapply bool_decide_eq_true. Qed.

(** ** A run moved to another status *)
Definition moves (v v' : Run.Run) : Prop :=
  Run.run_id v' = Run.run_id v /\ Run.routine_id v' = Run.routine_id v /\ Run.revision v' = Run.revision v
  /\ (holding v' = true -> holding v = true) /\ (is_live v' = true -> is_live v = true) /\ lease_ok v'.

Lemma Inv_move st v v' : Inv st -> In v (TeamRoutines.runs st) -> moves v v' -> Inv (replace_run st v').
Proof.
  intros HI Hin (Hid & Hrid & Hrev & Hh & Hlive & Hl). apply (Inv_replace_run st v); auto.
  intros (o & Ho & He & Hr). exists o. split_and!; [done|congruence|]. intros ?. rewrite Hrev. auto.
Qed.

Lemma inv_lease st v : Inv st -> In v (TeamRoutines.runs st) -> lease_ok v.
Proof. intros [] Hin. by eapply List.Forall_forall in inv_leases0. Qed.

Lemma owner_exists st v : Inv st -> In v (TeamRoutines.runs st) ->
  exists o, find_routine st (Run.routine_id v) = Some o.
Proof.
  intros HI Hin. pose proof (inv_owner _ HI) as Ho. eapply List.Forall_forall in Ho as (o & Hi & He & _); [|exact Hin].
  exists o. rewrite <- He. apply (in_find_key Routine.routine_id); [apply (inv_ids _ HI)|done].
Qed.

Lemma find_routine_of st o : Inv st -> In o (TeamRoutines.routines st) ->
  find_routine st (Routine.routine_id o) = Some o.
Proof. intros HI Hin. apply (in_find_key Routine.routine_id); [apply (inv_ids _ HI)|done]. Qed.
End Invariant.

(** Discharges [moves] and [lease_ok] for a run whose fields are written out. *)
Ltac solve_moves :=
  unfold moves, holding, is_live, lease_ok, status_eqb in *; cbn in *;
  repeat match goal with
  | Hs : Run.status ?v = _ |- context [Run.status ?v] => rewrite Hs
  | Hs : Run.status ?v = _, Hl : context [Run.status ?v] |- _ => rewrite Hs in Hl
  end; cbn in *;
  split_and!; try done; intuition auto.

(** ** Each transition keeps the invariant *)
Section Transitions.
  Context {PF : Platform} {VO : Vocabulary} {E : Type} {EN : Entropy E}.
  Implicit Types (st : state) (e : E).

(** A run's notice, and the run replaced as it moves. *)
Lemma Inv_notice_move st v outcome now detail e e' st1 v1 v' :
  run_notice st v outcome now detail e = (e', Ok (st1, v1)) ->
  Inv st -> In v (TeamRoutines.runs st) -> moves v v' -> Inv (replace_run st1 v').
Proof.
  intros [Hf ->]%run_notice_frame HI Hin Hm. apply (Inv_move st1 v); [by eapply Inv_frame| |done].
  by rewrite (frame_runs _ _ Hf).
Qed.

Lemma without_run_Inv st id now st' : without_run st id now = Ok st' -> Inv st -> Inv st'.
Proof.
  unfold without_run. intros H HI. inv_ok. eapply Inv_frame; [apply ended_frame|]. by apply Inv_drop_run.
Qed.

Lemma bind_generation_Inv st id l now n st' : bind_generation st id l now n = Ok st' -> Inv st -> Inv st'.
Proof.
  unfold bind_generation. intros H HI. inv_ok.
  match goal with H : live_lease _ _ _ _ = Ok _ |- _ => apply live_lease_in in H as (Hin & Hid & Hs) end.
  eapply Inv_move; [done|exact Hin|]. pose proof (inv_lease _ _ HI Hin) as Hl. solve_moves.
Qed.

Lemma spend_Inv st id l now s ms st' : spend st id l now s ms = Ok st' -> Inv st -> Inv st'.
Proof.
  unfold spend. intros H HI. inv_ok.
  match goal with H : live_lease _ _ _ _ = Ok _ |- _ => apply live_lease_in in H as (Hin & Hid & Hs) end.
  eapply Inv_move; [done|exact Hin|]. pose proof (inv_lease _ _ HI Hin) as Hl. solve_moves.
Qed.

Lemma run_lose_protection_Inv st id st' : run_lose_protection st id = Ok st' -> Inv st -> Inv st'.
Proof.
  unfold run_lose_protection. intros H HI. inv_ok.
  match goal with H : run _ _ = Ok _ |- _ => apply run_in in H as (Hin & Hid) end.
  eapply Inv_move; [done|exact Hin|]. pose proof (inv_lease _ _ HI Hin) as Hl. solve_moves.
Qed.

Lemma freeze_Inv st id l now rq e e' st' : freeze st id l now rq e = (e', Ok st') -> Inv st -> Inv st'.
Proof.
  unfold freeze. intros H HI. inv_ok.
  match goal with H : live_lease _ _ _ _ = Ok _ |- _ => apply live_lease_in in H as (Hin & Hid & Hs) end.
  eapply Inv_notice_move; [eassumption|done|done|].
  match goal with H : run_notice _ _ _ _ _ _ = _ |- _ => apply run_notice_frame in H as [_ ->] end. solve_moves.
Qed.

(** A person's lease: the digest of a token under the key no machine has. *)
Lemma human_lease_ok v now e e' v' token : human_lease v now e = (e', Ok (v', token)) ->
  Run.run_id v' = Run.run_id v /\ Run.routine_id v' = Run.routine_id v /\ Run.revision v' = Run.revision v
  /\ Run.status v' = Leased /\ lease_ok v' /\ Run.lease_sha256 v' = lease_sha256 token
  /\ Run.lease_key v' = HUMAN_LEASE.
Proof.
  unfold human_lease. intros H. inv_ok. subst. unfold lease_ok. cbn. split_and!; try done; solve [apply sha256_hex_form | by right].
Qed.

Lemma thaw_Inv st id now used e e' st' token :
  thaw st id now used e = (e', Ok (st', token)) -> Inv st -> Inv st'.
Proof.
  unfold thaw. intros H HI. inv_ok.
  match goal with H : run _ _ = Ok _ |- _ => apply run_in in H as (Hin & Hid) end.
  match goal with H : (if _ then _ else _) = Ok _ |- _ =>
    rename H into Hif; case_match eqn:Hst; [done|]; apply negb_false_iff, bool_decide_eq_true in Hst end.
  match goal with H : human_lease _ _ _ = _ |- _ => apply human_lease_ok in H as (H1 & H2 & H3 & H4 & H5 & _) end.
  eapply Inv_move; [done|exact Hin|]. solve_moves.
Qed.

Lemma completed_run_Inv st v now shown e e' st' :
  completed_run st v now shown e = (e', Ok st') -> Inv st -> Inv st'.
Proof.
  unfold completed_run. intros H HI. inv_ok.
  match goal with H : completion _ _ _ _ _ _ = _ |- _ => apply completion_frame in H end.
  eapply without_run_Inv; [eassumption|]. by eapply Inv_frame.
Qed.

Lemma finish_Inv st id l now shown e e' st' : finish st id l now shown e = (e', Ok st') -> Inv st -> Inv st'.
Proof. unfold finish. intros H HI. inv_ok. by eapply completed_run_Inv. Qed.

Lemma complete_recovered_Inv st id l now shown e e' st' :
  complete_recovered st id l now shown e = (e', Ok st') -> Inv st -> Inv st'.
Proof. unfold complete_recovered. intros H HI. inv_ok. by eapply completed_run_Inv. Qed.

Lemma end_run_Inv st id now outcome detail status e e' st' :
  end_run st id now outcome detail status e = (e', Ok st') -> Inv st -> Inv st'.
Proof.
  unfold end_run. intros H HI. inv_ok.
  match goal with H : run_notice _ _ _ _ _ _ = _ |- _ => apply run_notice_frame in H as [Hf _] end.
  eapply without_run_Inv; [eassumption|]. by eapply Inv_frame.
Qed.

(** ** Holds *)
Lemma held_Inv st v st' : held st v = Ok st' -> In v (TeamRoutines.runs st) -> Run.status v = Leased ->
  Inv st -> Inv st'.
Proof. unfold held. intros H Hin Hs HI. inv_ok. eapply Inv_move; [done|exact Hin|]. solve_moves. Qed.

Lemma fence_Inv st id l now st' : fence st id l now = Ok st' -> Inv st -> Inv st'.
Proof.
  unfold fence. intros H HI. inv_ok.
  match goal with H : live_lease _ _ _ _ = Ok _ |- _ => apply live_lease_in in H as (Hin & Hid & Hs) end.
  by eapply held_Inv.
Qed.

Lemma hold_recovered_Inv st id l st' : hold_recovered st id l = Ok st' -> Inv st -> Inv st'.
Proof.
  unfold hold_recovered. intros H HI. inv_ok.
  match goal with H : read_lease _ _ _ = Ok _ |- _ => apply read_lease_in in H as (Hin & Hid & Hs) end.
  by eapply held_Inv.
Qed.

Lemma spend_incident_Inv st id s st' : spend_incident st id s = Ok st' -> Inv st -> Inv st'.
Proof.
  unfold spend_incident. intros H HI. inv_ok.
  match goal with H : incident _ _ = Ok _ |- _ => apply incident_in in H as (Hin & Hid & Hl) end.
  eapply Inv_move; [done|exact Hin|]. pose proof (inv_lease _ _ HI Hin) as Hlease. solve_moves.
Qed.

Lemma skip_incident_Inv st id now x e e' st' :
  skip_incident st id now x e = (e', Ok st') -> Inv st -> Inv st'.
Proof.
  unfold skip_incident. intros H HI. inv_ok.
  match goal with H : incident _ _ = Ok _ |- _ => apply incident_in in H as (Hin & Hid & Hl) end.
  match goal with H : require_unresolved _ = Ok _ |- _ => apply unresolved_status in H as Hs end.
  pose proof (inv_lease _ _ HI Hin) as Hlease.
  eapply Inv_notice_move; [eassumption|done|done|].
  match goal with H : run_notice _ _ _ _ _ _ = _ |- _ => apply run_notice_frame in H as [_ ->] end. solve_moves.
Qed.

Lemma settle_hold_Inv st id now s e e' st' : settle_hold st id now s e = (e', Ok st') -> Inv st -> Inv st'.
Proof.
  unfold settle_hold. intros H HI. destruct s as [[[a x3] p] n]. inv_ok.
  match goal with H : run _ _ = Ok _ |- _ => apply run_in in H as (Hin & Hid) end.
  match goal with H : status_eqb _ _ = true |- _ => apply bool_decide_eq_true in H as Hs end.
  pose proof (inv_lease _ _ HI Hin) as Hlease.
  match goal with H : run_notice _ _ _ _ _ _ = _ |- _ =>
    pose proof H as Hn; apply run_notice_frame in H as [_ ->] end.
  match type of H with context [replace_run ?s ?w] => assert (Inv (replace_run s w)) as HI1 end.
  { eapply Inv_notice_move; [exact Hn|done|done|]. solve_moves. }
  match type of H with context [ended ?s ?w now] =>
    pose proof (Inv_frame _ _ (ended_frame s w now) HI1) as HI2 end.
  case_match; inv_ok; [|done]. by eapply skip_incident_Inv.
Qed.

Lemma reopen_incident_Inv st id now g e e' st' token :
  reopen_incident st id now g e = (e', Ok (st', token)) -> Inv st -> Inv st'.
Proof.
  unfold reopen_incident. intros H HI. inv_ok.
  match goal with H : incident _ _ = Ok _ |- _ => apply incident_in in H as (Hin & Hid & Hl) end.
  match goal with H : require_unresolved _ = Ok _ |- _ => apply unresolved_status in H as Hs end.
  match goal with H : routine _ _ = Ok _ |- _ => apply routine_Ok, find_routine_Some in H as [Ho Hoid] end.
  match goal with H : human_lease _ _ _ = _ |- _ => apply human_lease_ok in H as (H1' & H2' & H3' & H4' & H5' & _) end.
  match goal with |- context [replace_run st ?w] => assert (Inv (replace_run st w)) as HI1 end.
  { eapply Inv_replace_run; [done|exact Hin|done|done| | |done].
    - unfold holding. rewrite Hs. by rewrite orb_true_r.
    - intros _. eexists. split; [exact Ho|]. cbn. rewrite H2', H3'. split; [done|]. intros _. lia. }
  case_match; [done|]. eapply Inv_frame; [|exact HI1]. by split.
Qed.

Lemma run_incident_Inv st id now x e e' st' : run_incident st id now x e = (e', Ok st') -> Inv st -> Inv st'.
Proof.
  unfold run_incident. intros H HI. inv_ok.
  match goal with H : skip_incident _ _ _ _ _ = _ |- _ => apply skip_incident_Inv in H; [|done] end.
  match goal with H : set_paused _ _ _ = _ |- _ => apply set_paused_frame in H end.
  match goal with H : routine _ _ = Ok _ |- _ => apply routine_holds_core in H end.
  eapply Inv_frame; [by apply replace_core_frame|]. by eapply Inv_frame.
Qed.

Lemma pause_incident_Inv st id now r e e' st' : pause_incident st id now r e = (e', Ok st') -> Inv st -> Inv st'.
Proof.
  unfold pause_incident. intros H HI. inv_ok.
  match goal with H : incident _ _ = Ok _ |- _ => apply incident_in in H as (Hin & Hid & Hl) end.
  match goal with H : set_paused _ _ _ = _ |- _ => apply set_paused_frame in H as Hf end.
  pose proof (inv_lease _ _ HI Hin) as Hlease.
  eapply Inv_notice_move; [eassumption|by eapply Inv_frame|by rewrite (frame_runs _ _ Hf)|].
  match goal with H : run_notice _ _ _ _ _ _ = _ |- _ => apply run_notice_frame in H as [_ ->] end. solve_moves.
Qed.

Lemma release_incident_Inv st id st' : release_incident st id = Ok st' -> Inv st -> Inv st'.
Proof. unfold release_incident. intros H HI. case_match; inv_ok; [|done]. by apply Inv_drop_run. Qed.

(** ** Definitions *)
Lemma create_Inv st r now usage steps e e' st' :
  create st r now usage steps e = (e', Ok st') -> Inv st -> Inv st'.
Proof.
  unfold create. intros H HI. inv_ok. eapply Inv_frame; [by eapply put_notice_frame|]. by eapply add_routine_Inv.
Qed.

Lemma find_routine_in_map st id r :
  find_routine st id = Some r -> In id (map Routine.routine_id (TeamRoutines.routines st)).
Proof. intros H. apply (find_key_is_Some Routine.routine_id). eauto. Qed.

Lemma update_Inv st r rev now e e' st' : update st r rev now e = (e', Ok st') -> Inv st -> Inv st'.
Proof.
  unfold update. intros H HI. inv_ok.
  match goal with H : changeable _ _ _ = Ok _ |- _ => apply changeable_ok in H as (Hf & _ & _ & Hfree) end.
  match goal with H : admitted _ _ = Ok _ |- _ => apply admitted_ok in H as (Hok & Hc) end.
  match goal with H : budgets _ _ = Ok _ |- _ => apply budgets_ok in H as (Hb1 & Hb2) end.
  pose proof (find_routine_Some _ _ _ Hf) as [_ Hid]. pose proof (core_id _ _ Hc) as Hid'. cbn in Hid'.
  eapply Inv_frame; [by eapply put_notice_frame|].
  apply Inv_redefine; auto; cbn; rewrite Hid'; first [by eapply find_routine_in_map | by rewrite <- Hid].
Qed.

Lemma refine_Inv st r rev now e e' st' : refine st r rev now e = (e', Ok st') -> Inv st -> Inv st'.
Proof.
  unfold refine. intros H HI. inv_ok.
  match goal with H : changeable _ _ _ = Ok _ |- _ => apply changeable_ok in H as (Hf & _ & _ & Hfree) end.
  match goal with H : defined _ _ = Ok _ |- _ => apply defined_ok in H as (Hok & Hc & _) end.
  match goal with H : budgets _ _ = Ok _ |- _ => apply budgets_ok in H as (Hb1 & Hb2) end.
  pose proof (find_routine_Some _ _ _ Hf) as [_ Hid]. pose proof (core_id _ _ Hc) as Hid'. cbn in Hid'.
  eapply Inv_frame; [by eapply put_notice_frame|].
  apply Inv_redefine; auto; rewrite Hid'; auto. rewrite Hid. by eapply find_routine_in_map.
Qed.

Lemma Inv_drop_routine st id : Inv st ->
  (forall v, In v (TeamRoutines.runs st) -> Run.routine_id v <> id) ->
  Inv (st <| TeamRoutines.routines := drop_key Routine.routine_id id (TeamRoutines.routines st) |>).
Proof.
  intros [H1 H2 H3 H4 H5 H6 H7 H8 H9 H10 H11] Hno. split; auto; cbn.
  - by apply NoDup_map_filter.
  - pose proof (length_drop_key Routine.routine_id id (TeamRoutines.routines st)). unfold len in *. lia.
  - apply List.Forall_forall. intros x [Hx _]%in_drop_key. by eapply List.Forall_forall in H3.
  - etrans; [apply zsum_drop_key_le|exact H4]. eapply List.Forall_impl; [|exact H3]. apply daily_steps_nonneg.
  - etrans; [apply zsum_drop_key_le|exact H5]. eapply List.Forall_impl; [|exact H3].
    intros r _. apply definition_bytes_nonneg.
  - apply List.Forall_forall. intros v Hv. eapply List.Forall_forall in H8 as (o & Ho & Hid & Hr); [|exact Hv].
    exists o. split; [|done]. apply in_drop_key. split; [done|]. rewrite Hid. by apply Hno.
Qed.

Lemma complete_delete_Inv st id now e e' st' : complete_delete st id now e = (e', Ok st') -> Inv st -> Inv st'.
Proof.
  unfold complete_delete. intros H HI. inv_ok.
  match goal with H : put_notice _ _ = Ok _ |- _ => apply put_notice_frame in H as Hf end.
  apply Inv_drop_routine; [by eapply Inv_frame|]. rewrite (frame_runs _ _ Hf). intros v Hv Heq.
  match goal with H : existsb _ (TeamRoutines.runs st) = false |- _ => rename H into He end.
  enough (existsb (fun item => Run.routine_id item =s id) (TeamRoutines.runs st) = true) by congruence.
  apply existsb_exists. exists v. split; [done|]. by apply seqb_true.
Qed.

Lemma mark_scope_changed_Inv st id now e e' st' :
  mark_scope_changed st id now e = (e', Ok st') -> Inv st -> Inv st'.
Proof.
  unfold mark_scope_changed. intros H HI. inv_ok.
  match goal with H : put_notice _ _ = Ok _ |- _ => apply put_notice_frame in H as Hf end.
  match goal with H : routine _ _ = Ok _ |- _ => apply routine_holds_core in H as Hc end.
  eapply Inv_frame; [apply replace_core_frame, (holds_core_frame _ _ _ Hf Hc)|]. by eapply Inv_frame.
Qed.

(** ** Claims *)
Lemma oldest_in l r : oldest l = Some r -> In r l.
Proof.
  induction l as [|a l IH] in r |- *; cbn; [done|]. destruct (oldest l) as [b|]; [|intros [= ->]; auto].
  case_match; intros [= ->]; auto.
Qed.

Lemma claimable_in st now long r : claimable st now long = Some r ->
  In r (TeamRoutines.routines st) /\ backpressured st = false /\ segment_leased st = false
  /\ Routine.paused r = false /\ Routine.deleting r = false /\ Routine.needs_reconfirm r = false
  /\ contains (busy st) (Routine.routine_id r) = false
  /\ due_at r <= now /\ routine_free_at st r now <= now
  /\ (long = true \/ long_run (run_units r) = false).
Proof.
  unfold claimable. destruct (backpressured st || segment_leased st) eqn:Hb; [done|].
  apply orb_false_iff in Hb as [Hb1 Hb2]. intros Ho%oldest_in. apply filter_In in Ho as [Hr Hd].
  apply filter_In in Hr as [Hin Hready]. rewrite !andb_true_iff, orb_true_iff, !negb_true_iff in Hready.
  destruct Hready as ((((? & ?) & ?) & ?) & ?). apply andb_true_iff in Hd as [? ?]. split_and!; auto; lia.
Qed.

Lemma not_busy st id : contains (busy st) id = false ->
  forall v, In v (TeamRoutines.runs st) -> holding v = true -> Run.routine_id v <> id.
Proof.
  intros Hb v Hv Hh Heq. enough (contains (busy st) id = true) by congruence. apply contains_In.
  unfold busy. apply in_or_app. unfold holding in Hh. apply orb_true_iff in Hh as [Hl|Hu]; [left|right];
    rewrite <- Heq; apply in_map, filter_In; auto.
Qed.

(** What a lease adds: one fresh leased run and one start. *)
Lemma lease_Ok st due now key e e' st' c : lease st due now key e = (e', Ok (st', c)) ->
  let v := Claim.run c in
  st' = replace_routine
          (st <| TeamRoutines.starts := started (TeamRoutines.starts st) (Routine.routine_id due) now (run_units due) |>
              <| TeamRoutines.served_at := now |> <| TeamRoutines.runs := TeamRoutines.runs st ++ [v] |>) due
  /\ Run.routine_id v = Routine.routine_id due /\ Run.status v = Leased
  /\ Run.lease_sha256 v = lease_sha256 (Claim.lease_token c) /\ Run.lease_key v = key
  /\ Run.lease_expires_at v = now + LEASE_SECONDS
  /\ Run.active_seconds_left v = active_seconds (run_units due)
  /\ Run.revision v = Routine.revision due /\ Claim.revision c = Routine.revision due
  /\ Claim.plan_digest c = digest (Routine.plan due) /\ Run.notice_version v = 0
  /\ Run.generation v = ""%string.
Proof. unfold lease. intros H. inv_ok. cbn. split_and!; done. Qed.

Lemma lease_Inv st due now key e e' st' c :
  lease st due now key e = (e', Ok (st', c)) -> Inv st -> holds_core st due -> SHA256_RE key = true ->
  ~ In (Run.run_id (Claim.run c)) (map Run.run_id (TeamRoutines.runs st)) ->
  len (TeamRoutines.runs st) < MAX_RUNS ->
  (forall v, In v (TeamRoutines.runs st) -> holding v = true -> Run.routine_id v <> Routine.routine_id due) ->
  Inv st'.
Proof.
  intros (-> & Hrid & Hs & Hl & Hk & _ & _ & Hrev & _)%lease_Ok HI Hc Hkey Hfresh Hlen Hfree.
  eapply Inv_frame; [apply replace_core_frame; exact Hc|]. apply Inv_add_run; auto.
  - destruct Hc as (o & Ho & Hcore). apply find_routine_Some in Ho as [Hin _].
    exists o. split; [done|]. unfold core in Hcore. injection Hcore as Hid Hr _ _ _ _.
    rewrite Hrid, Hrev. split; [done|]. by intros _.
  - rewrite Hrid. done.
  - unfold lease_ok. rewrite Hs, Hl, Hk. split; [apply sha256_hex_form|by left].
Qed.

Lemma incident_capacity_runs st : backpressured st = false -> len (TeamRoutines.runs st) < MAX_RUNS.
Proof. unfold backpressured, incident_capacity. intros H. inv_ok. lia. Qed.

Lemma routines_replace st x :
  TeamRoutines.routines (replace_routine st x) = replace_key Routine.routine_id x (TeamRoutines.routines st).
Proof. done. Qed.

Lemma put_notice_routines st n st' : put_notice st n = Ok st' ->
  TeamRoutines.routines st' = TeamRoutines.routines st.
Proof. by intros (m & -> & _)%put_notice_Ok. Qed.

(** Reporting a gap leaves the Routine as it was, up to what it reported. *)
Lemma report_gap_found st r now b st' :
  report_gap st r now b = Ok st' -> find_routine st (Routine.routine_id r) = Some r ->
  exists n, find_routine st' (Routine.routine_id r) = Some (r <| Routine.reported_missed := n |>).
Proof.
  unfold report_gap. intros H Hf.
  assert (r <| Routine.reported_missed := Routine.reported_missed r |> = r) as Hr by (by destruct r).
  do 2 (case_match; [exists (Routine.reported_missed r); rewrite Hr; by simplify_eq|]). inv_ok.
  match goal with H : put_notice _ _ = Ok _ |- _ => apply put_notice_routines in H as Hp end.
  exists (Routine.missed r). unfold find_routine in *. rewrite routines_replace, Hp.
  set (r' := r <| Routine.reported_missed := Routine.missed r |>).
  change (Routine.routine_id r) with (Routine.routine_id r').
  apply find_replace_key_eq. change (Routine.routine_id r') with (Routine.routine_id r).
  apply find_key_is_Some. eauto.
Qed.

Lemma advance_requested r now r' : advance r now = Ok r' -> Routine.run_requested r' = 0.
Proof.
  unfold advance. intros H. case_match; inv_ok; [done|]. case_match; [done|]. unfold miss. by case_match.
Qed.

(** A claim that starts a run: the swept state's oldest claimable Routine, moved
    on within a frame, and leased. *)
Lemma claim_Some st now key long e e' st' c :
  Inv st -> claim st now key long e = (e', Ok (st', Some c)) ->
  exists swept due st1 r1 e1,
    sweep st now = Ok swept /\ frame st swept /\ claimable swept now long = Some due
    /\ frame swept st1 /\ holds_core st1 r1 /\ core r1 = core due /\ SHA256_RE key = true
    /\ lease st1 r1 now key e1 = (e', Ok (st', c))
    /\ Routine.run_requested r1 = 0
    /\ (Routine.run_requested due <> 0 /\ now < Routine.next_run_at due /\ st1 = swept
          /\ r1 = due <| Routine.run_requested := 0 |>
        \/ exists adv, advance due now = Ok adv /\ Routine.next_run_at r1 = Routine.next_run_at adv
             /\ Routine.gap_started_at r1 = 0 /\ Routine.missed r1 = 0
             /\ (Routine.run_requested due = 0 \/ Routine.next_run_at due <= now)).
Proof.
  intros HI. unfold claim. intros H. inv_ok.
  match goal with H : sweep _ _ = Ok ?s |- _ =>
    rename s into swept; pose proof (sweep_frame _ _ _ (inv_ids _ HI) H) as Hsw; rename H into Hsweep end.
  destruct (claimable swept now long) as [due|] eqn:Hcl; inv_ok.
  2: { congruence. }
  pose proof (Inv_frame _ _ Hsw HI) as HIs. destruct (claimable_in _ _ _ _ Hcl) as (Hin & _).
  pose proof (in_routines_core _ _ (inv_ids _ HIs) Hin) as Hc.
  case_match eqn:Hreq; inv_ok.
  - simplify_eq.
    exists swept, due, swept, (due <| Routine.run_requested := 0 |>), e. split_and!; try done.
    left. split_and!; try done; lia.
  - simplify_eq.
    match goal with H : advance _ _ = Ok ?a |- _ => rename a into adv; pose proof (advance_core _ _ _ H) as Hac;
      rename H into Hadv end.
    assert (holds_core swept adv) as Hca.
    { destruct Hc as (o & Ho & Hco). exists o. rewrite (core_id _ _ Hac). split; [done|congruence]. }
    pose proof (replace_core_frame _ _ Hca) as Hrep. pose proof (holds_core_frame _ _ _ Hrep Hca) as Hca'.
    match goal with H : report_gap _ _ _ _ = Ok ?s |- _ =>
      pose proof (report_gap_frame _ _ _ _ _ Hca' H) as Hgap; rename H into Hreport; rename s into st1 end.
    match goal with H : routine st1 _ = Ok ?r |- _ => pose proof (routine_holds_core _ _ _ H) as Hc1;
      rename H into Hfound; rename r into r1 end.
    destruct (report_gap_found _ _ _ _ _ Hreport) as [n Hn].
    { apply (find_replace_key_eq Routine.routine_id). destruct Hca as (o & Ho & _).
      apply (find_key_is_Some Routine.routine_id). eauto. }
    apply routine_Ok in Hfound. rewrite Hn in Hfound. injection Hfound as <-.
    exists swept, due, st1, (adv <| Routine.reported_missed := n |> <| Routine.gap_started_at := 0 |>
      <| Routine.missed := 0 |> <| Routine.reported_missed := 0 |>), e.
    pose proof (advance_requested _ _ _ Hadv). split_and!; try done; [by etrans|].
    right. exists adv. split_and!; try done. lia.
Qed.

Lemma claim_None st now key long e e' st' :
  Inv st -> claim st now key long e = (e', Ok (st', None)) -> frame st st'.
Proof.
  intros HI. unfold claim. intros H. inv_ok.
  match goal with H : sweep _ _ = Ok _ |- _ => apply (sweep_frame _ _ _ (inv_ids _ HI)) in H as Hsw end.
  case_match; inv_ok; [|done]. case_match; inv_ok; congruence.
Qed.

(** The claimed run's id is new to the Team. *)
Definition fresh_claim (st : state) (c : option Claim.Claim) : Prop :=
  match c with
  | Some k => ~ In (Run.run_id (Claim.run k)) (map Run.run_id (TeamRoutines.runs st))
  | None => True
  end.

Lemma claim_Inv st now key long e e' st' c :
  claim st now key long e = (e', Ok (st', c)) -> fresh_claim st c -> Inv st -> Inv st'.
Proof.
  intros H Hfresh HI. destruct c as [c|].
  - destruct (claim_Some _ _ _ _ _ _ _ _ HI H)
      as (swept & due & st1 & r1 & e1 & _ & Hf & Hcl & Hf1 & Hc1 & Hcore & Hkey & Hl & _).
    pose proof (transitivity Hf Hf1) as Hf2. pose proof (Inv_frame _ _ Hf2 HI) as HI1.
    destruct (claimable_in _ _ _ _ Hcl) as (_ & Hbp & _ & _ & _ & _ & Hbusy & _).
    eapply lease_Inv; try done.
    + by rewrite (frame_runs _ _ Hf2).
    + rewrite (frame_runs _ _ Hf1). by apply incident_capacity_runs.
    + rewrite (frame_runs _ _ Hf1), (core_id _ _ Hcore). by apply not_busy.
  - eapply Inv_frame; [|exact HI]. by eapply claim_None.
Qed.

(** ** Every transition as one step

    [calm] steps start no run; only a claim does. *)
Inductive calm : state -> state -> Prop :=
| calm_create st r now usage steps e e' st' : create st r now usage steps e = (e', Ok st') -> calm st st'
| calm_update st r rev now e e' st' : update st r rev now e = (e', Ok st') -> calm st st'
| calm_refine st r rev now e e' st' : refine st r rev now e = (e', Ok st') -> calm st st'
| calm_put_notice st n st' : put_notice st n = Ok st' -> calm st st'
| calm_acknowledge st delivered : calm st (acknowledge st delivered)
| calm_discarded st id g : calm st (discarded st id g)
| calm_set_paused st id b st' : set_paused st id b = Ok st' -> calm st st'
| calm_begin_delete st id st' runs : begin_delete st id = Ok (st', runs) -> calm st st'
| calm_complete_delete st id now e e' st' : complete_delete st id now e = (e', Ok st') -> calm st st'
| calm_scope_changed st id now e e' st' : mark_scope_changed st id now e = (e', Ok st') -> calm st st'
| calm_sweep st now st' : sweep st now = Ok st' -> calm st st'
| calm_bind_generation st id l now n st' : bind_generation st id l now n = Ok st' -> calm st st'
| calm_spend st id l now s ms st' : spend st id l now s ms = Ok st' -> calm st st'
| calm_lose_protection st id st' : run_lose_protection st id = Ok st' -> calm st st'
| calm_freeze st id l now rq e e' st' : freeze st id l now rq e = (e', Ok st') -> calm st st'
| calm_thaw st id now used e e' st' token : thaw st id now used e = (e', Ok (st', token)) -> calm st st'
| calm_finish st id l now shown e e' st' : finish st id l now shown e = (e', Ok st') -> calm st st'
| calm_complete_recovered st id l now shown e e' st' :
    complete_recovered st id l now shown e = (e', Ok st') -> calm st st'
| calm_end st id now outcome detail status e e' st' :
    end_run st id now outcome detail status e = (e', Ok st') -> calm st st'
| calm_fence st id l now st' : fence st id l now = Ok st' -> calm st st'
| calm_hold_recovered st id l st' : hold_recovered st id l = Ok st' -> calm st st'
| calm_settle_hold st id now s e e' st' : settle_hold st id now s e = (e', Ok st') -> calm st st'
| calm_spend_incident st id s st' : spend_incident st id s = Ok st' -> calm st st'
| calm_reopen st id now g e e' st' token : reopen_incident st id now g e = (e', Ok (st', token)) -> calm st st'
| calm_skip st id now x e e' st' : skip_incident st id now x e = (e', Ok st') -> calm st st'
| calm_run_incident st id now x e e' st' : run_incident st id now x e = (e', Ok st') -> calm st st'
| calm_pause_incident st id now r e e' st' : pause_incident st id now r e = (e', Ok st') -> calm st st'
| calm_release st id st' : release_incident st id = Ok st' -> calm st st'.

Inductive step : state -> state -> Prop :=
| step_calm st st' : calm st st' -> step st st'
| step_claim st now key long e e' st' c :
    claim st now key long e = (e', Ok (st', c)) -> fresh_claim st c -> step st st'.

Lemma calm_Inv st st' : calm st st' -> Inv st -> Inv st'.
Proof.
  intros [] HI; try (by eapply Inv_frame; [|exact HI];
    eauto using inv_ids with frames).
  all: eauto using create_Inv, update_Inv, refine_Inv, complete_delete_Inv, mark_scope_changed_Inv,
    bind_generation_Inv, spend_Inv, run_lose_protection_Inv, freeze_Inv, thaw_Inv, finish_Inv,
    complete_recovered_Inv, end_run_Inv, fence_Inv, hold_recovered_Inv, settle_hold_Inv, spend_incident_Inv,
    reopen_incident_Inv, skip_incident_Inv, run_incident_Inv, pause_incident_Inv, release_incident_Inv.
Qed.

Lemma step_Inv st st' : step st st' -> Inv st -> Inv st'.
Proof. intros [] HI; eauto using calm_Inv, claim_Inv. Qed.

Lemma reachable_Inv st : rtc step no_routines st -> Inv st.
Proof.
  intros H. assert (forall a b, rtc step a b -> Inv a -> Inv b) as Hr.
  { induction 1 as [|a b c Hab _ IH]; [done|]. eauto using step_Inv. }
  eauto using Inv_none.
Qed.
End Transitions.
