(* ===== verification/Samples.v ===== *)
(** * A concrete Team

    One Routine with a plan of two steps, on UTC and a replayed entropy tape:
    the inputs on which the witnesses run the transitions. *)

From stdpp Require Import base tactics list strings pretty relations.
From Stdlib Require Import ZArith Lia Ascii.
From S2P Require Import Prelude Text Json Calendar Platform Wire Schedule Dates Starts Plans Team Definitions Define Claims Runs Holds.

#[local] Open Scope Z_scope.
#[local] Abbreviation state := TeamRoutines.TeamRoutines.

(** Bytes of one repeated character. *)
Fixpoint repeated (n : nat) (a : ascii) : string :=
  match n with O => EmptyString | S n' => String a (repeated n' a) end.

Definition tape : Type := list (option string).
Definition tape_of (l : list ascii) : tape := map (fun a => Some (repeated 32 a)) l.

Definition id_a : string := "0123456789abcdef0123456789abcdef".
Definition key_a : string := "0123456789abcdef0123456789abcdef0123456789abcdef0123456789abcdef".

Definition sample_permitted : list Value :=
  map (fun action => object [("assistant", text "stock"); ("action", text action); ("pin", text pin_a);
                             ("read_only", VBool false); ("stored_inputs", VArray [])]%string)
    ["stock.lookup"; "stock.order"]%string.
Definition sample_confirmation : Value :=
  object [("proposal_id", text id_a); ("proposal_digest", text pin_a); ("principal", text id_a);
          ("incarnation", text key_a); ("confirmed_at", int 1767225600)]%string.

Definition sample_with (schedule plan : Value) (next : Z) : Routine.Routine :=
  (Routine_new id_a "Stock" schedule [("stock"%string, pin_a)] plan 1767225600 next)
    <| Routine.description := "Looks up and orders stock"%string |>
    <| Routine.permitted := sample_permitted |> <| Routine.confirmation := Some sample_confirmation |>.
Definition sample_routine : Routine.Routine := sample_with daily_0930 sample_plan 1767259800.

Definition get_state {A} (r : tape * result A) (d : A) : A := match snd r with Ok a => a | Err _ => d end.

(** Midnight of 2026-01-01: the Routine is created; at 09:30 its run is claimed. *)
Definition created : state :=
  get_state (@create utc_platform plain_vocabulary tape tape_entropy no_routines sample_routine 1767225600 None []
               (tape_of ["a"%char])) no_routines.
Definition sample_claim : state * option Claim.Claim :=
  get_state (@claim utc_platform tape tape_entropy created 1767259800 key_a true (tape_of ["t"; "r"]%char))
    (no_routines, None).
Definition claimed : state := fst sample_claim.
Definition the_claim : Claim.Claim :=
  match snd sample_claim with Some c => c | None => Claim.mk (Run_new "" "" Leased) "" 0 "" 0 end.
Definition claimed_run : Run.Run := Claim.run the_claim.
Definition claimed_id : string := Run.run_id claimed_run.
Definition claimed_lease : Lease.Lease := Lease.mk (Run.lease_sha256 claimed_run) key_a.

Example created_ok : len (TeamRoutines.routines created) = 1 /\ len (TeamRoutines.notices created) = 1.
Proof. vm_compute. auto. Qed.
Example claimed_ok : len (TeamRoutines.runs claimed) = 1 /\ Run.status claimed_run = Leased.
Proof. vm_compute. auto. Qed.
