(* ===== verification/Reachable.v ===== *)
(** * What every reachable Team satisfies

    Consequences of the invariant for any sequence of transitions from an empty
    Team: the bounds, who owns a run, the one run that holds a Routine, which
    lease may drive a run, and the steps started in any 24 hours. *)

From stdpp Require Import base tactics list strings pretty relations.
From Stdlib Require Import ZArith Lia Ascii.
From S2P Require Import Prelude Text Json Calendar Platform Wire Schedule Dates Starts Plans Team Definitions Define Claims Runs Holds Frames Invariants Samples.

#[local] Open Scope Z_scope.
#[local] Abbreviation state := TeamRoutines.TeamRoutines.

(** ** Counting holders *)
Lemma NoDup_map_coarser {A B C} (f : A -> B) (g : A -> C) l :
  List.NoDup (map g l) -> (forall a b, In a l -> In b l -> f a = f b -> g a = g b) -> List.NoDup (map f l).
Proof.
  induction l as [|x l IH]; cbn; [constructor|]. inversion_clear 1 as [|? ? Hni Hnd]. intros Hinj.
  constructor; [|apply IH; auto]. intros (y & Hy & Hin)%in_map_iff. apply Hni.
  rewrite <- (Hinj y x); auto. by apply in_map.
Qed.

Definition holders (st : state) : list Run.Run := List.filter holding (TeamRoutines.runs st).
Definition with_status (s : RunStatus) (st : state) : list Run.Run :=
  List.filter (fun r => status_eqb (Run.status r) s) (TeamRoutines.runs st).

Section Reachable.
  Context {PF : Platform} {VO : Vocabulary} {E : Type} {EN : Entropy E}.
  Implicit Types (st : state) (e : E).

Definition reachable (st : state) : Prop := rtc step no_routines st.

Lemma reachable_inv st : reachable st -> Inv st.
Proof. apply reachable_Inv. Qed.

Lemma holders_le st : Inv st -> (length (holders st) <= length (TeamRoutines.routines st))%nat.
Proof.
  intros HI. rewrite <- (length_map Run.routine_id), <- (length_map Routine.routine_id).
  apply List.NoDup_incl_length.
  - apply (NoDup_map_coarser _ Run.run_id); [apply NoDup_map_filter, (inv_run_ids _ HI)|].
    intros a b [Ha Hha]%filter_In [Hb Hhb]%filter_In. by apply (inv_slot _ HI).
  - intros id (v & <- & [Hv _]%filter_In)%in_map_iff.
    pose proof (inv_owner _ HI) as Ho. eapply List.Forall_forall in Ho as (o & Hin & <- & _); [|exact Hv].
    by apply in_map.
Qed.

(** Runs of two different holding statuses never outnumber the holders. *)
Lemma statuses_le st s t : s <> t -> (forall v, Run.status v = s \/ Run.status v = t -> holding v = true) ->
  (length (with_status s st) + length (with_status t st) <= length (holders st))%nat.
Proof.
  intros Hne Hh. unfold with_status, holders. induction (TeamRoutines.runs st) as [|v l IH]; cbn; [lia|].
  destruct (status_eqb (Run.status v) s) eqn:Hs; destruct (status_eqb (Run.status v) t) eqn:Ht;
    repeat match goal with H : status_eqb _ _ = true |- _ => apply bool_decide_eq_true in H end;
    [congruence|rewrite Hh by auto..|destruct (holding v)]; cbn; lia.
Qed.

Lemma reach_bounds st : reachable st ->
  List.NoDup (map Routine.routine_id (TeamRoutines.routines st)) /\ len (TeamRoutines.routines st) <= MAX_ROUTINES
  /\ List.NoDup (map Run.run_id (TeamRoutines.runs st)) /\ len (TeamRoutines.runs st) <= MAX_RUNS
  /\ List.NoDup (map Notice.notice_id (TeamRoutines.notices st)) /\ len (TeamRoutines.notices st) <= MAX_NOTICES
  /\ zsum (map daily_steps (TeamRoutines.routines st)) <= MAX_DAILY_STEPS
  /\ zsum (map definition_bytes (TeamRoutines.routines st)) <= TEAM_DEFINITION_BYTES.
Proof. intros [? ? ? ? ? ? ? ? ? ? [? ?]]%reachable_inv. split_and!; auto. Qed.

(** C27. Whatever transitions a Team goes through, it keeps at most 8 Routines, 64
    run records and 56 undelivered notices, each list with distinct ids, and its
    Routines' allocations fit its daily steps and its definition bytes. *)
Theorem team_bounds st : reachable st ->
  List.NoDup (map Routine.routine_id (TeamRoutines.routines st)) /\ len (TeamRoutines.routines st) <= MAX_ROUTINES
  /\ List.NoDup (map Run.run_id (TeamRoutines.runs st)) /\ len (TeamRoutines.runs st) <= MAX_RUNS
  /\ List.NoDup (map Notice.notice_id (TeamRoutines.notices st)) /\ len (TeamRoutines.notices st) <= MAX_NOTICES
  /\ zsum (map daily_steps (TeamRoutines.routines st)) <= MAX_DAILY_STEPS
  /\ zsum (map definition_bytes (TeamRoutines.routines st)) <= TEAM_DEFINITION_BYTES.
Proof. apply reach_bounds. Qed.

(** C28. No run record outlives its Routine, and a live run always executes its
    Routine's current revision: no definition changes under it. *)
Theorem run_owned st v : reachable st -> In v (TeamRoutines.runs st) ->
  exists o, find_routine st (Run.routine_id v) = Some o
    /\ (is_live v = true -> Run.revision v = Routine.revision o).
Proof.
  intros HI%reachable_inv Hin. pose proof (inv_owner _ HI) as Ho.
  eapply List.Forall_forall in Ho as (o & Hio & Hid & Hrev); [|exact Hin]. exists o. rewrite <- Hid.
  split; [by apply find_routine_of|]. intros Hl. by rewrite Hrev.
Qed.

(** The frozen-run limit is what refuses a freeze only when that many runs are frozen
    beside a leased one. *)
Definition codes {A} (l : list string) (r : result A) : Prop := match r with Ok _ => True | Err c => In c l end.
Lemma live_lease_codes st id l now : codes ["run-not-found"; "run-not-running"; "lease-invalid"]%string (live_lease st id l now).
Proof.
  unfold live_lease, leased, run, require_lease, refuse, ok_or, mbind, result_bind. repeat (case_match; cbn; simplify_eq; try tauto).
Qed.
Lemma put_notice_codes st n : codes ["notice-invalid"; "routine-not-found"; "notices-full"]%string (put_notice st n).
Proof. unfold put_notice, routine, refuse, ok_or, mbind, result_bind. repeat (case_match; cbn; simplify_eq; try tauto). Qed.
Lemma freeze_limited st id l now rq e : snd (freeze st id l now rq e) = Err "frozen-limit" ->
  with_status Leased st <> [] /\ MAX_FROZEN_RUNS <= len (with_status Frozen st).
Proof.
  unfold freeze, lift, mbind, drawing_bind. pose proof (live_lease_codes st id l now) as Hc. destruct (live_lease st id l now) as [v|c] eqn:Hl; cbn [codes] in Hc; [|intros [= ->]; cbn in Hc; naive_solver].
  apply live_lease_in in Hl as (Hin & _ & Hs). unfold routine. destruct (find_routine st (Run.routine_id v)) as [o|]; cbn [ok_or]; [|done].
  unfold refuse. destruct (Routine.deleting o); [done|]. destruct (_ || _ || _ || _); [done|]. fold (with_status Frozen st). destruct (Z.leb_spec MAX_FROZEN_RUNS (len (with_status Frozen st))) as [Hle|_].
  - intros _. split; [|done]. intros E0. assert (In v (with_status Leased st)) as Hv by (apply filter_In; split; [done|rewrite Hs; done]). by rewrite E0 in Hv.
  - unfold run_notice, lift, mbind, drawing_bind. match goal with |- context [put_notice ?a ?b] => pose proof (put_notice_codes a b) as Hp; destruct (put_notice a b) as [n|c] end; cbn [codes] in Hp; [done|].
    intros [= ->]. cbn in Hp. naive_solver.
Qed.

(** C2. At most one run holds a Routine (leased, frozen, held or unresolved), so at
    most eight runs hold anything: while one run is leased fewer than eight are
    frozen, and the frozen-run limit never refuses a freeze; the live runs and the
    unresolved incidents together stay below the incident limit. *)
Theorem one_holder st : reachable st ->
  (forall a b, In a (holders st) -> In b (holders st) -> Run.routine_id a = Run.routine_id b -> a = b)
  /\ len (holders st) <= MAX_ROUTINES
  /\ (with_status Leased st <> [] -> len (with_status Frozen st) < MAX_FROZEN_RUNS)
  /\ (forall id l now rq e, snd (freeze st id l now rq e) <> Err "frozen-limit")
  /\ len (with_status Unresolved st) + (len (live_runs st) + 1) <= MAX_UNRESOLVED_INCIDENTS.
Proof.
  intros HI%reachable_inv. pose proof (holders_le st HI) as Hle. pose proof (inv_count _ HI) as Hc.
  assert (with_status Leased st <> [] -> len (with_status Frozen st) < MAX_FROZEN_RUNS) as Hfrozen.
  { intros Hne. pose proof (statuses_le st Leased Frozen ltac:(done)) as Hs. unfold len in *.
    destruct (with_status Leased st); [done|]. cbn in Hs.
    enough (S (length l + length (with_status Frozen st)) <= length (holders st))%nat
      by (change MAX_FROZEN_RUNS with 8; change MAX_ROUTINES with 8 in Hc; lia).
    apply Hs. intros v [H|H]; unfold holding, is_live; by rewrite H. }
  unfold len in *. split_and!.
  - intros a b [Ha Hha]%filter_In [Hb Hhb]%filter_In Heq.
    pose proof (inv_slot _ HI a b Ha Hb Hha Hhb Heq) as Hid.
    pose proof (in_find_key Run.run_id _ a (inv_run_ids _ HI) Ha).
    pose proof (in_find_key Run.run_id _ b (inv_run_ids _ HI) Hb). congruence.
  - lia.
  - exact Hfrozen.
  - intros id l now rq e [Hl Hfl]%freeze_limited. specialize (Hfrozen Hl). unfold len in *. lia.
  - assert (length (with_status Unresolved st) + length (live_runs st) <= length (holders st))%nat.
    { unfold with_status, live_runs, holders. clear. induction (TeamRoutines.runs st) as [|v l IH]; cbn; [lia|].
      change (holding v) with (is_live v || status_eqb (Run.status v) Unresolved).
      destruct (status_eqb (Run.status v) Unresolved) eqn:Hu.
      - apply bool_decide_eq_true in Hu. unfold is_live. rewrite Hu. cbn. fold is_live. lia.
      - rewrite orb_false_r. destruct (is_live v); cbn; lia. }
    change MAX_UNRESOLVED_INCIDENTS with 32. change MAX_ROUTINES with 8 in Hc. lia.
Qed.

(** ** Starts *)

(** Collects what a successful call kept of the Team's starts. *)
Ltac keep_starts :=
  repeat match goal with
  | H : put_notice _ _ = Ok _ |- _ => apply put_notice_frame, frame_starts in H
  | H : run_notice _ _ _ _ _ _ = (_, Ok (_, _)) |- _ => apply run_notice_frame in H as [H%frame_starts _]
  | H : set_paused _ _ _ = Ok _ |- _ => apply set_paused_frame, frame_starts in H
  | H : begin_delete _ _ = Ok _ |- _ => apply begin_delete_frame, frame_starts in H
  | H : completion _ _ _ _ _ _ = (_, Ok _) |- _ => apply completion_frame, frame_starts in H
  | H : TeamRoutines.starts _ = TeamRoutines.starts _ |- _ => progress cbn in H
  end; cbn; try congruence.

Lemma without_run_starts st id now st' : without_run st id now = Ok st' ->
  TeamRoutines.starts st' = TeamRoutines.starts st.
Proof. unfold without_run. intros H. inv_ok. done. Qed.

Lemma skip_starts st id now x e e' st' : skip_incident st id now x e = (e', Ok st') ->
  TeamRoutines.starts st' = TeamRoutines.starts st.
Proof. unfold skip_incident. intros H. inv_ok. keep_starts. Qed.

Lemma completed_run_starts st v now shown e e' st' : completed_run st v now shown e = (e', Ok st') ->
  TeamRoutines.starts st' = TeamRoutines.starts st.
Proof.
  unfold completed_run. intros H. inv_ok.
  match goal with H : without_run _ _ _ = Ok _ |- _ => apply without_run_starts in H end. keep_starts.
Qed.

Lemma settle_starts st id now s e e' st' : settle_hold st id now s e = (e', Ok st') ->
  TeamRoutines.starts st' = TeamRoutines.starts st.
Proof.
  unfold settle_hold. intros H. destruct s as [[[a x3] p] n]. inv_ok. keep_starts. case_match; inv_ok; [|keep_starts].
  match goal with H : skip_incident _ _ _ _ _ = _ |- _ => apply skip_starts in H end. keep_starts.
Qed.

Lemma calm_starts st st' : Inv st -> calm st st' -> TeamRoutines.starts st' = TeamRoutines.starts st.
Proof.
  intros HI Hcalm. revert HI. destruct Hcalm; intros HI.
  all: try (match goal with
    | H : create _ _ _ _ _ _ = _ |- _ => unfold create, add_routine in H
    | H : update _ _ _ _ _ = _ |- _ => unfold update in H
    | H : refine _ _ _ _ _ = _ |- _ => unfold refine in H
    | H : complete_delete _ _ _ _ = _ |- _ => unfold complete_delete in H
    | H : mark_scope_changed _ _ _ _ = _ |- _ => unfold mark_scope_changed in H
    | H : bind_generation _ _ _ _ _ = _ |- _ => unfold bind_generation in H
    | H : spend _ _ _ _ _ _ = _ |- _ => unfold spend in H
    | H : run_lose_protection _ _ = _ |- _ => unfold run_lose_protection in H
    | H : freeze _ _ _ _ _ _ = _ |- _ => unfold freeze in H
    | H : thaw _ _ _ _ _ = _ |- _ => unfold thaw in H
    | H : finish _ _ _ _ _ _ = _ |- _ => unfold finish in H
    | H : complete_recovered _ _ _ _ _ _ = _ |- _ => unfold complete_recovered in H
    | H : end_run _ _ _ _ _ _ _ = _ |- _ => unfold end_run in H
    | H : fence _ _ _ _ = _ |- _ => unfold fence, held in H
    | H : hold_recovered _ _ _ = _ |- _ => unfold hold_recovered, held in H
    | H : spend_incident _ _ _ = _ |- _ => unfold spend_incident in H
    | H : reopen_incident _ _ _ _ _ = _ |- _ => unfold reopen_incident in H
    | H : run_incident _ _ _ _ _ = _ |- _ => unfold run_incident in H
    | H : pause_incident _ _ _ _ _ = _ |- _ => unfold pause_incident in H
    | H : release_incident _ _ = _ |- _ => unfold release_incident in H; case_match
    end; inv_ok).
  all: repeat match goal with
    | H : skip_incident _ _ _ _ _ = _ |- _ => apply skip_starts in H
    | H : settle_hold _ _ _ _ _ = _ |- _ => apply settle_starts in H
    | H : completed_run _ _ _ _ _ = _ |- _ => apply completed_run_starts in H
    | H : without_run _ _ _ = Ok _ |- _ => apply without_run_starts in H
    | H : sweep _ _ = Ok _ |- _ => apply (sweep_frame _ _ _ (inv_ids _ HI)), frame_starts in H
    end; keep_starts.
  all: try done; by case_match.
Qed.

(** Every claim of a Team and the starts it made, in order, on a clock that
    does not run backwards between them. *)
Definition claimed_units (st : state) (c : Claim.Claim) : Z :=
  from_option run_units 0 (find_routine st (Run.routine_id (Claim.run c))).

Inductive trace : state -> list Start -> Z -> Prop :=
| trace_none : trace no_routines [] 0
| trace_calm st st' h t : trace st h t -> calm st st' -> trace st' h t
| trace_idle st st' h t now key long e e' :
    trace st h t -> claim st now key long e = (e', Ok (st', None)) -> trace st' h t
| trace_claim st st' h t now key long e e' c :
    trace st h t -> t <= now -> claim st now key long e = (e', Ok (st', Some c)) ->
    fresh_claim st (Some c) ->
    trace st' (h ++ [(Run.routine_id (Claim.run c), now, claimed_units st' c)]) now.

Lemma core_units r r' : core r = core r' -> run_units r = run_units r'.
Proof. unfold core, run_units. intros [= _ _ Hp _ _ _]. by rewrite Hp. Qed.

Lemma run_units_bound st r : Inv st -> In r (TeamRoutines.routines st) -> 1 <= run_units r <= MAX_STEPS.
Proof.
  intros HI Hin. pose proof (inv_routines _ HI) as Hr. eapply List.Forall_forall in Hr as (_ & Hw & _); [|exact Hin].
  apply well_formed_safe in Hw as (raws & Hs & Hlen & _). unfold run_units, plan_steps. by rewrite Hs.
Qed.

Lemma find_routine_lease st due now key e e' st' c : holds_core st due ->
  lease st due now key e = (e', Ok (st', c)) -> find_routine st' (Routine.routine_id due) = Some due.
Proof.
  intros (o & Ho & _) (-> & _)%lease_Ok. unfold find_routine. rewrite routines_replace.
  apply find_replace_key_eq. apply find_key_is_Some. eauto.
Qed.

Lemma trace_gated st h t : trace st h t -> Inv st /\ gated (TeamRoutines.starts st) h t.
Proof.
  induction 1 as [|st st' h t _ [HI Hg] Hc|st st' h t now key long e e' _ [HI Hg] Hc
    |st st' h t now key long e e' c _ [HI Hg] Ht Hc Hfresh].
  - split; [apply Inv_none|constructor].
  - split; [by eapply calm_Inv|]. by rewrite (calm_starts _ _ HI Hc).
  - pose proof (claim_None _ _ _ _ _ _ _ HI Hc) as Hf. split; [by eapply Inv_frame|].
    by rewrite (frame_starts _ _ Hf).
  - split; [by eapply claim_Inv|].
    destruct (claim_Some _ _ _ _ _ _ _ _ HI Hc)
      as (swept & due & st1 & r1 & e1 & _ & Hf & Hcl & Hf1 & Hc1 & Hcore & Hkey & Hl & _).
    pose proof (transitivity Hf Hf1) as Hf2. pose proof (Inv_frame _ _ Hf HI) as HIs.
    destruct (claimable_in _ _ _ _ Hcl) as (Hin & _ & _ & _ & _ & _ & _ & _ & Hfree & _).
    pose proof (run_units_bound _ _ HIs Hin) as Hu.
    pose proof (find_routine_lease _ _ _ _ _ _ _ _ Hc1 Hl) as Hfind.
    destruct (lease_Ok _ _ _ _ _ _ _ _ Hl) as (-> & Hrid & _).
    unfold claimed_units. rewrite Hrid, Hfind. cbn [from_option TeamRoutines.starts replace_routine].
    rewrite (core_units _ _ Hcore), (core_id _ _ Hcore), (frame_starts _ _ Hf2) in *.
    pose proof (inv_routines _ HIs) as Hok. eapply List.Forall_forall in Hok; [|exact Hin].
    apply (gated_start (TeamRoutines.starts st) h t (Routine.routine_id due)
      (if continuous due then Some (daily_cap (Routine.schedule due)) else None)); auto.
    + change MAX_STEPS with 256 in Hu. change MAX_DAILY_STEPS with 20000. lia.
    + intros cap Hcap. case_match; simplify_eq. by apply routine_ok_daily.
    + unfold routine_free_at in Hfree. by rewrite (frame_starts _ _ Hf) in Hfree.
Qed.

(** C1. Whatever a Team's Routines, revisions, pauses and Rodars, the runs it starts
    in any 24 hours reserve at most 20,000 business steps, when its clock does not run
    backwards from one started run to the next and each run's id is drawn fresh. *)
Theorem team_daily_steps st h t u : trace st h t -> steps_in_day h u <= MAX_DAILY_STEPS.
Proof. intros [_ Hg]%trace_gated. by apply gated_steps with (1 := Hg). Qed.
End Reachable.

(** ** A concrete Team reaches its claimed state *)
Definition sample_reachable : state -> Prop :=
  @reachable utc_platform plain_vocabulary tape tape_entropy.

Lemma created_reached : sample_reachable created.
Proof.
  eapply rtc_l; [|apply rtc_refl]. apply step_calm.
  eapply (calm_create _ sample_routine 1767225600 None [] (tape_of ["a"%char])). vm_compute. reflexivity.
Defined.

Lemma claimed_reached : sample_reachable claimed.
Proof.
  eapply rtc_r; [apply created_reached|].
  eapply (step_claim created 1767259800 key_a true (tape_of ["t"; "r"]%char) [] claimed (snd sample_claim)).
  - vm_compute. reflexivity.
  - vm_compute. intros [].
Defined.

Lemma team_bounds_witness :
  List.NoDup (map Routine.routine_id (TeamRoutines.routines claimed))
  /\ len (TeamRoutines.routines claimed) <= MAX_ROUTINES
  /\ List.NoDup (map Run.run_id (TeamRoutines.runs claimed)) /\ len (TeamRoutines.runs claimed) <= MAX_RUNS
  /\ List.NoDup (map Notice.notice_id (TeamRoutines.notices claimed))
  /\ len (TeamRoutines.notices claimed) <= MAX_NOTICES
  /\ zsum (map daily_steps (TeamRoutines.routines claimed)) <= MAX_DAILY_STEPS
  /\ zsum (map definition_bytes (TeamRoutines.routines claimed)) <= TEAM_DEFINITION_BYTES.
Proof. apply (@team_bounds utc_platform plain_vocabulary tape tape_entropy claimed). apply claimed_reached. Defined.

Lemma run_owned_witness :
  exists o, find_routine claimed (Run.routine_id claimed_run) = Some o
    /\ (is_live claimed_run = true -> Run.revision claimed_run = Routine.revision o).
Proof.
  apply (@run_owned utc_platform plain_vocabulary tape tape_entropy claimed claimed_run).
  - apply claimed_reached.
  - vm_compute. left. reflexivity.
Defined.

Lemma one_holder_witness :
  (forall a b, In a (holders claimed) -> In b (holders claimed) -> Run.routine_id a = Run.routine_id b -> a = b)
  /\ len (holders claimed) <= MAX_ROUTINES
  /\ (with_status Leased claimed <> [] -> len (with_status Frozen claimed) < MAX_FROZEN_RUNS)
  /\ (forall id l now rq e, snd (@freeze tape tape_entropy claimed id l now rq e) <> Err "frozen-limit"%string)
  /\ len (with_status Unresolved claimed) + (len (live_runs claimed) + 1) <= MAX_UNRESOLVED_INCIDENTS.
Proof. apply (@one_holder utc_platform plain_vocabulary tape tape_entropy claimed). apply claimed_reached. Defined.

Lemma team_daily_steps_witness :
  steps_in_day ([] ++ [(Run.routine_id (Claim.run the_claim), 1767259800, claimed_units claimed the_claim)])
    1767259800 <= MAX_DAILY_STEPS.
Proof.
  apply (@team_daily_steps utc_platform plain_vocabulary tape tape_entropy claimed _ 1767259800 1767259800).
  eapply (trace_claim created claimed [] 0 1767259800 key_a true (tape_of ["t"; "r"]%char) [] the_claim).
  - eapply trace_calm; [apply trace_none|].
    eapply (calm_create _ sample_routine 1767225600 None [] (tape_of ["a"%char])). vm_compute. reflexivity.
  - lia.
  - vm_compute. reflexivity.
  - vm_compute. intros [].
Defined.
