(* ===== verification/Leases.v ===== *)
(** * Who may drive a run, and when it starts

    A claim leases exactly one run, to the holder of its token, and moves its
    Routine past the claim; a frozen or fenced run is driven by nobody; a run a
    person resumed is driven under the person's lease alone. *)

From stdpp Require Import base tactics list strings pretty relations.
From Stdlib Require Import ZArith Lia Ascii.
From S2P Require Import Prelude Text Json Calendar Platform Wire Schedule Dates Starts Plans Team Definitions Define Claims Runs Holds Frames Invariants Samples Reachable.

#[local] Open Scope Z_scope.
#[local] Abbreviation state := TeamRoutines.TeamRoutines.

Lemma find_replace_run st v w id : In w (TeamRoutines.runs st) -> Run.run_id w = id -> Run.run_id v = id ->
  find_run (replace_run st v) id = Some v.
Proof.
  intros Hin He <-. apply (find_replace_key_eq Run.run_id). rewrite <- He. by apply in_map.
Qed.

Lemma live_lease_stopped st id v l now : find_run st id = Some v -> Run.status v <> Leased ->
  live_lease st id l now = Err "run-not-running".
Proof.
  intros Hf Hs. unfold live_lease, leased, run. rewrite Hf. cbn [ok_or mbind result_bind].
  unfold status_eqb. by rewrite bool_decide_false.
Qed.
Lemma read_lease_stopped st id v d : find_run st id = Some v -> Run.status v <> Leased ->
  read_lease st id d = Err "run-not-running".
Proof.
  intros Hf Hs. unfold read_lease, leased, run. rewrite Hf. cbn [ok_or mbind result_bind].
  unfold status_eqb. by rewrite bool_decide_false.
Qed.

Lemma live_lease_found st id v l now : find_run st id = Some v -> Run.status v = Leased ->
  live_lease st id l now =
  (if (Run.lease_sha256 v =s Lease.sha256 l) && (Run.lease_key v =s Lease.key l)
      && (now <? Run.lease_expires_at v) && (0 <? Run.active_seconds_left v)
   then Ok v else Err "lease-invalid").
Proof.
  intros Hf Hs. unfold live_lease, leased, run, require_lease, same_digest. rewrite Hf. cbn [ok_or mbind result_bind].
  assert (status_eqb (Run.status v) Leased = true) as Hl by (by apply bool_decide_eq_true).
  rewrite Hl. cbn [negb orb refuse mbind result_bind]. rewrite Hl, !Z.leb_antisym.
  destruct (_ =s _), (_ =s _), (_ <? _), (_ <? _); reflexivity.
Qed.

(** ** Stopped runs *)
Inductive stops {E : Type} {EN : Entropy E} (st : state) (id : string) : state -> Prop :=
| stops_freeze l now rq (e e' : E) st' : freeze st id l now rq e = (e', Ok st') -> stops st id st'
| stops_fence l now st' : fence st id l now = Ok st' -> stops st id st'
| stops_recovered d st' : hold_recovered st id d = Ok st' -> stops st id st'.

Section Leases.
  Context {PF : Platform} {VO : Vocabulary} {E : Type} {EN : Entropy E}.
  Implicit Types (st : state) (e : E).

Lemma stops_status st id st' : stops st id st' ->
  exists v, find_run st' id = Some v /\ (Run.status v = Frozen \/ Run.status v = Held)
    /\ Run.lease_sha256 v = ""%string.
Proof.
  intros [l now rq e e' st1 H|l now st1 H|d st1 H].
  - unfold freeze in H. inv_ok.
    match goal with H : live_lease _ _ _ _ = Ok _ |- _ => apply live_lease_in in H as (Hin & <- & _) end.
    match goal with H : run_notice _ _ _ _ _ _ = _ |- _ => apply run_notice_frame in H as [Hf ->] end.
    rewrite <- (frame_runs _ _ Hf) in Hin. eexists. split; [by eapply find_replace_run|auto].
  - unfold fence, held in H. inv_ok.
    match goal with H : live_lease _ _ _ _ = Ok _ |- _ => apply live_lease_in in H as (Hin & <- & _) end.
    eexists. split; [by eapply find_replace_run|auto].
  - unfold hold_recovered, held in H. inv_ok.
    match goal with H : read_lease _ _ _ = Ok _ |- _ => apply read_lease_in in H as (Hin & <- & _) end.
    eexists. split; [by eapply find_replace_run|auto].
Qed.

(** A run that is frozen, fenced or held by the watchdog is driven by nobody:
    no lease, whatever its digest, key and instant, is accepted any more. *)
Theorem stopped_run_refuses st id st' : stops st id st' ->
  (forall l now, live_lease st' id l now = Err "run-not-running")
  /\ (forall d, read_lease st' id d = Err "run-not-running").
Proof.
  intros (v & Hf & Hs & _)%stops_status. assert (Run.status v <> Leased) by (destruct Hs; congruence).
  split; intros; [by eapply live_lease_stopped|by eapply read_lease_stopped].
Qed.

(** ** Runs a person resumed *)
Inductive resumes st (id : string) (now : Z) : state -> string -> Prop :=
| resumes_thaw used e e' st' token : thaw st id now used e = (e', Ok (st', token)) -> resumes st id now st' token
| resumes_reopen g e e' st' token :
    reopen_incident st id now g e = (e', Ok (st', token)) -> resumes st id now st' token.

Lemma human_lease_until v now e e' v' token : human_lease v now e = (e', Ok (v', token)) ->
  Run.active_seconds_left v' = Run.active_seconds_left v
  /\ (0 < Run.active_seconds_left v -> now < Run.lease_expires_at v').
Proof.
  unfold human_lease. intros H. inv_ok. subst. cbn. split; [done|]. unfold lease_until, LEASE_MARGIN_SECONDS.
  intros Ha. destruct (Z.ltb_spec 0 (Run.active_seconds_left v)); lia.
Qed.

Lemma resumes_found st id now st' token : resumes st id now st' token ->
  exists v, find_run st' id = Some v /\ Run.status v = Leased /\ Run.lease_key v = HUMAN_LEASE
    /\ Run.lease_sha256 v = lease_sha256 token
    /\ (0 < Run.active_seconds_left v -> now < Run.lease_expires_at v).
Proof.
  intros [used e e' st1 t1 H|g e e' st1 t1 H].
  - unfold thaw in H. inv_ok. subst.
    match goal with H : run _ _ = Ok ?v |- _ => apply run_in in H as (Hin & <-) end.
    match goal with H : human_lease _ _ _ = _ |- _ => pose proof (human_lease_until _ _ _ _ _ _ H) as (Ha & Hu);
      apply human_lease_ok in H as (H1' & H2' & H3' & H4' & _ & H5' & H6') end.
    eexists. split; [by eapply find_replace_run|].
    cbn. rewrite Ha. auto.
  - unfold reopen_incident in H. inv_ok. subst.
    match goal with H : incident _ _ = Ok _ |- _ => apply incident_in in H as (Hin & <- & _) end.
    match goal with H : human_lease _ _ _ = _ |- _ => pose proof (human_lease_until _ _ _ _ _ _ H) as (Ha & Hu);
      apply human_lease_ok in H as (H1' & H2' & H3' & H4' & _ & H5' & H6') end.
    match goal with |- context [replace_run st ?w] => exists w;
      assert (find_run (replace_run st w) (Run.run_id x0) = Some w) as Hf end.
    { by eapply find_replace_run. }
    split; [case_match; exact Hf|]. cbn. rewrite Ha. auto.
Qed.

(** A run a person resumed is driven only under the person's lease: any lease
    under a routine key is refused, and the resume's own token drives it at once
    while it has active time left. *)
Theorem resumed_by_person st id now st' token : resumes st id now st' token ->
  exists v, find_run st' id = Some v /\ Run.status v = Leased
    /\ (forall l t, SHA256_RE (Lease.key l) = true -> live_lease st' id l t = Err "lease-invalid")
    /\ (0 < Run.active_seconds_left v -> live_lease st' id (lease_of token HUMAN_LEASE) now = Ok v).
Proof.
  intros (v & Hf & Hs & Hk & Hd & Hu)%resumes_found. exists v. split_and!; auto.
  - intros l t Hl. rewrite (live_lease_found _ _ _ _ _ Hf Hs), Hk.
    assert ((HUMAN_LEASE =s Lease.key l) = false) as -> by (apply seqb_false; intros He; rewrite <- He in Hl; vm_compute in Hl; discriminate).
    by rewrite andb_false_r.
  - intros Ha. rewrite (live_lease_found _ _ _ _ _ Hf Hs), Hk, Hd. cbn. rewrite !seqb_refl. cbn.
    specialize (Hu Ha). by rewrite (proj2 (Z.ltb_lt _ _) Hu), (proj2 (Z.ltb_lt _ _) Ha).
Qed.

(** ** Starting *)
Lemma next_after_later r after t : next_after r after = Ok t -> after < t.
Proof. unfold next_after. intros H. case_match eqn:Hn; inv_ok. subst. by apply next_run_after in Hn as [? _]. Qed.

Lemma count_before_reaches r first limit count next :
  count_before r first limit = Ok (count, next) -> limit <= next.
Proof.
  unfold count_before. intros H. inv_ok. subst.
  match goal with H : (if _ then _ else _) = Ok _ |- _ => rename H into Hif end.
  destruct (Z.ltb_spec z0 limit); inv_ok; [|lia]. apply next_after_later in Hif. lia.
Qed.

Lemma advance_later r now r' : advance r now = Ok r' -> now < Routine.next_run_at r'.
Proof.
  unfold advance. intros H. case_match; inv_ok.
  - match goal with H : next_after _ _ = Ok _ |- _ => apply next_after_later in H end. done.
  - match goal with H : count_before _ _ _ = Ok _ |- _ => apply count_before_reaches in H end.
    case_match; [cbn; lia|]. unfold miss. case_match; cbn; lia.
Qed.

Lemma filter_leased st : segment_leased st = false -> with_status Leased st = [].
Proof.
  unfold segment_leased, with_status. induction (TeamRoutines.runs st) as [|v l IH]; [done|]. cbn.
  intros [-> H]%orb_false_iff. auto.
Qed.

Lemma find_key_app {A} (key : A -> string) l x : ~ In (key x) (map key l) ->
  find_key key (key x) (l ++ [x]) = Some x.
Proof.
  unfold find_key. induction l as [|a l IH]; cbn; [by rewrite seqb_refl|]. intros H.
  destruct (seqb_spec (key a) (key x)) as [He|]; [destruct H; auto|]. auto.
Qed.

(** C25. A claim that starts a run leases exactly that run: it is the Team's only
    leased run, its token drives it at once at the Routine's current revision
    and plan, any pending Rodar is served, and the Routine's next firing lies
    after the claim, so the same firing is never claimed twice. *)
Theorem claim_starts_one st now key long e e' st' c :
  reachable st -> claim st now key long e = (e', Ok (st', Some c)) -> fresh_claim st (Some c) ->
  with_status Leased st' = [Claim.run c]
  /\ live_lease st' (Run.run_id (Claim.run c)) (lease_of (Claim.lease_token c) key) now = Ok (Claim.run c)
  /\ exists r, find_routine st' (Run.routine_id (Claim.run c)) = Some r
       /\ Claim.revision c = Routine.revision r /\ Claim.plan_digest c = digest (Routine.plan r)
       /\ Routine.run_requested r = 0 /\ now < Routine.next_run_at r.
Proof.
  intros HI%reachable_inv H Hfresh.
  destruct (claim_Some _ _ _ _ _ _ _ _ HI H)
    as (swept & due & st1 & r1 & e1 & _ & Hf & Hcl & Hf1 & Hc1 & Hcore & Hkey & Hl & Hq & Hcase).
  destruct (claimable_in _ _ _ _ Hcl) as (Hin & _ & Hseg & _).
  pose proof (Inv_frame _ _ Hf HI) as HIs. pose proof (run_units_bound _ _ HIs Hin) as Hu.
  pose proof (transitivity Hf Hf1) as Hf2. pose proof (find_routine_lease _ _ _ _ _ _ _ _ Hc1 Hl) as Hfind.
  destruct (lease_Ok _ _ _ _ _ _ _ _ Hl) as (-> & Hrid & Hs & Hd & Hk & Hexp & Hact & Hrev & Hcrev & Hdig & _).
  assert (TeamRoutines.runs (replace_routine (st1
      <| TeamRoutines.starts := started (TeamRoutines.starts st1) (Routine.routine_id r1) now (run_units r1) |>
      <| TeamRoutines.served_at := now |> <| TeamRoutines.runs := TeamRoutines.runs st1 ++ [Claim.run c] |>) r1)
    = TeamRoutines.runs st ++ [Claim.run c]) as Hruns by (cbn; by rewrite (frame_runs _ _ Hf2)).
  split_and!.
  - unfold with_status. rewrite Hruns, List.filter_app. cbn.
    apply filter_leased in Hseg. unfold with_status in Hseg.
    rewrite (frame_runs _ _ Hf) in Hseg. rewrite Hseg. unfold status_eqb. by rewrite bool_decide_true.
  - assert (find_run (replace_routine (st1
      <| TeamRoutines.starts := started (TeamRoutines.starts st1) (Routine.routine_id r1) now (run_units r1) |>
      <| TeamRoutines.served_at := now |> <| TeamRoutines.runs := TeamRoutines.runs st1 ++ [Claim.run c] |>) r1)
      (Run.run_id (Claim.run c)) = Some (Claim.run c)) as Hfr.
    { unfold find_run. rewrite Hruns. by apply find_key_app. }
    rewrite (live_lease_found _ _ _ _ _ Hfr Hs), Hd, Hk, Hexp, Hact. cbn [lease_of Lease.sha256 Lease.key].
    rewrite !seqb_refl. rewrite (core_units _ _ Hcore).
    assert ((now <? now + LEASE_SECONDS) = true) as -> by (unfold LEASE_SECONDS, START_LEASE_SECONDS; lia).
    assert ((0 <? active_seconds (run_units due)) = true) as ->; [|done].
    unfold active_seconds, MAX_ACTIVE_SECONDS, i64_sat, i64_min, i64_max. lia.
  - exists r1. rewrite Hrid. split_and!; auto.
    destruct Hcase as [(_ & Hlt & _ & ->)|(adv & Hadv & -> & _)]; [done|]. by eapply advance_later.
Qed.
End Leases.

(** ** On the sample Team *)
Lemma claim_starts_one_witness :
  with_status Leased claimed = [Claim.run the_claim]
  /\ live_lease claimed (Run.run_id (Claim.run the_claim))
       (@lease_of utc_platform (Claim.lease_token the_claim) key_a) 1767259800 = Ok (Claim.run the_claim)
  /\ exists r, find_routine claimed (Run.routine_id (Claim.run the_claim)) = Some r
       /\ Claim.revision the_claim = Routine.revision r
       /\ Claim.plan_digest the_claim = @digest utc_platform (Routine.plan r)
       /\ Routine.run_requested r = 0 /\ 1767259800 < Routine.next_run_at r.
Proof.
  apply (@claim_starts_one utc_platform plain_vocabulary tape tape_entropy created 1767259800 key_a true
    (tape_of ["t"; "r"]%char) [] claimed the_claim).
  - apply created_reached.
  - vm_compute. reflexivity.
  - vm_compute. intros [].
Defined.

Definition sample_request : Request.Request := Request.mk "human" "stock" "stock.lookup" 1.
Definition frozen : state :=
  get_state (@freeze tape tape_entropy claimed claimed_id claimed_lease 1767259900 sample_request [])
    no_routines.
Definition thawed : state * string :=
  get_state (@thaw utc_platform tape tape_entropy frozen claimed_id 1767260000 1 (tape_of ["h"%char]))
    (no_routines, ""%string).

Lemma stopped_run_refuses_witness :
  (forall l now, live_lease frozen claimed_id l now = Err "run-not-running")
  /\ (forall d, read_lease frozen claimed_id d = Err "run-not-running").
Proof.
  apply (@stopped_run_refuses tape tape_entropy claimed claimed_id frozen).
  eapply (stops_freeze claimed claimed_id claimed_lease 1767259900 sample_request [] []).
  vm_compute. reflexivity.
Defined.

Lemma resumed_by_person_witness :
  exists v, find_run (fst thawed) claimed_id = Some v /\ Run.status v = Leased
    /\ (forall l t, SHA256_RE (Lease.key l) = true -> live_lease (fst thawed) claimed_id l t = Err "lease-invalid")
    /\ (0 < Run.active_seconds_left v ->
        live_lease (fst thawed) claimed_id (@lease_of utc_platform (snd thawed) HUMAN_LEASE) 1767260000 = Ok v).
Proof.
  apply (@resumed_by_person utc_platform tape tape_entropy frozen claimed_id 1767260000 (fst thawed) (snd thawed)).
  eapply (resumes_thaw frozen claimed_id 1767260000 1 (tape_of ["h"%char]) []). vm_compute. reflexivity.
Defined.
