(* ===== verification/Selection.v ===== *)
(** * Which Routine runs next

    [claim::claimable] and [claim::next_due]: the choice is exactly the oldest
    due Routine whose start fits, and a worker that waits until [next_due] finds
    a claim there and none before. *)

From stdpp Require Import base tactics list strings pretty relations.
From Stdlib Require Import ZArith Lia Ascii.
From S2P Require Import Prelude Text Json Calendar Platform Wire Schedule Dates Starts Plans Team Definitions Define Claims Runs Holds Frames Invariants Samples Reachable Leases.

#[local] Open Scope Z_scope.
#[local] Abbreviation state := TeamRoutines.TeamRoutines.

(** ** The order on due Routines *)
Lemma due_before_asym a b : due_before a b = true -> due_before b a = false.
Proof.
  unfold due_before. intros [H|[H Hs]%andb_true_iff]%orb_true_iff; apply orb_false_iff; split; try lia.
  apply andb_false_iff. right. by apply sltb_asym.
Qed.

Lemma due_before_trans a b c : due_before b a = false -> due_before c b = false -> due_before c a = false.
Proof.
  unfold due_before. rewrite !orb_false_iff, !andb_false_iff. intros [H1 H2] [H3 H4]. split; [lia|].
  destruct (Z.eq_dec (due_at c) (due_at a)) as [He|]; [right|left; lia].
  destruct H2 as [?|H2]; [lia|]. destruct H4 as [?|H4]; [lia|].
  destruct (sltb (Routine.routine_id c) (Routine.routine_id a)) eqn:Hca; [|done].
  destruct (sltb (Routine.routine_id a) (Routine.routine_id b)) eqn:Hab.
  - by rewrite (sltb_trans _ _ _ Hca Hab) in H4.
  - apply (sltb_total _ _ H2) in Hab. congruence.
Qed.

Lemma oldest_first l r : oldest l = Some r -> forall x, In x l -> due_before x r = false.
Proof.
  induction l as [|a l IH] in r |- *; cbn; [done|].
  assert (due_before a a = false) as Hirr.
  { destruct (due_before a a) eqn:H; [|done]. by rewrite (due_before_asym _ _ H) in H. }
  destruct (oldest l) as [b|] eqn:Ho.
  - specialize (IH b eq_refl). destruct (due_before b a) eqn:Hba; intros [= <-] x [->|Hx]; auto.
    + by apply due_before_asym.
    + eapply due_before_trans; [exact Hba|]. auto.
  - intros [= <-] x [->|Hx]; [done|]. destruct l as [|y l]; [done|]. cbn in Ho. by repeat case_match.
Qed.

Lemma oldest_None l : oldest l = None <-> l = [].
Proof. destruct l as [|a l]; cbn; [done|]. split; [|done]. by repeat case_match. Qed.

Lemma least_spec l : match least l with
  | Some t => In t l /\ forall x, In x l -> t <= x
  | None => l = []
  end.
Proof.
  induction l as [|a l IH]; cbn; [done|]. destruct (least l) as [b|].
  - destruct IH as [Hin Hle]. split; [|intros x [->|Hx%Hle]; lia].
    destruct (Z.min_spec a b) as [[_ ->]|[_ ->]]; auto.
  - subst l. split; [by left|]. by intros x [->|[]].
Qed.

(** ** Eligible Routines *)
Section Selection.
  Context {PF : Platform} {VO : Vocabulary} {E : Type} {EN : Entropy E}.
  Implicit Types (st : state) (r : Routine.Routine) (long : bool).
  #[local] Abbreviation reachable := (@reachable PF VO E EN).

(** A confirmed, standing Routine that no run holds. *)
Definition standing st long r : Prop :=
  In r (TeamRoutines.routines st) /\ Routine.needs_reconfirm r = false /\ Routine.deleting r = false
  /\ Routine.paused r = false
  /\ (forall v, In v (TeamRoutines.runs st) -> holding v = true -> Run.routine_id v <> Routine.routine_id r)
  /\ (long = true \/ long_run (run_units r) = false).

Definition own_cap r : option Z := if continuous r then Some (daily_cap (Routine.schedule r)) else None.

(** Standing, due, and with room for its start in the last 24 hours. *)
Definition eligible st now long r : Prop :=
  standing st long r /\ due_at r <= now
  /\ fits (TeamRoutines.starts st) (Routine.routine_id r) (own_cap r) (run_units r) now.

Lemma not_busy_iff st id : contains (busy st) id = false <->
  (forall v, In v (TeamRoutines.runs st) -> holding v = true -> Run.routine_id v <> id).
Proof.
  split; [apply not_busy|]. intros H. destruct (contains (busy st) id) eqn:Hb; [|done].
  apply contains_In, in_app_or in Hb as [Hb|Hb]; apply in_map_iff in Hb as (v & He & Hv);
    apply filter_In in Hv as [Hv Hs]; destruct (H v Hv); try done; unfold holding; rewrite Hs; auto using orb_true_r.
Qed.

Lemma ready_standing st long r : In r (ready st (busy st) long) <-> standing st long r.
Proof.
  unfold ready, standing. rewrite filter_In, !andb_true_iff, orb_true_iff, !negb_true_iff, not_busy_iff. tauto.
Qed.

Lemma reachable_starts st : reachable st -> steps_nonneg (TeamRoutines.starts st).
Proof.
  unfold Reachable.reachable. intros H. pattern st. revert st H. apply rtc_ind_r; [constructor|].
  intros st st' Hr Hs IH.
  pose proof (reachable_Inv _ Hr) as HI. destruct Hs as [st st' Hc|st now key long e e' st' [c|] Hc _].
  - by rewrite (calm_starts _ _ HI Hc).
  - destruct (claim_Some _ _ _ _ _ _ _ _ HI Hc)
      as (swept & due & st1 & r1 & e1 & _ & Hf & Hcl & Hf1 & Hc1 & Hcore & Hkey & Hl & _).
    destruct (lease_Ok _ _ _ _ _ _ _ _ Hl) as (-> & _). cbn.
    rewrite (frame_starts _ _ Hf1), (frame_starts _ _ Hf). apply List.Forall_app. split.
    + by apply steps_nonneg_window.
    + repeat constructor. cbn. unfold run_units. apply len_nonneg.
  - by rewrite (frame_starts _ _ (claim_None _ _ _ _ _ _ _ HI Hc)).
Qed.

(** A Routine's free instant, seen from any instant, is when its start fits. *)
Lemma free_iff_fits st r now u : reachable st -> In r (TeamRoutines.routines st) -> now <= u ->
  (routine_free_at st r now <= u
   <-> fits (TeamRoutines.starts st) (Routine.routine_id r) (own_cap r) (run_units r) u).
Proof.
  intros Hr Hin Hle. pose proof (reachable_inv _ Hr) as HI. pose proof (reachable_starts _ Hr) as Hn.
  pose proof (run_units_bound _ _ HI Hin) as Hu. change MAX_STEPS with 256 in Hu.
  pose proof (inv_routines _ HI) as Hok. eapply List.Forall_forall in Hok; [|exact Hin].
  unfold routine_free_at. fold (own_cap r).
  destruct (free_at_spec (TeamRoutines.starts st) (Routine.routine_id r) (own_cap r) now (run_units r))
    as (H1 & H2 & H3); [done|change MAX_DAILY_STEPS with 20000; lia| |].
  { unfold own_cap. intros c Hc. case_match; simplify_eq. by apply routine_ok_daily. }
  set (t := free_at _ _ _ _ _) in *. split.
  - intros Htu. destruct H2 as [Hs Hc]. split.
    + pose proof (used_at_mono _ _ _ Hn Htu). lia.
    + destruct (own_cap r); [|done]. pose proof (own_at_mono (TeamRoutines.starts st) (Routine.routine_id r) _ _ Htu). lia.
  - intros Hf. destruct (Z.le_gt_cases t u); [done|]. by destruct (H3 u).
Qed.

Lemma claimable_eligible st now long r : reachable st ->
  In r (List.filter (fun item => (due_at item <=? now) && (routine_free_at st item now <=? now))
          (ready st (busy st) long)) <-> eligible st now long r.
Proof.
  intros Hr. rewrite filter_In, ready_standing. unfold eligible. split.
  - intros [Hs [Hd Hf]%andb_true_iff]. split_and!; [done|lia|]. apply (free_iff_fits _ _ now); [done|apply Hs|lia..].
  - intros (Hs & Hd & Hf). split; [done|]. apply andb_true_iff.
    apply (free_iff_fits _ _ now) in Hf; [lia|done|apply Hs|lia].
Qed.

Lemma claimable_iff st now long : reachable st -> backpressured st = false -> segment_leased st = false ->
  is_Some (claimable st now long) <-> exists r, eligible st now long r.
Proof.
  intros Hr Hb Hs. unfold claimable. rewrite Hb, Hs. cbn [orb]. set (l := List.filter _ _).
  destruct (oldest l) as [r|] eqn:Ho.
  - split; [|eauto]. intros _. exists r. apply oldest_in in Ho. by apply claimable_eligible.
  - split; [by intros []|]. intros [r Hel%claimable_eligible]; [|done]. fold l in Hel.
    apply oldest_None in Ho. by rewrite Ho in Hel.
Qed.

(** With room for a run, a claim takes an eligible Routine whenever there is one,
    and it is the one due longest (by id among equals); without, it takes none. *)
Theorem claimable_oldest st now long : reachable st ->
  match claimable st now long with
  | Some r => backpressured st = false /\ segment_leased st = false /\ eligible st now long r
              /\ forall other, eligible st now long other -> due_before other r = false
  | None => backpressured st = true \/ segment_leased st = true \/ forall r, ~ eligible st now long r
  end.
Proof.
  intros Hr. destruct (claimable st now long) as [r|] eqn:Hc.
  - destruct (claimable_in _ _ _ _ Hc) as (_ & Hb & Hs & _). unfold claimable in Hc. rewrite Hb, Hs in Hc.
    split_and!; auto.
    + apply claimable_eligible; [done|]. by apply oldest_in.
    + intros other Hel%claimable_eligible; [|done]. by eapply oldest_first in Hel.
  - destruct (backpressured st) eqn:Hb; [auto|]. destruct (segment_leased st) eqn:Hs; [auto|].
    do 2 right. intros r Hel. assert (is_Some (claimable st now long)) as [? ?] by (apply claimable_iff; eauto).
    congruence.
Qed.

(** C26. When nothing is claimable, [next_due] is exactly the instant from which
    something will be, the Team unchanged: waiting until it loses no run, and
    without one no wait makes anything claimable. *)
Theorem next_due_wakes st now u : reachable st -> claimable st now true = None -> now <= u ->
  is_Some (claimable st u true) <-> exists t, next_due st now = Some t /\ t <= u.
Proof.
  intros Hr Hc Hle. unfold next_due. destruct (backpressured st || segment_leased st) eqn:Hbs.
  { unfold claimable. rewrite Hbs. split; [by intros []|by intros (? & ? & _)]. }
  apply orb_false_iff in Hbs as [Hb Hs]. rewrite (claimable_iff st u) by done.
  assert (forall r, ~ eligible st now true r) as Hnone.
  { intros r Hel. enough (is_Some (claimable st now true)) as [? ?] by congruence. apply claimable_iff; eauto. }
  set (wake := fun item => Z.max (due_at item) (routine_free_at st item now)).
  assert (forall r, standing st true r -> (wake r <= u <-> eligible st u true r)) as Hwake.
  { intros r Hst. unfold wake, eligible. rewrite <- (free_iff_fits _ _ now u) by (done || apply Hst). split.
    - intros. split_and!; [done|lia|lia].
    - intros (_ & ? & ?). lia. }
  pose proof (least_spec (List.filter (fun due => now <? due) (map wake (ready st (busy st) true)))) as Hl.
  split.
  - intros [r Hel]. pose proof Hel as (Hst & _). pose proof (proj2 (Hwake r Hst) Hel) as Hw.
    assert (In (wake r) (List.filter (fun due => now <? due) (map wake (ready st (busy st) true)))) as Hin.
    { apply filter_In. split; [by apply in_map, ready_standing|]. apply Z.ltb_lt.
      destruct (Z.le_gt_cases (wake r) now) as [Hwn|]; [|done]. destruct (Hnone r). unfold eligible, wake in *.
      split_and!; [done|lia|]. apply (free_iff_fits _ _ now); [done|apply Hst|lia..]. }
    case_match eqn:Hlv; [|by rewrite Hl in Hin]. destruct Hl as [_ Hl]. apply Hl in Hin. eauto with lia.
  - intros (t & Ht & Htu). rewrite Ht in Hl. destruct Hl as [Hin _]. apply filter_In in Hin as [Hin _].
    apply in_map_iff in Hin as (r & <- & Hst%ready_standing). exists r. by apply Hwake.
Qed.
End Selection.

(** ** On the sample Team: due at 09:30 *)
Lemma claimable_oldest_witness :
  exists r, claimable created 1767259800 true = Some r
    /\ forall other, eligible created 1767259800 true other -> due_before other r = false.
Proof.
  pose proof (@claimable_oldest utc_platform plain_vocabulary tape tape_entropy created 1767259800 true
    created_reached) as H.
  destruct (claimable created 1767259800 true) as [r|] eqn:Hc; [|vm_compute in Hc; discriminate Hc].
  exists r. split; [reflexivity|apply H].
Defined.

Lemma next_due_wakes_witness :
  is_Some (claimable created 1767259800 true)
  <-> exists t, next_due created 1767225600 = Some t /\ t <= 1767259800.
Proof.
  apply (@next_due_wakes utc_platform plain_vocabulary tape tape_entropy created 1767225600 1767259800).
  - apply created_reached.
  - vm_compute. reflexivity.
  - lia.
Defined.

(** * Missed firings

    What a sweep does to each Routine, and what [count_before] counts: the
    firings of the schedule itself, each once, up to the bound. *)

Section Sweeps.
  Context {PF : Platform} {VO : Vocabulary} {E : Type} {EN : Entropy E}.
  Implicit Types (st : state) (r : Routine.Routine).

(** [fired r first n t]: [t] is the [n]-th firing from [first] on. *)
Inductive fired r (first : Z) : nat -> Z -> Prop :=
| fired_first : fired r first 0 first
| fired_next n t u : fired r first n t -> next_after r t = Ok u -> fired r first (S n) u.

(** The loop's own account: it counted every firing before the limit, and no other. *)
Definition counted r (first limit : Z) (n : nat) (t : Z) : Prop :=
  fired r first n t /\ (forall m u, (m < n)%nat -> fired r first m u -> u < limit).

Lemma fired_fun r first n t u : fired r first n t -> fired r first n u -> t = u.
Proof.
  revert t u. induction n as [|n IH]; intros t u Ht Hu; inversion Ht; inversion Hu; subst; [done|].
  assert (t0 = t1) as -> by eauto. congruence.
Qed.

Lemma counted_step r first limit n t u :
  counted r first limit n t -> t < limit -> next_after r t = Ok u -> counted r first limit (S n) u.
Proof.
  intros [Hf Hb] Hlt Hn. split; [by eapply fired_next|]. intros m w Hm Hw.
  destruct (decide (m = n)) as [->|]; [|apply (Hb m); [lia|done]]. by rewrite (fired_fun _ _ _ _ _ Hw Hf).
Qed.

Lemma count_loop_spec turns r first limit n t count current :
  counted r first limit n t -> count_loop turns r (Z.of_nat n) t limit = Ok (count, current) ->
  exists m, count = Z.of_nat m /\ counted r first limit m current
    /\ (m <= n + turns)%nat /\ (limit <= current \/ m = (n + turns)%nat).
Proof.
  revert n t. induction turns as [|turns IH]; intros n t Hc; cbn [count_loop]; intros H.
  - inv_ok. subst. exists n. split_and!; auto with lia.
  - destruct (Z.ltb_spec t limit) as [Hlt|Hge].
    + inv_ok. match goal with H : next_after r t = Ok _ |- _ => rename H into Hn end.
      replace (Z.of_nat n + 1) with (Z.of_nat (S n)) in H by lia.
      apply IH in H as (m & -> & Hm & Hle & Hor); [|by eapply counted_step]. exists m. split_and!; auto; lia.
    + inv_ok. subst. exists n. split_and!; auto. lia.
Qed.

(** [count_before] counts exactly the schedule's firings from [first] that lie
    before the limit, up to [MAX_COUNTED_MISSES], and returns the first firing
    at or after it; past the bound, the first firing from the limit on. *)
Theorem count_before_exact r first limit count next :
  count_before r first limit = Ok (count, next) ->
  limit <= next /\ exists n t, count = Z.of_nat n /\ counted r first limit n t /\ count <= MAX_COUNTED_MISSES
    /\ (if t <? limit then count = MAX_COUNTED_MISSES /\ next_after r (limit - 1) = Ok next else next = t).
Proof.
  intros H. split; [by eapply count_before_reaches|]. unfold count_before in H. inv_ok. subst.
  match goal with H : count_loop _ _ _ _ _ = _ |- _ => rename H into Hl end.
  change 0 with (Z.of_nat 0) in Hl. eapply count_loop_spec in Hl as (n & -> & Hc & Hle & Hor).
  2: { split; [constructor|lia]. }
  match goal with H : (if ?t <? limit then _ else _) = Ok _ |- _ => exists n, t; rename H into Hif end.
  split_and!; [done|done| |].
  - unfold MAX_COUNTED_MISSES in *. lia.
  - case_match; inv_ok; [|congruence]. split; [|done]. unfold MAX_COUNTED_MISSES in *. destruct Hor as [?|Hn]; lia.
Qed.

(** ** What a sweep leaves of a Routine *)
Definition swept (now : Z) r r' : Prop :=
  core r' = core r
  /\ if continuous r then r' = r
     else now - grace_seconds r <= Routine.next_run_at r'
          /\ (now - grace_seconds r <= Routine.next_run_at r ->
              Routine.next_run_at r' = Routine.next_run_at r /\ Routine.missed r' = Routine.missed r)
          /\ Routine.missed r <= Routine.missed r'.

Lemma find_replace_routine_ne st x id : id <> Routine.routine_id x ->
  find_routine (replace_routine st x) id = find_routine st id.
Proof. intros H. apply (find_replace_key_ne Routine.routine_id). congruence. Qed.

Lemma report_gap_others st r now b st' id : report_gap st r now b = Ok st' -> id <> Routine.routine_id r ->
  find_routine st' id = find_routine st id.
Proof.
  unfold report_gap. intros H Hne. do 2 (case_match; [by simplify_eq|]). inv_ok.
  rewrite find_replace_routine_ne by done. unfold find_routine.
  match goal with H : put_notice _ _ = Ok _ |- _ => by rewrite (put_notice_routines _ _ _ H) end.
Qed.

Lemma count_before_nonneg r first limit count next : count_before r first limit = Ok (count, next) -> 0 <= count.
Proof.
  unfold count_before. intros H. inv_ok. subst.
  match goal with H : count_loop _ _ _ _ _ = _ |- _ => rename H into Hl end.
  change 0 with (Z.of_nat 0) in Hl. eapply count_loop_spec in Hl as (n & -> & _); [lia|]. split; [constructor|lia].
Qed.

Lemma sweep_item_swept st item now st' : find_routine st (Routine.routine_id item) = Some item ->
  sweep_item st item now = Ok st' ->
  (forall id, id <> Routine.routine_id item -> find_routine st' id = find_routine st id)
  /\ exists r', find_routine st' (Routine.routine_id item) = Some r' /\ swept now item r'.
Proof.
  intros Hf. unfold sweep_item, swept. destruct (continuous item) eqn:Hc; [intros [= <-]; eauto|]. intros H. inv_ok.
  match goal with H : (if _ then _ else _) = Ok _ |- _ => rename H into Hif end. case_match eqn:Hlate; inv_ok.
  - match goal with H : count_before _ _ _ = Ok _ |- _ => pose proof (count_before_nonneg _ _ _ _ _ H);
      apply count_before_reaches in H as Hreach end.
    match goal with H : report_gap _ ?i _ _ = Ok _ |- _ => set (m := i) in *; rename H into Hgap end.
    assert (core m = core item) as Hm by apply miss_core.
    assert (find_routine (replace_routine st m) (Routine.routine_id m) = Some m) as Hfm.
    { apply (find_replace_key_eq Routine.routine_id), find_key_is_Some. rewrite (core_id _ _ Hm). eauto. }
    destruct (report_gap_found _ _ _ _ _ Hgap Hfm) as [n Hn]. rewrite (core_id _ _ Hm) in Hn. split.
    + intros id Hne. rewrite <- (core_id _ _ Hm) in Hne.
      by rewrite (report_gap_others _ _ _ _ _ _ Hgap Hne), find_replace_routine_ne.
    + eexists. split; [exact Hn|]. split; [exact Hm|]. cbn. unfold m, miss. case_match; cbn; lia.
  - destruct (report_gap_found _ _ _ _ _ H Hf) as [n Hn]. split; [intros; by eapply report_gap_others|].
    eexists. split; [exact Hn|]. split; [done|]. cbn. lia.
Qed.

Lemma sweep_items_swept items st now st' :
  List.NoDup (map Routine.routine_id items) ->
  (forall item, In item items -> find_routine st (Routine.routine_id item) = Some item) ->
  sweep_items st items now = Ok st' ->
  (forall id, ~ In id (map Routine.routine_id items) -> find_routine st' id = find_routine st id)
  /\ (forall item, In item items -> exists r', find_routine st' (Routine.routine_id item) = Some r' /\ swept now item r').
Proof.
  revert st. induction items as [|item items IH]; intros st Hnd Hf; cbn [sweep_items]; intros H; inv_ok; [split; [done|intros ? []]|].
  inversion_clear Hnd as [|? ? Hni Hnd'].
  match goal with H : sweep_item _ _ _ = Ok _ |- _ => apply sweep_item_swept in H as [Hoth Hself]; [|apply Hf; by left] end.
  apply IH in H as [Hrest Hitems]; [|done|].
  2: { intros i Hi. rewrite Hoth; [apply Hf; by right|]. intros He. apply Hni. rewrite <- He. by apply in_map. }
  split.
  - intros id Hid. cbn in Hid. rewrite Hrest, Hoth; naive_solver.
  - intros i [<-|Hi]; [|by apply Hitems]. destruct Hself as (r' & Hr & Hs). exists r'. split; [|done].
    by rewrite Hrest.
Qed.

(** After a sweep every Routine's next firing can still start on time, nothing
    that could start is skipped, missed firings only add up, continuous
    Routines are untouched and no definition changes. *)
Theorem sweep_catches_up st now st' r' : @reachable PF VO E EN st -> sweep st now = Ok st' ->
  In r' (TeamRoutines.routines st') ->
  exists r, find_routine st (Routine.routine_id r') = Some r /\ swept now r r'.
Proof.
  intros HI%reachable_inv H Hin. pose proof (sweep_frame _ _ _ (inv_ids _ HI) H) as Hfr.
  pose proof (Inv_frame _ _ Hfr HI) as HI'. pose proof (find_routine_of _ _ HI' Hin) as Hf'.
  destruct (in_core _ (TeamRoutines.routines st) r' (eq_sym (frame_cores _ _ Hfr)) Hin) as (r & Hr & Hcore).
  apply sweep_items_swept in H as [_ Hall]; [|apply (inv_ids _ HI)|intros; by apply find_routine_of].
  destruct (Hall r Hr) as (r1 & Hr1 & Hs). rewrite (core_id _ _ Hcore), Hf' in Hr1. injection Hr1 as <-.
  exists r. split; [|done]. rewrite <- (core_id _ _ Hcore). by apply find_routine_of.
Qed.
End Sweeps.

(** ** On the sample Team *)
Lemma count_before_exact_witness :
  1767700000 <= 1767778200 /\ exists n t, 6 = Z.of_nat n
    /\ @counted utc_platform sample_routine 1767259800 1767700000 n t /\ 6 <= MAX_COUNTED_MISSES
    /\ (if t <? 1767700000 then 6 = MAX_COUNTED_MISSES
          /\ @next_after utc_platform sample_routine (1767700000 - 1) = Ok 1767778200 else 1767778200 = t).
Proof.
  apply (@count_before_exact utc_platform sample_routine 1767259800 1767700000 6 1767778200).
  vm_compute. reflexivity.
Defined.

Definition swept_sample : state :=
  match @sweep utc_platform created 1767700000 with Ok st => st | Err _ => no_routines end.
Definition swept_routine : Routine.Routine := default sample_routine (head (TeamRoutines.routines swept_sample)).

Lemma sweep_catches_up_witness :
  exists r, find_routine created (Routine.routine_id swept_routine) = Some r /\ swept 1767700000 r swept_routine.
Proof.
  apply (@sweep_catches_up utc_platform plain_vocabulary tape tape_entropy created 1767700000 swept_sample swept_routine).
  - apply created_reached.
  - vm_compute. reflexivity.
  - vm_compute. auto.
Defined.
