(* ===== verification/Lifecycle.v ===== *)
(** * The life of a run record

    One step relation on run statuses, and that every transition of a Team
    follows it: a run is only ended from a lease, a freeze or a settled skip, so
    a held run or an unresolved incident is never lost. *)

From stdpp Require Import base tactics list strings pretty relations.
From Stdlib Require Import ZArith Lia Ascii.
From S2P Require Import Prelude Text Json Calendar Platform Wire Schedule Dates Starts Plans Team Definitions Define Claims Runs Holds Frames Invariants Samples Reachable Leases.

#[local] Open Scope Z_scope.
#[local] Abbreviation state := TeamRoutines.TeamRoutines.

Inductive status_step : RunStatus -> RunStatus -> Prop :=
| status_same s : status_step s s
| status_freeze : status_step Leased Frozen
| status_fence : status_step Leased Held
| status_thaw : status_step Frozen Leased
| status_settle : status_step Held Unresolved
| status_set_aside : status_step Held Skipped
| status_reopen : status_step Unresolved Leased
| status_skip : status_step Unresolved Skipped.

Definition may_end (s : RunStatus) : Prop := s = Leased \/ s = Frozen \/ s = Skipped.

(** ** What a transition does to the run records *)
Inductive run_effect (l : list Run.Run) : list Run.Run -> Prop :=
| effect_none : run_effect l l
| effect_move u w : In u l -> Run.run_id w = Run.run_id u -> Run.routine_id w = Run.routine_id u ->
    Run.revision w = Run.revision u -> status_step (Run.status u) (Run.status w) ->
    run_effect l (replace_key Run.run_id w l)
| effect_end u : In u l -> may_end (Run.status u) -> run_effect l (drop_key Run.run_id (Run.run_id u) l)
| effect_start w : Run.status w = Leased -> run_effect l (l ++ [w]).

Create HintDb runs.
#[export] Hint Constructors status_step run_effect : runs.
#[export] Hint Unfold may_end : runs.

Lemma effect_run l l' v : List.NoDup (map Run.run_id l) -> run_effect l l' -> In v l ->
  (exists v', find_key Run.run_id (Run.run_id v) l' = Some v' /\ Run.routine_id v' = Run.routine_id v
     /\ Run.revision v' = Run.revision v /\ status_step (Run.status v) (Run.status v'))
  \/ (find_key Run.run_id (Run.run_id v) l' = None /\ may_end (Run.status v)).
Proof.
  intros Hnd He Hin. pose proof (in_find_key Run.run_id l v Hnd Hin) as Hf. destruct He as [|u w Hu Hid Hr Hrev Hs|u Hu Hm|w Hw].
  - left. exists v. auto with runs.
  - left. destruct (decide (Run.run_id v = Run.run_id w)) as [Heq|Hne].
    + exists w. rewrite Heq. assert (u = v) as ->.
      { pose proof (in_find_key Run.run_id l u Hnd Hu). rewrite <- Hid, <- Heq in H. congruence. }
      split_and!; auto. apply find_replace_key_eq. rewrite Hid. by apply in_map.
    + exists v. rewrite find_replace_key_ne by congruence. auto with runs.
  - destruct (decide (Run.run_id v = Run.run_id u)) as [Heq|Hne]; [right|left].
    + assert (u = v) as ->.
      { pose proof (in_find_key Run.run_id l u Hnd Hu). rewrite <- Heq in H. congruence. }
      split; [|done]. apply find_key_None, drop_key_absent.
    + exists v. rewrite find_drop_key_ne by done. auto with runs.
  - left. exists v. split; [|auto with runs]. revert Hf. unfold find_key. clear. induction l as [|a l IH]; cbn; [done|].
    destruct (_ =s _); auto.
Qed.

Lemma replace_key_twice {A} (key : A -> string) x y l : key x = key y ->
  replace_key key y (replace_key key x l) = replace_key key y l.
Proof.
  intros He. unfold replace_key. rewrite He. induction l as [|a l IH]; cbn; [done|].
  destruct (key a =s key y) eqn:Hk; cbn; rewrite ?He, ?seqb_refl, ?Hk; [done|]. by rewrite IH.
Qed.

Section Lifecycle.
  Context {PF : Platform} {VO : Vocabulary} {E : Type} {EN : Entropy E}.
  Implicit Types (st : state) (e : E).

#[local] Abbreviation runs := TeamRoutines.runs.

Lemma without_run_effect st id now st' v : without_run st id now = Ok st' -> find_run st id = Some v ->
  may_end (Run.status v) -> run_effect (runs st) (runs st').
Proof.
  unfold without_run. intros H Hf Hm. inv_ok. apply find_run_Some in Hf as [Hin <-]. by apply effect_end.
Qed.

Lemma find_run_in st v : Inv st -> In v (runs st) -> find_run st (Run.run_id v) = Some v.
Proof. intros HI Hin. by apply (in_find_key Run.run_id), Hin; apply (inv_run_ids _ HI). Qed.

Lemma completed_run_effect st v now shown e e' st' : Inv st -> In v (runs st) -> Run.status v = Leased ->
  completed_run st v now shown e = (e', Ok st') -> run_effect (runs st) (runs st').
Proof.
  intros HI Hin Hs H. unfold completed_run in H. inv_ok.
  match goal with H : completion _ _ _ _ _ _ = _ |- _ => apply completion_frame in H as Hf end.
  rewrite <- (frame_runs _ _ Hf) in *. eapply without_run_effect; [eassumption| |by left].
  apply find_run_in; [by eapply Inv_frame|done].
Qed.

Lemma held_effect st v st' : held st v = Ok st' -> In v (runs st) -> Run.status v = Leased ->
  run_effect (runs st) (runs st').
Proof. unfold held. intros H Hin Hs. inv_ok. apply (effect_move _ v); try done. rewrite Hs. constructor. Qed.

Lemma skip_effect st id now x e e' st' : skip_incident st id now x e = (e', Ok st') ->
  exists u w, In u (runs st) /\ Run.run_id u = id /\ Run.status u = Unresolved /\ Run.run_id w = id
    /\ Run.routine_id w = Run.routine_id u /\ Run.revision w = Run.revision u /\ Run.status w = Skipped
    /\ runs st' = replace_key Run.run_id w (runs st).
Proof.
  unfold skip_incident. intros H. inv_ok.
  match goal with H : incident _ _ = Ok _ |- _ => apply incident_in in H as (Hin & Hid & Hl) end.
  match goal with H : require_unresolved _ = Ok _ |- _ => apply unresolved_status in H as Hs end.
  match goal with H : run_notice _ _ _ _ _ _ = _ |- _ => apply run_notice_frame in H as [Hf ->] end.
  match goal with Hs : Run.status ?u = _ |- context [replace_run _ ?w] => exists u, w end.
  split_and!; try done. cbn. by rewrite (frame_runs _ _ Hf).
Qed.

Lemma settle_effect st id now s e e' st' : Inv st -> settle_hold st id now s e = (e', Ok st') ->
  run_effect (runs st) (runs st').
Proof.
  unfold settle_hold. intros HI H. destruct s as [[[a x3] p] n]. inv_ok.
  match goal with H : run _ _ = Ok _ |- _ => apply run_in in H as (Hin & Hid) end.
  match goal with H : status_eqb _ _ = true |- _ => apply bool_decide_eq_true in H as Hs end.
  match goal with H : run_notice _ _ _ _ _ _ = _ |- _ => apply run_notice_frame in H as [Hf ->] end.
  case_match; inv_ok.
  - match goal with H : skip_incident _ _ _ _ _ = _ |- _ =>
      apply skip_effect in H as (u & w & Hu & Huid & Hus & Hw & Hwr & Hwv & Hws & ->) end.
    cbn in Hu. cbn. rewrite (frame_runs _ _ Hf) in *.
    match goal with |- context [update_first ?p ?f ?l] => change (update_first p f l) with (replace_key Run.run_id w l) end.
    rewrite replace_key_twice by (cbn; congruence).
    pose proof (in_map Run.run_id _ _ Hin) as Hk. rewrite Hid in Hk.
    apply in_replace_key_iff in Hu; [|apply (inv_run_ids _ HI)|cbn; by rewrite Hid]. destruct Hu as [->|[Hu Hne]].
    + apply (effect_move _ x0); try done; cbn in *; [congruence|]. rewrite Hs, Hws. constructor.
    + cbn in Hne. congruence.
  - cbn. rewrite (frame_runs _ _ Hf). apply (effect_move _ x0); try done. cbn. rewrite Hs. constructor.
Qed.

Lemma frame_effect st st' : frame st st' -> run_effect (runs st) (runs st').
Proof. intros Hf. rewrite (frame_runs _ _ Hf). constructor. Qed.

Lemma end_effect st id now outcome detail status e e' st' : Inv st ->
  end_run st id now outcome detail status e = (e', Ok st') -> run_effect (runs st) (runs st').
Proof.
  unfold end_run. intros HI H. inv_ok.
  match goal with H : run _ _ = Ok ?v |- _ => apply run_in in H as (Hin & Hid); rename v into v0 end.
  match goal with H : run_notice _ _ _ _ _ _ = _ |- _ => apply run_notice_frame in H as [Hf ->] end.
  rewrite <- (frame_runs _ _ Hf) in *. eapply (without_run_effect _ _ _ _ v0); [eassumption| |].
  - rewrite <- Hid. apply find_run_in; [by eapply Inv_frame|done].
  - destruct (Run.status v0) eqn:Hs; cbn in *; try discriminate; auto with runs.
Qed.

(** What the calls of a transition found: the run, its status, the frames. *)
Ltac facts :=
  inv_ok;
  repeat match goal with
  | H : live_lease _ _ _ _ = Ok _ |- _ => apply live_lease_in in H as (? & ? & ?)
  | H : read_lease _ _ _ = Ok _ |- _ => apply read_lease_in in H as (? & ? & ?)
  | H : incident _ _ = Ok _ |- _ => apply incident_in in H as (? & ? & ?)
  | H : require_unresolved _ = Ok _ |- _ => apply unresolved_status in H
  | H : run _ _ = Ok _ |- _ => apply run_in in H as (? & ?)
  | H : human_lease _ _ _ = _ |- _ => apply human_lease_ok in H as (? & ? & ? & ? & _)
  | H : run_notice _ _ _ _ _ _ = (_, Ok (_, _)) |- _ => apply run_notice_frame in H as [H%frame_runs ->]
  | H : put_notice _ _ = Ok _ |- _ => apply put_notice_frame, frame_runs in H
  | H : set_paused _ _ _ = Ok _ |- _ => apply set_paused_frame, frame_runs in H
  end.

(** The one run a transition replaces, moved along [status_step]. *)
Ltac moved :=
  facts; try case_match; cbn;
  repeat match goal with H : runs ?t = _ |- context [runs ?t] => rewrite H end;
  match goal with
  | Hin : In ?v (runs _) |- _ =>
      apply (effect_move _ v); try done; cbn;
      repeat match goal with Hs : Run.status _ = _ |- _ => rewrite Hs end; auto with runs
  end.

Lemma thaw_effect st id now used e e' st' token : thaw st id now used e = (e', Ok (st', token)) ->
  run_effect (runs st) (runs st').
Proof.
  unfold thaw. intros H. inv_ok.
  match goal with H : (if _ then _ else _) = Ok _ |- _ =>
    rename H into Hif; case_match eqn:Hst; [done|]; apply negb_false_iff, bool_decide_eq_true in Hst; clear Hif end.
  moved.
Qed.

Lemma skip_run_effect st id now x e e' st' : skip_incident st id now x e = (e', Ok st') ->
  run_effect (runs st) (runs st').
Proof.
  intros (u & w & Hu & Huid & Hus & Hw & Hwr & Hwv & Hws & ->)%skip_effect.
  apply (effect_move _ u); try done; [congruence|]. rewrite Hus, Hws. constructor.
Qed.

Lemma run_incident_effect st id now x e e' st' : run_incident st id now x e = (e', Ok st') ->
  run_effect (runs st) (runs st').
Proof.
  unfold run_incident. intros H. facts. cbn.
  match goal with H : runs ?t = _ |- context [runs ?t] => rewrite H end. by eapply skip_run_effect.
Qed.

Lemma release_effect st id st' : release_incident st id = Ok st' -> run_effect (runs st) (runs st').
Proof.
  unfold release_incident. intros H. destruct (find_run st id) as [v|] eqn:Hf; inv_ok; [|constructor].
  match goal with H : status_eqb _ _ = true |- _ => apply bool_decide_eq_true in H as Hs end.
  apply find_run_Some in Hf as [Hin <-]. cbn. apply effect_end; auto with runs.
Qed.

Lemma calm_effect st st' : Inv st -> calm st st' -> run_effect (runs st) (runs st').
Proof.
  intros HI Hcalm. destruct Hcalm; try (by eapply frame_effect;
    eauto using inv_ids with frames).
  all: try (match goal with
    | H : bind_generation _ _ _ _ _ = _ |- _ => unfold bind_generation in H
    | H : spend _ _ _ _ _ _ = _ |- _ => unfold spend in H
    | H : run_lose_protection _ _ = _ |- _ => unfold run_lose_protection in H
    | H : freeze _ _ _ _ _ _ = _ |- _ => unfold freeze in H
    | H : spend_incident _ _ _ = _ |- _ => unfold spend_incident in H
    | H : reopen_incident _ _ _ _ _ = _ |- _ => unfold reopen_incident in H
    | H : pause_incident _ _ _ _ _ = _ |- _ => unfold pause_incident in H
    end; by moved).
  all: eauto using end_effect, settle_effect, thaw_effect, skip_run_effect, run_incident_effect, release_effect.
  all: match goal with
    | H : create _ _ _ _ _ _ = _ |- _ => unfold create, add_routine in H
    | H : update _ _ _ _ _ = _ |- _ => unfold update in H
    | H : refine _ _ _ _ _ = _ |- _ => unfold refine in H
    | H : complete_delete _ _ _ _ = _ |- _ => unfold complete_delete in H
    | H : mark_scope_changed _ _ _ _ = _ |- _ => unfold mark_scope_changed in H
    | H : finish _ _ _ _ _ _ = _ |- _ => unfold finish in H
    | H : complete_recovered _ _ _ _ _ _ = _ |- _ => unfold complete_recovered in H
    | H : fence _ _ _ _ = _ |- _ => unfold fence in H
    | H : hold_recovered _ _ _ = _ |- _ => unfold hold_recovered in H
    end; facts; eauto using completed_run_effect, held_effect.
  all: cbn in *; repeat match goal with H : runs ?t = _ |- context [runs ?t] => rewrite H end; constructor.
Qed.

Lemma claim_effect st now key long e e' st' c : Inv st ->
  claim st now key long e = (e', Ok (st', c)) -> run_effect (runs st) (runs st').
Proof.
  intros HI Hc. destruct c as [c|].
  - destruct (claim_Some _ _ _ _ _ _ _ _ HI Hc)
      as (swept & due & st1 & r1 & e1 & _ & Hf & Hcl & Hf1 & Hc1 & Hcore & Hkey & Hl & _).
    pose proof (transitivity Hf Hf1) as Hf2.
    destruct (lease_Ok _ _ _ _ _ _ _ _ Hl) as (-> & _ & Hs & _). cbn.
    rewrite (frame_runs _ _ Hf2). by constructor.
  - apply frame_effect. by eapply claim_None.
Qed.

(** C24. A run keeps its Routine and its revision, and its status only follows the
    machine; it leaves the Team only from a lease, a freeze or a settled skip,
    so a held run and an unresolved incident are never lost. *)
Theorem run_status_machine st st' v : reachable st -> step st st' -> In v (runs st) ->
  (exists v', find_run st' (Run.run_id v) = Some v' /\ Run.routine_id v' = Run.routine_id v
     /\ Run.revision v' = Run.revision v /\ status_step (Run.status v) (Run.status v'))
  \/ (find_run st' (Run.run_id v) = None /\ may_end (Run.status v)).
Proof.
  intros HI%reachable_inv Hs Hin. apply (effect_run (runs st)); [apply (inv_run_ids _ HI)| |done].
  destruct Hs; eauto using calm_effect, claim_effect.
Qed.
End Lifecycle.

(** ** On the sample Team: the claimed run freezes *)
Lemma run_status_machine_witness :
  (exists v', find_run frozen claimed_id = Some v' /\ Run.routine_id v' = Run.routine_id claimed_run
     /\ Run.revision v' = Run.revision claimed_run /\ status_step (Run.status claimed_run) (Run.status v'))
  \/ (find_run frozen claimed_id = None /\ may_end (Run.status claimed_run)).
Proof.
  apply (@run_status_machine utc_platform plain_vocabulary tape tape_entropy claimed frozen claimed_run).
  - apply claimed_reached.
  - apply step_calm. eapply (calm_freeze claimed claimed_id claimed_lease 1767259900 sample_request [] []).
    vm_compute. reflexivity.
  - vm_compute. by left.
Defined.
