(* ===== verification/Changes.v ===== *)
(** * What a change leaves

    Refining, updating and deleting a Routine ([routine/src/record/define.rs],
    [record/mod.rs]), and what a run's notice does to its Routine and to the
    notices a person has not been shown ([record/notice.rs]). *)

From stdpp Require Import base tactics list strings pretty relations.
From Stdlib Require Import ZArith Lia Ascii.
From S2P Require Import Prelude Text Json Calendar Platform Wire Schedule Dates Starts Plans Team Definitions Define Claims Runs Holds Frames Invariants Samples Reachable Leases.

#[local] Open Scope Z_scope.
#[local] Abbreviation state := TeamRoutines.TeamRoutines.

(** Everything but one Routine, its notice and its Team's notices stays. *)
Definition only_routine (st st' : state) (id : string) : Prop :=
  (forall other, other <> id -> find_routine st' other = find_routine st other)
  /\ TeamRoutines.runs st' = TeamRoutines.runs st /\ TeamRoutines.starts st' = TeamRoutines.starts st
  /\ TeamRoutines.discards st' = TeamRoutines.discards st.

Definition told (st : state) (id outcome : string) : Prop :=
  exists n, In n (TeamRoutines.notices st) /\ Notice.routine_id n = id /\ Notice.outcome n = outcome.

Lemma put_notice_told st n st' : put_notice st n = Ok st' -> told st' (Notice.routine_id n) (Notice.outcome n).
Proof.
  intros (m & -> & _ & _ & Ho & Hr & _)%put_notice_Ok. exists m. split_and!; auto. cbn.
  apply in_or_app. right. by left.
Qed.

Lemma put_notice_find st n st' id : put_notice st n = Ok st' -> find_routine st' id = find_routine st id.
Proof. intros H%put_notice_routines. unfold find_routine. by rewrite H. Qed.

Lemma put_notice_discards st n st' : put_notice st n = Ok st' ->
  TeamRoutines.discards st' = TeamRoutines.discards st.
Proof. by intros (m & -> & _)%put_notice_Ok. Qed.

Lemma find_replaced st r id : Routine.routine_id r = id -> is_Some (find_routine st id) ->
  find_routine (replace_routine st r) id = Some r.
Proof. intros <- Hs. apply find_replace_key_eq. by apply find_key_is_Some. Qed.

(** A Routine replaced and its notice put. *)
Lemma replaced_and_told st r n st' : put_notice (replace_routine st r) n = Ok st' ->
  is_Some (find_routine st (Routine.routine_id r)) ->
  find_routine st' (Routine.routine_id r) = Some r /\ only_routine st st' (Routine.routine_id r)
  /\ told st' (Notice.routine_id n) (Notice.outcome n).
Proof.
  intros H Hs. pose proof (put_notice_frame _ _ _ H) as Hf. split_and!.
  - rewrite (put_notice_find _ _ _ _ H). by apply find_replaced.
  - split_and!.
    + intros other Hne. rewrite (put_notice_find _ _ _ _ H). apply find_replace_key_ne. congruence.
    + apply (frame_runs _ _ Hf).
    + apply (frame_starts _ _ Hf).
    + apply (put_notice_discards _ _ _ H).
  - by eapply put_notice_told.
Qed.

(** What is a Routine's cadence: when it runs, and what its firings left. *)
Definition same_cadence (r r' : Routine.Routine) : Prop :=
  Routine.anchor r' = Routine.anchor r /\ Routine.next_run_at r' = Routine.next_run_at r
  /\ Routine.run_requested r' = Routine.run_requested r /\ Routine.paused r' = Routine.paused r
  /\ Routine.missed r' = Routine.missed r /\ Routine.gap_started_at r' = Routine.gap_started_at r
  /\ Routine.reported_missed r' = Routine.reported_missed r
  /\ Routine.rollup_minute r' = Routine.rollup_minute r /\ Routine.rollup_runs r' = Routine.rollup_runs r
  /\ Routine.rollup_usage r' = Routine.rollup_usage r.

(** What a person confirms of a Routine. *)
Definition same_definition (r r' : Routine.Routine) : Prop :=
  Routine.routine_id r' = Routine.routine_id r /\ Routine.name r' = Routine.name r
  /\ Routine.schedule r' = Routine.schedule r /\ Routine.plan r' = Routine.plan r
  /\ Routine.description r' = Routine.description r /\ Routine.assistants r' = Routine.assistants r
  /\ Routine.permitted r' = Routine.permitted r /\ Routine.confirmation r' = Routine.confirmation r.

Definition fresh_definition (r : Routine.Routine) (revision : Z) : Prop :=
  Routine.revision r = revision /\ Routine.needs_reconfirm r = false /\ Routine.deleting r = false
  /\ Routine.failures r = 0 /\ Routine.output_digest r = ""%string.

Section Changes.
  Context {PF : Platform} {VO : Vocabulary} {E : Type} {EN : Entropy E}.
  Implicit Types (st : state) (e : E).

Lemma defined_fields r revision d : defined r revision = Ok d ->
  same_definition r d /\ same_cadence r d /\ fresh_definition d revision.
Proof. unfold defined. intros H. inv_ok. by split_and!. Qed.

Lemma admitted_fields r revision a : admitted r revision = Ok a ->
  same_definition r a /\ fresh_definition a revision
  /\ Routine.anchor a = Routine.anchor r /\ Routine.next_run_at a = Routine.next_run_at r
  /\ first_run r = Ok (Routine.next_run_at r) /\ Routine.run_requested a = 0 /\ Routine.missed a = 0
  /\ Routine.gap_started_at a = 0 /\ Routine.reported_missed a = 0.
Proof.
  unfold admitted. intros H. inv_ok.
  match goal with H : defined _ _ = Ok _ |- _ => apply defined_fields in H as (Hd & Hc & Hf) end.
  match goal with H : first_run _ = Ok _ |- _ => rename H into Hfirst end.
  destruct Hc as (Ha & Hn & _). destruct Hd as (D1 & D2 & D3 & D4 & D5 & D6 & D7 & D8).
  assert (first_run r = first_run x) as Hfr.
  { unfold first_run, continuous, next_after, timezone. by rewrite Ha, D3, D4. }
  split_and!; try done; try apply Hf. rewrite Hfr, Hfirst. f_equal. lia.
Qed.

(** Refining a Routine puts the new plan, description, Assistants, permissions
    and confirmation under the next revision, and keeps its name, schedule and
    whole cadence: a corrected Routine runs when it would have run.  It is
    refused while a run of the Routine is live. *)
Theorem refine_keeps_cadence st value revision now e e' st' :
  refine st value revision now e = (e', Ok st') ->
  exists r r', find_routine st (Routine.routine_id value) = Some r
    /\ find_routine st' (Routine.routine_id value) = Some r'
    /\ Routine.revision r = revision /\ fresh_definition r' (revision + 1) /\ same_cadence r r'
    /\ Routine.name r' = Routine.name r /\ Routine.schedule r' = Routine.schedule r /\ timezone r' = timezone r
    /\ Routine.plan r' = Routine.plan value /\ Routine.description r' = Routine.description value
    /\ Routine.assistants r' = Routine.assistants value /\ Routine.permitted r' = Routine.permitted value
    /\ Routine.confirmation r' = Routine.confirmation value
    /\ (forall v, In v (live_runs st) -> Run.routine_id v <> Routine.routine_id value)
    /\ only_routine st st' (Routine.routine_id value) /\ told st' (Routine.routine_id value) "changed".
Proof.
  unfold refine. intros H. inv_ok.
  match goal with H : changeable _ _ _ = Ok _ |- _ => apply changeable_ok in H as (Hf & Hrev & _ & Hfree) end.
  match goal with H : defined _ _ = Ok _ |- _ =>
    apply defined_fields in H as ((D1 & D2 & D3 & D4 & D5 & D6 & D7 & D8) & Hc & Hd) end.
  pose proof (find_routine_Some _ _ _ Hf) as [_ Hid]. cbn in D1. rewrite Hid in D1.
  match goal with H : put_notice _ _ = Ok _ |- _ => apply replaced_and_told in H as (Hf' & Honly & Ht) end;
    [|rewrite D1; eauto].
  match goal with H : (timezone _ =s _) = true |- _ => apply seqb_true in H as Htz end.
  cbn in Ht. rewrite D1 in *. rewrite Hrev in Hd. do 2 eexists. split; [exact Hf|]. split; [exact Hf'|].
  split_and!; try done.
  - rewrite <- Htz. unfold timezone. by rewrite D4.
  - intros v [Hv Hl]%filter_In. rewrite <- Hid. by apply Hfree.
Qed.

(** Updating a Routine replaces its whole definition under the next revision and
    restarts its cadence at the new first run, keeping its pause and its rollup
    minute; the missed firings of the old schedule are forgotten. *)
Theorem update_reschedules st value revision now e e' st' :
  update st value revision now e = (e', Ok st') ->
  exists r r', find_routine st (Routine.routine_id value) = Some r
    /\ find_routine st' (Routine.routine_id value) = Some r'
    /\ Routine.revision r = revision /\ fresh_definition r' (revision + 1) /\ same_definition value r'
    /\ Routine.anchor r' = Routine.anchor value /\ first_run value = Ok (Routine.next_run_at r')
    /\ Routine.run_requested r' = 0 /\ Routine.missed r' = 0 /\ Routine.gap_started_at r' = 0
    /\ Routine.paused r' = Routine.paused r /\ Routine.rollup_minute r' = Routine.rollup_minute r
    /\ Routine.rollup_runs r' = Routine.rollup_runs r
    /\ (forall v, In v (live_runs st) -> Run.routine_id v <> Routine.routine_id value)
    /\ only_routine st st' (Routine.routine_id value) /\ told st' (Routine.routine_id value) "changed".
Proof.
  unfold update. intros H. inv_ok.
  match goal with H : changeable _ _ _ = Ok _ |- _ => apply changeable_ok in H as (Hf & Hrev & _ & Hfree) end.
  match goal with H : admitted _ _ = Ok _ |- _ =>
    apply admitted_fields in H as (Hdef & Hd & Ha & Hn & Hfirst & Hr & Hm & Hg & Hrm) end.
  pose proof (find_routine_Some _ _ _ Hf) as [_ Hid]. pose proof Hdef as (D1 & _).
  match goal with H : put_notice _ _ = Ok _ |- _ => apply replaced_and_told in H as (Hf' & Honly & Ht) end;
    [|cbn [Routine.routine_id]; cbn; rewrite D1; eauto].
  cbn in Ht. rewrite Hrev in Hd. do 2 eexists. split; [exact Hf|].
  split; [etrans; [|exact Hf']; f_equal; cbn; done|].
  split_and!; try done; cbn; try done.
  - by rewrite Hn.
  - intros v [Hv Hl]%filter_In. rewrite <- Hid. by apply Hfree.
  - cbn in Honly. by rewrite D1 in Honly.
  - by rewrite D1 in Ht.
Qed.

(** Deleting completes only for a Routine marked as deleting with no run record
    left; then the Routine is gone, every other one stays, and the person is told. *)
Theorem delete_removes st id now e e' st' : complete_delete st id now e = (e', Ok st') ->
  find_routine st' id = None
  /\ (forall other, other <> id -> find_routine st' other = find_routine st other)
  /\ TeamRoutines.runs st' = TeamRoutines.runs st
  /\ (forall v, In v (TeamRoutines.runs st) -> Run.routine_id v <> id)
  /\ (exists r, find_routine st id = Some r /\ Routine.deleting r = true) /\ told st' id "deleted".
Proof.
  unfold complete_delete. intros H. inv_ok.
  match goal with H : put_notice _ _ = Ok _ |- _ =>
    pose proof (put_notice_told _ _ _ H) as Ht; pose proof (put_notice_frame _ _ _ H) as Hf;
    pose proof (put_notice_routines _ _ _ H) as Hr end.
  match goal with H : routine _ _ = Ok _ |- _ => apply routine_Ok in H as Hfind end.
  match goal with H : existsb _ _ = false |- _ => rename H into Hnone end.
  unfold find_routine in *. cbn. rewrite Hr. split_and!; try done.
  - apply find_key_None, drop_key_absent.
  - intros other Hne. by apply find_drop_key_ne.
  - apply (frame_runs _ _ Hf).
  - intros v Hv Heq. enough (existsb (fun item => Run.routine_id item =s id) (TeamRoutines.runs st) = true)
      by congruence. apply existsb_exists. exists v. split; [done|]. by apply seqb_true.
  - eauto.
Qed.

(** ** A run's notice *)

(** What an outcome does to the failure streak. *)
Definition next_failures (r : Routine.Routine) (outcome : string) : Z :=
  if outcome =s "failed" then Routine.failures r + 1
  else if contains ["done"; "recovered"]%string outcome then 0 else Routine.failures r.

Lemma streak_applied st v outcome now e e' st' r : find_routine st (Run.routine_id v) = Some r ->
  (current ← lift (routine st (Run.routine_id v));
   let '(failures, streak) := outcome_streak current outcome in
   let current := current <| Routine.failures := failures |>
                          <| Routine.paused := Routine.paused current || streak |> in
   let st := replace_routine st current in
   if streak then
     id ← new_id;
     lift (put_notice st (Notice_new id (Routine.routine_id current) "" "streak-paused" now
                            (object [("failures"%string, int failures)])))
   else mret st : drawing E state) e = (e', Ok st') ->
  let '(failures, streak) := outcome_streak r outcome in
  find_routine st' (Run.routine_id v)
    = Some (r <| Routine.failures := failures |> <| Routine.paused := Routine.paused r || streak |>)
  /\ (streak = true -> told st' (Run.routine_id v) "streak-paused").
Proof.
  intros Hf H. pose proof (find_routine_Some _ _ _ Hf) as [_ Hid]. inv_ok.
  match goal with H : routine _ _ = Ok ?c |- _ => apply routine_Ok in H as Hr; assert (c = r) as -> by congruence end.
  destruct (outcome_streak r outcome) as [failures streak]. destruct streak; inv_ok.
  - match goal with H : put_notice _ _ = Ok _ |- _ => apply replaced_and_told in H as (Hf' & _ & Ht) end;
      [|cbn; rewrite Hid; eauto]. cbn in Ht, Hf'. rewrite Hid in *. by split.
  - split; [|done]. apply find_replaced; [done|eauto].
Qed.

(** An outcome moves its Routine's failure streak and nothing else of it: the
    third failure in a row pauses the Routine and says so, a completion forgets
    the streak, and any other outcome leaves it. *)
Theorem failure_streak st v outcome now detail e e' st' v' r :
  run_notice st v outcome now detail e = (e', Ok (st', v')) ->
  find_routine st (Run.routine_id v) = Some r ->
  let pauses := (outcome =s "failed") && (MAX_FAILURE_STREAK <=? Routine.failures r + 1) in
  find_routine st' (Run.routine_id v)
    = Some (r <| Routine.failures := next_failures r outcome |> <| Routine.paused := Routine.paused r || pauses |>)
  /\ (pauses && negb (Routine.paused r) = true -> told st' (Run.routine_id v) "streak-paused").
Proof.
  intros H Hf pauses. unfold run_notice in H. inv_ok.
  match goal with H : put_notice st _ = Ok _ |- _ => pose proof (put_notice_find _ _ _ (Run.routine_id v) H) as Hp end.
  rewrite Hf in Hp. pose proof (find_routine_Some _ _ _ Hf) as [_ Hid].
  assert (contains ["done"; "recovered"; "failed"]%string outcome
    = (outcome =s "failed") || contains ["done"; "recovered"]%string outcome) as Hc.
  { unfold contains. cbn. by destruct (outcome =s "done"), (outcome =s "recovered"), (outcome =s "failed"). }
  rewrite Hc in *. unfold next_failures, pauses. clear Hc pauses.
  destruct ((outcome =s "failed") || contains ["done"; "recovered"]%string outcome) eqn:Hc.
  - match goal with H : _ = (_, Ok _) |- _ => apply (streak_applied _ _ _ _ _ _ _ r Hp) in H end.
    unfold outcome_streak in *. destruct (outcome =s "failed"); cbn [orb andb] in *.
    + destruct (Routine.paused r), (MAX_FAILURE_STREAK <=? Routine.failures r + 1); tauto.
    + rewrite Hc. change (MAX_FAILURE_STREAK <=? 0) with false in *. rewrite andb_false_r in *. tauto.
  - apply orb_false_iff in Hc as [-> ->]. inv_ok. cbn [andb]. rewrite Hp, orb_false_r. split; [by destruct r|done].
Qed.
(** ** Delivery *)
Lemma acknowledged st delivered n : In n (TeamRoutines.notices (acknowledge st delivered)) <->
  In n (TeamRoutines.notices st) /\ ~ In (Notice.notice_id n, Notice.version n) delivered.
Proof.
  cbn. rewrite filter_In, negb_true_iff. f_equiv. split.
  - intros Hf Hin. enough (existsb (fun iv => (fst iv =s Notice.notice_id n) && (snd iv =? Notice.version n)) delivered
      = true) by congruence. apply existsb_exists. eexists. split; [exact Hin|]. cbn. by rewrite seqb_refl, Z.eqb_refl.
  - intros Hn. apply not_true_iff_false. intros ([id version] & Hin & He)%existsb_exists. cbn in He.
    apply andb_true_iff in He as [->%seqb_true ->%Z.eqb_eq]. done.
Qed.

(** The notice a run's outcome put is the last of its id. *)
Lemma run_notice_put st v outcome now detail e e' st' v' :
  run_notice st v outcome now detail e = (e', Ok (st', v')) ->
  (forall e1 id, new_id e = (e1, Ok id) -> id <> Run.run_id v) ->
  exists n, In n (TeamRoutines.notices st') /\ Notice.notice_id n = Run.run_id v
    /\ Notice.version n = Run.notice_version v + 1 /\ Notice.outcome n = outcome /\ Notice.detail n = detail.
Proof.
  intros H Hid. unfold run_notice in H. inv_ok.
  match goal with H : put_notice st _ = Ok _ |- _ =>
    apply put_notice_Ok in H as (m & -> & Hm & Hv & Ho & _ & _ & _ & Hd & _) end.
  cbn in Hm, Hv, Ho, Hd. exists m. split; [|done].
  assert (In m (drop_key Notice.notice_id (Run.run_id v) (TeamRoutines.notices st) ++ [m])) as Hin
    by (apply in_or_app; right; by left).
  case_match; inv_ok; [|done].
  match goal with H : context [outcome_streak ?c outcome] |- _ => destruct (outcome_streak c outcome) as [f []] end;
    inv_ok; [|done].
  match goal with H : new_id _ = _ |- _ => apply Hid in H end.
  match goal with H : put_notice _ _ = Ok _ |- _ => apply put_notice_Ok in H as (m' & -> & _) end.
  cbn. apply in_or_app. left. apply in_drop_key. split; [done|]. cbn. congruence.
Qed.

(** Acknowledging deletes exactly the notices that were delivered, at the exact
    versions delivered: an outcome that reached a run while the person was shown
    older versions of its notice is still undelivered afterwards. *)
Theorem newer_notice_survives st v outcome now detail e e' st' v' delivered :
  run_notice st v outcome now detail e = (e', Ok (st', v')) ->
  (forall e1 id, new_id e = (e1, Ok id) -> id <> Run.run_id v) ->
  (forall version, In (Run.run_id v, version) delivered -> version <= Run.notice_version v) ->
  (exists n, In n (TeamRoutines.notices (acknowledge st' delivered)) /\ Notice.notice_id n = Run.run_id v
     /\ Notice.version n = Run.notice_version v' /\ Notice.outcome n = outcome /\ Notice.detail n = detail)
  /\ (forall n, In n (TeamRoutines.notices (acknowledge st' delivered))
        <-> In n (TeamRoutines.notices st') /\ ~ In (Notice.notice_id n, Notice.version n) delivered).
Proof.
  intros H Hid Hold. split; [|apply acknowledged]. pose proof (run_notice_frame _ _ _ _ _ _ _ _ _ H) as [_ ->].
  destruct (run_notice_put _ _ _ _ _ _ _ _ _ H Hid) as (n & Hin & Hn & Hv & Ho). exists n.
  split_and!; try done; [|apply Ho..]. apply acknowledged. split; [done|]. rewrite Hn, Hv. intros Hd%Hold. lia.
Qed.
End Changes.

(** ** On the sample Team *)
Definition refined_routine : Routine.Routine := sample_routine <| Routine.description := "Orders stock"%string |>.
Definition refined : state :=
  get_state (@refine utc_platform plain_vocabulary tape tape_entropy created refined_routine 1 1767230000
               (tape_of ["b"%char])) no_routines.
Definition updated : state :=
  get_state (@update utc_platform plain_vocabulary tape tape_entropy created refined_routine 1 1767230000
               (tape_of ["b"%char])) no_routines.
Definition removing : state :=
  match begin_delete created id_a with Ok (st, _) => st | Err _ => no_routines end.
Definition removed : state :=
  get_state (@complete_delete tape tape_entropy removing id_a 1767230000 (tape_of ["d"%char])) no_routines.
Definition sample_failure : Value := object [("code"%string, text "step-failed")].
Definition failed_once : state * Run.Run :=
  get_state (@run_notice tape tape_entropy claimed claimed_run "failed" 1767259900 sample_failure [])
    (no_routines, claimed_run).

Example samples_change :
  len (TeamRoutines.routines refined) = 1 /\ len (TeamRoutines.routines updated) = 1
  /\ len (TeamRoutines.routines removing) = 1 /\ TeamRoutines.routines removed = []
  /\ len (TeamRoutines.notices (fst failed_once)) = 2.
Proof. vm_compute. auto. Qed.

Lemma refine_keeps_cadence_witness :
  exists r r', find_routine created id_a = Some r /\ find_routine refined id_a = Some r'
    /\ Routine.revision r = 1 /\ fresh_definition r' 2 /\ same_cadence r r'
    /\ Routine.description r' = "Orders stock"%string /\ told refined id_a "changed".
Proof.
  destruct (@refine_keeps_cadence utc_platform plain_vocabulary tape tape_entropy created refined_routine 1 1767230000
    (tape_of ["b"%char]) [] refined) as (r & r' & H1 & H2 & H3 & H4 & H5 & _ & _ & _ & _ & H6 & _ & _ & _ & _ & _ & H7).
  - vm_compute. reflexivity.
  - exists r, r'. split_and!; assumption.
Defined.

Lemma update_reschedules_witness :
  exists r r', find_routine created id_a = Some r /\ find_routine updated id_a = Some r'
    /\ Routine.revision r = 1 /\ fresh_definition r' 2 /\ same_definition refined_routine r'
    /\ told updated id_a "changed".
Proof.
  destruct (@update_reschedules utc_platform plain_vocabulary tape tape_entropy created refined_routine 1 1767230000
    (tape_of ["b"%char]) [] updated) as (r & r' & H1 & H2 & H3 & H4 & H5 & _ & _ & _ & _ & _ & _ & _ & _ & _ & _ & H6).
  - vm_compute. reflexivity.
  - exists r, r'. split_and!; assumption.
Defined.

Lemma delete_removes_witness : find_routine removed id_a = None /\ told removed id_a "deleted".
Proof.
  destruct (@delete_removes tape tape_entropy removing id_a 1767230000 (tape_of ["d"%char]) [] removed)
    as (H & _ & _ & _ & _ & Ht).
  - vm_compute. reflexivity.
  - split; assumption.
Defined.

Lemma failure_streak_witness :
  exists r, find_routine claimed id_a = Some r
    /\ find_routine (fst failed_once) id_a = Some (r <| Routine.failures := 1 |> <| Routine.paused := false |>).
Proof.
  destruct (find_routine claimed id_a) as [r|] eqn:Hf; [|vm_compute in Hf; discriminate Hf].
  exists r. split; [reflexivity|].
  destruct (@failure_streak tape tape_entropy claimed claimed_run "failed" 1767259900 sample_failure [] []
    (fst failed_once) (snd failed_once) r) as [H _].
  - vm_compute. reflexivity.
  - rewrite <- Hf. vm_compute. reflexivity.
  - etransitivity; [exact H|]. vm_compute in Hf. injection Hf as <-. vm_compute. reflexivity.
Defined.

Lemma newer_notice_survives_witness :
  exists n, In n (TeamRoutines.notices (acknowledge (fst failed_once) [(claimed_id, 0)]))
    /\ Notice.notice_id n = claimed_id /\ Notice.version n = 1 /\ Notice.outcome n = "failed"%string.
Proof.
  destruct (@newer_notice_survives tape tape_entropy claimed claimed_run "failed" 1767259900 sample_failure [] []
    (fst failed_once) (snd failed_once) [(claimed_id, 0)]) as [(n & Hin & Hid & Hv & Ho & _) _].
  - vm_compute. reflexivity.
  - intros e1 id Hnew. vm_compute in Hnew. discriminate Hnew.
  - intros version [Hin|[]]. apply (f_equal snd) in Hin. cbn [snd] in Hin. rewrite <- Hin.
    apply Z.leb_le. vm_compute. reflexivity.
  - exists n. split_and!; [exact Hin|exact Hid|rewrite Hv; vm_compute; reflexivity|exact Ho].
Defined.
