(* ===== verification/Pages.v ===== *)
(** * Reading a definition

    What the pages and the summary of [routine/src/definition.rs] let a person
    read: the pages of a Routine, followed to their end, show every step once
    and in order, and the compact summary counts every step. *)

From stdpp Require Import base tactics list strings pretty relations.
From Stdlib Require Import ZArith Lia Ascii.
From S2P Require Import Prelude Text Json Calendar Platform Wire Schedule Dates Starts Plans Team Definitions Claims Runs Samples.

#[local] Open Scope Z_scope.

(** ** One page *)
Section Page.
  Context (entry : Z -> option Value) (view : Z -> Value).

(** The bytes of a page's entries, as [paged] counts them: brackets and commas. *)
Definition page_bytes (items : list Value) : Z := 2 + zsum (map (fun item => encoded_bytes item + 1) items).
Definition page_fits (items : list Value) : Prop :=
  len items <= 1 \/ (len items <= MAX_PAGE_STEPS /\ page_bytes items <= MAX_PAGE_BYTES).

Lemma page_bytes_app items item : page_bytes (items ++ [item]) = page_bytes items + (encoded_bytes item + 1).
Proof. unfold page_bytes. rewrite map_app, zsum_app. cbn. lia. Qed.

(** A page is the leading entries of what is left, never none while some are left. *)
Lemma page_loop_prefix todo chosen :
  List.Forall (fun position => entry position = Some (view position)) todo -> page_fits chosen ->
  exists n, page_loop entry todo chosen (page_bytes chosen) = Some (chosen ++ map view (take n todo))
    /\ page_fits (chosen ++ map view (take n todo))
    /\ (chosen = [] -> todo <> [] -> n <> O) /\ (n <= length todo)%nat.
Proof.
  revert chosen. induction todo as [|position todo IH]; intros chosen Hall Hfit.
  { exists O. cbn. rewrite app_nil_r. split_and!; auto; done. }
  inversion_clear Hall as [|? ? He Hrest]. cbn [page_loop]. rewrite He. cbn [mbind option_bind].
  destruct (negb _ && _) eqn:Hstop.
  - exists O. cbn. rewrite app_nil_r. split_and!; auto; [|lia]. intros -> _. done.
  - rewrite <- page_bytes_app. destruct (IH (chosen ++ [view position]) Hrest) as (n & Hn & Hf & _ & Hle).
    + apply andb_false_iff in Hstop as [Hs|Hs].
      * apply negb_false_iff, bool_decide_eq_true in Hs as ->. by left.
      * apply orb_false_iff in Hs as [H1 H2]. right. rewrite page_bytes_app, len_app. change (len [view position]) with 1.
        split; [|lia].
        destruct Hfit as [Hfit|[Hfit _]]; unfold len in *; change MAX_PAGE_STEPS with 64 in *; lia.
    + exists (S n). cbn [take map length]. rewrite <- app_assoc in *. split_and!; auto. lia.
Qed.
End Page.

Lemma positions_from n a k :
  map (fun i => Z.of_nat n + Z.of_nat i) (seq a k) = positions (n + a) k.
Proof.
  unfold positions. revert a. induction k as [|k IH]; intros a; cbn; [done|].
  rewrite IH, <- plus_n_Sm. f_equal. lia.
Qed.

Lemma take_positions n a k : (n <= k)%nat -> take n (positions a k) = positions a n.
Proof. intros H. unfold positions. rewrite firstn_map, take_seq. by rewrite Nat.min_l. Qed.

Lemma positions_app a n k : positions a (n + k) = positions a n ++ positions (a + n) k.
Proof. unfold positions. by rewrite seq_app, map_app. Qed.

(** ** Every page *)
Section Read.
  Context {PF : Platform} (routine_id : string) (revision : Z) (plan : Value) (permitted : list Value).

(** A client follows [next] from [offset], at most [fuel] pages. *)
Fixpoint read_pages (fuel : nat) (offset : Z) : option (list Value) :=
  match fuel with
  | O => None
  | S fuel' =>
      shown ← page routine_id revision plan permitted offset;
      let steps := elements (at_ shown "steps") in
      match at_ shown "next" with
      | VNumber (NInt next) => rest ← read_pages fuel' next; Some (steps ++ rest)
      | _ => Some steps
      end
  end.

Definition shown_step (position : Z) : Value := default VNull (step_view plan permitted position).

Lemma steps_fit_view position : steps_fit plan permitted = true -> 1 <= position <= len (plan_steps plan) ->
  step_view plan permitted position = Some (shown_step position).
Proof.
  unfold steps_fit, shown_step. rewrite forallb_forall. intros Hall Hp. specialize (Hall position).
  destruct (step_view plan permitted position); [done|]. discriminate Hall.
  unfold positions. apply in_map_iff. exists (Z.to_nat position). unfold len in *. rewrite in_seq. lia.
Qed.

Lemma page_shape n : steps_fit plan permitted = true -> (n <= length (plan_steps plan))%nat ->
  let total := length (plan_steps plan) in
  exists k shown, page routine_id revision plan permitted (Z.of_nat n) = Some shown /\ (n + k <= total)%nat
    /\ ((n < total)%nat -> (0 < k)%nat)
    /\ elements (at_ shown "steps") = map shown_step (positions (n + 1) k)
    /\ page_fits (map shown_step (positions (n + 1) k))
    /\ at_ shown "next" = (if (n + k =? total)%nat then VNull else int (Z.of_nat (n + k))).
Proof.
  intros Hfit Hn total. unfold page, paged, len.
  set (todo := map (fun i => Z.of_nat n + Z.of_nat i) (seq 1 (Z.to_nat (Z.of_nat (length (plan_steps plan)) - Z.of_nat n)))).
  assert (todo = positions (n + 1) (total - n)) as Htodo.
  { unfold todo. replace (Z.to_nat _) with (total - n)%nat by (unfold total; lia).
    apply positions_from. }
  destruct (page_loop_prefix (step_view plan permitted) shown_step todo []) as (k & Hk & Hpf & Hpos & Hle).
  - rewrite Htodo. apply List.Forall_forall. intros p (i & <- & Hi%in_seq)%in_map_iff.
    apply steps_fit_view; [done|]. unfold len. fold total. lia.
  - left. done.
  - change (page_bytes []) with 2 in Hk. rewrite Hk. cbn [mbind option_bind app]. cbn [app] in Hpf.
    rewrite Htodo in *. unfold positions in Hle. rewrite length_map, length_seq in Hle.
    rewrite take_positions in * by done.
    exists k. eexists. split; [reflexivity|]. split_and!; [lia| |done|done|].
    + intros Hlt. destruct k; [|lia]. destruct Hpos; [done| |done]. intros He. apply (f_equal length) in He.
      unfold positions in He. rewrite length_map, length_seq in He. cbn in He. lia.
    + rewrite length_map. unfold positions. rewrite length_map, length_seq.
      transitivity (if Z.of_nat n + Z.of_nat k =? Z.of_nat total then VNull else int (Z.of_nat n + Z.of_nat k));
        [reflexivity|].
      destruct (Nat.eqb_spec (n + k) total), (Z.eqb_spec (Z.of_nat n + Z.of_nat k) (Z.of_nat total)); try lia; [done|].
      by rewrite Nat2Z.inj_add.
Qed.

Lemma read_rest fuel n : steps_fit plan permitted = true -> (n <= length (plan_steps plan))%nat ->
  (length (plan_steps plan) - n <= fuel)%nat -> (1 <= fuel)%nat ->
  read_pages fuel (Z.of_nat n) = Some (map shown_step (positions (n + 1) (length (plan_steps plan) - n))).
Proof.
  intros Hfit. revert n. induction fuel as [|fuel IH]; intros n Hn Hf H1; [lia|]. cbn [read_pages].
  destruct (page_shape n Hfit Hn) as (k & shown & Hp & Hle & Hpos & Hs & _ & Hnext).
  rewrite Hp. cbn [mbind option_bind]. rewrite Hnext, Hs.
  destruct (Nat.eqb_spec (n + k) (length (plan_steps plan))) as [He|Hne].
  - do 3 f_equal. lia.
  - cbn [int]. rewrite IH by lia. cbn [mbind option_bind].
    replace (length (plan_steps plan) - n)%nat with (k + (length (plan_steps plan) - (n + k)))%nat by lia.
    rewrite positions_app, map_app. by replace (n + k + 1)%nat with (n + 1 + k)%nat by lia.
Qed.
End Read.

Section Cover.
  Context {PF : Platform}.

(** Following [next] from the first page shows every step of a plan that fits,
    once, in order and without a gap, in no more pages than the plan has steps
    (an empty one has one page); and no page of several steps exceeds a page's steps or bytes. *)
Theorem pages_cover id revision plan permitted :
  steps_fit plan permitted = true ->
  read_pages id revision plan permitted (Nat.max 1 (length (plan_steps plan))) 0
    = Some (map (shown_step plan permitted) (positions 1 (length (plan_steps plan))))
  /\ forall n, (n <= length (plan_steps plan))%nat ->
       exists shown, page id revision plan permitted (Z.of_nat n) = Some shown
         /\ page_fits (elements (at_ shown "steps")).
Proof.
  intros Hfit. split.
  - rewrite (read_rest id revision plan permitted _ 0) by (done || lia). by rewrite Nat.sub_0_r.
  - intros n Hn. destruct (page_shape id revision plan permitted n Hfit Hn) as (k & shown & Hp & _ & _ & Hs & Hpf & _).
    exists shown. split; [done|]. by rewrite Hs.
Qed.
End Cover.

Lemma pages_cover_witness :
  @read_pages utc_platform id_a 1 sample_plan sample_permitted 2 0
  = Some (map (shown_step sample_plan sample_permitted) (positions 1 2)).
Proof.
  apply (@pages_cover utc_platform id_a 1 sample_plan sample_permitted). vm_compute. reflexivity.
Defined.

(** ** The compact summary *)

(** The steps a list of runs of one Action stands for. *)
Definition expand (runs : list (Value * Value * Z)) : list (Value * Value) :=
  concat (map (fun r => repeat (fst r) (Z.to_nat (snd r))) runs).
Definition differ (r r' : Value * Value * Z) : bool :=
  negb (value_eqb (fst (fst r)) (fst (fst r')) && value_eqb (snd (fst r)) (snd (fst r'))).
Definition label_of (l : string * string) : Value * Value := (text (fst l), text (snd l)).
(** A step names its Assistant and its Action. *)
Definition names (step : Value) (l : string * string) : Prop :=
  at_ step "assistant" = text (fst l) /\ at_ step "action" = text (snd l).

Record packed (runs : list (Value * Value * Z)) (labels : list (string * string)) : Prop := {
  packed_expand : expand runs = map label_of labels;
  packed_counts : List.Forall (fun r => 1 <= snd r) runs;
  packed_texts : List.Forall (fun r => exists l, fst r = label_of l) runs;
  packed_differ : windows2 differ runs = true;
}.

Lemma expand_app l k : expand (l ++ k) = expand l ++ expand k.
Proof. unfold expand. by rewrite map_app, concat_app. Qed.

Lemma windows2_snoc {A} (p : A -> A -> bool) l x y :
  windows2 p (l ++ [x; y]) = windows2 p (l ++ [x]) && p x y.
Proof.
  induction l as [|a l IH]; cbn; [by rewrite andb_true_r|]. destruct l as [|b l]; cbn in *.
  - by rewrite !andb_true_r.
  - by rewrite IH, andb_assoc.
Qed.

Lemma windows2_last {A} (p : A -> A -> bool) l x y :
  (forall z, p z x = p z y) -> windows2 p (l ++ [x]) = windows2 p (l ++ [y]).
Proof.
  intros Hp. induction l as [|a l IH]; cbn; [done|]. destruct l as [|b l]; cbn in *; [by rewrite Hp|]. by rewrite IH.
Qed.

Lemma push_packed runs labels step l : packed runs labels -> names step l ->
  packed (push_action_run runs step) (labels ++ [l]).
Proof.
  intros [H1 H2 H3 H4] [Ha Hx]. unfold push_action_run. rewrite Ha, Hx.
  destruct runs as [|r runs _] using rev_ind.
  - cbn. split; cbn; auto. + by rewrite map_app, <- H1. + repeat constructor. cbn. lia.
    + repeat constructor. by exists l.
  - rewrite last_snoc. destruct r as [[a x] count]. rewrite List.removelast_last.
    apply List.Forall_app in H2 as [H2 Hc], H3 as [H3 Ht].
    inversion_clear Hc as [|? ? Hcount _]. inversion_clear Ht as [|? ? [[la lx] Hl] _].
    unfold label_of in Hl. cbn in Hcount, Hl. injection Hl as -> ->.
    destruct (value_eqb (text la) (text (fst l)) && value_eqb (text lx) (text (snd l))) eqn:Heq.
    + apply andb_true_iff in Heq as [->%seqb_true ->%seqb_true]. split.
      * rewrite map_app, <- H1, !expand_app. cbn. rewrite !app_nil_r, <- app_assoc. f_equal.
        rewrite Z2Nat.inj_add by lia. by rewrite repeat_app.
      * apply List.Forall_app. split; [done|]. repeat constructor. cbn. lia.
      * apply List.Forall_app. split; [done|]. repeat constructor. by exists l.
      * rewrite <- H4. apply windows2_last. intros z. done.
    + split.
      * rewrite map_app, <- H1, expand_app. done.
      * apply List.Forall_app. split; [by apply List.Forall_app; repeat constructor|]. repeat constructor. cbn. lia.
      * apply List.Forall_app. split; [|repeat constructor; by exists l].
        apply List.Forall_app. split; [done|]. repeat constructor. by exists (la, lx).
      * rewrite <- app_assoc. cbn [app]. rewrite windows2_snoc, H4. unfold differ. cbn [fst snd]. by rewrite Heq.
Qed.

Lemma action_runs_packed steps labels : List.Forall2 names steps labels -> packed (action_runs steps) labels.
Proof.
  unfold action_runs. assert (forall runs done_, packed runs done_ -> List.Forall2 names steps labels ->
    packed (fold_left push_action_run steps runs) (done_ ++ labels)) as Hgen.
  { revert labels. induction steps as [|step steps IH]; intros labels runs done_ Hp Hn; inversion_clear Hn; cbn.
    - by rewrite app_nil_r.
    - rewrite cons_middle, app_assoc. apply IH; [|done]. by apply push_packed. }
  intros Hn. apply (Hgen [] []); [|done]. by split.
Qed.

Section Summary.
  Context {PF : Platform}.

(** The summary of a plan whose steps name their Assistant and Action lists them
    as maximal runs, in order: spelled
    out they are the plan's own sequence of Actions, two neighbours always
    differ, and [more] is exactly the steps after the last run listed, so that
    nothing a plan does goes uncounted. *)
Theorem summary_counts plan revision labels :
  List.Forall2 names (plan_steps plan) labels ->
  exists shown more, at_ (summary plan revision) "more" = int more
    /\ at_ (summary plan revision) "actions"
       = VArray (map (fun '(assistant, action, count) => VArray [assistant; action; int count]) shown)
    /\ at_ (summary plan revision) "steps" = int (zsum (map snd shown) + more)
    /\ expand shown = take (Z.to_nat (len labels - more)) (map label_of labels)
    /\ 0 <= more <= len labels /\ len shown <= MAX_SUMMARY_RUNS
    /\ windows2 differ (action_runs (plan_steps plan)) = true
    /\ (more = 0 \/ len shown = MAX_SUMMARY_RUNS).
Proof.
  intros Hn. pose proof (action_runs_packed _ _ Hn) as [He Hc _ Hd].
  set (runs := action_runs (plan_steps plan)) in *.
  set (shown := take (Z.to_nat MAX_SUMMARY_RUNS) runs). set (rest := drop (Z.to_nat MAX_SUMMARY_RUNS) runs).
  assert (runs = shown ++ rest) as Hsplit by (symmetry; apply take_drop).
  assert (len (plan_steps plan) = len labels) as Hlen by (unfold len; by rewrite (List.Forall2_length Hn)).
  assert (forall l, List.Forall (fun r : Value * Value * Z => 1 <= snd r) l -> len (expand l) = zsum (map snd l)) as Hsum.
  { induction 1 as [|r l Hr _ IH]; [done|]. change (expand (r :: l)) with (repeat (fst r) (Z.to_nat (snd r)) ++ expand l).
    rewrite len_app, IH. unfold len. rewrite repeat_length. unfold zsum. cbn [map fold_right]. lia. }
  rewrite Hsplit in Hc. apply List.Forall_app in Hc as [Hcs Hcr].
  rewrite Hsplit, expand_app in He.
  pose proof (f_equal (@length _) He) as Hl. rewrite length_app, length_map in Hl.
  pose proof (Hsum _ Hcs) as Hs. pose proof (Hsum _ Hcr) as Hr. unfold len in Hs, Hr, Hlen.
  exists shown, (Z.of_nat (length (plan_steps plan)) - zsum (map snd shown)). split_and!; try reflexivity; try done.
  - transitivity (int (len (plan_steps plan))); [reflexivity|]. f_equal. unfold len. lia.
  - rewrite <- He, take_app_le, take_ge; [done| |]; unfold len; lia.
  - lia.
  - unfold len. lia.
  - unfold shown, len. rewrite length_take. unfold MAX_SUMMARY_RUNS. lia.
  - destruct rest as [|r rest'] eqn:Hrest; [left; cbn in *; lia|right].
    unfold shown, len. rewrite length_take. apply (f_equal length) in Hrest. unfold rest in Hrest.
    rewrite length_drop in Hrest. cbn in Hrest. unfold MAX_SUMMARY_RUNS in *. lia.
Qed.
End Summary.

Lemma summary_counts_witness :
  exists shown more, at_ (@summary utc_platform sample_plan 1) "more" = int more
    /\ at_ (@summary utc_platform sample_plan 1) "steps" = int (zsum (map snd shown) + more)
    /\ expand shown = take (Z.to_nat (2 - more))
         (map label_of [("stock", "stock.lookup"); ("stock", "stock.order")]%string).
Proof.
  destruct (@summary_counts utc_platform sample_plan 1
    [("stock", "stock.lookup"); ("stock", "stock.order")]%string) as (shown & more & H1 & _ & H2 & H3 & _).
  - repeat constructor.
  - exists shown, more. split_and!; assumption.
Defined.

(** * Generations

    The evidence a run writes is kept under its generation ([claim::generation_for],
    [claim::network_of], [record::generation_parts]): a generation names its
    network and its run unambiguously, and tells a first try from a continuation
    after a hold ([runs::completed]). *)

Definition NETWORK_RE (s : string) : bool := head_tail is_alnum (fun a => is_alnum a || one_of "._/-" a) 127 s.

Definition not_colon (a : ascii) : bool := negb (byte_code a =? byte_code ":").

Lemma bytes_imp (p q : ascii -> bool) s : (forall a, p a = true -> q a = true) ->
  all_bytes p s = true -> all_bytes q s = true.
Proof.
  intros Hpq. induction s as [|a s IH]; cbn; [done|]. intros [Ha Hs]%andb_true_iff. by rewrite Hpq, IH.
Qed.

Lemma network_no_colon s : NETWORK_RE s = true -> all_bytes not_colon s = true.
Proof.
  assert (forall a, is_alnum a || one_of "._/-" a = true -> not_colon a = true) as Ha.
  { intros a. unfold is_alnum, is_digit, is_lower, is_upper, between, one_of, not_colon. cbn [all_bytes].
    change (byte_code ":") with 58. change (byte_code ".") with 46. change (byte_code "_") with 95.
    change (byte_code "/") with 47. change (byte_code "-") with 45. intros H. lia. }
  unfold NETWORK_RE, head_tail. destruct s as [|a s]; [done|]. intros [[H1 _]%andb_true_iff H2]%andb_true_iff.
  change (not_colon a && all_bytes not_colon s = true). rewrite (Ha a) by (by rewrite H1).
  cbn [andb]. revert H2. by apply bytes_imp.
Qed.

Lemma split_once_app s t : all_bytes not_colon s = true -> split_once ":" (s +:+ String ":" t) = Some (s, t).
Proof.
  induction s as [|a s IH]; [done|]. intros [Ha Hs]%andb_true_iff.
  change (String a s +:+ String ":" t) with (String a (s +:+ String ":" t)). cbn [split_once].
  unfold not_colon in Ha. apply negb_true_iff in Ha. rewrite Ha. by rewrite (IH Hs).
Qed.

Lemma append_cancel (s t u : string) : s +:+ t = s +:+ u -> t = u.
Proof. induction s as [|a s IH]; [done|]. intros [= H]. auto. Qed.

Lemma append_nil s : (s +:+ "")%string = s.
Proof. induction s as [|a s IH]; [done|]. change (String a s +:+ "") with (String a (s +:+ "")). by rewrite IH. Qed.

Definition suffixes : list string := [""; "s1"; "v1"]%string.
Definition tail_of (suffix : string) : string := if is_empty suffix then "" else ":" +:+ suffix.

Lemma generation_for_tail network run suffix :
  generation_for network run suffix = network +:+ String ":" ("routine:" +:+ (run +:+ tail_of suffix)).
Proof. unfold generation_for, tail_of. destruct suffix; cbn [is_empty]; [|done]. by rewrite append_nil. Qed.

Lemma generation_suffix network run suffix suffix' :
  generation_for network run suffix' = generation_for network run suffix -> suffix' = suffix.
Proof.
  rewrite !generation_for_tail. intros H%append_cancel. apply (append_cancel ":routine:"), append_cancel in H.
  revert H. unfold tail_of. destruct suffix, suffix'; cbn [is_empty]; try done. by intros [= -> ->].
Qed.

Lemma parts_of_generation network run suffix :
  NETWORK_RE network = true -> HEX32_RE run = true -> In suffix suffixes ->
  generation_parts (generation_for network run suffix) = Some (network, run).
Proof.
  intros Hn Hr Hs. rewrite generation_for_tail. unfold generation_parts.
  rewrite split_once_app by (by apply network_no_colon). cbn [mbind option_bind].
  change (strip_prefix "routine:" ("routine:" +:+ (run +:+ tail_of suffix))) with (Some (run +:+ tail_of suffix)).
  cbn [mbind option_bind]. pose proof (exactly_slen _ _ _ Hr) as Hl.
  replace 32%nat with (String.length run) by (unfold slen in Hl; lia). rewrite split_at_app.
  unfold NETWORK_RE in Hn. rewrite Hn, Hr. destruct Hs as [<-|[<-|[<-|[]]]]; vm_compute; reflexivity.
Qed.

(** A generation gives back the network and the run it was made for, for no
    other run, and generations of different tries of a run are different. *)
Theorem generation_roundtrip network run suffix other :
  NETWORK_RE network = true -> HEX32_RE run = true -> In suffix suffixes ->
  network_of (generation_for network run suffix) other = (if run =s other then Some network else None)
  /\ (forall suffix', generation_for network run suffix' = generation_for network run suffix -> suffix' = suffix).
Proof.
  intros Hn Hr Hs. split.
  - unfold network_of. rewrite parts_of_generation by done. reflexivity.
  - intros suffix'. apply generation_suffix.
Qed.

(** A run completes as done when it never left its first generation, and as
    recovered when it continued after a hold. *)
Theorem completed_outcome v network suffix :
  NETWORK_RE network = true -> HEX32_RE (Run.run_id v) = true -> In suffix suffixes ->
  Run.generation v = generation_for network (Run.run_id v) suffix ->
  completed v = (if is_empty suffix then "done" else "recovered")%string.
Proof.
  intros Hn Hr Hs Hg. unfold completed, network_of. rewrite Hg, parts_of_generation by done.
  cbn [mbind option_bind]. rewrite seqb_refl.
  destruct (seqb_spec (generation_for network (Run.run_id v) "") (generation_for network (Run.run_id v) suffix))
    as [<-%generation_suffix|Hne]; [done|]. destruct suffix; [by destruct Hne|done].
Qed.

Definition run_hex : string := "0123456789abcdef0123456789abcdef".
Lemma generation_roundtrip_witness :
  network_of (generation_for "net-1" run_hex "v1") run_hex = Some "net-1"%string.
Proof.
  apply (generation_roundtrip "net-1" run_hex "v1" run_hex); [reflexivity|vm_compute; reflexivity|cbn; tauto].
Defined.

Definition verified_run : Run.Run :=
  (Run_new run_hex run_hex Leased) <| Run.generation := generation_for "net-1" run_hex "v1" |>.
Lemma completed_outcome_witness : completed verified_run = "recovered"%string.
Proof.
  apply (completed_outcome verified_run "net-1" "v1");
    [reflexivity|vm_compute; reflexivity|cbn; tauto|reflexivity].
Defined.
