(* ===== verification/Cursors.v ===== *)
(** * The cursor of a run

    [routine/src/cursor/mod.rs]: the durable position of one run, its
    transitions, its closed shape, and its canonical encoding. *)

From stdpp Require Import base tactics list strings pretty.
From Stdlib Require Import ZArith Lia Ascii.
From S2P Require Import Prelude Text Json Reader Calendar Platform Wire Schedule Dates Starts Plans.

#[local] Open Scope Z_scope.

Definition CURSOR_VERSION : Z := 7.
Definition MAX_CURSOR_BYTES : Z := 256 * 1024.
Definition FAULTS : list string := [""; "handled"; "transport"; "unquiesced"; "policy"; "other"]%string.
Definition FIELDS : list string :=
  ["version"; "boot"; "protection_lost"; "incarnation"; "routine_id"; "revision"; "run_id"; "plan";
   "started_at"; "step"; "operation_id"; "attempts"; "commitment"; "selected"; "episode"; "continued";
   "absent"; "carried"; "fault"; "workload"; "dispatched_at"; "shown"]%string.

Module Binding.
Record Binding : Type := mk { incarnation : string; routine_id : string; revision : Z; run_id : string }.
End Binding.

Definition Selected : Type := (string * string * string * string * Value)%type.

(** The run's one recovery episode. *)
Inductive Episode : Type := Closed | Open | Continued (carried : bool).
Definition opened (e : Episode) : bool := match e with Closed => false | _ => true end.
Definition is_continued (e : Episode) : bool := match e with Continued _ => true | _ => false end.
Definition carried (e : Episode) : bool := match e with Continued c => c | _ => false end.
Definition episode_of (episode continued carried : bool) : option Episode :=
  match episode, continued, carried with
  | false, false, false => Some Closed
  | true, false, false => Some Open
  | true, true, c => Some (Continued c)
  | _, _, _ => None
  end.

Module Cursor.
Record Cursor : Type := mk {
  binding : Binding.Binding;
  plan : string;
  started_at : Z;
  step : nat;
  operation_id : option string;
  attempts : Z;
  commitment : option string;
  selected : list Selected;
  episode : Episode;
  absent : bool;
  fault : string;
  workload : string;
  dispatched_at : Z;
  shown : option Value;
  boot : string;
  protection_lost : bool;
}.
#[global] Instance eta_Cursor : Eta Cursor := fun r =>
  mk (binding r) (plan r) (started_at r) (step r) (operation_id r) (attempts r) (commitment r) (selected r)
     (episode r) (absent r) (fault r) (workload r) (dispatched_at r) (shown r) (boot r) (protection_lost r).
#[global] Instance upd_operation_id : Upd operation_id.
Proof. solve_upd. Defined.
#[global] Instance upd_attempts : Upd attempts.
Proof. solve_upd. Defined.
#[global] Instance upd_commitment : Upd commitment.
Proof. solve_upd. Defined.
#[global] Instance upd_episode : Upd episode.
Proof. solve_upd. Defined.
#[global] Instance upd_absent : Upd absent.
Proof. solve_upd. Defined.
#[global] Instance upd_fault : Upd fault.
Proof. solve_upd. Defined.
#[global] Instance upd_workload : Upd workload.
Proof. solve_upd. Defined.
#[global] Instance upd_dispatched_at : Upd dispatched_at.
Proof. solve_upd. Defined.
#[global] Instance upd_protection_lost : Upd protection_lost.
Proof. solve_upd. Defined.
End Cursor.

Definition generation_suffix (c : Cursor.Cursor) : string :=
  if is_continued (Cursor.episode c) then "s1" else "".

(** [Cursor::selections]. *)
Definition selected_entry (s : Selected) : Key * Value :=
  let '(step, pointer, where_text, item, value) := s in ((step, pointer, where_text, item), value).
Definition cursor_selections (c : Cursor.Cursor) : list (Key * Value) :=
  tree_of key_parts (map selected_entry (Cursor.selected c)).

(** [Cursor::done]. *)
Definition done_ (c : Cursor.Cursor) (plan : Plan.Plan) : bool :=
  Nat.eqb (Cursor.step c) (length (Plan.steps plan)).

(** ** The document *)
Definition optional (v : option string) : Value := from_option text VNull v.

Definition document (c : Cursor.Cursor) : Value :=
  let binding := Cursor.binding c in
  object
    [("version", int CURSOR_VERSION);
     ("incarnation", text (Binding.incarnation binding));
     ("routine_id", text (Binding.routine_id binding));
     ("revision", int (Binding.revision binding));
     ("run_id", text (Binding.run_id binding));
     ("plan", text (Cursor.plan c));
     ("started_at", int (Cursor.started_at c));
     ("step", int (Z.of_nat (Cursor.step c)));
     ("operation_id", optional (Cursor.operation_id c));
     ("attempts", int (Cursor.attempts c));
     ("commitment", optional (Cursor.commitment c));
     ("selected", VArray (map (fun s : Selected =>
        let '(step, pointer, where_text, item, value) := s in
        VArray [text step; text pointer; text where_text; text item; value]) (Cursor.selected c)));
     ("episode", VBool (opened (Cursor.episode c)));
     ("continued", VBool (is_continued (Cursor.episode c)));
     ("absent", VBool (Cursor.absent c));
     ("carried", VBool (carried (Cursor.episode c)));
     ("fault", text (Cursor.fault c));
     ("workload", text (Cursor.workload c));
     ("dispatched_at", int (Cursor.dispatched_at c));
     ("shown", default VNull (Cursor.shown c));
     ("boot", text (Cursor.boot c));
     ("protection_lost", VBool (Cursor.protection_lost c))]%string.

(** ** The closed shape *)
Definition operation_valid (c : Cursor.Cursor) : bool :=
  match Cursor.operation_id c, Cursor.commitment c with
  | Some operation, Some commitment =>
      OPERATION_ID_RE operation && (1 <=? Cursor.attempts c) && SHA256_RE commitment
  | None, None => Cursor.attempts c =? 0
  | _, _ => false
  end.


Definition attempt_valid (c : Cursor.Cursor) : bool :=
  let dispatched := is_some (Cursor.operation_id c) in
  let fault_valid := contains FAULTS (Cursor.fault c) && negb (Cursor.absent c && (Cursor.fault c =s "policy")) in
  let workload_valid := (is_empty (Cursor.workload c) || WORKLOAD_RE (Cursor.workload c))
                        && (0 <=? Cursor.dispatched_at c) in
  let undispatched_clear := negb (Cursor.absent c || carried (Cursor.episode c))
                            && is_empty (Cursor.fault c) && is_empty (Cursor.workload c)
                            && (Cursor.dispatched_at c =? 0) in
  fault_valid && workload_valid && (dispatched || undispatched_clear).

Definition binding_valid (b : Binding.Binding) : bool :=
  SHA256_RE (Binding.incarnation b) && ROUTINE_ID_RE (Binding.routine_id b)
  && valid_revision (int (Binding.revision b)) && ROUTINE_ID_RE (Binding.run_id b).

Definition key_eqb (a b : Key) : bool := bool_decide (a = b).
Fixpoint selection_keys (before : list Key) (selected : list Selected) : bool :=
  match selected with
  | [] => true
  | s :: rest =>
      let '(step, pointer, where_text, item, _) := s in
      let key := (step, pointer, where_text, item) in
      if negb (ROUTINE_STEP_ID_RE step) || negb (is_some (pointer_tokens_of pointer))
         || (is_empty where_text && negb (is_empty item)) || negb (is_some (pointer_tokens_of item))
         || existsb (key_eqb key) before
      then false else selection_keys (key :: before) rest
  end.
Definition selections_valid (selected : list Selected) (retained : Z) : bool :=
  selection_keys [] selected
  && (retained_bytes (tree_of key_parts (map selected_entry selected)) <=? retained).

Section Cursors.
  Context {PF : Platform} {VO : Vocabulary}.

Definition shown_valid (shown : option Value) : bool :=
  match shown with
  | None => true
  | Some s =>
      if negb (has_fields s ["step"; "output"; "digest"]%string) then false else
      match canonical_output (at_ s "output") with
      | None => false
      | Some output =>
          let st := at_ output "state" in
          let digest := at_ s "digest" in
          full_value ROUTINE_STEP_ID_RE (at_ s "step")
          && (is_str st "shown" || is_str st "unavailable")
          && (is_null digest || full_value SHA256_RE digest)
          && (is_null digest || is_str st "shown")
      end
  end.

Definition checked_within (c : Cursor.Cursor) (retained : Z) : result Cursor.Cursor :=
  let valid :=
    binding_valid (Cursor.binding c) && PLAN_DIGEST_RE (Cursor.plan c) && (0 <=? Cursor.started_at c)
    && (Z.of_nat (Cursor.step c) <=? MAX_STEPS) && operation_valid c
    && selections_valid (Cursor.selected c) retained && attempt_valid c && shown_valid (Cursor.shown c)
    && BOOT_RE (Cursor.boot c) in
  _ ← refuse (negb valid) "cursor-invalid";
  _ ← refuse (MAX_CURSOR_BYTES <? encoded_bytes (document c)) "cursor-too-large";
  Ok c.
Definition checked (c : Cursor.Cursor) : result Cursor.Cursor := checked_within c MAX_RETAINED_BYTES.

(** ** Transitions *)

(** [cursor::start]. *)
Definition start (plan : Plan.Plan) (binding : Binding.Binding) (started_at : Z) (boot : string)
  : result Cursor.Cursor :=
  checked (Cursor.mk binding (Plan.digest plan) started_at 0 None 0 None [] Closed false "" "" 0 None boot false).

Definition lose_protection (c : Cursor.Cursor) : result Cursor.Cursor :=
  checked (c <| Cursor.protection_lost := true |>).

Definition same_plan (c : Cursor.Cursor) (plan : Plan.Plan) : result unit :=
  refuse (negb (Cursor.plan c =s Plan.digest plan)) "cursor-plan-changed".

Definition ostring_eqb (a b : option string) : bool := bool_decide (a = b).

Definition dispatch (c : Cursor.Cursor) (plan : Plan.Plan) (operation_id commitment workload : string)
    (dispatched_at : Z) : result Cursor.Cursor :=
  _ ← same_plan c plan;
  _ ← refuse (done_ c plan || negb (OPERATION_ID_RE operation_id) || negb (SHA256_RE commitment))
        "cursor-dispatch-invalid";
  _ ← refuse (is_some (Cursor.operation_id c)
              && negb (ostring_eqb (Cursor.operation_id c) (Some operation_id)
                       && ostring_eqb (Cursor.commitment c) (Some commitment))) "cursor-operation-changed";
  checked (c <| Cursor.operation_id := Some operation_id |> <| Cursor.attempts := Cursor.attempts c + 1 |>
             <| Cursor.commitment := Some commitment |> <| Cursor.fault := ""%string |>
             <| Cursor.workload := workload |> <| Cursor.dispatched_at := dispatched_at |>).

Definition failed (c : Cursor.Cursor) (fault : string) : result Cursor.Cursor :=
  _ ← refuse (negb (is_some (Cursor.operation_id c)) || negb (contains (tl FAULTS) fault))
        "cursor-not-dispatched";
  checked (c <| Cursor.fault := fault |>).

Definition shown_matches (c : Cursor.Cursor) (plan : Plan.Plan) (step_id : string) (shown : option Value) : bool :=
  let shown_here := match plan_shown plan with Some s => Step.step_id s =s step_id | None => false end in
  match shown with
  | None => negb shown_here
  | Some s =>
      let position := int (Z.of_nat (Cursor.step c) + 1) in
      shown_here && is_object s && is_str (at_ s "step") step_id && is_object (at_ s "output")
      && negb (value_eqb (at_ (at_ s "output") "step") VNull)
      && py_eq (at_ (at_ s "output") "step") position
  end.

(** The cursor past a completed step: the kept selections added, the operation cleared. *)
Definition advanced (c : Cursor.Cursor) (step_id : string) (chosen : list (Selector * Value))
    (shown : option Value) : Cursor.Cursor :=
  let kept := map (fun kv : Selector * Value =>
                     let '((pointer, where_text, item), value) := kv in
                     (step_id, pointer, where_text, item, value)) chosen in
  {| Cursor.binding := Cursor.binding c;
     Cursor.plan := Cursor.plan c;
     Cursor.started_at := Cursor.started_at c;
     Cursor.step := S (Cursor.step c);
     Cursor.operation_id := None;
     Cursor.attempts := 0;
     Cursor.commitment := None;
     Cursor.selected := Cursor.selected c ++ kept;
     Cursor.episode := match Cursor.episode c with Continued _ => Continued false | ep => ep end;
     Cursor.absent := false;
     Cursor.fault := "";
     Cursor.workload := "";
     Cursor.dispatched_at := 0;
     Cursor.shown := shown;
     Cursor.boot := Cursor.boot c;
     Cursor.protection_lost := Cursor.protection_lost c |}.

(** A step past the plan's end would index out of range and panic; no cursor a
    run reaches is there ([CursorSafety.cursor_in_range]). *)
Definition complete (c : Cursor.Cursor) (plan : Plan.Plan) (result_ : Value) (shown : option Value)
  : result Cursor.Cursor :=
  _ ← same_plan c plan;
  _ ← refuse (done_ c plan || negb (is_some (Cursor.operation_id c))) "cursor-not-dispatched";
  match Plan.steps plan !! Cursor.step c with
  | None => Err "panic"
  | Some current =>
      let step_id := Step.step_id current in
      chosen ← selections plan step_id result_;
      _ ← refuse (negb (shown_matches c plan step_id shown)) "cursor-shown-invalid";
      checked (advanced c step_id chosen shown)
  end.

Definition proven_absent (c : Cursor.Cursor) : result Cursor.Cursor :=
  _ ← refuse (negb (is_some (Cursor.operation_id c))) "cursor-not-dispatched";
  _ ← refuse (Cursor.fault c =s "policy") "cursor-policy-hold";
  checked (c <| Cursor.absent := true |>).

Definition retry (c : Cursor.Cursor) : result Cursor.Cursor :=
  _ ← refuse (negb (is_some (Cursor.operation_id c)) || negb (Cursor.absent c)) "cursor-operation-uncertain";
  checked (c <| Cursor.absent := false |>).

Definition open_episode (c : Cursor.Cursor) : result Cursor.Cursor :=
  _ ← refuse (opened (Cursor.episode c)) "cursor-episode-spent";
  checked (c <| Cursor.episode := Open |>).

Definition continued (c : Cursor.Cursor) : result Cursor.Cursor :=
  match Cursor.episode c with
  | Continued _ => Err "cursor-continued"
  | Closed => Err "cursor-invalid"
  | Open => checked (c <| Cursor.episode := Continued (is_some (Cursor.operation_id c)) |>)
  end.

(** ** Encoding *)
Definition encode (c : Cursor.Cursor) : result string :=
  c ← checked c; Ok (canonical (document c)).

Definition flag (v : Value) : option bool := match v with VBool b => Some b | _ => None end.
Definition nullable (v : Value) : option (option string) :=
  match v with VNull => Some None | VString s => Some (Some s) | _ => None end.

Definition selection (item : Value) : option Selected :=
  match item with
  | VArray [step; pointer; where_text; item; value] =>
      step ← as_str step; pointer ← as_str pointer; where_text ← as_str where_text; item ← as_str item;
      Some (step, pointer, where_text, item, value)
  | _ => None
  end.

Definition read_binding (v : Value) : option Binding.Binding :=
  incarnation ← as_str (at_ v "incarnation");
  routine_id ← as_str (at_ v "routine_id");
  revision ← small_int (at_ v "revision");
  run_id ← as_str (at_ v "run_id");
  Some (Binding.mk incarnation routine_id revision run_id).

Definition read_progress (v : Value) : option (string * Z * nat * list Selected) :=
  match at_ v "selected" with
  | VArray selected =>
      plan ← as_str (at_ v "plan");
      started_at ← small_int (at_ v "started_at");
      step ← small_int (at_ v "step");
      if step <? 0 then None else
      selected ← mapM selection selected;
      Some (plan, started_at, Z.to_nat step, selected)
  | _ => None
  end.

Definition read_operation (v : Value) : option (option string * Z * option string) :=
  operation_id ← nullable (at_ v "operation_id");
  attempts ← small_int (at_ v "attempts");
  commitment ← nullable (at_ v "commitment");
  Some (operation_id, attempts, commitment).

Definition read_attempt (v : Value) : option (string * string * Z) :=
  fault ← as_str (at_ v "fault");
  workload ← as_str (at_ v "workload");
  dispatched_at ← small_int (at_ v "dispatched_at");
  Some (fault, workload, dispatched_at).

Definition read_state (v : Value) : option (Episode * bool * string * bool) :=
  episode ← flag (at_ v "episode");
  continued ← flag (at_ v "continued");
  carried ← flag (at_ v "carried");
  episode ← episode_of episode continued carried;
  absent ← flag (at_ v "absent");
  boot ← as_str (at_ v "boot");
  protection_lost ← flag (at_ v "protection_lost");
  Some (episode, absent, boot, protection_lost).

Definition read (v : Value) : option Cursor.Cursor :=
  '(plan, started_at, step, selected) ← read_progress v;
  '(operation_id, attempts, commitment) ← read_operation v;
  '(fault, workload, dispatched_at) ← read_attempt v;
  '(episode, absent, boot, protection_lost) ← read_state v;
  binding ← read_binding v;
  let shown := match at_ v "shown" with VNull => None | shown => Some shown end in
  Some (Cursor.mk binding plan started_at step operation_id attempts commitment selected episode absent fault
          workload dispatched_at shown boot protection_lost).

Definition binding_eqb (a b : Binding.Binding) : bool :=
  (Binding.incarnation a =s Binding.incarnation b) && (Binding.routine_id a =s Binding.routine_id b)
  && (Binding.revision a =? Binding.revision b) && (Binding.run_id a =s Binding.run_id b).

Definition decode (raw : string) (binding : Binding.Binding) : result Cursor.Cursor :=
  value ← ok_or "cursor-invalid" (json_parse raw);
  _ ← refuse (negb (has_fields value FIELDS)
              || negb (match get value "version" with
                       | Some (VNumber (NInt v)) => v =? CURSOR_VERSION
                       | _ => false
                       end)) "cursor-invalid";
  c ← ok_or "cursor-invalid" (read value);
  _ ← refuse (negb (binding_eqb (Cursor.binding c) binding) || negb (canonical (document c) =s raw))
        "cursor-invalid";
  checked c.
End Cursors.
