(* ===== verification/CursorSafety.v ===== *)
(** * What a run's cursor guarantees

    Every transition of a cursor as one step relation: completed steps are
    never run again, nothing selected is lost, a dispatched operation keeps its
    id and input, lost protection is never regained, the run has one recovery
    episode and one continuation, every reference of a step to a completed one
    resolves, and a sealed cursor decodes to itself. *)

From stdpp Require Import base tactics list strings pretty relations.
From Stdlib Require Import ZArith Lia Ascii.
From S2P Require Import Prelude Text Json Reader ReaderSafety Floats RoundTrip Calendar Platform Wire Schedule Dates Starts Plans Cursors.

#[local] Open Scope Z_scope.

(** ** Ordered maps keep what is inserted *)
Lemma scompare_refl s : String.compare s s = Eq.
Proof. induction s as [|a s IH]; cbn; [done|]. unfold Ascii.compare. by rewrite N.compare_refl, IH. Qed.

Lemma compare_strings_eq a b : compare_strings a b = Eq <-> a = b.
Proof.
  revert b. induction a as [|x a IH]; intros [|y b]; cbn; [done|done|done|].
  destruct (String.compare x y) eqn:Hc; rewrite ?IH.
  - apply String.compare_eq_iff in Hc as ->. split; congruence.
  - split; [done|]. intros [= -> ->]. by rewrite scompare_refl in Hc.
  - split; [done|]. intros [= -> ->]. by rewrite scompare_refl in Hc.
Qed.

Section Tree.
  Context {K V : Type} (parts : K -> list string) (parts_inj : forall a b, parts a = parts b -> a = b).
  Implicit Types (t : list (K * V)).

Lemma tree_insert_key k v t : In k (map fst (tree_insert parts k v t)).
Proof.
  induction t as [|[h w] t IH]; cbn; [auto|].
  destruct (compare_strings (parts k) (parts h)) eqn:Hc; cbn; auto.
  apply compare_strings_eq, parts_inj in Hc. auto.
Qed.

Lemma tree_insert_keeps k v h t : In h (map fst t) -> In h (map fst (tree_insert parts k v t)).
Proof.
  induction t as [|[g w] t IH]; cbn; [done|].
  destruct (compare_strings (parts k) (parts g)); cbn; naive_solver.
Qed.

Lemma tree_fold_keys (entries : list (K * V)) t :
  (forall k, In k (map fst t) \/ In k (map fst entries) ->
     In k (map fst (fold_left (fun tree kv => tree_insert parts (fst kv) (snd kv) tree) entries t))).
Proof.
  revert t. induction entries as [|[k v] entries IH]; intros t h; cbn; [naive_solver|]. intros H. apply IH.
  destruct H as [H|[->|H]]; [left; by apply tree_insert_keeps|left; apply tree_insert_key|by right].
Qed.

Lemma tree_of_key (entries : list (K * V)) k : In k (map fst entries) -> In k (map fst (tree_of parts entries)).
Proof. intros H. apply tree_fold_keys. by right. Qed.

Lemma tree_get_key k t : In k (map fst t) -> is_Some (tree_get parts k t).
Proof.
  unfold tree_get. induction t as [|[h w] t IH]; cbn; [done|]. intros [->|H].
  - rewrite (proj2 (compare_strings_eq _ _) eq_refl). eauto.
  - destruct (compare_strings (parts k) (parts h)); eauto.
Qed.
End Tree.

Lemma selector_parts_inj a b : selector_parts a = selector_parts b -> a = b.
Proof. destruct a as [[? ?] ?], b as [[? ?] ?]. cbn. congruence. Qed.
Lemma key_parts_inj a b : key_parts a = key_parts b -> a = b.
Proof. destruct a as [[[? ?] ?] ?], b as [[[? ?] ?] ?]. cbn. congruence. Qed.

Section Safety.
  Context {PF : Platform} {VO : Vocabulary}.
  Implicit Types (c d : Cursor.Cursor) (plan : Plan.Plan).

Lemma checked_Ok c d : checked c = Ok d -> d = c.
Proof. unfold checked, checked_within. intros H. inv_ok. done. Qed.

(** ** Transitions of a cursor *)
Inductive cstep plan : Cursor.Cursor -> Cursor.Cursor -> Prop :=
| cstep_lose c d : lose_protection c = Ok d -> cstep plan c d
| cstep_dispatch c op input workload now d : dispatch c plan op input workload now = Ok d -> cstep plan c d
| cstep_failed c fault d : failed c fault = Ok d -> cstep plan c d
| cstep_complete c r shown d : complete c plan r shown = Ok d -> cstep plan c d
| cstep_absent c d : proven_absent c = Ok d -> cstep plan c d
| cstep_retry c d : retry c = Ok d -> cstep plan c d
| cstep_open c d : open_episode c = Ok d -> cstep plan c d
| cstep_continued c d : continued c = Ok d -> cstep plan c d.

(** How far the run's recovery went. *)
Definition episode_rank (e : Episode) : nat := match e with Closed => 0 | Open => 1 | Continued _ => 2 end.

(** The order every transition moves up in. *)
Record later c d : Prop := {
  later_binding : Cursor.binding d = Cursor.binding c;
  later_plan : Cursor.plan d = Cursor.plan c;
  later_started : Cursor.started_at d = Cursor.started_at c;
  later_boot : Cursor.boot d = Cursor.boot c;
  later_step : (Cursor.step c <= Cursor.step d)%nat;
  later_selected : exists more, Cursor.selected d = Cursor.selected c ++ more;
  later_episode : (episode_rank (Cursor.episode c) <= episode_rank (Cursor.episode d))%nat;
  later_protection : Cursor.protection_lost c = true -> Cursor.protection_lost d = true;
  later_operation : Cursor.step d = Cursor.step c -> forall op, Cursor.operation_id c = Some op ->
    Cursor.operation_id d = Some op /\ Cursor.commitment d = Cursor.commitment c
    /\ Cursor.attempts c <= Cursor.attempts d;
}.

#[global] Instance later_preorder : PreOrder later.
Proof.
  split.
  - intros c. split; auto; [exists []; by rewrite app_nil_r|]. intros _ op ->. auto with lia.
  - intros a b c [H1 H2 H3 H4 H5 [m1 H6] H7 H8 H9] [K1 K2 K3 K4 K5 [m2 K6] K7 K8 K9].
    split; try congruence; try lia; auto; [exists (m1 ++ m2); by rewrite K6, H6, app_assoc|].
    intros Heq op Hop. destruct (H9 ltac:(lia) op Hop) as (Hb & Hcb & Hab).
    destruct (K9 ltac:(lia) op Hb) as (Hc & Hcc & Hac). split_and!; [done|congruence|lia].
Qed.

(** Finishes [later] for a cursor changed only in fields that may move. *)
Ltac solve_later :=
  split; cbn; auto; try lia; try (exists []; by rewrite app_nil_r);
  try (intros _ ? ->; auto with lia).

Lemma cstep_later plan c d : cstep plan c d -> later c d.
Proof.
  intros [].
  - unfold lose_protection in *. apply checked_Ok in H as ->. solve_later.
  - unfold dispatch in H. inv_ok. apply checked_Ok in H as ->. split; cbn; auto; try (exists []; by rewrite app_nil_r).
    intros _ op' Hop. rewrite Hop in *. cbn in *.
    match goal with H : negb (_ && _) = false |- _ => apply negb_false_iff, andb_true_iff in H as [Ha Hb] end.
    apply bool_decide_eq_true in Ha, Hb. split_and!; [congruence|congruence|lia].
  - unfold failed in H. inv_ok. apply checked_Ok in H as ->. solve_later.
  - unfold complete in H. inv_ok. case_match; [|done]. inv_ok. apply checked_Ok in H as ->.
    split; cbn; auto; [eauto|by destruct (Cursor.episode c0)|lia].
  - unfold proven_absent in H. inv_ok. apply checked_Ok in H as ->. solve_later.
  - unfold retry in H. inv_ok. apply checked_Ok in H as ->. solve_later.
  - unfold open_episode in H. inv_ok. apply checked_Ok in H as ->.
    destruct (Cursor.episode c0) eqn:He; try done. solve_later. rewrite He. cbn. lia.
  - unfold continued in H. destruct (Cursor.episode c0) eqn:He; try done. apply checked_Ok in H as ->.
    split; cbn; rewrite ?He; cbn; auto; try lia; try (exists []; by rewrite app_nil_r). intros _ ? ->. auto with lia.
Qed.

Lemma csteps_later plan c d : rtc (cstep plan) c d -> later c d.
Proof. induction 1 as [|a b c Hab _ IH]; [done|]. etrans; [by eapply cstep_later|done]. Qed.

(** A run only moves forward: whatever is dispatched, retried, recovered or
    continued, its binding, plan and start instant stay, no completed step is
    run again, no selected value is lost, an undone step's operation keeps its
    id and input, recovery never rewinds, and lost protection stays lost. *)
Theorem cursor_forward plan c d : rtc (cstep plan) c d -> later c d.
Proof. apply csteps_later. Qed.

(** A run has one recovery episode and one continuation: once opened or
    continued, no later cursor of the run opens or continues again. *)
Theorem one_episode plan c d : rtc (cstep plan) c d ->
  (opened (Cursor.episode c) = true -> open_episode d = Err "cursor-episode-spent")
  /\ (is_continued (Cursor.episode c) = true -> continued d = Err "cursor-continued").
Proof.
  intros Hs%csteps_later. pose proof (later_episode _ _ Hs) as Hr. unfold open_episode, continued.
  split; intros Ho; destruct (Cursor.episode c), (Cursor.episode d); cbn in *; try done; lia.
Qed.

(** ** References resolve *)
Definition sources plan : list Value := flat_map (fun s => map snd (Step.inputs s)) (Plan.steps plan).

Definition kept_keys c : list Key := map fst (map selected_entry (Cursor.selected c)).

Lemma references_in plan id source : In source (sources plan) -> refers_to id source = true ->
  In (key_selector (selector source)) (references plan id).
Proof.
  intros Hin Hr. unfold references. apply (tree_of_key _ selector_parts_inj). rewrite map_map. cbn.
  apply in_map_iff. exists source. split; [done|]. by apply filter_In.
Qed.

Lemma select_all_keys keys r chosen final : select_all keys r chosen = Ok final ->
  forall k, In k keys \/ In k (map fst chosen) -> In k (map fst final).
Proof.
  revert chosen. induction keys as [|key keys IH]; intros chosen; cbn [select_all]; intros H k Hk; inv_ok.
  - destruct Hk as [[]|Hk]. done.
  - eapply IH; [eassumption|]. destruct Hk as [[->|Hk]|Hk]; [right|by left|right].
    + by apply tree_insert_key, selector_parts_inj.
    + by apply tree_insert_keeps.
Qed.

Lemma refers_selector id source : refers_to id source = true ->
  selector source = (id, fst (fst (key_selector (selector source))), snd (fst (key_selector (selector source))),
                     snd (key_selector (selector source))).
Proof.
  unfold refers_to. intros [_ Hs%is_str_true]%andb_true_iff. unfold selector. cbn. rewrite Hs. done.
Qed.

(** Every reference to a completed step is among the kept selections. *)
Definition references_kept plan c : Prop :=
  forall i s source, Plan.steps plan !! i = Some s -> (i < Cursor.step c)%nat -> In source (sources plan) ->
    refers_to (Step.step_id s) source = true -> In (selector source) (kept_keys c).

Lemma kept_keys_app c more : map fst (map selected_entry (Cursor.selected c ++ more))
  = kept_keys c ++ map fst (map selected_entry more).
Proof. unfold kept_keys. by rewrite !map_app. Qed.

Lemma complete_kept plan c r shown d : complete c plan r shown = Ok d ->
  references_kept plan c -> references_kept plan d.
Proof.
  unfold complete. intros H Hk. inv_ok. case_match eqn:Hcur; [|done]. inv_ok. apply checked_Ok in H as ->.
  match goal with H : selections _ _ _ = Ok ?ch |- _ => rename ch into chosen; rename H into Hsel end.
  intros i s1 source Hi Hlt Hsrc Href. unfold kept_keys. cbn [advanced Cursor.selected].
  rewrite kept_keys_app. apply in_or_app.
  destruct (decide (i = Cursor.step c)) as [->|Hne]; [right|left; eapply Hk; eauto; cbn in Hlt; lia].
  rewrite Hcur in Hi. injection Hi as ->.
  pose proof (references_in _ _ _ Hsrc Href) as Hin.
  pose proof (select_all_keys _ _ _ _ Hsel _ (or_introl Hin)) as Hc.
  rewrite (refers_selector _ _ Href). destruct (key_selector (selector source)) as [[p w] it]. cbn.
  rewrite !map_map. apply in_map_iff in Hc as ([[[p' w'] it'] v] & Hk' & Hv). cbn in Hk'. injection Hk' as -> -> ->.
  apply in_map_iff. exists (p, w, it, v). split; [done|done].
Qed.

Lemma cstep_kept plan c d : cstep plan c d -> references_kept plan c -> references_kept plan d.
Proof.
  intros [] Hk; try (by eapply complete_kept).
  all: unfold lose_protection, dispatch, failed, proven_absent, retry, open_episode, continued in *;
    repeat case_match; inv_ok; try done; match goal with H : checked _ = Ok _ |- _ => apply checked_Ok in H as -> end;
    exact Hk.
Qed.

Lemma csteps_kept plan c d : rtc (cstep plan) c d -> references_kept plan c -> references_kept plan d.
Proof. induction 1 as [|a b c Hab _ IH]; [done|]. eauto using cstep_kept. Qed.

(** C29. Once a step completed, every later input that copies from its result
    resolves: a run never stops for want of a value an earlier step had. *)
Theorem references_resolve plan binding t boot c0 c j earlier source :
  start plan binding t boot = Ok c0 -> rtc (cstep plan) c0 c ->
  Plan.steps plan !! j = Some earlier -> (j < Cursor.step c)%nat ->
  In source (sources plan) -> refers_to (Step.step_id earlier) source = true ->
  exists v, resolve_input plan (cursor_selections c) (Cursor.started_at c) source = Ok v.
Proof.
  intros Hs Hr Hj Hlt Hsrc Href. apply checked_Ok in Hs as ->.
  assert (references_kept plan c) as Hk.
  { eapply csteps_kept; [exact Hr|]. intros i s src _ Hi. cbn in Hi. lia. }
  specialize (Hk j earlier source Hj Hlt Hsrc Href).
  assert (is_Some (tree_get key_parts (selector source) (cursor_selections c))) as [v Hv].
  { apply tree_get_key. by apply (tree_of_key _ key_parts_inj). }
  exists v. unfold resolve_input. unfold refers_to in Href. apply andb_true_iff in Href as [Hkind%is_str_true _].
  rewrite Hkind, Hv. done.
Qed.

(** ** A cursor stays inside its plan *)
Lemma cstep_range plan c d : cstep plan c d -> (Cursor.step c <= length (Plan.steps plan))%nat ->
  (Cursor.step d <= length (Plan.steps plan))%nat.
Proof.
  intros [] Hle.
  4: { unfold complete in H. inv_ok. case_match eqn:Hcur; [|done]. inv_ok. apply checked_Ok in H as ->. cbn.
       by apply lookup_lt_Some in Hcur. }
  all: unfold lose_protection, dispatch, failed, proven_absent, retry, open_episode, continued in *;
    repeat case_match; inv_ok; try done; match goal with H : checked _ = Ok _ |- _ => apply checked_Ok in H as -> end;
    exact Hle.
Qed.

Lemma csteps_range plan c d : rtc (cstep plan) c d -> (Cursor.step c <= length (Plan.steps plan))%nat ->
  (Cursor.step d <= length (Plan.steps plan))%nat.
Proof. induction 1 as [|a b c Hab _ IH]; [done|]. eauto using cstep_range. Qed.

(** A run's cursor never leaves its plan: until the run is done there is a
    current step to dispatch or complete, so completing one never indexes past
    the plan's end, and each completion moves exactly one step on. *)
Theorem cursor_in_range plan binding t boot c0 c :
  start plan binding t boot = Ok c0 -> rtc (cstep plan) c0 c ->
  (Cursor.step c <= length (Plan.steps plan))%nat
  /\ (done_ c plan = false -> is_Some (Plan.steps plan !! Cursor.step c))
  /\ (forall r shown d, complete c plan r shown = Ok d -> Cursor.step d = S (Cursor.step c)).
Proof.
  intros Hs Hr. apply checked_Ok in Hs as ->.
  pose proof (csteps_range _ _ _ Hr ltac:(cbn; lia)) as Hle. split_and!; [done| |].
  - unfold done_. intros Hd%Nat.eqb_neq. apply lookup_lt_is_Some. lia.
  - intros r shown d H. unfold complete in H. inv_ok. case_match; [|done]. inv_ok. by apply checked_Ok in H as ->.
Qed.

(** ** Sealing *)
Lemma binding_eqb_eq a b : binding_eqb a b = true -> a = b.
Proof.
  unfold binding_eqb. intros H. inv_ok. destruct a, b. cbn in *.
  repeat match goal with H : (_ =s _) = true |- _ => apply seqb_true in H as -> end.
  f_equal. lia.
Qed.

Lemma decode_Ok raw b c : decode raw b = Ok c -> checked c = Ok c /\ Cursor.binding c = b /\ canonical (document c) = raw.
Proof.
  unfold decode. intros H. inv_ok. pose proof (checked_Ok _ _ H) as ->.
  match goal with H : binding_eqb _ _ = true |- _ => apply binding_eqb_eq in H end.
  match goal with H : (_ =s raw) = true |- _ => apply seqb_true in H end. done.
Qed.

(** Whatever bytes a store hands back, a decoded cursor is valid, belongs to
    exactly the expected run, and encodes to exactly those bytes. *)
Theorem decode_sound raw b c : decode raw b = Ok c -> Cursor.binding c = b /\ encode c = Ok raw.
Proof. intros (Hc & Hb & Hd)%decode_Ok. unfold encode, mbind, result_bind. by rewrite Hc, Hd. Qed.

Lemma document_fields c :
  let at_c := at_ (document c) in let b := Cursor.binding c in
  at_c "incarnation"%string = text (Binding.incarnation b)
  /\ at_c "routine_id"%string = text (Binding.routine_id b)
  /\ at_c "revision"%string = int (Binding.revision b)
  /\ at_c "run_id"%string = text (Binding.run_id b)
  /\ at_c "plan"%string = text (Cursor.plan c)
  /\ at_c "started_at"%string = int (Cursor.started_at c)
  /\ at_c "step"%string = int (Z.of_nat (Cursor.step c))
  /\ at_c "operation_id"%string = optional (Cursor.operation_id c)
  /\ at_c "attempts"%string = int (Cursor.attempts c)
  /\ at_c "commitment"%string = optional (Cursor.commitment c)
  /\ at_c "selected"%string = VArray (map (fun s : Selected =>
        let '(step, pointer, where_text, item, value) := s in
        VArray [text step; text pointer; text where_text; text item; value]) (Cursor.selected c))
  /\ at_c "episode"%string = VBool (opened (Cursor.episode c))
  /\ at_c "continued"%string = VBool (is_continued (Cursor.episode c))
  /\ at_c "absent"%string = VBool (Cursor.absent c)
  /\ at_c "carried"%string = VBool (carried (Cursor.episode c))
  /\ at_c "fault"%string = text (Cursor.fault c)
  /\ at_c "workload"%string = text (Cursor.workload c)
  /\ at_c "dispatched_at"%string = int (Cursor.dispatched_at c)
  /\ at_c "shown"%string = default VNull (Cursor.shown c)
  /\ at_c "boot"%string = text (Cursor.boot c)
  /\ at_c "protection_lost"%string = VBool (Cursor.protection_lost c).
Proof. vm_compute. split_and!; reflexivity. Qed.

Lemma read_ext v w : (forall key, at_ v key = at_ w key) -> read v = read w.
Proof.
  intros H. unfold read, read_progress, read_operation, read_attempt, read_state, read_binding. by rewrite !H.
Qed.

Lemma mapM_selection l :
  mapM selection (map (fun s : Selected =>
    let '(step, pointer, where_text, item, value) := s in
    VArray [text step; text pointer; text where_text; text item; value]) l) = Some l.
Proof.
  induction l as [|[[[[a b] c] d] v] l IH]; [done|]. cbn [map mapM]. rewrite IH. done.
Qed.

Lemma nullable_optional o : nullable (optional o) = Some o.
Proof. by destruct o. Qed.
Lemma episode_of_flags e : episode_of (opened e) (is_continued e) (carried e) = Some e.
Proof. by destruct e. Qed.

Lemma read_document c : Cursor.shown c <> Some VNull -> read (document c) = Some c.
Proof.
  intros Hs. destruct (document_fields c) as (F1 & F2 & F3 & F4 & F5 & F6 & F7 & F8 & F9 & F10 & F11 & F12 & F13
    & F14 & F15 & F16 & F17 & F18 & F19 & F20 & F21).
  unfold read, read_progress, read_operation, read_attempt, read_state, read_binding.
  rewrite F1, F2, F3, F4, F5, F6, F7, F8, F9, F10, F11, F12, F13, F14, F15, F16, F17, F18, F19, F20, F21.
  cbn [as_str text small_int int flag mbind option_bind].
  rewrite !nullable_optional, mapM_selection. cbn [mbind option_bind].
  destruct (Z.ltb_spec (Z.of_nat (Cursor.step c)) 0); [lia|]. cbn [mbind option_bind].
  rewrite episode_of_flags. cbn [mbind option_bind]. rewrite Nat2Z.id. f_equal.
  destruct c as [b p st step op at' co sel ep ab fa wo di sh bo pr]. cbn in *.
  destruct b. cbn. by destruct sh as [[]|].
Qed.

Lemma document_members c : document c = VObject (members (document c))
  /\ has_exactly (members (document c)) FIELDS = true /\ List.NoDup (map fst (members (document c)))
  /\ get (document c) "version" = Some (int CURSOR_VERSION).
Proof.
  split_and!; [done|vm_compute; reflexivity| |vm_compute; reflexivity].
  apply NoDup_ListNoDup. cbn [document members object map fst]. by apply (bool_decide_unpack _); vm_compute.
Qed.

Lemma has_exactly_perm l l' fields : l ≡ₚ l' -> has_exactly l fields = true -> has_exactly l' fields = true.
Proof.
  unfold has_exactly. intros Hp [Hn Hall]%andb_true_iff. rewrite <- (Permutation_length Hp), Hn. cbn.
  apply forallb_forall. intros x Hx. rewrite forallb_forall in Hall. apply Hall.
  by eapply Permutation_in; [symmetry|].
Qed.

(** If the reader returns the members of the sealed document, in any order,
    decoding under the cursor's own binding returns exactly that cursor. *)
Lemma decode_members c raw ms :
  encode c = Ok raw -> json_parse raw = Some (VObject ms) -> ms ≡ₚ members (document c) ->
  decode raw (Cursor.binding c) = Ok c.
Proof.
  unfold encode. intros H Hparse Hp. inv_ok.
  match goal with H : checked c = Ok _ |- _ => rename H into Hc end. pose proof (checked_Ok _ _ Hc) as ->.
  destruct (document_members c) as (Hdoc & Hex & Hnd & Hver).
  assert (forall key, get (VObject ms) key = get (document c) key) as Hget.
  { intros key. rewrite Hdoc. symmetry. by apply lookup_member_perm. }
  assert (read (VObject ms) = Some c) as Hread.
  { rewrite (read_ext _ (document c)); [|intros key; unfold at_; by rewrite Hget].
    apply read_document. intros Hn. unfold checked, checked_within in Hc. inv_ok.
    by rewrite Hn in *. }
  unfold decode. rewrite Hparse. cbn [ok_or mbind result_bind has_fields]. rewrite Hget, Hver.
  rewrite (has_exactly_perm _ _ _ (Permutation_sym Hp) Hex). cbn [negb orb].
  change (CURSOR_VERSION =? CURSOR_VERSION) with true. cbn [int negb refuse mbind result_bind]. rewrite Hread.
  cbn [ok_or mbind result_bind].
  assert (binding_eqb (Cursor.binding c) (Cursor.binding c) = true) as ->.
  { unfold binding_eqb. by rewrite !seqb_refl, Z.eqb_refl. }
  match goal with H : canonical _ = raw |- _ => rewrite H end. rewrite seqb_refl. cbn [negb orb refuse mbind result_bind].
  exact Hc.
Qed.

(** What a cursor keeps besides text and numbers: the values of its selections
    and the shown output. *)
Definition kept_values (c : Cursor.Cursor) : list Value :=
  map (fun s : Selected => let '(_, _, _, _, value) := s in value) (Cursor.selected c)
  ++ match Cursor.shown c with Some v => [v] | None => [] end.

(** *** Values in canonical order are checked alike *)
Abbreviation canon := (ordered CANONICAL).
Lemma as_str_canon v : as_str (canon v) = as_str v.
Proof. by destruct v. Qed.
Lemma lookup_canon ms key : admissible (VObject ms) = true ->
  lookup_member (map (ordered_member CANONICAL) (in_order CANONICAL ms)) key = option_map canon (lookup_member ms key).
Proof. intros H. pose proof (get_ordered CANONICAL _ key H) as Hg. by rewrite ordered_object in Hg. Qed.
Lemma field_canon ms key : admissible (VObject ms) = true -> field (map (ordered_member CANONICAL) (in_order CANONICAL ms)) key = canon (field ms key).
Proof. intros H. unfold field. rewrite lookup_canon by done. by destruct (lookup_member ms key). Qed.
Lemma has_exactly_canon ms fields : has_exactly ms fields = true -> has_exactly (map (ordered_member CANONICAL) (in_order CANONICAL ms)) fields = true.
Proof.
  intros H. apply (has_exactly_perm _ _ _ (Permutation_sym (in_order_perm CANONICAL ms))) in H. revert H. unfold has_exactly. rewrite length_map, !andb_true_iff, !forallb_forall.
  intros [-> H]. split; [done|]. intros kv ([k v] & <- & Hin)%in_map_iff. by apply (H (k, v)).
Qed.
Lemma admissible_field ms key : admissible (VObject ms) = true -> admissible (field ms key) = true.
Proof. intros H. unfold field. destruct (lookup_member ms key) as [v|] eqn:E; [|done]. by eapply (admissible_get (VObject ms)). Qed.
Lemma array_canon v : array (canon v) = option_map (map canon) (array v).
Proof. destruct v; try done. Qed.
Lemma scalar_node_canon ms kind : admissible (VObject ms) = true -> scalar_node ms kind = true -> scalar_node (map (ordered_member CANONICAL) (in_order CANONICAL ms)) kind = true.
Proof.
  intros Ha. unfold scalar_node, plain_text. rewrite lookup_canon, field_canon by done. destruct kind as [k|]; [|done]. destruct (_ || _ || _); [apply has_exactly_canon|].
  assert (option_map canon (lookup_member ms "value") ≫= as_str = lookup_member ms "value" ≫= as_str) as Es by (destruct (lookup_member ms "value") as [v|]; [apply as_str_canon|done]). rewrite Es.
  destruct (k =s "bool"); [|destruct (k =s "number"); [|destruct (k =s "text"); [|done]]].
  - intros [->%has_exactly_canon H]%andb_true_iff. destruct (lookup_member ms "value") as [[]|]; done.
  - by intros [->%has_exactly_canon H]%andb_true_iff.
  - intros [[->%has_exactly_canon H]%andb_true_iff H']%andb_true_iff. cbn [andb]. rewrite H', andb_true_r. by destruct (field ms "cut").
Qed.
Lemma distinct_keys_canon before l : (forall e, In e (before ++ l) -> key_of (canon e) = key_of e) -> distinct_keys (map canon before) (map canon l) = distinct_keys before l.
Proof.
  revert before. induction l as [|e l IH]; intros before Hk; cbn [map distinct_keys]; [done|].
  replace (map canon before ++ [canon e]) with (map canon (before ++ [e])) by (by rewrite map_app). rewrite IH by (intros x Hx; apply Hk; by rewrite <- app_assoc in Hx).
  f_equal. f_equal. assert (In e (before ++ e :: l)) as He by (apply in_app_iff; right; by left). rewrite (Hk e He).
  assert (forall x, In x before -> key_of (canon x) = key_of x) as Hb by (intros x Hx; apply Hk, in_app_iff; by left). clear IH Hk He. induction before as [|x before IH]; cbn; [done|].
  rewrite (Hb x) by by left. f_equal. apply IH. intros y Hy. apply Hb. by right.
Qed.
Lemma output_node_canon room v : admissible v = true -> output_node room v = true -> output_node room (canon v) = true.
Proof.
  revert v. induction room as [|room IH]; intros v Ha Hn; (destruct v as [| | | | |ms]; [done..|]); cbn [output_node object_members get] in *; rewrite ordered_object; cbn [output_node object_members get].
  all: rewrite lookup_canon by done.
  all: assert (option_map canon (lookup_member ms "kind") ≫= as_str = lookup_member ms "kind" ≫= as_str) as Ek by (destruct (lookup_member ms "kind") as [k|]; [apply as_str_canon|done]); rewrite Ek.
  all: destruct (negb _); [by apply scalar_node_canon|].
  1: done.
  apply andb_true_iff in Hn as [Hc Hn]. apply andb_true_iff. split; [rewrite lookup_canon by done; destruct (lookup_member ms "omitted") as [[]|]; done|].
  assert (at_ (VObject (map (ordered_member CANONICAL) (in_order CANONICAL ms))) "kind" = canon (at_ (VObject ms) "kind")) as -> by exact (field_canon ms "kind" Ha).
  unfold is_str in *. rewrite as_str_canon. destruct (match as_str (at_ (VObject ms) "kind") with Some _ => _ | None => _ end).
  - apply andb_true_iff in Hn as [Hx Hn]. rewrite has_exactly_canon by done. rewrite field_canon by done. cbn [andb]. rewrite array_canon. pose proof (admissible_field ms "items" Ha) as Hi.
    destruct (field ms "items") as [| | | |items|]; try done. cbn [array option_map admissible] in *. apply andb_true_iff in Hn as [Hl Hn]. unfold len in *. rewrite length_map, Hl. cbn [andb].
    rewrite forallb_forall in Hn, Hi. apply forallb_forall. intros x (y & <- & Hy)%in_map_iff. apply IH; auto.
  - apply andb_true_iff in Hn as [Hx Hn]. rewrite has_exactly_canon by done. rewrite field_canon by done. cbn [andb]. rewrite array_canon. pose proof (admissible_field ms "fields" Ha) as Hi.
    destruct (field ms "fields") as [| | | |fields|]; try done. cbn [array option_map admissible] in *. apply andb_true_iff in Hn as [[Hl Hn]%andb_true_iff Hd]. unfold len in *. rewrite length_map, Hl. cbn [andb].
    rewrite forallb_forall in Hn, Hi.
    assert (forall e, In e fields -> exists k node, e = VArray [VString k; node] /\ plain (VString k) MAX_OUTPUT_KEY_CHARS = true /\ output_node room node = true /\ admissible node = true) as Hf.
    { intros e He. specialize (Hn e He). specialize (Hi e He). destruct e as [| | | |l|]; try done. cbn [array] in Hn. destruct l as [|k [|node []]]; try done. apply andb_true_iff in Hn as [Hp Hn].
      destruct k as [| | |k| |]; try done. cbn [admissible forallb] in Hi. apply andb_true_iff in Hi as [_ [Hi _]%andb_true_iff]. by exists k, node. }
    apply andb_true_iff. split.
    + apply forallb_forall. intros x (e & <- & He)%in_map_iff. destruct (Hf e He) as (k & node & -> & Hp & Ho & Hno). cbn [ordered map array]. rewrite Hp. cbn [andb]. by apply IH.
    + change (@nil Value) with (map canon []). rewrite distinct_keys_canon; [done|]. intros e He. by destruct (Hf e He) as (k & node & -> & _).
Qed.
Lemma shown_valid_canon s : admissible s = true -> shown_valid (Some s) = true -> shown_valid (Some (canon s)) = true.
Proof.
  intros Ha. destruct s as [| | | | |ms]; try done. unfold shown_valid. cbn [has_fields]. destruct (has_exactly ms _) eqn:Hx; [|done]. rewrite ordered_object. cbn [has_fields negb]. rewrite has_exactly_canon by done. cbn [negb].
  assert (forall key, at_ (VObject (map (ordered_member CANONICAL) (in_order CANONICAL ms))) key = canon (at_ (VObject ms) key)) as Hat by (intros key; exact (field_canon ms key Ha)). rewrite !Hat.
  assert (admissible (at_ (VObject ms) "output") = true) as Hao by exact (admissible_field ms "output" Ha). destruct (at_ (VObject ms) "output") as [| | | | |os] eqn:Eo; try done.
  unfold canonical_output, exact_object. rewrite ordered_object. cbn [object_members]. destruct (has_exactly os ["step"; "state"; "value"; "truncated"]%string) eqn:Ho; [|done]. rewrite has_exactly_canon by done.
  rewrite !field_canon by done. rewrite as_str_canon. destruct (_ && _) eqn:Hv; [|done].
  assert (encoded_bytes (VObject (map (ordered_member CANONICAL) (in_order CANONICAL os))) = encoded_bytes (VObject os)) as Eb by (unfold encoded_bytes, canonical; rewrite <- ordered_object; by rewrite dumps_ordered). rewrite Eb.
  apply andb_true_iff in Hv as [[[Hp Ht]%andb_true_iff Hs]%andb_true_iff Hb].
  assert (position (canon (field os "step")) MAX_ROUTINE_STEPS = true) as -> by by destruct (field os "step"). assert (is_bool (canon (field os "truncated")) = true) as -> by by destruct (field os "truncated").
  rewrite Hb. pose proof (admissible_field os "value" Hao) as Hav.
  assert (match (match as_str (field os "state") with Some s => if contains OUTPUT_STATES s then Some s else None | None => None end) with
    | Some s => if s =s "shown" then output_node MAX_OUTPUT_DEPTH (canon (field os "value")) else is_null (canon (field os "value")) && value_eqb (canon (field os "truncated")) (VBool false)
    | None => false end = true) as ->.
  { destruct (as_str (field os "state")) as [st|]; [|done]. destruct (contains OUTPUT_STATES st); [|done]. destruct (st =s "shown"); [by apply output_node_canon|]. by destruct (field os "value"), (field os "truncated"). }
  cbn [andb]. assert (at_ (VObject (map (ordered_member CANONICAL) (in_order CANONICAL os))) "state" = canon (at_ (VObject os) "state")) as -> by exact (field_canon os "state" Hao).
  unfold is_str, full_value. rewrite !as_str_canon. assert (forall v, is_null (canon v) = is_null v) as En by by intros []. by rewrite !En.
Qed.

(** *** A cursor as it is read back

    The values it keeps, its selections and its shown output, with their members in the
    order the canonical bytes have them. *)
Definition kept_selected (s : Selected) : Selected := let '(step, pointer, where_text, item, value) := s in (step, pointer, where_text, item, canon value).
Definition cursor_back (c : Cursor.Cursor) : Cursor.Cursor :=
  Cursor.mk (Cursor.binding c) (Cursor.plan c) (Cursor.started_at c) (Cursor.step c) (Cursor.operation_id c) (Cursor.attempts c) (Cursor.commitment c)
    (map kept_selected (Cursor.selected c)) (Cursor.episode c) (Cursor.absent c) (Cursor.fault c) (Cursor.workload c) (Cursor.dispatched_at c)
    (option_map canon (Cursor.shown c)) (Cursor.boot c) (Cursor.protection_lost c).
(** A cursor that can be written: its document is JSON text and numbers, within the
    reader's depth. *)
Definition writable_cursor (c : Cursor.Cursor) : Prop :=
  admissible (document c) = true /\ doubles (document c) /\ height (document c) <= Strict.MAX_DEPTH.

Lemma kept_same c : List.Forall (fun v => canon v = v) (kept_values c) -> cursor_back c = c.
Proof.
  unfold kept_values. intros [Hs Hw]%List.Forall_app. destruct c as [b p st step op at' co sel ep ab fa wo di sh bo pr]. unfold cursor_back. cbn in *. f_equal.
  - rewrite <- (map_id sel) at 2. apply map_ext_in. intros [[[[x y] z] w] v] Hin. cbn. eapply List.Forall_map, List.Forall_forall in Hs; [|exact Hin]. cbn in Hs. by rewrite Hs.
  - destruct sh as [v|]; [|done]. inversion_clear Hw as [|? ? Hv _]. cbn. by rewrite Hv.
Qed.
Lemma document_kept c : document (cursor_back c) = VObject (map (ordered_member CANONICAL) (members (document c))).
Proof.
  destruct c as [b p st step op at' co sel ep ab fa wo di sh bo pr]. unfold document, cursor_back, object. cbn [Cursor.binding Cursor.plan Cursor.started_at Cursor.step Cursor.operation_id Cursor.attempts
    Cursor.commitment Cursor.selected Cursor.episode Cursor.absent Cursor.fault Cursor.workload Cursor.dispatched_at Cursor.shown Cursor.boot Cursor.protection_lost members map].
  unfold ordered_member. cbn [fst snd ordered int text]. rewrite !map_map.
  assert (forall o, canon (optional o) = optional o) as -> by by intros []. assert (forall o, canon (optional o) = optional o) as -> by by intros [].
  assert (canon (default VNull sh) = default VNull (option_map canon sh)) as -> by by destruct sh. do 12 f_equal. f_equal. f_equal. f_equal. apply map_ext. by intros [[[[x y] z] w] v].
Qed.
Lemma ordered_kept c : canon (document (cursor_back c)) = canon (document c).
Proof.
  destruct (document_members c) as (Hdoc & _). rewrite document_kept. rewrite Hdoc at 2. rewrite !ordered_object. f_equal. unfold ordered_member. rewrite in_order_map, map_map. apply map_ext. intros [k v]. cbn [fst snd]. by rewrite ordered_twice.
Qed.
Lemma canonical_kept c : canonical (document (cursor_back c)) = canonical (document c).
Proof. unfold canonical. by rewrite <- (dumps_ordered CANONICAL (document (cursor_back c))), ordered_kept, dumps_ordered. Qed.

Lemma tree_insert_map {K V W} (parts : K -> list string) (f : V -> W) k v (t : list (K * V)) :
  tree_insert parts k (f v) (map (fun kv => (fst kv, f (snd kv))) t) = map (fun kv => (fst kv, f (snd kv))) (tree_insert parts k v t).
Proof. induction t as [|[h w] t IH]; cbn; [done|]. destruct (compare_strings (parts k) (parts h)); cbn; by rewrite ?IH. Qed.
Lemma tree_of_map {K V W} (parts : K -> list string) (f : V -> W) (l : list (K * V)) :
  tree_of parts (map (fun kv => (fst kv, f (snd kv))) l) = map (fun kv => (fst kv, f (snd kv))) (tree_of parts l).
Proof.
  unfold tree_of. change (@nil (K * W)) with (map (fun kv : K * V => (fst kv, f (snd kv))) []). generalize (@nil (K * V)). induction l as [|[k v] l IH]; intros t; cbn; [done|].
  by rewrite tree_insert_map, IH.
Qed.
Lemma retained_kept selected : retained_bytes (tree_of key_parts (map selected_entry (map kept_selected selected))) = retained_bytes (tree_of key_parts (map selected_entry selected)).
Proof.
  rewrite map_map. replace (map (fun x => selected_entry (kept_selected x)) selected) with (map (fun kv : Key * Value => (fst kv, canon (snd kv))) (map selected_entry selected))
    by (rewrite map_map; apply map_ext; by intros [[[[x y] z] w] v]).
  rewrite tree_of_map. unfold retained_bytes, encoded_bytes, canonical. rewrite <- (dumps_ordered CANONICAL (VArray (map _ (tree_of _ _)))). f_equal. f_equal. cbn [ordered]. f_equal. rewrite !map_map. apply map_ext.
  intros [[[[x y] z] w] v]. done.
Qed.
Lemma selection_keys_kept before selected : selection_keys before (map kept_selected selected) = selection_keys before selected.
Proof. revert before. induction selected as [|[[[[x y] z] w] v] l IH]; intros before; [done|]. cbn [map kept_selected selection_keys]. by rewrite IH. Qed.
Lemma selections_kept selected retained : selections_valid (map kept_selected selected) retained = selections_valid selected retained.
Proof. unfold selections_valid. by rewrite selection_keys_kept, retained_kept. Qed.
Lemma shown_kept c : admissible (document c) = true -> shown_valid (Cursor.shown c) = true -> shown_valid (option_map canon (Cursor.shown c)) = true.
Proof.
  intros Ha. destruct (Cursor.shown c) as [s|] eqn:Es; [|done]. apply shown_valid_canon. destruct (document_fields c) as (_ & _ & _ & _ & _ & _ & _ & _ & _ & _ & _ & _ & _ & _ & _ & _ & _ & _ & Hs & _).
  rewrite Es in Hs. cbn in Hs. change (admissible (default VNull (Some s)) = true). cbn [default from_option id]. unfold id.
  unfold at_ in Hs. destruct (get (document c) "shown") as [v|] eqn:Eg; cbn in Hs; subst s; [|done]. by apply (admissible_get (document c) "shown").
Qed.
Lemma checked_kept c : checked c = Ok c -> admissible (document c) = true -> checked (cursor_back c) = Ok (cursor_back c).
Proof.
  unfold checked, checked_within. intros H Ha. inv_ok. rename select (shown_valid _ = true) into Hshown. rename select ((_ <? _) = false) into Hbytes.
  unfold encoded_bytes in *. rewrite canonical_kept, Hbytes.
  change (Cursor.shown (cursor_back c)) with (option_map canon (Cursor.shown c)). change (Cursor.selected (cursor_back c)) with (map kept_selected (Cursor.selected c)). rewrite selections_kept, (shown_kept c Ha Hshown).
  change (operation_valid (cursor_back c)) with (operation_valid c). change (attempt_valid (cursor_back c)) with (attempt_valid c).
  change (Cursor.binding (cursor_back c)) with (Cursor.binding c). change (Cursor.plan (cursor_back c)) with (Cursor.plan c). change (Cursor.started_at (cursor_back c)) with (Cursor.started_at c).
  change (Cursor.step (cursor_back c)) with (Cursor.step c). change (Cursor.boot (cursor_back c)) with (Cursor.boot c).
  repeat match goal with H : _ = true |- _ => rewrite H; clear H end. done.
Qed.

(** C30. Sealing and opening a cursor gives it back: the canonical bytes of a cursor
    whose document is JSON text and numbers within the reader's depth, read by the
    strict reader and decoded under the cursor's own binding, are that cursor, the
    values its selections and its shown output keep with their members in canonical
    order; sealing what was read gives the same bytes again; and a cursor whose kept
    values are in that order already is read back exactly. *)
Theorem decode_encode c raw :
  encode c = Ok raw -> writable_cursor c ->
  decode raw (Cursor.binding c) = Ok (cursor_back c) /\ encode (cursor_back c) = Ok raw
  /\ (List.Forall (fun v => canon v = v) (kept_values c) -> decode raw (Cursor.binding c) = Ok c).
Proof.
  intros He (Ha & Hf & Hh).
  assert (checked c = Ok c /\ raw = canonical (document c)) as [Hc Hraw].
  { unfold encode in He. inv_ok. match goal with H : checked c = Ok _ |- _ => pose proof (checked_Ok _ _ H) as ->; by split end. }
  assert (encode (cursor_back c) = Ok raw) as Hk by (unfold encode; rewrite checked_kept by done; cbn [mbind result_bind]; by rewrite canonical_kept, Hraw).
  assert (decode raw (Cursor.binding c) = Ok (cursor_back c)) as Hd.
  { destruct (document_members c) as (Hdoc & _). change (Cursor.binding c) with (Cursor.binding (cursor_back c)).
    apply (decode_members (cursor_back c) raw (map (ordered_member CANONICAL) (in_order CANONICAL (members (document c))))); [done| |].
    - rewrite <- ordered_object, <- Hdoc, Hraw. by apply parse_dumps.
    - rewrite document_kept. cbn [members]. apply Permutation_map, in_order_perm. }
  split; [done|]. split; [done|]. intros Hv. by rewrite Hd, kept_same.
Qed.
End Safety.

(** ** A run of two steps *)
Definition step_of (raw : Value) : Step.Step :=
  Step.mk (str_or_empty (at_ raw "id")) (str_or_empty (at_ raw "assistant")) (str_or_empty (at_ raw "action"))
    (str_or_empty (at_ raw "pin")) (members (at_ raw "input")) (object []) (object []).
Definition two_steps : Plan.Plan :=
  Plan.mk "UTC" (map step_of (elements (at_ sample_plan "steps"))) (@digest utc_platform sample_plan)
    (at_ sample_plan "output").
Definition hex_a : string := "0123456789abcdef0123456789abcdef".
Definition sha_a : string := "0123456789abcdef0123456789abcdef0123456789abcdef0123456789abcdef".
Definition sample_binding : Binding.Binding := Binding.mk sha_a hex_a 1 hex_a.
Definition operation_a : string := "01234567-89ab-4def-8123-456789abcdef".
Definition found : Value := object [("items"%string, VArray [int 7])].

Definition or_first (r : result Cursor.Cursor) : Cursor.Cursor :=
  match r with
  | Ok c => c
  | Err _ => Cursor.mk sample_binding "" 0 0 None 0 None [] Closed false "" "" 0 None "" false
  end.
Definition at_start : Cursor.Cursor :=
  or_first (start two_steps sample_binding 1767259800 hex_a).
Definition dispatched : Cursor.Cursor :=
  or_first (dispatch at_start two_steps operation_a sha_a "worker-1" 1767259801).
Definition stepped : Cursor.Cursor := or_first (complete dispatched two_steps found None).
Definition recovering : Cursor.Cursor := or_first (open_episode stepped).

Example stepped_ok : Cursor.step stepped = 1%nat
  /\ Cursor.selected stepped = [("find", "/items/0", "", "", int 7)%string].
Proof. vm_compute. auto. Qed.

Lemma run_steps : rtc (cstep two_steps) at_start recovering.
Proof.
  eapply rtc_l.
  { apply (cstep_dispatch _ at_start operation_a sha_a "worker-1" 1767259801 dispatched). vm_compute. reflexivity. }
  eapply rtc_l.
  { apply (cstep_complete _ dispatched found None stepped). vm_compute. reflexivity. }
  eapply rtc_l; [|apply rtc_refl]. apply cstep_open. vm_compute. reflexivity.
Defined.

Lemma cursor_forward_witness : later at_start recovering.
Proof. apply (cursor_forward two_steps at_start recovering). apply run_steps. Defined.

Lemma one_episode_witness :
  (opened (Cursor.episode recovering) = true -> open_episode recovering = Err "cursor-episode-spent")
  /\ (is_continued (Cursor.episode recovering) = true -> continued recovering = Err "cursor-continued").
Proof. apply (one_episode two_steps recovering recovering). apply rtc_refl. Defined.

Definition copied : Value :=
  object [("kind", text "step_output"); ("step", text "find"); ("pointer", text "/items/0")]%string.
Lemma references_resolve_witness :
  exists v, @resolve_input utc_platform two_steps (cursor_selections recovering)
              (Cursor.started_at recovering) copied = Ok v.
Proof.
  apply (@references_resolve utc_platform two_steps sample_binding 1767259800 hex_a at_start
    recovering 0 (step_of (default VNull (elements (at_ sample_plan "steps") !! 0%nat))) copied).
  - vm_compute. reflexivity.
  - apply run_steps.
  - vm_compute. reflexivity.
  - vm_compute. lia.
  - vm_compute. auto.
  - vm_compute. reflexivity.
Defined.

Definition sealed : string := match encode stepped with Ok raw => raw | Err _ => "" end.

(** A cursor that keeps a whole result, its members in the order the Assistant gave. *)
Definition keeps_object : Cursor.Cursor :=
  Cursor.mk (Cursor.binding stepped) (Cursor.plan stepped) (Cursor.started_at stepped) (Cursor.step stepped) (Cursor.operation_id stepped) (Cursor.attempts stepped) (Cursor.commitment stepped)
    [("find", "", "", "", object [("b", VNumber (NFloat (f64 7205759403792794 (-56)))); ("a", int 7)])]%string (Cursor.episode stepped) (Cursor.absent stepped) (Cursor.fault stepped)
    (Cursor.workload stepped) (Cursor.dispatched_at stepped) (Cursor.shown stepped) (Cursor.boot stepped) (Cursor.protection_lost stepped).
Definition sealed_object : string := match encode keeps_object with Ok raw => raw | Err _ => "" end.

Lemma decode_encode_witness :
  keeps_object <> cursor_back keeps_object
  /\ decode sealed_object (Cursor.binding keeps_object) = Ok (cursor_back keeps_object) /\ encode (cursor_back keeps_object) = Ok sealed_object
  /\ (List.Forall (fun v => ordered CANONICAL v = v) (kept_values keeps_object) -> decode sealed_object (Cursor.binding keeps_object) = Ok keeps_object).
Proof.
  split; [vm_compute; discriminate|]. apply (decode_encode keeps_object sealed_object).
  - vm_compute. reflexivity.
  - split_and!; [vm_compute; reflexivity|vm_compute; tauto|vm_compute; discriminate].
Defined.

Lemma decode_sound_witness : Cursor.binding stepped = sample_binding /\ encode stepped = Ok sealed.
Proof. apply (decode_sound sealed sample_binding stepped). vm_compute. reflexivity. Defined.

Lemma cursor_in_range_witness :
  (Cursor.step recovering <= length (Plan.steps two_steps))%nat
  /\ (done_ recovering two_steps = false -> is_Some (Plan.steps two_steps !! Cursor.step recovering)).
Proof.
  destruct (cursor_in_range two_steps sample_binding 1767259800 hex_a at_start recovering)
    as (H1 & H2 & _).
  - vm_compute. reflexivity.
  - apply run_steps.
  - split; assumption.
Defined.
