(* ===== verification/Journal.v ===== *)
(** * The Action journal

    [action/src/journal]: the durable record of Assistant Action side effects,
    over one SQLite database.  Its two tables are lists of rows; each SQL
    statement of the code is the operation on the tables that it denotes, with
    the [CHECK], [UNIQUE] and [FOREIGN KEY] constraints of the schema.  The engine
    that runs a statement may refuse it at any time ([Engine]); a transaction
    that does not commit leaves the tables as they were.  [result.rs] and the
    handles ([journal/handle.rs]) are here too. *)

From stdpp Require Import base tactics list strings pretty.
From Stdlib Require Import ZArith Lia Ascii.
From S2P Require Import Prelude Text Json Reader Calendar Platform.

#[local] Open Scope Z_scope.

(** ** Bounded results ([action/src/result.rs]) *)
Definition MAX_RESULT_BYTES : Z := 512 * 1024.
Definition MAX_JSON_DEPTH : Z := 32.
Definition MAX_JSON_NODES : nat := 4096.

Inductive ResultError : Type := Structure_ | Size.

(** [walk]: the stack's top is the list's head; an array's or object's values
    are pushed in order, so the last is visited first. *)
Fixpoint walk_pending (budget : nat) (pending : list (Value * Z)) : ResultError + unit :=
  match pending with
  | [] => inr tt
  | (value, depth) :: pending =>
      match budget with
      | O => inl Structure_
      | S budget =>
          if MAX_JSON_DEPTH <? depth then inl Structure_
          else walk_pending budget
                 (rev (map (fun item => (item, depth + 1)) (elements value ++ map snd (members value))) ++ pending)
      end
  end.
Definition walk (value : Value) : ResultError + unit := walk_pending MAX_JSON_NODES [(value, 0)].

(** [result::canonical]. *)
Definition result_canonical (value : Value) (max_bytes : Z) : ResultError + string :=
  match walk value with
  | inl e => inl e
  | inr _ =>
      let encoded := canonical value in
      if max_bytes <? slen encoded then inl Size else inr encoded
  end.
Definition require_durable (value : Value) : ResultError + unit :=
  match result_canonical value MAX_RESULT_BYTES with inl e => inl e | inr _ => inr tt end.

(** ** Errors and answers *)
Inductive JournalError : Type :=
| Failure (text : string)
| Conflict (text : string)
| Uncertain
| Corrupt (text : string)
| Archived.

Inductive answer (A : Type) : Type :=
| Done (a : A)
| Refused (e : JournalError).
Arguments Done {A} a.
Arguments Refused {A} e.

(** ** Handles ([journal/handle.rs]) *)
Module Operation.
Record Operation : Type := mk {
  interrupt_id : string;
  fingerprint : string;
  operation_id : option string
}.
End Operation.
#[global] Instance operation_eq_dec : EqDecision Operation.Operation.
Proof. solve_decision. Defined.

Module Batch.
Record Batch : Type := mk {
  generation : string;
  fingerprint : string;
  operations : list Operation.Operation
}.
End Batch.

(** [Batch::require]. *)
Definition require (b : Batch.Batch) (o : Operation.Operation) : answer unit :=
  if bool_decide (o ∈ Batch.operations b) then Done tt
  else Refused (Conflict "operation does not belong to this Action batch").

(** A buffer of [n] bytes, zero at first, that a source filled. *)
Fixpoint buffer (n : nat) (s : string) : string :=
  match n, s with
  | O, _ => ""
  | S n', String a s' => String a (buffer n' s')
  | S n', EmptyString => String "000" (buffer n' "")
  end.
Fixpoint map_byte (i : nat) (f : ascii -> ascii) (s : string) : string :=
  match i, s with
  | _, EmptyString => ""
  | O, String a s' => String (f a) s'
  | S i', String a s' => String a (map_byte i' f s')
  end.
Definition slice (from to : nat) (s : string) : string := fst (split_at (to - from) (snd (split_at from s))).

(** The text of one drawn buffer, made a version 4 UUID. *)
Definition uuid_of (bytes : string) : string :=
  let bytes := map_byte 6 (fun a => byte_of (Z.lor (Z.land (byte_code a) 0x0f) 0x40)) bytes in
  let bytes := map_byte 8 (fun a => byte_of (Z.lor (Z.land (byte_code a) 0x3f) 0x80)) bytes in
  let hex := hex_of bytes in
  slice 0 8 hex +:+ "-" +:+ slice 8 12 hex +:+ "-" +:+ slice 12 16 hex +:+ "-" +:+ slice 16 20 hex
  +:+ "-" +:+ snd (split_at 20 hex).
Definition new_operation_id {E} `{!Entropy E} (e : E) : E * option string :=
  match fill 16 e with
  | (e', Some bytes) => (e', Some (uuid_of (buffer 16 bytes)))
  | (e', None) => (e', None)
  end.

Definition valid_operation_id (text : string) : bool := OPERATION_ID_RE text.

Definition safe_id (text : string) : answer string :=
  if SAFE_ID_RE text then Done text else Refused (Conflict "an Action journal identifier is invalid").

(** [handle::operation]: the shape of one operation. *)
Definition operation_shape (o : Operation.Operation) : answer unit :=
  if negb (SAFE_ID_RE (Operation.interrupt_id o)) then Refused (Conflict "an Action journal identifier is invalid")
  else if negb (SHA256_RE (Operation.fingerprint o)) then Refused (Conflict "operation fingerprint is invalid")
  else match Operation.operation_id o with
       | Some id => if valid_operation_id id then Done tt else Refused (Conflict "operation id is invalid")
       | None => Done tt
       end.
Fixpoint each_shape (os : list Operation.Operation) : answer unit :=
  match os with
  | [] => Done tt
  | o :: os => match operation_shape o with Done _ => each_shape os | Refused e => Refused e end
  end.

(** A repeated text: one that an earlier one equals. *)
Fixpoint repeated (seen ids : list string) : bool :=
  match ids with
  | [] => false
  | id :: ids => contains seen id || repeated (seen ++ [id]) ids
  end.

Section Handles.
  Context {PF : Platform}.

Definition identity (generation thread : string) (operations : list Operation.Operation) : Value :=
  VObject [("generation", VString generation);
           ("operations", VArray (map (fun item =>
              VArray (VString (Operation.interrupt_id item) :: VString (Operation.fingerprint item)
                      :: match Operation.operation_id item with Some id => [VString id] | None => [] end))
              operations));
           ("thread", VString (sha256_hex thread))]%string.

Definition build (generation thread_id : string) (operations : list Operation.Operation) (maximum : Z)
  : answer Batch.Batch :=
  if negb (SAFE_ID_RE generation) || negb (SAFE_ID_RE thread_id)
  then Refused (Conflict "an Action journal identifier is invalid")
  else match each_shape operations with
  | Refused e => Refused e
  | Done _ =>
      if bool_decide (operations = []) || (maximum <? len operations)
      then Refused (Conflict "Action batch exceeds the operation count limit")
      else if repeated [] (map Operation.interrupt_id operations)
      then Refused (Conflict "Action batch repeats an interrupt id")
      else if repeated [] (omap Operation.operation_id operations)
      then Refused (Conflict "Action batch repeats an operation id")
      else Done (Batch.mk generation (sha256_hex (canonical (identity generation thread_id operations))) operations)
  end.
End Handles.

(** ** The tables *)
Module BatchRow.
Record BatchRow : Type := mk {
  generation : string;
  fingerprint : string;
  operation_count : Z;
  state : string;
  archivable : Z
}.
#[global] Instance eta_batch_row : Eta BatchRow :=
  fun r => mk (generation r) (fingerprint r) (operation_count r) (state r) (archivable r).
End BatchRow.

(** [Row], with the columns the handles do not read. *)
Module OperationRow.
Record OperationRow : Type := mk {
  generation : string;
  ordinal : Z;
  interrupt_id : string;
  fingerprint : string;
  operation_id : string;
  attempts : Z;
  state : string;
  origin : option string;
  result : option string
}.
#[global] Instance eta_operation_row : Eta OperationRow :=
  fun r => mk (generation r) (ordinal r) (interrupt_id r) (fingerprint r) (operation_id r) (attempts r) (state r)
             (origin r) (result r).
End OperationRow.

#[global] Instance upd_batch_state : Upd BatchRow.state := ltac:(solve_upd).
#[global] Instance upd_row_state : Upd OperationRow.state := ltac:(solve_upd).
#[global] Instance upd_row_attempts : Upd OperationRow.attempts := ltac:(solve_upd).
#[global] Instance upd_row_origin : Upd OperationRow.origin := ltac:(solve_upd).
#[global] Instance upd_row_result : Upd OperationRow.result := ltac:(solve_upd).

Record Tables : Type := mkTables {
  batches : list BatchRow.BatchRow;
  operations : list OperationRow.OperationRow
}.

(** The [CHECK] constraints. *)
Definition batch_check (r : BatchRow.BatchRow) : bool :=
  (0 <? BatchRow.operation_count r) && contains ["open"; "ended"; "archived"]%string (BatchRow.state r)
  && ((BatchRow.archivable r =? 0) || (BatchRow.archivable r =? 1))
  && (negb (BatchRow.state r =s "archived") || (BatchRow.archivable r =? 1)).
Definition STATES : list string := ["prepared"; "executing"; "completed"; "no_effect"]%string.
Definition operation_check (r : OperationRow.OperationRow) : bool :=
  let state := OperationRow.state r in
  let origin := OperationRow.origin r in
  let result := OperationRow.result r in
  (0 <=? OperationRow.ordinal r) && (0 <=? OperationRow.attempts r) && contains STATES state
  && match origin with None => true | Some o => o =s "execution" end
  && (((state =s "prepared") || (state =s "executing")) && bool_decide (origin = None) && bool_decide (result = None)
      || (state =s "completed") && bool_decide (origin <> None) && bool_decide (result <> None)
      || (state =s "no_effect") && bool_decide (origin <> None) && bool_decide (result = None)).

(** *** Statements

    Each gives the rows it selects, or the tables after it with the number of
    rows it changed, or [None] when a constraint refuses it. *)
Definition of_generation (g : string) (r : OperationRow.OperationRow) : bool := OperationRow.generation r =s g.

Definition select_batch (g : string) (t : Tables) : option BatchRow.BatchRow :=
  List.find (fun r => BatchRow.generation r =s g) (batches t).
(** [SELECT .. FROM operations WHERE generation = ? ORDER BY ordinal]. *)
Definition select_operations (g : string) (t : Tables) : list OperationRow.OperationRow :=
  stable_sort (fun a b => OperationRow.ordinal a <=? OperationRow.ordinal b)
    (List.filter (of_generation g) (operations t)).
Definition count_batches (p : BatchRow.BatchRow -> bool) (t : Tables) : Z := len (List.filter p (batches t)).

Definition insert_into_batches (r : BatchRow.BatchRow) (t : Tables) : option (Z * Tables) :=
  if batch_check r && negb (existsb (fun s => BatchRow.generation s =s BatchRow.generation r) (batches t))
  then Some (1, mkTables (batches t ++ [r]) (operations t)) else None.

Definition same_key (r s : OperationRow.OperationRow) : bool :=
  (OperationRow.generation r =s OperationRow.generation s)
  && ((OperationRow.interrupt_id r =s OperationRow.interrupt_id s)
      || (OperationRow.ordinal r =? OperationRow.ordinal s)
      || (OperationRow.operation_id r =s OperationRow.operation_id s)).
Definition insert_into_operations (r : OperationRow.OperationRow) (t : Tables) : option (Z * Tables) :=
  if operation_check r && negb (existsb (same_key r) (operations t))
     && existsb (fun s => BatchRow.generation s =s OperationRow.generation r) (batches t)
  then Some (1, mkTables (batches t) (operations t ++ [r])) else None.

(** [UPDATE .. SET .. WHERE ..]; no statement sets a key. *)
Definition update_rows {A} (check : A -> bool) (where_ : A -> bool) (set : A -> A) (rows : list A) : option (Z * list A) :=
  let updated := map (fun r => if where_ r then set r else r) rows in
  if forallb (fun r => negb (where_ r) || check (set r)) rows
  then Some (len (List.filter where_ rows), updated) else None.
Definition update_batches where_ set (t : Tables) : option (Z * Tables) :=
  match update_rows batch_check where_ set (batches t) with
  | Some (n, rows) => Some (n, mkTables rows (operations t))
  | None => None
  end.
Definition update_operations where_ set (t : Tables) : option (Z * Tables) :=
  match update_rows operation_check where_ set (operations t) with
  | Some (n, rows) => Some (n, mkTables (batches t) rows)
  | None => None
  end.

(** [DELETE FROM batches WHERE ..], which cascades to the batches' operations. *)
Definition delete_from_batches (where_ : BatchRow.BatchRow -> bool) (t : Tables) : option (Z * Tables) :=
  let gone := map BatchRow.generation (List.filter where_ (batches t)) in
  Some (len gone, mkTables (List.filter (fun r => negb (where_ r)) (batches t))
                           (List.filter (fun r => negb (contains gone (OperationRow.generation r))) (operations t))).
Definition delete_from_operations (where_ : OperationRow.OperationRow -> bool) (t : Tables) : option (Z * Tables) :=
  Some (len (List.filter where_ (operations t)),
        mkTables (batches t) (List.filter (fun r => negb (where_ r)) (operations t))).

(** ** The journal *)

(** The engine under the connection: whether the next statement fails. *)
Class Engine (F : Type) := fails : F -> F * bool.

Module Limits.
Record Limits : Type := mk {
  max_generations : Z;
  max_operations : Z;
  max_result_bytes : Z;
  max_archived : Z
}.
End Limits.
Definition MAX_GENERATIONS : Z := 1024.
Definition MAX_ARCHIVED : Z := 4096.
Definition MAX_OPERATIONS : Z := 64.
(** [Limits::default]. *)
Definition default_limits : Limits.Limits :=
  Limits.mk MAX_GENERATIONS MAX_OPERATIONS MAX_RESULT_BYTES MAX_ARCHIVED.

Module Journal.
Record Journal {F E : Type} : Type := mk {
  limits : Limits.Limits;
  connected : bool;
  tables : Tables;
  engine : F;
  entropy : E
}.
Arguments Journal : clear implicits.
End Journal.

Section Monad.
  Context {F E : Type}.
  Abbreviation J := (Journal.Journal F E).

Definition with_tables (t : Tables) (j : J) : J :=
  Journal.mk _ _ (Journal.limits j) (Journal.connected j) t (Journal.engine j) (Journal.entropy j).
Definition with_engine (f : F) (j : J) : J :=
  Journal.mk _ _ (Journal.limits j) (Journal.connected j) (Journal.tables j) f (Journal.entropy j).
Definition with_entropy (e : E) (j : J) : J :=
  Journal.mk _ _ (Journal.limits j) (Journal.connected j) (Journal.tables j) (Journal.engine j) e.

End Monad.

Definition journaled (F E A : Type) : Type := Journal.Journal F E -> Journal.Journal F E * answer A.
#[global] Instance journaled_ret {F E} : MRet (journaled F E) := fun A a j => (j, Done a).
#[global] Instance journaled_bind {F E} : MBind (journaled F E) :=
  fun A B f m j =>
    match m j with
    | (j', Done a) => f a j'
    | (j', Refused e) => (j', Refused e)
    end.
Definition raise {F E A} (e : JournalError) : journaled F E A := fun j => (j, Refused e).
Definition pure {F E A} (a : answer A) : journaled F E A := fun j => (j, a).

Module OperationRecord.
Record OperationRecord : Type := mk {
  interrupt_id : string;
  operation_id : string;
  state : string;
  attempts : Z;
  origin : option string
}.
End OperationRecord.
Definition record_of (r : OperationRow.OperationRow) : OperationRecord.OperationRecord :=
  OperationRecord.mk (OperationRow.interrupt_id r) (OperationRow.operation_id r) (OperationRow.state r)
    (OperationRow.attempts r) (OperationRow.origin r).

(** What [begin] decides: run now, or replay this result. *)
Module Execution.
Record Execution : Type := mk { execute : bool; result : option Value; operation_id : string }.
End Execution.

Section Operations.
  Context {F E : Type} `{!Engine F} `{!Entropy E} {PF : Platform}.
  Abbreviation J := (Journal.Journal F E).
  Abbreviation act := (journaled F E).

(** One statement: what it answers, [None] when the engine or a constraint
    refuses it. *)
Definition statement {A} (work : Tables -> option (A * Tables)) : act (option A) := fun j =>
  match fails (Journal.engine j) with
  | (f, true) => (with_engine f j, Done None)
  | (f, false) =>
      let j := with_engine f j in
      match work (Journal.tables j) with
      | Some (a, t) => (with_tables t j, Done (Some a))
      | None => (j, Done None)
      end
  end.
(** A [SELECT]. *)
Definition query {A} (work : Tables -> A) : act (option A) := statement (fun t => Some (work t, t)).

Definition write {A} (r : option A) (failure : string) : act A :=
  match r with Some a => mret a | None => raise (Failure failure) end.
Definition read_ {A} (r : option A) (failure : string) : act A :=
  match r with Some a => mret a | None => raise (Corrupt failure) end.

Definition executed (work : Tables -> option (Z * Tables)) (failure : string) : act Z :=
  r ← statement work; write r failure.
Definition queried {A} (work : Tables -> A) (failure : string) : act A :=
  r ← query work; write r failure.

(** [self.with]: the connection is open. *)
Definition with_connection {A} (work : act A) : act A := fun j =>
  if Journal.connected j then work j else (j, Refused (Failure "Action journal is closed")).

Definition close : J -> J := fun j =>
  Journal.mk _ _ (Journal.limits j) false (Journal.tables j) (Journal.engine j) (Journal.entropy j).

(** [self.writing]: one transaction.  A refusal or a failed commit rolls back. *)
Definition writing {A} (failure : string) (work : act A) : act A :=
  with_connection (fun j =>
    match statement (fun t => Some (tt, t)) j with
    | (j1, Done (Some _)) =>
        match work j1 with
        | (j2, Done a) =>
            match statement (fun t => Some (tt, t)) j2 with
            | (j3, Done (Some _)) => (j3, Done a)
            | (j3, _) => (with_tables (Journal.tables j1) j3,
                          Refused (Failure "Action journal transaction could not commit"))
            end
        | (j2, Refused e) =>
            (with_tables (Journal.tables j1) j2,
             Refused (match e with Failure _ => Failure failure | other => other end))
        end
    | (j1, _) => (j1, Refused (Failure "Action journal transaction could not start"))
    end).

Definition require_changed (changed : Z) (message : string) : act unit :=
  if changed =? 1 then mret tt else raise (Conflict message).

Definition header_matches (r : BatchRow.BatchRow) (b : Batch.Batch) : bool :=
  BatchRow.fingerprint r =s Batch.fingerprint b.

(** One stored row is the handle's operation at this index. *)
Definition row_matches (index : Z) (row : OperationRow.OperationRow) (expected : Operation.Operation) : bool :=
  (OperationRow.ordinal row =? index)
  && (OperationRow.interrupt_id row =s Operation.interrupt_id expected)
  && (OperationRow.fingerprint row =s Operation.fingerprint expected)
  && contains STATES (OperationRow.state row)
  && valid_operation_id (OperationRow.operation_id row)
  && match Operation.operation_id expected with Some id => id =s OperationRow.operation_id row | None => true end.
Fixpoint rows_match (index : Z) (rows : list OperationRow.OperationRow) (expected : list Operation.Operation) : bool :=
  match rows, expected with
  | [], [] => true
  | row :: rows, o :: expected => row_matches index row o && rows_match (index + 1) rows expected
  | _, _ => false
  end.

(** [handle::load]. *)
Definition load (b : Batch.Batch) : act (list OperationRow.OperationRow) :=
  let failure := "Action journal batch could not be read" in
  header ← (r ← query (select_batch (Batch.generation b)); read_ r failure);
  match header with
  | None => raise (Conflict "Action batch is no longer current")
  | Some h =>
      if header_matches h b && negb (BatchRow.state h =s "open") then raise (Conflict "Action batch has ended")
      else
        rows ← (r ← query (select_operations (Batch.generation b)); read_ r failure);
        if header_matches h b && (BatchRow.operation_count h =? len (Batch.operations b))
           && rows_match 0 rows (Batch.operations b)
        then mret rows
        else raise (Conflict "Action batch changed or is corrupt")
  end.

(** [Journal::operation]. *)
Definition operation (b : Batch.Batch) (o : Operation.Operation) : act OperationRow.OperationRow :=
  rows ← load b;
  match List.find (fun row => OperationRow.interrupt_id row =s Operation.interrupt_id o) rows with
  | Some row => mret row
  | None => raise (Conflict "Action operation changed, ended, or is corrupt")
  end.

(** *** Preparing a batch *)
Definition count (p : BatchRow.BatchRow -> bool) : act Z :=
  r ← query (count_batches p); read_ r "Action journal capacity is invalid".

Definition reserve (archivable : bool) : act unit :=
  active ← count (fun r => negb (BatchRow.state r =s "archived"));
  limits ← (fun j => (j, Done (Journal.limits j)));
  if Limits.max_generations limits <=? active
  then raise (Conflict "Action journal generation capacity is exhausted")
  else if archivable then
    markers ← count (fun r => BatchRow.archivable r =? 1);
    if Limits.max_archived limits <=? markers
    then raise (Conflict "Action journal archive capacity is exhausted")
    else mret tt
  else mret tt.

Definition draw_id : act (option string) := fun j =>
  let '(e, id) := new_operation_id (Journal.entropy j) in (with_entropy e j, Done id).

Fixpoint insert_operations (generation : string) (ordinal : Z) (os : list Operation.Operation) : act unit :=
  let failure := "Action batch could not be prepared" in
  match os with
  | [] => mret tt
  | o :: os =>
      operation_id ← (match Operation.operation_id o with
                      | Some id => mret id
                      | None => id ← draw_id; write id failure
                      end);
      _ ← executed (insert_into_operations
             (OperationRow.mk generation ordinal (Operation.interrupt_id o) (Operation.fingerprint o) operation_id
                0 "prepared" None None)) failure;
      insert_operations generation (ordinal + 1) os
  end.
Definition insert_batch (b : Batch.Batch) (archivable : bool) : act unit :=
  _ ← executed (insert_into_batches
         (BatchRow.mk (Batch.generation b) (Batch.fingerprint b) (len (Batch.operations b)) "open"
            (if archivable then 1 else 0))) "Action batch could not be prepared";
  insert_operations (Batch.generation b) 0 (Batch.operations b).

Definition in_generation (b : Batch.Batch) (r : BatchRow.BatchRow) : bool := BatchRow.generation r =s Batch.generation b.

Definition reopen (b : Batch.Batch) (state : string) : act unit :=
  _ ← (if state =s "ended" then
         changed ← executed (update_batches
                      (fun r => in_generation b r && header_matches r b && (BatchRow.state r =s "ended"))
                      (fun r => r <| BatchRow.state := "open"%string |>)) "Action batch could not be prepared";
         require_changed changed "ended Action batch changed before replay"
       else mret tt);
  _ ← load b;
  mret tt.

Definition retire_ended (b : Batch.Batch) : act unit :=
  let failure := "Action batch could not be prepared" in
  ended ← queried (fun t => map OperationRow.interrupt_id
                              (List.filter (of_generation (Batch.generation b)) (operations t))) failure;
  if existsb (fun o => contains ended (Operation.interrupt_id o)) (Batch.operations b)
  then raise (Conflict "Action batch repeats an ended Action interrupt")
  else
    changed ← executed (delete_from_batches (fun r => in_generation b r && (BatchRow.state r =s "ended"))) failure;
    require_changed changed "ended Action batch changed before replacement".

Definition prepare_work (b : Batch.Batch) (archivable : bool) : act unit :=
  row ← queried (select_batch (Batch.generation b)) "Action batch could not be prepared";
  match row with
  | None => _ ← reserve archivable; insert_batch b archivable
  | Some r =>
      if BatchRow.state r =s "archived" then raise Archived
      else if header_matches r b then
        if negb (BatchRow.archivable r =? (if archivable then 1 else 0))
        then raise (Conflict "Action batch changed its archive reservation")
        else reopen b (BatchRow.state r)
      else if BatchRow.state r =s "open"
      then raise (Conflict "another Action batch is pending for this generation")
      else _ ← retire_ended b; _ ← reserve archivable; insert_batch b archivable
  end.

Definition batch (generation thread_id : string) (os : list Operation.Operation) : act Batch.Batch := fun j =>
  (j, build generation thread_id os (Limits.max_operations (Journal.limits j))).

Definition prepare_batch (generation thread_id : string) (os : list Operation.Operation) (archivable : bool)
  : act Batch.Batch :=
  b ← batch generation thread_id os;
  _ ← writing "Action batch could not be prepared" (prepare_work b archivable);
  mret b.

(** *** Running one operation *)
(** [Journal::decode]: the stored bytes are exactly the canonical ones. *)
Definition decode_result (raw : option string) : act Value := fun j =>
  let corrupt := Refused (Corrupt "cached Action result is invalid") in
  let maximum := Limits.max_result_bytes (Journal.limits j) in
  match raw with
  | Some raw =>
      if maximum <? slen raw then (j, corrupt)
      else match json_parse raw with
           | Some value =>
               match result_canonical value maximum with
               | inr encoded => if encoded =s raw then (j, Done value) else (j, corrupt)
               | inl _ => (j, corrupt)
               end
           | None => (j, corrupt)
           end
  | None => (j, corrupt)
  end.

Definition is_row (b : Batch.Batch) (o : Operation.Operation) (state : string) (r : OperationRow.OperationRow) : bool :=
  of_generation (Batch.generation b) r && (OperationRow.interrupt_id r =s Operation.interrupt_id o)
  && (OperationRow.state r =s state).

Definition begin_work (b : Batch.Batch) (o : Operation.Operation) : act Execution.Execution :=
  row ← operation b o;
  let state := OperationRow.state row in
  if state =s "executing" then raise Uncertain
  else if state =s "no_effect" then raise (Conflict "Action operation already ended without effect")
  else if state =s "completed" then
    value ← decode_result (OperationRow.result row);
    mret (Execution.mk false (Some value) (OperationRow.operation_id row))
  else if bool_decide (OperationRow.result row <> None)
  then raise (Corrupt "Action operation has an invalid durable state")
  else
    changed ← executed (update_operations (is_row b o "prepared")
                 (fun r => r <| OperationRow.state := "executing"%string |>
                             <| OperationRow.attempts := OperationRow.attempts r + 1 |>))
                "Action execution could not begin";
    _ ← require_changed changed "Action operation changed before execution";
    mret (Execution.mk true None (OperationRow.operation_id row)).
Definition begin (b : Batch.Batch) (o : Operation.Operation) : act Execution.Execution :=
  _ ← pure (require b o);
  writing "Action execution could not begin" (begin_work b o).

Definition settle_work (b : Batch.Batch) (o : Operation.Operation) (state : string) (encoded : option string) : act unit :=
  row ← operation b o;
  if (OperationRow.state row =s state) && bool_decide (OperationRow.origin row = Some "execution"%string) then
    if bool_decide (OperationRow.result row = encoded) then mret tt
    else raise (Conflict "Action result changed after completion")
  else if negb (OperationRow.state row =s "executing") || bool_decide (OperationRow.result row <> None)
  then raise (Conflict "Action operation was not executing")
  else
    changed ← executed (update_operations (is_row b o "executing")
                 (fun r => r <| OperationRow.state := state |> <| OperationRow.origin := Some "execution"%string |>
                             <| OperationRow.result := encoded |>)) "Action result could not be committed";
    require_changed changed "Action operation changed before completion".
Definition settle (b : Batch.Batch) (o : Operation.Operation) (state : string) (encoded : option string) : act unit :=
  _ ← pure (require b o);
  writing "Action result could not be committed" (settle_work b o state encoded).

(** [Journal::complete]. *)
Definition complete_operation (b : Batch.Batch) (o : Operation.Operation) (result : Value) : act unit := fun j =>
  match result_canonical result (Limits.max_result_bytes (Journal.limits j)) with
  | inr encoded => settle b o "completed" (Some encoded) j
  | inl _ => (j, Refused (Conflict "Action result is not bounded canonical JSON"))
  end.
Definition fail_without_effect (b : Batch.Batch) (o : Operation.Operation) : act unit := settle b o "no_effect" None.

Definition reprepare_work (b : Batch.Batch) (o : Operation.Operation) (failure : string) : act unit :=
  row ← operation b o;
  if negb (OperationRow.state row =s "executing") || bool_decide (OperationRow.result row <> None)
  then raise (Conflict "Action operation was not executing")
  else
    changed ← executed (update_operations
                 (fun r => is_row b o "executing" r && bool_decide (OperationRow.result r = None))
                 (fun r => r <| OperationRow.state := "prepared"%string |>)) failure;
    require_changed changed "Action operation changed before it returned to prepared".
Definition reprepare (b : Batch.Batch) (o : Operation.Operation) (failure : string) : act unit :=
  _ ← pure (require b o);
  writing failure (reprepare_work b o failure).
Definition suspend (b : Batch.Batch) (o : Operation.Operation) : act unit :=
  reprepare b o "Action suspension could not be committed".
Definition not_dispatched (b : Batch.Batch) (o : Operation.Operation) : act unit :=
  reprepare b o "Action dispatch refusal could not be committed".

(** *** Ending a batch *)
Definition current (b : Batch.Batch) (replaced : string) : act bool :=
  row ← queried (select_batch (Batch.generation b)) "Action journal state could not be read";
  match row with
  | None => mret false
  | Some r => if header_matches r b then mret true else raise (Conflict replaced)
  end.

(** [Journal::delete]. *)
Definition delete_batch (b : Batch.Batch) (failure message : string) : act unit :=
  changed ← executed (delete_from_batches (fun r => in_generation b r && header_matches r b)) failure;
  require_changed changed message.

Fixpoint decode_rows (rows : list OperationRow.OperationRow) : act unit :=
  match rows with
  | [] => mret tt
  | row :: rows => _ ← decode_result (OperationRow.result row); decode_rows rows
  end.

Definition delivered (b : Batch.Batch) : act unit :=
  let failure := "Action batch delivery could not be committed" in
  writing failure (
    here ← current b "a newer Action batch replaced this delivery handle";
    if negb here then mret tt
    else
      rows ← load b;
      if existsb (fun row => negb (OperationRow.state row =s "completed")) rows
      then raise (Conflict "Action batch cannot be delivered before every result exists")
      else _ ← decode_rows rows; delete_batch b failure "Action batch changed before delivery").

Definition abandon_uncertain (b : Batch.Batch) : act bool :=
  let failure := "uncertain Action batch could not be abandoned" in
  writing failure (
    here ← current b "a newer Action batch replaced this abandonment handle";
    if negb here then mret false
    else
      rows ← load b;
      if forallb (fun row => negb (OperationRow.state row =s "executing")) rows then mret false
      else _ ← delete_batch b failure "Action batch changed before terminal abandonment"; mret true).

(** [end_settled] of the states of a generation's operations. *)
Definition end_settled_states (generation : string) (states : list string) : act bool :=
  if existsb (fun s => s =s "executing") states then mret false
  else
    changed ← executed (update_batches
                 (fun r => (BatchRow.generation r =s generation) && (BatchRow.state r =s "open"))
                 (fun r => r <| BatchRow.state := "ended"%string |>)) "Action batch could not be ended";
    _ ← require_changed changed "Action batch changed before it ended";
    mret true.

(** [Journal::end]. *)
Definition end_batch (b : Batch.Batch) : act bool :=
  writing "Action batch could not be ended" (
    row ← queried (select_batch (Batch.generation b)) "Action batch could not be ended";
    match row with
    | None => mret false
    | Some r =>
        if header_matches r b && (BatchRow.state r =s "ended") then mret false
        else if negb (header_matches r b) then raise (Conflict "a newer Action batch replaced this ending handle")
        else rows ← load b; end_settled_states (Batch.generation b) (map OperationRow.state rows)
    end).

(** [Journal::end_settled]. *)
Definition end_settled (generation : string) : act unit :=
  let failure := "settled Action generation could not be ended" in
  g ← pure (safe_id generation);
  writing failure (
    states ← queried (fun t =>
      if existsb (fun r => (BatchRow.generation r =s g) && (BatchRow.state r =s "open")) (batches t)
      then map OperationRow.state (List.filter (of_generation g) (operations t)) else []) failure;
    if bool_decide (states = []) then mret tt
    else _ ← end_settled_states g states; mret tt).

(** *** Whole generations ([journal/lifecycle.rs]) *)
Definition header (generation : string) : act (option BatchRow.BatchRow) :=
  g ← pure (safe_id generation);
  with_connection (queried (select_batch g) "Action journal state could not be read").

Definition snapshot (generation fingerprint : string) : act (list OperationRecord.OperationRecord) :=
  h ← header generation;
  match h with
  | Some r =>
      if BatchRow.fingerprint r =s fingerprint then
        if BatchRow.state r =s "archived" then raise Archived
        else with_connection (queried (fun t => map record_of (select_operations generation t))
                                "Action journal state could not be read")
      else raise (Conflict "Action batch is no longer current")
  | None => raise (Conflict "Action batch is no longer current")
  end.

Definition archive (generation fingerprint : string) : act unit :=
  g ← pure (safe_id generation);
  let failure := "Action batch could not be archived" in
  writing failure (
    row ← queried (select_batch g) failure;
    match row with
    | Some r =>
        if negb (BatchRow.fingerprint r =s fingerprint) then raise (Conflict "Action batch is no longer current")
        else if BatchRow.state r =s "archived" then mret tt
        else if negb (BatchRow.archivable r =? 1) then raise (Conflict "Action batch holds no archive reservation")
        else
          changed ← executed (update_batches
                       (fun r => (BatchRow.generation r =s g) && (BatchRow.fingerprint r =s fingerprint))
                       (fun r => r <| BatchRow.state := "archived"%string |>)) failure;
          _ ← require_changed changed "Action batch changed before it was archived";
          _ ← executed (delete_from_operations (of_generation g)) failure;
          mret tt
    | None => raise (Conflict "Action batch is no longer current")
    end).

Definition release_archive (generation fingerprint : string) : act unit :=
  g ← pure (safe_id generation);
  let failure := "Action archive could not be released" in
  writing failure (
    row ← queried (select_batch g) failure;
    match row with
    | None => mret tt
    | Some r =>
        if (BatchRow.fingerprint r =s fingerprint) && (BatchRow.state r =s "archived") then
          _ ← executed (delete_from_batches (fun r => BatchRow.generation r =s g)) failure;
          mret tt
        else raise (Conflict "Action generation holds no such archived batch")
    end).

(** [remove]: the batches of a generation that the statement selects. *)
Definition remove_where (failure : string) (where_ : BatchRow.BatchRow -> bool) (generation : string) : act unit :=
  g ← pure (safe_id generation);
  writing failure (
    _ ← executed (delete_from_batches (fun r => (BatchRow.generation r =s g) && where_ r)) failure;
    mret tt).
Definition discard (generation : string) : act unit :=
  remove_where "Action generation could not be discarded" (fun r => negb (BatchRow.state r =s "archived")) generation.
Definition purge (generation : string) : act unit :=
  remove_where "Action generation could not be purged" (fun _ => true) generation.
Definition purge_batch (generation fingerprint : string) : act unit :=
  if negb (SHA256_RE fingerprint) then raise (Conflict "Action batch fingerprint is invalid")
  else remove_where "Action batch could not be purged" (fun r => BatchRow.fingerprint r =s fingerprint) generation.

Definition current_batch (generation : string) : act (option (string * string)) :=
  h ← header generation;
  mret (option_map (fun r => (BatchRow.fingerprint r, BatchRow.state r)) h).

Definition uncertain_fingerprint (generation : string) : act (option string) :=
  g ← pure (safe_id generation);
  with_connection (queried (fun t =>
    match select_batch g t with
    | Some r =>
        if existsb (fun row => of_generation g row && (OperationRow.state row =s "executing")) (operations t)
        then Some (BatchRow.fingerprint r) else None
    | None => None
    end) "Action journal state could not be read").
End Operations.

(** ** Schema validation *)
Module Schema.
Record Schema : Type := mk {
  check : list string;
  application : Z;
  version : Z;
  tables : list string;
  batches : list string;
  operations : list string;
  dangling : bool
}.
End Schema.
Definition SCHEMA_VERSION : Z := 3.
Definition APPLICATION_ID : Z := 0x53484A31.

(** [validate_schema], of what [read_schema] read. *)
Definition validate_schema (read : option Schema.Schema) : answer unit :=
  match read with
  | None => Refused (Corrupt "Action journal integrity could not be verified")
  | Some schema =>
      if bool_decide (Schema.check schema = ["ok"%string])
         && (Schema.application schema =? APPLICATION_ID) && (Schema.version schema =? SCHEMA_VERSION)
         && bool_decide (Schema.tables schema = ["batches"; "operations"]%string)
         && bool_decide (Schema.batches schema = ["generation"; "fingerprint"; "operation_count"; "state"; "archivable"]%string)
         && bool_decide (Schema.operations schema =
              ["generation"; "ordinal"; "interrupt_id"; "fingerprint"; "operation_id"; "attempts"; "state"; "origin";
               "result"]%string)
         && negb (Schema.dangling schema)
      then Done tt
      else Refused (Corrupt "Action journal schema or contents are invalid")
  end.

(** ** A journal on an engine that replays a tape of failures *)
#[global] Instance tape_engine : Engine (list bool) :=
  fun tape => match tape with [] => ([], false) | bad :: rest => (rest, bad) end.

Definition empty_journal (limits : Limits.Limits) (tape : list bool) (ids : list (option string))
  : Journal.Journal (list bool) (list (option string)) :=
  Journal.mk _ _ limits true (mkTables [] []) tape ids.
