(* ===== verification/JournalSpec.v ===== *)
(** * What the Action journal promises

    The abstract journal: for each generation, the batch it holds, if any, with
    the progress of its operations.  [view] reads it off the tables, [command] is
    every call that changes the journal, and [promised] is what each call may do
    to the abstract journal. *)

From stdpp Require Import base tactics list strings pretty relations.
From Stdlib Require Import ZArith Lia Ascii.
From S2P Require Import Prelude Text Json Reader Calendar Platform Journal.

#[local] Open Scope Z_scope.

(** ** The abstract journal *)
Inductive Progress : Type :=
| Prepared
| Executing
| Completed (result : string)
| NoEffect.
#[global] Instance progress_eq_dec : EqDecision Progress.
Proof. solve_decision. Defined.

Module Item.
Record Item : Type := mk {
  interrupt_id : string;
  request : string;
  operation_id : string;
  attempts : Z;
  progress : Progress
}.
#[global] Instance eta_item : Eta Item :=
  fun i => mk (interrupt_id i) (request i) (operation_id i) (attempts i) (progress i).
End Item.
#[global] Instance upd_item_progress : Upd Item.progress := ltac:(solve_upd).
#[global] Instance upd_item_attempts : Upd Item.attempts := ltac:(solve_upd).

Inductive Phase : Type := Open | Ended | Archived_.
#[global] Instance phase_eq_dec : EqDecision Phase.
Proof. solve_decision. Defined.

Module Held.
Record Held : Type := mk {
  fingerprint : string;
  phase : Phase;
  reserved : bool;
  items : list Item.Item
}.
#[global] Instance eta_held : Eta Held := fun h => mk (fingerprint h) (phase h) (reserved h) (items h).
End Held.
#[global] Instance upd_held_phase : Upd Held.phase := ltac:(solve_upd).
#[global] Instance upd_held_items : Upd Held.items := ltac:(solve_upd).

Definition Spec : Type := string -> option Held.Held.
#[global] Instance spec_equiv : Equiv Spec := fun s s' => forall g, s g = s' g.
#[global] Instance spec_equivalence : Equivalence (≡@{Spec}).
Proof.
  split; [by intros s g|by intros s s' H g|]. intros s s' s'' H1 H2 g. by rewrite H1, H2.
Qed.
(** The journal with another batch, or none, in one generation. *)
Definition put (g : string) (h : option Held.Held) (s : Spec) : Spec := fun g' => if g' =s g then h else s g'.
#[global] Instance put_proper g h : Proper ((≡) ==> (≡)) (put g h).
Proof. intros s s' H g'. unfold put. by destruct (g' =s g). Qed.

(** ** The view of the tables *)
Definition progress_of (r : OperationRow.OperationRow) : Progress :=
  if OperationRow.state r =s "prepared" then Prepared
  else if OperationRow.state r =s "executing" then Executing
  else if OperationRow.state r =s "completed" then Completed (default "" (OperationRow.result r))
  else NoEffect.
Definition item_of (r : OperationRow.OperationRow) : Item.Item :=
  Item.mk (OperationRow.interrupt_id r) (OperationRow.fingerprint r) (OperationRow.operation_id r)
    (OperationRow.attempts r) (progress_of r).
Definition phase_of (state : string) : Phase :=
  if state =s "open" then Open else if state =s "ended" then Ended else Archived_.
Definition held_of (r : BatchRow.BatchRow) (rows : list OperationRow.OperationRow) : Held.Held :=
  Held.mk (BatchRow.fingerprint r) (phase_of (BatchRow.state r)) (BatchRow.archivable r =? 1) (map item_of rows).
Definition view (t : Tables) : Spec := fun g =>
  option_map (fun r => held_of r (select_operations g t)) (select_batch g t).

(** ** Calls *)
Inductive command : Type :=
| Prepare (generation thread_id : string) (os : list Operation.Operation) (archivable : bool)
| Begin (b : Batch.Batch) (o : Operation.Operation)
| Complete (b : Batch.Batch) (o : Operation.Operation) (result : Value)
| FailWithoutEffect (b : Batch.Batch) (o : Operation.Operation)
| Suspend (b : Batch.Batch) (o : Operation.Operation)
| NotDispatched (b : Batch.Batch) (o : Operation.Operation)
| Deliver (b : Batch.Batch)
| Abandon (b : Batch.Batch)
| EndBatch (b : Batch.Batch)
| EndSettled (generation : string)
| Archive (generation fingerprint : string)
| Release (generation fingerprint : string)
| Discard (generation : string)
| Purge (generation : string)
| PurgeBatch (generation fingerprint : string).

Inductive reply : Type :=
| RBatch (b : Batch.Batch)
| RExecution (e : Execution.Execution)
| RFlag (flag : bool)
| RUnit.

Section Run.
  Context {F E : Type} `{!Engine F} `{!Entropy E} {PF : Platform}.

Definition replied {A} (f : A -> reply) (m : journaled F E A) : journaled F E reply := a ← m; mret (f a).
Definition run_command (c : command) : journaled F E reply :=
  match c with
  | Prepare g thread os archivable => replied RBatch (prepare_batch g thread os archivable)
  | Begin b o => replied RExecution (begin b o)
  | Complete b o v => replied (fun _ => RUnit) (complete_operation b o v)
  | FailWithoutEffect b o => replied (fun _ => RUnit) (fail_without_effect b o)
  | Suspend b o => replied (fun _ => RUnit) (suspend b o)
  | NotDispatched b o => replied (fun _ => RUnit) (not_dispatched b o)
  | Deliver b => replied (fun _ => RUnit) (delivered b)
  | Abandon b => replied RFlag (abandon_uncertain b)
  | EndBatch b => replied RFlag (end_batch b)
  | EndSettled g => replied (fun _ => RUnit) (end_settled g)
  | Archive g f => replied (fun _ => RUnit) (archive g f)
  | Release g f => replied (fun _ => RUnit) (release_archive g f)
  | Discard g => replied (fun _ => RUnit) (discard g)
  | Purge g => replied (fun _ => RUnit) (purge g)
  | PurgeBatch g f => replied (fun _ => RUnit) (purge_batch g f)
  end.
End Run.

(** ** Promises *)

(** The handle's own open batch is the one the generation holds. *)
Definition holds_open (s : Spec) (b : Batch.Batch) (h : Held.Held) : Prop :=
  s (Batch.generation b) = Some h /\ Held.fingerprint h = Batch.fingerprint b /\ Held.phase h = Open
  /\ map Item.interrupt_id (Held.items h) = map Operation.interrupt_id (Batch.operations b)
  /\ map Item.request (Held.items h) = map Operation.fingerprint (Batch.operations b).

(** The held operation of an interrupt, and the batch with it changed. *)
Definition item_at (h : Held.Held) (i : string) (it : Item.Item) : Prop :=
  In it (Held.items h) /\ Item.interrupt_id it = i.
Definition change_item (h : Held.Held) (i : string) (f : Item.Item -> Item.Item) : Held.Held :=
  h <| Held.items := map (fun it => if Item.interrupt_id it =s i then f it else it) (Held.items h) |>.

(** A freshly prepared batch: each operation prepared, with the id it repeats or
    a new valid one, all distinct. *)
Definition fresh_items (b : Batch.Batch) (items : list Item.Item) : Prop :=
  List.Forall2 (fun o it => Item.interrupt_id it = Operation.interrupt_id o
                  /\ Item.request it = Operation.fingerprint o
                  /\ (forall id, Operation.operation_id o = Some id -> Item.operation_id it = id)
                  /\ valid_operation_id (Item.operation_id it) = true
                  /\ Item.attempts it = 0 /\ Item.progress it = Prepared) (Batch.operations b) items
  /\ List.NoDup (map Item.operation_id items).

Definition reads_result (l : Limits.Limits) (raw : string) (v : Value) : Prop :=
  json_parse raw = Some v /\ result_canonical v (Limits.max_result_bytes l) = inr raw.

Section Promises.
  Context {PF : Platform} (l : Limits.Limits).

Definition promised_prepare (g thread : string) os (archivable : bool) (s : Spec) (b : Batch.Batch) (s' : Spec) : Prop :=
  build g thread os (Limits.max_operations l) = Done b /\
  ((* a new batch, where there was none or an ended one that shares no interrupt *)
   ((s g = None \/ exists h, s g = Some h /\ Held.phase h = Ended /\ Held.fingerprint h <> Batch.fingerprint b
        /\ (forall it o, In it (Held.items h) -> In o os -> Item.interrupt_id it <> Operation.interrupt_id o))
    /\ exists items, fresh_items b items
       /\ s' ≡ put g (Some (Held.mk (Batch.fingerprint b) Open archivable items)) s)
   \/ (* the same batch again, as it was left *)
   (exists h, s g = Some h /\ Held.fingerprint h = Batch.fingerprint b /\ Held.phase h <> Archived_
      /\ Held.reserved h = archivable /\ s' ≡ put g (Some (h <| Held.phase := Open |>)) s
      /\ holds_open s' b (h <| Held.phase := Open |>))).

Definition promised_begin b o (s : Spec) (e : Execution.Execution) (s' : Spec) : Prop :=
  exists h it, In o (Batch.operations b) /\ holds_open s b h /\ item_at h (Operation.interrupt_id o) it
  /\ Execution.operation_id e = Item.operation_id it
  /\ ((Item.progress it = Prepared /\ Execution.execute e = true /\ Execution.result e = None
       /\ s' ≡ put (Batch.generation b)
                 (Some (change_item h (Operation.interrupt_id o)
                    (fun it => it <| Item.progress := Executing |> <| Item.attempts := Item.attempts it + 1 |>))) s)
      \/ (exists raw v, Item.progress it = Completed raw /\ Execution.execute e = false
          /\ Execution.result e = Some v /\ reads_result l raw v /\ s' ≡ s)).

Definition promised_settle b o (p : Progress) (s s' : Spec) : Prop :=
  exists h it, In o (Batch.operations b) /\ holds_open s b h /\ item_at h (Operation.interrupt_id o) it
  /\ ((Item.progress it = p /\ s' ≡ s)
      \/ (Item.progress it = Executing
          /\ s' ≡ put (Batch.generation b)
                    (Some (change_item h (Operation.interrupt_id o) (fun it => it <| Item.progress := p |>))) s)).

Definition promised_reprepare b o (s s' : Spec) : Prop :=
  exists h it, In o (Batch.operations b) /\ holds_open s b h /\ item_at h (Operation.interrupt_id o) it
  /\ Item.progress it = Executing
  /\ s' ≡ put (Batch.generation b)
            (Some (change_item h (Operation.interrupt_id o) (fun it => it <| Item.progress := Prepared |>))) s.

(** Removing a batch whose items all have, or some of which has, a progress. *)
Definition promised_deliver b (s s' : Spec) : Prop :=
  (s (Batch.generation b) = None /\ s' ≡ s)
  \/ (exists h, holds_open s b h
      /\ (forall it, In it (Held.items h) -> exists raw v, Item.progress it = Completed raw /\ reads_result l raw v)
      /\ s' ≡ put (Batch.generation b) None s).

Definition some_executing (h : Held.Held) : Prop := exists it, In it (Held.items h) /\ Item.progress it = Executing.

Definition promised_abandon b (s : Spec) (flag : bool) (s' : Spec) : Prop :=
  if flag then exists h, holds_open s b h /\ some_executing h /\ s' ≡ put (Batch.generation b) None s
  else s' ≡ s /\ (s (Batch.generation b) = None \/ exists h, holds_open s b h /\ ~ some_executing h).

Definition promised_end b (s : Spec) (flag : bool) (s' : Spec) : Prop :=
  if flag then exists h, holds_open s b h /\ ~ some_executing h
                 /\ s' ≡ put (Batch.generation b) (Some (h <| Held.phase := Ended |>)) s
  else s' ≡ s /\ (s (Batch.generation b) = None
                  \/ (exists h, s (Batch.generation b) = Some h /\ Held.fingerprint h = Batch.fingerprint b
                      /\ (Held.phase h = Ended \/ some_executing h))).

Definition promised_end_settled (g : string) (s s' : Spec) : Prop :=
  match s g with
  | Some h => if bool_decide (Held.phase h = Open) then
                (some_executing h \/ Held.items h = []) /\ s' ≡ s
                \/ ~ some_executing h /\ s' ≡ put g (Some (h <| Held.phase := Ended |>)) s
              else s' ≡ s
  | None => s' ≡ s
  end.

Definition promised_archive (g f : string) (s s' : Spec) : Prop :=
  exists h, s g = Some h /\ Held.fingerprint h = f
  /\ ((Held.phase h = Archived_ /\ s' ≡ s)
      \/ (Held.phase h <> Archived_ /\ Held.reserved h = true /\ s' ≡ put g (Some (Held.mk f Archived_ true [])) s)).

Definition promised_release (g f : string) (s s' : Spec) : Prop :=
  (s g = None /\ s' ≡ s)
  \/ (exists h, s g = Some h /\ Held.fingerprint h = f /\ Held.phase h = Archived_ /\ s' ≡ put g None s).

Definition promised_remove (p : Held.Held -> bool) (g : string) (s s' : Spec) : Prop :=
  match s g with
  | Some h => if p h then s' ≡ put g None s else s' ≡ s
  | None => s' ≡ s
  end.

Definition promised (c : command) (s : Spec) (r : reply) (s' : Spec) : Prop :=
  match c, r with
  | Prepare g thread os archivable, RBatch b => promised_prepare g thread os archivable s b s'
  | Begin b o, RExecution e => promised_begin b o s e s'
  | Complete b o v, RUnit =>
      exists raw, result_canonical v (Limits.max_result_bytes l) = inr raw /\ promised_settle b o (Completed raw) s s'
  | FailWithoutEffect b o, RUnit => promised_settle b o NoEffect s s'
  | Suspend b o, RUnit | NotDispatched b o, RUnit => promised_reprepare b o s s'
  | Deliver b, RUnit => promised_deliver b s s'
  | Abandon b, RFlag flag => promised_abandon b s flag s'
  | EndBatch b, RFlag flag => promised_end b s flag s'
  | EndSettled g, RUnit => promised_end_settled g s s'
  | Archive g f, RUnit => promised_archive g f s s'
  | Release g f, RUnit => promised_release g f s s'
  | Discard g, RUnit => promised_remove (fun h => negb (bool_decide (Held.phase h = Archived_))) g s s'
  | Purge g, RUnit => promised_remove (fun _ => true) g s s'
  | PurgeBatch g f, RUnit => promised_remove (fun h => Held.fingerprint h =s f) g s s'
  | _, _ => False
  end.
End Promises.
