(* ===== verification/JournalSafety.v ===== *)
(** * The journal keeps its promises

    Inversion of successful calls, the invariant of the tables, and the proof
    that each call does to the tables what [JournalSpec.promised] says it does to
    the abstract journal. *)

From stdpp Require Import base tactics list strings pretty relations.
From Stdlib Require Import ZArith Lia Ascii.
From S2P Require Import Prelude Text Json Reader Calendar Platform Journal JournalSpec.

#[local] Open Scope Z_scope.

(** ** Successful calls *)
Section Inversion.
  Context {F E : Type} `{!Engine F} `{!Entropy E} {PF : Platform}.
  Abbreviation J := (Journal.Journal F E).
  Abbreviation act := (journaled F E).

(** The next state of the same journal: its tables are [t]. *)
Definition onto (j j' : J) (t : Tables) : Prop :=
  Journal.tables j' = t /\ Journal.limits j' = Journal.limits j /\ Journal.connected j' = Journal.connected j.

Lemma journaled_bind_Done {A B} (m : act A) (f : A -> act B) j j' b :
  (m ≫= f) j = (j', Done b) <-> exists j1 a, m j = (j1, Done a) /\ f a j1 = (j', Done b).
Proof.
  unfold mbind, journaled_bind. destruct (m j) as [j1 [a|e]] eqn:H; split; try naive_solver.
Qed.
Lemma journaled_ret_Done {A} (a b : A) (j j' : J) : (mret a : act A) j = (j', Done b) -> j' = j /\ b = a.
Proof. by intros [= -> ->]. Qed.

Lemma statement_Done {A} (w : Tables -> option (A * Tables)) j j' a :
  statement w j = (j', Done (Some a)) -> exists t, w (Journal.tables j) = Some (a, t) /\ onto j j' t.
Proof.
  unfold statement. destruct (fails (Journal.engine j)) as [f []]; [done|]. cbn.
  destruct (w (Journal.tables j)) as [[x t]|]; [|done]. intros [= <- <-]. by exists t.
Qed.

Lemma executed_Done (w : Tables -> option (Z * Tables)) s j j' n :
  executed w s j = (j', Done n) -> exists t, w (Journal.tables j) = Some (n, t) /\ onto j j' t.
Proof.
  unfold executed. intros (j1 & r & H1 & H2)%journaled_bind_Done. destruct r as [x|]; [|done].
  apply journaled_ret_Done in H2 as [-> ->]. by apply statement_Done in H1.
Qed.

Lemma queried_Done {A} (w : Tables -> A) s (j j' : J) a :
  queried w s j = (j', Done a) -> a = w (Journal.tables j) /\ onto j j' (Journal.tables j).
Proof.
  unfold queried, query. intros (j1 & r & H1 & H2)%journaled_bind_Done. destruct r as [x|]; [|done].
  apply journaled_ret_Done in H2 as [-> ->]. apply statement_Done in H1 as (t & [= -> <-] & H). done.
Qed.

Lemma read_Done {A} (w : Tables -> A) s (j j' : J) a :
  (r ← query w; read_ r s) j = (j', Done a) -> a = w (Journal.tables j) /\ onto j j' (Journal.tables j).
Proof.
  unfold query. intros (j1 & r & H1 & H2)%journaled_bind_Done. destruct r as [x|]; [|done].
  apply journaled_ret_Done in H2 as [-> ->]. apply statement_Done in H1 as (t & [= -> <-] & H). done.
Qed.

Lemma require_changed_Done n s (j j' : J) u : require_changed n s j = (j', Done u) -> n = 1 /\ j' = j.
Proof. unfold require_changed. destruct (Z.eqb_spec n 1); [|done]. by intros [= <- <-]. Qed.

(** A committed transaction is its work, on the same tables. *)
Lemma writing_Done {A} s (w : act A) j j' a : writing s w j = (j', Done a) ->
  exists j1 j2, onto j j1 (Journal.tables j) /\ w j1 = (j2, Done a) /\ onto j2 j' (Journal.tables j2).
Proof.
  unfold writing, with_connection. destruct (Journal.connected j) eqn:Hc; [|done].
  destruct (statement (fun t => Some (tt, t)) j) as [j1 [[[]|]|e]] eqn:H1; [|done..].
  apply statement_Done in H1 as (t1 & [= <-] & H1).
  destruct (w j1) as [j2 [b|e]] eqn:H2; [|done].
  destruct (statement (fun t => Some (tt, t)) j2) as [j3 [[[]|]|e]] eqn:H3; [|done..].
  apply statement_Done in H3 as (t3 & [= <-] & H3). intros [= <- <-]. eauto.
Qed.

(** A refused transaction leaves the tables as they were. *)
Lemma statement_refused {A} (w : Tables -> option (A * Tables)) (j j' : J) r :
  statement w j = (j', r) -> (exists a, r = Done (Some a)) \/ (r = Done None /\ Journal.tables j' = Journal.tables j).
Proof.
  unfold statement. destruct (fails (Journal.engine j)) as [f []]; [intros [= <- <-]; by right|]. cbn.
  destruct (w (Journal.tables j)) as [[x t]|]; intros [= <- <-]; [left; eauto|by right].
Qed.

Lemma writing_refused {A} s (w : act A) (j j' : J) e :
  writing s w j = (j', Refused e) -> Journal.tables j' = Journal.tables j.
Proof.
  unfold writing, with_connection. destruct (Journal.connected j) eqn:Hc; [|by intros [= <- _]].
  destruct (statement (fun t => Some (tt, t)) j) as [j1 r1] eqn:H1.
  assert (Journal.tables j1 = Journal.tables j) as E1.
  { destruct (statement_refused _ _ _ _ H1) as [[a ->]|[_ ?]]; [|done].
    apply statement_Done in H1 as (t & Hw & -> & _). by destruct a; injection Hw. }
  destruct r1 as [[[]|]|e1]; [|by intros [= <- _]..].
  destruct (w j1) as [j2 [b|e2]]; [|by intros [= <- _]].
  destruct (statement (fun t => Some (tt, t)) j2) as [j3 [[[]|]|e3]]; by intros [= <- _].
Qed.

Lemma onto_trans j j1 j2 t1 t2 : onto j j1 t1 -> onto j1 j2 t2 -> onto j j2 t2.
Proof. unfold onto. intros (? & ? & ?) (? & ? & ?). split_and!; congruence. Qed.
Lemma onto_refl j : onto j j (Journal.tables j).
Proof. done. Qed.

Lemma load_Done b j j' rows : load b j = (j', Done rows) ->
  onto j j' (Journal.tables j) /\ rows = select_operations (Batch.generation b) (Journal.tables j)
  /\ exists h, select_batch (Batch.generation b) (Journal.tables j) = Some h /\ header_matches h b = true
     /\ BatchRow.state h = "open"%string /\ rows_match 0 rows (Batch.operations b) = true.
Proof.
  unfold load. intros (j1 & hd & H1 & H2)%journaled_bind_Done. apply read_Done in H1 as [-> O1].
  destruct (select_batch _ _) as [h|] eqn:Hh; [|done].
  destruct (header_matches h b && negb (BatchRow.state h =s "open")) eqn:He; [done|].
  apply journaled_bind_Done in H2 as (j2 & rs & H3 & H4). apply read_Done in H3 as [-> O2].
  destruct (_ && _) eqn:Hm in H4; [|done]. apply journaled_ret_Done in H4 as [-> ->].
  apply andb_true_iff in Hm as [[Hm1 Hm2]%andb_true_iff Hm3]. rewrite Hm1 in He. cbn in He.
  destruct O1 as (T1 & ? & ?). rewrite T1 in *.
  split; [by eapply onto_trans; [split_and!|exact O2]|]. split; [done|]. exists h. split_and!; try done.
  apply negb_false_iff in He. by apply seqb_true in He.
Qed.

Lemma operation_Done b o j j' row : operation b o j = (j', Done row) ->
  onto j j' (Journal.tables j) /\ In row (select_operations (Batch.generation b) (Journal.tables j))
  /\ OperationRow.interrupt_id row = Operation.interrupt_id o
  /\ exists h, select_batch (Batch.generation b) (Journal.tables j) = Some h /\ header_matches h b = true
     /\ BatchRow.state h = "open"%string
     /\ rows_match 0 (select_operations (Batch.generation b) (Journal.tables j)) (Batch.operations b) = true.
Proof.
  unfold operation. intros (j1 & rows & H1 & H2)%journaled_bind_Done.
  apply load_Done in H1 as (O1 & -> & h & Hh & Hm & Ho & Hr).
  destruct (List.find _ _) as [r|] eqn:Hf; [|done]. apply journaled_ret_Done in H2 as [-> ->].
  apply find_some in Hf as [Hin Hi%seqb_true]. split_and!; eauto.
Qed.
End Inversion.

(** ** The invariant of the tables

    What SQLite's constraints keep, and that an archived batch has no rows. *)
Record TInv (t : Tables) : Prop := {
  batches_nodup : List.NoDup (map BatchRow.generation (batches t));
  batches_ok : List.Forall (fun r => batch_check r = true) (batches t);
  rows_ok : List.Forall (fun r => operation_check r = true /\ valid_operation_id (OperationRow.operation_id r) = true)
              (operations t);
  rows_distinct : List.ForallOrdPairs (fun r s => same_key s r = false) (operations t);
  rows_owned : List.Forall (fun r => exists b, In b (batches t) /\ BatchRow.generation b = OperationRow.generation r
                              /\ BatchRow.state b <> "archived"%string) (operations t)
}.

(** *** Batches by generation *)
Lemma select_batch_Some t g r : select_batch g t = Some r -> In r (batches t) /\ BatchRow.generation r = g.
Proof. intros [? ?%seqb_true]%find_some. done. Qed.
Lemma select_batch_None t g : select_batch g t = None <-> ~ In g (map BatchRow.generation (batches t)).
Proof. apply (find_key_None BatchRow.generation). Qed.
Lemma in_select_batch t r : TInv t -> In r (batches t) -> select_batch (BatchRow.generation r) t = Some r.
Proof. intros [Hn _ _ _ _] Hr. by apply (in_find_key BatchRow.generation). Qed.

Lemma find_map_keep {A B} (key : A -> B) (p : B -> bool) (f : A -> A) l :
  (forall x, key (f x) = key x) ->
  List.find (fun x => p (key x)) (map f l) = option_map f (List.find (fun x => p (key x)) l).
Proof. intros H. induction l as [|x l IH]; cbn; [done|]. rewrite H. by destruct (p (key x)). Qed.

Lemma filter_map_keep {A B} (key : A -> B) (p : B -> bool) (f : A -> A) l :
  (forall x, key (f x) = key x) ->
  List.filter (fun x => p (key x)) (map f l) = map f (List.filter (fun x => p (key x)) l).
Proof. intros H. induction l as [|x l IH]; cbn; [done|]. rewrite H. destruct (p (key x)); cbn; by rewrite IH. Qed.

Lemma map_id_on {A} (f : A -> A) l : (forall x, In x l -> f x = x) -> map f l = l.
Proof. induction l as [|x l IH]; cbn; [done|]. intros H. rewrite H by auto. f_equal. auto. Qed.

(** *** Rows by generation *)
Lemma in_select_operations t g r :
  In r (select_operations g t) <-> In r (operations t) /\ OperationRow.generation r = g.
Proof.
  unfold select_operations. split.
  - intros H. apply (Permutation_in r (stable_sort_perm _ _)) in H. apply filter_In in H as [? ?%seqb_true]. done.
  - intros [H <-]. apply (Permutation_in r (Permutation_sym (stable_sort_perm _ _))). apply filter_In.
    split; [done|]. apply seqb_refl.
Qed.

(** An update of rows that keeps their generation and ordinal. *)
Definition keeps_key (set : OperationRow.OperationRow -> OperationRow.OperationRow) : Prop :=
  forall r, OperationRow.generation (set r) = OperationRow.generation r
         /\ OperationRow.ordinal (set r) = OperationRow.ordinal r
         /\ OperationRow.interrupt_id (set r) = OperationRow.interrupt_id r
         /\ OperationRow.operation_id (set r) = OperationRow.operation_id r
         /\ OperationRow.fingerprint (set r) = OperationRow.fingerprint r.

Section UpdateOperations.
  Context (where_ : OperationRow.OperationRow -> bool) (set : OperationRow.OperationRow -> OperationRow.OperationRow).
  Context (Hkey : keeps_key set).
Let step r := if where_ r then set r else r.

Lemma step_key : keeps_key step.
Proof. intros r. unfold step. destruct (where_ r); [apply Hkey|done]. Qed.

Lemma update_operations_Some t n t' : update_operations where_ set t = Some (n, t') ->
  t' = mkTables (batches t) (map step (operations t)) /\ n = len (List.filter where_ (operations t))
  /\ List.Forall (fun r => where_ r = true -> operation_check (set r) = true) (operations t).
Proof.
  unfold update_operations, update_rows. destruct (forallb _ _) eqn:Hf; [|done]. intros [= <- <-].
  split_and!; [done..|]. rewrite forallb_forall in Hf. apply List.Forall_forall. intros r Hr Hw.
  specialize (Hf r Hr). rewrite Hw in Hf. done.
Qed.

Lemma select_operations_update t g :
  select_operations g (mkTables (batches t) (map step (operations t))) = map step (select_operations g t).
Proof.
  unfold select_operations, of_generation. cbn [operations].
  rewrite (filter_map_keep OperationRow.generation (fun x => x =s g)) by (intros r; by destruct (step_key r)).
  apply stable_sort_map. intros a b. by destruct (step_key a) as (_ & -> & _), (step_key b) as (_ & -> & _).
Qed.

Lemma TInv_update_operations t n t' :
  TInv t -> update_operations where_ set t = Some (n, t') -> TInv t'.
Proof.
  intros [H1 H2 H3 H4 H5] (-> & _ & Hc)%update_operations_Some. split; cbn [batches operations]; try done.
  - apply List.Forall_map. rewrite List.Forall_forall in *. intros r Hr. destruct (H3 r Hr) as [Hk Hv].
    destruct (step_key r) as (_ & _ & _ & -> & _). split; [|done]. unfold step. destruct (where_ r) eqn:Hw; auto.
  - revert H4. clear - Hkey. induction 1 as [|r l Hr Hl IH]; cbn [map]; constructor; [|done].
    apply List.Forall_map. eapply List.Forall_impl; [|exact Hr]. intros s Hs. unfold same_key in *.
    destruct (step_key r) as (-> & -> & -> & -> & _), (step_key s) as (-> & -> & -> & -> & _). done.
  - apply List.Forall_map. rewrite List.Forall_forall in *. intros r Hr. destruct (step_key r) as (-> & _). auto.
Qed.
End UpdateOperations.

(** *** Updating batches *)
Section UpdateBatches.
  Context (where_ : BatchRow.BatchRow -> bool) (set : BatchRow.BatchRow -> BatchRow.BatchRow).
  Context (Hkey : forall r, BatchRow.generation (set r) = BatchRow.generation r).
Let step r := if where_ r then set r else r.

Lemma batch_step_key r : BatchRow.generation (step r) = BatchRow.generation r.
Proof. unfold step. by destruct (where_ r). Qed.

Lemma update_batches_Some t n t' : update_batches where_ set t = Some (n, t') ->
  t' = mkTables (map step (batches t)) (operations t) /\ n = len (List.filter where_ (batches t))
  /\ List.Forall (fun r => where_ r = true -> batch_check (set r) = true) (batches t).
Proof.
  unfold update_batches, update_rows. destruct (forallb _ _) eqn:Hf; [|done]. intros [= <- <-].
  split_and!; [done..|]. rewrite forallb_forall in Hf. apply List.Forall_forall. intros r Hr Hw.
  specialize (Hf r Hr). rewrite Hw in Hf. done.
Qed.

Lemma select_batch_update t g :
  select_batch g (mkTables (map step (batches t)) (operations t)) = option_map step (select_batch g t).
Proof. apply (find_map_keep BatchRow.generation (fun x => x =s g)), batch_step_key. Qed.

Lemma TInv_update_batches t n t' :
  TInv t -> update_batches where_ set t = Some (n, t') ->
  (forall r, In r (batches t) -> where_ r = true -> BatchRow.state (set r) = "archived"%string ->
     select_operations (BatchRow.generation r) t = []) -> TInv t'.
Proof.
  intros Hinv (-> & _ & Hc)%update_batches_Some Ha. pose proof Hinv as [H1 H2 H3 H4 H5].
  split; cbn [batches operations]; try done.
  - rewrite map_map. erewrite map_ext; [exact H1|]. apply batch_step_key.
  - apply List.Forall_map. rewrite List.Forall_forall in *. intros r Hr. unfold step. destruct (where_ r) eqn:Hw; auto.
  - rewrite List.Forall_forall in *. intros r Hr. destruct (H5 r Hr) as (b & Hb & Hg & Hs).
    exists (step b). split; [by apply in_map|]. rewrite batch_step_key. split; [done|].
    unfold step. destruct (where_ b) eqn:Hw; [|done]. intros Hs'.
    assert (In r (select_operations (BatchRow.generation b) t)) as Hin by (apply in_select_operations; auto).
    by rewrite (Ha b Hb Hw Hs') in Hin.
Qed.
End UpdateBatches.

Lemma filter_both {A} (p q : A -> bool) l :
  List.filter p (List.filter q l) = List.filter (fun x => q x && p x) l.
Proof. induction l as [|x l IH]; cbn; [done|]. destruct (q x); cbn; [|done]. destruct (p x); by rewrite IH. Qed.

(** *** Deleting the batch of one generation *)
Section Delete.
  Context (g : string) (p : BatchRow.BatchRow -> bool) (t : Tables) (Hinv : TInv t).
Let where_ (r : BatchRow.BatchRow) : bool := (BatchRow.generation r =s g) && p r.

Lemma gone_generations g' :
  contains (map BatchRow.generation (List.filter where_ (batches t))) g' = true <->
  g' = g /\ exists r, select_batch g t = Some r /\ p r = true.
Proof.
  rewrite contains_In, in_map_iff. split.
  - intros (r & <- & [Hr [Hg%seqb_true Hp]%andb_true_iff]%filter_In). split; [done|]. exists r. split; [|done].
    rewrite <- Hg. by apply in_select_batch.
  - intros (-> & r & Hr & Hp). exists r. apply select_batch_Some in Hr as [Hr Hg]. split; [done|].
    apply filter_In. split; [done|]. unfold where_. by rewrite Hg, seqb_refl.
Qed.

(** Every other generation keeps its batch and its rows. *)
Lemma delete_select n t' : delete_from_batches where_ t = Some (n, t') ->
  (forall g', g' <> g -> select_batch g' t' = select_batch g' t /\ select_operations g' t' = select_operations g' t)
  /\ match select_batch g t with
     | Some r => if p r then select_batch g t' = None
                 else select_batch g t' = Some r /\ select_operations g t' = select_operations g t
     | None => select_batch g t' = None
     end.
Proof.
  intros [= <- <-]. cbn [batches operations].
  assert (forall g' r, select_batch g' t = Some r -> where_ r = false ->
            List.find (fun r => BatchRow.generation r =s g') (List.filter (fun r => negb (where_ r)) (batches t)) = Some r) as Hkeep.
  { intros g' r Hr Hw. pose proof (select_batch_Some _ _ _ Hr) as [Hin Hg]. rewrite <- Hg.
    apply (in_find_key BatchRow.generation); [apply NoDup_map_filter, Hinv|]. apply filter_In. by rewrite Hw. }
  assert (forall g', contains (map BatchRow.generation (List.filter where_ (batches t))) g' = false ->
            select_operations g' (mkTables (List.filter (fun r => negb (where_ r)) (batches t))
              (List.filter (fun r => negb (contains (map BatchRow.generation (List.filter where_ (batches t)))
                 (OperationRow.generation r))) (operations t))) = select_operations g' t) as Hrows.
  { intros g' Hg'. unfold select_operations. cbn [operations]. f_equal. rewrite filter_both.
    apply List.filter_ext_in. intros r _. unfold of_generation. destruct (seqb_spec (OperationRow.generation r) g') as [->|]; [|by rewrite andb_false_r].
    by rewrite Hg'. }
  assert (forall g', select_batch g' t = None -> List.find (fun r => BatchRow.generation r =s g')
            (List.filter (fun r => negb (where_ r)) (batches t)) = None) as Hnone.
  { intros g' Hg'. apply (find_key_None BatchRow.generation). apply select_batch_None in Hg'. intros (r & Hr & Hin)%in_map_iff.
    apply filter_In in Hin as [Hin _]. apply Hg'. rewrite <- Hr. by apply in_map. }
  assert (forall g', contains (map BatchRow.generation (List.filter where_ (batches t))) g' = false <->
            ~ (g' = g /\ exists r, select_batch g t = Some r /\ p r = true)) as Hgone.
  { intros g'. rewrite <- gone_generations. by destruct (contains _ _). }
  split.
  - intros g' Hne. split.
    + destruct (select_batch g' t) as [r|] eqn:Hr; [|by apply Hnone]. apply Hkeep; [done|].
      apply select_batch_Some in Hr as [_ Hg]. unfold where_. rewrite Hg. by apply seqb_false in Hne as ->.
    + apply Hrows. apply Hgone. by intros [? _].
  - destruct (select_batch g t) as [r|] eqn:Hr; [|by apply Hnone]. destruct (p r) eqn:Hp.
    + apply (find_key_None BatchRow.generation). intros (r' & Hg & Hin)%in_map_iff. apply filter_In in Hin as [Hin Hw].
      pose proof (in_select_batch t r' Hinv Hin) as Hs. rewrite Hg, Hr in Hs. injection Hs as <-.
      unfold where_ in Hw. rewrite Hg, seqb_refl, Hp in Hw. done.
    + split; [apply Hkeep; [done|]|apply Hrows].
      * unfold where_. by rewrite Hp, andb_false_r.
      * apply Hgone. intros (_ & r' & Hr' & Hp'). congruence.
Qed.

Lemma TInv_delete n t' : delete_from_batches where_ t = Some (n, t') -> TInv t'.
Proof.
  intros Hd. pose proof (delete_select _ _ Hd) as [Hother Hg]. injection Hd as <- <-. pose proof Hinv as [H1 H2 H3 H4 H5].
  split; cbn [batches operations].
  - by apply NoDup_map_filter.
  - rewrite List.Forall_forall in *. intros r [Hr _]%filter_In. auto.
  - rewrite List.Forall_forall in *. intros r [Hr _]%filter_In. auto.
  - revert H4. clear. induction 1 as [|r l Hr Hl IH]; cbn; [constructor|]. destruct (negb _); [|done].
    constructor; [|done]. rewrite List.Forall_forall in *. intros s [Hs _]%filter_In. auto.
  - rewrite List.Forall_forall in *. intros r [Hr Hn%negb_true_iff]%filter_In. destruct (H5 r Hr) as (b & Hb & Hbg & Hs).
    exists b. split; [|done]. apply filter_In. split; [done|]. apply negb_true_iff.
    destruct (where_ b) eqn:Hw; [|done]. exfalso. rewrite <- not_true_iff_false in Hn. apply Hn. apply gone_generations.
    apply andb_true_iff in Hw as [Hw%seqb_true Hp]. rewrite <- Hbg. split; [done|]. exists b. split; [|done].
    rewrite <- Hw. by apply in_select_batch.
Qed.
End Delete.

(** ** Views *)
Lemma view_Some t g r : select_batch g t = Some r -> view t g = Some (held_of r (select_operations g t)).
Proof. unfold view. by intros ->. Qed.
Lemma view_None t g : select_batch g t = None -> view t g = None.
Proof. unfold view. by intros ->. Qed.

Lemma view_put t t' g h :
  (forall g', g' <> g -> select_batch g' t' = select_batch g' t /\ select_operations g' t' = select_operations g' t) ->
  view t' g = h -> view t' ≡ put g h (view t).
Proof.
  intros Ho Hg g'. unfold put. destruct (seqb_spec g' g) as [->|Hne]; [done|].
  unfold view. by destruct (Ho g' Hne) as [-> ->].
Qed.
Lemma view_same t t' g :
  (forall g', g' <> g -> select_batch g' t' = select_batch g' t /\ select_operations g' t' = select_operations g' t) ->
  select_batch g t' = select_batch g t -> select_operations g t' = select_operations g t -> view t' ≡ view t.
Proof.
  intros Ho Hb Hr g'. destruct (seqb_spec g' g) as [->|Hne]; unfold view; [by rewrite Hb, Hr|].
  by destruct (Ho g' Hne) as [-> ->].
Qed.

(** The rows of a generation are distinct in their interrupts and ids. *)
Lemma rows_keys t r s : TInv t -> In r (operations t) -> In s (operations t) ->
  OperationRow.generation r = OperationRow.generation s ->
  OperationRow.interrupt_id r = OperationRow.interrupt_id s \/ OperationRow.operation_id r = OperationRow.operation_id s -> r = s.
Proof.
  intros [_ _ _ Hd _] Hr Hs Hg Hk.
  assert (forall a b, OperationRow.generation a = OperationRow.generation b ->
    OperationRow.interrupt_id a = OperationRow.interrupt_id b \/ OperationRow.operation_id a = OperationRow.operation_id b ->
    same_key a b = true) as Hsame.
  { intros a b Hab [Hi|Hi]; unfold same_key; rewrite Hab, Hi, !seqb_refl; cbn; [done|by rewrite orb_true_r]. }
  induction Hd as [|x l Hx Hl IH]; [done|]. rewrite List.Forall_forall in Hx.
  destruct Hr as [->|Hr], Hs as [->|Hs]; [done|..|auto].
  - specialize (Hx s Hs). rewrite (Hsame s r) in Hx by naive_solver. done.
  - specialize (Hx r Hr). rewrite (Hsame r s) in Hx by done. done.
Qed.

Lemma rows_match_maps i rows os : rows_match i rows os = true ->
  map OperationRow.interrupt_id rows = map Operation.interrupt_id os
  /\ map OperationRow.fingerprint rows = map Operation.fingerprint os.
Proof.
  revert i os. induction rows as [|r rows IH]; intros i [|o os]; cbn [rows_match]; try done.
  intros [Hm Hr]%andb_true_iff. unfold row_matches in Hm. destruct (IH _ _ Hr) as [E1 E2].
  repeat apply andb_true_iff in Hm as [Hm ?]. cbn [map].
  repeat match goal with H : (_ =s _) = true |- _ => apply seqb_true in H end. by split; f_equal.
Qed.

Lemma header_matches_eq h b : header_matches h b = true <-> BatchRow.fingerprint h = Batch.fingerprint b.
Proof. apply seqb_true. Qed.

Lemma phase_open h : BatchRow.state h = "open"%string -> phase_of (BatchRow.state h) = Open.
Proof. unfold phase_of. by intros ->. Qed.

Lemma batch_state h : batch_check h = true -> In (BatchRow.state h) ["open"; "ended"; "archived"]%string.
Proof. unfold batch_check. intros [[[_ H]%andb_true_iff _]%andb_true_iff _]%andb_true_iff. by apply contains_In. Qed.
Lemma phase_archived h : batch_check h = true -> phase_of (BatchRow.state h) = Archived_ <-> BatchRow.state h = "archived"%string.
Proof. intros [<-|[<-|[<-|[]]]]%batch_state; done. Qed.
Lemma phase_ended h : batch_check h = true -> phase_of (BatchRow.state h) = Ended <-> BatchRow.state h = "ended"%string.
Proof. intros [<-|[<-|[<-|[]]]]%batch_state; done. Qed.

(** What a successful [load] shows of the view. *)
Lemma loaded_holds t b h : select_batch (Batch.generation b) t = Some h -> header_matches h b = true ->
  BatchRow.state h = "open"%string -> rows_match 0 (select_operations (Batch.generation b) t) (Batch.operations b) = true ->
  holds_open (view t) b (held_of h (select_operations (Batch.generation b) t)).
Proof.
  intros Hh Hm%header_matches_eq Ho [H1 H2]%rows_match_maps. unfold holds_open, view. rewrite Hh.
  cbn [option_map held_of Held.fingerprint Held.phase Held.items]. split_and!; [done..|by apply phase_open| |];
    by rewrite map_map.
Qed.

(** Changing the row of one interrupt changes its item. *)
Lemma view_row_update t n t' b o h row st (where_ extra : OperationRow.OperationRow -> bool) set f :
  TInv t -> keeps_key set -> (forall r, where_ r = is_row b o st r && extra r) ->
  update_operations where_ set t = Some (n, t') ->
  select_batch (Batch.generation b) t = Some h ->
  In row (select_operations (Batch.generation b) t) -> OperationRow.interrupt_id row = Operation.interrupt_id o ->
  OperationRow.state row = st -> extra row = true -> item_of (set row) = f (item_of row) ->
  view t' ≡ put (Batch.generation b)
    (Some (change_item (held_of h (select_operations (Batch.generation b) t)) (Operation.interrupt_id o) f)) (view t).
Proof.
  intros Hinv Hkey Hw Hu Hh Hrow Hi Hst Hex Hf.
  apply update_operations_Some in Hu as (-> & _ & _).
  apply view_put.
  - intros g' Hne. split; [done|]. rewrite select_operations_update by done.
    apply map_id_on. intros r Hr. apply in_select_operations in Hr as [_ Hg].
    rewrite Hw. unfold is_row, of_generation. rewrite Hg. by apply seqb_false in Hne as ->.
  - unfold view. change (select_batch (Batch.generation b) (mkTables (batches t) _)) with (select_batch (Batch.generation b) t).
    rewrite Hh, select_operations_update by done. cbn [option_map]. unfold held_of, change_item, upd, upd_held_items.
    cbn [Held.items Held.fingerprint Held.phase Held.reserved]. do 2 f_equal. rewrite !map_map. apply map_ext_in. intros r Hr.
    pose proof Hr as [Hr1 Hg]%in_select_operations. pose proof Hrow as [Hrow1 Hg']%in_select_operations.
    rewrite Hw. unfold is_row, of_generation. rewrite Hg, seqb_refl. cbn [andb].
    change (Item.interrupt_id (item_of r)) with (OperationRow.interrupt_id r).
    destruct (seqb_spec (OperationRow.interrupt_id r) (Operation.interrupt_id o)) as [E|E]; [|done].
    assert (r = row) as -> by (eapply (rows_keys t); [done..|congruence|left; congruence]).
    rewrite Hst, seqb_refl, Hex. done.
Qed.

(** ** Each call keeps its promise *)
Section Calls.
  Context {F E : Type} `{!Engine F} `{!Entropy E} {PF : Platform}.
  Abbreviation J := (Journal.Journal F E).
  Abbreviation act := (journaled F E).

(** A transaction's work may be judged on the tables it starts from and ends on. *)
Definition keeps {A} (w : act A) (Q : Limits.Limits -> Tables -> A -> Tables -> Prop) : Prop :=
  forall j j' a, TInv (Journal.tables j) -> w j = (j', Done a) ->
  Journal.limits j' = Journal.limits j /\ TInv (Journal.tables j')
  /\ Q (Journal.limits j) (Journal.tables j) a (Journal.tables j').

Lemma keeps_writing {A} s (w : act A) Q : keeps w Q -> keeps (writing s w) Q.
Proof.
  intros Hw j j' a Hinv (j1 & j2 & (T1 & L1 & _) & H & (T2 & L2 & _))%writing_Done.
  destruct (Hw j1 j2 a) as (Hl & Hi & HQ); [by rewrite T1|done|].
  rewrite T2, L2, Hl, L1. rewrite L1, T1 in HQ. done.
Qed.

Lemma keeps_pure {A B} (r : answer A) (f : A -> act B) Q :
  (forall a, r = Done a -> keeps (f a) Q) -> keeps (a ← pure r; f a) Q.
Proof.
  intros Hf j j' b Hinv (j1 & a & [= <- Hr] & H)%journaled_bind_Done. by eapply Hf.
Qed.

Lemma require_Done b o u : require b o = Done u -> In o (Batch.operations b).
Proof. unfold require. case_bool_decide as H; [|done]. intros _. by apply list_elem_of_In. Qed.

Lemma keeps_key_begin : keeps_key (fun r => r <| OperationRow.state := "executing"%string |>
                                             <| OperationRow.attempts := OperationRow.attempts r + 1 |>).
Proof. by intros []. Qed.
Lemma keeps_key_settle st enc : keeps_key (fun r => r <| OperationRow.state := st |>
    <| OperationRow.origin := Some "execution"%string |> <| OperationRow.result := enc |>).
Proof. by intros []. Qed.
Lemma keeps_key_reprepare : keeps_key (fun r => r <| OperationRow.state := "prepared"%string |>).
Proof. by intros []. Qed.


(** The states a stored row may have, by its [CHECK]. *)
Lemma row_states r : operation_check r = true ->
  (OperationRow.state r = "prepared" /\ OperationRow.result r = None /\ OperationRow.origin r = None)
  \/ (OperationRow.state r = "executing" /\ OperationRow.result r = None /\ OperationRow.origin r = None)
  \/ (OperationRow.state r = "completed" /\ OperationRow.origin r = Some "execution" /\ exists raw, OperationRow.result r = Some raw)
  \/ (OperationRow.state r = "no_effect" /\ OperationRow.origin r = Some "execution" /\ OperationRow.result r = None).
Proof.
  unfold operation_check. intros H. apply andb_true_iff in H as [H Hs]. apply andb_true_iff in H as [H Ho].
  assert (OperationRow.origin r = None \/ OperationRow.origin r = Some "execution"%string) as Hor.
  { destruct (OperationRow.origin r); [|by left]. apply seqb_true in Ho as ->. by right. }
  repeat (apply orb_true_iff in Hs as [Hs|Hs]); repeat (apply andb_true_iff in Hs as [Hs ?]);
    repeat match goal with H : bool_decide _ = true |- _ => apply bool_decide_eq_true in H end.
  - apply orb_true_iff in Hs as [Hs|Hs]; apply seqb_true in Hs; tauto.
  - apply seqb_true in Hs. right; right; left. destruct Hor; [done|]. split_and!; [done..|].
    destruct (OperationRow.result r); [eauto|done].
  - apply seqb_true in Hs. right; right; right. destruct Hor; done.
Qed.

Lemma operation_row t g row : TInv t -> In row (select_operations g t) -> operation_check row = true.
Proof. intros [_ _ H _ _] [Hr _]%in_select_operations. rewrite List.Forall_forall in H. by apply H. Qed.

Lemma item_in t g h row : In row (select_operations g t) -> item_at (held_of h (select_operations g t)) (OperationRow.interrupt_id row) (item_of row).
Proof. intros H. split; [|done]. cbn [held_of Held.items]. by apply in_map. Qed.

Lemma decode_Done raw (j j' : J) v : decode_result raw j = (j', Done v) ->
  j' = j /\ exists r, raw = Some r /\ reads_result (Journal.limits j) r v.
Proof.
  unfold decode_result, reads_result. destruct raw as [r|]; [|done]. destruct (_ <? _); [done|].
  destruct (json_parse r) as [x|] eqn:Hp; [|done]. destruct (result_canonical x _) as [|enc] eqn:Hc; [done|].
  destruct (seqb_spec enc r) as [->|]; [|done]. intros [= <- <-]. split; [done|]. by exists r.
Qed.

Lemma item_begin r : OperationRow.state r = "prepared"%string ->
  item_of (r <| OperationRow.state := "executing"%string |> <| OperationRow.attempts := OperationRow.attempts r + 1 |>)
  = (item_of r) <| Item.progress := Executing |> <| Item.attempts := Item.attempts (item_of r) + 1 |>.
Proof. by destruct r. Qed.

Lemma keeps_begin b o :
  keeps (begin b o) (fun l t e t' => promised_begin l b o (view t) e (view t')).
Proof.
  apply keeps_pure. intros u Hreq%require_Done. apply keeps_writing.
  intros j j' e Hinv (j1 & row & H1 & H2)%journaled_bind_Done.
  apply operation_Done in H1 as ((T1 & L1 & _) & Hrow & Hi & h & Hh & Hm & Ho & Hr).
  pose proof (loaded_holds _ _ _ Hh Hm Ho Hr) as Hold.
  pose proof (item_in _ _ h _ Hrow) as Hit. rewrite Hi in Hit.
  destruct (row_states row) as [(S1 & R1 & _)|[(S1 & _)|[(S1 & _ & raw & R1)|(S1 & _)]]];
    [by eapply operation_row|..]; rewrite S1 in H2; cbv zeta in H2.
  - change ("prepared" =s "executing") with false in H2. change ("prepared" =s "no_effect") with false in H2.
    change ("prepared" =s "completed") with false in H2. cbv iota in H2. rewrite bool_decide_false in H2 by (intros Hn; apply Hn, R1).
    apply journaled_bind_Done in H2 as (j2 & n & H3 & H4). apply executed_Done in H3 as (t2 & Hu & T2 & L2 & _).
    apply journaled_bind_Done in H4 as (j3 & [] & [-> ->]%require_changed_Done & [-> ->]%journaled_ret_Done).
    rewrite T1 in Hu. rewrite T2, L2, L1. split; [done|].
    split; [by eapply TInv_update_operations, Hu; [apply keeps_key_begin|]|].
    exists (held_of h (select_operations (Batch.generation b) (Journal.tables j))), (item_of row).
    split_and!; [done..|]. left. split_and!; [by unfold item_of, progress_of; cbn; rewrite S1|done..|].
    eapply (view_row_update _ _ _ b o h row "prepared" (is_row b o "prepared") (fun _ => true));
      [done|apply keeps_key_begin|intros r; by rewrite andb_true_r|done..|].
    by apply item_begin.
  - done.
  - change ("completed" =s "executing") with false in H2. change ("completed" =s "no_effect") with false in H2.
    rewrite seqb_refl in H2. cbv iota in H2.
    apply journaled_bind_Done in H2 as (j2 & v & [-> (r & Hr1 & Hr2)]%decode_Done & [-> ->]%journaled_ret_Done).
    rewrite T1, L1 in *. split; [done|split; [done|]].
    exists (held_of h (select_operations (Batch.generation b) (Journal.tables j))), (item_of row).
    split_and!; [done..|]. right. exists r, v. split_and!; [|done..].
    unfold item_of, progress_of. cbn. rewrite S1, Hr1. done.
  - done.
Qed.

Lemma settled_item r st enc :
  (st = "completed"%string /\ enc <> None) \/ (st = "no_effect"%string /\ enc = None) ->
  item_of (r <| OperationRow.state := st |> <| OperationRow.origin := Some "execution"%string |> <| OperationRow.result := enc |>)
  = (item_of r) <| Item.progress := if st =s "completed" then Completed (default "" enc) else NoEffect |>.
Proof. destruct r. by intros [[-> _]|[-> _]]. Qed.

Lemma keeps_settle b o st enc p :
  (st = "completed"%string /\ enc <> None) \/ (st = "no_effect"%string /\ enc = None) ->
  p = (if st =s "completed" then Completed (default "" enc) else NoEffect) ->
  keeps (settle b o st enc) (fun l t _ t' => promised_settle b o p (view t) (view t')).
Proof.
  intros Hst ->. apply keeps_pure. intros u Hreq%require_Done. apply keeps_writing.
  intros j j' [] Hinv (j1 & row & H1 & H2)%journaled_bind_Done.
  apply operation_Done in H1 as ((T1 & L1 & _) & Hrow & Hi & h & Hh & Hm & Ho & Hr).
  pose proof (loaded_holds _ _ _ Hh Hm Ho Hr) as Hold.
  pose proof (item_in _ _ h _ Hrow) as Hit. rewrite Hi in Hit.
  destruct (_ && _) eqn:Hsame in H2.
  - apply andb_true_iff in Hsame as [Hs1%seqb_true Ho1%bool_decide_eq_true]. case_bool_decide as Hres; [|done].
    apply journaled_ret_Done in H2 as [-> _]. rewrite T1, L1. split; [done|split; [done|]].
    exists (held_of h (select_operations (Batch.generation b) (Journal.tables j))), (item_of row).
    split_and!; [done..|]. left. split; [|done]. unfold item_of, progress_of. cbn [Item.progress].
    rewrite Hs1, Hres. by destruct Hst as [[-> _]|[-> _]].
  - destruct (_ || _) eqn:Hex in H2; [done|]. apply orb_false_iff in Hex as [Hex%negb_false_iff%seqb_true _].
    apply journaled_bind_Done in H2 as (j2 & n & H3 & [-> ->]%require_changed_Done).
    apply executed_Done in H3 as (t2 & Hu & T2 & L2 & _). rewrite T1 in Hu. rewrite T2, L2, L1. split; [done|].
    split; [by eapply TInv_update_operations, Hu; [apply keeps_key_settle|]|].
    exists (held_of h (select_operations (Batch.generation b) (Journal.tables j))), (item_of row).
    split_and!; [done..|]. right. split; [by unfold item_of, progress_of; cbn; rewrite Hex|].
    eapply (view_row_update _ _ _ b o h row "executing" (is_row b o "executing") (fun _ => true));
      [done|apply keeps_key_settle|intros r; by rewrite andb_true_r|done..|]. by apply settled_item.
Qed.

Lemma keeps_complete b o v :
  keeps (complete_operation b o v) (fun l t _ t' => exists raw,
    result_canonical v (Limits.max_result_bytes l) = inr raw /\ promised_settle b o (Completed raw) (view t) (view t')).
Proof.
  intros j j' u Hinv H. unfold complete_operation in H.
  destruct (result_canonical v _) as [|raw] eqn:Hc; [done|].
  apply (keeps_settle b o "completed" (Some raw) (Completed raw)) in H as (? & ? & ?); [eauto|by left|done|done].
Qed.

Lemma keeps_reprepare b o s :
  keeps (reprepare b o s) (fun l t _ t' => promised_reprepare b o (view t) (view t')).
Proof.
  apply keeps_pure. intros u Hreq%require_Done. apply keeps_writing.
  intros j j' [] Hinv (j1 & row & H1 & H2)%journaled_bind_Done.
  apply operation_Done in H1 as ((T1 & L1 & _) & Hrow & Hi & h & Hh & Hm & Ho & Hr).
  pose proof (loaded_holds _ _ _ Hh Hm Ho Hr) as Hold.
  pose proof (item_in _ _ h _ Hrow) as Hit. rewrite Hi in Hit.
  destruct (_ || _) eqn:Hex in H2; [done|]. apply orb_false_iff in Hex as [Hex%negb_false_iff%seqb_true Hn%bool_decide_eq_false].
  apply journaled_bind_Done in H2 as (j2 & n & H3 & [-> ->]%require_changed_Done).
  apply executed_Done in H3 as (t2 & Hu & T2 & L2 & _). rewrite T1 in Hu. rewrite T2, L2, L1. split; [done|].
  split; [by eapply TInv_update_operations, Hu; [apply keeps_key_reprepare|]|].
  exists (held_of h (select_operations (Batch.generation b) (Journal.tables j))), (item_of row).
  split_and!; [done..|by unfold item_of, progress_of; cbn; rewrite Hex|].
  eapply (view_row_update _ _ _ b o h row "executing" _ (fun r => bool_decide (OperationRow.result r = None)));
    [done|apply keeps_key_reprepare|done|done..|apply bool_decide_true; by destruct (OperationRow.result row); [destruct Hn|]|].
  by destruct row.
Qed.

Lemma batch_row t g r : TInv t -> select_batch g t = Some r -> batch_check r = true.
Proof. intros [_ H _ _ _] [Hr _]%select_batch_Some. rewrite List.Forall_forall in H. auto. Qed.

(** *** Removing batches *)
Lemma delete_ext p q t : (forall r, p r = q r) -> delete_from_batches p t = delete_from_batches q t.
Proof.
  intros H. unfold delete_from_batches. rewrite (List.filter_ext p q) by done.
  by rewrite (List.filter_ext (fun r => negb (p r)) (fun r => negb (q r))) by (intros; by rewrite H).
Qed.

Lemma keeps_delete_where j j' n g where_ p s :
  (forall r, where_ r = (BatchRow.generation r =s g) && p r) -> TInv (Journal.tables j) ->
  executed (F:=F) (E:=E) (delete_from_batches where_) s j = (j', Done n) ->
  Journal.limits j' = Journal.limits j /\ TInv (Journal.tables j') /\
  view (Journal.tables j') ≡ match select_batch g (Journal.tables j) with
                             | Some r => if p r then put g None (view (Journal.tables j)) else view (Journal.tables j)
                             | None => view (Journal.tables j)
                             end.
Proof.
  intros Hw Hinv (t' & Hd & T & L & _)%executed_Done. rewrite T, L. split; [done|].
  rewrite (delete_ext _ _ _ Hw) in Hd. split; [by eapply TInv_delete|]. destruct (delete_select g p _ Hinv _ _ Hd) as [Ho Hg].
  destruct (select_batch g (Journal.tables j)) as [r|] eqn:Hr; [destruct (p r)|].
  - apply view_put; [done|]. unfold view. by rewrite Hg.
  - destruct Hg as [H1 H2]. by apply (view_same _ _ g); [|rewrite Hr|].
  - intros g'. destruct (seqb_spec g' g) as [->|Hne]; unfold view; [by rewrite Hg, Hr|]. by destruct (Ho g' Hne) as [-> ->].
Qed.

Lemma keeps_remove s p q g : (forall r rows, batch_check r = true -> p r = q (held_of r rows)) ->
  keeps (remove_where s p g) (fun l t _ t' => promised_remove q g (view t) (view t')).
Proof.
  intros Hpq. apply keeps_pure. intros g' Hs. assert (g' = g) as ->.
  { unfold safe_id in Hs. destruct (SAFE_ID_RE g); [by injection Hs|done]. }
  apply keeps_writing. intros j j' [] Hinv (j1 & n & H1 & [-> _]%journaled_ret_Done)%journaled_bind_Done.
  apply (keeps_delete_where _ _ _ g _ p) in H1 as (L & Hi & Hv); [|done..]. split; [done|split; [done|]].
  unfold promised_remove. destruct (select_batch g (Journal.tables j)) as [r|] eqn:Hr.
  - rewrite (view_Some _ _ _ Hr), <- (Hpq r); [by destruct (p r)|]. apply (batch_row _ _ _ Hinv Hr).
  - by rewrite (view_None _ _ Hr).
Qed.

Lemma safe_id_Done g g' : safe_id g = Done g' -> g' = g.
Proof. unfold safe_id. destruct (SAFE_ID_RE g); [by intros [= ->]|done]. Qed.

Lemma keeps_release g f :
  keeps (release_archive g f) (fun l t _ t' => promised_release g f (view t) (view t')).
Proof.
  apply keeps_pure. intros g' ->%safe_id_Done. apply keeps_writing.
  intros j j' [] Hinv (j1 & row & [-> (T1 & L1 & _)]%queried_Done & H2)%journaled_bind_Done. unfold promised_release.
  destruct (select_batch g (Journal.tables j)) as [r|] eqn:Hr; [rewrite (view_Some _ _ _ Hr)|rewrite (view_None _ _ Hr)].
  - destruct (_ && _) eqn:Hm in H2; [|done]. apply andb_true_iff in Hm as [Hf%seqb_true Ha%seqb_true].
    apply journaled_bind_Done in H2 as (j2 & n & H3 & [-> _]%journaled_ret_Done).
    apply (keeps_delete_where _ _ _ g _ (fun _ => true)) in H3 as (L & Hi & Hv);
      [|intros; by rewrite andb_true_r|by rewrite T1]. rewrite T1, L1, Hr in *. split; [done|split; [done|]]. right. exists (held_of r (select_operations g (Journal.tables j))).
    split_and!; [done| done| |done]. unfold held_of, phase_of. cbn. by rewrite Ha.
  - apply journaled_ret_Done in H2 as [-> _]. rewrite T1, L1. split; [done|split; [done|]]. by left.
Qed.

(** *** Ending batches *)
Lemma current_Done b s (j j' : J) here : current b s j = (j', Done here) ->
  onto j j' (Journal.tables j)
  /\ match select_batch (Batch.generation b) (Journal.tables j) with
     | Some r => here = true /\ header_matches r b = true
     | None => here = false
     end.
Proof.
  unfold current. intros (j1 & row & [-> O1]%queried_Done & H2)%journaled_bind_Done.
  destruct (select_batch _ _) as [r|]; [destruct (header_matches r b); [|done]|];
    apply journaled_ret_Done in H2 as [-> ->]; done.
Qed.

(** The held batch of an open handle is deleted. *)
Lemma keeps_delete_batch b s m j j' u r :
  TInv (Journal.tables j) -> select_batch (Batch.generation b) (Journal.tables j) = Some r -> header_matches r b = true ->
  delete_batch (F:=F) (E:=E) b s m j = (j', Done u) ->
  Journal.limits j' = Journal.limits j /\ TInv (Journal.tables j')
  /\ view (Journal.tables j') ≡ put (Batch.generation b) None (view (Journal.tables j)).
Proof.
  intros Hinv Hr Hm (j1 & n & H1 & [-> ->]%require_changed_Done)%journaled_bind_Done.
  apply (keeps_delete_where _ _ _ (Batch.generation b) _ (fun r => header_matches r b)) in H1 as (L & Hi & Hv); [|done..].
  by rewrite Hr, Hm in Hv.
Qed.

Lemma decode_rows_Done rows (j j' : J) u : decode_rows rows j = (j', Done u) ->
  j' = j /\ List.Forall (fun r => exists raw v, OperationRow.result r = Some raw /\ reads_result (Journal.limits j) raw v) rows.
Proof.
  induction rows as [|r rows IH]; cbn [decode_rows].
  - intros [-> _]%journaled_ret_Done. by split.
  - intros (j1 & v & [-> (raw & Hr & Hv)]%decode_Done & [-> H]%IH)%journaled_bind_Done. split; [done|].
    constructor; [eauto|done].
Qed.

Lemma progress_executing t g row : TInv t -> In row (select_operations g t) ->
  (Item.progress (item_of row) = Executing <-> OperationRow.state row = "executing"%string).
Proof.
  intros Hinv Hrow. unfold item_of, progress_of. cbn [Item.progress].
  destruct (row_states row) as [(-> & _)|[(-> & _)|[(-> & _)|(-> & _)]]]; [by eapply operation_row|..]; done.
Qed.

Lemma some_executing_rows t g h : TInv t ->
  some_executing (held_of h (select_operations g t)) <->
  existsb (fun row => OperationRow.state row =s "executing") (select_operations g t) = true.
Proof.
  intros Hinv. unfold some_executing. cbn [held_of Held.items]. rewrite existsb_exists. split.
  - intros (it & (row & <- & Hin)%in_map_iff & Hp). exists row. split; [done|]. apply seqb_true. by eapply progress_executing.
  - intros (row & Hin & Hs%seqb_true). exists (item_of row). split; [by apply in_map|]. by eapply progress_executing.
Qed.

Lemma keeps_deliver b : keeps (delivered b) (fun l t _ t' => promised_deliver l b (view t) (view t')).
Proof.
  apply keeps_writing. intros j j' [] Hinv (j1 & here & [(T1 & L1 & _) Hc]%current_Done & H2)%journaled_bind_Done.
  unfold promised_deliver. destruct (select_batch _ _) as [r|] eqn:Hr.
  2: { subst here. apply journaled_ret_Done in H2 as [-> _]. rewrite T1, L1. rewrite (view_None _ _ Hr). eauto. }
  destruct Hc as [-> Hm]. cbn [negb] in H2. apply journaled_bind_Done in H2 as (j2 & rows & H3 & H4).
  apply load_Done in H3 as ((T2 & L2 & _) & -> & h & Hh & _ & Ho & Hrows). rewrite T1 in *. rewrite Hr in Hh. injection Hh as <-.
  destruct (existsb _ _) eqn:Hall in H4; [done|]. apply journaled_bind_Done in H4 as (j3 & [] & [-> Hdec]%decode_rows_Done & H5).
  eapply keeps_delete_batch in H5 as (L & Hi & Hv); [|by rewrite T2..|done]. rewrite T2, L2, L1 in *.
  split; [done|split; [done|]]. right. exists (held_of r (select_operations (Batch.generation b) (Journal.tables j))).
  split_and!; [by apply loaded_holds| |done]. cbn [held_of Held.items]. intros it (row & <- & Hin)%in_map_iff.
  rewrite List.Forall_forall in Hdec. destruct (Hdec row Hin) as (raw & v & Hraw & Hreads). exists raw, v. split; [|done].
  assert (OperationRow.state row = "completed"%string) as Hs.
  { destruct (seqb_spec (OperationRow.state row) "completed") as [|Hne]; [done|]. rewrite <- not_true_iff_false in Hall.
    destruct Hall. apply existsb_exists. exists row. split; [done|]. by apply seqb_false in Hne as ->. }
  unfold item_of, progress_of. cbn. rewrite Hs, Hraw. done.
Qed.

Lemma keeps_abandon b : keeps (abandon_uncertain b) (fun l t flag t' => promised_abandon b (view t) flag (view t')).
Proof.
  apply keeps_writing. intros j j' flag Hinv (j1 & here & [(T1 & L1 & _) Hc]%current_Done & H2)%journaled_bind_Done.
  destruct (select_batch _ _) as [r|] eqn:Hr.
  2: { subst here. apply journaled_ret_Done in H2 as [-> ->]. rewrite T1, L1. cbn. rewrite (view_None _ _ Hr). auto. }
  destruct Hc as [-> Hm]. cbn [negb] in H2. apply journaled_bind_Done in H2 as (j2 & rows & H3 & H4).
  apply load_Done in H3 as ((T2 & L2 & _) & -> & h & Hh & _ & Ho & Hrows). rewrite T1 in *. rewrite Hr in Hh. injection Hh as <-.
  pose proof (loaded_holds _ _ _ Hr Hm Ho Hrows) as Hold.
  pose proof (some_executing_rows _ (Batch.generation b) r Hinv) as Hse.
  assert (forallb (fun row => negb (OperationRow.state row =s "executing")) (select_operations (Batch.generation b) (Journal.tables j))
          = negb (existsb (fun row => OperationRow.state row =s "executing") (select_operations (Batch.generation b) (Journal.tables j)))) as Hfe.
  { clear. induction (select_operations _ _) as [|x l IH]; cbn; [done|]. rewrite IH. by rewrite negb_orb. }
  rewrite Hfe in H4. destruct (existsb _ _) eqn:Hex in H4; cbn [negb] in H4.
  - apply journaled_bind_Done in H4 as (j3 & [] & H5 & [-> ->]%journaled_ret_Done).
    eapply keeps_delete_batch in H5 as (L & Hi & Hv); [|by rewrite T2..|done]. rewrite T2, L2, L1 in *.
    split; [done|split; [done|]]. cbn. eexists. split_and!; [done|by apply Hse|done].
  - apply journaled_ret_Done in H4 as [-> ->]. rewrite T2, L2, L1. split; [done|split; [done|]]. cbn. split; [done|].
    right. eexists. split; [done|]. rewrite Hse, Hex. done.
Qed.

(** Marking an open batch ended. *)
Lemma keeps_end_states g states j j' flag r :
  TInv (Journal.tables j) -> select_batch g (Journal.tables j) = Some r -> BatchRow.state r = "open"%string ->
  end_settled_states (F:=F) (E:=E) g states j = (j', Done flag) ->
  Journal.limits j' = Journal.limits j /\ TInv (Journal.tables j')
  /\ flag = negb (existsb (fun s => s =s "executing") states)
  /\ view (Journal.tables j') ≡
       if flag then put g (Some ((held_of r (select_operations g (Journal.tables j))) <| Held.phase := Ended |>)) (view (Journal.tables j))
       else view (Journal.tables j).
Proof.
  intros Hinv Hr Ho. unfold end_settled_states. destruct (existsb _ states); [by intros [-> ->]%journaled_ret_Done|].
  intros (j1 & n & (t' & Hu & T & L & _)%executed_Done & (j2 & [] & [-> ->]%require_changed_Done & [-> ->]%journaled_ret_Done)%journaled_bind_Done)%journaled_bind_Done.
  rewrite T, L. split; [done|]. split.
  { eapply TInv_update_batches; [|exact Hinv|exact Hu|]; [by intros []|]. intros x _ _. by destruct x. }
  split; [done|]. apply update_batches_Some in Hu as (-> & _ & _).
  apply view_put.
  - intros g' Hne. split; [|done]. rewrite select_batch_update by (by intros []).
    destruct (select_batch g' (Journal.tables j)) as [x|] eqn:Hx; cbn [option_map]; [|done].
    apply select_batch_Some in Hx as [_ Hg]. rewrite Hg. by apply seqb_false in Hne as ->.
  - unfold view. rewrite select_batch_update by (by intros []). rewrite Hr. cbn [option_map].
    pose proof (select_batch_Some _ _ _ Hr) as [_ Hg]. rewrite Hg, seqb_refl, Ho, seqb_refl. cbn [andb].
    destruct r; cbn in *; subst. done.
Qed.

Lemma executing_states rows :
  existsb (fun s => s =s "executing") (map OperationRow.state rows) = existsb (fun row => OperationRow.state row =s "executing") rows.
Proof. induction rows as [|r rows IH]; cbn; [done|]. by rewrite IH. Qed.

Lemma keeps_end b : keeps (end_batch b) (fun l t flag t' => promised_end b (view t) flag (view t')).
Proof.
  apply keeps_writing. intros j j' flag Hinv (j1 & row & [-> (T1 & L1 & _)]%queried_Done & H2)%journaled_bind_Done.
  destruct (select_batch _ _) as [r|] eqn:Hr.
  2: { apply journaled_ret_Done in H2 as [-> ->]. rewrite T1, L1. cbn. rewrite (view_None _ _ Hr). auto. }
  destruct (header_matches r b) eqn:Hm; cbn [andb negb] in H2; [|done].
  pose proof (some_executing_rows _ (Batch.generation b) r Hinv) as Hse.
  destruct (seqb_spec (BatchRow.state r) "ended") as [He|_].
  { apply journaled_ret_Done in H2 as [-> ->]. rewrite T1, L1. split; [done|split; [done|]]. cbn. split; [done|]. right.
    exists (held_of r (select_operations (Batch.generation b) (Journal.tables j))).
    split_and!; [by apply view_Some|by apply header_matches_eq|left]. unfold held_of, phase_of. cbn. by rewrite He. }
  apply journaled_bind_Done in H2 as (j2 & rows & H3 & H4).
  apply load_Done in H3 as ((T2 & L2 & _) & -> & h & Hh & _ & Ho & Hrows). rewrite T1 in *. rewrite Hr in Hh. injection Hh as <-.
  apply (keeps_end_states _ _ _ _ _ r) in H4 as (L & Hi & Hf & Hv); [|by rewrite T2..|done].
  rewrite T2, L2, L1, executing_states in *. split; [done|split; [done|]]. subst flag.
  destruct (existsb _ _) eqn:Hex; cbn [negb] in *.
  - split; [done|]. right. eexists. split_and!; [by apply view_Some|by apply header_matches_eq|right]. by apply Hse.
  - eexists. split_and!; [by apply loaded_holds| |done]. rewrite Hse, ?Hex. done.
Qed.

Lemma filtered_rows t g p : existsb p (List.filter (of_generation g) (operations t)) = existsb p (select_operations g t).
Proof.
  apply eq_true_iff_eq. rewrite !existsb_exists. split; intros (x & Hx & Hp); exists x; (split; [|done]).
  - apply filter_In in Hx as [? ?%seqb_true]. by apply in_select_operations.
  - apply in_select_operations in Hx as [? <-]. apply filter_In. split; [done|apply seqb_refl].
Qed.

Lemma keeps_end_settled g : keeps (end_settled g) (fun l t _ t' => promised_end_settled g (view t) (view t')).
Proof.
  apply keeps_pure. intros g' ->%safe_id_Done. apply keeps_writing.
  intros j j' [] Hinv (j1 & states & [-> (T1 & L1 & _)]%queried_Done & H2)%journaled_bind_Done. unfold promised_end_settled.
  destruct (existsb _ (batches (Journal.tables j))) eqn:Hopen.
  - apply existsb_exists in Hopen as (r & Hin & [Hg%seqb_true Ho%seqb_true]%andb_true_iff).
    pose proof (in_select_batch _ _ Hinv Hin) as Hr. rewrite Hg in Hr. rewrite (view_Some _ _ _ Hr).
    rewrite bool_decide_true by (unfold held_of, phase_of; cbn; by rewrite Ho).
    pose proof (some_executing_rows _ g r Hinv) as Hse.
    case_bool_decide as Hnil.
    + apply journaled_ret_Done in H2 as [-> _]. rewrite T1, L1. split; [done|split; [done|]]. left. split; [right|done].
      cbn [held_of Held.items]. apply map_eq_nil in Hnil. unfold select_operations. by rewrite Hnil.
    + apply journaled_bind_Done in H2 as (j2 & flag & H3 & [-> _]%journaled_ret_Done).
      apply (keeps_end_states _ _ _ _ _ r) in H3 as (L & Hi & Hf & Hv); [|by rewrite T1..|done].
      rewrite T1, L1, executing_states, filtered_rows in *. split; [done|split; [done|]]. subst flag.
      destruct (existsb _ _) eqn:Hex in Hv; cbn [negb] in Hv.
      * left. split; [left; by apply Hse|done].
      * right. split; [by rewrite Hse, Hex|done].
  - rewrite bool_decide_true in H2 by done. apply journaled_ret_Done in H2 as [-> _]. rewrite T1, L1.
    split; [done|split; [done|]]. destruct (select_batch g (Journal.tables j)) as [r|] eqn:Hr.
    + rewrite (view_Some _ _ _ Hr). case_bool_decide as Hp; [|done]. exfalso. rewrite <- not_true_iff_false in Hopen.
      apply Hopen. apply existsb_exists. exists r. apply select_batch_Some in Hr as [Hin Hg]. split; [done|].
      rewrite Hg, seqb_refl. cbn [andb]. cbn [held_of Held.phase] in Hp. unfold phase_of in Hp.
      destruct (BatchRow.state r =s "open"); [done|]. by destruct (BatchRow.state r =s "ended").
    + by rewrite (view_None _ _ Hr).
Qed.

(** Archiving marks the batch and drops its rows. *)
Lemma TInv_archive t g f r : TInv t -> select_batch g t = Some r -> BatchRow.fingerprint r = f -> BatchRow.archivable r = 1 ->
  let where_ (r : BatchRow.BatchRow) := (BatchRow.generation r =s g) && (BatchRow.fingerprint r =s f) in
  let t' := mkTables (map (fun r => if where_ r then r <| BatchRow.state := "archived"%string |> else r) (batches t))
              (List.filter (fun x => negb (of_generation g x)) (operations t)) in
  List.Forall (fun r => where_ r = true -> batch_check (r <| BatchRow.state := "archived"%string |>) = true) (batches t) ->
  TInv t' /\ view t' ≡ put g (Some (Held.mk f Archived_ true [])) (view t).
Proof.
  intros Hinv Hr Hf Ha where_ t' Hck. pose proof Hinv as [H1 H2 H3 H4 H5].
  pose proof (select_batch_update where_ (fun r => r <| BatchRow.state := "archived"%string |>) ltac:(by intros [])
                (mkTables (batches t) (List.filter (fun x => negb (of_generation g x)) (operations t)))) as Hsel.
  cbn [batches operations] in Hsel. fold t' in Hsel.
  split.
  - split; cbn [batches operations t'].
    + rewrite map_map. erewrite map_ext; [exact H1|]. intros []. by destruct (where_ _).
    + apply List.Forall_map. rewrite List.Forall_forall in *. intros x Hx. destruct (where_ x) eqn:Hw; auto.
    + rewrite List.Forall_forall in *. intros x [Hx _]%filter_In. auto.
    + revert H4. clear. induction 1 as [|x l Hx Hl IH]; cbn; [constructor|]. destruct (negb _); [|done].
      constructor; [|done]. rewrite List.Forall_forall in *. intros y [Hy _]%filter_In. auto.
    + rewrite List.Forall_forall in *. intros x [Hx Hn%negb_true_iff%seqb_false]%filter_In.
      destruct (H5 x Hx) as (b & Hb & Hg & Hs). exists b. split; [|done]. apply in_map_iff. exists b. split; [|done].
      unfold where_. rewrite Hg. by apply seqb_false in Hn as ->.
  - apply view_put.
    + intros g' Hne. rewrite Hsel. split.
      * change (select_batch g' (mkTables (batches t) _)) with (select_batch g' t).
        destruct (select_batch g' t) as [x|] eqn:Hx; cbn [option_map]; [|done].
        apply select_batch_Some in Hx as [_ Hg]. unfold where_. rewrite Hg. by apply seqb_false in Hne as ->.
      * unfold select_operations, t'. cbn [operations]. f_equal. rewrite filter_both. apply List.filter_ext_in.
        intros x _. unfold of_generation. destruct (seqb_spec (OperationRow.generation x) g') as [->|]; [|by rewrite andb_false_r].
        by apply seqb_false in Hne as ->.
    + unfold view. rewrite Hsel. change (select_batch g (mkTables (batches t) _)) with (select_batch g t).
      rewrite Hr. cbn [option_map]. pose proof (select_batch_Some _ _ _ Hr) as [_ Hg]. unfold where_.
      rewrite Hg, Hf, !seqb_refl. cbn [andb]. unfold held_of. f_equal.
      assert (select_operations g t' = []) as ->.
      { unfold select_operations, t'. cbn [operations]. rewrite filter_both.
        rewrite (List.filter_ext _ (fun _ => false)) by (intros x; by destruct (of_generation g x)). by rewrite List.filter_false. }
      destruct r; cbn in *; subst. done.
Qed.

Lemma keeps_archive g f : keeps (archive g f) (fun l t _ t' => promised_archive g f (view t) (view t')).
Proof.
  apply keeps_pure. intros g' ->%safe_id_Done. apply keeps_writing.
  intros j j' [] Hinv (j1 & row & [-> (T1 & L1 & _)]%queried_Done & H2)%journaled_bind_Done. unfold promised_archive.
  destruct (select_batch g (Journal.tables j)) as [r|] eqn:Hr; [|done].
  destruct (seqb_spec (BatchRow.fingerprint r) f) as [Hf|]; cbn [negb] in H2; [|done].
  destruct (seqb_spec (BatchRow.state r) "archived") as [Ha|Ha].
  { apply journaled_ret_Done in H2 as [-> _]. rewrite T1, L1. split; [done|split; [done|]].
    eexists. split_and!; [by apply view_Some|done|left]. split; [|done]. unfold held_of, phase_of. cbn. by rewrite Ha. }
  destruct (Z.eqb_spec (BatchRow.archivable r) 1) as [H1|]; cbn [negb] in H2; [|done].
  apply journaled_bind_Done in H2 as (j2 & n & (t2 & Hu & T2 & L2 & _)%executed_Done & H3).
  apply journaled_bind_Done in H3 as (j3 & [] & [-> ->]%require_changed_Done & H4).
  apply journaled_bind_Done in H4 as (j4 & m & (t4 & Hd & T4 & L4 & _)%executed_Done & [-> _]%journaled_ret_Done).
  rewrite T1 in Hu. apply update_batches_Some in Hu as (-> & _ & Hck). injection Hd as _ Hd.
  destruct (TInv_archive _ g f r Hinv Hr Hf H1 Hck) as [Hi Hv].
  rewrite T4, <- Hd, T2, L4, L2, L1. split; [done|split; [done|]].
  eexists. split_and!; [by apply view_Some|done|right]. split_and!; [|by apply Z.eqb_eq|done].
  cbn [held_of Held.phase]. pose proof (select_batch_Some _ _ _ Hr) as [Hin _]. pose proof Hinv as [_ Hb _ _ _].
  rewrite List.Forall_forall in Hb. by rewrite (phase_archived _ (Hb r Hin)).
Qed.
End Calls.
