(* ===== verification/JournalPrepare.v ===== *)
(** * Preparing a batch

    What [prepare_batch] does to the tables: a new batch with its rows in order,
    each under a valid operation id, or the same batch opened again. *)

From stdpp Require Import base tactics list strings pretty relations.
From Stdlib Require Import ZArith Lia Ascii.
From S2P Require Import Prelude Text Json Reader Calendar Platform Journal JournalSpec JournalSafety.

#[local] Open Scope Z_scope.

(** ** Operation ids *)
Lemma hex_high a : is_hex (hex_digit (byte_code a / 16)) = true.
Proof. pose proof (hex_pair_ok a). by apply andb_true_iff in H as [? _]. Qed.
Lemma hex_low a : is_hex (hex_digit (byte_code a mod 16)) = true.
Proof. pose proof (hex_pair_ok a). by apply andb_true_iff in H as [_ ?]. Qed.

Lemma version_nibble a :
  one_of "4" (hex_digit (byte_code (byte_of (Z.lor (Z.land (byte_code a) 0x0f) 0x40)) / 16)) = true.
Proof. destruct a as [[] [] [] [] [] [] [] []]; vm_compute; reflexivity. Qed.
Lemma variant_nibble a :
  one_of "89ab" (hex_digit (byte_code (byte_of (Z.lor (Z.land (byte_code a) 0x3f) 0x80)) / 16)) = true.
Proof. destruct a as [[] [] [] [] [] [] [] []]; vm_compute; reflexivity. Qed.

Lemma length_buffer n s : String.length (buffer n s) = n.
Proof. revert s. induction n as [|n IH]; intros [|a s]; cbn [buffer String.length]; by rewrite ?IH. Qed.

(** Sixteen bytes always make an operation id. *)
Lemma uuid_valid s : valid_operation_id (uuid_of (buffer 16 s)) = true.
Proof.
  pose proof (length_buffer 16 s) as Hl. generalize dependent (buffer 16 s). clear s. intros s Hl.
  do 16 (destruct s as [|?a s]; [done|]). destruct s; [|done]. unfold uuid_of. cbv zeta. cbn [map_byte].
  rewrite !hex_of_cons. change (hex_of "") with ""%string. unfold slice.
  lazy -[is_hex one_of hex_digit byte_code Z.div Z.modulo byte_of Z.lor Z.land].
  rewrite ?hex_high, ?hex_low, ?version_nibble, ?variant_nibble. reflexivity.
Qed.

(** ** Inserting *)
Lemma ordpairs_snoc {A} (R : A -> A -> Prop) l x :
  List.ForallOrdPairs R l -> List.Forall (fun y => R y x) l -> List.ForallOrdPairs R (l ++ [x]).
Proof.
  induction 1 as [|y l Hy Hl IH]; intros Hx; [by repeat constructor|]. apply List.Forall_cons_iff in Hx as [H1 H2].
  cbn. constructor; [|by apply IH]. apply List.Forall_app. by repeat constructor.
Qed.

Lemma TInv_insert_batch r n t t' : TInv t -> insert_into_batches r t = Some (n, t') -> TInv t'.
Proof.
  intros [H1 H2 H3 H4 H5]. unfold insert_into_batches. destruct (_ && _) eqn:Hc; [|done]. intros [= <- <-].
  apply andb_true_iff in Hc as [Hc Hn%negb_true_iff]. split; cbn [batches operations]; try done.
  - rewrite map_app. apply List.NoDup_app; [done|by repeat constructor; intros []|].
    intros g Hg [<-|[]]. apply in_map_iff in Hg as (s & Hs & Hin). rewrite <- not_true_iff_false in Hn. apply Hn.
    apply existsb_exists. exists s. split; [done|]. cbn in Hs. rewrite Hs. apply seqb_refl.
  - apply List.Forall_app. by repeat constructor.
  - eapply List.Forall_impl; [|exact H5]. intros s (b & Hb & ?). exists b. split; [|done]. apply in_or_app. by left.
Qed.

Lemma TInv_insert_operation r n t t' b : TInv t -> insert_into_operations r t = Some (n, t') ->
  valid_operation_id (OperationRow.operation_id r) = true ->
  In b (batches t) -> BatchRow.generation b = OperationRow.generation r -> BatchRow.state b <> "archived"%string ->
  TInv t' /\ t' = mkTables (batches t) (operations t ++ [r]).
Proof.
  intros [H1 H2 H3 H4 H5]. unfold insert_into_operations. destruct (_ && _) eqn:Hc; [|done]. intros [= <- <-] Hid Hb Hg Hs.
  apply andb_true_iff in Hc as [[Hc Hn%negb_true_iff]%andb_true_iff _]. split; [|done].
  split; cbn [batches operations]; try done.
  - apply List.Forall_app. by repeat constructor.
  - apply ordpairs_snoc; [done|]. apply List.Forall_forall. intros s Hin.
    apply not_true_iff_false. intros Hk. rewrite <- not_true_iff_false in Hn. apply Hn. apply existsb_exists. by exists s.
  - apply List.Forall_app. split; [done|]. repeat constructor. by exists b.
Qed.

(** The rows that [insert_operations] adds. *)
Fixpoint new_rows (g : string) (i : Z) (os : list Operation.Operation) (ids : list string) : list OperationRow.OperationRow :=
  match os, ids with
  | o :: os, id :: ids =>
      OperationRow.mk g i (Operation.interrupt_id o) (Operation.fingerprint o) id 0 "prepared" None None
      :: new_rows g (i + 1) os ids
  | _, _ => []
  end.

Lemma new_rows_generation g i os ids r : In r (new_rows g i os ids) -> OperationRow.generation r = g.
Proof. revert i ids. induction os as [|o os IH]; intros i [|id ids]; try done. cbn. intros [<-|H]; [done|by eapply IH]. Qed.

Lemma new_rows_sorted g i os ids :
  stable_sort (fun a b => OperationRow.ordinal a <=? OperationRow.ordinal b) (new_rows g i os ids) = new_rows g i os ids.
Proof.
  revert i ids. induction os as [|o os IH]; intros i [|id ids]; try done. cbn [new_rows]. unfold stable_sort in *.
  cbn [fold_right]. rewrite IH. destruct os as [|o' os], ids as [|id' ids]; try done. cbn [new_rows insert_sorted].
  cbn [OperationRow.ordinal]. by destruct (Z.leb_spec i (i + 1)); [|lia].
Qed.

(** A row's id is the one its operation repeats, or a new valid one. *)
Definition id_for (o : Operation.Operation) (id : string) : Prop :=
  (forall x, Operation.operation_id o = Some x -> id = x) /\ valid_operation_id id = true.

Section Preparing.
  Context {F E : Type} `{!Engine F} `{!Entropy E} {PF : Platform}.
  Abbreviation J := (Journal.Journal F E).
  Abbreviation act := (journaled F E).

Lemma shape_ids os : each_shape os = Done tt ->
  List.Forall (fun o => forall id, Operation.operation_id o = Some id -> valid_operation_id id = true) os.
Proof.
  induction os as [|o os IH]; cbn [each_shape]; [constructor|]. destruct (operation_shape o) as [[]|] eqn:Ho; [|done].
  intros H. constructor; [|auto]. intros id Hid. unfold operation_shape in Ho. rewrite Hid in Ho.
  repeat destruct (negb _); [done..|]. by destruct (valid_operation_id id).
Qed.

Lemma build_Done g thread os m b : build g thread os m = Done b ->
  Batch.generation b = g /\ Batch.operations b = os /\ each_shape os = Done tt.
Proof.
  unfold build. destruct (_ || _); [done|]. destruct (each_shape os) as [[]|]; [|done].
  destruct (_ || _); [done|]. destruct (repeated _ _); [done|]. destruct (repeated _ _); [done|]. by intros [= <-].
Qed.

Lemma drawn_Done o (j j' : J) id :
  (forall x, Operation.operation_id o = Some x -> valid_operation_id x = true) ->
  match Operation.operation_id o with
  | Some id => mret id
  | None => id ← draw_id; write id "Action batch could not be prepared"
  end j = (j', Done id) -> id_for o id /\ onto j j' (Journal.tables j).
Proof.
  unfold id_for. destruct (Operation.operation_id o) as [x|]; intros Hv H.
  - apply journaled_ret_Done in H as [-> ->]. split; [|done]. split; [by intros ? [= ->]|by apply Hv].
  - apply journaled_bind_Done in H as (j1 & d & H1 & H2). destruct d as [d|]; [|done].
    apply journaled_ret_Done in H2 as [-> ->]. unfold draw_id, new_operation_id in H1.
    destruct (fill 16 (Journal.entropy j)) as [e [bytes|]]; [|done]. injection H1 as <- <-.
    split; [|done]. split; [done|apply uuid_valid].
Qed.

Lemma insert_operations_Done g os b i j j' u :
  TInv (Journal.tables j) -> In b (batches (Journal.tables j)) -> BatchRow.generation b = g ->
  BatchRow.state b <> "archived"%string ->
  List.Forall (fun o => forall id, Operation.operation_id o = Some id -> valid_operation_id id = true) os ->
  insert_operations g i os j = (j', Done u) ->
  exists ids, List.Forall2 id_for os ids /\ Journal.limits j' = Journal.limits j /\ TInv (Journal.tables j')
    /\ Journal.tables j' = mkTables (batches (Journal.tables j)) (operations (Journal.tables j) ++ new_rows g i os ids).
Proof.
  revert i j. induction os as [|o os IH]; intros i j Hinv Hb Hg Hs Hv H; cbn [insert_operations] in H.
  - apply journaled_ret_Done in H as [-> _]. exists []. split_and!; [constructor|done..|]. cbn. rewrite app_nil_r.
    by destruct (Journal.tables j).
  - apply List.Forall_cons_iff in Hv as [Hv1 Hv2].
    apply journaled_bind_Done in H as (j1 & id & H1 & H). apply drawn_Done in H1 as (Hid & T1 & L1 & _); [|done].
    apply journaled_bind_Done in H as (j2 & n & H2 & H). apply executed_Done in H2 as (t2 & Hi & T2 & L2 & _).
    rewrite T1 in Hi. eapply TInv_insert_operation in Hi as [Hinv2 ->]; [|done|apply Hid|done..].
    apply IH in H as (ids & Hids & L3 & Hinv3 & T3); [|by rewrite ?T2..].
    exists (id :: ids). rewrite T2 in T3. cbn [batches operations] in T3.
    split_and!; [by constructor|congruence|done|]. rewrite T3. cbn [new_rows]. by rewrite <- app_assoc.
Qed.

(** *** The view of a new batch *)
Lemma unowned t g r : TInv t -> select_batch g t = None -> In r (operations t) -> OperationRow.generation r <> g.
Proof.
  intros [_ _ _ _ H5] Hg Hr E1. rewrite List.Forall_forall in H5. destruct (H5 r Hr) as (b & Hb & Hbg & _).
  apply select_batch_None in Hg. apply Hg. rewrite <- E1, <- Hbg. by apply in_map.
Qed.

Lemma find_append {A} (p : A -> bool) l k :
  List.find p (l ++ k) = match List.find p l with Some x => Some x | None => List.find p k end.
Proof. induction l as [|x l IH]; cbn; [done|]. by destruct (p x). Qed.

Lemma inserted_view t g r rows : TInv t -> select_batch g t = None -> BatchRow.generation r = g ->
  (forall x, In x rows -> OperationRow.generation x = g) ->
  stable_sort (fun a b => OperationRow.ordinal a <=? OperationRow.ordinal b) rows = rows ->
  let t' := mkTables (batches t ++ [r]) (operations t ++ rows) in
  select_operations g t' = rows /\ view t' ≡ put g (Some (held_of r rows)) (view t).
Proof.
  intros Hinv Hg Hr Hrows Hsort t'.
  assert (select_operations g t' = rows) as Hsel.
  { unfold select_operations, t'. cbn [operations]. rewrite List.filter_app, (filter_none _ (operations t)), (filter_all _ rows).
    - done.
    - apply List.Forall_forall. intros x Hx. unfold of_generation. rewrite (Hrows x Hx). apply seqb_refl.
    - apply List.Forall_forall. intros x Hx. apply seqb_false. by eapply unowned. }
  split; [done|]. apply view_put.
  - intros g' Hne. unfold select_batch, select_operations, t'. cbn [batches operations]. split.
    + rewrite find_append. destruct (List.find _ (batches t)); [done|]. cbn. rewrite Hr.
      destruct (seqb_spec g g'); [|done]. by destruct Hne.
    + rewrite List.filter_app, (filter_none _ rows), app_nil_r; [done|]. apply List.Forall_forall. intros x Hx. unfold of_generation.
      rewrite (Hrows x Hx). apply seqb_false. congruence.
  - unfold view. rewrite Hsel. unfold t'. unfold select_batch in *. cbn [batches]. rewrite find_append, Hg. cbn. by rewrite Hr, seqb_refl.
Qed.

Lemma new_items g i os ids : List.Forall2 id_for os ids ->
  List.Forall2 (fun o it => Item.interrupt_id it = Operation.interrupt_id o
                  /\ Item.request it = Operation.fingerprint o
                  /\ (forall id, Operation.operation_id o = Some id -> Item.operation_id it = id)
                  /\ valid_operation_id (Item.operation_id it) = true
                  /\ Item.attempts it = 0 /\ Item.progress it = Prepared) os (map item_of (new_rows g i os ids))
  /\ map Item.operation_id (map item_of (new_rows g i os ids)) = ids.
Proof.
  intros H. revert i. induction H as [|o id os ids [Hi Hv] _ IH]; intros i; cbn; [done|].
  destruct (IH (i + 1)) as [IH1 IH2]. split; [by constructor|]. by f_equal.
Qed.

(** The operation ids of a generation are distinct. *)
Lemma distinct_ids rows : List.ForallOrdPairs (fun r s => same_key s r = false) rows ->
  (forall r s, In r rows -> In s rows -> OperationRow.generation r = OperationRow.generation s) ->
  List.NoDup (map OperationRow.operation_id rows).
Proof.
  induction 1 as [|r rows Hr _ IH]; intros Hg; cbn; [constructor|]. constructor.
  - intros (s & Hs & Hin)%in_map_iff. rewrite List.Forall_forall in Hr. specialize (Hr s Hin). unfold same_key in Hr.
    rewrite (Hg s r), Hs, !seqb_refl, orb_true_r in Hr; [done|by right|by left].
  - apply IH. intros x y Hx Hy. apply Hg; by right.
Qed.

Lemma ordpairs_app_r {A} (R : A -> A -> Prop) l k : List.ForallOrdPairs R (l ++ k) -> List.ForallOrdPairs R k.
Proof. induction l as [|x l IH]; [done|]. cbn. inversion 1; auto. Qed.

Lemma insert_batch_Done b archivable j j' u :
  TInv (Journal.tables j) -> select_batch (Batch.generation b) (Journal.tables j) = None ->
  each_shape (Batch.operations b) = Done tt -> insert_batch b archivable j = (j', Done u) ->
  Journal.limits j' = Journal.limits j /\ TInv (Journal.tables j')
  /\ exists items, fresh_items b items
     /\ view (Journal.tables j') ≡ put (Batch.generation b)
          (Some (Held.mk (Batch.fingerprint b) Open archivable items)) (view (Journal.tables j)).
Proof.
  intros Hinv Hnone Hshape (j1 & n & (t1 & Hi & T1 & L1 & _)%executed_Done & H)%journaled_bind_Done.
  pose proof (TInv_insert_batch _ _ _ _ Hinv Hi) as Hinv1. unfold insert_into_batches in Hi.
  destruct (_ && _); [|done]. injection Hi as _ <-.
  eapply (insert_operations_Done _ _ (BatchRow.mk (Batch.generation b) (Batch.fingerprint b) (len (Batch.operations b)) "open"
            (if archivable then 1 else 0))) in H as (ids & Hids & L2 & Hinv2 & T2);
    [|by rewrite T1|rewrite T1; apply in_or_app; right; by left|done|done|by apply shape_ids].
  rewrite T1 in T2. cbn [batches operations] in T2. split; [congruence|]. split; [done|].
  destruct (new_items (Batch.generation b) 0 _ _ Hids) as [Hit Hid].
  destruct (inserted_view (Journal.tables j) (Batch.generation b) (BatchRow.mk (Batch.generation b) (Batch.fingerprint b)
     (len (Batch.operations b)) "open" (if archivable then 1 else 0)) (new_rows (Batch.generation b) 0 (Batch.operations b) ids))
    as [_ Hv]; [done..|by intros x; apply new_rows_generation|by apply new_rows_sorted|].
  rewrite <- T2 in Hv.
  exists (map item_of (new_rows (Batch.generation b) 0 (Batch.operations b) ids)). split.
  - split; [done|]. rewrite map_map. apply distinct_ids.
    + destruct Hinv2 as [_ _ _ H4 _]. rewrite T2 in H4. cbn [operations] in H4. by apply ordpairs_app_r in H4.
    + intros x y Hx%new_rows_generation Hy%new_rows_generation. congruence.
  - rewrite Hv. unfold held_of. cbn [BatchRow.fingerprint BatchRow.state BatchRow.archivable]. by destruct archivable.
Qed.

(** *** Capacity and replacement *)
Lemma count_Done p (j j' : J) n : count p j = (j', Done n) ->
  n = count_batches p (Journal.tables j) /\ onto j j' (Journal.tables j).
Proof. apply read_Done. Qed.

Lemma reserve_Done archivable (j j' : J) u : reserve archivable j = (j', Done u) ->
  onto j j' (Journal.tables j)
  /\ count_batches (fun r => negb (BatchRow.state r =s "archived")) (Journal.tables j) < Limits.max_generations (Journal.limits j)
  /\ (archivable = true ->
      count_batches (fun r => BatchRow.archivable r =? 1) (Journal.tables j) < Limits.max_archived (Journal.limits j)).
Proof.
  unfold reserve. intros (j1 & n & [-> O1]%count_Done & H)%journaled_bind_Done.
  apply journaled_bind_Done in H as (j2 & l & [= <- <-] & H). pose proof O1 as (T1 & L1 & C1). rewrite L1 in H.
  destruct (Z.leb_spec (Limits.max_generations (Journal.limits j)) (count_batches (fun r => negb (BatchRow.state r =s "archived")) (Journal.tables j))); [done|].
  destruct archivable.
  - apply journaled_bind_Done in H as (j2 & m & [-> O2]%count_Done & H). rewrite T1 in *.
    destruct (Z.leb_spec (Limits.max_archived (Journal.limits j)) (count_batches (fun r => BatchRow.archivable r =? 1) (Journal.tables j))); [done|].
    apply journaled_ret_Done in H as [-> _]. split_and!; [by eapply onto_trans|done..].
  - apply journaled_ret_Done in H as [-> _]. done.
Qed.

Lemma retire_Done b (j j' : J) u r : TInv (Journal.tables j) ->
  select_batch (Batch.generation b) (Journal.tables j) = Some r -> retire_ended b j = (j', Done u) ->
  Journal.limits j' = Journal.limits j /\ TInv (Journal.tables j')
  /\ select_batch (Batch.generation b) (Journal.tables j') = None
  /\ view (Journal.tables j') ≡ put (Batch.generation b) None (view (Journal.tables j))
  /\ BatchRow.state r = "ended"%string
  /\ (forall x o, In x (select_operations (Batch.generation b) (Journal.tables j)) -> In o (Batch.operations b) ->
        OperationRow.interrupt_id x <> Operation.interrupt_id o).
Proof.
  intros Hinv Hr (j1 & ended & [-> (T1 & L1 & _)]%queried_Done & H)%journaled_bind_Done.
  destruct (existsb _ _) eqn:Hex; [done|].
  apply journaled_bind_Done in H as (j2 & n & (t2 & Hd & T2 & L2 & _)%executed_Done & [-> ->]%require_changed_Done).
  rewrite T1 in Hd. rewrite T2.
  pose proof (TInv_delete (Batch.generation b) (fun r => BatchRow.state r =s "ended") _ Hinv _ _ Hd) as Hinv2.
  pose proof (delete_select (Batch.generation b) (fun r => BatchRow.state r =s "ended") _ Hinv _ _ Hd) as [Hother Hg].
  rewrite Hr in Hg.
  assert (BatchRow.state r = "ended"%string) as He.
  { destruct (seqb_spec (BatchRow.state r) "ended") as [|Hne]; [done|]. exfalso. injection Hd as Hn _.
    unfold len in Hn. rewrite length_map in Hn.
    destruct (List.filter _ (batches (Journal.tables j))) as [|x l] eqn:Hf; [done|].
    assert (In x (x :: l)) as Hx by (by left). rewrite <- Hf in Hx.
    apply filter_In in Hx as [Hx [Hxg%seqb_true Hxs%seqb_true]%andb_true_iff].
    pose proof (in_select_batch _ _ Hinv Hx) as Hs. rewrite Hxg, Hr in Hs. congruence. }
  rewrite He, seqb_refl in Hg. split_and!; [congruence|done|done| |done|].
  - apply view_put; [done|]. by apply view_None.
  - intros x o Hx Ho E1. rewrite <- not_true_iff_false in Hex. apply Hex. apply existsb_exists. exists o. split; [done|].
    apply contains_In. rewrite <- E1. apply in_map. apply in_select_operations in Hx as [? <-]. apply filter_In.
    split; [done|apply seqb_refl].
Qed.

(** *** Opening the same batch again *)
Lemma ended_opened t n t' b r : TInv t -> select_batch (Batch.generation b) t = Some r -> header_matches r b = true ->
  BatchRow.state r = "ended"%string ->
  update_batches (fun r => in_generation b r && header_matches r b && (BatchRow.state r =s "ended"))
    (fun r => r <| BatchRow.state := "open"%string |>) t = Some (n, t') ->
  TInv t' /\ view t' ≡ put (Batch.generation b)
               (Some ((held_of r (select_operations (Batch.generation b) t)) <| Held.phase := Open |>)) (view t).
Proof.
  intros Hinv Hr Hm He Hu. split.
  { eapply TInv_update_batches; [|done|exact Hu|]; [by intros []|]. intros [] _ _ Ha. change ("open" = "archived")%string in Ha. done. }
  apply update_batches_Some in Hu as (-> & _ & _).
  match goal with |- view (mkTables (map (fun r => if @?w r then @?f r else r) _) _) ≡ _ =>
    pose proof (select_batch_update w f ltac:(by intros []) t) as Hsel end. cbv beta in Hsel.
  apply view_put.
  - intros g' Hne. split; [|done]. rewrite Hsel. destruct (select_batch g' t) as [x|] eqn:Hx; cbn [option_map]; [|done].
    apply select_batch_Some in Hx as [_ Hg]. unfold in_generation. rewrite Hg. by apply seqb_false in Hne as ->.
  - unfold view. rewrite Hsel, Hr. cbn [option_map]. apply select_batch_Some in Hr as [_ Hg].
    unfold in_generation. rewrite Hg, seqb_refl, Hm, He, seqb_refl. cbn [andb]. unfold select_operations. cbn [operations].
    by destruct r.
Qed.

Lemma loaded b (j j' : J) rows : load b j = (j', Done rows) -> onto j j' (Journal.tables j)
  /\ exists h, select_batch (Batch.generation b) (Journal.tables j) = Some h
     /\ holds_open (view (Journal.tables j)) b (held_of h (select_operations (Batch.generation b) (Journal.tables j))).
Proof.
  intros (O1 & -> & h & Hh & Hm & Ho & Hr)%load_Done. split; [done|]. exists h. split; [done|]. by apply loaded_holds.
Qed.

Lemma reopen_Done b (j j' : J) u r : TInv (Journal.tables j) ->
  select_batch (Batch.generation b) (Journal.tables j) = Some r -> header_matches r b = true ->
  reopen b (BatchRow.state r) j = (j', Done u) ->
  let h := (held_of r (select_operations (Batch.generation b) (Journal.tables j))) <| Held.phase := Open |> in
  Journal.limits j' = Journal.limits j /\ TInv (Journal.tables j')
  /\ view (Journal.tables j') ≡ put (Batch.generation b) (Some h) (view (Journal.tables j))
  /\ holds_open (view (Journal.tables j')) b h.
Proof.
  intros Hinv Hr Hm (j1 & [] & H1 & H2)%journaled_bind_Done h.
  apply journaled_bind_Done in H2 as (j2 & rows & ((T2 & L2 & _) & x & Hx & Hold)%loaded & [-> _]%journaled_ret_Done).
  rewrite T2. destruct (seqb_spec (BatchRow.state r) "ended") as [He|Hne].
  - apply journaled_bind_Done in H1 as (j3 & n & (t3 & Hu & T3 & L3 & _)%executed_Done & [_ ->]%require_changed_Done).
    destruct (ended_opened _ _ _ b r Hinv Hr Hm He Hu) as [Hinv3 Hv]. rewrite T3 in *.
    split_and!; [congruence|done..|]. pose proof Hold as [Hs _]. rewrite (Hv (Batch.generation b)) in Hs. unfold put in Hs.
    rewrite seqb_refl in Hs. fold h in Hs. apply (inj Some) in Hs. by rewrite Hs.
  - apply journaled_ret_Done in H1 as [-> _]. rewrite Hr in Hx. injection Hx as <-.
    pose proof Hold as (_ & _ & Hp & _).
    assert (h = held_of r (select_operations (Batch.generation b) (Journal.tables j))) as ->.
    { unfold h, held_of, upd, upd_held_phase. cbn [Held.fingerprint Held.reserved Held.items Held.phase].
      cbn [held_of Held.phase] in Hp. by rewrite Hp. }
    split_and!; [done..| |done]. apply view_put; [done|]. by apply view_Some.
Qed.

Lemma keeps_prepare_work b archivable : each_shape (Batch.operations b) = Done tt ->
  keeps (prepare_work b archivable) (fun l t _ t' =>
    ((view t (Batch.generation b) = None \/ exists h, view t (Batch.generation b) = Some h /\ Held.phase h = Ended
        /\ Held.fingerprint h <> Batch.fingerprint b
        /\ (forall it o, In it (Held.items h) -> In o (Batch.operations b) -> Item.interrupt_id it <> Operation.interrupt_id o))
     /\ exists items, fresh_items b items
       /\ view t' ≡ put (Batch.generation b) (Some (Held.mk (Batch.fingerprint b) Open archivable items)) (view t))
    \/ (exists h, view t (Batch.generation b) = Some h /\ Held.fingerprint h = Batch.fingerprint b
       /\ Held.phase h <> Archived_ /\ Held.reserved h = archivable
       /\ view t' ≡ put (Batch.generation b) (Some (h <| Held.phase := Open |>)) (view t)
       /\ holds_open (view t') b (h <| Held.phase := Open |>))).
Proof.
  intros Hshape j j' [] Hinv (j1 & row & [-> (T1 & L1 & _)]%queried_Done & H)%journaled_bind_Done.
  assert (forall r, select_batch (Batch.generation b) (Journal.tables j) = Some r -> batch_check r = true) as Hck.
  { intros r Hr. apply (batch_row _ _ _ Hinv Hr). }
  destruct (select_batch (Batch.generation b) (Journal.tables j)) as [r|] eqn:Hr.
  2: { apply journaled_bind_Done in H as (j2 & [] & ((T2 & L2 & _) & _)%reserve_Done & H).
       apply insert_batch_Done in H as (L3 & Hi & items & Hf & Hv); [|by rewrite ?T2, ?T1..].
       rewrite T2, T1 in Hv. split; [congruence|]. split; [done|]. left. split; [left; by apply view_None|]. eauto. }
  specialize (Hck r eq_refl). rewrite <- T1 in Hinv, Hr.
  destruct (seqb_spec (BatchRow.state r) "archived") as [|Ha]; [done|].
  destruct (header_matches r b) eqn:Hm.
  - destruct (Z.eqb_spec (BatchRow.archivable r) (if archivable then 1 else 0)) as [Har|]; [|done]. cbn [negb] in H.
    apply (reopen_Done _ _ _ _ _ Hinv Hr Hm) in H as (L2 & Hi & Hv & Hold).
    split; [congruence|]. split; [done|]. right. rewrite <- T1.
    exists (held_of r (select_operations (Batch.generation b) (Journal.tables j1))).
    split_and!; [by apply view_Some|by apply header_matches_eq| | |done|done].
    + cbn [held_of Held.phase]. by rewrite phase_archived.
    + cbn [held_of Held.reserved]. rewrite Har. by destruct archivable.
  - destruct (BatchRow.state r =s "open"); [done|].
    apply journaled_bind_Done in H as (j2 & [] & H2 & H). apply (retire_Done _ _ _ _ _ Hinv Hr) in H2 as (L2 & Hi2 & Hn & Hv2 & He & Hint).
    apply journaled_bind_Done in H as (j3 & [] & ((T3 & L3 & _) & _)%reserve_Done & H).
    apply insert_batch_Done in H as (L4 & Hi & items & Hf & Hv); [|by rewrite ?T3..|done].
    split; [congruence|]. split; [done|]. left. rewrite <- T1. split.
    + right. exists (held_of r (select_operations (Batch.generation b) (Journal.tables j1))).
      split_and!; [by apply view_Some| | |].
      * cbn [held_of Held.phase]. by apply phase_ended.
      * cbn [held_of Held.fingerprint]. rewrite <- header_matches_eq, Hm. done.
      * intros it o Hit Ho. cbn [held_of Held.items] in Hit. apply in_map_iff in Hit as (x & <- & Hx). by apply Hint.
    + exists items. split; [done|]. rewrite Hv, T3. intros g. unfold put. destruct (seqb_spec g (Batch.generation b)) as [|Hne]; [done|].
      rewrite (Hv2 g). unfold put. by apply seqb_false in Hne as ->.
Qed.

Lemma keeps_prepare g thread os archivable :
  keeps (prepare_batch g thread os archivable) (fun l t b t' => promised_prepare l g thread os archivable (view t) b (view t')).
Proof.
  intros j j' b Hinv (j1 & b' & [= <- Hb] & H)%journaled_bind_Done.
  apply journaled_bind_Done in H as (j2 & [] & H & [-> ->]%journaled_ret_Done).
  pose proof (build_Done _ _ _ _ _ Hb) as (Hg & Ho & Hs).
  apply (keeps_writing _ _ _ (keeps_prepare_work b' archivable ltac:(by rewrite Ho))) in H as (L & Hi & HQ); [|done].
  split; [done|]. split; [done|]. split; [done|]. rewrite Hg, Ho in HQ. exact HQ.
Qed.
End Preparing.
