(* ===== verification/JournalHistory.v ===== *)
(** * Histories of the Action journal

    Calls, refusals, closing and restarting, in any order.  Every history of the
    tables is a history of the abstract journal, a refused call changes nothing,
    and an execution granted once is granted again only after the code returned
    or removed the operation. *)

From stdpp Require Import base tactics list strings pretty relations.
From Stdlib Require Import ZArith Lia Ascii Sorting.Sorted.
From S2P Require Import Prelude Text Json Reader Utf8 ReaderSafety Floats RoundTrip Calendar Platform Journal JournalSpec JournalSafety JournalPrepare.

#[local] Open Scope Z_scope.

(** ** Events *)
Inductive event : Type :=
| Called (c : command) (a : answer reply)
| Closed
| Restarted.

(** The abstract journal through a history. *)
Inductive follows {PF : Platform} (l : Limits.Limits) : Spec -> list event -> Spec -> Prop :=
| follows_nil s s' : s' ≡ s -> follows l s [] s'
| follows_done s s1 s' c r es : promised l c s r s1 -> follows l s1 es s' -> follows l s (Called c (Done r) :: es) s'
| follows_refused s s1 s' c e es : s1 ≡ s -> follows l s1 es s' -> follows l s (Called c (Refused e) :: es) s'
| follows_closed s s1 s' es : s1 ≡ s -> follows l s1 es s' -> follows l s (Closed :: es) s'
| follows_restarted s s1 s' es : s1 ≡ s -> follows l s1 es s' -> follows l s (Restarted :: es) s'.

Lemma follows_cons_inv {PF : Platform} l s ev es s' : follows l s (ev :: es) s' ->
  exists s1, follows l s1 es s' /\ match ev with Called c (Done r) => promised l c s r s1 | _ => s1 ≡ s end.
Proof. inversion 1; subst; eauto. Qed.

Section History.
  Context {F E : Type} `{!Engine F} `{!Entropy E} {PF : Platform}.
  Abbreviation J := (Journal.Journal F E).

(** A restarted journal reads the committed tables with a new connection. *)
Inductive jstep : J -> event -> J -> Prop :=
| step_call c j j' a : run_command c j = (j', a) -> jstep j (Called c a) j'
| step_close j : jstep j Closed (close j)
| step_restart j f e : jstep j Restarted (Journal.mk _ _ (Journal.limits j) true (Journal.tables j) f e).

Inductive jsteps : J -> list event -> J -> Prop :=
| jsteps_nil j : jsteps j [] j
| jsteps_cons j ev j1 es j' : jstep j ev j1 -> jsteps j1 es j' -> jsteps j (ev :: es) j'.

(** ** Each call *)
Lemma replied_Done {A} (f : A -> reply) (m : journaled F E A) j j' r :
  replied f m j = (j', Done r) <-> exists a, m j = (j', Done a) /\ r = f a.
Proof.
  unfold replied. rewrite journaled_bind_Done. split.
  - intros (j1 & a & H & [-> ->]%journaled_ret_Done). eauto.
  - intros (a & H & ->). by exists j', a.
Qed.

Lemma promised_step c j j' r : TInv (Journal.tables j) -> run_command c j = (j', Done r) ->
  Journal.limits j' = Journal.limits j /\ TInv (Journal.tables j')
  /\ promised (Journal.limits j) c (view (Journal.tables j)) r (view (Journal.tables j')).
Proof.
  intros Hinv H. destruct c; cbn [run_command] in H; apply replied_Done in H as (a & H & ->); cbn [promised].
  - by apply keeps_prepare in H.
  - by apply keeps_begin in H.
  - by apply keeps_complete in H.
  - by apply (keeps_settle _ _ _ _ NoEffect) in H; [|by right|done|done].
  - by apply keeps_reprepare in H.
  - by apply keeps_reprepare in H.
  - by apply keeps_deliver in H.
  - by apply keeps_abandon in H.
  - by apply keeps_end in H.
  - by apply keeps_end_settled in H.
  - by apply keeps_archive in H.
  - by apply keeps_release in H.
  - eapply keeps_remove in H; [exact H| |done]. intros r rows Hr. cbn beta. f_equal.
    apply eq_true_iff_eq. rewrite seqb_true, bool_decide_eq_true. symmetry. by apply phase_archived.
  - eapply keeps_remove in H; [exact H|done|done].
  - unfold purge_batch in H. destruct (negb _); [done|]. eapply keeps_remove in H; [exact H|done|done].
Qed.

(** ** Refusals *)
Definition inert {A} (m : journaled F E A) : Prop :=
  forall j j' e, m j = (j', Refused e) -> Journal.tables j' = Journal.tables j.

Lemma inert_writing {A} s (w : journaled F E A) : inert (writing s w).
Proof. intros j j' e. apply writing_refused. Qed.
Lemma inert_ret {A} (a : A) : inert (mret a).
Proof. intros j j' e [=]. Qed.
Lemma inert_raise {A} e : inert (raise (A:=A) e).
Proof. by intros j j' e' [= <- _]. Qed.
Lemma inert_pure {A B} (r : answer A) (f : A -> journaled F E B) : (forall a, inert (f a)) -> inert (a ← pure r; f a).
Proof.
  intros Hf j j' e. unfold mbind, journaled_bind, pure. destruct r; [apply Hf|]. by intros [= <- _].
Qed.
(** A call whose last change is its transaction. *)
Lemma inert_then {A B} (m : journaled F E A) (f : A -> B) : inert m -> inert (a ← m; mret (f a)).
Proof.
  intros Hm j j' e. unfold mbind, journaled_bind. destruct (m j) as [j1 [a|e1]] eqn:H; [done|].
  intros [= <- _]. by eapply Hm.
Qed.
#[local] Hint Resolve inert_writing inert_ret inert_raise inert_pure inert_then : core.

Lemma inert_command c : inert (run_command c).
Proof.
  destruct c; cbn [run_command]; apply inert_then; try (unfold discard, purge, fail_without_effect, suspend, not_dispatched,
    remove_where, archive, release_archive, end_settled, settle, reprepare, begin, delivered, abandon_uncertain, end_batch; by auto).
  - intros j j' e. unfold prepare_batch, batch. unfold mbind at 1, journaled_bind at 1. destruct (build _ _ _ _) as [b|]; [|by intros [= <- _]].
    by apply (inert_then (writing _ _) (fun _ => b)).
  - intros j j' e. unfold complete_operation. destruct (result_canonical _ _); [by intros [= <- _]|].
    unfold settle. by apply inert_pure; auto.
  - unfold purge_batch, remove_where. destruct (negb _); auto.
Qed.

(** No call changes the limits. *)
Definition fixed {A} (m : journaled F E A) : Prop := forall j, Journal.limits (fst (m j)) = Journal.limits j.

Lemma fixed_bind {A B} (m : journaled F E A) (f : A -> journaled F E B) : fixed m -> (forall a, fixed (f a)) -> fixed (m ≫= f).
Proof.
  intros Hm Hf j. unfold mbind, journaled_bind. specialize (Hm j). destruct (m j) as [j1 [a|e]]; [|done]. by rewrite Hf.
Qed.
Lemma fixed_ret {A} (a : A) : fixed (mret a).
Proof. done. Qed.
Lemma fixed_raise {A} e : fixed (raise (A:=A) e).
Proof. done. Qed.
Lemma fixed_pure {A} (a : answer A) : fixed (pure a).
Proof. done. Qed.
Lemma fixed_statement {A} (w : Tables -> option (A * Tables)) : fixed (statement w).
Proof. intros j. unfold statement. destruct (fails _) as [f []]; [done|]. cbn. by destruct (w _) as [[]|]. Qed.
Lemma fixed_query {A} (w : Tables -> A) : fixed (query w).
Proof. apply fixed_statement. Qed.
Lemma fixed_write {A} (r : option A) s : fixed (write r s).
Proof. by destruct r. Qed.
Lemma fixed_read {A} (r : option A) s : fixed (read_ r s).
Proof. by destruct r. Qed.
Lemma fixed_require n s : fixed (require_changed n s).
Proof. unfold require_changed. by destruct (_ =? _). Qed.
Lemma fixed_decode r : fixed (decode_result r).
Proof.
  intros j. unfold decode_result. destruct r; [|done]. destruct (_ <? _); [done|]. destruct (json_parse _); [|done].
  destruct (result_canonical _ _); [done|]. by destruct (_ =s _).
Qed.
Lemma fixed_draw : fixed draw_id.
Proof. intros j. unfold draw_id. by destruct (new_operation_id _). Qed.
Lemma fixed_writing {A} s (w : journaled F E A) : fixed w -> fixed (writing s w).
Proof.
  intros Hw j. unfold writing, with_connection. destruct (Journal.connected j); [|done].
  pose proof (fixed_statement (fun t => Some (tt, t)) j) as H1. destruct (statement _ j) as [j1 [[[]|]|]]; [|done..].
  pose proof (Hw j1) as H2. destruct (w j1) as [j2 [a|e]]; cbn in *; [|congruence].
  pose proof (fixed_statement (fun t => Some (tt, t)) j2) as H3. destruct (statement _ j2) as [j3 [[[]|]|]]; cbn in *; congruence.
Qed.
#[local] Hint Resolve fixed_ret fixed_raise fixed_pure fixed_statement fixed_query fixed_write fixed_read fixed_require
  fixed_decode fixed_draw : core.
Ltac fixed :=
  repeat first [done | apply fixed_bind; [|intros ?] | apply fixed_writing | by auto | case_match].

Lemma fixed_rows rows : fixed (decode_rows rows).
Proof. induction rows; cbn; fixed. Qed.
Lemma fixed_load b : fixed (load b).
Proof. unfold load. fixed. Qed.
Lemma fixed_operations g i os : fixed (insert_operations g i os).
Proof. revert i. induction os; intros i; cbn [insert_operations]; unfold executed; fixed. Qed.
#[local] Hint Resolve fixed_rows fixed_load fixed_operations : core.

Lemma fixed_command c : fixed (run_command c).
Proof.
  assert (forall b o, fixed (operation b o)) by (intros; unfold operation; fixed).
  assert (forall b o st enc, fixed (settle b o st enc)) by (intros; unfold settle, settle_work, executed; fixed).
  destruct c; cbn [run_command]; unfold replied, prepare_batch, batch, prepare_work, reopen, retire_ended, reserve, count,
    insert_batch, begin, begin_work, complete_operation, fail_without_effect, suspend, not_dispatched, reprepare, reprepare_work,
    delivered, abandon_uncertain, end_batch, end_settled, archive, release_archive, discard, purge, purge_batch,
    remove_where, current, delete_batch, end_settled_states, executed, queried; fixed.
  intros j. destruct (result_canonical _ _); [done|apply H0].
Qed.

Lemma follow_step j ev j1 s' es : TInv (Journal.tables j) -> jstep j ev j1 ->
  Journal.limits j1 = Journal.limits j /\ TInv (Journal.tables j1)
  /\ (follows (Journal.limits j) (view (Journal.tables j1)) es s' ->
      follows (Journal.limits j) (view (Journal.tables j)) (ev :: es) s').
Proof.
  intros Hinv H. destruct H as [c j j' [r|e] H|j|j f e];
    [| |by split_and!; [done..|apply follows_closed]|by split_and!; [done..|apply follows_restarted]].
  - apply promised_step in H as (L & Hi & Hp); [|done]. split_and!; [done..|]. by apply follows_done.
  - pose proof (inert_command _ _ _ _ H) as T. assert (Journal.limits j' = Journal.limits j) as L.
    { pose proof (fixed_command c j) as L. by rewrite H in L. }
    rewrite T. split_and!; [done..|]. by apply follows_refused.
Qed.

Lemma jsteps_follow j es j' : TInv (Journal.tables j) -> jsteps j es j' ->
  Journal.limits j' = Journal.limits j /\ TInv (Journal.tables j')
  /\ follows (Journal.limits j) (view (Journal.tables j)) es (view (Journal.tables j')).
Proof.
  intros Hinv H. revert Hinv. induction H as [j|j ev j1 es j' H1 _ IH]; intros Hinv.
  - split_and!; [done..|]. by constructor.
  - destruct (follow_step j ev j1 (view (Journal.tables j')) es Hinv H1) as (L & Hi & Hf).
    destruct (IH Hi) as (L' & Hi' & H). rewrite L in *. split_and!; [done..|]. auto.
Qed.

(** C15. Refinement: over any history of calls, refusals, closings and restarts,
    on an engine that may fail any statement, the tables keep their constraints
    and the abstract journal read off them does at each call only what that call
    promises, and nothing at a refusal. *)
Theorem journal_refines (j j' : J) (es : list event) :
  TInv (Journal.tables j) -> jsteps j es j' ->
  TInv (Journal.tables j') /\ follows (Journal.limits j) (view (Journal.tables j)) es (view (Journal.tables j')).
Proof. intros Hinv H. by apply jsteps_follow in H as (_ & ? & ?). Qed.

(** A refused call, whatever it refused with and wherever the engine failed,
    leaves every committed row as it was. *)
Theorem refusal_changes_nothing (c : command) (j j' : J) (e : JournalError) :
  run_command c j = (j', Refused e) -> Journal.tables j' = Journal.tables j.
Proof. apply inert_command. Qed.
End History.

(** ** No execution twice *)

(** A call that tells its caller to run the operation of this interrupt. *)
Definition grants (g i : string) (ev : event) : Prop :=
  match ev with
  | Called (Begin b o) (Done (RExecution e)) =>
      Batch.generation b = g /\ Operation.interrupt_id o = i /\ Execution.execute e = true
  | _ => False
  end.

(** A call that returns the operation to its prepared state, or removes the batch
    that holds it. *)
Definition releases (g i : string) (ev : event) : Prop :=
  match ev with
  | Called (Suspend b o) (Done _) | Called (NotDispatched b o) (Done _) =>
      Batch.generation b = g /\ Operation.interrupt_id o = i
  | Called (Prepare g' _ os _) (Done _) => g' = g /\ ~ In i (map Operation.interrupt_id os)
  | Called (Deliver b) (Done _) => Batch.generation b = g
  | Called (Abandon b) (Done (RFlag flag)) => Batch.generation b = g /\ flag = true
  | Called (Release g' _) (Done _) | Called (Discard g') (Done _) | Called (Purge g') (Done _)
  | Called (PurgeBatch g' _) (Done _) => g' = g
  | _ => False
  end.

(** The operation was begun, and nothing released it. *)
Definition taken (g i : string) (s : Spec) : Prop :=
  exists h, s g = Some h
  /\ (Held.phase h = Archived_
      \/ (exists it, item_at h i it) /\ forall it, item_at h i it -> Item.progress it <> Prepared).

#[global] Instance taken_proper g i : Proper ((≡) ==> iff) (taken g i).
Proof. intros s s' H. unfold taken. by rewrite (H g). Qed.

Lemma taken_put_other g g' i h s : g' <> g -> taken g i (put g' h s) <-> taken g i s.
Proof. intros Hne. unfold taken, put. assert (g <> g') as ->%seqb_false by congruence. done. Qed.
Lemma taken_put g i h s : taken g i (put g (Some h) s) <->
  Held.phase h = Archived_ \/ (exists it, item_at h i it) /\ forall it, item_at h i it -> Item.progress it <> Prepared.
Proof.
  unfold taken, put. rewrite seqb_refl. split; [by intros (h' & [= <-] & ?)|eauto].
Qed.

(** Changing the items of another interrupt, or to another progress. *)
Lemma change_item_at h i i' f it : (forall it, Item.interrupt_id (f it) = Item.interrupt_id it) ->
  item_at (change_item h i' f) i it <-> exists it0, item_at h i it0 /\ it = if i =s i' then f it0 else it0.
Proof.
  intros Hf. unfold item_at, change_item. change (Held.items (h <| Held.items := ?l |>)) with l.
  rewrite in_map_iff. split.
  - intros [(x & <- & Hx) Hi]. exists x. destruct (seqb_spec (Item.interrupt_id x) i') as [E1|E1].
    + rewrite Hf in Hi. rewrite Hi in E1. subst i'. rewrite seqb_refl. done.
    + rewrite Hi in E1. by apply seqb_false in E1 as ->.
  - intros (x & [Hx Hi] & ->). split; [|by destruct (i =s i'); rewrite ?Hf]. exists x. by rewrite Hi.
Qed.

Lemma taken_change g i i' h s f :
  (forall it, Item.interrupt_id (f it) = Item.interrupt_id it) -> Held.phase h <> Archived_ -> s g = Some h ->
  (i = i' -> forall it, Item.progress (f it) <> Prepared) ->
  taken g i s -> taken g i (put g (Some (change_item h i' f)) s).
Proof.
  intros Hf Hp Hs Hprog (h' & Hs' & Ht). rewrite Hs in Hs'. injection Hs' as <-. destruct Ht as [|[(x & Hx) Hall]]; [done|].
  apply taken_put. right. split.
  - eexists. apply change_item_at; [done|]. by exists x.
  - intros it (y & Hy & ->)%change_item_at; [|done]. destruct (seqb_spec i i'); [by apply Hprog|by apply Hall].
Qed.

Section Taken.
  Context {PF : Platform} (l : Limits.Limits) (g i : string).

Lemma taken_begun b o s e s' : promised_begin l b o s e s' -> Execution.execute e = true ->
  taken (Batch.generation b) (Operation.interrupt_id o) s'.
Proof.
  intros (h & it & _ & (Hs & _) & Hit & _ & [(_ & _ & _ & Hv)|(raw & v & _ & He & _)]) Hx; [|congruence].
  rewrite Hv. apply taken_put. right. split.
  - eexists. apply change_item_at; [done|]. by exists it.
  - intros x (y & _ & ->)%change_item_at; [|done]. by rewrite seqb_refl.
Qed.

Lemma taken_not_begun b o s e s' : promised_begin l b o s e s' ->
  taken (Batch.generation b) (Operation.interrupt_id o) s -> Execution.execute e = false.
Proof.
  intros (h & it & _ & (Hs & _ & Hp & _) & Hit & _ & [(Hprog & _)|(raw & v & _ & He & _)]) (h' & Hs' & Ht); [|done].
  rewrite Hs in Hs'. injection Hs' as <-. destruct Ht as [Ha|[_ Hall]]; [congruence|]. by apply Hall in Hit.
Qed.

(** What changes one generation's batch changes [taken] only there. *)
Lemma taken_elsewhere g' h s s' : g' <> g -> s' ≡ put g' h s -> taken g i s -> taken g i s'.
Proof. intros Hne -> . by apply taken_put_other. Qed.

Lemma taken_phase s s' h p : s g = Some h -> Held.phase h <> Archived_ -> s' ≡ put g (Some (h <| Held.phase := p |>)) s ->
  taken g i s -> taken g i s'.
Proof.
  intros Hs Hp -> (h' & Hs' & Ht). rewrite Hs in Hs'. injection Hs' as <-. apply taken_put. right. by destruct Ht.
Qed.

Lemma taken_prepare g' thread os a s b s' : promised_prepare l g' thread os a s b s' ->
  ~ (g' = g /\ ~ In i (map Operation.interrupt_id os)) -> taken g i s -> taken g i s'.
Proof.
  intros [_ [[Hbefore (items & _ & Hv)]|(h & Hs & _ & Hp & _ & Hv & _)]] Hnr Ht.
  - destruct (decide (g' = g)) as [->|Hne]; [|by eapply taken_elsewhere]. exfalso. apply Hnr. split; [done|].
    destruct Ht as (h & Hs & Ht). destruct Hbefore as [Hn|(h' & Hs' & He & _ & Hd)]; [congruence|].
    rewrite Hs in Hs'. injection Hs' as <-. destruct Ht as [|[(it & Hit & Hi) _]]; [congruence|].
    intros (o & Ho & Hin)%in_map_iff. apply (Hd it o); [done..|congruence].
  - destruct (decide (g' = g)) as [->|Hne]; [by eapply taken_phase|by eapply taken_elsewhere].
Qed.

Lemma taken_settle b o p s s' : promised_settle b o p s s' -> p <> Prepared -> taken g i s -> taken g i s'.
Proof.
  intros (h & it & _ & (Hs & _ & Hp & _) & Hit & [[_ Hv]|[_ Hv]]) Hne Ht; rewrite Hv; [done|].
  destruct (decide (Batch.generation b = g)) as [<-|]; [|by apply taken_put_other].
  apply taken_change; [done|congruence|done..].
Qed.

Lemma taken_reprepare b o s s' : promised_reprepare b o s s' ->
  ~ (Batch.generation b = g /\ Operation.interrupt_id o = i) -> taken g i s -> taken g i s'.
Proof.
  intros (h & it & _ & (Hs & _ & Hp & _) & Hit & _ & Hv) Hnr Ht. rewrite Hv.
  destruct (decide (Batch.generation b = g)) as [<-|]; [|by apply taken_put_other].
  apply taken_change; [done|congruence|done| |done]. intros ->. by destruct Hnr.
Qed.

Lemma taken_begin b o s e s' : promised_begin l b o s e s' -> taken g i s -> taken g i s'.
Proof.
  intros (h & it & _ & (Hs & _ & Hp & _) & Hit & _ & [(_ & _ & _ & Hv)|(raw & v & _ & _ & _ & _ & Hv)]) Ht; rewrite Hv; [|done].
  destruct (decide (Batch.generation b = g)) as [<-|]; [|by apply taken_put_other].
  apply taken_change; [done|congruence|done..].
Qed.

Lemma taken_remove p g' s s' : promised_remove p g' s s' -> g' <> g -> taken g i s -> taken g i s'.
Proof.
  unfold promised_remove. intros H Hne Ht. destruct (s g'); [destruct (p _)|]; rewrite H; [by apply taken_put_other|done..].
Qed.

Lemma taken_end b s flag s' : promised_end b s flag s' -> taken g i s -> taken g i s'.
Proof.
  unfold promised_end. destruct flag; [|by intros [-> _]]. intros (h & (Hs & _ & Hp & _) & _ & Hv) Ht.
  destruct (decide (Batch.generation b = g)) as [Hg|]; [rewrite Hg in *|by eapply taken_elsewhere]. eapply taken_phase; [done|congruence|done..].
Qed.

Lemma taken_end_settled g' s s' : promised_end_settled g' s s' -> taken g i s -> taken g i s'.
Proof.
  unfold promised_end_settled. destruct (s g') as [h|] eqn:Hs; [|by intros ->]. case_bool_decide as Hp; [|by intros ->].
  intros [[_ ->]|[_ Hv]] Ht; [done|].
  destruct (decide (g' = g)) as [->|]; [|by eapply taken_elsewhere]. eapply taken_phase; [done|congruence|done..].
Qed.

Lemma taken_archive g' f s s' : promised_archive g' f s s' -> taken g i s -> taken g i s'.
Proof.
  intros (h & Hs & _ & [[_ ->]|(_ & _ & Hv)]) Ht; [done|]. rewrite Hv.
  destruct (decide (g' = g)) as [->|]; [|by apply taken_put_other]. apply taken_put. by left.
Qed.

Lemma taken_step c s r s' : promised l c s r s' -> ~ releases g i (Called c (Done r)) -> taken g i s -> taken g i s'.
Proof.
  destruct c, r; cbn [promised releases]; try done.
  - apply taken_prepare.
  - intros H _. by eapply taken_begin.
  - intros (raw & _ & H) _. by eapply taken_settle.
  - intros H _. by eapply taken_settle.
  - apply taken_reprepare.
  - apply taken_reprepare.
  - intros [[_ ->]|(h & _ & _ & Hv)] Hne; [done|]. by apply (taken_elsewhere _ _ _ _ Hne Hv).
  - unfold promised_abandon. destruct flag; [|by intros [-> _]]. intros (h & _ & _ & Hv) Hnr.
    apply (taken_elsewhere (Batch.generation b) None); [naive_solver|done].
  - intros H _. by eapply taken_end.
  - intros H _. by eapply taken_end_settled.
  - intros H _. by eapply taken_archive.
  - intros [[_ ->]|(h & _ & _ & _ & Hv)] Hne; [done|]. by apply (taken_elsewhere _ _ _ _ Hne Hv).
  - intros H Hne. by eapply taken_remove.
  - intros H Hne. by eapply taken_remove.
  - intros H Hne. by eapply taken_remove.
Qed.

Lemma granted_once s es s' ev : follows l s (es ++ [ev]) s' -> taken g i s ->
  (forall e, In e es -> ~ releases g i e) -> ~ grants g i ev.
Proof.
  revert s. induction es as [|e es IH]; intros s (s1 & Hf & Hp)%follows_cons_inv Ht Hnr; cbn [app] in *.
  - intros Hg. destruct ev as [[] [[]|]| |]; cbn [grants promised] in *; try done.
    destruct Hg as (Hg & Hi & He). rewrite <- Hg, <- Hi in Ht. pose proof (taken_not_begun _ _ _ _ _ Hp Ht). congruence.
  - eapply IH; [exact Hf| |intros; apply Hnr; by right].
    destruct e as [c [r|]| |]; [|by rewrite Hp..]. eapply taken_step; [exact Hp| |done]. apply Hnr. by left.
Qed.
End Taken.

Lemma follows_app {PF : Platform} l s es1 es2 s' : follows l s (es1 ++ es2) s' -> exists s1, follows l s1 es2 s'.
Proof.
  revert s. induction es1 as [|e es1 IH]; intros s H; [by exists s|]. apply follows_cons_inv in H as (s1 & H & _). eauto.
Qed.

Lemma granted_twice {PF : Platform} l s es1 ev1 es2 ev2 s' g i :
  follows l s (es1 ++ ev1 :: es2 ++ [ev2]) s' -> grants g i ev1 ->
  (forall e, In e es2 -> ~ releases g i e) -> ~ grants g i ev2.
Proof.
  intros [s1 (s2 & Hf & Hp)%follows_cons_inv]%follows_app Hg Hnr. destruct ev1 as [[] [[]|]| |];
    cbn [grants promised] in *; try done. destruct Hg as (<- & <- & He).
  eapply granted_once; [exact Hf| |done]. by eapply taken_begun.
Qed.

(** C3. Whatever calls, refusals, closings and restarts happen, once [begin] told
    a caller to run an operation it never tells anyone so again, unless a call in
    between returned that operation to its prepared state or removed its batch. *)
Theorem no_double_execution {F E : Type} `{!Engine F} `{!Entropy E} {PF : Platform} (j j' : Journal.Journal F E)
  (es1 es2 : list event) (ev1 ev2 : event) (g i : string) :
  TInv (Journal.tables j) -> jsteps j (es1 ++ ev1 :: es2 ++ [ev2]) j' -> grants g i ev1 ->
  (forall ev, In ev es2 -> ~ releases g i ev) -> ~ grants g i ev2.
Proof. intros Hinv (_ & _ & Hf)%jsteps_follow; [|done]. by eapply granted_twice. Qed.

(** ** A history *)
Lemma TInv_empty : TInv (mkTables [] []).
Proof. by repeat constructor. Qed.

Definition sample_sha : string := "0123456789abcdef0123456789abcdef0123456789abcdef0123456789abcdef".
Definition sample_operation : Operation.Operation := Operation.mk "interrupt-1" sample_sha None.
Definition sample_journal : Journal.Journal (list bool) (list (option string)) :=
  empty_journal default_limits [] [Some "abcdefghijklmnop"%string].

(** A batch is prepared, its operation begins, the process restarts, and the
    operation is uncertain: it does not begin again. *)
Definition sample_prepare : command := Prepare "generation" "thread" [sample_operation] true.
Definition after_prepare := Eval vm_compute in run_command (PF := utc_platform) sample_prepare sample_journal.
Definition sample_batch : Batch.Batch :=
  Eval vm_compute in match snd after_prepare with Done (RBatch b) => b | _ => Batch.mk "" "" [] end.
Definition after_begin := Eval vm_compute in run_command (PF := utc_platform) (Begin sample_batch sample_operation) (fst after_prepare).
Definition after_restart : Journal.Journal (list bool) (list (option string)) :=
  Journal.mk _ _ default_limits true (Journal.tables (fst after_begin)) [false; false; false; false] [].
Definition after_again := Eval vm_compute in run_command (PF := utc_platform) (Begin sample_batch sample_operation) after_restart.

Definition sample_events : list event :=
  [Called sample_prepare (snd after_prepare); Called (Begin sample_batch sample_operation) (snd after_begin);
   Restarted; Called (Begin sample_batch sample_operation) (snd after_again)].

Lemma sample_steps : jsteps (PF := utc_platform) sample_journal sample_events (fst after_again).
Proof.
  eapply jsteps_cons; [apply (step_call (PF := utc_platform) _ _ (fst after_prepare)); vm_compute; reflexivity|].
  eapply jsteps_cons; [apply (step_call (PF := utc_platform) _ _ (fst after_begin)); vm_compute; reflexivity|].
  eapply jsteps_cons; [apply (step_restart (PF := utc_platform) (fst after_begin) [false; false; false; false] [])|].
  eapply jsteps_cons; [apply (step_call (PF := utc_platform) _ _ (fst after_again)); vm_compute; reflexivity|].
  apply jsteps_nil.
Qed.

Lemma journal_refines_witness :
  TInv (Journal.tables (fst after_again))
  /\ follows (PF := utc_platform) default_limits (view (mkTables [] [])) sample_events (view (Journal.tables (fst after_again))).
Proof.
  apply (journal_refines (PF := utc_platform) sample_journal (fst after_again) sample_events);
    [exact TInv_empty|exact sample_steps].
Defined.

Lemma refusal_changes_nothing_witness :
  snd after_again = Refused Uncertain /\ Journal.tables (fst after_again) = Journal.tables after_restart.
Proof.
  split; [reflexivity|].
  apply (refusal_changes_nothing (PF := utc_platform) (Begin sample_batch sample_operation) after_restart (fst after_again) Uncertain).
  vm_compute. reflexivity.
Defined.

Lemma no_double_execution_witness :
  grants "generation" "interrupt-1" (Called (Begin sample_batch sample_operation) (snd after_begin))
  /\ ~ grants "generation" "interrupt-1" (Called (Begin sample_batch sample_operation) (snd after_again)).
Proof.
  split; [vm_compute; auto|].
  apply (no_double_execution (PF := utc_platform) sample_journal (fst after_again)
    [Called sample_prepare (snd after_prepare)] [Restarted] (Called (Begin sample_batch sample_operation) (snd after_begin)));
    [exact TInv_empty|exact sample_steps|vm_compute; auto|intros ev [<-|[]] []].
Defined.

(** * Replaying a completed operation

    Bounded results survive the journal: what [complete] stored is read back as
    the same value with its members in canonical order, and [begin] replays it. *)

(** ** The bounds of a result do not depend on the order of members *)
Definition under (v : Value) : list Value := Json.elements v ++ map snd (Json.members v).

Fixpoint nodes (v : Value) : nat :=
  match v with
  | VArray items => S (list_sum (map nodes items))
  | VObject ms => S (list_sum (map (fun kv => nodes (snd kv)) ms))
  | _ => 1%nat
  end.
(** The depth of the deepest node. *)
Fixpoint levels (v : Value) : Z :=
  match v with
  | VArray items => fold_right Z.max 0 (map (fun v => 1 + levels v) items)
  | VObject ms => fold_right Z.max 0 (map (fun kv => 1 + levels (snd kv)) ms)
  | _ => 0
  end.

Lemma nodes_under v : nodes v = S (list_sum (map nodes (under v))).
Proof. destruct v; unfold under; cbn; rewrite ?app_nil_r, ?map_map; done. Qed.
Lemma levels_under v d : 0 <= d -> (levels v <= d <-> List.Forall (fun w => 1 + levels w <= d) (under v)).
Proof.
  intros Hd.
  assert (forall l, fold_right Z.max 0 l <= d <-> List.Forall (fun x => x <= d) l) as Hmax.
  { induction l as [|x l IH]; cbn; [by split|]. rewrite List.Forall_cons_iff, <- IH. lia. }
  destruct v; unfold under; cbn [Json.elements Json.members levels app map]; rewrite ?app_nil_r, ?Hmax, ?List.Forall_map; try done;
    split; auto using List.Forall_nil; lia.
Qed.
Lemma levels_nonneg v : 0 <= levels v.
Proof.
  assert (forall l, 0 <= fold_right Z.max 0 l) as Hmax by (induction l; cbn; lia). destruct v; cbn [levels]; auto; lia.
Qed.

Lemma Forall_reversed {A} (P : A -> Prop) l : List.Forall P (rev l) <-> List.Forall P l.
Proof. rewrite !List.Forall_forall. split; intros H x Hx; apply H; [by apply in_rev in Hx|by apply in_rev]. Qed.

(** [walk] admits exactly the values with few enough nodes, none too deep. *)
Lemma walk_pending_ok budget pending :
  walk_pending budget pending = inr tt <->
  List.Forall (fun p => snd p + levels (fst p) <= MAX_JSON_DEPTH) pending
  /\ (list_sum (map (fun p => nodes (fst p)) pending) <= budget)%nat.
Proof.
  revert pending. induction budget as [|budget IH]; intros [|[v d] pending]; cbn [walk_pending].
  - split; [|done]. split; [constructor|done].
  - split; [done|]. cbn. rewrite (nodes_under v). lia.
  - split; [|done]. split; [constructor|cbn; lia].
  - destruct (Z.ltb_spec MAX_JSON_DEPTH d) as [Hd|Hd].
    { split; [done|]. intros [H _]. apply List.Forall_cons_iff in H as [H _]. cbn in H. pose proof (levels_nonneg v). lia. }
    rewrite IH, List.Forall_app, List.Forall_cons_iff. cbn [fst snd map list_sum fold_right].
    fold (under v). assert (List.Forall (fun p => snd p + levels (fst p) <= MAX_JSON_DEPTH) (rev (map (fun item => (item, d + 1)) (under v)))
            <-> d + levels v <= MAX_JSON_DEPTH) as ->.
    { rewrite Forall_reversed, List.Forall_map. cbn [fst snd]. pose proof (levels_under v (MAX_JSON_DEPTH - d) ltac:(lia)) as Hl.
      rewrite !List.Forall_forall in *. split; [intros H; enough (levels v <= MAX_JSON_DEPTH - d) by lia|intros H].
      - apply Hl. intros x Hx. specialize (H x Hx). lia.
      - intros x Hx. assert (levels v <= MAX_JSON_DEPTH - d) as Hv by lia. rewrite Hl in Hv. specialize (Hv x Hx). lia. }
    rewrite map_app, list_sum_app, map_rev, map_map.
    assert (forall l, list_sum (rev l) = list_sum l) as -> by (intros l; by rewrite <- Permutation_rev).
    cbn [fst]. rewrite (nodes_under v). change (fun x => nodes x) with nodes. fold (under v).
    change (foldr Nat.add 0%nat ?l) with (list_sum l). split; (intros [? ?]; split; [done|lia]).
Qed.

Lemma walk_ok v : walk v = inr tt <-> levels v <= MAX_JSON_DEPTH /\ (nodes v <= MAX_JSON_NODES)%nat.
Proof.
  unfold walk. rewrite walk_pending_ok, List.Forall_cons_iff. cbn -[MAX_JSON_NODES MAX_JSON_DEPTH]. rewrite Nat.add_0_r.
  split; [intros [[? _] ?]; by split|intros [? ?]; repeat split; done || constructor].
Qed.

(** Reading back reorders members only. *)
Lemma nodes_ordered o v : nodes (ordered o v) = nodes v.
Proof.
  induction v as [|b|n|s|items IH|ms IH] using value_ind'; try done.
  - cbn. rewrite map_map. do 2 f_equal. apply map_ext_in. intros x Hx. rewrite List.Forall_forall in IH. auto.
  - rewrite ordered_object. cbn. rewrite map_map. cbn.
    rewrite <- (in_order_perm o ms) at 2. do 2 f_equal. apply map_ext_in. intros x Hx. rewrite List.Forall_forall in IH. apply IH.
    apply list_elem_of_In. rewrite <- (in_order_perm o ms). by apply list_elem_of_In.
Qed.

Lemma levels_ordered o v : levels (ordered o v) = levels v.
Proof.
  assert (forall l l' : list Z, l ≡ₚ l' -> fold_right Z.max 0 l = fold_right Z.max 0 l') as Hperm.
  { induction 1; cbn; lia. }
  induction v as [|b|n|s|items IH|ms IH] using value_ind'; try done; rewrite List.Forall_forall in IH.
  - cbn. rewrite map_map. f_equal. apply map_ext_in. intros x Hx. by rewrite IH.
  - rewrite ordered_object. cbn [levels]. rewrite map_map. cbn [ordered_member snd].
    rewrite <- (Hperm _ _ (Permutation_map _ (in_order_perm o ms))). f_equal. apply map_ext_in. intros x Hx. rewrite IH; [done|].
    apply list_elem_of_In. rewrite <- (in_order_perm o ms). by apply list_elem_of_In.
Qed.

Lemma walk_ordered o v : walk v = inr tt -> walk (ordered o v) = inr tt.
Proof. by rewrite !walk_ok, levels_ordered, nodes_ordered. Qed.

Lemma height_levels v : height v <= 1 + levels v.
Proof.
  induction v as [|b|n|s|items IH|ms IH] using value_ind'; cbn [height levels]; try lia.
  - induction IH as [|x l Hx _ IH]; cbn; lia.
  - induction IH as [|x l Hx _ IH]; cbn; lia.
Qed.

(** A bounded result reads back as itself, members in canonical order, and is
    then bounded with the same bytes. *)
Lemma result_read_back v m raw : result_canonical v m = inr raw -> admissible v = true -> doubles v ->
  json_parse raw = Some (ordered CANONICAL v) /\ result_canonical (ordered CANONICAL v) m = inr raw /\ slen raw <= m.
Proof.
  unfold result_canonical. destruct (walk v) as [|[]] eqn:Hw; [done|]. destruct (Z.ltb_spec m (slen (canonical v))) as [|Hm]; [done|].
  intros [= <-] Ha Hf. pose proof Hw as Hw'. apply (walk_ordered CANONICAL) in Hw'. rewrite Hw'.
  unfold canonical in *. rewrite dumps_ordered. split_and!; [|by destruct (Z.ltb_spec m (slen (dumps CANONICAL v))); [lia|]|done].
  apply parse_dumps; [done..|]. apply walk_ok in Hw as [Hl _]. pose proof (height_levels v).
  unfold MAX_JSON_DEPTH in Hl. unfold Strict.MAX_DEPTH. lia.
Qed.

(** ** Calls that only read, on an engine that may fail any statement *)
Section Replaying.
  Context {F E : Type} `{!Engine F} `{!Entropy E} {PF : Platform}.
  Abbreviation J := (Journal.Journal F E).

(** Some statement of the engine fails. *)
Definition faulty : Prop := exists f : F, snd (fails f) = true.
(** What a failed statement is reported as. *)
Definition storage_error (e : JournalError) : Prop :=
  match e with Failure _ => True | Corrupt s => s = "Action journal batch could not be read"%string | _ => False end.
(** The call answers [a], or a statement failed; the tables stand as they were. *)
Definition answers {A} (m : journaled F E A) (j : J) (a : A) : Prop :=
  exists j', onto j j' (Journal.tables j) /\ (m j = (j', Done a) \/ exists e, m j = (j', Refused e) /\ storage_error e /\ faulty).

Lemma answers_bind {A B} (m : journaled F E A) (f : A -> journaled F E B) j a b : answers m j a ->
  (forall j1, onto j j1 (Journal.tables j) -> answers (f a) j1 b) -> answers (m ≫= f) j b.
Proof.
  intros (j1 & O1 & [H1|(e & H1 & He & Hf)]) Hk; unfold answers, mbind, journaled_bind; rewrite H1.
  - destruct (Hk j1 O1) as (j2 & O2 & H2). exists j2. split; [|exact H2]. pose proof O1 as (T1 & _). rewrite T1 in O2. by eapply onto_trans.
  - exists j1. split; [done|]. right. by exists e.
Qed.
Lemma query_answers {A} (w : Tables -> A) (j : J) : answers (r ← query w; read_ r "Action journal batch could not be read") j (w (Journal.tables j)).
Proof.
  unfold answers, query, statement, mbind, journaled_bind. destruct (fails (Journal.engine j)) as [f []] eqn:Hf; cbn.
  - eexists. split; [|right; eexists; split; [reflexivity|]]; [done|]. split; [done|]. exists (Journal.engine j). by rewrite Hf.
  - eexists. split; [|left; reflexivity]. done.
Qed.

(** [load] succeeds exactly on the tables that hold the handle's open batch. *)
Definition loads (b : Batch.Batch) (t : Tables) : bool :=
  match select_batch (Batch.generation b) t with
  | Some h => header_matches h b && (BatchRow.state h =s "open") && (BatchRow.operation_count h =? len (Batch.operations b))
              && rows_match 0 (select_operations (Batch.generation b) t) (Batch.operations b)
  | None => false
  end.

Lemma load_loads b (j j' : J) rows : load b j = (j', Done rows) -> loads b (Journal.tables j) = true.
Proof.
  unfold load, loads. intros (j1 & hd & [-> (T1 & _)]%read_Done & H)%journaled_bind_Done.
  destruct (select_batch _ _) as [h|]; [|done]. destruct (header_matches h b); cbn [andb] in *.
  - destruct (BatchRow.state h =s "open"); [|done]. cbn [negb andb] in *.
    apply journaled_bind_Done in H as (j2 & rs & [-> _]%read_Done & H). rewrite T1 in H. by destruct (_ && _).
  - apply journaled_bind_Done in H as (j2 & rs & _ & H). done.
Qed.

Lemma load_answers b (j : J) : loads b (Journal.tables j) = true -> answers (load b) j (select_operations (Batch.generation b) (Journal.tables j)).
Proof.
  unfold loads, load. intros H. eapply answers_bind; [apply query_answers|]. intros j1 (T1 & _). destruct (select_batch _ _) as [h|]; [|done].
  apply andb_true_iff in H as [[[Hm Ho]%andb_true_iff Hc]%andb_true_iff Hr]. rewrite Hm, Ho. cbn [negb andb].
  eapply answers_bind; [apply query_answers|]. intros j2 (T2 & _). rewrite T1, Hc, Hr. exists j2. split; [done|by left].
Qed.
Lemma writing_answers {A} s (w : journaled F E A) (j : J) a : Journal.connected j = true ->
  (forall j1, onto j j1 (Journal.tables j) -> answers w j1 a) -> answers (writing s w) j a.
Proof.
  intros Hc Hw. unfold answers, writing, with_connection. rewrite Hc. unfold statement.
  destruct (fails (Journal.engine j)) as [f1 []] eqn:Hf1; cbv iota zeta.
  { eexists. split; [|right; eexists; split; [reflexivity|]]; [done|]. split; [done|]. exists (Journal.engine j). by rewrite Hf1. }
  destruct (Hw (with_tables (Journal.tables j) (with_engine f1 j))) as (j2 & (T & L & C) & H2); [done|].
  change (Journal.tables (with_engine f1 j)) with (Journal.tables j). cbn iota.
  destruct H2 as [H2|(e & H2 & He & Hf)]; rewrite H2.
  - destruct (fails (Journal.engine j2)) as [f3 []] eqn:Hf3; (eexists; split; [|]).
    2: right; eexists; split; [reflexivity|]; split; [done|]; exists (Journal.engine j2); by rewrite Hf3.
    3: left; reflexivity. all: split_and!; done.
  - eexists. split; [|right; eexists; split; [reflexivity|]]; [split_and!; done|]. split; [by destruct e|done].
Qed.

(** *** What [complete] leaves behind *)
Definition row_for (b : Batch.Batch) (o : Operation.Operation) (t : Tables) : option OperationRow.OperationRow :=
  List.find (fun row => OperationRow.interrupt_id row =s Operation.interrupt_id o) (select_operations (Batch.generation b) t).

Lemma operation_row_for b o (j j' : J) row : operation b o j = (j', Done row) ->
  onto j j' (Journal.tables j) /\ loads b (Journal.tables j) = true /\ row_for b o (Journal.tables j) = Some row.
Proof.
  unfold operation. intros (j1 & rows & H1 & H2)%journaled_bind_Done. pose proof (load_loads _ _ _ _ H1) as Hl.
  apply load_Done in H1 as (O1 & -> & _). unfold row_for. destruct (List.find _ _) as [r|]; [|done].
  by apply journaled_ret_Done in H2 as [-> ->].
Qed.

(** The columns that match a row to its handle do not change on completion. *)
Lemma rows_match_map i rows os set : keeps_key set ->
  (forall r, In r rows -> contains STATES (OperationRow.state (set r)) = true) ->
  rows_match i rows os = true -> rows_match i (map set rows) os = true.
Proof.
  intros Hk. revert i os. induction rows as [|r rows IH]; intros i [|o os] Hs; cbn [map rows_match]; try done.
  intros [Hm Hr]%andb_true_iff. rewrite IH by auto using in_cons. rewrite andb_true_r. unfold row_matches in *.
  destruct (Hk r) as (_ & -> & -> & -> & ->). rewrite (Hs r) by apply in_eq.
  repeat apply andb_true_iff in Hm as [Hm ?]. repeat match goal with H : _ = true |- _ => rewrite H; clear H end. done.
Qed.

Lemma rows_match_states i rows os r : rows_match i rows os = true -> In r rows -> contains STATES (OperationRow.state r) = true.
Proof.
  revert i os. induction rows as [|x rows IH]; intros i [|o os]; cbn [rows_match In]; try done.
  intros [Hm Hr]%andb_true_iff [->|Hin]; [|by eapply IH]. unfold row_matches in Hm.
  by repeat (apply andb_true_iff in Hm as [Hm ?]).
Qed.

Lemma complete_leaves b o v (j j' : J) u : complete_operation b o v j = (j', Done u) ->
  Journal.limits j' = Journal.limits j /\ In o (Batch.operations b) /\ loads b (Journal.tables j') = true
  /\ exists raw row, result_canonical v (Limits.max_result_bytes (Journal.limits j)) = inr raw
     /\ row_for b o (Journal.tables j') = Some row /\ OperationRow.state row = "completed"%string
     /\ OperationRow.result row = Some raw.
Proof.
  unfold complete_operation. destruct (result_canonical v _) as [|raw] eqn:Hc; [done|].
  unfold settle. intros (j1 & [] & [= <- Hreq%require_Done] & H)%journaled_bind_Done.
  apply writing_Done in H as (j2 & j3 & (T2 & L2 & _) & H & (T3 & L3 & _)).
  apply journaled_bind_Done in H as (j4 & row & ((T4 & L4 & _) & Hl & Hrow)%operation_row_for & H).
  rewrite T3, L3. rewrite T2 in *. destruct (_ && _) eqn:Hsame in H.
  - case_bool_decide as Hres; [|done]. apply journaled_ret_Done in H as [-> _]. rewrite T4, L4, L2.
    apply andb_true_iff in Hsame as [Hs%seqb_true _]. split_and!; [done..|]. by exists raw, row.
  - destruct (_ || _) eqn:Hex in H; [done|]. apply orb_false_iff in Hex as [Hex%negb_false_iff _].
    apply journaled_bind_Done in H as (j5 & n & (t5 & Hu & T5 & L5 & _)%executed_Done & [-> ->]%require_changed_Done).
    rewrite T4 in Hu. apply update_operations_Some in Hu as (-> & _ & _). rewrite T5, L5, L4, L2.
    pose proof (step_key (is_row b o "executing") _ (keeps_key_settle "completed" (Some raw))) as Hk. cbv beta zeta in Hk.
    unfold loads, row_for in *. change (select_batch (Batch.generation b) (mkTables (batches (Journal.tables j)) _))
      with (select_batch (Batch.generation b) (Journal.tables j)).
    rewrite select_operations_update by apply keeps_key_settle. split_and!; [done|done| |].
    + destruct (select_batch _ _) as [h|]; [|done]. apply andb_true_iff in Hl as [-> Hl]. cbn [andb].
      apply rows_match_map; [done| |done]. intros r Hr. destruct (is_row b o "executing" r); [by destruct r|].
      by eapply rows_match_states.
    + exists raw, (row <| OperationRow.state := "completed"%string |> <| OperationRow.origin := Some "execution"%string |>
                      <| OperationRow.result := Some raw |>).
      split; [done|]. rewrite (find_map_keep OperationRow.interrupt_id (fun x => x =s Operation.interrupt_id o))
        by (intros r; apply Hk). rewrite Hrow. cbn [option_map]. apply find_some in Hrow as [Hin Hi].
      apply in_select_operations in Hin as [_ Hg]. unfold is_row, of_generation. rewrite Hg, seqb_refl, Hi, Hex. by destruct row.
Qed.

(** *** What [begin] then answers *)
Lemma begin_work_replays b o raw row v (j : J) : loads b (Journal.tables j) = true ->
  row_for b o (Journal.tables j) = Some row -> OperationRow.state row = "completed"%string ->
  OperationRow.result row = Some raw -> json_parse raw = Some v ->
  result_canonical v (Limits.max_result_bytes (Journal.limits j)) = inr raw ->
  slen raw <= Limits.max_result_bytes (Journal.limits j) ->
  answers (begin_work b o) j (Execution.mk false (Some v) (OperationRow.operation_id row)).
Proof.
  intros Hl Hrow Hs Hres Hp Hc Hb. unfold begin_work, operation. unfold row_for in Hrow.
  eapply answers_bind; [eapply answers_bind; [by apply load_answers|]; intros j1 (T1 & _); rewrite Hrow; exists j1; split; [done|by left]|].
  intros j1 O1. exists j1. split; [done|left]. cbv zeta. rewrite Hs.
  change ("completed" =s "executing") with false. change ("completed" =s "no_effect") with false.
  change ("completed" =s "completed") with true. cbv iota. unfold mbind, journaled_bind, decode_result.
  destruct O1 as (_ & -> & _). rewrite Hres, Hp, Hc, seqb_refl.
  by destruct (Z.ltb_spec (Limits.max_result_bytes (Journal.limits j)) (slen raw)); [lia|].
Qed.

(** C36. After [complete] stored a result, [begin] of that operation, now or after
    any restart on the same tables and limits, does not run it again, on an engine
    that may fail any statement: it replays the very value that was completed, its
    members in canonical order, or reports that the journal is closed or a statement
    of it failed; the tables stand either way, and with an open journal and no
    failing statement it is the replay.  The completed value is an admissible JSON
    value whose floats are doubles. *)
Theorem complete_replays (b : Batch.Batch) (o : Operation.Operation) (v : Value) (j j1 j2 : J) (u : unit) :
  complete_operation b o v j = (j1, Done u) -> admissible v = true -> doubles v ->
  Journal.tables j2 = Journal.tables j1 -> Journal.limits j2 = Journal.limits j1 ->
  exists j3, Journal.tables j3 = Journal.tables j2
    /\ ((exists id, begin b o j2 = (j3, Done (Execution.mk false (Some (ordered CANONICAL v)) id)))
        \/ exists e, begin b o j2 = (j3, Refused e) /\ storage_error e /\ (Journal.connected j2 = false \/ faulty)).
Proof.
  intros (L & Hin & Hl & raw & row & Hc & Hrow & Hs & Hres)%complete_leaves Ha Hf T L2.
  destruct (result_read_back _ _ _ Hc Ha Hf) as (Hp & Hc' & Hb). unfold begin, require. rewrite bool_decide_true by (by apply list_elem_of_In).
  destruct (Journal.connected j2) eqn:Hcon.
  - destruct (writing_answers "Action execution could not begin" (begin_work b o) j2
              (Execution.mk false (Some (ordered CANONICAL v)) (OperationRow.operation_id row)) Hcon) as (j3 & (T3 & _) & H3).
    { intros j4 (T4 & L4 & _). eapply begin_work_replays; rewrite ?T4, ?T, ?L4, ?L2, ?L; done. }
    exists j3. split; [done|]. destruct H3 as [H3|(e & H3 & He & Hfa)]; [left; eexists; exact H3|right; exists e; split; [exact H3|auto]].
  - exists j2. split; [done|]. right. eexists. split; [|split; [|by left]]; [|]. { unfold mbind, journaled_bind, pure, writing, with_connection. rewrite Hcon. reflexivity. } done.
Qed.
End Replaying.

(** An engine that never fails. *)
#[global] Instance steady_engine : Engine unit := fun _ => (tt, false).

Definition steady_journal : Journal.Journal unit (list (option string)) :=
  Journal.mk _ _ default_limits true (mkTables [] []) tt [Some "abcdefghijklmnop"%string].
Definition steady_begun := Eval vm_compute in
  fst (begin sample_batch sample_operation
         (fst (run_command (PF := utc_platform) sample_prepare steady_journal))).
Definition steady_result : Value := object [("b"%string, int 1); ("a"%string, VArray [VNull; VString "x"])].
Definition steady_completed := Eval vm_compute in fst (complete_operation sample_batch sample_operation steady_result steady_begun).

Lemma complete_replays_witness :
  exists j3 id, begin sample_batch sample_operation steady_completed
                  = (j3, Done (Execution.mk false (Some (ordered CANONICAL steady_result)) id))
                /\ Journal.tables j3 = Journal.tables steady_completed.
Proof.
  destruct (complete_replays (Engine0 := steady_engine) sample_batch sample_operation steady_result steady_begun
           steady_completed steady_completed tt) as (j3 & T & [[id H]|(e & _ & _ & [H|[f H]])]);
    [vm_compute; reflexivity|vm_compute; reflexivity|vm_compute; auto|reflexivity|reflexivity| |discriminate H|discriminate H].
  exists j3, id. split; [exact H|exact T].
Defined.
