(* ===== verification/Projection.v ===== *)
(** * Projection of terminal frames

    [action/src/projection.rs]: what Team makes of the frame an Action ended with.
    No frame that echoes a value Team injected goes further, except a handled
    failure, which is redacted first. *)

From stdpp Require Import base tactics list strings pretty.
From Stdlib Require Import ZArith Lia Ascii.
From S2P Require Import Prelude Text Json Reader Utf8 ReaderSafety Floats RoundTrip Causes Calendar Platform Requests Human Transcripts.
From S2P Require Import Redaction RedactionSafety Executor Journal.

#[local] Open Scope Z_scope.

Module ResultPolicy.
Record ResultPolicy : Type := mk {
  human_requests : list string;
  authorization_requested : bool;
  injected : list (string * string);
  held_stored_inputs : list string;
  declared_stored_inputs : list string;
  messages : Value;
  file_withheld : bool
}.
End ResultPolicy.

Inductive Projected : Type :=
| ProjectedResult (result : Value)
| ProjectedRequest (request : HumanRequest.HumanRequest).
Inductive Refused_ : Type :=
| RefusedFailure (f : Failure.Failure)
| RefusedSecretExposure
| RefusedInvalid (c : Condition.Condition)
| RefusedStoredInput (id : string).

(** [visit]: a secret in a string or key, or nesting beyond the bound. *)
Fixpoint visit (secrets : list string) (depth : nat) (v : Value) : bool :=
  (32 <? depth)%nat
  || match v with
     | VString text => existsb (fun secret => has_sub secret text) secrets
     | VArray items => existsb (visit secrets (S depth)) items
     | VObject ms =>
         existsb (fun kv => ((32 <? S depth)%nat || existsb (fun secret => has_sub secret (fst kv)) secrets)
                            || visit secrets (S depth) (snd kv)) ms
     | _ => false
     end.
Definition contains_secret (v : Value) (secrets : list string) : bool :=
  let secrets := List.filter (fun s => negb (is_empty s)) secrets in
  negb (bool_decide (secrets = [])) && visit secrets 0 v.

Section Projection.
  Context {PF : Platform} {V : Vocabulary} {B : Base64} {X : Regexes}.

Definition project_rejected (raw : Value) (policy : ResultPolicy.ResultPolicy) : Refused_ + Projected :=
  match get raw "stored_input" with
  | Some (VString id) =>
      if contains (ResultPolicy.declared_stored_inputs policy) id && contains (ResultPolicy.held_stored_inputs policy) id
      then inl (RefusedStoredInput id) else inl (RefusedInvalid Condition.StoredInputNotHeld)
  | _ => inl (RefusedInvalid Condition.StoredInputNotHeld)
  end.

Definition project_request (raw : Value) (policy : ResultPolicy.ResultPolicy) : Refused_ + Projected :=
  match get raw "request" with
  | None => inl (RefusedInvalid Condition.RequestInvalid)
  | Some value =>
      match validate_request value (ResultPolicy.human_requests policy) (ResultPolicy.declared_stored_inputs policy)
              (ResultPolicy.messages policy) with
      | inl _ => inl (RefusedInvalid Condition.RequestInvalid)
      | inr request =>
          if ResultPolicy.authorization_requested policy && authorizes (HumanRequest.kind request)
          then inl (RefusedInvalid Condition.AuthorizationRepeated)
          else if match HumanRequest.stored_input request with
                  | Some id => contains (ResultPolicy.held_stored_inputs policy) id
                  | None => false
                  end then inl (RefusedInvalid Condition.HeldInputRequested)
          else inr (ProjectedRequest request)
      end
  end.

(** [names.as_slice()] after sorting, against a pair of names. *)
Definition named (ms : list (string * Value)) (a b : string) : bool :=
  bool_decide (stable_sort sleb (map fst ms) = [a; b]).

Definition project (raw : Value) (policy : ResultPolicy.ResultPolicy) (validate : Value -> option Condition.Condition)
  : Refused_ + Projected :=
  let secrets := map snd (ResultPolicy.injected policy) in
  if is_failure raw then
    inl match admit_failure raw secrets with
        | inr f => RefusedFailure f
        | inl _ => RefusedInvalid Condition.FailureInvalid
        end
  else if contains_secret raw secrets then inl RefusedSecretExposure
  else match raw with
  | VObject ms =>
      match get raw "type" with
      | Some (VString kind) =>
          if (kind =s "stored_input_rejected") && named ms "stored_input" "type" then project_rejected raw policy
          else if (kind =s "request") && named ms "request" "type" then project_request raw policy
          else if (kind =s "result") && named ms "result" "type" then
            if ResultPolicy.file_withheld policy then inl (RefusedInvalid Condition.ResultWithWithheldFile)
            else match get raw "result" with
                 | None => inl (RefusedInvalid Condition.FrameMembersInvalid)
                 | Some result =>
                     match validate result with
                     | Some c => inl (RefusedInvalid c)
                     | None =>
                         match require_durable result with
                         | inl _ => inl (RefusedInvalid Condition.ResultNotDurable)
                         | inr _ => inr (ProjectedResult result)
                         end
                     end
                 end
          else if (kind =s "stored_input_rejected") || (kind =s "request") || (kind =s "result")
          then inl (RefusedInvalid Condition.FrameMembersInvalid)
          else inl (RefusedInvalid Condition.FrameTypeInvalid)
      | _ => inl (RefusedInvalid Condition.FrameTypeInvalid)
      end
  | _ => inl (RefusedInvalid Condition.TerminalNotObject)
  end.
End Projection.

(** ** No echo of an injected value *)

(** Every string and key of a value, at any depth. *)
Fixpoint texts_of (v : Value) : list string :=
  match v with
  | VString s => [s]
  | VArray items => concat (map texts_of items)
  | VObject ms => concat (map (fun kv => fst kv :: texts_of (snd kv)) ms)
  | _ => []
  end.

Lemma visit_texts secrets depth v secret t : visit secrets depth v = false -> In secret secrets -> In t (texts_of v) ->
  has_sub secret t = false.
Proof.
  intros Hv Hs. revert depth Hv. induction v as [|b|n|s|l IH|ms IH] using value_ind'; intros depth Hv Ht; try done.
  - destruct Ht as [<-|[]]. cbn [visit] in Hv. apply orb_false_iff in Hv as [_ Hv].
    apply not_true_is_false. intros H. assert (existsb (fun secret => has_sub secret s) secrets = true) by (apply existsb_exists; eauto). congruence.
  - cbn [visit texts_of] in *. apply orb_false_iff in Hv as [_ Hv]. apply in_concat in Ht as (ts & (x & <- & Hx)%in_map_iff & Ht).
    rewrite List.Forall_forall in IH. eapply (IH x Hx); [|done]. apply not_true_is_false. intros H.
    assert (existsb (visit secrets (S depth)) l = true) by (apply existsb_exists; eauto). congruence.
  - cbn [visit texts_of] in *. apply orb_false_iff in Hv as [_ Hv]. apply in_concat in Ht as (ts & (x & <- & Hx)%in_map_iff & Ht).
    rewrite List.Forall_forall in IH.
    assert (((32 <? S depth)%nat || existsb (fun secret => has_sub secret (fst x)) secrets) || visit secrets (S depth) (snd x) = false) as Hx'.
    { apply not_true_is_false. intros H. revert Hv. apply eq_true_false_abs. apply existsb_exists. eauto. }
    rewrite !orb_false_iff in Hx'. destruct Hx' as [[_ Hk] Hx']. destruct Ht as [<-|Ht]; [|by eapply (IH x Hx)].
    apply not_true_is_false. intros H. revert Hk. apply eq_true_false_abs. apply existsb_exists. eauto.
Qed.

Lemma texts_of_get v key x t : get v key = Some x -> In t (texts_of x) -> In t (texts_of v).
Proof.
  destruct v as [| | | | |ms]; try done. cbn [get texts_of]. intros Hin%lookup_member_in Ht. apply in_concat.
  exists (key :: texts_of x). split; [|by right]. apply in_map_iff. by exists (key, x).
Qed.

Section Safety.
  Context {PF : Platform} {V : Vocabulary} {B : Base64} {X : Regexes}.

Lemma project_inr raw policy validate p : project raw policy validate = inr p ->
  contains_secret raw (map snd (ResultPolicy.injected policy)) = false
  /\ match p with
     | ProjectedResult result => get raw "result" = Some result /\ validate result = None
         /\ require_durable result = inr tt /\ ResultPolicy.file_withheld policy = false
     | ProjectedRequest request =>
         (exists value, get raw "request" = Some value
            /\ validate_request value (ResultPolicy.human_requests policy) (ResultPolicy.declared_stored_inputs policy)
                 (ResultPolicy.messages policy) = inr request)
         /\ (ResultPolicy.authorization_requested policy = true -> authorizes (HumanRequest.kind request) = false)
     end.
Proof.
  unfold project. destruct (is_failure raw); [done|]. destruct (contains_secret _ _); [done|].
  destruct raw as [| | | | |ms]; try done. destruct (get (VObject ms) "type") as [[| | |kind| |]|]; try done.
  destruct (_ && _); [unfold project_rejected; by repeat case_match|]. destruct (_ && _).
  - unfold project_request. destruct (get (VObject ms) "request") as [value|] eqn:Hg; [|done].
    destruct (validate_request _ _ _ _) as [|request] eqn:Hv; [done|].
    destruct (ResultPolicy.authorization_requested policy && _) eqn:Ha; [done|].
    destruct (match HumanRequest.stored_input request with Some _ => _ | None => _ end); [done|].
    intros H. apply (inj inr) in H. subst p. split; [done|]. split; [eauto|]. intros Hr. by rewrite Hr in Ha.
  - destruct (_ && _); [|by destruct (_ || _)]. destruct (ResultPolicy.file_withheld policy) eqn:Hw; [done|].
    destruct (get (VObject ms) "result") as [result|]; [|done]. destruct (validate result) eqn:Hv; [done|].
    destruct (require_durable result) as [|[]] eqn:Hd; [done|]. intros H. apply (inj inr) in H. by subst p.
Qed.

(** What a projection lets through: the result, or the request as it came. *)
Definition passed (raw : Value) (p : Projected) : option Value :=
  match p with ProjectedResult result => Some result | ProjectedRequest _ => get raw "request" end.

(** C11. A frame that is projected as a result or a human request shows no value
    Team injected into the attempt: none of its strings and keys, at any depth,
    contains one, and no string or key of the frame does either. *)
Theorem projection_shows_no_secret (raw : Value) (policy : ResultPolicy.ResultPolicy)
  (validate : Value -> option Condition.Condition) (p : Projected) (id secret : string) (v : Value) (t : string) :
  project raw policy validate = inr p -> In (id, secret) (ResultPolicy.injected policy) -> secret <> ""%string ->
  passed raw p = Some v -> In t (texts_of v) \/ In t (texts_of raw) -> has_sub secret t = false.
Proof.
  intros [Hc Hp]%project_inr Hin Hne Hv Ht.
  assert (In t (texts_of raw)) as Hraw.
  { destruct Ht as [Ht|]; [|done]. destruct p as [result|request]; cbn [passed] in Hv.
    - destruct Hp as [Hg _]. simplify_eq. by eapply texts_of_get.
    - by eapply texts_of_get. }
  unfold contains_secret in Hc.
  assert (In secret (List.filter (fun s => negb (is_empty s)) (map snd (ResultPolicy.injected policy)))) as Hs.
  { apply filter_In. split; [apply in_map_iff; by exists (id, secret)|by destruct secret]. }
  destruct (bool_decide _) eqn:Hb; cbn [negb andb] in Hc.
  - apply bool_decide_eq_true in Hb. by rewrite Hb in Hs.
  - by eapply visit_texts.
Qed.
End Safety.

Definition sample_policy : ResultPolicy.ResultPolicy :=
  ResultPolicy.mk [] false [("integration:x", "token-7f3a9c")]%string [] [] (VArray []) false.
Definition sample_frame : Value :=
  VObject [("type", VString "result"); ("result", VObject [("value", VString "public")])]%string.
Lemma projection_shows_no_secret_witness :
  project (PF := utc_platform) (V := plain_vocabulary) (B := plain_base64) (X := silent_regexes) sample_frame sample_policy (fun _ => None)
    = inr (ProjectedResult (VObject [("value", VString "public")]%string))
  /\ has_sub "token-7f3a9c" "public" = false.
Proof.
  split; [vm_compute; reflexivity|].
  apply (projection_shows_no_secret (PF := utc_platform) (V := plain_vocabulary) (B := plain_base64) (X := silent_regexes) sample_frame
           sample_policy (fun _ => None) (ProjectedResult (VObject [("value", VString "public")]%string)) "integration:x" "token-7f3a9c"
           (VObject [("value", VString "public")]%string)); [vm_compute; reflexivity|by left|done|reflexivity|left; vm_compute; auto].
Defined.
