(* ===== verification/ExecFrames.v ===== *)
(** * The frames of one Action process

    [action/src/frames/mod.rs]: Docker's multiplexed output read incrementally
    within one bound, the lines of provider calls, and the loop that writes the
    invocation and the replies while it reads. *)

From stdpp Require Import base tactics list strings pretty.
From Stdlib Require Import ZArith Lia Ascii.
From S2P Require Import Prelude Text Json Reader Utf8 ReaderSafety Floats RoundTrip Causes.

#[local] Open Scope Z_scope.

Definition FRAME_HEADER_BYTES : nat := 8.
Definition CHUNK_BYTES : nat := 64 * 1024.

Inductive FrameError : Type :=
| FrameTimeout
| FrameInvalid (c : Cause.Cause)
| FrameTransport (c : Cause.Cause).
Definition frame_invalid (c : Condition.Condition) : FrameError := FrameInvalid (cause_new c Phase.Exchange).
Definition frame_transport (c : Condition.Condition) : FrameError := FrameTransport (cause_new c Phase.Exchange).
Definition too_large (bytes : Z) : FrameError := FrameInvalid (output_too_large bytes Phase.Exchange).

(** [Result<T, FrameError>]. *)
Definition framed_result (A : Type) : Type := (FrameError + A)%type.
#[global] Instance framed_ret : MRet framed_result := fun A a => inr a.
#[global] Instance framed_bind : MBind framed_result := fun A B f m => match m with inl e => inl e | inr a => f a end.

Module FrameReader.
Record FrameReader : Type := mk {
  maximum : Z;
  pending : list ascii;
  stdout : list ascii;
  stderr : list ascii;
  terminal : option nat
}.
#[global] Instance eta_reader : Eta FrameReader := fun r => mk (maximum r) (pending r) (stdout r) (stderr r) (terminal r).
End FrameReader.
#[global] Instance upd_reader_pending : Upd FrameReader.pending := ltac:(solve_upd).
#[global] Instance upd_reader_stdout : Upd FrameReader.stdout := ltac:(solve_upd).
#[global] Instance upd_reader_terminal : Upd FrameReader.terminal := ltac:(solve_upd).

(** [FrameReader::new]. *)
Definition reader_new (maximum : Z) : FrameReader.FrameReader := FrameReader.mk maximum [] [] [] None.

(** The header of a frame: its stream and the length it announces, big endian. *)
Definition frame_length (b4 b5 b6 b7 : ascii) : Z :=
  ((byte_code b4 * 256 + byte_code b5) * 256 + byte_code b6) * 256 + byte_code b7.

(** One turn of [feed]'s loop: nothing complete is left, a refusal, or the reader
    after one more frame. *)
Inductive turn : Type :=
| TurnWait
| TurnRefused (e : FrameError)
| TurnFrame (r : FrameReader.FrameReader).
Definition feed_turn (r : FrameReader.FrameReader) : turn :=
  match FrameReader.pending r with
  | stream :: _ :: _ :: _ :: b4 :: b5 :: b6 :: b7 :: body =>
      let length_ := frame_length b4 b5 b6 b7 in
      if negb ((byte_code stream =? 1) || (byte_code stream =? 2)) then TurnRefused (frame_invalid Condition.StreamUnknown)
      else if FrameReader.maximum r + 1 <? length_ then TurnRefused (too_large length_)
      else if len body <? length_ then TurnWait
      else
        let payload := take (Z.to_nat length_) body in
        let rest := drop (Z.to_nat length_) body in
        let next :=
          if byte_code stream =? 1
          then FrameReader.mk (FrameReader.maximum r) rest (FrameReader.stdout r ++ payload) (FrameReader.stderr r) (FrameReader.terminal r)
          else FrameReader.mk (FrameReader.maximum r) rest (FrameReader.stdout r) (FrameReader.stderr r ++ payload) (FrameReader.terminal r) in
        let held := len (FrameReader.stdout next) + len (FrameReader.stderr next) in
        if FrameReader.maximum r <? held then TurnRefused (too_large held) else TurnFrame next
  | _ => TurnWait
  end.
(** The loop: a frame drops its eight header bytes at least, so the pending bytes
    bound the turns. *)
Fixpoint feed_loop (turns : nat) (r : FrameReader.FrameReader) : framed_result FrameReader.FrameReader :=
  match turns with
  | O => inr r
  | S turns =>
      match feed_turn r with
      | TurnWait => inr r
      | TurnRefused e => inl e
      | TurnFrame next => feed_loop turns next
      end
  end.
Definition feed (r : FrameReader.FrameReader) (data : list ascii) : framed_result FrameReader.FrameReader :=
  let r := r <| FrameReader.pending := FrameReader.pending r ++ data |> in
  feed_loop (S (length (FrameReader.pending r))) r.

(** [position(|byte| byte == b'\n')]. *)
Definition newline : ascii := byte_of 0x0a.
Fixpoint position (c : ascii) (l : list ascii) : option nat :=
  match l with
  | [] => None
  | a :: l' => if byte_code a =? byte_code c then Some O else option_map S (position c l')
  end.

Definition next_call (r : FrameReader.FrameReader) : framed_result (FrameReader.FrameReader * option Value) :=
  found ←
    match FrameReader.terminal r, position newline (FrameReader.stdout r) with
    | None, Some end_ =>
        match json_parse (String.string_of_list_ascii (take end_ (FrameReader.stdout r))) with
        | None => inl (frame_invalid Condition.LineNotJson)
        | Some line =>
            if is_object line && match get line "type" with Some v => is_str v "fetch" | None => false end
            then inr (r <| FrameReader.stdout := drop (S end_) (FrameReader.stdout r) |>, Some line)
            else inr (r <| FrameReader.terminal := Some (S end_) |>, None)
        end
    | _, _ => inr (r, None)
    end;
  let '(r, frame) := found in
  if match FrameReader.terminal r with Some terminal => (terminal <? length (FrameReader.stdout r))%nat | None => false end
  then inl (frame_invalid Condition.OutputAfterTerminal)
  else inr (r, frame).

(** [finish]. *)
Definition reader_finish (r : FrameReader.FrameReader) : framed_result (list ascii * list ascii) :=
  if bool_decide (FrameReader.pending r = []) then inr (FrameReader.stdout r, FrameReader.stderr r)
  else inl (frame_invalid Condition.FrameTruncated).

(** ** The exchange

    [CallBroker] over a state [K]: the answer to a call frame, the number of
    calls, and the release of the last reply. *)
Class CallBroker (K : Type) : Type := {
  broker_answer : Value -> K -> K * framed_result (list ascii);
  broker_calls : K -> nat;
  broker_release : K -> K
}.

(** What the stream does next. *)
Inductive io : Type :=
| Wrote (written : nat)
| WriteFailed
| ReadBytes (data : list ascii)
| ReadFailed.

Module Exchange.
Record Exchange {K : Type} : Type := mk {
  frames : FrameReader.FrameReader;
  pending : list ascii;
  closed : bool;
  broker : option K
}.
Arguments Exchange : clear implicits.
End Exchange.

Section Run.
  Context {K : Type} `{!CallBroker K}.
  Abbreviation X := (Exchange.Exchange K).

(** The start of the loop: the invocation, one line when calls may follow. *)
Definition exchange_start (data : list ascii) (maximum : Z) (broker : option K) : X :=
  Exchange.mk _ (reader_new maximum) (match broker with Some _ => data ++ [newline] | None => data end) false broker.

(** [settle]. *)
Definition settle_write (event : io) (pending : list ascii) (replies : bool) : framed_result (list ascii) :=
  match event with
  | Wrote written => inr (drop written pending)
  | _ => if replies then inl (frame_transport Condition.ReplyWriteFailed) else inr []
  end.

(** [answer]: the last reply is released, then the next call line is answered. *)
Definition answer_call (broker : K) (frames : FrameReader.FrameReader)
  : K * framed_result (FrameReader.FrameReader * list ascii) :=
  let broker := broker_release broker in
  match next_call frames with
  | inl e => (broker, inl e)
  | inr (frames, None) => (broker, inr (frames, []))
  | inr (frames, Some frame) =>
      let '(broker, reply) := broker_answer frame broker in
      (broker, match reply with inl e => inl e | inr reply => inr (frames, reply ++ [newline]) end)
  end.

(** The rest of a turn of the loop: answer when nothing waits to be written. *)
Definition answered (x : X) : framed_result X :=
  match Exchange.broker x with
  | Some broker =>
      if bool_decide (Exchange.pending x = []) then
        match answer_call broker (Exchange.frames x) with
        | (broker, inr (frames, pending)) => inr (Exchange.mk _ frames pending (Exchange.closed x) (Some broker))
        | (_, inl e) => inl e
        end
      else inr x
  | None => inr x
  end.

(** One turn of [run]'s loop on what the stream did: the output at its end with
    the broker, an error, or the next state.  A write is tried only while
    something is pending. *)
Definition run_turn (x : X) (event : io) : framed_result (X + (option K * (list ascii * list ascii))) :=
  let replies := is_some (Exchange.broker x) in
  match event with
  | Wrote _ | WriteFailed =>
      if bool_decide (Exchange.pending x = []) then inr (inl x)
      else
        pending ← settle_write event (Exchange.pending x) replies;
        let closed := Exchange.closed x || (bool_decide (pending = []) && negb replies) in
        x ← answered (Exchange.mk _ (Exchange.frames x) pending closed (Exchange.broker x));
        inr (inl x)
  | ReadFailed => inl (frame_transport Condition.StreamFailed)
  | ReadBytes [] => output ← reader_finish (Exchange.frames x); inr (inr (Exchange.broker x, output))
  | ReadBytes data =>
      frames ← feed (Exchange.frames x) data;
      x ← answered (Exchange.mk _ frames (Exchange.pending x) (Exchange.closed x) (Exchange.broker x));
      inr (inl x)
  end.
Fixpoint run_exchange (x : X) (events : list io) : framed_result (X + (option K * (list ascii * list ascii))) :=
  match events with
  | [] => inr (inl x)
  | event :: events =>
      match run_turn x event with
      | inr (inl x) => run_exchange x events
      | ended => ended
      end
  end.

(** [exchange]: what the stream does before the deadline decides; the last reply
    is released at the end. *)
Definition frames_exchange (data : list ascii) (maximum : Z) (broker : option K) (events : list io)
  : framed_result (option K * (list ascii * list ascii)) :=
  match run_exchange (exchange_start data maximum broker) events with
  | inl e => inl e
  | inr (inr (broker, output)) => inr (option_map broker_release broker, output)
  | inr (inl _) => inl FrameTimeout
  end.
End Run.

(** ** Reading in chunks *)
Definition plus (r : FrameReader.FrameReader) (data : list ascii) : FrameReader.FrameReader :=
  r <| FrameReader.pending := FrameReader.pending r ++ data |>.

(** The loop as a relation, free of the count of turns. *)
Inductive runs : FrameReader.FrameReader -> framed_result FrameReader.FrameReader -> Prop :=
| runs_wait r : feed_turn r = TurnWait -> runs r (inr r)
| runs_refused r e : feed_turn r = TurnRefused e -> runs r (inl e)
| runs_frame r n res : feed_turn r = TurnFrame n -> runs n res -> runs r res.

Lemma runs_functional r a b : runs r a -> runs r b -> a = b.
Proof. intros H. revert b. induction H; inversion 1; subst; try congruence. assert (n = n0) as <- by congruence. auto. Qed.

Ltac header r :=
  destruct r as [maximum pending out err terminal]; cbn [FrameReader.pending FrameReader.maximum FrameReader.stdout FrameReader.stderr FrameReader.terminal] in *;
  destruct pending as [|stream [|p1 [|p2 [|p3 [|b4 [|b5 [|b6 [|b7 body]]]]]]]]; try done.

Lemma feed_turn_shrinks r n : feed_turn r = TurnFrame n ->
  (length (FrameReader.pending n) + 8 <= length (FrameReader.pending r))%nat.
Proof.
  unfold feed_turn. header r. cbv zeta. destruct (negb _); [done|]. destruct (_ <? frame_length _ _ _ _); [done|].
  destruct (len body <? _); [done|].
  destruct (byte_code stream =? 1); cbn [FrameReader.stdout FrameReader.stderr]; destruct (_ <? _ + _); try done;
    intros [= <-]; cbn [FrameReader.pending length]; rewrite length_drop; lia.
Qed.

Lemma feed_loop_runs turns r : (length (FrameReader.pending r) < turns)%nat -> runs r (feed_loop turns r).
Proof.
  revert r. induction turns as [|turns IH]; intros r Hl; [lia|]. cbn [feed_loop].
  destruct (feed_turn r) as [|e|n] eqn:H; [by apply runs_wait|by apply runs_refused|].
  eapply runs_frame; [done|]. apply IH. apply feed_turn_shrinks in H. lia.
Qed.

Lemma feed_runs r data res : feed r data = res <-> runs (plus r data) res.
Proof.
  unfold feed. fold (plus r data). pose proof (feed_loop_runs (S (length (FrameReader.pending (plus r data)))) (plus r data) ltac:(lia)) as H.
  split; [by intros <-|]. intros H'. by eapply runs_functional.
Qed.

(** More bytes behind a complete frame change nothing of it. *)
Lemma feed_turn_frame r n data : feed_turn r = TurnFrame n -> feed_turn (plus r data) = TurnFrame (plus n data).
Proof.
  unfold feed_turn, plus, upd, upd_reader_pending. header r. cbn [app]. cbv zeta. destruct (negb _); [done|].
  destruct (_ <? frame_length _ _ _ _); [done|]. destruct (Z.ltb_spec (len body) (frame_length b4 b5 b6 b7)) as [|Hl]; [done|].
  destruct (Z.ltb_spec (len (body ++ data)) (frame_length b4 b5 b6 b7)) as [Hl'|]; [rewrite len_app in Hl'; pose proof (len_nonneg data); lia|].
  unfold len in Hl. rewrite take_app_le, drop_app_le by lia.
  destruct (byte_code stream =? 1); cbn [FrameReader.stdout FrameReader.stderr]; destruct (_ <? _ + _); try done; by intros [= <-].
Qed.
Lemma feed_turn_refused r e data : feed_turn r = TurnRefused e -> feed_turn (plus r data) = TurnRefused e.
Proof.
  unfold feed_turn, plus, upd, upd_reader_pending. header r. cbn [app]. cbv zeta. destruct (negb _); [done|].
  destruct (_ <? frame_length _ _ _ _); [done|]. destruct (Z.ltb_spec (len body) (frame_length b4 b5 b6 b7)) as [|Hl]; [done|].
  destruct (Z.ltb_spec (len (body ++ data)) (frame_length b4 b5 b6 b7)) as [Hl'|]; [rewrite len_app in Hl'; pose proof (len_nonneg data); lia|].
  unfold len in Hl. rewrite take_app_le, drop_app_le by lia.
  by destruct (byte_code stream =? 1); cbn [FrameReader.stdout FrameReader.stderr]; destruct (_ <? _ + _).
Qed.

Lemma runs_plus r a res data : runs r a -> runs (plus r data) res ->
  match a with inl e => res = inl e | inr r' => runs (plus r' data) res end.
Proof.
  intros H. induction H as [r Hw|r e He|r n a Hf Hr IH]; intros Hres; [done| |].
  - apply (feed_turn_refused _ _ data) in He. inversion Hres; congruence.
  - apply (feed_turn_frame _ _ data) in Hf. apply IH. inversion Hres; subst; congruence.
Qed.

Lemma plus_plus r a b : plus (plus r a) b = plus r (a ++ b).
Proof. destruct r. unfold plus, upd, upd_reader_pending. cbn [FrameReader.pending FrameReader.maximum]. by rewrite <- app_assoc. Qed.

Lemma feed_app r a b : feed r (a ++ b) = (r' ← feed r a; feed r' b).
Proof.
  pose proof (proj1 (feed_runs r a _) eq_refl) as Ha. pose proof (proj1 (feed_runs r (a ++ b) _) eq_refl) as Hab.
  rewrite <- plus_plus in Hab. pose proof (runs_plus _ _ _ b Ha Hab) as H. unfold mbind, framed_bind.
  destruct (feed r a) as [e|r']; [done|]. symmetry. by apply feed_runs.
Qed.

(** ** Frames *)
Module Frame.
Record Frame : Type := mk { error : bool; padding : ascii * ascii * ascii; payload : list ascii }.
End Frame.
Definition be32 (n : Z) : list ascii :=
  [byte_of (n / 16777216 mod 256); byte_of (n / 65536 mod 256); byte_of (n / 256 mod 256); byte_of (n mod 256)].
Definition encode_frame (f : Frame.Frame) : list ascii :=
  let '(p1, p2, p3) := Frame.padding f in
  byte_of (if Frame.error f then 2 else 1) :: p1 :: p2 :: p3 :: be32 (len (Frame.payload f)) ++ Frame.payload f.
(** What the frames of one stream carry. *)
Definition carried (error : bool) (fs : list Frame.Frame) : list ascii :=
  concat (map Frame.payload (List.filter (fun f => Bool.eqb (Frame.error f) error) fs)).

Lemma carried_one b error padding payload :
  carried b [Frame.mk error padding payload] = if Bool.eqb error b then payload else [].
Proof.
  unfold carried. cbn [List.filter Frame.error]. destruct (Bool.eqb error b); [|done].
  cbn [map concat Frame.payload]. apply app_nil_r.
Qed.
Lemma carried_cons b f fs : carried b (f :: fs) = carried b [f] ++ carried b fs.
Proof.
  unfold carried. cbn [List.filter]. destruct (Bool.eqb _ _); [|done]. cbn [map concat]. by rewrite app_nil_r.
Qed.

Lemma be32_length n : 0 <= n < 2 ^ 32 ->
  match be32 n with [b4; b5; b6; b7] => frame_length b4 b5 b6 b7 = n | _ => False end.
Proof.
  intros H. unfold be32, frame_length. rewrite !byte_code_of by (apply Z.mod_pos_bound; lia).
  Z.to_euclidean_division_equations; lia.
Qed.
Lemma be32_of b4 b5 b6 b7 : be32 (frame_length b4 b5 b6 b7) = [b4; b5; b6; b7].
Proof.
  unfold be32, frame_length.
  pose proof (byte_code_range b4). pose proof (byte_code_range b5). pose proof (byte_code_range b6). pose proof (byte_code_range b7).
  set (n := ((byte_code b4 * 256 + byte_code b5) * 256 + byte_code b6) * 256 + byte_code b7).
  assert (n / 16777216 mod 256 = byte_code b4 /\ n / 65536 mod 256 = byte_code b5 /\ n / 256 mod 256 = byte_code b6
          /\ n mod 256 = byte_code b7) as (-> & -> & -> & ->).
  { subst n. split_and!; Z.to_euclidean_division_equations; lia. }
  by rewrite !byte_of_code.
Qed.

(** A turn takes exactly one frame off the pending bytes. *)
Lemma feed_turn_decodes r n : feed_turn r = TurnFrame n ->
  exists f, FrameReader.pending r = encode_frame f ++ FrameReader.pending n
  /\ FrameReader.stdout n = FrameReader.stdout r ++ carried false [f]
  /\ FrameReader.stderr n = FrameReader.stderr r ++ carried true [f]
  /\ FrameReader.maximum n = FrameReader.maximum r
  /\ len (FrameReader.stdout n) + len (FrameReader.stderr n) <= FrameReader.maximum r.
Proof.
  unfold feed_turn. header r. cbv zeta. destruct (negb _) eqn:Hs; [done|]. apply negb_false_iff, orb_true_iff in Hs.
  destruct (_ <? frame_length _ _ _ _); [done|]. destruct (Z.ltb_spec (len body) (frame_length b4 b5 b6 b7)) as [|Hl]; [done|].
  pose proof (byte_code_range b4). pose proof (byte_code_range b5). pose proof (byte_code_range b6). pose proof (byte_code_range b7).
  set (payload := take (Z.to_nat (frame_length b4 b5 b6 b7)) body).
  assert (len payload = frame_length b4 b5 b6 b7) as Hp.
  { subst payload. unfold len in *. rewrite length_take. unfold frame_length in *. lia. }
  assert (forall error, byte_code stream = (if error : bool then 2 else 1) ->
    stream :: p1 :: p2 :: p3 :: b4 :: b5 :: b6 :: b7 :: body
    = encode_frame (Frame.mk error (p1, p2, p3) payload) ++ drop (Z.to_nat (frame_length b4 b5 b6 b7)) body) as He.
  { intros error Hc. unfold encode_frame. cbn [Frame.error Frame.padding Frame.payload]. rewrite Hp, be32_of. cbn [app].
    rewrite <- Hc, byte_of_code. repeat f_equal. subst payload. by rewrite take_drop. }
  assert (byte_code stream = 1 \/ byte_code stream = 2) as Hs' by (destruct Hs as [Hs|Hs]; apply Z.eqb_eq in Hs; auto).
  destruct (Z.eqb_spec (byte_code stream) 1) as [E1|E1]; cbn [FrameReader.stdout FrameReader.stderr];
    (match goal with |- context [maximum <? ?held] => destruct (Z.ltb_spec maximum held) as [|Hm]; [done|] end); intros [= <-].
  - exists (Frame.mk false (p1, p2, p3) payload). cbn [FrameReader.pending FrameReader.stdout FrameReader.stderr FrameReader.maximum].
    rewrite !carried_one. cbn [Bool.eqb]. rewrite app_nil_r. split_and!; try done. by apply He.
  - exists (Frame.mk true (p1, p2, p3) payload). cbn [FrameReader.pending FrameReader.stdout FrameReader.stderr FrameReader.maximum].
    rewrite !carried_one. cbn [Bool.eqb]. rewrite app_nil_r. split_and!; try done. apply He. lia.
Qed.

Lemma feed_turn_encoded maximum f rest out err terminal :
  0 <= maximum < 2 ^ 32 - 1 ->
  len (out ++ carried false [f]) + len (err ++ carried true [f]) <= maximum ->
  feed_turn (FrameReader.mk maximum (encode_frame f ++ rest) out err terminal)
  = TurnFrame (FrameReader.mk maximum rest (out ++ carried false [f]) (err ++ carried true [f]) terminal).
Proof.
  destruct f as [error [[p1 p2] p3] payload]. intros Hmax Hheld.
  assert (0 <= len payload <= maximum) as Hp.
  { pose proof (len_nonneg payload). pose proof (len_nonneg out). pose proof (len_nonneg err).
    rewrite !carried_one, !len_app in Hheld. destruct error; cbn [Bool.eqb] in Hheld; change (len (@nil ascii)) with 0 in Hheld; lia. }
  unfold encode_frame. cbn [Frame.error Frame.padding Frame.payload].
  pose proof (be32_length (len payload) ltac:(lia)) as Hb. destruct (be32 (len payload)) as [|b4 [|b5 [|b6 [|b7 []]]]]; try done.
  unfold feed_turn. cbn [FrameReader.pending FrameReader.maximum FrameReader.stdout FrameReader.stderr FrameReader.terminal app].
  rewrite Hb. cbv zeta. rewrite byte_code_of by (destruct error; lia).
  assert ((negb (((if error then 2 else 1) =? 1) || ((if error then 2 else 1) =? 2))) = false) as -> by (by destruct error).
  destruct (Z.ltb_spec (maximum + 1) (len payload)); [lia|].
  destruct (Z.ltb_spec (len (payload ++ rest)) (len payload)); [rewrite len_app in *; pose proof (len_nonneg rest); lia|].
  unfold len. rewrite Nat2Z.id, take_app_length, drop_app_length.
  rewrite !carried_one in *. destruct error; cbn [Z.eqb Pos.eqb Bool.eqb FrameReader.stdout FrameReader.stderr] in *;
    rewrite app_nil_r in *; unfold len in Hheld;
    (match goal with |- context [maximum <? ?held] => destruct (Z.ltb_spec maximum held); [lia|done] end).
Qed.

(** ** The demultiplexer *)
Fixpoint feeds (r : FrameReader.FrameReader) (chunks : list (list ascii)) : framed_result FrameReader.FrameReader :=
  match chunks with
  | [] => inr r
  | chunk :: chunks => r ← feed r chunk; feeds r chunks
  end.

Lemma runs_waits r r' : runs r (inr r') -> feed_turn r' = TurnWait.
Proof. intros H. remember (inr r') as res eqn:E. induction H; [by simplify_eq|done|auto]. Qed.

Lemma plus_nil r : plus r [] = r.
Proof. destruct r. unfold plus, upd, upd_reader_pending. cbn. by rewrite app_nil_r. Qed.

Lemma feeds_concat r chunks : feed_turn r = TurnWait -> feeds r chunks = feed r (concat chunks).
Proof.
  revert r. induction chunks as [|chunk chunks IH]; intros r Hw; cbn [feeds concat].
  - symmetry. apply feed_runs. rewrite plus_nil. by apply runs_wait.
  - rewrite feed_app. unfold mbind, framed_bind. destruct (feed r chunk) as [e|r'] eqn:H; [done|]. apply IH.
    apply feed_runs in H. by eapply runs_waits.
Qed.

Definition held (r : FrameReader.FrameReader) : Z := len (FrameReader.stdout r) + len (FrameReader.stderr r).

Lemma runs_decodes r r' : runs r (inr r') -> exists fs,
  FrameReader.pending r = concat (map encode_frame fs) ++ FrameReader.pending r'
  /\ FrameReader.stdout r' = FrameReader.stdout r ++ carried false fs
  /\ FrameReader.stderr r' = FrameReader.stderr r ++ carried true fs
  /\ (held r <= FrameReader.maximum r -> held r' <= FrameReader.maximum r).
Proof.
  intros H. remember (inr r') as res eqn:E. induction H as [r Hw|r e He|r n res Hf _ IH]; [|done|].
  - simplify_eq. exists []. cbn. by rewrite !app_nil_r.
  - destruct (IH E) as (fs & Hp & Ho & Hs & Hh). apply feed_turn_decodes in Hf as (f & Hp' & Ho' & Hs' & Hm & Hh').
    exists (f :: fs). rewrite !(carried_cons _ f fs), Hp', Hp, Ho, Hs, Ho', Hs'. cbn [map concat]. rewrite <- !app_assoc. rewrite Hm in Hh.
    split_and!; try done. intros _. apply Hh. done.
Qed.

Lemma runs_encoded maximum fs out err terminal :
  0 <= maximum < 2 ^ 32 - 1 -> len (out ++ carried false fs) + len (err ++ carried true fs) <= maximum ->
  runs (FrameReader.mk maximum (concat (map encode_frame fs)) out err terminal)
       (inr (FrameReader.mk maximum [] (out ++ carried false fs) (err ++ carried true fs) terminal)).
Proof.
  intros Hmax. revert out err. induction fs as [|f fs IH]; intros out err Hh.
  - cbn. rewrite !app_nil_r. by apply runs_wait.
  - cbn [map concat]. rewrite !(carried_cons _ f fs), !app_assoc in *. eapply runs_frame; [apply feed_turn_encoded; [done|]|by apply IH].
    rewrite !len_app in *. pose proof (len_nonneg (carried false fs)). pose proof (len_nonneg (carried true fs)). lia.
Qed.

(** C39. However the output of a process is cut into reads, the reader ends with
    its standard output and its standard error exactly when the bytes are whole
    frames of those two streams that fit the bound together; any other output is
    refused. *)
Theorem demultiplexed (maximum : Z) (chunks : list (list ascii)) (out err : list ascii) :
  0 <= maximum < 2 ^ 32 - 1 ->
  (r ← feeds (reader_new maximum) chunks; reader_finish r) = inr (out, err)
  <-> exists fs, concat chunks = concat (map encode_frame fs) /\ out = carried false fs /\ err = carried true fs
      /\ len out + len err <= maximum.
Proof.
  intros Hmax. rewrite feeds_concat by done. split.
  - unfold mbind, framed_bind. destruct (feed _ _) as [e|r'] eqn:H; [done|]. apply feed_runs, runs_decodes in H as (fs & Hp & Ho & Hs & Hh).
    unfold reader_finish. destruct (bool_decide (FrameReader.pending r' = [])) eqn:Hb; [|done]. apply bool_decide_eq_true in Hb.
    intros [= <- <-]. rewrite Hb, app_nil_r in Hp. exists fs. split_and!; [done..|]. apply Hh. change (0 <= maximum). lia.
  - intros (fs & Hc & -> & -> & Hh). rewrite Hc.
    assert (feed (reader_new maximum) (concat (map encode_frame fs)) = inr (FrameReader.mk maximum [] (carried false fs) (carried true fs) None)) as ->; [|done].
    apply feed_runs. by apply (runs_encoded maximum fs [] [] None).
Qed.

Lemma demultiplexed_witness :
  (r ← feeds (reader_new 4) [encode_frame (Frame.mk false ("."%char, "."%char, "."%char) ["o"%char; "k"%char])
                               ++ [byte_of 2; byte_of 0; byte_of 0];
                             [byte_of 0; byte_of 0; byte_of 0; byte_of 0; byte_of 1; "e"%char]]; reader_finish r)
  = inr (["o"%char; "k"%char], ["e"%char]).
Proof.
  apply (demultiplexed 4); [lia|].
  exists [Frame.mk false ("."%char, "."%char, "."%char) ["o"%char; "k"%char]; Frame.mk true (byte_of 0, byte_of 0, byte_of 0) ["e"%char]].
  vm_compute. by repeat split.
Defined.
