(* ===== verification/Rpc.v ===== *)
(** * One Action RPC

    [action/src/rpc/mod.rs]: the invocation of one logical operation, the process
    that runs it, and what Team concludes when it does not end well: nothing ran,
    or the workload is fail-stopped. *)

From stdpp Require Import base tactics list strings pretty.
From Stdlib Require Import ZArith Lia Ascii.
From S2P Require Import Prelude Text Json Reader Utf8 ReaderSafety Floats RoundTrip Causes Calendar Platform Requests ExecFrames Journal.

#[local] Open Scope Z_scope.

Definition ACTION_COMMAND : string := "/usr/local/bin/shimpz-action".
Definition ASSISTANT_RPC_USER : string := "10001:10001".
Definition ASSISTANT_WORKDIR : string := "/tmp".
Definition MAX_RPC_RESPONSE_BYTES : Z := 512 * 1024.
Definition MAX_RPC_REQUEST_BYTES : Z := MAX_INVOCATION_BYTES.
Definition OPERATION_ID_PLACEHOLDER : string := "00000000-0000-4000-8000-000000000000".
Definition INVOCATION_JSON : Options := mkOptions true false true.

(** ** The invocation *)
Definition invocation_value (input : Value) (stored_inputs : list string) (files : Value) (operation_id : string)
  (responses : list Value) : Value :=
  VObject ([("input", input); ("stored_inputs", VArray (map VString (stable_sort sleb stored_inputs))); ("files", files);
            ("operation_id", VString operation_id)]%string
           ++ match responses with [] => [] | _ => [("responses"%string, VArray responses)] end).
(** [InvocationTooLarge] is [inl tt]. *)
Definition encode_invocation (input : Value) (stored_inputs : list string) (files : Value) (operation_id : string)
  (responses : list Value) : unit + string :=
  if negb (operation_id =s OPERATION_ID_PLACEHOLDER) && negb (valid_operation_id operation_id) then inl tt
  else
    let invocation := invocation_value input stored_inputs files operation_id responses in
    let encoded := dumps INVOCATION_JSON invocation in
    let bound := if delivers_content invocation then MAX_FILE_INVOCATION_BYTES else MAX_RPC_REQUEST_BYTES in
    if bound <? slen encoded then inl tt else inr encoded.

(** ** Failures *)
Inductive RpcFailure : Type := RpcTimeout | RpcAmbiguous | RpcInvalidResult | RpcFailed.
#[global] Instance rpc_failure_eq_dec : EqDecision RpcFailure.
Proof. solve_decision. Defined.
Definition rpc_status (f : RpcFailure) : Z := if bool_decide (f = RpcTimeout) then 504 else 502.
Definition rpc_message (f : RpcFailure) : string * string :=
  match f with
  | RpcTimeout => ("Assistant Action timed out", "assistant-timeout")
  | RpcAmbiguous => ("Assistant Action status is ambiguous", "assistant-rpc-failed")
  | RpcInvalidResult => ("Assistant Action returned an invalid result", "assistant-rpc-failed")
  | RpcFailed => ("Assistant Action failed", "assistant-rpc-failed")
  end%string.

Inductive RpcError : Type :=
| NotDispatched_ (c : Cause.Cause)
| Blocked_ (c : Cause.Cause)
| Failed_ (kind : RpcFailure) (c : Cause.Cause).

Definition routine_condition (c : Cause.Cause) : string :=
  match Cause.condition c with
  | Condition.DeadlinePassed =>
      if bool_decide (Cause.phase c = Phase.ExitInspection) then "exit-unavailable" else "timeout"
  | Condition.ExitStatus => "exit-status:" +:+ pretty (default 0 (Cause.exit_code c))
  | Condition.StderrOutput => "stderr-output"
  | Condition.ExitUnavailable | Condition.StillRunning => "exit-unavailable"
  | Condition.Stopped => Condition.as_str Condition.Stopped
  | Condition.RequestAfterProviderCall => Condition.as_str Condition.RequestAfterProviderCall
  | _ => if bool_decide (cause_kind c = Kind.AssistantOutputInvalid) then "frame-invalid" else "transport-failed"
  end.

(** [terminal]: no request follows a provider call. *)
Definition invalid_terminal (c : Condition.Condition) : RpcError :=
  Failed_ RpcInvalidResult (cause_new c Phase.ResultValidation).
Definition terminal (stdout : list ascii) (calls : nat) : RpcError + Value :=
  match json_parse (String.string_of_list_ascii stdout) with
  | None => inl (invalid_terminal Condition.LineNotJson)
  | Some response =>
      if negb (is_object response) then inl (invalid_terminal Condition.TerminalNotObject)
      else if (0 <? calls)%nat && match get response "type" with Some v => is_str v "request" | None => false end
      then inl (invalid_terminal Condition.RequestAfterProviderCall)
      else inr response
  end.

(** ** The engine

    [ExecEngine], [DockerSlots] and [Stop] over a state [W]: a slot before the
    deadline, whether Stop is set, starting the exec ([None] when the deadline
    passed first), what its stream does, its exit, fail-stopping a workload, and
    whether Stop came while the exec may have run. *)
Module ExecSpec.
Record ExecSpec : Type := mk {
  container : string;
  argv : list string;
  user : string;
  working_dir : option string;
  env : list string;
  stdin : bool
}.
End ExecSpec.
Definition action_exec (container action : string) : ExecSpec.ExecSpec :=
  ExecSpec.mk container [ACTION_COMMAND; action] ASSISTANT_RPC_USER (Some ASSISTANT_WORKDIR) [] true.

Module ExecExit.
Record ExecExit : Type := mk { running : bool; exit_code : option Z }.
End ExecExit.

Class ExecEngine (W : Type) : Type := {
  slot_admit : bool -> W -> W * bool;
  is_stopped : W -> bool;
  start_exec : ExecSpec.ExecSpec -> W -> W * option bool;
  stream_events : W -> W * list io;
  inspect_exec : W -> W * option (option ExecExit.ExecExit);
  fail_stop_workload : string -> W -> W * bool;
  stop_interrupts : W -> W * bool
}.

(** What an RPC did to its workload. *)
Inductive deed : Type :=
| Started (container : string)
| FailStopped (container : string) (stopped : bool).

Section Exchange.
  Context {W K : Type} `{!ExecEngine W} `{!CallBroker K}.

(** A call of the engine: the state, the deeds so far, and its answer. *)
Definition rpc (A : Type) : Type := W * list deed -> (W * list deed) * A.
Definition engine {A} (call : W -> W * A) : rpc A := fun '(w, log) => let '(w, a) := call w in ((w, log), a).
Definition records (d : deed) : rpc unit := fun '(w, log) => ((w, log ++ [d]), tt).
#[local] Instance rpc_ret : MRet rpc := fun A a s => (s, a).
#[local] Instance rpc_bind : MBind rpc := fun A B f m s => let '(s, a) := m s in f a s.

(** [not_dispatched]. *)
Definition rpc_not_dispatched (w : W) : RpcError :=
  NotDispatched_ (cause_new (if is_stopped w then Condition.Stopped else Condition.SlotTimeout) Phase.SlotAdmission).

(** [inspect]: the exit code of the ended process. *)
Definition inspected : rpc ((RpcFailure * Cause.Cause) + Z) :=
  let because kind condition := inl (kind, cause_new condition Phase.ExitInspection) in
  permit ← engine (slot_admit false);
  if negb permit then mret (because RpcTimeout Condition.DeadlinePassed)
  else
    answer ← engine inspect_exec;
    mret match answer with
         | None => because RpcTimeout Condition.DeadlinePassed
         | Some None => because RpcAmbiguous Condition.ExitUnavailable
         | Some (Some exit) =>
             if ExecExit.running exit then because RpcAmbiguous Condition.StillRunning
             else match ExecExit.exit_code exit with
                  | Some code => inr code
                  | None => because RpcAmbiguous Condition.ExitUnavailable
                  end
         end.

(** [run]: the exchange and the exit of the started process. *)
Definition run_started (encoded : list ascii) (broker : option K) : rpc ((RpcFailure * Cause.Cause) + (list ascii * nat)) :=
  events ← engine stream_events;
  match frames_exchange encoded MAX_RPC_RESPONSE_BYTES broker events with
  | inl FrameTimeout => mret (inl (RpcTimeout, cause_new Condition.DeadlinePassed Phase.Exchange))
  | inl (FrameInvalid c) | inl (FrameTransport c) => mret (inl (RpcFailed, c))
  | inr (broker, (stdout, stderr)) =>
      let calls := match broker with Some broker => broker_calls broker | None => O end in
      exit ← inspected;
      mret match exit with
           | inl (kind, c) => inl (kind, with_stderr c (len stderr))
           | inr code =>
               if negb (code =? 0) then inl (RpcFailed, with_stderr (exit_status code) (len stderr))
               else if negb (bool_decide (stderr = [])) then inl (RpcFailed, stderr_output (len stderr))
               else inr (stdout, calls)
           end
  end.

(** The exec may have started from here on. *)
Definition attempt_exec (spec : ExecSpec.ExecSpec) (encoded : list ascii) (broker : option K)
  : rpc ((RpcFailure * Cause.Cause) + (list ascii * nat)) :=
  _ ← records (Started (ExecSpec.container spec));
  started ← engine (start_exec spec);
  match started with
  | None => mret (inl (RpcTimeout, cause_new Condition.DeadlinePassed Phase.ExecStart))
  | Some false => mret (inl (RpcFailed, cause_new Condition.ExecStartFailed Phase.ExecStart))
  | Some true => run_started encoded broker
  end.

(** [fail_stop]. *)
Definition fail_stop (container : string) (kind : RpcFailure) (c : Cause.Cause) : rpc RpcError :=
  stopped ← engine (fail_stop_workload container);
  _ ← records (FailStopped container stopped);
  mret (if stopped : bool then Failed_ kind (with_cleanup c Cleanup.WorkloadStopped)
        else Blocked_ (with_cleanup c Cleanup.WorkloadStopUnconfirmed)).

(** [exchange].  A Stop that comes while the exec may run wins over its answer. *)
Definition rpc_exchange (container action : string) (encoded : list ascii) (broker : option K) : rpc (RpcError + Value) :=
  let spec := action_exec container action in
  permit ← engine (slot_admit true);
  stopped ← engine (fun w => (w, is_stopped w));
  if negb permit || stopped then error ← engine (fun w => (w, rpc_not_dispatched w)); mret (inl error)
  else
    outcome ← attempt_exec spec encoded broker;
    interrupted ← engine stop_interrupts;
    let outcome := if interrupted : bool
                   then inl (RpcAmbiguous, cause_new Condition.Stopped Phase.Exchange) else outcome in
    match outcome with
    | inr (stdout, calls) => mret (terminal stdout calls)
    | inl (kind, c) => error ← fail_stop container kind c; mret (inl error)
    end.

(** ** What an RPC leaves behind *)
Definition left_behind (container : string) (log : list deed) (answer : RpcError + Value) : Prop :=
  match answer with
  | inl (NotDispatched_ _) => log = []
  | inl (Blocked_ c) => log = [Started container; FailStopped container false]
      /\ Cause.cleanup c = Some Cleanup.WorkloadStopUnconfirmed
  | inl (Failed_ kind c) =>
      (log = [Started container; FailStopped container true] /\ Cause.cleanup c = Some Cleanup.WorkloadStopped)
      \/ (log = [Started container] /\ kind = RpcInvalidResult)
  | inr v => log = [Started container] /\ is_object v = true
  end.

Lemma inspected_log w log : exists w' answer, inspected (w, log) = ((w', log), answer).
Proof.
  unfold inspected, mbind, rpc_bind, engine. destruct (slot_admit false w) as [w1 []]; cbn; [|eauto].
  destruct (inspect_exec w1) as [w2 answer]. eauto.
Qed.

Lemma attempt_exec_log spec encoded broker w log :
  exists w' answer, attempt_exec spec encoded broker (w, log) = ((w', log ++ [Started (ExecSpec.container spec)]), answer).
Proof.
  unfold attempt_exec, run_started, mbind, rpc_bind, engine, records. destruct (start_exec spec w) as [w1 [[]|]]; cbn; [|eauto..].
  destruct (stream_events w1) as [w2 events]. destruct (frames_exchange _ _ _ _) as [[|c|c]|[broker' [stdout stderr]]]; [eauto..|].
  destruct (inspected_log w2 (log ++ [Started (ExecSpec.container spec)])) as (w3 & exit & ->). eauto.
Qed.

Lemma rpc_left_behind (container action : string) (encoded : list ascii) (broker : option K) (w : W) :
  let '((_, log), answer) := rpc_exchange container action encoded broker (w, []) in left_behind container log answer.
Proof.
  unfold rpc_exchange. unfold mbind at 1, rpc_bind at 1, engine at 1. destruct (slot_admit true w) as [w1 permit].
  unfold mbind at 1, rpc_bind at 1, engine at 1. destruct (negb permit || is_stopped w1); [done|].
  unfold mbind at 1, rpc_bind at 1.
  destruct (attempt_exec_log (action_exec container action) encoded broker w1 []) as (w2 & answer & ->).
  unfold mbind at 1, rpc_bind at 1, engine at 1. destruct (stop_interrupts w2) as [w3 interrupted]. cbn [app ExecSpec.container action_exec].
  destruct (if interrupted then _ else answer) as [[kind c]|[stdout calls]].
  - unfold fail_stop, mbind, rpc_bind, engine, records. destruct (fail_stop_workload container w3) as [w4 []]; cbn; auto.
  - unfold terminal, mret, rpc_ret. destruct (json_parse _) as [v|]; [|by right]. destruct (is_object v) eqn:Ho; cbn [negb]; [|by right].
    destruct (_ && _); [by right|]. done.
Qed.

(** The process of an exec ended well: after its stream, the engine read its exit as
    ended with status 0. *)
Definition exited_well (spec : ExecSpec.ExecSpec) (w : W) : Prop :=
  let w := fst (stream_events (fst (start_exec spec w))) in
  exists exit, snd (inspect_exec (fst (slot_admit false w))) = Some (Some exit) /\ ExecExit.running exit = false /\ ExecExit.exit_code exit = Some 0.

Lemma inspected_exit w log w' code : inspected (w, log) = (w', inr code) ->
  exists exit, snd (inspect_exec (fst (slot_admit false w))) = Some (Some exit) /\ ExecExit.running exit = false /\ ExecExit.exit_code exit = Some code.
Proof.
  unfold inspected, mbind, rpc_bind, engine. destruct (slot_admit false w) as [w1 []]; cbn [negb fst]; [|done]. destruct (inspect_exec w1) as [w2 [[exit|]|]]; cbn [snd]; [|done..].
  destruct (ExecExit.running exit) eqn:Hr; [done|]. destruct (ExecExit.exit_code exit) as [c|] eqn:Hc; [|done]. unfold mret, rpc_ret. intros [= _ ->]. by exists exit.
Qed.
Lemma attempt_exited spec encoded broker w log s x : attempt_exec spec encoded broker (w, log) = (s, inr x) -> exited_well spec w.
Proof.
  unfold attempt_exec, run_started, mbind, rpc_bind, engine, records, exited_well. destruct (start_exec spec w) as [w1 [[]|]]; cbn [fst]; [|done..].
  destruct (stream_events w1) as [w2 events]. cbn [fst]. destruct (frames_exchange _ _ _ _) as [[|c|c]|[broker' [stdout stderr]]]; [done..|].
  destruct (inspected (w2, log ++ [Started (ExecSpec.container spec)])) as [s' [[kind c]|code]] eqn:Hi; [done|]. apply inspected_exit in Hi as (exit & H1 & H2 & H3).
  destruct (Z.eqb_spec code 0) as [-> |]; [|done]. cbn [negb]. intros _. by exists exit.
Qed.
Lemma rpc_exited (container action : string) (encoded : list ascii) (broker : option K) (w : W) :
  let '((_, log), _) := rpc_exchange container action encoded broker (w, []) in log = [Started container] -> exited_well (action_exec container action) (fst (slot_admit true w)).
Proof.
  unfold rpc_exchange. unfold mbind at 1, rpc_bind at 1, engine at 1. destruct (slot_admit true w) as [w1 permit]. cbn [fst].
  unfold mbind at 1, rpc_bind at 1, engine at 1. destruct (negb permit || is_stopped w1); [done|].
  unfold mbind at 1, rpc_bind at 1. destruct (attempt_exec_log (action_exec container action) encoded broker w1 []) as (w2 & answer & Ha). rewrite Ha.
  unfold mbind at 1, rpc_bind at 1, engine at 1. destruct (stop_interrupts w2) as [w3 interrupted]. cbn [app ExecSpec.container action_exec].
  destruct (if interrupted then _ else answer) as [[kind c]|[stdout calls]] eqn:Ho.
  - unfold fail_stop, mbind, rpc_bind, engine, records. destruct (fail_stop_workload container w3) as [w4 []]; by cbn.
  - destruct interrupted; [done|]. subst answer. cbn. intros _. by eapply attempt_exited.
Qed.

End Exchange.

(** ** An invalid result

    The process ends with status 0 and an array for its terminal frame: the RPC fails,
    and nothing is fail-stopped. *)
Definition array_engine : ExecEngine unit := {|
  slot_admit := fun _ w => (w, true);
  is_stopped := fun _ => false;
  start_exec := fun _ w => (w, Some true);
  stream_events := fun w => (w, [Wrote 0; ReadBytes (encode_frame (Frame.mk false (byte_of 0, byte_of 0, byte_of 0) ["["; "]"]%char)); ReadBytes []]);
  inspect_exec := fun w => (w, Some (Some (ExecExit.mk false (Some 0))));
  fail_stop_workload := fun _ w => (w, true);
  stop_interrupts := fun w => (w, false)
|}.
Definition silent_broker : CallBroker unit := {| broker_answer := fun _ k => (k, inr []); broker_calls := fun _ => O; broker_release := fun k => k |}.
