(* ===== verification/Runner.v ===== *)
(** * The Action executor

    [action/src/runner/mod.rs]: one attempt of an Action, from its reviewed
    binding to its projected outcome, over the collaborators the runner holds.
    The RPC is [Rpc], the journal is [Journal]; the Team's workloads, credential
    stores, storage, audit sink, file slot, provider broker and a Routine run's
    observer are [Collaborators] over a state of their own, and so is the runner's
    own random source. *)

From stdpp Require Import base tactics list strings pretty.
From Stdlib Require Import ZArith Lia Ascii.
From S2P Require Import Prelude Text Json Reader Utf8 ReaderSafety Floats RoundTrip Causes Calendar Platform Requests Human Redaction Executor.
From S2P Require Import ActionFiles ExecFrames Journal JournalSpec JournalHistory Projection Rpc.

#[local] Open Scope Z_scope.

(** ** Bindings *)
Module IntegrationDeclaration.
Record IntegrationDeclaration : Type := mk { id : string; provider : string; scopes : list string }.
End IntegrationDeclaration.
(** [RuntimeContract]: what of it the runner reads; a Stored Input's placement
    (host, header, query, scheme, hmac, routes) is kept as its document. *)
Module Contract.
Record Contract : Type := mk {
  actions : list ActionSpec.ActionSpec;
  integrations : list IntegrationDeclaration.IntegrationDeclaration;
  stored_inputs : list (string * Value);
  machine_contract : Value
}.
End Contract.
Module Binding.
Record Binding : Type := mk {
  contract : Contract.Contract;
  assistant_id : string;
  name : string;
  version : string;
  summary : string;
  container : string;
  image : string
}.
End Binding.
(** [RuntimeContract::action]. *)
Definition contract_action (c : Contract.Contract) (id : string) : option ActionSpec.ActionSpec :=
  List.find (fun a => ActionSpec.id a =s id) (Contract.actions c).

(** The Integration flow's view of a binding. *)
Module AssistantView.
Record AssistantView : Type := mk {
  assistant_id : string;
  version : string;
  name : string;
  summary : string;
  actions : list (string * string * list string);
  integrations : list (string * (string * list string))
}.
End AssistantView.
Definition assistant_view (b : Binding.Binding) : AssistantView.AssistantView :=
  AssistantView.mk (Binding.assistant_id b) (Binding.version b) (Binding.name b) (Binding.summary b)
    (map (fun a => (ActionSpec.id a, ActionSpec.summary a, ActionSpec.integrations a)) (Contract.actions (Binding.contract b)))
    (map (fun i => (IntegrationDeclaration.id i, (IntegrationDeclaration.provider i, IntegrationDeclaration.scopes i)))
       (Contract.integrations (Binding.contract b))).

(** ** Private values *)
Module Private.
Record Private : Type := mk { integrations : list (string * string); stored_inputs : list (string * string) }.
End Private.
Definition private_held (p : Private.Private) : list string := map fst (Private.stored_inputs p).
Definition private_injected (p : Private.Private) : list (string * string) :=
  map (fun e => ("integration:" +:+ fst e, snd e)) (Private.integrations p)
  ++ map (fun e => ("stored-input:" +:+ fst e, snd e)) (Private.stored_inputs p).

(** ** Attempts *)
Module Target.
Record Target : Type := mk {
  team : string;
  binding : Binding.Binding;
  action : ActionSpec.ActionSpec;
  operation_id : string
}.
End Target.
Module Delivery.
Record Delivery : Type := mk { file : option ActionFile.ActionFile; admitted : bool }.
End Delivery.
Inductive Outcome : Type :=
| Completed_ (result : Value)
| Request_ (request : HumanRequest.HumanRequest).
(** [runner::Failed]. *)
Inductive Failed : Type :=
| FailedNotDispatched (e : ActionError.ActionError)
| FailedHandled (c : Cause.Cause)
| FailedUncertain (e : ActionError.ActionError).
Definition failed_error (f : Failed) : ActionError.ActionError :=
  match f with
  | FailedNotDispatched e | FailedUncertain e => e
  | FailedHandled c => error_new ActionFailure.Failed c
  end.

Definition placements (b : Binding.Binding) (a : ActionSpec.ActionSpec) : list (string * Value) :=
  omap (fun id => List.find (fun declared => fst declared =s id) (Contract.stored_inputs (Binding.contract b)))
    (ActionSpec.stored_inputs a).

(** [schema_condition]. *)
Definition schema_condition (e : PayloadError) : Condition.Condition :=
  match e with
  | NotAnObject => Condition.ResultNotObject
  | TooDeep => Condition.ResultTooDeep
  | Invalid => Condition.ResultSchemaMismatch
  | Pattern _ => Condition.SchemaPatternUnevaluable
  | Arithmetic => Condition.ResultNumberUnevaluable
  | Unsupported => Condition.SchemaUnsupported
  end.

(** ** Collaborators *)
Module StoredValue.
Record StoredValue : Type := mk { value : string; generation : Z; origin : string }.
End StoredValue.
Inductive StoredInputError : Type := StoredMissing | StoredState.

(** What the broker of an attempt is given. *)
Module CallScope.
Record CallScope : Type := mk {
  team_id : string;
  assistant_id : string;
  action_id : string;
  operation_id : string;
  placements : list (string * Value);
  stored_inputs : list (string * string);
  integrations : list (string * string * option string);
  authorized : bool
}.
End CallScope.

Class Collaborators (W K : Type) : Type := {
  (** [Workloads::binding]. *)
  workload_binding : string -> string -> W -> W * (ActionFailure.ActionFailure + Binding.Binding);
  (** [flow::resolve_action_integrations] and [IntegrationStore::metadata]. *)
  resolve_integrations : string -> AssistantView.AssistantView -> string -> W -> W * option (list (string * string));
  integration_metadata : string -> string -> list (string * (string * list string)) -> W -> W * option (list (string * Z));
  (** [StoredInputStore]. *)
  resolve_stored_input : string * string * string -> W -> W * (StoredInputError + StoredValue.StoredValue);
  delete_stored_input : string * string * string -> W -> W;
  (** [FileSource::read] and the file slot. *)
  read_file : string -> string -> W -> W * option Stored.Stored;
  acquire_slot : W -> W * (ActionFailure.ActionFailure + unit);
  (** [AuditSink::record]. *)
  audit_record : list (string * Value) -> W -> W * option AuditUnavailable;
  (** [providers::resolve] and [Broker::new]. *)
  resolve_provider : string -> option string;
  new_broker : CallScope.CallScope -> K;
  (** [DispatchObserver]. *)
  logical_operation : ActionRequest.ActionRequest -> W -> option string;
  observe_dispatching : ActionRequest.ActionRequest -> string -> string -> list string -> W -> W * bool;
  observe_returned : ActionRequest.ActionRequest -> W -> W;
  observe_failed : ActionRequest.ActionRequest -> string -> Fault -> list string -> W -> W
}.

(** What happens, in order: the journal's calls, the processes an operation's
    attempts start and fail-stop, and direct invocations. *)
Inductive happening : Type :=
| Journaled (ev : event)
| Ran (operation_id : string) (d : deed)
| Direct.

Module World.
Record World {W F E : Type} : Type := mk {
  outside : W;
  journal : Journal.Journal F E;
  blocked : list string;
  happened : list happening
}.
Arguments World : clear implicits.
End World.

Section Runner.
  Context {W K F E : Type} `{!Engine F} `{!Entropy E} {PF : Platform} {V : Vocabulary} {B : Base64} {X : Regexes} {S : Schemas}.
  Context `{!Entropy W} `{!ExecEngine W} `{!CallBroker K} `{!Collaborators W K}.
  Abbreviation World := (World.World W F E).

(** *** Effects *)
Definition eff (A : Type) : Type := World -> World * A.
#[local] Instance eff_ret : MRet eff := fun A a s => (s, a).
#[local] Instance eff_bind : MBind eff := fun A B f m s => let '(s, a) := m s in f a s.
(** [Result]: the next step of a successful one. *)
Definition and_then {Er A B} (m : eff (Er + A)) (f : A -> eff (Er + B)) : eff (Er + B) :=
  r ← m; match r with inl e => mret (inl e) | inr a => f a end.
Definition map_err {Er Er' A} (f : Er -> Er') (m : eff (Er + A)) : eff (Er' + A) :=
  r ← m; mret match r with inl e => inl (f e) | inr a => inr a end.

Definition outside {A} (call : W -> W * A) : eff A := fun s =>
  let '(w, a) := call (World.outside s) in
  (World.mk _ _ _ w (World.journal s) (World.blocked s) (World.happened s), a).
Definition modify (call : W -> W) : eff unit := outside (fun w => (call w, tt)).
Definition happens (h : list happening) : eff unit := fun s =>
  (World.mk _ _ _ (World.outside s) (World.journal s) (World.blocked s) (World.happened s ++ h), tt).
(** A call of the journal. *)
Definition journal_call {A} (c : command) (f : A -> reply) (m : journaled F E A) : eff (answer A) := fun s =>
  let '(j, a) := m (World.journal s) in
  (World.mk _ _ _ (World.outside s) j (World.blocked s)
     (World.happened s ++ [Journaled (Called c (match a with Done x => Done (f x) | Refused e => Refused e end))]), a).

(** *** Records *)
Definition record_detail (t : Target.Target) (result detail : string) (cause : option Cause.Cause) : eff (option AuditUnavailable) :=
  outside (audit_record
    ([("operation", VString "assistant-action"); ("result", VString result); ("team_id", VString (Target.team t));
      ("assistant", VString (Binding.assistant_id (Target.binding t))); ("detail", VString detail)]%string
     ++ match cause with Some c => [("cause"%string, to_value c)] | None => [] end)).
Definition record (t : Target.Target) (result detail : string) (cause : option Cause.Cause) : eff (option AuditUnavailable) :=
  record_detail t result (detail +:+ ":" +:+ ActionSpec.id (Target.action t)) cause.
Definition record_file (t : Target.Target) (result kind : string) (sent : string * Z) : eff unit :=
  _ ← record_detail t result (kind +:+ ":" +:+ ActionSpec.id (Target.action t) +:+ ":" +:+ fst sent +:+ ":" +:+ pretty (snd sent)) None;
  mret tt.
Definition not_dispatched_failure (f : Failed) : bool := match f with FailedNotDispatched _ => true | _ => false end.
Definition record_failure (t : Target.Target) (detail : string) (failed : Failed) : eff unit :=
  let error := failed_error failed in
  let unaudited := match ActionError.cause error with
                   | Some c => bool_decide (cause_kind c = Kind.TeamAudit)
                   | None => false
                   end in
  if unaudited && not_dispatched_failure failed then mret tt
  else
    _ ← record t (if not_dispatched_failure failed then "denied" else "error") detail (ActionError.cause error);
    mret tt.

(** *** Before the dispatch *)
Fixpoint held_inputs (t : Target.Target) (ids : list string) : eff (ActionError.ActionError + list (string * string)) :=
  match ids with
  | [] => mret (inr [])
  | id :: ids =>
      value ← outside (resolve_stored_input (Target.team t, Binding.assistant_id (Target.binding t), id));
      match value with
      | inr value => and_then (held_inputs t ids) (fun rest => mret (inr ((id, StoredValue.value value) :: rest)))
      | inl StoredMissing => held_inputs t ids
      | inl StoredState =>
          mret (inl (error_new ActionFailure.StateUnavailable (cause_new Condition.StoredInputUnavailable Phase.Preparation)))
      end
  end.
(** [private]. *)
Definition private_values (t : Target.Target) : eff (ActionError.ActionError + Private.Private) :=
  let a := Target.action t in
  and_then
    (if bool_decide (ActionSpec.integrations a = []) then mret (inr [])
     else
       tokens ← outside (resolve_integrations (Target.team t) (assistant_view (Target.binding t)) (ActionSpec.id a));
       mret match tokens with
            | Some tokens => inr tokens
            | None => inl (error_at ActionFailure.IntegrationUnavailable Phase.Preparation)
            end)
    (fun integrations =>
       and_then (held_inputs t (ActionSpec.stored_inputs a)) (fun stored => mret (inr (Private.mk integrations stored)))).

(** [integration_tokens]. *)
Definition integration_tokens (b : Binding.Binding) (a : ActionSpec.ActionSpec) (p : Private.Private)
  : list (string * string * option string) :=
  omap (fun id =>
    declared ← List.find (fun d => IntegrationDeclaration.id d =s id) (Contract.integrations (Binding.contract b));
    reviewed ← resolve_provider (IntegrationDeclaration.provider declared);
    Some (id, reviewed, option_map snd (List.find (fun held => fst held =s id) (Private.integrations p))))
    (ActionSpec.integrations a).
(** [broker]. *)
Definition attempt_broker (t : Target.Target) (p : Private.Private) (transcript : ActionTranscript.ActionTranscript) : K :=
  let a := Target.action t in
  let declares := existsb authorizes (ActionSpec.human_requests a) in
  new_broker (CallScope.mk (Target.team t) (Binding.assistant_id (Target.binding t)) (ActionSpec.id a) (Target.operation_id t)
    (placements (Target.binding t) a) (Private.stored_inputs p) (integration_tokens (Target.binding t) a p)
    (negb declares || transcript_authorized transcript (ActionSpec.human_requests a))).

(** [Runner::invocation_files]. *)
Definition attempt_files (t : Target.Target) (input : Value) (transcript : ActionTranscript.ActionTranscript)
  (d : Delivery.Delivery) : eff (ActionError.ActionError + Value) :=
  let unavailable := error_at ActionFailure.FileUnavailable Phase.Preparation in
  and_then
    (match Delivery.file d, Delivery.admitted d with
     | Some file, true =>
         read ← outside (read_file (Target.team t) (ActionFile.id file));
         mret match read with Some stored => inr (Some stored) | None => inl unavailable end
     | _, _ => mret (inr None)
     end)
    (fun granted =>
       mret match deliver (Target.action t) (Delivery.file d) transcript input granted with
            | inr files => inr files
            | inl _ => inl unavailable
            end).

(** [Watch]: the observed request, if any, and what was injected. *)
Definition watch_dispatching (observed : option ActionRequest.ActionRequest) (t : Target.Target) (injected : list string)
  : eff (Failed + unit) :=
  match observed with
  | None => mret (inr tt)
  | Some request =>
      sealed ← outside (observe_dispatching request (Target.operation_id t) (Binding.container (Target.binding t)) injected);
      mret (if sealed : bool then inr tt
            else inl (FailedNotDispatched (error_new ActionFailure.StateUnavailable
                        (cause_new Condition.DispatchSealRefused Phase.DispatchRecord))))
  end.
Definition watch_returned (observed : option ActionRequest.ActionRequest) : eff unit :=
  match observed with Some request => modify (observe_returned request) | None => mret tt end.
Definition watch_failed (observed : option ActionRequest.ActionRequest) (t : Target.Target) (fault : Fault) (injected : list string)
  : eff unit :=
  match observed with
  | Some request => modify (observe_failed request (Target.operation_id t) fault injected)
  | None => mret tt
  end.

(** [prepared]: everything before the dispatch; the injected values come back
    even when it refuses, as [watch.injected]. *)
Definition is_blocked (s : World) (container : string) : bool := contains (World.blocked s) container.
Definition prepared (t : Target.Target) (input : Value) (transcript : ActionTranscript.ActionTranscript) (d : Delivery.Delivery)
  (observed : option ActionRequest.ActionRequest) : eff (list string * (Failed + (Private.Private * string * Value))) := fun s =>
  if is_blocked s (Binding.container (Target.binding t))
  then (s, ([], inl (FailedNotDispatched (error_at ActionFailure.Blocked Phase.Admission))))
  else
    (private ← private_values t;
     match private with
     | inl e => mret ([], inl (FailedNotDispatched e))
     | inr private =>
         let injected := map snd (private_injected private) in
         answer ← and_then (map_err FailedNotDispatched (attempt_files t input transcript d)) (fun files =>
           match encode_invocation input (private_held private) files (Target.operation_id t) (payloads transcript) with
           | inl _ => mret (inl (FailedNotDispatched (error_new ActionFailure.InvalidInput
                                   (cause_new Condition.InvocationTooLarge Phase.Preparation))))
           | inr encoded =>
               and_then (watch_dispatching observed t injected) (fun _ =>
                 refused ← record t "ok" "started" None;
                 mret match refused with
                      | Some reason => inl (FailedNotDispatched (error_new ActionFailure.StateUnavailable
                                              (cause_new (audit_condition reason) Phase.DispatchRecord)))
                      | None => inr (private, encoded, files)
                      end)
           end);
         mret (injected, answer)
     end) s.

(** *** After the dispatch *)
Definition settle_projection (t : Target.Target) (projected : Refused_ + Projected) : eff ((Failed * Fault) + Outcome) :=
  let validation condition := cause_new condition Phase.ResultValidation in
  let refused failed fault detail := _ ← record_failure t detail failed; mret (inl (failed, fault)) in
  match projected with
  | inr (ProjectedResult result) => _ ← record t "ok" "completed" None; mret (inr (Completed_ result))
  | inr (ProjectedRequest request) => mret (inr (Request_ request))
  | inl (RefusedStoredInput id) =>
      _ ← modify (delete_stored_input (Target.team t, Binding.assistant_id (Target.binding t), id));
      refused (FailedUncertain (error_new ActionFailure.Failed (validation Condition.StoredInputRejected))) FaultOther
        "stored-input-rejected"%string
  | inl (RefusedFailure f) =>
      refused (FailedHandled (cause_handled (Failure.http_status f))) (FaultHandled f) "action-failed"%string
  | inl RefusedSecretExposure =>
      refused (FailedUncertain (error_new ActionFailure.Uncertain (validation Condition.InjectedValueEchoed))) (FaultPolicy None)
        "invalid-output"%string
  | inl (RefusedInvalid condition) =>
      refused (FailedUncertain (error_new ActionFailure.Uncertain (validation condition))) (FaultPolicy None) "invalid-output"%string
  end.

(** [projected]. *)
Definition result_policy (t : Target.Target) (p : Private.Private) (transcript : ActionTranscript.ActionTranscript) (withheld : bool)
  : ResultPolicy.ResultPolicy :=
  ResultPolicy.mk (ActionSpec.human_requests (Target.action t)) (existsb authorizing (ActionTranscript.responses transcript))
    (private_injected p) (private_held p) (ActionSpec.stored_inputs (Target.action t))
    (default (VArray []) (get (Contract.machine_contract (Binding.contract (Target.binding t))) "messages")) withheld.
Definition project_frame (t : Target.Target) (raw : Value) (p : Private.Private) (transcript : ActionTranscript.ActionTranscript)
  (withheld : bool) : eff ((Failed * Fault) + Outcome) :=
  settle_projection t (project raw (result_policy t p transcript withheld)
    (fun result => option_map schema_condition (validate_action (Target.action t) Output result))).

Definition block (container : string) : eff unit := fun s =>
  (World.mk _ _ _ (World.outside s) (World.journal s) (container :: World.blocked s) (World.happened s), tt).
Definition stop_set : eff bool := fun s => (s, is_stopped (World.outside s)).
Definition rpc_failed (t : Target.Target) (error : RpcError) : eff (Failed * Fault) :=
  answer ←
    match error with
    | NotDispatched_ c =>
        stopped ← stop_set;
        mret (FailedNotDispatched (error_new (if stopped : bool then ActionFailure.Stopped else ActionFailure.DockerUnavailable) c), FaultOther)
    | Blocked_ c =>
        _ ← block (Binding.container (Target.binding t));
        mret (FailedUncertain (error_new ActionFailure.Blocked c), FaultUnquiesced)
    | Failed_ kind c =>
        let condition := routine_condition c in
        mret (FailedUncertain (error_new ActionFailure.Uncertain c),
              if bool_decide (kind = RpcInvalidResult) || (condition =s "frame-invalid") then FaultPolicy (Some condition)
              else FaultTransport condition)
    end;
  _ ← record t "error" "failed" (ActionError.cause (failed_error (fst answer)));
  mret answer.

(** [exchanged]. *)
Definition settle_exchange (t : Target.Target) (answer : RpcError + Value) (sent : option (string * Z)) (p : Private.Private)
  (transcript : ActionTranscript.ActionTranscript) (withheld : bool) : eff ((Failed * Fault) + Outcome) :=
  let recorded result kind := match sent with Some sent => record_file t result kind sent | None => mret tt end in
  match answer with
  | inr raw => _ ← recorded "ok" "file-delivered"; project_frame t raw p transcript withheld
  | inl error =>
      failed ← rpc_failed t error;
      _ ← recorded "error" "file-delivery-unconfirmed";
      mret (inl failed)
  end%string.

(** The RPC of a target: what it did to its workload happened. *)
Definition exchange_call (t : Target.Target) (encoded : string) (broker : K) : eff (RpcError + Value) := fun s =>
  let '((w, deeds), answer) :=
    rpc_exchange (Binding.container (Target.binding t)) (ActionSpec.id (Target.action t))
      (String.list_ascii_of_string encoded) (Some broker) (World.outside s, []) in
  (World.mk _ _ _ w (World.journal s) (World.blocked s) (World.happened s ++ map (Ran (Target.operation_id t)) deeds), answer).

Definition dispatch (t : Target.Target) (p : Private.Private) (transcript : ActionTranscript.ActionTranscript) (encoded : string)
  (sent : option (string * Z)) (withheld : bool) (observed : option ActionRequest.ActionRequest) (injected : list string)
  : eff (Failed + Outcome) :=
  answer ← exchange_call t encoded (attempt_broker t p transcript);
  _ ← match answer with inr _ => watch_returned observed | inl _ => mret tt end;
  outcome ← settle_exchange t answer sent p transcript withheld;
  match outcome with
  | inr outcome => mret (inr outcome)
  | inl (failed, fault) => _ ← watch_failed observed t fault injected; mret (inl failed)
  end.

(** [attempt], with the values the attempt was given. *)
Definition attempt (t : Target.Target) (input : Value) (transcript : ActionTranscript.ActionTranscript) (d : Delivery.Delivery)
  (observed : option ActionRequest.ActionRequest) : eff (list string * (Failed + Outcome)) :=
  ready ← prepared t input transcript d observed;
  match ready with
  | (injected, inl failed) => _ ← record_failure t "not-dispatched" failed; mret (injected, inl failed)
  | (injected, inr (private, encoded, files)) =>
      let withheld := is_some (Delivery.file d)
                      && negb (transcript_authorized transcript (ActionSpec.human_requests (Target.action t))) in
      outcome ← dispatch t private transcript encoded (file_delivered files) withheld observed injected;
      mret (injected, outcome)
  end.

(** *** Admission *)
Definition admitted (team : string) (request : ActionRequest.ActionRequest)
  : eff (ActionError.ActionError + (Binding.Binding * ActionSpec.ActionSpec)) :=
  and_then (map_err (fun f => error_at f Phase.Admission) (outside (workload_binding team (ActionRequest.assistant_id request))))
    (fun binding =>
       mret match contract_action (Binding.contract binding) (ActionRequest.action request) with
            | None => inl (error_at ActionFailure.NotDeclared Phase.Admission)
            | Some action =>
                match validate_action action Input (ActionRequest.input request) with
                | Some _ => inl (error_at ActionFailure.InvalidInput Phase.Admission)
                | None => inr (binding, action)
                end
            end).

(** The direct route: one fresh operation, outside any batch. *)
Definition human_request_refused (t : Target.Target) : eff ActionError.ActionError :=
  let error := error_at ActionFailure.HumanRequestRequired Phase.ResultValidation in
  _ ← record t "denied" "human-request-required" (ActionError.cause error);
  mret error.
Definition draw_operation_id : eff (option string) := outside new_operation_id.
Definition invoke_direct (team : string) (request : ActionRequest.ActionRequest) : eff (ActionError.ActionError + Value) :=
  and_then (admitted team request) (fun '(binding, action) =>
    id ← draw_operation_id;
    match id with
    | None => mret (inl (error_new ActionFailure.StateUnavailable (cause_new Condition.OperationIdUnavailable Phase.Preparation)))
    | Some id =>
        let t := Target.mk team binding action id in
        match action_file (ActionSpec.input_files action) (ActionRequest.input request) (ActionRequest.files request) with
        | inl _ => mret (inl (error_at ActionFailure.FileUnavailable Phase.Admission))
        | inr file =>
            _ ← happens [Direct];
            answer ← attempt t (ActionRequest.input request) (transcript_new (ActionRequest.interrupt_id request))
                       (Delivery.mk file false) None;
            match snd answer with
            | inr (Completed_ result) => mret (inr result)
            | inr (Request_ _) => error ← human_request_refused t; mret (inl error)
            | inl failed => mret (inl (failed_error failed))
            end
        end
    end).
End Runner.
