(* ===== verification/Batches.v ===== *)
(** * Durable batches

    [action/src/runner/batch.rs]: the Actions of one Brain suspension, each
    fingerprinted over its exact binding and journaled before it runs. *)

From stdpp Require Import base tactics list strings pretty.
From Stdlib Require Import ZArith Lia Ascii.
From S2P Require Import Prelude Text Json Reader Utf8 ReaderSafety Floats RoundTrip Causes Calendar Platform Requests Human Redaction Executor.
From S2P Require Import ActionFiles ExecFrames Journal JournalSpec JournalHistory Projection Rpc Runner.

#[local] Open Scope Z_scope.

Section Identity.
  Context {PF : Platform}.

(** [origin]: what binds a newly sealed Stored Input to its interrupt. *)
Definition request_origin (r : ActionRequest.ActionRequest) : string :=
  sha256_hex (canonical (VObject [("action", VString (ActionRequest.action r)); ("assistant_id", VString (ActionRequest.assistant_id r));
    ("input", ActionRequest.input r); ("interrupt_id", VString (ActionRequest.interrupt_id r))]%string)).
Definition pairs (values : list (string * Z)) : Value :=
  VArray (map (fun e => VArray [VString (fst e); int (Z.min (snd e) i64_max)]) values).
(** The identity an operation's fingerprint commits to. *)
Definition operation_identity (r : ActionRequest.ActionRequest) (b : Binding.Binding) (integrations stored : list (string * Z))
  (file : option ActionFile.ActionFile) : Value :=
  VObject [("assistant_container_id", VString (Binding.container b)); ("assistant_id", VString (ActionRequest.assistant_id r));
    ("assistant_image", VString (Binding.image b)); ("integration_generations", pairs integrations);
    ("stored_input_generations", pairs stored); ("files", commitments file); ("input", ActionRequest.input r);
    ("action", VString (ActionRequest.action r))]%string.
End Identity.

(** ** Failures of the journal *)
Definition unavailable (p : Phase.Phase) : ActionError.ActionError := error_at ActionFailure.StateUnavailable p.
Definition journal_failure (e : JournalError) : ActionError.ActionError :=
  match e with
  | Conflict _ | Archived => error_at ActionFailure.ContextChanged Phase.Journal
  | Uncertain => error_new ActionFailure.Uncertain (cause_new Condition.AttemptUncertain Phase.Journal)
  | Journal.Failure _ | Corrupt _ => unavailable Phase.Journal
  end.
Definition settlement (e : ActionError.ActionError) : ActionError.ActionError :=
  match ActionError.cause e with
  | Some c => error_new (ActionError.failure e) (cause_new (Cause.condition c) Phase.Settlement)
  | None => e
  end.
Definition unsettled (answer : ActionError.ActionError + InvokeOutcome) (e : ActionError.ActionError) : ActionError.ActionError :=
  let initiating := match answer with inl failed => ActionError.cause failed | inr _ => None end in
  ActionError.mk (ActionError.failure e)
    (match initiating with Some c => Some (journal_cleanup c) | None => ActionError.cause e end).

(** ** Batches *)
Module ActionBatch.
Record ActionBatch : Type := mk {
  scope : BatchScope.BatchScope;
  handle : option Batch.Batch;
  prepared : list (string * (Operation.Operation * list (string * Z)));
  origins : list string;
  executing_here : list string;
  observed : bool;
  injected : list string
}.
#[global] Instance eta_action_batch : Eta ActionBatch :=
  fun b => mk (scope b) (handle b) (prepared b) (origins b) (executing_here b) (observed b) (injected b).
End ActionBatch.
#[global] Instance upd_ab_executing : Upd ActionBatch.executing_here := ltac:(solve_upd).
#[global] Instance upd_ab_injected : Upd ActionBatch.injected := ltac:(solve_upd).
(** [Batch::new] and [release]. *)
Definition batch_new (scope : BatchScope.BatchScope) (observed : bool) : ActionBatch.ActionBatch :=
  ActionBatch.mk scope None [] [] [] observed [].
Definition release (b : ActionBatch.ActionBatch) : ActionBatch.ActionBatch :=
  ActionBatch.mk (ActionBatch.scope b) None [] [] [] (ActionBatch.observed b) (ActionBatch.injected b).
(** [Batch::transcript]. *)
Definition batch_transcript (b : ActionBatch.ActionBatch) (interrupt_id : string) : ActionTranscript.ActionTranscript :=
  match List.find (of_interrupt interrupt_id) (BatchScope.transcripts (ActionBatch.scope b)) with
  | Some kept => kept
  | None => transcript_new interrupt_id
  end.

Section Batches.
  Context {W K F E : Type} `{!Engine F} `{!Entropy E} {PF : Platform} {V : Vocabulary} {B : Base64} {X : Regexes} {S : Schemas}.
  Context `{!Entropy W} `{!ExecEngine W} `{!CallBroker K} `{!Collaborators W K}.
  Abbreviation World := (World.World W F E).
  Abbreviation eff := (@eff W F E).
  #[local] Existing Instance eff_ret.
  #[local] Existing Instance eff_bind.

(** *** What an operation binds *)
Fixpoint stored_generations (team assistant : string) (excluded ids : list string)
  : eff (ActionError.ActionError + list (string * Z)) :=
  match ids with
  | [] => mret (inr [])
  | id :: ids =>
      value ← outside (resolve_stored_input (team, assistant, id));
      match value with
      | inr value =>
          and_then (stored_generations team assistant excluded ids) (fun rest =>
            mret (inr (if contains excluded (StoredValue.origin value) then rest
                       else (id, StoredValue.generation value) :: rest)))
      | inl StoredMissing => stored_generations team assistant excluded ids
      | inl StoredState =>
          mret (inl (error_new ActionFailure.StateUnavailable (cause_new Condition.StoredInputUnavailable Phase.Preparation)))
      end
  end.
Definition generations (b : ActionBatch.ActionBatch) (binding : Binding.Binding) (action : ActionSpec.ActionSpec) (excluded : list string)
  : eff (ActionError.ActionError + (list (string * Z) * list (string * Z))) :=
  let team := BatchScope.team_id (ActionBatch.scope b) in
  let declared := List.filter (fun i => contains (ActionSpec.integrations action) (fst i))
                    (AssistantView.integrations (assistant_view binding)) in
  rows ← outside (integration_metadata team (Binding.assistant_id binding) declared);
  match rows with
  | None => mret (inl (error_new ActionFailure.StateUnavailable (cause_new Condition.StoredInputUnavailable Phase.Preparation)))
  | Some rows =>
      if negb (Nat.eqb (length rows) (length (ActionSpec.integrations action))) || existsb (fun row => snd row <? 1) rows
      then mret (inl (error_at ActionFailure.IntegrationUnavailable Phase.Preparation))
      else
        and_then (stored_generations team (Binding.assistant_id binding) excluded (ActionSpec.stored_inputs action)) (fun stored =>
          mret (inr (rows, stored)))
  end.
Definition request_operation (b : ActionBatch.ActionBatch) (r : ActionRequest.ActionRequest) (excluded : list string)
  : eff (ActionError.ActionError + (Operation.Operation * list (string * Z))) :=
  and_then (admitted (BatchScope.team_id (ActionBatch.scope b)) r) (fun '(binding, action) =>
    and_then (generations b binding action excluded) (fun '(integrations, stored) =>
      and_then (generations b binding action []) (fun '(_, present) =>
        match action_file (ActionSpec.input_files action) (ActionRequest.input r) (ActionRequest.files r) with
        | inl _ => mret (inl (error_at ActionFailure.FileUnavailable Phase.Admission))
        | inr file =>
            repeated ← outside (fun w => (w, if ActionBatch.observed b then logical_operation r w else None));
            mret (inr (Operation.mk (ActionRequest.interrupt_id r)
                         (sha256_hex (canonical (operation_identity r binding integrations stored file))) repeated, present))
        end))).

(** [unchanged]: the prepared operation, if everything it bound is as it was. *)
Definition generation_eqb (x y : string * Z) : bool := (fst x =s fst y) && (snd x =? snd y).
Definition unchanged (b : ActionBatch.ActionBatch) (r : ActionRequest.ActionRequest)
  : eff (ActionError.ActionError + Operation.Operation) :=
  let changed := error_at ActionFailure.ContextChanged Phase.Admission in
  match List.find (fun e => fst e =s ActionRequest.interrupt_id r) (ActionBatch.prepared b) with
  | None => mret (inl changed)
  | Some (_, (operation, present)) =>
      and_then (request_operation b r (ActionBatch.origins b)) (fun '(current, now_present) =>
        let same := forallb (fun entry => existsb (generation_eqb entry) now_present) present in
        if negb (Operation.fingerprint current =s Operation.fingerprint operation) || negb same
        then mret (inl changed) else mret (inr operation))
  end.

(** *** Running one operation *)
Definition journal_answer {A} (m : eff (answer A)) : eff (ActionError.ActionError + A) :=
  a ← m; mret match a with Done x => inr x | Refused e => inl (journal_failure e) end.

(** [settle]: what the journal records of an attempt's end, with the answer. *)
Definition settle_call (h : Batch.Batch) (o : Operation.Operation) (read_only : bool) (attempt : Failed + Outcome)
  : eff (option (answer unit) * (ActionError.ActionError + InvokeOutcome)) :=
  match attempt with
  | inr (Completed_ result) =>
      a ← journal_call (Complete h o result) (fun _ => RUnit) (complete_operation h o result);
      mret (Some a, inr (OutcomeCompleted result))
  | inr (Request_ request) =>
      a ← journal_call (Suspend h o) (fun _ => RUnit) (suspend h o);
      mret (Some a, inr (OutcomeHumanRequest (request_payload request)))
  | inl (FailedNotDispatched e) =>
      a ← journal_call (NotDispatched h o) (fun _ => RUnit) (not_dispatched h o);
      mret (Some a, inl e)
  | inl (FailedHandled c) =>
      if read_only then
        a ← journal_call (FailWithoutEffect h o) (fun _ => RUnit) (fail_without_effect h o);
        mret (Some a, inl (failed_error (FailedHandled c)))
      else mret (None, inl (failed_error (FailedHandled c)))
  | inl (FailedUncertain e) => mret (None, inl e)
  end.
Definition settle_attempt (b : ActionBatch.ActionBatch) (h : Batch.Batch) (o : Operation.Operation) (action : ActionSpec.ActionSpec)
  (attempt : Failed + Outcome) : eff (ActionBatch.ActionBatch * (ActionError.ActionError + InvokeOutcome)) :=
  settled ← settle_call h o (ActionSpec.effect action =s "read_only") attempt;
  let '(recorded, answer) := settled in
  mret match recorded with
       | None => (b, answer)
       | Some (Refused e) => (b, inl (unsettled answer (settlement (journal_failure e))))
       | Some (Done _) =>
           (b <| ActionBatch.executing_here := List.filter (fun id => negb (id =s Operation.interrupt_id o)) (ActionBatch.executing_here b) |>,
            answer)
       end.

(** [run]: the batch after the invocation, and its answer. *)
Definition slot_admission (delivers : bool) : eff (ActionError.ActionError + bool) :=
  if negb delivers then mret (inr false)
  else and_then (map_err (fun f => error_at f Phase.FileSlot) (outside acquire_slot)) (fun _ => mret (inr true)).
Definition admitted_run (b : ActionBatch.ActionBatch) (r : ActionRequest.ActionRequest)
  : eff (ActionError.ActionError +
         (Batch.Batch * Operation.Operation * Binding.Binding * ActionSpec.ActionSpec * Delivery.Delivery * Execution.Execution)) :=
  match ActionBatch.handle b with
  | None => mret (inl (error_at ActionFailure.ContextChanged Phase.Admission))
  | Some h =>
      and_then (unchanged b r) (fun o =>
        and_then (admitted (BatchScope.team_id (ActionBatch.scope b)) r) (fun '(binding, action) =>
          match action_file (ActionSpec.input_files action) (ActionRequest.input r) (ActionRequest.files r) with
          | inl _ => mret (inl (error_at ActionFailure.FileUnavailable Phase.Admission))
          | inr file =>
              let transcript := batch_transcript b (ActionRequest.interrupt_id r) in
              and_then (slot_admission (grants_file file action transcript)) (fun held =>
                and_then (journal_answer (journal_call (Begin h o) RExecution (begin h o))) (fun decision =>
                  mret (inr (h, o, binding, action, Delivery.mk file held, decision))))
          end))
  end.
Definition batch_run (b : ActionBatch.ActionBatch) (r : ActionRequest.ActionRequest)
  : eff (ActionBatch.ActionBatch * (ActionError.ActionError + InvokeOutcome)) :=
  let b := b <| ActionBatch.injected := [] |> in
  ready ← admitted_run b r;
  match ready with
  | inl e => mret (b, inl e)
  | inr (h, o, binding, action, delivery, decision) =>
      if negb (Execution.execute decision)
      then mret (b, match Execution.result decision with
                    | Some result => inr (OutcomeCompleted result)
                    | None => inl (unavailable Phase.Journal)
                    end)
      else
        let b := b <| ActionBatch.executing_here := ActionBatch.executing_here b ++ [Operation.interrupt_id o] |> in
        let t := Target.mk (BatchScope.team_id (ActionBatch.scope b)) binding action (Execution.operation_id decision) in
        outcome ← attempt t (ActionRequest.input r) (batch_transcript b (ActionRequest.interrupt_id r)) delivery
                    (if ActionBatch.observed b then Some r else None);
        settle_attempt (b <| ActionBatch.injected := fst outcome |>) h o action (snd outcome)
  end.

(** *** The other calls *)
Fixpoint prepare_each (b : ActionBatch.ActionBatch) (origins : list string) (rs : list ActionRequest.ActionRequest)
  : eff (ActionError.ActionError + list (string * (Operation.Operation * list (string * Z)))) :=
  match rs with
  | [] => mret (inr [])
  | r :: rs =>
      and_then (request_operation b r origins) (fun bound =>
        and_then (prepare_each b origins rs) (fun rest => mret (inr ((ActionRequest.interrupt_id r, bound) :: rest))))
  end.
Definition batch_prepare (b : ActionBatch.ActionBatch) (rs : list ActionRequest.ActionRequest)
  : eff (ActionBatch.ActionBatch * (ActionError.ActionError + unit)) :=
  if is_some (ActionBatch.handle b) then mret (b, inl (error_at ActionFailure.ContextChanged Phase.Journal))
  else
    let origins := map request_origin rs in
    let scope := ActionBatch.scope b in
    ready ← and_then (prepare_each b origins rs) (fun prepared =>
      let operations := map (fun e => fst (snd e)) prepared in
      and_then (journal_answer (journal_call
        (Prepare (BatchScope.generation scope) (BatchScope.thread_id scope) operations (BatchScope.routine scope)) RBatch
        (prepare_batch (BatchScope.generation scope) (BatchScope.thread_id scope) operations (BatchScope.routine scope))))
        (fun h => mret (inr (h, prepared))));
    mret match ready with
         | inl e => (b, inl e)
         | inr (h, prepared) =>
             (ActionBatch.mk scope (Some h) prepared origins (ActionBatch.executing_here b) (ActionBatch.observed b)
                (ActionBatch.injected b), inr tt)
         end.
Definition batch_delivered (b : ActionBatch.ActionBatch) (rs : list ActionRequest.ActionRequest)
  : eff (ActionBatch.ActionBatch * (ActionError.ActionError + unit)) :=
  let changed := error_at ActionFailure.ContextChanged Phase.Journal in
  match ActionBatch.handle b with
  | None => mret (b, inl changed)
  | Some h =>
      if negb (bool_decide (map Operation.interrupt_id (Batch.operations h) = map ActionRequest.interrupt_id rs))
      then mret (b, inl changed)
      else
        a ← journal_answer (journal_call (Deliver h) (fun _ => RUnit) (delivered h));
        mret match a with inl e => (b, inl e) | inr _ => (release b, inr tt) end
  end.
Definition batch_settle_undelivered (b : ActionBatch.ActionBatch) : eff (ActionError.ActionError + unit) :=
  let g := BatchScope.generation (ActionBatch.scope b) in
  journal_answer (journal_call (EndSettled g) (fun _ => RUnit) (end_settled g)).
Definition batch_terminate (b : ActionBatch.ActionBatch) : eff (ActionBatch.ActionBatch * (ActionError.ActionError + bool)) :=
  match ActionBatch.handle b with
  | None => mret (b, inr false)
  | Some h =>
      let uncertain := negb (bool_decide (ActionBatch.executing_here b = [])) in
      if uncertain && BatchScope.routine (ActionBatch.scope b) then mret (b, inr false)
      else
        ended ← (if uncertain then journal_answer (journal_call (Abandon h) RFlag (abandon_uncertain h))
                 else journal_answer (journal_call (EndBatch h) RFlag (end_batch h)));
        mret match ended with
             | inl e => (b, inl e)
             | inr ended => (if ended : bool then release b else b, inr ended)
             end
  end.
End Batches.
