(* ===== verification/RunnerSafety.v ===== *)
(** * An operation runs once

    What each call of the executor makes happen, and the composition with the
    journal: once an attempt started a process, no later attempt of the same
    operation does, unless the Action asked a person or its batch was removed. *)

From stdpp Require Import base tactics list strings pretty.
From Stdlib Require Import ZArith Lia Ascii.
From S2P Require Import Prelude Text Json Reader Utf8 ReaderSafety Floats RoundTrip Causes Calendar Platform Requests Human Redaction Executor.
From S2P Require Import ActionFiles ExecFrames Journal JournalSpec JournalSafety JournalPrepare JournalHistory Projection Rpc Runner Batches.

#[local] Open Scope Z_scope.

Definition journal_event (h : happening) : option event := match h with Journaled ev => Some ev | _ => None end.
Definition journal_events (t : list happening) : list event := omap journal_event t.
Lemma journal_events_app t u : journal_events (t ++ u) = journal_events t ++ journal_events u.
Proof. unfold journal_events. apply omap_app. Qed.
Lemma journal_events_ran op ds : journal_events (map (Ran op) ds) = [].
Proof. by induction ds. Qed.

(** ** What a call may make happen *)

(** An event that neither grants an operation nor returns one to prepared. *)
Definition plain (ev : event) : Prop :=
  match ev with
  | Called (Begin _ _) (Done (RExecution e)) => Execution.execute e = false
  | Called (Suspend _ _) _ | Called (NotDispatched _ _) _ => False
  | _ => True
  end.
(** How an attempt that started [deeds] may be settled. *)
Definition settles (b : Batch.Batch) (o : Operation.Operation) (deeds : list deed) (c : command) : Prop :=
  match c with
  | Complete b' o' _ | FailWithoutEffect b' o' | Suspend b' o' => b' = b /\ o' = o
  | NotDispatched b' o' => b' = b /\ o' = o /\ deeds = []
  | _ => False
  end.
Inductive shape : list happening -> Prop :=
| shape_none : shape []
| shape_plain ev : plain ev -> shape [Journaled ev]
| shape_attempt b o e op deeds settle :
    Execution.execute e = true ->
    (settle = [] \/ exists c a, settle = [Journaled (Called c a)] /\ settles b o deeds c) ->
    shape (Journaled (Called (Begin b o) (Done (RExecution e))) :: map (Ran op) deeds ++ settle)
| shape_direct op deeds : shape (Direct :: map (Ran op) deeds).

Section Emits.
  Context {W K F E : Type} `{!Engine F} `{!Entropy E} {PF : Platform} {V : Vocabulary} {B : Base64} {X : Regexes} {S : Schemas}.
  Context `{!Entropy W} `{!ExecEngine W} `{!CallBroker K} `{!Collaborators W K}.
  Abbreviation World := (World.World W F E).
  Abbreviation eff := (@eff W F E).
  #[local] Existing Instance eff_ret.
  #[local] Existing Instance eff_bind.

(** The happenings of a call, and the journal through them. *)
Definition emits {A} (m : eff A) (P : A -> list happening -> Prop) : Prop :=
  forall s s' a, m s = (s', a) -> exists t,
    World.happened s' = World.happened s ++ t
    /\ jsteps (World.journal s) (journal_events t) (World.journal s') /\ P a t.
Definition quiet {A} (m : eff A) : Prop := emits m (fun _ t => t = []).

Lemma jsteps_app (j j1 j' : Journal.Journal F E) es es' : jsteps j es j1 -> jsteps j1 es' j' -> jsteps j (es ++ es') j'.
Proof. induction 1 as [|j ev j1 es j2 H _ IH]; [done|]. intros H'. cbn [app]. econstructor; [exact H|auto]. Qed.

Lemma emits_ret {A} (a : A) P : P a [] -> emits (mret a) P.
Proof. intros HP s s' x [= <- <-]. exists []. rewrite app_nil_r. split_and!; [done|constructor|done]. Qed.
Lemma emits_bind {A C} (m : eff A) (f : A -> eff C) Q P :
  emits m Q -> (forall a t, Q a t -> emits (f a) (fun c u => P c (t ++ u))) -> emits (m ≫= f) P.
Proof.
  intros Hm Hf s s' c. unfold mbind, eff_bind. destruct (m s) as [s1 a] eqn:E1. intros E2.
  destruct (Hm _ _ _ E1) as (t & H1 & J1 & HQ). destruct (Hf a t HQ _ _ _ E2) as (u & H2 & J2 & HP).
  exists (t ++ u). rewrite H2, H1, app_assoc, journal_events_app. split_and!; [done|by eapply jsteps_app|done].
Qed.
Lemma emits_impl {A} (m : eff A) (Q P : A -> list happening -> Prop) :
  emits m Q -> (forall a t, Q a t -> P a t) -> emits m P.
Proof. intros Hm H s s' a E1. destruct (Hm _ _ _ E1) as (t & ? & ? & ?). exists t. auto. Qed.

Lemma quiet_ret {A} (a : A) : quiet (mret a).
Proof. by apply emits_ret. Qed.
Lemma quiet_bind {A C} (m : eff A) (f : A -> eff C) : quiet m -> (forall a, quiet (f a)) -> quiet (m ≫= f).
Proof. intros Hm Hf. eapply emits_bind; [exact Hm|]. intros a t ->. eapply emits_impl; [apply Hf|]. done. Qed.
Lemma quiet_then {A C} (m : eff A) (f : A -> eff C) P : quiet m -> (forall a, emits (f a) P) -> emits (m ≫= f) P.
Proof. intros Hm Hf. eapply emits_bind; [exact Hm|]. intros a t ->. apply Hf. Qed.
Lemma quiet_outside {A} (call : W -> W * A) : quiet (outside call).
Proof.
  intros s s' a. unfold outside. destruct (call (World.outside s)) as [w x]. intros [= <- <-]. exists [].
  cbn. rewrite app_nil_r. split_and!; [done|constructor|done].
Qed.
Lemma quiet_and_then {Er A C} (m : eff (Er + A)) (f : A -> eff (Er + C)) :
  quiet m -> (forall a, quiet (f a)) -> quiet (and_then m f).
Proof. intros Hm Hf. apply quiet_bind; [done|]. intros [e|a]; [apply quiet_ret|apply Hf]. Qed.
Lemma quiet_map_err {Er Er' A} (f : Er -> Er') (m : eff (Er + A)) : quiet m -> quiet (map_err f m).
Proof. intros Hm. apply quiet_bind; [done|]. intros r. apply quiet_ret. Qed.
Lemma quiet_state {A} (m : eff A) :
  (forall s s' a, m s = (s', a) -> World.happened s' = World.happened s /\ World.journal s' = World.journal s) -> quiet m.
Proof. intros H s s' a E1. destruct (H _ _ _ E1) as [H1 H2]. exists []. rewrite app_nil_r, H1, H2. split_and!; [done|constructor|done]. Qed.
End Emits.

Create HintDb quiet.
#[export] Hint Resolve quiet_ret quiet_outside quiet_map_err : quiet.
(** Peels a quiet computation: its binds, its branches, the calls outside. *)
Ltac quietly :=
  cbv zeta;
  lazymatch goal with
  | |- quiet (mret _) => apply quiet_ret
  | |- quiet (and_then _ _) => apply quiet_and_then; [quietly|intros; quietly]
  | |- quiet (map_err _ _) => apply quiet_map_err; quietly
  | |- quiet (outside _) => apply quiet_outside
  | |- quiet (modify _) => apply quiet_outside
  | |- quiet (mbind _ _) => apply quiet_bind; [quietly|intros; quietly]
  | |- quiet (match ?x with _ => _ end) => destruct x; quietly
  | |- _ => auto with quiet
  end.

Section Quiet.
  Context {W K F E : Type} `{!Engine F} `{!Entropy E} {PF : Platform} {V : Vocabulary} {B : Base64} {X : Regexes} {S : Schemas}.
  Context `{!Entropy W} `{!ExecEngine W} `{!CallBroker K} `{!Collaborators W K}.
  Abbreviation World := (World.World W F E).
  Abbreviation eff := (@eff W F E).
  #[local] Existing Instance eff_ret.
  #[local] Existing Instance eff_bind.

Lemma quiet_record (t : Target.Target) r d c : quiet (F := F) (E := E) (record t r d c).
Proof. apply quiet_outside. Qed.
Lemma quiet_record_file (t : Target.Target) r k sent : quiet (F := F) (E := E) (record_file t r k sent).
Proof. unfold record_file, record_detail. quietly. Qed.
Lemma quiet_record_failure (t : Target.Target) d f : quiet (F := F) (E := E) (record_failure t d f).
Proof. unfold record_failure, record, record_detail. quietly. Qed.
#[local] Hint Resolve quiet_record quiet_record_file quiet_record_failure : quiet.

Lemma quiet_held_inputs (t : Target.Target) ids : quiet (F := F) (E := E) (held_inputs t ids).
Proof. induction ids as [|id ids IH]; cbn [held_inputs]; quietly. Qed.
#[local] Hint Resolve quiet_held_inputs : quiet.
Lemma quiet_private (t : Target.Target) : quiet (F := F) (E := E) (private_values t).
Proof. unfold private_values. quietly. Qed.
Lemma quiet_files (t : Target.Target) input tr d : quiet (F := F) (E := E) (attempt_files t input tr d).
Proof. unfold attempt_files. quietly. Qed.
Lemma quiet_dispatching o (t : Target.Target) inj : quiet (F := F) (E := E) (watch_dispatching o t inj).
Proof. unfold watch_dispatching. quietly. Qed.
Lemma quiet_returned o : quiet (F := F) (E := E) (watch_returned o).
Proof. unfold watch_returned. quietly. Qed.
Lemma quiet_failed o (t : Target.Target) f inj : quiet (F := F) (E := E) (watch_failed o t f inj).
Proof. unfold watch_failed. quietly. Qed.
#[local] Hint Resolve quiet_private quiet_files quiet_dispatching quiet_returned quiet_failed : quiet.

Lemma quiet_prepared (t : Target.Target) input tr d o : quiet (F := F) (E := E) (prepared t input tr d o).
Proof.
  assert (forall (m : eff (list string * (Failed + (Private.Private * string * Value)))) c a, quiet m ->
    quiet (fun s => if is_blocked s c then (s, a) else m s)) as H.
  { intros m c a Hm s s' x. destruct (is_blocked s c); [|apply Hm]. apply quiet_ret. }
  apply H. quietly.
Qed.
Lemma quiet_admitted team r : quiet (F := F) (E := E) (admitted team r).
Proof. unfold admitted. quietly. Qed.
Lemma quiet_block c : quiet (F := F) (E := E) (block (W := W) c).
Proof. apply quiet_state. intros s s' a [= <- <-]. done. Qed.
Lemma quiet_stop_set : quiet (F := F) (E := E) stop_set.
Proof. apply quiet_state. intros s s' a [= <- <-]. done. Qed.
#[local] Hint Resolve quiet_prepared quiet_admitted quiet_block quiet_stop_set : quiet.

Lemma quiet_stored_generations team assistant excluded ids : quiet (F := F) (E := E) (stored_generations team assistant excluded ids).
Proof. induction ids as [|id ids IH]; cbn [stored_generations]; quietly. Qed.
#[local] Hint Resolve quiet_stored_generations : quiet.
Lemma quiet_generations b bind a excluded : quiet (F := F) (E := E) (generations b bind a excluded).
Proof. unfold generations. quietly. Qed.
#[local] Hint Resolve quiet_generations : quiet.
Lemma quiet_request_operation b r excluded : quiet (F := F) (E := E) (request_operation b r excluded).
Proof. unfold request_operation. quietly. Qed.
#[local] Hint Resolve quiet_request_operation : quiet.
Lemma quiet_unchanged b r : quiet (F := F) (E := E) (unchanged b r).
Proof. unfold unchanged. quietly. Qed.
Lemma quiet_slot d : quiet (F := F) (E := E) (slot_admission d).
Proof. unfold slot_admission. quietly. Qed.
Lemma quiet_prepare_each b origins rs : quiet (F := F) (E := E) (prepare_each b origins rs).
Proof. induction rs as [|r rs IH]; cbn [prepare_each]; quietly. Qed.

(** ** Attempts *)

(** A refused projection or exchange is reported as not dispatched only when the
    RPC says so. *)
Lemma settle_projection_dispatched (t : Target.Target) p (s s' : World) a : settle_projection t p s = (s', a) ->
  match a with inl (FailedNotDispatched _, _) => False | _ => True end.
Proof.
  unfold settle_projection, mbind, eff_bind, mret, eff_ret. cbv zeta. intros H.
  repeat match type of H with
  | context [match ?x with _ => _ end] => destruct x; try discriminate H
  | context [let '(_, _) := ?m in _] => destruct m
  end; by simplify_eq.
Qed.
Lemma quiet_settle_projection (t : Target.Target) p : quiet (F := F) (E := E) (settle_projection t p).
Proof. unfold settle_projection. destruct p as [[]|[]]; quietly. Qed.
#[local] Hint Resolve quiet_settle_projection : quiet.
Lemma quiet_rpc_failed (t : Target.Target) e : quiet (F := F) (E := E) (rpc_failed t e).
Proof. unfold rpc_failed. destruct e; quietly. Qed.
#[local] Hint Resolve quiet_rpc_failed : quiet.
Lemma quiet_settle_exchange (t : Target.Target) a sent p tr w : quiet (F := F) (E := E) (settle_exchange t a sent p tr w).
Proof. unfold settle_exchange, project_frame. quietly. Qed.

Lemma rpc_failed_dispatched (t : Target.Target) e (s s' : World) a : rpc_failed t e s = (s', a) ->
  match fst a with FailedNotDispatched _ => exists c, e = NotDispatched_ c | _ => True end.
Proof.
  unfold rpc_failed, mbind, eff_bind, mret, eff_ret. destruct e as [c|c|kind c]; cbn.
  - destruct (record _ _ _ _ s). intros [= <- <-]. cbn. eauto.
  - destruct (record _ _ _ _ _). by intros [= <- <-].
  - destruct (record _ _ _ _ s). by intros [= <- <-].
Qed.
Lemma settle_exchange_dispatched (t : Target.Target) a sent p tr w (s s' : World) out :
  settle_exchange t a sent p tr w s = (s', out) ->
  match out with inl (FailedNotDispatched _, _) => exists c, a = inl (NotDispatched_ c) | _ => True end.
Proof.
  unfold settle_exchange. destruct a as [e|raw]; unfold mbind, eff_bind, mret, eff_ret.
  - destruct (rpc_failed t e s) as [s1 [failed fault]] eqn:H. apply rpc_failed_dispatched in H.
    match goal with |- (let '(_, _) := ?m in _) = _ -> _ => destruct m end. intros [= <- <-]. cbn in H. destruct failed; [|done..].
    destruct H as [c ->]. eauto.
  - match goal with |- (let '(_, _) := ?m in _) = _ -> _ => destruct m end. intros H%settle_projection_dispatched. by destruct out as [[[] ?]|].
Qed.

(** What an attempt makes happen: the deeds of its RPC, none when it reports that
    nothing was dispatched. *)
Definition attempted (op : string) (out : Failed + Outcome) (t : list happening) : Prop :=
  exists deeds, t = map (Ran op) deeds /\ match out with inl (FailedNotDispatched _) => deeds = [] | _ => True end.

Lemma dispatch_emits (t : Target.Target) p tr encoded sent w o inj :
  emits (F := F) (E := E) (dispatch t p tr encoded sent w o inj) (attempted (Target.operation_id t)).
Proof.
  unfold dispatch. eapply (emits_bind _ _ (fun a u => exists deeds, u = map (Ran (Target.operation_id t)) deeds
    /\ match a with inl (NotDispatched_ _) => deeds = [] | _ => True end)).
  - intros s s' a. unfold exchange_call.
    pose proof (rpc_left_behind (Binding.container (Target.binding t)) (ActionSpec.id (Target.action t))
      (String.list_ascii_of_string encoded) (Some (attempt_broker t p tr)) (World.outside s)) as Hl.
    destruct (rpc_exchange _ _ _ _ _) as [[x deeds] answer]. intros [= <- <-]. eexists. split; [done|].
    rewrite journal_events_ran. split; [constructor|]. exists deeds. split; [done|]. by destruct answer as [[]|].
  - intros answer u (deeds & -> & Hd). apply quiet_then; [quietly|intros _].
    intros s s' out. unfold mbind, eff_bind. destruct (settle_exchange _ _ _ _ _ _ s) as [s1 settled] eqn:Hs.
    pose proof (settle_exchange_dispatched _ _ _ _ _ _ _ _ _ Hs) as Hset. pose proof (quiet_settle_exchange _ _ _ _ _ _ _ _ _ Hs) as Hq.
    destruct Hq as (t1 & Hh & Hj & ->). intros H.
    assert (exists t2, World.happened s' = World.happened s1 ++ t2 /\ jsteps (World.journal s1) (journal_events t2) (World.journal s') /\ t2 = []
            /\ out = match settled with inl (f, _) => inl f | inr x => inr x end) as (t2 & Hh2 & Hj2 & -> & Hout).
    { destruct settled as [[failed fault]|x].
      - unfold mret, eff_ret in H. destruct (watch_failed o t fault inj s1) as [s2 v] eqn:Hw. simplify_eq.
        destruct (quiet_failed _ _ _ _ _ _ _ Hw) as (t2 & ? & ? & ->). eauto 6.
      - unfold mret, eff_ret in H. simplify_eq. exists []. rewrite app_nil_r. split_and!; [done|constructor|done..]. }
    exists []. rewrite app_nil_r in *. rewrite Hh2, Hh. split_and!; [done|cbn in *; by eapply (jsteps_app _ _ _ [] [])|].
    exists deeds. rewrite app_nil_r. split; [done|]. subst out. destruct settled as [[[] ?]|]; try done. destruct Hset as [c ->]. done.
Qed.

Lemma attempt_emits (t : Target.Target) input tr d o :
  emits (F := F) (E := E) (attempt t input tr d o) (fun out u => attempted (Target.operation_id t) (snd out) u).
Proof.
  unfold attempt. apply quiet_then; [apply quiet_prepared|]. intros [inj [failed|[[private encoded] files]]].
  - apply quiet_then; [quietly|intros _]. apply emits_ret. exists []. cbn. split; [done|by destruct failed].
  - eapply emits_bind; [apply dispatch_emits|]. intros out u Hu. apply emits_ret. by rewrite app_nil_r.
Qed.

(** ** Calls of the journal *)
Definition replied_answer {A} (f : A -> reply) (a : answer A) : answer reply :=
  match a with Done x => Done (f x) | Refused e => Refused e end.

Lemma journal_call_emits {A} c (f : A -> reply) (m : journaled F E A) : run_command c = replied f m ->
  emits (journal_call (W := W) c f m) (fun a t => t = [Journaled (Called c (replied_answer f a))]).
Proof.
  intros Hc s s' a. unfold journal_call. destruct (m (World.journal s)) as [j x] eqn:Hm. intros [= <- <-].
  eexists. split; [done|]. split; [|done]. cbn [World.journal]. econstructor; [|constructor]. constructor. rewrite Hc.
  unfold replied, mbind, journaled_bind. rewrite Hm. by destruct x.
Qed.
Lemma journal_answer_emits {A} c (f : A -> reply) (m : journaled F E A) : run_command c = replied f m ->
  emits (journal_answer (journal_call (W := W) c f m)) (fun r t => exists a, t = [Journaled (Called c (replied_answer f a))]
    /\ match r with inr x => a = Done x | inl _ => exists e, a = Refused e end).
Proof.
  intros Hc. unfold journal_answer. eapply emits_bind; [by apply journal_call_emits|]. intros a t ->. apply emits_ret.
  exists a. split; [done|]. destruct a; eauto.
Qed.

Lemma and_then_emits {Er A C} (m : eff (Er + A)) (f : A -> eff (Er + C)) Q P :
  emits m Q -> (forall e t, Q (inl e) t -> P (inl e) t) -> (forall a t, Q (inr a) t -> emits (f a) (fun c u => P c (t ++ u))) ->
  emits (and_then m f) P.
Proof.
  intros Hm He Hf. unfold and_then. eapply emits_bind; [exact Hm|]. intros [e|a] t Ht; [|by apply Hf].
  apply emits_ret. rewrite app_nil_r. auto.
Qed.
Lemma and_then_quiet {Er A C} (m : eff (Er + A)) (f : A -> eff (Er + C)) P :
  quiet m -> (forall e, P (inl e) []) -> (forall a, emits (f a) P) -> emits (and_then m f) P.
Proof. intros Hm He Hf. eapply and_then_emits; [exact Hm|by intros e t ->|]. intros a t ->. apply Hf. Qed.

(** ** The calls of a batch *)
Lemma admitted_run_emits b r : emits (F := F) (E := E) (admitted_run b r) (fun out t =>
  match out with
  | inl _ => t = [] \/ exists h o e, t = [Journaled (Called (Begin h o) (Refused e))]
  | inr (h, o, _, _, _, decision) => t = [Journaled (Called (Begin h o) (Done (RExecution decision)))]
  end).
Proof.
  unfold admitted_run. destruct (ActionBatch.handle b) as [h|]; [|by apply emits_ret; left].
  apply and_then_quiet; [apply quiet_unchanged|by left|]. intros o.
  apply and_then_quiet; [apply quiet_admitted|by left|]. intros [binding action].
  destruct (action_file _ _ _) as [|file]; [by apply emits_ret; left|].
  apply and_then_quiet; [apply quiet_slot|by left|]. intros held.
  eapply and_then_emits; [by apply (journal_answer_emits (Begin h o))|..].
  - intros e t (a & -> & e' & ->). right. eauto.
  - intros decision t (a & -> & ->). by apply emits_ret.
Qed.

Lemma settle_emits b h o action out deeds :
  match out with inl (FailedNotDispatched _) => deeds = [] | _ => True end ->
  emits (F := F) (E := E) (settle_attempt (W := W) b h o action out) (fun _ t =>
    t = [] \/ exists c a, t = [Journaled (Called c a)] /\ settles h o deeds c).
Proof.
  intros Hd. unfold settle_attempt.
  eapply (emits_bind _ _ (fun _ t => t = [] \/ exists c a, t = [Journaled (Called c a)] /\ settles h o deeds c)).
  - unfold settle_call. destruct out as [[e|c|e]|[result|request]].
    + eapply emits_bind; [by apply (journal_call_emits (NotDispatched h o))|]. intros a t ->. apply emits_ret. right. do 2 eexists. by split.
    + destruct (_ =s _); [|by apply emits_ret; left].
      eapply emits_bind; [by apply (journal_call_emits (FailWithoutEffect h o))|]. intros a t ->. apply emits_ret. right. do 2 eexists. by split.
    + by apply emits_ret; left.
    + eapply emits_bind; [by apply (journal_call_emits (Complete h o result))|]. intros a t ->. apply emits_ret. right. do 2 eexists. by split.
    + eapply emits_bind; [by apply (journal_call_emits (Suspend h o))|]. intros a t ->. apply emits_ret. right. do 2 eexists. by split.
  - intros [recorded answer] t Ht. apply emits_ret. by rewrite app_nil_r.
Qed.

Lemma batch_run_emits b r : emits (F := F) (E := E) (batch_run b r) (fun _ => shape).
Proof.
  unfold batch_run. cbv zeta. eapply emits_bind; [apply admitted_run_emits|].
  intros [e|[[[[[h o] binding] action] delivery] decision]] t Ht.
  - apply emits_ret. rewrite app_nil_r. destruct Ht as [->|(h & o & e' & ->)]; [constructor|]. by constructor.
  - subst t. destruct (Execution.execute decision) eqn:Hx; cbn [negb].
    + eapply emits_bind; [apply attempt_emits|]. intros [inj out] u (deeds & -> & Hd). cbn [fst snd Target.operation_id] in *.
      eapply emits_impl; [by apply settle_emits|]. intros x v Hv. by apply (shape_attempt h o decision).
    + apply emits_ret. rewrite app_nil_r. by constructor.
Qed.

Lemma plain_emits {A C} c (f : A -> reply) (m : journaled F E A) (k : ActionError.ActionError + A -> eff C) :
  run_command c = replied f m -> (forall a, plain (Called c a)) -> (forall r, quiet (k r)) ->
  emits (journal_answer (journal_call (W := W) c f m) ≫= k) (fun _ => shape).
Proof.
  intros Hc Hp Hk. eapply emits_bind; [by apply journal_answer_emits|]. intros r t (a & -> & _).
  eapply emits_impl; [apply Hk|]. intros x u ->. rewrite app_nil_r. by constructor.
Qed.

Lemma batch_prepare_emits b rs : emits (F := F) (E := E) (batch_prepare b rs) (fun _ => shape).
Proof.
  unfold batch_prepare. destruct (is_some _); [apply emits_ret; constructor|]. cbv zeta.
  eapply (emits_bind _ _ (fun _ => shape)).
  - apply and_then_quiet; [apply quiet_prepare_each|constructor|]. intros prepared.
    apply plain_emits; [done|done|]. intros [e|h]; quietly.
  - intros x t Ht. apply emits_ret. by rewrite app_nil_r.
Qed.
Lemma batch_delivered_emits b rs : emits (F := F) (E := E) (batch_delivered (W := W) b rs) (fun _ => shape).
Proof.
  unfold batch_delivered. cbv zeta. destruct (ActionBatch.handle b) as [h|]; [|apply emits_ret; constructor].
  destruct (negb _); [apply emits_ret; constructor|]. apply plain_emits; [done|done|]. intros r. quietly.
Qed.
Lemma batch_settle_undelivered_emits b : emits (F := F) (E := E) (batch_settle_undelivered (W := W) b) (fun _ => shape).
Proof.
  unfold batch_settle_undelivered. eapply emits_impl; [by apply journal_answer_emits|]. intros r t (a & -> & _). by constructor.
Qed.
Lemma batch_terminate_emits b : emits (F := F) (E := E) (batch_terminate (W := W) b) (fun _ => shape).
Proof.
  unfold batch_terminate. cbv zeta. destruct (ActionBatch.handle b) as [h|]; [|apply emits_ret; constructor].
  destruct (_ && _); [apply emits_ret; constructor|].
  destruct (negb _); apply plain_emits; try done; intros r; quietly.
Qed.
Lemma invoke_direct_emits team r : emits (F := F) (E := E) (invoke_direct team r) (fun _ => shape).
Proof.
  unfold invoke_direct. apply and_then_quiet; [apply quiet_admitted|constructor|]. intros [binding action].
  apply quiet_then; [apply quiet_outside|]. intros [id|]; [|apply emits_ret; constructor]. cbv zeta.
  destruct (action_file _ _ _) as [|file]; [apply emits_ret; constructor|].
  eapply (emits_bind _ _ (fun _ t => t = [Direct])).
  { intros s s' x [= <- <-]. exists [Direct]. split_and!; [done|constructor|done]. }
  intros x t ->. eapply emits_bind; [apply attempt_emits|]. intros [inj out] u (deeds & -> & _). cbn [snd].
  apply (emits_impl _ (fun _ v => v = [])); [|intros y v ->; rewrite app_nil_r; constructor].
  destruct out as [failed|[result|request]]; unfold human_request_refused; [apply quiet_ret|apply quiet_ret|].
  apply quiet_bind; intros; quietly.
Qed.

(** ** Histories

    The calls on batches, whatever state their values are in, the direct route,
    the journal's maintenance, closing, and restarts, which lose everything but
    the tables. *)
Inductive call : Type :=
| CallPrepare (b : ActionBatch.ActionBatch) (rs : list ActionRequest.ActionRequest)
| CallInvoke (b : ActionBatch.ActionBatch) (r : ActionRequest.ActionRequest)
| CallDelivered (b : ActionBatch.ActionBatch) (rs : list ActionRequest.ActionRequest)
| CallSettleUndelivered (b : ActionBatch.ActionBatch)
| CallTerminate (b : ActionBatch.ActionBatch)
| CallDirect (team : string) (r : ActionRequest.ActionRequest)
| CallMaintenance (c : command).
Definition maintenance (c : command) : bool :=
  match c with Archive _ _ | Release _ _ | Discard _ | Purge _ | PurgeBatch _ _ => true | _ => false end.
Definition perform (c : call) : eff unit :=
  match c with
  | CallPrepare b rs => _ ← batch_prepare b rs; mret tt
  | CallInvoke b r => _ ← batch_run b r; mret tt
  | CallDelivered b rs => _ ← batch_delivered b rs; mret tt
  | CallSettleUndelivered b => _ ← batch_settle_undelivered b; mret tt
  | CallTerminate b => _ ← batch_terminate b; mret tt
  | CallDirect team r => _ ← invoke_direct team r; mret tt
  | CallMaintenance c => if maintenance c then _ ← journal_call c id (run_command c); mret tt else mret tt
  end.

Inductive rstep : World -> list happening -> World -> Prop :=
| rstep_call c s s' u t : perform c s = (s', u) -> World.happened s' = World.happened s ++ t -> rstep s t s'
| rstep_close s : rstep s [Journaled Closed] (World.mk _ _ _ (World.outside s) (close (World.journal s)) (World.blocked s)
                                                (World.happened s ++ [Journaled Closed]))
| rstep_restart s w f e : rstep s [Journaled Restarted]
    (World.mk _ _ _ w (Journal.mk _ _ (Journal.limits (World.journal s)) true (Journal.tables (World.journal s)) f e) []
       (World.happened s ++ [Journaled Restarted])).
Inductive rsteps : World -> list (list happening) -> World -> Prop :=
| rsteps_nil s : rsteps s [] s
| rsteps_cons s t s1 h s' : rstep s t s1 -> rsteps s1 h s' -> rsteps s (t :: h) s'.

Lemma perform_emits c : emits (perform c) (fun _ => shape).
Proof.
  assert (forall A (m : eff A), emits m (fun _ => shape) -> emits (_ ← m; mret tt) (fun _ => shape)) as H.
  { intros A m Hm. eapply emits_bind; [exact Hm|]. intros a t Ht. apply emits_ret. by rewrite app_nil_r. }
  destruct c as [b rs|b r|b rs|b|b|team r|c]; cbn [perform].
  - apply H, batch_prepare_emits.
  - apply H, batch_run_emits.
  - apply H, batch_delivered_emits.
  - apply H, batch_settle_undelivered_emits.
  - apply H, batch_terminate_emits.
  - apply H, invoke_direct_emits.
  - destruct (maintenance c) eqn:Hm; [|apply emits_ret; constructor]. apply H. intros s s' a. unfold journal_call.
    destruct (run_command c (World.journal s)) as [j x] eqn:Hr. intros [= <- <-]. eexists. split; [done|]. split.
    + cbn [World.journal journal_events omap list_omap journal_event]. econstructor; [|constructor]. constructor. rewrite Hr. by destruct x.
    + constructor. by destruct c.
Qed.

Lemma rstep_shape s t s' : rstep s t s' -> shape t /\ jsteps (World.journal s) (journal_events t) (World.journal s').
Proof.
  intros [c s0 s0' u t0 Hp Hh|s0|s0 w f e].
  - destruct (perform_emits c _ _ _ Hp) as (t' & Hh' & Hj & Hs). rewrite Hh' in Hh. apply app_inv_head in Hh. by subst t'.
  - split; [by constructor|]. cbn. econstructor; [constructor|constructor].
  - split; [by constructor|]. cbn. econstructor; [constructor|constructor].
Qed.
Lemma rsteps_journal s h s' : rsteps s h s' ->
  List.Forall shape h /\ jsteps (World.journal s) (concat (map journal_events h)) (World.journal s').
Proof.
  induction 1 as [s|s t s1 h s' H _ [IH1 IH2]]; [split; constructor|]. apply rstep_shape in H as [Hs Hj].
  split; [by constructor|]. cbn [map concat]. by eapply jsteps_app.
Qed.
End Quiet.

(** ** Once *)

(** A call that removes the batch of the generation that holds the interrupt. *)
Definition removes (g i : string) (ev : event) : Prop :=
  releases g i ev /\ match ev with Called (Suspend _ _) _ | Called (NotDispatched _ _) _ => False | _ => True end.
(** A call that was granted the operation, and one that then started a process. *)
Definition granted (g i : string) (t : list happening) : Prop := exists ev, In (Journaled ev) t /\ grants g i ev.
Definition starts (g i : string) (t : list happening) : Prop :=
  granted g i t /\ exists op container, In (Ran op (Started container)) t.
Definition suspends (t : list happening) : Prop := exists b o a, In (Journaled (Called (Suspend b o) a)) t.

Lemma in_journal_events ev t : In ev (journal_events t) <-> In (Journaled ev) t.
Proof.
  unfold journal_events. rewrite <- list_elem_of_In, list_elem_of_omap. split.
  - intros ([ev'| |] & Hin & Heq); cbn in Heq; simplify_eq. by apply list_elem_of_In.
  - intros Hin. exists (Journaled ev). split; [by apply list_elem_of_In|done].
Qed.
Lemma not_in_ran ev op deeds : ~ In (Journaled ev) (map (Ran op) deeds).
Proof. intros (d & Hd & _)%in_map_iff. done. Qed.

(** The operation a call was granted is the one it began with. *)
Lemma granted_first g i t ev : shape t -> In (Journaled ev) t -> grants g i ev -> exists es, journal_events t = ev :: es.
Proof.
  intros Hs Hin Hg. destruct Hs as [|ev' Hp|b o e op deeds settle He Hset|op deeds].
  - done.
  - destruct Hin as [[= ->]|[]]. by exists [].
  - destruct Hin as [[= <-]|Hin]; [eexists; done|]. apply in_app_iff in Hin as [Hin|Hin]; [by apply not_in_ran in Hin|].
    destruct Hset as [->|(c & a & -> & Hc)]; [done|]. destruct Hin as [[= <-]|[]]. by destruct c.
  - destruct Hin as [[=]|Hin]. by apply not_in_ran in Hin.
Qed.

(** A call that is not granted the operation and does not remove its batch does
    not release it. *)
Lemma keeps_taken g i t : shape t -> ~ granted g i t -> (forall ev, In (Journaled ev) t -> ~ removes g i ev) ->
  forall ev, In ev (journal_events t) -> ~ releases g i ev.
Proof.
  intros Hs Hng Hnr ev Hin%in_journal_events Hrel. apply (Hnr ev Hin). split; [done|].
  destruct Hs as [|ev' Hp|b o e op deeds settle He Hset|op deeds].
  - done.
  - destruct Hin as [[= ->]|[]]. destruct ev as [[] a| |]; try done.
  - destruct Hin as [[= <-]|Hin]; [done|]. apply in_app_iff in Hin as [Hin|Hin]; [by apply not_in_ran in Hin|].
    destruct Hset as [->|(c & a & -> & Hc)]; [done|]. destruct Hin as [[= <-]|[]]. destruct c; try done; apply Hng;
      eexists; (split; [by left|]); destruct a; try done; cbn [settles] in Hc; destruct_and!; subst; cbn in Hrel |- *; naive_solver.
  - destruct Hin as [[=]|Hin]. by apply not_in_ran in Hin.
Qed.

(** A started attempt that did not ask a person releases nothing. *)
Lemma started_keeps g i t : shape t -> starts g i t -> ~ suspends t ->
  exists ev es, journal_events t = ev :: es /\ grants g i ev /\ forall e, In e es -> ~ releases g i e.
Proof.
  intros Hs [(ev & Hin & Hg) (op' & container & Hran)] Hns. destruct (granted_first _ _ _ _ Hs Hin Hg) as [es Hes].
  exists ev, es. split; [done|split; [done|]]. destruct Hs as [|ev' Hp|b o e op deeds settle He Hset|op deeds].
  - done.
  - destruct Hran as [[=]|[]].
  -
    change (Called (Begin b o) (Done (RExecution e)) :: journal_events (map (Ran op) deeds ++ settle) = ev :: es) in Hes.
    injection Hes as <- <-. rewrite journal_events_app, journal_events_ran. cbn [app].
    destruct Hset as [->|(c & a & -> & Hc)]; [done|]. intros x [<-|[]]. destruct c; try done; try (by intros []); cbn [settles] in Hc.
    + intros _. apply Hns. do 3 eexists. right. apply in_app_iff. right. by left.
    + destruct Hc as (_ & _ & ->). cbn in Hran. by destruct Hran as [[=]|[[=]|[]]].
  - destruct Hin as [[=]|Hin]. by apply not_in_ran in Hin.
Qed.

Lemma follows_prefix {PF : Platform} l s es es' s' : follows l s (es ++ es') s' -> exists s1, follows l s es s1.
Proof.
  revert s. induction es as [|ev es IH]; intros s H; [exists s; by constructor|]. cbn [app] in H.
  inversion H; subst; match goal with Hf : follows _ _ (es ++ es') _ |- _ => apply IH in Hf as [s2 Hf] end; exists s2.
  - by eapply follows_done.
  - by eapply follows_refused.
  - by eapply follows_closed.
  - by eapply follows_restarted.
Qed.

Lemma no_grant_next {PF : Platform} l s es1 ev1 mid t rest s' g i :
  follows l s (es1 ++ ev1 :: mid ++ journal_events t ++ rest) s' -> grants g i ev1 ->
  (forall e, In e mid -> ~ releases g i e) -> shape t -> ~ granted g i t.
Proof.
  intros Hf Hg Hmid Hs (ev & Hin & Hgr). destruct (granted_first _ _ _ _ Hs Hin Hgr) as [es Hes]. rewrite Hes in Hf.
  cbn [app] in Hf. replace (es1 ++ ev1 :: mid ++ ev :: es ++ rest) with ((es1 ++ ev1 :: mid ++ [ev]) ++ es ++ rest) in Hf
    by (rewrite <- !app_assoc; cbn [app]; by rewrite <- app_assoc).
  apply follows_prefix in Hf as [s1 Hf]. by eapply granted_twice.
Qed.

Lemma no_grant_later {PF : Platform} l s es1 ev1 mid h second s' g i :
  follows l s (es1 ++ ev1 :: mid ++ concat (map journal_events (h ++ [second]))) s' -> grants g i ev1 ->
  (forall e, In e mid -> ~ releases g i e) -> List.Forall shape (h ++ [second]) ->
  (forall t ev, In t h -> In (Journaled ev) t -> ~ removes g i ev) -> ~ granted g i second.
Proof.
  revert mid. induction h as [|t h IH]; intros mid Hf Hg Hmid Hs Hnr; cbn [app map concat] in *.
  - inversion_clear Hs. by eapply no_grant_next.
  - inversion_clear Hs as [|? ? Ht Hs']. pose proof (no_grant_next _ _ _ _ _ _ _ _ _ _ Hf Hg Hmid Ht) as Hng.
    eapply (IH (mid ++ journal_events t)); [by rewrite <- app_assoc|done| |done|intros u ev Hu; apply Hnr; by right].
    intros e [He|He]%in_app_iff; [by apply Hmid|]. eapply keeps_taken; [done|done| |done]. intros ev. apply Hnr. by left.
Qed.

(** C4. An operation runs once.  In any history of the executor's calls over one
    journal, restarts included: after a call that was granted an operation
    started its process, and the Action did not ask a person, no later call
    starts that operation again, unless its batch was removed in between. *)
Theorem operation_runs_once {W K F E : Type} `{!Engine F} `{!Entropy E} {PF : Platform} {V : Vocabulary} {B : Base64}
  {X : Regexes} {S : Schemas} `{!Entropy W} `{!ExecEngine W} `{!CallBroker K} `{!Collaborators W K}
  (s s' : World.World W F E) (h1 h2 : list (list happening)) (first second : list happening) (g i : string) :
  TInv (Journal.tables (World.journal s)) -> rsteps s (h1 ++ first :: h2 ++ [second]) s' ->
  starts g i first -> ~ suspends first ->
  (forall t ev, In t h2 -> In (Journaled ev) t -> ~ removes g i ev) -> ~ starts g i second.
Proof.
  intros Hinv Hh Hst Hns Hnr [Hgr _]. apply rsteps_journal in Hh as [Hs Hj]. destruct (jsteps_follow _ _ _ Hinv Hj) as (_ & _ & Hf).
  apply List.Forall_app in Hs as [_ Hs]. inversion_clear Hs as [|? ? Hfirst Hrest].
  destruct (started_keeps _ _ _ Hfirst Hst Hns) as (ev & es & Hes & Hg & Hmid).
  rewrite map_app, concat_app in Hf. cbn [map concat] in Hf. rewrite Hes in Hf.
  by eapply no_grant_later in Hgr.
Qed.

(** ** A history

    A prepared batch runs its one operation, and is asked to run it again. *)
Module Sample.
Definition action : ActionSpec.ActionSpec :=
  ActionSpec.mk "read" "Read" (VObject []) (VObject []) [] [] [] [] "read_only" None None.
Definition binding : Binding.Binding :=
  Binding.mk (Contract.mk [action] [] [] (VObject [])) "assistant" "Assistant" "1" "" "container" "image".
Definition answer : string := "{" +:+ quote +:+ "type" +:+ quote +:+ ":" +:+ quote +:+ "result" +:+ quote +:+ ","
  +:+ quote +:+ "result" +:+ quote +:+ ":{}}".

#[export] Instance entropy : Entropy unit := fun n w => (w, Some (nul_bytes n)).
#[export] Instance engine : ExecEngine unit := {|
  slot_admit := fun _ w => (w, true);
  is_stopped := fun _ => false;
  start_exec := fun _ w => (w, Some true);
  stream_events := fun w =>
    (w, [Wrote (Z.to_nat 100000); ReadBytes (encode_frame (Frame.mk false (byte_of 0, byte_of 0, byte_of 0) (String.list_ascii_of_string answer)));
         ReadBytes []]);
  inspect_exec := fun w => (w, Some (Some (ExecExit.mk false (Some 0))));
  fail_stop_workload := fun _ w => (w, true);
  stop_interrupts := fun w => (w, false)
|}.
#[export] Instance broker : CallBroker unit := {|
  broker_answer := fun _ k => (k, inr []);
  broker_calls := fun _ => O;
  broker_release := fun k => k
|}.
#[export] Instance collaborators : Collaborators unit unit := {|
  workload_binding := fun _ _ w => (w, inr binding);
  resolve_integrations := fun _ _ _ w => (w, Some []);
  integration_metadata := fun _ _ _ w => (w, Some []);
  resolve_stored_input := fun _ w => (w, inl StoredMissing);
  delete_stored_input := fun _ w => w;
  read_file := fun _ _ w => (w, None);
  acquire_slot := fun w => (w, inr tt);
  audit_record := fun _ w => (w, None);
  resolve_provider := fun _ => None;
  new_broker := fun _ => tt;
  logical_operation := fun _ _ => None;
  observe_dispatching := fun _ _ _ _ w => (w, true);
  observe_returned := fun _ w => w;
  observe_failed := fun _ _ _ _ w => w
|}.
Definition schemas : Schemas := fun _ _ => None.

Definition request : ActionRequest.ActionRequest := ActionRequest.mk "interrupt-1" "assistant" "read" (VObject []) [].
Definition batch : ActionBatch.ActionBatch :=
  batch_new (BatchScope.mk "team" "generation" "thread" true []) false.
Definition world : World.World unit (list bool) (list (option string)) :=
  World.mk _ _ _ tt (empty_journal default_limits [] [Some "abcdefghijklmnop"%string]) [] [].

Definition performs (c : call) (s : World.World unit (list bool) (list (option string)))
  : World.World unit (list bool) (list (option string)) :=
  fst (perform (PF := utc_platform) (V := plain_vocabulary) (B := fun s => s) (X := fun _ text _ => Some text) (S := schemas) (K := unit) c s).
Definition after_prepare := Eval vm_compute in
  batch_prepare (PF := utc_platform) (S := schemas) (K := unit) batch [request] world.
Definition prepared_batch : ActionBatch.ActionBatch := Eval vm_compute in fst (snd after_prepare).
Definition prepared_world := Eval vm_compute in performs (CallPrepare batch [request]) world.
Definition ran_world := Eval vm_compute in performs (CallInvoke prepared_batch request) prepared_world.
Definition again_world := Eval vm_compute in performs (CallInvoke prepared_batch request) ran_world.

Definition new_happenings (s s' : World.World unit (list bool) (list (option string))) : list happening :=
  drop (length (World.happened s)) (World.happened s').
Definition first := Eval vm_compute in new_happenings prepared_world ran_world.
Definition second := Eval vm_compute in new_happenings ran_world again_world.
End Sample.
Import Sample.

Lemma sample_history :
  rsteps (PF := utc_platform) (V := plain_vocabulary) (B := fun s => s) (X := fun _ text _ => Some text) (S := schemas) (K := unit)
    prepared_world ([] ++ first :: [] ++ [second]) again_world.
Proof.
  cbn [app]. eapply (rsteps_cons _ _ ran_world).
  { apply (rstep_call (CallInvoke prepared_batch request) _ _ tt); vm_compute; reflexivity. }
  eapply (rsteps_cons _ _ again_world); [|constructor].
  apply (rstep_call (CallInvoke prepared_batch request) _ _ tt); vm_compute; reflexivity.
Qed.
Lemma sample_prepared_inv : TInv (Journal.tables (World.journal prepared_world)).
Proof.
  pose proof (perform_emits (F := list bool) (E := list (option string)) (PF := utc_platform) (V := plain_vocabulary) (B := fun s => s)
    (X := fun _ text _ => Some text) (S := schemas) (K := unit) (CallPrepare batch [request])) as H.
  destruct (H world prepared_world tt ltac:(vm_compute; reflexivity)) as (t & _ & Hj & _).
  apply (jsteps_follow (World.journal world) _ _ TInv_empty Hj).
Qed.

Lemma operation_runs_once_witness : starts "generation" "interrupt-1" first /\ ~ starts "generation" "interrupt-1" second.
Proof.
  assert (starts "generation" "interrupt-1" first) as Hs.
  { split; [eexists; split; [left; reflexivity|vm_compute; auto]|do 2 eexists; right; left; reflexivity]. }
  split; [exact Hs|].
  apply (operation_runs_once (PF := utc_platform) (V := plain_vocabulary) (B := fun s => s) (X := fun _ text _ => Some text) (S := schemas)
           (K := unit) prepared_world again_world [] [] first second); [exact sample_prepared_inv|exact sample_history|exact Hs| |].
  - intros (b & o & a & H). cbn in H. destruct H as [H|[H|[H|[]]]]; discriminate H.
  - intros t ev [].
Defined.
