(* ===== verification/Routes.v ===== *)
(** * The endpoints a credential may be sent to

    [vendor/assistant-protocol/src/route.rs]: a Stored Input's reviewed routes and
    the match of a call against them; [assistant/src/provider.rs]: the reviewed
    OAuth providers, their endpoints and scopes. *)

From stdpp Require Import base tactics list strings.
From Stdlib Require Import ZArith Lia Ascii.
From S2P Require Import Prelude Text Json Calendar Platform Wire Requests Redaction.

#[local] Open Scope Z_scope.

(** ** Stored Input routes ([route.rs]) *)
Definition METHODS : list string := ["GET"; "HEAD"; "POST"; "PUT"; "PATCH"; "DELETE"]%string.
Definition MAX_ROUTES : Z := 32.
Definition MAX_PATH : Z := 512.
Definition MAX_SELECTORS : Z := 8.
Definition MAX_SELECTOR_VALUES : Z := 16.
Definition MAX_SELECTOR_VALUE : Z := 256.
Definition WILDCARD : string := "*".
Definition CREDENTIAL_STEMS : list string :=
  ["apikey"; "authoriz"; "credential"; "oauth"; "password"; "secret"; "token"]%string.

Definition unreserved_text (s : string) (maximum : Z) : bool :=
  (1 <=? slen s) && (slen s <=? maximum) && all_bytes unreserved s.

(** [char::to_lowercase], as far as an ASCII stem can see it: the two code points
    outside ASCII whose lowercase has an ASCII letter are the Kelvin sign and the
    dotted capital I; every other stays outside ASCII. *)
Definition lowercase_char (c : Z) : list Z :=
  if (0x41 <=? c) && (c <=? 0x5a) then [c + 32]
  else if c =? 0x212a then [0x6b]
  else if c =? 0x130 then [0x69; 0x307]
  else [c].
Definition credential_segment (segment : string) : bool :=
  let kept := List.filter (fun c => negb (existsb (Z.eqb c) [0x2d; 0x5f; 0x2e; 0x7e])) (chars segment) in
  let folded := String.concat "" (map utf8 (concat (map lowercase_char kept))) in
  existsb (fun stem => has_sub stem folded) CREDENTIAL_STEMS.

Definition dotted (segment : string) : bool := (segment =s ".") || (segment =s "..").
Definition literal (segment : string) : bool := unreserved_text segment 64 && negb (dotted segment).
Definition concrete (segment : string) : bool :=
  unreserved_text segment 256 && negb (dotted segment) && negb (credential_segment segment).
Definition selector_name (s : string) : bool := unreserved_text s 64.

(** [(?:[A-Za-z0-9._~-]|%[0-9A-F]{2})+]. *)
Definition upper_hex (a : ascii) : bool := is_digit a || between 0x41 0x46 a.
Fixpoint selector_bytes (s : string) : bool :=
  match s with
  | EmptyString => true
  | String a rest =>
      if unreserved a then selector_bytes rest
      else if one_of "%" a then
        match rest with
        | String h (String l rest') => upper_hex h && upper_hex l && selector_bytes rest'
        | _ => false
        end
      else false
  end.
Definition selector_value (s : string) : bool := selector_bytes s && negb (is_empty s).

Definition within (low high : Z) (l : list Value) : bool := (low <=? len l) && (len l <=? high).
Definition values_admitted (values : Value) : bool :=
  match array values with
  | Some items =>
      within 1 MAX_SELECTOR_VALUES items
      && (let texts := omap as_str items in
          Nat.eqb (length texts) (length items)
          && forallb (fun v => (char_len v <=? MAX_SELECTOR_VALUE) && selector_value v) texts
          && distinct_texts [] texts)
  | None => false
  end.
Fixpoint selectors_each (names : list string) (selectors : list Value) : bool :=
  match selectors with
  | [] => true
  | selector :: rest =>
      match object_members selector with
      | Some ms =>
          holds_exactly ms ["name"; "values"]%string
          && match text_of (member_of ms "name") with
             | Some name =>
                 selector_name name
                 && negb (contains names (lower name))
                 && match member_of ms "values" with Some values => values_admitted values | None => false end
                 && selectors_each (names ++ [lower name]) rest
             | None => false
             end
      | None => false
      end
  end.
Definition selectors_admitted (selectors : Value) : bool :=
  match array selectors with
  | Some items => within 1 MAX_SELECTORS items && selectors_each [] items
  | None => false
  end.

Definition route_error (route : Value) : option string :=
  match object_members route with
  | None => Some "route_invalid"%string
  | Some ms =>
      let shaped := is_some (member_of ms "method") && is_some (member_of ms "path")
                    && forallb (fun kv => contains ["method"; "path"; "query"]%string (fst kv)) ms in
      if negb shaped || negb match text_of (member_of ms "method") with Some m => contains METHODS m | None => false end
      then Some "route_invalid"%string
      else
        match (path ← text_of (member_of ms "path");
               if char_len path <=? MAX_PATH then strip_prefix "/" path else None) with
        | None => Some "route_path_invalid"%string
        | Some rest =>
            let segments := split_on "/" rest in
            if negb (forallb (fun segment => (segment =s WILDCARD) || literal segment) segments) then Some "route_path_invalid"%string
            else if existsb (fun segment => negb (segment =s WILDCARD) && credential_segment segment) segments
            then Some "route_credential"%string
            else match member_of ms "query" with
                 | Some selectors => if selectors_admitted selectors then None else Some "route_query_invalid"%string
                 | None => None
                 end
        end
  end.

(** [method_and_path]. *)
Definition method_and_path (route : Value) : string * string :=
  (default ""%string (text_of (get route "method")), default ""%string (text_of (get route "path"))).
Fixpoint routes_each (declared : list (string * string)) (routes : list Value) : option string :=
  match routes with
  | [] => None
  | route :: rest =>
      match route_error route with
      | Some error => Some error
      | None =>
          let key := method_and_path route in
          if existsb (fun seen => (fst seen =s fst key) && (snd seen =s snd key)) declared then Some "route_duplicate"%string
          else routes_each (declared ++ [key]) rest
      end
  end.
Definition routes_error (routes : Value) : option string :=
  match array routes with
  | Some items => if within 1 MAX_ROUTES items then routes_each [] items else Some "routes_invalid"%string
  | None => Some "routes_invalid"%string
  end.

(** [matches]: the declared path's segments against the call's. *)
Definition path_matches (pattern : string) (segments : list string) : bool :=
  let expected := split_on "/" (from 1 pattern) in
  Nat.eqb (length expected) (length segments)
  && forallb (fun pair => (fst pair =s WILDCARD) || (fst pair =s snd pair)) (combine expected segments).
Definition query_pairs (query : string) : list (string * string) :=
  if is_empty query then []
  else map (fun part => default (part, ""%string) (split_first "=" part)) (split_on "&" query).
Definition selector_matched (selector : Value) (pairs : list (string * string)) : bool :=
  let name := default ""%string (text_of (get selector "name")) in
  let values := default [] (array_of (get selector "values")) in
  match List.filter (fun pair => lower (fst pair) =s lower name) pairs with
  | [(candidate, value)] => (candidate =s name) && existsb (fun listed => is_text (Some listed) value) values
  | _ => false
  end.
Definition selected_by (selectors : option Value) (query : string) : bool :=
  let selectors := default [] (array_of selectors) in
  match selectors with
  | [] => true
  | _ =>
      let pairs := query_pairs query in
      if negb (all_bytes (fun a => negb (one_of ";" a)) query) || existsb (fun pair => negb (selector_name (fst pair))) pairs then false
      else forallb (fun selector => selector_matched selector pairs) selectors
  end.

(** [target.split_once('?').unwrap_or((target, ""))]. *)
Definition split_target (target : string) : string * string := default (target, ""%string) (split_first "?" target).
Definition call_error (routes : Value) (method target : string) : option string :=
  match routes_error routes with
  | Some error => Some error
  | None =>
      let '(path, query) := split_target target in
      match strip_prefix "/" path with
      | None => Some "route_path"%string
      | Some rest =>
          let segments := split_on "/" rest in
          if negb (forallb concrete segments) then Some "route_path"%string
          else if existsb (fun route =>
                    (fst (method_and_path route) =s method) && path_matches (snd (method_and_path route)) segments
                    && selected_by (get route "query") query) (default [] (array routes))
          then None else Some "route"%string
      end
  end.

(** ** Reviewed providers ([assistant/src/provider.rs]) *)
Definition MAX_REQUESTED_SCOPES : Z := 32.
Inductive Segment : Type := Literal (text : string) | Hex32.
Module Route.
Record Route : Type := mk { method : string; segments : list Segment }.
End Route.
Module Provider.
Record Provider : Type := mk {
  id : string;
  api_hosts : list string;
  allowed_scopes : list string;
  routes : list Route.Route
}.
End Provider.
Definition segment_matches (segment : Segment) (part : string) : bool :=
  match segment with
  | Literal text => text =s part
  | Hex32 => (slen part =? 32) && all_bytes is_hex part
  end.
(** [Provider::allows]. *)
Definition provider_allows (p : Provider.Provider) (method path : string) : bool :=
  match strip_prefix "/" path with
  | None => false
  | Some rest =>
      let parts := split_on "/" rest in
      existsb (fun route =>
        (Route.method route =s method) && Nat.eqb (length (Route.segments route)) (length parts)
        && forallb (fun pair => segment_matches (fst pair) (snd pair)) (combine (Route.segments route) parts))
        (Provider.routes p)
  end.

Definition ZONES : list Segment := [Literal "client"; Literal "v4"; Literal "zones"].
Definition ZONE : list Segment := ZONES ++ [Hex32].
Definition RECORDS : list Segment := ZONE ++ [Literal "dns_records"].
Definition RECORD : list Segment := RECORDS ++ [Hex32].
Definition CLOUDFLARE : Provider.Provider :=
  Provider.mk "cloudflare" ["api.cloudflare.com"] ["dns.read"; "dns.write"; "offline_access"; "zone.read"]
    [Route.mk "GET" ZONES; Route.mk "GET" ZONE; Route.mk "GET" RECORDS; Route.mk "GET" RECORD;
     Route.mk "POST" RECORDS; Route.mk "PUT" RECORD; Route.mk "DELETE" RECORD]%string.
Definition PROVIDERS : list Provider.Provider := [CLOUDFLARE].

(** [resolve]: only a reviewed provider's canonical identifier. *)
Definition provider_resolve (provider : Value) : option Provider.Provider :=
  identifier ← canonical_identifier provider;
  List.find (fun candidate => Provider.id candidate =s identifier) PROVIDERS.

(** [[a-z][a-z0-9]*(?:[._:-][a-z0-9]+)*]. *)
Definition is_separator : ascii -> bool := one_of "._:-".
Fixpoint double_separator (s : string) : bool :=
  match s with
  | String a (String b _ as rest) => (is_separator a && is_separator b) || double_separator rest
  | _ => false
  end.
Definition scope_grammar (scope : string) : bool :=
  starts_with is_lower scope && negb (ends_with is_separator scope) && negb (double_separator scope)
  && all_bytes (fun a => is_lower a || is_digit a || is_separator a) scope.
Fixpoint intent_scopes (p : Provider.Provider) (scopes : list string) (requested : list Value) : option (list string) :=
  match requested with
  | [] => Some scopes
  | item :: rest =>
      scope ← as_str item;
      if negb (scope_grammar scope) || contains scopes scope || negb (contains (Provider.allowed_scopes p) scope) then None
      else intent_scopes p (scopes ++ [scope]) rest
  end.
Definition integration_intent (provider requested : Value) : option (Provider.Provider * list string) :=
  p ← provider_resolve provider;
  items ← array requested;
  if negb (within 1 MAX_REQUESTED_SCOPES items) then None
  else scopes ← intent_scopes p [] items; Some (p, stable_sort sleb scopes).
