(* ===== verification/Credentials.v ===== *)
(** * Provider calls and the credentials placed on them

    [action/src/provider/{frame,credential}.rs] and the records of
    [action/src/provider/mod.rs]: the admission of one call frame, the placement of
    an Action's credentials, and the search of a response for them.  Python's
    [str.lower] is [protocol/http/rust/src/python/text.rs]; its tables are a
    parameter, as are HMAC-SHA256 and the base64 decoder. *)

From stdpp Require Import base tactics list strings.
From Stdlib Require Import ZArith Lia Ascii.
From S2P Require Import Prelude Text Json Reader Utf8 Calendar Platform Requests Redaction RedactionSafety Routes.

#[local] Open Scope Z_scope.

(** [python/tables]: the lowercase mapping and the two case properties. *)
Class CaseTables : Type := {
  LOWER : Z -> option string;
  CASED : Z -> bool;
  CASE_IGNORABLE : Z -> bool
}.
(** [hmac::Hmac<Sha256>] and [base64::STANDARD.decode]. *)
Class Decoders : Type := {
  hmac_sha256 : string -> string -> string;
  base64_standard_decode : string -> option string
}.

(** ** Text *)
Section Lower.
  Context {T : CaseTables}.

Definition CAPITAL_SIGMA : Z := 0x3a3.
(** [final_sigma], with the characters before it nearest first. *)
Definition final_sigma (before after : list Z) : bool :=
  let cased_stop c := negb (CASE_IGNORABLE c) in
  match List.find cased_stop before with Some c => CASED c | None => false end
  && match List.find cased_stop after with Some c => negb (CASED c) | None => true end.
Fixpoint lower_from (before cs : list Z) : string :=
  match cs with
  | [] => EmptyString
  | c :: rest =>
      (if c =? CAPITAL_SIGMA then utf8 (if final_sigma before rest then 0x3c2 else 0x3c3)
       else default (utf8 c) (LOWER c)) +:+ lower_from (c :: before) rest
  end.
(** [lower] of a text given by its characters. *)
Definition py_lower (cs : list Z) : string := lower_from [] cs.
End Lower.

(** [String::from_utf8_lossy]: the characters, every maximal invalid part as
    U+FFFD. *)
Definition REPLACEMENT : Z := 0xfffd.
Definition second_of_three (b c : Z) : bool :=
  if b =? 0xe0 then (0xa0 <=? c) && (c <=? 0xbf)
  else if b =? 0xed then (0x80 <=? c) && (c <=? 0x9f)
  else (0x80 <=? c) && (c <=? 0xbf).
Definition second_of_four (b c : Z) : bool :=
  if b =? 0xf0 then (0x90 <=? c) && (c <=? 0xbf)
  else if b =? 0xf4 then (0x80 <=? c) && (c <=? 0x8f)
  else (0x80 <=? c) && (c <=? 0xbf).
Fixpoint utf8_lossy (s : string) : list Z :=
  match s with
  | EmptyString => []
  | String a s1 =>
      let b := byte_code a in
      if b <? 0x80 then b :: utf8_lossy s1
      else if (0xc2 <=? b) && (b <=? 0xdf) then
        match s1 with
        | String c s2 =>
            if continues_char c then ((b - 0xc0) * 64 + (byte_code c - 0x80)) :: utf8_lossy s2
            else REPLACEMENT :: utf8_lossy s1
        | EmptyString => [REPLACEMENT]
        end
      else if (0xe0 <=? b) && (b <=? 0xef) then
        match s1 with
        | String c s2 =>
            if second_of_three b (byte_code c) then
              match s2 with
              | String d s3 =>
                  if continues_char d
                  then ((b - 0xe0) * 4096 + (byte_code c - 0x80) * 64 + (byte_code d - 0x80)) :: utf8_lossy s3
                  else REPLACEMENT :: utf8_lossy s2
              | EmptyString => [REPLACEMENT]
              end
            else REPLACEMENT :: utf8_lossy s1
        | EmptyString => [REPLACEMENT]
        end
      else if (0xf0 <=? b) && (b <=? 0xf4) then
        match s1 with
        | String c s2 =>
            if second_of_four b (byte_code c) then
              match s2 with
              | String d s3 =>
                  if continues_char d then
                    match s3 with
                    | String e s4 =>
                        if continues_char e
                        then ((b - 0xf0) * 262144 + (byte_code c - 0x80) * 4096 + (byte_code d - 0x80) * 64
                              + (byte_code e - 0x80)) :: utf8_lossy s4
                        else REPLACEMENT :: utf8_lossy s3
                    | EmptyString => [REPLACEMENT]
                    end
                  else REPLACEMENT :: utf8_lossy s2
              | EmptyString => [REPLACEMENT]
              end
            else REPLACEMENT :: utf8_lossy s1
        | EmptyString => [REPLACEMENT]
        end
      else REPLACEMENT :: utf8_lossy s1
  end.

(** [char::encode_utf16] and [String::from_utf16_lossy]. *)
Definition utf16 (c : Z) : list Z :=
  if c <? 0x10000 then [c] else [0xd800 + (c - 0x10000) / 1024; 0xdc00 + (c - 0x10000) mod 1024].
Definition is_high (u : Z) : bool := (0xd800 <=? u) && (u <=? 0xdbff).
Definition is_low (u : Z) : bool := (0xdc00 <=? u) && (u <=? 0xdfff).
Fixpoint utf16_lossy (us : list Z) : list Z :=
  match us with
  | [] => []
  | u :: rest =>
      if is_high u then
        match rest with
        | l :: rest' =>
            if is_low l then (0x10000 + (u - 0xd800) * 1024 + (l - 0xdc00)) :: utf16_lossy rest'
            else REPLACEMENT :: utf16_lossy rest
        | [] => [REPLACEMENT]
        end
      else (if is_low u then REPLACEMENT else u) :: utf16_lossy rest
  end.

(** [char::to_digit(16)]. *)
Definition hex_value (c : Z) : option Z :=
  if (0x30 <=? c) && (c <=? 0x39) then Some (c - 0x30)
  else if (0x61 <=? c) && (c <=? 0x66) then Some (c - 0x57)
  else if (0x41 <=? c) && (c <=? 0x46) then Some (c - 0x37)
  else None.
(** [json_unescaped]: the UTF-16 units of the text with its escapes decoded. *)
Definition short_escape (c : Z) : option Z :=
  if (c =? 0x22) || (c =? 0x5c) || (c =? 0x2f) then Some c
  else if c =? 0x62 then Some 8
  else if c =? 0x66 then Some 12
  else if c =? 0x6e then Some 10
  else if c =? 0x72 then Some 13
  else if c =? 0x74 then Some 9
  else None.
Definition hex4_value (a b c d : Z) : option Z :=
  a ← hex_value a; b ← hex_value b; c ← hex_value c; d ← hex_value d; Some (((a * 16 + b) * 16 + c) * 16 + d).
Fixpoint unescaped_units (cs : list Z) : list Z :=
  match cs with
  | [] => []
  | c :: rest =>
      if c =? 0x5c then
        match rest with
        | e :: rest1 =>
            match short_escape e with
            | Some unit_ => unit_ :: unescaped_units rest1
            | None =>
                match rest1 with
                | h1 :: h2 :: h3 :: h4 :: rest2 =>
                    match (if e =? 0x75 then hex4_value h1 h2 h3 h4 else None) with
                    | Some unit_ => unit_ :: unescaped_units rest2
                    | None => utf16 c ++ unescaped_units rest
                    end
                | _ => utf16 c ++ unescaped_units rest
                end
            end
        | [] => utf16 c
        end
      else utf16 c ++ unescaped_units rest
  end.
Definition json_unescaped (cs : list Z) : list Z := utf16_lossy (unescaped_units cs).

(** ** One call ([provider/mod.rs]) *)
Definition MAX_CALLS : nat := 16.
Definition MAX_URL_CHARACTERS : Z := 8192.
Definition MAX_HEADERS : Z := 32.
Definition MAX_HEADER_BYTES : Z := 8 * 1024.
Definition MAX_REQUEST_BYTES : Z := 256 * 1024.

Module Refusal.
Record Refusal : Type := mk { code : string; reason : string }.
End Refusal.
Module Call.
Record Call : Type := mk {
  method : string;
  host : string;
  target : string;
  headers : list (string * string);
  body : option string;
  timeout_ms : option Z
}.
End Call.

(** [Result] with a [Refusal]. *)
Definition refusable (A : Type) : Type := Refusal.Refusal + A.
#[global] Instance refusable_ret : MRet refusable := fun A a => inr a.
#[global] Instance refusable_bind : MBind refusable := fun A B f r => match r with inl e => inl e | inr a => f a end.
Definition refused {A} (reason : string) : refusable A := inl (Refusal.mk "refused" reason).

Lemma refusable_bind_inr {A B} (r : refusable A) (f : A -> refusable B) b :
  (r ≫= f) = inr b <-> exists a, r = inr a /\ f a = inr b.
Proof. destruct r; cbn; split; [done|naive_solver|eauto|naive_solver]. Qed.

(** ** The frame ([frame.rs]) *)
Definition RESERVED_HEADERS : list string :=
  ["accept-encoding"; "connection"; "content-length"; "expect"; "host"; "keep-alive"; "proxy-authorization"; "proxy-connection";
   "te"; "trailer"; "transfer-encoding"; "upgrade"]%string.
Definition FRAME_FIELDS : list string := ["type"; "method"; "url"; "headers"; "body"; "timeout_ms"]%string.
Definition token_name (name : string) : bool :=
  (1 <=? slen name) && (slen name <=? 64) && all_bytes (fun a => is_alnum a || one_of "!#$%&'*+-.^_`|~" a) name.
Definition field_value (value : string) : bool :=
  forallb (fun c => (c =? 9) || ((0x20 <=? c) && (c <=? 0xff) && negb (c =? 0x7f))) (chars value).

(** [rest.find(['/', '?', '#'])], and the split there. *)
Fixpoint split_authority (s : string) : string * string :=
  match s with
  | EmptyString => (EmptyString, EmptyString)
  | String a rest =>
      if one_of "/?#" a then (EmptyString, s) else let '(authority, rest) := split_authority rest in (String a authority, rest)
  end.
Definition frame_url (v : option Value) (hosts : list string) : refusable (string * string) :=
  match text_of v with
  | None => refused "url"
  | Some url =>
      if negb ((9 <=? char_len url) && (char_len url <=? MAX_URL_CHARACTERS))
         || negb (all_bytes (fun a => (0x20 <? byte_code a) && (byte_code a <? 0x7f)) url) then refused "url"
      else match strip_prefix "https://" url with
           | None => refused "host"
           | Some rest =>
               let '(authority, rest) := split_authority rest in
               if negb (all_bytes (fun a => negb (one_of "#" a)) url) || negb (contains hosts authority) then refused "host"
               else
                 let '(path, query) := split_target rest in
                 let path := if is_empty path then "/"%string else path in
                 inr (authority, if is_empty query then path else path +:+ "?" +:+ query)
           end
  end.
Fixpoint headers_each (seen : list (string * string)) (items : list Value) : refusable (list (string * string)) :=
  match items with
  | [] => inr seen
  | VArray [VString name; VString field_] :: rest =>
      if negb (token_name name) || negb (field_value field_) then refused "headers"
      else if contains RESERVED_HEADERS (lower name) then refused "reserved-header"
      else if existsb (fun h => fst h =s lower name) seen then refused "headers"
      else headers_each (seen ++ [(lower name, field_)]) rest
  | _ :: _ => refused "headers"
  end.
Definition frame_headers (v : option Value) : refusable (list (string * string)) :=
  match array_of v with
  | None => refused "headers"
  | Some items =>
      if MAX_HEADERS <? len items then refused "headers"
      else
        headers ← headers_each [] items;
        if MAX_HEADER_BYTES <? zsum (map (fun h => slen (fst h) + char_len (snd h)) headers) then refused "headers"
        else inr headers
  end.
Definition frame_body {D : Decoders} (v : option Value) : refusable (option string) :=
  match v with
  | None | Some VNull => inr None
  | Some (VString encoded) =>
      if slen encoded <=? (MAX_REQUEST_BYTES + 2) / 3 * 4 then
        match base64_standard_decode encoded with
        | Some decoded => if MAX_REQUEST_BYTES <? slen decoded then refused "body" else inr (Some decoded)
        | None => refused "body"
        end
      else refused "body"
  | Some _ => refused "body"
  end.
Definition frame_timeout (v : option Value) : refusable (option Z) :=
  match v with
  | None | Some VNull => inr None
  | Some v => if int_within v 1 30000 then inr (small_int v) else refused "timeout"
  end.
(** [parse]. *)
Definition parse_frame {D : Decoders} (frame : Value) (hosts : list string) : refusable Call.Call :=
  match object_members frame with
  | None => refused "frame"
  | Some ms =>
      let shaped := is_text (get frame "type") "fetch"
                    && forallb (fun key => is_some (member_of ms key)) ["type"; "method"; "url"; "headers"]%string
                    && forallb (fun kv => contains FRAME_FIELDS (fst kv)) ms in
      match text_of (get frame "method") with
      | Some method =>
          if negb (contains METHODS method && shaped) then refused "frame"
          else
            url ← frame_url (get frame "url") hosts;
            timeout ← frame_timeout (get frame "timeout_ms");
            headers ← frame_headers (get frame "headers");
            body ← frame_body (get frame "body");
            inr (Call.mk method (fst url) (snd url) headers body timeout)
      | None => refused "frame"
      end
  end.

(** ** Credentials ([credential.rs]) *)
Inductive Routes : Type :=
| RoutesDeclared (routes : Value)
| RoutesProvider (p : Provider.Provider).
(** [Routes::admits]. *)
Definition admits (r : Routes) (method target : string) : bool :=
  match r with
  | RoutesDeclared routes => negb (is_some (call_error routes method target))
  | RoutesProvider p => provider_allows p method (fst (split_target target))
  end.
Module Credential.
Record Credential : Type := mk {
  id : string;
  host : string;
  header : option string;
  query : option string;
  value : string;
  protected : list string;
  routes : Routes
}.
End Credential.
Module Placement.
Record Placement : Type := mk {
  host : string;
  header : option string;
  query : option string;
  scheme : option string;
  hmac : option string;
  routes : Value
}.
End Placement.

(** [proof]. *)
Definition proof_of {D : Decoders} (key message : string) : string := hex_of (hmac_sha256 key message).
Definition held_value (held : list (string * string)) (id : string) : option string :=
  option_map snd (List.find (fun h => fst h =s id) held).
(** One Stored Input of [stored_credentials]: its credential, or the host that misses it. *)
Definition stored_credential {D : Decoders} (held : list (string * string)) (stored : string * Placement.Placement)
  : Credential.Credential + string :=
  let '(id, p) := stored in
  let signed := option_map (held_value held) (Placement.hmac p) in
  match held_value held id, signed with
  | Some raw, None | Some raw, Some (Some _) =>
      let placed := match signed with Some (Some message) => proof_of raw message | _ => raw end in
      let placed := match Placement.scheme p with Some scheme => scheme +:+ " " +:+ placed | None => placed end in
      inl (Credential.mk ("stored-input:" +:+ id) (Placement.host p) (option_map lower (Placement.header p)) (Placement.query p)
             placed [raw; placed] (RoutesDeclared (Placement.routes p)))
  | _, _ => inr (Placement.host p)
  end.
Definition stored_credentials {D : Decoders} (stored : list (string * Placement.Placement)) (held : list (string * string))
  : list Credential.Credential * list string :=
  fold_left (fun acc s =>
    match stored_credential held s with
    | inl c => (fst acc ++ [c], snd acc)
    | inr host => (fst acc, snd acc ++ [host])
    end) stored ([], []).
Definition action_credentials {D : Decoders} (stored : list (string * Placement.Placement)) (held : list (string * string))
  (integrations : list (string * Provider.Provider * option string)) : list Credential.Credential * list string :=
  fold_left (fun acc i =>
    let '(id, provider, token) := i in
    match token with
    | Some token =>
        if is_empty token then (fst acc, snd acc ++ Provider.api_hosts provider)
        else
          let bearer := "Bearer " +:+ token in
          (fst acc ++ map (fun host => Credential.mk ("integration:" +:+ id) host (Some "authorization"%string) None bearer
                                         [token; bearer] (RoutesProvider provider)) (Provider.api_hosts provider), snd acc)
    | None => (fst acc, snd acc ++ Provider.api_hosts provider)
    end) integrations (stored_credentials stored held).

Definition on_host (host : string) (c : Credential.Credential) : bool := Credential.host c =s host.
Definition owned_fields (credentials : list Credential.Credential) (host : string) : list string :=
  concat (map (fun c => option_list (Credential.header c) ++ option_list (Credential.query c))
              (List.filter (on_host host) credentials)).

(** [unquote]: [%XX] decoded. *)
Fixpoint unquote_bytes (s : string) : string :=
  match s with
  | EmptyString => EmptyString
  | String a rest =>
      match rest with
      | String h (String l rest') =>
          match (if one_of "%" a then high ← hex_value (byte_code h); low ← hex_value (byte_code l); Some (high * 16 + low) else None) with
          | Some code => String (byte_of code) (unquote_bytes rest')
          | None => String a (unquote_bytes rest)
          end
      | _ => String a (unquote_bytes rest)
      end
  end.
Definition unquote (s : string) : string := String.concat "" (map utf8 (utf8_lossy (unquote_bytes s))).
Definition query_names (target : string) : list string :=
  let query := match split_first "?" target with Some (_, query) => query | None => ""%string end in
  concat (map (fun pair =>
    let name := match split_first "=" pair with Some (name, _) => name | None => pair end in
    [unquote name; unquote (replace_char "+" " " name)]) (split_on "&" query)).

(** [inject]: every credential of the call's host, placed. *)
Definition place (call : Call.Call) (c : Credential.Credential) : refusable Call.Call :=
  let mk target headers := Call.mk (Call.method call) (Call.host call) target headers (Call.body call) (Call.timeout_ms call) in
  match Credential.header c, Credential.query c with
  | Some header, _ =>
      if field_value (Credential.value c) then inr (mk (Call.target call) (Call.headers call ++ [(header, Credential.value c)]))
      else refused "credential-value"
  | None, Some query =>
      let separator := if all_bytes (fun a => negb (one_of "?" a)) (Call.target call) then "?"%string else "&"%string in
      inr (mk (Call.target call +:+ separator +:+ query +:+ "=" +:+ percent (Credential.value c) false) (Call.headers call))
  | None, None => inr call
  end.
Fixpoint place_each (call : Call.Call) (credentials : list Credential.Credential) : refusable Call.Call :=
  match credentials with
  | [] => inr call
  | c :: rest => call ← place call c; place_each call rest
  end.
Definition inject (call : Call.Call) (credentials : list Credential.Credential) : refusable Call.Call :=
  place_each call (List.filter (on_host (Call.host call)) credentials).

(** [echoes]. *)
Section Echoes.
  Context {T : CaseTables} {B : Base64}.
Definition protected_forms (credentials : list Credential.Credential) : list string :=
  concat (map (fun secret =>
    if is_empty secret then []
    else map (fun form => py_lower (chars form)) (secret :: List.filter (fun form => negb (is_empty form)) (encodings secret)))
    (concat (map Credential.protected credentials))).
Definition latin1 (body : string) : list Z := map byte_code (String.list_ascii_of_string body).
Definition searched (headers : list (string * string)) (body : string) : list string :=
  map (fun h => py_lower (chars (fst h +:+ ": " +:+ snd h))) headers
  ++ [py_lower (latin1 body); py_lower (utf8_lossy body); py_lower (json_unescaped (utf8_lossy body))].
Definition echoes (headers : list (string * string)) (body : string) (credentials : list Credential.Credential) : bool :=
  existsb (fun form => existsb (has_sub form) (searched headers body)) (protected_forms credentials).
End Echoes.

(** * What a response may not echo

    The search of [Credentials.echoes] finds a protected form wherever it stands in
    a body or a header, in any letter case: Python's [str.lower] acts on ASCII
    characters one by one, whatever stands around them. *)

(** What the tables say of ASCII: its capitals are lowered and nothing else is. *)
Class CaseLaws `{!CaseTables} : Prop :=
  LOWER_ascii : forall c, 0 <= c < 0x80 ->
    LOWER c = if (0x41 <=? c) && (c <=? 0x5a) then Some (String (byte_of (c + 32)) "") else None.

Definition is_ascii (a : ascii) : bool := byte_code a <? 0x80.

(** ** Substrings *)
Lemma has_sub_iff n s : has_sub n s = true <-> exists a b, s = a +:+ (n +:+ b).
Proof.
  split.
  - induction s as [|c s IH]; [cbn; rewrite orb_false_r|rewrite has_sub_cons, orb_true_iff; intros [H|H]].
    + intros [t ->]%has_prefix_iff. by exists ""%string, t.
    + apply has_prefix_iff in H as [t ->]. by exists ""%string, t.
    + apply IH in H as (a & b & ->). exists (String c a), b. by rewrite !string_app_cons.
  - intros (a & b & ->). apply has_sub_app_r, has_sub_app_l, has_prefix_sub, has_prefix_iff. exists ""%string. by rewrite string_app_nil.
Qed.

Lemma lower_split s a b : lower s = a +:+ b -> exists a' b', s = a' +:+ b' /\ lower a' = a /\ lower b' = b.
Proof.
  revert a. induction s as [|c s IH]; intros a H.
  - exists ""%string, ""%string. destruct a; [|by rewrite string_app_cons in H]. change (""%string = b) in H. by subst b.
  - destruct a as [|x a]; [by exists ""%string, (String c s)|]. rewrite string_app_cons in H. cbn [lower] in H. injection H as Hx H.
    apply IH in H as (a' & b' & -> & <- & <-). exists (String c a'), b'. rewrite string_app_cons. cbn [lower]. by rewrite Hx.
Qed.

Lemma lower_byte_ascii a : is_ascii (lower_byte a) = is_ascii a.
Proof.
  unfold is_ascii, lower_byte, is_upper. pose proof (byte_code_range a) as Hr. destruct (between 0x41 0x5a a) eqn:H; [|done].
  apply between_spec in H. rewrite byte_code_of by lia. destruct (Z.ltb_spec (byte_code a + 32) 0x80), (Z.ltb_spec (byte_code a) 0x80); lia.
Qed.
Lemma lower_ascii s : all_bytes is_ascii (lower s) = all_bytes is_ascii s.
Proof. induction s as [|a s IH]; [done|]. cbn [lower all_bytes]. by rewrite lower_byte_ascii, IH. Qed.

(** ** ASCII inside UTF-8 *)
Lemma string_app_split (p s a t : string) : p +:+ s = a +:+ t ->
  (exists a', a = p +:+ a' /\ s = a' +:+ t) \/ (exists p', p = a +:+ p' /\ p' <> ""%string /\ t = p' +:+ s).
Proof.
  revert a. induction p as [|x p IH]; intros a H; [left; by exists a|]. destruct a as [|y a]; [right; by exists (String x p)|].
  rewrite !string_app_cons in H. injection H as -> H. apply IH in H as [(a' & -> & ->)|(p' & -> & ? & ->)].
  - left. exists a'. by rewrite string_app_cons.
  - right. exists p'. by rewrite string_app_cons.
Qed.

Lemma utf8_bytes c : scalar c -> exists h t, utf8 c = String h t /\ all_bytes (fun a => negb (is_ascii a)) t = true
  /\ (is_ascii h = true -> t = ""%string).
Proof.
  intros Hc. rewrite <- (string_app_nil (utf8 c)). unfold is_ascii.
  destruct (utf8_cases c "" Hc) as [[? ->]|[(u & v & -> & ? & ? & ->)|[(u & v & w & -> & ? & ? & ? & ? & ? & ->)
                                 |(u & v & w & z & -> & ? & ? & ? & ? & ? & ? & ->)]]];
    do 2 eexists; (split; [done|]); cbn [all_bytes]; rewrite ?byte_code_of by lia; split; byte_cases; done.
Qed.

Lemma utf8_ascii_inside c a x p : scalar c -> utf8 c = a +:+ String x p -> is_ascii x = true -> a = ""%string /\ p = ""%string.
Proof.
  intros (h & t & -> & Ht & Hh)%utf8_bytes He Hx. destruct a as [|y a].
  - change (String h t = String x p) in He. injection He as -> ->. split; [done|by apply Hh].
  - rewrite string_app_cons in He. injection He as -> ->. rewrite all_bytes_app in Ht. cbn [all_bytes] in Ht. rewrite Hx in Ht.
    by rewrite andb_false_r in Ht.
Qed.

Lemma Utf8_around s a x b : Utf8 s -> s = a +:+ String x b -> is_ascii x = true -> Utf8 a /\ Utf8 b.
Proof.
  intros Hs. revert a. induction Hs as [|c s Hc Hs IH]; intros a He Hx; [by destruct a|].
  apply string_app_split in He as [(a' & -> & He)|(p & Hp & Hne & He)].
  - apply IH in He as [Ha Hb]; [|done]. split; [by constructor|done].
  - destruct p as [|y p]; [done|]. rewrite string_app_cons in He. injection He as <- ->.
    destruct (utf8_ascii_inside c a x p Hc Hp Hx) as [-> ->]. split; [constructor|done].
Qed.

Lemma chars_app a t : Utf8 a -> chars (a +:+ t) = chars a ++ chars t.
Proof. induction 1 as [|c a Hc Ha IH]; [done|]. rewrite string_app_assoc, !chars_utf8 by done. cbn [app]. by rewrite IH. Qed.

(** ** Lowering around ASCII *)
Definition codes (s : string) : list Z := map byte_code (String.list_ascii_of_string s).

Section Lowering.
  Context {T : CaseTables} {L : CaseLaws}.

Lemma lower_char_ascii a : is_ascii a = true ->
  (if byte_code a =? CAPITAL_SIGMA then utf8 0x3c3 else default (utf8 (byte_code a)) (LOWER (byte_code a))) = String (lower_byte a) "".
Proof.
  unfold is_ascii, CAPITAL_SIGMA. intros H%Z.ltb_lt. pose proof (byte_code_range a). destruct (Z.eqb_spec (byte_code a) 0x3a3); [lia|].
  rewrite (LOWER_ascii (byte_code a)) by lia. unfold lower_byte, is_upper, between.
  destruct (_ && _); [done|]. cbn [from_option]. unfold utf8. destruct (Z.ltb_spec (byte_code a) 0x80); [|lia]. by rewrite byte_of_code.
Qed.

Lemma lower_from_ascii f before ds : all_bytes is_ascii f = true ->
  lower_from before (codes f ++ ds) = lower f +:+ lower_from (rev (codes f) ++ before) ds.
Proof.
  revert before. induction f as [|a f IH]; intros before; [done|]. cbn [all_bytes]. intros [Ha Hf]%andb_true_iff.
  unfold codes. cbn [String.list_ascii_of_string map app lower_from lower rev]. rewrite string_app_cons.
  change (map byte_code (String.list_ascii_of_string f)) with (codes f). rewrite (IH _ Hf), <- app_assoc. cbn [app].
  pose proof (lower_char_ascii a Ha) as Hc.
  destruct (Z.eqb_spec (byte_code a) CAPITAL_SIGMA) as [He|He]; [unfold is_ascii, CAPITAL_SIGMA in *; apply Z.ltb_lt in Ha; lia|].
  rewrite Hc. by rewrite string_app_cons.
Qed.

Lemma lower_from_sub f before cs ds : all_bytes is_ascii f = true -> has_sub (lower f) (lower_from before (cs ++ codes f ++ ds)) = true.
Proof.
  intros Hf. revert before. induction cs as [|c cs IH]; intros before; cbn [app].
  - rewrite lower_from_ascii by done. apply has_sub_iff. by eexists ""%string, _.
  - cbn [lower_from]. apply has_sub_app_r, IH.
Qed.

Lemma chars_ascii f s : all_bytes is_ascii f = true -> chars (f +:+ s) = codes f ++ chars s.
Proof.
  induction f as [|a f IH]; [done|]. cbn [all_bytes]. intros [Ha Hf]%andb_true_iff. rewrite string_app_cons.
  unfold is_ascii in Ha. apply Z.ltb_lt in Ha. cbn [chars]. cbv zeta.
  destruct (Z.ltb_spec (byte_code a) 0xe0); [|lia]. destruct (Z.ltb_spec (byte_code a) 0xc0); [|lia]. by rewrite IH.
Qed.

Lemma py_lower_ascii f : all_bytes is_ascii f = true -> py_lower (chars f) = lower f.
Proof.
  intros Hf. rewrite <- (string_app_nil f) at 1. rewrite chars_ascii by done. unfold py_lower. rewrite lower_from_ascii by done.
  cbn [chars lower_from]. by rewrite string_app_nil.
Qed.

(** A form found in a text, whatever their letter case. *)
Lemma found_in f s : all_bytes is_ascii f = true -> has_sub (lower f) (lower s) = true ->
  exists a g b, s = a +:+ (g +:+ b) /\ all_bytes is_ascii g = true /\ lower g = lower f.
Proof.
  intros Hf (a & b & H)%has_sub_iff. apply lower_split in H as (a' & r & -> & <- & H). apply lower_split in H as (g & b' & -> & Hg & <-).
  exists a', g, b'. split; [done|]. split; [|done]. by rewrite <- lower_ascii, Hg, lower_ascii.
Qed.

Lemma found_latin1 f body : all_bytes is_ascii f = true -> has_sub (lower f) (lower body) = true ->
  has_sub (py_lower (chars f)) (py_lower (latin1 body)) = true.
Proof.
  intros Hf (a & g & b & -> & Hg & He)%found_in; [|done]. rewrite py_lower_ascii by done. rewrite <- He. unfold py_lower, latin1.
  assert (forall s t, map byte_code (String.list_ascii_of_string (s +:+ t)) = codes s ++ codes t) as Happ.
  { intros s t. unfold codes. induction s as [|x s IH]; [done|]. rewrite string_app_cons. cbn. by rewrite IH. }
  rewrite Happ. change (codes (g +:+ b)) with (map byte_code (String.list_ascii_of_string (g +:+ b))). rewrite Happ.
  by apply lower_from_sub.
Qed.
Lemma found_text f s : f <> ""%string -> all_bytes is_ascii f = true -> Utf8 s -> has_sub (lower f) (lower s) = true ->
  has_sub (py_lower (chars f)) (py_lower (chars s)) = true.
Proof.
  intros Hne Hf Hs (a & g & b & -> & Hg & He)%found_in; [|done]. rewrite py_lower_ascii by done. rewrite <- He. unfold py_lower.
  destruct g as [|x g]; [destruct f; [done|by cbn in He]|].
  assert (is_ascii x = true) as Hx by (cbn [all_bytes] in Hg; by apply andb_true_iff in Hg as [? _]).
  rewrite string_app_cons in Hs. destruct (Utf8_around _ a x (g +:+ b) Hs eq_refl Hx) as [Ha _].
  rewrite chars_app by done. rewrite chars_ascii by done. by apply lower_from_sub.
Qed.
End Lowering.

(** ** A response that is not refused *)
Section Clean.
  Context {T : CaseTables} {L : CaseLaws} {B : Base64}.

(** What a value must not be recognised by: itself and its listed encodings. *)
Definition form_of (secret form : string) : Prop := form = secret \/ In form (encodings secret).

(** No ASCII form of a protected value stands in the body or in a header line. *)
Definition echo_free (credentials : list Credential.Credential) (headers : list (string * string)) (body : string) : Prop :=
  forall c secret form, In c credentials -> In secret (Credential.protected c) -> secret <> ""%string ->
    form_of secret form -> form <> ""%string -> all_bytes is_ascii form = true ->
    has_sub (lower form) (lower body) = false
    /\ (forall name value, In (name, value) headers -> Utf8 (name +:+ ": " +:+ value) ->
          has_sub (lower form) (lower (name +:+ ": " +:+ value)) = false).

Lemma in_protected_forms credentials c secret form :
  In c credentials -> In secret (Credential.protected c) -> secret <> ""%string -> form_of secret form -> form <> ""%string ->
  In (py_lower (chars form)) (protected_forms credentials).
Proof.
  intros Hc Hs Hne Hf Hform. unfold protected_forms. apply in_concat. eexists. split.
  - apply in_map_iff. exists secret. split; [done|]. apply in_concat. eexists. split; [|exact Hs]. by apply in_map.
  - destruct secret as [|x secret]; [done|]. cbn [is_empty]. apply in_map_iff. exists form. split; [done|]. destruct Hf as [->|Hf]; [by left|right].
    apply filter_In. split; [done|]. by destruct form.
Qed.

Lemma echoes_false headers body credentials : echoes headers body credentials = false -> echo_free credentials headers body.
Proof.
  intros He c secret form Hc Hs Hne Hf Hform Ha. pose proof (in_protected_forms _ _ _ _ Hc Hs Hne Hf Hform) as Hin.
  assert (forall t, In t (searched headers body) -> has_sub (py_lower (chars form)) t = false) as Hno.
  { intros t Ht. apply not_true_is_false. intros Hsub. apply not_true_iff_false in He. apply He. unfold echoes.
    apply existsb_exists. eexists. split; [exact Hin|]. apply existsb_exists. by exists t. }
  split; [|intros name value Hh Hu]; apply not_true_is_false; intros Hsub.
  - apply found_latin1 in Hsub; [|done]. rewrite Hno in Hsub; [done|]. apply in_app_iff. right. by left.
  - apply found_text in Hsub; [|done..]. rewrite Hno in Hsub; [done|]. apply in_app_iff. left. apply in_map_iff.
    by exists (name, value).
Qed.
End Clean.
