(* ===== verification/Broker.v ===== *)
(** * The broker of provider calls

    [action/src/provider/mod.rs] and [transport.rs]: Team admits each call an
    Action asks for, places its credentials, records the dispatch, sends the call
    through the Assistant's own egress and returns a response only when it echoes
    none of them.  The egress policy, the audit sink, Stop, the Team-wide
    capacity, the clock and the network are a [Provision]; [provider_broker] is
    the implementation of the [CallBroker] that the RPC exchange uses. *)

From stdpp Require Import base tactics list strings pretty.
From Stdlib Require Import ZArith Lia Ascii.
From S2P Require Import Prelude Text Json Causes Calendar Platform Requests Redaction Executor ExecFrames Routes Credentials.

#[local] Open Scope Z_scope.

Definition REPLY_JSON : Options := mkOptions true false true.
Definition DETAIL_JSON : Options := mkOptions true true true.

(** ** What the broker reaches *)
Module Response.
Record Response : Type := mk { status : Z; headers : list (string * string); body : string }.
End Response.
(** [Response::header]. *)
Definition response_header (r : Response.Response) (name : string) : option string :=
  option_map snd (List.find (fun h => fst h =s name) (Response.headers r)).
Inductive HttpsError : Type := HttpsConnect | HttpsTunnel | HttpsTls | HttpsTransport | HeadersTooLarge | BodyTooLarge.
(** [https::Request]. *)
Module Request.
Record Request : Type := mk { method : string; host : string; target : string; headers : list (string * string); body : option string }.
End Request.
(** What ends the wait for capacity. *)
Inductive Waited : Type := Permit | CapacityClosed | WaitStopped | WaitDeadline.

Class Provision (U : Type) : Type := {
  (** [EgressRoute::route]: the policy token and the reviewed hosts. *)
  egress_route : U -> U * (Refusal.Refusal + option (string * list string));
  (** [AuditSink::record]. *)
  audit_event : list (string * Value) -> U -> U * option AuditUnavailable;
  (** [Stop::is_stopped], and a Stop that comes before a call is answered. *)
  call_stopped : U -> bool;
  stop_interrupts_call : U -> U * bool;
  (** The first of a permit, a Stop and the attempt's deadline. *)
  wait_capacity : U -> U * Waited;
  (** The clock: whether a call's deadline has passed before it is sent, whether it
      passes before the response is whole, and how long the call took. *)
  deadline_passed : option Z -> U -> U * bool;
  deadline_passes : option Z -> U -> U * bool;
  elapsed_ms : U -> Z;
  (** [Tunnel::open] and [https::exchange]. *)
  open_tunnel : string -> string -> U -> U * bool;
  https_exchange : Request.Request -> U -> U * (HttpsError + Response.Response)
}.

(** What the broker does, in order: the records it asks for, whether they were
    written, and the requests it puts on a tunnel. *)
Inductive deed : Type :=
| Recorded (event : list (string * Value)) (written : bool)
| Sent (token : string) (request : Request.Request).

(** ** The broker *)
Module Attempt.
Record Attempt : Type := mk { team_id : string; assistant_id : string; action_id : string; operation_id : string }.
End Attempt.
Module Scope.
Record Scope : Type := mk {
  attempt : Attempt.Attempt;
  credentials : list Credential.Credential;
  missing : list string;
  authorized : bool
}.
End Scope.
Module Broker.
Record Broker {U : Type} : Type := mk {
  scope : Scope.Scope;
  route_read : bool;
  route : option (string * list string);
  held : bool;
  calls : nat;
  outside : U;
  deeds : list deed
}.
Arguments Broker : clear implicits.
Arguments mk {U}.
#[global] Instance eta_broker {U} : Eta (Broker U) :=
  fun b => mk (scope b) (route_read b) (route b) (held b) (calls b) (outside b) (deeds b).
End Broker.
#[global] Instance upd_broker_held {U} : Upd (@Broker.held U) := ltac:(solve_upd).
#[global] Instance upd_broker_calls {U} : Upd (@Broker.calls U) := ltac:(solve_upd).
#[global] Instance upd_broker_outside {U} : Upd (@Broker.outside U) := ltac:(solve_upd).
#[global] Instance upd_broker_deeds {U} : Upd (@Broker.deeds U) := ltac:(solve_upd).

Section Brokers.
  Context {U : Type} `{!Provision U} {T : CaseTables} {B : Base64} {D : Decoders}.
  Abbreviation Broker := (Broker.Broker U).

(** [Broker::new]. *)
Definition broker_new (scope : Scope.Scope) (u : U) : Broker := Broker.mk scope false None false O u [].

(** *** Effects *)
Definition brokered (A : Type) : Type := Broker -> Broker * A.
#[local] Instance brokered_ret : MRet brokered := fun A a k => (k, a).
#[local] Instance brokered_bind : MBind brokered := fun A B f m k => let '(k, a) := m k in f a k.
Definition reaches {A} (call : U -> U * A) : brokered A := fun k =>
  let '(u, a) := call (Broker.outside k) in (k <| Broker.outside := u |>, a).
Definition reads {A} (f : Broker -> A) : brokered A := fun k => (k, f k).
Definition does (d : deed) : brokered unit := fun k => (k <| Broker.deeds := Broker.deeds k ++ [d] |>, tt).
(** [Result] over the broker's state. *)
Definition and_next {Er A B} (m : brokered (Er + A)) (f : A -> brokered (Er + B)) : brokered (Er + B) :=
  r ← m; match r with inl e => mret (inl e) | inr a => f a end.

(** *** Records *)
Definition audit_event_of (a : Attempt.Attempt) (ordinal : nat) (fields : list (string * Value)) : list (string * Value) :=
  let failed := existsb (fun f => fst f =s "error") fields in
  let result := if is_text (option_map snd (List.find (fun f => fst f =s "phase") fields)) "refused" then "denied"%string
                else if failed then "error"%string else "ok"%string in
  let detail := Attempt.action_id a +:+ ":" +:+ Attempt.operation_id a +:+ ":"
                +:+ dumps DETAIL_JSON (VObject (("call"%string, int (Z.of_nat ordinal)) :: fields)) in
  [("operation", VString "assistant-provider-call"); ("result", VString result); ("team_id", VString (Attempt.team_id a));
   ("assistant", VString (Attempt.assistant_id a)); ("detail", VString detail)]%string.
Definition audit (ordinal : nat) (fields : list (string * Value)) : brokered (AuditUnavailable + unit) :=
  event ← reads (fun k => audit_event_of (Scope.attempt (Broker.scope k)) ordinal fields);
  answer ← reaches (audit_event event);
  _ ← does (Recorded event (negb (is_some answer)));
  mret match answer with Some reason => inl reason | None => inr tt end.

(** *** Admission *)
Definition read_route : brokered (Refusal.Refusal + unit) := fun k =>
  if Broker.route_read k then (k, inr tt)
  else
    let '(u, answer) := egress_route (Broker.outside k) in
    let k := k <| Broker.outside := u |> in
    match answer with
    | inl refusal => (k, inl refusal)
    | inr route =>
        (Broker.mk (Broker.scope k) true route (Broker.held k) (Broker.calls k) (Broker.outside k) (Broker.deeds k), inr tt)
    end.
Definition reviewed_hosts (k : Broker) : list string := match Broker.route k with Some (_, hosts) => hosts | None => [] end.
(** The rules of [admit] on a parsed call. *)
Definition admit_call (scope : Scope.Scope) (call : Call.Call) : refusable Call.Call :=
  let owned := owned_fields (Scope.credentials scope) (Call.host call) in
  if existsb (fun h => contains owned (fst h)) (Call.headers call) || existsb (contains owned) (query_names (Call.target call))
  then refused "credential-field"
  else if contains (Scope.missing scope) (Call.host call) then inl (Refusal.mk "credential-missing" "credential-missing")
  else if existsb (fun c => on_host (Call.host call) c
                            && negb (admits (Credential.routes c) (Call.method call) (Call.target call))) (Scope.credentials scope)
  then refused "route"
  else inject call (Scope.credentials scope).
Definition admit_frame (frame : Value) : brokered (refusable Call.Call) :=
  over ← reads (fun k => (MAX_CALLS <? Broker.calls k)%nat);
  authorized ← reads (fun k => Scope.authorized (Broker.scope k));
  if over : bool then mret (refused "call-limit")
  else if negb authorized then mret (refused "authorization-pending")
  else
    and_next read_route (fun _ =>
      reads (fun k => call ← parse_frame frame (reviewed_hosts k); admit_call (Broker.scope k) call)).

(** *** Sending *)
Definition acquire : brokered (Refusal.Refusal + unit) :=
  stopped ← reads (fun k => call_stopped (Broker.outside k));
  if stopped : bool then mret (refused "stopped")
  else
    waited ← reaches wait_capacity;
    match waited with
    | CapacityClosed | WaitDeadline => mret (inl (Refusal.mk "unavailable" "deadline"))
    | WaitStopped => mret (refused "stopped")
    | Permit =>
        stopped ← reads (fun k => call_stopped (Broker.outside k));
        mret (if stopped : bool then refused "stopped" else inr tt)
    end.

(** [str::trim] and [to_ascii_lowercase] of a header value. *)
Definition white_space (c : Z) : bool :=
  (9 <=? c) && (c <=? 13) || (c =? 0x20) || (c =? 0x85) || (c =? 0xa0) || (c =? 0x1680) || (0x2000 <=? c) && (c <=? 0x200a)
  || (c =? 0x2028) || (c =? 0x2029) || (c =? 0x202f) || (c =? 0x205f) || (c =? 0x3000).
Fixpoint drop_white (cs : list Z) : list Z :=
  match cs with c :: rest => if white_space c then drop_white rest else cs | [] => [] end.
Definition trimmed (s : string) : string := String.concat "" (map utf8 (rev (drop_white (rev (drop_white (chars s)))))).
(** [Transport::send]. *)
Definition transport_send (call : Call.Call) (token : string) : brokered (refusable Response.Response) :=
  late ← reaches (deadline_passed (Call.timeout_ms call));
  if late : bool then mret (inl (Refusal.mk "unavailable" "deadline"))
  else
    opened ← reaches (open_tunnel (Call.host call) token);
    cut ← reaches (deadline_passes (Call.timeout_ms call));
    outcome ← (if cut : bool then mret (inl (Refusal.mk "failed" "timeout"))
               else if negb opened then mret (inl (Refusal.mk "unavailable" "connect"))
               else
                 let request := Request.mk (Call.method call) (Call.host call) (Call.target call)
                                  (Call.headers call ++ [("accept-encoding", "identity")]%string) (Call.body call) in
                 _ ← does (Sent token request);
                 answer ← reaches (https_exchange request);
                 mret match answer with
                      | inl HeadersTooLarge => inl (Refusal.mk "failed" "response-headers")
                      | inl BodyTooLarge => inl (Refusal.mk "failed" "response-size")
                      | inl _ => inl (Refusal.mk "failed" "transport")
                      | inr response => inr response
                      end);
    cut ← reaches (deadline_passes (Call.timeout_ms call));
    mret (if cut : bool then inl (Refusal.mk "failed" "timeout")
          else
            response ← outcome;
            let encoding := lower (trimmed (default ""%string (response_header response "content-encoding"))) in
            if is_empty encoding || (encoding =s "identity") then inr response
            else inl (Refusal.mk "failed" "response-headers")).

(** [reply_of], [outcome_refused] and [error]. *)
Definition reply_of (r : Response.Response) : Value :=
  VObject [("status", int (Response.status r));
           ("headers", VArray (map (fun h => VArray [VString (fst h); VString (snd h)]) (Response.headers r)));
           ("body", VString (base64_standard (Response.body r)))]%string.
Definition outcome_refused (r : Refusal.Refusal) : list (string * Value) :=
  [("phase", VString "outcome"); ("error", VString (Refusal.code r)); ("reason", VString (Refusal.reason r))]%string.
Definition error_reply (r : Refusal.Refusal) : Value := VObject [("error"%string, VString (Refusal.code r))].

(** [exchange]: the outcome record's fields and the reply. *)
Definition exchange_call (call : Call.Call) : brokered (refusable (list (string * Value) * Value)) :=
  route ← reads Broker.route;
  match route with
  | None => mret (refused "host")
  | Some (token, _) =>
      answer ← transport_send call token;
      interrupted ← reaches stop_interrupts_call;
      took ← reads (fun k => elapsed_ms (Broker.outside k));
      credentials ← reads (fun k => Scope.credentials (Broker.scope k));
      mret (if interrupted : bool then inl (Refusal.mk "failed" "timeout")
            else
              response ← answer;
              if echoes (Response.headers response) (Response.body response) credentials
              then inl (Refusal.mk "failed" "credential-echo")
              else inr ([("phase", VString "outcome"); ("status", int (Response.status response));
                         ("request_bytes", int (match Call.body call with Some body => slen body | None => 0 end));
                         ("response_bytes", int (slen (Response.body response)));
                         ("duration_ms", int took)]%string, reply_of response))
  end.
(** [injected]: the ids placed on a host, sorted. *)
Definition injected_ids (credentials : list Credential.Credential) (host : string) : list Value :=
  map VString (dedup (stable_sort sleb (map Credential.id (List.filter (on_host host) credentials)))).
Definition dispatch_fields (credentials : list Credential.Credential) (call : Call.Call) : list (string * Value) :=
  [("phase", VString "dispatch"); ("method", VString (Call.method call)); ("host", VString (Call.host call));
   ("credentials", VArray (injected_ids credentials (Call.host call)))]%string.
(** The call, unless a Stop came while its dispatch was recorded, and the record of its outcome. *)
Definition send_unless_stopped (call : Call.Call) : brokered (refusable (list (string * Value) * Value)) :=
  stopped ← reads (fun k => call_stopped (Broker.outside k));
  if stopped : bool then mret (refused "stopped") else exchange_call call.
Definition send_dispatched (call : Call.Call) (ordinal : nat) : brokered (AuditUnavailable + refusable Value) :=
  outcome ← send_unless_stopped call;
  and_next (audit ordinal match outcome with inr (fields, _) => fields | inl refusal => outcome_refused refusal end) (fun _ =>
    mret (inr match outcome with inr (_, reply) => inr reply | inl refusal => inl refusal end)).
Definition send_call (call : Call.Call) (ordinal : nat) : brokered (AuditUnavailable + refusable Value) :=
  permit ← acquire;
  match permit with
  | inl refusal => mret (inr (inl refusal))
  | inr _ =>
      _ ← (fun k => (k <| Broker.held := true |>, tt));
      fields ← reads (fun k => dispatch_fields (Scope.credentials (Broker.scope k)) call);
      and_next (audit ordinal fields) (fun _ => send_dispatched call ordinal)
  end.

(** [reply]. *)
Definition refuse_call (ordinal : nat) (r : Refusal.Refusal) : brokered (AuditUnavailable + Value) :=
  and_next (audit ordinal [("phase", VString "refused"); ("error", VString (Refusal.code r)); ("reason", VString (Refusal.reason r))]%string)
    (fun _ => mret (inr (error_reply r))).
Definition broker_reply (frame : Value) : brokered (AuditUnavailable + Value) :=
  _ ← (fun k => (k <| Broker.calls := S (Broker.calls k) |>, tt));
  ordinal ← reads Broker.calls;
  call ← admit_frame frame;
  match call with
  | inl refusal => refuse_call ordinal refusal
  | inr call =>
      and_next (send_call call ordinal) (fun answer =>
        match answer with
        | inr reply => mret (inr reply)
        | inl refusal =>
            held ← reads Broker.held;
            if held : bool then mret (inr (error_reply refusal)) else refuse_call ordinal refusal
        end)
  end.

(** ** The interface *)
Definition answer_frame (frame : Value) : brokered (framed_result (list ascii)) :=
  answer ← broker_reply frame;
  mret match answer with
       | inl reason => inl (FrameTransport (cause_new (audit_condition reason) Phase.ProviderCall))
       | inr reply => inr (String.list_ascii_of_string (dumps REPLY_JSON reply))
       end.
#[global] Instance provider_broker : CallBroker Broker := {
  broker_answer := answer_frame;
  broker_calls := Broker.calls;
  broker_release := fun k => k <| Broker.held := false |>
}.
End Brokers.
