(* ===== verification/BrokerSafety.v ===== *)
(** * Where credentials travel

    What one attempt's broker sends and answers over any sequence of call frames:
    a credential leaves Team only on a call to its own host that its reviewed
    routes admit, after the dispatch was recorded; and a reply shows none. *)

From stdpp Require Import base tactics list strings pretty relations.
From Stdlib Require Import ZArith Lia Ascii.
From S2P Require Import Prelude Text Json Reader Utf8 Causes Calendar Platform Requests Redaction RedactionSafety Executor ExecFrames Routes.
From S2P Require Import Credentials Broker.

#[local] Open Scope Z_scope.

(** ** What a placement changes *)
Definition placed_headers (credentials : list Credential.Credential) (host : string) : list (string * string) :=
  omap (fun c => header ← Credential.header c; Some (header, Credential.value c)) (List.filter (on_host host) credentials).
Definition placed_query (target : string) (c : Credential.Credential) : string :=
  match Credential.header c, Credential.query c with
  | None, Some query =>
      target +:+ (if all_bytes (fun a => negb (one_of "?" a)) target then "?"%string else "&"%string)
      +:+ query +:+ "=" +:+ percent (Credential.value c) false
  | _, _ => target
  end.
Definition placed_target (credentials : list Credential.Credential) (host target : string) : string :=
  fold_left placed_query (List.filter (on_host host) credentials) target.

Lemma place_each_spec credentials call placed : place_each call credentials = inr placed ->
  placed = Call.mk (Call.method call) (Call.host call) (fold_left placed_query credentials (Call.target call))
             (Call.headers call ++ omap (fun c => header ← Credential.header c; Some (header, Credential.value c)) credentials)
             (Call.body call) (Call.timeout_ms call).
Proof.
  revert call. induction credentials as [|c rest IH]; intros call H.
  - apply (inj inr) in H. subst placed. destruct call. cbn. by rewrite app_nil_r.
  - cbn [place_each] in H. apply refusable_bind_inr in H as (next & Hp & H). apply IH in H. subst placed.
    unfold place in Hp. cbn [fold_left omap list_omap]. unfold placed_query at 3.
    destruct (Credential.header c) as [header|].
    + destruct (field_value _); [|done]. apply (inj inr) in Hp. subst next. cbn. by rewrite <- app_assoc.
    + destruct (Credential.query c) as [query|]; apply (inj inr) in Hp; subst next; by destruct call.
Qed.

Lemma inject_spec call credentials placed : inject call credentials = inr placed ->
  placed = Call.mk (Call.method call) (Call.host call) (placed_target credentials (Call.host call) (Call.target call))
             (Call.headers call ++ placed_headers credentials (Call.host call)) (Call.body call) (Call.timeout_ms call).
Proof. apply place_each_spec. Qed.

(** ** What one sent request satisfies *)
Section Broker.
  Context {U : Type} `{!Provision U} {T : CaseTables} {B : Base64} {D : Decoders}.
  Abbreviation Broker := (Broker.Broker U).
  #[local] Existing Instance brokered_ret.
  #[local] Existing Instance brokered_bind.

(** A call an Action may ask for: to a reviewed host, on routes every credential of
    that host admits, setting none of the fields Team places there. *)
Definition reviewed (scope : Scope.Scope) (hosts : list string) (call : Call.Call) : Prop :=
  Scope.authorized scope = true /\ In (Call.host call) hosts /\ ~ In (Call.host call) (Scope.missing scope)
  /\ forall c, In c (Scope.credentials scope) -> Credential.host c = Call.host call ->
       admits (Credential.routes c) (Call.method call) (Call.target call) = true
       /\ forall name, Credential.header c = Some name \/ Credential.query c = Some name ->
            ~ In name (map fst (Call.headers call)) /\ ~ In name (query_names (Call.target call)).

(** The request of a call: the Action's own, and exactly the credentials of its host. *)
Definition request_of (scope : Scope.Scope) (call : Call.Call) : Request.Request :=
  Request.mk (Call.method call) (Call.host call) (placed_target (Scope.credentials scope) (Call.host call) (Call.target call))
    (Call.headers call ++ placed_headers (Scope.credentials scope) (Call.host call) ++ [("accept-encoding", "identity")]%string)
    (Call.body call).

Lemma in_owned credentials host c name : In c credentials -> Credential.host c = host ->
  Credential.header c = Some name \/ Credential.query c = Some name -> In name (owned_fields credentials host).
Proof.
  intros Hc Hh Hn. unfold owned_fields. apply in_concat. eexists. split.
  - apply in_map_iff. exists c. split; [done|]. apply filter_In. split; [done|]. by apply seqb_true.
  - destruct Hn as [->| ->]; apply in_app_iff; [left|right]; by left.
Qed.

Lemma existsb_none {A} (p : A -> bool) l : existsb p l = false -> forall a, In a l -> p a = false.
Proof. intros H a Ha. apply not_true_is_false. intros Hp. apply not_true_iff_false in H. apply H, existsb_exists. by exists a. Qed.

Lemma admit_call_reviewed scope hosts call placed : Scope.authorized scope = true -> In (Call.host call) hosts ->
  admit_call scope call = inr placed -> reviewed scope hosts call
  /\ placed = Call.mk (Call.method call) (Call.host call) (placed_target (Scope.credentials scope) (Call.host call) (Call.target call))
                (Call.headers call ++ placed_headers (Scope.credentials scope) (Call.host call)) (Call.body call) (Call.timeout_ms call).
Proof.
  intros Hau Hho. unfold admit_call. destruct (_ || _) eqn:Hf; [done|]. apply orb_false_iff in Hf as [Hh Hq].
  destruct (contains (Scope.missing scope) _) eqn:Hm; [done|]. destruct (existsb _ (Scope.credentials scope)) eqn:Hr; [done|].
  intros Hi%inject_spec. split; [|done]. split_and!; [done|done| |].
  - intros Hin%contains_In. by rewrite Hm in Hin.
  - intros c Hc Hon. split.
    + pose proof (existsb_none _ _ Hr c Hc) as H. cbv beta in H. unfold on_host in H. apply seqb_true in Hon. rewrite Hon in H.
      cbn [andb] in H. by apply negb_false_iff in H.
    + intros name Hn. pose proof (in_owned _ _ _ _ Hc Hon Hn) as Ho. apply contains_In in Ho. split.
      * intros [[n v] [Hfst Hin]]%in_map_iff. cbn [fst] in Hfst. subst n. pose proof (existsb_none _ _ Hh _ Hin) as H. cbn [fst] in H.
        by rewrite Ho in H.
      * intros Hin. pose proof (existsb_none _ _ Hq _ Hin) as H. by rewrite Ho in H.
Qed.
Lemma parse_frame_host frame hosts call : parse_frame frame hosts = inr call -> In (Call.host call) hosts.
Proof.
  unfold parse_frame. destruct (object_members frame) as [ms|]; [|done]. cbv zeta. destruct (text_of _) as [method|]; [|done].
  destruct (negb _); [done|].
  intros ([host target] & Hu & (timeout & _ & (headers & _ & (body & _ & Hc)%refusable_bind_inr)%refusable_bind_inr)%refusable_bind_inr)%refusable_bind_inr.
  apply (inj inr) in Hc. subst call. unfold frame_url in Hu. destruct (text_of (get frame "url")) as [url|]; [|done].
  destruct (negb _ || _); [done|]. destruct (strip_prefix _ url) as [rest|]; [|done]. destruct (split_authority rest) as [authority tail].
  destruct (negb _ || negb (contains hosts authority)) eqn:Hh; [done|]. apply orb_false_iff in Hh as [_ Hh]. apply negb_false_iff, contains_In in Hh.
  destruct (split_target tail). apply (inj inr) in Hu. by injection Hu as <- _.
Qed.

(** ** One frame *)
Definition after (k : Broker) (u : U) (ds : list deed) : Broker :=
  Broker.mk (Broker.scope k) (Broker.route_read k) (Broker.route k) (Broker.held k) (Broker.calls k) u (Broker.deeds k ++ ds).
Lemma after_after k u ds u' ds' : after (after k u ds) u' ds' = after k u' (ds ++ ds').
Proof. unfold after. cbn. by rewrite app_assoc. Qed.
Lemma after_nil k u : k <| Broker.outside := u |> = after k u [].
Proof. unfold after. rewrite app_nil_r. by destruct k. Qed.

Lemma reaches_after {A} (call : U -> U * A) k : exists u a, call (Broker.outside k) = (u, a) /\ reaches call k = (after k u [], a).
Proof. unfold reaches. destruct (call (Broker.outside k)) as [u a]. exists u, a. by rewrite after_nil. Qed.
Lemma does_after d k : does d k = (after k (Broker.outside k) [d], tt).
Proof. unfold does, after. by destruct k. Qed.

Definition written {A} (answer : AuditUnavailable + A) : bool := match answer with inl _ => false | inr _ => true end.
Lemma audit_after ordinal fields k : exists u answer,
  audit ordinal fields k
  = (after k u [Recorded (audit_event_of (Scope.attempt (Broker.scope k)) ordinal fields) (written answer)], answer).
Proof.
  unfold audit, mbind, brokered_bind, reads.
  destruct (reaches_after (audit_event (audit_event_of (Scope.attempt (Broker.scope k)) ordinal fields)) k) as (u & a & _ & ->).
  rewrite does_after, after_after. cbn [app]. exists u. destruct a as [reason|]; [by exists (inl reason)|by exists (inr tt)].
Qed.

Lemma acquire_after k : exists u answer, acquire k = (after k u [], answer).
Proof.
  assert (k = after k (Broker.outside k) []) as Hk by (unfold after; rewrite app_nil_r; by destruct k).
  unfold acquire, mbind, brokered_bind, reads. destruct (call_stopped _); [exists (Broker.outside k), (refused "stopped"); by rewrite <- Hk|].
  destruct (reaches_after wait_capacity k) as (u & [] & _ & ->); by eexists _, _.
Qed.
(** The broker has read the egress policy it keeps. *)
Lemma read_route_spec k k' answer : read_route k = (k', answer) ->
  Broker.scope k' = Broker.scope k /\ Broker.calls k' = Broker.calls k /\ Broker.held k' = Broker.held k /\ Broker.deeds k' = Broker.deeds k
  /\ (Broker.route_read k = true -> Broker.route k' = Broker.route k)
  /\ (Broker.route_read k' = true \/ (Broker.route_read k = false /\ Broker.route_read k' = false /\ Broker.route k' = Broker.route k))
  /\ (answer = inr tt -> Broker.route_read k' = true) /\ (forall refusal, answer = inl refusal -> Broker.route k' = Broker.route k).
Proof.
  unfold read_route. destruct (Broker.route_read k) eqn:Hr.
  - intros [= <- <-]. rewrite Hr. split_and!; try done. by left.
  - destruct (egress_route (Broker.outside k)) as [u [refusal|route]]; intros [= <- <-].
    + split_and!; try done. right. by destruct k.
    + split_and!; try done. by left.
Qed.

Definition sent_request (call : Call.Call) : Request.Request :=
  Request.mk (Call.method call) (Call.host call) (Call.target call)
    (Call.headers call ++ [("accept-encoding", "identity")]%string) (Call.body call).

Lemma transport_after call token k : exists u ds answer, transport_send call token k = (after k u ds, answer)
  /\ (ds = [] \/ ds = [Sent token (sent_request call)]).
Proof.
  unfold transport_send, mbind, brokered_bind.
  destruct (reaches_after (deadline_passed (Call.timeout_ms call)) k) as (u1 & late & _ & ->).
  destruct late; [eexists _, _, _; split; [done|by left]|].
  destruct (reaches_after (open_tunnel (Call.host call) token) (after k u1 [])) as (u2 & opened & _ & ->). rewrite after_after.
  destruct (reaches_after (deadline_passes (Call.timeout_ms call)) (after k u2 ([] ++ []))) as (u3 & cut & _ & ->). rewrite after_after.
  set (last := reaches (deadline_passes _)). assert (forall k', exists u a, last k' = (after k' u [], a)) as Hlast.
  { intros k'. destruct (reaches_after (deadline_passes (Call.timeout_ms call)) k') as (u & a & _ & ?). eauto. }
  clearbody last. destruct cut; [|destruct opened; cbn [negb]].
  - cbn. destruct (Hlast (after k u3 [])) as (u4 & a & ->). rewrite after_after. eexists _, _, _. split; [done|by left].
  - rewrite does_after, after_after. set (request := Request.mk _ _ _ _ _).
    match goal with |- context [reaches _ ?k'] => destruct (reaches_after (https_exchange request) k') as (u4 & response & _ & ->) end.
    rewrite after_after. unfold mret, brokered_ret. match goal with |- context [last ?k'] => destruct (Hlast k') as (u5 & a & ->) end.
    rewrite after_after. eexists _, _, _. split; [done|by right].
  - cbn. destruct (Hlast (after k u3 [])) as (u4 & a & ->). rewrite after_after. eexists _, _, _. split; [done|by left].
Qed.
(** A reply is a closed refusal or a response that was searched and echoes nothing. *)
Definition reply_ok (scope : Scope.Scope) (reply : Value) : Prop :=
  (exists refusal, reply = error_reply refusal)
  \/ (exists response, reply = reply_of response
        /\ echoes (Response.headers response) (Response.body response) (Scope.credentials scope) = false).

Lemma exchange_after call k : exists u ds answer, exchange_call call k = (after k u ds, answer)
  /\ (ds = [] \/ exists token hosts, Broker.route k = Some (token, hosts)
        /\ ds = [Sent token (sent_request call)])
  /\ (forall fields reply, answer = inr (fields, reply) -> reply_ok (Broker.scope k) reply).
Proof.
  unfold exchange_call, mbind at 1, brokered_bind at 1, reads at 1. destruct (Broker.route k) as [[token hosts]|] eqn:Hr.
  - unfold mbind, brokered_bind. destruct (transport_after call token k) as (u1 & ds & answer & -> & Hds).
    destruct (reaches_after stop_interrupts_call (after k u1 ds)) as (u2 & interrupted & _ & ->). rewrite after_after, app_nil_r.
    eexists u2, ds, _. split; [done|]. split; [destruct Hds as [->| ->]; [by left|right; by exists token, hosts]|].
    intros fields reply. cbn [Broker.scope after]. destruct interrupted; [done|]. destruct answer as [|response]; [done|].
    unfold mbind, refusable_bind. destruct (echoes _ _ _) eqn:He; [done|]. intros [= _ <-]. right. by exists response.
  - exists (Broker.outside k), [], (refused "host"). split; [|split; [by left|done]]. unfold after, mret, brokered_ret. rewrite app_nil_r. by destruct k.
Qed.

Definition quiet (ds : list deed) : Prop := forall token request, ~ In (Sent token request) ds.
Lemma quiet_recorded event ok : quiet [Recorded event ok].
Proof. intros token request [[=]|[]]. Qed.

(** The same attempt later, after more deeds. *)
Definition later (k k' : Broker) (ds : list deed) : Prop :=
  Broker.scope k' = Broker.scope k /\ Broker.calls k' = Broker.calls k /\ Broker.route_read k' = Broker.route_read k
  /\ Broker.route k' = Broker.route k /\ Broker.deeds k' = Broker.deeds k ++ ds.
Lemma later_after k u ds : later k (after k u ds) ds.
Proof. done. Qed.
Lemma later_trans k k' k'' ds ds' : later k k' ds -> later k' k'' ds' -> later k k'' (ds ++ ds').
Proof. intros (? & ? & ? & ? & Hd) (? & ? & ? & ? & Hd'). split_and!; try congruence. by rewrite Hd', Hd, app_assoc. Qed.

(** What a call adds to the record of deeds: nothing sent, or its dispatch and it. *)
Definition dispatch_event (k : Broker) (call : Call.Call) (ordinal : nat) : list (string * Value) :=
  audit_event_of (Scope.attempt (Broker.scope k)) ordinal (dispatch_fields (Scope.credentials (Broker.scope k)) call).
Definition sending (k : Broker) (call : Call.Call) (ordinal : nat) (ds : list deed) : Prop :=
  quiet ds \/ exists token hosts rest, Broker.route k = Some (token, hosts) /\ quiet rest
    /\ ds = Recorded (dispatch_event k call ordinal) true :: Sent token (sent_request call) :: rest.

Lemma stopped_after call k : exists u ds answer, send_unless_stopped call k = (after k u ds, answer)
  /\ (ds = [] \/ exists token hosts, Broker.route k = Some (token, hosts) /\ ds = [Sent token (sent_request call)])
  /\ (forall fields reply, answer = inr (fields, reply) -> reply_ok (Broker.scope k) reply).
Proof.
  unfold send_unless_stopped, mbind, brokered_bind, reads. destruct (call_stopped _); [|apply exchange_after].
  exists (Broker.outside k), [], (refused "stopped"). split; [|split; [by left|done]].
  unfold after, mret, brokered_ret. rewrite app_nil_r. by destruct k.
Qed.

Lemma dispatched_after call ordinal k : exists u ds rest answer, send_dispatched call ordinal k = (after k u (ds ++ rest), answer)
  /\ quiet rest /\ (ds = [] \/ exists token hosts, Broker.route k = Some (token, hosts) /\ ds = [Sent token (sent_request call)])
  /\ (forall reply, answer = inr (inr reply) -> reply_ok (Broker.scope k) reply).
Proof.
  unfold send_dispatched, mbind at 1, brokered_bind at 1. destruct (stopped_after call k) as (u & ds & outcome & -> & Hds & Hre).
  unfold and_next, mbind, brokered_bind.
  match goal with |- context [audit ordinal ?f ?k'] => destruct (audit_after ordinal f k') as (u' & recorded & ->) end.
  rewrite after_after. destruct recorded as [reason|[]]; (eexists u', ds, _, _; split; [done|]; split; [apply quiet_recorded|]; split; [done|]); [done|].
  intros reply [= Hreply]. destruct outcome as [|[fields r]]; [done|]. injection Hreply as <-. by eapply Hre.
Qed.

Lemma send_after call ordinal k : exists k' ds answer, send_call call ordinal k = (k', answer) /\ later k k' ds
  /\ sending k call ordinal ds /\ (forall reply, answer = inr (inr reply) -> reply_ok (Broker.scope k) reply).
Proof.
  unfold send_call, mbind at 1, brokered_bind at 1. destruct (acquire_after k) as (u0 & permit & ->). destruct permit as [refusal|].
  { eexists _, [], _. split; [done|]. split; [apply later_after|]. split; [left; by intros ?? []|done]. }
  unfold mbind, brokered_bind, reads, and_next, mbind, brokered_bind. cbv beta iota. set (k1 := _ <| Broker.held := true |>).
  assert (later k k1 []) as H1 by (unfold k1, after; split_and!; done).
  match goal with |- context [audit ordinal ?f ?k'] => destruct (audit_after ordinal f k') as (u1 & recorded & ->) end.
  set (dispatched := Recorded _ _). pose proof (later_trans _ _ _ _ _ H1 (later_after k1 u1 [dispatched])) as H2.
  destruct recorded as [reason|[]].
  { eexists _, _, _. split; [done|]. split; [exact H2|]. split; [left; apply quiet_recorded|done]. }
  destruct (dispatched_after call ordinal (after k1 u1 [dispatched])) as (u2 & ds & rest & answer & -> & Hq & Hds & Hre).
  eexists _, _, _. split; [done|]. split; [eapply later_trans; [exact H2|apply later_after]|]. split; [|exact Hre].
  destruct Hds as [->|(token & hosts & Hr & ->)]; [left; intros t r [[=]|?]; by eapply Hq|].
  right. exists token, hosts, rest. split; [exact Hr|]. split; [done|]. by unfold dispatched, k1.
Qed.

(** *** Admission and the whole answer *)
Lemma admitted_frame frame k k' placed : admit_frame frame k = (k', inr placed) ->
  (Broker.calls k <= MAX_CALLS)%nat /\ Broker.route_read k' = true
  /\ exists call, parse_frame frame (reviewed_hosts k') = inr call /\ reviewed (Broker.scope k) (reviewed_hosts k') call
     /\ sent_request placed = request_of (Broker.scope k) call
     /\ forall credentials, dispatch_fields credentials placed = dispatch_fields credentials call.
Proof.
  unfold admit_frame, mbind, brokered_bind, reads. cbv beta iota. destruct (Nat.ltb_spec MAX_CALLS (Broker.calls k)); [done|].
  destruct (Scope.authorized (Broker.scope k)) eqn:Hau; cbn [negb]; [|done]. unfold and_next, mbind, brokered_bind.
  destruct (read_route k) as [k1 [refusal|[]]] eqn:Hr; [done|]. apply read_route_spec in Hr as (Hs & _ & _ & _ & _ & _ & Hread & _).
  cbv beta iota. intros [= <- Hp]. change ((parse_frame frame (reviewed_hosts k1) ≫= admit_call (Broker.scope k1)) = inr placed) in Hp.
  apply refusable_bind_inr in Hp as (call & Hpf & Hc). pose proof (parse_frame_host _ _ _ Hpf) as Hho. rewrite Hs in Hc.
  apply (admit_call_reviewed _ (reviewed_hosts k1)) in Hc as [Hrev ->]; [|done..].
  split; [done|]. split; [by apply Hread|]. exists call. split; [done|]. split; [done|]. split; [|done].
  unfold sent_request, request_of. cbn. by rewrite <- app_assoc.
Qed.

Lemma admit_frame_frame frame k k' answer : admit_frame frame k = (k', answer) ->
  Broker.scope k' = Broker.scope k /\ Broker.calls k' = Broker.calls k /\ Broker.deeds k' = Broker.deeds k
  /\ (Broker.route_read k = true -> Broker.route k' = Broker.route k /\ Broker.route_read k' = true).
Proof.
  unfold admit_frame, mbind, brokered_bind, reads. cbv beta iota. destruct (_ <? _)%nat; [by intros [= <- _]|].
  destruct (negb _); [by intros [= <- _]|]. unfold and_next, mbind, brokered_bind.
  destruct (read_route k) as [k1 r] eqn:Hr. apply read_route_spec in Hr as (Hs & Hc & _ & Hd & Hro & Hrr & _).
  assert (Broker.route_read k = true -> Broker.route k1 = Broker.route k /\ Broker.route_read k1 = true) as Hk.
  { intros H. split; [by apply Hro|]. destruct Hrr as [|(? & _)]; congruence. }
  destruct r; intros [= <- _]; done.
Qed.

Lemma refuse_after ordinal refusal k : exists k' event ok answer, refuse_call ordinal refusal k = (k', answer) /\ later k k' [Recorded event ok]
  /\ (forall reply, answer = inr reply -> reply = error_reply refusal).
Proof.
  unfold refuse_call, and_next, mbind, brokered_bind.
  match goal with |- context [audit ordinal ?f ?k'] => destruct (audit_after ordinal f k') as (u & recorded & ->) end.
  destruct recorded; do 4 eexists; (split; [done|]; split; [apply later_after|]); [done|]. by intros reply [= <-].
Qed.

(** What one frame adds: nothing sent, or one reviewed request after the record of
    its dispatch. *)
Definition adds (scope : Scope.Scope) (frame : Value) (k' : Broker) (ds : list deed) : Prop :=
  quiet ds \/ exists token hosts call rest,
    (Broker.calls k' <= MAX_CALLS)%nat /\ Broker.route_read k' = true /\ Broker.route k' = Some (token, hosts)
    /\ parse_frame frame hosts = inr call /\ reviewed scope hosts call /\ quiet rest
    /\ ds = Recorded (audit_event_of (Scope.attempt scope) (Broker.calls k') (dispatch_fields (Scope.credentials scope) call)) true
            :: Sent token (request_of scope call) :: rest.

Lemma sent_adds frame k k1 placed k' ds : admit_frame frame k = (k1, inr placed) -> later k1 k' ds -> sending k1 placed (Broker.calls k) ds ->
  forall extra, quiet extra -> adds (Broker.scope k) frame k' (ds ++ extra).
Proof.
  intros Ha Hl Hse extra Hq. pose proof (admit_frame_frame _ _ _ _ Ha) as (Hs & Hc & _). apply admitted_frame in Ha as (Hle & Hr & call & Hparse & Hrev & Hreq & Hf).
  destruct Hl as (_ & Hc' & Hrr & Hro & _). destruct Hse as [Hse|(token & hosts & rest & Hrt & Hqr & ->)].
  - left. intros t r [H|H]%in_app_iff; [by eapply Hse|by eapply Hq].
  - right. exists token, hosts, call, (rest ++ extra). split_and!; [lia|congruence|congruence| | | |].
    + unfold reviewed_hosts in Hparse. by rewrite Hrt in Hparse.
    + unfold reviewed_hosts in Hrev. by rewrite Hrt in Hrev.
    + intros t r [H|H]%in_app_iff; [by eapply Hqr|by eapply Hq].
    + unfold dispatch_event. rewrite Hreq, Hf, Hs, Hc', Hc. done.
Qed.

(** The end of an answer: the reply, or the refusal with its record. *)
Lemma settled_after scope ordinal (answer : AuditUnavailable + refusable Value) k :
  (forall reply, answer = inr (inr reply) -> reply_ok scope reply) ->
  exists k' extra final,
    match answer with
    | inl e => mret (inl e)
    | inr (inr reply) => mret (inr reply)
    | inr (inl refusal) =>
        held ← reads Broker.held;
        if held : bool then mret (inr (error_reply refusal)) else refuse_call ordinal refusal
    end k = (k', final)
    /\ later k k' extra /\ quiet extra /\ (forall reply, final = inr reply -> reply_ok scope reply).
Proof.
  intros Hre. assert (later k k []) as Hk by (unfold later; by rewrite app_nil_r).
  assert (quiet []) as Hq by (by intros ?? []).
  destruct answer as [reason|[refusal|reply]]; [by exists k, [], (inl reason)| |exists k, [], (inr reply); naive_solver].
  unfold mbind, brokered_bind, reads. destruct (Broker.held k).
  - exists k, [], (inr (error_reply refusal)). split; [done|]. split; [done|]. split; [done|]. intros r [= <-]. left. by exists refusal.
  - destruct (refuse_after ordinal refusal k) as (k' & event & ok & final & -> & Hl & Hf). exists k', [Recorded event ok], final.
    split; [done|]. split; [done|]. split; [apply quiet_recorded|]. intros r ->. left. exists refusal. by apply Hf.
Qed.

Lemma reply_after frame k : exists k' ds answer, broker_reply frame k = (k', answer)
  /\ Broker.scope k' = Broker.scope k /\ Broker.calls k' = S (Broker.calls k) /\ Broker.deeds k' = Broker.deeds k ++ ds
  /\ (Broker.route_read k = true -> Broker.route k' = Broker.route k /\ Broker.route_read k' = true)
  /\ adds (Broker.scope k) frame k' ds /\ (forall reply, answer = inr reply -> reply_ok (Broker.scope k) reply).
Proof.
  unfold broker_reply, mbind at 1, brokered_bind at 1. set (k0 := k <| Broker.calls := S (Broker.calls k) |>).
  unfold mbind at 1, brokered_bind at 1, reads at 1. unfold mbind at 1, brokered_bind at 1.
  destruct (admit_frame frame k0) as [k1 admission] eqn:Ha. pose proof (admit_frame_frame _ _ _ _ Ha) as (Hs & Hc & Hd & Hro).
  change (Broker.calls k0) with (S (Broker.calls k)) in *. change (Broker.scope k0) with (Broker.scope k) in *.
  change (Broker.deeds k0) with (Broker.deeds k) in *. change (Broker.route_read k0) with (Broker.route_read k) in *.
  change (Broker.route k0) with (Broker.route k) in *.
  destruct admission as [refusal|placed].
  { destruct (refuse_after (S (Broker.calls k)) refusal k1) as (k' & event & ok & answer & -> & (H1 & H2 & H3 & H4 & H5) & Hre).
    exists k', [Recorded event ok], answer. split; [done|]. split_and!; [congruence..| | |].
    - intros Hr. destruct (Hro Hr). split; congruence.
    - left. apply quiet_recorded.
    - intros reply ->. left. exists refusal. by apply Hre. }
  unfold and_next, mbind at 1, brokered_bind at 1.
  destruct (send_after placed (S (Broker.calls k)) k1) as (k2 & ds & answer & -> & Hl & Hse & Hre).
  match goal with |- context [match answer with _ => _ end] =>
    destruct (settled_after (Broker.scope k1) (S (Broker.calls k)) answer k2 Hre) as (k' & extra & final & Hf & Hl' & Hq & Hre') end.
  exists k', (ds ++ extra), final. split; [exact Hf|]. pose proof (later_trans _ _ _ _ _ Hl Hl') as Hl2.
  pose proof Hl2 as (H1 & H2 & H3 & H4 & H5). split_and!; [congruence..| | |].
  - intros Hr. destruct (Hro Hr). split; congruence.
  - destruct (sent_adds _ _ _ _ _ _ Ha Hl Hse extra Hq) as [|(token & hosts & call & rest & Hx)]; [by left|right].
    destruct Hl' as (_ & Hc' & Hrr & Hrt & _). exists token, hosts, call, rest. by rewrite Hc', Hrr, Hrt.
  - by rewrite <- Hs.
Qed.

(** ** An attempt: frames answered and replies released, in any order

    The frames answered so far, in order, and the broker they left. *)
Inductive frames_served (scope : Scope.Scope) (u : U) : list Value -> Broker -> Prop :=
| frames_none : frames_served scope u [] (broker_new scope u)
| frames_answer frames frame k : frames_served scope u frames k -> frames_served scope u (frames ++ [frame]) (fst (broker_answer frame k))
| frames_release frames k : frames_served scope u frames k -> frames_served scope u frames (broker_release k).

Definition is_sent (d : deed) : bool := match d with Sent _ _ => true | Recorded _ _ => false end.
Definition sends (ds : list deed) : nat := length (List.filter is_sent ds).

(** Every request of the record was sent for one frame the broker answered: it is that
    frame's own call, reviewed, with the credentials of its host; it carries the policy's
    token, and all that stands before it is what the earlier frames left and the written
    record of its dispatch under that frame's ordinal. *)
Definition all_reviewed (scope : Scope.Scope) (u : U) (frames : list Value) (k : Broker) : Prop :=
  forall before token request rest, Broker.deeds k = before ++ Sent token request :: rest ->
    exists hosts frame call earlier ordinal,
      Broker.route_read k = true /\ Broker.route k = Some (token, hosts)
      /\ (ordinal < MAX_CALLS)%nat /\ frames !! ordinal = Some frame /\ frames_served scope u (take ordinal frames) earlier
      /\ parse_frame frame hosts = inr call /\ reviewed scope hosts call /\ request = request_of scope call
      /\ before = Broker.deeds earlier ++ [Recorded (audit_event_of (Scope.attempt scope) (S ordinal) (dispatch_fields (Scope.credentials scope) call)) true].
Definition sound (scope : Scope.Scope) (u : U) (frames : list Value) (k : Broker) : Prop :=
  Broker.scope k = scope /\ Broker.calls k = length frames /\ (sends (Broker.deeds k) <= Nat.min (Broker.calls k) MAX_CALLS)%nat /\ all_reviewed scope u frames k.

Lemma quiet_sends ds : quiet ds -> sends ds = O.
Proof.
  intros H. unfold sends. rewrite (filter_none is_sent ds); [done|]. apply List.Forall_forall. intros [|token request] Hin; [done|].
  by apply H in Hin.
Qed.
Lemma sends_app ds ds' : sends (ds ++ ds') = (sends ds + sends ds')%nat.
Proof. unfold sends. by rewrite List.filter_app, length_app. Qed.

Lemma app_sent_split (ds new before rest : list deed) token request : ds ++ new = before ++ Sent token request :: rest ->
  (exists rest', ds = before ++ Sent token request :: rest') \/ (exists new', new = new' ++ Sent token request :: rest /\ before = ds ++ new').
Proof.
  revert before. induction ds as [|d ds IH]; intros before H; [right; by exists before|]. destruct before as [|b before].
  - left. injection H as -> _. by exists ds.
  - injection H as -> H. apply IH in H as [(rest' & ->)|(new' & -> & ->)]; [left; by exists rest'|right; by exists new'].
Qed.

Lemma answered_sound scope u frames frame k : frames_served scope u frames k -> sound scope u frames k -> sound scope u (frames ++ [frame]) (fst (answer_frame frame k)).
Proof.
  intros Hserved (<- & Hlen & Hn & Hall). destruct (reply_after frame k) as (k' & ds & answer & Hr & Hs' & Hc & Hd & Hro & Had & _).
  assert (fst (answer_frame frame k) = k') as -> by (unfold answer_frame, mbind, brokered_bind; rewrite Hr; by destruct answer).
  split; [congruence|]. split; [rewrite length_app; cbn [length]; lia|]. rewrite Hd, sends_app, Hc. split.
  - destruct Had as [Hq|(token & hosts & call & rest & Hle & _ & _ & _ & _ & Hq & ->)]; [rewrite (quiet_sends ds) by done; lia|].
    rewrite Hc in Hle.
    replace (sends (_ :: _ :: rest)) with (S (sends rest)) by done. rewrite (quiet_sends rest) by done. lia.
  - intros before token request rest. rewrite Hd. intros [(rest' & Hds)|(new & Hnew & ->)]%app_sent_split.
    + destruct (Hall _ _ _ _ Hds) as (hosts & f & call & earlier & ordinal & Hrr & Hrt & Ho & Hf & Hfs & Hx). destruct (Hro Hrr) as [Hrt' Hrr'].
      exists hosts, f, call, earlier, ordinal. pose proof (lookup_lt_Some _ _ _ Hf). split; [done|]. split; [congruence|]. split; [done|]. split; [by apply lookup_app_l_Some|]. split; [by rewrite take_app_le by lia|done].
    + destruct Had as [Hq|(t & hosts & call & rest' & Hle & Hrr & Hrt & Hparse & Hrev & Hq & ->)].
      { exfalso. apply (Hq token request). rewrite Hnew. apply in_app_iff. right. by left. }
      destruct new as [|d [|d' new]]; [done| |].
      * injection Hnew as <- <- <- _. exists hosts, frame, call, k, (length frames). rewrite take_app_length. rewrite Hc, Hlen in *.
        assert ((frames ++ [frame]) !! length frames = Some frame) by (by rewrite lookup_app_r, Nat.sub_diag by lia). split_and!; done || lia.
      * exfalso. injection Hnew as <- <- ->. apply (Hq token request). apply in_app_iff. right. by left.
Qed.
Lemma frames_sound scope u frames k : frames_served scope u frames k -> sound scope u frames k.
Proof.
  induction 1 as [|frames frame k Hk IH|frames k Hk IH]; [|by apply answered_sound|exact IH].
  split; [done|]. split; [done|]. split; [cbn; lia|]. intros before token request rest Hd. by destruct before.
Qed.

(** C9. A credential leaves Team only where it was reviewed.  Over any frames an
    Action sends and in any order: every request put on the wire answers one frame,
    the only one that frame sends; it is the call read from that very frame with
    exactly the credentials of its host placed on it, each of whose reviewed routes
    admits it and none of whose fields the Action set; the host is one of the
    Assistant's egress policy, under its token, and the Action's authorization was
    held; the record of its dispatch, under that frame's ordinal, was written right
    before; and one attempt sends at most 16. *)
Theorem credentials_stay_reviewed (scope : Scope.Scope) (u : U) (frames : list Value) (k : Broker) :
  frames_served scope u frames k ->
  (sends (Broker.deeds k) <= MAX_CALLS)%nat /\ all_reviewed scope u frames k.
Proof. intros (_ & _ & Hn & Hall)%frames_sound. split; [lia|done]. Qed.

(** C10. What an Action is told shows no credential of its attempt.  A reply is a
    closed error, or a response in whose body and header lines no ASCII form of a
    protected value (the value, what was placed, their encodings) stands, in any
    letter case. *)
Theorem reply_shows_no_credential `{L : !CaseLaws} (frame : Value) (k k' : Broker) (bytes : list ascii) :
  broker_answer frame k = (k', inr bytes) ->
  exists reply, bytes = String.list_ascii_of_string (dumps REPLY_JSON reply)
  /\ ((exists refusal, reply = error_reply refusal)
      \/ exists response, reply = reply_of response
           /\ echo_free (Scope.credentials (Broker.scope k)) (Response.headers response) (Response.body response)).
Proof.
  destruct (reply_after frame k) as (k1 & ds & answer & Hr & _ & _ & _ & _ & _ & Hre). cbn [broker_answer provider_broker].
  unfold answer_frame, mbind, brokered_bind. rewrite Hr. destruct answer as [reason|reply]; intros [= _ <-].
  exists reply. split; [done|]. destruct (Hre reply eq_refl) as [Hx|(response & -> & He)]; [by left|right].
  exists response. split; [done|]. by apply echoes_false.
Qed.
End Broker.

(** ** An attempt that sends one call

    A token of the host, in its header, on the one route it is reviewed for. *)
Module Sample.
Definition cases : CaseTables := {|
  LOWER := fun c => if (0x41 <=? c) && (c <=? 0x5a) then Some (String (byte_of (c + 32)) "") else None;
  CASED := fun _ => false;
  CASE_IGNORABLE := fun _ => false
|}.
Definition decoders : Decoders := {| hmac_sha256 := fun key message => key +:+ message; base64_standard_decode := Some |}.
Definition response : Response.Response := Response.mk 200 [("content-type", "text/plain")]%string "fine".
Definition provision : Provision unit := {|
  egress_route := fun u => (u, inr (Some ("policy", ["api.example.com"])%string));
  audit_event := fun _ u => (u, None);
  call_stopped := fun _ => false;
  stop_interrupts_call := fun u => (u, false);
  wait_capacity := fun u => (u, Permit);
  deadline_passed := fun _ u => (u, false);
  deadline_passes := fun _ u => (u, false);
  elapsed_ms := fun _ => 5;
  open_tunnel := fun _ _ u => (u, true);
  https_exchange := fun _ u => (u, inr response)
|}.
Definition routes : Value := VArray [VObject [("method", VString "GET"); ("path", VString "/v1/items/*")]]%string.
Definition credential : Credential.Credential :=
  Credential.mk "stored-input:key" "api.example.com" (Some "x-key"%string) None "s3cr3t-value" ["s3cr3t-value"%string] (RoutesDeclared routes).
Definition scope : Scope.Scope := Scope.mk (Attempt.mk "team" "assistant" "action" "operation") [credential] [] true.
Definition frame : Value :=
  VObject [("type", VString "fetch"); ("method", VString "GET"); ("url", VString "https://api.example.com/v1/items/7"); ("headers", VArray [])]%string.
Definition start : Broker.Broker unit := broker_new scope tt.
Definition answer : Broker.Broker unit * framed_result (list ascii) :=
  broker_answer (CallBroker := provider_broker (Provision0 := provision) (T := cases) (B := fun s => s) (D := decoders)) frame start.
End Sample.

Lemma credentials_stay_reviewed_witness :
  sends (Broker.deeds (fst Sample.answer)) = 1%nat
  /\ (sends (Broker.deeds (fst Sample.answer)) <= MAX_CALLS)%nat
  /\ all_reviewed (Provision0 := Sample.provision) (T := Sample.cases) (B := fun s => s) (D := Sample.decoders) Sample.scope tt [Sample.frame] (fst Sample.answer).
Proof.
  split; [vm_compute; reflexivity|].
  apply (credentials_stay_reviewed (Provision0 := Sample.provision) (T := Sample.cases) (B := fun s => s) (D := Sample.decoders) Sample.scope tt).
  apply (frames_answer (Provision0 := Sample.provision) (T := Sample.cases) (B := fun s => s) (D := Sample.decoders) Sample.scope tt [] Sample.frame (broker_new Sample.scope tt)). apply frames_none.
Defined.

Lemma reply_shows_no_credential_witness :
  exists reply, String.list_ascii_of_string (dumps REPLY_JSON (reply_of (B := fun s => s) Sample.response))
                = String.list_ascii_of_string (dumps REPLY_JSON reply)
  /\ ((exists refusal, reply = error_reply refusal)
      \/ exists response, reply = reply_of (B := fun s => s) response
           /\ echo_free (B := fun s => s) [Sample.credential] (Response.headers response) (Response.body response)).
Proof.
  assert (CaseLaws (H := Sample.cases)) as laws by (by intros c Hc).
  apply (reply_shows_no_credential (Provision0 := Sample.provision) (T := Sample.cases) (B := fun s => s) (D := Sample.decoders)
           Sample.frame Sample.start (fst Sample.answer)).
  vm_compute. reflexivity.
Defined.
