(* ===== verification/Walk.v ===== *)
(** * Secret positions of an Action's schemas

    [routine/src/plan/walk.rs]: the subschemas that apply where a value's members
    and items are, and which of those positions may hold a secret.  The matcher of
    [patternProperties] is [vendor/action-schema], a parameter. *)

From stdpp Require Import base tactics list strings.
From Stdlib Require Import ZArith Lia Ascii.
From S2P Require Import Prelude Text Json Platform Requests Redaction Schedule Plans Credentials.

#[local] Open Scope Z_scope.

(** [action_schema::pattern_matches], which spends a budget of work; [None] when it
    is exhausted or the pattern is refused. *)
Class Patterns : Type := {
  Budget : Type;
  full_budget : Budget;
  pattern_matches : string -> string -> Budget -> Budget * option bool
}.

Definition MAX_SECRET_DEPTH : nat := 64.
Definition SECRET_MARKERS : list string :=
  ["secret"; "password"; "passwd"; "token"; "api_key"; "apikey"; "private_key"; "access_key"; "credential"]%string.
Definition UNMODELLED : list string :=
  ["if"; "then"; "else"; "not"; "contains"; "unevaluatedItems"; "contentSchema"; "propertyNames"]%string.
Definition APPLICATORS : list string :=
  ["additionalProperties"; "contains"; "contentSchema"; "else"; "if"; "items"; "not"; "propertyNames"; "then";
   "unevaluatedItems"; "unevaluatedProperties"]%string.
Definition LIST_APPLICATORS : list string := ["allOf"; "anyOf"; "oneOf"; "prefixItems"]%string.
Definition MAP_APPLICATORS : list string := ["$defs"; "definitions"; "dependentSchemas"; "patternProperties"; "properties"]%string.

(** A subschema at one position: one node, or several that apply together. *)
Inductive Sub : Type := SubNode (node : Value) | SubAllOf (nodes : list Value).
(** What a position holds, as far as a dependent schema needs it. *)
Inductive Held : Type := HeldUnknown | HeldValue (v : Value) | HeldSupplied (found : list (string * option Value)).
Definition names {A} (found : list (string * A)) (key : string) : bool := existsb (fun kv => fst kv =s key) found.
(** [Held::depends]. *)
Definition depends (held : Held) (key : string) : option bool :=
  match held with
  | HeldUnknown => Some true
  | HeldValue (VObject found) => Some (names found key)
  | HeldSupplied found => Some (names found key)
  | HeldValue _ => None
  end.

(** The members of an object member, and nothing of any other value. *)
Definition object_at (v : Value) (key : string) : list (string * Value) :=
  match get v key with Some (VObject ms) => ms | _ => [] end.
Definition text_at (v : Value) (key : string) : option string := found ← get v key; as_str found.
Definition listed (o : option Value) : list Value := match o with Some v => [v] | None => [] end.

(** [reference_target]: the root, or one direct definition whose name may escape. *)
Definition reference_target (root : Value) (reference : string) : option Value :=
  if reference =s "#" then Some root
  else
    let rest := String.concat "" (map utf8 (skipn 2 (chars reference))) in
    let '(container, name) := default (rest, ""%string) (Schedule.split_once "/" rest) in
    found ← get root container; get found (unescape name).

Definition applied_subschemas (node : Value) : list Value :=
  flat_map (fun keyword => listed (get node keyword)) APPLICATORS
  ++ flat_map (fun keyword => match get node keyword with Some found => elements found | None => [] end) LIST_APPLICATORS
  ++ flat_map (fun keyword => match get node keyword with Some found => map snd (members found) | None => [] end) MAP_APPLICATORS.

Definition EMPTY : Value := VObject [].

Section Walk.
  Context {T : CaseTables} {PT : Patterns}.

(** *** The subschemas of a position *)
(** What a node applies at its own position: its reference, its combinators, and the
    dependent schemas of the members the position holds. *)
Definition reached_here (root node : Value) (held : Held) : list (option Value) :=
  match text_at node "$ref" with Some reference => [reference_target root reference] | None => [] end
  ++ flat_map (fun combinator => match get node combinator with Some (VArray items) => map Some items | _ => [] end) ["allOf"; "anyOf"; "oneOf"]%string
  ++ flat_map (fun kv => match depends held (fst kv) with Some true => [Some (snd kv)] | _ => [] end) (object_at node "dependentSchemas").
Definition each_of {A B} (f : A -> result B) : list A -> result (list B) :=
  fix go l := match l with [] => Ok [] | a :: l => b ← f a; bs ← go l; Ok (b :: bs) end.
(** [collect]: the fuel is the levels left above [MAX_SECRET_DEPTH]. *)
Fixpoint collect (fuel : nat) (root : Value) (node : option Value) (held : Held) : result (list Value) :=
  match fuel with
  | O => Err "plan-secret-literal"
  | S fuel =>
      match node with
      | Some (VObject ms) =>
          more ← each_of (fun member => collect fuel root member held) (reached_here root (VObject ms) held);
          Ok (VObject ms :: concat more)
      | _ => Ok []
      end
  end.
Definition applicable (root : Value) (sub : Sub) (depth : nat) (held : Held) : result (list Value) :=
  let fuel := (S MAX_SECRET_DEPTH - depth)%nat in
  match sub with
  | SubNode node => collect fuel root (Some node) held
  | SubAllOf nodes =>
      match fuel with
      | O => Err "plan-secret-literal"
      | S fuel => found ← each_of (fun node => collect fuel root (Some node) held) nodes; Ok (concat found)
      end
  end.

(** *** The subschemas of a member and of an item *)
Fixpoint matched_patterns (patterns : list (string * Value)) (key : string) (budget : Budget) : Budget * result (list Value) :=
  match patterns with
  | [] => (budget, Ok [])
  | (pattern, schema) :: patterns =>
      match pattern_matches pattern key budget with
      | (budget, None) => (budget, Err "plan-secret-literal")
      | (budget, Some matches) =>
          let '(budget, rest) := matched_patterns patterns key budget in
          (budget, rest ← rest; Ok (if matches then schema :: rest else rest))
      end
  end.
Fixpoint member_candidates (candidates : list Value) (key : string) (budget : Budget) : result (list Value) :=
  match candidates with
  | [] => Ok []
  | item :: candidates =>
      let '(budget, matched) := matched_patterns (object_at item "patternProperties") key budget in
      matched ← matched;
      let property := lookup_member (object_at item "properties") key in
      let additional :=
        match property, matched, get item "additionalProperties" with
        | None, [], Some (VObject ms) => [VObject ms]
        | _, _, _ => []
        end in
      rest ← member_candidates candidates key budget;
      Ok (listed property ++ matched ++ additional ++ rest)
  end.
Definition member_schemas (candidates : list Value) (key : string) : result Sub :=
  found ← member_candidates candidates key full_budget; Ok (SubAllOf found).
Definition item_schemas (candidates : list Value) (index : nat) : Sub :=
  SubAllOf (flat_map (fun item =>
    match get item "prefixItems" with
    | Some (VArray prefix) =>
        match prefix !! index with Some found => [found] | None => listed (get item "items") end
    | _ => listed (get item "items")
    end) candidates).
Definition any_item (candidates : list Value) : list Value :=
  flat_map (fun item => match get item "prefixItems" with Some (VArray prefix) => prefix | _ => [] end ++ listed (get item "items")) candidates.

(** *** Secret positions *)
Fixpoint replace_byte (p r : ascii) (s : string) : string :=
  match s with EmptyString => EmptyString | String a s => String (if Ascii.eqb a p then r else a) (replace_byte p r s) end.
Definition secret_name (name : string) : bool :=
  let lowered := replace_byte "-" "_" (py_lower (chars name)) in existsb (fun marker => has_sub marker lowered) SECRET_MARKERS.
Definition marked (subschema : Value) : bool :=
  match get subschema "writeOnly" with Some (VBool true) => true | _ => false end
  || match get subschema "format" with Some (VString format) => format =s "password" | _ => false end.
(** [could_hold_secret]: the fuel is the levels left above [MAX_SECRET_DEPTH]. *)
Fixpoint holds_secret (fuel : nat) (root : Value) (subschema : option Value) : bool :=
  match fuel with
  | O => true
  | S fuel =>
      match subschema with
      | Some (VObject ms) =>
          let node := VObject ms in
          marked node || existsb (fun kv => secret_name (fst kv)) (object_at node "properties")
          || existsb (holds_secret fuel root)
               (map Some (applied_subschemas node) ++ match text_at node "$ref" with Some reference => [reference_target root reference] | None => [] end)
      | _ => false
      end
  end.
Definition could_hold_secret (root : Value) (subschema : option Value) (depth : nat) : bool :=
  holds_secret (S MAX_SECRET_DEPTH - depth) root subschema.
Definition secret_position (root : Value) (name : string) (candidates : list Value) : bool :=
  secret_name name || existsb marked candidates
  || existsb (fun item => existsb (fun keyword => match get item keyword with Some reached => could_hold_secret root (Some reached) 0 | None => false end)
                            UNMODELLED) candidates.
End Walk.
