(* ===== verification/Traces.v ===== *)
(** * Kept values and protection

    [routine/src/trace/mod.rs]: a recorded value with every position that may be
    secret withheld whole, the strings a result holds in secret, and the set of
    values a turn or run protects. *)

From stdpp Require Import base tactics list strings pretty.
From Stdlib Require Import ZArith Lia Ascii.
From S2P Require Import Prelude Text Json Platform Requests Redaction Schedule Plans Credentials Walk.

#[local] Open Scope Z_scope.

Definition MAX_OCCURRENCES : Z := MAX_STEPS.
Definition MAX_KEPT_BYTES : Z := 256 * 1024.
Definition MAX_TRACE_BYTES : Z := 1024 * 1024.
Definition MAX_PROTECTED_VALUES : Z := 128.
Definition MAX_PROTECTED_BYTES : Z := 64 * 1024.
Definition MAX_SAFE_OUTPUT_DEPTH : nat := MAX_SECRET_DEPTH.

(** A [BTreeSet<String>]: sorted, each once. *)
Definition string_set (l : list string) : list string := dedup (stable_sort sleb l).

Module Kept.
Record Kept : Type := mk { value : Value; withheld : list string; oversize : bool }.
End Kept.
Definition whole_kept (v : Value) : Kept.Kept := Kept.mk v [] false.
(** [Kept::available]. *)
Definition available (k : Kept.Kept) (pointer : string) : bool :=
  negb (existsb (fun item => is_empty item || (item =s pointer)
                             || is_some (strip_prefix (item +:+ "/") pointer) || is_some (strip_prefix (pointer +:+ "/") item))
          (Kept.withheld k)).
(** [format!("{at}/{index}")]. *)
Definition index_text (index : nat) : string := pretty (Z.of_nat index).

(** *** The protected values of a turn or run *)
Module Protection.
Record Protection : Type := mk { values : list string; lost : bool }.
End Protection.
Definition no_protection : Protection.Protection := Protection.mk [] false.
Definition lost_protection : Protection.Protection := Protection.mk [] true.
(** [Protection::grow]. *)
Definition grow (p : Protection.Protection) (values : list string) : Protection.Protection :=
  let grown := string_set (Protection.values p ++ List.filter (fun item => negb (is_empty item)) values) in
  if Protection.lost p || (MAX_PROTECTED_VALUES <? len grown) || (MAX_PROTECTED_BYTES <? zsum (map slen grown))
  then Protection.mk (Protection.values p) true
  else Protection.mk grown false.

(** [strings]: every string inside a value. *)
Fixpoint strings_in (v : Value) : list string :=
  match v with
  | VString s => [s]
  | VArray items => concat (map strings_in items)
  | VObject ms => concat (map (fun kv => strings_in (snd kv)) ms)
  | _ => []
  end.
(** [exposes]. *)
Definition holds_protected (protected : list string) (s : string) : bool := existsb (fun secret => has_sub secret s) protected.
Fixpoint exposes (v : Value) (protected : list string) : bool :=
  match v with
  | VString s => holds_protected protected s
  | VArray items => existsb (fun item => exposes item protected) items
  | VObject ms => existsb (fun kv => holds_protected protected (fst kv) || exposes (snd kv) protected) ms
  | _ => false
  end.

Section Traces.
  Context {VO : Vocabulary} {T : CaseTables} {PT : Patterns}.

Definition schema_root (schema : Value) : Value := match schema with VObject _ => schema | _ => EMPTY end.
(** [secret_at]: an unwalkable schema may be secret. *)
Definition secret_at (root : Value) (sub : Sub) (name : string) (v : Value) (depth : nat) : list Value * bool :=
  match applicable root sub 0 (HeldValue v) with
  | Ok candidates => (candidates, (MAX_SAFE_OUTPUT_DEPTH <? depth)%nat || secret_position root name candidates)
  | Err _ => ([], true)
  end.
(** [unsafe_value]. *)
Definition unsafe_text (protected : list string) (s : string) : bool := resembles_credential s || holds_protected protected s.
Definition unsafe_value (v : Value) (protected : list string) : bool :=
  match v with
  | VObject ms => existsb (fun kv => unsafe_text protected (fst kv)) ms
  | VString s => unsafe_text protected s
  | _ => false
  end.

(** [Keeper::kept]: the value with what it withholds as [null], and the pointers. *)
Fixpoint kept_value (root : Value) (protected : list string) (v : Value) (sub : Sub) (name place : string) (depth : nat) {struct v}
  : result (Value * list string) :=
  let '(candidates, secret) := secret_at root sub name v depth in
  if secret || unsafe_value v protected then Ok (VNull, [place])
  else
    match v with
    | VObject ms =>
        kept ← (fix go (ms : list (string * Value)) : result (list (string * Value) * list string) :=
                  match ms with
                  | [] => Ok ([], [])
                  | (key, item) :: ms =>
                      member ← member_schemas candidates key;
                      '(item, withheld) ← kept_value root protected item member key (place +:+ "/" +:+ escape_token key) (S depth);
                      '(rest, more) ← go ms;
                      Ok ((key, item) :: rest, withheld ++ more)
                  end) ms;
        Ok (VObject (fst kept), snd kept)
    | VArray items =>
        kept ← (fix go (index : nat) (items : list Value) : result (list Value * list string) :=
                  match items with
                  | [] => Ok ([], [])
                  | item :: items =>
                      '(item, withheld) ← kept_value root protected item (item_schemas candidates index) name (place +:+ "/" +:+ index_text index) (S depth);
                      '(rest, more) ← go (S index) items;
                      Ok (item :: rest, withheld ++ more)
                  end) 0%nat items;
        Ok (VArray (fst kept), snd kept)
    | _ => Ok (v, [])
    end.
Definition not_empty (l : list string) : list string := List.filter (fun item => negb (is_empty item)) l.
Definition keep (v schema : Value) (protected : list string) : result Kept.Kept :=
  let root := schema_root schema in
  '(kept, withheld) ← kept_value root (not_empty protected) v (SubNode root) "" "" 0;
  Ok (if MAX_KEPT_BYTES <? slen (canonical kept) then Kept.mk VNull [""%string] true
      else Kept.mk kept (string_set withheld) false).

(** [collect] of [secret_values]. *)
Fixpoint secrets_in (root v : Value) (sub : Sub) (name : string) (depth : nat) {struct v} : result (list string) :=
  let '(candidates, secret) := secret_at root sub name v depth in
  if secret then Ok (strings_in v)
  else
    match v with
    | VObject ms =>
        (fix go (ms : list (string * Value)) : result (list string) :=
           match ms with
           | [] => Ok []
           | (key, item) :: ms =>
               member ← member_schemas candidates key;
               found ← secrets_in root item member key (S depth);
               rest ← go ms; Ok (found ++ rest)
           end) ms
    | VArray items =>
        (fix go (index : nat) (items : list Value) : result (list string) :=
           match items with
           | [] => Ok []
           | item :: items =>
               found ← secrets_in root item (item_schemas candidates index) name (S depth);
               rest ← go (S index) items; Ok (found ++ rest)
           end) 0%nat items
    | _ => Ok []
    end.
Definition secret_values (v schema : Value) : result (list string) :=
  let root := schema_root schema in secrets_in root v (SubNode root) "" 0.

(** [kept_bytes], and an occurrence with its size. *)
Definition kept_bytes (k : Kept.Kept) : Z :=
  slen (canonical (object [("value"%string, Kept.value k); ("withheld"%string, VArray (map VString (Kept.withheld k)))])).
End Traces.

Module Occurrence.
Record Occurrence : Type := mk {
  assistant : string; action : string; pin : string; read_only : bool;
  input : Kept.Kept; result : Kept.Kept; interrupt : string; size : Z
}.
End Occurrence.
(** [Occurrence::new]. *)
Definition occurrence_new (assistant action pin : string) (read_only : bool) (input result : Kept.Kept) : Occurrence.Occurrence :=
  Occurrence.mk assistant action pin read_only input result "" (kept_bytes input + kept_bytes result).
