(* ===== verification/Outputs.v ===== *)
(** * What a completed run shows of its result

    [routine/src/plan/output.rs]: the safe form of a result (everything secret,
    credential-shaped or protected redacted), the bytes a change is compared on, and
    the shown form, cut down a fixed ladder until it fits. *)

From stdpp Require Import base tactics list strings pretty.
From Stdlib Require Import ZArith Lia Ascii.
From S2P Require Import Prelude Text Json Platform Requests Redaction Wire Schedule Plans Credentials Walk Traces.

#[local] Open Scope Z_scope.

Definition OUTPUT_LEVELS : list (Z * Z * Z) :=
  [(MAX_OUTPUT_ITEMS, MAX_OUTPUT_FIELDS, MAX_OUTPUT_TEXT_CHARS); (25, 24, 120); (12, 12, 60); (6, 8, 40); (3, 4, 20); (1, 2, 12); (0, 0, 0)].
Definition MAX_COMPARED_OUTPUT_BYTES : Z := 1024 * 1024.
Definition OUTPUT_REDACTED_KEY : string := "[redacted]".
Definition output_redacted : Value := object [("kind"%string, text "redacted")].
Definition output_elided : Value := object [("kind"%string, text "elided")].

(** What every node of one projection shares. *)
Module Context.
Record Context : Type := mk { root : Value; protected : list string; depth : nat }.
End Context.

Definition list_node (items : list Value) (omitted : Value) : Value :=
  object [("kind"%string, text "list"); ("items"%string, VArray items); ("omitted"%string, omitted)].
Definition fields_node (fields : list Value) (omitted : Value) : Value :=
  object [("kind"%string, text "fields"); ("fields"%string, VArray fields); ("omitted"%string, omitted)].
Definition field_entry (label : string) (node : Value) : Value := VArray [VString label; node].
(** The label of the n-th redacted key of an object. *)
Definition redacted_label (n : Z) : string :=
  if n =? 1 then OUTPUT_REDACTED_KEY else OUTPUT_REDACTED_KEY +:+ " " +:+ pretty n.

Section Outputs.
  Context {PF : Platform} {VO : Vocabulary} {T : CaseTables} {PT : Patterns}.

(** ** The safe form *)
Definition protects (s : string) (protected : list string) : bool := holds_protected protected s.
Definition scalar (v : Value) : Value :=
  match v with
  | VNull => object [("kind"%string, text "null")]
  | VBool flag => object [("kind"%string, text "bool"); ("value"%string, VBool flag)]
  | VString s => if resembles_credential s then output_redacted
                 else object [("kind"%string, text "text"); ("value"%string, text s); ("cut"%string, VBool false)]
  | _ => object [("kind"%string, text "number"); ("value"%string, v)]
  end.
(** [fields]: the members in sorted order, each beside its node; that of a redacted
    key is not shown. *)
Fixpoint show_fields (protected : list string) (redacted : Z) (nodes : list (string * result Value)) : result (list Value) :=
  match nodes with
  | [] => Ok []
  | (key, shown) :: nodes =>
      if resembles_credential key || protects key protected then
        rest ← show_fields protected (redacted + 1) nodes; Ok (field_entry (redacted_label (redacted + 1)) output_redacted :: rest)
      else one ← shown; rest ← show_fields protected redacted nodes; Ok (field_entry key one :: rest)
  end.
(** [node]. *)
Fixpoint node (v : Value) (context : Context.Context) (sub : Sub) (name : string) (depth : nat) {struct v} : result Value :=
  if (Context.depth context <? depth)%nat then Ok output_elided
  else
    candidates ← applicable (Context.root context) sub 0 (HeldValue v);
    if secret_position (Context.root context) name candidates then Ok output_redacted
    else
      match v with
      | VObject ms =>
          let nodes :=
            (fix go (ms : list (string * Value)) : list (string * result Value) :=
               match ms with
               | [] => []
               | (key, item) :: ms =>
                   (key, match member_schemas candidates key with
                         | Err _ => Ok output_redacted
                         | Ok member => node item context member key (S depth)
                         end) :: go ms
               end) ms in
          shown ← show_fields (Context.protected context) 0 (sorted_by_name nodes);
          Ok (fields_node shown (int 0))
      | VArray items =>
          shown ← (fix go (index : nat) (items : list Value) : result (list Value) :=
                     match items with
                     | [] => Ok []
                     | item :: items =>
                         one ← node item context (item_schemas candidates index) name (S depth);
                         rest ← go (S index) items; Ok (one :: rest)
                     end) 0%nat items;
          Ok (list_node shown (int 0))
      | VString s => Ok (if protects s (Context.protected context) then output_redacted else scalar v)
      | _ => Ok (scalar v)
      end.
(** [output_safe_within] and [output_safe]; [None] when the schema cannot be walked. *)
Definition output_safe_within (result_ schema : Value) (protected : list string) (depth : nat) : option Value :=
  let root := schema_root schema in
  match node result_ (Context.mk root (not_empty protected) depth) (SubNode root) "" 0 with Ok found => Some found | Err _ => None end.
Definition output_safe (result_ schema : Value) (protected : list string) : option Value :=
  output_safe_within result_ schema protected MAX_SAFE_OUTPUT_DEPTH.

(** ** The bytes a change is compared on *)
Definition compared_within (shown : Value) (maximum : Z) : option string :=
  let encoded := dumps (mkOptions true true true) shown in if slen encoded <=? maximum then Some encoded else None.
Definition output_compared (shown : Value) : option string := compared_within shown MAX_COMPARED_OUTPUT_BYTES.

(** ** The shown form *)
Definition take_chars (n : Z) (s : string) : string := String.concat "" (map utf8 (firstn (Z.to_nat n) (chars s))).
Definition ellipsis : string := utf8 0x2026.
(** [output_label]: escaped, quoted when empty, a long one cut with a digest. *)
Definition output_label (key : string) : string * bool :=
  let escaped_key := escaped key in
  let label := if is_empty escaped_key then quote +:+ quote else escaped_key in
  if text_len label <=? MAX_OUTPUT_KEY_CHARS then (label, false)
  else (take_chars (MAX_OUTPUT_KEY_CHARS - 8) label +:+ ellipsis +:+ fst (split_at 7 (sha256_hex key)), true).
(** The numbering of a label that reads like an earlier one: one more turn than there
    are labels finds a number that is free. *)
Definition numbered (label : string) (number : Z) : string := take_chars (MAX_OUTPUT_KEY_CHARS - 6) label +:+ " (" +:+ pretty number +:+ ")".
Fixpoint number_label (fuel : nat) (labels : list string) (label shown : string) (number : Z) (shortened : bool) : string * bool :=
  if contains labels shown then
    match fuel with
    | O => (shown, shortened)
    | S fuel =>
        number_label fuel labels label (numbered label (number + 1)) (number + 1)
          (shortened || (MAX_OUTPUT_KEY_CHARS - 6 <? text_len label))
    end
  else (shown, shortened).
Fixpoint output_labels_from (labels : list string) (shortened : bool) (keys : list string) : list string * bool :=
  match keys with
  | [] => (labels, shortened)
  | key :: keys =>
      let '(label, cut) := output_label key in
      let '(shown, shortened) := number_label (S (length labels)) labels label label 1 (shortened || cut) in
      output_labels_from (labels ++ [shown]) shortened keys
  end.
Definition output_labels (keys : list string) : list string * bool := output_labels_from [] false keys.

(** [text_node]. *)
Definition cut_node (shown : string) (cut : bool) : Value :=
  object [("kind"%string, text "text"); ("value"%string, VString shown); ("cut"%string, VBool cut)].
Definition text_of_node (chars_ : Z) (shown : string) : Value * bool :=
  if text_len shown <=? chars_ then (cut_node shown false, false)
  else (cut_node (take_chars (Z.max 0 (chars_ - 1)) shown +:+ ellipsis) true, true).
Definition text_node (safe : Value) (chars_ : Z) : Value * bool :=
  if is_str (at_ safe "kind") "number" then
    let written := match at_ safe "value" with VNumber number => number_text number | other => dumps CANONICAL other end in
    if text_len written <=? MAX_OUTPUT_NUMBER_CHARS
    then (object [("kind"%string, text "number"); ("value"%string, VString written)], false)
    else text_of_node chars_ written
  else text_of_node chars_ (escaped (str_or_empty (at_ safe "value"))).

(** [display] and [display_fields]: [room] is the containers that may still nest. *)
Definition omitted_more (earlier : Value) (more : Z) : Value :=
  match small_int earlier with Some count => int (count + more) | None => earlier end.
Definition entry_key (entry : Value) : string := str_or_empty (default VNull (elements entry !! 0%nat)).
Definition entry_node (entry : Value) : Value := default VNull (elements entry !! 1%nat).
Fixpoint display (room : nat) (safe : Value) (limits : Z * Z * Z) : Value * bool :=
  let '(items, fields, chars_) := limits in
  let kind := str_or_empty (at_ safe "kind") in
  if (kind =s "text") || (kind =s "number") then text_node safe chars_
  else if negb (kind =s "list") && negb (kind =s "fields") then (safe, false)
  else
    match room with
    | O => (output_elided, true)
    | S room =>
        let is_list := kind =s "list" in
        let key := if is_list then "items"%string else "fields"%string in
        let entries := elements (at_ safe key) in
        let kept := firstn (Z.to_nat (if is_list then items else fields)) entries in
        let omitted := omitted_more (at_ safe "omitted") (len entries - len kept) in
        let cut := len kept <? len entries in
        if is_list then
          let shown := map (fun entry => display room entry limits) kept in
          (object [("kind"%string, text kind); (key, VArray (map fst shown)); ("omitted"%string, omitted)], cut || existsb snd shown)
        else
          let '(labels, shortened) := output_labels (map entry_key kept) in
          let shown := map (fun entry => display room (entry_node entry) limits) kept in
          (object [("kind"%string, text kind);
                   (key, VArray (zip_with (fun label child => field_entry label (fst child)) labels shown)); ("omitted"%string, omitted)],
           shortened || existsb snd shown || cut)
    end.
Definition shown_output (step value : Value) (truncated : bool) : Value :=
  object [("step"%string, step); ("state"%string, text "shown"); ("value"%string, value); ("truncated"%string, VBool truncated)].
Fixpoint shown_within (step safe : Value) (levels : list (Z * Z * Z)) : Value :=
  match levels with
  | [] => shown_output step output_elided true
  | limits :: levels =>
      let '(value, truncated) := display MAX_OUTPUT_DEPTH safe limits in
      let candidate := shown_output step value truncated in
      if encoded_bytes candidate <=? MAX_OUTPUT_BYTES then candidate else shown_within step safe levels
  end.
Definition output_shown (step safe : Value) : Value := shown_within step safe OUTPUT_LEVELS.
End Outputs.
