(* ===== verification/Previews.v ===== *)
(** * What a step record shows of an attempt's inputs

    [routine/src/plan/preview.rs]: every input member as the preview of a copy with
    secret positions, credential-shaped text and injected values redacted. *)

From stdpp Require Import base tactics list strings pretty.
From Stdlib Require Import ZArith Lia Ascii.
From S2P Require Import Prelude Text Json Platform Requests Redaction Wire Schedule Plans Credentials Walk Traces.

#[local] Open Scope Z_scope.

Definition INPUT_REDACTED : string := "[redacted]".
(** A redacted key: [format!("{INPUT_REDACTED} {count}")]. *)
Definition hidden_name (count : nat) : string := INPUT_REDACTED +:+ " " +:+ index_text count.

Section Previews.
  Context {PF : Platform} {VO : Vocabulary} {T : CaseTables} {PT : Patterns}.

(** [redacted]. *)
Fixpoint redacted (v root : Value) (sub : Sub) (name : string) (depth : nat) {struct v} : result Value :=
  if (MAX_SECRET_DEPTH <? depth)%nat then Ok (text INPUT_REDACTED)
  else
    candidates ← applicable root sub 0 (HeldValue v);
    if secret_position root name candidates then Ok (text INPUT_REDACTED)
    else
      match v with
      | VObject found =>
          let copies :=
            (fix go (ms : list (string * Value)) : list (string * result Value) :=
               match ms with
               | [] => []
               | (key, item) :: ms =>
                   (key, if resembles_credential key then Ok (text INPUT_REDACTED)
                         else member ← member_schemas candidates key; redacted item root member key (S depth)) :: go ms
               end) found in
          copied ← each_of (fun kv : string * result Value => item ← snd kv; Ok (fst kv, item)) (sorted_by_name copies);
          Ok (VObject copied)
      | VArray items =>
          copied ← (fix go (index : nat) (items : list Value) : result (list Value) :=
                      match items with
                      | [] => Ok []
                      | item :: items =>
                          one ← redacted item root (item_schemas candidates index) name (S depth);
                          rest ← go (S index) items; Ok (one :: rest)
                      end) 0%nat items;
          Ok (VArray copied)
      | VString s => Ok (if resembles_credential s then text INPUT_REDACTED else v)
      | _ => Ok v
      end.

(** [hidden]: each key mapped to itself or to a redacted name no other key holds; one
    more turn than there are names finds a count that is free. *)
Fixpoint free_count (fuel : nat) (taken : list string) (count : nat) : nat :=
  if contains taken (hidden_name count) then match fuel with O => count | S fuel => free_count fuel taken (S count) end else count.
Fixpoint hidden_from (hide : string -> bool) (keys taken : list string) (count : nat) : list (string * string) :=
  match keys with
  | [] => []
  | key :: keys =>
      if negb (hide key) then (key, key) :: hidden_from hide keys taken count
      else
        let count := free_count (S (length taken)) taken count in
        (key, hidden_name count) :: hidden_from hide keys (hidden_name count :: taken) count
  end.
(** The map: a key inserted again takes the later name. *)
Definition hidden (found : list (string * Value)) (hide : string -> bool) : list (string * string) :=
  rev (hidden_from hide (stable_sort sleb (map fst found)) (map fst found) 0%nat).
Definition name_under (names : list (string * string)) (key : string) : string :=
  match List.find (fun kv => fst kv =s key) names with Some kv => snd kv | None => key end.

(** [scrubbed]. *)
Definition injected (protected : list string) (s : string) : bool :=
  existsb (fun secret => negb (is_empty secret) && has_sub secret s) protected.
Fixpoint scrubbed (v : Value) (protected : list string) : Value :=
  match v with
  | VString s => if injected protected s then text INPUT_REDACTED else v
  | VArray items => VArray (map (fun item => scrubbed item protected) items)
  | VObject found =>
      let names := hidden found (fun key => resembles_credential key || injected protected key) in
      VObject (map (fun kv => (name_under names (fst kv), scrubbed (snd kv) protected)) found)
  | _ => v
  end.

(** [pointed]: [None] when a position on the way may be secret; a [None] token is any
    item of an array. *)
Definition sub_nodes (sub : Sub) : list Value := match sub with SubAllOf nodes => nodes | SubNode node => [node] end.
Fixpoint pointed_from (root : Value) (sub : Sub) (path : list (option string)) : result (option Sub) :=
  match path with
  | [] => Ok (Some sub)
  | step :: path =>
      candidates ← applicable root sub 0 HeldUnknown;
      '(reached, token) ← match step with
                          | None => Ok (any_item candidates, ""%string)
                          | Some token => found ← member_schemas candidates token; Ok (sub_nodes found, token)
                          end;
      let reached := SubAllOf (reached ++ match index_token token with Some index => sub_nodes (item_schemas candidates index) | None => [] end) in
      here ← applicable root reached 0 HeldUnknown;
      if secret_position root token here then Ok None else pointed_from root reached path
  end.
Definition pointed (root : Value) (path : list (option string)) : result (option Sub) :=
  here ← applicable root (SubNode root) 0 HeldUnknown;
  if secret_position root "" here then Ok None else pointed_from root (SubNode root) path.

(** [shown_input]: [None] when the member is withheld. *)
Definition shown_input (plan : Plan.Plan) (step : Step.Step) (member : string) (resolved : Value) (selected : list (Key * Value))
    (protected : list string) : result (option Value) :=
  source ← ok_or "plan-reference-missing" (step_input step member);
  value ← ok_or "plan-reference-missing" (get resolved member);
  value ← (if is_str (at_ source "kind") "step_output" then
             origin ← ok_or "plan-reference-missing" (plan_step plan (str_or_empty (at_ source "step")));
             let root := Step.output_schema origin in
             tokens ← ok_or "plan-reference-missing" (pointer_tokens (at_ source "pointer"));
             more ← (if is_some (get source "where")
                     then item ← ok_or "plan-reference-missing" (pointer_tokens (at_ source "item")); Ok (None :: map Some item)
                     else Ok []);
             let path := map Some tokens ++ more in
             sub ← pointed root path;
             match sub with
             | None => Ok None
             | Some sub =>
                 let name := match List.find is_some (rev path) with Some (Some name) => name | _ => ""%string end in
                 copied ← ok_or "plan-reference-missing" (tree_get key_parts (selector source) selected);
                 value ← redacted copied root sub name 0; Ok (Some value)
             end
           else Ok (Some value));
  match value with
  | None => Ok None
  | Some value =>
      let root := Step.input_schema step in
      candidates ← applicable root (SubNode root) 0 (HeldValue resolved);
      member_schema ← member_schemas candidates member;
      walked ← redacted value root member_schema member 0;
      Ok (Some (scrubbed walked protected))
  end.
Definition input_preview (plan : Plan.Plan) (step : Step.Step) (resolved : Value) (selected : list (Key * Value)) (protected : list string) : Value :=
  VArray (map (fun member =>
    let preview := match shown_input plan step member resolved selected protected with
                   | Ok (Some value) => VString (literal_preview value)
                   | _ => VNull
                   end in
    object [("member"%string, text member); ("value"%string, preview)])
    (stable_sort sleb (map fst (Step.inputs step)))).
End Previews.
