(* ===== verification/TraceSafety.v ===== *)
(** * What a recording keeps

    The theory of [Traces]: a kept value holds no credential-shaped text and no
    protected value, and what is available in it is exactly what the original held;
    a protection only grows, and its loss is for good. *)

From stdpp Require Import base tactics list strings pretty.
From Stdlib Require Import ZArith Lia Ascii.
From S2P Require Import Prelude Text Json Utf8 ReaderSafety Platform Requests Redaction RedactionSafety Instants Schedule Plans Projection Credentials Walk Traces.

#[local] Open Scope Z_scope.

(** ** Pointers *)
Lemma unescape_slash w : unescape (String "~" (String "1" w)) = String "/" (unescape w).
Proof. unfold unescape. rewrite replace_pair_hit, replace_pair_cons by done. done. Qed.
Lemma unescape_tilde w : unescape (String "~" (String "0" w)) = String "~" (unescape w).
Proof. unfold unescape. rewrite (replace_pair_miss "~" "1"), (replace_pair_cons "~" "1"), replace_pair_hit by done. done. Qed.
Lemma unescape_plain a w : a <> "~"%char -> unescape (String a w) = String a (unescape w).
Proof. intros Ha. unfold unescape. by rewrite !replace_pair_cons. Qed.

Definition joined (segments : list string) : string :=
  match segments with [] => EmptyString | s :: rest => escape_token s +:+ pointer_of rest end.
Lemma joined_cons a w ws : a <> "~"%char -> a <> "/"%char -> joined (String a w :: ws) = String a (joined (w :: ws)).
Proof. intros H1 H2. cbn [joined escape_token]. destruct (Ascii.eqb_spec a "~"), (Ascii.eqb_spec a "/"); done. Qed.
Lemma split_nonempty sep s : exists w ws, split_on sep s = w :: ws.
Proof. destruct s as [|a s]; cbn [split_on]; [eauto|]. destruct (_ =? _); [eauto|]. destruct (split_on sep s); eauto. Qed.

(** A valid pointer is the encoding of its tokens. *)
Lemma body_rebuilt n s : (String.length s <= n)%nat -> pointer_body s = true -> joined (map unescape (split_on "/" s)) = s.
Proof.
  revert s. induction n as [|n IH]; intros [|a s] Hn Hb; cbn [String.length] in Hn; try done; try lia.
  destruct (Ascii.eqb_spec a "/") as [->|Hs].
  { rewrite pointer_body_cons in Hb by done. cbn [split_on]. rewrite Z.eqb_refl. cbn [map]. specialize (IH s ltac:(lia) Hb).
    destruct (split_nonempty "/" s) as (w & ws & E). rewrite E in *. cbn [map joined unescape replace_pair escape_token pointer_of] in *.
    change ("" +:+ String "/" (escape_token (unescape w) +:+ pointer_of (map unescape ws))) with (String "/" (escape_token (unescape w) +:+ pointer_of (map unescape ws))).
    by rewrite IH. }
  rewrite split_on_cons by done. destruct (Ascii.eqb_spec a "~") as [->|Ht].
  - cbn [pointer_body] in Hb. rewrite one_of_1 in Hb. change (Ascii.eqb "~" "~") with true in Hb. cbv iota in Hb.
    destruct s as [|b s]; [done|]. destruct (Ascii.eqb_spec b "0") as [->|H0]; [|destruct (Ascii.eqb_spec b "1") as [->|H1]].
    + assert (pointer_body s = true) as Hb' by exact Hb. specialize (IH s ltac:(cbn in Hn; lia) Hb'). rewrite split_on_cons by done.
      destruct (split_nonempty "/" s) as (w & ws & E). rewrite E in *. cbn [map] in *. rewrite unescape_tilde. cbn [joined escape_token] in *.
      change (Ascii.eqb "~" "~") with true. cbv iota. rewrite !append_cons. by rewrite IH.
    + assert (pointer_body s = true) as Hb' by exact Hb. specialize (IH s ltac:(cbn in Hn; lia) Hb'). rewrite split_on_cons by done.
      destruct (split_nonempty "/" s) as (w & ws & E). rewrite E in *. cbn [map] in *. rewrite unescape_slash. cbn [joined escape_token] in *.
      change (Ascii.eqb "/" "~") with false. change (Ascii.eqb "/" "/") with true. cbv iota. rewrite !append_cons. by rewrite IH.
    + exfalso. revert Hb. destruct b as [[] [] [] [] [] [] [] []]; try done.
  - rewrite pointer_body_cons in Hb by done. specialize (IH s ltac:(lia) Hb). destruct (split_nonempty "/" s) as (w & ws & E). rewrite E in *.
    cbn [map] in *. rewrite unescape_plain by done. rewrite joined_cons by done. by rewrite IH.
Qed.
Lemma pointer_rebuilt pointer tokens : pointer_tokens_of pointer = Some tokens -> pointer = pointer_of tokens.
Proof.
  unfold pointer_tokens_of. destruct (_ || _) eqn:E; [done|]. apply orb_false_iff in E as [_ E]. apply negb_false_iff in E.
  destruct pointer as [|a rest]; intros [= <-]; [done|]. unfold POINTER_RE in E. apply andb_true_iff in E as [Ea Eb]. rewrite one_of_1 in Ea.
  apply Ascii.eqb_eq in Ea as ->. rewrite <- (body_rebuilt _ rest (le_n _)) at 1; [|exact Eb].
  destruct (split_nonempty "/" rest) as (w & ws & ->). done.
Qed.

(** An index token is the decimal text of its index. *)
Lemma digit_of_code a : is_digit a = true -> digit (byte_code a - 0x30) = a /\ 0 <= byte_code a - 0x30 < 10.
Proof. destruct a as [[] [] [] [] [] [] [] []]; vm_compute; intros H; try discriminate H; split; try reflexivity; split; congruence. Qed.
Lemma parse_digits_ge s acc n : all_bytes is_digit s = true -> 0 <= acc -> parse_digits s acc = Some n -> acc <= n.
Proof.
  revert acc. induction s as [|a s IH]; intros acc Hs Ha H; cbn [parse_digits] in H; [injection H; lia|].
  cbn [all_bytes] in Hs. apply andb_true_iff in Hs as [Hd Hs]. rewrite Hd in H. destruct (digit_of_code a Hd) as [_ Hr].
  specialize (IH (acc * 10 + (byte_code a - 48)) Hs ltac:(lia) H). lia.
Qed.
Lemma pretty_digits s acc n t : all_bytes is_digit s = true -> 0 < acc -> parse_digits s acc = Some n ->
  pretty_N_go (Z.to_N n) t = pretty_N_go (Z.to_N acc) (s +:+ t).
Proof.
  revert acc n t. induction s as [|a s IH]; intros acc n t Hs Ha H; cbn [parse_digits] in H; [by injection H as ->|].
  cbn [all_bytes] in Hs. apply andb_true_iff in Hs as [Hd Hs]. rewrite Hd in H. destruct (digit_of_code a Hd) as [Hc Hr].
  rewrite (IH (acc * 10 + (byte_code a - 48)) n t Hs ltac:(lia) H). rewrite pretty_step by lia. rewrite append_cons.
  assert ((acc * 10 + (byte_code a - 48)) / 10 = acc) as -> by (Z.div_mod_to_equations; lia).
  assert ((acc * 10 + (byte_code a - 48)) mod 10 = byte_code a - 48) as -> by (Z.div_mod_to_equations; lia). by rewrite Hc.
Qed.
Lemma index_token_text token index : index_token token = Some index -> index_text index = token.
Proof.
  unfold index_token. destruct (_ && _ && _ && _) eqn:E; [|done]. rewrite !andb_true_iff in E. destruct E as [[[He _] Hd] Hz].
  destruct token as [|a s]; [done|]. unfold parse_int. cbn [all_bytes] in Hd. apply andb_true_iff in Hd as [Hd Hs].
  destruct (digit_of_code a Hd) as [Hc Hr]. cbn [parse_digits]. rewrite Hd, Z.mul_0_l, Z.add_0_l. set (d := byte_code a - 48) in *.
  destruct (parse_digits s d) as [n|] eqn:Ep; [|done]. intros [= <-]. unfold index_text.
  pose proof (parse_digits_ge s d n Hs (proj1 Hr) Ep) as Hn.
  assert (d = 0 -> s = EmptyString) as Hzero.
  { intros Hd0. assert (a = "0"%char) as -> by (rewrite <- Hc, Hd0; done). apply orb_true_iff in Hz as [Hz|Hz].
    - apply seqb_true in Hz. by injection Hz.
    - by apply negb_true_iff, bool_decide_eq_false in Hz; destruct Hz. }
  rewrite Z2Nat.id by lia. destruct (Z.eq_dec d 0) as [H0|H0].
  - rewrite (Hzero H0) in Ep |- *. cbn [parse_digits] in Ep. injection Ep as <-. rewrite H0. rewrite <- Hc, H0. reflexivity.
  - assert (pretty n = pretty_N_go (Z.to_N n) "") as -> by (destruct n as [|p|p]; [lia|reflexivity|lia]).
    rewrite (pretty_digits s d n "" Hs ltac:(lia) Ep). rewrite append_empty_r. rewrite pretty_step by lia.
    rewrite Z.div_small, Z.mod_small by lia. rewrite pretty_last. by rewrite Hc.
Qed.

Section Safety.
  Context {VO : Vocabulary} {T : CaseTables} {PT : Patterns}.

(** ** One level of keeping *)
(** The parts a container is kept as, each with the pointers it withholds. *)
Definition kept_parts (root : Value) (protected : list string) (depth : nat) (place : string) (children : list (string * Value))
    (parts : list (Value * list string)) : Prop :=
  Forall2 (fun child part => exists sub name, kept_value root protected (snd child) sub name (place +:+ "/" +:+ fst child) (S depth) = Ok part)
    children parts.
Fixpoint indexed (index : nat) (items : list Value) : list (string * Value) :=
  match items with [] => [] | item :: items => (index_text index, item) :: indexed (S index) items end.
Definition escaped_members (ms : list (string * Value)) : list (string * Value) := map (fun kv => (escape_token (fst kv), snd kv)) ms.

Lemma kept_value_inv root protected v sub name place depth k w :
  kept_value root protected v sub name place depth = Ok (k, w) ->
  (k = VNull /\ w = [place])
  \/ (unsafe_value v protected = false
      /\ match v with
         | VObject ms => exists parts, kept_parts root protected depth place (escaped_members ms) parts
                         /\ k = VObject (zip_with (fun kv part => (fst kv, fst part)) ms parts) /\ w = concat (map snd parts)
         | VArray items => exists parts, kept_parts root protected depth place (indexed 0 items) parts
                           /\ k = VArray (map fst parts) /\ w = concat (map snd parts)
         | _ => k = v /\ w = []
         end).
Proof.
  intros H. assert (exists candidates secret, secret_at root sub name v depth = (candidates, secret)) as (candidates & secret & E)
    by (destruct (secret_at root sub name v depth) as [candidates secret]; eauto).
  destruct v as [|b|n|s|items|ms]; cbn [kept_value] in H; rewrite E in H; cbv beta iota in H;
    (match type of H with (if ?b then _ else _) = _ => destruct b eqn:Eu end; [injection H as <- <-; by left|right]);
    apply orb_false_iff in Eu as [_ Eu]; (split; [done|]); try (by injection H as <- <-).
  - apply result_bind_Ok in H as ([shown withheld] & H & [= <- <-]). cbn [fst snd]. revert shown withheld H. generalize 0%nat. clear E Eu.
    induction items as [|item items IH]; intros index shown withheld H; [injection H as <- <-; exists []; split; [constructor|done]|].
    apply result_bind_Ok in H as ([one w1] & H1 & H). apply result_bind_Ok in H as ([rest more] & H2 & [= <- <-]).
    destruct (IH (S index) rest more H2) as (parts & Hp & Hr & ->). injection Hr as ->. exists ((one, w1) :: parts).
    split; [constructor; [cbn; eauto|done]|done].
  - apply result_bind_Ok in H as ([shown withheld] & H & [= <- <-]). cbn [fst snd]. revert shown withheld H.
    clear E Eu. induction ms as [|[key item] ms IH]; intros shown withheld H; [injection H as <- <-; exists []; split; [constructor|done]|].
    apply result_bind_Ok in H as (member & _ & H). apply result_bind_Ok in H as ([one w1] & H1 & H). apply result_bind_Ok in H as ([rest more] & H2 & [= <- <-]).
    destruct (IH rest more H2) as (parts & Hp & Hr & ->). injection Hr as ->. exists ((one, w1) :: parts).
    split; [constructor; [cbn; eauto|done]|done].
Qed.

(** ** Nothing unsafe is kept *)
Lemma unsafe_texts v protected : unsafe_value v protected = false ->
  match v with
  | VObject ms => forall kv, In kv ms -> unsafe_text protected (fst kv) = false
  | VString s => unsafe_text protected s = false
  | _ => True
  end.
Proof.
  destruct v; try done. cbn [unsafe_value]. intros H kv Hin. apply not_true_is_false. intros Ht. revert H. apply eq_true_false_abs.
  apply existsb_exists. eauto.
Qed.
Lemma kept_safe root protected v sub name place depth k w t :
  kept_value root protected v sub name place depth = Ok (k, w) -> In t (texts_of k) -> unsafe_text protected t = false.
Proof.
  revert sub name place depth k w. induction v as [|b|n|s|items IH|ms IH] using value_ind'; intros sub name place depth k w H Ht;
    apply kept_value_inv in H as [[-> _]|[Hu H]]; try done; apply unsafe_texts in Hu; try (destruct H as [-> _]; done).
  - destruct H as [-> _]. destruct Ht as [<-|[]]. done.
  - destruct H as (parts & Hp & -> & _). cbn [texts_of] in Ht. rewrite map_map in Ht. apply in_concat in Ht as (ts & (part & <- & Hin)%in_map_iff & Ht).
    clear Hu. revert Hp. generalize 0%nat. induction IH as [|item items IHv _ IHl] in parts, Hin |- *; intros index Hp; inversion Hp as [|? [one w1] ? ps (sub' & name' & Hk) Hps]; subst; [done|].
    destruct Hin as [<-|Hin]; [by eapply IHv|by eapply IHl].
  - destruct H as (parts & Hp & -> & _). cbn [texts_of] in Ht. apply in_concat in Ht as (ts & (kv & <- & Hin)%in_map_iff & Ht).
    assert (forall kv, In kv ms -> unsafe_text protected (fst kv) = false) as Hkeys by exact Hu. clear Hu.
    induction IH as [|[key item] ms IHv _ IHl] in parts, Hin, Hp, Hkeys |- *; inversion Hp as [|? [one w1] ? ps (sub' & name' & Hk) Hps]; subst; [done|].
    destruct Hin as [<-|Hin].
    + destruct Ht as [<-|Ht]; [exact (Hkeys (key, item) (or_introl eq_refl))|by eapply IHv].
    + eapply IHl; [exact Hps|exact Hin|]. intros kv' Hkv'. apply Hkeys. by right.
Qed.

(** ** What is available is exact *)
(** Whether a withheld pointer reaches a pointer, or is under it. *)
Definition meets (pointer item : string) : bool :=
  is_empty item || (item =s pointer) || is_some (strip_prefix (item +:+ "/") pointer) || is_some (strip_prefix (pointer +:+ "/") item).
Definition clear_of (w : list string) (pointer : string) : Prop := forall item, In item w -> meets pointer item = false.
Lemma clear_app w w' pointer : clear_of (w ++ w') pointer -> clear_of w pointer /\ clear_of w' pointer.
Proof. intros H. split; intros item Hin; apply H, in_app_iff; auto. Qed.

Lemma strip_some p s : is_some (strip_prefix p s) = true <-> exists t, s = p +:+ t.
Proof.
  destruct (strip_prefix p s) as [t|] eqn:E; cbn [is_some].
  - apply strip_prefix_app in E. split; eauto.
  - split; [done|]. intros (t & Ht). apply strip_prefix_app in Ht. congruence.
Qed.
(** Every pointer a part withholds is at its place or under it. *)
Lemma kept_under root protected v sub name place depth k w item :
  kept_value root protected v sub name place depth = Ok (k, w) -> In item w ->
  item = place \/ exists t, item = place +:+ "/" +:+ t.
Proof.
  revert sub name place depth k w. induction v as [|b|n|s|items IH|ms IH] using value_ind'; intros sub name place depth k w H Hin;
    apply kept_value_inv in H as [[_ ->]|[_ H]];
    try (destruct Hin as [<-|[]]; by left); try (by destruct H as [_ ->]).
  - destruct H as (parts & Hp & _ & ->). revert Hp. generalize 0%nat.
    induction IH as [|one items IHv _ IHl] in parts, Hin |- *; intros index Hp; inversion Hp as [|? [k1 w1] ? ps (sub' & name' & Hk) Hps]; subst; [done|].
    cbn [map snd concat] in Hin. apply in_app_iff in Hin as [Hin|Hin]; [|by eapply IHl].
    right. destruct (IHv _ _ _ _ _ _ Hk Hin) as [->|(t & ->)]; cbn [fst]; rewrite ?string_app_assoc; eauto.
  - destruct H as (parts & Hp & _ & ->).
    induction IH as [|[key one] ms IHv _ IHl] in parts, Hin, Hp |- *; inversion Hp as [|? [k1 w1] ? ps (sub' & name' & Hk) Hps]; subst; [done|].
    cbn [map snd concat] in Hin. apply in_app_iff in Hin as [Hin|Hin]; [|by eapply IHl].
    right. destruct (IHv _ _ _ _ _ _ Hk Hin) as [->|(t & ->)]; cbn [fst]; rewrite ?string_app_assoc; eauto.
Qed.

Lemma concat_nil {A} (ls : list (list A)) : concat ls = [] -> forall l, In l ls -> l = [].
Proof. induction ls as [|l ls IH]; [done|]. cbn [concat]. intros [-> H]%app_eq_nil l' [<-|Hin]; [done|]. by apply IH. Qed.
Lemma kept_whole root protected v sub name place depth k : kept_value root protected v sub name place depth = Ok (k, []) -> k = v.
Proof.
  revert sub name place depth k. induction v as [|b|n|s|items IH|ms IH] using value_ind'; intros sub name place depth k H;
    apply kept_value_inv in H as [[_ ?]|[_ H]]; try done; try (by destruct H as [-> _]).
  - destruct H as (parts & Hp & -> & Hw). f_equal. symmetry in Hw. pose proof (concat_nil _ Hw) as Hnil. clear Hw. revert Hp. generalize 0%nat.
    induction IH as [|one items IHv _ IHl] in parts, Hnil |- *; intros index Hp; inversion Hp as [|? [k1 w1] ? ps (sub' & name' & Hk) Hps]; subst; [done|].
    assert (w1 = []) as -> by (apply Hnil; by left). cbn [map fst]. f_equal; [by eapply IHv|]. eapply IHl; [|exact Hps]. intros l Hl. apply Hnil. by right.
  - destruct H as (parts & Hp & -> & Hw). f_equal. symmetry in Hw. pose proof (concat_nil _ Hw) as Hnil. clear Hw.
    induction IH as [|[key one] ms IHv _ IHl] in parts, Hnil, Hp |- *; inversion Hp as [|? [k1 w1] ? ps (sub' & name' & Hk) Hps]; subst; [done|].
    assert (w1 = []) as -> by (apply Hnil; by left). cbn [zip_with fst]. f_equal; [by rewrite (IHv _ _ _ _ _ Hk)|]. eapply IHl; [exact Hps|]. intros l Hl. apply Hnil. by right.
Qed.

(** A child of a kept container, and the part it is kept as. *)
Definition kept_child (root : Value) (protected : list string) (depth : nat) (place segment : string) (w : list string) (v k : option Value) : Prop :=
  match v, k with
  | Some v, Some k => exists sub name w', kept_value root protected v sub name (place +:+ "/" +:+ segment) (S depth) = Ok (k, w') /\ incl w' w
  | None, None => True
  | _, _ => False
  end.
Lemma kept_member root protected depth place ms parts token :
  kept_parts root protected depth place (escaped_members ms) parts ->
  kept_child root protected depth place (escape_token token) (concat (map snd parts)) (lookup_member ms token)
    (lookup_member (zip_with (fun kv part => (fst kv, fst part)) ms parts) token).
Proof.
  revert parts. induction ms as [|[key one] ms IH]; intros parts Hp; inversion Hp as [|? [k1 w1] ? ps (sub' & name' & Hk) Hps]; subst; [done|].
  unfold lookup_member. cbn [zip_with List.find fst]. destruct (seqb_spec key token) as [->|Hne]; cbn [option_map snd fst].
  - exists sub', name', w1. split; [exact Hk|]. cbn [map snd concat]. apply incl_appl, incl_refl.
  - specialize (IH ps Hps). unfold lookup_member in IH. destruct (option_map snd (List.find _ ms)), (option_map snd (List.find _ (zip_with _ ms ps))); try done.
    destruct IH as (sub1 & name1 & w2 & H1 & H2). exists sub1, name1, w2. split; [done|]. cbn [map snd concat]. by apply incl_appr.
Qed.
Lemma kept_item root protected depth place items parts index start :
  kept_parts root protected depth place (indexed start items) parts ->
  kept_child root protected depth place (index_text (start + index)) (concat (map snd parts)) (items !! index) (map fst parts !! index).
Proof.
  revert parts index start. induction items as [|one items IH]; intros parts index start Hp; inversion Hp as [|? [k1 w1] ? ps (sub' & name' & Hk) Hps]; subst; [done|].
  destruct index as [|index]; cbn [lookup list_lookup map fst].
  - rewrite Nat.add_0_r. exists sub', name', w1. split; [exact Hk|]. cbn [map snd concat]. apply incl_appl, incl_refl.
  - specialize (IH ps index (S start) Hps). rewrite Nat.add_succ_comm in IH. unfold kept_child in *. change (list_lookup index items) with (items !! index).
    change (list_lookup index (map fst ps)) with (map fst ps !! index). destruct (items !! index), (map fst ps !! index); try done.
    destruct IH as (sub1 & name1 & w2 & H1 & H2). exists sub1, name1, w2. split; [done|]. cbn [map snd concat]. by apply incl_appr.
Qed.
Lemma escape_digits s : all_bytes is_digit s = true -> escape_token s = s.
Proof.
  induction s as [|a s IH]; [done|]. cbn [all_bytes escape_token]. intros [Ha Hs]%andb_true_iff. rewrite (IH Hs).
  destruct (Ascii.eqb_spec a "~") as [->|_]; [done|]. by destruct (Ascii.eqb_spec a "/") as [->|_].
Qed.
Lemma clear_incl w w' pointer : incl w' w -> clear_of w pointer -> clear_of w' pointer.
Proof. intros Hi Hc item Hin. auto. Qed.
Lemma kept_descend root protected v sub name place depth k w token rest :
  kept_value root protected v sub name place depth = Ok (k, w) -> clear_of w (place +:+ pointer_of (token :: rest)) ->
  kept_child root protected depth place (escape_token token) w (descend v token) (descend k token)
  \/ (descend v token = descend k token /\ forall next, descend v token = Some next -> False).
Proof.
  intros H Hc. apply kept_value_inv in H as [[-> ->]|[_ H]].
  { exfalso. specialize (Hc place (or_introl eq_refl)). unfold meets in Hc. rewrite !orb_false_iff in Hc. destruct Hc as [[_ Hc] _]. revert Hc.
    apply eq_true_false_abs. apply strip_some. exists (escape_token token +:+ pointer_of rest). cbn [pointer_of]. by rewrite !string_app_assoc. }
  destruct v as [|b|n|s|items|ms]; try (destruct H as [-> ->]; right; by split).
  - destruct H as (parts & Hp & -> & ->). cbn [descend]. destruct (index_token token) as [index|] eqn:Ei; [|right; by split].
    left. cbn [mbind option_bind]. assert (escape_token token = index_text index) as ->.
    { rewrite (index_token_text _ _ Ei). apply escape_digits. unfold index_token in Ei. destruct (_ && _ && _ && _) eqn:E; [|done].
      rewrite !andb_true_iff in E. tauto. }
    exact (kept_item _ _ _ _ _ _ index 0 Hp).
  - destruct H as (parts & Hp & -> & ->). left. by apply kept_member.
Qed.
Lemma kept_selects root protected tokens v sub name place depth k w :
  kept_value root protected v sub name place depth = Ok (k, w) -> clear_of w (place +:+ pointer_of tokens) ->
  select_tokens k tokens = select_tokens v tokens.
Proof.
  revert v sub name place depth k w. induction tokens as [|token rest IH]; intros v sub name place depth k w H Hc; cbn [select_tokens].
  - cbn [pointer_of] in Hc. rewrite append_empty_r in Hc. f_equal. eapply (kept_whole root protected v sub name place depth).
    destruct w as [|item w]; [done|]. exfalso. pose proof (kept_under _ _ _ _ _ _ _ _ _ item H (or_introl eq_refl)) as Hu.
    specialize (Hc item (or_introl eq_refl)). unfold meets in Hc. rewrite !orb_false_iff in Hc. destruct Hc as [[[_ He] _] Hs]. destruct Hu as [->|(t & ->)].
    + by rewrite seqb_refl in He.
    + revert Hs. apply eq_true_false_abs. apply strip_some. exists t. by rewrite !string_app_assoc.
  - destruct (kept_descend _ _ _ _ _ _ _ _ _ _ _ H Hc) as [Hd|[He Hn]].
    + unfold kept_child in Hd. destruct (descend v token) as [v'|], (descend k token) as [k'|]; try done. cbn [ok_or mbind result_bind].
      destruct Hd as (sub' & name' & w' & Hk & Hi). eapply IH; [exact Hk|]. eapply clear_incl; [exact Hi|].
      cbn [pointer_of] in Hc. rewrite !string_app_assoc. exact Hc.
    + by rewrite He.
Qed.

(** C21. What a recording keeps is exact where it is available and safe everywhere: a
    kept value holds no text or key that looks like a credential or holds a protected
    value, and any pointer it reports available selects in it exactly what it selects
    in the original, a missing position included. *)
Theorem keep_exact v schema protected k : keep v schema protected = Ok k ->
  (forall t, In t (texts_of (Kept.value k)) -> unsafe_text (not_empty protected) t = false)
  /\ forall pointer, available k pointer = true -> select (Kept.value k) (VString pointer) = select v (VString pointer).
Proof.
  unfold keep. intros H. apply result_bind_Ok in H as ([kept w] & Hk & [= <-]). destruct (MAX_KEPT_BYTES <? slen (canonical kept)).
  { split; [done|]. intros pointer. unfold available. cbn. done. }
  split; [intros t; by eapply kept_safe|]. intros pointer Ha. unfold select. cbn [pointer_tokens as_str mbind option_bind].
  destruct (pointer_tokens_of pointer) as [tokens|] eqn:Et; [|done]. cbn [ok_or mbind result_bind]. apply pointer_rebuilt in Et as ->.
  eapply kept_selects; [exact Hk|]. intros item Hin. unfold available in Ha. apply negb_true_iff in Ha.
  apply not_true_is_false. intros Hm. revert Ha. apply eq_true_false_abs. apply existsb_exists. exists item. split; [|exact Hm].
  cbn [Kept.withheld]. unfold string_set. apply in_dedup. apply list_elem_of_In. rewrite stable_sort_perm. by apply list_elem_of_In.
Qed.
End Safety.
