(* ===== verification/OutputSafety.v ===== *)
(** * What a run shows

    The theory of [Outputs]: the safe form of a result holds nothing unsafe, and the
    shown form passes [canonical_output], within its bounds of size, depth, length and
    characters.  On the way: every number prints as a text of the protocol's grammar
    ([NumberTexts]), escaped and cut texts hold no character unsafe to show, and the
    labels of an object are distinct. *)

From stdpp Require Import base tactics list strings pretty.
From Stdlib Require Import ZArith Lia Ascii.
From S2P Require Import Prelude Text Json Reader Utf8 ReaderSafety Floats RoundTrip Platform Requests Redaction Wire Instants Schedule Plans Projection Credentials Walk Traces Outputs TraceSafety.

#[local] Open Scope Z_scope.

Module NumberTexts.
Import Strict.

Lemma digits_exact p u q : required_digits p = Read u q -> exists n, span_digits (rest p) = (S n, rest q).
Proof.
  unfold required_digits. assert (forall s, span_digits s = (String.length (fst (span is_digit s)), snd (span is_digit s))) as Hs.
  { intros s. induction s as [|a s IH]; [done|]. cbn [span_digits span]. destruct (is_digit a); [|done]. rewrite IH. by destruct (span is_digit s). }
  rewrite Hs. destruct (span is_digit (rest p)) as [[|a s] after]; [done|]. intros [= <- <-]. cbn [fst snd String.length]. eauto.
Qed.
Lemma next_is_cons c p a s : rest p = String a s -> next_is c p = Ascii.eqb a c.
Proof. intros E. unfold next_is, peek. by rewrite E. Qed.
Lemma one_of_two c d a : one_of (String c (String d EmptyString)) a = Ascii.eqb a c || Ascii.eqb a d.
Proof. rewrite one_of_cons, one_of_1. rewrite Z.eqb_sym, eq_byte. done. Qed.
Lemma exponent_reads p p1 p2 (q : Parser) small large :
  eat "e" p = Read small p1 -> (if small : bool then mret true else eat "E") p1 = Read large p2 ->
  (if large : bool then plus ← eat "+"; _ ← (if plus : bool then mret true else eat "-"); required_digits else mret tt) p2 = Read tt q ->
  rest q = EmptyString -> exponent_part (rest p) = true.
Proof.
  intros H1 H2 H3 Hq. assert (large = true -> exists a, one_of "eE" a = true /\ rest p = String a (rest p2)) as Hl.
  { intros ->. apply eat_Read in H1 as [[-> E1]|(-> & -> & _)].
    - injection H2 as <-. exists "e"%char. by rewrite E1.
    - apply eat_Read in H2 as [[_ E2]|(? & _)]; [|done]. exists "E"%char. by rewrite E2. }
  destruct large.
  - destruct (Hl eq_refl) as (a & Ha & ->). cbn [exponent_part]. rewrite Ha. cbn [andb].
    apply reader_bind_Read in H3 as (plus & p3 & H3 & H). apply reader_bind_Read in H as (sign & p4 & H4 & H5).
    apply digits_exact in H5 as (n & H5). rewrite Hq in H5.
    assert (match rest p2 with String b s2 => if one_of "+-" b then s2 else rest p2 | _ => rest p2 end = rest p4) as ->.
    2: { by rewrite H5. }
    apply eat_Read in H3 as [[-> E3]|(-> & -> & N3)].
    + injection H4 as <- <-. rewrite E3. by rewrite one_of_two.
    + apply eat_Read in H4 as [[-> E4]|(-> & -> & N4)].
      * rewrite E4. by rewrite one_of_two.
      * destruct (rest p2) as [|b s2] eqn:E; [done|]. rewrite one_of_two. rewrite (next_is_cons "+" p2 b s2 E) in N3. rewrite (next_is_cons "-" p2 b s2 E) in N4. by rewrite N3, N4.
  - injection H3 as <-. destruct small; [by injection H2|]. apply eat_Read in H2 as [[? _]|(_ & -> & _)]; [done|].
    apply eat_Read in H1 as [[? _]|(_ & -> & _)]; [done|]. by rewrite Hq.
Qed.
Lemma fraction_reads integral p fr q : fractional_part integral p = Read fr q -> rest q = EmptyString -> fraction_part (rest p) = true.
Proof.
  unfold fractional_part. intros H Hq. apply reader_bind_Read in H as (point & p1 & H1 & H). apply reader_bind_Read in H as ([] & p2 & H2 & H).
  apply reader_bind_Read in H as (small & p3 & H3 & H). apply reader_bind_Read in H as (large & p4 & H4 & H).
  apply reader_bind_Read in H as ([] & p5 & H5 & H). apply reader_bind_Read in H as (now & p6 & H6 & H).
  assert (rest p5 = EmptyString) as Hq5 by (injection H6 as <- <-; injection H as <- <-; done).
  pose proof (exponent_reads _ _ _ _ _ _ H3 H4 H5 Hq5) as He. apply eat_Read in H1 as [[-> E1]|(-> & -> & N1)].
  - apply digits_exact in H2 as (n & H2). rewrite E1. cbn [fraction_part]. rewrite one_of_1. change (Ascii.eqb "." ".") with true. cbv iota. by rewrite H2.
  - injection H2 as <-. destruct (rest p) as [|a s] eqn:E; [done|]. cbn [fraction_part]. rewrite one_of_1, <- (next_is_cons "." p a s E), N1. exact He.
Qed.
Lemma grammar_re p fr q : number_grammar p = Read fr q -> rest q = EmptyString -> OUTPUT_NUMBER_RE (rest p) = true.
Proof.
  unfold number_grammar. intros H Hq. apply reader_bind_Read in H as (minus & p1 & H1 & H). apply reader_bind_Read in H as (zero & p2 & H2 & H).
  apply reader_bind_Read in H as ([] & p3 & H3 & H). apply reader_bind_Read in H as (integral & p4 & H4 & H). injection H4 as <- <-.
  pose proof (fraction_reads _ _ _ _ H Hq) as Hf. unfold OUTPUT_NUMBER_RE.
  assert (exists a s, rest p1 = String a s /\ (if one_of "0" a then fraction_part s else is_digit a && let (_, r) := span_digits s in fraction_part r) = true) as (a & s & E & Hbody).
  { apply eat_Read in H2 as [[-> E2]|(-> & -> & N2)].
    - injection H3 as <-. exists "0"%char, (rest p2). split; [done|]. rewrite one_of_1. exact Hf.
    - apply digits_exact in H3 as (n & H3). destruct (rest p1) as [|a s] eqn:E; [done|]. exists a, s. split; [done|].
      rewrite one_of_1, <- (next_is_cons "0" p1 a s E), N2. cbn [span_digits] in H3. destruct (is_digit a); [|done].
      destruct (span_digits s) as [m r]. injection H3 as <- ->. done. }
  assert (default (rest p) (strip_prefix "-" (rest p)) = rest p1) as ->.
  { apply eat_Read in H1 as [[-> E1]|(-> & -> & N1)].
    - rewrite E1. by destruct (rest p1).
    - rewrite E. rewrite (next_is_cons "-" p a s E) in N1. cbn [strip_prefix]. rewrite eq_byte, Ascii.eqb_sym, N1. done. }
  by rewrite E.
Qed.
Lemma number_text_re n : number_ok n = true -> doubles (VNumber n) -> OUTPUT_NUMBER_RE (number_text n) = true.
Proof.
  intros Hn Hf. pose proof (number_ok_reads n Hn Hf) as H. unfold reads_back, number, start in H.
  destruct (number_grammar _) as [fr q| |] eqn:E; [|done..]. apply (grammar_re _ _ _ E). by repeat case_match; simplify_eq.
Qed.
End NumberTexts.
Import NumberTexts.

(** Valid text without an unsafe character. *)
Definition clean (s : string) : Prop := Utf8 s /\ existsb plan_unsafe (chars s) = false.
Definition printable (a : ascii) : bool := between 0x20 0x7e a.

Lemma printable_clean s : all_bytes printable s = true -> clean s /\ text_len s = slen s.
Proof.
  unfold clean, text_len, len, slen. induction s as [|a s IH]; [repeat split; constructor|]. cbn [all_bytes]. intros [Ha Hs]%andb_true_iff. destruct (IH Hs) as [[Hu Hc] Hl].
  unfold printable, between in Ha. apply andb_true_iff in Ha as [H1%Z.leb_le H2%Z.leb_le].
  assert (String a s = utf8 (byte_code a) +:+ s) as E.
  { unfold utf8. destruct (Z.ltb_spec (byte_code a) 0x80); [|lia]. by rewrite byte_of_code. }
  assert (Utf8.scalar (byte_code a)) as Hsc by (apply scalar_spec; lia).
  rewrite E. rewrite chars_utf8 by done. split; [split; [by constructor|]|].
  - cbn [existsb]. rewrite Hc, orb_false_r. unfold plan_unsafe. repeat (apply orb_false_iff; split); try (apply andb_false_iff; rewrite !Z.leb_gt; lia). apply Z.eqb_neq. lia.
  - rewrite <- E. cbn [length String.length]. lia.
Qed.
Lemma clean_app s t : clean s -> clean t -> clean (s +:+ t).
Proof. intros [Hs1 Hs2] [Ht1 Ht2]. split; [by apply Utf8_app|]. by rewrite chars_app, existsb_app, Hs2, Ht2. Qed.
Lemma text_len_app s t : Utf8 s -> text_len (s +:+ t) = text_len s + text_len t.
Proof. intros Hs. unfold text_len, len. rewrite chars_app by done. rewrite length_app. lia. Qed.
Lemma clean_one c : Utf8.scalar c -> plan_unsafe c = false -> clean (utf8 c).
Proof.
  intros Hc Hu. split; [by apply Utf8_one|]. rewrite <- (string_app_nil (utf8 c)), chars_utf8 by done. cbn [existsb chars]. by rewrite Hu.
Qed.
Lemma hex_printable d : 0 <= d < 16 -> printable (hex_digit d) = true.
Proof.
  intros Hd. unfold hex_digit, printable, between. rewrite byte_code_of by (destruct (d <? 10); lia). destruct (Z.ltb_spec d 10); apply andb_true_iff; rewrite !Z.leb_le; lia.
Qed.
Lemma unsafe_escapes c : plan_unsafe c = true -> all_bytes printable (push_escape c) = true.
Proof.
  intros Hc. assert (0 <= c < 65536) as Hr.
  { unfold plan_unsafe in Hc. rewrite !orb_true_iff, !andb_true_iff, !Z.leb_le, Z.eqb_eq in Hc. lia. }
  unfold push_escape. rewrite all_bytes_app. cbn [all_bytes]. rewrite !hex_printable; [done|..].
  all: try (apply Z.mod_pos_bound; lia). split; [apply Z.div_pos; lia|apply Z.div_lt_upper_bound; lia].
Qed.
Lemma clean_escaped s : Utf8 s -> clean (escaped s).
Proof.
  intros [Hs _]%Utf8_chars. unfold escaped. induction Hs as [|c l Hc _ IH]; [split; [constructor|done]|].
  cbn [map]. rewrite concat_cons. apply clean_app; [|done]. unfold push_escaped. destruct (plan_unsafe c) eqn:E; [|by apply clean_one].
  by apply printable_clean, unsafe_escapes.
Qed.
Lemma encode_clean cs : List.Forall Utf8.scalar cs -> existsb plan_unsafe cs = false -> clean (encode_chars cs) /\ chars (encode_chars cs) = cs.
Proof.
  induction 1 as [|c cs Hc Hcs IH]; [repeat split; constructor|]. cbn [existsb]. intros [H1 H2]%orb_false_iff. destruct (IH H2) as [Hcl Hch].
  unfold encode_chars in *. cbn [map]. rewrite concat_cons, chars_utf8 by done. rewrite Hch. split; [|done]. apply clean_app; [by apply clean_one|done].
Qed.
Lemma existsb_firstn {A} (f : A -> bool) n l : existsb f l = false -> existsb f (firstn n l) = false.
Proof. revert n. induction l as [|x l IH]; intros [|n]; cbn; try done. intros [-> H]%orb_false_iff. by apply IH. Qed.
Lemma clean_take n s : clean s -> clean (take_chars n s) /\ text_len (take_chars n s) <= Z.max 0 n /\ (text_len s <= n -> take_chars n s = s)
  /\ (0 < n -> 0 < text_len s -> 0 < text_len (take_chars n s)).
Proof.
  intros [Hs Hu]. apply Utf8_chars in Hs as [Hsc He]. change (take_chars n s) with (encode_chars (firstn (Z.to_nat n) (chars s))).
  destruct (encode_clean (firstn (Z.to_nat n) (chars s))) as [Hc Hch]; [by apply Forall_take|by apply existsb_firstn|]. split; [done|].
  unfold text_len, len. rewrite Hch, length_firstn. split; [lia|]. split; [|lia]. intros Hn. rewrite firstn_all2 by lia. done.
Qed.
Lemma ellipsis_clean : clean ellipsis /\ text_len ellipsis = 1.
Proof. split; [apply clean_one; [apply scalar_spec; lia|reflexivity]|reflexivity]. Qed.

(** ** Number texts *)
Lemma digit_printable a : is_digit a = true -> printable a = true.
Proof. unfold is_digit, printable, between. rewrite !andb_true_iff, !Z.leb_le. lia. Qed.
Lemma one_of_printable s a : all_bytes printable s = true -> one_of s a = true -> printable a = true.
Proof.
  induction s as [|c s IH]; [done|]. cbn [all_bytes]. rewrite one_of_cons, andb_true_iff, orb_true_iff. intros [Hc Hs] [E%Z.eqb_eq|H]; [|auto].
  unfold printable, between in *. by rewrite <- E.
Qed.
Lemma span_digits_printable s : all_bytes printable (snd (span_digits s)) = true -> all_bytes printable s = true.
Proof.
  induction s as [|a s IH]; [done|]. cbn [span_digits]. destruct (is_digit a) eqn:E; [|done]. destruct (span_digits s) as [n r]. cbn [snd all_bytes] in *.
  intros H. by rewrite (digit_printable a E), IH.
Qed.
Lemma exponent_printable s : exponent_part s = true -> all_bytes printable s = true.
Proof.
  destruct s as [|a s]; [done|]. cbn [exponent_part]. intros [Ha H]%andb_true_iff. cbn [all_bytes]. rewrite (one_of_printable "eE" a eq_refl Ha). cbn [andb].
  assert (all_bytes printable (match s with String b s2 => if one_of "+-" b then s2 else s | _ => s end) = true) as Hs.
  { apply span_digits_printable. destruct (span_digits _) as [n r]. apply andb_true_iff in H as [_ H]. by destruct r. }
  destruct s as [|b s2]; [done|]. destruct (one_of "+-" b) eqn:Eb; [|done]. cbn [all_bytes]. by rewrite (one_of_printable "+-" b eq_refl Eb).
Qed.
Lemma fraction_printable s : fraction_part s = true -> all_bytes printable s = true.
Proof.
  destruct s as [|a s]; [done|]. cbn [fraction_part]. destruct (one_of "." a) eqn:Ea; [|by apply exponent_printable].
  intros H. cbn [all_bytes]. rewrite (one_of_printable "." a eq_refl Ea). cbn [andb]. apply span_digits_printable.
  destruct (span_digits s) as [n r]. apply andb_true_iff in H as [_ H]. by apply exponent_printable.
Qed.
Lemma number_re_printable s : OUTPUT_NUMBER_RE s = true -> all_bytes printable s = true.
Proof.
  unfold OUTPUT_NUMBER_RE. intros H. assert (all_bytes printable (default s (strip_prefix "-" s)) = true) as Hb.
  { destruct (default s (strip_prefix "-" s)) as [|a t]; [done|]. cbn [all_bytes]. destruct (one_of "0" a) eqn:E.
    - rewrite (one_of_printable "0" a eq_refl E). by apply fraction_printable.
    - apply andb_true_iff in H as [Hd H]. rewrite (digit_printable a Hd). apply span_digits_printable. destruct (span_digits t) as [n r]. by apply fraction_printable. }
  destruct s as [|a s]; [done|]. cbn [strip_prefix] in Hb. rewrite eq_byte in Hb. destruct (Ascii.eqb_spec "-" a) as [<-|_]; [|done].
  cbn [all_bytes default from_option] in *. exact Hb.
Qed.

(** ** Labels *)
Section Labels.
  Context {PF : Platform}.

Lemma split_bytes p n s : all_bytes p s = true -> all_bytes p (fst (split_at n s)) = true /\ slen (fst (split_at n s)) <= Z.of_nat n.
Proof.
  unfold slen. revert s. induction n as [|n IH]; intros s H; [done|]. destruct s as [|a s]; [done|]. cbn [split_at all_bytes] in *.
  apply andb_true_iff in H as [Ha Hs]. destruct (IH s Hs) as [H1 H2]. destruct (split_at n s) as [l r]. cbn [fst all_bytes String.length] in *. rewrite Ha, H1. split; [done|lia].
Qed.
Lemma bytes_weaken (p q : ascii -> bool) s : (forall a, p a = true -> q a = true) -> all_bytes p s = true -> all_bytes q s = true.
Proof. intros H. induction s as [|a s IH]; [done|]. cbn [all_bytes]. intros [Ha Hs]%andb_true_iff. by rewrite (H a Ha), IH. Qed.
Lemma hex_is_printable a : is_hex a = true -> printable a = true.
Proof. unfold is_hex, is_digit, printable, between. rewrite orb_true_iff, !andb_true_iff, !Z.leb_le. lia. Qed.

(** A label is clean, not empty and short. *)
Definition label_ok (label : string) : Prop := clean label /\ 1 <= text_len label <= MAX_OUTPUT_KEY_CHARS.

Lemma output_label_ok key : Utf8 key -> label_ok (fst (output_label key)).
Proof.
  intros Hk. unfold output_label, label_ok. set (label := if is_empty (escaped key) then quote +:+ quote else escaped key).
  assert (clean label /\ 1 <= text_len label) as [Hc Hl].
  { subst label. pose proof (clean_escaped key Hk) as He. destruct (escaped key) as [|a s] eqn:E; [split; [by apply printable_clean|done]|]. cbn [is_empty]. split; [done|].
    destruct He as [He _]. inversion He as [|c t Hc Ht Et]. unfold text_len, len. rewrite chars_utf8 by done. cbn [length]. lia. }
  destruct (Z.leb_spec (text_len label) MAX_OUTPUT_KEY_CHARS) as [Hs|Hs]; cbn [fst]; [done|].
  destruct (clean_take (MAX_OUTPUT_KEY_CHARS - 8) label Hc) as (Ht & Htl & _ & Htp). destruct ellipsis_clean as [He Hel].
  assert (all_bytes printable (sha256_hex key) = true) as Hd by (eapply bytes_weaken; [apply hex_is_printable|]; apply hex_of_hex).
  destruct (split_bytes printable 7 _ Hd) as [Hp Hpl]. apply printable_clean in Hp as [Hp Hpe].
  split; [by repeat apply clean_app|]. rewrite !text_len_app by (apply Ht || apply He). unfold MAX_OUTPUT_KEY_CHARS in *. unfold slen in *.
  pose proof (Nat2Z.is_nonneg (String.length (fst (split_at 7 (sha256_hex key))))). lia.
Qed.

Lemma pretty_small k : 0 <= k <= 99 -> all_bytes printable (pretty k) = true /\ slen (pretty k) <= 2.
Proof.
  intros Hk. assert (forallb (fun n => all_bytes printable (pretty (Z.of_nat n)) && (slen (pretty (Z.of_nat n)) <=? 2)) (seq 0 100) = true) as H by by vm_compute.
  rewrite forallb_forall in H. specialize (H (Z.to_nat k)). rewrite Z2Nat.id in H by lia. rewrite andb_true_iff, Z.leb_le in H. apply H, in_seq. lia.
Qed.
Lemma numbered_ok label k : label_ok label -> 0 <= k <= 99 -> label_ok (numbered label k).
Proof.
  intros [Hc Hl] Hk. unfold numbered. destruct (clean_take (MAX_OUTPUT_KEY_CHARS - 6) label Hc) as (Ht & Htl & _ & Htp).
  destruct (pretty_small k Hk) as [Hp Hpl].
  destruct (printable_clean (" (" +:+ pretty k +:+ ")")) as [Hn Hnl]; [by rewrite !all_bytes_app, Hp|].
  split; [by apply clean_app|]. rewrite text_len_app, Hnl by apply Ht. unfold slen in *. rewrite !length_string_app in *. cbn [String.length] in *.
  unfold MAX_OUTPUT_KEY_CHARS in *. lia.
Qed.
Lemma numbered_inj label k k' : numbered label k = numbered label k' -> k = k'.
Proof.
  unfold numbered. intros H. apply (inj (String.app _)) in H. apply (inj (String.app _)) in H. apply string_app_inj in H. by apply (inj pretty) in H.
Qed.

(** Numbering ends before its fuel does, at a label that is not taken. *)
Definition free_number (labels : list string) (label : string) (number : Z) (fuel : nat) : Prop :=
  exists k, number < k <= number + Z.of_nat fuel /\ ~ In (numbered label k) labels.
Lemma number_label_free fuel labels label shown number shortened :
  (contains labels shown = true -> free_number labels label number fuel) ->
  let found := fst (number_label fuel labels label shown number shortened) in
  ~ In found labels /\ (found = shown \/ exists k, number < k <= number + Z.of_nat fuel /\ found = numbered label k).
Proof.
  revert shown number shortened. induction fuel as [|fuel IH]; intros shown number shortened H; cbn [number_label];
    (destruct (contains labels shown) eqn:E; [|split; [|by left]; cbn [fst]; intros Hin%contains_In; congruence]).
  - destruct (H eq_refl) as (k & Hk & _). lia.
  - destruct (H eq_refl) as (k & Hk & Hf). destruct (IH (numbered label (number + 1)) (number + 1) (shortened || (MAX_OUTPUT_KEY_CHARS - 6 <? text_len label))) as [Hn Hw].
    + intros Hc%contains_In. exists k. split; [|done]. destruct (Z.eq_dec k (number + 1)) as [->|]; [done|lia].
    + split; [done|]. right. destruct Hw as [->|(k' & Hk' & ->)]; [exists (number + 1)|exists k']; (split; [lia|done]).
Qed.
Lemma free_exists labels label : free_number labels label 1 (S (length labels)).
Proof.
  set (tries := map (fun n => numbered label (Z.of_nat n)) (seq 2 (S (length labels)))).
  assert (NoDup tries) as Hn by (apply NoDup_fmap_2; [intros n n' H; apply numbered_inj in H; lia|apply NoDup_seq]).
  destruct (forallb (contains labels) tries) eqn:E.
  - rewrite forallb_forall in E. assert (List.incl tries labels) as Hi by (intros t Ht; apply contains_In; auto).
    apply NoDup_ListNoDup in Hn. pose proof (NoDup_incl_length Hn Hi) as Hl. subst tries. rewrite length_map, length_seq in Hl. lia.
  - apply not_true_iff_false in E. rewrite forallb_forall in E. destruct (decide (List.Exists (fun t => contains labels t = false) tries)) as [Hx|Hx].
    + apply List.Exists_exists in Hx as (t & Ht & Hc). subst tries. apply in_map_iff in Ht as (n & <- & Hr%in_seq). exists (Z.of_nat n). split; [lia|].
      intros Hin%contains_In. congruence.
    + destruct E. intros t Ht. destruct (contains labels t) eqn:Ec; [done|]. destruct Hx. apply List.Exists_exists. eauto.
Qed.
Lemma output_labels_ok keys labels shortened : List.Forall Utf8 keys -> List.Forall label_ok labels -> NoDup labels ->
  (length labels + length keys <= 24)%nat ->
  let found := fst (output_labels_from labels shortened keys) in
  List.Forall label_ok found /\ NoDup found /\ length found = (length labels + length keys)%nat.
Proof.
  intros Hk. revert labels shortened. induction Hk as [|key keys Hkey _ IH]; intros labels shortened Hl Hd Hn; cbn [output_labels_from]; [by rewrite Nat.add_0_r|].
  pose proof (output_label_ok key Hkey) as Ho. destruct (output_label key) as [label cut]. cbn [fst] in Ho.
  destruct (number_label_free (S (length labels)) labels label label 1 (shortened || cut)) as [Hf Hw]; [intros _; apply free_exists|].
  destruct (number_label _ _ _ _ _ _) as [shown sh]. cbn [fst] in *. cbn [length] in Hn.
  destruct (IH (labels ++ [shown]) sh) as (H1 & H2 & H3).
  - apply List.Forall_app. split; [done|]. constructor; [|constructor]. destruct Hw as [->|(k & Hr & ->)]; [done|]. apply numbered_ok; [done|lia].
  - apply NoDup_app. split_and!; [done| |apply NoDup_singleton]. intros t Ht ->%list_elem_of_singleton. by apply list_elem_of_In in Ht.
  - rewrite length_app. cbn [length]. lia.
  - rewrite length_app in H3. cbn [length] in *. split_and!; [done..|lia].
Qed.
End Labels.

Section Safe.
  Context {PF : Platform} {VO : Vocabulary} {T : CaseTables} {PT : Patterns}.

(** ** The safe form *)
(** The words of a node's own vocabulary. *)
Definition NODE_WORDS : list string :=
  ["kind"; "redacted"; "elided"; "null"; "bool"; "value"; "text"; "cut"; "number"; "list"; "items"; "omitted"; "fields"]%string.
(** What a text of a safe form may be. *)
Definition shown_text (protected : list string) (v : Value) (t : string) : Prop :=
  In t NODE_WORDS \/ (exists n, t = redacted_label n) \/ (In t (texts_of v) /\ unsafe_text protected t = false).
Lemma shown_mono protected v v' t : (forall s, In s (texts_of v) -> In s (texts_of v')) -> shown_text protected v t -> shown_text protected v' t.
Proof. intros H [Ht|[Ht|[Ht Hs]]]; unfold shown_text; auto. Qed.
Lemma words_shown protected v t w : In t (texts_of w) -> forallb (contains NODE_WORDS) (texts_of w) = true -> shown_text protected v t.
Proof. rewrite forallb_forall. intros Hin H. left. apply contains_In. auto. Qed.

Lemma scalar_shown protected v t : match v with VArray _ | VObject _ => False | _ => True end ->
  (forall s, v = VString s -> holds_protected protected s = false) -> In t (texts_of (scalar v)) -> shown_text protected v t.
Proof.
  intros Hv Hs. destruct v as [|b|n|s| |]; try done; cbn [scalar]; intros Ht; try (eapply words_shown; [exact Ht|vm_compute; reflexivity]).
  destruct (resembles_credential s) eqn:Ec; [eapply words_shown; [exact Ht|vm_compute; reflexivity]|].
  cbn [texts_of object text map concat fst snd app] in Ht. repeat (destruct Ht as [<-|Ht]; [try (left; vm_compute; tauto)|]); try done.
  right; right. split; [by left|]. unfold unsafe_text. by rewrite Ec, (Hs s eq_refl).
Qed.

(** The fields shown, and where each text comes from. *)
Lemma show_fields_texts protected v nodes redacted shown t :
  show_fields protected redacted nodes = Ok shown ->
  (forall key, In key (map fst nodes) -> In key (texts_of v)) ->
  (forall key one, In (key, Ok one) nodes -> forall t, In t (texts_of one) -> shown_text protected v t) ->
  In t (texts_of (VArray shown)) -> shown_text protected v t.
Proof.
  revert redacted shown. induction nodes as [|[key found] nodes IH]; intros redacted shown H Hk Hn Ht; cbn [show_fields] in H; [by injection H as <-|].
  assert (forall redacted shown, show_fields protected redacted nodes = Ok shown -> In t (texts_of (VArray shown)) -> shown_text protected v t) as Hrest.
  { intros r s Hs Hin. eapply IH; [exact Hs| |intros k o Ho; eapply Hn; by right|exact Hin]. intros k Hin'. apply Hk. by right. }
  destruct (resembles_credential key || protects key protected) eqn:E.
  - apply result_bind_Ok in H as (rest & Hr & [= <-]). cbn [texts_of map concat field_entry] in Ht. apply in_app_iff in Ht as [Ht|Ht]; [|by eapply Hrest].
    cbn [map concat texts_of app] in Ht. destruct Ht as [<-|Ht]; [right; left; eauto|]. rewrite app_nil_r in Ht.
    eapply words_shown; [exact Ht|vm_compute; reflexivity].
  - apply result_bind_Ok in H as (one & -> & H). apply result_bind_Ok in H as (rest & Hr & [= <-]).
    cbn [texts_of map concat field_entry] in Ht. apply in_app_iff in Ht as [Ht|Ht]; [|by eapply Hrest].
    cbn [map concat texts_of app] in Ht. rewrite app_nil_r in Ht. destruct Ht as [<-|Ht]; [|eapply Hn; [by left|done]].
    right; right. split; [apply Hk; by left|]. unfold unsafe_text. exact E.
Qed.

Lemma node_texts v context sub name depth safe t : node v context sub name depth = Ok safe -> In t (texts_of safe) ->
  shown_text (Context.protected context) v t.
Proof.
  revert sub name depth safe t. induction v as [|b|n|s|items IH|ms IH] using value_ind'; intros sub name depth safe t H Ht; cbn [node] in H;
    (destruct (Context.depth context <? depth)%nat; [injection H as <-; eapply words_shown; [exact Ht|vm_compute; reflexivity]|]);
    apply result_bind_Ok in H as (candidates & _ & H);
    (destruct (secret_position _ name candidates); [injection H as <-; eapply words_shown; [exact Ht|vm_compute; reflexivity]|]).
  1-3: injection H as <-; by eapply scalar_shown; [| |exact Ht].
  - injection H as <-. destruct (protects s (Context.protected context)) eqn:Ep; [eapply words_shown; [exact Ht|vm_compute; reflexivity]|].
    eapply scalar_shown; [done|by intros ? [= <-]|exact Ht].
  - apply result_bind_Ok in H as (shown & H & [= <-]).
    assert (In t (texts_of (VArray shown)) -> shown_text (Context.protected context) (VArray items) t) as Hshown.
    { clear Ht. revert shown H. generalize 0%nat. induction IH as [|item items IHv _ IHl]; intros index shown H Ht; [by injection H as <-|].
      apply result_bind_Ok in H as (one & H1 & H). apply result_bind_Ok in H as (rest & H2 & [= <-]).
      cbn [texts_of map concat] in Ht. apply in_app_iff in Ht as [Ht|Ht].
      - eapply shown_mono; [|by eapply IHv]. intros s Hs. cbn [texts_of map concat]. apply in_app_iff. by left.
      - eapply shown_mono; [|by eapply IHl]. intros s Hs. cbn [texts_of map concat]. apply in_app_iff. by right. }
    unfold list_node, object in Ht. cbn [texts_of text int map concat fst snd app] in Ht.
    destruct Ht as [<-|[<-|Ht]]; [left; vm_compute; tauto..|]. destruct Ht as [<-|Ht]; [left; vm_compute; tauto|].
    apply in_app_iff in Ht as [Ht|Ht]; [by apply Hshown|]. destruct Ht as [<-|[]]. left; vm_compute; tauto.
  - apply result_bind_Ok in H as (shown & H & [= <-]).
    assert (In t (texts_of (VArray shown)) -> shown_text (Context.protected context) (VObject ms) t) as Hshown.
    { clear Ht. match type of H with show_fields _ _ (sorted_by_name ?l) = _ => set (nodes := l) in H end.
      assert (forall key found, In (key, found) nodes -> exists item, In (key, item) ms
                /\ (found = Ok output_redacted \/ exists member, found = node item context member key (S depth))) as Hnodes.
      { subst nodes. clear H IH. induction ms as [|[key item] ms IHms]; intros k found Hin; [done|].
        destruct Hin as [[= <- <-]|Hin].
        - exists item. split; [by left|]. destruct (member_schemas candidates key) as [member|]; eauto.
        - destruct (IHms k found Hin) as (i & Hi & Hf). exists i. split; [by right|done]. }
      assert (forall x, In x (sorted_by_name nodes) <-> In x nodes) as Hsorted.
      { intros x. rewrite <- !list_elem_of_In. unfold sorted_by_name. by rewrite stable_sort_perm. }
      intros Ht. eapply show_fields_texts; [exact H| | |exact Ht].
      - intros key (kf & <- & Hin%Hsorted)%in_map_iff. destruct kf as [key found]. destruct (Hnodes _ _ Hin) as (item & Hi & _).
        cbn [texts_of fst]. apply in_concat. exists (key :: texts_of item). split; [|by left]. apply in_map_iff. by exists (key, item).
      - intros key one Hin%Hsorted s Hs. destruct (Hnodes _ _ Hin) as (item & Hi & [Ho|(member & Ho)]).
        + injection Ho as ->. eapply words_shown; [exact Hs|vm_compute; reflexivity].
        + rewrite List.Forall_forall in IH. eapply shown_mono; [|eapply (IH (key, item) Hi); [symmetry; exact Ho|exact Hs]].
          intros x Hx. cbn [texts_of]. apply in_concat. exists (key :: texts_of item). split; [|by right]. apply in_map_iff. by exists (key, item). }
    unfold fields_node, object in Ht. cbn [texts_of text int map concat fst snd app] in Ht.
    destruct Ht as [<-|[<-|Ht]]; [left; vm_compute; tauto..|]. destruct Ht as [<-|Ht]; [left; vm_compute; tauto|].
    apply in_app_iff in Ht as [Ht|Ht]; [by apply Hshown|]. destruct Ht as [<-|[]]. left; vm_compute; tauto.
Qed.

(** C22. The safe form of a result shows nothing unsafe: every text and key in it is a
    word of the form's own vocabulary, the label of a redacted key, or a text of the
    result that neither looks like a credential nor holds a value the run protects. *)
Theorem safe_form_safe result_ schema protected safe t :
  output_safe result_ schema protected = Some safe -> In t (texts_of safe) -> shown_text (not_empty protected) result_ t.
Proof.
  unfold output_safe, output_safe_within. destruct (node _ _ _ _ _) as [found|] eqn:E; [|done]. intros [= <-] Ht.
  by eapply node_texts in E.
Qed.
End Safe.

(** No container of the result has more entries than a count can say. *)
Fixpoint countable (v : Value) : bool :=
  match v with
  | VArray items => (len items <=? 2 ^ 31 - 1) && forallb countable items
  | VObject ms => (len ms <=? 2 ^ 31 - 1) && forallb (fun kv => countable (snd kv)) ms
  | _ => true
  end.

Definition plain_node (v : Value) : Prop := In v [output_redacted; output_elided; object [("kind"%string, text "null")];
  object [("kind"%string, text "bool"); ("value"%string, VBool true)]; object [("kind"%string, text "bool"); ("value"%string, VBool false)]].
(** The safe forms [node] builds. *)
Inductive safe_form : Value -> Prop :=
  | safe_plain v : plain_node v -> safe_form v
  | safe_text s : Utf8 s -> safe_form (object [("kind"%string, text "text"); ("value"%string, text s); ("cut"%string, VBool false)])
  | safe_number n : OUTPUT_NUMBER_RE (number_text n) = true -> safe_form (object [("kind"%string, text "number"); ("value"%string, VNumber n)])
  | safe_list items : len items <= 2 ^ 31 - 1 -> List.Forall safe_form items -> safe_form (list_node items (int 0))
  | safe_fields fields : len fields <= 2 ^ 31 - 1 -> List.Forall (fun kv => Utf8 (fst kv) /\ safe_form (snd kv)) fields ->
      safe_form (fields_node (map (fun kv => field_entry (fst kv) (snd kv)) fields) (int 0)).

Section Shown.
  Context {PF : Platform} {VO : Vocabulary} {T : CaseTables} {PT : Patterns}.

Lemma redacted_label_Utf8 n : 0 <= n -> Utf8 (redacted_label n).
Proof.
  intros Hn. apply (printable_clean (redacted_label n)). unfold redacted_label. destruct (n =? 1); [reflexivity|].
  rewrite !all_bytes_app. change (all_bytes printable OUTPUT_REDACTED_KEY) with true. change (all_bytes printable " ") with true. cbn [andb].
  eapply bytes_weaken; [apply digit_printable|]. destruct n as [|p|p]; [reflexivity| |lia].
  change (pretty (Zpos p)) with (pretty (Npos p)). unfold pretty, pretty_N. destruct (decide (Npos p = 0%N)); [done|]. by apply pretty_go_digits.
Qed.
Lemma show_fields_safe protected redacted nodes shown : show_fields protected redacted nodes = Ok shown -> 0 <= redacted ->
  List.Forall (fun kn => Utf8 (fst kn) /\ forall one, snd kn = Ok one -> safe_form one) nodes ->
  exists fields, shown = map (fun kv => field_entry (fst kv) (snd kv)) fields /\ length fields = length nodes
    /\ List.Forall (fun kv => Utf8 (fst kv) /\ safe_form (snd kv)) fields.
Proof.
  intros H Hr Hn. revert redacted shown H Hr. induction Hn as [|[key found] nodes [Hk Hf] Hn IH]; intros redacted shown H Hr; cbn [show_fields fst snd] in *.
  { injection H as <-. by exists []. }
  destruct (resembles_credential key || protects key protected).
  - apply result_bind_Ok in H as (rest & Hs & [= <-]). destruct (IH _ _ Hs ltac:(lia)) as (fields & -> & Hl & Hfs).
    exists ((redacted_label (redacted + 1), output_redacted) :: fields). cbn [map fst snd length]. split_and!; [done|lia|]. constructor; [|done].
    split; [apply redacted_label_Utf8; lia|]. apply safe_plain. by left.
  - apply result_bind_Ok in H as (one & -> & H). apply result_bind_Ok in H as (rest & Hs & [= <-]). destruct (IH _ _ Hs Hr) as (fields & -> & Hl & Hfs).
    exists ((key, one) :: fields). cbn [map fst snd length]. split_and!; [done|lia|]. constructor; [|done]. split; [done|]. by apply Hf.
Qed.

Lemma node_safe_form v context sub name depth safe : node v context sub name depth = Ok safe ->
  admissible v = true -> doubles v -> countable v = true -> safe_form safe.
Proof.
  revert sub name depth safe. induction v as [|b|n|s|items IH|ms IH] using value_ind'; intros sub name depth safe H Ha Hf Hc; cbn [node] in H;
    (destruct (Context.depth context <? depth)%nat; [injection H as <-; apply safe_plain; unfold plain_node; cbn [In]; tauto|]);
    apply result_bind_Ok in H as (candidates & _ & H);
    (destruct (secret_position _ name candidates); [injection H as <-; apply safe_plain; unfold plain_node; cbn [In]; tauto|]).
  - injection H as <-. apply safe_plain. unfold plain_node. cbn [In scalar]. tauto.
  - injection H as <-. apply safe_plain. unfold plain_node. destruct b; cbn [In scalar]; tauto.
  - injection H as <-. apply safe_number. by apply number_text_re.
  - injection H as <-. cbn [admissible] in Ha. destruct (protects s _); [apply safe_plain; by left|]. cbn [scalar].
    destruct (resembles_credential s); [apply safe_plain; by left|]. by apply safe_text, valid_utf8_iff.
  - apply result_bind_Ok in H as (shown & H & [= <-]). cbn [admissible doubles countable] in *. apply andb_true_iff in Hc as [Hl%Z.leb_le Hc].
    apply all_and in Hf. rewrite forallb_forall in Ha, Hc. rewrite List.Forall_forall in IH, Hf.
    assert (length shown = length items /\ List.Forall safe_form shown) as [Hlen Hs].
    2: { apply safe_list; [unfold len in *; lia|done]. }
    clear Hl. revert H. generalize 0%nat. revert shown. induction items as [|item items IHl]; intros shown index H; [by injection H as <-|].
    apply result_bind_Ok in H as (one & H1 & H). apply result_bind_Ok in H as (rest & H2 & [= <-]).
    destruct (IHl (fun x Hx => IH x (or_intror Hx)) (fun x Hx => Ha x (or_intror Hx)) (fun x Hx => Hf x (or_intror Hx)) (fun x Hx => Hc x (or_intror Hx)) rest (S index) H2) as [Hn Hr].
    cbn [length]. split; [lia|]. constructor; [|done]. eapply (IH item); [by left|exact H1|apply Ha; by left|apply Hf; by left|apply Hc; by left].
  - apply result_bind_Ok in H as (shown & H & [= <-]). cbn [admissible doubles countable] in *. apply andb_true_iff in Hc as [Hl%Z.leb_le Hc].
    apply andb_true_iff in Ha as [_ Ha]. apply all_and in Hf. rewrite forallb_forall in Ha, Hc. rewrite List.Forall_forall in IH, Hf.
    match type of H with show_fields _ _ (sorted_by_name ?l) = _ => set (nodes := l) in H end.
    assert (length nodes = length ms /\ List.Forall (fun kn => Utf8 (fst kn) /\ forall one, snd kn = Ok one -> safe_form one) nodes) as [Hn Hns].
    { subst nodes. clear H Hl. induction ms as [|[key item] ms IHms]; [done|].
      destruct IHms as [Hn Hr]; [intros x Hx; exact (IH x (or_intror Hx))|intros x Hx; exact (Ha x (or_intror Hx))|intros x Hx; exact (Hf x (or_intror Hx))|intros x Hx; exact (Hc x (or_intror Hx))|].
      cbn [length]. split; [lia|]. constructor; [|exact Hr]. cbn [fst snd]. destruct (proj1 (andb_true_iff _ _) (Ha (key, item) ltac:(by left))) as [Hk Hi].
      split; [by apply valid_utf8_iff|]. intros one Ho. destruct (member_schemas candidates key) as [member|]; [|injection Ho as <-; apply safe_plain; by left].
      eapply (IH (key, item)); [by left|exact Ho|done|apply (Hf (key, item)); by left|apply (Hc (key, item)); by left]. }
    destruct (show_fields_safe _ _ _ _ H ltac:(lia)) as (fields & -> & Hfl & Hfs).
    + apply List.Forall_forall. intros x Hx. rewrite List.Forall_forall in Hns. apply Hns. revert Hx. rewrite <- !list_elem_of_In. unfold sorted_by_name. by rewrite stable_sort_perm.
    + unfold sorted_by_name in Hfl. rewrite (Permutation_length (stable_sort_perm _ _)) in Hfl. apply safe_fields; [unfold len in *; lia|done].
Qed.

(** ** The shown form *)
Definition limits_ok (limits : Z * Z * Z) : Prop :=
  let '(items, fields, chars_) := limits in 0 <= items <= MAX_OUTPUT_ITEMS /\ 0 <= fields <= MAX_OUTPUT_FIELDS /\ 0 <= chars_ <= MAX_OUTPUT_TEXT_CHARS.
(** What the protocol checks of each shape of node. *)
Ltac closed_texts step :=
  step;
  repeat (match goal with |- context [seqb ?a ?b] => let r := eval vm_compute in (seqb a b) in replace (seqb a b) with r by (vm_compute; reflexivity) end; step).
Ltac shape_eval := closed_texts ltac:(cbn -[seqb text_len OUTPUT_NUMBER_RE chars plan_unsafe Z.leb len distinct_keys plain Z.pow Z.sub]).
Lemma output_node_text room s cut : output_node room (cut_node s cut) = (text_len s <=? MAX_OUTPUT_TEXT_CHARS) && negb (existsb plan_unsafe (chars s)).
Proof. destruct room; shape_eval; reflexivity. Qed.
Lemma output_node_number room s : output_node room (object [("kind"%string, text "number"); ("value"%string, VString s)])
  = (text_len s <=? MAX_OUTPUT_NUMBER_CHARS) && OUTPUT_NUMBER_RE s.
Proof. destruct room; shape_eval; reflexivity. Qed.
Lemma output_node_plain room v : plain_node v -> output_node room v = true.
Proof. intros H. destruct room; repeat (destruct H as [<-|H]; [vm_compute; reflexivity|]); done. Qed.
Lemma output_node_list room items omitted : output_node (S room) (list_node items (int omitted))
  = ((0 <=? omitted) && (omitted <=? 2 ^ 31 - 1)) && ((len items <=? MAX_OUTPUT_ITEMS) && forallb (output_node room) items).
Proof. shape_eval; reflexivity. Qed.
Lemma output_node_fields room fields omitted : output_node (S room) (fields_node fields (int omitted))
  = ((0 <=? omitted) && (omitted <=? 2 ^ 31 - 1)) &&
    ((len fields <=? MAX_OUTPUT_FIELDS)
     && forallb (fun entry => match array entry with Some [k; node] => plain k MAX_OUTPUT_KEY_CHARS && output_node room node | _ => false end) fields
     && distinct_keys [] fields).
Proof. shape_eval; reflexivity. Qed.

Lemma cut_node_ok room s cut : clean s -> text_len s <= MAX_OUTPUT_TEXT_CHARS -> output_node room (cut_node s cut) = true.
Proof. intros [_ Hu] Hl%Z.leb_le. by rewrite output_node_text, Hu, Hl. Qed.
Lemma text_of_node_ok room chars_ s : 0 <= chars_ <= MAX_OUTPUT_TEXT_CHARS -> clean s -> output_node room (fst (text_of_node chars_ s)) = true.
Proof.
  intros Hr Hc. unfold text_of_node. destruct (Z.leb_spec (text_len s) chars_); cbn [fst]; [apply cut_node_ok; [done|lia]|].
  destruct (clean_take (Z.max 0 (chars_ - 1)) s Hc) as (Ht & Hl & _). destruct ellipsis_clean as [He Hel].
  apply cut_node_ok; [by apply clean_app|]. rewrite text_len_app by apply Ht. unfold MAX_OUTPUT_TEXT_CHARS in *. lia.
Qed.

(** What is shown of each shape of safe form. *)
Ltac display_eval := closed_texts ltac:(cbn -[seqb text_len number_text escaped text_of_node Z.leb len firstn output_labels Z.to_nat Z.sub Z.add zip_with]).
Lemma display_text room s items fields chars_ :
  display room (object [("kind"%string, text "text"); ("value"%string, text s); ("cut"%string, VBool false)]) (items, fields, chars_) = text_of_node chars_ (escaped s).
Proof. destruct room; display_eval; reflexivity. Qed.
Lemma display_number room n items fields chars_ :
  display room (object [("kind"%string, text "number"); ("value"%string, VNumber n)]) (items, fields, chars_)
  = if text_len (number_text n) <=? MAX_OUTPUT_NUMBER_CHARS then (object [("kind"%string, text "number"); ("value"%string, VString (number_text n))], false)
    else text_of_node chars_ (number_text n).
Proof. destruct room; display_eval; reflexivity. Qed.
Lemma display_plain room v limits : plain_node v -> fst (display room v limits) = v.
Proof. destruct limits as [[items fields] chars_]. intros H. destruct room; repeat (destruct H as [<-|H]; [vm_compute; reflexivity|]); done. Qed.
Lemma display_list room entries items fields chars_ : fst (display (S room) (list_node entries (int 0)) (items, fields, chars_))
  = let kept := firstn (Z.to_nat items) entries in
    list_node (map (fun entry => fst (display room entry (items, fields, chars_))) kept) (int (0 + (len entries - len kept))).
Proof. display_eval. rewrite map_map. reflexivity. Qed.
Lemma display_fields room entries items fields chars_ : fst (display (S room) (fields_node entries (int 0)) (items, fields, chars_))
  = let kept := firstn (Z.to_nat fields) entries in
    fields_node (zip_with (fun label child => field_entry label (fst child)) (fst (output_labels (map entry_key kept)))
                   (map (fun entry => display room (entry_node entry) (items, fields, chars_)) kept)) (int (0 + (len entries - len kept))).
Proof. display_eval. destruct (output_labels _) as [labels shortened]. reflexivity. Qed.
Lemma display_deep entries limits : fst (display 0 (list_node entries (int 0)) limits) = output_elided /\ fst (display 0 (fields_node entries (int 0)) limits) = output_elided.
Proof. destruct limits as [[items fields] chars_]. split; display_eval; reflexivity. Qed.

Lemma distinct_zip {A} (mk : A -> Value) labels (children : list A) before earlier :
  map key_of before = map (fun l => Some (VString l)) earlier -> NoDup (earlier ++ labels) ->
  distinct_keys before (zip_with (fun label child => field_entry label (mk child)) labels children) = true.
Proof.
  revert children before earlier. induction labels as [|label labels IH]; intros children before earlier He Hd; [done|].
  destruct children as [|child children]; [done|]. cbn [zip_with distinct_keys]. apply andb_true_iff. split.
  - apply negb_true_iff, not_true_iff_false. intros (o & Ho & Hk)%existsb_exists. revert Hk. apply not_true_iff_false. apply (in_map key_of) in Ho. rewrite He in Ho. apply in_map_iff in Ho as (l & El & Hl).
    rewrite <- El. cbn. destruct (seqb_spec l label) as [->|]; [|done]. apply NoDup_app in Hd as (_ & Hx & _). destruct (Hx label); [by apply list_elem_of_In|by left].
  - apply (IH _ _ (earlier ++ [label])); [by rewrite !map_app, He|]. by rewrite <- app_assoc.
Qed.
Lemma display_ok room safe limits : limits_ok limits -> safe_form safe -> output_node room (fst (display room safe limits)) = true.
Proof.
  intros Hlim. pose proof Hlim as Hr. destruct limits as [[items fields] chars_]. destruct Hr as (Hi & Hfi & Hch). revert safe.
  induction room as [|room IH]; intros safe Hs; destruct Hs as [v Hv|s Hu|n Hn|entries Hl He|entries Hl He].
  1,6: rewrite display_plain by done; by apply output_node_plain.
  1,5: rewrite display_text; by apply text_of_node_ok, clean_escaped.
  1,4: rewrite display_number; destruct (Z.leb_spec (text_len (number_text n)) MAX_OUTPUT_NUMBER_CHARS) as [Hs|Hs];
    [cbn [fst]; rewrite output_node_number, Hn; apply Z.leb_le in Hs; by rewrite Hs|by apply text_of_node_ok; [|apply printable_clean, number_re_printable]].
  1,2: match goal with |- context [display 0 (_ ?e (int 0)) ?l] => destruct (display_deep e l) as [-> ->] || (destruct (display_deep e l) as [H1 H2]; rewrite ?H1, ?H2) end; reflexivity.
  - rewrite display_list. cbv zeta. rewrite output_node_list. unfold len in *. rewrite length_map, length_firstn.
    rewrite !andb_true_iff, !Z.leb_le. split_and!; [lia..|]. apply forallb_forall. intros y (x & <- & Hx)%in_map_iff. apply IH. rewrite List.Forall_forall in He. apply He. apply list_elem_of_In in Hx. apply list_elem_of_In. apply elem_of_take in Hx as (i & Hx & _). by eapply list_elem_of_lookup_2.
  - rewrite display_fields. cbv zeta. rewrite output_node_fields. set (kept := firstn (Z.to_nat fields) (map _ entries)).
    assert (exists pairs, kept = map (fun kv => field_entry (fst kv) (snd kv)) pairs /\ List.Forall (fun kv => Utf8 (fst kv) /\ safe_form (snd kv)) pairs) as (pairs & Ek & Hp).
    { exists (firstn (Z.to_nat fields) entries). subst kept. rewrite firstn_map. split; [done|by apply Forall_take]. }
    assert (length kept <= 24)%nat as H24 by (subst kept; rewrite length_firstn; unfold MAX_OUTPUT_FIELDS in *; lia).
    assert (length kept <= length entries)%nat as Hke by (subst kept; rewrite length_firstn, length_map; lia).
    destruct (output_labels_ok (map entry_key kept) [] false) as (Hlo & Hnd & Hll).
    { rewrite Ek, map_map. apply List.Forall_map. eapply List.Forall_impl; [|exact Hp]. by intros kv [? _]. }
    { constructor. } { constructor. } { cbn [length]. by rewrite length_map. }
    change (output_labels_from [] false (map entry_key kept)) with (output_labels (map entry_key kept)) in *.
    unfold len in *. rewrite length_map. rewrite length_zip_with. rewrite !andb_true_iff, !Z.leb_le. split_and!; [lia|lia|unfold MAX_OUTPUT_FIELDS; rewrite length_map; lia| |by eapply (distinct_zip fst _ _ [] [])].
    apply forallb_forall. intros x Hx. apply list_elem_of_In, list_elem_of_lookup in Hx as (i & Hx). apply lookup_zip_with_Some in Hx as (label & child & -> & Hx1 & Hx2).
    cbn [array field_entry]. apply list_elem_of_lookup_2, list_elem_of_In in Hx1. rewrite List.Forall_forall in Hlo. destruct (Hlo _ Hx1) as [[_ Hc] Hln].
    unfold plain. cbn [as_str]. rewrite Hc. rewrite !andb_true_iff, !Z.leb_le. split; [split; [lia|done]|].
    apply list_elem_of_lookup_2, list_elem_of_In in Hx2. apply in_map_iff in Hx2 as (entry & <- & Hin). rewrite Ek in Hin. apply in_map_iff in Hin as (kv & <- & Hin).
    apply IH. rewrite List.Forall_forall in Hp. by apply Hp.
Qed.

Lemma canonical_shown p v truncated : canonical_output (shown_output (int p) v truncated)
  = if (1 <=? p) && (p <=? MAX_ROUTINE_STEPS) && true && output_node MAX_OUTPUT_DEPTH v && (encoded_bytes (shown_output (int p) v truncated) <=? MAX_OUTPUT_BYTES)
    then Some (shown_output (int p) v truncated) else None.
Proof.
  unfold canonical_output. assert (exact_object (shown_output (int p) v truncated) ["step"; "state"; "value"; "truncated"]%string
    = Some [("step"%string, int p); ("state"%string, text "shown"); ("value"%string, v); ("truncated"%string, VBool truncated)]) as ->.
  { unfold exact_object, shown_output, object, object_members. by vm_compute (has_exactly _ _). }
  generalize (encoded_bytes (shown_output (int p) v truncated)). intros size.
  closed_texts ltac:(cbn -[seqb Z.leb output_node MAX_OUTPUT_DEPTH MAX_ROUTINE_STEPS MAX_OUTPUT_BYTES]). reflexivity.
Qed.
Lemma elided_fits p : 1 <= p <= MAX_ROUTINE_STEPS -> encoded_bytes (shown_output (int p) output_elided true) <= MAX_OUTPUT_BYTES.
Proof.
  intros Hp. assert (forallb (fun n => encoded_bytes (shown_output (int (Z.of_nat n)) output_elided true) <=? MAX_OUTPUT_BYTES) (seq 1 256) = true) as H by by vm_compute.
  rewrite forallb_forall in H. specialize (H (Z.to_nat p)). rewrite Z2Nat.id in H by lia. apply Z.leb_le, H, in_seq. unfold MAX_ROUTINE_STEPS in Hp. lia.
Qed.
Lemma shown_within_ok p safe levels : 1 <= p <= MAX_ROUTINE_STEPS -> safe_form safe -> List.Forall limits_ok levels ->
  let found := shown_within (int p) safe levels in canonical_output found = Some found.
Proof.
  intros Hp Hs Hl. pose proof (elided_fits p Hp) as He. induction Hl as [|limits levels Hlim _ IH]; cbn [shown_within].
  - rewrite canonical_shown. apply Z.leb_le in He. rewrite He. destruct Hp as [->%Z.leb_le ->%Z.leb_le]. reflexivity.
  - pose proof (display_ok MAX_OUTPUT_DEPTH safe limits Hlim Hs) as Hd. destruct (display _ _ _) as [value truncated]. cbn [fst] in Hd.
    destruct (_ <=? MAX_OUTPUT_BYTES) eqn:E; [|exact IH]. rewrite canonical_shown, E, Hd. destruct Hp as [->%Z.leb_le ->%Z.leb_le]. reflexivity.
Qed.
Lemma levels_ok : List.Forall limits_ok OUTPUT_LEVELS.
Proof. unfold OUTPUT_LEVELS. repeat constructor; unfold MAX_OUTPUT_ITEMS, MAX_OUTPUT_FIELDS, MAX_OUTPUT_TEXT_CHARS; lia. Qed.

(** C23. What Team shows of a result is always a form the protocol admits: for every
    result the strict reader can produce (with containers of fewer than 2^31 entries)
    and every step of a plan, the shown output of its safe form passes
    [canonical_output] unchanged, so it stays within the 16 KiB bound, within four
    levels of containers of at most 50 items or 24 fields, with distinct labels of 1
    to 64 characters and no unsafe character anywhere. *)
Theorem shown_admitted result_ schema protected safe p :
  admissible result_ = true -> doubles result_ -> countable result_ = true ->
  output_safe result_ schema protected = Some safe -> 1 <= p <= MAX_ROUTINE_STEPS ->
  canonical_output (output_shown (int p) safe) = Some (output_shown (int p) safe).
Proof.
  unfold output_safe, output_safe_within. intros Ha Hf Hc. destruct (node _ _ _ _ _) as [found|] eqn:E; [|done]. intros [= <-] Hp.
  apply shown_within_ok; [done| |apply levels_ok]. by eapply node_safe_form.
Qed.
End Shown.
