(* ===== verification/Admission.v ===== *)
(** * Admitting a plan

    [routine/src/plan/mod.rs]: a plan document admitted against the exact current
    contracts of the Actions it names, and what [admit_plan] grants of a plan, its steps and
    every position of the values the plan itself writes. *)

From stdpp Require Import base tactics list strings pretty.
From Stdlib Require Import ZArith Lia Ascii.
From S2P Require Import Prelude Text Json Reader Utf8 ReaderSafety Floats RoundTrip Platform Requests Redaction Executor Wire Instants Schedule Dates Plans Projection Credentials Walk Traces Outputs TraceSafety OutputSafety.

#[local] Open Scope Z_scope.

Module ActionContract.
Record ActionContract : Type := mk {
  pin : string; input_schema : Value; input_files : list string; output_schema : Value; read_only : bool; stored_inputs : list string
}.
End ActionContract.
(** [ActionContract::new]. *)
Definition contract_new (pin : string) (input_schema : Value) : ActionContract.ActionContract :=
  ActionContract.mk pin input_schema [] (VObject []) false [].
(** [Contracts]: by Assistant and Action. *)
Definition Contracts : Type := list ((string * string) * ActionContract.ActionContract).
Definition contract (contracts : Contracts) (assistant action : string) : option ActionContract.ActionContract :=
  option_map snd (List.find (fun entry => (fst (fst entry) =s assistant) && (snd (fst entry) =s action)) contracts).

Section Admission.
  Context {PF : Platform} {VO : Vocabulary} {T : CaseTables} {PT : Patterns} {SC : Schemas}.

(** What a step input writes that its plan holds. *)
Definition supplied_value (source : Value) : result (option Value) :=
  if is_str (at_ source "kind") "run_clock" && is_some (get source "parts")
  then sample ← sample_clock source; Ok (Some sample)
  else Ok (get source "value").

(** Whether a literal reaches a secret destination anywhere inside it. *)
Fixpoint secret_literal_at (root : Value) (name : string) (v : Value) (sub : Sub) (depth : nat) {struct v} : result bool :=
  if (MAX_SECRET_DEPTH <? depth)%nat then Ok true
  else
    candidates ← applicable root sub 0 (HeldValue v);
    if secret_position root name candidates then Ok true
    else
      match v with
      | VObject found =>
          (fix go (ms : list (string * Value)) : result bool :=
             match ms with
             | [] => Ok false
             | (key, item) :: ms =>
                 member ← member_schemas candidates key;
                 secret ← secret_literal_at root key item member (S depth);
                 if secret : bool then Ok true else go ms
             end) found
      | VArray items =>
          (fix go (index : nat) (items : list Value) : result bool :=
             match items with
             | [] => Ok false
             | item :: items =>
                 secret ← secret_literal_at root name item (item_schemas candidates index) (S depth);
                 if secret : bool then Ok true else go (S index) items
             end) 0%nat items
      | _ => Ok false
      end.
Fixpoint secret_members (schema : Value) (candidates : list Value) (supplied : list (string * option Value)) : result bool :=
  match supplied with
  | [] => Ok false
  | (key, item) :: supplied =>
      member ← member_schemas candidates key;
      secret ← match item with Some item => secret_literal_at schema key item member 1 | None => Ok false end;
      if secret : bool then Ok true else secret_members schema candidates supplied
  end.
Definition step_secret_literal (schema : Value) (supplied : list (string * option Value)) : result bool :=
  candidates ← applicable schema (SubNode schema) 0 (HeldSupplied supplied);
  if secret_position schema "" candidates then Ok true else secret_members schema candidates supplied.
Definition secret_literal (schema supplied : Value) : result bool := secret_literal_at schema "" supplied (SubNode schema) 0.

(** [admit_member]: exactly the destination member, with the schema's own definitions. *)
Definition member_schema (schema : Value) (name : string) : Value :=
  let property := default VNull (lookup_member (members (at_ schema "properties")) name) in
  let member := object [("type"%string, text "object"); ("properties"%string, VObject [(name, property)]);
                        ("required"%string, VArray [text name]); ("additionalProperties"%string, VBool false)] in
  fold_left (fun member definitions => match get schema definitions with Some found => set_member member definitions found | None => member end)
    ["$defs"; "definitions"]%string member.
Definition admit_member (schema : Value) (name : string) (v : Value) : result unit :=
  match validate_payload (member_schema schema name) (VObject [(name, v)]) with None => Ok tt | Some _ => Err "plan-input-type" end.
Definition typed (name : string) (source schema : Value) : result unit :=
  if is_str (at_ source "kind") "literal" then admit_member schema name (at_ source "value")
  else if is_str (at_ source "kind") "run_clock" then sample ← sample_clock source; admit_member schema name sample
  else Ok tt.
Fixpoint typed_all (inputs : list (string * Value)) (schema : Value) : result unit :=
  match inputs with [] => Ok tt | (name, source) :: inputs => _ ← typed name source schema; typed_all inputs schema end.

Definition admitted_step (raw : Value) (contracts : Contracts) (earlier : list string) : result Step.Step :=
  '(step_id, assistant_id, action, pin, inputs) ← step_shape raw earlier;
  contract ← ok_or "plan-pin-drift"
               (found ← contract contracts assistant_id action; if ActionContract.pin found =s pin then Some found else None);
  _ ← refuse (negb (Nat.eqb (length (ActionContract.input_files contract)) 0)) "plan-file-input";
  let schema := ActionContract.input_schema contract in
  let properties := members (at_ schema "properties") in
  let required := elements (at_ schema "required") in
  _ ← refuse (negb (forallb (fun kv => names properties (fst kv)) inputs)
              || negb (forallb (fun member => existsb (fun kv => is_str member (fst kv)) inputs) required)) "plan-input-mismatch";
  supplied ← each_of (fun kv : string * Value => value ← supplied_value (snd kv); Ok (fst kv, value)) inputs;
  secret ← step_secret_literal schema supplied;
  _ ← refuse secret "plan-secret-literal";
  _ ← typed_all inputs schema;
  Ok (Step.mk step_id assistant_id action pin inputs (ActionContract.output_schema contract) schema).
Fixpoint admitted_steps (raw_steps : list Value) (contracts : Contracts) (steps : list Step.Step) : result (list Step.Step) :=
  match raw_steps with
  | [] => Ok steps
  | raw :: raw_steps =>
      step ← admitted_step raw contracts (map Step.step_id steps);
      admitted_steps raw_steps contracts (steps ++ [step])
  end.
Definition admit_plan (document : Value) (contracts : Contracts) : result Plan.Plan :=
  '(timezone, raw_steps, output, encoded) ← document_parts document;
  steps ← admitted_steps raw_steps contracts [];
  _ ← check_output output (map Step.step_id steps);
  Ok (Plan.mk timezone steps ("sha256:" +:+ sha256_hex encoded) output).
End Admission.

Section Grants.
  Context {PF : Platform} {VO : Vocabulary} {T : CaseTables} {PT : Patterns} {SC : Schemas}.

(** The positions of a value, each with the subschemas that apply to it and the name
    it is under. *)
Inductive within (root : Value) : Sub -> string -> Value -> Sub -> string -> Value -> Prop :=
  | within_here sub name v : within root sub name v sub name v
  | within_member sub name ms candidates key item member sub' name' v' :
      applicable root sub 0 (HeldValue (VObject ms)) = Ok candidates -> In (key, item) ms -> member_schemas candidates key = Ok member ->
      within root member key item sub' name' v' -> within root sub name (VObject ms) sub' name' v'
  | within_item sub name items candidates index item sub' name' v' :
      applicable root sub 0 (HeldValue (VArray items)) = Ok candidates -> items !! index = Some item ->
      within root (item_schemas candidates index) name item sub' name' v' -> within root sub name (VArray items) sub' name' v'.
(** A position the schema does not reserve for a secret. *)
Definition unreserved (root : Value) (sub : Sub) (name : string) (v : Value) : Prop :=
  exists candidates, applicable root sub 0 (HeldValue v) = Ok candidates /\ secret_position root name candidates = false.

Lemma literal_unreserved root sub name v sub' name' v' : within root sub name v sub' name' v' -> forall depth,
  secret_literal_at root name v sub depth = Ok false -> unreserved root sub' name' v'.
Proof.
  induction 1 as [sub name v|sub name ms candidates key item member sub' name' v' Ha Hin Hm _ IH|sub name items candidates index item sub' name' v' Ha Hi _ IH];
    intros depth H.
  - destruct v; cbn [secret_literal_at] in H; (destruct (MAX_SECRET_DEPTH <? depth)%nat; [done|]); apply result_bind_Ok in H as (candidates & Ha & H);
      (destruct (secret_position root name candidates) eqn:Es; [done|]); by exists candidates.
  - cbn [secret_literal_at] in H. destruct (MAX_SECRET_DEPTH <? depth)%nat; [done|]. rewrite Ha in H. cbn [mbind result_bind] in H.
    destruct (secret_position root name candidates); [done|]. clear Ha. induction ms as [|[k i] ms IHms]; [done|].
    apply result_bind_Ok in H as (member' & Hm' & H). apply result_bind_Ok in H as (secret & Hs & H). destruct secret; [done|].
    destruct Hin as [[= -> ->]|Hin]; [|exact (IHms Hin H)]. rewrite Hm in Hm'. injection Hm' as <-. exact (IH _ Hs).
  - cbn [secret_literal_at] in H. destruct (MAX_SECRET_DEPTH <? depth)%nat; [done|]. rewrite Ha in H. cbn [mbind result_bind] in H.
    destruct (secret_position root name candidates); [done|]. clear Ha. change index with (0 + index)%nat in IH. revert index Hi IH H. generalize 0%nat.
    induction items as [|i items IHi]; intros from index Hi IH H; [done|].
    apply result_bind_Ok in H as (secret & Hs & H). destruct secret; [done|].
    destruct index as [|index]; [injection Hi as <-; rewrite Nat.add_0_r in IH; exact (IH _ Hs)|].
    apply (IHi (S from) index Hi); [|exact H]. intros d Hd. apply (IH d). by rewrite Nat.add_succ_r.
Qed.

(** What is granted of a step. *)
Record granted (contracts : Contracts) (step : Step.Step) : Prop := {
  granted_pin : exists found, contract contracts (Step.assistant_id step) (Step.action step) = Some found
    /\ ActionContract.pin found = Step.pin step /\ ActionContract.input_files found = []
    /\ Step.input_schema step = ActionContract.input_schema found /\ Step.output_schema step = ActionContract.output_schema found;
  granted_names : forall name source, In (name, source) (Step.inputs step) -> is_Some (lookup_member (members (at_ (Step.input_schema step) "properties")) name);
  granted_required : forall name, In (VString name) (elements (at_ (Step.input_schema step) "required")) -> In name (map fst (Step.inputs step));
  granted_typed : forall name source, In (name, source) (Step.inputs step) ->
    (is_str (at_ source "kind") "literal" = true -> validate_payload (member_schema (Step.input_schema step) name) (VObject [(name, at_ source "value")]) = None)
    /\ (is_str (at_ source "kind") "run_clock" = true -> exists sample, sample_clock source = Ok sample
          /\ validate_payload (member_schema (Step.input_schema step) name) (VObject [(name, sample)]) = None);
  granted_unreserved : exists supplied candidates,
    Forall2 (fun kv written => fst kv = fst written /\ supplied_value (snd kv) = Ok (snd written)) (Step.inputs step) supplied
    /\ applicable (Step.input_schema step) (SubNode (Step.input_schema step)) 0 (HeldSupplied supplied) = Ok candidates
    /\ secret_position (Step.input_schema step) "" candidates = false
    /\ forall name v, In (name, Some v) supplied -> exists member, member_schemas candidates name = Ok member
         /\ forall sub' name' v', within (Step.input_schema step) member name v sub' name' v' -> unreserved (Step.input_schema step) sub' name' v'
}.

Lemma each_of_all {A B} (f : A -> result B) l bs : each_of f l = Ok bs -> Forall2 (fun a b => f a = Ok b) l bs.
Proof.
  revert bs. induction l as [|a l IH]; intros bs H; cbn [each_of] in H; [by injection H as <-|].
  apply result_bind_Ok in H as (b & Hb & H). apply result_bind_Ok in H as (more & Hm & [= <-]). constructor; [done|]. by apply IH.
Qed.
Lemma secret_members_none schema candidates supplied name v : secret_members schema candidates supplied = Ok false -> In (name, Some v) supplied ->
  exists member, member_schemas candidates name = Ok member /\ secret_literal_at schema name v member 1 = Ok false.
Proof.
  induction supplied as [|[key item] supplied IH]; [done|]. cbn [secret_members]. intros H Hin.
  apply result_bind_Ok in H as (member & Hm & H). apply result_bind_Ok in H as (secret & Hs & H). destruct secret; [done|].
  destruct Hin as [[= -> ->]|Hin]; [eauto|by apply IH].
Qed.
Lemma typed_all_each inputs schema name source : typed_all inputs schema = Ok tt -> In (name, source) inputs -> typed name source schema = Ok tt.
Proof.
  induction inputs as [|[n s] inputs IH]; [done|]. cbn [typed_all]. intros H Hin. apply result_bind_Ok in H as ([] & Ht & H).
  destruct Hin as [[= -> ->]|Hin]; [done|by apply IH].
Qed.
Lemma admit_member_valid schema name v : admit_member schema name v = Ok tt -> validate_payload (member_schema schema name) (VObject [(name, v)]) = None.
Proof. unfold admit_member. by destruct (validate_payload _ _). Qed.
Lemma names_found {A} (ms : list (string * A)) key : names ms key = true -> exists v, option_map snd (List.find (fun kv => fst kv =s key) ms) = Some v.
Proof.
  unfold names. intros (kv & Hin & Hk)%existsb_exists. destruct (List.find _ ms) as [kv'|] eqn:E; [cbn; eauto|].
  pose proof (find_none _ _ E kv Hin) as Hn. cbv beta in Hn. congruence.
Qed.

Lemma admitted_step_granted raw contracts earlier step : admitted_step raw contracts earlier = Ok step ->
  granted contracts step /\ step_shape raw earlier = Ok (Step.step_id step, Step.assistant_id step, Step.action step, Step.pin step, Step.inputs step).
Proof.
  unfold admitted_step. intros H. apply result_bind_Ok in H as ([[[[id assistant] action] pin] inputs] & Hshape & H).
  apply result_bind_Ok in H as (found & Hc & H). destruct (contract contracts assistant action) as [found'|] eqn:Ec; [|done].
  cbn [mbind option_bind] in Hc. destruct (seqb_spec (ActionContract.pin found') pin) as [Hp|]; [|done]. injection Hc as ->.
  apply result_bind_Ok in H as ([] & Hfiles%refuse_Ok & H). apply negb_false_iff, Nat.eqb_eq in Hfiles. apply nil_length_inv in Hfiles.
  apply result_bind_Ok in H as ([] & Hmatch%refuse_Ok & H). apply orb_false_iff in Hmatch as [Hnames%negb_false_iff Hrequired%negb_false_iff].
  apply result_bind_Ok in H as (supplied & Hsup & H). apply result_bind_Ok in H as (secret & Hsec & H).
  apply result_bind_Ok in H as ([] & Hs%refuse_Ok & H). subst secret. apply result_bind_Ok in H as ([] & Ht & [= <-]).
  split; [|done]. rewrite forallb_forall in Hnames, Hrequired. constructor; cbn [Step.assistant_id Step.action Step.pin Step.inputs Step.input_schema Step.output_schema].
  - exists found. by split_and!.
  - intros name source Hin. apply names_found. exact (Hnames _ Hin).
  - intros name Hin. apply Hrequired, existsb_exists in Hin as ([n source] & Hin & Hn%is_str_true). injection Hn as ->.
    apply in_map_iff. by exists (n, source).
  - intros name source Hin. pose proof (typed_all_each _ _ _ _ Ht Hin) as H. unfold typed in H. split; intros E; rewrite E in H.
    + by apply admit_member_valid.
    + destruct (is_str (at_ source "kind") "literal") eqn:El; [apply is_str_true in El, E; congruence|].
      apply result_bind_Ok in H as (sample & Hsample & H). exists sample. split; [done|]. by apply admit_member_valid.
  - unfold step_secret_literal in Hsec. apply result_bind_Ok in Hsec as (candidates & Ha & Hsec).
    destruct (secret_position _ "" candidates) eqn:Es; [done|]. exists supplied, candidates. split_and!; [|done..|].
    + apply each_of_all in Hsup. eapply Forall2_impl; [exact Hsup|]. intros kv written H. apply result_bind_Ok in H as (v & Hv & [= <-]). done.
    + intros name v Hin. destruct (secret_members_none _ _ _ _ _ Hsec Hin) as (member & Hm & Hl). exists member. split; [done|].
      intros sub' name' v' Hw. by eapply literal_unreserved.
Qed.
Lemma admitted_steps_granted raws contracts steps all : admitted_steps raws contracts steps = Ok all ->
  List.Forall (granted contracts) steps ->
  List.Forall (granted contracts) all /\ step_ids raws (map Step.step_id steps) = Ok (map Step.step_id all).
Proof.
  revert steps. induction raws as [|raw raws IH]; intros steps H Hg; cbn [admitted_steps step_ids] in *; [by injection H as <-|].
  apply result_bind_Ok in H as (step & Hstep & H). apply admitted_step_granted in Hstep as [Hgs Hshape]. rewrite Hshape. cbn [mbind result_bind shape_id].
  destruct (IH _ H) as [Hall Hids]; [apply List.Forall_app; split; [done|by constructor; [|constructor]]|]. split; [done|]. by rewrite map_app in Hids.
Qed.

(** C20. Admission grants exactly what the contracts allow: an admitted plan is well
    formed and carries its document's digest; every step names an Action whose current
    contract has the step's pin and takes no files; it binds only declared members and
    all required ones; every literal and clock sample it writes satisfies the member's
    schema; and no position inside a value the plan writes, however deep, is one the
    schema reserves for a secret. *)
Theorem admit_granted document contracts plan : admit_plan document contracts = Ok plan ->
  well_formed document = true /\ Plan.digest plan = digest document /\ List.Forall (granted contracts) (Plan.steps plan).
Proof.
  unfold admit_plan. intros H. apply result_bind_Ok in H as ([[[zone raws] output] encoded] & Hparts & H).
  apply result_bind_Ok in H as (steps & Hsteps & H). apply result_bind_Ok in H as ([] & Ho & [= <-]). cbn [Plan.digest Plan.steps].
  apply admitted_steps_granted in Hsteps as [Hg Hids]; [|constructor]. split_and!; [| |done].
  - unfold well_formed. rewrite Hparts. cbn [map] in Hids. rewrite Hids. by rewrite Ho.
  - unfold digest. unfold document_parts in Hparts. by repeat case_match; inv_ok; simplify_eq.
Qed.
End Grants.

(** * Plans admitted, results kept and shown: concrete inputs

    The theorems of [TraceSafety] and [OutputSafety] at one result of an Action, and
    that of [Admission] at one plan, under matchers and tables that compute. *)

Module ResultSample.
Definition cases : CaseTables := {|
  LOWER := fun c => if (0x41 <=? c) && (c <=? 0x5a) then Some (String (byte_of (c + 32)) "") else None;
  CASED := fun _ => false;
  CASE_IGNORABLE := fun _ => false
|}.
(** Patterns that name a member exactly. *)
Definition exact_patterns : Patterns := {|
  Budget := nat;
  full_budget := 100%nat;
  pattern_matches := fun pattern key budget => match budget with O => (O, None) | S n => (n, Some (pattern =s key)) end
|}.
Definition typed_as (kind : string) : Value := object [("type", text kind)]%string.
Definition schema : Value :=
  object [("type", text "object"); ("properties", object [("name", typed_as "string"); ("password", typed_as "string");
          ("items", object [("type", text "array"); ("items", typed_as "number")])])]%string.
Definition result_ : Value :=
  object [("name", text "Ada"); ("password", text "hunter2"); ("items", VArray [int 4; int (-7)]); ("Bearer abc", text "x"); ("note", text "uses hunter2 here")]%string.
(** The same without the credential-shaped key, for which a recording keeps nothing of the object. *)
Definition recorded : Value :=
  object [("name", text "Ada"); ("password", text "hunter2"); ("items", VArray [int 4; int (-7)]); ("note", text "uses hunter2 here")]%string.
Definition protected : list string := ["hunter2"%string].
Definition kept : Kept.Kept :=
  Eval vm_compute in match keep (VO := plain_vocabulary) (T := cases) (PT := exact_patterns) recorded schema protected with Ok k => k | Err _ => whole_kept VNull end.
Definition safe : Value :=
  Eval vm_compute in default VNull (output_safe (VO := plain_vocabulary) (T := cases) (PT := exact_patterns) result_ schema protected).
(** A validator that refuses a member without the type its schema names. *)
Definition type_of (v : Value) : string :=
  match v with VString _ => "string" | VNumber _ => "number" | VArray _ => "array" | VObject _ => "object" | VBool _ => "boolean" | VNull => "null" end.
Definition typed_members : Schemas := fun schema payload =>
  if forallb (fun kv => is_str (at_ (at_ (at_ schema "properties") (fst kv)) "type") (type_of (snd kv))) (members payload) then None else Some Invalid.
Definition action_schema (name kind : string) : Value :=
  object [("type", text "object"); ("properties", object [(name, typed_as kind)]); ("required", VArray [text name])]%string.
Definition contracts : Contracts :=
  [(("stock", "stock.lookup"), contract_new pin_a (action_schema "sku" "string"));
   (("stock", "stock.order"), contract_new pin_a (action_schema "count" "number"))]%string.
Definition plan : Plan.Plan :=
  Eval vm_compute in match admit_plan (PF := utc_platform) (VO := plain_vocabulary) (T := cases) (PT := exact_patterns) (SC := typed_members) sample_plan contracts
                     with Ok plan => plan | Err _ => Plan.mk "" [] "" VNull end.
End ResultSample.

(** The password and the text that holds the password are
    withheld; the name stays available. *)
Lemma keep_exact_witness :
  select (Kept.value ResultSample.kept) (VString "/name") = Ok (VString "Ada")
  /\ available ResultSample.kept "/password" = false /\ available ResultSample.kept "/note" = false.
Proof.
  pose proof (keep_exact (VO := plain_vocabulary) (T := ResultSample.cases) (PT := ResultSample.exact_patterns) ResultSample.recorded ResultSample.schema
                ResultSample.protected ResultSample.kept ltac:(vm_compute; reflexivity)) as [_ H].
  split; [|by vm_compute]. rewrite (H "/name"%string ltac:(vm_compute; reflexivity)). by vm_compute.
Defined.
Lemma safe_form_safe_witness : shown_text (VO := plain_vocabulary) (not_empty ResultSample.protected) ResultSample.result_ "Ada".
Proof.
  apply (safe_form_safe (VO := plain_vocabulary) (T := ResultSample.cases) (PT := ResultSample.exact_patterns) ResultSample.result_ ResultSample.schema
           ResultSample.protected ResultSample.safe "Ada"%string).
  - vm_compute. reflexivity.
  - vm_compute. tauto.
Defined.
Lemma shown_admitted_witness :
  canonical_output (output_shown (PF := utc_platform) (int 2) ResultSample.safe) = Some (output_shown (PF := utc_platform) (int 2) ResultSample.safe).
Proof.
  apply (shown_admitted (PF := utc_platform) (VO := plain_vocabulary) (T := ResultSample.cases) (PT := ResultSample.exact_patterns)
           ResultSample.result_ ResultSample.schema ResultSample.protected ResultSample.safe 2).
  - vm_compute. reflexivity.
  - cbn. tauto.
  - vm_compute. reflexivity.
  - vm_compute. reflexivity.
  - unfold MAX_ROUTINE_STEPS. lia.
Defined.
Lemma admit_granted_witness :
  length (Plan.steps ResultSample.plan) = 2%nat
  /\ List.Forall (granted (PF := utc_platform) (T := ResultSample.cases) (PT := ResultSample.exact_patterns) (SC := ResultSample.typed_members) ResultSample.contracts)
       (Plan.steps ResultSample.plan).
Proof.
  split; [reflexivity|].
  refine (proj2 (proj2 (admit_granted (PF := utc_platform) (VO := plain_vocabulary) (T := ResultSample.cases) (PT := ResultSample.exact_patterns)
                          (SC := ResultSample.typed_members) sample_plan ResultSample.contracts ResultSample.plan _))).
  vm_compute. reflexivity.
Defined.
