(* ===== verification/Disk.v ===== *)
(** * Team-held files

    [storage/src/custody.rs], [storage/src/durable.rs] and the private files of
    [storage/src/private.rs]: the custody a file or directory must be in, the one
    strict way to read such a file, and its durable replacement.  The file system
    is a map from paths to nodes; every system call may fail, when the oracle says
    so, before it has any effect. *)

From stdpp Require Import base tactics list strings gmap.
From Stdlib Require Import ZArith Lia Ascii.
From S2P Require Import Prelude Text Json Platform.

#[local] Open Scope Z_scope.

(** ** Custody *)
Inductive Mode : Type := AnyMode | Exact (mode : Z) | OwnerOnly.
Inductive Kind : Type := KFile | KDirectory | KOther.
#[global] Instance Kind_eq_dec : EqDecision Kind.
Proof. solve_decision. Defined.
Module Facts.
Record Facts : Type := mk { kind : Kind; links : Z; uid : Z; gid : Z; permissions : Z; size : Z }.
End Facts.
(** [trailing_zeros() >= 6]: the low six bits are clear. *)
Definition mode_holds (m : Mode) (permissions : Z) : bool :=
  match m with
  | AnyMode => true
  | Exact mode => permissions =? mode
  | OwnerOnly => Z.land permissions 0x3f =? 0
  end.
Module FileCustody.
Record FileCustody : Type := mk { uid : option Z; gid : option Z; mode : Mode; size : option (Z * Z) }.
End FileCustody.
Module DirectoryCustody.
Record DirectoryCustody : Type := mk { uid : option Z; gid : option Z; mode : Mode }.
End DirectoryCustody.
Definition same_id (wanted : option Z) (id : Z) : bool := match wanted with Some wanted => id =? wanted | None => true end.
(** Owner-only: [0600] is [0x180], [0700] is [0x1c0]. *)
Definition file_private (uid maximum : Z) : FileCustody.FileCustody :=
  FileCustody.mk (Some uid) None (Exact 0x180) (Some (0, maximum)).
Definition file_holds (c : FileCustody.FileCustody) (f : Facts.Facts) : bool :=
  bool_decide (Facts.kind f = KFile) && (Facts.links f =? 1) && same_id (FileCustody.uid c) (Facts.uid f)
  && same_id (FileCustody.gid c) (Facts.gid f) && mode_holds (FileCustody.mode c) (Facts.permissions f)
  && match FileCustody.size c with
     | Some (minimum, maximum) => (minimum <=? Facts.size f) && (Facts.size f <=? maximum)
     | None => true
     end.
Definition directory_private (uid : Z) : DirectoryCustody.DirectoryCustody := DirectoryCustody.mk (Some uid) None (Exact 0x1c0).
Definition directory_holds (c : DirectoryCustody.DirectoryCustody) (f : Facts.Facts) : bool :=
  bool_decide (Facts.kind f = KDirectory) && same_id (DirectoryCustody.uid c) (Facts.uid f)
  && same_id (DirectoryCustody.gid c) (Facts.gid f) && mode_holds (DirectoryCustody.mode c) (Facts.permissions f).

Inductive CustodyError : Type := CustodyUnavailable | CustodyUnsafe | CustodyTooLarge | CustodyChanged.
Inductive DirectoryError : Type := DirectoryUnavailable | DirectoryUnsafe.
Inductive StateError : Type :=
| StateUnavailable | StateUnsafe | StateTooLarge | StateNotPersisted | StateInvalidKey | StateLayout | StateMalformed
| StateRecordLimit | StateUnauthentic.
#[global] Instance StateError_eq_dec : EqDecision StateError.
Proof. solve_decision. Defined.
(** [From<CustodyError>] and [From<DirectoryError>]. *)
Definition custody_state (e : CustodyError) : StateError :=
  match e with
  | CustodyUnavailable | CustodyChanged => StateUnavailable
  | CustodyUnsafe => StateUnsafe
  | CustodyTooLarge => StateTooLarge
  end.
Definition directory_state (e : DirectoryError) : StateError :=
  match e with DirectoryUnavailable => StateUnavailable | DirectoryUnsafe => StateUnsafe end.

(** ** The file system *)
Abbreviation Path := (list string).
Module Node.
Record Node : Type := mk {
  kind : Kind; is_link : bool; links : Z; uid : Z; gid : Z; permissions : Z; content : string;
  (** The device, inode and times of this version of the file. *)
  version : Z
}.
End Node.
Definition facts_of (n : Node.Node) : Facts.Facts :=
  Facts.mk (Node.kind n) (Node.links n) (Node.uid n) (Node.gid n) (Node.permissions n) (slen (Node.content n)).
(** [FileIdentity]: the version and its size. *)
Module FileIdentity.
Record FileIdentity : Type := mk { version : Z; size : Z }.
End FileIdentity.
#[global] Instance FileIdentity_eq_dec : EqDecision FileIdentity.FileIdentity.
Proof. solve_decision. Defined.
Definition identity_of (n : Node.Node) : FileIdentity.FileIdentity := FileIdentity.mk (Node.version n) (slen (Node.content n)).
Inductive Snapshot : Type :=
| Absent
| Unchanged (identity : FileIdentity.FileIdentity)
| SnapshotRead (identity : FileIdentity.FileIdentity) (content : string).

(** The operating system besides its files: which calls fail, and its entropy. *)
Class System (F : Type) : Type := {
  system_entropy :: Entropy F;
  call_fails : F -> F * bool
}.
Module Disk.
Record Disk {F : Type} : Type := mk { nodes : gmap Path Node.Node; euid : Z; egid : Z; next_version : Z; system : F }.
Arguments Disk : clear implicits.
Arguments mk {F}.
#[global] Instance eta_disk {F} : Eta (Disk F) := fun d => mk (nodes d) (euid d) (egid d) (next_version d) (system d).
End Disk.
#[global] Instance upd_disk_nodes {F} : Upd (@Disk.nodes F) := ltac:(solve_upd).
#[global] Instance upd_disk_version {F} : Upd (@Disk.next_version F) := ltac:(solve_upd).
#[global] Instance upd_disk_system {F} : Upd (@Disk.system F) := ltac:(solve_upd).

(** [path.parent()] and [path.file_name()]. *)
Definition parent_of (p : Path) : option Path := match rev p with [] => None | _ :: before => Some (rev before) end.
Definition name_of (p : Path) : option string := match rev p with [] => None | name :: _ => Some name end.

Section Disks.
  Context {F : Type} `{!System F}.
  Abbreviation Disk := (Disk.Disk F).

Definition io (A : Type) : Type := Disk -> Disk * A.
#[global] Instance io_ret : MRet io := fun A a d => (d, a).
#[global] Instance io_bind : MBind io := fun A B f m d => let '(d, a) := m d in f a d.
(** [Result] over the disk. *)
Definition try {Er A B} (m : io (Er + A)) (f : A -> io (Er + B)) : io (Er + B) :=
  r ← m; match r with inl e => mret (inl e) | inr a => f a end.
Definition reads {A} (f : Disk -> A) : io A := fun d => (d, f d).
(** A system call: refused by the system, or done. *)
Definition call {A} (m : io A) : io (unit + A) := fun d =>
  let '(system, fails) := call_fails (Disk.system d) in
  let d := d <| Disk.system := system |> in
  if fails : bool then (d, inl tt) else let '(d, a) := m d in (d, inr a).
(** A call whose own outcome may be a refusal. *)
Definition call_or {A} (m : io (unit + A)) : io (unit + A) := try (call m) (fun r => mret r).
Definition map_err {Er Er' A} (f : Er -> Er') (m : io (Er + A)) : io (Er' + A) :=
  r ← m; mret match r with inl e => inl (f e) | inr a => inr a end.

(** *** Reading *)
(** [rustix::fs::open] with [O_NOFOLLOW]. *)
Inductive Opened : Type := OpenAbsent | OpenLoop | OpenFailed | OpenFile (path : Path).
Definition open_file (p : Path) : io Opened :=
  r ← call (reads (fun d => Disk.nodes d !! p));
  mret match r with
       | inl _ => OpenFailed
       | inr None => OpenAbsent
       | inr (Some node) => if Node.is_link node then OpenLoop else OpenFile p
       end.
(** [file.metadata()] of an open file. *)
Definition metadata (p : Path) : io (unit + Node.Node) :=
  call_or (reads (fun d => match Disk.nodes d !! p with Some node => inr node | None => inl tt end)).
Definition read_bounded (p : Path) (maximum : Z) : io (CustodyError + string) :=
  try (map_err (fun _ => CustodyUnavailable) (metadata p)) (fun node =>
    mret (if maximum <? slen (Node.content node) then inl CustodyTooLarge else inr (Node.content node))).
(** A writer that changes the file while it is read is the oracle's too. *)
Definition changed_meanwhile : io bool := r ← call (mret tt); mret match r with inl _ => true | inr _ => false end.
Definition snapshot (opened : Opened) (custody : FileCustody.FileCustody) (maximum : Z) (previous : option FileIdentity.FileIdentity)
  : io (CustodyError + Snapshot) :=
  match opened with
  | OpenAbsent => mret (inr Absent)
  | OpenLoop => mret (inl CustodyUnsafe)
  | OpenFailed => mret (inl CustodyUnavailable)
  | OpenFile p =>
      try (map_err (fun _ => CustodyUnavailable) (metadata p)) (fun before =>
        if negb (file_holds custody (facts_of before)) then mret (inl CustodyUnsafe)
        else
          let identity := identity_of before in
          if bool_decide (previous = Some identity) then mret (inr (Unchanged identity))
          else
            try (read_bounded p maximum) (fun content =>
              try (map_err (fun _ => CustodyUnavailable) (metadata p)) (fun after =>
                changed ← changed_meanwhile;
                mret (if (changed : bool) || negb (bool_decide (identity_of after = identity))
                         || negb (slen content =? FileIdentity.size identity)
                      then inl CustodyChanged else inr (SnapshotRead identity content)))))
  end.
Definition read_if_changed (p : Path) (custody : FileCustody.FileCustody) (maximum : Z) (previous : option FileIdentity.FileIdentity)
  : io (CustodyError + Snapshot) :=
  opened ← open_file p; snapshot opened custody maximum previous.
Definition custody_read (p : Path) (custody : FileCustody.FileCustody) (maximum : Z) : io (CustodyError + option string) :=
  try (read_if_changed p custody maximum None) (fun found =>
    mret match found with
         | Absent => inr None
         | SnapshotRead _ content => inr (Some content)
         | Unchanged _ => inl CustodyChanged
         end).
Definition read_private (p : Path) (maximum : Z) : io (StateError + option string) :=
  uid ← reads Disk.euid; map_err custody_state (custody_read p (file_private uid maximum) maximum).
Definition read_private_if_changed (p : Path) (maximum : Z) (previous : option FileIdentity.FileIdentity) : io (StateError + Snapshot) :=
  uid ← reads Disk.euid; map_err custody_state (read_if_changed p (file_private uid maximum) maximum previous).

(** *** Writing *)
Definition put (p : Path) (node : Node.Node) : io unit := fun d => (d <| Disk.nodes := <[p := node]> (Disk.nodes d) |>, tt).
Definition drop (p : Path) : io unit := fun d => (d <| Disk.nodes := delete p (Disk.nodes d) |>, tt).
Definition fresh_version : io Z := fun d => (d <| Disk.next_version := Disk.next_version d + 1 |>, Disk.next_version d).
(** [custody::open_directory]. *)
Definition open_directory (p : Path) : io (unit + unit) :=
  call_or (reads (fun d => match Disk.nodes d !! p with
                           | Some node => if bool_decide (Node.kind node = KDirectory) && negb (Node.is_link node) then inr tt else inl tt
                           | None => inl tt
                           end)).
(** [DirBuilder::recursive(true).mode(0o700).create]: the missing directories, from
    the outermost; an existing directory is left as it is. *)
Definition make_directory (p : Path) : io (unit + unit) :=
  found ← reads (fun d => Disk.nodes d !! p);
  match found with
  | Some node => mret (if bool_decide (Node.kind node = KDirectory) then inr tt else inl tt)
  | None =>
      uid ← reads Disk.euid; gid ← reads Disk.egid; version ← fresh_version;
      call (put p (Node.mk KDirectory false 1 uid gid 0x1c0 "" version))
  end.
Fixpoint make_directories (before : Path) (rest : list string) : io (unit + unit) :=
  match rest with
  | [] => mret (inr tt)
  | name :: rest => try (make_directory (before ++ [name])) (fun _ => make_directories (before ++ [name]) rest)
  end.
Definition create_private_directory (p : Path) : io (unit + unit) := make_directories [] p.
Definition ensure_directory (p : Path) (custody : DirectoryCustody.DirectoryCustody) : io (DirectoryError + unit) :=
  try (map_err (fun _ => DirectoryUnavailable) (try (create_private_directory p) (fun _ => metadata p))) (fun node =>
    mret (if directory_holds custody (facts_of node) then inr tt else inl DirectoryUnsafe)).

(** [write_temporary]: an exclusively created file that receives its group and mode
    before any byte. *)
Definition amend (p : Path) (f : Node.Node -> Node.Node) : io unit := fun d =>
  (d <| Disk.nodes := match Disk.nodes d !! p with Some node => <[p := f node]> (Disk.nodes d) | None => Disk.nodes d end |>, tt).
Definition write_temporary (p : Path) (payload : string) (mode : Z) (group : option Z) : io (unit + unit) :=
  try (call_or (uid ← reads Disk.euid; gid ← reads Disk.egid; found ← reads (fun d => Disk.nodes d !! p); version ← fresh_version;
                match found with
                | Some _ => mret (inl tt)
                | None => _ ← put p (Node.mk KFile false 1 uid gid mode "" version); mret (inr tt)
                end)) (fun _ =>
  try match group with
      | Some gid => call (amend p (fun n => Node.mk (Node.kind n) (Node.is_link n) (Node.links n) (Node.uid n) gid (Node.permissions n) (Node.content n) (Node.version n)))
      | None => mret (inr tt)
      end (fun _ =>
  try (call (amend p (fun n => Node.mk (Node.kind n) (Node.is_link n) (Node.links n) (Node.uid n) (Node.gid n) mode (Node.content n) (Node.version n)))) (fun _ =>
  try (call (version ← fresh_version; amend p (fun n =>
         Node.mk (Node.kind n) (Node.is_link n) (Node.links n) (Node.uid n) (Node.gid n) (Node.permissions n) payload version))) (fun _ =>
  call (mret tt))))).
(** [renameat]. *)
Definition rename (from to : Path) : io (unit + unit) :=
  call_or (found ← reads (fun d => Disk.nodes d !! from);
           target ← reads (fun d => Disk.nodes d !! to);
           match found, target with
           | None, _ => mret (inl tt)
           | Some _, Some (Node.mk KDirectory _ _ _ _ _ _ _) => mret (inl tt)
           | Some node, _ => _ ← drop from; _ ← put to node; mret (inr tt)
           end).
Definition temporary_name (name suffix : string) : string := "." +:+ name +:+ "." +:+ suffix +:+ ".tmp".
Definition os_token (length : nat) : io (unit + string) := fun d =>
  let '(system, token) := token_hex length (Disk.system d) in
  (d <| Disk.system := system |>, match token with Some token => inr token | None => inl tt end).
Definition replace_in_directory (directory : Path) (name payload : string) (mode : Z) (group : option Z) : io (unit + unit) :=
  try (os_token 8) (fun suffix =>
    let temporary := directory ++ [temporary_name name suffix] in
    written ← try (write_temporary temporary payload mode group) (fun _ =>
                try (rename temporary (directory ++ [name])) (fun _ => call (mret tt)));
    match written with
    | inl e => _ ← call (drop temporary); mret (inl e)
    | inr done => mret (inr done)
    end).
Definition durable_replace (p : Path) (payload : string) (mode : Z) (group : option Z) : io (unit + unit) :=
  match parent_of p, name_of p with
  | Some parent, Some name => try (open_directory parent) (fun _ => replace_in_directory parent name payload mode group)
  | _, _ => mret (inl tt)
  end.
Definition write_private (p : Path) (payload : string) : io (StateError + unit) :=
  match parent_of p with
  | None => mret (inl StateUnavailable)
  | Some parent =>
      uid ← reads Disk.euid;
      try (map_err directory_state (ensure_directory parent (directory_private uid))) (fun _ =>
        map_err (fun _ => StateNotPersisted) (durable_replace p payload 0x180 None))
  end.
(** [std::fs::remove_file], an absent file being removed already. *)
Definition remove_file (p : Path) : io (unit + unit) :=
  call_or (found ← reads (fun d => Disk.nodes d !! p);
           match found with
           | None => mret (inr tt)
           | Some (Node.mk KDirectory _ _ _ _ _ _ _) => mret (inl tt)
           | Some _ => _ ← drop p; mret (inr tt)
           end).
End Disks.
