(* ===== verification/DiskSafety.v ===== *)
(** * What reading and writing private files does

    The theory of [Disk]: a read shows the file that is there, and a write of one
    path leaves every other file alone; a write that succeeded left exactly its
    payload, and one that reported a failure left the earlier file or the payload,
    never a part of either. *)

From stdpp Require Import base tactics list strings gmap.
From Stdlib Require Import ZArith Lia Ascii.
From S2P Require Import Prelude Text Json Platform Disk.

#[local] Open Scope Z_scope.

(** A temporary of a replacement: its name begins with a dot. *)
Definition temporary (p : Path) : bool := match name_of p with Some (String "." _) => true | _ => false end.
Lemma name_of_last p name : name_of (p ++ [name]) = Some name.
Proof. unfold name_of. by rewrite rev_app_distr. Qed.
Lemma parent_of_last p name : parent_of (p ++ [name]) = Some p.
Proof. unfold parent_of. rewrite rev_app_distr. cbn. by rewrite rev_involutive. Qed.
Lemma temporary_temporary directory name suffix : temporary (directory ++ [temporary_name name suffix]) = true.
Proof. unfold temporary. by rewrite name_of_last. Qed.
Lemma path_parts p parent name : parent_of p = Some parent -> name_of p = Some name -> p = parent ++ [name].
Proof.
  unfold parent_of, name_of. destruct (rev p) as [|x before] eqn:E; [done|]. intros [= <-] [= ->].
  by rewrite <- (rev_involutive p), E.
Qed.

Create HintDb quiet.
Section Safety.
  Context {F : Type} `{!System F}.
  Abbreviation Disk := (Disk.Disk F).

(** The regular file at a path. *)
Definition file_in (nodes : gmap Path Node.Node) (p : Path) : option string :=
  match nodes !! p with
  | Some n => if bool_decide (Node.kind n = KFile) && negb (Node.is_link n) then Some (Node.content n) else None
  | None => None
  end.
Definition file_at (d : Disk) (p : Path) : option string := file_in (Disk.nodes d) p.

(** ** Quiet operations: every file that is not a temporary stays *)
Definition quiet (d d' : Disk) : Prop :=
  Disk.euid d' = Disk.euid d /\ forall p, temporary p = false -> file_at d' p = file_at d p.
#[global] Instance quiet_refl : Reflexive quiet.
Proof. by intros d. Qed.
#[global] Instance quiet_trans : Transitive quiet.
Proof. intros d d' d'' [E H] [E' H']. split; [congruence|]. intros p Hp. by rewrite H', H. Qed.
Definition quietly {A} (m : io A) : Prop := forall d, quiet d (fst (m d)).

Lemma quietly_ret {A} (a : A) : quietly (mret a).
Proof. by intros d. Qed.
Lemma quietly_reads {A} (f : Disk -> A) : quietly (reads f).
Proof. by intros d. Qed.
Lemma quietly_bind {A B} (m : io A) (f : A -> io B) : quietly m -> (forall a, quietly (f a)) -> quietly (m ≫= f).
Proof.
  intros Hm Hf d. unfold mbind, io_bind. specialize (Hm d). destruct (m d) as [d1 a]. cbn [fst] in Hm. by etransitivity; [|apply Hf].
Qed.
Lemma quietly_try {Er A B} (m : io (Er + A)) (f : A -> io (Er + B)) : quietly m -> (forall a, quietly (f a)) -> quietly (try m f).
Proof. intros Hm Hf. apply quietly_bind; [done|]. intros [e|a]; [apply quietly_ret|apply Hf]. Qed.
Lemma quietly_call {A} (m : io A) : quietly m -> quietly (call m).
Proof.
  intros Hm d. unfold call. destruct (call_fails _) as [s fails]. destruct fails; [done|].
  specialize (Hm (d <| Disk.system := s |>)). destruct (m _) as [d1 a]. exact Hm.
Qed.
Lemma quietly_call_or {A} (m : io (unit + A)) : quietly m -> quietly (call_or m).
Proof. intros Hm. apply quietly_try; [by apply quietly_call|]. intros a. apply quietly_ret. Qed.
Lemma quietly_map_err {Er Er' A} (f : Er -> Er') (m : io (Er + A)) : quietly m -> quietly (map_err f m).
Proof. intros Hm. apply quietly_bind; [done|]. intros a. apply quietly_ret. Qed.
Lemma quietly_fresh : quietly fresh_version.
Proof. by intros d. Qed.
Lemma quietly_token n : quietly (os_token n).
Proof. intros d. unfold os_token. by destruct (token_hex _ _). Qed.
Lemma nodes_put p n (d : Disk) : Disk.nodes (fst (put p n d)) = <[p := n]> (Disk.nodes d).
Proof. done. Qed.
Lemma nodes_drop p (d : Disk) : Disk.nodes (fst (drop p d)) = delete p (Disk.nodes d).
Proof. done. Qed.
Lemma quietly_put p n : temporary p = true -> quietly (put p n).
Proof.
  intros Ht d. split; [done|]. intros q Hq. unfold file_at, file_in. rewrite nodes_put, lookup_insert_ne; [done|]. intros ->. congruence.
Qed.
Lemma quietly_drop p : temporary p = true -> quietly (drop p).
Proof.
  intros Ht d. split; [done|]. intros q Hq. unfold file_at, file_in. rewrite nodes_drop, lookup_delete_ne; [done|]. intros ->. congruence.
Qed.
Lemma quietly_amend p f : temporary p = true -> quietly (amend p f).
Proof.
  intros Ht d. split; [done|]. intros q Hq. unfold amend. destruct (Disk.nodes d !! p) as [n|] eqn:E; [|done].
  by apply (quietly_put p (f n) Ht d).
Qed.
Hint Resolve quietly_ret quietly_reads quietly_bind quietly_try quietly_call quietly_call_or quietly_map_err quietly_fresh
  quietly_token quietly_put quietly_drop quietly_amend : quiet.

Lemma quietly_metadata p : quietly (metadata p).
Proof. unfold metadata. auto with quiet. Qed.
Lemma quietly_make p : quietly (make_directory p).
Proof.
  intros d. unfold make_directory, mbind, io_bind, reads. destruct (Disk.nodes d !! p) as [n|] eqn:E; [done|].
  unfold fresh_version, call. cbv beta iota. destruct (call_fails _) as [s fails]. destruct fails; [done|].
  split; [done|]. intros q Hq. unfold file_at, file_in. set (n := Node.mk _ _ _ _ _ _ _ _).
  match goal with |- match ?m !! q with _ => _ end = _ => change m with (<[p := n]> (Disk.nodes d)) end.
  destruct (decide (p = q)) as [->|Hne]; [|by rewrite lookup_insert_ne]. by rewrite lookup_insert_eq, E.
Qed.
Lemma quietly_makes before rest : quietly (make_directories before rest).
Proof.
  revert before. induction rest as [|name rest IH]; intros before; cbn [make_directories]; [apply quietly_ret|].
  apply quietly_try; [apply quietly_make|auto].
Qed.
Lemma quietly_open p : quietly (open_directory p).
Proof. unfold open_directory. auto with quiet. Qed.
Lemma quietly_ensure p c : quietly (ensure_directory p c).
Proof.
  unfold ensure_directory, create_private_directory. apply quietly_try; [|auto with quiet].
  apply quietly_map_err, quietly_try; [apply quietly_makes|]. intros _. apply quietly_metadata.
Qed.
Lemma quietly_temporary p payload mode group : temporary p = true -> quietly (write_temporary p payload mode group).
Proof.
  intros Ht. unfold write_temporary. apply quietly_try.
  { apply quietly_call_or. do 4 (apply quietly_bind; [auto with quiet|intros ?]). case_match; auto with quiet. }
  intros _. apply quietly_try; [case_match; auto with quiet|]. intros _. auto 10 with quiet.
Qed.

(** ** Replacing a file *)
Lemma run_try {Er A B} (m : io (Er + A)) (f : A -> io (Er + B)) d :
  try m f d = match m d return Disk * (Er + B) with (d1, inl e) => (d1, inl e) | (d1, inr a) => f a d1 end.
Proof. unfold try, mbind, io_bind. destruct (m d) as [d1 [e|a]]; done. Qed.
Lemma run_call {A} (m : io A) d : exists s, call m d = (d <| Disk.system := s |>, inl tt)
  \/ call m d = (let '(d', a) := m (d <| Disk.system := s |>) in (d', inr a)).
Proof. unfold call. destruct (call_fails _) as [s []]; exists s; auto. Qed.

Definition holds_payload (p : Path) (payload : string) (d : Disk) : Prop :=
  exists n, Disk.nodes d !! p = Some n /\ Node.kind n = KFile /\ Node.is_link n = false /\ Node.content n = payload.
Lemma holds_file p payload d : holds_payload p payload d -> file_at d p = Some payload.
Proof. intros (n & E & Hk & Hl & Hc). unfold file_at, file_in. rewrite E, Hk, Hl, Hc. by rewrite bool_decide_true. Qed.

(** The amendments of a temporary. *)
Definition plain_file (p : Path) (d : Disk) : Prop :=
  exists n, Disk.nodes d !! p = Some n /\ Node.kind n = KFile /\ Node.is_link n = false.
Lemma amend_plain p f d : plain_file p d -> (forall n, Node.kind (f n) = Node.kind n /\ Node.is_link (f n) = Node.is_link n) ->
  plain_file p (fst (amend p f d)) /\ exists n, Disk.nodes (fst (amend p f d)) !! p = Some (f n).
Proof.
  intros (n & E & Hk & Hl) Hf. destruct (Hf n) as [Hk' Hl'].
  assert (Disk.nodes (fst (amend p f d)) !! p = Some (f n)) as En.
  { unfold amend. rewrite E. exact (lookup_insert_eq (Disk.nodes d) p (f n)). }
  split; [|eauto]. exists (f n). split; [done|]. split; congruence.
Qed.
Lemma created_plain p mode d d' : call_or (uid ← reads Disk.euid; gid ← reads Disk.egid; found ← reads (fun d => Disk.nodes d !! p); version ← fresh_version;
    match found with
    | Some _ => mret (inl tt)
    | None => _ ← put p (Node.mk KFile false 1 uid gid mode "" version); mret (inr tt)
    end) d = (d', inr tt) -> plain_file p d'.
Proof.
  unfold call_or. rewrite run_try. match goal with |- context [call ?m d] => destruct (run_call m d) as (s & [-> | ->]); [done|] end.
  unfold mbind, io_bind, reads, fresh_version. change (Disk.nodes (d <| Disk.system := s |>)) with (Disk.nodes d).
  destruct (Disk.nodes d !! p); [done|]. intros [= <-].
  eexists. split; [exact (lookup_insert_eq (Disk.nodes d) p _)|done].
Qed.
Lemma call_amend_plain p f d d' : call (amend p f) d = (d', inr tt) -> plain_file p d ->
  (forall n, Node.kind (f n) = Node.kind n /\ Node.is_link (f n) = Node.is_link n) -> plain_file p d'.
Proof.
  intros Hc Hp Hf. destruct (run_call (amend p f) d) as (s & [E|E]); [congruence|]. rewrite E in Hc.
  destruct (amend p f _) as [d1 u] eqn:Ea. injection Hc as <- _.
  match type of Ea with amend p f ?x = _ => assert (plain_file p x) as Hx by exact Hp; apply (amend_plain p f x) in Hx as [H _]; [|done] end. by rewrite Ea in H.
Qed.
Lemma temporary_holds p payload mode group d d' : write_temporary p payload mode group d = (d', inr tt) -> holds_payload p payload d'.
Proof.
  unfold write_temporary. rewrite run_try. destruct (call_or _ d) as [d1 [[]|[]]] eqn:E1; [done|]. apply created_plain in E1.
  rewrite run_try. match goal with |- (match ?x with (_, _) => _ end) = _ -> _ => destruct x as [d2 [[]|[]]] eqn:E2; [done|] end.
  assert (plain_file p d2) as H2. { destruct group; [by eapply call_amend_plain; [exact E2|..]|by injection E2 as <-]. }
  rewrite run_try. match goal with |- context [call ?m d2] => destruct (call m d2) as [d3 [[]|[]]] eqn:E3; [done|] end.
  apply call_amend_plain in E3; [|done..]. rewrite run_try.
  match goal with |- context [call ?m d3] => destruct (run_call m d3) as (s & [-> | ->]); [done|] end.
  unfold mbind, io_bind, fresh_version. set (d4 := _ <| Disk.next_version := _ |>). set (f := fun n : Node.Node => _).
  destruct (amend_plain p f d4) as [(n & En & Hk & Hl) (m & Em)]; [exact E3|done|].
  destruct (amend p f d4) as [d5 []]. cbn [fst] in *. intros H.
  assert (Disk.nodes d' = Disk.nodes d5) as Hn.
  { match type of H with call ?m d5 = _ => destruct (run_call m d5) as (s' & [E|E]); rewrite E in H end; [done|by injection H as <-]. }
  exists n. rewrite Hn. split; [done|]. split; [done|]. split; [done|]. rewrite En in Em. by injection Em as ->.
Qed.

Definition landed (p : Path) (payload : string) (d d' : Disk) : Prop :=
  Disk.euid d' = Disk.euid d /\ file_at d' p = Some payload
  /\ forall q, q <> p -> temporary q = false -> file_at d' q = file_at d q.
Lemma landed_after p payload d d1 d2 d3 : quiet d d1 -> landed p payload d1 d2 -> temporary p = false -> quiet d2 d3 -> landed p payload d d3.
Proof.
  intros [E1 H1] (E2 & Hp & H2) Ht [E3 H3]. split; [congruence|]. split; [by rewrite H3|]. intros q Hq Htq. by rewrite H3, H2, H1.
Qed.
Lemma rename_lands from to payload d d' r : rename from to d = (d', r) -> temporary from = true -> temporary to = false -> holds_payload from payload d ->
  match r with inr _ => landed to payload d d' | inl _ => quiet d d' end.
Proof.
  unfold rename, call_or. rewrite run_try. intros H Hf Ht (n & E & Hk & Hl & Hc).
  match type of H with context [call ?m d] => destruct (run_call m d) as (s & [Ec|Ec]); rewrite Ec in H; clear Ec; [by injection H as <- <-|] end.
  unfold mbind, io_bind, reads in H. change (Disk.nodes (d <| Disk.system := s |>)) with (Disk.nodes d) in H. rewrite E in H.
  assert (forall found, (let '(d1, r1) := (let '(d2, a) := (let '(d3, _) := drop from (d <| Disk.system := s |>) in let '(d4, _) := put to n d3 in
            (d4, @inr unit unit tt)) in (d2, @inr unit (unit + unit) a)) in match r1 with inl e => (d1, inl e) | inr a => (d1, a) end) = (d', found) ->
          found = inr tt /\ landed to payload d d') as Hdone.
  { intros found [= <- <-]. split; [done|]. split; [done|]. unfold file_at, file_in. split.
    - match goal with |- match ?m !! to with _ => _ end = _ => change m with (<[to := n]> (delete from (Disk.nodes d))) end.
      rewrite lookup_insert_eq, Hk, Hl, Hc. by rewrite bool_decide_true.
    - intros q Hq Htq. match goal with |- match ?m !! q with _ => _ end = _ => change m with (<[to := n]> (delete from (Disk.nodes d))) end.
      rewrite lookup_insert_ne by done. rewrite lookup_delete_ne by (intros ->; congruence). done. }
  destruct (Disk.nodes d !! to) as [[[] ? ? ? ? ? ? ?]|]; try (apply Hdone in H as [-> H]; exact H). by injection H as <- <-.
Qed.

Lemma replace_lands directory name payload mode group d d' r :
  replace_in_directory directory name payload mode group d = (d', r) -> temporary (directory ++ [name]) = false ->
  match r with inr _ => landed (directory ++ [name]) payload d d' | inl _ => quiet d d' \/ landed (directory ++ [name]) payload d d' end.
Proof.
  unfold replace_in_directory. intros H Ht. rewrite run_try in H. pose proof (quietly_token 8 d) as Q1.
  destruct (os_token 8 d) as [d1 [e|suffix]]; [injection H as <- <-; by left|]. cbn [fst] in Q1.
  set (tmp := directory ++ [temporary_name name suffix]) in *. assert (temporary tmp = true) as Htmp by apply temporary_temporary.
  unfold mbind at 1, io_bind at 1 in H. rewrite run_try in H. pose proof (quietly_temporary tmp payload mode group Htmp d1) as Q2.
  assert (forall d2 d3 (r2 : unit + unit), (let '(d3, _) := call (drop tmp) d2 in (d3, @inl unit unit tt)) = (d3, r2) -> r2 = inl tt /\ quiet d2 d3) as Hclean.
  { intros d2 d3 r2 Hc. pose proof (quietly_call (drop tmp) (quietly_drop tmp Htmp) d2) as Q. destruct (call (drop tmp) d2) as [d2' ?]. by injection Hc as <- <-. }
  destruct (write_temporary tmp payload mode group d1) as [d2 [[]|[]]] eqn:Ew; cbn [fst] in Q2.
  { unfold mbind, io_bind in H. apply Hclean in H as [-> Q3]. left. by repeat (etransitivity; [done|]). }
  apply temporary_holds in Ew. rewrite run_try in H.
  destruct (rename tmp (directory ++ [name]) d2) as [d3 [[]|[]]] eqn:Er; apply (rename_lands _ _ payload) in Er; try done.
  { unfold mbind, io_bind in H. apply Hclean in H as [-> Q3]. left. by repeat (etransitivity; [done|]). }
  match type of H with context [call ?m d3] => pose proof (quietly_call m (quietly_ret tt) d3) as Q3; destruct (call m d3) as [d4 [[]|[]]] end; cbn [fst] in Q3.
  - unfold mbind, io_bind in H. apply Hclean in H as [-> Q4]. right. eapply landed_after; [|exact Er|done|]; etransitivity; done.
  - injection H as <- <-. eapply landed_after; [|exact Er|done|done]; etransitivity; done.
Qed.

(** A write of a private file that is not a temporary. *)
Lemma write_lands p payload d d' r : write_private p payload d = (d', r) -> temporary p = false ->
  match r with inr _ => landed p payload d d' | inl _ => quiet d d' \/ landed p payload d d' end.
Proof.
  unfold write_private. intros H Ht. destruct (parent_of p) as [parent|] eqn:Ep; [|injection H as <- <-; by left].
  unfold mbind, io_bind, reads in H. rewrite run_try in H.
  pose proof (quietly_map_err directory_state _ (quietly_ensure parent (directory_private (Disk.euid d))) d) as Q1.
  destruct (map_err directory_state _ d) as [d1 [e|[]]]; cbn [fst] in Q1; [injection H as <- <-; by left|].
  unfold map_err, mbind, io_bind, durable_replace in H. rewrite Ep in H.
  destruct (name_of p) as [name|] eqn:En; [|injection H as <- <-; by left]. pose proof (path_parts p parent name Ep En) as ->.
  rewrite run_try in H. pose proof (quietly_open parent d1) as Q2. destruct (open_directory parent d1) as [d2 [[]|[]]]; cbn [fst] in Q2.
  { injection H as <- <-. left. by etransitivity. }
  assert (quiet d d2) as Q by by etransitivity. destruct (replace_in_directory parent name payload _ None d2) as [d3 r3] eqn:Er.
  apply replace_lands in Er; [|done]. injection H as <- <-. destruct r3 as [[]|[]].
  - destruct Er as [Er|Er]; [left; by etransitivity|right; by eapply landed_after].
  - by eapply landed_after.
Qed.

(** ** Reading a file *)
(** Only the system moved. *)
Definition unmoved (d d' : Disk) : Prop := exists s, d' = d <| Disk.system := s |>.
#[global] Instance unmoved_refl : Reflexive unmoved.
Proof. intros d. exists (Disk.system d). by destruct d. Qed.
#[global] Instance unmoved_trans : Transitive unmoved.
Proof. intros d ? ? (s & ->) (s' & ->). by exists s'. Qed.
Lemma unmoved_quiet d d' : unmoved d d' -> quiet d d'.
Proof. by intros (s & ->). Qed.
Lemma unmoved_nodes d d' : unmoved d d' -> Disk.nodes d' = Disk.nodes d.
Proof. by intros (s & ->). Qed.
Lemma call_reads {A} (f : Disk -> A) d d' r : call (reads f) d = (d', r) ->
  unmoved d d' /\ match r with inr a => exists s, a = f (d <| Disk.system := s |>) | inl _ => True end.
Proof. intros H. destruct (run_call (reads f) d) as (s & [E|E]); rewrite E in H; injection H as <- <-; split; (done || by exists s). Qed.
Lemma metadata_node p d d' r : metadata p d = (d', r) ->
  unmoved d d' /\ match r with inr n => Disk.nodes d !! p = Some n | inl _ => True end.
Proof.
  unfold metadata, call_or. rewrite run_try. intros H. destruct (call (reads _) d) as [d1 r1] eqn:E. apply call_reads in E as [Hu Hr].
  destruct r1 as [[]|a]; [by injection H as <- <-|]. destruct Hr as (s & ->). injection H as <- <-. split; [done|].
  change (Disk.nodes (d <| Disk.system := s |>)) with (Disk.nodes d). by destruct (Disk.nodes d !! p).
Qed.
Lemma map_err_run {Er Er' A} (f : Er -> Er') (m : io (Er + A)) d :
  map_err f m d = match m d return Disk * (Er' + A) with (d1, inl e) => (d1, inl (f e)) | (d1, inr a) => (d1, inr a) end.
Proof. unfold map_err, mbind, io_bind. by destruct (m d) as [d1 [e|a]]. Qed.

Definition shows (p : Path) (maximum : Z) (previous : option FileIdentity.FileIdentity) (d : Disk) (found : Snapshot) : Prop :=
  match found with
  | Absent => Disk.nodes d !! p = None
  | Unchanged i => previous = Some i /\ exists n, Disk.nodes d !! p = Some n /\ identity_of n = i
  | SnapshotRead i c => slen c <= maximum /\ exists n, Disk.nodes d !! p = Some n /\ Node.kind n = KFile /\ Node.is_link n = false
                        /\ Node.content n = c /\ identity_of n = i
  end.
Lemma read_if_changed_shows p custody maximum previous d d' r : read_if_changed p custody maximum previous d = (d', r) ->
  unmoved d d' /\ match r with inr found => shows p maximum previous d found | inl _ => True end.
Proof.
  unfold read_if_changed, open_file, mbind, io_bind. destruct (call (reads _) d) as [d1 r1] eqn:E. apply call_reads in E as [U1 R1].
  destruct r1 as [[]|found]; [by intros [= <- <-]|]. destruct R1 as (s & ->). change (Disk.nodes (d <| Disk.system := s |>)) with (Disk.nodes d).
  destruct (Disk.nodes d !! p) as [n|] eqn:En; [|by intros [= <- <-]]. cbn [mret io_ret].
  destruct (Node.is_link n) eqn:El; [by intros [= <- <-]|]. cbn [snapshot]. rewrite run_try, map_err_run.
  destruct (metadata p d1) as [d2 [[]|n2]] eqn:E2; apply metadata_node in E2 as [U2 R2]; [intros [= <- <-]; split; [by etransitivity|done]|].
  rewrite (unmoved_nodes _ _ U1), En in R2. injection R2 as <-. assert (unmoved d d2) as U by by etransitivity.
  destruct (file_holds custody (facts_of n)) eqn:Eh; [|by intros [= <- <-]]. cbn [negb].
  destruct (bool_decide_reflect (previous = Some (identity_of n))) as [->|_]; [intros [= <- <-]; split; [done|]; cbn; eauto|].
  rewrite run_try. unfold read_bounded. rewrite run_try, map_err_run.
  destruct (metadata p d2) as [d3 [[]|n3]] eqn:E3; apply metadata_node in E3 as [U3 R3]; [intros [= <- <-]; split; [by etransitivity|done]|].
  rewrite (unmoved_nodes _ _ U), En in R3. injection R3 as <-. assert (unmoved d d3) as U' by by etransitivity.
  cbn [mret io_ret]. destruct (Z.ltb_spec maximum (slen (Node.content n))) as [|Hm]; [by intros [= <- <-]|].
  rewrite run_try, map_err_run.
  destruct (metadata p d3) as [d4 [[]|n4]] eqn:E4; apply metadata_node in E4 as [U4 R4]; [intros [= <- <-]; split; [by etransitivity|done]|].
  unfold changed_meanwhile, mbind, io_bind. destruct (call _ d4) as [d5 r5] eqn:E5.
  assert (unmoved d4 d5) as U5. { destruct (run_call (mret tt) d4) as (s5 & [E|E]); rewrite E in E5; injection E5 as <- <-; by exists s5. }
  intros [= <- <-]. split; [by repeat (etransitivity; [done|])|]. match goal with |- match (if ?b then _ else _) with _ => _ end => destruct b; [done|] end. cbn [shows]. split; [done|].
  exists n. apply andb_true_iff in Eh as [Eh _]. repeat (apply andb_true_iff in Eh as [Eh _]). apply bool_decide_eq_true in Eh. done.
Qed.
Lemma read_private_shows p maximum d d' r : read_private p maximum d = (d', r) ->
  unmoved d d' /\ match r with
                  | inr (Some c) => file_at d p = Some c /\ slen c <= maximum
                  | inr None => file_at d p = None
                  | inl _ => True
                  end.
Proof.
  unfold read_private, mbind, io_bind, reads. rewrite map_err_run. unfold custody_read. rewrite run_try.
  destruct (read_if_changed p _ maximum None d) as [d1 [e|found]] eqn:E; apply read_if_changed_shows in E as [U R]; [by intros [= <- <-]|].
  destruct found as [|i|i c]; cbn [mret io_ret shows] in *; intros [= <- <-]; (split; [done|]); [|done|].
  - unfold file_at, file_in. by rewrite R.
  - destruct R as (Hm & n & En & Hk & Hl & Hc & _). split; [|done]. apply holds_file. by exists n.
Qed.

(** Removing a file. *)
Definition removed (p : Path) (d d' : Disk) : Prop :=
  Disk.euid d' = Disk.euid d /\ file_at d' p = None /\ forall q, q <> p -> file_at d' q = file_at d q.
Lemma remove_file_removes p d d' r : remove_file p d = (d', r) ->
  match r with inr _ => removed p d d' | inl _ => quiet d d' end.
Proof.
  unfold remove_file, call_or. rewrite run_try. intros H.
  match type of H with context [call ?m d] => destruct (run_call m d) as (s & [Ec|Ec]); rewrite Ec in H; clear Ec; [by injection H as <- <-|] end.
  unfold mbind, io_bind, reads in H. change (Disk.nodes (d <| Disk.system := s |>)) with (Disk.nodes d) in H.
  destruct (Disk.nodes d !! p) as [n|] eqn:E.
  2: { injection H as <- <-. split; [done|]. split; [|done]. change (file_in (Disk.nodes d) p = None). unfold file_in. by rewrite E. }
  assert (Disk.nodes (fst (drop p (d <| Disk.system := s |>))) = delete p (Disk.nodes d)) as Hd by done.
  assert (removed p d (fst (drop p (d <| Disk.system := s |>)))) as Hr.
  { split; [done|]. unfold file_at, file_in. rewrite Hd. split; [by rewrite lookup_delete_eq|]. intros q Hq. by rewrite lookup_delete_ne. }
  destruct n as [[] ? ? ? ? ? ? ?]; try (injection H as <- <-; exact Hr). by injection H as <- <-.
Qed.

(** C19. A private file is replaced whole or not at all: whichever system calls of
    the write fail, the file at the path is then the earlier one or the payload,
    and the payload when the write reported success; every other file, temporaries
    apart, is untouched; and a read that succeeds afterwards shows exactly the file
    that is there. *)
Theorem private_write_atomic p payload d d' r : write_private p payload d = (d', r) -> temporary p = false ->
  (forall q, q <> p -> temporary q = false -> file_at d' q = file_at d q)
  /\ match r with inr _ => file_at d' p = Some payload | inl _ => file_at d' p = file_at d p \/ file_at d' p = Some payload end
  /\ forall maximum d2 found, read_private p maximum d' = (d2, inr found) -> found = file_at d' p.
Proof.
  intros H Ht. apply write_lands in H; [|done].
  assert (forall maximum d2 found, read_private p maximum d' = (d2, inr found) -> found = file_at d' p) as Hr.
  { intros maximum d2 found [_ Hs]%read_private_shows. destruct found as [c|]; [by destruct Hs as [-> _]|by rewrite Hs]. }
  destruct r as [e|[]].
  - destruct H as [[_ Hq]|(_ & Hp & Hq)]; (split; [auto|]); (split; [|done]); [left; auto|by right].
  - destruct H as (_ & Hp & Hq). auto.
Qed.
End Safety.
