(* ===== verification/Sealing.v ===== *)
(** * Sealed envelopes and the keyring

    [storage/src/envelope.rs] and the keyring of [storage/src/private.rs]: the
    AES-256-GCM envelope of private state, its admission, and the one 256-bit key
    that seals it.  The ciphers and encodings are third-party code, a parameter. *)

From stdpp Require Import base tactics list strings gmap.
From Stdlib Require Import ZArith Lia Ascii.
From S2P Require Import Prelude Text Json Reader Utf8 ReaderSafety Floats RoundTrip Calendar Platform Instants Disk.

#[local] Open Scope Z_scope.

(** [aes_gcm::Aes256Gcm], [hmac::Hmac<Sha256>] and the [base64] engine that accepts
    trailing bits and requires padding. *)
Class Crypto : Type := {
  encrypt : forall (key nonce aad plaintext : string), string;
  decrypt : forall (key nonce aad ciphertext : string), option string;
  hmac256 : forall (key message : string), string;
  base64_encode : string -> string;
  base64_decode : string -> option string
}.
(** What they document: decryption inverts encryption, the tag is 16 bytes, and
    decoding inverts an ASCII encoding of four characters for three bytes. *)
Class CryptoLaws `{C : !Crypto} : Prop := {
  decrypt_encrypt key nonce aad plaintext : decrypt key nonce aad (encrypt key nonce aad plaintext) = Some plaintext;
  encrypt_length key nonce aad plaintext : slen (encrypt key nonce aad plaintext) = slen plaintext + 16;
  hmac256_length key message : String.length (hmac256 key message) = 32%nat;
  base64_inverts bytes : base64_decode (base64_encode bytes) = Some bytes;
  base64_length bytes : slen (base64_encode bytes) = 4 * ((slen bytes + 2) / 3);
  base64_ascii bytes : all_bytes (fun a => is_alnum a || one_of "+/=" a) (base64_encode bytes) = true
}.
#[global] Arguments CryptoLaws : clear implicits.
(** A source that fills a buffer fills all of it. *)
Class FullDraws (E : Type) `{!Entropy E} : Prop :=
  fill_length : forall n (e e' : E) bytes, fill n e = (e', Some bytes) -> String.length bytes = n.

Definition ALGORITHM : string := "AES-256-GCM".
Definition NONCE_BYTES : nat := 12.
Definition TAG_BYTES : Z := 16.
Definition KEY_ID_LABEL : string := "shimpz-team-private-state-key-id".

Module Envelope.
Record Envelope : Type := mk { nonce : string; ciphertext : string; key_id : option string }.
End Envelope.
Module Bounds.
Record Bounds : Type := mk { maximum_encoded_part : Z; maximum_plaintext : Z }.
End Bounds.

Section Envelopes.
  Context `{C : !Crypto} {E : Type} `{!Entropy E}.

(** [Key::generate] and [Key::id]: 128 bits of a MAC over a fixed label, in hex. *)
Definition key_generate (e : E) : E * option string := fill 32 e.
Definition key_identifier (key : string) : string := hex_of (fst (split_at 16 (hmac256 key KEY_ID_LABEL))).

(** [Envelope::seal]: under a fresh nonce; [None] when none could be drawn. *)
Definition seal (key plaintext aad : string) (e : E) : E * option Envelope.Envelope :=
  let '(e, nonce) := fill NONCE_BYTES e in
  (e, nonce ← nonce; Some (Envelope.mk nonce (encrypt key nonce aad plaintext) None)).
Definition seal_identified (key plaintext aad : string) (e : E) : E * option Envelope.Envelope :=
  let '(e, sealed) := seal key plaintext aad e in
  (e, sealed ← sealed; Some (Envelope.mk (Envelope.nonce sealed) (Envelope.ciphertext sealed) (Some (key_identifier key)))).

(** [decode_part]: a text of at most so many characters, decoding to so many bytes. *)
Definition decode_part (v : option Value) (maximum_encoded minimum maximum : Z) : option string :=
  match v with
  | Some (VString text) =>
      if maximum_encoded <? text_len text then None
      else decoded ← base64_decode text; if (minimum <=? slen decoded) && (slen decoded <=? maximum) then Some decoded else None
  | _ => None
  end.
Definition admit_kind (v : Value) (bounds : Bounds.Bounds) (identified : bool) : option Envelope.Envelope :=
  match v with
  | VObject ms =>
      let expected := if identified then ["algorithm"; "ciphertext"; "key_id"; "nonce"]%string else ["algorithm"; "ciphertext"; "nonce"]%string in
      if negb (bool_decide (stable_sort sleb (map fst ms) = expected))
         || negb (match get v "algorithm" with Some (VString a) => a =s ALGORITHM | _ => false end) then None
      else
        key_id ← (if identified
                  then match get v "key_id" with
                       | Some (VString id) => if exactly 32 is_hex id then Some (Some id) else None
                       | _ => None
                       end
                  else Some None);
        nonce ← decode_part (get v "nonce") (Bounds.maximum_encoded_part bounds) (Z.of_nat NONCE_BYTES) (Z.of_nat NONCE_BYTES);
        ciphertext ← decode_part (get v "ciphertext") (Bounds.maximum_encoded_part bounds) (TAG_BYTES + 1)
                       (Bounds.maximum_plaintext bounds + TAG_BYTES);
        Some (Envelope.mk nonce ciphertext key_id)
  | _ => None
  end.
Definition admit_envelope (v : Value) (bounds : Bounds.Bounds) : option Envelope.Envelope := admit_kind v bounds false.
Definition admit_identified (v : Value) (bounds : Bounds.Bounds) : option Envelope.Envelope := admit_kind v bounds true.
(** [Envelope::open]: an identified envelope opens only under the key it names. *)
Definition open_envelope (sealed : Envelope.Envelope) (key aad : string) : option string :=
  if match Envelope.key_id sealed with Some named => negb (named =s key_identifier key) | None => false end then None
  else decrypt key (Envelope.nonce sealed) aad (Envelope.ciphertext sealed).
(** [Envelope::to_value]. *)
Definition envelope_value (sealed : Envelope.Envelope) : Value :=
  object ([("algorithm", VString ALGORITHM); ("nonce", VString (base64_encode (Envelope.nonce sealed)));
           ("ciphertext", VString (base64_encode (Envelope.ciphertext sealed)))]%string
          ++ match Envelope.key_id sealed with Some id => [("key_id"%string, VString id)] | None => [] end).
End Envelopes.

(** ** The keyring *)
Section Keyring.
  Context `{C : !Crypto} {F : Type} `{!System F}.

(** [Keyring::load]: the key; a fresh one is generated and stored first when it is
    absent and may be created. *)
Definition draw {A} (m : F -> F * A) : io A := fun d =>
  let '(system, a) := m (Disk.system d) in (d <| Disk.system := system |>, a).
Definition load_key (p : Path) (create : bool) : io (StateError + string) :=
  try (read_private p 32) (fun found =>
    match found with
    | None =>
        if create
        then key ← draw key_generate;
             match key with
             | None => mret (inl StateUnavailable)
             | Some key => try (write_private p key) (fun _ => mret (inr key))
             end
        else mret (inl StateUnavailable)
    | Some key => mret (if Nat.eqb (String.length key) 32 then inr key else inl StateInvalidKey)
    end).
End Keyring.

Lemma all_bytes_impl (p q : ascii -> bool) s : (forall a, p a = true -> q a = true) -> all_bytes p s = true -> all_bytes q s = true.
Proof. intros Hpq. induction s as [|a s IH]; [done|]. cbn [all_bytes]. rewrite !andb_true_iff. intros [? ?]. auto. Qed.
Lemma base64_byte a : is_alnum a || one_of "+/=" a = true -> byte_code a <? 0x80 = true.
Proof. destruct a as [[] [] [] [] [] [] [] []]; vm_compute; congruence. Qed.
Lemma hex_byte a : is_hex a = true -> byte_code a <? 0x80 = true.
Proof. destruct a as [[] [] [] [] [] [] [] []]; vm_compute; congruence. Qed.

Section Sealing.
  Context `{C : !Crypto} {L : CryptoLaws C} {E : Type} `{!Entropy E} {FD : FullDraws E}.

Lemma base64_plain bytes : all_bytes (fun a => byte_code a <? 0x80) (base64_encode bytes) = true.
Proof. eapply all_bytes_impl; [apply base64_byte|apply base64_ascii]. Qed.
Lemma base64_text bytes : text_len (base64_encode bytes) = 4 * ((slen bytes + 2) / 3).
Proof. unfold text_len, len. rewrite plain_length by apply base64_plain. apply base64_length. Qed.
Lemma base64_utf8 bytes : valid_utf8 (base64_encode bytes) = true.
Proof. apply valid_utf8_iff, ascii_only, base64_plain. Qed.

Lemma split_prefix_length n s : (n <= String.length s)%nat -> String.length (fst (split_at n s)) = n.
Proof.
  revert s. induction n as [|n IH]; intros s Hn; [done|]. destruct s as [|a s]; cbn [String.length] in *; [lia|].
  cbn [split_at]. specialize (IH s ltac:(lia)). destruct (split_at n s). cbn in *. lia.
Qed.
Lemma key_identifier_hex key : exactly 32 is_hex (key_identifier key) = true.
Proof.
  unfold key_identifier. pose proof (hmac256_length key KEY_ID_LABEL) as Hl.
  pose proof (hex_of_hex (fst (split_at 16 (hmac256 key KEY_ID_LABEL)))) as H.
  rewrite split_prefix_length in H by lia. destruct H as [H1 H2]. unfold exactly. rewrite H1, H2. done.
Qed.

(** The stored form of an envelope as the reader returns it: members in order. *)
Definition envelope_members (sealed : Envelope.Envelope) : list (string * Value) :=
  [("algorithm", VString ALGORITHM); ("ciphertext", VString (base64_encode (Envelope.ciphertext sealed)))]%string
  ++ match Envelope.key_id sealed with Some id => [("key_id"%string, VString id)] | None => [] end
  ++ [("nonce"%string, VString (base64_encode (Envelope.nonce sealed)))].
Lemma envelope_kept o sealed : sort_keys o = true -> ordered o (envelope_value sealed) = VObject (envelope_members sealed).
Proof. destruct o as [ea sk co]. cbn [sort_keys]. intros ->. unfold envelope_value, envelope_members. destruct (Envelope.key_id sealed); vm_compute; reflexivity. Qed.

Lemma envelope_read o sealed : sort_keys o = true -> (forall id, Envelope.key_id sealed = Some id -> exactly 32 is_hex id = true) ->
  json_parse (dumps o (envelope_value sealed)) = Some (VObject (envelope_members sealed)).
Proof.
  intros Ho Hid. rewrite <- (envelope_kept o) by done. apply parse_dumps.
  - cbn [envelope_value object admissible]. destruct (Envelope.key_id sealed) as [id|] eqn:Ei; cbn [app map fst forallb snd admissible].
    + specialize (Hid id eq_refl). apply andb_true_iff in Hid as [_ Hid].
      assert (valid_utf8 id = true) as -> by by apply valid_utf8_iff, ascii_only, (all_bytes_impl is_hex); [apply hex_byte|].
      rewrite !base64_utf8. vm_compute. reflexivity.
    + rewrite !base64_utf8. vm_compute. reflexivity.
  - cbn. by destruct (Envelope.key_id sealed).
  - cbn. by destruct (Envelope.key_id sealed).
Qed.

Lemma decode_part_encode bytes maximum_encoded minimum maximum : 4 * ((slen bytes + 2) / 3) <= maximum_encoded ->
  minimum <= slen bytes <= maximum -> decode_part (Some (VString (base64_encode bytes))) maximum_encoded minimum maximum = Some bytes.
Proof.
  intros He Hb. unfold decode_part. rewrite base64_text. destruct (Z.ltb_spec maximum_encoded (4 * ((slen bytes + 2) / 3))); [lia|].
  rewrite base64_inverts. cbn [mbind option_bind].
  destruct (Z.leb_spec minimum (slen bytes)), (Z.leb_spec (slen bytes) maximum); (done || lia).
Qed.

Lemma admit_members sealed bounds : String.length (Envelope.nonce sealed) = NONCE_BYTES ->
  TAG_BYTES < slen (Envelope.ciphertext sealed) <= Bounds.maximum_plaintext bounds + TAG_BYTES ->
  4 * ((Bounds.maximum_plaintext bounds + TAG_BYTES + 2) / 3) <= Bounds.maximum_encoded_part bounds ->
  (forall id, Envelope.key_id sealed = Some id -> exactly 32 is_hex id = true) ->
  admit_kind (VObject (envelope_members sealed)) bounds (is_some (Envelope.key_id sealed)) = Some sealed.
Proof.
  intros Hn Hc He Hid. unfold TAG_BYTES in *.
  assert (decode_part (Some (VString (base64_encode (Envelope.nonce sealed)))) (Bounds.maximum_encoded_part bounds)
            (Z.of_nat NONCE_BYTES) (Z.of_nat NONCE_BYTES) = Some (Envelope.nonce sealed)) as En.
  { apply decode_part_encode; unfold slen; rewrite Hn; [|lia]. change (4 * ((Z.of_nat NONCE_BYTES + 2) / 3)) with 16.
    assert ((17 + 2) / 3 <= (Bounds.maximum_plaintext bounds + 16 + 2) / 3) by (apply Z.div_le_mono; lia). change ((17 + 2) / 3) with 6 in *. lia. }
  assert (decode_part (Some (VString (base64_encode (Envelope.ciphertext sealed)))) (Bounds.maximum_encoded_part bounds)
            (16 + 1) (Bounds.maximum_plaintext bounds + 16) = Some (Envelope.ciphertext sealed)) as Ec.
  { apply decode_part_encode; [|lia].
    assert ((slen (Envelope.ciphertext sealed) + 2) / 3 <= (Bounds.maximum_plaintext bounds + 16 + 2) / 3) by (apply Z.div_le_mono; lia). lia. }
  destruct sealed as [nonce ciphertext key_id]. cbn [Envelope.nonce Envelope.ciphertext Envelope.key_id] in *.
  unfold admit_kind. set (v := VObject _).
  assert (get v "nonce" = Some (VString (base64_encode nonce)) /\ get v "ciphertext" = Some (VString (base64_encode ciphertext))
    /\ get v "algorithm" = Some (VString ALGORITHM) /\ get v "key_id" = option_map VString key_id) as (-> & -> & -> & ->)
    by (destruct key_id; vm_compute; repeat split; reflexivity).
  unfold TAG_BYTES. rewrite En, Ec. destruct key_id as [id|]; cbn [is_some option_map envelope_members Envelope.key_id Envelope.nonce Envelope.ciphertext app map fst].
  - rewrite (Hid id eq_refl), seqb_refl. rewrite bool_decide_true by (vm_compute; reflexivity). reflexivity.
  - rewrite seqb_refl. rewrite bool_decide_true by (vm_compute; reflexivity). reflexivity.
Qed.

(** Sealing and opening. *)
Lemma seal_parts key plaintext aad (e e' : E) sealed : seal key plaintext aad e = (e', Some sealed) ->
  String.length (Envelope.nonce sealed) = NONCE_BYTES /\ Envelope.key_id sealed = None
  /\ slen (Envelope.ciphertext sealed) = slen plaintext + TAG_BYTES /\ open_envelope sealed key aad = Some plaintext.
Proof.
  unfold seal. destruct (fill NONCE_BYTES e) as [e1 [nonce|]] eqn:Ef; cbn [mbind option_bind]; intros [= <- <-].
  cbn. split; [by eapply fill_length|]. split; [done|]. split; [apply encrypt_length|]. unfold open_envelope. cbn. apply decrypt_encrypt.
Qed.
Definition roomy (bounds : Bounds.Bounds) : Prop :=
  4 * ((Bounds.maximum_plaintext bounds + TAG_BYTES + 2) / 3) <= Bounds.maximum_encoded_part bounds.
Lemma sealed_opens o key plaintext aad (e e' : E) sealed bounds : seal key plaintext aad e = (e', Some sealed) -> sort_keys o = true -> roomy bounds ->
  1 <= slen plaintext <= Bounds.maximum_plaintext bounds ->
  exists v, json_parse (dumps o (envelope_value sealed)) = Some v /\ admit_envelope v bounds = Some sealed
  /\ open_envelope sealed key aad = Some plaintext.
Proof.
  intros Hs Ho Hr Hp. destruct (seal_parts _ _ _ _ _ _ Hs) as (Hn & Hk & Hc & Hopen).
  exists (VObject (envelope_members sealed)). split; [|split; [|done]].
  - apply envelope_read; [done|]. by rewrite Hk.
  - pose proof (admit_members sealed bounds Hn) as Ha. rewrite Hk in Ha. apply Ha; [rewrite Hc; unfold TAG_BYTES; lia|done|done].
Qed.
Lemma sealed_identified_opens o key plaintext aad (e e' : E) sealed bounds : seal_identified key plaintext aad e = (e', Some sealed) ->
  sort_keys o = true -> roomy bounds -> 1 <= slen plaintext <= Bounds.maximum_plaintext bounds ->
  exists v, json_parse (dumps o (envelope_value sealed)) = Some v /\ v = VObject (envelope_members sealed)
  /\ admit_identified v bounds = Some sealed /\ open_envelope sealed key aad = Some plaintext.
Proof.
  unfold seal_identified. destruct (seal key plaintext aad e) as [e1 [inner|]] eqn:Hs; cbn [mbind option_bind]; [|done]. intros [= <- <-] Ho Hr Hp.
  destruct (seal_parts _ _ _ _ _ _ Hs) as (Hn & Hk & Hc & Hopen). set (sealed := Envelope.mk _ _ _).
  assert (forall id, Envelope.key_id sealed = Some id -> exactly 32 is_hex id = true) as Hid by (intros id [= <-]; apply key_identifier_hex).
  exists (VObject (envelope_members sealed)). split; [by apply envelope_read|]. split; [done|]. split.
  - pose proof (admit_members sealed bounds Hn) as Ha. apply Ha; [cbn; rewrite Hc; unfold TAG_BYTES; lia|done|done].
  - unfold open_envelope in *. rewrite Hk in Hopen. cbn. by rewrite seqb_refl.
Qed.
End Sealing.
