(* ===== verification/RoutineStore.v ===== *)
(** * Routine persistence

    [local/src/routine/store/{mod,records,remove}.rs]: one private state file per
    Team, replaced by every transition, and its sealed run records, each bound by
    its associated data to exactly what it belongs to.  A Team's lock is taken for
    one call at a time, so a call is one step here; a Space reset moves the store's
    epoch, after which a lock taken before it writes nothing. *)

From stdpp Require Import base tactics list strings gmap.
From Stdlib Require Import ZArith Lia Ascii.
From S2P Require Import Prelude Text Json Reader Platform Wire Notices Schedule Dates Starts Plans Team Journal Cursors StateCodec Disk Sealing.

#[local] Open Scope Z_scope.

(** ** Bounds *)
Definition MAX_NOTICE_BYTES : Z := MAX_OUTPUT_BYTES + MAX_SUMMARY_BYTES + 8 * 1024.
Definition NOTICES_BYTES : Z := (MAX_UNDELIVERED_NOTICES + MAX_ROUTINE_NOTICES) * MAX_NOTICE_BYTES.
Definition STARTS : Z := 20000.
Definition RECORDS_BYTES : Z := STARTS * 64 + MAX_DISCARDS * 256.
Definition ROUTINES_BYTES : Z := TEAM_DEFINITION_BYTES + MAX_ROUTINES * 18 * 1024.
Definition MAX_STATE_BYTES : Z := ROUTINES_BYTES + NOTICES_BYTES + RECORDS_BYTES + MAX_RUNS * 4 * 1024 + 64 * 1024.
Definition MAX_DECODED_STATE_BYTES : Z := MAX_STATE_BYTES.
Definition UNLOCKED_READ_ATTEMPTS : nat := 3.
Definition MAX_RECOVERY_BYTES : Z := MAX_PLAN_BYTES + 8 * 1024.
Definition MAX_INCIDENT_BYTES : Z := MAX_RECOVERY_BYTES + MAX_OPERATIONS * 512 + 8 * 1024.
Definition MAX_ROUTINE_PLAINTEXT_BYTES : Z :=
  256 * 1024 + MAX_RESOLVED_INPUT_BYTES + MAX_STEPS * 32 + 7 * (6 * 16000 + 512).
Definition div_ceil (a b : Z) : Z := (a + b - 1) / b.
Definition MAX_CONTINUATION_BYTES : Z := 4 * div_ceil MAX_ROUTINE_PLAINTEXT_BYTES 3 + 64 * (640 + 3) + 256.
Definition MAX_ENCODED_PART : Z := Z.max MAX_CONTINUATION_BYTES MAX_INCIDENT_BYTES * 2 + 128.

(** [From<StateError> for StoreError]. *)
Definition state_store (e : StateError) : StoreError :=
  match e with
  | StateUnsafe => Unsafe
  | StateTooLarge => TooLarge
  | StateNotPersisted => NotPersisted
  | StateMalformed | StateRecordLimit | StateInvalidKey => Malformed
  | StateUnauthentic => Unauthentic
  | StateLayout => Layout
  | StateUnavailable => Unavailable
  end.
Definition team_id_of (value : string) : stored string := if is_some (canonical_team_id (VString value)) then inr value else inl InvalidTeam.
Definition run_id_of (value : string) : stored string := if ROUTINE_ID_RE value then inr value else inl InvalidRun.

(** ** Associated data: compact ASCII JSON in the given order *)
Definition FRAMING : Options := mkOptions true false true.
Definition framed_parts (parts : list Value) : string := dumps FRAMING (VArray parts).
Definition continuation_aad (team run : string) : string :=
  framed_parts [text "shimpz-local-routine-continuation-v1"; text team; text run].
Definition cursor_aad (team : string) (b : Binding.Binding) : string :=
  framed_parts [text "shimpz-local-routine-cursor-v1"; text team; text (Binding.incarnation b); text (Binding.routine_id b);
                int (Binding.revision b); text (Binding.run_id b)].
Definition recovery_aad (team run : string) : string := framed_parts [text "shimpz-local-routine-recovery-v1"; text team; text run].
Definition incident_aad (team incident : string) : string := framed_parts [text "shimpz-local-routine-incident-v1"; text team; text incident].

(** The kind of a sealed record. *)
Inductive Sealed : Type := Continuation | SealedCursor | Recovery | Incident.
Definition sealed_suffix (kind : Sealed) : string :=
  match kind with Continuation => ".continuation" | SealedCursor => ".cursor" | Recovery => ".recovery" | Incident => ".incident" end.
Definition sealed_maximum (kind : Sealed) : Z :=
  match kind with
  | Continuation => MAX_CONTINUATION_BYTES
  | SealedCursor => MAX_CURSOR_BYTES
  | Recovery => MAX_RECOVERY_BYTES
  | Incident => MAX_INCIDENT_BYTES
  end.

(** ** The store *)
Module RoutineStore.
Record RoutineStore {F : Type} : Type := mk {
  root : Path;
  keyring : Path;
  max_state_bytes : Z;
  max_decoded_bytes : Z;
  closed : bool;
  epoch : Z;
  (** Each Team's state as its file last decoded, beside its exact bytes, least
      recently read first. *)
  decoded : list (string * string * TeamRoutines.TeamRoutines);
  disk : Disk.Disk F
}.
Arguments RoutineStore : clear implicits.
Arguments mk {F}.
#[global] Instance eta_store {F} : Eta (RoutineStore F) := fun s =>
  mk (root s) (keyring s) (max_state_bytes s) (max_decoded_bytes s) (closed s) (epoch s) (decoded s) (disk s).
End RoutineStore.
#[global] Instance upd_store_closed {F} : Upd (@RoutineStore.closed F) := ltac:(solve_upd).
#[global] Instance upd_store_epoch {F} : Upd (@RoutineStore.epoch F) := ltac:(solve_upd).
#[global] Instance upd_store_decoded {F} : Upd (@RoutineStore.decoded F) := ltac:(solve_upd).
#[global] Instance upd_store_disk {F} : Upd (@RoutineStore.disk F) := ltac:(solve_upd).
Module TeamLock.
Record TeamLock : Type := mk { team : string; epoch : Z }.
End TeamLock.
(** [key_path.starts_with(root)]. *)
Fixpoint starts_with (p prefix : Path) {struct prefix} : bool :=
  match prefix, p with
  | [], _ => true
  | a :: prefix, b :: p => (a =s b) && starts_with p prefix
  | _ :: _, [] => false
  end.

Section Store.
  Context {PF : Platform} {VO : Vocabulary} `{C : !Crypto} {F : Type} `{!System F}.
  Abbreviation Store := (RoutineStore.RoutineStore F).

Definition store_new (root key_path : Path) (d : Disk.Disk F) : stored Store :=
  if bool_decide (parent_of key_path = Some root) || starts_with key_path root then inl Layout
  else inr (RoutineStore.mk root key_path MAX_STATE_BYTES MAX_DECODED_STATE_BYTES false 0 [] d).

(** *** Effects *)
Definition kept_op (A : Type) : Type := Store -> Store * stored A.
Definition pass {A} (r : stored A) : kept_op A := fun s => (s, r).
Definition then_ {A B} (m : kept_op A) (f : A -> kept_op B) : kept_op B := fun s =>
  match m s with (s, inl e) => (s, inl e) | (s, inr a) => f a s end.
Definition on_disk {A} (m : io (StateError + A)) : kept_op A := fun s =>
  let '(d, r) := m (RoutineStore.disk s) in
  (s <| RoutineStore.disk := d |>, match r with inl e => inl (state_store e) | inr a => inr a end).
Definition on_disk_or {A} (e : StoreError) (m : io (unit + A)) : kept_op A := fun s =>
  let '(d, r) := m (RoutineStore.disk s) in (s <| RoutineStore.disk := d |>, match r with inl _ => inl e | inr a => inr a end).
Definition look {A} (f : Store -> A) : kept_op A := fun s => (s, inr (f s)).
Definition change_store (f : Store -> Store) : kept_op unit := fun s => (f s, inr tt).
Infix ">>>" := then_ (at level 60, right associativity).

(** *** Paths *)
Definition team_dir_name (team : string) : string := sha256_hex team.
Definition team_dir (s : Store) (team : string) : Path := RoutineStore.root s ++ [team_dir_name team].
Definition lock_file (lock : TeamLock.TeamLock) (name : string) (s : Store) : Path := team_dir s (TeamLock.team lock) ++ [name].

(** [RoutineStore::lock]: the Team's lock at the present epoch. *)
Definition store_lock (team : string) : kept_op TeamLock.TeamLock := fun s =>
  (s, team ← team_id_of team; mret (TeamLock.mk team (RoutineStore.epoch s))).
Definition writable (lock : TeamLock.TeamLock) : kept_op unit := fun s =>
  (s, if RoutineStore.closed s || negb (RoutineStore.epoch s =? TeamLock.epoch lock) then inl Resetting else inr tt).
(** [key]. *)
Definition store_key (create : bool) : kept_op string := fun s => on_disk (load_key (RoutineStore.keyring s) create) s.

(** *** The decoded states *)
Definition entry_team (entry : string * string * TeamRoutines.TeamRoutines) : string := fst (fst entry).
Definition entry_bytes (entry : string * string * TeamRoutines.TeamRoutines) : string := snd (fst entry).
Fixpoint evict (room : Z) (entries : list (string * string * TeamRoutines.TeamRoutines)) : list (string * string * TeamRoutines.TeamRoutines) :=
  match entries with
  | [] => []
  | _ :: rest => if room <? zsum (map (fun e => slen (entry_bytes e)) entries) then evict room rest else entries
  end.
Definition forget (team : string) : kept_op unit :=
  change_store (fun s => s <| RoutineStore.decoded := List.filter (fun e => negb (entry_team e =s team)) (RoutineStore.decoded s) |>).
Definition keep (team payload : string) (st : TeamRoutines.TeamRoutines) : kept_op unit :=
  forget team >>> fun _ =>
  change_store (fun s => s <| RoutineStore.decoded := evict (RoutineStore.max_decoded_bytes s) (RoutineStore.decoded s ++ [(team, payload, st)]) |>).

(** *** The state file *)
Definition is_entry (team payload : string) (e : string * string * TeamRoutines.TeamRoutines) : bool :=
  (entry_team e =s team) && (entry_bytes e =s payload).
(** The first entry that satisfies [p], and the others. *)
Fixpoint take_first {A} (p : A -> bool) (l : list A) : option (A * list A) :=
  match l with
  | [] => None
  | a :: l => if p a then Some (a, l) else '(found, rest) ← take_first p l; Some (found, a :: rest)
  end.
Definition store_load (lock : TeamLock.TeamLock) : kept_op TeamRoutines.TeamRoutines :=
  let team := TeamLock.team lock in
  look (fun s => (lock_file lock "state.json" s, RoutineStore.max_state_bytes s)) >>> fun '(path, maximum) =>
  on_disk (read_private path maximum) >>> fun found =>
  match found with
  | None => forget team >>> fun _ => pass (inr no_routines)
  | Some payload =>
      look (fun s => take_first (is_entry team payload) (RoutineStore.decoded s)) >>> fun cached =>
      match cached with
      | Some (entry, rest) =>
          change_store (fun s => s <| RoutineStore.decoded := rest ++ [entry] |>) >>> fun _ => pass (inr (snd entry))
      | None => pass (state_decode payload team) >>> fun st => keep team payload st >>> fun _ => pass (inr st)
      end
  end.
(** Decoding what was encoded checks it before it replaces the file. *)
Definition save (lock : TeamLock.TeamLock) (st : TeamRoutines.TeamRoutines) : kept_op unit :=
  let team := TeamLock.team lock in
  let payload := state_encode st team in
  look RoutineStore.max_state_bytes >>> fun maximum =>
  if maximum <? slen payload then pass (inl TooLarge)
  else
    forget team >>> fun _ =>
    pass (state_decode payload team) >>> fun decoded =>
    look (lock_file lock "state.json") >>> fun path =>
    on_disk (write_private path payload) >>> fun _ =>
    keep team payload decoded.
(** [update]: one transition, persisted before its result is returned; an unchanged
    state is not written: equal values (a float's zeros are equal), or the same
    bytes. *)
Definition same_state (a b : TeamRoutines.TeamRoutines) (team : string) : bool :=
  value_eqb (state_value a team) (state_value b team) || (state_encode a team =s state_encode b team).
Definition store_update {Er T} (lock : TeamLock.TeamLock) (change : TeamRoutines.TeamRoutines -> Er + TeamRoutines.TeamRoutines * T)
  : Store -> Store * ((StoreError + Er) + T) := fun s =>
  match (writable lock >>> fun _ => store_load lock) s with
  | (s, inl e) => (s, inl (inl e))
  | (s, inr before) =>
      match change before with
      | inl e => (s, inl (inr e))
      | inr (after, answer) =>
          if same_state after before (TeamLock.team lock) then (s, inr answer)
          else match save lock after s with (s, inl e) => (s, inl (inl e)) | (s, inr _) => (s, inr answer) end
      end
  end.

(** *** Sealed records *)
Definition record_bounds (kind : Sealed) : Bounds.Bounds := Bounds.mk MAX_ENCODED_PART (sealed_maximum kind).
Definition sealed_read (lock : TeamLock.TeamLock) (name aad : string) (kind : Sealed) : kept_op (option string) :=
  look (lock_file lock name) >>> fun path =>
  on_disk (read_private path (sealed_maximum kind * 2 + 256)) >>> fun found =>
  match found with
  | None => pass (inr None)
  | Some raw =>
      pass match json_parse raw with Some v => inr v | None => inl Malformed end >>> fun v =>
      pass match admit_envelope v (record_bounds kind) with Some sealed => inr sealed | None => inl Malformed end >>> fun sealed =>
      store_key false >>> fun key =>
      pass match open_envelope sealed key aad with Some opened => inr (Some opened) | None => inl Unauthentic end
  end.
Definition seal_new (lock : TeamLock.TeamLock) (name payload aad : string) : kept_op unit :=
  store_key true >>> fun key =>
  (fun s => on_disk (sealed ← draw (seal key payload aad); mret match sealed with Some sealed => inr sealed | None => inl StateUnavailable end) s) >>> fun sealed =>
  look (lock_file lock name) >>> fun path =>
  on_disk (write_private path (canonical (envelope_value sealed))).
Definition sealed_write (lock : TeamLock.TeamLock) (name payload aad : string) (kind : Sealed) (write_once : bool) : kept_op unit :=
  writable lock >>> fun _ =>
  if write_once
  then sealed_read lock name aad kind >>> fun found =>
       match found with
       | Some sealed => pass (if sealed =s payload then inr tt else inl Immutable)
       | None => seal_new lock name payload aad
       end
  else seal_new lock name payload aad.
Definition sealed_delete (lock : TeamLock.TeamLock) (name : string) : kept_op unit :=
  look (lock_file lock name) >>> fun path => on_disk_or NotPersisted (remove_file path).
(** [read_dir]: the names in a directory. *)
Definition entries_of (d : Disk.Disk F) (directory : Path) : list (string * Node.Node) :=
  omap (fun pn : Path * Node.Node =>
          if bool_decide (parent_of (fst pn) = Some directory) then name ← name_of (fst pn); Some (name, snd pn) else None)
       (map_to_list (Disk.nodes d)).
Definition read_dir (directory : Path) : io (unit + option (list (string * Node.Node))) :=
  call_or (reads (fun d => match Disk.nodes d !! directory with
                           | None => inr None
                           | Some n => if bool_decide (Node.kind n = KDirectory) then inr (Some (entries_of d directory)) else inl tt
                           end)).
(** [strip_suffix]. *)
Definition strip_suffix (suffix s : string) : option string :=
  if (String.length suffix <=? String.length s)%nat
  then let '(before, after) := split_at (String.length s - String.length suffix) s in if after =s suffix then Some before else None
  else None.
Definition run_named (kind : Sealed) (name : string) : option string :=
  run ← strip_suffix (sealed_suffix kind) name; if ROUTINE_ID_RE run then Some run else None.
Definition sealed_names (lock : TeamLock.TeamLock) (kind : Sealed) : kept_op (list string) :=
  look (fun s => team_dir s (TeamLock.team lock)) >>> fun directory =>
  on_disk_or Unavailable (read_dir directory) >>> fun found =>
  pass (inr (stable_sort sleb (omap (run_named kind) (map fst (default [] found))))).

(** *** Continuations, recovery snapshots and incidents *)
Definition record_name (run : string) (kind : Sealed) : string := run +:+ sealed_suffix kind.
Definition record_aad (kind : Sealed) (team run : string) : string :=
  match kind with
  | Continuation => continuation_aad team run
  | Recovery => recovery_aad team run
  | _ => incident_aad team run
  end.
(** [put_continuation], [put_recovery] and [put_incident]: only a recovery snapshot
    is written once. *)
Definition put_record (kind : Sealed) (lock : TeamLock.TeamLock) (run payload : string) : kept_op unit :=
  pass (run_id_of run) >>> fun run =>
  if negb ((1 <=? slen payload) && (slen payload <=? sealed_maximum kind)) then pass (inl InvalidRecord)
  else sealed_write lock (record_name run kind) payload (record_aad kind (TeamLock.team lock) run) kind
         match kind with Recovery => true | _ => false end.
Definition read_record (kind : Sealed) (lock : TeamLock.TeamLock) (run : string) : kept_op (option string) :=
  pass (run_id_of run) >>> fun run => sealed_read lock (record_name run kind) (record_aad kind (TeamLock.team lock) run) kind.
Definition delete_record (kind : Sealed) (lock : TeamLock.TeamLock) (run : string) : kept_op unit :=
  pass (run_id_of run) >>> fun run => sealed_delete lock (record_name run kind).
Definition put_continuation : TeamLock.TeamLock -> string -> string -> kept_op unit := put_record Continuation.
Definition put_recovery : TeamLock.TeamLock -> string -> string -> kept_op unit := put_record Recovery.
Definition put_incident : TeamLock.TeamLock -> string -> string -> kept_op unit := put_record Incident.
Definition read_continuation (lock : TeamLock.TeamLock) (run : string) : kept_op string :=
  read_record Continuation lock run >>> fun found => pass match found with Some payload => inr payload | None => inl Unavailable end.
Definition read_recovery : TeamLock.TeamLock -> string -> kept_op (option string) := read_record Recovery.
Definition read_incident : TeamLock.TeamLock -> string -> kept_op (option string) := read_record Incident.

(** *** Cursors *)
Definition seal_cursor (lock : TeamLock.TeamLock) (c : Cursor.Cursor) : kept_op unit :=
  pass match encode c with Ok payload => inr payload | Err _ => inl InvalidRecord end >>> fun payload =>
  pass (run_id_of (Binding.run_id (Cursor.binding c))) >>> fun run =>
  sealed_write lock (record_name run SealedCursor) payload (cursor_aad (TeamLock.team lock) (Cursor.binding c)) SealedCursor false.
(** [cursor]: the run's cursor when one was sealed under exactly this binding. *)
Definition read_cursor (lock : TeamLock.TeamLock) (b : Binding.Binding) : kept_op (option Cursor.Cursor) :=
  pass (run_id_of (Binding.run_id b)) >>> fun run =>
  sealed_read lock (record_name run SealedCursor) (cursor_aad (TeamLock.team lock) b) SealedCursor >>> fun found =>
  match found with
  | None => pass (inr None)
  | Some payload => pass match decode payload b with Ok c => inr (Some c) | Err _ => inl Malformed end
  end.
(** A sealed loss of protection stays. *)
Definition lost_cursor (c : Cursor.Cursor) : stored Cursor.Cursor :=
  match lose_protection c with Ok lost => inr lost | Err _ => inl InvalidRecord end.
Definition put_cursor (lock : TeamLock.TeamLock) (c : Cursor.Cursor) : kept_op unit :=
  (if Cursor.protection_lost c then pass (inr None) else read_cursor lock (Cursor.binding c)) >>> fun sealed =>
  if match sealed with Some sealed => Cursor.protection_lost sealed | None => false end
  then pass (lost_cursor c) >>> seal_cursor lock
  else seal_cursor lock c.
Definition lose_cursor (lock : TeamLock.TeamLock) (b : Binding.Binding) : kept_op unit :=
  read_cursor lock b >>> fun found =>
  match found with
  | Some sealed =>
      if Cursor.protection_lost sealed then pass (inr tt)
      else pass (lost_cursor sealed) >>> seal_cursor lock
  | None => pass (inr tt)
  end.
Definition delete_cursor : TeamLock.TeamLock -> string -> kept_op unit := delete_record SealedCursor.
Definition store_cursors (lock : TeamLock.TeamLock) : kept_op (list string) := sealed_names lock SealedCursor.

(** *** Removing a Team: every entry of its directory, then the directory *)
Fixpoint unlink_each (directory : Path) (names : list string) : io (StoreError + unit) :=
  match names with
  | [] => mret (inr tt)
  | name :: names =>
      try (map_err (fun _ => NotPersisted) (metadata (directory ++ [name]))) (fun node =>
        if negb (bool_decide (Node.kind node = KFile)) then mret (inl Unsafe)
        else try (map_err (fun _ => NotPersisted) (call (drop (directory ++ [name])))) (fun _ => unlink_each directory names))
  end.
Definition find_directory (p : Path) (e : StoreError) : io (StoreError + bool) :=
  map_err (fun _ => e) (call_or (reads (fun d =>
    match Disk.nodes d !! p with
    | None => inr false
    | Some n => if bool_decide (Node.kind n = KDirectory) && negb (Node.is_link n) then inr true else inl tt
    end))).
Definition remove_directory (root : Path) (name : string) : io (StoreError + unit) :=
  try (find_directory root Unavailable) (fun found =>
    if negb found then mret (inr tt)
    else try (find_directory (root ++ [name]) NotPersisted) (fun found =>
      if negb found then mret (inr tt)
      else try (map_err (fun _ => NotPersisted) (call (reads (fun d => map fst (entries_of d (root ++ [name])))))) (fun names =>
        try (unlink_each (root ++ [name]) names) (fun _ =>
          map_err (fun _ => NotPersisted) (call (drop (root ++ [name]))))))).
Definition on_disk_stored {A} (m : io (StoreError + A)) : kept_op A := fun s =>
  let '(d, r) := m (RoutineStore.disk s) in (s <| RoutineStore.disk := d |>, r).
Definition team_delete (lock : TeamLock.TeamLock) : kept_op unit :=
  look (fun s => RoutineStore.root s) >>> fun root =>
  on_disk_stored (remove_directory root (team_dir_name (TeamLock.team lock))) >>> fun _ => forget (TeamLock.team lock).
(** [owned_directories]: the Team directories, sorted. *)
Definition owned_directories (root : Path) : io (StoreError + list string) :=
  try (map_err (fun _ => Unavailable) (read_dir root)) (fun found =>
    let owned := List.filter (fun entry => SHA256_RE (fst entry)) (default [] found) in
    mret (if forallb (fun entry => bool_decide (Node.kind (snd entry) = KDirectory)) owned
          then inr (stable_sort sleb (map fst owned)) else inl Unsafe)).
Fixpoint remove_each (root : Path) (names : list string) : io (StoreError + unit) :=
  match names with
  | [] => mret (inr tt)
  | name :: names => try (remove_directory root name) (fun _ => remove_each root names)
  end.
Definition delete_all : kept_op unit :=
  look (fun s => RoutineStore.root s) >>> fun root =>
  on_disk_stored (try (owned_directories root) (remove_each root)) >>> fun _ =>
  change_store (fun s => s <| RoutineStore.decoded := [] |>) >>> fun _ =>
  look RoutineStore.keyring >>> fun keyring => on_disk_or NotPersisted (remove_file keyring).

(** [exclusive], and its release: writes are refused from then on, and the epoch has
    moved for every lock taken before. *)
Definition exclusive : Store -> Store := fun s =>
  s <| RoutineStore.closed := true |> <| RoutineStore.epoch := RoutineStore.epoch s + 1 |>.
Definition release_exclusive : Store -> Store := fun s => s <| RoutineStore.closed := false |>.

(** [teams]: every Team with state, read from the state files themselves. *)
Fixpoint read_unlocked (attempts : nat) (path : Path) (maximum : Z) : io (StateError + option string) :=
  match attempts with
  | O | 1%nat => read_private path maximum
  | S attempts =>
      r ← read_private path maximum;
      match r with inr payload => mret (inr payload) | inl _ => read_unlocked attempts path maximum end
  end.
Definition named_team (name payload : string) : stored string :=
  v ← match json_parse payload with Some v => inr v | None => inl Malformed end;
  match get v "team_id" with
  | Some (VString team) => _ ← require (is_some (canonical_team_id (text team)) && (team_dir_name team =s name)); mret team
  | _ => inl Malformed
  end.
Fixpoint teams_named (names : list string) : kept_op (list string) :=
  match names with
  | [] => pass (inr [])
  | name :: names =>
      look (fun s => (RoutineStore.root s ++ [name; "state.json"%string], RoutineStore.max_state_bytes s)) >>> fun '(path, maximum) =>
      on_disk (read_unlocked UNLOCKED_READ_ATTEMPTS path maximum) >>> fun found =>
      match found with
      | None => teams_named names
      | Some payload =>
          pass (named_team name payload) >>> fun team => teams_named names >>> fun teams => pass (inr (team :: teams))
      end
  end.
Definition store_teams : kept_op (list string) :=
  look (fun s => RoutineStore.root s) >>> fun root => on_disk_stored (owned_directories root) >>> teams_named.

(** *** The keyed digest of a shown result *)
Definition zeros (n : nat) : string := String.concat "" (repeat (String (byte_of 0) "") n).
Definition hkdf_sha256 (input info : string) : string :=
  let pseudorandom := hmac256 (zeros 32) input in hmac256 pseudorandom (info +:+ String (byte_of 1) "").
Definition output_digest (team : string) (b : Binding.Binding) (step material : string) : kept_op string :=
  pass (team_id_of team) >>> fun team =>
  store_key true >>> fun key =>
  let derived := hkdf_sha256 key "shimpz-routine-output-v1" in
  let message := framed_parts [text team; text (Binding.incarnation b); text (Binding.routine_id b); int (Binding.revision b);
                               text step; int (slen material)] +:+ String (byte_of 10) "" +:+ material in
  pass (inr (hex_of (hmac256 derived message))).
End Store.
