(* ===== verification/Diagnostics.v ===== *)
(** * Encrypted records of runs

    [local/src/routine/diagnostics/{mod,names,documents,view}.rs]: what a failed
    attempt, a step and a run left, each sealed in a file of the Team's own whose
    name and incarnation its associated data binds, within a bound per Team, and
    what a Supervisor reads of them. *)

From stdpp Require Import base tactics list strings gmap pretty.
From Stdlib Require Import ZArith Lia Ascii.
From S2P Require Import Prelude Text Json Reader Calendar Platform Requests Redaction Wire Instants Notices Schedule Plans Definitions RunDocuments Traces Disk Sealing RoutineStore.

#[local] Open Scope Z_scope.

(** ** Bounds *)
Definition RETENTION_SECONDS : Z := 7 * 86400.
Definition MAX_PLAINTEXT_BYTES : Z := 12 * 1024.
Definition MAX_STEP_PLAINTEXT_BYTES : Z := MAX_STEP_VIEW_BYTES + 2 * 1024.
Definition MAX_RUN_PLAINTEXT_BYTES : Z := 1024.
Definition MAX_TEAM_BYTES : Z := 24 * 1024 * 1024.
Definition sealed_bound (plaintext : Z) : Z := 4 * div_ceil (plaintext + 16) 3 + 256.
Definition MAX_FILE_BYTES : Z := sealed_bound MAX_STEP_PLAINTEXT_BYTES.

Module DiagnosticError.
Inductive DiagnosticError : Type :=
| InvalidTeam | InvalidIncarnation | InvalidRun | InvalidRecord | TooLarge | Protected | Malformed | Unauthentic | Unsafe
| Unavailable | NotPersisted | RunChanged | Disagree | Layout.
#[global] Instance DiagnosticError_eq_dec : EqDecision DiagnosticError.
Proof. solve_decision. Defined.
(** [From<StateError>]. *)
Definition from_state (e : StateError) : DiagnosticError :=
  match e with
  | StateUnsafe => Unsafe
  | StateTooLarge => TooLarge
  | StateNotPersisted => NotPersisted
  | StateUnauthentic => Unauthentic
  | StateLayout => Layout
  | StateMalformed | StateRecordLimit | StateInvalidKey => Malformed
  | StateUnavailable => Unavailable
  end.
(** [Display]. *)
Definition display (e : DiagnosticError) : string :=
  match e with
  | InvalidTeam => "Routine diagnostic Team is invalid"
  | InvalidIncarnation => "Routine diagnostic incarnation is invalid"
  | InvalidRun => "Routine run is invalid"
  | InvalidRecord => "Routine diagnostic is invalid"
  | TooLarge => "Routine diagnostic exceeds its fixed byte limit"
  | Protected => "Routine diagnostic would hold a protected value"
  | Malformed => "Routine diagnostic is malformed"
  | Unauthentic => "Routine diagnostic authentication failed"
  | Unsafe => "Routine diagnostics failed their ownership contract"
  | Unavailable => "Routine diagnostics are unavailable"
  | NotPersisted => "Routine diagnostic could not be persisted"
  | RunChanged => "Routine run records changed"
  | Disagree => "Routine run records disagree"
  | Layout => "Routine diagnostic keyring must be separate from its bodies"
  end.
End DiagnosticError.
Abbreviation DiagnosticError := DiagnosticError.DiagnosticError.
(** [Stored]. *)
Abbreviation dstored A := (DiagnosticError + A)%type (only parsing).

Definition diagnostic_team (value : string) : dstored string :=
  if is_some (canonical_team_id (VString value)) then inr value else inl DiagnosticError.InvalidTeam.
Definition diagnostic_incarnation (value : string) : dstored string :=
  if SHA256_RE value then inr value else inl DiagnosticError.InvalidIncarnation.

(** ** Protected values *)
(** The JSON text inside the quotes of a value. *)
Definition escaped_once (value : string) : string :=
  let quoted := dumps CANONICAL (text value) in upto (String.length quoted - 2) (from 1 quoted).
Definition forms (secret : string) : list string :=
  let once := escaped_once secret in
  let shown := escaped once in
  flat_map (fun value => [escaped_once value; value]) [secret; once; shown].
Definition holds_protected (payload : string) (protected : list string) : bool :=
  existsb (fun secret => existsb (fun form => has_sub form payload) (forms secret)) (List.filter (fun secret => negb (is_empty secret)) protected).

(** ** Records *)
Module Diagnostic.
Record Diagnostic : Type := mk {
  routine_id : string; run_id : string; operation_id : string; attempt : Z; assistant_id : string; action : string;
  position : Z; recorded_at : Z; failure : option Value; condition : option string
}.
Definition view (d : Diagnostic) : Value :=
  object [("operation_id", text (operation_id d)); ("attempt", int (attempt d)); ("assistant_id", text (assistant_id d));
          ("action", text (action d)); ("position", int (position d)); ("recorded_at", text (instant_text (recorded_at d)));
          ("failure", default VNull (failure d)); ("condition", Redaction.optional_text (condition d))]%string.
Definition name (d : Diagnostic) : string :=
  pretty (recorded_at d) +:+ "." +:+ routine_id d +:+ "." +:+ run_id d +:+ "." +:+ operation_id d +:+ "." +:+ pretty (attempt d)
  +:+ ".diagnostic".
End Diagnostic.
Module RunBinding.
Record RunBinding : Type := mk { routine_id : string; run_id : string; revision : Z; plan_digest : string; total : Z }.
Definition document (b : RunBinding) : list (string * Value) :=
  [("routine_id", text (routine_id b)); ("revision", int (revision b)); ("plan_digest", text (plan_digest b)); ("total", int (total b))]%string.
End RunBinding.
Module StepRecord.
Record StepRecord : Type := mk {
  binding : RunBinding.RunBinding; position : Z; assistant_id : string; action : string; status : string; attempt : Z;
  duration_ms : option Z; recorded_at : Z; inputs : option Value
}.
Definition wire_view (r : StepRecord) : list (string * Value) :=
  [("position", int (position r)); ("status", text (status r)); ("assistant_id", text (assistant_id r)); ("action", text (action r));
   ("attempt", int (attempt r)); ("duration_ms", match duration_ms r with Some ms => int ms | None => VNull end);
   ("inputs", default VNull (inputs r))]%string.
End StepRecord.
Module RunRecord.
Record RunRecord : Type := mk { binding : RunBinding.RunBinding; reached : Z; dispatched : bool; recorded_at : Z }.
End RunRecord.
(** The steps by position, in order. *)
Module RunSteps.
Record RunSteps : Type := mk { snapshot : string; steps : list (Z * Value); run : option Value }.
End RunSteps.
Definition BINDING_FIELDS : list string := ["routine_id"; "revision"; "plan_digest"; "total"]%string.

(** ** The names of bodies *)
Module Body.
Inductive Kind : Type := Diagnostic | Step | Run.
#[global] Instance Kind_eq_dec : EqDecision Kind.
Proof. solve_decision. Defined.
(** [Kind::bound]. *)
Definition bound (kind : Kind) : Z :=
  match kind with Diagnostic => MAX_PLAINTEXT_BYTES | Step => MAX_STEP_PLAINTEXT_BYTES | Run => MAX_RUN_PLAINTEXT_BYTES end.
Record Entry : Type := mk {
  name : string; kind : Kind; at_ : Z; routine : string; run : string; operation : option string; number : option string; size : Z
}.
Definition digits (s : string) (low high : Z) : bool := (low <=? slen s) && (slen s <=? high) && all_bytes is_digit s.
Definition hex (s : string) (length : Z) : bool := (slen s =? length) && all_bytes is_hex s.
Definition begins (p : ascii -> bool) (s : string) : bool := match s with String a _ => p a | EmptyString => false end.
Definition uuid4 (s : string) : bool :=
  match split_on "-" s with
  | [a; b; c; d; e] => hex a 8 && hex b 4 && hex c 4 && begins (one_of "4") c && hex d 4 && begins (one_of "89ab") d && hex e 12
  | _ => false
  end.
Definition of_parts (kind : Kind) (operation number : option string) (name when routine run : string) (size : Z) : option Entry :=
  if negb (digits when 1 12) || negb (hex routine 32) || negb (hex run 32) then None
  else recorded ← parse_int when; Some (mk name kind recorded routine run operation number size).
Definition parse (name : string) (size : Z) : option Entry :=
  match split_on "." name with
  | [when; routine; run; operation; attempt; suffix] =>
      if (suffix =s "diagnostic") && uuid4 operation && digits attempt 1 2
      then of_parts Diagnostic (Some operation) (Some attempt) name when routine run size else None
  | [when; routine; run; sequence; suffix] =>
      if (suffix =s "step") && digits sequence 1 5 then of_parts Step None (Some sequence) name when routine run size else None
  | [when; routine; run; suffix] => if suffix =s "run" then of_parts Run None None name when routine run size else None
  | _ => None
  end.
Definition leb (a b : Entry) : bool := (at_ a <? at_ b) || ((at_ a =? at_ b) && sleb (name a) (name b)).
End Body.

(** ** The shape of sealed documents *)
Section Shapes.
  Context {PF : Platform} {VO : Vocabulary}.
Definition bound_document (document : Value) : bool :=
  full_value ROUTINE_ID_RE (Json.at_ document "routine_id") && valid_revision (Json.at_ document "revision")
  && full_value PLAN_DIGEST_RE (Json.at_ document "plan_digest") && whole (Json.at_ document "total") 1 MAX_ROUTINE_STEPS.
Definition step_document (document : Value) (run : string) : bool :=
  match document with
  | VObject ms =>
      let view := VObject (List.filter (fun kv => negb (contains BINDING_FIELDS (fst kv))) ms) in
      let status := v ← get view "status"; as_str v in
      let position := v ← get view "position"; small_int v in
      ROUTINE_ID_RE run && bound_document document
      && match status with Some status => contains RUN_STEP_STATUSES status | None => false end
      && match position with
         | Some position => is_some (canonical_run_step view position (Json.at_ document "total"))
         | None => false
         end
  | _ => false
  end.
Definition run_document (document : Value) (run : string) : bool :=
  let fields := ["routine_id"; "revision"; "plan_digest"; "total"; "reached"; "dispatched"]%string in
  match document with
  | VObject ms =>
      let total := default 0 (v ← get document "total"; small_int v) in
      ROUTINE_ID_RE run && bound_document document && (len ms =? len fields) && forallb (fun kv => contains fields (fst kv)) ms
      && match v ← get document "reached"; small_int v with Some reached => (0 <=? reached) && (reached <=? total) | None => false end
      && match get document "dispatched" with Some (VBool _) => true | _ => false end
  | _ => false
  end.
End Shapes.

(** ** Evidence of a failed attempt *)
Inductive Fault : Type := FaultFailure (failure : Failure.Failure) | FaultCondition (condition : string) | FaultOther.
Definition evidence {B : Base64} {X : Regexes} (fault : Fault) (protection : Protection.Protection) : option (option Value * option string) :=
  match fault with
  | FaultFailure failure =>
      if Protection.lost protection then Some (Some (failure_document (failure_withheld failure)), None)
      else Some (Some (failure_document (redacted_with failure (Protection.values protection))), None)
  | FaultCondition condition => if CONDITION_RE condition then Some (None, Some condition) else None
  | FaultOther => None
  end.
(** [protected]: a stack of values still to search, the last taken first. *)
Fixpoint value_size (v : Value) : nat :=
  match v with
  | VArray items => S (list_sum (map value_size items))
  | VObject ms => S (list_sum (map (fun kv => value_size (snd kv)) ms))
  | _ => 1%nat
  end.
Fixpoint strings_pending (fuel : nat) (pending : list Value) (found : list string) : list string :=
  match fuel, pending with
  | S fuel, v :: pending =>
      match v with
      | VString s => strings_pending fuel pending (found ++ [s])
      | VObject ms => strings_pending fuel (rev (map snd ms) ++ pending) found
      | VArray items => strings_pending fuel (rev items ++ pending) found
      | _ => strings_pending fuel pending found
      end
  | _, _ => found
  end.
Definition injected_values (stored_inputs : list string) (integrations : Value) : list string :=
  strings_pending (value_size integrations) [integrations] stored_inputs.

(** ** The store *)
Module DiagnosticStore.
Record DiagnosticStore : Type := mk { root : Path; keyring : Path; max_team_bytes : Z }.
End DiagnosticStore.
Abbreviation DiagnosticStore := DiagnosticStore.DiagnosticStore.
(** A body about to be sealed. *)
Module Named.
Record Named : Type := mk { name : string; kind : Body.Kind; recorded_at : Z }.
End Named.

Section Store.
  Context {PF : Platform} {VO : Vocabulary} `{C : !Crypto} {F : Type} `{!System F}.
  Implicit Types st : DiagnosticStore.

(** *** Effects *)
Abbreviation dio A := (io (F := F) (DiagnosticError.DiagnosticError + A)%type).
Definition dpass {A} (r : dstored A) : dio A := mret r.
Definition dstate {A} (m : io (F := F) (StateError + A)) : dio A := map_err DiagnosticError.from_state m.

Definition diagnostics_new (root key_path : Path) : dstored DiagnosticStore :=
  if bool_decide (parent_of key_path = Some root) || starts_with key_path root then inl DiagnosticError.Layout
  else inr (DiagnosticStore.mk root key_path MAX_TEAM_BYTES).
Definition diagnostics_dir st (team : string) : Path := DiagnosticStore.root st ++ [sha256_hex team].

(** [aad]. *)
Definition diagnostic_aad (team incarnation name : string) : string :=
  dumps FRAMING (VArray [text "shimpz-local-routine-diagnostic-v1"; text team; text incarnation; text name]).
(** [unlink] and [symlink_metadata]. *)
Definition unlink (p : Path) : dio unit := map_err (fun _ => DiagnosticError.NotPersisted) (remove_file p).

(** *** The Team's bodies, oldest first, then by name *)
Fixpoint entries_named (directory : Path) (names : list string) : dio (list Body.Entry) :=
  match names with
  | [] => dpass (inr [])
  | name :: names =>
      if is_some (Body.parse name 0)
      then try (map_err (fun _ => DiagnosticError.Unavailable) (metadata (directory ++ [name]))) (fun node =>
             if negb (bool_decide (Node.kind node = KFile) && negb (Node.is_link node)) then dpass (inl DiagnosticError.Unsafe)
             else try (entries_named directory names) (fun found =>
                    dpass (inr (option_list (Body.parse name (slen (Node.content node))) ++ found))))
      else entries_named directory names
  end.
Definition entries (directory : Path) : dio (list Body.Entry) :=
  try (map_err (fun _ => DiagnosticError.Unavailable) (read_dir directory)) (fun listed =>
    match listed with
    | None => dpass (inr [])
    | Some listed => try (entries_named directory (map fst listed)) (fun found => dpass (inr (stable_sort Body.leb found)))
    end).

(** *** Sealing one body *)
Fixpoint unlink_spent (directory : Path) (recorded_at : Z) (replaced : Body.Entry -> bool) (found : list Body.Entry) : dio (list Body.Entry) :=
  match found with
  | [] => dpass (inr [])
  | entry :: found =>
      if replaced entry || (Body.at_ entry <=? recorded_at - RETENTION_SECONDS)
      then try (unlink (directory ++ [Body.name entry])) (fun _ => unlink_spent directory recorded_at replaced found)
      else try (unlink_spent directory recorded_at replaced found) (fun kept => dpass (inr (entry :: kept)))
  end.
Fixpoint unlink_oldest st (directory : Path) (size total : Z) (kept : list Body.Entry) : dio unit :=
  match kept with
  | [] => dpass (inr tt)
  | entry :: kept =>
      if total + size <=? DiagnosticStore.max_team_bytes st then dpass (inr tt)
      else try (unlink (directory ++ [Body.name entry])) (fun _ => unlink_oldest st directory size (total - Body.size entry) kept)
  end.
Definition make_room st (directory : Path) (recorded_at size : Z) (replaced : Body.Entry -> bool) : dio unit :=
  try (entries directory) (fun found =>
  try (unlink_spent directory recorded_at replaced found) (fun kept =>
  unlink_oldest st directory size (zsum (map Body.size kept)) kept)).
Definition body_value (sealed : Envelope.Envelope) (incarnation : string) : Value :=
  VObject (members (envelope_value sealed) ++ [("incarnation"%string, text incarnation)]).
Definition directory_error (e : DirectoryError) : DiagnosticError :=
  match e with DirectoryUnsafe => DiagnosticError.Unsafe | DirectoryUnavailable => DiagnosticError.Unavailable end.
Definition seal_body st (team incarnation : string) (named : Named.Named) (document : Value) (protected : list string)
  (replaced : Body.Entry -> bool) : dio unit :=
  let payload := dumps CANONICAL document in
  if Body.bound (Named.kind named) <? slen payload then dpass (inl DiagnosticError.TooLarge)
  else if holds_protected payload protected then dpass (inl DiagnosticError.Protected)
  else
    try (dstate (load_key (DiagnosticStore.keyring st) true)) (fun key =>
    let aad := diagnostic_aad team incarnation (Named.name named) in
    try (sealed ← draw (seal key payload aad); dpass match sealed with Some sealed => inr sealed | None => inl DiagnosticError.Unavailable end) (fun sealed =>
    let envelope := canonical (body_value sealed incarnation) in
    try (uid ← reads Disk.euid; map_err directory_error (ensure_directory (DiagnosticStore.root st) (directory_private uid))) (fun _ =>
    let directory := diagnostics_dir st team in
    try (make_room st directory (Named.recorded_at named) (slen envelope) replaced) (fun _ =>
    dstate (write_private (directory ++ [Named.name named]) envelope))))).

Definition replaces (d : Diagnostic.Diagnostic) (entry : Body.Entry) : bool :=
  bool_decide (Body.kind entry = Body.Diagnostic) && (Body.routine entry =s Diagnostic.routine_id d) && (Body.run entry =s Diagnostic.run_id d)
  && bool_decide (Body.operation entry = Some (Diagnostic.operation_id d)) && bool_decide (Body.number entry = Some (pretty (Diagnostic.attempt d))).
Definition record st (team incarnation : string) (d : Diagnostic.Diagnostic) (protected : list string) : dio unit :=
  try (dpass (diagnostic_team team)) (fun team =>
  try (dpass (diagnostic_incarnation incarnation)) (fun incarnation =>
  let view := Diagnostic.view d in
  if negb (is_some (canonical_diagnostic view)) || negb (ROUTINE_ID_RE (Diagnostic.routine_id d)) || negb (ROUTINE_ID_RE (Diagnostic.run_id d))
  then dpass (inl DiagnosticError.InvalidRecord)
  else seal_body st team incarnation (Named.mk (Diagnostic.name d) Body.Diagnostic (Diagnostic.recorded_at d)) view protected (replaces d))).

Definition step_name (r : StepRecord.StepRecord) (sequence : Z) : string :=
  let b := StepRecord.binding r in
  pretty (StepRecord.recorded_at r) +:+ "." +:+ RunBinding.routine_id b +:+ "." +:+ RunBinding.run_id b +:+ "." +:+ pretty sequence +:+ ".step".
Definition sequences (run : string) (found : list Body.Entry) : list Z :=
  omap (fun entry => if bool_decide (Body.kind entry = Body.Step) && (Body.run entry =s run) then number ← Body.number entry; parse_int number else None) found.
Definition record_step st (team incarnation : string) (r : StepRecord.StepRecord) (protected : list string) : dio unit :=
  try (dpass (diagnostic_team team)) (fun team =>
  try (dpass (diagnostic_incarnation incarnation)) (fun incarnation =>
  let b := StepRecord.binding r in
  let document := object (RunBinding.document b ++ StepRecord.wire_view r) in
  if negb (step_document document (RunBinding.run_id b)) then dpass (inl DiagnosticError.InvalidRecord)
  else
    try (entries (diagnostics_dir st team)) (fun found =>
    let sequence := 1 + fold_right Z.max 0 (sequences (RunBinding.run_id b) found) in
    seal_body st team incarnation (Named.mk (step_name r sequence) Body.Step (StepRecord.recorded_at r)) document protected (fun _ => false)))).

Definition run_name (r : RunRecord.RunRecord) : string :=
  let b := RunRecord.binding r in
  pretty (RunRecord.recorded_at r) +:+ "." +:+ RunBinding.routine_id b +:+ "." +:+ RunBinding.run_id b +:+ ".run".
Definition record_run st (team incarnation : string) (r : RunRecord.RunRecord) : dio unit :=
  try (dpass (diagnostic_team team)) (fun team =>
  try (dpass (diagnostic_incarnation incarnation)) (fun incarnation =>
  let b := RunRecord.binding r in
  let document := object (RunBinding.document b ++ [("reached", int (RunRecord.reached r)); ("dispatched", VBool (RunRecord.dispatched r))]%string) in
  if negb (run_document document (RunBinding.run_id b)) then dpass (inl DiagnosticError.InvalidRecord)
  else seal_body st team incarnation (Named.mk (run_name r) Body.Run (RunRecord.recorded_at r)) document []
         (fun entry => bool_decide (Body.kind entry = Body.Run) && (Body.run entry =s RunBinding.run_id b)))).

(** *** Opening one body: another incarnation's authentic body is [None] *)
Definition body_incarnation (v : Value) : dstored (string * Value) :=
  match v with
  | VObject ms =>
      match get v "incarnation" with
      | Some (VString named) =>
          if SHA256_RE named && (len ms =? 4) then inr (named, VObject (List.filter (fun kv => negb (fst kv =s "incarnation")) ms))
          else inl DiagnosticError.Malformed
      | _ => inl DiagnosticError.Malformed
      end
  | _ => inl DiagnosticError.Malformed
  end.
Definition body_bounds (kind : Body.Kind) : Bounds.Bounds := Bounds.mk MAX_FILE_BYTES (Body.bound kind).
Definition open_body st (directory : Path) (team incarnation : string) (entry : Body.Entry) : dio (option Value) :=
  let maximum := Body.bound (Body.kind entry) in
  try (dstate (read_private (directory ++ [Body.name entry]) (sealed_bound maximum))) (fun found =>
  match found with
  | None => dpass (inr None)
  | Some raw =>
      try (dpass match json_parse raw with Some v => inr v | None => inl DiagnosticError.Malformed end) (fun v =>
      try (dpass (body_incarnation v)) (fun '(named, plain) =>
      try (dpass match admit_envelope plain (body_bounds (Body.kind entry)) with Some sealed => inr sealed | None => inl DiagnosticError.Malformed end) (fun sealed =>
      try (dstate (load_key (DiagnosticStore.keyring st) false)) (fun key =>
      try (dpass match open_envelope sealed key (diagnostic_aad team named (Body.name entry)) with
                 | Some payload => inr payload | None => inl DiagnosticError.Unauthentic end) (fun payload =>
      dpass (if negb (named =s incarnation) then inr None
             else match json_parse payload with
                  | Some (VObject ms) => inr (Some (VObject ms))
                  | _ => inl DiagnosticError.Malformed
                  end))))))
  end).
(** [diagnostic]. *)
Definition diagnostic_of (entry : Body.Entry) (view : Value) : Diagnostic.Diagnostic :=
  let string_of key := match get view key with Some (VString s) => s | _ => EmptyString end in
  let number_of key := default 0 (v ← get view key; small_int v) in
  Diagnostic.mk (Body.routine entry) (Body.run entry) (string_of "operation_id"%string) (number_of "attempt"%string)
    (string_of "assistant_id"%string) (string_of "action"%string) (number_of "position"%string) (Body.at_ entry)
    (let failure := default VNull (get view "failure") in if is_null failure then None else Some failure)
    match get view "condition" with Some (VString condition) => Some condition | _ => None end.

(** *** Reading *)
Fixpoint read_each st (directory : Path) (team incarnation run : string) (now : Z) (found : list Body.Entry) : dio (list Diagnostic.Diagnostic) :=
  match found with
  | [] => dpass (inr [])
  | entry :: found =>
      if negb (bool_decide (Body.kind entry = Body.Diagnostic)) || negb (Body.run entry =s run) || (Body.at_ entry <=? now - RETENTION_SECONDS)
      then read_each st directory team incarnation run now found
      else
        try (open_body st directory team incarnation entry) (fun opened =>
        match opened with
        | None => read_each st directory team incarnation run now found
        | Some opened =>
            if negb (is_some (canonical_diagnostic opened)) then dpass (inl DiagnosticError.Malformed)
            else try (read_each st directory team incarnation run now found) (fun rest => dpass (inr (diagnostic_of entry opened :: rest)))
        end)
  end.
Definition recorded_leb (a b : Diagnostic.Diagnostic) : bool :=
  (Diagnostic.recorded_at a <? Diagnostic.recorded_at b)
  || ((Diagnostic.recorded_at a =? Diagnostic.recorded_at b)
      && match String.compare (Diagnostic.operation_id a) (Diagnostic.operation_id b) with
         | Lt => true | Gt => false | Eq => Diagnostic.attempt a <=? Diagnostic.attempt b
         end).
Definition newest {A} (count : Z) (l : list A) : list A := skipn (Z.to_nat (len l - count)) l.
Definition read_diagnostics st (team incarnation run : string) (now : Z) : dio (list Diagnostic.Diagnostic) :=
  try (dpass (diagnostic_team team)) (fun team =>
  try (dpass (diagnostic_incarnation incarnation)) (fun incarnation =>
  if negb (ROUTINE_ID_RE run) then dpass (inl DiagnosticError.InvalidRun)
  else
    let directory := diagnostics_dir st team in
    try (entries directory) (fun found =>
    try (read_each st directory team incarnation run now found) (fun found =>
    dpass (inr (newest MAX_RUN_DIAGNOSTICS (stable_sort recorded_leb found))))))).

(** [snapshot_of]: the names of the bodies and the digests of their bytes. *)
Definition newline : string := String (byte_of 10) EmptyString.
Definition SPACED : Options := mkOptions true false false.
Fixpoint snapshot_lines (directory : Path) (retained : list Body.Entry) : dio string :=
  match retained with
  | [] => dpass (inr EmptyString)
  | entry :: retained =>
      try (dstate (read_private (directory ++ [Body.name entry]) MAX_FILE_BYTES)) (fun raw =>
      let line := dumps SPACED (VArray [text (Body.name entry); text (sha256_hex (default EmptyString raw))]) in
      try (snapshot_lines directory retained) (fun rest => dpass (inr (line +:+ newline +:+ rest))))
  end.
Definition snapshot_of (directory : Path) (retained : list Body.Entry) : dio string :=
  try (snapshot_lines directory retained) (fun lines => dpass (inr (upto 32 (sha256_hex lines)))).

(** [BTreeMap::insert], in the order of positions. *)
Fixpoint put_position {A} (position : Z) (a : A) (l : list (Z * A)) : list (Z * A) :=
  match l with
  | [] => [(position, a)]
  | (p, b) :: rest =>
      if position <? p then (position, a) :: l else if position =? p then (position, a) :: rest else (p, b) :: put_position position a rest
  end.
Definition at_position {A} (position : Z) (l : list (Z * A)) : option A :=
  option_map snd (List.find (fun kv => fst kv =? position) l).
Fixpoint records st (directory : Path) (team incarnation run : string) (retained : list Body.Entry)
  (steps : list (Z * (Z * Value))) (record_ : option Value) : dio (list (Z * (Z * Value)) * option Value) :=
  match retained with
  | [] => dpass (inr (steps, record_))
  | entry :: retained =>
      try (open_body st directory team incarnation entry) (fun opened =>
      match opened with
      | None => records st directory team incarnation run retained steps record_
      | Some opened =>
          if bool_decide (Body.kind entry = Body.Run)
          then if negb (run_document opened run) then dpass (inl DiagnosticError.Malformed)
               else records st directory team incarnation run retained steps (Some opened)
          else if negb (step_document opened run) then dpass (inl DiagnosticError.Malformed)
          else
            let sequence := default 0 (number ← Body.number entry; parse_int number) in
            let position := default 0 (small_int (Json.at_ opened "position")) in
            let newer := match at_position position steps with Some (kept, _) => kept <? sequence | None => true end in
            records st directory team incarnation run retained
              (if newer then put_position position (sequence, opened) steps else steps) record_
      end)
  end.
Definition is_record (entry : Body.Entry) : bool := bool_decide (Body.kind entry = Body.Step) || bool_decide (Body.kind entry = Body.Run).
Definition run_steps st (team incarnation run : string) (now : Z) (snapshot : string) : dio RunSteps.RunSteps :=
  try (dpass (diagnostic_team team)) (fun team =>
  try (dpass (diagnostic_incarnation incarnation)) (fun incarnation =>
  let directory := diagnostics_dir st team in
  try (entries directory) (fun found =>
  let retained := List.filter (fun entry => is_record entry && (Body.run entry =s run) && (now - RETENTION_SECONDS <? Body.at_ entry)) found in
  try (snapshot_of directory retained) (fun current =>
  if negb (snapshot =s "latest") && negb (snapshot =s current) then dpass (inl DiagnosticError.RunChanged)
  else try (records st directory team incarnation run retained [] None) (fun '(steps, record_) =>
       dpass (inr (RunSteps.mk current (map (fun kv => (fst kv, snd (snd kv))) steps) record_))))))).
Definition latest_run st (team routine : string) (now : Z) : dio (option string) :=
  try (dpass (diagnostic_team team)) (fun team =>
  try (entries (diagnostics_dir st team)) (fun found =>
  let found := map (fun entry => (Body.at_ entry, Body.run entry))
                 (List.filter (fun entry => is_record entry && (Body.routine entry =s routine) && (now - RETENTION_SECONDS <? Body.at_ entry)) found) in
  dpass (inr match map fst found with
             | [] => None
             | first :: others =>
                 let last := fold_right Z.max first others in
                 match string_set (map snd (List.filter (fun kv : Z * string => fst kv =? last) found)) with
                 | [run] => Some run
                 | _ => None
                 end
             end))).

(** *** Removing *)
Fixpoint unlink_where (directory : Path) (p : Body.Entry -> bool) (found : list Body.Entry) : dio unit :=
  match found with
  | [] => dpass (inr tt)
  | entry :: found =>
      if p entry then try (unlink (directory ++ [Body.name entry])) (fun _ => unlink_where directory p found)
      else unlink_where directory p found
  end.
Definition delete_routine st (team routine : string) : dio unit :=
  try (dpass (diagnostic_team team)) (fun team =>
  let directory := diagnostics_dir st team in
  try (entries directory) (unlink_where directory (fun entry => Body.routine entry =s routine))).
(** [std::fs::remove_dir]: only an empty directory; an absent one is gone already. *)
Definition remove_empty (directory : Path) : io (F := F) (unit + unit) :=
  call_or (node ← reads (fun d => Disk.nodes d !! directory);
           inside ← reads (fun d => entries_of d directory);
           match node with
           | None => mret (inr tt)
           | Some node =>
               if bool_decide (Node.kind node = KDirectory) && negb (Node.is_link node) && match inside with [] => true | _ => false end
               then _ ← drop directory; mret (inr tt) else mret (inl tt)
           end).
(** [remove]. *)
Definition remove_bodies (directory : Path) : dio unit :=
  try (entries directory) (fun found =>
  try (unlink_where directory (fun _ => true) found) (fun _ =>
  map_err (fun _ => DiagnosticError.NotPersisted) (remove_empty directory))).
Definition delete_team st (team : string) : dio unit :=
  try (dpass (diagnostic_team team)) (fun team => remove_bodies (diagnostics_dir st team)).
Fixpoint remove_teams st (names : list string) : dio unit :=
  match names with
  | [] => dpass (inr tt)
  | name :: names => try (remove_bodies (DiagnosticStore.root st ++ [name])) (fun _ => remove_teams st names)
  end.
Definition delete_teams st : dio unit :=
  try (map_err (fun _ => DiagnosticError.Unavailable) (read_dir (DiagnosticStore.root st))) (fun listed =>
  match listed with
  | None => unlink (DiagnosticStore.keyring st)
  | Some listed =>
      try (remove_teams st (stable_sort sleb (List.filter SHA256_RE (map fst listed)))) (fun _ => unlink (DiagnosticStore.keyring st))
  end).

(** ** What a Supervisor reads *)
Inductive StepsError : Type := StepsChanged | StepsNotFound | StepsUnavailable.
Definition run_diagnostics st (team incarnation run : string) (now : Z) : dio Value :=
  try (read_diagnostics st team incarnation run now) (fun found =>
  let view := object [("team_id", text team); ("run_id", text run); ("diagnostics", VArray (map Diagnostic.view found))]%string in
  dpass match canonical_diagnostics view with Some view => inr view | None => inl DiagnosticError.Malformed end).

(** [binding_of]: the binding every retained record agrees on. *)
Definition SORTED_SPACED : Options := mkOptions true true false.
Definition binding_members (item : Value) : Value := object (map (fun name => (name, Json.at_ item name)) BINDING_FIELDS).
Fixpoint agreed (found : option Value) (items : list Value) : dstored (option Value) :=
  match items with
  | [] => inr found
  | item :: items =>
      let binding := binding_members item in
      match found with
      | Some known =>
          if negb (dumps SORTED_SPACED known =s dumps SORTED_SPACED binding) then inl DiagnosticError.Disagree else agreed found items
      | None => agreed (Some binding) items
      end
  end.
Definition run_binding_of (r : RunSteps.RunSteps) : dstored (option Value) :=
  agreed None (map snd (RunSteps.steps r) ++ option_list (RunSteps.run r)).
Definition gap (position : Z) (status : string) : Value :=
  object [("position", int position); ("status", text status); ("assistant_id", VNull); ("action", VNull); ("attempt", VNull);
          ("duration_ms", VNull); ("inputs", VNull)]%string.
Definition run_reached (r : RunSteps.RunSteps) : option (Z * bool) :=
  run ← RunSteps.run r;
  reached ← (v ← get run "reached"; small_int v);
  Some (reached, match get run "dispatched" with Some (VBool true) => true | _ => false end).
Definition step_entry (r : RunSteps.RunSteps) (position : Z) : Value :=
  match at_position position (RunSteps.steps r) with
  | Some record_ => object (map (fun name => (name, Json.at_ record_ name)) RUN_STEP_FIELDS)
  | None =>
      match run_reached r with
      | Some (reached, dispatched) =>
          if (reached + 1 <? position) || ((position =? reached + 1) && negb dispatched) then gap position "not_run" else gap position "unavailable"
      | None => gap position "unavailable"
      end
  end.
Definition total_of (binding : Value) : Z := default 0 (v ← get binding "total"; small_int v).
Definition positions_to (total : Z) : list Z := map (fun i => Z.of_nat i) (seq 1 (Z.to_nat total)).
Definition last_step (r : RunSteps.RunSteps) (position : Z) : Value :=
  let found := step_entry r position in
  let status := Json.at_ found "status" in
  let gapped := match status with VString s => contains RUN_STEP_GAPS s | _ => false end in
  let kept := gapped || negb (is_null (Json.at_ found "inputs")) in
  object [("position", int position); ("status", if kept then status else text "unavailable")]%string.
(** A refusal shows no run at all. *)
Definition last_run st (team incarnation routine : string) (now : Z) : io (F := F) (option Value) :=
  latest ← latest_run st team routine now;
  match latest with
  | inr (Some run) =>
      found ← run_steps st team incarnation run now "latest";
      mret match found with
           | inr r =>
               match run_binding_of r with
               | inr (Some binding) =>
                   Some (object [("revision", Json.at_ binding "revision"); ("steps", VArray (map (last_step r) (positions_to (total_of binding))))]%string)
               | _ => None
               end
           | inl _ => None
           end
  | _ => mret None
  end.
Definition steps_error (e : DiagnosticError) : StepsError :=
  match e with DiagnosticError.RunChanged => StepsChanged | _ => StepsUnavailable end.
Definition run_page st (team incarnation run snapshot : string) (offset now : Z) : io (F := F) (StepsError + Value) :=
  try (map_err steps_error (run_steps st team incarnation run now snapshot)) (fun r =>
  mret match run_binding_of r with
       | inl _ => inl StepsUnavailable
       | inr None => inl StepsNotFound
       | inr (Some binding) =>
           let total := total_of binding in
           if negb ((0 <=? offset) && (offset <? total)) then inl StepsNotFound
           else match paged (fun position => Some (step_entry r position)) offset total with
                | None => inl StepsUnavailable
                | Some steps =>
                    let following := offset + len steps in
                    let view := object [("team_id", text team); ("run_id", text run); ("routine_id", Json.at_ binding "routine_id");
                                        ("revision", Json.at_ binding "revision"); ("plan_digest", Json.at_ binding "plan_digest");
                                        ("total", int total); ("snapshot", text (RunSteps.snapshot r)); ("offset", int offset);
                                        ("steps", VArray steps); ("next", if (following =? total)%Z then VNull else int following)]%string in
                    match canonical_run_steps view with Some view => inr view | None => inl StepsUnavailable end
                end
       end).
End Store.
