(* ===== verification/Service.v ===== *)
(** * The Routine service around a run

    [local/src/routine/{protection,state,contracts}.rs], [local/src/routine/service/mod.rs],
    [local/src/routine/incident/mod.rs] and the sealed view of
    [local/src/routine/replay/mod.rs]: the values each run protects in this boot, a
    write of a Team's state that first marks the runs whose protection is lost, the
    recovery snapshot a run seals before it dispatches anything, and the evidence of
    a held run.  The journal, the Team and the clock are interfaces. *)

From stdpp Require Import base tactics list strings gmap pretty.
From Stdlib Require Import ZArith Lia Ascii.
From S2P Require Import Prelude Text Json Reader Causes Calendar Platform Requests Redaction Executor Wire Instants Notices Schedule Dates Starts Plans Team Definitions Claims Runs Holds Cursors Journal RunDocuments Projection Credentials Walk Traces Outputs Admission StateCodec Disk Sealing RoutineStore Diagnostics.

#[local] Open Scope Z_scope.

(** ** Problems *)
Module Problem.
Record Problem : Type := mk { status : Z; message : string; code : option string; retry_after_ms : option Z; cause : option Cause.Cause }.
Definition new (status : Z) (message code : string) : Problem := mk status message (Some code) None None.
End Problem.
Abbreviation Problem := Problem.Problem.
Definition routine_state_unavailable : Problem := Problem.new 503 "Team Routine state is unavailable" "routine-state-unavailable".
Definition action_state_unavailable : Problem := Problem.new 503 "Team Action execution state is unavailable" "action-state-unavailable".
Definition routine_lease_invalid : Problem := Problem.new 409 "Routine run lease is not live" "routine-lease-invalid".
Definition routine_incident_unavailable : Problem := Problem.new 404 "Routine incident is unavailable" "routine-incident-unavailable".
Definition routine_card_stale : Problem := Problem.new 409 "the recovery card is stale; open it again" "routine-card-stale".
Definition routine_not_found : Problem := Problem.new 404 "Routine is unavailable" "routine-not-found".

(** ** What a run protects *)
Module RunProtections.
Record RunProtections : Type := mk { boot : string; runs : gmap string Protection.Protection }.
End RunProtections.
Abbreviation RunProtections := RunProtections.RunProtections.
Definition of_boot (boot : string) : RunProtections := RunProtections.mk boot ∅.
(** [RunProtections::new]. *)
Definition protections_new {E} `{!Entropy E} (e : E) : E * option RunProtections :=
  let '(e, token) := token_hex 16 e in (e, option_map of_boot token).
Definition held_protection (run_id : string) (p : RunProtections) : option Protection.Protection := RunProtections.runs p !! run_id.
Definition keep_protection (run_id : string) (found : Protection.Protection) (p : RunProtections) : RunProtections :=
  RunProtections.mk (RunProtections.boot p) (<[run_id := found]> (RunProtections.runs p)).
Definition bind (run_id : string) (p : RunProtections) : RunProtections * Protection.Protection :=
  let found := default no_protection (held_protection run_id p) in (keep_protection run_id found p, found).
Definition current (run_id boot : string) (p : RunProtections) : RunProtections * Protection.Protection :=
  match (if boot =s RunProtections.boot p then held_protection run_id p else None) with
  | Some found => (p, found)
  | None => (keep_protection run_id lost_protection p, lost_protection)
  end.
(** [RunProtections::grow]. *)
Definition grow_run (run_id : string) (values : list string) (p : RunProtections) : RunProtections * Protection.Protection :=
  let grown := grow (default lost_protection (held_protection run_id p)) values in (keep_protection run_id grown p, grown).
Definition drop_run (run_id : string) (p : RunProtections) : RunProtections :=
  RunProtections.mk (RunProtections.boot p) (delete run_id (RunProtections.runs p)).
Definition clear_runs (p : RunProtections) : RunProtections := RunProtections.mk (RunProtections.boot p) ∅.

(** ** The journal as Routines use it *)
Class RoutineJournal (J : Type) : Type := {
  batch_of : string -> J -> J * option (option (string * string));
  operations_of : string -> string -> J -> J * option (list OperationRecord.OperationRecord);
  archive_batch : string -> string -> J -> J * option unit;
  release_batch : string -> string -> J -> J * option unit;
  discard_generation : string -> J -> J * option unit;
  purge_generation : string -> J -> J * option unit;
  uncertain_of : string -> J -> J * option (option string);
  end_settled_of : string -> J -> J * option unit
}.
Definition available {F E A} (m : journaled F E A) (j : Journal.Journal F E) : Journal.Journal F E * option A :=
  let '(j, r) := m j in (j, match r with Done a => Some a | Journal.Refused _ => None end).
#[global] Instance journal_routines {F E} `{!Engine F} `{!Entropy E} {PF : Platform} : RoutineJournal (Journal.Journal F E) := {|
  batch_of := fun g => available (current_batch g);
  operations_of := fun g fp => available (Journal.snapshot g fp);
  archive_batch := fun g fp => available (archive g fp);
  release_batch := fun g fp => available (release_archive g fp);
  discard_generation := fun g => available (discard g);
  purge_generation := fun g => available (purge g);
  uncertain_of := fun g => available (uncertain_fingerprint g);
  end_settled_of := fun g => available (end_settled g)
|}.

(** ** The Team as it runs now *)
Module ActiveAssistant.
Record ActiveAssistant : Type := mk {
  id : string; actions : list ActionSpec.ActionSpec;
  (** [action_pins] of what a Routine pins of it. *)
  pins : list string -> option (list (string * string))
}.
End ActiveAssistant.
Module TeamScope.
Record TeamScope : Type := mk { network_id : string; assistants : list ActiveAssistant.ActiveAssistant }.
End TeamScope.
Module WorkloadState.
Record WorkloadState : Type := mk { running : bool; started_at : option Z }.
End WorkloadState.
Definition scope_assistant (scope : TeamScope.TeamScope) (id : string) : option ActiveAssistant.ActiveAssistant :=
  List.find (fun active => ActiveAssistant.id active =s id) (TeamScope.assistants scope).
Definition assistant_action (active : ActiveAssistant.ActiveAssistant) (id : string) : option ActionSpec.ActionSpec :=
  List.find (fun action => ActionSpec.id action =s id) (ActiveAssistant.actions active).

(** [contracts]: each Action with its current pin; the last of a name wins. *)
Definition contract_of (pin : string) (action : ActionSpec.ActionSpec) : ActionContract.ActionContract :=
  ActionContract.mk pin (ActionSpec.input_schema action) (ActionSpec.input_files action) (ActionSpec.output_schema action)
    (ActionSpec.effect action =s "read_only") (stable_sort sleb (ActionSpec.stored_inputs action)).
Definition assistant_contracts (active : ActiveAssistant.ActiveAssistant) : Contracts :=
  match ActiveAssistant.pins active (map ActionSpec.id (ActiveAssistant.actions active)) with
  | None => []
  | Some pins =>
      omap (fun action =>
              pin ← option_map snd (List.find (fun kv => fst kv =s ActionSpec.id action) pins);
              Some ((ActiveAssistant.id active, ActionSpec.id action), contract_of pin action)) (ActiveAssistant.actions active)
  end.
Definition contracts (assistants : list ActiveAssistant.ActiveAssistant) : Contracts := rev (flat_map assistant_contracts assistants).

(** What else surrounds the service. *)
Class Surroundings (U : Type) : Type := {
  surroundings_entropy :: Entropy U;
  (** The clock in epoch seconds, and the monotonic clock in nanoseconds. *)
  epoch_now : U -> U * Z;
  monotonic_now : U -> U * Z;
  (** The executions and registered runs. *)
  run_executing : string -> U -> U * bool;
  run_overdue : string -> U -> U * bool;
  (** Whether the Stop of the run's execution was asked for. *)
  run_stopped : string -> U -> U * bool;
  (** The audit of an event that failed. *)
  audit_later : string -> string -> string -> U -> U;
  (** The audit of an event, and whether it went well. *)
  audit_event : string -> bool -> string -> string -> U -> U;
  (** Whether the deadline of the run's recovery episode cut it. *)
  deadline_fired : string -> U -> U * bool;
  team_network : string -> U -> U * option string;
  team_scope : string -> U -> U * (Problem + TeamScope.TeamScope);
  workload_state : string -> string -> string -> U -> U * option WorkloadState.WorkloadState
}.

(** ** Recovery snapshots and the evidence of a hold *)
Definition INCIDENT_VERSION : Z := 1.
Module Snapshot.
Record Recovery : Type := mk { binding : Binding.Binding; name : string; plan : Value }.
Definition steps (r : Recovery) : list Value := match get (plan r) "steps" with Some (VArray steps) => steps | _ => [] end.
Definition document (r : Recovery) : list (string * Value) :=
  let b := binding r in
  [("binding", VArray [text (Binding.incarnation b); text (Binding.routine_id b); int (Binding.revision b); text (Binding.run_id b)]);
   ("name", text (name r)); ("plan", plan r)]%string.
(** [Recovery::sealed]. *)
Definition sealed (r : Recovery) : string := canonical (object (("version"%string, int INCIDENT_VERSION) :: document r)).
End Snapshot.
Abbreviation SnapshotOf := Snapshot.Recovery.
Module OpenedRecovery.
Record OpenedRecovery : Type := mk { recovery : SnapshotOf; cursor : Cursor.Cursor }.
End OpenedRecovery.
Module Evidence.
Record Evidence : Type := mk {
  routine_id : string; generation : string; fingerprint : option string; operations : list Value; recovery : option SnapshotOf
}.
End Evidence.
Definition EVIDENCE_FIELDS : list string :=
  ["version"; "incident_id"; "routine_id"; "generation"; "fingerprint"; "operations"; "recovery"]%string.
Definition binding_of (v : Value) : option Binding.Binding :=
  match v with
  | VArray [incarnation; routine; revision; run] =>
      revision ← small_int revision; incarnation ← as_str incarnation; routine ← as_str routine; run ← as_str run;
      Some (Binding.mk incarnation routine revision run)
  | _ => None
  end.

Section Documents.
  Context {PF : Platform} {VO : Vocabulary}.
Definition plan_digest (r : SnapshotOf) : string := Plans.digest (Snapshot.plan r).
(** [Recovery::of_run] and [Recovery::runs]. *)
Definition of_run (r : SnapshotOf) (routine_id generation : string) : bool :=
  let b := Snapshot.binding r in
  (Binding.routine_id b =s routine_id) && bool_decide (network_of generation (Binding.run_id b) = Some (Binding.incarnation b)).
Definition runs_cursor (r : SnapshotOf) (c : Cursor.Cursor) : bool := Cursor.plan c =s plan_digest r.
Definition read_snapshot (v : Value) (run_id : string) : option SnapshotOf :=
  _ ← exact_object v ["binding"; "name"; "plan"]%string;
  name ← get v "name";
  binding ← (b ← get v "binding"; binding_of b);
  named ← as_str name;
  plan ← get v "plan";
  if binding_valid binding && (Binding.run_id binding =s run_id) && exact_name name && well_formed plan
  then Some (Snapshot.mk binding named plan) else None.
Definition read_sealed (payload run_id : string) : option SnapshotOf :=
  v ← json_parse payload;
  match v with
  | VObject ms =>
      match get v "version" with
      | Some (VNumber (NInt version)) =>
          if version =? INCIDENT_VERSION then read_snapshot (VObject (List.filter (fun kv => negb (fst kv =s "version")) ms)) run_id else None
      | _ => None
      end
  | _ => None
  end.
Definition state_of (e : Evidence.Evidence) (operation_id : option string) : option string :=
  operation_id ← operation_id;
  head (omap (fun item =>
          match item with
          | VArray fields =>
              match fields !! 1%nat, fields !! 2%nat with
              | Some (VString id), Some (VString state) => if id =s operation_id then Some state else None
              | _, _ => None
              end
          | _ => None
          end) (Evidence.operations e)).
Definition operation_evidence (r : OperationRecord.OperationRecord) : Value :=
  VArray [text (OperationRecord.interrupt_id r); text (OperationRecord.operation_id r); text (OperationRecord.state r);
          int (OperationRecord.attempts r); Cursors.optional (OperationRecord.origin r)].
(** [incident::evidence]. *)
Definition evidence_of (incident_id : string) (value : Run.Run) (fingerprint : option string) (operations : list OperationRecord.OperationRecord)
  (snapshot : option SnapshotOf) : string :=
  dumps CANONICAL (object
    [("version", int INCIDENT_VERSION); ("incident_id", text incident_id); ("routine_id", text (Run.routine_id value));
     ("generation", text (Run.generation value)); ("fingerprint", Cursors.optional fingerprint);
     ("operations", VArray (map operation_evidence operations));
     ("recovery", match snapshot with Some snapshot => object (Snapshot.document snapshot) | None => VNull end)]%string).
Definition with_recovery (e : Evidence.Evidence) (recovery : Value) (incident_id : string) : option Evidence.Evidence :=
  if is_null recovery then Some e
  else
    snapshot ← read_snapshot recovery incident_id;
    if of_run snapshot (Evidence.routine_id e) (Evidence.generation e)
    then Some (Evidence.mk (Evidence.routine_id e) (Evidence.generation e) (Evidence.fingerprint e) (Evidence.operations e) (Some snapshot))
    else None.
Definition read_evidence (payload incident_id : string) : option Evidence.Evidence :=
  v ← json_parse payload;
  _ ← exact_object v EVIDENCE_FIELDS;
  match at_ v "operations" with
  | VArray operations =>
      if negb (match at_ v "version" with VNumber (NInt version) => version =? INCIDENT_VERSION | _ => false end && is_str (at_ v "incident_id") incident_id)
      then None
      else
        fingerprint ← match at_ v "fingerprint" with VNull => Some None | VString s => Some (Some s) | _ => None end;
        routine_id ← as_str (at_ v "routine_id");
        generation ← as_str (at_ v "generation");
        with_recovery (Evidence.mk routine_id generation fingerprint operations None) (at_ v "recovery") incident_id
  | _ => None
  end.
End Documents.

(** ** The service *)
Module Service.
Record Service {F J U : Type} : Type := mk {
  store : RoutineStore.RoutineStore F; diagnostics : DiagnosticStore; protections : RunProtections; journal : J; around : U
}.
Arguments Service : clear implicits.
Arguments mk {F J U}.
#[global] Instance eta_service {F J U} : Eta (Service F J U) := fun s => mk (store s) (diagnostics s) (protections s) (journal s) (around s).
End Service.
#[global] Instance upd_service_store {F J U} : Upd (@Service.store F J U) := ltac:(solve_upd).
#[global] Instance upd_service_protections {F J U} : Upd (@Service.protections F J U) := ltac:(solve_upd).
#[global] Instance upd_service_journal {F J U} : Upd (@Service.journal F J U) := ltac:(solve_upd).
#[global] Instance upd_service_around {F J U} : Upd (@Service.around F J U) := ltac:(solve_upd).

Section Services.
  Context {PF : Platform} {VO : Vocabulary} `{C : !Crypto} {F J U : Type} `{!System F} `{!RoutineJournal J} `{!Surroundings U}.
  Abbreviation Service := (Service.Service F J U).

(** *** Effects *)
Definition svc (A : Type) : Type := Service -> Service * A.
#[global] Instance svc_ret : MRet svc := fun A a s => (s, a).
#[global] Instance svc_bind : MBind svc := fun A B f m s => let '(s, a) := m s in f a s.
Definition attempt {Er A B} (m : svc (Er + A)) (f : A -> svc (Er + B)) : svc (Er + B) :=
  r ← m; match r with inl e => mret (inl e) | inr a => f a end.
Definition raising {Er Er' A} (e : Er') (m : svc (Er + A)) : svc (Er' + A) := r ← m; mret match r with inl _ => inl e | inr a => inr a end.
Definition unavailing {Er A} (e : Er) (m : svc (option A)) : svc (Er + A) := r ← m; mret match r with None => inl e | Some a => inr a end.
Definition looking {A} (f : Service -> A) : svc A := fun s => (s, f s).
(** A call of the store, of the diagnostics on the same disk, of the protections, of
    the journal and of what surrounds them. *)
Definition stored_call {A} (m : kept_op (F := F) A) : svc (StoreError + A) := fun s =>
  let '(st, r) := m (Service.store s) in (s <| Service.store := st |>, r).
Definition diagnostics_call {A} (m : DiagnosticStore -> io (F := F) (DiagnosticError + A)) : svc (DiagnosticError + A) := fun s =>
  let '(d, r) := m (Service.diagnostics s) (RoutineStore.disk (Service.store s)) in
  (s <| Service.store := (Service.store s) <| RoutineStore.disk := d |> |>, r).
Definition protections_call {A} (m : RunProtections -> RunProtections * A) : svc A := fun s =>
  let '(p, a) := m (Service.protections s) in (s <| Service.protections := p |>, a).
Definition journal_call {A} (m : J -> J * A) : svc A := fun s => let '(j, a) := m (Service.journal s) in (s <| Service.journal := j |>, a).
Definition around_call {A} (m : U -> U * A) : svc A := fun s => let '(u, a) := m (Service.around s) in (s <| Service.around := u |>, a).
Definition audit (operation team detail : string) : svc unit := around_call (fun u => (audit_later operation team detail u, tt)).
(** [RoutineService::now]. *)
Definition service_now : svc Z := around_call epoch_now.
Definition drawn {A} (m : drawing U A) : svc (result A) := around_call m.
(** [store.lock(team).and_then(..)]. *)
Definition under_lock {A} (team : string) (f : TeamLock.TeamLock -> kept_op (F := F) A) : svc (StoreError + A) :=
  stored_call (then_ (store_lock team) f).


(** [seal_recovery]: write-once, so every later segment reseals the same bytes. *)
Definition seal_recovery (team : string) (snapshot : SnapshotOf) : svc (Problem + unit) :=
  let payload := Snapshot.sealed snapshot in
  let run := Binding.run_id (Snapshot.binding snapshot) in
  if negb (is_some (read_sealed payload run)) then mret (inl routine_state_unavailable)
  else raising routine_state_unavailable (under_lock team (fun lock => put_recovery lock run payload)).
(** [snapshot_locked]. *)
Definition snapshot_locked (lock : TeamLock.TeamLock) (value : Run.Run) : svc (Problem + option SnapshotOf) :=
  attempt (raising routine_state_unavailable (stored_call (read_recovery lock (Run.run_id value)))) (fun payload =>
  mret match payload with
       | None => inr None
       | Some payload =>
           match read_sealed payload (Run.run_id value) with
           | Some snapshot => if of_run snapshot (Run.routine_id value) (Run.generation value) then inr (Some snapshot) else inl routine_state_unavailable
           | None => inl routine_state_unavailable
           end
       end).

(** ** What is sealed of a run *)
Definition SealedRun : Type := option (string * string) * option SnapshotOf * option Cursor.Cursor.
Definition sealed_locked (lock : TeamLock.TeamLock) (value : Run.Run) : svc (unit + SealedRun) :=
  attempt (unavailing tt (journal_call (batch_of (Run.generation value)))) (fun batch =>
  attempt (raising tt (snapshot_locked lock value)) (fun snapshot =>
  match snapshot with
  | None => mret (inr (batch, None, None))
  | Some snapshot =>
      attempt (raising tt (stored_call (read_cursor lock (Snapshot.binding snapshot)))) (fun found =>
      mret (if match found with Some found => negb (runs_cursor snapshot found) | None => false end then inl tt
            else inr (batch, Some snapshot, found)))
  end)).
Definition protection_lost_locked (lock : TeamLock.TeamLock) (value : Run.Run) : svc bool :=
  if is_empty (Run.generation value) then mret false
  else
    sealed ← sealed_locked lock value;
    match sealed with
    | inl _ => mret true
    | inr (_, snapshot, found) =>
        (** Without a snapshot, a cursor left behind cannot prove the protection held. *)
        runs ← stored_call (store_cursors lock);
        let unbound := match snapshot, runs with
                       | Some _, _ => Some false
                       | None, inr runs => Some (contains runs (Run.run_id value))
                       | None, inl _ => None
                       end in
        match unbound, found with
        | None, _ => mret true
        | Some unbound, None => mret unbound
        | Some _, Some found =>
            if Cursor.protection_lost found then mret true
            else
              held ← protections_call (current (Run.run_id value) (Cursor.boot found));
              if negb (Protection.lost held) then mret false
              else _ ← stored_call (lose_cursor lock (Cursor.binding found)); mret true
        end
    end.
Fixpoint lost_among (lock : TeamLock.TeamLock) (values : list Run.Run) : svc (list string) :=
  match values with
  | [] => mret []
  | value :: values =>
      lost ← protection_lost_locked lock value;
      rest ← lost_among lock values;
      mret (if lost : bool then Run.run_id value :: rest else rest)
  end.
Definition lost_runs (lock : TeamLock.TeamLock) (st : TeamRoutines.TeamRoutines) : svc (list string) := lost_among lock (live_runs st).

(** ** Writing a Team's state *)
Definition reconciled (st : TeamRoutines.TeamRoutines) (lost : list string) : TeamRoutines.TeamRoutines :=
  let marked := map Run.run_id (List.filter (fun r => contains lost (Run.run_id r) && negb (Run.protection_lost r)) (TeamRoutines.runs st)) in
  fold_left (fun st run_id => match run_lose_protection st run_id with Ok st => st | Err _ => st end) marked st.
(** [state::load]. *)
Definition load_state (team : string) : svc (Problem + TeamRoutines.TeamRoutines) :=
  raising routine_state_unavailable (under_lock team (fun lock => store_load lock)).
(** [update_locked]: the change sees the state after every lost run was marked in
    it; an unchanged state is not written. *)
Definition update_locked {T} (lock : TeamLock.TeamLock) (change : TeamRoutines.TeamRoutines -> svc (TeamRoutines.TeamRoutines * T)) : svc (Problem + T) :=
  attempt (raising routine_state_unavailable (stored_call (then_ (writable lock) (fun _ => store_load lock)))) (fun before =>
  lost ← lost_runs lock before;
  '(after, answer) ← change (reconciled before lost);
  if same_state after before (TeamLock.team lock) then mret (inr answer)
  else attempt (raising routine_state_unavailable (stored_call (save lock after))) (fun _ => mret (inr answer))).
Definition update_held {T} (team : string) (change : TeamLock.TeamLock -> TeamRoutines.TeamRoutines -> svc (TeamRoutines.TeamRoutines * T)) : svc (Problem + T) :=
  attempt (raising routine_state_unavailable (stored_call (store_lock team))) (fun lock => update_locked lock (change lock)).
Definition update_team {T} (team : string) (change : TeamRoutines.TeamRoutines -> svc (TeamRoutines.TeamRoutines * T)) : svc (Problem + T) :=
  update_held team (fun _ => change).
(** [applied]: whether the transition was admitted. *)
Definition applied (team : string) (transition : TeamRoutines.TeamRoutines -> drawing U TeamRoutines.TeamRoutines) : svc (Problem + bool) :=
  update_team team (fun st =>
    r ← drawn (transition st);
    mret match r with Ok next => (next, true) | Err _ => (st, false) end).
(** A transition that draws nothing. *)
Definition undrawn {A} (r : result A) : drawing U A := fun u => (u, r).
Definition or_unchanged (r : result TeamRoutines.TeamRoutines) (st : TeamRoutines.TeamRoutines) : TeamRoutines.TeamRoutines :=
  match r with Ok next => next | Err _ => st end.
Definition mark_lost (team run_id : string) : svc (Problem + unit) :=
  update_team team (fun st => mret (or_unchanged (run_lose_protection st run_id) st, tt)).
(** [protection_lost]. *)
Definition run_protection_lost (team : string) (value : Run.Run) : svc bool :=
  lock ← stored_call (store_lock team);
  match lock with inl _ => mret true | inr lock => protection_lost_locked lock value end.
Definition sealed_run (team : string) (value : Run.Run) : svc (unit + SealedRun) :=
  attempt (raising tt (stored_call (store_lock team))) (fun lock => sealed_locked lock value).

(** ** What durable state proves of a run *)
Inductive Progress : Type := NoProgress | AllDone | Partial.
Definition progress (team : string) (value : Run.Run) : svc Progress :=
  if is_empty (Run.generation value) then mret NoProgress
  else
    sealed ← sealed_run team value;
    mret match sealed with
         | inl _ => Partial
         | inr (batch, Some snapshot, Some found) =>
             if Nat.eqb (Cursor.step found) 0 && negb (is_some (Cursor.operation_id found)) then NoProgress
             else if negb (is_some (Cursor.operation_id found)) && Nat.eqb (Cursor.step found) (length (Snapshot.steps snapshot)) then AllDone
             else Partial
         | inr (batch, _, _) => if is_some batch then Partial else NoProgress
         end.
Definition sealed_shown (team : string) (value : Run.Run) : svc (option Value) :=
  sealed ← sealed_run team value;
  mret match sealed with inr (_, _, Some found) => Cursor.shown found | _ => None end.
Definition uncertain (value : Run.Run) (held : bool) : svc bool :=
  if held then mret true
  else if is_empty (Run.generation value) then mret false
  else found ← journal_call (uncertain_of (Run.generation value));
       mret match found with Some found => is_some found | None => true end.
Definition text_at (v : Value) (key : string) : option string := v ← get v key; as_str v.
Definition read_only_prefix (team : string) (value : Run.Run) : svc bool :=
  sealed ← sealed_run team value;
  match sealed with
  | inr (_, Some snapshot, Some found) =>
      loaded ← load_state team;
      mret match loaded with
           | inl _ => false
           | inr st =>
               match routine st (Run.routine_id value) with
               | Err _ => false
               | Ok current =>
                   if negb (Routine.revision current =? Binding.revision (Snapshot.binding snapshot)) then false
                   else
                     let read_only := omap (fun item =>
                       if match get item "read_only" with Some (VBool true) => true | _ => false end
                       then assistant ← text_at item "assistant"; action ← text_at item "action"; Some (assistant, action) else None) (Routine.permitted current) in
                     let reached := (Cursor.step found + if is_some (Cursor.operation_id found) then 1 else 0)%nat in
                     forallb (fun step =>
                       match text_at step "assistant", text_at step "action" with
                       | Some assistant, Some action => bool_decide ((assistant, action) ∈ read_only)
                       | _, _ => false
                       end) (take reached (Snapshot.steps snapshot))
               end
           end
  | _ => mret false
  end.
End Services.
