(* ===== verification/Replay.v ===== *)
(** * A run replayed from its plan

    [local/src/routine/replay/mod.rs] and [local/src/routine/executor/mod.rs]: the
    runtime that answers the turn engine from the plan, seals each dispatch in the
    run's cursor before its RPC, seals each completed step's selected values, and
    records what each attempt did.  It is state passing over the runtime's own fields
    and the service. *)

From stdpp Require Import base tactics list strings gmap pretty.
From Stdlib Require Import ZArith Lia Ascii.
From S2P Require Import Prelude Text Json Reader Causes Calendar Platform Requests Redaction Executor Wire Instants Notices Schedule Dates Starts Plans Team Definitions Claims Runs Holds Cursors Journal RunDocuments Projection Credentials Walk Traces Outputs Previews Admission StateCodec Disk Sealing RoutineStore Diagnostics Service.

#[local] Open Scope Z_scope.

(** ** Attempts that failed *)
Module FaultClass.
Inductive FaultClass : Type := Handled | Transport | Unquiesced | Policy | Other.
Definition as_str (f : FaultClass) : string :=
  match f with Handled => "handled" | Transport => "transport" | Unquiesced => "unquiesced" | Policy => "policy" | Other => "other" end.
End FaultClass.
Module FailedAttempt.
Record Failed : Type := mk {
  operation_id : string; fault : FaultClass.FaultClass; failure : option Failure.Failure; condition : option string; protected : list string
}.
End FailedAttempt.

(** ** The turns the engine asks for *)
Inductive TurnStatus : Type := TurnCompleted | TurnActionRequired.
Module RuntimeRequest.
Record ActionRequest : Type := mk { interrupt_id : string; assistant_id : string; action : string; input : Value }.
End RuntimeRequest.
Module RuntimeTurn.
Record RuntimeTurn : Type := mk { status : TurnStatus; reply : string; actions : list RuntimeRequest.ActionRequest }.
End RuntimeTurn.
Definition interrupt (index : nat) : string := "routine-step-" +:+ pretty (Z.of_nat index).

(** ** The runtime *)
Module Attempt.
Record Attempt : Type := mk { position : nat; started : Z; input : Value; protected : list string; ended : option Z }.
End Attempt.
Module Replay.
Record ReplayRuntime : Type := mk {
  team_id : string; plan : Plan.Plan; reply : string; protected : gmap string (list string);
  cursor : Cursor.Cursor; attempt : option Attempt.Attempt; failure : option string
}.
#[global] Instance eta_replay : Eta ReplayRuntime := fun r => mk (team_id r) (plan r) (reply r) (protected r) (cursor r) (attempt r) (failure r).
#[global] Instance upd_protected : Upd protected := ltac:(solve_upd).
#[global] Instance upd_cursor : Upd cursor := ltac:(solve_upd).
#[global] Instance upd_attempt : Upd attempt := ltac:(solve_upd).
#[global] Instance upd_failure : Upd failure := ltac:(solve_upd).
End Replay.
Abbreviation ReplayRuntime := Replay.ReplayRuntime.

Section Replays.
  Context {PF : Platform} {VO : Vocabulary} `{C : !Crypto} {F J U : Type} `{!System F} `{!RoutineJournal J} `{!Surroundings U}.
  Context {T : CaseTables} {PT : Patterns} {SC : Schemas} {B : Base64} {X : Regexes}.
  Abbreviation Service := (Service.Service F J U).
  Abbreviation svc := (svc (F := F) (J := J) (U := U)).

(** *** Effects *)
Definition Running : Type := ReplayRuntime * Service.
Definition rop (A : Type) : Type := Running -> Running * A.
#[global] Instance rop_ret : MRet rop := fun A a s => (s, a).
#[global] Instance rop_bind : MBind rop := fun A B f m s => let '(s, a) := m s in f a s.
Definition trying {A B} (m : rop (string + A)) (f : A -> rop (string + B)) : rop (string + B) :=
  r ← m; match r with inl e => mret (inl e) | inr a => f a end.
Definition serving {A} (m : svc A) : rop A := fun s => let '(sv, a) := m (snd s) in ((fst s, sv), a).
Definition seeing {A} (f : ReplayRuntime -> A) : rop A := fun s => (s, f (fst s)).
Definition setting (f : ReplayRuntime -> ReplayRuntime) : rop unit := fun s => ((f (fst s), snd s), tt).

(** [ReplayRuntime::fail]: the first reason stays. *)
Definition fail (code : string) : rop string :=
  _ ← setting (fun r => r <| Replay.failure := Some (default code (Replay.failure r)) |>); mret code.
Definition or_fail {A} (r : result A) : rop (string + A) :=
  match r with Ok a => mret (inr a) | Err e => code ← fail e; mret (inl code) end.
Definition replay_seal (c : Cursor.Cursor) : rop (string + unit) :=
  team ← seeing Replay.team_id;
  sealed ← serving (under_lock team (fun lock => put_cursor lock c));
  match sealed with
  | inl _ => code ← fail "routine-cursor-unavailable"; mret (inl code)
  | inr _ => _ ← setting (fun r => r <| Replay.cursor := c |>); mret (inr tt)
  end.
(** [ReplayRuntime::protect]. *)
Definition protect (values : list string) : rop Protection.Protection :=
  team ← seeing Replay.team_id;
  current ← seeing Replay.cursor;
  let run_id := Binding.run_id (Cursor.binding current) in
  found ← serving (protections_call (grow_run run_id values));
  _ ← (if Protection.lost found && negb (Cursor.protection_lost current) then
         _ ← (match lose_protection current with
              | Ok lost => _ ← replay_seal lost; mret tt
              | Err e => _ ← fail e; mret tt
              end : rop unit);
         marked ← serving (mark_lost team run_id);
         match marked with inl _ => _ ← fail "routine-state-unavailable"; mret tt | inr _ => mret tt end
       else mret tt : rop unit);
  mret found.
Definition protection : rop Protection.Protection := protect [].

(** [ReplayRuntime::turn]; a cursor past the plan would index out of range. *)
Definition turn : rop (string + RuntimeTurn.RuntimeTurn) :=
  current ← seeing Replay.cursor;
  plan ← seeing Replay.plan;
  reply ← seeing Replay.reply;
  if done_ current plan then mret (inr (RuntimeTurn.mk TurnCompleted reply []))
  else
    match Plan.steps plan !! Cursor.step current with
    | None => mret (inl "panic"%string)
    | Some step =>
        trying (or_fail (resolve plan step (cursor_selections current) (Cursor.started_at current) (fun _ => true))) (fun resolved =>
        mret (inr (RuntimeTurn.mk TurnActionRequired ""
               [RuntimeRequest.mk (interrupt (Cursor.step current)) (Step.assistant_id step) (Step.action step) resolved])))
    end.
(** [ReplayRuntime::begin]. *)
Definition replay_begin : rop (string + RuntimeTurn.RuntimeTurn) :=
  current ← seeing Replay.cursor;
  if carried (Cursor.episode current) then
    trying (or_fail (retry current)) (fun retried =>
    trying (replay_seal retried) (fun _ => turn))
  else turn.

(** *** Shown results *)
Definition slot (team : string) (b : Binding.Binding) (step : Step.Step) (position : nat) (result_ : Value) (protection : Protection.Protection)
  : svc (string + Value) :=
  let position := int (Z.of_nat position) in
  let unavailable := object [("step", text (Step.step_id step)); ("output", output_state position "unavailable"); ("digest", VNull)]%string in
  if Protection.lost protection then mret (inr unavailable)
  else
    match output_safe result_ (Step.output_schema step) (Protection.values protection) with
    | None => mret (inr unavailable)
    | Some node =>
        attempt (match output_compared node with
                 | None => mret (inr VNull)
                 | Some material =>
                     raising "routine-cursor-unavailable"%string
                       (digest ← stored_call (output_digest team b (Step.step_id step) material);
                        mret match digest with inl e => inl e | inr digest => inr (text digest) end)
                 end : svc (string + Value)) (fun digest =>
        mret (inr (object [("step", text (Step.step_id step)); ("output", output_shown position node); ("digest", digest)]%string)))
    end.
(** [advance]: the cursor past its completed step. *)
Definition replay_advance (team : string) (current : Cursor.Cursor) (plan : Plan.Plan) (result_ : Value) (protection : Protection.Protection)
  : svc (string + Cursor.Cursor) :=
  attempt (match plan_shown plan with
           | Some shown =>
               if Nat.eqb (Cursor.step current + 1) (length (Plan.steps plan)) then
                 attempt (slot team (Cursor.binding current) shown (Cursor.step current + 1) result_ protection) (fun s => mret (inr (Some s)))
               else mret (inr None)
           | None => mret (inr None)
           end : svc (string + option Value)) (fun slot =>
  mret match complete current plan result_ slot with Ok next => inr next | Err e => inl e end).

(** *** Records of attempts *)
Definition run_binding (b : Binding.Binding) (plan : Plan.Plan) : RunBinding.RunBinding :=
  RunBinding.mk (Binding.routine_id b) (Binding.run_id b) (Binding.revision b) (Plan.digest plan) (Z.of_nat (length (Plan.steps plan))).
(** [saturating_duration_since] in whole milliseconds of the nanosecond clock, as [i64]. *)
Definition elapsed_ms (ended started : Z) : Z := Z.min (2 ^ 63 - 1) (Z.max 0 (ended - started) / 1000000).
(** [ReplayRuntime::step_record]; an attempt is only ever of a step of the plan. *)
Definition step_record (status : string) (a : Attempt.Attempt) (current : Cursor.Cursor) (protection : Protection.Protection) (protected : list string)
  : rop (option StepRecord.StepRecord) :=
  plan ← seeing Replay.plan;
  match Plan.steps plan !! pred (Attempt.position a) with
  | None => mret None
  | Some step =>
      let inputs := if Protection.lost protection then None
                    else Some (input_preview plan step (Attempt.input a) (cursor_selections current) protected) in
      ended ← (match Attempt.ended a with Some ended => mret ended | None => serving (around_call monotonic_now) end : rop Z);
      now ← serving service_now;
      let duration_ms := if contains ["waiting"; "recovered"]%string status then None else Some (elapsed_ms ended (Attempt.started a)) in
      let record inputs := StepRecord.mk (run_binding (Cursor.binding current) plan) (Z.of_nat (Attempt.position a)) (Step.assistant_id step)
        (Step.action step) status (Z.max (Cursor.attempts current) 1) duration_ms now inputs in
      mret (Some (if MAX_STEP_VIEW_BYTES <? encoded_bytes (object (StepRecord.wire_view (record inputs))) then record None else record inputs))
  end.
(** [ReplayRuntime::record_step]: the attempt is taken, so it is recorded once. *)
Definition replay_record_step (status : string) (cursor : option Cursor.Cursor) : rop unit :=
  attempt ← seeing Replay.attempt;
  match attempt with
  | None => mret tt
  | Some a =>
      _ ← setting (fun r => r <| Replay.attempt := None |>);
      team ← seeing Replay.team_id;
      own ← seeing Replay.cursor;
      let current := default own cursor in
      protection ← protection;
      let protected := Attempt.protected a ++ Protection.values protection in
      record ← step_record status a current protection protected;
      match record with
      | None => mret tt
      | Some record =>
          let b := Cursor.binding current in
          kept ← serving (diagnostics_call (fun d => record_step d team (Binding.incarnation b) record protected));
          match kept with inl _ => serving (audit "routine-step-record" team (Binding.run_id b)) | inr _ => mret tt end
      end
  end.
(** [ReplayRuntime::advanced]: the completed step's selected values are sealed first. *)
Definition replay_advanced (results : Value) : rop (string + RuntimeTurn.RuntimeTurn) :=
  team ← seeing Replay.team_id;
  dispatched ← seeing Replay.cursor;
  plan ← seeing Replay.plan;
  trying (or_fail (ok_or "cursor-not-dispatched" (Plan.steps plan !! Cursor.step dispatched))) (fun step =>
  let result_ := default VNull (get results (interrupt (Cursor.step dispatched))) in
  trying (or_fail (secret_values result_ (Step.output_schema step))) (fun secrets =>
  protection ← protect secrets;
  failure ← seeing Replay.failure;
  match failure with
  | Some code => mret (inl code)
  | None =>
      trying (next ← serving (replay_advance team dispatched plan result_ protection);
              match next with inl e => code ← fail e; mret (inl code) | inr next => mret (inr next) end) (fun next =>
      trying (replay_seal next) (fun _ =>
      _ ← replay_record_step "done" (Some dispatched);
      turn))
  end)).

(** *** The hooks around a dispatch *)
Definition logical_operation (request : Executor.ActionRequest.ActionRequest) : rop (option string) :=
  current ← seeing Replay.cursor;
  mret (if carried (Cursor.episode current) && (Executor.ActionRequest.interrupt_id request =s interrupt (Cursor.step current))
        then Cursor.operation_id current else None).
(** [ReplayRuntime::dispatched], the hook [dispatching]. *)
Definition replay_dispatched (request : Executor.ActionRequest.ActionRequest) (operation_id workload : string) (protected : list string)
  : rop (string + unit) :=
  current ← seeing Replay.cursor;
  plan ← seeing Replay.plan;
  if negb (Executor.ActionRequest.interrupt_id request =s interrupt (Cursor.step current))
  then code ← fail "routine-step-changed"; mret (inl code)
  else
    let cm := commitment (Executor.ActionRequest.input request) in
    now ← serving service_now;
    trying (or_fail (dispatch current plan operation_id cm workload now)) (fun dispatched =>
    trying (replay_seal dispatched) (fun _ =>
    _ ← protect protected;
    instant ← serving (around_call monotonic_now);
    _ ← setting (fun r => r <| Replay.attempt := Some (Attempt.mk (Cursor.step current + 1) instant (Executor.ActionRequest.input request) [] None) |>);
    mret (inr tt))).
(** [ReplayRuntime::returned_now], the hook [returned]. *)
Definition returned_now : rop unit :=
  attempt ← seeing Replay.attempt;
  match attempt with
  | Some (Attempt.mk position started input protected None) =>
      instant ← serving (around_call monotonic_now);
      setting (fun r => r <| Replay.attempt := Some (Attempt.mk position started input protected (Some instant)) |>)
  | _ => mret tt
  end.
Definition diagnose (request : Executor.ActionRequest.ActionRequest) (operation_id : string) (found : option Value * option string)
    (protection : Protection.Protection) : rop unit :=
  team ← seeing Replay.team_id;
  current ← seeing Replay.cursor;
  let b := Cursor.binding current in
  now ← serving service_now;
  let d := Diagnostic.mk (Binding.routine_id b) (Binding.run_id b) operation_id (Cursor.attempts current)
    (Executor.ActionRequest.assistant_id request) (Executor.ActionRequest.action request) (Z.of_nat (Cursor.step current + 1)) now (fst found) (snd found) in
  kept ← serving (diagnostics_call (fun st => Diagnostics.record st team (Binding.incarnation b) d (Protection.values protection)));
  match kept with inl _ => serving (audit "routine-diagnostic" team (Binding.run_id b)) | inr _ => mret tt end.
(** [ReplayRuntime::classified], the hook [failed]. *)
Definition classified (request : Executor.ActionRequest.ActionRequest) (f : FailedAttempt.Failed) : rop (string + unit) :=
  _ ← returned_now;
  current ← seeing Replay.cursor;
  trying (or_fail (failed current (FaultClass.as_str (FailedAttempt.fault f)))) (fun next =>
  trying (replay_seal next) (fun _ =>
  stopped ← serving (around_call (run_stopped (Binding.run_id (Cursor.binding current))));
  _ ← replay_record_step (if stopped : bool then "stopped" else "failed") None;
  _ ← setting (fun r => r <| Replay.protected := <[FailedAttempt.operation_id f := FailedAttempt.protected f]> (Replay.protected r) |>);
  protection ← protect (FailedAttempt.protected f);
  let fault := match FailedAttempt.failure f, FailedAttempt.condition f with
               | Some failure, _ => FaultFailure failure
               | None, Some condition => FaultCondition condition
               | None, None => FaultOther
               end in
  _ ← (match Diagnostics.evidence fault protection with
       | Some found => diagnose request (FailedAttempt.operation_id f) found protection
       | None => mret tt
       end : rop unit);
  mret (inr tt))).

(** ** Opening the runtime *)
Definition current_plan (team : string) (document : Value) : svc (string + Plan.Plan) :=
  scope ← around_call (team_scope team);
  mret match scope with
       | inl problem => inl (default "team-context-unavailable"%string (Problem.code problem))
       | inr scope => match admit_plan document (contracts (TeamScope.assistants scope)) with Ok plan => inr plan | Err e => inl e end
       end.
Definition reopened (team : string) (snapshot : SnapshotOf) : svc (string + option Cursor.Cursor) :=
  attempt (raising "routine-cursor-unavailable"%string (under_lock team (fun lock => read_cursor lock (Snapshot.binding snapshot)))) (fun found =>
  mret (if match found with Some found => negb (runs_cursor snapshot found) | None => false end
        then inl "cursor-plan-changed"%string else inr found)).
(** [RoutineService::started]. *)
Definition replay_started (plan : Plan.Plan) (snapshot : SnapshotOf) (found : option Cursor.Cursor) : svc (string + Cursor.Cursor) :=
  let run_id := Binding.run_id (Snapshot.binding snapshot) in
  match found with
  | Some found => _ ← protections_call (current run_id (Cursor.boot found)); mret (inr found)
  | None =>
      _ ← protections_call (bind run_id);
      boot ← protections_call (fun p => (p, RunProtections.boot p));
      now ← service_now;
      mret match start plan (Snapshot.binding snapshot) now boot with Ok c => inr c | Err e => inl e end
  end.
(** What the run seals before its first dispatch. *)
Definition snapshot_of (network : string) (value : Run.Run) (routine : Routine.Routine) : SnapshotOf :=
  Snapshot.mk (Binding.mk network (Routine.routine_id routine) (Routine.revision routine) (Run.run_id value)) (Routine.name routine) (Routine.plan routine).
(** [RoutineService::runtime]. *)
Definition runtime (team : string) (value : Run.Run) (routine : Routine.Routine) (protected : gmap string (list string)) : svc (string + ReplayRuntime) :=
  match network_of (Run.generation value) (Run.run_id value) with
  | None => mret (inl "generation-invalid"%string)
  | Some network =>
      attempt (current_plan team (Routine.plan routine)) (fun plan =>
      let snapshot := snapshot_of network value routine in
      attempt (raising "routine-state-unavailable"%string (seal_recovery team snapshot)) (fun _ =>
      attempt (reopened team snapshot) (fun found =>
      attempt (replay_started plan snapshot found) (fun started =>
      fun s =>
        let replay := Replay.mk team plan (Routine.name routine) protected started None None in
        match found with
        | None => let '((replay, s), r) := replay_seal started (replay, s) in (s, match r with inl e => inl e | inr _ => inr replay end)
        | Some _ => let '((replay, s), _) := protection (replay, s) in (s, inr replay)
        end))))
  end.
(** [RoutineService::record_recovered]. *)
Definition record_recovered (team : string) (held completed : Cursor.Cursor) (plan : Plan.Plan) (protected : list string) : svc unit :=
  _ ← (if Cursor.protection_lost completed && negb (Cursor.protection_lost held)
       then _ ← mark_lost team (Binding.run_id (Cursor.binding held)); mret tt else mret tt : svc unit);
  let input := default (VObject []) (step ← Plan.steps plan !! Cursor.step held;
                 match resolve plan step (cursor_selections held) (Cursor.started_at held) (fun _ => true) with Ok v => Some v | Err _ => None end) in
  instant ← around_call monotonic_now;
  (fun s =>
    let replay := Replay.mk team plan "" ∅ completed (Some (Attempt.mk (Cursor.step held + 1) instant input protected None)) None in
    let '((_, s), _) := replay_record_step "recovered" (Some held) (replay, s) in (s, tt)) : svc unit.
End Replays.
