(* ===== verification/Recovery.v ===== *)
(** * Holding, recovering and ending runs

    [local/src/routine/incident/{hold,settle}.rs], [local/src/routine/recovery/],
    [local/src/routine/{lifecycle,watchdog}.rs], [run/{mod,finish}.rs] and
    [replay/execute.rs]: a hold's durable steps, what proves a held step's operation
    absent or completed, the one continuation of a run, what an ended run leaves, and
    how a leased run nothing drives ends.  The turn of the engine that calls a
    verifier is an interface; a panic is a value of [Halt]. *)

From stdpp Require Import base tactics list strings gmap pretty.
From Stdlib Require Import ZArith Lia Ascii.
From S2P Require Import Prelude Text Json Reader Causes Calendar Platform Requests Redaction Executor Wire Instants Notices Schedule Dates Starts Plans Team Definitions Claims Runs Holds Cursors Journal RunDocuments Projection Credentials Walk Traces Outputs Previews Admission StateCodec Disk Sealing RoutineStore Diagnostics Service Replay.

#[local] Open Scope Z_scope.

(** ** Refusals *)
Definition transition_problem (code : string) : Problem :=
  if contains ["incident-changed"; "routine-revision-changed"]%string code then routine_card_stale
  else if is_some (strip_prefix "routine-" code) || (code =s "notices-full") then Problem.new 409 "the Team cannot hold this Routine change" code
  else routine_incident_unavailable.
Definition incident_unverifiable : Problem := Problem.new 409 "Routine incident cannot be verified" "routine-incident-unverifiable".
Definition drift : Problem := Problem.new 409 "Routine contracts changed since the run" "routine-drift".
Definition context_unavailable : Problem := Problem.new 503 "Team capabilities could not be checked; retry" "team-context-unavailable".
(** What ends a call early: its problem, or an index out of range. *)
Inductive Halt : Type := Panics | Halts (p : Problem).
(** Why a held run's evidence could not be had. *)
Inductive Unread : Type := UnreadJournal | UnreadState.
Definition unread_problem (u : Unread) : Problem := match u with UnreadJournal => action_state_unavailable | UnreadState => routine_state_unavailable end.

(** Whether a Routine is being deleted. *)
Definition deleting (st : TeamRoutines.TeamRoutines) (routine_id : string) : bool :=
  existsb (fun item => (Routine.routine_id item =s routine_id) && Routine.deleting item) (TeamRoutines.routines st).
(** The call a sealed cursor stopped at: its current step, the last one once every step completed. *)
Definition held_call (step : nat) (steps : list Value) : HeldStep :=
  let index := Nat.min step (length steps - 1) in
  match steps !! index with
  | None => unknown_step
  | Some found =>
      let named key := match get found key with Some (VString s) => s | _ => ""%string end in
      (named "assistant"%string, named "action"%string, Some (Z.of_nat index + 1), Z.of_nat (length steps))
  end.

(** ** What proves a held step's operation absent *)
Definition VERIFY_INTERRUPT : string := "routine-verify".
Definition ABSENT_STATES : list string := ["no_effect"; "prepared"]%string.
Definition TRUSTED_FAULTS : list string := ["handled"; "transport"; "other"]%string.
Module Assessment.
Record Assessment : Type := mk {
  opened : OpenedRecovery.OpenedRecovery; plan : Plan.Plan; action : option ActionSpec.ActionSpec; network_id : string; state : option string
}.
Definition cursor (a : Assessment) : Cursor.Cursor := OpenedRecovery.cursor (opened a).
(** [Assessment::step]; [None] is the index out of range. *)
Definition step (a : Assessment) : option Step.Step := Plan.steps (plan a) !! Cursor.step (cursor a).
End Assessment.
Definition proven (a : Assessment.Assessment) : string :=
  let held := Assessment.cursor a in
  match Assessment.action a with
  | None => "none"
  | Some action =>
      if negb (is_some (Cursor.operation_id held)) then "none"
      else if Cursor.fault held =s "policy" then "policy"
      else if Cursor.fault held =s "unquiesced" then "unquiesced"
      else if Cursor.absent held || (contains ABSENT_STATES (default ""%string (Assessment.state a)) && negb (carried (Cursor.episode held))) then "absent"
      else if ActionSpec.effect action =s "read_only" then (if contains TRUSTED_FAULTS (Cursor.fault held) then "absent" else "unclassified")
      else "uncertain"
  end.
Definition blocked (held : Cursor.Cursor) : bool :=
  is_some (Cursor.operation_id held) && (contains ["policy"; "unquiesced"]%string (Cursor.fault held) || negb (Cursor.absent held)).

Section Verifying.
  Context {PF : Platform}.
(** The exact input of the operation, recomputed and bound by its sealed commitment. *)
Definition original_input (a : Assessment.Assessment) : option Value :=
  let held := Assessment.cursor a in
  step ← Assessment.step a;
  resolved ← match resolve (Assessment.plan a) step (cursor_selections held) (Cursor.started_at held) (fun _ => true) with Ok v => Some v | Err _ => None end;
  if ostring_eqb (Some (commitment resolved)) (Cursor.commitment held) then Some resolved else None.
Definition verifier_member (a : Assessment.Assessment) (original : Value) (kv : string * Value) : option (string * Value) :=
  value ← (if value_eqb (snd kv) (object [("from", text "operation_id")]%string) then option_map VString (Cursor.operation_id (Assessment.cursor a))
           else pointer ← get (snd kv) "pointer"; match select original pointer with Ok v => Some v | Err _ => None end);
  Some (fst kv, value).
(** The one call the descriptor defines; the step exists, since its Action was found. *)
Definition verifier_request (a : Assessment.Assessment) : option RuntimeRequest.ActionRequest :=
  verifier ← (action ← Assessment.action a; ActionSpec.verifier action);
  original ← original_input a;
  match get verifier "input" with
  | Some (VObject inputs) =>
      payload ← mapM (verifier_member a original) inputs;
      match get verifier "action" with
      | Some (VString action) =>
          step ← Assessment.step a;
          Some (RuntimeRequest.mk VERIFY_INTERRUPT (Step.assistant_id step) action (VObject payload))
      | _ => None
      end
  | _ => None
  end.
End Verifying.
(** What the verifier's result says at a member of its descriptor. *)
Definition verifier_found (a : Assessment.Assessment) (result_ : Value) (name : string) : option Value :=
  verifier ← (action ← Assessment.action a; ActionSpec.verifier action);
  pointer ← get verifier name;
  match select result_ pointer with Ok v => Some v | Err _ => None end.
(** What pauses the Routine when an episode ends on it. *)
Definition pause_reason (verdict : string) : option PauseReason :=
  if verdict =s "policy" then Some Policy
  else if verdict =s "exhausted" then Some Exhausted
  else if verdict =s "unclassified" then Some Evidence
  else None.
Definition RECOVERY_SECONDS : Z := 60.

(** The turn of the engine that makes the verifier's one call in its own generation: it
    reaches the service only by its hooks, which are given the private values of each
    dispatch, and answers what the turn was resumed with when it completed. *)
Class VerifierEngine (J U : Type) : Type :=
  verifier_turn : string -> string -> string -> list string -> RuntimeRequest.ActionRequest -> J * U -> (J * U) * (list (list string) * option Value).
(** The run's one recovery episode in this execution. *)
Module OpenEpisode.
Record Episode : Type := mk { seconds : Z; started : Z; published : bool }.
End OpenEpisode.

Section Recovering.
  Context {PF : Platform} {VO : Vocabulary} `{C : !Crypto} {F J U : Type} `{!System F} `{!RoutineJournal J} `{!Surroundings U} `{!VerifierEngine J U}.
  Context {T : CaseTables} {PT : Patterns} {SC : Schemas} {B : Base64} {X : Regexes}.
  Abbreviation svc := (svc (F := F) (J := J) (U := U)).
  Abbreviation state := TeamRoutines.TeamRoutines.

(** ** Losses of incidents *)
(** [sealed_loss]: whether an incident's cursor, under its sealed evidence's binding, records a
    lost protection; what cannot be read or names another run is taken as lost. *)
Definition sealed_loss (lock : TeamLock.TeamLock) (value : Run.Run) : svc bool :=
  sealed ← stored_call (read_incident lock (Run.run_id value));
  match sealed with
  | inl _ => mret true
  | inr sealed =>
      match sealed ≫= fun payload => read_evidence payload (Run.run_id value) with
      | None => mret true
      | Some held =>
          if negb ((Evidence.routine_id held =s Run.routine_id value) && (Evidence.generation held =s Run.generation value)) then mret true
          else
            match Evidence.recovery held with
            | None =>
                runs ← stored_call (store_cursors lock);
                mret match runs with inl _ => true | inr runs => contains runs (Run.run_id value) end
            | Some snapshot =>
                found ← stored_call (read_cursor lock (Snapshot.binding snapshot));
                mret match found with
                     | inr (Some found) =>
                         negb ((Binding.revision (Snapshot.binding snapshot) =? Run.revision value) && runs_cursor snapshot found) || Cursor.protection_lost found
                     | _ => true
                     end
            end
      end
  end.
Fixpoint losses_among (lock : TeamLock.TeamLock) (chosen : Run.Run -> bool) (items : list Run.Run) : svc (list string) :=
  match items with
  | [] => mret []
  | item :: items =>
      lost ← (if negb (Run.protection_lost item) && chosen item then sealed_loss lock item else mret false : svc bool);
      rest ← losses_among lock chosen items;
      mret (if lost : bool then Run.run_id item :: rest else rest)
  end.
Definition losses_marked (lock : TeamLock.TeamLock) (st : state) (chosen : Run.Run -> bool) : svc state :=
  marked ← losses_among lock chosen (incidents st);
  mret (fold_left (fun st run_id => or_unchanged (run_lose_protection st run_id) st) marked st).
Definition marking_losses {A} (team : string) (chosen : Run.Run -> bool) (change : state -> svc (state * A)) : svc (Problem + A) :=
  update_held team (fun lock st => st ← losses_marked lock st chosen; change st).

(** ** Terminal records *)
Definition seal_terminal_locked (lock : TeamLock.TeamLock) (run_id : string) (snapshot : option SnapshotOf) : svc unit :=
  match snapshot with
  | None => mret tt
  | Some snapshot =>
      found ← stored_call (read_cursor lock (Snapshot.binding snapshot));
      match found with
      | inr (Some found) =>
          if negb (runs_cursor snapshot found) then mret tt
          else
            let b := Snapshot.binding snapshot in
            now ← service_now;
            let terminal := RunRecord.mk
              (RunBinding.mk (Binding.routine_id b) run_id (Binding.revision b) (plan_digest snapshot) (Z.of_nat (length (Snapshot.steps snapshot))))
              (Z.of_nat (Cursor.step found)) (is_some (Cursor.operation_id found)) now in
            kept ← diagnostics_call (fun d => record_run d (TeamLock.team lock) (Binding.incarnation b) terminal);
            match kept with inl _ => audit "routine-run-record" (TeamLock.team lock) run_id | inr _ => mret tt end
      | _ => mret tt
      end
  end.
Definition seal_terminal (team run_id : string) (snapshot : option SnapshotOf) : svc unit :=
  lock ← stored_call (store_lock team);
  match lock with inl _ => mret tt | inr lock => seal_terminal_locked lock run_id snapshot end.

(** ** A held run, reopened *)
Definition unresolved (team incident_id : string) : svc (Problem + Run.Run) :=
  attempt (load_state team) (fun st =>
  mret match incident st incident_id with
       | Ok value => if status_eqb (Run.status value) Unresolved then inr value else inl routine_incident_unavailable
       | Err _ => inl routine_incident_unavailable
       end).
(** [open_recovery]: the incident's cursor under its own sealed binding. *)
Definition open_recovery (team incident_id : string) : svc (Problem + OpenedRecovery.OpenedRecovery) :=
  attempt (unresolved team incident_id) (fun indexed =>
  attempt (raising routine_state_unavailable (stored_call (store_lock team))) (fun lock =>
  attempt (raising routine_state_unavailable (stored_call (read_incident lock incident_id))) (fun sealed =>
  match sealed ≫= fun payload => read_evidence payload incident_id with
  | None => mret (inl routine_state_unavailable)
  | Some held =>
      match Evidence.recovery held with
      | None => mret (inl incident_unverifiable)
      | Some snapshot =>
          let b := Snapshot.binding snapshot in
          if negb ((Binding.routine_id b =s Run.routine_id indexed) && (Binding.revision b =? Run.revision indexed)) then mret (inl routine_state_unavailable)
          else
            attempt (raising routine_state_unavailable (stored_call (read_cursor lock b))) (fun found =>
            mret match found with
                 | Some found => if runs_cursor snapshot found then inr (OpenedRecovery.mk snapshot found) else inl routine_state_unavailable
                 | None => inl routine_state_unavailable
                 end)
      end
  end))).
(** [RoutineService::pause_incident]. *)
Definition pause_held (team incident_id : string) (reason : PauseReason) : svc (Problem + unit) :=
  now ← service_now;
  attempt (marking_losses team (fun item => Run.run_id item =s incident_id) (fun st =>
             r ← drawn (pause_incident st incident_id now reason);
             mret match r with Ok next => (next, None) | Err code => (st, Some code) end)) (fun refused =>
  mret match refused with None => inr tt | Some code => inl (transition_problem code) end).
Definition set_routine_paused (team routine_id : string) (paused : bool) : svc (Problem + Value) :=
  if negb (ROUTINE_ID_RE routine_id) then mret (inl routine_not_found)
  else
    attempt (applied team (fun st => undrawn (set_paused st routine_id paused))) (fun done =>
    if negb done then mret (inl routine_not_found)
    else
      _ ← around_call (fun u => (audit_event (if paused then "routine-pause" else "routine-resume") true team routine_id u, tt));
      mret (inr (object [("team_id", text team); ("routine_id", text routine_id); ("paused", VBool paused)]%string))).

(** ** A hold's durable steps *)
(** [seal_evidence]: an archived batch no evidence names was lost. *)
Definition seal_evidence (lock : TeamLock.TeamLock) (value : Run.Run) (current : option (string * string)) : svc (Unread + Evidence.Evidence) :=
  if match current with Some (_, state) => state =s "archived" | None => false end then mret (inl UnreadState)
  else
    let fingerprint := option_map fst current in
    attempt (match fingerprint with
             | Some fingerprint => unavailing UnreadJournal (journal_call (operations_of (Run.generation value) fingerprint))
             | None => mret (inr [])
             end : svc (Unread + list OperationRecord.OperationRecord)) (fun operations =>
    attempt (raising UnreadState (snapshot_locked lock value)) (fun snapshot =>
    let payload := evidence_of (Run.run_id value) value fingerprint operations snapshot in
    attempt (raising UnreadState (stored_call (put_incident lock (Run.run_id value) payload))) (fun _ =>
    mret match read_evidence payload (Run.run_id value) with Some e => inr e | None => inl UnreadState end))).
(** [held_evidence]: sealed now when there is none of this generation; then the batch is archived. *)
Definition held_evidence (team : string) (value : Run.Run) : svc (Unread + Evidence.Evidence) :=
  attempt (unavailing UnreadJournal (journal_call (batch_of (Run.generation value)))) (fun current =>
  attempt (raising UnreadState (stored_call (store_lock team))) (fun lock =>
  attempt (raising UnreadState (stored_call (read_incident lock (Run.run_id value)))) (fun payload =>
  attempt (mret match payload with
                | Some payload => match read_evidence payload (Run.run_id value) with Some e => inr (Some e) | None => inl UnreadState end
                | None => inr None
                end : svc (Unread + option Evidence.Evidence)) (fun sealed =>
  attempt (match sealed with
           | Some sealed => if Evidence.generation sealed =s Run.generation value then mret (inr sealed) else seal_evidence lock value current
           | None => seal_evidence lock value current
           end) (fun sealed =>
  if negb (ostring_eqb (Evidence.fingerprint sealed) (option_map fst current)) then mret (inl UnreadState)
  else
    attempt (match Evidence.fingerprint sealed with
             | Some fingerprint => unavailing UnreadJournal (journal_call (archive_batch (Run.generation value) fingerprint))
             | None => mret (inr tt)
             end : svc (Unread + unit)) (fun _ =>
    mret (inr sealed))))))).
(** [held_step]: [None] is a cursor of a Routine being deleted that cannot be read. *)
Definition stopped_step (team : string) (snapshot : option SnapshotOf) (being_deleted : bool) : svc (Problem + option HeldStep) :=
  match snapshot with
  | None => mret (inr (Some unknown_step))
  | Some snapshot =>
      found ← under_lock team (fun lock => read_cursor lock (Snapshot.binding snapshot));
      mret match found with
           | inr None => inr (Some unknown_step)
           | inr (Some found) => inr (Some (held_call (Cursor.step found) (Snapshot.steps snapshot)))
           | inl _ => if being_deleted then inr None else inl routine_state_unavailable
           end
  end.
Definition reconcile (team run_id : string) : svc (Problem + bool) :=
  attempt (load_state team) (fun st =>
  match List.find (fun item => Run.run_id item =s run_id) (TeamRoutines.runs st) with
  | None => mret (inr false)
  | Some value =>
      if negb (status_eqb (Run.status value) Team.Held) then mret (inr false)
      else
        let being_deleted := deleting st (Run.routine_id value) in
        held ← held_evidence team value;
        attempt (mret match held with
                      | inr held => inr (Some held)
                      | inl UnreadState => if being_deleted then inr None else inl routine_state_unavailable
                      | inl unread => inl (unread_problem unread)
                      end : svc (Problem + option Evidence.Evidence)) (fun held =>
        attempt (match held with
                 | None => mret (inr None)
                 | Some held => stopped_step team (Evidence.recovery held) being_deleted
                 end) (fun found =>
        _ ← (match found with None => audit "routine-evidence-lost" team run_id | Some _ => mret tt end : svc unit);
        now ← service_now;
        applied team (fun st => settle_hold st run_id now (default unknown_step found))))
  end).
(** [RoutineService::hold]. *)
Definition hold_run (team run_id : string) (lease : Lease.Lease) : svc (Problem + unit) :=
  now ← service_now;
  attempt (applied team (fun st => undrawn (fence st run_id lease now))) (fun fenced =>
  if negb fenced then mret (inl routine_lease_invalid)
  else attempt (reconcile team run_id) (fun _ => mret (inr tt))).

(** ** Releasing what a set-aside incident keeps *)
Definition release_evidence (team : string) (item : Run.Run) (being_deleted : bool) : svc (Problem + (option Evidence.Evidence * bool)) :=
  read ← under_lock team (fun lock => read_incident lock (Run.run_id item));
  match read with
  | inr None => mret (inr (None, false))
  | inr (Some payload) =>
      match read_evidence payload (Run.run_id item) with
      | Some held => mret (inr (Some held, false))
      | None => if being_deleted then _ ← audit "routine-evidence-lost" team (Run.run_id item); mret (inr (None, true))
                else mret (inl routine_state_unavailable)
      end
  | inl _ => if being_deleted then _ ← audit "routine-evidence-lost" team (Run.run_id item); mret (inr (None, true))
             else mret (inl routine_state_unavailable)
  end.
Definition purge_verification (generation run_id : string) : svc (Problem + unit) :=
  match verification_of generation run_id with
  | Ok verification => unavailing action_state_unavailable (journal_call (purge_generation verification))
  | Err _ => mret (inr tt)
  end.
Definition release_journal (team : string) (item : Run.Run) (held : option Evidence.Evidence) (being_deleted : bool) : svc (Problem + unit) :=
  attempt (match held with
           | Some held =>
               _ ← seal_terminal team (Run.run_id item) (Evidence.recovery held);
               match Evidence.fingerprint held with
               | Some fingerprint => unavailing action_state_unavailable (journal_call (release_batch (Run.generation item) fingerprint))
               | None => mret (inr tt)
               end
           | None => if being_deleted then unavailing action_state_unavailable (journal_call (purge_generation (Run.generation item))) else mret (inr tt)
           end : svc (Problem + unit)) (fun _ =>
  purge_verification (Run.generation item) (Run.run_id item)).
(** [release_now]. *)
Definition release_now (team : string) (item : Run.Run) : svc (Problem + unit) :=
  attempt (load_state team) (fun st =>
  let being_deleted := deleting st (Run.routine_id item) in
  attempt (release_evidence team item being_deleted) (fun '(held, lost) =>
  attempt (if is_empty (Run.generation item) then mret (inr tt)
           else
             attempt (unavailing action_state_unavailable (journal_call (batch_of (Run.generation item)))) (fun current =>
             let fingerprint := held ≫= Evidence.fingerprint in
             let foreign := match current with Some (found, state) => (state =s "archived") && negb (ostring_eqb (Some found) fingerprint) | None => false end in
             if negb lost && foreign then
               if negb being_deleted then mret (inl routine_state_unavailable)
               else _ ← audit "routine-evidence-lost" team (Run.run_id item); release_journal team item None being_deleted
             else release_journal team item held being_deleted) : svc (Problem + unit)) (fun _ =>
  attempt (raising routine_state_unavailable (stored_call (store_lock team))) (fun lock =>
  attempt (raising routine_state_unavailable
             (stored_call (then_ (delete_cursor lock (Run.run_id item)) (fun _ => delete_record Incident lock (Run.run_id item))))) (fun _ =>
  attempt (update_locked lock (fun st => mret (or_unchanged (release_incident st (Run.run_id item)) st, tt))) (fun _ =>
  _ ← protections_call (fun p => (drop_run (Run.run_id item) p, tt));
  mret (inr tt))))))).
Definition release (team : string) (item : Run.Run) : svc (Problem + unit) :=
  executing ← around_call (run_executing (Run.run_id item));
  if executing : bool then mret (inr tt) else release_now team item.
Definition settled (team : string) (item : Run.Run) : svc unit := _ ← release team item; mret tt.
Definition set_aside (team incident_id : string) (change : state -> drawing U state) : svc (Problem + Run.Run) :=
  attempt (marking_losses team (fun item => Run.run_id item =s incident_id) (fun st =>
             r ← drawn (change st);
             mret match r with Ok changed => (changed, incident changed incident_id) | Err code => (st, Err code) end)) (fun skipped =>
  match skipped with
  | Err code => mret (inl (transition_problem code))
  | Ok skipped => _ ← settled team skipped; mret (inr skipped)
  end).
(** [reconcile_team]: the runs that failed. *)
Fixpoint each_failing (m : Run.Run -> svc (Problem + bool)) (items : list Run.Run) : svc (list string) :=
  match items with
  | [] => mret []
  | item :: items =>
      r ← m item;
      rest ← each_failing m items;
      mret match r with inl _ => Run.run_id item :: rest | inr _ => rest end
  end.
Definition reconcile_team (team : string) : svc (Problem + list string) :=
  attempt (load_state team) (fun st =>
  released ← each_failing (fun item => attempt (release team item) (fun _ => mret (inr true)))
               (List.filter (fun item => status_eqb (Run.status item) Skipped) (incidents st));
  reconciled ← each_failing (fun item => reconcile team (Run.run_id item))
               (List.filter (fun item => status_eqb (Run.status item) Team.Held) (TeamRoutines.runs st));
  mret (inr (released ++ reconciled))).

(** ** Verifying a held run *)
(** [RoutineService::seal]. *)
Definition recovery_seal (team : string) (c : Cursor.Cursor) : svc (Problem + unit) :=
  raising routine_state_unavailable (under_lock team (fun lock => put_cursor lock c)).
Definition operation_state (team incident_id : string) (operation_id : option string) : svc (Problem + option string) :=
  attempt (raising routine_state_unavailable (under_lock team (fun lock => read_incident lock incident_id))) (fun sealed =>
  mret match sealed ≫= fun payload => read_evidence payload incident_id with
       | Some held => inr (state_of held operation_id)
       | None => inl routine_state_unavailable
       end).
(** A problem of a call that may also panic. *)
Definition halting {A} (m : svc (Problem + A)) : svc (Halt + A) := r ← m; mret match r with inl p => inl (Halts p) | inr a => inr a end.
Definition assess (team incident_id : string) : svc (Halt + Assessment.Assessment) :=
  attempt (halting (open_recovery team incident_id)) (fun opened =>
  attempt (halting (around_call (team_scope team))) (fun scope =>
  let snapshot := OpenedRecovery.recovery opened in
  let held := OpenedRecovery.cursor opened in
  if negb (TeamScope.network_id scope =s Binding.incarnation (Snapshot.binding snapshot)) then mret (inl (Halts drift))
  else
    match admit_plan (Snapshot.plan snapshot) (contracts (TeamScope.assistants scope)) with
    | Err _ => mret (inl (Halts drift))
    | Ok admitted =>
        if done_ held admitted then mret (inr (Assessment.mk opened admitted None (TeamScope.network_id scope) None))
        else
          match Plan.steps admitted !! Cursor.step held with
          | None => mret (inl Panics)
          | Some step =>
              let action := active ← scope_assistant scope (Step.assistant_id step); assistant_action active (Step.action step) in
              attempt (halting (operation_state team incident_id (Cursor.operation_id held))) (fun state =>
              mret (inr (Assessment.mk opened admitted action (TeamScope.network_id scope) state)))
          end
    end)).
(** [stopped_since]: whether the workload the attempt was dispatched to is proven to have
    stopped since. *)
Definition stopped_since (team assistant_id : string) (held : Cursor.Cursor) : svc bool :=
  if is_empty (Cursor.workload held) then mret false
  else
    state ← around_call (workload_state team assistant_id (Cursor.workload held));
    mret match state with
         | None => false
         | Some state => negb (WorkloadState.running state)
                         || match WorkloadState.started_at state with Some started => Cursor.dispatched_at held <? started | None => false end
         end.
Definition workload_stopped (team : string) (opened : OpenedRecovery.OpenedRecovery) : svc (Problem + bool) :=
  let held := OpenedRecovery.cursor opened in
  if negb (is_some (Cursor.operation_id held)) || contains TRUSTED_FAULTS (Cursor.fault held) then mret (inr true)
  else if is_empty (Cursor.workload held) then
    attempt (operation_state team (Binding.run_id (Cursor.binding held)) (Cursor.operation_id held)) (fun state =>
    mret (inr (match state with Some state => contains ABSENT_STATES state | None => false end && negb (carried (Cursor.episode held)))))
  else
    let steps := Snapshot.steps (OpenedRecovery.recovery opened) in
    match (step ← steps !! Nat.min (Cursor.step held) (length steps - 1); get step "assistant") with
    | Some (VString assistant) => stopped ← stopped_since team assistant held; mret (inr stopped)
    | _ => mret (inr false)
    end.
(** [quiescence]: the step is indexed whatever the verdict. *)
Definition quiescence (team : string) (a : Assessment.Assessment) (verdict : string) : svc (Halt + string) :=
  match Assessment.step a with
  | None => mret (inl Panics)
  | Some step =>
      let held := Assessment.cursor a in
      if (verdict =s "uncertain") && is_empty (Cursor.fault held) then
        stopped ← stopped_since team (Step.assistant_id step) held;
        mret (inr (if stopped : bool then verdict else "unquiesced"%string))
      else mret (inr verdict)
  end.
Fixpoint grow_each (run_id : string) (dispatches : list (list string)) (p : RunProtections) : RunProtections * unit :=
  match dispatches with [] => (p, tt) | values :: dispatches => grow_each run_id dispatches (fst (grow_run run_id values p)) end.
(** [call_verifier]: in its own generation, released before and after. *)
Definition call_verifier (team : string) (a : Assessment.Assessment) (request : RuntimeRequest.ActionRequest) : svc (option Value) :=
  let run_id := Binding.run_id (Cursor.binding (Assessment.cursor a)) in
  let generation := generation_for (Assessment.network_id a) run_id VERIFY_SUFFIX in
  discarded ← journal_call (discard_generation generation);
  match discarded with
  | None => mret None
  | Some _ =>
      '(injected, results) ← (fun s =>
        let '((j, u), r) := verifier_turn team run_id generation [RuntimeRequest.assistant_id request] request (Service.journal s, Service.around s) in
        (s <| Service.journal := j |> <| Service.around := u |>, r));
      _ ← protections_call (grow_each run_id injected);
      _ ← journal_call (discard_generation generation);
      mret (results ≫= fun results => get results VERIFY_INTERRUPT)
  end.
(** [RoutineService::recovered]: the cursor a recovered result completes the held step with. *)
Definition recovered (team : string) (a : Assessment.Assessment) (result_ : Value) (protected : list string) : svc (option Cursor.Cursor) :=
  let held := Assessment.cursor a in
  match Assessment.action a, Assessment.step a with
  | Some action, Some step =>
      if is_some (validate_action action Output result_) || contains_secret result_ protected then mret None
      else
        match secret_values result_ (Step.output_schema step) with
        | Err _ => mret None
        | Ok found =>
            protection ← protections_call (grow_run (Binding.run_id (Cursor.binding held)) found);
            completed ← replay_advance team held (Assessment.plan a) result_ protection;
            mret match completed with
                 | inl _ => None
                 | inr completed =>
                     if Protection.lost protection then match lose_protection completed with Ok lost => Some lost | Err _ => None end
                     else Some completed
                 end
        end
  | _, _ => mret None
  end.
(** [judge]: admits the verifier's evidence. *)
Definition judge (team : string) (a : Assessment.Assessment) (result_ : Value) (protected : option (list string)) : svc (Problem + string) :=
  let held := Assessment.cursor a in
  if negb (is_some (action ← Assessment.action a; ActionSpec.verifier action)) then mret (inr "inconclusive"%string)
  else
    match verifier_found a result_ "outcome" with
    | Some (VString outcome) =>
        if outcome =s "not_occurred" then
          match proven_absent held with
          | Err _ => mret (inl routine_state_unavailable)
          | Ok absent => attempt (recovery_seal team absent) (fun _ => mret (inr "absent"%string))
          end
        else if outcome =s "occurred" then
          match protected, verifier_found a result_ "result" with
          | Some protected, Some found =>
              completed ← recovered team a found protected;
              match completed with
              | None => mret (inr "inconclusive"%string)
              | Some completed =>
                  attempt (recovery_seal team completed) (fun _ =>
                  _ ← record_recovered team held completed (Assessment.plan a) protected;
                  mret (inr "occurred"%string))
              end
          | _, _ => mret (inr "inconclusive"%string)
          end
        else mret (inr "inconclusive"%string)
    | _ => mret (inr "inconclusive"%string)
    end.
(** [verify]: once, inside the run's one episode; [protected] is what each failed
    operation of this execution was given. *)
Definition verify (team run_id : string) (protected : gmap string (list string)) : svc (Halt + string) :=
  attempt (assess team run_id) (fun a =>
  attempt (quiescence team a (proven a)) (fun verdict =>
  if contains ["none"; "policy"; "unquiesced"; "unclassified"]%string verdict then mret (inr verdict)
  else
    let held := Assessment.cursor a in
    if verdict =s "absent" then
      if Cursor.absent held then mret (inr "absent"%string)
      else
        match proven_absent held with
        | Err _ => mret (inl (Halts routine_state_unavailable))
        | Ok absent => attempt (halting (recovery_seal team absent)) (fun _ => mret (inr "absent"%string))
        end
    else
      match verifier_request a with
      | None => mret (inr "unverifiable"%string)
      | Some request =>
          result_ ← call_verifier team a request;
          match result_ with
          | None => mret (inr "inconclusive"%string)
          | Some result_ => halting (judge team a result_ (operation ← Cursor.operation_id held; protected !! operation))
          end
      end)).

(** ** The run's one recovery episode *)
(** [RoutineService::open_episode]: sealed open before any work. *)
Definition start_episode (team incident_id : string) : svc (option OpenEpisode.Episode) :=
  opened ← open_recovery team incident_id;
  match opened with
  | inl _ => mret None
  | inr opened =>
      loaded ← load_state team;
      match (match loaded with inr st => match incident st incident_id with Ok value => Some (Run.active_seconds_left value) | Err _ => None end | inl _ => None end),
            open_episode (OpenedRecovery.cursor opened) with
      | Some seconds_left, Ok next =>
          sealed ← under_lock team (fun lock => put_cursor lock next);
          match sealed with
          | inl _ => mret None
          | inr _ =>
              started ← around_call monotonic_now;
              mret (Some (OpenEpisode.mk (Z.max 0 (Z.min RECOVERY_SECONDS seconds_left)) started false))
          end
      | _, _ => mret None
      end
  end.
(** [Episode::expired]: its deadline's timer fired, or its time passed. *)
Definition episode_expired (run_id : string) (e : OpenEpisode.Episode) : svc bool :=
  fired ← around_call (deadline_fired run_id);
  if fired : bool then mret true
  else now ← around_call monotonic_now; mret (OpenEpisode.started e + OpenEpisode.seconds e * 1000000000 <=? now).
(** [unstopped]: nothing is committed once a person stopped the execution. *)
Definition unstopped {A} (run_id : string) (deadline : svc bool) (commit : svc A) : svc (option A) :=
  stopped ← around_call (run_stopped run_id);
  own ← (if stopped : bool then deadline else mret true : svc bool);
  if own : bool then a ← commit; mret (Some a) else mret None.
Definition publish (team run_id : string) (e : OpenEpisode.Episode) (reason : PauseReason) : svc (Problem + OpenEpisode.Episode) :=
  paused ← unstopped run_id (around_call (deadline_fired run_id)) (pause_held team run_id reason);
  mret match paused with
       | None => inr e
       | Some (inl problem) => inl problem
       | Some (inr _) => inr (OpenEpisode.mk (OpenEpisode.seconds e) (OpenEpisode.started e) true)
       end.
(** [verified]: whether the run may go on, and the episode. *)
Definition verified (team run_id : string) (e : OpenEpisode.Episode) (protected : gmap string (list string)) : svc (Halt + (bool * OpenEpisode.Episode)) :=
  spent_before ← episode_expired run_id e;
  verdict ← (if spent_before : bool then mret (inr "exhausted"%string) else verify team run_id protected : svc (Halt + string));
  now ← around_call monotonic_now;
  let spent := Z.min (2 ^ 63 - 1) (Z.max 0 (now - OpenEpisode.started e) / 1000000000) in
  attempt (halting (update_team team (fun st => mret (or_unchanged (spend_incident st run_id spent) st, tt)))) (fun _ =>
  attempt (mret verdict : svc (Halt + string)) (fun verdict =>
  cancelled ← around_call (run_stopped run_id);
  fired ← around_call (deadline_fired run_id);
  if (cancelled : bool) && negb fired then mret (inr (false, e))
  else
    spent_after ← episode_expired run_id e;
    let verdict := if spent_after : bool then "exhausted"%string else verdict in
    attempt (match pause_reason verdict with
             | Some reason => halting (publish team run_id e reason)
             | None => mret (inr e)
             end : svc (Halt + OpenEpisode.Episode)) (fun e =>
    cancelled ← around_call (run_stopped run_id);
    mret (inr (contains ["occurred"; "none"; "absent"]%string verdict && negb cancelled, e))))).
Definition reopen (team incident_id generation routine_id : string) : svc (Problem + option (Run.Run * Routine.Routine * string)) :=
  now ← service_now;
  update_team team (fun st =>
    r ← drawn (reopen_incident st incident_id now generation);
    mret match r with
         | Err _ => (st, None)
         | Ok (reopened, token) =>
             match run reopened incident_id, routine reopened routine_id with
             | Ok found, Ok routine => (reopened, Some (found, routine, token))
             | _, _ => (st, None)
             end
         end).
(** [continue_run], up to the continuation's execution: [None] leaves the run held. *)
Definition continue_reopened (team incident_id : string) : svc (Problem + option (Run.Run * Routine.Routine * string)) :=
  attempt (open_recovery team incident_id) (fun opened =>
  let held := OpenedRecovery.cursor opened in
  if blocked held then mret (inr None)
  else
    match continued held with
    | Err _ => mret (inr None)
    | Ok next =>
        attempt (raising routine_state_unavailable (under_lock team (fun lock => put_cursor lock next))) (fun _ =>
        let b := Snapshot.binding (OpenedRecovery.recovery opened) in
        let generation := generation_for (Binding.incarnation b) incident_id (generation_suffix next) in
        reopened ← unstopped incident_id (mret false) (reopen team incident_id generation (Binding.routine_id b));
        match reopened with
        | None => mret (inr None)
        | Some (inl problem) => mret (inl problem)
        | Some (inr None) => mret (inr None)
        | Some (inr (Some continuation)) =>
            _ ← under_lock team (fun lock => delete_record Incident lock incident_id);
            mret (inr (Some continuation))
        end)
    end).

(** ** What an ended run leaves *)
Definition discard_run (lock : TeamLock.TeamLock) (run_id generation : string) (incident_ live : bool) : svc (Problem + unit) :=
  attempt (if is_empty generation then mret (inr tt)
           else
             attempt (unavailing routine_state_unavailable (journal_call ((if incident_ then discard_generation else purge_generation) generation))) (fun _ =>
             if incident_ || live then mret (inr tt)
             else
               match verification_of generation run_id with
               | Ok verification => unavailing routine_state_unavailable (journal_call (purge_generation verification))
               | Err _ => mret (inr tt)
               end) : svc (Problem + unit)) (fun _ =>
  if live then mret (inr tt)
  else
    _ ← (if incident_ then mret tt
         else
           payload ← stored_call (read_recovery lock run_id);
           seal_terminal_locked lock run_id (match payload with inr (Some payload) => read_sealed payload run_id | _ => None end) : svc unit);
    attempt (raising routine_state_unavailable (stored_call (delete_record Continuation lock run_id))) (fun _ =>
    attempt (raising routine_state_unavailable (stored_call (delete_record RoutineStore.Recovery lock run_id))) (fun _ =>
    if incident_ then mret (inr tt)
    else
      attempt (raising routine_state_unavailable (stored_call (delete_cursor lock run_id))) (fun _ =>
      attempt (raising routine_state_unavailable (stored_call (delete_record Incident lock run_id))) (fun _ =>
      _ ← protections_call (fun p => (drop_run run_id p, tt));
      mret (inr tt)))))).
Fixpoint drain_each (team : string) (queued : list (string * string)) : svc (Problem + unit) :=
  match queued with
  | [] => mret (inr tt)
  | (run_id, generation) :: queued =>
      attempt (raising routine_state_unavailable (stored_call (store_lock team))) (fun lock =>
      attempt (raising routine_state_unavailable (stored_call (store_load lock))) (fun st =>
      if negb (pair_in (TeamRoutines.discards st) (run_id, generation)) then drain_each team queued
      else
        let incident_ := existsb (fun item => Run.run_id item =s run_id) (incidents st) in
        let live := existsb (fun item => Run.run_id item =s run_id) (live_runs st) in
        attempt (discard_run lock run_id generation incident_ live) (fun _ =>
        attempt (update_locked lock (fun st => mret (discarded st run_id generation, tt))) (fun _ =>
        drain_each team queued))))
  end.
Definition drain (team : string) : svc (Problem + unit) := attempt (load_state team) (fun st => drain_each team (TeamRoutines.discards st)).
Definition complete_deletion (team routine_id : string) : svc (Problem + bool) :=
  attempt (load_state team) (fun st =>
  let current := List.find (fun item => Routine.routine_id item =s routine_id) (TeamRoutines.routines st) in
  let busy := existsb (fun item => Run.routine_id item =s routine_id) (TeamRoutines.runs st) in
  if match current with Some current => negb (Routine.deleting current) || busy | None => false end then mret (inr false)
  else
    attempt (raising routine_state_unavailable (diagnostics_call (fun d => delete_routine d team routine_id))) (fun _ =>
    now ← service_now;
    update_team team (fun st =>
      if negb (existsb (fun item => Routine.routine_id item =s routine_id) (TeamRoutines.routines st)) then mret (st, true)
      else
        r ← drawn (complete_delete st routine_id now);
        mret match r with Ok next => (next, true) | Err _ => (st, false) end))).
Definition settle_routine (team routine_id : string) : svc (Problem + bool) := attempt (drain team) (fun _ => complete_deletion team routine_id).
Fixpoint complete_each (team : string) (routines : list Routine.Routine) : svc (Problem + unit) :=
  match routines with
  | [] => mret (inr tt)
  | item :: routines =>
      attempt (if Routine.deleting item then attempt (complete_deletion team (Routine.routine_id item)) (fun _ => mret (inr tt)) else mret (inr tt) : svc (Problem + unit))
        (fun _ => complete_each team routines)
  end.
Definition settle_team (team : string) : svc (Problem + unit) :=
  attempt (drain team) (fun _ => attempt (load_state team) (fun st => complete_each team (TeamRoutines.routines st))).
Definition end_frozen (team run_id outcome : string) (detail : Value) : svc (Problem + bool) :=
  now ← service_now; applied team (fun st => Runs.end_run st run_id now outcome detail (Some Frozen)).
(** [delete_locked]: the journal generations of every live or queued run, what each
    protected, then the Team's state and records. *)
Fixpoint purge_each (held : list (string * string)) : svc (Problem + unit) :=
  match held with
  | [] => mret (inr tt)
  | (run_id, generation) :: held =>
      if is_empty generation then purge_each held
      else
        attempt (unavailing action_state_unavailable (journal_call (purge_generation generation))) (fun _ =>
        attempt (purge_verification generation run_id) (fun _ => purge_each held))
  end.
Definition delete_locked (lock : TeamLock.TeamLock) : svc (Problem + unit) :=
  attempt (raising routine_state_unavailable (stored_call (store_load lock))) (fun st =>
  let held := map (fun r => (Run.run_id r, Run.generation r)) (TeamRoutines.runs st) ++ TeamRoutines.discards st in
  attempt (purge_each held) (fun _ =>
  _ ← protections_call (fun p => (fold_left (fun p x => drop_run (fst x) p) held p, tt));
  attempt (raising routine_state_unavailable (stored_call (team_delete lock))) (fun _ =>
  raising routine_state_unavailable (diagnostics_call (fun d => delete_team d (TeamLock.team lock)))))).

(** ** Leased runs nothing drives *)
Fixpoint delete_unkept (kind : Sealed) (lock : TeamLock.TeamLock) (kept : list string) (runs : list string) : svc (Problem + unit) :=
  match runs with
  | [] => mret (inr tt)
  | run_id :: runs =>
      attempt (if contains kept run_id then mret (inr tt)
               else raising routine_state_unavailable (stored_call (delete_record kind lock run_id)) : svc (Problem + unit)) (fun _ =>
      delete_unkept kind lock kept runs)
  end.
Definition remove_leftovers (lock : TeamLock.TeamLock) : svc (Problem + unit) :=
  let remove kind kept :=
    attempt (raising routine_state_unavailable (stored_call (sealed_names lock kind))) (fun runs => delete_unkept kind lock kept runs) in
  attempt (raising routine_state_unavailable (stored_call (store_load lock))) (fun current =>
  let queued := map fst (TeamRoutines.discards current) in
  let live := map Run.run_id (live_runs current) ++ queued in
  attempt (remove Continuation live) (fun _ =>
  attempt (remove RoutineStore.Recovery live) (fun _ =>
  remove SealedCursor (map Run.run_id (TeamRoutines.runs current) ++ queued)))).
Definition interrupted : Value := object [("code", text "interrupted")]%string.
(** [orphan_ended]: the transition that ends an orphaned run as its durable progress shows. *)
Definition orphan_ended (st : state) (value : Run.Run) (p : Progress) (shown : option Value) (now : Z) : drawing U (state * string) :=
  match p with
  | AllDone => next ← complete_recovered st (Run.run_id value) (Run.lease_sha256 value) now shown; mret (next, "done"%string)
  | Partial => next ← lift (hold_recovered st (Run.run_id value) (Run.lease_sha256 value)); mret (next, "held"%string)
  | NoProgress => next ← Runs.end_run st (Run.run_id value) now "failed" interrupted None; mret (next, "failed"%string)
  end.
Definition recover_orphan (team : string) (value : Run.Run) : svc (Problem + option string) :=
  p ← progress team value;
  shown ← (match p with AllDone => sealed_shown team value | _ => mret None end : svc (option Value));
  update_team team (fun st =>
    if negb (existsb (fun item => (Run.run_id item =s Run.run_id value) && status_eqb (Run.status item) Leased
                                  && (Run.lease_sha256 item =s Run.lease_sha256 value)) (TeamRoutines.runs st)) then mret (st, None)
    else
      now ← service_now;
      r ← drawn (orphan_ended st value p shown now);
      mret match r with Ok (next, outcome) => (next, Some outcome) | Err _ => (st, None) end).

(** ** A segment's claim, binding and ending *)
(** [claimed]: a swept state, the due Routine marked changed, or one run leased. *)
Definition claimed (st : state) (now : Z) (key : string) (long : bool) (pinned : option (string * option bool)) : svc (state * option Claim.Claim) :=
  match sweep st now with
  | Err _ => mret (st, None)
  | Ok swept =>
      match option_map Routine.routine_id (claimable swept now long), pinned with
      | Some due, Some (checked, Some current) =>
          if negb (due =s checked) then mret (swept, None)
          else if current : bool then
            r ← drawn (claim swept now key long);
            mret match r with Ok next => next | Err _ => (st, None) end
          else
            r ← drawn (mark_scope_changed swept due now);
            mret match r with Ok next => (next, None) | Err _ => (swept, None) end
      | _, _ => mret (swept, None)
      end
  end.
Definition live_run (team run_id : string) (lease : Lease.Lease) : svc (Problem + (Run.Run * Routine.Routine)) :=
  attempt (load_state team) (fun st =>
  match run st run_id with
  | Err _ => mret (inl routine_lease_invalid)
  | Ok value =>
      now ← service_now;
      mret match require_lease value lease now, routine st (Run.routine_id value) with
           | Ok _, Ok routine => inr (value, routine)
           | _, _ => inl routine_lease_invalid
           end
  end).
Definition bind_run (team run_id : string) (lease : Lease.Lease) : svc (Problem + string) :=
  attempt (unavailing context_unavailable (around_call (team_network team))) (fun network =>
  now ← service_now;
  attempt (update_team team (fun st =>
             mret match bind_generation st run_id lease now network with
                  | Ok bound => (bound, match run bound run_id with Ok value => Some (Run.generation value) | Err _ => None end)
                  | Err _ => (st, None)
                  end)) (fun generation =>
  mret match generation with Some generation => inr generation | None => inl routine_lease_invalid end)).
(** [spend_time], of a duration in milliseconds. *)
Definition spend_time (team run_id : string) (lease : Lease.Lease) (elapsed_ms : Z) : svc unit :=
  now ← service_now;
  _ ← update_team team (fun st => mret (or_unchanged (spend st run_id lease now (Z.min (2 ^ 63 - 1) (elapsed_ms / 1000)) (Z.min (2 ^ 63 - 1) elapsed_ms)) st, tt));
  mret tt.
(** [RoutineService::end_run]. *)
Definition service_end_run (team run_id outcome : string) (detail : Value) : svc (Problem + string) :=
  now ← service_now;
  attempt (applied team (fun st => Runs.end_run st run_id now outcome detail None)) (fun ended =>
  mret (if ended : bool then inr outcome else inl routine_lease_invalid)).
Definition claimed_view (team : string) (c : Claim.Claim) : Value :=
  object [("team_id", text team); ("run_id", text (Run.run_id (Claim.run c))); ("lease_token", text (Claim.lease_token c));
          ("revision", int (Claim.revision c)); ("plan_digest", text (Claim.plan_digest c)); ("active_seconds", int (Claim.active_seconds c))]%string.
Definition segment_answer (team run_id outcome : string) : Value :=
  object [("team_id", text team); ("run_id", text run_id); ("status", text outcome)]%string.
Definition code_detail (code : string) : Value := object [("code", text code)]%string.
(** [RoutineService::complete]: failed when its lease or time ran out meanwhile. *)
Definition complete_run (team run_id : string) (lease : Lease.Lease) (value : Run.Run) (shown : option Value) : svc (Problem + string) :=
  now ← service_now;
  update_team team (fun st =>
    r ← drawn (finish st run_id lease now shown);
    match r with
    | Ok next => mret (next, completed value)
    | Err _ =>
        r ← drawn (Runs.end_run st run_id now "failed" (code_detail "lease-expired") None);
        mret (match r with Ok next => next | Err _ => st end, "failed"%string)
    end).
Definition complete_sealed (team run_id : string) (lease : Lease.Lease) (shown : option Value) : svc (Problem + string) :=
  now ← service_now;
  attempt (update_team team (fun st =>
             let current := List.find (fun item => Run.run_id item =s run_id) (TeamRoutines.runs st) in
             r ← drawn (complete_recovered st run_id (Lease.sha256 lease) now shown);
             mret match r with Ok next => (next, option_map completed current) | Err _ => (st, None) end)) (fun outcome =>
  mret match outcome with Some outcome => inr outcome | None => inl routine_lease_invalid end).
(** [frozen]: a run its Routine's deletion reached meanwhile ends stopped. *)
Definition frozen (st : state) (run_id : string) (lease : Lease.Lease) (request : Request.Request) : svc (state * string) :=
  now ← service_now;
  r ← drawn (freeze st run_id lease now request);
  match r with
  | Ok next => mret (next, "frozen"%string)
  | Err refused =>
      let '(outcome, detail) := if refused =s "routine-deleting" then ("stopped"%string, object []) else ("failed"%string, code_detail "freeze-unavailable") in
      r ← drawn (Runs.end_run st run_id now outcome detail None);
      mret match r with Ok next => (next, outcome) | Err _ => (st, "failed"%string) end
  end.
Definition UNRESOLVED_INPUTS : list string := ["plan-reference-missing"; "plan-reference-ambiguous"; "plan-reference-invalid"]%string.
(** [ended]: how a segment that raised ends; [segment] is its runtime and whether its batch
    ended with an uncertain outcome. *)
Definition ended (team run_id : string) (lease : Lease.Lease) (value : Run.Run) (segment : option (ReplayRuntime * bool)) (code : string) : svc (Problem + string) :=
  unsure ← uncertain value (match segment with Some (_, held) => held | None => false end);
  let hold_or_fail (code : string) : svc (Problem + string) :=
    unresolved ← (if contains UNRESOLVED_INPUTS code then read_only_prefix team value else mret false : svc bool);
    fails ← (if negb unsure then
               if unresolved : bool then mret true
               else p ← progress team value; mret match p with NoProgress => true | _ => false end
             else mret false : svc bool);
    if fails : bool then service_end_run team run_id "failed" (code_detail code)
    else attempt (hold_run team run_id lease) (fun _ => mret (inr "held"%string)) in
  if negb (code =s "chat-stopped") then hold_or_fail code
  else
    _ ← (match segment with
         | Some (runtime, _) => fun s => let '((_, s), _) := replay_record_step "stopped" None (runtime, s) in (s, tt)
         | None => mret tt
         end : svc unit);
    overdue ← around_call (run_overdue run_id);
    if overdue : bool then
      p ← progress team value;
      match p with
      | AllDone => shown ← sealed_shown team value; complete_sealed team run_id lease shown
      | _ => hold_or_fail "active-time-exceeded"
      end
    else if negb unsure then service_end_run team run_id "stopped" (object [])
    else hold_or_fail code.
End Recovering.
