(* ===== verification/StoreSafety.v ===== *)
(** * What the Routine store keeps

    The theory of [RoutineStore]: the decoded states are transparent, a transition
    is persisted whole or not at all, and a sealed record reads back as exactly the
    bytes that were sealed under the same associated data. *)

From stdpp Require Import base tactics list strings gmap.
From Stdlib Require Import ZArith Lia Ascii.
From S2P Require Import Prelude Text Json Reader Utf8 ReaderSafety Floats RoundTrip Calendar Platform Wire Instants Notices Schedule Dates Starts Plans Team StateCodec Cursors CursorSafety Journal Disk DiskSafety Sealing RoutineStore.

#[local] Open Scope Z_scope.

(** ** Paths *)
Lemma starts_with_app p q : starts_with (p ++ q) p = true.
Proof. induction p as [|a p IH]; [done|]. cbn. by rewrite seqb_refl, IH. Qed.
Lemma temporary_last p name : temporary (p ++ [name]) = match name with String "." _ => true | _ => false end.
Proof. unfold temporary. rewrite name_of_last. destruct name as [|[[] [] [] [] [] [] [] []] ?]; reflexivity. Qed.
Lemma run_not_temporary p run kind : ROUTINE_ID_RE run = true -> temporary (p ++ [record_name run kind]) = false.
Proof.
  intros H. rewrite temporary_last. destruct run as [|a run]; [done|]. unfold record_name.
  change (String a run +:+ sealed_suffix kind) with (String a (run +:+ sealed_suffix kind)).
  destruct a as [[] [] [] [] [] [] [] []]; try reflexivity.
  apply andb_true_iff in H as [_ H]. cbn [all_bytes] in H. by apply andb_true_iff in H as [H _].
Qed.

Section Safety.
  Context {PF : Platform} {VO : Vocabulary} `{C : !Crypto} {F : Type} `{!System F} {FD : FullDraws F}.
  Abbreviation Store := (RoutineStore.RoutineStore F).

(** The file a store sees at a path. *)
Definition file_of (s : Store) (p : Path) : option string := file_at (RoutineStore.disk s) p.

(** What no call of a lock moves. *)
Definition fixed (s s' : Store) : Prop :=
  RoutineStore.root s' = RoutineStore.root s /\ RoutineStore.keyring s' = RoutineStore.keyring s
  /\ RoutineStore.max_state_bytes s' = RoutineStore.max_state_bytes s /\ RoutineStore.max_decoded_bytes s' = RoutineStore.max_decoded_bytes s
  /\ RoutineStore.closed s' = RoutineStore.closed s /\ RoutineStore.epoch s' = RoutineStore.epoch s.
#[global] Instance fixed_refl : Reflexive fixed.
Proof. by intros s. Qed.
#[global] Instance fixed_trans : Transitive fixed.
Proof. intros ? ? ? (?&?&?&?&?&?) (?&?&?&?&?&?). unfold fixed. split_and!; congruence. Qed.

(** A decoded state is the decoding of the bytes kept with it. *)
Definition decoded_ok (entries : list (string * string * TeamRoutines.TeamRoutines)) : Prop :=
  List.Forall (fun e => state_decode (entry_bytes e) (entry_team e) = inr (snd e)) entries.
Definition store_ok (s : Store) : Prop :=
  starts_with (RoutineStore.keyring s) (RoutineStore.root s) = false /\ temporary (RoutineStore.keyring s) = false
  /\ decoded_ok (RoutineStore.decoded s).

(** A call that leaves every file, and one that may leave a payload at a path. *)
Definition still (s s' : Store) : Prop :=
  fixed s s' /\ quiet (RoutineStore.disk s) (RoutineStore.disk s') /\ (store_ok s -> store_ok s').
Definition put_at (p : Path) (payload : string) (s s' : Store) : Prop :=
  fixed s s' /\ landed p payload (RoutineStore.disk s) (RoutineStore.disk s') /\ (store_ok s -> store_ok s').
#[global] Instance still_refl : Reflexive still.
Proof. by intros s. Qed.
#[global] Instance still_trans : Transitive still.
Proof. intros ? ? ? (?&?&?) (?&?&?). split; [by etransitivity|]. split; [by etransitivity|auto]. Qed.
Lemma still_file s s' p : still s s' -> temporary p = false -> file_of s' p = file_of s p.
Proof. intros (_ & [_ H] & _). apply H. Qed.
Lemma put_still p payload s s1 s2 s3 : still s s1 -> put_at p payload s1 s2 -> still s2 s3 -> temporary p = false -> put_at p payload s s3.
Proof.
  intros (F1 & Q1 & O1) (F2 & L & O2) (F3 & Q3 & O3) Ht. split; [by repeat (etransitivity; [done|])|]. split; [|auto].
  by eapply landed_after.
Qed.

(** ** The primitive calls *)
Lemma then_run {A B} (m : kept_op A) (f : A -> kept_op B) s :
  then_ m f s = match m s return Store * stored B with (s1, inl e) => (s1, inl e) | (s1, inr a) => f a s1 end.
Proof. reflexivity. Qed.
Lemma store_disk_ok d s : store_ok s -> store_ok (s <| RoutineStore.disk := d |>).
Proof. done. Qed.
Lemma on_disk_still {A} (m : io (StateError + A)) s s' r : on_disk m s = (s', r) -> quiet (RoutineStore.disk s) (fst (m (RoutineStore.disk s))) -> still s s'.
Proof.
  unfold on_disk. destruct (m (RoutineStore.disk s)) as [d r0]. cbn [fst]. intros [= <- <-] Q. split; [done|]. split; [exact Q|apply store_disk_ok].
Qed.
Lemma read_step p maximum s s' r : on_disk (read_private p maximum) s = (s', r) ->
  still s s' /\ match r with
                | inr (Some c) => file_of s p = Some c
                | inr None => file_of s p = None
                | inl _ => True
                end.
Proof.
  unfold on_disk. destruct (read_private p maximum (RoutineStore.disk s)) as [d r0] eqn:E. apply read_private_shows in E as [U R].
  intros [= <- <-]. split; [split; [done|]; split; [by apply unmoved_quiet|apply store_disk_ok]|]. destruct r0 as [e|[c|]]; [done|tauto|done].
Qed.
Lemma write_step p payload s s' r : on_disk (write_private p payload) s = (s', r) -> temporary p = false ->
  match r with inr _ => put_at p payload s s' | inl _ => still s s' \/ put_at p payload s s' end.
Proof.
  unfold on_disk. destruct (write_private p payload (RoutineStore.disk s)) as [d r0] eqn:E. intros [= <- <-] Ht. apply write_lands in E; [|done].
  destruct r0 as [e|[]]; [destruct E; [left|right]|]; (split; [done|]); (split; [done|apply store_disk_ok]).
Qed.

(** ** The key *)
Definition key_of (s : Store) : stored string :=
  match file_of s (RoutineStore.keyring s) with
  | None => inl Unavailable
  | Some key => if Nat.eqb (String.length key) 32 then inr key else inl Malformed
  end.
Lemma key_read s s' r : store_key false s = (s', r) ->
  still s s' /\ match r with inr key => key_of s = inr key | inl _ => True end.
Proof.
  unfold store_key, on_disk, load_key. rewrite run_try. destruct (read_private _ 32 (RoutineStore.disk s)) as [d [e|found]] eqn:E;
    apply read_private_shows in E as [U R]; cbv beta iota.
  { intros [= <- <-]. split; [split; [done|]; split; [by apply unmoved_quiet|apply store_disk_ok]|done]. }
  unfold key_of, file_of. destruct found as [key|]; intros [= <- <-];
    (split; [split; [done|]; split; [by apply unmoved_quiet|apply store_disk_ok]|]); [|done].
  destruct R as [-> _]. by destruct (Nat.eqb _ _).
Qed.

Lemma key_create s s' r : store_key true s = (s', r) -> store_ok s ->
  (still s s' /\ match r with inr key => key_of s = inr key | inl _ => True end)
  \/ (file_of s (RoutineStore.keyring s) = None
      /\ exists key, String.length key = 32%nat /\ put_at (RoutineStore.keyring s) key s s' /\ match r with inr k => k = key | inl _ => True end).
Proof.
  unfold store_key, on_disk, load_key. rewrite run_try. intros H (Hroot & Ht & Hd).
  destruct (read_private _ 32 (RoutineStore.disk s)) as [d [e|found]] eqn:E; apply read_private_shows in E as [U R]; cbv beta iota in H.
  { injection H as <- <-. left. split; [split; [done|]; split; [by apply unmoved_quiet|apply store_disk_ok]|done]. }
  destruct found as [key|].
  { injection H as <- <-. left. split; [split; [done|]; split; [by apply unmoved_quiet|apply store_disk_ok]|].
    unfold key_of, file_of. destruct R as [-> _]. by destruct (Nat.eqb _ _). }
  unfold mbind, io_bind, draw, key_generate in H. destruct (fill 32 (Disk.system d)) as [f [key|]] eqn:Ef; cbv beta iota in H.
  2: { injection H as <- <-. left. split; [|done]. split; [done|]. split; [|apply store_disk_ok].
       transitivity d; [by apply unmoved_quiet|done]. }
  apply fill_length in Ef. rewrite run_try in H. set (d1 := d <| Disk.system := f |>) in H.
  assert (quiet (RoutineStore.disk s) d1) as Q by (transitivity d; [by apply unmoved_quiet|done]).
  destruct (write_private _ key d1) as [d2 [e|[]]] eqn:Ew; apply write_lands in Ew; try done; cbv beta iota in H; injection H as <- <-.
  - destruct Ew as [Ew|Ew].
    + left. split; [|done]. split; [done|]. split; [|apply store_disk_ok]. by etransitivity.
    + right. split; [exact R|]. exists key. split; [done|]. split; [|done]. split; [done|]. split; [by eapply landed_after|apply store_disk_ok].
  - right. split; [exact R|]. exists key. split; [done|]. split; [|done]. split; [done|]. split; [by eapply landed_after|apply store_disk_ok].
Qed.

(** ** Sealed records *)
(** What a sealed record opens to, from the file and the key that are there. *)
Definition opened_view (s : Store) (p : Path) (aad : string) (kind : Sealed) : stored (option string) :=
  match file_of s p with
  | None => inr None
  | Some raw =>
      v ← match json_parse raw with Some v => inr v | None => inl Malformed end;
      sealed ← match admit_envelope v (record_bounds kind) with Some sealed => inr sealed | None => inl Malformed end;
      key ← key_of s;
      match open_envelope sealed key aad with Some payload => inr (Some payload) | None => inl Unauthentic end
  end.
Lemma key_of_still s s' : still s s' -> store_ok s -> key_of s' = key_of s.
Proof.
  intros Hs (_ & Ht & _). pose proof Hs as ((_ & Hk & _) & _ & _). unfold key_of. rewrite Hk. by rewrite (still_file _ _ _ Hs Ht).
Qed.
Lemma sealed_read_view lock name aad kind s s' r : sealed_read lock name aad kind s = (s', r) -> store_ok s ->
  still s s' /\ match r with inr found => opened_view s (lock_file lock name s) aad kind = inr found | inl _ => True end.
Proof.
  unfold sealed_read, opened_view. rewrite then_run. cbn [look]. rewrite then_run. intros H Hok.
  destruct (on_disk (read_private _ _) s) as [s1 [e|found]] eqn:E; apply read_step in E as [S1 R]; [by injection H as <- <-|].
  destruct found as [raw|]; rewrite R; [|by injection H as <- <-]. unfold pass in H. rewrite then_run in H.
  destruct (json_parse raw) as [v|]; [|by injection H as <- <-]. rewrite then_run in H. cbn [mbind stored_bind].
  destruct (admit_envelope v _) as [sealed|]; [|by injection H as <- <-]. rewrite then_run in H.
  destruct (store_key false s1) as [s2 [e|key]] eqn:Ek; apply key_read in Ek as [S2 K].
  { injection H as <- <-. split; [by etransitivity|done]. }
  injection H as <- <-. split; [by etransitivity|]. rewrite (key_of_still _ _ S1 Hok) in K. cbn [mbind stored_bind].
  rewrite K. cbn [mbind stored_bind]. by destruct (open_envelope sealed key aad).
Qed.

(** *** Sealing a record *)
Definition key_kept (s s' : Store) : Prop :=
  file_of s (RoutineStore.keyring s) <> None -> file_of s' (RoutineStore.keyring s) = file_of s (RoutineStore.keyring s).
(** Every file stays but the one at the path and an absent key. *)
Definition others_kept (p : Path) (s s' : Store) : Prop :=
  fixed s s' /\ store_ok s' /\ key_kept s s'
  /\ forall q, q <> p -> q <> RoutineStore.keyring s -> temporary q = false -> file_of s' q = file_of s q.
Lemma still_others p s s' : still s s' -> store_ok s -> others_kept p s s'.
Proof.
  intros Hs Hok. pose proof Hs as (Hf & _ & Ho). pose proof Hok as (_ & Ht & _). split; [done|]. split; [auto|]. split.
  - intros _. by apply still_file.
  - intros q _ _ Hq. by apply still_file.
Qed.
Lemma put_others p payload s s' : put_at p payload s s' -> store_ok s -> p <> RoutineStore.keyring s -> others_kept p s s' /\ file_of s' p = Some payload.
Proof.
  intros (Hf & (_ & Hp & Hq) & Ho) Hok Hne. pose proof Hok as (_ & Ht & _). split; [|done]. split; [done|]. split; [auto|].
  split; [intros _; apply Hq; [by apply not_eq_sym|done]|]. intros q Hqp _ Htq. by apply Hq.
Qed.
Lemma others_trans p s s1 s2 : others_kept p s s1 -> others_kept p s1 s2 -> others_kept p s s2.
Proof.
  intros (F1 & O1 & K1 & Q1) (F2 & O2 & K2 & Q2). pose proof F1 as (_ & Hk & _). split; [by etransitivity|]. split; [done|].
  split; [intros Hn|]; unfold key_kept in *.
  - specialize (K1 Hn). rewrite Hk in K2. rewrite K2; [done|]. by rewrite K1.
  - intros q Hqp Hqk Hqt. rewrite Q2; [by apply Q1|done|by rewrite Hk|done].
Qed.
Lemma lock_file_keyring lock name (s : Store) : store_ok s -> lock_file lock name s <> RoutineStore.keyring s.
Proof.
  intros (Hr & _ & _) He. rewrite <- He in Hr. unfold lock_file, team_dir in Hr. by rewrite <- app_assoc, starts_with_app in Hr.
Qed.
Lemma lock_file_fixed lock name (s s' : Store) : fixed s s' -> lock_file lock name s' = lock_file lock name s.
Proof. intros (Hr & _). unfold lock_file, team_dir. by rewrite Hr. Qed.

Lemma record_roomy kind : roomy (record_bounds kind).
Proof. destruct kind; vm_compute; discriminate. Qed.

(** A key that is there, or was just created. *)
Lemma key_ready p s s' r : store_key true s = (s', r) -> store_ok s -> p <> RoutineStore.keyring s -> temporary p = false ->
  others_kept p s s' /\ file_of s' p = file_of s p /\ match r with inr key => key_of s' = inr key | inl _ => True end.
Proof.
  intros H Hok Hne Hp. destruct (key_create s s' r H Hok) as [(Hs & Hr)|(Hnone & key & Hl & Hput & Hr)].
  - split; [by apply still_others|]. split; [by apply still_file|]. destruct r; [done|]. by rewrite (key_of_still s s').
  - pose proof Hok as (_ & Ht & _). pose proof Hput as (Hf & (_ & Hk & Hq) & Ho). split; [|split].
    + split; [done|]. split; [auto|]. split; [intros Hn; by destruct Hn|]. intros q _ Hqk Htq. by apply Hq.
    + by apply Hq.
    + destruct r as [e|k]; [done|]. subst k. pose proof Hf as (_ & Hkr & _). unfold key_of, file_of. rewrite Hkr, Hk, Hl. done.
Qed.
Context {L : CryptoLaws C}.
Lemma seal_new_view lock name payload aad kind s s' r : seal_new lock name payload aad s = (s', r) -> store_ok s ->
  temporary (lock_file lock name s) = false -> 1 <= slen payload <= sealed_maximum kind ->
  others_kept (lock_file lock name s) s s'
  /\ match r with
     | inr _ => opened_view s' (lock_file lock name s) aad kind = inr (Some payload)
     | inl _ => file_of s' (lock_file lock name s) = file_of s (lock_file lock name s)
                \/ opened_view s' (lock_file lock name s) aad kind = inr (Some payload)
     end.
Proof.
  intros H Hok Ht Hb. set (p := lock_file lock name s) in *. assert (p <> RoutineStore.keyring s) as Hne by by apply lock_file_keyring.
  unfold seal_new in H. rewrite then_run in H. destruct (store_key true s) as [s1 [e|key]] eqn:Ek; apply (key_ready p) in Ek as (O1 & P1 & K1); try done.
  { injection H as <- <-. split; [done|by left]. }
  rewrite then_run in H. unfold on_disk at 1 in H. unfold mbind, io_bind, draw in H.
  destruct (seal key payload aad (Disk.system (RoutineStore.disk s1))) as [f sealed] eqn:Es. unfold mret, io_ret in H. cbv beta iota in H.
  set (s2 := s1 <| RoutineStore.disk := (RoutineStore.disk s1) <| Disk.system := f |> |>) in H. assert (still s1 s2) as S2 by (split; [done|]; split; [done|apply store_disk_ok]).
  pose proof O1 as (F1 & Ok1 & _). assert (others_kept p s s2) as O2 by (eapply others_trans; [done|]; by apply still_others).
  assert (file_of s2 p = file_of s p) as P2 by (rewrite (still_file _ _ _ S2 Ht); exact P1).
  destruct sealed as [sealed|]; [|by injection H as <- <-; split; [|left]].
  rewrite then_run in H. cbn [look] in H. rewrite (lock_file_fixed lock name s s2) in H by by destruct O2. fold p in H.
  pose proof O2 as (F2 & Ok2 & _). pose proof F2 as (_ & Hkr & _).
  assert (put_at p (canonical (envelope_value sealed)) s2 s' -> others_kept p s s' /\ opened_view s' p aad kind = inr (Some payload)) as Hput.
  { intros Hp. destruct (put_others _ _ _ _ Hp Ok2) as [O3 P3]; [by rewrite Hkr|]. split; [by eapply others_trans|].
    destruct (sealed_opens CANONICAL _ _ _ _ _ _ (record_bounds kind) Es eq_refl (record_roomy kind) Hb) as (v & Hv & Ha & Hopen).
    unfold opened_view. rewrite P3. unfold canonical. rewrite Hv. cbn [mbind stored_bind]. rewrite Ha. cbn [mbind stored_bind].
    assert (key_of s' = inr key) as ->.
    { rewrite <- (key_of_still s1 s2 S2 Ok1) in K1. destruct O3 as ((_ & Hk' & _) & _ & K3 & _). unfold key_kept in K3.
      unfold key_of in *. rewrite Hk'. rewrite K3; [done|]. intros Hn. by rewrite Hn in K1. }
    cbn [mbind stored_bind]. by rewrite Hopen. }
  apply write_step in H; [|done]. destruct r as [e|[]].
  - destruct H as [H|H]; [|by destruct (Hput H); split; [|right]].
    split; [eapply others_trans; [done|by apply still_others]|]. left. by rewrite (still_file _ _ _ H Ht).
  - by apply Hput.
Qed.
End Safety.

Section Updates.
  Context {PF : Platform} {VO : Vocabulary} `{C : !Crypto} {F : Type} `{!System F} {FD : FullDraws F}.
  Abbreviation Store := (RoutineStore.RoutineStore F).

(** ** The Team's state, as its file shows it *)
Definition state_path (lock : TeamLock.TeamLock) (s : Store) : Path := lock_file lock "state.json" s.
Definition team_view (s : Store) (lock : TeamLock.TeamLock) : stored TeamRoutines.TeamRoutines :=
  match file_of s (state_path lock s) with None => inr no_routines | Some payload => state_decode payload (TeamLock.team lock) end.
Lemma state_path_plain lock s : temporary (state_path lock s) = false.
Proof. apply temporary_last. Qed.

(** ** The decoded states *)
Lemma decoded_filter p entries : decoded_ok entries -> decoded_ok (List.filter p entries).
Proof. apply List.incl_Forall. apply incl_filter. Qed.
Lemma decoded_evict room entries : decoded_ok entries -> decoded_ok (evict room entries).
Proof.
  induction entries as [|e entries IH]; [done|]. intros H. cbn [evict]. case_match; [|done]. apply IH. by inversion H.
Qed.
Lemma decoded_still d (s : Store) : (decoded_ok (RoutineStore.decoded s) -> decoded_ok d) -> still s (s <| RoutineStore.decoded := d |>).
Proof. intros H. split; [done|]. split; [done|]. intros (H1 & H2 & H3). split; [exact H1|]. split; [exact H2|]. by apply H. Qed.
Lemma forget_still team (s s' : Store) r : forget team s = (s', r) -> still s s' /\ r = inr tt.
Proof. intros [= <- <-]. split; [|done]. apply decoded_still, decoded_filter. Qed.
Lemma keep_still team payload st (s s' : Store) r : keep team payload st s = (s', r) -> state_decode payload team = inr st -> still s s' /\ r = inr tt.
Proof.
  unfold keep. rewrite then_run. destruct (forget team s) as [s1 r1] eqn:E. apply forget_still in E as [S1 ->].
  intros [= <- <-] Hd. split; [|done]. etransitivity; [exact S1|]. apply decoded_still. intros H. apply decoded_evict.
  apply List.Forall_app. split; [done|]. by repeat constructor.
Qed.
Lemma take_first_in {A} p (l : list A) a rest : take_first p l = Some (a, rest) -> p a = true /\ a :: rest ≡ₚ l.
Proof.
  revert rest. induction l as [|b l IH]; intros rest H; [done|]. cbn [take_first] in H. destruct (p b) eqn:E; [by injection H as <- <-|].
  destruct (take_first p l) as [[found others]|] eqn:Et; [|done]. injection H as <- <-. destruct (IH others eq_refl) as [Hp Hl].
  split; [done|]. by rewrite Permutation_swap, Hl.
Qed.

Lemma load_shows lock (s s' : Store) r : store_load lock s = (s', r) -> store_ok s ->
  still s s' /\ match r with inr st => team_view s lock = inr st | inl _ => True end.
Proof.
  unfold store_load, team_view. rewrite then_run. cbn [look]. rewrite then_run. intros H Hok.
  destruct (on_disk (read_private _ _) s) as [s1 [e|found]] eqn:E; apply read_step in E as [S1 R]; [by injection H as <- <-|].
  change (lock_file lock "state.json" s) with (state_path lock s) in R.
  destruct found as [payload|]; rewrite R; rewrite then_run in H.
  - pose proof S1 as (_ & _ & Hok1). specialize (Hok1 Hok). destruct Hok1 as (_ & _ & Hd1). cbn [look] in H.
    destruct (take_first _ (RoutineStore.decoded s1)) as [[entry rest]|] eqn:Et.
    + apply take_first_in in Et as [Hp Hl]. rewrite then_run in H. injection H as <- <-. unfold decoded_ok in Hd1. rewrite List.Forall_forall in Hd1.
      split.
      * etransitivity; [exact S1|]. apply decoded_still. intros _. apply List.Forall_forall. intros e He. apply Hd1.
        apply list_elem_of_In. rewrite <- Hl, Permutation_cons_append. by apply list_elem_of_In.
      * apply andb_true_iff in Hp as [Ht Hb]. apply seqb_true in Ht, Hb. rewrite <- Ht, <- Hb. apply Hd1. apply list_elem_of_In. rewrite <- Hl. constructor.
    + rewrite then_run in H. unfold pass in H. destruct (state_decode payload _) as [e|st] eqn:Ed; [by injection H as <- <-|].
      rewrite then_run in H. destruct (keep _ payload st s1) as [s2 r2] eqn:Ek. apply keep_still in Ek as [S2 ->]; [|done].
      injection H as <- <-. split; [by etransitivity|done].
  - destruct (forget _ s1) as [s2 r2] eqn:Ef. apply forget_still in Ef as [S2 ->]. injection H as <- <-. split; [by etransitivity|done].
Qed.

Lemma save_lands lock st (s s' : Store) r : save lock st s = (s', r) -> store_ok s ->
  (still s s' /\ (forall u, r <> inr u))
  \/ (put_at (state_path lock s) (state_encode st (TeamLock.team lock)) s s' /\ exists kept, state_decode (state_encode st (TeamLock.team lock)) (TeamLock.team lock) = inr kept).
Proof.
  unfold save. rewrite then_run. cbn [look]. intros H Hok. case_match; [injection H as <- <-; by left|]. rewrite then_run in H.
  destruct (forget _ s) as [s1 r1] eqn:Ef. apply forget_still in Ef as [S1 ->]. rewrite then_run in H. unfold pass in H.
  destruct (state_decode _ _) as [e|kept] eqn:Ed; [injection H as <- <-; left; by split|]. rewrite then_run in H. cbn [look] in H. rewrite then_run in H.
  rewrite (lock_file_fixed lock "state.json" s s1) in H by apply S1. fold (state_path lock s) in H.
  destruct (on_disk (write_private _ _) s1) as [s2 r2] eqn:Ew. apply write_step in Ew; [|apply state_path_plain].
  destruct r2 as [e|u].
  - injection H as <- <-. destruct Ew as [S2|P2]; [left; split; [by etransitivity|done]|right].
    split; [|eauto]. eapply put_still; [exact S1|exact P2|reflexivity|apply state_path_plain].
  - apply keep_still in H as [S3 ->]; [|done]. right. split; [|eauto]. eapply put_still; [exact S1|exact Ew|exact S3|apply state_path_plain].
Qed.

(** ** One transition *)
(** Nothing moved but, possibly, the decoded states and temporaries. *)
Definition untouched (s s' : Store) : Prop := fixed s s' /\ store_ok s' /\ forall q, temporary q = false -> file_of s' q = file_of s q.
Lemma still_untouched s s' : still s s' -> store_ok s -> untouched s s'.
Proof. intros H Hok. split; [apply H|]. split; [by apply H|]. intros q. by apply still_file. Qed.
(** The Team's file shows [st] (the same values, or the same bytes), and every other
    file stays. *)
Definition persisted (lock : TeamLock.TeamLock) (st : TeamRoutines.TeamRoutines) (s s' : Store) : Prop :=
  fixed s s' /\ store_ok s' /\ (forall q, q <> state_path lock s -> temporary q = false -> file_of s' q = file_of s q)
  /\ exists kept, team_view s' lock = inr kept /\ same_state st kept (TeamLock.team lock) = true.
Lemma put_persisted lock st s s' : put_at (state_path lock s) (state_encode st (TeamLock.team lock)) s s' -> store_ok s ->
  writable_state st (TeamLock.team lock) -> (exists kept, state_decode (state_encode st (TeamLock.team lock)) (TeamLock.team lock) = inr kept) -> persisted lock st s s'.
Proof.
  intros (Hf & (_ & Hp & Hq) & Ho) Hok Hw (kept & Hd). split; [done|]. split; [auto|]. split; [done|]. exists kept.
  unfold team_view, state_path. rewrite (lock_file_fixed lock "state.json" s s') by done. unfold file_of. fold (state_path lock s). rewrite Hp.
  split; [done|]. apply decoded_kept in Hd; [|done]. subst kept. unfold same_state. rewrite kept_encoded, seqb_refl. apply orb_true_r.
Qed.

(** C16. One transition of a Team's state is applied to what its file shows, and is
    persisted before its answer is returned: a successful update leaves a file that
    shows the transition's result (the same values, or the same bytes when written); a refusal of
    the transition leaves every file as it was, and a store error leaves either
    every file as it was or the result in place, never part of it.  Every other
    file of the store stays in every case, and the states kept decoded are never
    seen: the transition starts from what the file shows. *)
Theorem update_persists {Er T} lock (change : TeamRoutines.TeamRoutines -> Er + TeamRoutines.TeamRoutines * T) s s' r :
  store_update lock change s = (s', r) -> store_ok s ->
  (forall before after answer, team_view s lock = inr before -> change before = inr (after, answer) -> writable_state after (TeamLock.team lock)) ->
  match r with
  | inr answer => exists before after, team_view s lock = inr before /\ change before = inr (after, answer) /\ persisted lock after s s'
  | inl (inr e) => untouched s s' /\ exists before, team_view s lock = inr before /\ change before = inl e
  | inl (inl _) => untouched s s' \/ exists before after answer,
      team_view s lock = inr before /\ change before = inr (after, answer) /\ persisted lock after s s'
  end.
Proof.
  unfold store_update. rewrite then_run. unfold writable at 1. intros H Hok Hw. destruct (RoutineStore.closed s || _); cbv beta iota in H; [injection H as <- <-; left; by apply still_untouched|].
  destruct (store_load lock s) as [s1 [e|before]] eqn:El; apply load_shows in El as [S1 V1]; try done.
  { injection H as <- <-. left. by apply still_untouched. }
  destruct (change before) as [e|[after answer]] eqn:Ec.
  { injection H as <- <-. split; [by apply still_untouched|eauto]. }
  specialize (Hw before after answer V1 Ec).
  assert (state_path lock s1 = state_path lock s) as Hp1 by (apply (lock_file_fixed lock "state.json" s s1); apply S1).
  destruct (same_state after before (TeamLock.team lock)) eqn:He.
  - injection H as <- <-. exists before, after. split; [done|]. split; [done|]. destruct (still_untouched _ _ S1 Hok) as (Hf & Ho & Hq).
    split; [done|]. split; [done|]. split; [auto|]. exists before. split; [|done].
    rewrite <- V1. unfold team_view. rewrite Hp1. by rewrite Hq by apply state_path_plain.
  - assert (store_ok s1) as Hok1 by by apply S1. destruct (save lock after s1) as [s2 r2] eqn:Es. apply save_lands in Es; [|done].
    destruct Es as [[S2 Hn]|[P2 Hk]].
    + destruct r2 as [e|u]; [|by destruct (Hn u)]. injection H as <- <-. left. apply still_untouched; [by etransitivity|done].
    + rewrite Hp1 in P2. assert (persisted lock after s s2) as Hper.
      { apply put_persisted; try done. eapply put_still; [exact S1|exact P2|reflexivity|apply state_path_plain]. }
      destruct r2 as [e|u]; injection H as <- <-; [right; eauto 10|eauto 10].
Qed.
End Updates.
