(* ===== verification/StoreResets.v ===== *)
(** * Sealed records and resets

    A sealed record reads back as exactly the bytes that were sealed, a recovery
    snapshot is written once, and a lock that a reset overtook writes nothing. *)

From stdpp Require Import base tactics list strings gmap.
From Stdlib Require Import ZArith Lia Ascii.
From S2P Require Import Prelude Text Json Reader Utf8 ReaderSafety Floats RoundTrip Calendar Platform Wire Instants Notices Schedule Dates Starts Plans Team Journal Cursors CursorSafety StateCodec Disk DiskSafety Sealing RoutineStore StoreSafety.

#[local] Open Scope Z_scope.

Create HintDb steady.
Section Resets.
  Context {PF : Platform} {VO : Vocabulary} `{C : !Crypto} {F : Type} `{!System F} {FD : FullDraws F}.
  Abbreviation Store := (RoutineStore.RoutineStore F).

(** ** Calls that keep the store's own fields *)
Definition steady (s s' : Store) : Prop := fixed s s' /\ (store_ok s -> store_ok s').
#[global] Instance steady_refl : Reflexive steady.
Proof. by intros s. Qed.
#[global] Instance steady_trans : Transitive steady.
Proof. intros ? ? ? [F1 O1] [F2 O2]. split; [by etransitivity|auto]. Qed.
Definition steadily {A} (m : kept_op A) : Prop := forall s : Store, steady s (fst (m s)).
Lemma steadily_then {A B} (m : kept_op A) (f : A -> kept_op B) : steadily m -> (forall a, steadily (f a)) -> steadily (then_ m f).
Proof.
  intros Hm Hf s. rewrite then_run. specialize (Hm s). destruct (m s) as [s1 [e|a]]; [done|]. by etransitivity; [exact Hm|apply Hf].
Qed.
Lemma steadily_pass {A} (r : stored A) : steadily (pass r).
Proof. by intros s. Qed.
Lemma steadily_look {A} (f : Store -> A) : steadily (look f).
Proof. by intros s. Qed.
Lemma steadily_disk {A} (m : io (StateError + A)) : steadily (on_disk m).
Proof. intros s. unfold on_disk. by destruct (m _). Qed.
Lemma steadily_disk_or {A} e (m : io (unit + A)) : steadily (on_disk_or e m).
Proof. intros s. unfold on_disk_or. by destruct (m _). Qed.
Lemma steadily_disk_stored {A} (m : io (StoreError + A)) : steadily (on_disk_stored m).
Proof. intros s. unfold on_disk_stored. by destruct (m _). Qed.
Lemma steadily_forget team : steadily (forget team).
Proof. intros s. destruct (forget team s) as [s' r] eqn:E. apply forget_still in E as [(Hf & _ & Ho) _]. by split. Qed.
Lemma steadily_key create : steadily (store_key create).
Proof. intros s. apply steadily_disk. Qed.
Lemma steadily_writable lock : steadily (writable lock).
Proof. by intros s. Qed.
Hint Resolve steadily_then steadily_pass steadily_look steadily_disk steadily_disk_or steadily_disk_stored steadily_forget steadily_key steadily_writable : steady.

Lemma steadily_sealed_read lock name aad kind : steadily (sealed_read lock name aad kind).
Proof. unfold sealed_read. repeat (apply steadily_then; [auto with steady|intros ?]). case_match; auto with steady. Qed.
Lemma steadily_seal_new lock name payload aad : steadily (seal_new lock name payload aad).
Proof. unfold seal_new. auto 10 with steady. Qed.
Hint Resolve steadily_sealed_read steadily_seal_new : steady.
Lemma steadily_sealed_write lock name payload aad kind once : steadily (sealed_write lock name payload aad kind once).
Proof. unfold sealed_write. apply steadily_then; [auto with steady|]. intros _. case_match; [|auto with steady]. apply steadily_then; [auto with steady|]. intros [?|]; auto with steady. Qed.
Hint Resolve steadily_sealed_write : steady.
Lemma steadily_put_record kind lock run payload : steadily (put_record kind lock run payload).
Proof. unfold put_record. apply steadily_then; [auto with steady|]. intros. case_match; auto with steady. Qed.
Lemma steadily_read_record kind lock run : steadily (read_record kind lock run).
Proof. unfold read_record. auto with steady. Qed.
Lemma steadily_delete_record kind lock run : steadily (delete_record kind lock run).
Proof. unfold delete_record, sealed_delete. auto with steady. Qed.
Lemma steadily_seal_cursor lock c : steadily (seal_cursor lock c).
Proof. unfold seal_cursor. auto with steady. Qed.
Lemma steadily_read_cursor lock b : steadily (read_cursor lock b).
Proof. unfold read_cursor. repeat (apply steadily_then; [auto with steady|intros ?]). case_match; auto with steady. Qed.
Hint Resolve steadily_seal_cursor steadily_read_cursor : steady.
Lemma steadily_put_cursor lock c : steadily (put_cursor lock c).
Proof. unfold put_cursor. apply steadily_then; [case_match; auto with steady|]. intros. case_match; auto with steady. Qed.
Lemma steadily_lose_cursor lock b : steadily (lose_cursor lock b).
Proof. unfold lose_cursor. apply steadily_then; [auto with steady|]. intros [c|]; [case_match|]; auto with steady. Qed.
Lemma steadily_team_delete lock : steadily (team_delete lock).
Proof. unfold team_delete. auto with steady. Qed.
Lemma steadily_delete_all : steadily delete_all.
Proof.
  unfold delete_all. do 2 (apply steadily_then; [auto with steady|intros ?]). apply steadily_then; [|auto with steady].
  intros s. split; [done|]. intros (H1 & H2 & _). split; [exact H1|]. split; [exact H2|constructor].
Qed.
Lemma steadily_teams_named names : steadily (teams_named names).
Proof.
  induction names as [|name names IH]; cbn [teams_named]; [auto with steady|]. apply steadily_then; [auto with steady|]. intros [path maximum].
  apply steadily_then; [auto with steady|]. intros [payload|]; [|done]. auto with steady.
Qed.
Lemma steadily_teams : steadily store_teams.
Proof. unfold store_teams. pose proof steadily_teams_named. auto with steady. Qed.
Lemma steadily_output_digest team b step material : steadily (output_digest team b step material).
Proof. unfold output_digest. auto with steady. Qed.
Lemma update_steady {Er T} lock (change : TeamRoutines.TeamRoutines -> Er + TeamRoutines.TeamRoutines * T) (s s' : Store) r :
  store_update lock change s = (s', r) -> store_ok s -> steady s s'.
Proof.
  unfold store_update. rewrite then_run. unfold writable at 1. intros H Hok. destruct (RoutineStore.closed s || _); cbv beta iota in H; [by injection H as <- <-|].
  destruct (store_load lock s) as [s1 [e|before]] eqn:El; apply load_shows in El as [(F1 & _ & O1) V1]; try done; [by injection H as <- <-|].
  destruct (change before) as [e|[after answer]]; [by injection H as <- <-|]. destruct (same_state _ _ _); [by injection H as <- <-|].
  destruct (save lock after s1) as [s2 r2] eqn:Es. apply save_lands in Es; [|auto].
  assert (steady s1 s2) as Hs by (destruct Es as [[(? & ? & ?) _]|[(? & ? & ?) _]]; by split).
  assert (s2 = s') as <- by (destruct r2; by injection H). etransitivity; [|exact Hs]. by split.
Qed.

(** ** Calls on a store *)
(** The calls of a Team's lock that write. *)
Inductive writes (lock : TeamLock.TeamLock) : Store -> Store -> Prop :=
| writes_update Er T (change : TeamRoutines.TeamRoutines -> Er + TeamRoutines.TeamRoutines * T) s s' r :
    store_update lock change s = (s', r) -> writes lock s s'
| writes_record kind run payload s s' r : put_record kind lock run payload s = (s', r) -> writes lock s s'
| writes_cursor c s s' r : put_cursor lock c s = (s', r) -> writes lock s s'
| writes_loss b s s' r : lose_cursor lock b s = (s', r) -> writes lock s s'.
(** Any call: those of any lock, and the store's own. *)
Inductive store_call : Store -> Store -> Prop :=
| call_writes lock s s' : writes lock s s' -> store_call s s'
| call_load lock s s' r : store_load lock s = (s', r) -> store_call s s'
| call_read kind lock run s s' r : read_record kind lock run s = (s', r) -> store_call s s'
| call_cursor lock b s s' r : read_cursor lock b s = (s', r) -> store_call s s'
| call_remove kind lock run s s' r : delete_record kind lock run s = (s', r) -> store_call s s'
| call_delete lock s s' r : team_delete lock s = (s', r) -> store_call s s'
| call_delete_all s s' r : delete_all s = (s', r) -> store_call s s'
| call_teams s s' r : store_teams s = (s', r) -> store_call s s'
| call_digest team b step material s s' r : output_digest team b step material s = (s', r) -> store_call s s'
| call_exclusive s : store_call s (exclusive s)
| call_release s : store_call s (release_exclusive s).

Lemma steadily_run {A} (m : kept_op A) s s' r : steadily m -> m s = (s', r) -> steady s s'.
Proof. intros H E. specialize (H s). by rewrite E in H. Qed.
Lemma writes_steady lock s s' : writes lock s s' -> store_ok s -> steady s s'.
Proof.
  destruct 1; intros Hok;
    eauto using update_steady, steadily_run, steadily_put_record, steadily_put_cursor, steadily_lose_cursor.
Qed.
Lemma call_epoch s s' : store_call s s' -> store_ok s -> store_ok s' /\ RoutineStore.epoch s <= RoutineStore.epoch s'.
Proof.
  intros H Hok. assert (steady s s' -> store_ok s' /\ RoutineStore.epoch s <= RoutineStore.epoch s') as Hs.
  { intros [(_ & _ & _ & _ & _ & ->) Ho]. split; [auto|lia]. }
  destruct H; try (apply Hs;
    eauto using writes_steady, steadily_run, steadily_read_record, steadily_read_cursor, steadily_delete_record, steadily_team_delete, steadily_delete_all, steadily_teams, steadily_output_digest; fail).
  - apply Hs. match goal with H : store_load _ _ = _ |- _ => apply load_shows in H as [(Hf & _ & Ho) _]; [|done] end. by split.
  - split; [exact Hok|]. unfold exclusive. change (RoutineStore.epoch s <= RoutineStore.epoch s + 1). lia.
  - split; [exact Hok|]. unfold release_exclusive. change (RoutineStore.epoch s <= RoutineStore.epoch s). lia.
Qed.
Lemma calls_epoch s s' : rtc store_call s s' -> store_ok s -> store_ok s' /\ RoutineStore.epoch s <= RoutineStore.epoch s'.
Proof.
  induction 1 as [|s s1 s' H _ IH]; intros Hok; [split; [done|lia]|]. destruct (call_epoch _ _ H Hok) as [Hok1 He]. destruct (IH Hok1). split; [done|lia].
Qed.

(** ** A lock that was overtaken *)
Definition overtaken (lock : TeamLock.TeamLock) (s : Store) : Prop := TeamLock.epoch lock < RoutineStore.epoch s.
Lemma overtaken_writable lock s : overtaken lock s -> writable lock s = (s, inl Resetting).
Proof. unfold overtaken, writable. intros H. destruct (Z.eqb_spec (RoutineStore.epoch s) (TeamLock.epoch lock)); [lia|]. by rewrite orb_true_r. Qed.
Lemma sealed_write_overtaken lock name payload aad kind once s : overtaken lock s ->
  sealed_write lock name payload aad kind once s = (s, inl Resetting).
Proof. intros H. unfold sealed_write. by rewrite then_run, overtaken_writable. Qed.
Lemma seal_cursor_overtaken lock c (s s' : Store) r : seal_cursor lock c s = (s', r) -> overtaken lock s -> s' = s.
Proof.
  unfold seal_cursor. rewrite then_run. unfold pass. intros H Ho. destruct (encode c); [|by injection H].
  rewrite then_run in H. destruct (run_id_of _); [by injection H|]. rewrite sealed_write_overtaken in H by done. by injection H.
Qed.
Lemma lost_seal_overtaken lock (found : stored Cursor.Cursor) (s s' : Store) r : then_ (pass found) (seal_cursor lock) s = (s', r) -> overtaken lock s -> s' = s.
Proof. rewrite then_run. unfold pass. destruct found; [by intros [= <- <-]|]. by apply seal_cursor_overtaken. Qed.
Lemma read_cursor_still lock b (s s' : Store) r : read_cursor lock b s = (s', r) -> store_ok s -> still s s'.
Proof.
  unfold read_cursor. rewrite then_run. unfold pass. intros H Hok. destruct (run_id_of _) as [e|run]; [by injection H as <- <-|].
  rewrite then_run in H. destruct (sealed_read lock _ _ _ s) as [s1 [e|found]] eqn:E; apply sealed_read_view in E as [S1 _]; try done; [by injection H as <- <-|].
  destruct found; by injection H as <- <-.
Qed.
Lemma overtaken_still lock s s' : still s s' -> overtaken lock s -> overtaken lock s'.
Proof. intros ((_ & _ & _ & _ & _ & He) & _). unfold overtaken. by rewrite He. Qed.
Lemma overtaken_still_writes lock s s' : writes lock s s' -> store_ok s -> overtaken lock s -> still s s'.
Proof.
  intros H Hok Ho. destruct H as [Er T change s s' r H|kind run payload s s' r H|c s s' r H|b s s' r H].
  - unfold store_update in H. rewrite then_run, overtaken_writable in H by done. by injection H as <- <-.
  - unfold put_record in H. rewrite then_run in H. unfold pass in H. destruct (run_id_of _) as [e|id]; [by injection H as <- <-|].
    case_match; [by injection H as <- <-|]. rewrite sealed_write_overtaken in H by done. by injection H as <- <-.
  - unfold put_cursor in H. rewrite then_run in H.
    match type of H with match ?m with (_, _) => _ end = _ => destruct m as [s1 [e|sealed]] eqn:E end.
    + injection H as <- <-. destruct (Cursor.protection_lost c); [done|]. by eapply read_cursor_still.
    + assert (still s s1) as S1 by (destruct (Cursor.protection_lost c); [by injection E as <- <-|by eapply read_cursor_still]).
      pose proof (overtaken_still _ _ _ S1 Ho) as Ho1. etransitivity; [exact S1|].
      case_match; [apply lost_seal_overtaken in H|apply seal_cursor_overtaken in H]; subst; done.
  - unfold lose_cursor in H. rewrite then_run in H. destruct (read_cursor lock b s) as [s1 [e|found]] eqn:E; apply read_cursor_still in E as S1; try done; [by injection H as <- <-|].
    etransitivity; [exact S1|]. pose proof (overtaken_still _ _ _ S1 Ho) as Ho1. destruct found as [sealed|]; [|by injection H as <- <-].
    case_match; [by injection H as <- <-|]. by apply lost_seal_overtaken in H; subst.
Qed.

(** C18. A lock that a Space reset overtook writes nothing: whatever calls were made
    between taking a Team's lock and the reset, and whatever calls followed it (the
    reset's end included), a call that would write under that lock leaves every
    file as it was. *)
Theorem reset_stops_writes team lock s0 s s1 s2 s3 :
  store_ok s0 -> store_lock team s0 = (s, inr lock) -> rtc store_call s s1 -> rtc store_call (exclusive s1) s2 ->
  writes lock s2 s3 -> untouched s2 s3.
Proof.
  intros Hok Hl H1 H2 Hw. unfold store_lock in Hl. injection Hl as <- Hl. apply stored_bind_inr in Hl as (id & _ & [= <-]).
  destruct (calls_epoch _ _ H1 Hok) as [Hok1 He1]. destruct (calls_epoch _ _ H2 Hok1) as [Hok2 He2].
  apply still_untouched; [|done]. apply (overtaken_still_writes _ _ _ Hw Hok2). unfold overtaken. cbn [TeamLock.epoch].
  unfold exclusive in He2. change (RoutineStore.epoch s1 + 1 <= RoutineStore.epoch s2) in He2. lia.
Qed.

(** ** Sealed records *)
Context {L : CryptoLaws C}.
Definition record_path (kind : Sealed) (lock : TeamLock.TeamLock) (run : string) (s : Store) : Path := lock_file lock (record_name run kind) s.
(** What a record opens to. *)
Definition record_view (kind : Sealed) (lock : TeamLock.TeamLock) (run : string) (s : Store) : stored (option string) :=
  opened_view s (record_path kind lock run s) (record_aad kind (TeamLock.team lock) run) kind.
Lemma record_view_still kind lock run s s' : still s s' -> store_ok s -> ROUTINE_ID_RE run = true -> record_view kind lock run s' = record_view kind lock run s.
Proof.
  intros Hs Hok Hr. unfold record_view, opened_view, record_path. rewrite (lock_file_fixed lock _ s s') by apply Hs.
  rewrite (still_file _ _ _ Hs) by by apply run_not_temporary. by rewrite (key_of_still _ _ Hs Hok).
Qed.
Lemma run_id_inr run id : run_id_of run = inr id -> id = run /\ ROUTINE_ID_RE run = true.
Proof. unfold run_id_of. case_match; [|done]. by intros [= <-]. Qed.
Lemma read_record_view kind lock run (s s' : Store) r : read_record kind lock run s = (s', r) -> store_ok s ->
  still s s' /\ match r with inr found => record_view kind lock run s = inr found | inl _ => True end.
Proof.
  unfold read_record. rewrite then_run. unfold pass. intros H Hok. destruct (run_id_of run) as [e|id] eqn:Er; [by injection H as <- <-|].
  apply run_id_inr in Er as [-> _]. by apply sealed_read_view in H.
Qed.
Lemma sealed_write_view lock name payload aad kind once (s s' : Store) r : sealed_write lock name payload aad kind once s = (s', r) -> store_ok s ->
  temporary (lock_file lock name s) = false -> 1 <= slen payload <= sealed_maximum kind ->
  others_kept (lock_file lock name s) s s'
  /\ match r with
     | inr _ => opened_view s' (lock_file lock name s) aad kind = inr (Some payload)
     | inl _ => file_of s' (lock_file lock name s) = file_of s (lock_file lock name s)
                \/ opened_view s' (lock_file lock name s) aad kind = inr (Some payload)
     end.
Proof.
  unfold sealed_write. rewrite then_run. unfold writable at 1. intros H Hok Ht Hb.
  destruct (RoutineStore.closed s || _); cbv beta iota in H; [injection H as <- <-; split; [by apply still_others|by left]|].
  destruct once; [|by eapply seal_new_view]. rewrite then_run in H.
  destruct (sealed_read lock name aad kind s) as [s1 [e|found]] eqn:E; apply sealed_read_view in E as [S1 V1]; try done.
  - injection H as <- <-. split; [by apply still_others|]. left. by apply still_file.
  - assert (lock_file lock name s1 = lock_file lock name s) as Hp by (apply lock_file_fixed; apply S1). destruct found as [sealed|].
    + unfold pass in H. destruct (seqb_spec sealed payload) as [->|_]; injection H as <- <-; (split; [by apply still_others|]).
      * unfold opened_view in *. rewrite (still_file _ _ _ S1 Ht). by rewrite (key_of_still _ _ S1 Hok).
      * left. by apply still_file.
    + assert (store_ok s1) as Hok1 by by apply S1. apply (seal_new_view _ _ _ _ kind) in H as [O2 R2]; rewrite ?Hp in *; try done.
      split; [eapply others_trans; [by apply still_others|done]|]. destruct r; [|done]. rewrite <- (still_file _ _ _ S1 Ht). done.
Qed.

(** C17. A sealed record is what was put: a successful [put_continuation],
    [put_recovery] or [put_incident] leaves a record every later read of which
    that succeeds returns exactly its bytes; a failed one leaves the earlier file
    or the new record, and in each case every other file stays but a key that had
    to be created.  A recovery snapshot is written once: over an earlier snapshot
    nothing moves, and only the same bytes succeed. *)
Theorem record_reads_back kind lock run payload (s s' : Store) r :
  put_record kind lock run payload s = (s', r) -> store_ok s ->
  others_kept (record_path kind lock run s) s s'
  /\ match r with
     | inr _ => record_view kind lock run s' = inr (Some payload)
                /\ forall s1 found, read_record kind lock run s' = (s1, inr found) -> found = Some payload
     | inl _ => file_of s' (record_path kind lock run s) = file_of s (record_path kind lock run s) \/ record_view kind lock run s' = inr (Some payload)
     end
  /\ (kind = Recovery -> forall old, record_view kind lock run s = inr (Some old) ->
      untouched s s' /\ (r = inr tt -> old = payload)).
Proof.
  intros H Hok. unfold put_record in H. rewrite then_run in H. unfold pass in H.
  destruct (run_id_of run) as [e|id] eqn:Er.
  { injection H as <- <-. split; [by apply still_others|]. split; [by left|]. intros _ old _. split; [by apply still_untouched|done]. }
  apply run_id_inr in Er as [-> Hrun]. pose proof (run_not_temporary (team_dir s (TeamLock.team lock)) run kind Hrun) as Ht.
  destruct (_ && _) eqn:Eb; cbn [negb] in H.
  2: { injection H as <- <-. split; [by apply still_others|]. split; [by left|]. intros _ old _. split; [by apply still_untouched|done]. }
  apply andb_true_iff in Eb as [Hl%Z.leb_le Hu%Z.leb_le].
  assert (kind = Recovery -> forall old, record_view kind lock run s = inr (Some old) -> still s s' /\ (r = inr tt -> old = payload)) as Honce.
  { intros -> old Hold. unfold sealed_write in H. rewrite then_run in H. unfold writable at 1 in H.
    destruct (RoutineStore.closed s || _); cbv beta iota in H; [by injection H as <- <-|]. rewrite then_run in H.
    destruct (sealed_read lock _ _ _ s) as [s1 [e|found]] eqn:E; apply sealed_read_view in E as [S1 V1]; try done; [by injection H as <- <-|].
    unfold record_view, record_path in Hold. cbn [record_aad] in *. rewrite Hold in V1. injection V1 as <-. unfold pass in H.
    destruct (seqb_spec old payload); by injection H as <- <-. }
  apply sealed_write_view in H as [Hkept Hr]; try done. split; [done|]. split.
  - assert (forall v, opened_view s' (lock_file lock (record_name run kind) s) (record_aad kind (TeamLock.team lock) run) kind = v -> record_view kind lock run s' = v) as Hv.
    { unfold record_view, record_path. rewrite (lock_file_fixed lock _ s s') by apply Hkept. done. }
    destruct r as [e|u]; [destruct Hr; [by left|right; auto]|]. split; [by apply Hv|]. intros s1 found Hread.
    apply read_record_view in Hread as [_ V]; [|by apply Hkept]. rewrite (Hv _ Hr) in V. by injection V.
  - intros Hk old Hold. destruct (Honce Hk old Hold) as [Hs He]. split; [by apply still_untouched|done].
Qed.
End Resets.
