(* ===== verification/DiagnosticSafety.v ===== *)
(** * What the records of runs keep

    The theory of [Diagnostics]: a Team's bodies as its directory lists them, what
    making room for a body leaves, and what a sealed body opens to. *)

From stdpp Require Import base tactics list strings gmap pretty.
From Stdlib Require Import ZArith Lia Ascii.
From S2P Require Import Prelude Text Json Reader Utf8 ReaderSafety Floats RoundTrip Calendar Platform Requests Redaction Wire Instants Notices Schedule Starts Plans Definitions RunDocuments Traces Disk DiskSafety Sealing RoutineStore StoreSafety Diagnostics.

#[local] Open Scope Z_scope.

Lemma nodup_map_inj {A B} (f : A -> B) l x y : List.NoDup (map f l) -> In x l -> In y l -> f x = f y -> x = y.
Proof.
  induction l as [|a l IH]; [done|]. cbn [map In]. intros N Hx Hy E. inversion_clear N as [|? ? Ha Hl].
  destruct Hx as [-> | Hx], Hy as [-> | Hy]; [done| | |auto]; exfalso; apply Ha; [rewrite E|rewrite <- E]; by apply in_map.
Qed.

(** ** Names of bodies *)
Lemma of_parts_kept kind operation number name when routine run size e : Body.of_parts kind operation number name when routine run size = Some e ->
  Body.name e = name /\ Body.size e = size.
Proof. unfold Body.of_parts. case_match; [done|]. destruct (parse_int when); [|done]. by intros [= <-]. Qed.
Lemma parse_kept name size e : Body.parse name size = Some e -> Body.name e = name /\ Body.size e = size.
Proof. unfold Body.parse. intros H. repeat (case_match; try done); by apply of_parts_kept in H. Qed.
Lemma parse_sizes name size size' : is_some (Body.parse name size) = is_some (Body.parse name size').
Proof.
  assert (forall k o n a b c d, is_some (Body.of_parts k o n a b c d size) = is_some (Body.of_parts k o n a b c d size')) as H.
  { intros. unfold Body.of_parts. case_match; [done|]. by destruct (parse_int _). }
  unfold Body.parse. repeat (case_match; try done); apply H.
Qed.
Definition is_body (name : string) : bool := is_some (Body.parse name 0).
Lemma is_body_parse name size : is_body name = is_some (Body.parse name size).
Proof. apply parse_sizes. Qed.
Definition listed (e : Body.Entry) : string * Z := (Body.name e, Body.size e).

Section Safety.
  Context {PF : Platform} {VO : Vocabulary} `{C : !Crypto} {F : Type} `{!System F}.
  Abbreviation Disk := (Disk.Disk F).
  Implicit Types (st : DiagnosticStore) (d : Disk).

(** The bodies of a directory: their names, each once, with their sizes. *)
Definition lists d (directory : Path) (l : list (string * Z)) : Prop :=
  base.NoDup (map fst l)
  /\ forall name size, (name, size) ∈ l <-> is_body name = true /\ exists content, file_at d (directory ++ [name]) = Some content /\ size = slen content.
Lemma lists_perm d directory l l' : lists d directory l -> lists d directory l' -> l ≡ₚ l'.
Proof.
  intros [N1 H1] [N2 H2]. apply NoDup_Permutation; [by eapply NoDup_fmap_1|by eapply NoDup_fmap_1|].
  intros [name size]. by rewrite H1, H2.
Qed.
Lemma lists_sum d directory l l' : lists d directory l -> lists d directory l' -> zsum (map snd l) = zsum (map snd l').
Proof. intros H1 H2. apply zsum_perm. by rewrite (lists_perm _ _ _ _ H1 H2). Qed.
Lemma lists_quiet d d' directory l : lists d directory l -> (forall name, is_body name = true -> file_at d' (directory ++ [name]) = file_at d (directory ++ [name])) ->
  lists d' directory l.
Proof. intros [N H] Hq. split; [done|]. intros name size. rewrite H. split; intros (Hb & c & Hc & Hs); (split; [done|]); exists c; (split; [|done]); [by rewrite Hq|by rewrite <- Hq]. Qed.

(** ** Listing *)
Lemma entries_of_elem d directory name node : (name, node) ∈ entries_of d directory <-> Disk.nodes d !! (directory ++ [name]) = Some node.
Proof.
  unfold entries_of. rewrite list_elem_of_omap. split.
  - intros ([p n] & Hin & He). apply elem_of_map_to_list in Hin. cbn in He. destruct (bool_decide_reflect (parent_of p = Some directory)) as [Hp|]; [|done].
    destruct (name_of p) as [x|] eqn:En; [|done]. injection He as -> ->. by rewrite <- (path_parts p directory name Hp En).
  - intros Hn. exists (directory ++ [name], node). split; [by apply elem_of_map_to_list|]. cbn. rewrite parent_of_last, name_of_last. by rewrite bool_decide_true.
Qed.
Lemma entries_of_names d directory : base.NoDup (map fst (entries_of d directory)).
Proof.
  unfold entries_of. pose proof (NoDup_fst_map_to_list (Disk.nodes d)) as Hn. induction (map_to_list (Disk.nodes d)) as [|[p n] l IH]; [constructor|].
  cbn [fmap list_fmap fst] in Hn. apply NoDup_cons in Hn as [Hp Hn]. specialize (IH Hn). cbn [omap list_omap fst snd].
  destruct (bool_decide_reflect (parent_of p = Some directory)) as [Hd|]; [|done]. destruct (name_of p) as [x|] eqn:En; [|done]. cbn [mbind option_bind map fst].
  apply NoDup_cons. split; [|done]. rewrite (path_parts p directory x Hd En) in Hp. intros Hin. apply Hp.
  apply list_elem_of_In, in_map_iff in Hin as ([y m] & Hy & Hin). cbn in Hy. subst y. apply list_elem_of_In, list_elem_of_omap in Hin as ([q k] & Hq & He).
  cbn in He. destruct (bool_decide_reflect (parent_of q = Some directory)) as [Hd'|]; [|done]. destruct (name_of q) as [y|] eqn:Ey; [|done]. injection He as -> ->.
  rewrite <- (path_parts q directory x Hd' Ey). apply list_elem_of_fmap. by exists (q, m).
Qed.
Definition directory_at d (p : Path) : Prop := exists n, Disk.nodes d !! p = Some n /\ Node.kind n = KDirectory.
Lemma read_dir_shows directory d d' r : read_dir directory d = (d', r) ->
  unmoved d d' /\ match r with
                  | inr None => Disk.nodes d !! directory = None
                  | inr (Some l) => l = entries_of d directory /\ directory_at d directory
                  | inl _ => True
                  end.
Proof.
  unfold read_dir, call_or. rewrite run_try. intros H. destruct (call (reads _) d) as [d1 r1] eqn:E. apply call_reads in E as [U R].
  destruct r1 as [[]|a]; [by injection H as <- <-|]. destruct R as (s & ->). injection H as <- <-. split; [done|].
  change (Disk.nodes (d <| Disk.system := s |>)) with (Disk.nodes d). destruct (Disk.nodes d !! directory) as [n|] eqn:En; [|done].
  destruct (bool_decide_reflect (Node.kind n = KDirectory)); [|done]. split; [done|]. by exists n.
Qed.

Lemma entries_named_shows directory names d d' r : entries_named directory names d = (d', r) ->
  unmoved d d' /\ match r with
                  | inr found =>
                      map Body.name found = List.filter is_body names
                      /\ forall e, e ∈ found -> file_at d (directory ++ [Body.name e]) <> None
                                   /\ exists c, file_at d (directory ++ [Body.name e]) = Some c /\ Body.size e = slen c /\ Body.parse (Body.name e) (slen c) = Some e
                  | inl _ => True
                  end.
Proof.
  revert d d' r. induction names as [|name names IH]; intros d d' r H; cbn [entries_named] in H.
  { injection H as <- <-. split; [done|]. split; [done|]. intros e He. by apply elem_of_nil in He. }
  cbn [List.filter]. change (is_some (Body.parse name 0)) with (is_body name) in H. destruct (is_body name) eqn:Hb; [|by apply IH].
  rewrite run_try, map_err_run in H. destruct (metadata _ d) as [d1 [[]|n]] eqn:Em; apply metadata_node in Em as [U1 Hn]; [by injection H as <- <-|].
  destruct (bool_decide_reflect (Node.kind n = KFile)) as [Hk|]; [|by injection H as <- <-]. destruct (Node.is_link n) eqn:Hl; [by injection H as <- <-|].
  cbn [andb negb] in H. rewrite run_try in H. destruct (entries_named directory names d1) as [d2 [e|found]] eqn:En; apply IH in En as [U2 R].
  { injection H as <- <-. split; [by etransitivity|done]. }
  injection H as <- <-. split; [by etransitivity|]. rewrite (is_body_parse name (slen (Node.content n))) in Hb.
  destruct (Body.parse name (slen (Node.content n))) as [e|] eqn:Ep; [|done]. destruct (parse_kept _ _ _ Ep) as [E1 E2]. destruct R as [R1 R2]. change (option_list (Some e) ++ found) with (e :: found). cbn [map].
  split; [by rewrite E1, R1|]. intros x Hx. apply elem_of_cons in Hx as [-> | Hx].
  - rewrite E1. assert (file_at d (directory ++ [name]) = Some (Node.content n)) as Ef by (apply holds_file; by exists n). rewrite Ef. split; [done|]. exists (Node.content n). auto.
  - destruct U1 as (s & ->). exact (R2 x Hx).
Qed.

(** No file without its directory. *)
Definition rooted d (directory : Path) : Prop := ~ directory_at d directory -> forall name, is_body name = true -> file_at d (directory ++ [name]) = None.
Lemma file_node d p c : file_at d p = Some c -> exists n, Disk.nodes d !! p = Some n /\ Node.content n = c.
Proof. unfold file_at, file_in. destruct (Disk.nodes d !! p) as [n|]; [|done]. case_match; [|done]. intros [= <-]. eauto. Qed.
Lemma entries_lists directory d d' r : entries directory d = (d', r) -> rooted d directory ->
  unmoved d d' /\ match r with
                  | inr found => lists d directory (map listed found)
                                 /\ forall e, e ∈ found -> exists c, file_at d (directory ++ [Body.name e]) = Some c /\ Body.parse (Body.name e) (slen c) = Some e
                  | inl _ => True
                  end.
Proof.
  unfold entries. rewrite run_try, map_err_run. intros H Hr. destruct (read_dir directory d) as [d1 [[]|listing]] eqn:E; apply read_dir_shows in E as [U1 R]; [by injection H as <- <-|].
  destruct listing as [l|].
  2: { injection H as <- <-. split; [done|]. split; [|intros e He; by apply elem_of_nil in He]. split; [constructor|]. intros name size. split; [intros Hn; by apply elem_of_nil in Hn|].
       intros (Hb & c & Hc & _). rewrite Hr in Hc; [done| |done]. intros (n & Hn & _). congruence. }
  destruct R as [-> _]. rewrite run_try in H. destruct (entries_named _ _ d1) as [d2 [e|found]] eqn:En; apply entries_named_shows in En as [U2 R].
  { injection H as <- <-. split; [by etransitivity|done]. }
  injection H as <- <-. split; [by etransitivity|]. destruct R as [R1 R2]. assert (forall p, file_at d1 p = file_at d p) as Hf by (by destruct U1 as (s & ->)).
  assert (map listed (stable_sort Body.leb found) ≡ₚ map listed found) as Hp by by rewrite stable_sort_perm.
  split.
  2: { intros e He. rewrite stable_sort_perm in He. destruct (R2 e He) as (_ & c & Hc & Hs & Hparse). rewrite Hf in Hc. eauto. }
  split.
  { assert (map fst (map listed (stable_sort Body.leb found)) = map Body.name (stable_sort Body.leb found)) as -> by by rewrite map_map.
    rewrite stable_sort_perm, R1. apply NoDup_ListNoDup, List.NoDup_filter, NoDup_ListNoDup, entries_of_names. }
  intros name size. rewrite Hp. split.
  - intros Hin. apply list_elem_of_fmap in Hin as (e & [= -> ->] & He). destruct (R2 e He) as (_ & c & Hc & Hs & Hparse). split.
    + rewrite (is_body_parse _ (slen c)), Hparse. done.
    + exists c. by rewrite <- Hf.
  - intros (Hb & c & Hc & ->). destruct (file_node _ _ _ Hc) as (n & Hn & _). apply entries_of_elem in Hn.
    assert (name ∈ map Body.name found) as Hin.
    { rewrite R1. apply list_elem_of_In, filter_In. split; [|done]. apply in_map_iff. exists (name, n). split; [done|]. by apply list_elem_of_In. }
    apply list_elem_of_fmap in Hin as (e & -> & He). destruct (R2 e He) as (_ & c' & Hc' & Hs & _). rewrite Hf, Hc in Hc'. injection Hc' as <-.
    apply list_elem_of_fmap. exists e. unfold listed. by rewrite Hs.
Qed.
Lemma entries_total directory d d' found l : lists d directory l -> entries directory d = (d', inr found) -> zsum (map Body.size found) <= zsum (map snd l).
Proof.
  intros Hl H. assert (found = [] \/ directory_at d directory) as [-> |Hd].
  { unfold entries in H. rewrite run_try, map_err_run in H. destruct (read_dir directory d) as [d1 [[]|[listing|]]] eqn:E; apply read_dir_shows in E as [_ R]; [done| |].
    - right. by destruct R.
    - left. by injection H as _ <-. }
  - destruct Hl as [_ Hl]. cbn [map]. assert (List.Forall (fun kv => 0 <= snd kv) l) as Hpos.
    { apply List.Forall_forall. intros [x z] Hin%list_elem_of_In. apply Hl in Hin as (_ & c & _ & ->). cbn. unfold slen. lia. }
    clear Hl H. unfold zsum. induction Hpos as [|kv l Hk _ IH]; cbn [map fold_right] in *; lia.
  - apply entries_lists in H as [_ [Hf _]]; [|by intros Hn]. pose proof (lists_sum _ _ _ _ Hf Hl) as E. rewrite map_map in E. change (map (fun x => snd (listed x)) found) with (map Body.size found) in E. lia.
Qed.

(** ** Directories stay *)
Definition dirs_stay d d' : Prop := forall p, temporary p = false -> directory_at d p -> directory_at d' p.
#[global] Instance dirs_stay_refl : Reflexive dirs_stay.
Proof. by intros d p. Qed.
#[global] Instance dirs_stay_trans : Transitive dirs_stay.
Proof. intros d d' d'' H H' p Ht Hp. auto. Qed.
Definition stays {A} (m : io A) : Prop := forall d, dirs_stay d (fst (m d)).
Lemma same_stays d d' : Disk.nodes d' = Disk.nodes d -> dirs_stay d d'.
Proof. intros H p _ (n & Hn & Hk). exists n. by rewrite H. Qed.
Lemma stays_same {A} (m : io A) : (forall d, Disk.nodes (fst (m d)) = Disk.nodes d) -> stays m.
Proof. intros H d. by apply same_stays. Qed.
Lemma stays_ret {A} (a : A) : stays (mret a).
Proof. by apply stays_same. Qed.
Lemma stays_reads {A} (f : Disk -> A) : stays (reads f).
Proof. by apply stays_same. Qed.
Lemma stays_fresh : stays fresh_version.
Proof. by apply stays_same. Qed.
Lemma stays_token n : stays (os_token n).
Proof. apply stays_same. intros d. unfold os_token. by destruct (token_hex _ _). Qed.
Lemma stays_draw {A} (m : F -> F * A) : stays (draw m).
Proof. apply stays_same. intros d. unfold draw. by destruct (m _). Qed.
Lemma stays_bind {A B} (m : io A) (f : A -> io B) : stays m -> (forall a, stays (f a)) -> stays (m ≫= f).
Proof. intros Hm Hf d. unfold mbind, io_bind. specialize (Hm d). destruct (m d) as [d1 a]. cbn [fst] in Hm. etransitivity; [exact Hm|apply Hf]. Qed.
Lemma stays_try {Er A B} (m : io (Er + A)) (f : A -> io (Er + B)) : stays m -> (forall a, stays (f a)) -> stays (try m f).
Proof. intros Hm Hf. apply stays_bind; [done|]. intros [e|a]; [apply stays_ret|apply Hf]. Qed.
Lemma stays_call {A} (m : io A) : stays m -> stays (call m).
Proof.
  intros Hm d. unfold call. destruct (call_fails _) as [s []]; [by apply same_stays|].
  specialize (Hm (d <| Disk.system := s |>)). destruct (m _) as [d1 a]. exact Hm.
Qed.
Lemma stays_call_or {A} (m : io (unit + A)) : stays m -> stays (call_or m).
Proof. intros Hm. apply stays_try; [by apply stays_call|]. intros a. apply stays_ret. Qed.
Lemma stays_map_err {Er Er' A} (f : Er -> Er') (m : io (Er + A)) : stays m -> stays (map_err f m).
Proof. intros Hm. apply stays_bind; [done|]. intros a. apply stays_ret. Qed.
Lemma stays_put p n : temporary p = true -> stays (put p n).
Proof.
  intros Ht d q Hq (m & Hm & Hk). exists m. split; [|done]. rewrite nodes_put, lookup_insert_ne; [done|]. intros ->. congruence.
Qed.
Lemma stays_drop p : temporary p = true -> stays (drop p).
Proof.
  intros Ht d q Hq (m & Hm & Hk). exists m. split; [|done]. rewrite nodes_drop, lookup_delete_ne; [done|]. intros ->. congruence.
Qed.
Lemma stays_amend p f : temporary p = true -> stays (amend p f).
Proof. intros Ht d. unfold amend. destruct (Disk.nodes d !! p) as [n|] eqn:E; [|by apply same_stays]. exact (stays_put p (f n) Ht d). Qed.
Create HintDb stays.
Hint Resolve stays_ret stays_reads stays_fresh stays_token stays_draw stays_bind stays_try stays_call stays_call_or stays_map_err stays_put stays_drop stays_amend : stays.
Lemma stays_read p maximum : stays (read_private p maximum).
Proof. intros d. destruct (read_private p maximum d) as [d' r] eqn:E. apply read_private_shows in E as [(s & ->) _]. by apply same_stays. Qed.
Lemma stays_make p : stays (make_directory p).
Proof.
  intros d. unfold make_directory, mbind, io_bind, reads. destruct (Disk.nodes d !! p) as [n|] eqn:E; [by apply same_stays|].
  unfold fresh_version, call. cbv beta iota. destruct (call_fails _) as [s []]; [by apply same_stays|].
  intros q Hq (m & Hm & Hk). exists m. split; [|done]. set (n := Node.mk _ _ _ _ _ _ _ _).
  match goal with |- ?m !! q = _ => change m with (<[p := n]> (Disk.nodes d)) end. rewrite lookup_insert_ne; [done|]. intros ->. congruence.
Qed.
Lemma stays_makes before rest : stays (make_directories before rest).
Proof.
  revert before. induction rest as [|name rest IH]; intros before; cbn [make_directories]; [apply stays_ret|].
  apply stays_try; [apply stays_make|auto].
Qed.
Lemma stays_ensure p c : stays (ensure_directory p c).
Proof.
  unfold ensure_directory, create_private_directory, metadata. apply stays_try; [|auto with stays].
  apply stays_map_err, stays_try; [apply stays_makes|]. auto with stays.
Qed.
Lemma stays_rename from to : temporary from = true -> stays (rename from to).
Proof.
  intros Hf. unfold rename. apply stays_call_or. intros d. unfold mbind, io_bind, reads.
  destruct (Disk.nodes d !! from) as [n|] eqn:En; [|by apply same_stays].
  assert (dirs_stay d (fst (let '(d1, _) := drop from d in let '(d2, _) := put to n d1 in (d2, @inr unit unit tt))) \/ exists m, Disk.nodes d !! to = Some m /\ Node.kind m = KDirectory) as H.
  { destruct (Disk.nodes d !! to) as [m|] eqn:Em; [destruct (decide (Node.kind m = KDirectory)); [by right; exists m|]|]; left;
      intros q Hq (k & Hk & Hd); exists k; (split; [|done]);
      match goal with |- ?x !! q = _ => change x with (<[to := n]> (delete from (Disk.nodes d))) end;
      (rewrite lookup_insert_ne by (intros ->; congruence)); by rewrite lookup_delete_ne by (intros ->; congruence). }
  destruct (Disk.nodes d !! to) as [[[] ? ? ? ? ? ? ?]|]; try (by apply same_stays);
    destruct H as [H|(m & [= <-] & Hk)]; try exact H; try done.
Qed.
Lemma stays_temporary p payload mode group : temporary p = true -> stays (write_temporary p payload mode group).
Proof.
  intros Ht. unfold write_temporary. apply stays_try.
  { apply stays_call_or. do 4 (apply stays_bind; [auto with stays|intros ?]). case_match; auto with stays. }
  intros _. apply stays_try; [case_match; auto with stays|]. intros _. auto 10 with stays.
Qed.
Lemma stays_replace directory name payload mode group : stays (replace_in_directory directory name payload mode group).
Proof.
  unfold replace_in_directory. apply stays_try; [apply stays_token|]. intros suffix.
  assert (temporary (directory ++ [temporary_name name suffix]) = true) as Ht by apply temporary_temporary. apply stays_bind.
  - apply stays_try; [by apply stays_temporary|]. intros _. apply stays_try; [by apply stays_rename|]. auto with stays.
  - intros [[]|[]]; auto with stays.
Qed.
Lemma stays_durable p payload mode group : stays (durable_replace p payload mode group).
Proof.
  unfold durable_replace. destruct (parent_of p), (name_of p); try apply stays_ret.
  apply stays_try; [unfold open_directory; auto with stays|]. intros _. apply stays_replace.
Qed.
Lemma stays_write p payload : stays (write_private p payload).
Proof.
  unfold write_private. destruct (parent_of p) as [parent|]; [|apply stays_ret]. apply stays_bind; [apply stays_reads|]. intros uid.
  apply stays_try; [apply stays_map_err, stays_ensure|]. intros _. apply stays_map_err, stays_durable.
Qed.
(** A file that was written is in a directory. *)
Lemma write_directory directory name payload d d' : write_private (directory ++ [name]) payload d = (d', inr tt) -> temporary directory = false -> directory_at d' directory.
Proof.
  unfold write_private. rewrite parent_of_last. unfold mbind at 1, io_bind at 1, reads. intros H Ht. rewrite run_try, map_err_run in H. unfold ensure_directory in H. rewrite run_try, map_err_run, run_try in H.
  destruct (create_private_directory directory d) as [d1 [[]|[]]]; [done|]. destruct (metadata directory d1) as [d2 [[]|n]] eqn:Em; [done|]. apply metadata_node in Em as [(s & ->) Hn].
  cbn [mret io_ret] in H. destruct (directory_holds _ _) eqn:Eh; [|done]. repeat (apply andb_true_iff in Eh as [Eh _]). apply bool_decide_eq_true in Eh. rewrite map_err_run in H.
  pose proof (stays_durable (directory ++ [name]) payload 0x180 None (d1 <| Disk.system := s |>)) as S. destruct (durable_replace _ _ _ _ _) as [d3 [[]|[]]]; [done|]. injection H as <-.
  apply S; [done|]. by exists n.
Qed.
Lemma stays_key p create : stays (load_key p create).
Proof.
  unfold load_key. apply stays_try; [apply stays_read|]. intros [key|]; [apply stays_ret|]. destruct create; [|apply stays_ret].
  apply stays_bind; [apply stays_draw|]. intros [key|]; [|apply stays_ret]. apply stays_try; [apply stays_write|]. auto with stays.
Qed.

(** ** Making room *)
(** Exactly these files of the directory are gone. *)
Definition thinned (directory : Path) (gone : list string) d d' : Prop :=
  Disk.euid d' = Disk.euid d
  /\ forall p, Disk.nodes d' !! p = if bool_decide (p ∈ map (fun name => directory ++ [name]) gone) then None else Disk.nodes d !! p.
Lemma thinned_nothing directory d d' : unmoved d d' -> thinned directory [] d d'.
Proof. intros (s & ->). split; [done|]. intros p. cbn [map]. by rewrite bool_decide_false by apply not_elem_of_nil. Qed.
Lemma thinned_app directory gone gone' d d1 d2 : thinned directory gone d d1 -> thinned directory gone' d1 d2 -> thinned directory (gone ++ gone') d d2.
Proof.
  intros [E1 H1] [E2 H2]. split; [congruence|]. intros p. rewrite H2, H1, map_app. 
  destruct (bool_decide_reflect (p ∈ map (fun name => directory ++ [name]) gone)), (bool_decide_reflect (p ∈ map (fun name => directory ++ [name]) gone')),
    (bool_decide_reflect (p ∈ map (fun name => directory ++ [name]) gone ++ map (fun name => directory ++ [name]) gone')); set_solver.
Qed.
Lemma unlink_thins directory name d d' r : unlink (directory ++ [name]) d = (d', r) ->
  match r with inr _ => thinned directory [name] d d' | inl _ => thinned directory [] d d' end.
Proof.
  unfold unlink. rewrite map_err_run. intros H. unfold remove_file, call_or in H. rewrite run_try in H. set (p := directory ++ [name]) in *.
  match type of H with context [call ?m d] => destruct (run_call m d) as (s & [Ec|Ec]); rewrite Ec in H; clear Ec end.
  { injection H as <- <-. apply thinned_nothing. by exists s. }
  unfold mbind, io_bind, reads in H. change (Disk.nodes (d <| Disk.system := s |>)) with (Disk.nodes d) in H.
  assert (forall d1, Disk.nodes d1 = delete p (Disk.nodes d) -> Disk.euid d1 = Disk.euid d -> thinned directory [name] d d1) as Hdone.
  { intros d1 Hn He. split; [done|]. intros q. rewrite Hn. cbn [map]. fold p. destruct (bool_decide_reflect (q ∈ [p])) as [Hq|Hq].
    - apply list_elem_of_singleton in Hq as ->. apply lookup_delete_eq.
    - apply lookup_delete_ne. intros <-. apply Hq. constructor. }
  destruct (Disk.nodes d !! p) as [n|] eqn:E.
  2: { injection H as <- <-. apply Hdone; [|done]. by rewrite delete_id. }
  destruct n as [[] ? ? ? ? ? ? ?]; injection H as <- <-; try (by apply Hdone); apply thinned_nothing; by exists s.
Qed.
Definition spent (recorded_at : Z) (replaced : Body.Entry -> bool) (e : Body.Entry) : bool := replaced e || (Body.at_ e <=? recorded_at - RETENTION_SECONDS).
Lemma unlink_spent_thins directory recorded_at replaced found d d' kept : unlink_spent directory recorded_at replaced found d = (d', inr kept) ->
  kept = List.filter (fun e => negb (spent recorded_at replaced e)) found
  /\ thinned directory (map Body.name (List.filter (spent recorded_at replaced) found)) d d'.
Proof.
  revert d d' kept. induction found as [|e found IH]; intros d d' kept H; cbn [unlink_spent] in H.
  { injection H as <- <-. split; [done|]. by apply thinned_nothing. }
  cbn [List.filter]. fold (spent recorded_at replaced e) in H. destruct (spent recorded_at replaced e); cbn [negb map]; rewrite run_try in H.
  - destruct (unlink _ d) as [d1 [x|u]] eqn:Eu; [done|]. apply unlink_thins in Eu. apply IH in H as [-> H]. split; [done|].
    exact (thinned_app directory [Body.name e] _ _ _ _ Eu H).
  - destruct (unlink_spent _ _ _ found d) as [d1 [x|rest]] eqn:Eu; [done|]. apply IH in Eu as [-> Eu]. by injection H as <- <-.
Qed.
Lemma unlink_oldest_thins st directory size total kept d d' : unlink_oldest st directory size total kept d = (d', inr tt) ->
  exists gone rest, kept = gone ++ rest /\ thinned directory (map Body.name gone) d d'
  /\ (rest = [] \/ total - zsum (map Body.size gone) + size <= DiagnosticStore.max_team_bytes st).
Proof.
  revert total d d'. induction kept as [|e kept IH]; intros total d d' H; cbn [unlink_oldest] in H.
  { injection H as <-. exists [], []. split; [done|]. split; [by apply thinned_nothing|by left]. }
  destruct (Z.leb_spec (total + size) (DiagnosticStore.max_team_bytes st)).
  { injection H as <-. exists [], (e :: kept). split; [done|]. split; [by apply thinned_nothing|]. right. cbn. lia. }
  rewrite run_try in H. destruct (unlink _ d) as [d1 [x|u]] eqn:Eu; [done|]. apply unlink_thins in Eu. apply IH in H as (gone & rest & -> & Ht & Hr).
  exists (e :: gone), rest. split; [done|]. split; [exact (thinned_app directory [Body.name e] _ _ _ _ Eu Ht)|].
  destruct Hr as [Hr|Hr]; [by left|right]. cbn [map zsum fold_right]. unfold zsum in Hr. lia.
Qed.
Lemma named_path (directory : Path) (name : string) (gone : list string) : (directory ++ [name]) ∈ map (fun name => directory ++ [name]) gone <-> name ∈ gone.
Proof.
  rewrite list_elem_of_fmap. split; [|by exists name]. intros (x & [_ [= ->]]%app_inj_2 & Hx); [done|done].
Qed.
Lemma thinned_file directory gone d d' p : thinned directory gone d d' ->
  file_at d' p = if bool_decide (p ∈ map (fun name => directory ++ [name]) gone) then None else file_at d p.
Proof. intros [_ H]. unfold file_at, file_in. rewrite H. by destruct (bool_decide _). Qed.
Lemma thinned_lists directory gone d d' l : lists d directory l -> thinned directory gone d d' ->
  lists d' directory (List.filter (fun kv => negb (bool_decide (fst kv ∈ gone))) l).
Proof.
  intros [N H] Ht. split.
  - apply NoDup_ListNoDup. apply NoDup_ListNoDup in N. clear H Ht. induction l as [|[x z] l IH]; [constructor|]. cbn [map fst] in N. inversion_clear N as [|? ? Hx Hl].
    cbn [List.filter]. case_match; [|auto]. cbn [map fst]. constructor; [|auto]. intros Hin. apply Hx. apply in_map_iff in Hin as (y & Hy & Hin). apply filter_In in Hin as [Hin _].
    apply in_map_iff. eauto.
  - intros name size. rewrite list_elem_of_In, filter_In, <- list_elem_of_In, H. cbn [fst]. rewrite (thinned_file _ _ _ _ _ Ht).
    rewrite negb_true_iff, bool_decide_eq_false. destruct (bool_decide_reflect (directory ++ [name] ∈ map (fun name => directory ++ [name]) gone)) as [Hg|Hg]; rewrite named_path in Hg.
    + split; [by intros [_ ?]|by intros (_ & c & ? & _)].
    + split; [by intros [? _]|by intros].
Qed.
Lemma kept_names (p : Body.Entry -> bool) l : base.NoDup (map Body.name l) ->
  List.filter (fun kv => negb (bool_decide (fst kv ∈ map Body.name (List.filter p l)))) (map listed l) = map listed (List.filter (fun e => negb (p e)) l).
Proof.
  intros N. assert (forall e, e ∈ l -> bool_decide (Body.name e ∈ map Body.name (List.filter p l)) = p e) as H.
  { intros e He. apply Bool.eq_iff_eq_true. rewrite bool_decide_eq_true. split.
    - intros (x & Hx & Hin)%list_elem_of_fmap. apply list_elem_of_In, filter_In in Hin as [Hin Hp]. apply list_elem_of_In in Hin.
      assert (x = e) as <-; [|done]. symmetry. apply (nodup_map_inj Body.name l); [by apply NoDup_ListNoDup|by apply list_elem_of_In..|done].
    - intros Hp. apply list_elem_of_fmap. exists e. split; [done|]. apply list_elem_of_In, filter_In. split; [by apply list_elem_of_In|done]. }
  clear N. revert H. generalize (map Body.name (List.filter p l)). intros names H. induction l as [|e l IH]; [done|]. cbn [map List.filter fst listed].
  rewrite (H e) by constructor. specialize (IH ltac:(intros; apply H; by constructor)). destruct (p e); cbn [negb map]; by rewrite IH.
Qed.
Lemma lists_names d directory found : lists d directory (map listed found) -> base.NoDup (map Body.name found).
Proof. intros [N _]. by rewrite map_map in N. Qed.
Lemma thinned_stays directory gone d d' : thinned directory gone d d' -> Disk.nodes d' !! directory = Disk.nodes d !! directory.
Proof.
  intros [_ H]. rewrite H, bool_decide_false; [done|]. intros (x & Hx & _)%list_elem_of_fmap. apply (f_equal length) in Hx. rewrite length_app in Hx. cbn in Hx. lia.
Qed.

(** After room was made for a body that fits, it and the bodies left fit together. *)
Lemma make_room_fits st directory recorded_at size replaced d d' : make_room st directory recorded_at size replaced d = (d', inr tt) ->
  rooted d directory -> size <= DiagnosticStore.max_team_bytes st ->
  exists gone rest, thinned directory gone d d' /\ lists d' directory (map listed rest) /\ zsum (map Body.size rest) + size <= DiagnosticStore.max_team_bytes st.
Proof.
  unfold make_room. rewrite run_try. intros H Hr Hsize. destruct (entries directory d) as [d1 [e|found]] eqn:E; [done|].
  apply entries_lists in E as [U1 [L1 _]]; [|done]. rewrite run_try in H. destruct (unlink_spent _ _ _ found d1) as [d2 [e|kept]] eqn:Es; [done|].
  apply unlink_spent_thins in Es as [-> T2]. pose proof (lists_names _ _ _ L1) as N1. set (kept := List.filter (fun e => negb (spent recorded_at replaced e)) found) in *.
  assert (lists d2 directory (map listed kept)) as L2.
  { unfold kept. rewrite <- (kept_names (spent recorded_at replaced) found N1). eapply thinned_lists; [|exact T2]. by destruct U1 as (s & ->). }
  apply unlink_oldest_thins in H as (gone & rest & Ek & T3 & Hb). pose proof (lists_names _ _ _ L2) as N2. rewrite Ek in N2, L2, Hb.
  exists ([] ++ map Body.name (List.filter (spent recorded_at replaced) found) ++ map Body.name gone), rest. split; [|split].
  - eapply thinned_app; [by apply thinned_nothing|]. by eapply thinned_app.
  - pose proof (thinned_lists _ _ _ _ _ L2 T3) as L3. rewrite map_app, List.filter_app in L3.
    rewrite map_app in N2. apply NoDup_app in N2 as (_ & Hd & _).
    rewrite (List.filter_ext_in _ (fun _ => false)), List.filter_false in L3.
    2: { intros kv Hin. apply in_map_iff in Hin as (e & <- & He). cbn. rewrite bool_decide_true; [done|]. apply list_elem_of_fmap. exists e. split; [done|]. by apply list_elem_of_In. }
    rewrite (List.filter_ext_in _ (fun _ => true)), List.filter_true in L3; [done|].
    intros kv Hin. apply in_map_iff in Hin as (e & <- & He). cbn. rewrite bool_decide_false; [done|]. intros Hg. apply (Hd _ Hg).
    apply list_elem_of_fmap. exists e. split; [done|]. by apply list_elem_of_In.
  - rewrite map_app, zsum_app in Hb. destruct Hb as [-> | Hb]; [|lia]. cbn. lia.
Qed.
End Safety.

(** ** Sealed bodies *)
(** A byte that JSON writes as itself. *)
Definition literal (a : ascii) : bool := between 0x20 0x7e a && negb (one_of (quote +:+ "\") a).
Lemma literal_byte a : literal a = true -> byte_code a <? 0xc0 = true /\ write_char true (byte_code a) = String a "" /\ write_char false (byte_code a) = String a "".
Proof. destruct a as [[] [] [] [] [] [] [] []]; vm_compute; done. Qed.
Lemma write_literal ea s : all_bytes literal s = true -> write_string ea s = quote +:+ s +:+ quote.
Proof.
  intros H. unfold write_string. f_equal. f_equal. induction s as [|a s IH]; [done|]. cbn [all_bytes] in H. apply andb_true_iff in H as [Ha Hs].
  apply literal_byte in Ha as (Hc & E1 & E2). pose proof (proj1 (Z.ltb_lt _ _) Hc). cbn [chars].
  rewrite (proj2 (Z.ltb_lt (byte_code a) 0xe0)) by lia. rewrite Hc. cbn [map]. rewrite concat_cons, (IH Hs). by destruct ea; rewrite ?E1, ?E2.
Qed.
Lemma base64_literal a : is_alnum a || one_of "+/=" a = true -> literal a = true.
Proof. destruct a as [[] [] [] [] [] [] [] []]; vm_compute; congruence. Qed.
Lemma hex_literal a : is_hex a = true -> literal a = true.
Proof. destruct a as [[] [] [] [] [] [] [] []]; vm_compute; congruence. Qed.

Section Bodies.
  Context `{C : !Crypto} {L : CryptoLaws C} {E : Type} `{!Entropy E} {FD : FullDraws E}.

Definition body_member (key value : string) : string := write_string false key +:+ ":" +:+ write_string false value.
Lemma body_text sealed incarnation : Envelope.key_id sealed = None ->
  canonical (body_value sealed incarnation) =
  "{" +:+ String.concat "," [body_member "algorithm" ALGORITHM; body_member "ciphertext" (base64_encode (Envelope.ciphertext sealed));
                             body_member "incarnation" incarnation; body_member "nonce" (base64_encode (Envelope.nonce sealed))] +:+ "}".
Proof. intros H. unfold body_value, envelope_value. rewrite H. reflexivity. Qed.
Lemma member_size key value : all_bytes literal key = true -> all_bytes literal value = true -> slen (body_member key value) = slen key + slen value + 5.
Proof. intros Hk Hv. unfold body_member. rewrite !write_literal by done. rewrite !slen_app. change (slen quote) with 1. change (slen ":") with 1. lia. Qed.
Lemma base64_literals bytes : all_bytes literal (base64_encode bytes) = true.
Proof. eapply all_bytes_impl; [apply base64_literal|apply base64_ascii]. Qed.
Lemma incarnation_literals incarnation : SHA256_RE incarnation = true -> all_bytes literal incarnation = true /\ slen incarnation = 64.
Proof. intros [Hl%Z.eqb_eq Ha]%andb_true_iff. split; [|done]. by eapply all_bytes_impl; [apply hex_literal|]. Qed.

(** The file of a body is within what its reader allows. *)
Lemma body_size key payload aad (e e' : E) sealed incarnation : seal key payload aad e = (e', Some sealed) -> SHA256_RE incarnation = true ->
  slen (canonical (body_value sealed incarnation)) <= sealed_bound (slen payload).
Proof.
  intros Hs Hi. destruct (seal_parts _ _ _ _ _ _ Hs) as (Hn & Hk & Hc & _). rewrite body_text by done. apply incarnation_literals in Hi as [Hi Hl].
  cbn [String.concat]. rewrite !slen_app, !member_size by (apply base64_literals || done || reflexivity). rewrite !base64_length, Hc, Hl.
  assert (slen (Envelope.nonce sealed) = 12) as -> by (unfold slen; by rewrite Hn). unfold sealed_bound, div_ceil, TAG_BYTES.
  change (slen "{") with 1. change (slen "}") with 1. change (slen ",") with 1. change (slen "algorithm") with 9. change (slen ALGORITHM) with 11.
  change (slen "ciphertext") with 10. change (slen "incarnation") with 11. change (slen "nonce") with 5. change (4 * ((12 + 2) / 3)) with 16.
  replace (slen payload + 16 + 3 - 1) with (slen payload + 16 + 2) by lia. lia.
Qed.

(** What the reader makes of it. *)
Definition body_members (sealed : Envelope.Envelope) (incarnation : string) : list (string * Value) :=
  [("algorithm", VString ALGORITHM); ("ciphertext", VString (base64_encode (Envelope.ciphertext sealed)));
   ("incarnation", VString incarnation); ("nonce", VString (base64_encode (Envelope.nonce sealed)))]%string.
Lemma body_reads key payload aad (e e' : E) sealed incarnation bounds : seal key payload aad e = (e', Some sealed) -> SHA256_RE incarnation = true ->
  roomy bounds -> 1 <= slen payload <= Bounds.maximum_plaintext bounds ->
  exists v plain, json_parse (canonical (body_value sealed incarnation)) = Some v /\ body_incarnation v = inr (incarnation, plain)
  /\ admit_envelope plain bounds = Some sealed /\ open_envelope sealed key aad = Some payload.
Proof.
  intros Hs Hi Hr Hp. destruct (seal_parts _ _ _ _ _ _ Hs) as (Hn & Hk & Hc & Hopen).
  exists (VObject (body_members sealed incarnation)), (VObject (envelope_members sealed)). split; [|split; [|split; [|done]]].
  - assert (ordered CANONICAL (body_value sealed incarnation) = VObject (body_members sealed incarnation)) as <-.
    { unfold body_value, envelope_value. rewrite Hk. reflexivity. }
    unfold body_value, envelope_value. rewrite Hk. apply parse_dumps; [|cbn; tauto|cbn; done].
    cbn [members object app admissible map fst forallb snd text]. rewrite !base64_utf8.
    assert (valid_utf8 incarnation = true) as ->.
    { apply andb_true_iff in Hi as [_ Hi]. apply valid_utf8_iff, ascii_only. eapply all_bytes_impl; [apply hex_byte|exact Hi]. }
    reflexivity.
  - unfold body_incarnation, envelope_members. rewrite Hk.
    change (get (VObject (body_members sealed incarnation)) "incarnation") with (Some (VString incarnation)). cbv iota. rewrite Hi. reflexivity.
  - pose proof (admit_members sealed bounds Hn) as Ha. rewrite Hk in Ha. apply Ha; [rewrite Hc; unfold TAG_BYTES; lia|done|done].
Qed.
End Bodies.

(** ** The names of bodies read back *)
Definition apart (sep : ascii) (s : string) : Prop := all_bytes (fun a => negb (byte_code a =? byte_code sep)) s = true.
Lemma split_on_apart sep a t : apart sep a -> split_on sep (a +:+ String sep t) = a :: split_on sep t.
Proof.
  unfold apart. induction a as [|x a IH]; intros H.
  - change ("" +:+ String sep t) with (String sep t). cbn [split_on]. by rewrite Z.eqb_refl.
  - cbn [all_bytes] in H. apply andb_true_iff in H as [Hx H]. change (String x a +:+ String sep t) with (String x (a +:+ String sep t)).
    cbn [split_on]. apply negb_true_iff in Hx. by rewrite Hx, (IH H).
Qed.
Lemma split_on_last sep a : apart sep a -> split_on sep a = [a].
Proof.
  unfold apart. induction a as [|x a IH]; [done|]. cbn [all_bytes split_on]. intros [Hx H]%andb_true_iff. apply negb_true_iff in Hx. by rewrite Hx, (IH H).
Qed.
Lemma hex_apart a : is_hex a = true -> negb (byte_code a =? byte_code ".") = true /\ negb (byte_code a =? byte_code "-") = true.
Proof. destruct a as [[] [] [] [] [] [] [] []]; vm_compute; done. Qed.
Lemma hex_plain_parts s : all_bytes is_hex s = true -> apart "." s /\ apart "-" s.
Proof. intros H. split; (eapply all_bytes_impl; [|exact H]); intros a Ha; by apply hex_apart. Qed.
Lemma digit_hex a : is_digit a = true -> is_hex a = true.
Proof. unfold is_hex. by intros ->. Qed.
Lemma dash_is a : one_of "-" a = true -> a = "-"%char.
Proof. destruct a as [[] [] [] [] [] [] [] []]; vm_compute; done. Qed.

Lemma operation_parts s : OPERATION_ID_RE s = true -> exists a b c x e,
  s = a +:+ String "-" (b +:+ String "-" (c +:+ String "-" (x +:+ String "-" e)))
  /\ all_bytes is_hex (a +:+ b +:+ c +:+ x +:+ e) = true /\ slen a = 8 /\ slen b = 4 /\ slen c = 4 /\ slen x = 4 /\ slen e = 12
  /\ Body.begins (one_of "4") c = true /\ Body.begins (one_of "89ab") x = true.
Proof.
  unfold OPERATION_ID_RE. intros [Hl%Z.eqb_eq Hg]%andb_true_iff.
  do 36 (destruct s as [|? s]; [unfold slen in Hl; cbn in Hl; lia|]). destruct s; [|unfold slen in Hl; cbn in Hl; lia]. clear Hl. cbv -[is_hex one_of andb] in Hg.
  repeat (apply andb_true_iff in Hg as [? Hg]). clear Hg.
  repeat match goal with H : one_of "-" ?x = true |- _ => apply dash_is in H; subst x end.
  match goal with |- exists _ _ _ _ _, String ?a0 (String ?a1 (String ?a2 (String ?a3 (String ?a4 (String ?a5 (String ?a6 (String ?a7 (String _
    (String ?b0 (String ?b1 (String ?b2 (String ?b3 (String _ (String ?c0 (String ?c1 (String ?c2 (String ?c3 (String _ (String ?x0 (String ?x1 (String ?x2 (String ?x3 (String _ ?e))))))))))))))))))))))) = _ /\ _ =>
    exists (String a0 (String a1 (String a2 (String a3 (String a4 (String a5 (String a6 (String a7 ""))))))));
    exists (String b0 (String b1 (String b2 (String b3 ""))));
    exists (String c0 (String c1 (String c2 (String c3 ""))));
    exists (String x0 (String x1 (String x2 (String x3 "")))); exists e end.
  split; [reflexivity|]. split; [|repeat split; reflexivity || assumption].
  assert (forall a, one_of "4" a = true -> is_hex a = true) as Hfour by (intros [[] [] [] [] [] [] [] []]; vm_compute; done).
  assert (forall a, one_of "89ab" a = true -> is_hex a = true) as Height by (intros [[] [] [] [] [] [] [] []]; vm_compute; done).
  repeat match goal with H : one_of "4" ?a = true |- _ => apply Hfour in H end. repeat match goal with H : one_of "89ab" ?a = true |- _ => apply Height in H end.
  repeat match goal with |- context [String ?a ?s +:+ ?t] => change (String a s +:+ t) with (String a (s +:+ t)) end.
  repeat match goal with |- context ["" +:+ ?t] => change ("" +:+ t) with t end.
  cbn [all_bytes]. repeat match goal with H : is_hex _ = true |- _ => rewrite H; clear H end. reflexivity.
Qed.
Lemma operation_named s : OPERATION_ID_RE s = true -> Body.uuid4 s = true /\ apart "." s.
Proof.
  intros (a & b & c & x & e & -> & Hh & La & Lb & Lc & Lx & Le & H4 & H8)%operation_parts.
  rewrite !all_bytes_app in Hh. repeat (apply andb_true_iff in Hh as [? Hh]).
  repeat match goal with H : all_bytes is_hex ?s = true |- _ => lazymatch goal with _ : apart "-" s |- _ => fail | _ => destruct (hex_plain_parts s H) end end.
  split.
  - unfold Body.uuid4. rewrite !split_on_apart, split_on_last by done. unfold Body.hex. rewrite La, Lb, Lc, Lx, Le, H4, H8.
    repeat match goal with H : all_bytes is_hex ?s = true |- _ => rewrite H; clear H end. reflexivity.
  - unfold apart in *. repeat (rewrite all_bytes_app; cbn [all_bytes]). repeat match goal with H : all_bytes (fun y => negb (byte_code y =? byte_code ".")) ?s = true |- _ => rewrite H; clear H end. reflexivity.
Qed.
Lemma number_name z : 0 <= z -> all_bytes is_digit (pretty z) = true /\ parse_int (pretty z) = Some z /\ 1 <= slen (pretty z)
  /\ forall n, z < 10 ^ n -> 0 <= n -> slen (pretty z) <= Z.max 1 n.
Proof.
  intros Hz. assert (pretty z = pretty (Z.to_N z)) as -> by (destruct z; [done|done|lia]). destruct (pretty_N_literal (Z.to_N z)) as [Hl Hv]. rewrite Z2N.id in Hv by done.
  assert (all_bytes is_digit (pretty (Z.to_N z)) = true) as Hd.
  { destruct (pretty (Z.to_N z)) as [|a s]; [done|]. cbn [natural_literal all_bytes] in *. apply orb_true_iff in Hl as [[Ha Hs]%andb_true_iff|[Ha Hs]%andb_true_iff].
    - apply Ascii.eqb_eq in Ha as ->. by destruct s.
    - rewrite Hs, andb_true_r. by destruct a as [[] [] [] [] [] [] [] []]. }
  assert (forall s acc, all_bytes is_digit s = true -> parse_digits s acc = Some (Strict.digits_value acc s)) as Hp.
  { induction s as [|a s IH]; intros acc H; [done|]. cbn [all_bytes parse_digits Strict.digits_value] in *. apply andb_true_iff in H as [-> H]. by apply IH. }
  split; [done|]. destruct (pretty (Z.to_N z)) as [|a s] eqn:E; [done|]. split; [|split].
  - unfold parse_int. rewrite Hp by done. by rewrite Hv.
  - unfold slen. cbn [String.length]. lia.
  - intros n Hn Hn0. cbn [natural_literal] in Hl. apply orb_true_iff in Hl as [[_ Hs]%andb_true_iff|[Ha%between_spec Hs]%andb_true_iff]; [destruct s; [unfold slen; cbn; lia|done]|].
    cbn [Strict.digits_value] in Hv. pose proof (digits_value_ge s (0 * 10 + (byte_code a - 0x30)) Hs ltac:(lia)) as Hge.
    destruct (Z.le_gt_cases (slen (String a s)) (Z.max 1 n)) as [|Hgt]; [done|].
    assert (10 ^ n <= 10 ^ slen s) by (apply Z.pow_le_mono_r; unfold slen in *; cbn [String.length] in *; lia). nia.
Qed.

(** ** Sealing a body *)
Lemma dot_no_body s : is_body (String "." s) = false.
Proof.
  unfold is_body, Body.parse. change (split_on "." (String "." s)) with (EmptyString :: split_on "." s).
  destruct (split_on "." s) as [|a [|b [|c [|x [|y []]]]]]; try reflexivity; (case_match; [|reflexivity]); reflexivity.
Qed.
Lemma body_plain directory name : is_body name = true -> temporary (directory ++ [name]) = false.
Proof.
  intros H. rewrite temporary_last. destruct name as [|a name]; [done|].
  destruct (ascii_dec a ".") as [-> |]; [by rewrite dot_no_body in H|]. by destruct a as [[] [] [] [] [] [] [] []].
Qed.

Section Sealed.
  Context {PF : Platform} {VO : Vocabulary} `{C : !Crypto} {L : CryptoLaws C} {F : Type} `{!System F} {FD : FullDraws F}.
  Abbreviation Disk := (Disk.Disk F).
  Implicit Types (st : DiagnosticStore) (d : Disk).

Lemma load_key_reads p d d' r : load_key p false d = (d', r) ->
  unmoved d d' /\ match r with inr key => file_at d p = Some key /\ String.length key = 32%nat | inl _ => True end.
Proof.
  unfold load_key. rewrite run_try. destruct (read_private p 32 d) as [d1 [e|found]] eqn:E; apply read_private_shows in E as [U R]; [by intros [= <- <-]|].
  destruct found as [key|]; intros [= <- <-]; (split; [done|]); [|done]. destruct R as [R _]. destruct (Nat.eqb_spec (String.length key) 32); done.
Qed.
Lemma load_key_creates p d d' key : load_key p true d = (d', inr key) -> temporary p = false ->
  file_at d' p = Some key /\ String.length key = 32%nat /\ forall q, q <> p -> temporary q = false -> file_at d' q = file_at d q.
Proof.
  unfold load_key. rewrite run_try. intros H Ht. destruct (read_private p 32 d) as [d1 [e|found]] eqn:E; apply read_private_shows in E as [(s & ->) R]; [done|].
  destruct found as [k|].
  { destruct R as [R _]. destruct (Nat.eqb_spec (String.length k) 32) as [Hl|]; [|done]. injection H as <- <-. done. }
  unfold mbind, io_bind, draw, key_generate in H. destruct (fill 32 _) as [f [k|]] eqn:Ef; cbv beta iota in H; [|done]. apply fill_length in Ef.
  rewrite run_try in H. destruct (write_private p k _) as [d2 [e|[]]] eqn:Ew; apply write_lands in Ew; try done. injection H as <- <-. destruct Ew as (_ & Hp & Hq). done.
Qed.

(** Every file but bodies of the directory and the key stays, and a body stays or is
    gone. *)
Definition only_bodies (directory keyring : Path) d d' : Prop :=
  forall q, temporary q = false -> q <> keyring ->
  file_at d' q = file_at d q \/ (file_at d' q = None /\ exists name, q = directory ++ [name]).
Definition diagnostics_ok st : Prop :=
  starts_with (DiagnosticStore.keyring st) (DiagnosticStore.root st) = false /\ temporary (DiagnosticStore.keyring st) = false
  /\ MAX_FILE_BYTES <= DiagnosticStore.max_team_bytes st.
Lemma dir_keyring st team name : diagnostics_ok st -> diagnostics_dir st team ++ [name] <> DiagnosticStore.keyring st.
Proof. intros (Hr & _) He. rewrite <- He in Hr. unfold diagnostics_dir in Hr. by rewrite <- app_assoc, starts_with_app in Hr. Qed.
Lemma dir_plain st team : temporary (diagnostics_dir st team) = false.
Proof.
  unfold diagnostics_dir. rewrite temporary_last. destruct (hex_of_hex (sha256 team)) as [H _]. fold (sha256_hex team) in H. destruct (sha256_hex team) as [|a s]; [done|].
  cbn [all_bytes] in H. apply andb_true_iff in H as [H _]. by destruct a as [[] [] [] [] [] [] [] []].
Qed.
Lemma bound_file kind : sealed_bound (Body.bound kind) <= MAX_FILE_BYTES.
Proof. destruct kind; vm_compute; discriminate. Qed.
Lemma sealed_bound_mono a b : a <= b -> sealed_bound a <= sealed_bound b.
Proof. intros H. unfold sealed_bound, div_ceil. assert ((a + 16 + 3 - 1) / 3 <= (b + 16 + 3 - 1) / 3) by (apply Z.div_le_mono; lia). lia. Qed.
Lemma body_roomy kind : roomy (body_bounds kind).
Proof. destruct kind; vm_compute; discriminate. Qed.

(** The bodies after one more was written. *)
Lemma landed_lists directory name payload d d' l : lists d directory l -> landed (directory ++ [name]) payload d d' ->
  exists l', lists d' directory l' /\ zsum (map snd l') <= zsum (map snd l) + slen payload.
Proof.
  intros [N H] (_ & Hp & Hq).
  assert (forall other, other <> name -> is_body other = true -> file_at d' (directory ++ [other]) = file_at d (directory ++ [other])) as Hother.
  { intros other Hne Hb. apply Hq; [|by apply body_plain]. intros [_ [= ->]]%app_inj_2; done. }
  assert (zsum (map snd (List.filter (fun kv => negb (fst kv =s name)) l)) <= zsum (map snd l)) as Hsum.
  { assert (List.Forall (fun kv => 0 <= snd kv) l) as Hpos.
    { apply List.Forall_forall. intros [x z] Hin%list_elem_of_In. apply H in Hin as (_ & c & _ & ->). cbn. unfold slen. lia. }
    clear N H. unfold zsum. induction Hpos as [|kv l Hk Hl IH]; [done|]. cbn [List.filter]. destruct (negb _); cbn [map fold_right]; lia. }
  assert (base.NoDup (map fst (List.filter (fun kv : string * Z => negb (fst kv =s name)) l)) /\ (forall x z, (x, z) ∈ List.filter (fun kv : string * Z => negb (fst kv =s name)) l <-> (x, z) ∈ l /\ x <> name)) as [N' H'].
  { split.
    - apply NoDup_ListNoDup. apply NoDup_ListNoDup in N. clear H Hsum. induction l as [|[x z] l IH]; [constructor|]. cbn [map fst] in N. inversion_clear N as [|? ? Hx Hl].
      cbn [List.filter]. case_match; [|auto]. cbn [map fst]. constructor; [|auto]. intros Hin. apply Hx. apply in_map_iff in Hin as (y & Hy & Hin). apply filter_In in Hin as [Hin _].
      apply in_map_iff. eauto.
    - intros x z. rewrite list_elem_of_In, filter_In, <- list_elem_of_In. cbn [fst]. rewrite negb_true_iff, seqb_false. done. }
  destruct (is_body name) eqn:Hb.
  - exists ((name, slen payload) :: List.filter (fun kv => negb (fst kv =s name)) l). split; [|cbn [map snd zsum fold_right]; unfold zsum in *; lia]. split.
    + cbn [map fst]. apply NoDup_cons. split; [|done]. intros (kv & Hkv & Hin)%list_elem_of_fmap. destruct kv as [x z]. cbn in Hkv. subst x. apply H' in Hin as [_ Hn]. done.
    + intros x z. rewrite elem_of_cons, H', H. split.
      * intros [[= -> ->]|[(Hx & c & Hc & ->) Hne]]; [eauto|]. split; [done|]. exists c. by rewrite Hother.
      * intros (Hx & c & Hc & ->). destruct (decide (x = name)) as [-> |Hne]; [left; congruence|]. right. rewrite Hother in Hc by done. eauto.
  - exists l. split; [|unfold slen; lia]. apply (lists_quiet d); [by split|]. intros x Hx. apply Hother; [|done]. congruence.
Qed.

Lemma seal_body_keeps st team incarnation named document protected replaced d d' :
  seal_body st team incarnation named document protected replaced d = (d', inr tt) -> diagnostics_ok st -> SHA256_RE incarnation = true ->
  temporary (diagnostics_dir st team ++ [Named.name named]) = false -> rooted d (diagnostics_dir st team) ->
  slen (dumps CANONICAL document) <= Body.bound (Named.kind named) /\ holds_protected (dumps CANONICAL document) protected = false
  /\ directory_at d' (diagnostics_dir st team) /\ (exists l, lists d' (diagnostics_dir st team) l /\ zsum (map snd l) <= DiagnosticStore.max_team_bytes st)
  /\ (exists key sealed (e e' : F), file_at d' (DiagnosticStore.keyring st) = Some key /\ String.length key = 32%nat
      /\ seal key (dumps CANONICAL document) (diagnostic_aad team incarnation (Named.name named)) e = (e', Some sealed)
      /\ file_at d' (diagnostics_dir st team ++ [Named.name named]) = Some (canonical (body_value sealed incarnation)))
  /\ forall q, temporary q = false -> q <> DiagnosticStore.keyring st -> q <> diagnostics_dir st team ++ [Named.name named] ->
     file_at d' q = file_at d q \/ (file_at d' q = None /\ exists name, q = diagnostics_dir st team ++ [name]).
Proof.
  intros H Hst Hi Ht Hr. pose proof Hst as (Hkr & Hkt & Hmax). set (dir := diagnostics_dir st team) in *. set (payload := dumps CANONICAL document).
  unfold seal_body in H. fold payload in H. destruct (Z.ltb_spec (Body.bound (Named.kind named)) (slen payload)) as [|Hb]; [done|].
  destruct (holds_protected payload protected) eqn:Hp; [done|]. split; [done|]. split; [done|].
  rewrite run_try in H. unfold dstate at 1 in H. rewrite map_err_run in H. pose proof (stays_key (DiagnosticStore.keyring st) true d) as S1.
  destruct (load_key _ true d) as [d1 [x|key]] eqn:Ek; [done|]. cbn [fst] in S1. apply load_key_creates in Ek as (K1 & Hl & Q1); [|done].
  rewrite run_try in H. unfold mbind at 1, io_bind at 1, draw in H. destruct (seal key payload _ (Disk.system d1)) as [f [sealed|]] eqn:Es; [|done]. cbv beta iota in H. unfold dpass at 1, mret at 1, io_ret at 1 in H.
  set (d2 := d1 <| Disk.system := f |>) in H. rewrite run_try in H. unfold mbind at 1, io_bind at 1, reads at 1 in H. cbv beta iota in H. rewrite map_err_run in H.
  pose proof (quietly_ensure (DiagnosticStore.root st) (directory_private (Disk.euid d2)) d2) as Q2. pose proof (stays_ensure (DiagnosticStore.root st) (directory_private (Disk.euid d2)) d2) as S2.
  destruct (ensure_directory _ _ d2) as [d3 [x|[]]] eqn:Ee; [done|]. cbn [fst] in Q2, S2.
  assert (forall q, q <> DiagnosticStore.keyring st -> temporary q = false -> file_at d3 q = file_at d q) as Q3.
  { intros q Hq Hqt. destruct Q2 as [_ Q2]. rewrite Q2 by done. by apply Q1. }
  assert (rooted d3 dir) as Hr3.
  { intros Hn name Hname. rewrite Q3; [|by apply dir_keyring|by apply body_plain]. apply Hr; [|done]. intros Hd. apply Hn. apply S2; [apply dir_plain|]. apply S1; [apply dir_plain|done]. }
  rewrite run_try in H. pose proof (body_size _ _ _ _ _ _ incarnation Es Hi) as Hsize. pose proof (sealed_bound_mono _ _ Hb). pose proof (bound_file (Named.kind named)).
  fold dir in H. destruct (make_room st dir _ _ replaced d3) as [d4 [x|[]]] eqn:Em; [done|]. apply make_room_fits in Em as (gone & rest & T4 & L4 & Hfit); [|done|lia].
  unfold dstate in H. rewrite map_err_run in H. destruct (write_private _ _ d4) as [d5 [x|[]]] eqn:Ew; [done|]. injection H as <-. pose proof Ew as Ew0. apply write_lands in Ew; [|done].
  pose proof (write_directory _ _ _ _ _ Ew0 (dir_plain st team)) as Hdir. pose proof (landed_lists _ _ _ _ _ _ L4 Ew) as (l & L5 & Hsum). destruct Ew as (_ & P5 & Q5).
  assert (file_at d4 (DiagnosticStore.keyring st) = Some key) as K4.
  { rewrite (thinned_file _ _ _ _ _ T4), bool_decide_false.
    - destruct Q2 as [_ Q2]. rewrite Q2 by done. exact K1.
    - intros (x & Hx & _)%list_elem_of_fmap. by apply (dir_keyring st team x Hst). }
  split; [done|]. split; [exists l; split; [done|]|split].
  - rewrite map_map in Hsum. change (map (fun x => snd (listed x)) rest) with (map Body.size rest) in Hsum. lia.
  - exists key, sealed, (Disk.system d1), f. split; [|done]. rewrite Q5; [done| |done]. intros He. by apply (dir_keyring st team (Named.name named) Hst).
  - intros q Hqt Hqk Hqp. rewrite Q5 by done. rewrite (thinned_file _ _ _ _ _ T4). destruct (bool_decide_reflect (q ∈ map (fun name => dir ++ [name]) gone)) as [Hg|Hg].
    + right. split; [done|]. apply list_elem_of_fmap in Hg as (x & -> & _). by exists x.
    + left. by apply Q3.
Qed.

Lemma open_body_unmoved st directory team incarnation entry d d' r : open_body st directory team incarnation entry d = (d', r) -> unmoved d d'.
Proof.
  intros H. unfold open_body in H. rewrite run_try in H. unfold dstate at 1 in H. rewrite map_err_run in H.
  destruct (read_private _ _ d) as [d1 [x|found]] eqn:Er; apply read_private_shows in Er as [U1 _]; [by injection H as <- _|].
  destruct found as [raw|]; [|by injection H as <- _]. rewrite run_try in H. unfold dpass at 1, mret at 1, io_ret at 1 in H. destruct (json_parse raw) as [v|]; [|by injection H as <- _].
  rewrite run_try in H. unfold dpass at 1, mret at 1, io_ret at 1 in H. destruct (body_incarnation v) as [|[named plain]]; [by injection H as <- _|].
  rewrite run_try in H. unfold dpass at 1, mret at 1, io_ret at 1 in H. destruct (admit_envelope _ _); [|by injection H as <- _]. rewrite run_try in H. unfold dstate in H. rewrite map_err_run in H.
  destruct (load_key _ false d1) as [d2 [x|k]] eqn:Ek; apply load_key_reads in Ek as [U2 _]; [injection H as <- _; by etransitivity|].
  rewrite run_try in H. unfold dpass at 1, mret at 1, io_ret at 1 in H. destruct (open_envelope _ _ _); injection H as <- _; by etransitivity.
Qed.
(** What opening that body shows. *)
Lemma open_body_shows st directory team incarnation entry named key sealed payload document (e e' : F) d d' r :
  open_body st directory team incarnation entry d = (d', inr r) ->
  file_at d (directory ++ [Body.name entry]) = Some (canonical (body_value sealed named)) -> file_at d (DiagnosticStore.keyring st) = Some key ->
  seal key payload (diagnostic_aad team named (Body.name entry)) e = (e', Some sealed) -> SHA256_RE named = true ->
  1 <= slen payload <= Body.bound (Body.kind entry) -> json_parse payload = Some document ->
  r = (if named =s incarnation then Some document else None).
Proof.
  intros H Hf Hk Hs Hn Hb Hd. unfold open_body in H. rewrite run_try in H. unfold dstate at 1 in H. rewrite map_err_run in H.
  destruct (read_private _ _ d) as [d1 [x|found]] eqn:Er; [done|]. apply read_private_shows in Er as [(s & ->) R].
  destruct found as [raw|]; [destruct R as [R _]|]; rewrite Hf in R; [injection R as <-|done].
  destruct (body_reads _ _ _ _ _ _ named (body_bounds (Body.kind entry)) Hs Hn (body_roomy _) Hb) as (v & plain & Hv & Hbi & Ha & Ho).
  rewrite run_try in H. unfold dpass at 1, mret at 1, io_ret at 1 in H. rewrite Hv in H. rewrite run_try in H. unfold dpass at 1, mret at 1, io_ret at 1 in H. rewrite Hbi in H. cbv beta iota in H.
  rewrite run_try in H. unfold dpass at 1, mret at 1, io_ret at 1 in H. rewrite Ha in H. rewrite run_try in H. unfold dstate in H. rewrite map_err_run in H.
  destruct (load_key _ false _) as [d2 [x|k]] eqn:Ek; [done|]. apply load_key_reads in Ek as [_ [K _]]. change (file_at d (DiagnosticStore.keyring st) = Some k) in K.
  rewrite Hk in K. injection K as <-. rewrite run_try in H. unfold dpass at 1, mret at 1, io_ret at 1 in H. rewrite Ho in H. injection H as _ H. rewrite Hd in H.
  destruct (named =s incarnation); cbn [negb] in H; [|by injection H as <-]. destruct document; try done. by injection H as <-.
Qed.
End Sealed.

(** ** Recording *)
Inductive Recording : Type :=
| OfAttempt (diagnostic : Diagnostic.Diagnostic) (protected : list string)
| OfStep (step : StepRecord.StepRecord) (protected : list string)
| OfRun (run : RunRecord.RunRecord).
Lemma number_head (z : Z) s : temporary ([] ++ [pretty z +:+ s]) = false.
Proof.
  rewrite temporary_last. assert (forall p, exists a t, pretty (N.pos p) = String a t /\ is_digit a = true) as Hp.
  { intros p. destruct (number_name (Z.pos p) ltac:(lia)) as (Hd & _ & Hl & _). change (pretty (Z.pos p)) with (pretty (N.pos p)) in *.
    destruct (pretty (N.pos p)) as [|a t]; [done|]. cbn [all_bytes] in Hd. apply andb_true_iff in Hd as [Hd _]. eauto. }
  destruct z as [|p|p]; [done| |done]. change (pretty (Z.pos p)) with (pretty (N.pos p)). destruct (Hp p) as (a & t & -> & Ha).
  change (String a t +:+ s) with (String a (t +:+ s)). by destruct a as [[] [] [] [] [] [] [] []].
Qed.
Lemma number_plain (directory : Path) (z : Z) s : temporary (directory ++ [pretty z +:+ s]) = false.
Proof. rewrite temporary_last. pose proof (number_head z s) as H. by rewrite temporary_last in H. Qed.

Section Recordings.
  Context {PF : Platform} {VO : Vocabulary} `{C : !Crypto} {L : CryptoLaws C} {F : Type} `{!System F} {FD : FullDraws F}.
  Abbreviation Disk := (Disk.Disk F).
  Implicit Types (st : DiagnosticStore) (d : Disk).

Definition record_any st (team incarnation : string) (r : Recording) : io (F := F) (DiagnosticError + unit) :=
  match r with
  | OfAttempt diagnostic protected => record st team incarnation diagnostic protected
  | OfStep step protected => record_step st team incarnation step protected
  | OfRun run => record_run st team incarnation run
  end.
Definition protected_by (r : Recording) : list string :=
  match r with OfAttempt _ protected | OfStep _ protected => protected | OfRun _ => [] end.

Lemma pass_run {A B} (r : DiagnosticError + A) (f : A -> io (DiagnosticError + B)) d :
  try (dpass r) f d = match r with inl e => (d, inl e) | inr a => f a d end.
Proof. rewrite run_try. by destruct r. Qed.
(** Every recording is one body sealed. *)
Lemma record_any_seals st team incarnation r d d' : record_any st team incarnation r d = (d', inr tt) -> rooted d (diagnostics_dir st team) ->
  SHA256_RE incarnation = true /\ exists named document replaced d1, unmoved d d1 /\ rooted d1 (diagnostics_dir st team)
  /\ temporary (diagnostics_dir st team ++ [Named.name named]) = false
  /\ seal_body st team incarnation named document (protected_by r) replaced d1 = (d', inr tt).
Proof.
  assert (forall d d1 : Disk, unmoved d d1 -> rooted d (diagnostics_dir st team) -> rooted d1 (diagnostics_dir st team)) as Hmoved by by intros ? ? (s & ->).
  intros H Hr. destruct r as [diagnostic protected|step protected|run]; cbn [record_any protected_by] in *.
  - unfold record in H. rewrite !pass_run in H. unfold diagnostic_team in H. destruct (canonical_team_id _); [|done]. cbn [is_some] in H. rewrite pass_run in H.
    unfold diagnostic_incarnation in H. destruct (SHA256_RE incarnation); [|done]. split; [done|]. case_match; [done|].
    eexists _, _, _, d. split; [done|]. split; [done|]. split; [|exact H]. cbn [Named.name]. apply number_plain.
  - unfold record_step in H. rewrite !pass_run in H. unfold diagnostic_team in H. destruct (canonical_team_id _); [|done]. cbn [is_some] in H. rewrite pass_run in H.
    unfold diagnostic_incarnation in H. destruct (SHA256_RE incarnation); [|done]. split; [done|]. case_match; [done|]. rewrite run_try in H.
    destruct (entries _ d) as [d1 [e|found]] eqn:E; [done|]. apply entries_lists in E as [U _]; [|done].
    eexists _, _, _, d1. split; [done|]. split; [by eapply Hmoved|]. split; [|exact H]. cbn [Named.name]. apply number_plain.
  - unfold record_run in H. rewrite !pass_run in H. unfold diagnostic_team in H. destruct (canonical_team_id _); [|done]. cbn [is_some] in H. rewrite pass_run in H.
    unfold diagnostic_incarnation in H. destruct (SHA256_RE incarnation); [|done]. split; [done|]. case_match; [done|].
    eexists _, _, _, d. split; [done|]. split; [done|]. split; [|exact H]. cbn [Named.name]. apply number_plain.
Qed.
Lemma new_ok root key_path st : diagnostics_new root key_path = inr st -> temporary key_path = false ->
  diagnostics_ok st /\ DiagnosticStore.max_team_bytes st = MAX_TEAM_BYTES.
Proof.
  unfold diagnostics_new. case_match eqn:E; [done|]. apply orb_false_iff in E as [_ E]. intros [= <-] Ht. split; [|done]. split; [done|]. split; [done|]. vm_compute. discriminate.
Qed.

(** C32. A Team's records of runs are bounded: whenever recording an attempt, a step
    or a run succeeds, the bodies its directory then lists take at most 24 MiB
    together; every file outside that directory but the keyring is as it was, and
    of the directory's other files each is as it was or gone. *)
Theorem recordings_bounded root key_path st team incarnation r d d' :
  diagnostics_new root key_path = inr st -> temporary key_path = false -> rooted d (diagnostics_dir st team) ->
  record_any st team incarnation r d = (d', inr tt) ->
  (forall d2 found, entries (diagnostics_dir st team) d' = (d2, inr found) -> zsum (map Body.size found) <= MAX_TEAM_BYTES)
  /\ exists written, forall q, temporary q = false -> q <> key_path -> q <> diagnostics_dir st team ++ [written] ->
     file_at d' q = file_at d q \/ (file_at d' q = None /\ exists name, q = diagnostics_dir st team ++ [name]).
Proof.
  intros Hnew Ht Hr H. destruct (new_ok _ _ _ Hnew Ht) as [Hst Hmax].
  assert (DiagnosticStore.keyring st = key_path) as Hk by (unfold diagnostics_new in Hnew; case_match; [done|by injection Hnew as <-]).
  apply record_any_seals in H as (Hi & named & document & replaced & d1 & (s & ->) & Hr1 & Hp & H); [|done].
  apply seal_body_keeps in H as (_ & _ & _ & (l & Hl & Hsum) & _ & Hq); [|done..]. rewrite Hk in Hq. split; [|by exists (Named.name named)].
  intros d2 found Hf. pose proof (entries_total _ _ _ _ _ Hl Hf). lia.
Qed.

(** ** Reading a diagnostic back *)
Lemma diagnostic_name_parses (g : Diagnostic.Diagnostic) size : is_some (canonical_diagnostic (Diagnostic.view g)) = true ->
  ROUTINE_ID_RE (Diagnostic.routine_id g) = true -> ROUTINE_ID_RE (Diagnostic.run_id g) = true -> 0 <= Diagnostic.recorded_at g < 10 ^ 12 ->
  Body.parse (Diagnostic.name g) size =
  Some (Body.mk (Diagnostic.name g) Body.Diagnostic (Diagnostic.recorded_at g) (Diagnostic.routine_id g) (Diagnostic.run_id g)
          (Some (Diagnostic.operation_id g)) (Some (pretty (Diagnostic.attempt g))) size).
Proof.
  intros Hc Hr Hn Ht. assert (OPERATION_ID_RE (Diagnostic.operation_id g) = true /\ 1 <= Diagnostic.attempt g <= 64) as [Ho Ha].
  { unfold canonical_diagnostic in Hc. cbn [exact_object object_members Diagnostic.view object has_exactly mbind option_bind] in Hc. destruct (if has_exactly _ _ then _ else _) as [ms|] eqn:E; [|done].
    cbn [mbind option_bind] in Hc. destruct (has_exactly _ _); [|done]. injection E as <-. match type of Hc with is_some (if ?b then _ else _) = _ => destruct b eqn:Hb; [clear Hc|done] end.
    do 7 (apply andb_true_iff in Hb as [Hb _]). apply andb_true_iff in Hb as [H1 H2]. split; [exact H1|].
    change (whole (int (Diagnostic.attempt g)) 1 64 = true) in H2. unfold whole in H2. cbn [small_int int] in H2. apply andb_true_iff in H2 as [?%Z.leb_le ?%Z.leb_le]. lia. }
  destruct (operation_named _ Ho) as [Hu Hdot]. apply andb_true_iff in Hr as [Lr Hr], Hn as [Ln Hn].
  destruct (number_name (Diagnostic.recorded_at g) ltac:(lia)) as (D1 & P1 & L1 & B1). specialize (B1 12 ltac:(lia) ltac:(lia)).
  destruct (number_name (Diagnostic.attempt g) ltac:(lia)) as (D2 & P2 & L2 & B2). specialize (B2 2 ltac:(lia) ltac:(lia)).
  unfold Body.parse. unfold Diagnostic.name at 1.
  repeat match goal with |- context ["." +:+ ?t] => change ("." +:+ t) with (String "." t) end. change ".diagnostic" with (String "." "diagnostic").
  assert (forall n, all_bytes is_digit n = true -> apart "." n) as Hapart.
  { intros n Hn'. apply hex_plain_parts. eapply all_bytes_impl; [apply digit_hex|exact Hn']. }
  rewrite !split_on_apart, split_on_last by first [exact Hdot | reflexivity | by apply Hapart | by apply hex_plain_parts]. rewrite Hu. unfold Body.digits at 1. rewrite D2.
  rewrite (proj2 (Z.leb_le 1 _)) by lia. rewrite (proj2 (Z.leb_le _ 2)) by lia. cbn [andb seqb]. change ("diagnostic" =s "diagnostic") with true. cbn [andb].
  unfold Body.of_parts, Body.digits, Body.hex. rewrite D1, Lr, Hr, Ln, Hn. rewrite (proj2 (Z.leb_le 1 _)) by lia. rewrite (proj2 (Z.leb_le _ 12)) by lia.
  cbn [andb negb orb]. by rewrite P1.
Qed.

(** The diagnostic with its failure document in canonical order. *)
Definition kept_diagnostic (g : Diagnostic.Diagnostic) : Diagnostic.Diagnostic :=
  Diagnostic.mk (Diagnostic.routine_id g) (Diagnostic.run_id g) (Diagnostic.operation_id g) (Diagnostic.attempt g) (Diagnostic.assistant_id g)
    (Diagnostic.action g) (Diagnostic.position g) (Diagnostic.recorded_at g) (option_map (ordered CANONICAL) (Diagnostic.failure g)) (Diagnostic.condition g).
Lemma kept_unchanged g : (forall failure, Diagnostic.failure g = Some failure -> ordered CANONICAL failure = failure) -> kept_diagnostic g = g.
Proof. intros H. unfold kept_diagnostic. destruct g as [g1 g2 g3 g4 g5 g6 g7 g8 failure g10]. cbn [Diagnostic.failure] in H. destruct failure as [f|]; cbn; [by rewrite (H f eq_refl)|done]. Qed.
Lemma diagnostic_of_view (g : Diagnostic.Diagnostic) name kind operation number size : Diagnostic.failure g <> Some VNull ->
  diagnostic_of (Body.mk name kind (Diagnostic.recorded_at g) (Diagnostic.routine_id g) (Diagnostic.run_id g) operation number size)
    (ordered CANONICAL (Diagnostic.view g)) = kept_diagnostic g.
Proof.
  intros Hf. destruct g as [routine run operation_id attempt assistant action position at_ failure condition]. cbn [Diagnostic.failure] in Hf.
  unfold kept_diagnostic, diagnostic_of. cbn [Diagnostic.routine_id Diagnostic.run_id Diagnostic.operation_id Diagnostic.attempt Diagnostic.assistant_id Diagnostic.action
    Diagnostic.position Diagnostic.recorded_at Diagnostic.failure Diagnostic.condition Body.routine Body.run Body.at_].
  set (v := ordered _ _). change (get v "operation_id") with (Some (VString operation_id)). change (get v "attempt") with (Some (int attempt)).
  change (get v "assistant_id") with (Some (VString assistant)). change (get v "action") with (Some (VString action)). change (get v "position") with (Some (int position)).
  change (get v "failure") with (Some (ordered CANONICAL (default VNull failure))). change (get v "condition") with (Some (ordered CANONICAL (Redaction.optional_text condition))).
  cbn [mbind option_bind small_int int default]. f_equal; [|by destruct condition]. destruct failure as [f|]; [|done]. cbn [default option_map]. destruct f; try done.
Qed.
Lemma read_each_has st directory team incarnation run now e document found d d' r : e ∈ found ->
  read_each st directory team incarnation run now found d = (d', inr r) ->
  Body.kind e = Body.Diagnostic -> Body.run e = run -> now - RETENTION_SECONDS < Body.at_ e ->
  (forall (d1 d2 : Disk) opened, unmoved d d1 -> open_body st directory team incarnation e d1 = (d2, inr opened) -> opened = Some document) ->
  diagnostic_of e document ∈ r.
Proof.
  intros Hin H Hk Hr Hat Ho. revert d d' r H Ho. induction found as [|x found IH]; intros d d' r H Ho; [by apply elem_of_nil in Hin|]. cbn [read_each] in H.
  apply elem_of_cons in Hin as [<- | Hin].
  - rewrite bool_decide_true, Hr, seqb_refl in H by done. rewrite (proj2 (Z.leb_gt _ _)) in H by done. cbn [negb orb] in H. rewrite run_try in H.
    destruct (open_body _ _ _ _ e d) as [d1 [y|opened]] eqn:Eo; [done|]. apply Ho in Eo as ->; [|done]. case_match; [done|]. rewrite run_try in H.
    destruct (read_each _ _ _ _ _ _ found d1) as [d2 [y|rest]]; [done|]. injection H as _ <-. constructor.
  - specialize (IH Hin). destruct (negb _ || _ || _); [by eapply IH|]. rewrite run_try in H. destruct (open_body _ _ _ _ x d) as [d1 [y|opened]] eqn:Eo; [done|].
    assert (unmoved d d1) as U1 by (eapply open_body_unmoved; exact Eo).
    assert (forall (d1' d2 : Disk) opened, unmoved d1 d1' -> open_body st directory team incarnation e d1' = (d2, inr opened) -> opened = Some document) as Ho1
      by (intros; eapply Ho; [etransitivity|]; done).
    destruct opened as [opened|]; [|by eapply IH]. case_match; [done|]. rewrite run_try in H.
    destruct (read_each _ _ _ _ _ _ found d1) as [d2 [y|rest]] eqn:Er; [done|]. injection H as _ <-. right. by eapply IH.
Qed.
Lemma record_sealed st team incarnation g protected d d' : record st team incarnation g protected d = (d', inr tt) ->
  SHA256_RE incarnation = true /\ is_some (canonical_diagnostic (Diagnostic.view g)) = true
  /\ ROUTINE_ID_RE (Diagnostic.routine_id g) = true /\ ROUTINE_ID_RE (Diagnostic.run_id g) = true
  /\ seal_body st team incarnation (Named.mk (Diagnostic.name g) Body.Diagnostic (Diagnostic.recorded_at g)) (Diagnostic.view g) protected (replaces g) d = (d', inr tt).
Proof.
  unfold record. rewrite pass_run. unfold diagnostic_team. destruct (canonical_team_id _); [|done]. cbn [is_some]. rewrite pass_run.
  unfold diagnostic_incarnation. destruct (SHA256_RE incarnation); [|done]. intros H. split; [done|].
  destruct (negb _ || _ || _) eqn:Hc in H; [done|]. apply orb_false_iff in Hc as [[H1%negb_false_iff H2%negb_false_iff]%orb_false_iff H3%negb_false_iff]. done.
Qed.
Lemma protected_absent payload protected secret form : holds_protected payload protected = false -> secret ∈ protected -> secret <> EmptyString ->
  form ∈ forms secret -> has_sub form payload = false.
Proof.
  intros H Hs Hn Hf. destruct (has_sub form payload) eqn:E; [|done]. rewrite <- H. symmetry. unfold holds_protected. apply existsb_exists. exists secret. split.
  - apply filter_In. split; [by apply list_elem_of_In|]. by destruct secret.
  - apply existsb_exists. exists form. split; [by apply list_elem_of_In|done].
Qed.
Lemma newest_whole {A} count (l : list A) : len (newest count l) < count -> newest count l = l.
Proof.
  unfold newest, len. rewrite length_skipn. intros H. replace (Z.to_nat (Z.of_nat (length l) - count)) with 0%nat by lia. done.
Qed.

(** C33. A recorded diagnostic reads back: once recording it succeeded, reading its
    run under the same Team and incarnation, before it expires and while the reading
    finds fewer than the 32 diagnostics it returns at most, shows it with the failure
    document it carries in canonical member order, and unchanged when that document
    was in order or absent; no other incarnation opens it; and its text holds no
    form, raw or escaped, of any value its attempt protected.  The diagnostic's
    document is JSON text and numbers of at most 512 levels. *)
Theorem diagnostic_reads_back root key_path st team incarnation g protected d d' :
  diagnostics_new root key_path = inr st -> temporary key_path = false -> rooted d (diagnostics_dir st team) ->
  admissible (Diagnostic.view g) = true -> doubles (Diagnostic.view g) -> height (Diagnostic.view g) <= Strict.MAX_DEPTH ->
  Diagnostic.failure g <> Some VNull -> 0 <= Diagnostic.recorded_at g < 10 ^ 12 ->
  record st team incarnation g protected d = (d', inr tt) ->
  (forall now d2 found, now - RETENTION_SECONDS < Diagnostic.recorded_at g ->
     read_diagnostics st team incarnation (Diagnostic.run_id g) now d' = (d2, inr found) -> len found < MAX_RUN_DIAGNOSTICS -> kept_diagnostic g ∈ found)
  /\ ((forall failure, Diagnostic.failure g = Some failure -> ordered CANONICAL failure = failure) -> kept_diagnostic g = g)
  /\ (forall other size entry d2 opened, other <> incarnation -> Body.parse (Diagnostic.name g) size = Some entry ->
        open_body st (diagnostics_dir st team) team other entry d' = (d2, inr opened) -> opened = None)
  /\ forall secret form, secret ∈ protected -> secret <> EmptyString -> form ∈ forms secret -> has_sub form (canonical (Diagnostic.view g)) = false.
Proof.
  intros Hnew Ht Hr Ha Hfl Hh Hf Hat H. destruct (new_ok _ _ _ Hnew Ht) as [Hst _].
  apply record_sealed in H as (Hi & Hc & Hro & Hru & H). set (named := Named.mk _ _ _) in H.
  apply seal_body_keeps in H as (Hb & Hp & Hdir & (l & Hl & _) & (key & sealed & e & e' & Hk & Hkl & Hs & Hfile) & _); [|done|done|apply number_plain|done].
  cbn [Named.name Named.kind named] in *. pose proof (parse_dumps CANONICAL _ Ha Hfl Hh) as Hparse.
  assert (1 <= slen (dumps CANONICAL (Diagnostic.view g)) <= Body.bound Body.Diagnostic) as Hb1.
  { split; [|done]. unfold Diagnostic.view, object. cbn [dumps]. rewrite !slen_app. change (slen "{") with 1. unfold slen. lia. }
  assert (forall other size entry (d1 d2 : Disk) opened, unmoved d' d1 -> Body.parse (Diagnostic.name g) size = Some entry ->
    open_body st (diagnostics_dir st team) team other entry d1 = (d2, inr opened) -> opened = if incarnation =s other then Some (ordered CANONICAL (Diagnostic.view g)) else None) as Hopen.
  { intros other size entry d1 d2 opened (s & ->) Hpe Ho. rewrite diagnostic_name_parses in Hpe by done. injection Hpe as <-.
    eapply open_body_shows in Ho; [exact Ho|exact Hfile|exact Hk|exact Hs|done|exact Hb1|exact Hparse]. }
  split; [|split; [|split]].
  - intros now d2 found Hnow Hread Hlen. unfold read_diagnostics in Hread. rewrite pass_run in Hread. unfold diagnostic_team in Hread. destruct (canonical_team_id _); [|done].
    cbn [is_some] in Hread. rewrite pass_run in Hread. unfold diagnostic_incarnation in Hread. rewrite Hi in Hread. rewrite Hru in Hread. cbn [negb] in Hread. rewrite run_try in Hread.
    assert (is_body (Diagnostic.name g) = true) as Hbody by (unfold is_body; by rewrite diagnostic_name_parses).
    destruct (entries _ d') as [d3 [x|listing]] eqn:Ee; [done|].
    apply entries_lists in Ee as [U3 [Hlist Hentries]]; [|by intros Hn]. rewrite run_try in Hread.
    destruct (read_each _ _ _ _ _ _ listing d3) as [d4 [x|rs]] eqn:Er; [done|]. injection Hread as _ <-. apply newest_whole in Hlen. rewrite Hlen, stable_sort_perm.
    assert ((Diagnostic.name g, slen (canonical (body_value sealed incarnation))) ∈ map listed listing) as Hin.
    { destruct Hlist as [_ Hlist]. apply Hlist. split; [done|]. by exists (canonical (body_value sealed incarnation)). }
    apply list_elem_of_fmap in Hin as (x & [= Hx _] & Hin). destruct (Hentries x Hin) as (c & _ & Hpx). rewrite <- Hx in Hpx.
    pose proof Hpx as Hx2. rewrite diagnostic_name_parses in Hx2 by done. injection Hx2 as <-. rewrite <- (diagnostic_of_view g (Diagnostic.name g) Body.Diagnostic (Some (Diagnostic.operation_id g)) (Some (pretty (Diagnostic.attempt g))) (slen c) Hf).
    eapply read_each_has; [exact Hin|exact Er|done|done|done|]. intros d5 d6 opened U5 Ho. eapply Hopen in Ho; [|by etransitivity|exact Hpx]. by rewrite seqb_refl in Ho.
  - apply kept_unchanged.
  - intros other size entry d2 opened Hne Hpe Ho. rewrite (Hopen other size entry d' d2 opened (unmoved_refl d') Hpe Ho). apply not_eq_sym, seqb_false in Hne. by rewrite Hne.
  - intros secret form Hsec Hn Hform. by eapply protected_absent.
Qed.
End Recordings.
