(* ===== verification/ReplaySafety.v ===== *)
(** * What a replayed run sends

    The theory of [Replay]: the invariant that ties a run's sealed cursor, snapshot and
    evidence to what was sent, completed, judged and resumed ([Kept], [reached]), kept
    by every call on the store and the service, and by every call of the runtime
    ([Driving]), whichever system calls fail. *)

From stdpp Require Import base tactics list strings gmap pretty.
From Stdlib Require Import ZArith Lia Ascii.
From S2P Require Import Prelude Text Json Reader Utf8 ReaderSafety Floats RoundTrip Causes Calendar Platform Requests Redaction Executor Wire Instants Notices Schedule Dates Starts Plans Team Definitions Claims Runs Holds Cursors CursorSafety Journal RunDocuments Projection Credentials Walk Traces Outputs Previews Admission StateCodec Disk DiskSafety Sealing RoutineStore StoreSafety StoreResets Diagnostics DiagnosticSafety Service Replay Recovery.

#[local] Open Scope Z_scope.

(** ** Cursors of the same bytes *)
Lemma split_on_app sep a t : split_on sep (a +:+ String sep t) = split_on sep a ++ split_on sep t.
Proof.
  induction a as [|x a IH].
  - change ("" +:+ String sep t) with (String sep t). cbn [split_on]. by rewrite Z.eqb_refl.
  - change (String x a +:+ String sep t) with (String x (a +:+ String sep t)). cbn [split_on]. rewrite IH.
    destruct (byte_code x =? byte_code sep); [done|]. destruct (split_on sep a) as [|w ws] eqn:E; [|done].
    exfalso. clear -E. destruct a; cbn in E; repeat case_match; done.
Qed.
Definition piece (key text : string) : string := write_string (ensure_ascii CANONICAL) key +:+ ":" +:+ text.
Definition before_kept (c : Cursor.Cursor) : list string :=
  let t v := dumps CANONICAL v in
  [("{" +:+ piece "absent" (t (VBool (Cursor.absent c))));
   piece "attempts" (t (int (Cursor.attempts c))); piece "boot" (t (text (Cursor.boot c)));
   piece "carried" (t (VBool (carried (Cursor.episode c)))); piece "commitment" (t (optional (Cursor.commitment c)));
   piece "continued" (t (VBool (is_continued (Cursor.episode c)))); piece "dispatched_at" (t (int (Cursor.dispatched_at c)));
   piece "episode" (t (VBool (opened (Cursor.episode c)))); piece "fault" (t (text (Cursor.fault c)));
   piece "incarnation" (t (text (Binding.incarnation (Cursor.binding c)))); piece "operation_id" (t (optional (Cursor.operation_id c)));
   piece "plan" (t (text (Cursor.plan c))); piece "protection_lost" (t (VBool (Cursor.protection_lost c)));
   piece "revision" (t (int (Binding.revision (Cursor.binding c)))); piece "routine_id" (t (text (Binding.routine_id (Cursor.binding c))));
   piece "run_id" (t (text (Binding.run_id (Cursor.binding c))))]%string.
Definition after_kept (c : Cursor.Cursor) : list string :=
  let t v := dumps CANONICAL v in
  [piece "started_at" (t (int (Cursor.started_at c))); piece "step" (t (int (Z.of_nat (Cursor.step c))));
   piece "version" (t (int CURSOR_VERSION)); (piece "workload" (t (text (Cursor.workload c))) +:+ "}")]%string.
Definition kept_pieces (c : Cursor.Cursor) : list string :=
  [piece "selected" (dumps CANONICAL (VArray (map (fun s : Selected =>
        let '(step, pointer, where_text, item, value) := s in
        VArray [text step; text pointer; text where_text; text item; value]) (Cursor.selected c))));
   piece "shown" (dumps CANONICAL (default VNull (Cursor.shown c)))]%string.
Lemma dumps_members ms : dumps CANONICAL (VObject ms) =
  "{" +:+ String.concat "," (map (fun kv => piece (fst kv) (snd kv)) (sorted_by_name (map (fun kv => (fst kv, dumps CANONICAL (snd kv))) ms))) +:+ "}".
Proof. reflexivity. Qed.
Lemma concat_last l x tail : String.concat "," (l ++ [x]) +:+ tail = String.concat "," (l ++ [(x +:+ tail)]).
Proof.
  induction l as [|y l IH]; [done|]. change ((y :: l) ++ [x]) with (y :: (l ++ [x])). change ((y :: l) ++ [x +:+ tail]) with (y :: (l ++ [x +:+ tail])).
  destruct l as [|z l]; cbn [app String.concat] in *; rewrite !string_app_assoc; do 2 f_equal; exact IH.
Qed.
Lemma canonical_document c : canonical (document c) = String.concat "," (before_kept c ++ kept_pieces c ++ after_kept c).
Proof.
  unfold canonical, document, object, before_kept, kept_pieces, after_kept. rewrite dumps_members. cbn [map fst snd app].
  repeat match goal with |- context [dumps CANONICAL ?v] => generalize (dumps CANONICAL v); intro end.
  match goal with |- context [sorted_by_name ?l] => let l' := eval vm_compute in (sorted_by_name l) in change (sorted_by_name l) with l' end.
  cbn [map fst snd].
  match goal with |- _ +:+ String.concat "," [?a;?b;?c;?d;?e;?f;?g;?h;?i;?j;?k;?l;?m;?n;?o;?p;?q;?r;?s;?t;?u;?v] +:+ _ = _ =>
    change [a;b;c;d;e;f;g;h;i;j;k;l;m;n;o;p;q;r;s;t;u;v] with ([a;b;c;d;e;f;g;h;i;j;k;l;m;n;o;p;q;r;s;t;u] ++ [v]) end.
  rewrite concat_last. reflexivity.
Qed.
Lemma split_concat l : l <> [] -> split_on "," (String.concat "," l) = flat_map (split_on ",") l.
Proof.
  induction l as [|x l IH]; [done|]. intros _. destruct l as [|y l]; [cbn; by rewrite app_nil_r|].
  change (String.concat "," (x :: y :: l)) with (x +:+ String "," (String.concat "," (y :: l))). rewrite split_on_app, IH by done. reflexivity.
Qed.
Lemma flat_map_apart l : List.Forall (apart ",") l -> flat_map (split_on ",") l = l.
Proof. induction 1 as [|x l Hx _ IH]; [done|]. cbn [flat_map]. by rewrite IH, split_on_last. Qed.

(** Bytes JSON writes as themselves, no comma among them. *)
Definition plain_byte (a : ascii) : bool := literal a && negb (byte_code a =? byte_code ",").
Definition plain_text (s : string) : Prop := all_bytes plain_byte s = true.
Lemma plain_literal s : plain_text s -> all_bytes literal s = true /\ apart "," s.
Proof. intros H. split; (eapply all_bytes_impl; [|exact H]); intros a; unfold plain_byte; by intros [? ?]%andb_true_iff. Qed.
Lemma plain_by (p : ascii -> bool) s : (forall a, p a = true -> plain_byte a = true) -> all_bytes p s = true -> plain_text s.
Proof. intros Hp. by apply all_bytes_impl. Qed.
Lemma hex_plain a : is_hex a = true -> plain_byte a = true.
Proof. destruct a as [[] [] [] [] [] [] [] []]; vm_compute; congruence. Qed.
Lemma exactly_plain n s : exactly n is_hex s = true -> plain_text s.
Proof. unfold exactly. intros [_ H]%andb_true_iff. by apply (plain_by is_hex); [apply hex_plain|]. Qed.
Lemma head_tail_plain h t n s : (forall a, h a = true -> plain_byte a = true) -> (forall a, t a = true -> plain_byte a = true) -> head_tail h t n s = true -> plain_text s.
Proof.
  intros Hh Ht. destruct s as [|a s]; [done|]. unfold head_tail, plain_text. cbn [all_bytes]. intros H. rewrite !andb_true_iff in H. destruct H as [[Ha Hs] Hl].
  rewrite (Hh _ Ha). cbn [andb]. first [by apply (plain_by t) | by eapply all_bytes_impl; [exact Ht|]].
Qed.
Lemma operation_plain s : OPERATION_ID_RE s = true -> plain_text s.
Proof.
  intros (a & b & c & x & e & -> & Hh & _)%operation_parts. rewrite !all_bytes_app in Hh. repeat (apply andb_true_iff in Hh as [? Hh]).
  unfold plain_text. repeat (rewrite all_bytes_app; cbn [all_bytes]).
  repeat match goal with H : all_bytes is_hex ?s = true |- _ => apply (all_bytes_impl _ _ _ hex_plain) in H; rewrite H; clear H end. reflexivity.
Qed.
Lemma digest_plain s : PLAN_DIGEST_RE s = true -> plain_text s.
Proof.
  unfold PLAN_DIGEST_RE. destruct (strip_prefix "sha256:" s) as [d|] eqn:E; [|done]. intros H%exactly_plain.
  apply strip_prefix_app in E as ->. unfold plain_text in *. rewrite all_bytes_app, H. reflexivity.
Qed.
Lemma pretty_plain (z : Z) : plain_text (pretty z).
Proof.
  assert (forall z, 0 <= z -> plain_text (pretty z)) as Hp.
  { intros x Hx. apply (plain_by is_digit); [|by apply number_name]. intros a Ha. by apply hex_plain, digit_hex. }
  destruct z as [|p|p]; [by apply Hp|by apply Hp|]. change (pretty (Z.neg p)) with (String "-" (pretty (Z.pos p))). unfold plain_text. cbn [all_bytes]. by rewrite (Hp (Z.pos p)).
Qed.

Definition plain_scalar (v : Value) : Prop :=
  match v with VNull | VBool _ | VNumber (NInt _) => True | VString s => plain_text s | _ => False end.
Lemma quoted s : plain_text s -> dumps CANONICAL (text s) = quote +:+ s +:+ quote.
Proof. intros [H _]%plain_literal. by apply write_literal. Qed.
Lemma apart_app sep a b : apart sep a -> apart sep b -> apart sep (a +:+ b).
Proof. unfold apart. intros Ha Hb. by rewrite all_bytes_app, Ha, Hb. Qed.
Lemma scalar_apart v : plain_scalar v -> apart "," (dumps CANONICAL v).
Proof.
  destruct v as [|[]|[z| |]|s| |]; cbn [plain_scalar]; try done; intros H.
  - by apply plain_literal, pretty_plain.
  - change (VString s) with (text s). rewrite quoted by done. apply plain_literal in H as [_ H]. by repeat apply apart_app.
Qed.
Lemma piece_apart key v : plain_text key -> plain_scalar v -> apart "," (piece key (dumps CANONICAL v)).
Proof.
  intros Hk Hv. unfold piece. apply plain_literal in Hk as [Hl Hk]. rewrite write_literal by done.
  repeat apply apart_app; try done. by apply scalar_apart.
Qed.
Lemma string_app_tail (a b c : string) : a +:+ b = a +:+ c -> b = c.
Proof. induction a as [|x a IH]; [done|]. intros [= H]. by apply IH. Qed.
Lemma string_app_inj_r (a b c : string) : a +:+ c = b +:+ c -> a = b.
Proof.
  intros H. assert (String.length a = String.length b) as Hl by (apply (f_equal String.length) in H; rewrite !length_string_app in H; lia).
  revert b Hl H. induction a as [|x a IH]; intros [|y b] Hl H; try done. injection H as -> H. f_equal. apply IH; [by injection Hl|done].
Qed.
Lemma quoted_inj s t : plain_text s -> plain_text t -> dumps CANONICAL (text s) = dumps CANONICAL (text t) -> s = t.
Proof. intros Hs Ht. rewrite !quoted by done. intros H%string_app_tail. by apply string_app_inj_r in H. Qed.
Lemma int_inj x y : dumps CANONICAL (int x) = dumps CANONICAL (int y) -> x = y.
Proof. change (pretty x = pretty y -> x = y). apply (inj (pretty : Z -> string)). Qed.
Lemma optional_inj s t : plain_scalar (optional s) -> plain_scalar (optional t) -> dumps CANONICAL (optional s) = dumps CANONICAL (optional t) -> s = t.
Proof.
  destruct s as [s|], t as [t|]; cbn [optional from_option plain_scalar]; intros Hs Ht H; [f_equal; by apply quoted_inj| | |done].
  - rewrite quoted in H by done. done.
  - rewrite quoted in H by done. done.
Qed.
Lemma flag_inj a b : dumps CANONICAL (VBool a) = dumps CANONICAL (VBool b) -> a = b.
Proof. by destruct a, b. Qed.

(** What a cursor says of its run's progress. *)
Record agree (c d : Cursor.Cursor) : Prop := {
  agree_step : Cursor.step d = Cursor.step c;
  agree_operation : Cursor.operation_id d = Cursor.operation_id c;
  agree_commitment : Cursor.commitment d = Cursor.commitment c;
  agree_lost : Cursor.protection_lost d = Cursor.protection_lost c;
  agree_plan : Cursor.plan d = Cursor.plan c;
  agree_absent : Cursor.absent d = Cursor.absent c;
  agree_continued : is_continued (Cursor.episode d) = is_continued (Cursor.episode c);
}.

Lemma piece_inj key a b : piece key a = piece key b -> a = b.
Proof. unfold piece. by intros H%string_app_tail%string_app_tail. Qed.
#[local] Opaque piece dumps.
Section Agreement.
  Context {PF : Platform} {VO : Vocabulary}.

Lemma checked_fields c : checked c = Ok c ->
  binding_valid (Cursor.binding c) = true /\ PLAN_DIGEST_RE (Cursor.plan c) = true /\ operation_valid c = true /\ attempt_valid c = true /\ BOOT_RE (Cursor.boot c) = true.
Proof.
  unfold checked, checked_within. intros H. inv_ok. 
  repeat match goal with H : negb _ = false |- _ => apply negb_false_iff in H end.
  repeat match goal with H : _ && _ = true |- _ => apply andb_true_iff in H as [? ?] end. done.
Qed.
Lemma checked_again c d : checked c = Ok d -> checked d = Ok d.
Proof. intros H. pose proof (checked_Ok _ _ H) as ->. done. Qed.
Lemma fault_plain s : contains FAULTS s = true -> plain_text s.
Proof.
  intros Hx%contains_In.
  repeat (destruct Hx as [<- | Hx]; [reflexivity|]). done.
Qed.
Lemma workload_plain s : is_empty s || WORKLOAD_RE s = true -> plain_text s.
Proof.
  intros [H | H]%orb_true_iff; [by destruct s|]. eapply head_tail_plain; [| |exact H]; intros [[] [] [] [] [] [] [] []]; vm_compute; congruence.
Qed.
Lemma operation_scalars c : operation_valid c = true -> plain_scalar (optional (Cursor.operation_id c)) /\ plain_scalar (optional (Cursor.commitment c)).
Proof.
  unfold operation_valid. destruct (Cursor.operation_id c), (Cursor.commitment c); cbn [optional from_option plain_scalar text]; try done.
  intros [[Ho _]%andb_true_iff Hc]%andb_true_iff. split; [by apply operation_plain|by eapply exactly_plain].
Qed.
Lemma scalars_plain c : checked c = Ok c -> List.Forall (apart ",") (before_kept c) /\ List.Forall (apart ",") (after_kept c).
Proof.
  intros (Hb & Hp & (Ho & Hc)%operation_scalars & Ha & Hboot)%checked_fields.
  unfold binding_valid, attempt_valid in *. repeat match goal with H : _ && _ = true |- _ => apply andb_true_iff in H as [? ?] end.
  repeat match goal with H : SHA256_RE _ = true |- _ => apply exactly_plain in H | H : ROUTINE_ID_RE _ = true |- _ => apply exactly_plain in H
    | H : BOOT_RE _ = true |- _ => apply exactly_plain in H | H : contains FAULTS _ = true |- _ => apply fault_plain in H
    | H : is_empty _ || WORKLOAD_RE _ = true |- _ => apply workload_plain in H | H : PLAN_DIGEST_RE _ = true |- _ => apply digest_plain in H end.
  split; unfold before_kept, after_kept;
    repeat (apply List.Forall_cons;
      [first [simple apply piece_apart | simple apply (apart_app _ "{"); [reflexivity|simple apply piece_apart] | simple apply apart_app; [simple apply piece_apart|reflexivity]];
       [vm_compute; reflexivity|first [exact I|assumption]]|]); apply List.Forall_nil.
Qed.
Lemma app_inj_last {A} (a b c x y z : list A) : length a = length x -> length c = length z -> a ++ b ++ c = x ++ y ++ z -> a = x /\ c = z.
Proof.
  intros Hl Hr H. apply app_inj_1 in H as [-> H]; [|done]. split; [done|]. by apply app_inj_2 in H as [_ ->].
Qed.
Lemma same_bytes c d : checked c = Ok c -> checked d = Ok d -> canonical (document c) = canonical (document d) ->
  before_kept c = before_kept d /\ after_kept c = after_kept d.
Proof.
  intros [Bc Ac]%scalars_plain [Bd Ad]%scalars_plain H. rewrite !canonical_document in H. apply (f_equal (split_on ",")) in H.
  rewrite !split_concat, !flat_map_app, !(flat_map_apart (before_kept _)), !(flat_map_apart (after_kept _)) in H by done.
  by apply app_inj_last in H.
Qed.
Lemma same_bytes_agree c d : checked c = Ok c -> checked d = Ok d -> canonical (document c) = canonical (document d) -> agree c d.
Proof.
  intros Hc Hd H. destruct (same_bytes _ _ Hc Hd H) as [Hb Ha].
  apply checked_fields in Hc as (_ & Hpc & (Hoc & Hcc)%operation_scalars & _), Hd as (_ & Hpd & (Hod & Hcd)%operation_scalars & _).
  assert (forall i, nth i (before_kept c) "" = nth i (before_kept d) "") as Bi by (intros; by rewrite Hb).
  assert (forall i, nth i (after_kept c) "" = nth i (after_kept d) "") as Ai by (intros; by rewrite Ha).
  split.
  - apply Nat2Z.inj. symmetry. apply int_inj. apply (piece_inj "step"). exact (Ai 1%nat).
  - symmetry. apply optional_inj; [done..|]. apply (piece_inj "operation_id"). exact (Bi 10%nat).
  - symmetry. apply optional_inj; [done..|]. apply (piece_inj "commitment"). exact (Bi 4%nat).
  - symmetry. apply flag_inj. apply (piece_inj "protection_lost"). exact (Bi 12%nat).
  - apply digest_plain in Hpc, Hpd. symmetry. apply quoted_inj; [done..|]. apply (piece_inj "plan"). exact (Bi 11%nat).
  - symmetry. apply flag_inj. apply (piece_inj "absent"). apply (string_app_tail "{"). exact (Bi 0%nat).
  - symmetry. apply flag_inj. apply (piece_inj "continued"). exact (Bi 5%nat).
Qed.
(** Whatever a sealed cursor is decoded to, it says the same of the run's progress. *)
Lemma decode_agrees c b d : checked c = Ok c -> decode (canonical (document c)) b = Ok d -> agree c d /\ checked d = Ok d /\ Cursor.binding d = b.
Proof. intros Hc (Hd & Hb & E)%decode_Ok. split; [|done]. by apply same_bytes_agree. Qed.
End Agreement.

(** ** What was sent, completed and proven *)
(** What verification saw of a held step. *)
Module Observed.
Record Observed : Type := mk {
  cursor : Cursor.Cursor;
  (** The effect its Action was reviewed with, and the journal's state of its operation. *)
  effect : option string;
  journal_state : option string;
  (** Whether its workload was proven stopped since, and what its verifier answered. *)
  workload_gone : bool;
  outcome : option Value
}.
End Observed.
(** The evidence that an operation had no effect: the journal settled it without one, its
    Action is read-only and Team classified its failure, or its verifier says so once the
    attempt cannot still be running. *)
Definition absent_by (o : Observed.Observed) (operation : string) : Prop :=
  let c := Observed.cursor o in
  Cursor.operation_id c = Some operation /\ contains ["policy"; "unquiesced"]%string (Cursor.fault c) = false
  /\ ((contains ABSENT_STATES (default ""%string (Observed.journal_state o)) = true /\ carried (Cursor.episode c) = false)
      \/ (Observed.effect o = Some "read_only"%string /\ contains TRUSTED_FAULTS (Cursor.fault c) = true)
      \/ (Observed.outcome o = Some (VString "not_occurred") /\ (Cursor.fault c <> ""%string \/ Observed.workload_gone o = true))).
Inductive Event : Type :=
| Sent (step : nat) (operation commitment : string)
| Completed (step : nat)
| LossSealed
| Judged (seen : Observed.Observed)
| Answered (step : nat)
| Resumed (step : nat).
(** A cursor past everything that was sent and completed and past nothing that was not
    answered; an absence it records was proven, and it knows of the run's continuation. *)
Definition reached (log : list Event) (c : Cursor.Cursor) : Prop :=
  (forall k op cm, Sent k op cm ∈ log -> (k < Cursor.step c)%nat \/ (k = Cursor.step c /\ Cursor.operation_id c = Some op /\ Cursor.commitment c = Some cm))
  /\ (forall k, Completed k ∈ log -> (k < Cursor.step c)%nat)
  /\ (Cursor.absent c = true -> exists o op, Judged o ∈ log /\ Cursor.operation_id c = Some op /\ absent_by o op)
  /\ (forall k, Resumed k ∈ log -> is_continued (Cursor.episode c) = true)
  /\ (forall k, (k < Cursor.step c)%nat -> Answered k ∈ log).
Definition loss_kept (log : list Event) (c : Cursor.Cursor) : Prop := LossSealed ∈ log -> Cursor.protection_lost c = true.
(** Cursors that say the same of the run's steps. *)
Definition same_progress (c d : Cursor.Cursor) : Prop :=
  Cursor.step d = Cursor.step c /\ Cursor.operation_id d = Cursor.operation_id c /\ Cursor.commitment d = Cursor.commitment c
  /\ (Cursor.absent d = true -> Cursor.absent c = true) /\ (is_continued (Cursor.episode c) = true -> is_continued (Cursor.episode d) = true).
Lemma agree_progress c d : agree c d -> same_progress c d.
Proof. intros []. split_and!; congruence. Qed.
Lemma reached_same log c d : same_progress c d -> reached log c -> reached log d.
Proof. intros (Es & Eo & Ec & Ha & He) (Hs & Hc & Hp & Hr & Hn). unfold reached. rewrite Es, Eo, Ec. split_and!; auto. intros k Hin. by eapply He, Hr. Qed.
(** A fact of a step that says nothing of the cursor. *)
Lemma reached_cons log c e : reached log c ->
  match e with
  | Sent k op cm => k = Cursor.step c /\ Cursor.operation_id c = Some op /\ Cursor.commitment c = Some cm
  | Completed k => (k < Cursor.step c)%nat
  | Resumed _ => is_continued (Cursor.episode c) = true
  | LossSealed | Judged _ | Answered _ => True
  end -> reached (e :: log) c.
Proof.
  intros (Hs & Hd & Hp & Hr & Hn) He. split_and!.
  - intros k op cm [<- | Hin]%elem_of_cons; [by right|by apply Hs].
  - intros k [<- | Hin]%elem_of_cons; [done|by apply Hd].
  - intros Ha. destruct (Hp Ha) as (o & op & Hin & ?). exists o, op. split; [by constructor|done].
  - intros k [<- | Hin]%elem_of_cons; [done|by eapply Hr].
  - intros k Hk. right. by apply Hn.
Qed.
(** Nothing but verdicts and answers: nothing was sent, completed, lost or resumed. *)
Definition silent (e : Event) : Prop := match e with Judged _ | Answered _ => True | _ => False end.
Definition quiet_log (log : list Event) : Prop := forall e, e ∈ log -> silent e.
Lemma quiet_nil : quiet_log [].
Proof. by intros e ?%elem_of_nil. Qed.
Lemma quiet_silent e log : silent e -> quiet_log log -> quiet_log (e :: log).
Proof. intros He Hq e' [-> | Hin]%elem_of_cons; [done|by apply Hq]. Qed.
Lemma quiet_not e log : quiet_log log -> ~ silent e -> e ∉ log.
Proof. intros Hq He Hin. by apply He, Hq. Qed.
Lemma reached_quiet log c : quiet_log log -> Cursor.absent c = false -> Cursor.step c = 0%nat -> reached log c.
Proof. intros Hq Ha Hs. split_and!; [intros ? ? ? Hin|intros ? Hin|congruence|intros ? Hin|intros k Hk; lia]; by destruct (Hq _ Hin). Qed.
Lemma reached_silent log c e : silent e -> reached log c -> reached (e :: log) c.
Proof. intros He Hr. apply reached_cons; [done|]. by destruct e. Qed.

Section Stores.
  Context {PF : Platform} {VO : Vocabulary} `{C : !Crypto} {L : CryptoLaws C} {F : Type} `{!System F} {FD : FullDraws F}.
  Abbreviation Store := (RoutineStore.RoutineStore F).
  Context (team : string) (snap : SnapshotOf).
  Abbreviation b := (Snapshot.binding snap).
  Abbreviation run := (Binding.run_id b).
  Context (Hb : binding_valid b = true).

Lemma run_named_ok : ROUTINE_ID_RE run = true.
Proof. unfold binding_valid in Hb. by apply andb_true_iff in Hb as [_ H]. Qed.
Definition team_file (name : string) (s : Store) : Path := team_dir s team ++ [name].
Definition cursor_path (s : Store) : Path := team_file (record_name run SealedCursor) s.
Definition recovery_path (s : Store) : Path := team_file (record_name run Recovery) s.
Definition incident_path (s : Store) : Path := team_file (record_name run Incident) s.
Definition cursor_view (s : Store) : stored (option string) := opened_view s (cursor_path s) (cursor_aad team b) SealedCursor.
Definition recovery_view (s : Store) : stored (option string) := opened_view s (recovery_path s) (recovery_aad team run) Recovery.
Definition incident_view (s : Store) : stored (option string) := opened_view s (incident_path s) (record_aad Incident team run) Incident.
(** Whatever an incident's evidence is read as, it names the run's binding. *)
Definition evidence_fits (payload : string) : Prop := forall e r, read_evidence payload run = Some e -> Evidence.recovery e = Some r -> Snapshot.binding r = b.
Definition incident_kept (s : Store) : Prop := file_of s (incident_path s) = None \/ exists payload, incident_view s = inr (Some payload) /\ evidence_fits payload.
(** The run's recovery snapshot is the one it sealed first. *)
Definition snapshot_kept (s : Store) : Prop := recovery_view s = inr (Some (Snapshot.sealed snap)).
(** A cursor of the run. *)
Definition of_the_run (c : Cursor.Cursor) : Prop := checked c = Ok c /\ Cursor.binding c = b /\ Cursor.plan c = plan_digest snap.
Definition sealed_as (log : list Event) (s : Store) (c : Cursor.Cursor) : Prop :=
  cursor_view s = inr (Some (canonical (document c))) /\ of_the_run c /\ reached log c /\ loss_kept log c /\ snapshot_kept s.
Record Kept (log : list Event) (s : Store) : Prop := {
  kept_ok : store_ok s;
  kept_recovery : file_of s (recovery_path s) = None \/ snapshot_kept s;
  kept_incident : incident_kept s;
  kept_cursor : (file_of s (cursor_path s) = None /\ quiet_log log) \/ exists c, sealed_as log s c
}.

Lemma cursor_plain s : temporary (cursor_path s) = false.
Proof. by apply run_not_temporary, run_named_ok. Qed.
Lemma recovery_plain s : temporary (recovery_path s) = false.
Proof. by apply run_not_temporary, run_named_ok. Qed.
Lemma incident_plain s : temporary (incident_path s) = false.
Proof. by apply run_not_temporary, run_named_ok. Qed.
Lemma records_apart kind kind' s : kind <> kind' -> team_file (record_name run kind) s <> team_file (record_name run kind') s.
Proof. intros Hk E. apply app_inj_2 in E as [_ E]; [|done]. injection E as E. unfold record_name in E. apply string_app_tail in E. by destruct kind, kind'. Qed.
Lemma team_file_fixed name s s' : fixed s s' -> team_file name s' = team_file name s.
Proof. intros (E & _). unfold team_file, team_dir. by rewrite E. Qed.
Lemma team_file_keyring name s : store_ok s -> team_file name s <> RoutineStore.keyring s.
Proof. intros H. by apply (lock_file_keyring (TeamLock.mk team 0) name s). Qed.
Lemma opened_same q aad kind (s s' : Store) x : fixed s s' -> key_kept s s' -> file_of s' q = file_of s q ->
  opened_view s q aad kind = inr (Some x) -> opened_view s' q aad kind = inr (Some x).
Proof.
  intros Hf Hk Hq. unfold opened_view. rewrite Hq. destruct (file_of s q); [|done].
  destruct (json_parse _); [|done]. cbn. destruct (admit_envelope _ _); [|done]. cbn. unfold key_of. destruct Hf as (_ & -> & _).
  destruct (file_of s (RoutineStore.keyring s)) as [key|] eqn:E; [|done]. unfold key_kept in Hk. rewrite E in Hk. by rewrite Hk.
Qed.
Lemma view_kept p q aad kind (s s' : Store) x : others_kept p s s' -> q <> p -> q <> RoutineStore.keyring s -> temporary q = false ->
  opened_view s q aad kind = inr (Some x) -> opened_view s' q aad kind = inr (Some x).
Proof. intros (Hf & _ & Hk & Hq) Hp Hr Ht. apply opened_same; [done..|]. by apply Hq. Qed.
(** An incident nothing touched is as it was. *)
Lemma incident_unmoved (s s' : Store) : fixed s s' -> key_kept s s' -> file_of s' (incident_path s) = file_of s (incident_path s) -> incident_kept s -> incident_kept s'.
Proof.
  intros Hf Hk Hq. unfold incident_kept, incident_view. assert (incident_path s' = incident_path s) as -> by by apply team_file_fixed.
  intros [Hn|(payload & Hv & He)]; [left; by rewrite Hq|right; exists payload; split; [|done]]. by apply (opened_same _ _ _ s).
Qed.
(** Whatever leaves the run's files alone keeps the invariant. *)
Lemma kept_elsewhere log p (s s' : Store) : others_kept p s s' -> p <> cursor_path s -> p <> recovery_path s -> p <> incident_path s -> Kept log s -> Kept log s'.
Proof.
  intros Ho Hc Hr Hi [Hok Hrec Hinc Hcur]. pose proof Ho as (Hf & Hok' & _ & Hq).
  assert (cursor_path s' = cursor_path s) as Ec by by apply team_file_fixed. assert (recovery_path s' = recovery_path s) as Er by by apply team_file_fixed.
  pose proof (team_file_keyring (record_name run SealedCursor) s Hok) as Kc. pose proof (team_file_keyring (record_name run Recovery) s Hok) as Kr.
  assert (snapshot_kept s -> snapshot_kept s') as Hsn.
  { unfold snapshot_kept, recovery_view. rewrite Er. apply (view_kept p); [done..|]. apply recovery_plain. }
  split; [done| | |].
  - destruct Hrec as [Hn|Hn]; [left|by right; apply Hsn]. rewrite Er, Hq; [done|by apply not_eq_sym|done|apply recovery_plain].
  - apply (incident_unmoved s); [done|apply Ho| |done]. apply Hq; [by apply not_eq_sym|by apply team_file_keyring|apply incident_plain].
  - destruct Hcur as [[Hn Hquiet]|(c & Hv & Hrun & Hre & Hl & Hs)].
    + left. rewrite Ec, Hq; [done|by apply not_eq_sym|done|apply cursor_plain].
    + right. exists c. split; [|split_and!; auto]. unfold cursor_view in *. rewrite Ec. apply (view_kept p _ _ _ s); [done|by apply not_eq_sym|done|apply cursor_plain|done].
Qed.
Lemma kept_still log (s s' : Store) : still s s' -> Kept log s -> Kept log s'.
Proof.
  intros Hs Hk. pose proof (kept_ok _ _ Hk) as Hok. apply (kept_elsewhere log (RoutineStore.keyring s) s s'); [by apply still_others| | | |done].
  - apply not_eq_sym. by apply team_file_keyring.
  - apply not_eq_sym. by apply team_file_keyring.
  - apply not_eq_sym. by apply team_file_keyring.
Qed.
Lemma view_none (s : Store) q aad kind : opened_view s q aad kind = inr None -> file_of s q = None.
Proof.
  unfold opened_view. destruct (file_of s q); [|done]. destruct (json_parse _); [|done]. cbn. destruct (admit_envelope _ _); [|done]. cbn.
  destruct (key_of s); [done|]. cbn. by destruct (open_envelope _ _ _).
Qed.
Lemma read_cursor_kept lock log (s s' : Store) r : read_cursor lock b s = (s', r) -> TeamLock.team lock = team -> Kept log s ->
  still s s' /\ match r with
                | inr (Some c') => exists c, sealed_as log s c /\ agree c c' /\ of_the_run c'
                | inr None => file_of s (cursor_path s) = None
                | inl _ => True
                end.
Proof.
  unfold read_cursor. intros H Ht [Hok _ _ Hcur]. rewrite then_run in H. unfold pass at 1, run_id_of in H. rewrite run_named_ok in H. rewrite then_run in H.
  destruct (sealed_read _ _ _ _ s) as [s1 found] eqn:E. apply sealed_read_view in E as [Hs Hv]; [|done].
  destruct found as [e|[payload|]]; [by injection H as <- <-| |].
  - unfold pass in H. injection H as <- <-. split; [done|]. destruct (decode payload b) as [c'|] eqn:Hd; [|done].
    destruct Hcur as [[Hn _]|(c & Hc & Hrun & Hre)]; unfold cursor_view, cursor_path, team_file, lock_file in *; rewrite Ht in Hv.
    + unfold opened_view in Hv. by rewrite Hn in Hv.
    + rewrite Hc in Hv. injection Hv as <-. pose proof Hrun as (Hch & Hbi & Hpl).
      destruct (decode_agrees _ _ _ Hch Hd) as (Ha & Hch' & Hb'). exists c. split; [done|]. split; [done|]. split_and!; [done..|]. by rewrite (agree_plan _ _ Ha).
  - unfold pass in H. injection H as <- <-. split; [done|]. apply view_none in Hv. unfold cursor_path, team_file. unfold lock_file in Hv. by rewrite Ht in Hv.
Qed.
Lemma encode_bytes c raw : encode c = Ok raw -> raw = canonical (document c) /\ 1 <= slen raw <= sealed_maximum SealedCursor.
Proof.
  unfold encode. intros H. inv_ok. match goal with H : checked c = Ok _ |- _ => pose proof H as Hch; apply checked_Ok in H as -> end. split; [done|].
  unfold checked, checked_within in Hch. inv_ok. match goal with H : (MAX_CURSOR_BYTES <? _) = false |- _ => apply Z.ltb_ge in H as Hm end.
  unfold encoded_bytes in Hm. subst raw. split; [|exact Hm]. rewrite canonical_document. unfold before_kept. cbn [app String.concat]. unfold slen. rewrite !length_string_app. change (String.length "{") with 1%nat. lia.
Qed.
Lemma seal_cursor_kept lock log c (s s' : Store) r : seal_cursor lock c s = (s', r) -> TeamLock.team lock = team ->
  of_the_run c -> reached log c -> loss_kept log c -> snapshot_kept s -> Kept log s ->
  Kept log s' /\ snapshot_kept s' /\ (r = inr tt -> sealed_as log s' c).
Proof.
  unfold seal_cursor. intros H Ht Hrun Hre Hl Hsn Hk. pose proof Hrun as (Hch & Hbi & Hpl). rewrite then_run in H. unfold pass at 1 in H.
  assert (encode c = Ok (canonical (document c))) as He by (unfold encode; by rewrite Hch). rewrite He in H. rewrite then_run in H. unfold pass, run_id_of in H.
  rewrite Hbi, run_named_ok, Ht in H. pose proof (kept_ok _ _ Hk) as Hok.
  apply sealed_write_view in H as [Ho Hv]; [|done|unfold lock_file; rewrite Ht; apply cursor_plain|exact (proj2 (encode_bytes _ _ He))].
  unfold lock_file in Ho, Hv. rewrite Ht in Ho, Hv. change (team_dir s team ++ [record_name run SealedCursor]) with (cursor_path s) in Ho, Hv.
  pose proof Ho as (Hf & Hok' & Hkk & Hq).
  assert (cursor_path s' = cursor_path s) as Ec by by apply team_file_fixed. assert (recovery_path s' = recovery_path s) as Er by by apply team_file_fixed.
  assert (recovery_path s <> cursor_path s) as Hne by by apply records_apart.
  assert (snapshot_kept s') as Hsn'.
  { unfold snapshot_kept, recovery_view in *. rewrite Er. apply (view_kept (cursor_path s) _ _ _ s); [done..|by apply team_file_keyring|apply recovery_plain|done]. }
  assert (opened_view s' (cursor_path s) (cursor_aad team b) SealedCursor = inr (Some (canonical (document c))) -> sealed_as log s' c) as Hnew.
  { intros Hv'. split; [unfold cursor_view; by rewrite Ec|]. by split_and!. }
  split; [|split; [done|intros ->; by apply Hnew]]. split; [done|by right| |].
  { apply (incident_unmoved s); [done..| |by apply kept_incident in Hk]. apply Hq; [by apply records_apart|by apply team_file_keyring|apply incident_plain]. }
  destruct r as [e|[]]; [|right; exists c; by apply Hnew]. destruct Hv as [Hsame|Hv]; [|right; exists c; by apply Hnew].
  destruct (kept_cursor _ _ Hk) as [[Hn Hquiet]|(c0 & Hv0 & Hr0)]; [left; by rewrite Ec, Hsame|].
  right. exists c0. split; [|destruct Hr0 as (? & ? & ? & _); by split_and!]. unfold cursor_view in *. rewrite Ec. by apply (opened_same _ _ _ s).
Qed.
Lemma snapshot_still (s s' : Store) : still s s' -> store_ok s -> snapshot_kept s -> snapshot_kept s'.
Proof.
  intros Hs Hok. pose proof (still_others (cursor_path s) _ _ Hs Hok) as (Hf & _ & Hk & _).
  unfold snapshot_kept, recovery_view. assert (recovery_path s' = recovery_path s) as -> by by apply team_file_fixed. apply opened_same; [done..|].
  apply still_file; [done|apply recovery_plain].
Qed.
Lemma sealed_file log (s : Store) c : sealed_as log s c -> file_of s (cursor_path s) <> None.
Proof. intros (Hv & _) Hn. unfold cursor_view, opened_view in Hv. by rewrite Hn in Hv. Qed.
Lemma absent_quiet log (s : Store) : Kept log s -> file_of s (cursor_path s) = None -> quiet_log log.
Proof. intros Hk Hn. destruct (kept_cursor _ _ Hk) as [[_ H]|(c & H%sealed_file)]; done. Qed.
Lemma lose_run c d : lose_protection c = Ok d -> of_the_run c -> of_the_run d /\ same_progress c d /\ Cursor.protection_lost d = true.
Proof.
  intros H (Hc & Hbi & Hp). unfold lose_protection in H. pose proof (checked_Ok _ _ H) as ->. split; [by split_and!|]. by split_and!.
Qed.
(** Sealing a cursor past everything sent: a loss that was sealed stays sealed. *)
Lemma put_cursor_kept lock log c (s s' : Store) r : put_cursor lock c s = (s', r) -> TeamLock.team lock = team ->
  of_the_run c -> reached log c -> snapshot_kept s -> Kept log s ->
  Kept log s' /\ snapshot_kept s' /\ (r = inr tt -> exists c2, sealed_as log s' c2 /\ same_progress c c2).
Proof.
  unfold put_cursor. intros H Ht Hrun Hre Hsn Hk. assert (Cursor.binding c = b) as Hbi by apply Hrun.
  assert (forall s1 s2 r1, still s s1 -> seal_cursor lock c s1 = (s2, r1) -> loss_kept log c ->
    Kept log s2 /\ snapshot_kept s2 /\ (r1 = inr tt -> exists c2, sealed_as log s2 c2 /\ same_progress c c2)) as Hplain.
  { intros s1 s2 r1 Hs1 Hseal Hl. pose proof (snapshot_still _ _ Hs1 (kept_ok _ _ Hk) Hsn) as Hsn1. pose proof (kept_still _ _ _ Hs1 Hk) as Hk1.
    destruct (seal_cursor_kept _ log _ _ _ _ Hseal) as (H1 & H2 & H3); try done. split_and!; [done..|]. intros E. exists c. split; [by apply H3|done]. }
  rewrite then_run in H. destruct (Cursor.protection_lost c) eqn:Hlost.
  - unfold pass in H. cbn in H. apply (Hplain s); [reflexivity|done|]. by intros _.
  - destruct (read_cursor lock (Cursor.binding c) s) as [s1 found] eqn:E. rewrite Hbi in E. apply (read_cursor_kept _ log) in E as [Hs1 Hf]; [|done..].
    pose proof (snapshot_still _ _ Hs1 (kept_ok _ _ Hk) Hsn) as Hsn1. pose proof (kept_still _ _ _ Hs1 Hk) as Hk1.
    destruct found as [e|[sealed|]].
    + injection H as <- <-. by split_and!.
    + destruct Hf as (c0 & (Hv0 & Hr0 & Hre0 & Hl0 & _) & Ha & _). destruct (Cursor.protection_lost sealed) eqn:Hls.
      * rewrite then_run in H. unfold pass at 1, lost_cursor in H. destruct (lose_protection c) as [lost|] eqn:El; [|injection H as <- <-; by split_and!].
        destruct (lose_run _ _ El Hrun) as (Hrl & Hpl & Hll).
        destruct (seal_cursor_kept _ log _ _ _ _ H) as (H1 & H2 & H3); try done; [by eapply reached_same|by intros _|].
        split_and!; [done..|]. intros Er. exists lost. split; [by apply H3|done].
      * apply (Hplain s1); [done..|]. intros Hin. specialize (Hl0 Hin). by rewrite (agree_lost _ _ Ha), Hl0 in Hls.
    + apply (Hplain s1); [done..|]. intros Hin. destruct (quiet_not LossSealed log (absent_quiet _ _ Hk Hf) (fun H => H) Hin).
Qed.
Lemma lose_cursor_kept lock log (s s' : Store) r : lose_cursor lock b s = (s', r) -> TeamLock.team lock = team -> Kept log s ->
  Kept log s' /\ (snapshot_kept s -> snapshot_kept s').
Proof.
  unfold lose_cursor. intros H Ht Hk. rewrite then_run in H. destruct (read_cursor lock b s) as [s1 found] eqn:E.
  apply (read_cursor_kept _ log) in E as [Hs1 Hf]; [|done..]. pose proof (kept_still _ _ _ Hs1 Hk) as Hk1.
  pose proof (snapshot_still _ _ Hs1 (kept_ok _ _ Hk)) as Hsn1.
  destruct found as [e|[sealed|]]; [by injection H as <- <-| |by injection H as <- <-].
  destruct Hf as (c0 & (Hv0 & Hr0 & Hre0 & Hl0 & Hsn) & Ha & Hrun). destruct (Cursor.protection_lost sealed) eqn:Hls; [by injection H as <- <-|].
  rewrite then_run in H. unfold pass at 1, lost_cursor in H. destruct (lose_protection sealed) as [lost|] eqn:El; [|by injection H as <- <-].
  destruct (lose_run _ _ El Hrun) as (Hrl & Hpl & Hll).
  destruct (seal_cursor_kept _ log _ _ _ _ H) as (H1 & H2 & _); try done; [|by intros _|by apply Hsn1].
  eapply reached_same; [exact Hpl|]. eapply reached_same; [apply agree_progress; exact Ha|done].
Qed.
(** What keeps the invariant and the run's snapshot. *)
Definition along (log : list Event) (s s' : Store) : Prop :=
  Kept log s -> Kept log s' /\ fixed s s' /\ (snapshot_kept s -> snapshot_kept s').
#[global] Instance along_refl log : Reflexive (along log).
Proof. by intros s Hk. Qed.
#[global] Instance along_trans log : Transitive (along log).
Proof. intros s s1 s2 H1 H2 Hk. destruct (H1 Hk) as (Hk1 & Hf1 & Hs1). destruct (H2 Hk1) as (Hk2 & Hf2 & Hs2). split_and!; [done|by transitivity s1|auto]. Qed.
Lemma still_along log (s s' : Store) : still s s' -> along log s s'.
Proof. intros Hs Hk. split; [by eapply kept_still|]. split; [apply Hs|]. apply snapshot_still; [done|by eapply kept_ok]. Qed.
Lemma others_along log p (s s' : Store) : others_kept p s s' -> p <> cursor_path s -> p <> recovery_path s -> p <> incident_path s -> along log s s'.
Proof.
  intros Ho Hc Hr Hi Hk. split; [by eapply kept_elsewhere|]. split; [apply Ho|]. unfold snapshot_kept, recovery_view. pose proof Ho as (Hf & _).
  assert (recovery_path s' = recovery_path s) as -> by by apply team_file_fixed.
  apply (view_kept p); [done|by apply not_eq_sym|apply team_file_keyring; by eapply kept_ok|apply recovery_plain].
Qed.
Lemma record_name_inj r r' kind kind' : ROUTINE_ID_RE r = true -> ROUTINE_ID_RE r' = true -> record_name r kind = record_name r' kind' -> r = r' /\ kind = kind'.
Proof.
  intros [Hl%Z.eqb_eq _]%andb_true_iff [Hl'%Z.eqb_eq _]%andb_true_iff H. unfold record_name in H.
  assert (r = r') as ->.
  { assert (String.length r = String.length r') as Hlen by (unfold slen in *; lia). clear Hl Hl'. revert r' Hlen H. induction r as [|x r IH]; intros [|y r'] Hlen H; try done.
    injection H as -> H. f_equal. apply IH; [by injection Hlen|done]. }
  apply string_app_tail in H. split; [done|]. by destruct kind, kind'.
Qed.
Lemma state_file_apart lock (s : Store) : TeamLock.team lock = team -> state_path lock s <> cursor_path s /\ state_path lock s <> recovery_path s /\ state_path lock s <> incident_path s.
Proof.
  intros Ht. unfold state_path, lock_file, cursor_path, recovery_path, incident_path, team_file. rewrite Ht.
  assert (forall kind, record_name run kind <> "state.json"%string) as Hn.
  { intros kind E. pose proof run_named_ok as [Hl%Z.eqb_eq _]%andb_true_iff. apply (f_equal String.length) in E. unfold record_name in E. rewrite length_string_app in E. unfold slen in Hl. cbn [String.length] in E. lia. }
  split_and!; intros E; apply app_inj_2 in E as [_ E]; try done; injection E as E; symmetry in E; by apply Hn in E.
Qed.
Lemma load_along log lock (s : Store) : along log s (fst (store_load lock s)).
Proof. intros Hk. destruct (store_load lock s) as [s' r] eqn:E. apply load_shows in E as [Hs _]; [|by eapply kept_ok]. by apply still_along. Qed.
Lemma save_along log lock st (s : Store) : TeamLock.team lock = team -> along log s (fst (save lock st s)).
Proof.
  intros Ht Hk. destruct (save lock st s) as [s' r] eqn:E. pose proof (kept_ok _ _ Hk) as Hok. cbn [fst].
  destruct (save_lands _ _ _ _ _ E Hok) as [[Hs _]|[Hput _]]; [by apply still_along|]. destruct (state_file_apart lock s Ht) as (Hc & Hr & Hi).
  destruct (put_others _ _ _ _ Hput Hok) as [Ho _]; [by apply lock_file_keyring|]. by apply (others_along _ (state_path lock s)).
Qed.
Lemma cursors_along log lock (s : Store) : along log s (fst (store_cursors lock s)).
Proof.
  apply still_along. unfold store_cursors, sealed_names. rewrite then_run. unfold look at 1. rewrite then_run. unfold on_disk_or.
  destruct (read_dir _ _) as [d r] eqn:E. assert (quiet (RoutineStore.disk s) d) as Hq.
  { replace d with (fst (read_dir (team_dir s (TeamLock.team lock)) (RoutineStore.disk s))) by by rewrite E. apply quietly_call_or, quietly_reads. }
  destruct r; cbn [fst pass]; (split; [done|]; split; [exact Hq|apply store_disk_ok]).
Qed.
Lemma digest_along log tm bi step material (s : Store) : along log s (fst (output_digest tm bi step material s)).
Proof.
  intros Hk. pose proof (kept_ok _ _ Hk) as Hok. destruct (output_digest tm bi step material s) as [s' r'] eqn:Hd. cbn [fst].
  unfold output_digest in Hd. rewrite then_run in Hd. unfold pass at 1 in Hd. destruct (team_id_of tm); [injection Hd as <- <-; by apply along_refl|]. rewrite then_run in Hd.
  destruct (store_key true s) as [s1 r] eqn:E. assert (along log s s1) as Ha.
  { intros _. assert (RoutineStore.keyring s <> cursor_path s /\ RoutineStore.keyring s <> recovery_path s /\ RoutineStore.keyring s <> incident_path s) as (Kc & Kr & Ki) by (split_and!; apply not_eq_sym; by apply team_file_keyring).
    destruct (key_create _ _ _ E Hok) as [(Hs & _)|(Hn & key & _ & Hput & _)]; [by apply still_along|].
    apply (others_along log (RoutineStore.keyring s)); [|done..]. pose proof Hput as (Hf & (_ & _ & Hq) & Ho). split; [done|]. split; [auto|]. split; [by intros ?|]. intros q _ Hqk Htq. by apply Hq. }
  destruct r; injection Hd as <- <-; by apply Ha.
Qed.
(** *** The calls on the store a run makes *)
Lemma put_cursor_along lock log c (s : Store) : TeamLock.team lock = team -> of_the_run c -> reached log c -> snapshot_kept s -> along log s (fst (put_cursor lock c s)).
Proof.
  intros Ht Hrun Hre Hsn Hk. destruct (put_cursor lock c s) as [s' r] eqn:E. pose proof (steadily_run _ _ _ _ (steadily_put_cursor lock c) E) as [Hf _].
  destruct (put_cursor_kept _ log _ _ _ _ E) as (H1 & H2 & _); try done.
Qed.
Lemma record_else lock run' kind' (s : Store) : TeamLock.team lock = team -> ROUTINE_ID_RE run' = true -> run' <> run ->
  lock_file lock (record_name run' kind') s <> cursor_path s /\ lock_file lock (record_name run' kind') s <> recovery_path s
  /\ lock_file lock (record_name run' kind') s <> incident_path s.
Proof.
  intros Ht Hr Hne. unfold lock_file, cursor_path, recovery_path, incident_path, team_file. rewrite Ht.
  split_and!; intros E; apply app_inj_2 in E as [_ E]; try done; injection E as E; apply record_name_inj in E as [E _]; try done; apply run_named_ok.
Qed.
Lemma seal_other lock log c (s : Store) : TeamLock.team lock = team -> Binding.run_id (Cursor.binding c) <> run -> along log s (fst (seal_cursor lock c s)).
Proof.
  intros Ht Hne Hk. destruct (seal_cursor lock c s) as [s' r] eqn:E. cbn [fst]. pose proof (kept_ok _ _ Hk) as Hok. unfold seal_cursor in E. rewrite then_run in E. unfold pass at 1 in E.
  destruct (encode c) as [payload|] eqn:He; [|injection E as <- <-; by apply along_refl]. rewrite then_run in E. unfold pass, run_id_of in E.
  destruct (ROUTINE_ID_RE _) eqn:Hr; [|injection E as <- <-; by apply along_refl].
  apply sealed_write_view in E as [Ho _]; [|done|by apply run_not_temporary|exact (proj2 (encode_bytes _ _ He))].
  destruct (record_else lock _ SealedCursor s Ht Hr Hne) as (Hc & Hrp & Hi). by apply (others_along log _ _ _ Ho).
Qed.
(** Marking the loss of any run of the Team. *)
Lemma lose_cursor_along lock log bi (s : Store) : TeamLock.team lock = team -> bi = b \/ Binding.run_id bi <> run -> along log s (fst (lose_cursor lock bi s)).
Proof.
  intros Ht [-> | Hne] Hk; destruct (lose_cursor lock _ s) as [s' r] eqn:E; pose proof (steadily_run _ _ _ _ (steadily_lose_cursor _ _) E) as [Hf _]; cbn [fst].
  - by destruct (lose_cursor_kept _ log _ _ _ E Ht Hk).
  - unfold lose_cursor in E. rewrite then_run in E. destruct (read_cursor lock bi s) as [s1 found] eqn:Er.
    pose proof (read_cursor_still _ _ _ _ _ Er (kept_ok _ _ Hk)) as Hs. pose proof (still_along log _ _ Hs) as Ha.
    destruct found as [e|[sealed|]]; [injection E as <- <-; by apply Ha| |injection E as <- <-; by apply Ha].
    destruct (Cursor.protection_lost sealed); [injection E as <- <-; by apply Ha|]. rewrite then_run in E. unfold pass at 1, lost_cursor in E.
    destruct (lose_protection sealed) as [lost|] eqn:El; [|injection E as <- <-; by apply Ha].
    replace s' with (fst (seal_cursor lock lost s1)) by by rewrite E. refine (transitivity Ha (seal_other lock log lost s1 Ht _) Hk).
    unfold lose_protection in El. rewrite (checked_Ok _ _ El). change (Binding.run_id (Cursor.binding sealed) <> run).
    assert (Cursor.binding sealed = bi) as ->; [|done]. unfold read_cursor in Er. rewrite then_run in Er. destruct (pass _ s) as [? [|?]]; [by injection Er|]. rewrite then_run in Er.
    destruct (sealed_read _ _ _ _ _) as [? [|[payload|]]]; [by injection Er| |by injection Er]. unfold pass in Er. destruct (decode payload bi) as [c|] eqn:Hd; [|by injection Er].
    injection Er as _ <-. by apply decode_Ok in Hd as (_ & ? & _).
Qed.
Lemma read_record_along kind lock id log (s : Store) : along log s (fst (read_record kind lock id s)).
Proof. intros Hk. destruct (read_record kind lock id s) as [s' r] eqn:E. apply read_record_view in E as [Hs _]; [|by eapply kept_ok]. by apply still_along. Qed.
Lemma read_cursor_along lock bi log (s : Store) : along log s (fst (read_cursor lock bi s)).
Proof. intros Hk. destruct (read_cursor lock bi s) as [s' r] eqn:E. apply read_cursor_still in E; [|by eapply kept_ok]. by apply still_along. Qed.
Lemma recovery_view_record lock (s : Store) : TeamLock.team lock = team -> record_view Recovery lock run s = recovery_view s.
Proof. intros Ht. unfold record_view, record_path, recovery_view, recovery_path, team_file, lock_file. by rewrite Ht. Qed.
Lemma read_recovery_ours lock log (s s' : Store) payload : read_recovery lock run s = (s', inr (Some payload)) -> TeamLock.team lock = team -> Kept log s ->
  payload = Snapshot.sealed snap.
Proof.
  intros E Ht Hk. apply read_record_view in E as [_ Hv]; [|by eapply kept_ok]. rewrite recovery_view_record in Hv by done.
  destruct (kept_recovery _ _ Hk) as [Hn|Hn]; [unfold recovery_view, opened_view in Hv; by rewrite Hn in Hv|]. unfold snapshot_kept in Hn. rewrite Hv in Hn. by injection Hn.
Qed.
Lemma unwritten log (s : Store) : Kept log s -> file_of s (recovery_path s) = None -> file_of s (cursor_path s) = None /\ quiet_log log.
Proof.
  intros Hk Hn. destruct (kept_cursor _ _ Hk) as [H|(c & _ & _ & _ & _ & Hs)]; [done|]. unfold snapshot_kept, recovery_view, opened_view in Hs. by rewrite Hn in Hs.
Qed.
(** The snapshot is sealed once, before the first cursor. *)
Lemma put_recovery_kept lock log (s s' : Store) r : put_recovery lock run (Snapshot.sealed snap) s = (s', r) -> TeamLock.team lock = team -> Kept log s ->
  Kept log s' /\ fixed s s' /\ (snapshot_kept s -> snapshot_kept s') /\ (r = inr tt -> snapshot_kept s').
Proof.
  intros E Ht Hk. pose proof (kept_ok _ _ Hk) as Hok. pose proof (steadily_run _ _ _ _ (steadily_put_record _ _ _ _) E) as [Hf _].
  unfold put_recovery, put_record in E. rewrite then_run in E. unfold pass at 1, run_id_of in E. rewrite run_named_ok in E.
  destruct (negb _) eqn:Hlen; [injection E as <- <-; by split_and!|]. apply negb_false_iff, andb_true_iff in Hlen as [Hl1%Z.leb_le Hl2%Z.leb_le].
  unfold sealed_write in E. rewrite then_run in E. unfold writable in E. destruct (RoutineStore.closed s || _); [injection E as <- <-; by split_and!|]. rewrite then_run in E.
  destruct (sealed_read _ _ _ _ s) as [s1 found] eqn:Er. apply sealed_read_view in Er as [Hs Hv]; [|done].
  assert (lock_file lock (record_name run Recovery) s = recovery_path s) as Ep by (unfold lock_file, recovery_path, team_file; by rewrite Ht).
  rewrite Ep, Ht in Hv. change (opened_view s (recovery_path s) (record_aad Recovery team run) Recovery) with (recovery_view s) in Hv.
  destruct (still_along log _ _ Hs Hk) as (Hk1 & Hf1 & Hsn1).
  destruct found as [e|[sealed|]]; [injection E as <- <-; by split_and!| |].
  - unfold pass in E. injection E as <- <-. split_and!; [done..|]. intros Hr. apply Hsn1. unfold snapshot_kept. rewrite Hv. destruct (sealed =s _) eqn:Es; [|done]. apply seqb_true in Es as ->. done.
  - apply view_none in Hv. pose proof (kept_ok _ _ Hk1) as Hok1. assert (recovery_path s1 = recovery_path s) as Ep1 by by apply team_file_fixed.
    assert (file_of s1 (recovery_path s1) = None) as Hn1 by (rewrite Ep1, (still_file _ _ _ Hs); [done|apply recovery_plain]).
    destruct (unwritten _ _ Hk1 Hn1) as [Hcn Hquiet].
    assert (lock_file lock (record_name run Recovery) s1 = recovery_path s1) as Ep1' by (unfold lock_file, recovery_path, team_file; by rewrite Ht).
    apply (seal_new_view _ _ _ _ Recovery) in E as [Ho Hv']; [|done|rewrite Ep1'; apply recovery_plain|done]. rewrite Ep1', Ht in *. pose proof Ho as (Hf2 & Hok2 & _ & Hq).
    assert (recovery_path s' = recovery_path s1) as Er' by by apply team_file_fixed. assert (cursor_path s' = cursor_path s1) as Ec' by by apply team_file_fixed.
    assert (recovery_path s1 <> cursor_path s1) as Hne by by apply records_apart.
    assert (opened_view s' (recovery_path s1) (record_aad Recovery team run) Recovery = inr (Some (Snapshot.sealed snap)) -> snapshot_kept s') as Hnew.
    { intros H. unfold snapshot_kept, recovery_view. by rewrite Er'. }
    assert (file_of s' (cursor_path s') = None) as Hcn' by (rewrite Ec', Hq; [done|by apply not_eq_sym|by apply team_file_keyring|apply cursor_plain]).
    split_and!; [|done| |].
    + split; [done| | |by left]; [|apply (incident_unmoved s1); [done|apply Ho| |by apply kept_incident in Hk1]; apply Hq; [by apply records_apart|by apply team_file_keyring|apply incident_plain]]. destruct r as [e|[]]; [destruct Hv' as [Hsame|Hnew']; [left; by rewrite Er', Hsame|right; by apply Hnew]|right; by apply Hnew].
    + intros Hsn. specialize (Hsn1 Hsn). unfold snapshot_kept, recovery_view, opened_view in Hsn1. by rewrite Hn1 in Hsn1.
    + intros ->. by apply Hnew.
Qed.
End Stores.

(** ** Records leave the run's files alone *)
Section Spared.
  Context {PF : Platform} {VO : Vocabulary} `{C : !Crypto} {F : Type} `{!System F}.
  Context (keep : Path -> Prop).
Definition spares {A} (m : io (F := F) A) : Prop := forall d q, keep q -> temporary q = false -> file_at (fst (m d)) q = file_at d q.
Lemma spares_quietly {A} (m : io A) : quietly m -> spares m.
Proof. intros H d q _ Hq. by apply (H d). Qed.
Lemma spares_bind {A B} (m : io A) (f : A -> io B) : spares m -> (forall a, spares (f a)) -> spares (m ≫= f).
Proof. intros Hm Hf d q Hk Hq. unfold mbind, io_bind. destruct (m d) as [d1 a] eqn:E. rewrite (Hf a d1 q Hk Hq). specialize (Hm d q Hk Hq). by rewrite E in Hm. Qed.
Lemma spares_try {Er A B} (m : io (Er + A)) (f : A -> io (Er + B)) : spares m -> (forall a, spares (f a)) -> spares (try m f).
Proof. intros Hm Hf. apply spares_bind; [done|]. intros [e|a]; [by apply spares_quietly, quietly_ret|apply Hf]. Qed.
Lemma spares_map_err {Er Er' A} (f : Er -> Er') (m : io (Er + A)) : spares m -> spares (map_err f m).
Proof. intros Hm d q Hk Hq. rewrite map_err_run. specialize (Hm d q Hk Hq). destruct (m d) as [d1 [|]]; exact Hm. Qed.
Lemma spares_write p payload : ~ keep p -> temporary p = false -> spares (write_private p payload).
Proof.
  intros Hp Ht d q Hk Hq. destruct (write_private p payload d) as [d' r] eqn:E. apply write_lands in E; [|done]. cbn [fst].
  assert (q <> p) as Hne by (intros ->; by apply Hp). destruct r; [destruct E as [[_ E]|(_ & _ & E)]|destruct E as (_ & _ & E)]; auto.
Qed.
Lemma spares_remove p : ~ keep p -> spares (remove_file p).
Proof.
  intros Hp d q Hk Hq. destruct (remove_file p d) as [d' r] eqn:E. apply remove_file_removes in E. cbn [fst].
  assert (q <> p) as Hne by (intros ->; by apply Hp). destruct r; [destruct E as [_ E]|destruct E as (_ & _ & E)]; auto.
Qed.
Lemma spares_read p maximum : spares (read_private p maximum).
Proof. intros d q _ Hq. destruct (read_private p maximum d) as [d' r] eqn:E. apply read_private_shows in E as [U _]. by apply (unmoved_quiet _ _ U). Qed.
Lemma quietly_draw {A} (f : F -> F * A) : quietly (draw f).
Proof. intros d. unfold draw. destruct (f _) as [x a] eqn:E. cbn. by split. Qed.
Lemma spares_key p create : ~ keep p -> temporary p = false -> spares (load_key p create).
Proof.
  intros Hp Ht. unfold load_key. apply spares_try; [apply spares_read|]. intros [key|]; [by apply spares_quietly, quietly_ret|].
  destruct create; [|by apply spares_quietly, quietly_ret]. apply spares_bind; [apply spares_quietly, quietly_draw|]. intros [key|]; [|by apply spares_quietly, quietly_ret].
  apply spares_try; [by apply spares_write|]. intros _. by apply spares_quietly, quietly_ret.
Qed.
Context (st : DiagnosticStore) (Hkey : ~ keep (DiagnosticStore.keyring st)) (Htmp : temporary (DiagnosticStore.keyring st) = false).
Context (Hdir : forall team name, ~ keep (diagnostics_dir st team ++ [name])).
Lemma spares_named directory names : spares (entries_named directory names).
Proof.
  apply spares_quietly. induction names as [|name names IH]; cbn [entries_named]; [apply quietly_ret|]. destruct (is_some _); [|done].
  apply quietly_try; [apply quietly_map_err, quietly_metadata|]. intros node. case_match; [apply quietly_ret|]. apply quietly_try; [done|]. intros found. apply quietly_ret.
Qed.
Lemma spares_entries directory : spares (entries directory).
Proof.
  unfold entries. apply spares_try; [apply spares_map_err, spares_quietly, quietly_call_or, quietly_reads|]. intros [listed|]; [|apply spares_quietly, quietly_ret].
  apply spares_try; [apply spares_named|]. intros found. apply spares_quietly, quietly_ret.
Qed.
Lemma spares_unlink team name : spares (unlink (diagnostics_dir st team ++ [name])).
Proof. apply spares_map_err, spares_remove, Hdir. Qed.
Lemma spares_room team recorded_at size replaced : spares (make_room st (diagnostics_dir st team) recorded_at size replaced).
Proof.
  unfold make_room. apply spares_try; [apply spares_entries|]. intros found. apply spares_try.
  - induction found as [|entry found IH]; cbn [unlink_spent]; [apply spares_quietly, quietly_ret|]. destruct (_ || _).
    + apply spares_try; [apply spares_unlink|by intros _].
    + apply spares_try; [done|]. intros kept. apply spares_quietly, quietly_ret.
  - intros kept. generalize (zsum (map Body.size kept)). induction kept as [|entry kept IH]; intros total; cbn [unlink_oldest]; [apply spares_quietly, quietly_ret|].
    destruct (_ <=? _); [apply spares_quietly, quietly_ret|]. apply spares_try; [apply spares_unlink|]. intros _. apply IH.
Qed.
Lemma spares_seal team incarnation named document protected replaced : temporary (diagnostics_dir st team ++ [Named.name named]) = false ->
  spares (seal_body st team incarnation named document protected replaced).
Proof.
  intros Hn. unfold seal_body. destruct (_ <? _); [apply spares_quietly, quietly_ret|]. destruct (holds_protected _ _); [apply spares_quietly, quietly_ret|].
  apply spares_try; [by apply spares_map_err, spares_key|]. intros key. apply spares_try.
  { apply spares_quietly, quietly_bind; [apply quietly_draw|]. intros x. apply quietly_ret. }
  intros sealed. apply spares_try.
  { apply spares_quietly, quietly_bind; [apply quietly_reads|]. intros uid. apply quietly_map_err, quietly_ensure. }
  intros _. apply spares_try; [apply spares_room|]. intros _. apply spares_map_err, spares_write; [apply Hdir|done].
Qed.
Lemma pretty_begins (z : Z) : exists a s, pretty z = String a s /\ a <> "."%char.
Proof.
  destruct (pretty z) as [|a s] eqn:E.
  - destruct z as [|p|p]; [done| |done]. destruct (number_name (Z.pos p) ltac:(lia)) as (_ & _ & Hl & _). rewrite E in Hl. unfold slen in Hl. cbn in Hl. lia.
  - exists a, s. split; [done|]. intros ->. destruct z as [|p|p]; [done| |done]. destruct (number_name (Z.pos p) ltac:(lia)) as (Hd & _). rewrite E in Hd. done.
Qed.
Lemma pretty_lasting (z : Z) rest directory : temporary (directory ++ [(pretty z +:+ rest)]) = false.
Proof. rewrite temporary_last. destruct (pretty_begins z) as (a & s & -> & Ha). change (String a s +:+ rest) with (String a (s +:+ rest)). destruct a as [[] [] [] [] [] [] [] []]; done. Qed.
Lemma spares_record team incarnation d protected : spares (Diagnostics.record st team incarnation d protected).
Proof.
  unfold Diagnostics.record. apply spares_try; [apply spares_quietly, quietly_ret|]. intros tm. apply spares_try; [apply spares_quietly, quietly_ret|]. intros inc.
  destruct (_ || _); [apply spares_quietly, quietly_ret|]. apply spares_seal. apply pretty_lasting.
Qed.
Lemma spares_record_step team incarnation r protected : spares (record_step st team incarnation r protected).
Proof.
  unfold record_step. apply spares_try; [apply spares_quietly, quietly_ret|]. intros tm. apply spares_try; [apply spares_quietly, quietly_ret|]. intros inc.
  destruct (negb _); [apply spares_quietly, quietly_ret|]. apply spares_try; [apply spares_entries|]. intros found. apply spares_seal. apply pretty_lasting.
Qed.
Lemma spares_record_run team incarnation r : spares (record_run st team incarnation r).
Proof.
  unfold record_run. apply spares_try; [apply spares_quietly, quietly_ret|]. intros tm. apply spares_try; [apply spares_quietly, quietly_ret|]. intros inc.
  destruct (negb _); [apply spares_quietly, quietly_ret|]. apply spares_seal. apply pretty_lasting.
Qed.
End Spared.

(** ** The service keeps the run's files *)
Lemma read_snapshot_run {PF : Platform} {VO : Vocabulary} v run_id r : read_snapshot v run_id = Some r -> Binding.run_id (Snapshot.binding r) = run_id.
Proof.
  unfold read_snapshot. intros H. repeat (apply bind_Some in H as (? & ? & H)). case_match; [|done]. injection H as <-. cbn.
  match goal with E : _ && _ = true |- _ => rewrite !andb_true_iff in E; destruct E as [[[_ E] _] _]; by apply seqb_true in E end.
Qed.
Lemma read_sealed_run {PF : Platform} {VO : Vocabulary} payload run_id r : read_sealed payload run_id = Some r -> Binding.run_id (Snapshot.binding r) = run_id.
Proof. unfold read_sealed. intros H. apply bind_Some in H as (v & _ & H). repeat case_match; try done. by apply read_snapshot_run in H. Qed.
(** A snapshot the strict reader reads, also inside an incident's evidence. *)
Definition readable_snapshot (snap : SnapshotOf) : Prop :=
  let v := object (("version"%string, int INCIDENT_VERSION) :: Snapshot.document snap) in
  admissible v = true /\ doubles v /\ height v < Strict.MAX_DEPTH.
(** The same binding, name and plan, its members in order. *)
Definition same_snapshot (snap r : SnapshotOf) : Prop :=
  Snapshot.binding r = Snapshot.binding snap /\ Snapshot.name r = Snapshot.name snap /\ Snapshot.plan r = ordered CANONICAL (Snapshot.plan snap).
Lemma ordered_snapshot snap : ordered CANONICAL (object (Snapshot.document snap)) =
  VObject [("binding", VArray [text (Binding.incarnation (Snapshot.binding snap)); text (Binding.routine_id (Snapshot.binding snap));
                int (Binding.revision (Snapshot.binding snap)); text (Binding.run_id (Snapshot.binding snap))]);
           ("name", text (Snapshot.name snap)); ("plan", ordered CANONICAL (Snapshot.plan snap))]%string.
Proof. reflexivity. Qed.
Lemma read_snapshot_back {PF : Platform} {VO : Vocabulary} snap run_id r : read_snapshot (ordered CANONICAL (object (Snapshot.document snap))) run_id = Some r -> same_snapshot snap r.
Proof.
  rewrite ordered_snapshot. unfold same_snapshot. generalize (ordered CANONICAL (Snapshot.plan snap)) as plan. intros plan. destruct snap as [[inc routine revision run] name plan0].
  cbn [Snapshot.binding Snapshot.name Binding.incarnation Binding.routine_id Binding.revision Binding.run_id]. intros H. unfold read_snapshot in H.
  repeat (apply bind_Some in H as (? & ? & H)). case_match; [|done]. injection H as <-. cbn [Snapshot.binding Snapshot.plan Snapshot.name].
  repeat match goal with E : get _ _ = Some _ |- _ => vm_compute in E; injection E as <- end.
  match goal with E : _ ≫= _ = Some _ |- _ => apply bind_Some in E as (? & E1 & E2) end. vm_compute in E1. injection E1 as <-.
  vm_compute in E2. injection E2 as <-. match goal with E : as_str _ = Some _ |- _ => by injection E as <- end.
Qed.
Lemma read_sealed_back {PF : Platform} {VO : Vocabulary} snap run_id r : readable_snapshot snap -> read_sealed (Snapshot.sealed snap) run_id = Some r -> same_snapshot snap r.
Proof.
  intros (Ha & Hf & Hh). unfold read_sealed, Snapshot.sealed, canonical. rewrite parse_dumps by (done || lia).
  match goal with |- context [ordered CANONICAL ?v] => replace (ordered CANONICAL v) with
    (VObject [("binding", VArray [text (Binding.incarnation (Snapshot.binding snap)); text (Binding.routine_id (Snapshot.binding snap));
                int (Binding.revision (Snapshot.binding snap)); text (Binding.run_id (Snapshot.binding snap))]);
              ("name", text (Snapshot.name snap)); ("plan", ordered CANONICAL (Snapshot.plan snap)); ("version", int INCIDENT_VERSION)]%string) by reflexivity end.
  intros H. apply (read_snapshot_back _ run_id). rewrite ordered_snapshot. revert H. generalize (ordered CANONICAL (Snapshot.plan snap)) as plan. intros plan. unfold mbind, option_bind. cbn -[read_snapshot]. done.
Qed.

Section Serving.
  Context {PF : Platform} {VO : Vocabulary} `{C : !Crypto} {L : CryptoLaws C} {F J U : Type} `{!System F} {FD : FullDraws F} `{!RoutineJournal J} `{!Surroundings U}.
  Abbreviation Service := (Service.Service F J U).
  Abbreviation svc := (svc (F := F) (J := J) (U := U)).
  Context (team : string) (snap : SnapshotOf) (Hb : binding_valid (Snapshot.binding snap) = true) (Hsnap : readable_snapshot snap).
  Abbreviation b := (Snapshot.binding snap).
  Abbreviation run := (Binding.run_id b).
  Abbreviation Kept := (Kept team snap).
  Abbreviation along := (along team snap).
  Abbreviation snapshot_kept := (snapshot_kept team snap).

(** The records of runs are kept apart from the Routine store and its key. *)
Definition separate (s : Service) : Prop :=
  let dg := Service.diagnostics s in
  temporary (DiagnosticStore.keyring dg) = false
  /\ forall q, starts_with q (RoutineStore.root (Service.store s)) = true \/ q = RoutineStore.keyring (Service.store s) ->
     q <> DiagnosticStore.keyring dg /\ starts_with q (DiagnosticStore.root dg) = false.
Definition serves (log : list Event) (s s' : Service) : Prop :=
  separate s -> Kept log (Service.store s) -> separate s' /\ along log (Service.store s) (Service.store s').
Definition serving_along (log : list Event) {A} (m : svc A) : Prop := forall s, serves log s (fst (m s)).

Lemma separate_fixed (s s' : Service) : fixed (Service.store s) (Service.store s') -> Service.diagnostics s' = Service.diagnostics s -> separate s -> separate s'.
Proof. intros (Er & Ek & _) Ed. unfold separate. by rewrite Ed, Er, Ek. Qed.
Lemma serves_refl log s : serves log s s.
Proof. intros Hs Hk. split; [done|apply along_refl]. Qed.
Lemma serves_trans log s s1 s2 : serves log s s1 -> serves log s1 s2 -> serves log s s2.
Proof.
  intros H1 H2 Hs Hk. destruct (H1 Hs Hk) as [Hs1 Ha1]. pose proof (Ha1 Hk) as (Hk1 & _). destruct (H2 Hs1 Hk1) as [Hs2 Ha2]. split; [done|]. by transitivity (Service.store s1).
Qed.
Lemma serving_ret log {A} (a : A) : serving_along log (mret a : svc A).
Proof. intros s. apply serves_refl. Qed.
Lemma serving_bind log {A B} (m : svc A) (f : A -> svc B) : serving_along log m -> (forall a, serving_along log (f a)) -> serving_along log (m ≫= f).
Proof. intros Hm Hf s. unfold mbind, svc_bind. specialize (Hm s). destruct (m s) as [s1 a]. eapply serves_trans; [exact Hm|apply Hf]. Qed.
Lemma serving_attempt log {Er A B} (m : svc (Er + A)) (f : A -> svc (Er + B)) : serving_along log m -> (forall a, serving_along log (f a)) -> serving_along log (attempt m f).
Proof. intros Hm Hf. apply serving_bind; [done|]. intros [e|a]; [apply serving_ret|apply Hf]. Qed.
Lemma serving_raising log {Er Er' A} (e : Er') (m : svc (Er + A)) : serving_along log m -> serving_along log (raising e m).
Proof. intros Hm. apply serving_bind; [done|]. intros r. apply serving_ret. Qed.
Lemma serving_unavailing log {Er A} (e : Er) (m : svc (option A)) : serving_along log m -> serving_along log (unavailing e m).
Proof. intros Hm. apply serving_bind; [done|]. intros r. apply serving_ret. Qed.
Lemma serves_store log (s s' : Service) : Service.diagnostics s' = Service.diagnostics s -> along log (Service.store s) (Service.store s') -> serves log s s'.
Proof. intros Ed Ha Hs Hk. split; [|done]. destruct (Ha Hk) as (_ & Hf & _). by eapply separate_fixed. Qed.
Lemma serving_stored log {A} (m : kept_op (F := F) A) : (forall s, along log s (fst (m s))) -> serving_along log (stored_call m).
Proof. intros Hm s. unfold stored_call. specialize (Hm (Service.store s)). destruct (m (Service.store s)) as [st r]. by apply serves_store. Qed.
Lemma serving_protections log {A} (m : RunProtections -> RunProtections * A) : serving_along log (protections_call m).
Proof. intros s. unfold protections_call. destruct (m _) as [p a]. apply serves_store; [done|apply along_refl]. Qed.
Lemma serving_journal log {A} (m : J -> J * A) : serving_along log (journal_call m).
Proof. intros s. unfold journal_call. destruct (m _) as [p a]. apply serves_store; [done|apply along_refl]. Qed.
Lemma serving_around log {A} (m : U -> U * A) : serving_along log (around_call m).
Proof. intros s. unfold around_call. destruct (m _) as [p a]. apply serves_store; [done|apply along_refl]. Qed.
(** What leaves the run's files and the key alone. *)
Lemma files_along log (s s' : RoutineStore.RoutineStore F) : fixed s s' -> (store_ok s -> store_ok s') ->
  (forall q, q = cursor_path team snap s \/ q = recovery_path team snap s \/ q = incident_path team snap s \/ q = RoutineStore.keyring s -> file_of s' q = file_of s q) -> along log s s'.
Proof.
  intros Hf Hok Hq Hk. pose proof (kept_ok _ _ _ _ Hk) as Hs.
  assert (cursor_path team snap s' = cursor_path team snap s) as Ec by by apply team_file_fixed.
  assert (recovery_path team snap s' = recovery_path team snap s) as Er by by apply team_file_fixed.
  assert (key_kept s s') as Hkk by (intros _; apply Hq; auto).
  assert (snapshot_kept s -> snapshot_kept s') as Hsn.
  { unfold ReplaySafety.snapshot_kept, recovery_view. rewrite Er. apply opened_same; [done..|]. apply Hq. auto. }
  split_and!; [|done..]. split; [auto| | |].
  - destruct (kept_recovery _ _ _ _ Hk) as [Hn|Hn]; [left; rewrite Er, Hq; auto|right; auto].
  - apply (incident_unmoved _ _ s); [done..|apply Hq; auto|by apply kept_incident in Hk].
  - destruct (kept_cursor _ _ _ _ Hk) as [[Hn Hquiet]|(c & Hv & ? & ? & ? & ?)]; [left; rewrite Ec, Hq; auto|]. right. exists c. split; [|split_and!; auto].
    unfold cursor_view in *. rewrite Ec. apply (opened_same _ _ _ s); [done..|apply Hq; auto|done].
Qed.
Lemma serving_diagnostics log {A} (m : DiagnosticStore -> io (F := F) (DiagnosticError + A)) :
  (forall st keep, ~ keep (DiagnosticStore.keyring st) -> temporary (DiagnosticStore.keyring st) = false ->
     (forall tm name, ~ keep (diagnostics_dir st tm ++ [name])) -> spares keep (m st)) -> serving_along log (diagnostics_call m).
Proof.
  intros Hm s Hs Hk. unfold diagnostics_call. destruct (m _ _) as [d r] eqn:E. cbn [fst].
  apply serves_store; [reflexivity| |done..].
  change (along log (Service.store s) ((Service.store s) <| RoutineStore.disk := d |>)).
  pose proof (kept_ok _ _ _ _ Hk) as (_ & Htk & _). destruct Hs as [Htd Hsep].
  set (keep := fun q => q = cursor_path team snap (Service.store s) \/ q = recovery_path team snap (Service.store s) \/ q = incident_path team snap (Service.store s) \/ q = RoutineStore.keyring (Service.store s)).
  assert (forall q, keep q -> q <> DiagnosticStore.keyring (Service.diagnostics s) /\ starts_with q (DiagnosticStore.root (Service.diagnostics s)) = false) as Hkeep.
  { intros q [-> | [-> | [-> | ->]]]; apply Hsep; [left|left|left|by right]; unfold cursor_path, recovery_path, incident_path, team_file, team_dir; rewrite <- app_assoc; apply starts_with_app. }
  apply files_along; [done|apply store_disk_ok|]. intros q Hq. change (file_at d q = file_at (RoutineStore.disk (Service.store s)) q).
  replace d with (fst (m (Service.diagnostics s) (RoutineStore.disk (Service.store s)))) by by rewrite E.
  apply (Hm (Service.diagnostics s) keep); [|done| |exact Hq|].
  - intros H%Hkeep. by destruct H.
  - intros tm name H%Hkeep. destruct H as [_ H]. unfold diagnostics_dir in H. rewrite <- app_assoc, starts_with_app in H. done.
  - destruct Hq as [-> | [-> | [-> | ->]]]; [by apply cursor_plain|by apply recovery_plain|by apply incident_plain|done].
Qed.
(** A call that keeps the run's files and whose answer is known. *)
Definition serving_with (log : list Event) {A} (m : svc A) (Q : A -> Prop) : Prop := forall s, separate s -> Kept log (Service.store s) ->
  (separate (fst (m s)) /\ along log (Service.store s) (Service.store (fst (m s)))) /\ Q (snd (m s)).
Definition when_ok {Er A} (Q : A -> Prop) (r : Er + A) : Prop := match r with inl _ => True | inr a => Q a end.
Lemma with_along log {A} (m : svc A) : serving_along log m -> serving_with log m (fun _ => True).
Proof. intros Hm s Hs Hk. split; [by apply Hm|done]. Qed.
Lemma along_with log {A} (m : svc A) Q : serving_with log m Q -> serving_along log m.
Proof. intros Hm s Hs Hk. by apply Hm. Qed.
Lemma with_bind log {A B} (m : svc A) (f : A -> svc B) Q R : serving_with log m Q -> (forall a, Q a -> serving_with log (f a) R) -> serving_with log (m ≫= f) R.
Proof.
  intros Hm Hf s Hs Hk. unfold mbind, svc_bind. destruct (Hm s Hs Hk) as [[Hs1 Ha] Hq]. destruct (m s) as [s1 a]. cbn [fst snd] in *. destruct (Ha Hk) as (Hk1 & _).
  destruct (Hf a Hq s1 Hs1 Hk1) as [[Hs2 Ha2] Hr]. split; [split; [done|]|done]. by transitivity (Service.store s1).
Qed.
Lemma with_ret log {A} (a : A) (Q : A -> Prop) : Q a -> serving_with log (mret a : svc A) Q.
Proof. intros Hq s Hs Hk. split; [by apply serves_refl|done]. Qed.
Lemma with_attempt log {Er A B} (m : svc (Er + A)) (f : A -> svc (Er + B)) Q R :
  serving_with log m (when_ok Q) -> (forall a, Q a -> serving_with log (f a) (when_ok R)) -> serving_with log (attempt m f) (when_ok R).
Proof. intros Hm Hf. eapply with_bind; [exact Hm|]. intros [e|a] Hq; [by apply with_ret|by apply Hf]. Qed.
Lemma with_raising log {Er Er' A} (e : Er') (m : svc (Er + A)) Q : serving_with log m (when_ok Q) -> serving_with log (raising e m) (when_ok Q).
Proof. intros Hm. eapply with_bind; [exact Hm|]. intros [e'|a] Hq; by apply with_ret. Qed.
Lemma with_weaken log {A} (m : svc A) (Q R : A -> Prop) : (forall a, Q a -> R a) -> serving_with log m Q -> serving_with log m R.
Proof. intros Hqr Hm s Hs Hk. destruct (Hm s Hs Hk). auto. Qed.
Lemma with_stored log {A} (m : kept_op (F := F) A) Q : (forall s, Kept log s -> along log s (fst (m s)) /\ when_ok Q (snd (m s))) -> serving_with log (stored_call m) (when_ok Q).
Proof.
  intros Hm s Hs Hk. unfold stored_call. destruct (Hm (Service.store s) Hk) as [Ha Hq]. destruct (m (Service.store s)) as [st r].
  cbn [fst snd] in *. split; [|done]. by apply (serves_store log s (s <| Service.store := st |>)).
Qed.
Definition of_team (lock : TeamLock.TeamLock) : Prop := TeamLock.team lock = team.
Lemma store_lock_team (s : RoutineStore.RoutineStore F) : fst (store_lock team s) = s /\ when_ok of_team (snd (store_lock team s)).
Proof. unfold store_lock, team_id_of. case_match; [|done]. by split. Qed.
Lemma with_lock log : serving_with log (stored_call (store_lock team)) (when_ok of_team).
Proof. apply with_stored. intros s Hk. destruct (store_lock_team s) as [E Ht]. rewrite E. split; [apply along_refl|done]. Qed.
Lemma lock_along log {A} (f : TeamLock.TeamLock -> kept_op (F := F) A) (s : RoutineStore.RoutineStore F) :
  (forall lock, of_team lock -> along log s (fst (f lock s))) -> along log s (fst (then_ (store_lock team) f s)).
Proof.
  intros Hf. rewrite then_run. destruct (store_lock_team s) as [E Ht]. destruct (store_lock team s) as [s1 [e|lock]]; cbn [fst snd] in *; subst s1; [apply along_refl|by apply Hf].
Qed.
(** The snapshot read for a run is that run's; for this run it has its binding. *)
Definition snapshot_fits (value : Run.Run) (r : SnapshotOf) : Prop :=
  Binding.run_id (Snapshot.binding r) = Run.run_id value
  /\ (Run.run_id value = run -> same_snapshot snap r).
Lemma with_snapshot log lock value : of_team lock ->
  serving_with log (snapshot_locked lock value) (when_ok (fun found => match found with Some r => snapshot_fits value r | None => Run.run_id value = run -> quiet_log log end)).
Proof.
  intros Ht. unfold snapshot_locked. apply (with_attempt log _ _ (fun payload => match payload with
    | Some payload => Run.run_id value = run -> payload = Snapshot.sealed snap | None => Run.run_id value = run -> quiet_log log end)).
  - apply with_raising, with_stored. intros s Hk. split; [by apply read_record_along|]. destruct (read_recovery lock (Run.run_id value) s) as [s' [e|[payload|]]] eqn:E; try done; intros Er; rewrite Er in E.
    + by eapply read_recovery_ours.
    + apply read_record_view in E as [_ Hv]; [|by eapply kept_ok]. rewrite (recovery_view_record team) in Hv by done. apply view_none in Hv. by eapply unwritten.
  - intros [payload|] Hp; [|by apply with_ret]. apply with_ret. destruct (read_sealed payload _) as [r|] eqn:E; [|done]. destruct (of_run r _ _); [|done].
    split; [by eapply read_sealed_run|]. intros Er. specialize (Hp Er) as ->. by eapply read_sealed_back.
Qed.
Definition sealed_fits (log : list Event) (value : Run.Run) (sealed : SealedRun) : Prop :=
  match sealed with
  | (_, Some r, Some found) => snapshot_fits value r /\ Cursor.binding found = Snapshot.binding r /\ runs_cursor r found = true
                               /\ (Run.run_id value = run -> reached log found)
  | (_, Some r, None) => snapshot_fits value r /\ (Run.run_id value = run -> quiet_log log)
  | (_, None, Some _) => False
  | (_, None, None) => Run.run_id value = run -> quiet_log log
  end.
Lemma read_cursor_binding lock bi (s s' : RoutineStore.RoutineStore F) c : read_cursor lock bi s = (s', inr (Some c)) -> Cursor.binding c = bi.
Proof.
  unfold read_cursor. rewrite then_run. destruct (pass _ s) as [? [|?]]; [done|]. rewrite then_run.
  destruct (sealed_read _ _ _ _ _) as [? [|[payload|]]]; [done| |done]. unfold pass. destruct (decode payload bi) as [d|] eqn:Hd; [|done].
  intros [= _ <-]. by apply decode_Ok in Hd as (_ & ? & _).
Qed.
Lemma with_sealed log lock value : of_team lock -> serving_with log (sealed_locked lock value) (when_ok (sealed_fits log value)).
Proof.
  intros Ht. unfold sealed_locked. eapply (with_attempt log _ _ (fun _ => True)); [eapply with_weaken, with_along, serving_unavailing, serving_journal; by intros []|].
  intros batch _. eapply with_attempt; [apply with_raising, with_snapshot, Ht|]. intros [r|] Hr; [|by apply with_ret].
  apply (with_attempt log _ _ (fun found => match found with
    | Some c => Cursor.binding c = Snapshot.binding r /\ (Run.run_id value = run -> reached log c) | None => Run.run_id value = run -> quiet_log log end)).
  - apply with_raising, with_stored. intros s Hk. split; [by apply read_cursor_along|]. destruct (read_cursor _ _ _) as [s' [e|[c|]]] eqn:E; try done.
    + split; [by apply read_cursor_binding in E|]. intros Er. destruct Hr as [_ Hr]. destruct (Hr Er) as [Eb _]. rewrite Eb in E.
      destruct (read_cursor_kept _ _ Hb _ log _ _ _ E Ht Hk) as [_ (c0 & (_ & _ & Hre & _) & Ha & _)]. eapply reached_same; [by apply agree_progress|done].
    + intros Er. destruct Hr as [_ Hr]. destruct (Hr Er) as [Eb _]. rewrite Eb in E. destruct (read_cursor_kept _ _ Hb _ log _ _ _ E Ht Hk) as [_ Hn]. eapply absent_quiet; [exact Hk|exact Hn].
  - intros [found|] Hf; apply with_ret; [|done]. destruct (runs_cursor r found) eqn:Hrun; [|done]. destruct Hf. by split_and!.
Qed.
Lemma fits_or_else value r : snapshot_fits value r -> Snapshot.binding r = b \/ Binding.run_id (Snapshot.binding r) <> run.
Proof. intros [Hr Hf]. destruct (decide (Run.run_id value = run)) as [E|E]; [left; by apply Hf|right; by rewrite Hr]. Qed.
Lemma serving_lost log lock value : of_team lock -> serving_along log (protection_lost_locked lock value).
Proof.
  intros Ht. apply (along_with _ _ (fun _ => True)). unfold protection_lost_locked. destruct (is_empty _); [by apply with_ret|].
  eapply with_bind; [apply with_sealed, Ht|]. intros [e|[[batch found_snapshot] found]] Hfit; [by apply with_ret|].
  eapply with_bind; [apply with_along, serving_stored; intros s; by apply cursors_along|]. intros runs _. cbv zeta.
  destruct (match found_snapshot with Some _ => _ | None => _ end) as [unbound|]; [|by apply with_ret]. destruct found as [found|]; [|by apply with_ret].
  destruct (Cursor.protection_lost found); [by apply with_ret|]. eapply with_bind; [apply with_along, serving_protections|]. intros held _.
  destruct (negb _); [by apply with_ret|]. eapply with_bind; [|intros; by apply with_ret]. apply with_along, serving_stored. intros s.
  destruct found_snapshot as [r|]; [|done]. destruct Hfit as (Hfit & -> & _). apply lose_cursor_along; [done..|]. by eapply fits_or_else.
Qed.
Lemma serving_lost_among log lock values : of_team lock -> serving_along log (lost_among lock values).
Proof.
  intros Ht. induction values as [|value values IH]; cbn [lost_among]; [apply serving_ret|]. apply serving_bind; [by apply serving_lost|]. intros lost.
  apply serving_bind; [done|]. intros rest. apply serving_ret.
Qed.
Lemma writable_same lock (s : RoutineStore.RoutineStore F) : fst (writable lock s) = s.
Proof. done. Qed.
(** Every write of the Team's state keeps the run's files. *)
Lemma serving_update log {T} lock (change : TeamRoutines.TeamRoutines -> svc (TeamRoutines.TeamRoutines * T)) :
  of_team lock -> (forall st, serving_along log (change st)) -> serving_along log (update_locked lock change).
Proof.
  intros Ht Hc. unfold update_locked. apply serving_attempt.
  - apply serving_raising, serving_stored. intros s. rewrite then_run. unfold writable. destruct (_ || _); [apply along_refl|]. by apply load_along.
  - intros before. apply serving_bind; [by apply serving_lost_among|]. intros lost. apply serving_bind; [apply Hc|]. intros [after answer].
    destruct (same_state _ _ _); [apply serving_ret|]. apply serving_attempt; [|intros; apply serving_ret]. apply serving_raising, serving_stored. intros s. by apply save_along.
Qed.
Lemma serving_update_held log {T} (change : TeamLock.TeamLock -> TeamRoutines.TeamRoutines -> svc (TeamRoutines.TeamRoutines * T)) :
  (forall lock st, of_team lock -> serving_along log (change lock st)) -> serving_along log (update_held team change).
Proof.
  intros Hc. unfold update_held. apply (along_with _ _ (when_ok (fun _ => True))). eapply with_attempt; [apply with_raising, with_lock|]. intros lock Ht.
  eapply with_weaken, with_along, serving_update; [by intros []|done|]. intros st. by apply Hc.
Qed.
Lemma serving_update_team log {T} (change : TeamRoutines.TeamRoutines -> svc (TeamRoutines.TeamRoutines * T)) :
  (forall st, serving_along log (change st)) -> serving_along log (update_team team change).
Proof. intros Hc. apply serving_update_held. intros _ st _. apply Hc. Qed.
Lemma serving_mark_lost log run_id : serving_along log (mark_lost team run_id).
Proof. apply serving_update_team. intros st. apply serving_ret. Qed.
Lemma serving_applied log transition : serving_along log (applied team transition).
Proof. apply serving_update_team. intros st. apply serving_bind; [apply serving_around|]. intros r. apply serving_ret. Qed.
Lemma serving_load log : serving_along log (load_state team).
Proof. apply serving_raising, serving_stored. intros s. apply lock_along. intros lock _. by apply load_along. Qed.
End Serving.

(** ** The runtime in memory *)
Section Running.
  Context {PF : Platform} {VO : Vocabulary} `{C : !Crypto} {L : CryptoLaws C} {F J U : Type} `{!System F} {FD : FullDraws F} `{!RoutineJournal J} `{!Surroundings U}.
  Context {T : CaseTables} {PT : Patterns} {SC : Schemas} {B : Base64} {X : Regexes}.
  Abbreviation Service := (Service.Service F J U).
  Abbreviation Running := (Running (F := F) (J := J) (U := U)).
  Abbreviation rop := (rop (F := F) (J := J) (U := U)).
  Context (team : string) (snap : SnapshotOf) (Hb : binding_valid (Snapshot.binding snap) = true) (Hsnap : readable_snapshot snap).

(** The runtime drives this run, its cursor past everything sent. *)
Record Driving (log : list Event) (st : Running) : Prop := {
  driving_separate : separate (snd st);
  driving_kept : Kept team snap log (Service.store (snd st));
  driving_snapshot : snapshot_kept team snap (Service.store (snd st));
  driving_team : Replay.team_id (fst st) = team;
  driving_plan : Plan.digest (Replay.plan (fst st)) = plan_digest snap;
  driving_cursor : of_the_run snap (Replay.cursor (fst st));
  driving_reached : reached log (Replay.cursor (fst st))
}.
Definition onward (log : list Event) (st st' : Running) : Prop := Driving log st ->
  Driving log st' /\ Replay.plan (fst st') = Replay.plan (fst st) /\ same_progress (Replay.cursor (fst st)) (Replay.cursor (fst st')).
Definition onwards (log : list Event) {A} (m : rop A) : Prop := forall st, onward log st (fst (m st)).

Lemma same_progress_trans c d e : same_progress c d -> same_progress d e -> same_progress c e.
Proof. intros (H1 & H2 & H3 & H4 & H5) (G1 & G2 & G3 & G4 & G5). split_and!; try congruence; auto. Qed.
Lemma onward_refl log st : onward log st st.
Proof. intros H. by split_and!. Qed.
Lemma onward_trans log st st1 st2 : onward log st st1 -> onward log st1 st2 -> onward log st st2.
Proof.
  intros H1 H2 H. destruct (H1 H) as (D1 & P1 & S1). destruct (H2 D1) as (D2 & P2 & S2). split_and!; [done|congruence|..]; by apply (same_progress_trans _ _ _ S1 S2).
Qed.
Lemma onwards_ret log {A} (a : A) : onwards log (mret a : rop A).
Proof. intros st. apply onward_refl. Qed.
Lemma onwards_bind log {A B'} (m : rop A) (f : A -> rop B') : onwards log m -> (forall a, onwards log (f a)) -> onwards log (m ≫= f).
Proof. intros Hm Hf st. unfold mbind, rop_bind. specialize (Hm st). destruct (m st) as [st1 a]. eapply onward_trans; [exact Hm|apply Hf]. Qed.
Lemma onwards_trying log {A B'} (m : rop (string + A)) (f : A -> rop (string + B')) : onwards log m -> (forall a, onwards log (f a)) -> onwards log (trying m f).
Proof. intros Hm Hf. apply onwards_bind; [done|]. intros [e|a]; [apply onwards_ret|apply Hf]. Qed.
Lemma onwards_seeing log {A} (f : ReplayRuntime -> A) : onwards log (seeing f).
Proof. intros st. apply onward_refl. Qed.
Lemma onwards_setting log f : (forall r, Replay.team_id (f r) = Replay.team_id r /\ Replay.plan (f r) = Replay.plan r /\ Replay.cursor (f r) = Replay.cursor r) ->
  onwards log (setting f).
Proof.
  intros Hf [r s] [Hs Hk Hsn Ht Hp Hc Hr]. cbn [fst snd setting] in *. destruct (Hf r) as (Et & Ep & Ec). split; [|split; [done|by rewrite Ec]].
  split; cbn [fst snd]; rewrite ?Et, ?Ep, ?Ec; done.
Qed.
Lemma onwards_serving log {A} (m : svc A) : serving_along team snap log m -> onwards log (serving m).
Proof.
  intros Hm [r s] [Hs Hk Hsn Ht Hp Hc Hr]. unfold serving. cbn [fst snd] in *. destruct (Hm s Hs Hk) as [Hs1 Ha]. destruct (m s) as [s1 a]. cbn [fst snd] in *.
  destruct (Ha Hk) as (Hk1 & _ & Hsn1). split; [|by split_and!]. split; auto.
Qed.
Lemma onwards_fail log code : onwards log (fail code).
Proof. apply onwards_bind; [by apply onwards_setting|]. intros _. apply onwards_ret. Qed.
Lemma onwards_or_fail log {A} (r : result A) : onwards log (or_fail r).
Proof. destruct r; [apply onwards_ret|]. apply onwards_bind; [apply onwards_fail|]. intros code'. apply onwards_ret. Qed.

(** Sealing a cursor past everything sent: the runtime takes it when it was sealed. *)
Lemma seal_driving log c st st' r : replay_seal c st = (st', r) -> Driving log st -> of_the_run snap c -> reached log c ->
  Driving log st' /\ Replay.plan (fst st') = Replay.plan (fst st)
  /\ match r with
     | inr _ => Replay.cursor (fst st') = c /\ exists c2, sealed_as team snap log (Service.store (snd st')) c2 /\ same_progress c c2
     | inl _ => Replay.cursor (fst st') = Replay.cursor (fst st)
     end.
Proof.
  destruct st as [r0 s]. unfold replay_seal, mbind, rop_bind, seeing, serving. cbn [fst snd]. intros H [Hs Hk Hsn Ht Hp Hc Hr] Hrun Hre. cbn [fst snd] in *.
  unfold under_lock, stored_call in H. rewrite Ht, then_run in H. destruct (store_lock_team team (Service.store s)) as [E Hl].
  destruct (store_lock team (Service.store s)) as [st1 [e|lock]]; cbn [fst snd] in *; subst st1.
  - unfold fail, mbind, rop_bind, setting, mret, rop_ret in H. cbn [fst snd] in H. injection H as <- <-. cbn [fst snd]. by split; [split|].
  - destruct (put_cursor lock c (Service.store s)) as [sv sealed] eqn:Ep.
    destruct (put_cursor_kept team snap Hb _ log _ _ _ _ Ep) as (Hk' & Hsn' & Hin); [done..|].
    pose proof (steadily_run _ _ _ _ (steadily_put_cursor lock c) Ep) as [Hf _].
    assert (separate (s <| Service.store := sv |>)) as Hs' by by apply (separate_fixed s).
    destruct sealed as [e|[]].
    + unfold fail, mbind, rop_bind, setting, mret, rop_ret in H. cbn [fst snd] in H. injection H as <- <-. cbn [fst snd]. by split; [split|].
    + unfold setting, mret, rop_ret in H. cbn [fst snd] in H. injection H as <- <-. cbn [fst snd]. split; [by split|]. split; [done|]. split; [done|]. by apply Hin.
Qed.
Lemma onward_seal log c st : (Driving log st -> of_the_run snap c /\ same_progress (Replay.cursor (fst st)) c) -> onward log st (fst (replay_seal c st)).
Proof.
  intros Hc D. destruct (Hc D) as [Hrun Hsame]. destruct (replay_seal c st) as [st' r] eqn:E. cbn [fst].
  destruct (seal_driving _ _ _ _ _ E D Hrun) as (D' & Hp & Hr); [eapply reached_same; [exact Hsame|by apply driving_reached]|].
  split_and!; [done..|]. destruct r; [by rewrite Hr|by destruct Hr as [-> _]].
Qed.
(** A program from a known state. *)
Lemma onward_bind log {A B'} (m : rop A) (f : A -> rop B') st : onward log st (fst (m st)) -> (forall st1 a, m st = (st1, a) -> onward log st1 (fst (f a st1))) ->
  onward log st (fst ((m ≫= f) st)).
Proof. intros Hm Hf. unfold mbind, rop_bind. destruct (m st) as [st1 a] eqn:E. eapply onward_trans; [exact Hm|by apply Hf]. Qed.
Lemma onwards_protect log values : onwards log (protect values).
Proof.
  intros st D0. pose proof (driving_team _ _ D0) as Et. revert D0. change (onward log st (fst (protect values st))).
  unfold protect. apply onward_bind; [apply onwards_seeing|]. intros st1 tm [= <- <-]. rewrite Et. apply onward_bind; [apply onwards_seeing|]. intros st2 current [= <- <-].
  apply onward_bind; [apply onwards_serving, serving_protections|]. intros st3 found E.
  assert (fst st3 = fst st) as Er by (unfold serving in E; destruct (protections_call _ _); by injection E as <- _).
  apply onward_bind; [|intros; apply onwards_ret]. destruct (_ && _); [|apply onwards_ret]. apply onward_bind.
  - destruct (lose_protection (Replay.cursor (fst st))) as [lost|] eqn:El.
    + apply onward_bind; [|intros; apply onwards_ret]. apply onward_seal. intros D. pose proof (driving_cursor _ _ D) as Hc. rewrite Er in *.
      destruct (lose_run _ _ _ El Hc) as (? & ? & _). done.
    + apply onward_bind; [apply onwards_fail|intros; apply onwards_ret].
  - intros st4 u _. apply onward_bind; [by apply onwards_serving, serving_mark_lost|]. intros st5 [e|x] _; [|apply onwards_ret].
    apply onward_bind; [apply onwards_fail|intros; apply onwards_ret].
Qed.
Lemma onwards_protection log : onwards log protection.
Proof. apply onwards_protect. Qed.
Lemma onwards_turn log : onwards log turn.
Proof.
  unfold turn. do 3 (apply onwards_bind; [apply onwards_seeing|]; intros ?). destruct (done_ _ _); [apply onwards_ret|]. destruct (_ !! _); [|apply onwards_ret].
  apply onwards_trying; [apply onwards_or_fail|]. intros resolved. apply onwards_ret.
Qed.
Lemma checked_run c d : checked d = Ok d -> Cursor.binding d = Cursor.binding c -> Cursor.plan d = Cursor.plan c -> of_the_run snap c -> of_the_run snap d.
Proof. intros Hd Hbi Hp (_ & E1 & E2). split_and!; congruence. Qed.
Lemma onwards_begin log : onwards log replay_begin.
Proof.
  intros st. unfold replay_begin. apply onward_bind; [apply onwards_seeing|]. intros st1 current [= <- <-]. destruct (carried _); [|apply onwards_turn].
  unfold trying at 1. apply onward_bind; [apply onwards_or_fail|]. intros st1 [e|retried] E; [apply onwards_ret|].
  unfold or_fail in E. destruct (retry (Replay.cursor (fst st))) as [c|] eqn:Er; [|unfold mbind, rop_bind in E; destruct (fail _ _); done].
  injection E as <- <-. unfold trying. apply onward_bind; [|intros st2 [e|x] _; [apply onwards_ret|apply onwards_turn]]. apply onward_seal. intros D. pose proof (driving_cursor _ _ D) as Hc.
  unfold retry in Er. inv_ok. match goal with H : checked _ = Ok _ |- _ => pose proof H as Hch; apply checked_Ok in H as -> end.
  split; [|done]. by apply (checked_run (Replay.cursor (fst st))).
Qed.
Lemma onwards_step_record log status a current p values : onwards log (step_record status a current p values).
Proof.
  unfold step_record. apply onwards_bind; [apply onwards_seeing|]. intros plan. destruct (_ !! _); [|apply onwards_ret].
  apply onwards_bind; [destruct (Attempt.ended a); [apply onwards_ret|apply onwards_serving, serving_around]|]. intros ended.
  apply onwards_bind; [apply onwards_serving, serving_around|]. intros now. apply onwards_ret.
Qed.
Lemma onwards_record_step log status cursor : onwards log (replay_record_step status cursor).
Proof.
  unfold replay_record_step. apply onwards_bind; [apply onwards_seeing|]. intros [a|]; [|apply onwards_ret].
  apply onwards_bind; [by apply onwards_setting|]. intros _. do 2 (apply onwards_bind; [apply onwards_seeing|]; intros ?). apply onwards_bind; [apply onwards_protection|]. intros p.
  apply onwards_bind; [apply onwards_step_record|]. intros [record|]; [|apply onwards_ret]. apply onwards_bind.
  - apply onwards_serving, serving_diagnostics; [done|]. intros. by apply spares_record_step.
  - intros [e|x]; [apply onwards_serving, serving_around|apply onwards_ret].
Qed.
Lemma onwards_returned log : onwards log returned_now.
Proof.
  unfold returned_now. apply onwards_bind; [apply onwards_seeing|]. intros [[position started input values [|]]|]; try apply onwards_ret.
  apply onwards_bind; [apply onwards_serving, serving_around|]. intros instant. by apply onwards_setting.
Qed.
Lemma onwards_diagnose log request op found p : onwards log (diagnose request op found p).
Proof.
  unfold diagnose. do 2 (apply onwards_bind; [apply onwards_seeing|]; intros ?). apply onwards_bind; [apply onwards_serving, serving_around|]. intros now. apply onwards_bind.
  - apply onwards_serving, serving_diagnostics; [done|]. intros. by apply spares_record.
  - intros [e|x]; [apply onwards_serving, serving_around|apply onwards_ret].
Qed.
Lemma onwards_classified log request f : onwards log (classified request f).
Proof.
  unfold classified. apply onwards_bind; [apply onwards_returned|]. intros _ st. apply onward_bind; [apply onwards_seeing|]. intros st1 current [= <- <-].
  unfold trying at 1. apply onward_bind; [apply onwards_or_fail|]. intros st1 [e|next] E; [apply onwards_ret|].
  unfold or_fail in E. destruct (failed _ _) as [c|] eqn:Er; [|unfold mbind, rop_bind in E; destruct (fail _ _); done]. injection E as <- <-.
  unfold trying. apply onward_bind.
  - apply onward_seal. intros D. pose proof (driving_cursor _ _ D) as Hc. unfold failed in Er. inv_ok.
    match goal with H : checked _ = Ok _ |- _ => pose proof H as Hch; apply checked_Ok in H as -> end. split; [|done]. by apply (checked_run (Replay.cursor (fst st))).
  - intros st2 [e|x] _; [apply onwards_ret|]. apply onwards_bind; [apply onwards_serving, serving_around|]. intros stopped.
    apply onwards_bind; [apply onwards_record_step|]. intros _. apply onwards_bind; [by apply onwards_setting|]. intros _. apply onwards_bind; [apply onwards_protect|]. intros p.
    apply onwards_bind; [|intros _; apply onwards_ret]. destruct (Diagnostics.evidence _ _); [apply onwards_diagnose|apply onwards_ret].
Qed.
(** *** What is sent, and what is completed *)
(** An absence is recorded only by its proof. *)
Definition keeps_absence (c d : Cursor.Cursor) : Prop := Cursor.absent d = true -> Cursor.absent c = true /\ Cursor.operation_id d = Cursor.operation_id c.
Lemma absent_open c : checked c = Ok c -> Cursor.absent c = true -> is_some (Cursor.operation_id c) = true.
Proof.
  intros (_ & _ & _ & Ha & _)%checked_fields Hab. unfold attempt_valid in Ha. rewrite !andb_true_iff in Ha. destruct Ha as [_ Ha].
  destruct (is_some _); [done|]. by rewrite Hab in Ha.
Qed.
Lemma dispatch_keeps c plan op input workload now d : dispatch c plan op input workload now = Ok d -> checked c = Ok c -> keeps_absence c d.
Proof.
  intros H Hc Hd. unfold dispatch in H. inv_ok. match goal with E : checked _ = Ok _ |- _ => pose proof (checked_Ok _ _ E) as -> end.
  assert (Cursor.absent c = true) as Hac by exact Hd. split; [done|]. pose proof (absent_open c Hc Hac) as Ho. destruct (Cursor.operation_id c) as [o|]; [|done].
  cbn [is_some andb] in *. match goal with E : negb (_ && _) = false |- _ => apply negb_false_iff, andb_true_iff in E as [E _]; unfold ostring_eqb in E; apply bool_decide_eq_true in E as [= ->] end. done.
Qed.
Lemma complete_keeps c plan r shown d : complete c plan r shown = Ok d -> keeps_absence c d.
Proof. intros H Hd. unfold complete in H. inv_ok. destruct (Plan.steps _ !! _); [|done]. inv_ok. match goal with E : checked _ = Ok _ |- _ => by rewrite (checked_Ok _ _ E) in Hd end. Qed.
Lemma lose_keeps c d : lose_protection c = Ok d -> keeps_absence c d.
Proof. intros H Hd. unfold lose_protection in H. by rewrite (checked_Ok _ _ H) in *. Qed.
Lemma open_keeps c d : open_episode c = Ok d -> keeps_absence c d.
Proof. intros H Hd. unfold open_episode in H. inv_ok. match goal with E : checked _ = Ok _ |- _ => by rewrite (checked_Ok _ _ E) in * end. Qed.
Lemma continued_keeps c d : continued c = Ok d -> keeps_absence c d.
Proof. intros H Hd. unfold continued in H. destruct (Cursor.episode c); try done. by rewrite (checked_Ok _ _ H) in *. Qed.
Lemma later_continued c d : later c d -> is_continued (Cursor.episode c) = true -> is_continued (Cursor.episode d) = true.
Proof. intros Hl. pose proof (later_episode _ _ Hl) as He. destruct (Cursor.episode c), (Cursor.episode d); cbn in *; try done; lia. Qed.
Lemma reached_later log c d : later c d -> keeps_absence c d -> (forall k, (Cursor.step c <= k < Cursor.step d)%nat -> Answered k ∈ log) -> reached log c -> reached log d.
Proof.
  intros Hl Hab Hsteps (Hs & Hc & Hp & Hr & Hn). pose proof (later_step _ _ Hl) as Hle. split_and!.
  - intros k op cm Hin. destruct (Hs k op cm Hin) as [Hk|(-> & Ho & Hcm)]; [left; lia|].
    destruct (decide (Cursor.step d = Cursor.step c)) as [E|E]; [right|left; lia]. destruct (later_operation _ _ Hl E _ Ho) as (Ho' & Hc' & _). split_and!; congruence.
  - intros k Hin. specialize (Hc k Hin). lia.
  - intros Hd. destruct (Hab Hd) as [Ha Ho]. destruct (Hp Ha) as (o & op & ? & ? & ?). exists o, op. split_and!; congruence.
  - intros k Hin. eapply later_continued; [exact Hl|by eapply Hr].
  - intros k Hk. destruct (decide (k < Cursor.step c)%nat); [by apply Hn|]. apply Hsteps. lia.
Qed.
Lemma reached_still log c d : later c d -> keeps_absence c d -> Cursor.step d = Cursor.step c -> reached log c -> reached log d.
Proof. intros Hl Hab E. apply reached_later; [done..|]. intros k Hk. lia. Qed.
Lemma dispatch_step c plan op cm workload at_ d : dispatch c plan op cm workload at_ = Ok d -> Cursor.step d = Cursor.step c.
Proof. unfold dispatch. intros H. inv_ok. match goal with E : checked _ = Ok _ |- _ => by rewrite (checked_Ok _ _ E) end. Qed.
Lemma open_step c d : open_episode c = Ok d -> Cursor.step d = Cursor.step c.
Proof. unfold open_episode. intros H. inv_ok. match goal with E : checked _ = Ok _ |- _ => by rewrite (checked_Ok _ _ E) end. Qed.
Lemma continued_step c d : continued c = Ok d -> Cursor.step d = Cursor.step c.
Proof. unfold continued. intros H. destruct (Cursor.episode c); try done. by rewrite (checked_Ok _ _ H). Qed.
Lemma reached_proven log c d o op : proven_absent c = Ok d -> reached log c -> Judged o ∈ log -> Cursor.operation_id c = Some op -> absent_by o op -> reached log d.
Proof.
  intros Hp (Hs & Hd & _ & Hre & Hn) Hin Ho Hby. unfold proven_absent in Hp. inv_ok.
  match goal with E : checked _ = Ok _ |- _ => rewrite (checked_Ok _ _ E) end. split_and!; try done. intros _. by exists o, op.
Qed.
Lemma later_run plan c d : cstep plan c d -> checked d = Ok d -> of_the_run snap c -> of_the_run snap d.
Proof. intros Hl%cstep_later Hd Hc. apply (checked_run c); [done|apply Hl|apply Hl|done]. Qed.
Lemma logged e log st c2 : Driving log st -> e <> LossSealed -> reached (e :: log) (Replay.cursor (fst st)) ->
  sealed_as team snap log (Service.store (snd st)) c2 -> same_progress (Replay.cursor (fst st)) c2 -> Driving (e :: log) st.
Proof.
  intros [Hs Hk Hsn Ht Hp Hc Hr] He Hre (Hv & Hrun & Hre2 & Hl & Hsn2) Hsame. split; try done. destruct Hk as [Hok Hrec Hinc _]. split; [done..|]. right. exists c2.
  split_and!; [done..|by eapply reached_same| |done]. intros Hin. apply Hl. apply elem_of_cons in Hin as [E|Hin]; [by symmetry in E|done].
Qed.
Lemma or_fail_run {A} (r : result A) (st st' : Running) x : or_fail r st = (st', x) ->
  match x with inr a => r = Ok a /\ st' = st | inl _ => exists e, r = Err e end.
Proof. unfold or_fail. destruct r as [a|e]; [by intros [= <- <-]|]. unfold mbind, rop_bind. destruct (fail e st). intros [= <- <-]. by exists e. Qed.
(** Nothing is sent that the cursor does not hold. *)
Lemma dispatched_driving log request op workload values st st' r : replay_dispatched request op workload values st = (st', r) -> Driving log st ->
  match r with
  | inr _ => Driving (Sent (Cursor.step (Replay.cursor (fst st))) op (commitment (ActionRequest.input request)) :: log) st'
             /\ Cursor.step (Replay.cursor (fst st')) = Cursor.step (Replay.cursor (fst st))
  | inl _ => Driving log st'
  end.
Proof.
  unfold replay_dispatched. unfold mbind at 1 2, rop_bind at 1 2, seeing. intros H D.
  destruct (negb _).
  { unfold mbind, rop_bind in H. destruct (fail _ st) as [st1 code] eqn:E. injection H as <- <-. pose proof (onwards_fail log "routine-step-changed" st) as Ho. rewrite E in Ho. by destruct (Ho D). }
  unfold mbind at 1, rop_bind at 1 in H. destruct (serving service_now st) as [st1 now] eqn:E1.
  pose proof (onwards_serving log service_now (serving_around team snap log epoch_now) st) as Ho1. rewrite E1 in Ho1. destruct (Ho1 D) as (D1 & _).
  assert (fst st1 = fst st) as Ef by (unfold serving in E1; destruct (service_now _); by injection E1 as <- _).
  unfold trying at 1, mbind at 1, rop_bind at 1 in H. destruct (or_fail _ st1) as [st2 [e|next]] eqn:E2.
  { injection H as <- <-. pose proof (onwards_or_fail log (dispatch (Replay.cursor (fst st)) (Replay.plan (fst st)) op (commitment (ActionRequest.input request)) workload now) st1) as Ho. rewrite E2 in Ho. by destruct (Ho D1). }
  apply or_fail_run in E2 as [Hd ->]. pose proof (cstep_dispatch _ _ _ _ _ _ _ Hd) as Hstep.
  assert (checked next = Ok next) as Hch by (unfold dispatch in Hd; inv_ok; match goal with E : checked _ = Ok _ |- _ => exact (checked_again _ _ E) end).
  pose proof (driving_cursor _ _ D) as Hc. pose proof (driving_reached _ _ D) as Hr.
  pose proof (later_run _ _ _ Hstep Hch Hc) as Hn. pose proof (dispatch_keeps _ _ _ _ _ _ _ Hd (proj1 Hc)) as Hka.
  pose proof (reached_still log _ _ (cstep_later _ _ _ Hstep) Hka (dispatch_step _ _ _ _ _ _ _ Hd) Hr) as Hrn.
  unfold trying at 1, mbind at 1, rop_bind at 1 in H. destruct (replay_seal next st1) as [st2 [e|u]] eqn:E3; destruct (seal_driving _ _ _ _ _ E3 D1 Hn Hrn) as (D2 & _ & Hcur); [by injection H as <- <-|].
  destruct Hcur as (Ecur & c2 & Hsealed & Hsame).
  assert (Driving (Sent (Cursor.step (Replay.cursor (fst st))) op (commitment (ActionRequest.input request)) :: log) st2) as D3.
  { apply (logged _ _ _ c2); [done..| |done|by rewrite Ecur]. rewrite Ecur. apply reached_cons; [done|].
    unfold dispatch in Hd. inv_ok. match goal with E : checked _ = Ok _ |- _ => rewrite (checked_Ok _ _ E) end. by split_and!. }
  assert (Cursor.step (Replay.cursor (fst st2)) = Cursor.step (Replay.cursor (fst st))) as Estep.
  { rewrite Ecur. exact (dispatch_step _ _ _ _ _ _ _ Hd). }
  clear D2 Hsealed. revert H. generalize (Sent (Cursor.step (Replay.cursor (fst st))) op (commitment (ActionRequest.input request)) :: log) D3. intros log' D4 H.
  unfold mbind at 1, rop_bind at 1 in H. destruct (protect values st2) as [st3 p] eqn:E4. pose proof (onwards_protect log' values st2) as Ho4. rewrite E4 in Ho4. destruct (Ho4 D4) as (D5 & _ & (S5 & _)).
  unfold mbind at 1, rop_bind at 1 in H. destruct (serving (around_call monotonic_now) st3) as [st4 instant] eqn:E5.
  pose proof (onwards_serving log' (around_call monotonic_now) (serving_around team snap log' monotonic_now) st3) as Ho5. rewrite E5 in Ho5. destruct (Ho5 D5) as (D6 & _ & (S6 & _)).
  unfold mbind at 1, rop_bind at 1 in H. destruct (setting _ st4) as [st5 u5] eqn:E6. injection H as <- <-.
  match type of E6 with setting ?f st4 = _ => pose proof (onwards_setting log' f) as Ho6 end. specialize (Ho6 ltac:(done) st4). rewrite E6 in Ho6.
  destruct (Ho6 D6) as (D7 & _ & (S7 & _)). cbn [fst] in S5, S6, S7, D7. split; [done|congruence].
Qed.
Lemma serving_slot log tm bi step position result_ p : serving_along team snap log (slot (J := J) (U := U) tm bi step position result_ p).
Proof.
  unfold slot. destruct (Protection.lost p); [apply serving_ret|]. destruct (output_safe _ _ _); [|apply serving_ret]. apply serving_attempt; [|intros; apply serving_ret].
  destruct (output_compared _); [|apply serving_ret]. apply serving_raising, serving_bind; [apply serving_stored; intros sv; by apply digest_along|]. intros digest. apply serving_ret.
Qed.
Definition completes (c : Cursor.Cursor) (plan : Plan.Plan) (result_ : Value) (next : Cursor.Cursor) : Prop := exists shown, complete c plan result_ shown = Ok next.
Lemma with_advance log c plan result_ p : serving_with team snap log (replay_advance (J := J) (U := U) team c plan result_ p) (when_ok (completes c plan result_)).
Proof.
  unfold replay_advance. eapply (with_attempt _ _ _ _ _ (fun _ => True)).
  - eapply with_weaken, with_along; [by intros []|]. destruct (plan_shown plan) as [shown|]; [|apply serving_ret]. destruct (_ =? _)%nat; [|apply serving_ret].
    apply serving_attempt; [apply serving_slot|]. intros v. apply serving_ret.
  - intros found _. apply with_ret. destruct (complete c plan result_ found) as [next|] eqn:E; [|done]. by exists found.
Qed.
(** A verdict or an answer changes nothing of what is driven. *)
Lemma kept_silent log e (s : RoutineStore.RoutineStore F) : silent e -> Kept team snap log s -> Kept team snap (e :: log) s.
Proof.
  intros He [Hok Hr Hi Hc]. split; [done..|]. destruct Hc as [[Hn Hq]|(c & Hv & Hrun & Hre & Hl & Hs)]; [left; split; [done|by apply quiet_silent]|].
  right. exists c. split_and!; [done..|by apply reached_silent| |done]. intros [E|Hin]%elem_of_cons; [by subst e|by apply Hl].
Qed.
Lemma driving_silent log e st : silent e -> Driving log st -> Driving (e :: log) st.
Proof. intros He [Hs Hk Hsn Ht Hp Hc Hr]. split; try done; [by apply kept_silent|by apply reached_silent]. Qed.
(** A step counts as completed once its completion is sealed. *)
Lemma advanced_driving log results st st' r : replay_advanced results st = (st', r) -> Driving log st -> Answered (Cursor.step (Replay.cursor (fst st))) ∈ log ->
  (Driving log st' /\ Cursor.step (Replay.cursor (fst st')) = Cursor.step (Replay.cursor (fst st)))
  \/ (Driving (Completed (Cursor.step (Replay.cursor (fst st))) :: log) st' /\ Cursor.step (Replay.cursor (fst st')) = S (Cursor.step (Replay.cursor (fst st)))).
Proof.
  unfold replay_advanced. unfold mbind at 1 2 3, rop_bind at 1 2 3, seeing. intros H D Hans. rewrite (driving_team _ _ D) in H.
  assert (forall {A} (m : rop A) st0 st1 (a : A), m st0 = (st1, a) -> onwards log m -> onward log st st0 -> onward log st st1) as Hgo.
  { intros A m st0 st1 a E Hm H0. specialize (Hm st0). rewrite E in Hm. eapply onward_trans; [exact H0|exact Hm]. }
  assert (forall st1, onward log st st1 -> Driving log st1 /\ Cursor.step (Replay.cursor (fst st1)) = Cursor.step (Replay.cursor (fst st))) as Hstop.
  { intros st1 H1. destruct (H1 D) as (D1 & _ & (E & _)). by split. }
  pose proof (onward_refl log st) as H0.
  unfold trying at 1, mbind at 1, rop_bind at 1 in H. destruct (or_fail _ st) as [st1 [e|step]] eqn:E1; [injection H as <- <-; left; apply Hstop; by apply (Hgo _ _ _ _ _ E1 (onwards_or_fail _ _))|].
  apply or_fail_run in E1 as [_ ->].
  unfold trying at 1, mbind at 1, rop_bind at 1 in H. destruct (or_fail _ st) as [st1 [e|secrets]] eqn:E1; [injection H as <- <-; left; apply Hstop; by apply (Hgo _ _ _ _ _ E1 (onwards_or_fail _ _))|].
  apply or_fail_run in E1 as [_ ->].
  unfold mbind at 1, rop_bind at 1 in H. destruct (protect secrets st) as [st1 p] eqn:E1. pose proof (Hgo _ _ _ _ _ E1 (onwards_protect _ _) H0) as H1.
  unfold mbind at 1, rop_bind at 1, seeing in H. destruct (Replay.failure (fst st1)); [injection H as <- <-; left; by apply Hstop|].
  unfold trying at 1 in H. unfold mbind at 1, rop_bind at 1 in H. unfold mbind at 1, rop_bind at 1 in H.
  destruct (serving (replay_advance _ _ _ _ _) st1) as [st2 [e|next]] eqn:E2.
  { pose proof (Hgo _ _ _ _ _ E2 (onwards_serving _ _ (along_with _ _ _ _ _ (with_advance _ _ _ _ _))) H1) as H2. unfold mbind, rop_bind in H. destruct (fail e st2) as [st3 code] eqn:E3.
    injection H as <- <-. left. apply Hstop. by apply (Hgo _ _ _ _ _ E3 (onwards_fail _ _)). }
  pose proof (Hgo _ _ _ _ _ E2 (onwards_serving _ _ (along_with _ _ _ _ _ (with_advance _ _ _ _ _))) H1) as H2. destruct (H2 D) as (D2 & Ep2 & S2).
  assert (completes (Replay.cursor (fst st)) (Replay.plan (fst st)) (default VNull (get results (interrupt (Cursor.step (Replay.cursor (fst st)))))) next) as [shown Hcomplete].
  { destruct (H1 D) as (D1 & _). unfold serving in E2. match type of E2 with context [replay_advance ?t ?c ?pl ?v ?q] => pose proof (with_advance log c pl v q (snd st1) (driving_separate _ _ D1) (driving_kept _ _ D1)) as [_ Hw] end.
    destruct (replay_advance _ _ _ _ _ (snd st1)) as [s2 [e|n]]; [done|]. by injection E2 as _ <-. }
  unfold mret at 1, rop_ret at 1 in H. pose proof (cstep_complete _ _ _ _ _ Hcomplete) as Hstep. pose proof (cstep_later _ _ _ Hstep) as Hlater.
  assert (checked next = Ok next /\ Cursor.step next = S (Cursor.step (Replay.cursor (fst st)))) as [Hch Hs].
  { unfold complete in Hcomplete. inv_ok. destruct (Plan.steps _ !! _); [|done]. inv_ok. match goal with E : checked _ = Ok _ |- _ => split; [exact (checked_again _ _ E)|by rewrite (checked_Ok _ _ E)] end. }
  pose proof (later_run _ _ _ Hstep Hch (driving_cursor _ _ D)) as Hn. assert (reached log next) as Hrn by (eapply reached_later; [exact Hlater|by eapply complete_keeps| |exact (driving_reached _ _ D)]; intros k Hk; by replace k with (Cursor.step (Replay.cursor (fst st))) by lia).
  unfold trying in H. unfold mbind at 1, rop_bind at 1 in H. destruct (replay_seal next st2) as [st3 [e|u]] eqn:E3; destruct (seal_driving _ _ _ _ _ E3 D2 Hn Hrn) as (D3 & _ & Hcur).
  { injection H as <- <-. left. split; [done|]. rewrite Hcur. by destruct S2. }
  right. destruct Hcur as (Ecur & c2 & Hsealed & Hsame).
  assert (Driving (Completed (Cursor.step (Replay.cursor (fst st))) :: log) st3) as D4.
  { apply (logged _ _ _ c2); [done..| |done|by rewrite Ecur]. rewrite Ecur. apply reached_cons; [done|lia]. }
  assert (onward (Completed (Cursor.step (Replay.cursor (fst st))) :: log) st3 st') as Hrest.
  { replace st' with (fst (st', r)) by done. rewrite <- H. revert st3 E3 H D3 Ecur Hsealed D4. intros st3 _ _ _ _ _ _. apply onwards_bind; [apply onwards_record_step|]. intros _. apply onwards_turn. }
  destruct (Hrest D4) as (D5 & _ & (E & _)). split; [done|]. by rewrite E, Ecur.
Qed.
(** *** Opening the runtime *)
Lemma admit_digest document contracts plan : admit_plan document contracts = Ok plan -> Plan.digest plan = digest document.
Proof.
  unfold admit_plan. intros H. apply result_bind_Ok in H as ([[[tz raws] output] encoded] & Hparts & H). apply result_bind_Ok in H as (steps & _ & H).
  apply result_bind_Ok in H as ([] & _ & [= <-]). cbn [Plan.digest]. unfold digest. unfold document_parts in Hparts. by repeat case_match; inv_ok; simplify_eq.
Qed.
Lemma with_current_plan log document : serving_with team snap log (current_plan (F := F) (J := J) team document) (when_ok (fun plan => Plan.digest plan = digest document)).
Proof.
  unfold current_plan. eapply with_bind; [apply with_along, serving_around|]. intros [e|scope] _; apply with_ret; [done|].
  destruct (admit_plan _ _) as [plan|] eqn:E; [|done]. by apply admit_digest in E.
Qed.
(** A runtime opened over the run's files drives the run. *)
Definition opens (log : list Event) (m : svc (string + ReplayRuntime)) : Prop := forall s s' r, m s = (s', r) -> separate s -> Kept team snap log (Service.store s) ->
  match r with inr rt => Driving log (rt, s') | inl _ => separate s' /\ Kept team snap log (Service.store s') end.
Lemma opens_attempt log {A} (m : svc (string + A)) (f : A -> svc (string + ReplayRuntime)) Q :
  serving_with team snap log m (when_ok Q) -> (forall a, Q a -> opens log (f a)) -> opens log (attempt m f).
Proof.
  intros Hm Hf s s' r H Hs Hk. unfold attempt, mbind, svc_bind in H. destruct (Hm s Hs Hk) as [[Hs1 Ha] Hq]. destruct (m s) as [s1 [e|a]]; cbn [fst snd] in *; destruct (Ha Hk) as (Hk1 & _).
  - by injection H as <- <-.
  - by eapply Hf.
Qed.
Lemma seal_recovery_run log (s s' : Service) r : seal_recovery team snap s = (s', r) -> separate s -> Kept team snap log (Service.store s) ->
  separate s' /\ Kept team snap log (Service.store s') /\ (r = inr tt -> snapshot_kept team snap (Service.store s')).
Proof.
  unfold seal_recovery. intros H Hs Hk. destruct (negb _); [injection H as <- <-; by split_and!|]. unfold raising, mbind, svc_bind, under_lock, stored_call in H. rewrite then_run in H.
  destruct (store_lock_team team (Service.store s)) as [E Hl]. destruct (store_lock team (Service.store s)) as [st1 [e|lock]]; cbn [fst snd] in *; subst st1.
  - injection H as <- <-. split_and!; [by apply (separate_fixed s)|done|done].
  - destruct (put_recovery lock (Binding.run_id (Snapshot.binding snap)) (Snapshot.sealed snap) (Service.store s)) as [sv x] eqn:Ep.
    destruct (put_recovery_kept team snap Hb lock log _ _ _ Ep Hl Hk) as (Hk' & Hf & _ & Hin). injection H as <- <-.
    split_and!; [by apply (separate_fixed s)|done|]. destruct x as [|[]]; [done|]. intros _. by apply Hin.
Qed.
Lemma reopened_run log (s s' : Service) r : reopened team snap s = (s', r) -> separate s -> Kept team snap log (Service.store s) ->
  separate s' /\ Kept team snap log (Service.store s') /\ (snapshot_kept team snap (Service.store s) -> snapshot_kept team snap (Service.store s'))
  /\ match r with
     | inr (Some c) => of_the_run snap c /\ reached log c
     | inr None => quiet_log log
     | inl _ => True
     end.
Proof.
  unfold reopened. intros H Hs Hk. unfold attempt, raising, mbind, svc_bind, under_lock, stored_call in H. rewrite then_run in H.
  destruct (store_lock_team team (Service.store s)) as [E Hl]. destruct (store_lock team (Service.store s)) as [st1 [e|lock]]; cbn [fst snd] in *; subst st1.
  - injection H as <- <-. split_and!; [by apply (separate_fixed s)|done..].
  - destruct (read_cursor lock (Snapshot.binding snap) (Service.store s)) as [sv found] eqn:Er.
    destruct (read_cursor_kept _ _ Hb _ log _ _ _ Er Hl Hk) as [Hstill Hfound]. destruct (still_along _ _ Hb log _ _ Hstill Hk) as (Hk' & Hf & Hsn).
    assert (separate (s <| Service.store := sv |>)) as Hs' by by apply (separate_fixed s).
    destruct found as [e|[c|]]; injection H as <- <-; split_and!; try done.
    + destruct Hfound as (c0 & (_ & _ & Hre & _) & Ha & Hrun). destruct (negb _); [done|]. split; [done|]. eapply reached_same; [by apply agree_progress|done].
    + eapply absent_quiet; [exact Hk|exact Hfound].
Qed.
Lemma runtime_driving log value routine values : (forall network, network_of (Run.generation value) (Run.run_id value) = Some network -> snapshot_of network value routine = snap) ->
  opens log (runtime team value routine values).
Proof.
  intros Hsn. unfold runtime. destruct (network_of _ _) as [network|] eqn:En; [|intros s s' r [= <- <-] Hs Hk; done]. rewrite (Hsn network eq_refl).
  assert (digest (Routine.plan routine) = plan_digest snap) as Hdig by (rewrite <- (Hsn network eq_refl); reflexivity).
  eapply opens_attempt; [apply with_current_plan|]. intros plan Hplan. rewrite Hdig in Hplan. intros s s' r H Hs Hk.
  unfold attempt at 1, raising, mbind, svc_bind in H. destruct (seal_recovery team snap s) as [s1 [e|[]]] eqn:E1; destruct (seal_recovery_run log _ _ _ E1 Hs Hk) as (Hs1 & Hk1 & Hin); [by injection H as <- <-|].
  specialize (Hin eq_refl). cbn [mret svc_ret] in H. unfold attempt at 1, mbind, svc_bind in H.
  destruct (reopened team snap s1) as [s2 [e|found]] eqn:E2; destruct (reopened_run log _ _ _ E2 Hs1 Hk1) as (Hs2 & Hk2 & Hsn2 & Hfound); [by injection H as <- <-|]. specialize (Hsn2 Hin).
  unfold attempt at 1, mbind, svc_bind in H. destruct (replay_started plan snap found s2) as [s3 [e|started]] eqn:E3;
    assert (serving_along team snap log (replay_started (F := F) (J := J) plan snap found)) as Hserve by
      (unfold replay_started; destruct found; (apply serving_bind; [apply serving_protections|]); intros; [apply serving_ret|]; apply serving_bind; [apply serving_protections|]; intros; apply serving_bind; [apply serving_around|]; intros; apply serving_ret);
    specialize (Hserve s2 Hs2 Hk2); rewrite E3 in Hserve; destruct Hserve as [Hs3 Ha3]; destruct (Ha3 Hk2) as (Hk3 & _ & Hsn3); [by injection H as <- <-|].
  assert (of_the_run snap started /\ reached log started) as [Hrun Hre].
  { unfold replay_started, mbind, svc_bind in E3. destruct found as [c|].
    - destruct (protections_call _ s2). by injection E3 as _ <-.
    - destruct (protections_call (bind _) s2) as [s4 x4]. destruct (protections_call _ s4) as [s5 boot]. destruct (service_now s5) as [s6 now].
      destruct (start _ _ _ _) as [c|] eqn:Est; [|done]. injection E3 as _ <-. unfold start in Est. pose proof (checked_again _ _ Est) as Hch. apply checked_Ok in Est as ->.
      split; [by split_and!|]. by apply reached_quiet. }
  assert (Driving log (Replay.mk team plan (Routine.name routine) values started None None, s3)) as D by (split; cbn [fst snd]; auto).
  destruct found as [c|].
  - destruct (protection _) as [[rt s4] p] eqn:E4. injection H as <- <-. pose proof (onwards_protection log (Replay.mk team plan (Routine.name routine) values started None None, s3)) as Ho. rewrite E4 in Ho. by destruct (Ho D).
  - destruct (replay_seal started _) as [[rt s4] x] eqn:E4. destruct (seal_driving _ _ _ _ _ E4 D Hrun Hre) as (D' & _). injection H as <- <-. destruct x; [|done].
    split; [exact (driving_separate _ _ D')|exact (driving_kept _ _ D')].
Qed.
End Running.
