(* ===== verification/RecoverySafety.v ===== *)
(** * What a held run's recovery may do

    The theory of [Recovery] over [ReplaySafety]: the evidence of a hold reads back with
    the run's own binding, every write of recovery moves the run's cursor forward, an
    absence is recorded only on its evidence, and a run continues at most once, past
    nothing uncertain. *)

From stdpp Require Import base tactics list strings gmap pretty.
From Stdlib Require Import ZArith Lia Ascii.
From S2P Require Import Prelude Text Json Reader Utf8 ReaderSafety Floats RoundTrip Causes Calendar Platform Requests Redaction Executor Wire Instants Notices Schedule Dates Starts Plans Team Definitions Claims Runs Holds Cursors CursorSafety Journal RunDocuments Projection Credentials Walk Traces Outputs Previews Admission StateCodec Disk DiskSafety Sealing RoutineStore StoreSafety StoreResets Diagnostics DiagnosticSafety Service Replay Recovery ReplaySafety.

#[local] Open Scope Z_scope.

(** ** Evidence reads back *)
(** What the journal answers is text, as every string of the program. *)
Definition record_text (r : OperationRecord.OperationRecord) : Prop :=
  valid_utf8 (OperationRecord.interrupt_id r) = true /\ valid_utf8 (OperationRecord.operation_id r) = true /\ valid_utf8 (OperationRecord.state r) = true
  /\ in_i64 (OperationRecord.attempts r) = true /\ match OperationRecord.origin r with Some origin => valid_utf8 origin = true | None => True end.
Class TextJournal (J : Type) `{!RoutineJournal J} : Prop := {
  batch_text : forall generation j j' fingerprint state, batch_of generation j = (j', Some (Some (fingerprint, state))) -> valid_utf8 fingerprint = true;
  operations_text : forall generation fingerprint j j' operations, operations_of generation fingerprint j = (j', Some operations) -> List.Forall record_text operations
}.
(** A run record as the state file holds it. *)
Definition run_text (value : Run.Run) : Prop :=
  ROUTINE_ID_RE (Run.run_id value) = true /\ ROUTINE_ID_RE (Run.routine_id value) = true /\ valid_utf8 (Run.generation value) = true.
Lemma hex_utf8 n s : exactly n is_hex s = true -> valid_utf8 s = true.
Proof. unfold exactly. intros [_ H]%andb_true_iff. apply valid_utf8_iff, ascii_only. eapply all_bytes_impl; [apply hex_byte|exact H]. Qed.
Lemma utf8_app s t : valid_utf8 s = true -> valid_utf8 t = true -> valid_utf8 (s +:+ t) = true.
Proof. rewrite !valid_utf8_iff. intros Hs Ht. by apply Utf8_app. Qed.
Lemma split_once_back separator s a b : split_once separator s = Some (a, b) -> s = a +:+ separator +:+ b.
Proof.
  revert a b. induction s as [|x s IH]; intros a b H; cbn [split_once] in H; destruct (strip_prefix separator _) as [rest|] eqn:E.
  - injection H as <- <-. by apply strip_prefix_app in E.
  - done.
  - injection H as <- <-. by apply strip_prefix_app in E.
  - destruct (split_once separator s) as [[a' b']|] eqn:E'; [|done]. injection H as <- <-. by rewrite (IH _ _ eq_refl).
Qed.
Lemma generation_utf8 run_id generation : ROUTINE_ID_RE run_id = true -> generation_of run_id generation = true -> valid_utf8 generation = true.
Proof.
  intros Hr%hex_utf8. unfold generation_of. destruct generation; [done|]. cbn [is_empty]. destruct (split_once _ _) as [[network rest]|] eqn:E; [|done].
  intros [Hn%hex_utf8 Hrest]%andb_true_iff. apply split_once_back in E as ->. apply utf8_app; [done|]. apply utf8_app; [by vm_compute|].
  apply orb_true_iff in Hrest as [E|E]; apply seqb_true in E as ->; [done|]. apply utf8_app; [done|by vm_compute].
Qed.
Lemma each_In {A} (f : Value -> stored A) l found a : each f l = inr found -> In a found -> exists v, In v l /\ f v = inr a.
Proof.
  revert found. induction l as [|v l IH]; intros found H Hin; cbn [each] in H; inv_stored; [done|].
  destruct Hin as [<- | Hin]; [exists v; split; [by left|done]|]. match goal with E : each f l = inr _ |- _ => destruct (IH _ E Hin) as (w & ? & ?) end. exists w. split; [by right|done].
Qed.
Lemma decode_run_text v value : decode_run v = inr value -> run_text value.
Proof.
  intros H. unfold decode_run in H. inv_stored. match goal with E : run_members v = true |- _ => unfold run_members in E; rewrite !andb_true_iff in E; destruct E as [[_ E] _] end.
  repeat match goal with E : _ /\ _ |- _ => destruct E end. unfold run_text. cbn [Run.run_id Run.routine_id Run.generation]. split_and!; [done..|]. eapply generation_utf8; [|eassumption]. done.
Qed.
Lemma decoded_text {PF : Platform} {VO : Vocabulary} payload team st value : state_decode payload team = inr st -> In value (TeamRoutines.runs st) -> run_text value.
Proof.
  unfold state_decode. destruct (json_parse payload) as [v|]; [|done]. intros H Hin. unfold decode_value in H. inv_stored. cbn [TeamRoutines.runs] in Hin.
  match goal with E : each decode_run _ = inr _ |- _ => destruct (each_In _ _ _ _ E Hin) as (w & _ & Hw) end. by eapply decode_run_text.
Qed.

Definition evidence_document (incident_id : string) (value : Run.Run) (fingerprint : option string) (operations : list OperationRecord.OperationRecord) (recovery : Value) : Value :=
  object [("version", int INCIDENT_VERSION); ("incident_id", text incident_id); ("routine_id", text (Run.routine_id value));
     ("generation", text (Run.generation value)); ("fingerprint", Cursors.optional fingerprint);
     ("operations", VArray (map operation_evidence operations)); ("recovery", recovery)]%string.
Definition readable_value (v : Value) : Prop := admissible v = true /\ doubles v /\ height v < Strict.MAX_DEPTH.
Lemma operations_readable operations : List.Forall record_text operations ->
  admissible (VArray (map operation_evidence operations)) = true /\ doubles (VArray (map operation_evidence operations)) /\ height (VArray (map operation_evidence operations)) <= 2.
Proof.
  induction 1 as [|r l (H1 & H2 & H3 & H4 & H5) _ (IH1 & IH2 & IH3)]; [done|].
  cbn [map admissible forallb doubles fold_right height] in *. cbn [operation_evidence admissible forallb doubles fold_right map height text int number_ok].
  rewrite H1, H2, H3, H4, IH1. destruct (OperationRecord.origin r) as [o|]; cbn [optional from_option admissible doubles height text]; rewrite ?H5; split_and!; try done; lia.
Qed.
Lemma evidence_readable incident_id value fingerprint operations recovery :
  ROUTINE_ID_RE incident_id = true -> run_text value -> match fingerprint with Some f => valid_utf8 f = true | None => True end -> List.Forall record_text operations -> readable_value recovery ->
  let v := evidence_document incident_id value fingerprint operations recovery in admissible v = true /\ doubles v /\ height v <= Strict.MAX_DEPTH.
Proof.
  intros Hi%hex_utf8 (_ & Hr%hex_utf8 & Hg) Hf (Ho1 & Ho2 & Ho3)%operations_readable (Hv1 & Hv2 & Hv3). cbv zeta. unfold evidence_document.
  generalize dependent (VArray (map operation_evidence operations)). intros ops Ho1 Ho2 Ho3.
  unfold object. cbn [admissible forallb fst snd doubles fold_right map height text int number_ok].
  assert (admissible (optional fingerprint) = true /\ doubles (optional fingerprint) /\ height (optional fingerprint) = 0) as (Hp1 & Hp2 & Hp3) by by destruct fingerprint.
  rewrite Hi, Hr, Hg, Ho1, Hv1, Hp1. split_and!; try done. unfold Strict.MAX_DEPTH in *. lia.
Qed.

(** What is read of written evidence names the binding it was written with. *)
Lemma evidence_back {PF : Platform} {VO : Vocabulary} snap incident_id value fingerprint operations e r :
  readable_snapshot snap -> ROUTINE_ID_RE incident_id = true -> run_text value ->
  match fingerprint with Some f => valid_utf8 f = true | None => True end -> List.Forall record_text operations ->
  read_evidence (dumps CANONICAL (evidence_document incident_id value fingerprint operations (object (Snapshot.document snap)))) incident_id = Some e ->
  Evidence.recovery e = Some r -> same_snapshot snap r.
Proof.
  intros (Ha & Hf & Hh) Hi Hr Hfp Hops. assert (readable_value (object (Snapshot.document snap))) as Hdoc.
  { unfold object, Snapshot.document in *. cbn [admissible forallb fst snd doubles fold_right map height] in Ha, Hf, Hh. rewrite !andb_true_iff in Ha.
    split_and!; [|cbn [doubles fold_right map snd]; tauto|cbn [height map fold_right snd]; lia]. cbn [admissible forallb fst snd]. rewrite !andb_true_iff. split_and!; tauto. }
  destruct (evidence_readable incident_id value fingerprint operations _ Hi Hr Hfp Hops Hdoc) as (Hv1 & Hv2 & Hv3). cbv zeta in *.
  unfold read_evidence. rewrite parse_dumps by done. intros H Hrec. apply bind_Some in H as (v & Ev & H). apply (inj Some) in Ev as <-. apply bind_Some in H as (ms & _ & H).
  destruct (at_ _ "operations"); try done. destruct (negb _); [done|]. apply bind_Some in H as (fp & _ & H). apply bind_Some in H as (routine & _ & H). apply bind_Some in H as (generation & _ & H).
  assert (at_ (ordered CANONICAL (evidence_document incident_id value fingerprint operations (object (Snapshot.document snap)))) "recovery" = ordered CANONICAL (object (Snapshot.document snap))) as Er.
  { unfold at_. rewrite get_ordered by done. reflexivity. }
  rewrite Er in H. unfold with_recovery in H. assert (is_null (ordered CANONICAL (object (Snapshot.document snap))) = false) as En by done. rewrite En in H.
  apply bind_Some in H as (found & Hfound & H). destruct (of_run _ _ _); [|done]. injection H as <-. injection Hrec as <-. by eapply read_snapshot_back.
Qed.
Lemma evidence_bytes {PF : Platform} snap r incident_id value fingerprint operations : same_snapshot snap r ->
  evidence_of incident_id value fingerprint operations (Some r) = dumps CANONICAL (evidence_document incident_id value fingerprint operations (object (Snapshot.document snap))).
Proof.
  intros (Eb & En & Ep). change (evidence_of incident_id value fingerprint operations (Some r)) with
    (dumps CANONICAL (evidence_document incident_id value fingerprint operations (object (Snapshot.document r)))).
  rewrite <- (dumps_ordered CANONICAL (evidence_document _ _ _ _ (object (Snapshot.document r)))), <- (dumps_ordered CANONICAL (evidence_document _ _ _ _ (object (Snapshot.document snap)))).
  assert (ordered CANONICAL (object (Snapshot.document r)) = ordered CANONICAL (object (Snapshot.document snap))) as E by (rewrite !ordered_snapshot, Eb, En, Ep, ordered_twice; done).
  f_equal. revert E. generalize (object (Snapshot.document r)) (object (Snapshot.document snap)). intros d1 d2 E. unfold evidence_document, object. cbn [ordered map fst snd]. by rewrite E.
Qed.

(** ** Records of incidents *)
Section Records.
  Context {PF : Platform} {VO : Vocabulary} `{C : !Crypto} {L : CryptoLaws C} {F : Type} `{!System F} {FD : FullDraws F}.
  Abbreviation Store := (RoutineStore.RoutineStore F).
  Context (team : string) (snap : SnapshotOf) (Hb : binding_valid (Snapshot.binding snap) = true).
  Abbreviation run := (Binding.run_id (Snapshot.binding snap)).
  Abbreviation along := (along team snap).

(** What moves only the run's incident, and leaves it fitting. *)
Lemma incident_along log (s s' : Store) : others_kept (incident_path team snap s) s s' -> (incident_kept team snap s -> incident_kept team snap s') -> along log s s'.
Proof.
  intros Ho Hi Hk. pose proof Ho as (Hf & Hok' & Hkk & Hq). pose proof (kept_ok _ _ _ _ Hk) as Hok.
  assert (cursor_path team snap s' = cursor_path team snap s) as Ec by by apply team_file_fixed.
  assert (recovery_path team snap s' = recovery_path team snap s) as Er by by apply team_file_fixed.
  assert (file_of s' (cursor_path team snap s) = file_of s (cursor_path team snap s)) as Fc by (apply Hq; [by apply records_apart|by apply team_file_keyring|by apply cursor_plain]).
  assert (file_of s' (recovery_path team snap s) = file_of s (recovery_path team snap s)) as Fr by (apply Hq; [by apply records_apart|by apply team_file_keyring|by apply recovery_plain]).
  assert (snapshot_kept team snap s -> snapshot_kept team snap s') as Hsn by (unfold snapshot_kept, recovery_view; rewrite Er; by apply opened_same).
  split_and!; [|done..]. split; [done| |apply Hi; by apply kept_incident in Hk|].
  - destruct (kept_recovery _ _ _ _ Hk) as [Hn|Hn]; [left; by rewrite Er, Fr|right; auto].
  - destruct (kept_cursor _ _ _ _ Hk) as [[Hn Hquiet]|(c & Hv & ? & ? & ? & ?)]; [left; by rewrite Ec, Fc|]. right. exists c. split; [|split_and!; auto].
    unfold cursor_view in *. rewrite Ec. by apply (opened_same _ _ _ s).
Qed.
Lemma incident_file lock (s : Store) : TeamLock.team lock = team -> lock_file lock (record_name run Incident) s = incident_path team snap s.
Proof. intros Ht. unfold lock_file, incident_path, team_file. by rewrite Ht. Qed.
Lemma put_incident_along lock log id payload (s : Store) : TeamLock.team lock = team -> (id = run -> evidence_fits snap payload) -> along log s (fst (put_incident lock id payload s)).
Proof.
  intros Ht Hfit Hk. destruct (put_incident lock id payload s) as [s' r] eqn:E. cbn [fst]. pose proof (kept_ok _ _ _ _ Hk) as Hok.
  unfold put_incident, put_record in E. rewrite then_run in E. unfold pass at 1, run_id_of in E. destruct (ROUTINE_ID_RE id) eqn:Hid; [|injection E as <- <-; by apply along_refl].
  destruct (negb _) eqn:Hlen; [injection E as <- <-; by apply along_refl|]. apply negb_false_iff, andb_true_iff in Hlen as [Hl1%Z.leb_le Hl2%Z.leb_le].
  apply sealed_write_view in E as [Ho Hv]; [|done|by apply run_not_temporary|done].
  destruct (decide (id = run)) as [-> | Hne].
  - rewrite (incident_file lock s Ht), Ht in *. refine (incident_along log s s' Ho _ Hk). intros Hi. pose proof Ho as (Hf & _ & Hkk & _).
    assert (incident_path team snap s' = incident_path team snap s) as Ep by by apply team_file_fixed.
    assert (opened_view s' (incident_path team snap s) (record_aad Incident team run) Incident = inr (Some payload) -> incident_kept team snap s') as Hnew.
    { intros Hnew. right. exists payload. unfold incident_view. rewrite Ep. split; [done|by apply Hfit]. }
    destruct r as [e|[]]; [|by apply Hnew]. destruct Hv as [Hsame|Hv]; [|by apply Hnew]. by apply (incident_unmoved team snap s).
  - destruct (record_else team snap Hb lock id Incident s Ht Hid Hne) as (H1 & H2 & H3). by apply (others_along team snap Hb log (lock_file lock (record_name id Incident) s)).
Qed.
Lemma delete_incident_along lock log id (s : Store) : TeamLock.team lock = team -> along log s (fst (delete_record Incident lock id s)).
Proof.
  intros Ht Hk. destruct (delete_record Incident lock id s) as [s' r] eqn:E. cbn [fst]. pose proof (kept_ok _ _ _ _ Hk) as Hok.
  unfold delete_record in E. rewrite then_run in E. unfold pass at 1, run_id_of in E. destruct (ROUTINE_ID_RE id) eqn:Hid; [|injection E as <- <-; by apply along_refl].
  unfold sealed_delete in E. rewrite then_run in E. unfold look at 1, on_disk_or in E. destruct (remove_file _ _) as [d x] eqn:Er. apply remove_file_removes in Er.
  assert (along log s (s <| RoutineStore.disk := d |>)) as Ha; [|destruct x; injection E as <- <-; by apply Ha]. destruct x as [e|[]].
  - apply still_along; [done|]. split; [done|]. split; [done|apply store_disk_ok].
  - destruct Er as (Hu & Hn & Hq). assert (others_kept (lock_file lock (record_name id Incident) s) s (s <| RoutineStore.disk := d |>)) as Ho.
    { split; [done|]. split; [by apply store_disk_ok|]. split.
      - intros _. apply Hq. apply not_eq_sym. by apply lock_file_keyring.
      - intros q Hqp _ _. by apply Hq. }
    destruct (decide (id = run)) as [-> | Hne].
    + rewrite (incident_file lock s Ht) in *. apply (incident_along log s _ Ho). intros _. left.
      assert (incident_path team snap (s <| RoutineStore.disk := d |>) = incident_path team snap s) as -> by by apply team_file_fixed. exact Hn.
    + destruct (record_else team snap Hb lock id Incident s Ht Hid Hne) as (H1 & H2 & H3). by apply (others_along team snap Hb log (lock_file lock (record_name id Incident) s)).
Qed.
(** What is read of the run's incident fits. *)
Lemma read_incident_fits lock log (s : Store) : TeamLock.team lock = team -> Kept team snap log s ->
  match snd (read_incident lock run s) with inr (Some payload) => evidence_fits snap payload | _ => True end.
Proof.
  intros Ht Hk. destruct (read_incident lock run s) as [s' [e|[payload|]]] eqn:E; try done. cbn [snd]. apply read_record_view in E as [_ Hv]; [|by eapply kept_ok].
  unfold record_view, record_path in Hv. rewrite (incident_file lock s Ht), Ht in Hv. destruct (kept_incident _ _ _ _ Hk) as [Hn|(p & Hp & Hfit)].
  - unfold opened_view in Hv. by rewrite Hn in Hv.
  - unfold incident_view in Hp. rewrite Hv in Hp. by injection Hp as ->.
Qed.
End Records.

(** ** Holding a run keeps its files *)
Section Holding.
  Context {PF : Platform} {VO : Vocabulary} `{C : !Crypto} {L : CryptoLaws C} {F J U : Type} `{!System F} {FD : FullDraws F} `{!RoutineJournal J} {TJ : TextJournal J} `{!Surroundings U}.
  Abbreviation Service := (Service.Service F J U).
  Abbreviation svc := (svc (F := F) (J := J) (U := U)).
  Context (team : string) (snap : SnapshotOf) (Hb : binding_valid (Snapshot.binding snap) = true) (Hsnap : readable_snapshot snap).
  Abbreviation run := (Binding.run_id (Snapshot.binding snap)).
  Abbreviation serving_along := (ReplaySafety.serving_along (F := F) (J := J) (U := U) team snap).
  Abbreviation serving_with := (ReplaySafety.serving_with (F := F) (J := J) (U := U) team snap).

Lemma with_journal log {A} (m : J -> J * A) (Q : A -> Prop) : (forall j j' a, m j = (j', a) -> Q a) -> serving_with log (journal_call (F := F) (U := U) m) Q.
Proof.
  intros Hm s Hs Hk. destruct (serving_journal team snap log m s Hs Hk) as [H1 H2]. unfold journal_call in *. destruct (m (Service.journal s)) as [j a] eqn:E. split; [done|]. by eapply Hm.
Qed.
Lemma with_unavailing log {Er A} (e : Er) (m : svc (option A)) Q : serving_with log m (fun r => match r with Some a => Q a | None => True end) -> serving_with log (unavailing e m) (when_ok Q).
Proof. intros Hm. eapply with_bind; [exact Hm|]. intros [a|] Ha; by apply with_ret. Qed.
Lemma with_load log : serving_with log (load_state team) (when_ok (fun st => forall value, In value (TeamRoutines.runs st) -> run_text value)).
Proof.
  apply with_raising. unfold under_lock. apply with_stored. intros s Hk. split; [apply lock_along; intros lock _; by apply load_along|]. rewrite then_run.
  destruct (store_lock_team team s) as [E _]. destruct (store_lock team s) as [s1 [e|lock]]; cbn [fst snd] in *; subst s1; [done|].
  destruct (store_load lock s) as [s' [e|st]] eqn:El; [done|]. apply load_shows in El as [_ Hv]; [|by eapply kept_ok]. cbn. unfold team_view in Hv.
  destruct (file_of s _); [by intros value; eapply decoded_text|]. by injection Hv as <-.
Qed.
Lemma serving_incident log lock id : of_team team lock -> serving_along log (stored_call (J := J) (U := U) (read_incident lock id)).
Proof. intros Ht. apply serving_stored. intros s. by apply read_record_along. Qed.
(** The evidence of a hold is that of its run. *)
Lemma serving_seal_evidence log lock value current : of_team team lock -> run_text value -> match current with Some (f, _) => valid_utf8 f = true | None => True end ->
  serving_along log (seal_evidence lock value current).
Proof.
  intros Ht Hv Hc. apply (along_with _ _ _ _ (when_ok (fun _ => True))). unfold seal_evidence. destruct (match current with Some _ => _ | None => _ end); [by apply with_ret|].
  eapply (with_attempt _ _ _ _ _ (List.Forall record_text)).
  { destruct current as [[f st]|]; cbn [option_map fst]; [|apply with_ret; constructor]. apply with_unavailing, with_journal. intros j j' [ops|] E; [by eapply operations_text|done]. }
  intros operations Hops. eapply with_attempt; [by apply with_raising, with_snapshot|]. intros found Hfound. eapply (with_attempt _ _ _ _ _ (fun _ => True)); [|intros _ _; apply with_ret; by destruct (read_evidence _ _)].
  eapply with_weaken, with_along; [by intros []|]. apply serving_raising, serving_stored. intros s. apply put_incident_along; [done..|]. intros Er e r He Hr.
  destruct found as [rs|].
  - destruct Hfound as [_ Hsame]. specialize (Hsame Er). rewrite (evidence_bytes snap rs) in He by done. rewrite Er in He.
    refine (proj1 (evidence_back snap run value (option_map fst current) operations e r Hsnap _ Hv _ Hops He Hr)); [by rewrite <- Er; apply Hv|by destruct current as [[]|]].
  - exfalso. unfold read_evidence in He. revert He. rewrite Er. change (evidence_of run value (option_map fst current) operations None) with
      (dumps CANONICAL (evidence_document run value (option_map fst current) operations VNull)).
    destruct (evidence_readable run value (option_map fst current) operations VNull) as (H1 & H2 & H3); [by rewrite <- Er; apply Hv|done|by destruct current as [[]|]|done|done|]. cbv zeta in *.
    rewrite parse_dumps by done. intros He. apply bind_Some in He as (v & Ev & He). apply (inj Some) in Ev as <-. apply bind_Some in He as (ms & _ & He).
    destruct (at_ _ "operations"); try done. destruct (negb _); [done|]. apply bind_Some in He as (fp & _ & He). apply bind_Some in He as (routine & _ & He). apply bind_Some in He as (generation & _ & He).
    unfold at_ in He. rewrite get_ordered in He by done. change (get (evidence_document run value (option_map fst current) operations VNull) "recovery") with (Some VNull) in He. cbn in He. injection He as <-. done.
Qed.
Lemma serving_held_evidence log value : run_text value -> serving_along log (held_evidence team value).
Proof.
  intros Hv. apply (along_with _ _ _ _ (when_ok (fun _ => True))). unfold held_evidence.
  eapply (with_attempt _ _ _ _ _ (fun current => match current with Some (f, _) => valid_utf8 f = true | None => True end)).
  { apply with_unavailing, with_journal. intros j j' [[[f st]|]|] E; [by eapply batch_text|done..]. }
  intros current Hc. eapply with_attempt; [apply with_raising, with_lock|]. intros lock Ht.
  eapply (with_attempt _ _ _ _ _ (fun _ => True)); [by eapply with_weaken, with_along, serving_raising, serving_incident; [by intros []|]|]. intros payload _.
  eapply (with_attempt _ _ _ _ _ (fun _ => True)); [apply with_ret; destruct payload as [p|]; [by destruct (read_evidence p _)|done]|]. intros sealed _.
  eapply (with_attempt _ _ _ _ _ (fun _ => True)).
  { eapply with_weaken, with_along; [by intros []|]. destruct sealed as [e|]; [destruct (_ =s _); [apply serving_ret|]|]; by apply serving_seal_evidence. }
  intros e _. destruct (negb _); [by apply with_ret|]. eapply (with_attempt _ _ _ _ _ (fun _ => True)); [|intros; by apply with_ret].
  eapply with_weaken, with_along; [by intros []|]. destruct (Evidence.fingerprint e); [apply serving_unavailing, serving_journal|apply serving_ret].
Qed.
Lemma serving_under_lock log {A} (f : TeamLock.TeamLock -> kept_op (F := F) A) : (forall lock s, of_team team lock -> along team snap log s (fst (f lock s))) ->
  serving_along log (under_lock (J := J) (U := U) team f).
Proof. intros Hf. apply serving_stored. intros s. apply lock_along. intros lock Ht. by apply Hf. Qed.
Lemma serving_stopped_step log found being_deleted : serving_along log (stopped_step team found being_deleted).
Proof.
  unfold stopped_step. destruct found; [|apply serving_ret]. apply serving_bind; [|intros; apply serving_ret]. apply serving_under_lock. intros lock s Ht. by apply read_cursor_along.
Qed.
Lemma serving_reconcile log run_id : serving_along log (reconcile team run_id).
Proof.
  apply (along_with _ _ _ _ (when_ok (fun _ => True))). unfold reconcile. eapply with_attempt; [apply with_load|]. intros st Hst.
  destruct (List.find _ _) as [value|] eqn:Hfind; [|by apply with_ret]. apply find_some in Hfind as [Hin _]. specialize (Hst _ Hin).
  destruct (negb _); [by apply with_ret|]. eapply with_weaken, with_along; [by intros []|]. apply serving_bind; [by apply serving_held_evidence|]. intros held.
  apply serving_attempt; [apply serving_ret|]. intros found. apply serving_attempt; [destruct found; [apply serving_stopped_step|apply serving_ret]|]. intros step.
  apply serving_bind; [destruct step; [apply serving_ret|apply serving_around]|]. intros _. apply serving_bind; [apply serving_around|]. intros now. by apply serving_applied.
Qed.
Lemma serving_hold log run_id lease : serving_along log (hold_run team run_id lease).
Proof.
  unfold hold_run. apply serving_bind; [apply serving_around|]. intros now. apply serving_attempt; [by apply serving_applied|]. intros fenced. destruct (negb fenced); [apply serving_ret|].
  apply serving_attempt; [apply serving_reconcile|]. intros _. apply serving_ret.
Qed.
(** *** Marking losses, and orphans *)
Lemma serving_sealed_loss log lock value : of_team team lock -> serving_along log (sealed_loss lock value).
Proof.
  intros Ht. unfold sealed_loss. apply serving_bind; [by apply serving_incident|]. intros [e|sealed]; [apply serving_ret|]. destruct (_ ≫= _) as [held|]; [|apply serving_ret].
  destruct (negb _); [apply serving_ret|]. destruct (Evidence.recovery held) as [r|]; (apply serving_bind; [apply serving_stored; intros s|intros; apply serving_ret]).
  - by apply read_cursor_along.
  - by apply cursors_along.
Qed.
Lemma serving_losses log lock st chosen : of_team team lock -> serving_along log (losses_marked lock st chosen).
Proof.
  intros Ht. unfold losses_marked. apply serving_bind; [|intros; apply serving_ret]. induction (incidents st) as [|item items IH]; cbn [losses_among]; [apply serving_ret|].
  apply serving_bind; [destruct (_ && _); [by apply serving_sealed_loss|apply serving_ret]|]. intros lost. apply serving_bind; [done|]. intros rest. apply serving_ret.
Qed.
Lemma serving_marking log {A} chosen (change : TeamRoutines.TeamRoutines -> svc (TeamRoutines.TeamRoutines * A)) : (forall st, serving_along log (change st)) ->
  serving_along log (marking_losses team chosen change).
Proof. intros Hc. apply serving_update_held; [done..|]. intros lock st Ht. apply serving_bind; [by apply serving_losses|]. intros marked. apply Hc. Qed.
Lemma serving_pause_held log incident_id reason : serving_along log (pause_held team incident_id reason).
Proof.
  unfold pause_held. apply serving_bind; [apply serving_around|]. intros now. apply serving_attempt; [|intros; apply serving_ret]. apply serving_marking. intros st.
  apply serving_bind; [apply serving_around|]. intros r. apply serving_ret.
Qed.
Lemma serving_sealed_run log value : serving_along log (sealed_run team value).
Proof.
  apply (along_with _ _ _ _ (when_ok (sealed_fits snap log value))). unfold sealed_run. eapply with_attempt; [apply with_raising, with_lock|]. intros lock Ht. by apply with_sealed.
Qed.
Lemma serving_progress log value : serving_along log (progress team value).
Proof. unfold progress. destruct (is_empty _); [apply serving_ret|]. apply serving_bind; [apply serving_sealed_run|]. intros sealed. apply serving_ret. Qed.
Lemma serving_orphan log value : serving_along log (recover_orphan team value).
Proof.
  unfold recover_orphan. apply serving_bind; [apply serving_progress|]. intros p. apply serving_bind.
  { destruct p; try apply serving_ret. unfold sealed_shown. apply serving_bind; [apply serving_sealed_run|]. intros sealed. apply serving_ret. }
  intros shown. apply serving_update_team; [done..|]. intros st. destruct (negb _); [apply serving_ret|]. apply serving_bind; [apply serving_around|]. intros now.
  apply serving_bind; [apply serving_around|]. intros r. apply serving_ret.
Qed.
(** ** A held run, reopened *)
(** A call on a run whose cursor was sealed. *)
Definition keeping (log : list Event) {A} (m : svc A) (Q : A -> Prop) : Prop := forall s, separate s -> Kept team snap log (Service.store s) -> snapshot_kept team snap (Service.store s) ->
  (separate (fst (m s)) /\ Kept team snap log (Service.store (fst (m s))) /\ snapshot_kept team snap (Service.store (fst (m s)))) /\ Q (snd (m s)).
Lemma keeping_with log {A} (m : svc A) Q : serving_with log m Q -> keeping log m Q.
Proof. intros Hm s Hs Hk Hsn. destruct (Hm s Hs Hk) as [[Hs' Ha] HQ]. destruct (Ha Hk) as (Hk' & _ & Hsn'). split_and!; auto. Qed.
Lemma keeping_along log {A} (m : svc A) : serving_along log m -> keeping log m (fun _ => True).
Proof. intros Hm. by apply keeping_with, with_along. Qed.
Lemma keeping_ret log {A} (a : A) (Q : A -> Prop) : Q a -> keeping log (mret a : svc A) Q.
Proof. intros Ha. by apply keeping_with, with_ret. Qed.
Lemma keeping_bind log {A B} (m : svc A) (f : A -> svc B) Q R : keeping log m Q -> (forall a, Q a -> keeping log (f a) R) -> keeping log (m ≫= f) R.
Proof.
  intros Hm Hf s Hs Hk Hsn. unfold mbind, svc_bind. destruct (Hm s Hs Hk Hsn) as [(Hs1 & Hk1 & Hsn1) Hq]. destruct (m s) as [s1 a]. by apply (Hf a Hq s1).
Qed.
Lemma keeping_weaken log {A} (m : svc A) (Q R : A -> Prop) : (forall a, Q a -> R a) -> keeping log m Q -> keeping log m R.
Proof. intros Hqr Hm s Hs Hk Hsn. destruct (Hm s Hs Hk Hsn). auto. Qed.
(** The held cursor and snapshot are the run's. *)
Definition opened_fits (log : list Event) (o : OpenedRecovery.OpenedRecovery) : Prop :=
  of_the_run snap (OpenedRecovery.cursor o) /\ reached log (OpenedRecovery.cursor o) /\ digest (Snapshot.plan (OpenedRecovery.recovery o)) = plan_digest snap.
Lemma attempt_run {Er A B} (m : svc (Er + A)) (f : A -> svc (Er + B)) s :
  attempt m f s = let '(s1, r) := m s in match r with inl e => (s1, inl e) | inr a => f a s1 end.
Proof. unfold attempt, mbind, svc_bind. by destruct (m s) as [s1 [|]]. Qed.
Lemma raising_run {Er Er' A} (e : Er') (m : svc (Er + A)) s : raising e m s = let '(s1, r) := m s in (s1, match r with inl _ => inl e | inr a => inr a end).
Proof. unfold raising, mbind, svc_bind. by destruct (m s) as [s1 [|]]. Qed.
Lemma stored_run {A} (m : kept_op (F := F) A) (s : Service) : stored_call m s = let '(st, r) := m (Service.store s) in (s <| Service.store := st |>, r).
Proof. done. Qed.
Lemma open_recovery_kept log (s s' : Service) r : open_recovery team run s = (s', r) -> separate s -> Kept team snap log (Service.store s) ->
  (separate s' /\ Kept team snap log (Service.store s')) /\ match r with inr o => snapshot_kept team snap (Service.store s') /\ opened_fits log o | inl _ => True end.
Proof.
  unfold open_recovery. intros H Hs Hk. rewrite attempt_run in H.
  assert (serving_along log (unresolved team run)) as Hun by (unfold unresolved; apply serving_attempt; [by apply serving_load|intros; apply serving_ret]).
  destruct (Hun s Hs Hk) as [Hs1 Ha1]. destruct (unresolved team run s) as [s1 [e|indexed]]; cbn [fst] in *; destruct (Ha1 Hk) as (Hk1 & _); [by injection H as <- <-|].
  rewrite attempt_run in H. destruct (with_raising team snap log routine_state_unavailable _ _ (with_lock team snap log) s1 Hs1 Hk1) as [[Hs2 Ha2] Ht].
  destruct (raising _ _ s1) as [s2 [e|lock]]; cbn [fst snd] in *; destruct (Ha2 Hk1) as (Hk2 & _); [by injection H as <- <-|]. cbn [when_ok] in Ht.
  rewrite attempt_run, raising_run, stored_run in H.
  pose proof (read_incident_fits team snap lock log _ Ht Hk2) as Hfit. pose proof (read_record_along team snap Hb Incident lock run log (Service.store s2) Hk2) as (Hk3 & Hf3 & _).
  change (read_record Incident lock run (Service.store s2)) with (read_incident lock run (Service.store s2)) in *.
  destruct (read_incident lock run (Service.store s2)) as [st3 sealed] eqn:E3. cbn [fst snd] in *.
  assert (separate (s2 <| Service.store := st3 |>)) as Hs3 by by apply (separate_fixed s2).
  destruct sealed as [e|sealed]; [by injection H as <- <-|].
  destruct (sealed ≫= _) as [held|] eqn:Eh; [|by injection H as <- <-]. destruct sealed as [payload|]; [|done]. cbn in Eh. specialize (Hfit held).
  destruct (Evidence.recovery held) as [r0|] eqn:Er; [|by injection H as <- <-]. specialize (Hfit r0 Eh eq_refl).
  destruct (negb _); [by injection H as <- <-|]. rewrite Hfit, attempt_run, raising_run, stored_run in H.
  change (Service.store (s2 <| Service.store := st3 |>)) with st3 in H.
  destruct (read_cursor lock (Snapshot.binding snap) st3) as [st4 found] eqn:E4. destruct (read_cursor_kept _ _ Hb _ log _ _ _ E4 Ht Hk3) as [Hstill Hfound].
  destruct (still_along _ _ Hb log _ _ Hstill Hk3) as (Hk4 & Hf4 & Hsn4). assert (separate (s2 <| Service.store := st3 |> <| Service.store := st4 |>)) as Hs4 by by apply (separate_fixed (s2 <| Service.store := st3 |>)).
  destruct found as [e|[c|]]; [by injection H as <- <-| |by injection H as <- <-].
  destruct (runs_cursor r0 c) eqn:Hruns; [|by injection H as <- <-]. injection H as <- <-. split; [done|]. destruct Hfound as (c0 & (_ & _ & Hre & _ & Hsn) & Ha & Hrun).
  split; [by apply Hsn4|]. split_and!; [done|by eapply reached_same; [apply agree_progress|]|]. cbn [OpenedRecovery.recovery OpenedRecovery.cursor].
  unfold runs_cursor, plan_digest in Hruns. apply seqb_true in Hruns. destruct Hrun as (_ & _ & Hp). congruence.
Qed.
(** Sealing a cursor of the run past everything sent. *)
Lemma recovery_seal_kept log c (s s' : Service) r : recovery_seal team c s = (s', r) -> of_the_run snap c -> reached log c ->
  separate s -> Kept team snap log (Service.store s) -> snapshot_kept team snap (Service.store s) ->
  (separate s' /\ Kept team snap log (Service.store s') /\ snapshot_kept team snap (Service.store s'))
  /\ (r = inr tt -> exists c2, sealed_as team snap log (Service.store s') c2 /\ same_progress c c2).
Proof.
  unfold recovery_seal, raising, mbind, svc_bind, under_lock, stored_call. intros H Hrun Hre Hs Hk Hsn. rewrite then_run in H. destruct (store_lock_team team (Service.store s)) as [E Hl].
  destruct (store_lock team (Service.store s)) as [st1 [e|lock]]; cbn [fst snd] in *; subst st1.
  - injection H as <- <-. split; [|done]. split; [by apply (separate_fixed s)|done].
  - destruct (put_cursor lock c (Service.store s)) as [st2 x] eqn:Ep. destruct (put_cursor_kept team snap Hb _ log _ _ _ _ Ep Hl Hrun Hre Hsn Hk) as (Hk2 & Hsn2 & Hin).
    pose proof (steadily_run _ _ _ _ (steadily_put_cursor lock c) Ep) as [Hf _]. injection H as <- <-. split; [split_and!; [by apply (separate_fixed s)|done..]|].
    destruct x as [|[]]; [done|]. intros _. by apply Hin.
Qed.
End Holding.

(** ** Verdicts, episodes and the one continuation *)
Section Verdicts.
  Context {PF : Platform} {VO : Vocabulary} `{C : !Crypto} {L : CryptoLaws C} {F J U : Type} `{!System F} {FD : FullDraws F} `{!RoutineJournal J} {TJ : TextJournal J} `{!Surroundings U} `{!VerifierEngine J U}.
  Context {T : CaseTables} {PT : Patterns} {SC : Schemas} {B : Base64} {X : Regexes}.
  Abbreviation Service := (Service.Service F J U).
  Abbreviation svc := (svc (F := F) (J := J) (U := U)).
  Context (team : string) (snap : SnapshotOf) (Hb : binding_valid (Snapshot.binding snap) = true) (Hsnap : readable_snapshot snap).
  Abbreviation run := (Binding.run_id (Snapshot.binding snap)).
  Abbreviation serving_along := (ReplaySafety.serving_along (F := F) (J := J) (U := U) team snap).
  Abbreviation serving_with := (ReplaySafety.serving_with (F := F) (J := J) (U := U) team snap).
  Abbreviation keeping := (keeping (F := F) (J := J) (U := U) team snap).

(** A service whose run is kept, its cursor sealed. *)
Definition kept_service (log : list Event) (s : Service) : Prop := separate s /\ Kept team snap log (Service.store s) /\ snapshot_kept team snap (Service.store s).
Lemma sealed_logged log (s : RoutineStore.RoutineStore F) c e : Kept team snap log s -> sealed_as team snap log s c -> e <> LossSealed -> reached (e :: log) c -> Kept team snap (e :: log) s.
Proof.
  intros [Hok Hrec Hi _] (Hv & Hrun & _ & Hl & Hsn) He Hre. split; [done..|]. right. exists c. split_and!; [done..| |done].
  intros [E|Hin]%elem_of_cons; [by symmetry in E|by apply Hl].
Qed.
Lemma keeping_run log {A} (m : svc A) Q s s' a : keeping log m Q -> m s = (s', a) -> kept_service log s -> kept_service log s' /\ Q a.
Proof. intros Hm E (Hs & Hk & Hsn). destruct (Hm s Hs Hk Hsn) as [H HQ]. by rewrite E in H, HQ. Qed.
Lemma along_run log {A} (m : svc A) s s' a : serving_along log m -> m s = (s', a) -> kept_service log s -> kept_service log s'.
Proof. intros Hm E Hk. by apply (keeping_run log m (fun _ => True) s s' a (keeping_along team snap log m Hm) E) in Hk as []. Qed.

(** What a verdict rests on. *)
Definition open_fault (c : Cursor.Cursor) (op : string) : Prop :=
  Cursor.operation_id c = Some op /\ contains ["policy"; "unquiesced"]%string (Cursor.fault c) = false.
Lemma proven_open a : proven a = "uncertain"%string \/ proven a = "absent"%string -> exists op, open_fault (Assessment.cursor a) op.
Proof.
  unfold proven, open_fault. destruct (Assessment.action a); [|by intros []]. destruct (Cursor.operation_id _) as [op|]; [|by intros []]. cbn [is_some negb]. intros H. exists op. split; [done|].
  destruct (Cursor.fault _ =s "policy") eqn:E1; [by destruct H|]. destruct (Cursor.fault _ =s "unquiesced") eqn:E2; [by destruct H|]. unfold contains. cbn [existsb]. by rewrite E1, E2.
Qed.
Lemma proven_absence a : proven a = "absent"%string -> Cursor.absent (Assessment.cursor a) = true
  \/ (contains ABSENT_STATES (default ""%string (Assessment.state a)) = true /\ carried (Cursor.episode (Assessment.cursor a)) = false)
  \/ (option_map ActionSpec.effect (Assessment.action a) = Some "read_only"%string /\ contains TRUSTED_FAULTS (Cursor.fault (Assessment.cursor a)) = true).
Proof.
  unfold proven. destruct (Assessment.action a) as [action|]; [|done]. destruct (negb _); [done|]. destruct (_ =s "policy"); [done|]. destruct (_ =s "unquiesced"); [done|].
  destruct (Cursor.absent _); [by left|]. cbn [orb]. destruct (contains ABSENT_STATES _ && _) eqn:E.
  - intros _. right. left. by apply andb_true_iff in E as [? ?%negb_true_iff].
  - destruct (_ =s "read_only") eqn:Ee; [|done]. apply seqb_true in Ee. destruct (contains TRUSTED_FAULTS _); [|done]. intros _. right. right. cbn [option_map]. by rewrite Ee.
Qed.
Lemma proven_verdict a : contains ["none"; "policy"; "unquiesced"; "unclassified"; "absent"; "uncertain"]%string (proven a) = true.
Proof. unfold proven. repeat case_match; by vm_compute. Qed.

(** *** Assessing a held run *)
Definition assessed_fits (log : list Event) (a : Assessment.Assessment) : Prop :=
  opened_fits snap log (Assessment.opened a) /\ Plan.digest (Assessment.plan a) = plan_digest snap.
Lemma halting_run {A} (m : svc (Problem + A)) s : halting m s = let '(s1, r) := m s in (s1, match r with inl p => inl (Halts p) | inr a => inr a end).
Proof. unfold halting, mbind, svc_bind. by destruct (m s) as [s1 [|]]. Qed.
Lemma serving_operation_state log op : serving_along log (operation_state team run op).
Proof.
  unfold operation_state. apply serving_attempt; [|intros; apply serving_ret]. apply serving_raising, serving_under_lock. intros lock s Ht. by apply read_record_along.
Qed.
Lemma assess_kept log (s s' : Service) r : assess team run s = (s', r) -> separate s -> Kept team snap log (Service.store s) ->
  (separate s' /\ Kept team snap log (Service.store s')) /\ match r with inr a => snapshot_kept team snap (Service.store s') /\ assessed_fits log a | inl _ => True end.
Proof.
  unfold assess. intros H Hs Hk. rewrite attempt_run, halting_run in H. destruct (open_recovery team run s) as [s1 opened] eqn:E1.
  destruct (open_recovery_kept team snap Hb log _ _ _ E1 Hs Hk) as [[Hs1 Hk1] Ho]. destruct opened as [p|opened]; [by injection H as <- <-|]. destruct Ho as [Hsn1 Hfit].
  assert (kept_service log s1) as Hk1' by done. clear E1 Hs Hk Hs1 Hk1 Hsn1. rewrite attempt_run, halting_run in H.
  destruct (around_call _ s1) as [s2 scope] eqn:E2. apply (along_run log _ _ _ _ (serving_around team snap log _) E2) in Hk1' as Hk2.
  assert (forall s3 : Service, kept_service log s3 -> separate s3 /\ Kept team snap log (Service.store s3)) as Hbase by by intros s3 (? & ? & _).
  destruct scope as [p|scope]; [injection H as <- <-; by split; [apply Hbase|]|].
  destruct (negb _); [injection H as <- <-; by split; [apply Hbase|]|].
  destruct (admit_plan _ _) as [plan|] eqn:Ep; [|injection H as <- <-; by split; [apply Hbase|]]. apply admit_digest in Ep.
  assert (Plan.digest plan = plan_digest snap) as Hd by by rewrite Ep; apply Hfit.
  destruct (done_ _ _); [injection H as <- <-; split; [by apply Hbase|]; split; [apply Hk2|done]|].
  destruct (_ !! _); [|injection H as <- <-; by split; [apply Hbase|]]. rewrite attempt_run, halting_run in H.
  destruct (operation_state _ _ _ s2) as [s3 state] eqn:E3. apply (along_run log _ _ _ _ (serving_operation_state log _) E3) in Hk2 as Hk3.
  destruct state as [p|state]; injection H as <- <-; (split; [by apply Hbase|]); [done|]. split; [apply Hk3|done].
Qed.
(** *** Judging *)
Lemma proven_later c d : proven_absent c = Ok d -> of_the_run snap c -> of_the_run snap d.
Proof.
  intros H Hc. apply (later_run snap (Plan.mk "" [] "" VNull) c d); [by constructor| |done]. unfold proven_absent in H. inv_ok. match goal with E : checked _ = Ok _ |- _ => exact (checked_again _ _ E) end.
Qed.
(** Sealing the absence its evidence proves. *)
Lemma absent_kept log c d o op (s s' : Service) r : recovery_seal team d s = (s', r) -> proven_absent c = Ok d -> of_the_run snap c -> reached log c ->
  Judged o ∈ log -> Cursor.operation_id c = Some op -> absent_by o op -> kept_service log s -> kept_service log s'.
Proof.
  intros E Hp Hrun Hre Hin Ho Hby (Hs & Hk & Hsn). by destruct (recovery_seal_kept team snap Hb log d s s' r E (proven_later _ _ Hp Hrun) (reached_proven _ _ _ _ _ Hp Hre Hin Ho Hby) Hs Hk Hsn).
Qed.
(** The cursor a recovered result completes. *)
Definition recovers (log : list Event) (held c : Cursor.Cursor) : Prop := of_the_run snap c /\ reached log c /\ Cursor.step c = S (Cursor.step held).
Lemma completes_fits log held plan result_ c : completes held plan result_ c -> of_the_run snap held -> reached log held -> Answered (Cursor.step held) ∈ log -> recovers log held c.
Proof.
  intros [shown H] Hrun Hre Hans. pose proof (cstep_complete _ _ _ _ _ H) as Hstep.
  assert (checked c = Ok c /\ Cursor.step c = S (Cursor.step held)) as [Hch Hs].
  { unfold complete in H. inv_ok. destruct (Plan.steps _ !! _); [|done]. inv_ok. match goal with E : checked _ = Ok _ |- _ => split; [exact (checked_again _ _ E)|by rewrite (checked_Ok _ _ E)] end. }
  split_and!; [by eapply later_run| |done]. eapply reached_later; [by eapply cstep_later|by eapply complete_keeps| |done]. intros k Hk. by replace k with (Cursor.step held) by lia.
Qed.
Lemma lost_fits log held c d : lose_protection c = Ok d -> recovers log held c -> recovers log held d.
Proof.
  intros H (Hrun & Hre & Hs). destruct (lose_run _ _ _ H Hrun) as (Hrd & Hsame & _). split_and!; [done|by eapply reached_same|]. destruct Hsame as [-> _]. done.
Qed.
Lemma recovered_kept log a result_ protected : assessed_fits log a -> Answered (Cursor.step (Assessment.cursor a)) ∈ log ->
  serving_with log (recovered team a result_ protected) (fun r => match r with Some c => recovers log (Assessment.cursor a) c | None => True end).
Proof.
  intros [(Hrun & Hre & _) _] Hans. unfold recovered. destruct (Assessment.action a); [|by apply with_ret]. destruct (Assessment.step a); [|by apply with_ret].
  destruct (_ || _); [by apply with_ret|]. destruct (secret_values _ _); [|by apply with_ret]. eapply with_bind; [apply with_along, serving_protections|]. intros p _.
  eapply with_bind; [exact (with_advance team snap Hb log _ _ _ _)|]. intros [e|c] Hc; apply with_ret; [done|]. cbn [when_ok] in Hc. apply (completes_fits log) in Hc; [|done..].
  destruct (Protection.lost p); [|done]. destruct (lose_protection c) eqn:E; [|done]. by eapply lost_fits.
Qed.
Lemma record_recovered_kept log held c plan protected : of_the_run snap c -> reached log c -> Plan.digest plan = plan_digest snap ->
  keeping log (record_recovered team held c plan protected) (fun _ => True).
Proof.
  intros Hrun Hre Hp. unfold record_recovered. eapply keeping_bind.
  { apply keeping_along. destruct (_ && _); [|apply serving_ret]. apply serving_bind; [by apply serving_mark_lost|]. intros. apply serving_ret. }
  intros _ _. eapply keeping_bind; [apply keeping_along, serving_around|]. intros instant _ s Hs Hk Hsn.
  match goal with |- context [replay_record_step ?st ?h (?rt, s)] => pose proof (onwards_record_step team snap Hb Hsnap log st h (rt, s)) as Ho; destruct (replay_record_step st h (rt, s)) as [[rt' s'] u] end.
  assert (Driving team snap log (Replay.mk team plan "" ∅ c (Some (Attempt.mk (Cursor.step held + 1) instant
    (default (VObject []) (step ← Plan.steps plan !! Cursor.step held;
                 match resolve plan step (cursor_selections held) (Cursor.started_at held) (fun _ => true) with Ok v => Some v | Err _ => None end)) protected None)) None, s)) as D by by split.
  destruct (Ho D) as ([Hs' Hk' Hsn' _ _ _ _] & _). by split.
Qed.
(** A step counts as completed once its completion is sealed. *)
Lemma completion_kept log held c (s s' : Service) r : recovery_seal team c s = (s', r) -> recovers log held c -> kept_service log s ->
  kept_service log s' /\ (r = inr tt -> kept_service (Completed (Cursor.step held) :: log) s').
Proof.
  intros E (Hrun & Hre & Hstep) (Hs & Hk & Hsn). destruct (recovery_seal_kept team snap Hb log c s s' r E Hrun Hre Hs Hk Hsn) as [Hk' Hin]. split; [done|]. intros Hr.
  destruct (Hin Hr) as (c2 & Hc2 & Hsame). destruct Hk' as (Hs' & Hk' & Hsn'). split_and!; [done| |done]. apply (sealed_logged log _ c2); [done..|].
  pose proof Hc2 as (_ & _ & Hre2 & _). apply reached_cons; [done|]. destruct Hsame as [-> _]. lia.
Qed.
Definition completing {Er} (held : Cursor.Cursor) (r : Er + string) (log : list Event) : list Event :=
  if match r with inr verdict => verdict =s "occurred" | inl _ => false end then Completed (Cursor.step held) :: log else log.
Lemma judge_kept log a result_ protected o (s s' : Service) r : judge team a result_ protected s = (s', r) -> assessed_fits log a -> kept_service log s -> Judged o ∈ log ->
  (forall op, Cursor.operation_id (Assessment.cursor a) = Some op -> verifier_found a result_ "outcome" = Some (VString "not_occurred") -> absent_by o op) ->
  (exists op, Cursor.operation_id (Assessment.cursor a) = Some op) ->
  (verifier_found a result_ "outcome" = Some (VString "occurred") -> Answered (Cursor.step (Assessment.cursor a)) ∈ log) ->
  kept_service (completing (Assessment.cursor a) r log) s'.
Proof.
  intros H Hfit Hk Hin Hby [op Hop] Hans. pose proof Hfit as [(Hrun & Hre & _) Hdig]. unfold judge in H.
  destruct (negb _); [by injection H as <- <-|].
  destruct (verifier_found a result_ "outcome") as [[| | |outcome| |]|] eqn:Ef; try (by injection H as <- <-).
  destruct (outcome =s "not_occurred") eqn:E1.
  { apply seqb_true in E1 as ->. destruct (proven_absent _) as [d|] eqn:Ep; [|by injection H as <- <-]. rewrite attempt_run in H.
    destruct (recovery_seal team d s) as [s1 x] eqn:Es. pose proof (absent_kept _ _ _ _ _ _ _ _ Es Ep Hrun Hre Hin Hop (Hby _ Hop eq_refl) Hk) as Hk1.
    by destruct x; injection H as <- <-. }
  destruct (outcome =s "occurred") eqn:E2; [|by injection H as <- <-]. apply seqb_true in E2 as ->. specialize (Hans eq_refl).
  destruct protected as [protected|]; [|by injection H as <- <-]. destruct (verifier_found a result_ "result") as [found|]; [|by injection H as <- <-].
  unfold mbind at 1, svc_bind at 1 in H. destruct (recovered team a found protected s) as [s1 completed] eqn:Er.
  destruct (keeping_run log _ _ _ _ _ (keeping_with team snap _ _ _ (recovered_kept log a found protected Hfit Hans)) Er Hk) as [Hk1 Hc].
  destruct completed as [c|]; [|by injection H as <- <-]. rewrite attempt_run in H. destruct (recovery_seal team c s1) as [s2 x] eqn:Es.
  destruct (completion_kept _ _ _ _ _ _ Es Hc Hk1) as [Hk2 Hk2']. destruct x as [p|[]]; [by injection H as <- <-|]. specialize (Hk2' eq_refl).
  unfold mbind at 1, svc_bind at 1 in H. destruct (record_recovered _ _ _ _ _ s2) as [s3 u] eqn:Erec.
  destruct Hc as (Hrc & Hrec & Hstep). assert (reached (Completed (Cursor.step (Assessment.cursor a)) :: log) c) as Hrec' by (apply reached_cons; [done|lia]).
  apply (keeping_run _ _ _ _ _ _ (record_recovered_kept _ _ _ _ _ Hrc Hrec' Hdig) Erec) in Hk2' as [Hk3 _].
  by injection H as <- <-.
Qed.
(** *** What verification sees, and what it may conclude *)
Definition waits (a : Assessment.Assessment) : bool := (proven a =s "uncertain") && is_empty (Cursor.fault (Assessment.cursor a)).
(** Whether the workload of a held step is proven stopped, when that is asked. *)
Definition asked_stopped (a : Assessment.Assessment) : svc bool :=
  match Assessment.step a with
  | Some step => if waits a then stopped_since team (Step.assistant_id step) (Assessment.cursor a) else mret false
  | None => mret false
  end.
(** What the verifier answers, when it is called. *)
Definition asked_verifier (a : Assessment.Assessment) (gone : bool) : svc (option Value) :=
  if (proven a =s "uncertain") && (negb (waits a) || gone) then
    match verifier_request a with Some request => call_verifier team a request | None => mret None end
  else mret None.
Definition observing (a : Assessment.Assessment) (gone : bool) (result_ : option Value) : Observed.Observed :=
  Observed.mk (Assessment.cursor a) (option_map ActionSpec.effect (Assessment.action a)) (Assessment.state a) gone (result_ ≫= fun v => verifier_found a v "outcome").
(** What [verify] sees of the run's held step. *)
Definition observed : svc (option Observed.Observed) :=
  assessed ← assess team run;
  match assessed with
  | inl _ => mret None
  | inr a => gone ← asked_stopped a; result_ ← asked_verifier a gone; mret (Some (observing a gone result_))
  end.
(** The verdict, and the answer of the held step when its verifier says it occurred. *)
Definition judging (o : Observed.Observed) (log : list Event) : list Event :=
  match Observed.outcome o with
  | Some v => if is_str v "occurred" then Answered (Cursor.step (Observed.cursor o)) :: Judged o :: log else Judged o :: log
  | None => Judged o :: log
  end.
Definition verify_events (s : Service) (r : Halt + string) (log : list Event) : list Event :=
  match snd (observed s) with Some o => completing (Observed.cursor o) r (judging o log) | None => log end.

Lemma serving_stopped log assistant_id held : serving_along log (stopped_since team assistant_id held).
Proof. unfold stopped_since. destruct (is_empty _); [apply serving_ret|]. apply serving_bind; [apply serving_around|]. intros st. apply serving_ret. Qed.
Lemma serving_asked log a : serving_along log (asked_stopped a).
Proof. unfold asked_stopped. destruct (Assessment.step a); [|apply serving_ret]. destruct (waits a); [apply serving_stopped|apply serving_ret]. Qed.
Lemma serving_verifier log a request : serving_along log (call_verifier team a request).
Proof.
  unfold call_verifier. apply serving_bind; [apply serving_journal|]. intros [d|]; [|apply serving_ret]. apply serving_bind.
  - intros s. destruct (verifier_turn _ _ _ _ _ _) as [[j u] x]. apply serves_store; [done|apply along_refl].
  - intros [injected results]. apply serving_bind; [apply serving_protections|]. intros _. apply serving_bind; [apply serving_journal|]. intros _. apply serving_ret.
Qed.
Lemma served_bind {A B'} (m : svc A) (f : A -> svc B') s : (m ≫= f) s = let '(s1, a) := m s in f a s1.
Proof. done. Qed.
(** [quiescence] asks what [asked_stopped] asks. *)
Lemma quiescence_asks a s : quiescence team a (proven a) s =
  match Assessment.step a with
  | None => (s, inl Panics)
  | Some _ => let '(s1, gone) := asked_stopped a s in (s1, inr (if waits a && negb gone then "unquiesced"%string else proven a))
  end.
Proof.
  unfold quiescence, asked_stopped. destruct (Assessment.step a) as [step|]; [|done]. unfold waits. destruct (_ && _); [|done]. rewrite served_bind. by destruct (stopped_since _ _ _ s) as [s1 []].
Qed.
Lemma assessed_silent log e a : silent e -> assessed_fits log a -> assessed_fits (e :: log) a.
Proof. intros He [(Hrun & Hre & Hp) Hd]. split; [|done]. split_and!; [done|by apply reached_silent|done]. Qed.
Lemma judging_spec o log : exists silents, judging o log = silents ++ log /\ List.Forall silent silents /\ Judged o ∈ judging o log
  /\ (Observed.outcome o = Some (VString "occurred") -> Answered (Cursor.step (Observed.cursor o)) ∈ judging o log).
Proof.
  unfold judging. destruct (Observed.outcome o) as [v|].
  - destruct (is_str v "occurred") eqn:E.
    + exists [Answered (Cursor.step (Observed.cursor o)); Judged o]. split_and!; [done|by repeat constructor|right; by constructor|by constructor].
    + exists [Judged o]. split_and!; [done|by repeat constructor|by constructor|]. intros [= ->]. unfold is_str in E. cbn in E. by rewrite seqb_refl in E.
  - exists [Judged o]. split_and!; [done|by repeat constructor|by constructor|done].
Qed.
Lemma judging_kept o log a (s : RoutineStore.RoutineStore F) : assessed_fits log a -> Kept team snap log s -> assessed_fits (judging o log) a /\ Kept team snap (judging o log) s.
Proof.
  intros Hf Hk. destruct (judging_spec o log) as (l & -> & Hl & _). induction Hl as [|e l He _ [IH1 IH2]]; [done|]. cbn [app]. split; [by apply assessed_silent|by apply kept_silent].
Qed.
Lemma absence_seen a gone result_ op : proven a = "absent"%string -> Cursor.absent (Assessment.cursor a) = false -> open_fault (Assessment.cursor a) op -> absent_by (observing a gone result_) op.
Proof. intros H%proven_absence Hn [Ho Hf]. split; [done|]. split; [done|]. destruct H as [H|[H|H]]; [congruence|by left|by right; left]. Qed.
Lemma answer_seen a gone result_ op : waits a && negb gone = false -> proven a = "uncertain"%string -> open_fault (Assessment.cursor a) op ->
  verifier_found a result_ "outcome" = Some (VString "not_occurred") -> absent_by (observing a gone (Some result_)) op.
Proof.
  intros Hw Hp [Ho Hf] Hv. split; [done|]. split; [done|]. right. right. split; [done|]. cbn [observing Observed.cursor Observed.workload_gone].
  unfold waits in Hw. rewrite Hp in Hw. destruct (Cursor.fault (Assessment.cursor a)); [|by left]. right. by destruct gone.
Qed.
Lemma verify_kept log protected (s s' : Service) r : verify team run protected s = (s', r) -> separate s -> Kept team snap log (Service.store s) ->
  separate s' /\ Kept team snap (verify_events s r log) (Service.store s').
Proof.
  unfold verify, verify_events, observed. intros H Hs Hk. rewrite attempt_run in H. rewrite served_bind. destruct (assess team run s) as [s1 x] eqn:E1.
  destruct (assess_kept log _ _ _ E1 Hs Hk) as [[Hs1 Hk1] Hx]. destruct x as [h|a]; [by injection H as <- <-|]. destruct Hx as [Hsn1 Hfit]. rewrite attempt_run, quiescence_asks in H. revert H. rewrite served_bind.
  destruct (asked_stopped a s1) as [s2 gone] eqn:E2. rewrite served_bind. destruct (asked_verifier a gone s2) as [s3 result_] eqn:E3. cbn [mret svc_ret snd]. intros H.
  destruct (judging_kept (observing a gone result_) log a _ Hfit Hk1) as [Hfit' Hk1']. destruct (judging_spec (observing a gone result_) log) as (_ & _ & _ & Hin & Hans). remember (observing a gone result_) as o eqn:Ho.
  assert (Observed.cursor o = Assessment.cursor a) as Eo by by subst o. rewrite Eo in *. revert Hfit' Hk1' Hin Hans. generalize (judging o log). clear log Hk Hk1 Hfit E1 Eo. intros log Hfit Hk1 Hin Hans.
  assert (kept_service log s1) as Hk1' by done. enough (kept_service (completing (Assessment.cursor a) r log) s') as (? & ? & _) by done.
  destruct (Assessment.step a); [|by injection H as <- <-].
  pose proof (along_run log _ _ _ _ (serving_asked log a) E2 Hk1') as Hk2. destruct (contains ["none"; "policy"; "unquiesced"; "unclassified"]%string _) eqn:Ec.
  { injection H as <- <-. apply contains_In in Ec. unfold completing. rewrite (proj2 (seqb_false _ _)); [done|]. intros Ev. rewrite Ev in Ec. by repeat destruct Ec as [?|Ec]. }
  destruct (waits a && negb gone) eqn:Ew; [done|]. pose proof (proven_verdict a) as Hv. apply contains_In in Hv.
  assert (proven a = "absent"%string \/ proven a = "uncertain"%string) as Hp.
  { destruct Hv as [E|[E|[E|[E|[E|[E|[]]]]]]]; rewrite <- E in Ec; try done; auto. }
  destruct (proven_open a (ltac:(tauto))) as (op & Hop). pose proof Hfit as [(Hrun & Hre & _) _]. destruct Hp as [Hp|Hp]; rewrite Hp in H.
  - change ("absent" =s "absent") with true in H. cbn iota in H. destruct (Cursor.absent (Assessment.cursor a)) eqn:Ea; [by injection H as <- <-|].
    destruct (proven_absent _) as [d|] eqn:Ed; [|by injection H as <- <-]. rewrite attempt_run, halting_run in H. destruct (recovery_seal team d s2) as [s4 x] eqn:Es.
    assert (absent_by o op) as Hby by (subst o; by apply absence_seen).
    pose proof (absent_kept _ _ _ _ _ _ _ _ Es Ed Hrun Hre Hin (proj1 Hop) Hby Hk2) as Hk3. by destruct x; injection H as <- <-.
  - change ("uncertain" =s "absent") with false in H. cbn iota in H. unfold asked_verifier in E3. rewrite Hp in E3. change ("uncertain" =s "uncertain") with true in E3.
    assert (negb (waits a) || gone = true) as Eg by (destruct (waits a), gone; done). rewrite Eg in E3. cbn [andb] in E3.
    destruct (verifier_request a) as [request|]; [|by injection H as <- <-]. rewrite served_bind, E3 in H. pose proof (along_run log _ _ _ _ (serving_verifier log a request) E3 Hk2) as Hk3.
    destruct result_ as [v|]; [|by injection H as <- <-]. rewrite halting_run in H. destruct (judge _ _ _ _ s3) as [s4 x] eqn:Ej. injection H as <- <-.
    assert (kept_service (completing (Assessment.cursor a) x log) s4) as Hk4.
    { apply (judge_kept log a v _ o _ _ _ Ej); [done..| |by exists op; apply Hop|]. 2: intros Hf; apply Hans; by subst o.
      intros op' Hop' Hf. subst o. destruct Hop as [Ho1 Ho2]. apply answer_seen; [done..|by split|done]. }
    by destruct x.
Qed.
(** A held run whose cursor completed every step has nothing uncertain, and is indexed past its plan. *)
Lemma finished_assessed (s s1 : Service) a : assess team run s = (s1, inr a) -> done_ (Assessment.cursor a) (Assessment.plan a) = true -> proven a = "none"%string.
Proof.
  unfold assess. intros H Hd. rewrite attempt_run in H. destruct (halting _ s) as [s2 [|opened]]; [done|]. rewrite attempt_run in H. destruct (halting _ s2) as [s3 [|scope]]; [done|].
  destruct (negb _); [done|]. destruct (admit_plan _ _) as [plan|]; [|done]. destruct (done_ (OpenedRecovery.cursor opened) plan) eqn:E; [injection H as <- <-; by vm_compute|].
  destruct (_ !! _); [|done]. rewrite attempt_run in H. destruct (halting _ s3) as [s4 [|state]]; [done|]. injection H as <- <-. change (done_ (OpenedRecovery.cursor opened) plan = true) in Hd. congruence.
Qed.
Lemma finished_verify_panics protected (s s1 : Service) a : assess team run s = (s1, inr a) -> done_ (Assessment.cursor a) (Assessment.plan a) = true ->
  proven a = "none"%string /\ verify team run protected s = (s1, inl Panics).
Proof.
  intros E Hd. split; [by eapply finished_assessed|]. unfold verify. rewrite attempt_run, E, attempt_run, quiescence_asks. unfold Assessment.step. unfold done_ in Hd. apply Nat.eqb_eq in Hd.
  by rewrite (proj2 (lookup_ge_None _ _)) by lia.
Qed.

(** *** The episode, and the continuation *)
Lemma start_episode_kept log (s s' : Service) r : start_episode team run s = (s', r) -> separate s -> Kept team snap log (Service.store s) -> separate s' /\ Kept team snap log (Service.store s').
Proof.
  unfold start_episode. intros H Hs Hk. rewrite served_bind in H. destruct (open_recovery team run s) as [s1 opened] eqn:E1.
  destruct (open_recovery_kept team snap Hb log _ _ _ E1 Hs Hk) as [[Hs1 Hk1] Ho]. destruct opened as [p|opened]; [by injection H as <- <-|]. destruct Ho as [Hsn1 (Hrun & Hre & _)].
  rewrite served_bind in H. destruct (load_state team s1) as [s2 loaded] eqn:E2. destruct (along_run log _ _ _ _ (serving_load team snap Hb log) E2 ltac:(done)) as (Hs2 & Hk2 & Hsn2).
  destruct (match loaded with inr _ => _ | inl _ => _ end) as [seconds|]; [|by injection H as <- <-].
  destruct (open_episode _) as [next|] eqn:En; [|by injection H as <- <-]. rewrite served_bind in H. destruct (under_lock _ _ s2) as [s3 sealed] eqn:E3.
  assert (separate s3 /\ Kept team snap log (Service.store s3) /\ snapshot_kept team snap (Service.store s3)) as Hk3.
  { assert (checked next = Ok next) as Hch by (unfold open_episode in En; inv_ok; match goal with E : checked _ = Ok _ |- _ => exact (checked_again _ _ E) end).
    assert (cstep (Plan.mk "" [] "" VNull) (OpenedRecovery.cursor opened) next) as Hstep by by constructor.
    destruct (recovery_seal team next s2) as [s4 x] eqn:E4. pose proof E4 as E5. unfold recovery_seal in E5. rewrite raising_run, E3 in E5. injection E5 as <- _.
    by destruct (recovery_seal_kept team snap Hb log next _ _ _ E4 (later_run _ _ _ _ Hstep Hch Hrun) (reached_still _ _ _ (cstep_later _ _ _ Hstep) (open_keeps _ _ En) (open_step _ _ En) Hre) Hs2 Hk2 Hsn2). }
  destruct sealed as [e|u]; [injection H as <- <-; by destruct Hk3 as (? & ? & _)|]. rewrite served_bind in H. destruct (around_call _ s3) as [s4 started] eqn:E4.
  destruct (along_run log _ _ _ _ (serving_around team snap log _) E4 Hk3) as (? & ? & _). by injection H as <- <-.
Qed.
(** Where a run may be continued: what was sent is of completed steps, or proven absent at this one. *)
Definition resumable (log : list Event) (n : nat) : Prop :=
  (forall k op cm, Sent k op cm ∈ log -> (k < n)%nat \/ (k = n /\ exists o, Judged o ∈ log /\ absent_by o op)) /\ (forall k, Resumed k ∉ log).
Lemma continues_resumable log held next : blocked held = false -> continued held = Ok next -> reached log held -> resumable log (Cursor.step held).
Proof.
  intros Hbl Hc (Hs & _ & Ha & Hr & _). split.
  - intros k op cm Hin. destruct (Hs k op cm Hin) as [?|(-> & Ho & _)]; [by left|right]. split; [done|]. unfold blocked in Hbl. rewrite Ho in Hbl. cbn [is_some andb] in Hbl.
    apply orb_false_iff in Hbl as [_ Hab%negb_false_iff]. destruct (Ha Hab) as (o & op' & Hj & Ho' & Hby). exists o. split; [done|]. congruence.
  - intros k Hin. specialize (Hr k Hin). unfold continued in Hc. by destruct (Cursor.episode held).
Qed.
Lemma serving_unstopped log {A} run_id deadline (m : svc A) : serving_along log deadline -> serving_along log m -> serving_along log (unstopped run_id deadline m).
Proof.
  intros Hd Hm. unfold unstopped. apply serving_bind; [apply serving_around|]. intros stopped. apply serving_bind; [destruct stopped; [done|apply serving_ret]|]. intros [|]; [|apply serving_ret].
  apply serving_bind; [done|]. intros a. apply serving_ret.
Qed.
Lemma serving_reopen log id generation routine_id : serving_along log (reopen team id generation routine_id).
Proof.
  unfold reopen. apply serving_bind; [apply serving_around|]. intros now. apply serving_update_team; [done..|]. intros st. apply serving_bind; [apply serving_around|]. intros r. apply serving_ret.
Qed.
Lemma continue_reopened_kept log (s s' : Service) r : continue_reopened team run s = (s', r) -> separate s -> Kept team snap log (Service.store s) ->
  separate s' /\ Kept team snap log (Service.store s')
  /\ (forall x s1 opened, r = inr (Some x) -> open_recovery team run s = (s1, inr opened) ->
      resumable log (Cursor.step (OpenedRecovery.cursor opened)) /\ Kept team snap (Resumed (Cursor.step (OpenedRecovery.cursor opened)) :: log) (Service.store s')).
Proof.
  unfold continue_reopened. intros H Hs Hk. rewrite attempt_run in H. destruct (open_recovery team run s) as [s1 opened] eqn:E1.
  destruct (open_recovery_kept team snap Hb log _ _ _ E1 Hs Hk) as [[Hs1 Hk1] Ho]. destruct opened as [p|opened]; [by injection H as <- <-|]. destruct Ho as [Hsn1 (Hrun & Hre & _)].
  destruct (blocked _) eqn:Hbl; [by injection H as <- <-|]. destruct (continued _) as [next|] eqn:En; [|by injection H as <- <-].
  rewrite attempt_run in H. destruct (raising _ _ s1) as [s2 x] eqn:E2.
  assert (checked next = Ok next /\ is_continued (Cursor.episode next) = true) as [Hch Hcn].
  { unfold continued in En. destruct (Cursor.episode (OpenedRecovery.cursor opened)); try done. split; [exact (checked_again _ _ En)|]. by rewrite (checked_Ok _ _ En). }
  assert (cstep (Plan.mk "" [] "" VNull) (OpenedRecovery.cursor opened) next) as Hstep by by constructor.
  destruct (recovery_seal_kept team snap Hb log next _ _ _ E2 (later_run _ _ _ _ Hstep Hch Hrun) (reached_still _ _ _ (cstep_later _ _ _ Hstep) (continued_keeps _ _ En) (continued_step _ _ En) Hre) Hs1 Hk1 Hsn1) as [Hk2 Hin].
  destruct x as [p|[]]; [injection H as <- <-; by destruct Hk2 as (? & ? & _)|]. destruct (Hin eq_refl) as (c2 & Hc2 & Hsame).
  assert (kept_service (Resumed (Cursor.step (OpenedRecovery.cursor opened)) :: log) s2) as Hk2'.
  { destruct Hk2 as (? & ? & ?). split_and!; [done| |done]. apply (sealed_logged log _ c2); [done..|]. pose proof Hc2 as (_ & _ & Hre2 & _). apply reached_cons; [done|]. destruct Hsame as (_ & _ & _ & _ & Hsame). auto. }
  match type of H with ?m s2 = _ => assert (forall log, serving_along log m) as Hm end.
  { intros log'. apply serving_bind; [apply serving_unstopped; [apply serving_ret|apply serving_reopen]|]. intros [[p|[x|]]|]; try apply serving_ret.
    apply serving_bind; [|intros; apply serving_ret]. apply serving_under_lock. intros lock st Ht. by apply delete_incident_along. }
  destruct (along_run _ _ _ _ _ (Hm _) H Hk2) as (? & ? & _). destruct (along_run _ _ _ _ _ (Hm _) H Hk2') as (_ & ? & _). split_and!; [done..|].
  intros x s3 opened' -> [= <- <-]. split; [by eapply continues_resumable|done].
Qed.
End Verdicts.

(** ** Histories of one run *)
Section Histories.
  Context {PF : Platform} {VO : Vocabulary} `{C : !Crypto} {L : CryptoLaws C} {F J U : Type} `{!System F} {FD : FullDraws F} `{!RoutineJournal J} {TJ : TextJournal J} `{!Surroundings U} `{!VerifierEngine J U}.
  Context {T : CaseTables} {PT : Patterns} {SC : Schemas} {B : Base64} {X : Regexes}.
  Abbreviation Service := (Service.Service F J U).
  Abbreviation svc := (svc (F := F) (J := J) (U := U)).
  Abbreviation rop := (rop (F := F) (J := J) (U := U)).
  Context (team : string) (snap : SnapshotOf) (Hb : binding_valid (Snapshot.binding snap) = true) (Hsnap : readable_snapshot snap).
  Abbreviation run := (Binding.run_id (Snapshot.binding snap)).
  Abbreviation serving_along := (ReplaySafety.serving_along (F := F) (J := J) (U := U) team snap).
  Abbreviation serving_with := (ReplaySafety.serving_with (F := F) (J := J) (U := U) team snap).

Inductive Phase : Type := Idle (s : Service) | Live (r : ReplayRuntime) (s : Service).
Definition service_of (p : Phase) : Service := match p with Idle s | Live _ s => s end.
Definition with_service (p : Phase) (s : Service) : Phase := match p with Idle _ => Idle s | Live r _ => Live r s end.
(** The service after a restart: what it held in memory is gone. *)
Definition restarted (s s' : Service) : Prop :=
  let st := Service.store s in
  Service.store s' = RoutineStore.mk (RoutineStore.root st) (RoutineStore.keyring st) (RoutineStore.max_state_bytes st) (RoutineStore.max_decoded_bytes st) false 0 [] (RoutineStore.disk st)
  /\ Service.diagnostics s' = Service.diagnostics s /\ exists boot, Service.protections s' = of_boot boot.
(** What others do: whatever leaves the run's cursor, snapshot, evidence and key. *)
Definition elsewhere (s s' : Service) : Prop :=
  let st := Service.store s in let st' := Service.store s' in
  RoutineStore.root st' = RoutineStore.root st /\ RoutineStore.keyring st' = RoutineStore.keyring st /\ Service.diagnostics s' = Service.diagnostics s
  /\ (store_ok st -> store_ok st')
  /\ forall q, q = cursor_path team snap st \/ q = recovery_path team snap st \/ q = incident_path team snap st \/ q = RoutineStore.keyring st -> file_of st' q = file_of st q.
Inductive moves : list Event * Phase -> list Event * Phase -> Prop :=
| moves_open log s s' value routine values rt : runtime team value routine values s = (s', inr rt) ->
    (forall network, network_of (Run.generation value) (Run.run_id value) = Some network -> snapshot_of network value routine = snap) ->
    moves (log, Idle s) (log, Live rt s')
| moves_unopened log s s' value routine values e : runtime team value routine values s = (s', inl e) ->
    (forall network, network_of (Run.generation value) (Run.run_id value) = Some network -> snapshot_of network value routine = snap) ->
    moves (log, Idle s) (log, Idle s')
| moves_begin log r s r' s' t : replay_begin (r, s) = ((r', s'), t) -> moves (log, Live r s) (log, Live r' s')
| moves_sent log r s r' s' request op workload values : replay_dispatched request op workload values (r, s) = ((r', s'), inr tt) ->
    moves (log, Live r s) (Sent (Cursor.step (Replay.cursor r)) op (commitment (ActionRequest.input request)) :: log, Live r' s')
| moves_refused log r s r' s' request op workload values e : replay_dispatched request op workload values (r, s) = ((r', s'), inl e) ->
    moves (log, Live r s) (log, Live r' s')
| moves_returned log r s r' s' u : returned_now (r, s) = ((r', s'), u) -> moves (log, Live r s) (log, Live r' s')
| moves_failed log r s r' s' request f u : classified request f (r, s) = ((r', s'), u) -> moves (log, Live r s) (log, Live r' s')
| moves_advanced log r s r' s' results t : replay_advanced results (r, s) = ((r', s'), t) ->
    moves (log, Live r s)
      ((if Nat.eqb (Cursor.step (Replay.cursor r')) (Cursor.step (Replay.cursor r)) then Answered (Cursor.step (Replay.cursor r)) :: log
        else Completed (Cursor.step (Replay.cursor r)) :: Answered (Cursor.step (Replay.cursor r)) :: log), Live r' s')
| moves_recorded log r s r' s' status c u : replay_record_step status c (r, s) = ((r', s'), u) -> moves (log, Live r s) (log, Live r' s')
| moves_closed log r s : moves (log, Live r s) (log, Idle s)
| moves_restarted log p s' : restarted (service_of p) s' -> moves (log, p) (log, Idle s')
| moves_elsewhere log p s' : elsewhere (service_of p) s' -> moves (log, p) (log, with_service p s')
| moves_applied log p transition s' r : applied team transition (service_of p) = (s', r) -> moves (log, p) (log, with_service p s')
| moves_changed log p {A} (change : TeamRoutines.TeamRoutines -> TeamRoutines.TeamRoutines * A) s' r :
    update_team team (fun st => mret (change st)) (service_of p) = (s', r) -> moves (log, p) (log, with_service p s')
| moves_hold log p lease s' r : hold_run team run lease (service_of p) = (s', r) -> moves (log, p) (log, with_service p s')
| moves_reconciled log p s' r : reconcile team run (service_of p) = (s', r) -> moves (log, p) (log, with_service p s')
| moves_orphan log p value s' r : recover_orphan team value (service_of p) = (s', r) -> moves (log, p) (log, with_service p s')
| moves_paused log p reason s' r : pause_held team run reason (service_of p) = (s', r) -> moves (log, p) (log, with_service p s')
| moves_episode log s s' r : start_episode team run s = (s', r) -> moves (log, Idle s) (log, Idle s')
| moves_verified log s protected s' r : verify team run protected s = (s', r) -> moves (log, Idle s) (verify_events team snap s r log, Idle s')
| moves_continued log s s1 opened s' x : open_recovery team run s = (s1, inr opened) -> continue_reopened team run s = (s', inr (Some x)) ->
    moves (log, Idle s) (Resumed (Cursor.step (OpenedRecovery.cursor opened)) :: log, Idle s')
| moves_not_continued log s s' r : continue_reopened team run s = (s', r) -> (forall x, r <> inr (Some x)) -> moves (log, Idle s) (log, Idle s')
| moves_loss_seen log p lock st1 c : TeamLock.team lock = team ->
    read_cursor lock (Snapshot.binding snap) (Service.store (service_of p)) = (st1, inr (Some c)) -> Cursor.protection_lost c = true ->
    moves (log, p) (LossSealed :: log, with_service p ((service_of p) <| Service.store := st1 |>)).
Definition phase_ok (log : list Event) (p : Phase) : Prop :=
  match p with
  | Idle s => separate s /\ Kept team snap log (Service.store s)
  | Live r s => Driving team snap log (r, s)
  end.
(** One operation and one input per step, nothing sent once the step completed, and one
    continuation, past nothing uncertain. *)
Definition coherent (log : list Event) : Prop :=
  (forall k op cm op' cm', Sent k op cm ∈ log -> Sent k op' cm' ∈ log -> op = op' /\ cm = cm')
  /\ (forall k op cm newer older, log = newer ++ Sent k op cm :: older -> Completed k ∉ older)
  /\ (forall n newer older, log = newer ++ Resumed n :: older -> resumable older n).
Lemma kept_files log (s s' : RoutineStore.RoutineStore F) : RoutineStore.root s' = RoutineStore.root s -> RoutineStore.keyring s' = RoutineStore.keyring s -> store_ok s' ->
  (forall q, q = cursor_path team snap s \/ q = recovery_path team snap s \/ q = incident_path team snap s \/ q = RoutineStore.keyring s -> file_of s' q = file_of s q) ->
  Kept team snap log s -> Kept team snap log s' /\ (snapshot_kept team snap s -> snapshot_kept team snap s').
Proof.
  intros Er Ek Hok Hq Hk. assert (forall name, team_file team name s' = team_file team name s) as Ef by (intros; unfold team_file, team_dir; by rewrite Er).
  assert (forall q aad kind, q = cursor_path team snap s \/ q = recovery_path team snap s \/ q = incident_path team snap s \/ q = RoutineStore.keyring s -> opened_view s' q aad kind = opened_view s q aad kind) as Hv.
  { intros q aad kind Hin. unfold opened_view, key_of. rewrite Ek, (Hq q Hin), (Hq (RoutineStore.keyring s)); auto. }
  assert (snapshot_kept team snap s -> snapshot_kept team snap s') as Hsn by (unfold snapshot_kept, recovery_view, recovery_path; rewrite Ef, Hv; auto).
  split; [|done]. split; [done| | |].
  - destruct (kept_recovery _ _ _ _ Hk) as [Hn|Hn]; [left|by right; apply Hsn]. unfold recovery_path in *. rewrite Ef, Hq; auto.
  - destruct (kept_incident _ _ _ _ Hk) as [Hn|(payload & Hp & Hfit)]; [left|right; exists payload; split; [|done]]; unfold incident_view, incident_path in *; rewrite Ef; [rewrite Hq; auto|rewrite Hv; auto].
  - destruct (kept_cursor _ _ _ _ Hk) as [[Hn Hquiet]|(c & Hc & ? & ? & ? & ?)]; [left; unfold cursor_path in *; rewrite Ef, Hq; auto|]. right. exists c. split; [|split_and!; auto].
    unfold cursor_view, cursor_path in *. rewrite Ef, Hv; auto.
Qed.
Lemma phase_kept log p : phase_ok log p -> separate (service_of p) /\ Kept team snap log (Service.store (service_of p)).
Proof. destruct p as [s|r s]; [done|]. intros D. split; [exact (driving_separate _ _ _ _ D)|exact (driving_kept _ _ _ _ D)]. Qed.
(** The service may change under a runtime that keeps driving. *)
Lemma phase_moved log p s' : phase_ok log p -> separate s' -> Kept team snap log (Service.store s') ->
  (snapshot_kept team snap (Service.store (service_of p)) -> snapshot_kept team snap (Service.store s')) -> phase_ok log (with_service p s').
Proof. destruct p as [s|r s]; [done|]. intros [Hs Hk Hsn Ht Hp Hc Hr] Hs' Hk' Hsn'. split; auto. Qed.
Lemma phase_served log p {A} (m : svc A) s' a : serving_along log m -> m (service_of p) = (s', a) -> phase_ok log p -> phase_ok log (with_service p s').
Proof.
  intros Hm E Hp. destruct (phase_kept _ _ Hp) as [Hs Hk]. destruct (Hm _ Hs Hk) as [Hs' Ha]. rewrite E in Hs', Ha. destruct (Ha Hk) as (Hk' & _ & Hsn). by apply phase_moved.
Qed.
Lemma phase_onward log r s r' s' {A} (m : rop A) a : onwards team snap log m -> m (r, s) = ((r', s'), a) -> phase_ok log (Live r s) -> phase_ok log (Live r' s').
Proof. intros Hm E D. specialize (Hm (r, s)). rewrite E in Hm. by destruct (Hm D). Qed.
Lemma coherent_cons e log : coherent log ->
  match e with
  | Sent k op cm => (forall op' cm', Sent k op' cm' ∈ log -> op = op' /\ cm = cm') /\ Completed k ∉ log
  | Resumed n => resumable log n
  | _ => True
  end -> coherent (e :: log).
Proof.
  intros (H1 & H2 & H3) He. split_and!.
  - intros k op cm op' cm' [E|Hi]%elem_of_cons [E'|Hi']%elem_of_cons; subst; try (by injection E' as -> ->); [..|by eapply H1].
    + by apply He.
    + destruct He as [He _]. destruct (He _ _ Hi). by subst.
  - intros k op cm [|x newer] older E; injection E as -> E; [|by eapply H2]. subst. by destruct He.
  - intros n [|x newer] older E; injection E as -> E; [|by eapply H3]. by subst.
Qed.
Lemma coherent_verify s r log : coherent log -> coherent (verify_events team snap s r log).
Proof.
  intros Hc. unfold verify_events. destruct (snd _) as [o|]; [|done]. unfold completing. assert (coherent (judging o log)) as Hj.
  { destruct (judging_spec o log) as (l & -> & Hl & _). induction Hl as [|e l He _ IH]; [done|]. cbn [app]. apply coherent_cons; [done|]. by destruct e. }
  destruct r as [h|v]; [done|]. destruct (_ =s _); [|done]. by apply coherent_cons.
Qed.
Lemma loss_seen log p lock st1 c : TeamLock.team lock = team ->
  read_cursor lock (Snapshot.binding snap) (Service.store (service_of p)) = (st1, inr (Some c)) -> Cursor.protection_lost c = true ->
  phase_ok log p -> phase_ok (LossSealed :: log) (with_service p ((service_of p) <| Service.store := st1 |>)).
Proof.
  intros Ht Er Hlost Hp. destruct (phase_kept _ _ Hp) as [Hs Hk]. destruct (read_cursor_kept _ _ Hb _ log _ _ _ Er Ht Hk) as [Hstill (c0 & Hc0 & Ha & _)].
  destruct (still_along _ _ Hb log _ _ Hstill Hk) as (Hk1 & Hf1 & Hsn1). pose proof (still_others (cursor_path team snap (Service.store (service_of p))) _ _ Hstill (kept_ok _ _ _ _ Hk)) as (_ & _ & Hkk & _).
  assert (separate ((service_of p) <| Service.store := st1 |>)) as Hs1 by by apply (separate_fixed (service_of p)).
  destruct Hc0 as (Hv & Hrc & Hre & _ & Hsn). assert (sealed_as team snap (LossSealed :: log) st1 c0) as Hc1.
  { split; [|split_and!; [done|by apply reached_cons| |auto]].
    - unfold cursor_view in *. assert (cursor_path team snap st1 = cursor_path team snap (Service.store (service_of p))) as -> by by apply team_file_fixed.
      apply (opened_same _ _ _ (Service.store (service_of p))); [done..|apply still_file; [done|by apply cursor_plain]|done].
    - intros _. by rewrite <- (agree_lost _ _ Ha). }
  assert (Kept team snap (LossSealed :: log) st1) as Hk2 by (destruct Hk1 as [Hok Hr Hi _]; split; [done..|]; right; by exists c0).
  destruct p as [s|r s]; [done|]. destruct Hp as [_ _ Hsn0 Htm Hpl Hcu Hrea]. split; try done; cbn [fst snd] in *; [by apply Hsn1|by apply reached_cons].
Qed.
(** *** Every move keeps the invariant *)
Lemma sent_ok log r s r' s' request op workload values : replay_dispatched request op workload values (r, s) = ((r', s'), inr tt) -> phase_ok log (Live r s) -> coherent log ->
  phase_ok (Sent (Cursor.step (Replay.cursor r)) op (commitment (ActionRequest.input request)) :: log) (Live r' s')
  /\ coherent (Sent (Cursor.step (Replay.cursor r)) op (commitment (ActionRequest.input request)) :: log).
Proof.
  intros E Hp Hc. pose proof (driving_reached _ _ _ _ Hp) as (Hsent & Hdone & _). cbn [fst] in Hsent, Hdone.
  destruct (dispatched_driving _ _ Hb Hsnap _ _ _ _ _ _ _ _ E Hp) as [D Hstep]. split; [exact D|]. apply coherent_cons; [done|]. split.
  - intros op' cm' Hin. pose proof (driving_reached _ _ _ _ D) as [Hs' _]. cbn [fst] in *.
    destruct (Hs' (Cursor.step (Replay.cursor r)) op (commitment (ActionRequest.input request))) as [?|(_ & E1 & E2)]; [by constructor|lia|].
    destruct (Hs' _ _ _ (proj2 (elem_of_cons _ _ _) (or_intror Hin))) as [?|(_ & E3 & E4)]; [lia|]. split; congruence.
  - intros Hin. specialize (Hdone _ Hin). lia.
Qed.
Lemma advanced_ok log r s r' s' results t : replay_advanced results (r, s) = ((r', s'), t) -> phase_ok log (Live r s) -> coherent log ->
  let answered := Answered (Cursor.step (Replay.cursor r)) :: log in
  let log' := if Nat.eqb (Cursor.step (Replay.cursor r')) (Cursor.step (Replay.cursor r)) then answered else Completed (Cursor.step (Replay.cursor r)) :: answered in
  phase_ok log' (Live r' s') /\ coherent log'.
Proof.
  intros E Hp Hc. apply (driving_silent _ _ _ (Answered (Cursor.step (Replay.cursor r))) _ I) in Hp. apply (coherent_cons (Answered (Cursor.step (Replay.cursor r)))) in Hc; [|done].
  destruct (advanced_driving _ _ Hb Hsnap _ _ _ _ _ E Hp) as [[D Hs]|[D Hs]]; [by constructor|..]; cbn [fst] in *; rewrite Hs.
  - rewrite Nat.eqb_refl. by split.
  - destruct (Nat.eqb_spec (S (Cursor.step (Replay.cursor r))) (Cursor.step (Replay.cursor r))); [lia|]. split; [exact D|]. by apply coherent_cons.
Qed.
Lemma restarted_ok log p s' : restarted (service_of p) s' -> phase_ok log p -> phase_ok log (Idle s').
Proof.
  intros (Est & Ed & boot & Eb) Hp. destruct (phase_kept _ _ Hp) as [Hs Hk]. pose proof (kept_ok _ _ _ _ Hk) as (H1 & H2 & _). split.
  - unfold separate in *. by rewrite Ed, Est.
  - rewrite Est. eapply kept_files; [..|exact Hk]; try done. split_and!; [done..|]. constructor.
Qed.
Lemma elsewhere_ok log p s' : elsewhere (service_of p) s' -> phase_ok log p -> phase_ok log (with_service p s').
Proof.
  intros (Er & Ek & Ed & Hok & Hq) Hp. destruct (phase_kept _ _ Hp) as [Hs Hk]. destruct (kept_files log _ _ Er Ek (Hok (kept_ok _ _ _ _ Hk)) Hq Hk) as [Hk' Hsn']. apply phase_moved; [done| |done..].
  unfold separate in *. by rewrite Ed, Er, Ek.
Qed.
Lemma moves_ok x y : moves x y -> phase_ok (fst x) (snd x) -> coherent (fst x) -> phase_ok (fst y) (snd y) /\ coherent (fst y).
Proof.
  intros [log s s' value routine values rt E Hsn|log s s' value routine values e E Hsn|log r s r' s' t E|log r s r' s' request op workload values E
    |log r s r' s' request op workload values e E|log r s r' s' u E|log r s r' s' request f u E|log r s r' s' results t E|log r s r' s' status c u E|log r s
    |log p s' Hr|log p s' Hr|log p transition s' r E|log p A change s' r E|log p lease s' r E|log p s' r E|log p value s' r E|log p reason s' r E
    |log s s' r E|log s protected s' r E|log s s1 opened s' x' Eo E|log s s' r E Hr|log p lock st1 c Ht Er Hlost] Hp Hc; cbn [fst snd] in *;
    try (split; [|exact Hc]; first
      [ exact (phase_served _ _ _ _ _ (serving_applied _ _ Hb Hsnap log transition) E Hp) | exact (phase_served _ _ _ _ _ (serving_hold _ _ Hb Hsnap log _ _) E Hp)
      | exact (phase_served _ _ _ _ _ (serving_reconcile _ _ Hb Hsnap log _) E Hp) | exact (phase_served _ _ _ _ _ (serving_orphan _ _ Hb Hsnap log value) E Hp)
      | exact (phase_served _ _ _ _ _ (serving_pause_held _ _ Hb Hsnap log _ reason) E Hp) | exact (phase_onward _ _ _ _ _ _ _ (onwards_begin _ _ Hb log) E Hp)
      | exact (phase_onward _ _ _ _ _ _ _ (onwards_returned _ _ log) E Hp) | exact (phase_onward _ _ _ _ _ _ _ (onwards_classified _ _ Hb Hsnap log request f) E Hp)
      | exact (phase_onward _ _ _ _ _ _ _ (onwards_record_step _ _ Hb Hsnap log status c) E Hp)]).
  - destruct Hp as [Hs Hk]. split; [|done]. exact (runtime_driving _ _ Hb Hsnap log value routine values Hsn _ _ _ E Hs Hk).
  - destruct Hp as [Hs Hk]. split; [|done]. exact (runtime_driving _ _ Hb Hsnap log value routine values Hsn _ _ _ E Hs Hk).
  - by apply (sent_ok _ _ _ _ _ _ _ _ _ E).
  - split; [|done]. exact (dispatched_driving _ _ Hb Hsnap _ _ _ _ _ _ _ _ E Hp).
  - by apply (advanced_ok _ _ _ _ _ _ _ E).
  - split; [|done]. exact (phase_kept _ _ Hp).
  - split; [|done]. by eapply restarted_ok.
  - split; [|done]. by eapply elsewhere_ok.
  - split; [|done]. refine (phase_served _ _ _ _ _ _ E Hp). apply serving_update_team; [done..|]. intros st. apply serving_ret.
  - split; [|done]. destruct Hp as [Hs Hk]. exact (start_episode_kept _ _ Hb log _ _ _ E Hs Hk).
  - destruct Hp as [Hs Hk]. split; [|by apply coherent_verify]. exact (verify_kept _ _ Hb Hsnap log _ _ _ _ E Hs Hk).
  - destruct Hp as [Hs Hk]. destruct (continue_reopened_kept _ _ Hb Hsnap log _ _ _ E Hs Hk) as (Hs' & _ & Hin). destruct (Hin _ _ _ eq_refl Eo) as [Hres Hk']. split; [by split|]. by apply coherent_cons.
  - destruct Hp as [Hs Hk]. destruct (continue_reopened_kept _ _ Hb Hsnap log _ _ _ E Hs Hk) as (Hs' & Hk' & _). by split.
  - split; [by eapply loss_seen|by apply coherent_cons].
Qed.
(** A run nothing was sealed of yet. *)
Definition fresh (s : Service) : Prop :=
  separate s /\ store_ok (Service.store s)
  /\ file_of (Service.store s) (cursor_path team snap (Service.store s)) = None /\ file_of (Service.store s) (recovery_path team snap (Service.store s)) = None
  /\ file_of (Service.store s) (incident_path team snap (Service.store s)) = None.
Lemma history_ok s log p : fresh s -> rtc moves ([], Idle s) (log, p) -> phase_ok log p /\ coherent log.
Proof.
  intros (Hs & Hok & Hc & Hr & Hi) H. remember ([] : list Event, Idle s) as x eqn:Ex. remember (log, p) as y eqn:Ey.
  assert (phase_ok (fst x) (snd x) /\ coherent (fst x)) as [H1 H2].
  { subst x. cbn [fst snd]. split; [split; [done|]; split; [done|by left|by left|left; split; [done|apply quiet_nil]]|]. split_and!; [by intros k op cm op' cm' ?%elem_of_nil|by intros k op cm [|] older|by intros n [|] older]. }
  clear Ex. induction H as [x|x z y Hxz _ IH]; [by subst x|]. destruct (moves_ok _ _ Hxz H1 H2). by apply IH.
Qed.
(** C5. However a run's segments, crashes, restarts, holds, verifications and its
    continuation interleave, whichever system calls fail and whatever others write
    meanwhile: every RPC of a step carries the same operation and the same exact input,
    and no RPC of a step is sent after the step's completion was sealed. *)
Theorem one_operation_per_step s log p : fresh s -> rtc moves ([], Idle s) (log, p) ->
  (forall k op cm op' cm', Sent k op cm ∈ log -> Sent k op' cm' ∈ log -> op = op' /\ cm = cm')
  /\ (forall k op cm newer older, log = newer ++ Sent k op cm :: older -> Completed k ∉ older).
Proof. intros Hf H. by destruct (history_ok _ _ _ Hf H) as (_ & ? & ? & _). Qed.
(** C6. A held run is continued at most once, and past nothing uncertain: whatever was sent
    before it resumed is of an earlier step, or is the operation of the step it resumed
    at and was proven to have had no effect, by evidence a verification saw before. *)
Theorem continuation_proven s log p n newer older : fresh s -> rtc moves ([], Idle s) (log, p) -> log = newer ++ Resumed n :: older ->
  (forall k op cm, Sent k op cm ∈ older -> (k < n)%nat \/ (k = n /\ exists o, Judged o ∈ older /\ absent_by o op)) /\ (forall k, Resumed k ∉ older).
Proof. intros Hf H E. destruct (history_ok _ _ _ Hf H) as (_ & _ & _ & Hr). exact (Hr _ _ _ E). Qed.

Definition progress_says (log : list Event) (p : Progress) : Prop :=
  (p = NoProgress -> forall k op cm, Sent k op cm ∉ log)
  /\ (p = AllDone -> (forall k, (k < length (Snapshot.steps snap))%nat -> Answered k ∈ log) /\ forall k op cm, Sent k op cm ∈ log -> (k < length (Snapshot.steps snap))%nat).
Lemma with_progress log value : Run.run_id value = Binding.run_id (Snapshot.binding snap) -> is_empty (Run.generation value) = false ->
  serving_with log (progress team value) (progress_says log).
Proof.
  intros Er Eg. unfold progress. rewrite Eg. eapply (with_bind _ _ _ _ _ (when_ok (sealed_fits snap log value))).
  { unfold sealed_run. eapply with_attempt; [apply with_raising, with_lock|]. intros lock Hl. by apply with_sealed. }
  intros [e|[[batch found_snapshot] found]] Hfit; apply with_ret; [by split|]. cbn [when_ok sealed_fits] in Hfit.
  assert (forall q, (found_snapshot = None \/ found = None) -> (q = NoProgress \/ q = Partial) -> progress_says log q) as Hnone.
  { intros q Hn Hq. split; [|by intros ->; destruct Hq]. intros -> k op cm Hin. assert (quiet_log log) as Hquiet; [|by destruct (Hquiet _ Hin)].
    destruct found_snapshot as [r|], found as [c|]; try done; [by destruct Hn|by apply Hfit|by apply Hfit]. }
  destruct found_snapshot as [r|], found as [c|]; try (apply Hnone; [by auto|destruct (is_some batch); by auto]).
  destruct Hfit as ((_ & Hr) & _ & _ & Hre). destruct (Hr Er) as (_ & _ & Hplan). specialize (Hre Er) as (Hsent & _ & _ & _ & Hans).
  assert (length (Snapshot.steps r) = length (Snapshot.steps snap)) as Hlen.
  { destruct Hsnap as (Ha & _). unfold Snapshot.steps. rewrite Hplan. rewrite get_ordered.
    - destruct (get (Snapshot.plan snap) "steps") as [[]|]; try done. cbn [option_map ordered]. by rewrite length_map.
    - unfold object, Snapshot.document in Ha. cbn [admissible forallb fst snd] in Ha. rewrite !andb_true_iff in Ha. by destruct Ha as (_ & _ & _ & _ & (_ & ?) & _). }
  destruct (Nat.eqb_spec (Cursor.step c) 0) as [E0|E0], (Cursor.operation_id c) as [o|] eqn:Eo; cbn [is_some negb andb]; try (by split).
  - split; [|done]. intros _ k op cm Hin. destruct (Hsent k op cm Hin) as [?|(_ & ? & _)]; [lia|done].
  - destruct (Nat.eqb_spec (Cursor.step c) (length (Snapshot.steps r))) as [E|E]; [|by split]. split; [done|]. intros _. split; [intros k Hk; apply Hans; lia|]. intros k op cm Hin.
    destruct (Hsent k op cm Hin) as [?|(_ & ? & _)]; [lia|done].
Qed.
(** C7. While a run's own records are kept, what durable state proves of it is true of what
    it did: a run it calls unstarted sent nothing; of one it calls complete every step of
    its plan was answered, its turn's results handed to the run or its verifier saying
    that it occurred, and everything sent is of a step of the plan, none of them open. *)
Theorem progress_sound s log p value s' q : fresh s -> rtc moves ([], Idle s) (log, p) ->
  Run.run_id value = Binding.run_id (Snapshot.binding snap) -> is_empty (Run.generation value) = false ->
  progress team value (service_of p) = (s', q) ->
  (q = NoProgress -> forall k op cm, Sent k op cm ∉ log)
  /\ (q = AllDone -> (forall k, (k < length (Snapshot.steps snap))%nat -> Answered k ∈ log) /\ forall k op cm, Sent k op cm ∈ log -> (k < length (Snapshot.steps snap))%nat).
Proof.
  intros Hf H Er Eg E. destruct (history_ok _ _ _ Hf H) as [Hp _]. destruct (phase_kept _ _ Hp) as [Hs Hk].
  destruct (with_progress log value Er Eg _ Hs Hk) as [_ Hq]. by rewrite E in Hq.
Qed.
(** C8. Once a reading of the run's sealed cursor said its protection was lost, every
    later reading does, whatever cursor a runtime that did not know sealed since. *)
Theorem loss_stays s log p lock st1 c : fresh s -> rtc moves ([], Idle s) (log, p) -> LossSealed ∈ log ->
  TeamLock.team lock = team -> read_cursor lock (Snapshot.binding snap) (Service.store (service_of p)) = (st1, inr (Some c)) -> Cursor.protection_lost c = true.
Proof.
  intros Hf H Hl Ht Er. destruct (history_ok _ _ _ Hf H) as [Hp _]. destruct (phase_kept _ _ Hp) as [Hs Hk].
  destruct (read_cursor_kept _ _ Hb _ log _ _ _ Er Ht Hk) as [_ (c0 & (_ & _ & _ & Hl0 & _) & Ha & _)]. rewrite (agree_lost _ _ Ha). by apply Hl0.
Qed.
End Histories.
