(* ===== verification/StoreSamples.v ===== *)
(** * A concrete store

    The standard base64 and a transparent cipher, which satisfy what [Sealing]
    relies on; a system none of whose calls fail; a store run on them, and a service
    that replays a run of two steps through a dispatch and a restart, and through a
    failure, a hold, a verification and a continuation. *)

From stdpp Require Import base tactics list strings gmap pretty.
From Stdlib Require Import ZArith Lia Ascii.
From S2P Require Import Prelude Text Json Reader Utf8 ReaderSafety Floats RoundTrip Calendar Platform Wire ActionFiles Instants Notices Schedule Dates Starts Plans Team Definitions Define Claims Runs Holds Samples Journal Cursors CursorSafety StateCodec Disk DiskSafety Sealing RoutineStore StoreSafety StoreResets Requests Redaction RedactionSafety Executor Walk Credentials Projection Outputs Previews Admission RunDocuments Traces Diagnostics Service Replay Recovery DiagnosticSafety ReplaySafety RecoverySafety.

#[local] Open Scope Z_scope.

(** ** Decoding base64 *)
Definition sextet_value (a : ascii) : option Z :=
  let b := byte_code a in
  if (0x41 <=? b) && (b <=? 0x5a) then Some (b - 0x41)
  else if (0x61 <=? b) && (b <=? 0x7a) then Some (b - 0x61 + 26)
  else if (0x30 <=? b) && (b <=? 0x39) then Some (b - 0x30 + 52)
  else if b =? 0x2b then Some 62 else if b =? 0x2f then Some 63 else None.
Definition group_value (a b c d : ascii) : option Z :=
  a ← sextet_value a; b ← sextet_value b; c ← sextet_value c; d ← sextet_value d; Some (a * 262144 + b * 4096 + c * 64 + d).
Definition first_byte (n : Z) : ascii := byte_of (n / 65536).
Definition second_byte (n : Z) : ascii := byte_of (n / 256 mod 256).
Definition third_byte (n : Z) : ascii := byte_of (n mod 256).
Definition pad : ascii := "="%char.
Fixpoint decode_groups (l : list ascii) : option (list ascii) :=
  match l with
  | [] => Some []
  | a :: b :: c :: d :: rest =>
      if Ascii.eqb d pad then
        match rest with
        | [] => if Ascii.eqb c pad then n ← group_value a b "A" "A"; Some [first_byte n]
                else n ← group_value a b c "A"; Some [first_byte n; second_byte n]
        | _ => None
        end
      else n ← group_value a b c d; rest ← decode_groups rest; Some (first_byte n :: second_byte n :: third_byte n :: rest)
  | _ => None
  end.

Lemma sextets_back : forallb (fun k => bool_decide (sextet_value (sextet_char (Z.of_nat k)) = Some (Z.of_nat k)) && negb (Ascii.eqb (sextet_char (Z.of_nat k)) pad)
  && (is_alnum (sextet_char (Z.of_nat k)) || one_of "+/=" (sextet_char (Z.of_nat k)))) (seq 0 64) = true.
Proof. vm_compute. reflexivity. Qed.
Lemma sextet_back n : 0 <= n < 64 -> sextet_value (sextet_char n) = Some n /\ Ascii.eqb (sextet_char n) pad = false
  /\ is_alnum (sextet_char n) || one_of "+/=" (sextet_char n) = true.
Proof.
  intros Hn. pose proof sextets_back as H. rewrite forallb_forall in H. specialize (H (Z.to_nat n)). rewrite Z2Nat.id in H by lia.
  specialize (H ltac:(apply in_seq; lia)). rewrite !andb_true_iff in H. destruct H as [[H1 H2] H3].
  apply bool_decide_eq_true in H1. by apply negb_true_iff in H2.
Qed.
Lemma byte_range a : 0 <= byte_code a < 256.
Proof. unfold byte_code. pose proof (Ascii.nat_ascii_bounded a). lia. Qed.
Lemma byte_back a : byte_of (byte_code a) = a.
Proof. unfold byte_of, byte_code. rewrite Nat2Z.id. apply ascii_nat_embedding. Qed.

(** The three bytes of a group, from its sextets. *)
Lemma group_back x y z : 0 <= x < 256 -> 0 <= y < 256 -> 0 <= z < 256 ->
  let n := x * 65536 + y * 256 + z in
  (0 <= n / 262144 < 64 /\ 0 <= n / 4096 mod 64 < 64 /\ 0 <= n / 64 mod 64 < 64 /\ 0 <= n mod 64 < 64)
  /\ n / 262144 * 262144 + n / 4096 mod 64 * 4096 + n / 64 mod 64 * 64 + n mod 64 = n
  /\ n / 65536 = x /\ n / 256 mod 256 = y /\ n mod 256 = z.
Proof. cbv zeta. intros Hx Hy Hz. Z.div_mod_to_equations. lia. Qed.
Lemma group_value_back x y z : 0 <= x < 256 -> 0 <= y < 256 -> 0 <= z < 256 ->
  let n := x * 65536 + y * 256 + z in
  group_value (sextet_char (n / 262144)) (sextet_char (n / 4096 mod 64)) (sextet_char (n / 64 mod 64)) (sextet_char (n mod 64)) = Some n.
Proof.
  cbv zeta. intros Hx Hy Hz. destruct (group_back x y z Hx Hy Hz) as ((H1 & H2 & H3 & H4) & Hn & _). unfold group_value.
  destruct (sextet_back _ H1) as (-> & _), (sextet_back _ H2) as (-> & _), (sextet_back _ H3) as (-> & _), (sextet_back _ H4) as (-> & _).
  cbn [mbind option_bind]. by rewrite Hn.
Qed.

(** Lists in groups of three. *)
Lemma groups_ind (P : list ascii -> Prop) : P [] -> (forall a, P [a]) -> (forall a b, P [a; b]) ->
  (forall a b c l, P l -> P (a :: b :: c :: l)) -> forall l, P l.
Proof.
  intros H0 H1 H2 H3 l. assert (forall n, forall l, (length l <= n)%nat -> P l) as H; [|by apply (H (length l))].
  intros n. induction n as [|n IH]; intros [|a [|b [|c l']]] Hl; cbn in Hl; try done; try lia. apply H3, IH. lia.
Qed.
Lemma decode_encode_groups l : decode_groups (String.list_ascii_of_string (encode_groups l)) = Some l.
Proof.
  induction l as [|a|a b|a b c l IH] using groups_ind; [done|..]; pose proof (byte_range a) as Ha; try pose proof (byte_range b) as Hb; try pose proof (byte_range c) as Hc.
  - pose proof (group_back _ 0 0 Ha ltac:(lia) ltac:(lia)) as ((H1 & H2 & _) & _ & E1 & _). pose proof (group_value_back _ 0 0 Ha ltac:(lia) ltac:(lia)) as V.
    cbv zeta in *. rewrite Z.mul_0_l, !Z.add_0_r in *. assert (byte_code a * 65536 / 64 mod 64 = 0 /\ byte_code a * 65536 mod 64 = 0) as [Z1 Z2] by (Z.div_mod_to_equations; lia).
    rewrite Z1, Z2 in V. cbn [encode_groups String.list_ascii_of_string decode_groups]. change (Ascii.eqb "=" pad) with true. cbv iota.
    change "A"%char with (sextet_char 0). rewrite V. cbn [mbind option_bind]. unfold first_byte. by rewrite E1, byte_back.
  - pose proof (group_back _ _ 0 Ha Hb ltac:(lia)) as ((H1 & H2 & H3 & _) & _ & E1 & E2 & _). pose proof (group_value_back _ _ 0 Ha Hb ltac:(lia)) as V.
    cbv zeta in *. rewrite !Z.add_0_r in *. assert ((byte_code a * 65536 + byte_code b * 256) mod 64 = 0) as Z2 by (Z.div_mod_to_equations; lia).
    rewrite Z2 in V. cbn [encode_groups String.list_ascii_of_string decode_groups]. change (Ascii.eqb "=" pad) with true. cbv iota.
    destruct (sextet_back _ H3) as (_ & -> & _). change "A"%char with (sextet_char 0). rewrite V. cbn [mbind option_bind].
    unfold first_byte, second_byte. by rewrite E1, E2, !byte_back.
  - pose proof (group_back _ _ _ Ha Hb Hc) as ((_ & _ & _ & H4) & _ & E1 & E2 & E3). pose proof (group_value_back _ _ _ Ha Hb Hc) as V. cbv zeta in *.
    cbn [encode_groups String.list_ascii_of_string decode_groups]. destruct (sextet_back _ H4) as (_ & -> & _). rewrite V. cbn [mbind option_bind].
    rewrite IH. cbn [mbind option_bind]. unfold first_byte, second_byte, third_byte. by rewrite E1, E2, E3, !byte_back.
Qed.
Lemma groups_length l : Z.of_nat (String.length (encode_groups l)) = 4 * ((Z.of_nat (length l) + 2) / 3).
Proof.
  induction l as [|a|a b|a b c l IH] using groups_ind; [done..|]. cbn [encode_groups String.length length].
  rewrite !Nat2Z.inj_succ. Z.div_mod_to_equations. lia.
Qed.
Lemma groups_ascii l : all_bytes (fun a => is_alnum a || one_of "+/=" a) (encode_groups l) = true.
Proof.
  induction l as [|a|a b|a b c l IH] using groups_ind; [done|..]; pose proof (byte_range a) as Ha; try pose proof (byte_range b) as Hb; try pose proof (byte_range c) as Hc.
  - pose proof (group_back _ 0 0 Ha ltac:(lia) ltac:(lia)) as ((H1 & H2 & _) & _). cbv zeta in *. rewrite Z.mul_0_l, !Z.add_0_r in *.
    cbn [encode_groups all_bytes]. by rewrite (proj2 (proj2 (sextet_back _ H1))), (proj2 (proj2 (sextet_back _ H2))).
  - pose proof (group_back _ _ 0 Ha Hb ltac:(lia)) as ((H1 & H2 & H3 & _) & _). cbv zeta in *. rewrite !Z.add_0_r in *.
    cbn [encode_groups all_bytes]. by rewrite (proj2 (proj2 (sextet_back _ H1))), (proj2 (proj2 (sextet_back _ H2))), (proj2 (proj2 (sextet_back _ H3))).
  - pose proof (group_back _ _ _ Ha Hb Hc) as ((H1 & H2 & H3 & H4) & _). cbv zeta in *. cbn [encode_groups all_bytes].
    by rewrite (proj2 (proj2 (sextet_back _ H1))), (proj2 (proj2 (sextet_back _ H2))), (proj2 (proj2 (sextet_back _ H3))), (proj2 (proj2 (sextet_back _ H4))), IH.
Qed.

(** ** A transparent cipher *)
Definition tagged (aad plaintext : string) : string := plaintext +:+ pad32 16 aad.
Definition untagged (aad ciphertext : string) : option string :=
  let '(plaintext, tag) := split_at (String.length ciphertext - 16) ciphertext in if tag =s pad32 16 aad then Some plaintext else None.
#[global] Instance sample_crypto : Crypto := {|
  encrypt := fun _ _ aad plaintext => tagged aad plaintext;
  decrypt := fun _ _ aad ciphertext => untagged aad ciphertext;
  hmac256 := fun key message => pad32 32 (key +:+ message);
  base64_encode := fun bytes => encode_groups (String.list_ascii_of_string bytes);
  base64_decode := fun encoded => option_map String.string_of_list_ascii (decode_groups (String.list_ascii_of_string encoded))
|}.
Lemma length_appended a b : String.length (a +:+ b) = (String.length a + String.length b)%nat.
Proof. induction a as [|x a IH]; [done|]. change (String x a +:+ b) with (String x (a +:+ b)). cbn. by rewrite IH. Qed.
Lemma split_appended a b : split_at (String.length a) (a +:+ b) = (a, b).
Proof. induction a as [|x a IH]; [by destruct b|]. change (String x a +:+ b) with (String x (a +:+ b)). cbn [String.length split_at]. by rewrite IH. Qed.
#[global] Instance sample_laws : CryptoLaws sample_crypto.
Proof.
  constructor; cbn [encrypt decrypt hmac256 base64_encode base64_decode sample_crypto].
  - intros _ _ aad plaintext. unfold untagged, tagged. rewrite length_appended, pad32_length, Nat.add_sub, split_appended. by rewrite seqb_refl.
  - intros _ _ aad plaintext. unfold slen, tagged. rewrite length_appended, pad32_length. lia.
  - intros key message. apply pad32_length.
  - intros bytes. rewrite decode_encode_groups. cbn. by rewrite String.string_of_list_ascii_of_string.
  - intros bytes. unfold slen. rewrite groups_length. do 4 f_equal. induction bytes; cbn in *; lia.
  - intros bytes. apply groups_ascii.
Qed.

(** ** A system that answers every call *)
#[global] Instance counted_entropy : Entropy nat := fun n e => (S e, Some (pad32 n (pretty e))).
#[global] Instance counted_system : System nat := {| system_entropy := counted_entropy; call_fails := fun e => (e, false) |}.
#[global] Instance counted_draws : FullDraws nat.
Proof. intros n e e' bytes H. injection H as <- <-. apply pad32_length. Qed.

Definition team_name : string := "team_0123456789abcdef0123456789abcdef".
Definition empty_disk : Disk.Disk nat := Disk.mk ∅ 1000 1000 1 0%nat.
Definition fresh_store : RoutineStore.RoutineStore nat :=
  RoutineStore.mk ["state"; "routines"]%string ["keys"; "routines.key"]%string MAX_STATE_BYTES MAX_DECODED_STATE_BYTES false 0 [] empty_disk.
Definition fresh_lock : TeamLock.TeamLock := TeamLock.mk team_name 0.
Lemma fresh_ok : store_ok (PF := utc_platform) (VO := plain_vocabulary) fresh_store.
Proof. split; [done|]. split; [done|constructor]. Qed.

(** ** The store's theorems on it *)
#[local] Existing Instance utc_platform.
#[local] Existing Instance plain_vocabulary.

Definition serve (st : TeamRoutines.TeamRoutines) : StoreError + TeamRoutines.TeamRoutines * Z := inr (st <| TeamRoutines.served_at := 5 |>, 7).
Lemma fresh_view : team_view fresh_store fresh_lock = inr no_routines.
Proof. vm_compute. reflexivity. Qed.
Lemma served_writable : writable_state (no_routines <| TeamRoutines.served_at := 5 |>) team_name.
Proof. split; [vm_compute; reflexivity|]. split; [vm_compute; tauto|]. vm_compute. discriminate. Qed.
Definition served_store : RoutineStore.RoutineStore nat := fst (store_update fresh_lock serve fresh_store).
Lemma ran {A B} (p : A * B) b : snd p = b -> p = (fst p, b).
Proof. intros <-. apply surjective_pairing. Qed.
Lemma served : store_update fresh_lock serve fresh_store = (served_store, inr 7).
Proof. unfold served_store. refine (ran _ (inr 7) _). vm_compute. reflexivity. Qed.
#[global] Opaque served_store.
Lemma update_persists_witness : exists before after,
  team_view fresh_store fresh_lock = inr before /\ serve before = inr (after, 7) /\ persisted fresh_lock after fresh_store served_store.
Proof.
  refine (update_persists fresh_lock serve fresh_store served_store (inr 7) served fresh_ok _).
  intros before after answer Hv [= <- <-]. rewrite fresh_view in Hv. injection Hv as <-. apply served_writable.
Defined.

Definition sealed_store : RoutineStore.RoutineStore nat := fst (put_record Recovery fresh_lock hex_a "snapshot" fresh_store).
Lemma snapshot_put : put_record Recovery fresh_lock hex_a "snapshot" fresh_store = (sealed_store, inr tt).
Proof. unfold sealed_store. refine (ran _ (inr tt) _). vm_compute. reflexivity. Qed.
#[global] Opaque sealed_store.
Lemma record_reads_back_witness : record_view Recovery fresh_lock hex_a sealed_store = inr (Some "snapshot"%string)
  /\ snd (put_record Recovery fresh_lock hex_a "another" sealed_store) = inl Immutable.
Proof.
  split; [|vm_compute; reflexivity].
  exact (proj1 (proj1 (proj2 (record_reads_back Recovery fresh_lock hex_a "snapshot" fresh_store sealed_store (inr tt) snapshot_put fresh_ok)))).
Defined.

Definition reset_store : RoutineStore.RoutineStore nat := release_exclusive (exclusive served_store).
Definition refused_store : RoutineStore.RoutineStore nat := fst (store_update fresh_lock serve reset_store).
Lemma overtaken_refused : store_update fresh_lock serve reset_store = (refused_store, inl (inl Resetting)).
Proof. unfold refused_store. refine (ran _ (inl (inl Resetting)) _). vm_compute. reflexivity. Qed.
#[global] Opaque refused_store.
Lemma reset_stops_writes_witness : untouched reset_store refused_store.
Proof.
  refine (reset_stops_writes team_name fresh_lock fresh_store fresh_store served_store reset_store refused_store fresh_ok _ _ _ _).
  - vm_compute. reflexivity.
  - apply rtc_once. eapply call_writes, writes_update, served.
  - unfold reset_store. apply rtc_once, call_release.
  - eapply writes_update, overtaken_refused.
Defined.

Definition note_path : Path := ["state"; "note"]%string.
Definition noted_disk : Disk.Disk nat := fst (write_private note_path "kept" empty_disk).
Lemma noted : write_private note_path "kept" empty_disk = (noted_disk, inr tt).
Proof. unfold noted_disk. refine (ran _ (inr tt) _). vm_compute. reflexivity. Qed.
#[global] Opaque noted_disk.
Lemma private_write_atomic_witness : file_at noted_disk note_path = Some "kept"%string.
Proof. exact (proj1 (proj2 (private_write_atomic note_path "kept" empty_disk noted_disk (inr tt) noted eq_refl))). Defined.

(** *** A system whose calls fail from some call on *)
#[global] Instance failing_entropy : Entropy (nat * nat) := fun n e => ((S (fst e), snd e), Some (pad32 n (pretty (fst e)))).
#[global] Instance failing_system : System (nat * nat) :=
  {| system_entropy := failing_entropy; call_fails := fun e => ((fst e, pred (snd e)), Nat.eqb (snd e) 0) |}.
Definition failing_disk (calls : nat) : Disk.Disk (nat * nat) := Disk.mk ∅ 1000 1000 1 (0%nat, calls).
(** A write whose last call, the synchronization of the directory, fails reports the
    failure with the payload already in place. *)
Lemma failed_sync_replaced : let '(d, r) := write_private note_path "kept" (failing_disk 8) in
  r = inl StateNotPersisted /\ file_at d note_path = Some "kept"%string.
Proof. vm_compute. split; reflexivity. Qed.

(** ** A diagnostic recorded and read back *)
Definition kept_diagnostics : DiagnosticStore := DiagnosticStore.mk ["state"; "diagnostics"]%string ["keys"; "diagnostics.key"]%string MAX_TEAM_BYTES.
Lemma kept_diagnostics_new : diagnostics_new ["state"; "diagnostics"]%string ["keys"; "diagnostics.key"]%string = inr kept_diagnostics.
Proof. vm_compute. reflexivity. Qed.
Definition sample_incarnation : string := "0123456789abcdef0123456789abcdef0123456789abcdef0123456789abcdef".
Definition sample_diagnostic : Diagnostic.Diagnostic :=
  Diagnostic.mk hex_a hex_a "01234567-89ab-4cde-8f01-23456789abcd" 1 "mailer" "send" 1 1760520615 None (Some "timeout"%string).
Definition diagnosed_disk : Disk.Disk nat := fst (record kept_diagnostics team_name sample_incarnation sample_diagnostic ["hunter2"%string] empty_disk).
Lemma diagnosed : record kept_diagnostics team_name sample_incarnation sample_diagnostic ["hunter2"%string] empty_disk = (diagnosed_disk, inr tt).
Proof. unfold diagnosed_disk. refine (ran _ (inr tt) _). vm_compute. reflexivity. Qed.
Lemma empty_rooted directory : rooted empty_disk directory.
Proof. intros _ name _. unfold file_at, file_in, empty_disk. cbn [Disk.nodes]. by rewrite lookup_empty. Qed.
Lemma diagnosed_reads : snd (read_diagnostics kept_diagnostics team_name sample_incarnation hex_a 1760520700 diagnosed_disk) = inr [sample_diagnostic].
Proof. vm_compute. reflexivity. Qed.
Lemma recordings_bounded_witness : record_any kept_diagnostics team_name sample_incarnation (OfAttempt sample_diagnostic ["hunter2"%string]) empty_disk = (diagnosed_disk, inr tt)
  /\ forall d2 found, entries (diagnostics_dir kept_diagnostics team_name) diagnosed_disk = (d2, inr found) -> zsum (map Body.size found) <= MAX_TEAM_BYTES.
Proof.
  split; [exact diagnosed|]. exact (proj1 (recordings_bounded ["state"; "diagnostics"]%string ["keys"; "diagnostics.key"]%string kept_diagnostics team_name sample_incarnation
    (OfAttempt sample_diagnostic ["hunter2"%string]) empty_disk diagnosed_disk kept_diagnostics_new eq_refl (empty_rooted _) diagnosed)).
Defined.
Lemma diagnostic_reads_back_witness : is_some (canonical_diagnostic (Diagnostic.view sample_diagnostic)) = true
  /\ forall now d2 found, now - RETENTION_SECONDS < 1760520615 ->
  read_diagnostics kept_diagnostics team_name sample_incarnation hex_a now diagnosed_disk = (d2, inr found) -> len found < MAX_RUN_DIAGNOSTICS -> sample_diagnostic ∈ found.
Proof.
  split; [vm_compute; reflexivity|]. refine (proj1 (diagnostic_reads_back ["state"; "diagnostics"]%string ["keys"; "diagnostics.key"]%string kept_diagnostics team_name sample_incarnation
    sample_diagnostic ["hunter2"%string] empty_disk diagnosed_disk kept_diagnostics_new eq_refl (empty_rooted _) _ _ _ _ _ diagnosed)).
  - vm_compute. reflexivity.
  - vm_compute. tauto.
  - vm_compute. discriminate.
  - discriminate.
  - split; [vm_compute; discriminate|reflexivity].
Defined.

(** ** A run replayed on it *)
#[local] Existing Instance ResultSample.cases.
#[local] Existing Instance ResultSample.exact_patterns.
#[local] Existing Instance ResultSample.typed_members.
#[local] Existing Instance plain_base64.
#[local] Existing Instance silent_regexes.
(** A journal that keeps nothing, and a Team with the two Actions of the plan. *)
#[local] Instance no_journal : RoutineJournal unit := {|
  batch_of := fun _ j => (j, Some None); operations_of := fun _ _ j => (j, Some []); archive_batch := fun _ _ j => (j, Some tt);
  release_batch := fun _ _ j => (j, Some tt); discard_generation := fun _ j => (j, Some tt); purge_generation := fun _ j => (j, Some tt);
  uncertain_of := fun _ j => (j, Some None); end_settled_of := fun _ j => (j, Some tt)
|}.
#[local] Instance no_text : TextJournal unit.
Proof. constructor; [done|]. intros generation fingerprint j j' operations [= _ <-]. constructor. Qed.
(** An engine whose verifier never completes its turn. *)
#[local] Instance no_verifier : VerifierEngine unit nat := fun _ _ _ _ _ x => (x, ([], None)).
Definition stock_action (id member kind effect : string) : ActionSpec.ActionSpec :=
  ActionSpec.mk id "" (ResultSample.action_schema member kind) (VObject []) [] [] [] [] effect None None.
Definition stock : ActiveAssistant.ActiveAssistant :=
  ActiveAssistant.mk "stock" [stock_action "stock.lookup" "sku" "string" "read_only"; stock_action "stock.order" "count" "number" "external"]
    (fun ids => Some (map (fun id => (id, pin_a)) ids)).
#[local] Instance quiet_around : Surroundings nat := {|
  surroundings_entropy := counted_entropy; epoch_now := fun u => (u, 1767259801); monotonic_now := fun u => (u, 5);
  run_executing := fun _ u => (u, true); run_overdue := fun _ u => (u, false); run_stopped := fun _ u => (u, false);
  audit_later := fun _ _ _ u => u; audit_event := fun _ _ _ _ u => u; deadline_fired := fun _ u => (u, false); team_network := fun _ u => (u, Some sha_a); team_scope := fun _ u => (u, inr (TeamScope.mk sha_a [stock])); workload_state := fun _ _ _ u => (u, None)
|}.
Definition stock_routine : Routine.Routine :=
  Routine.mk hex_a "Stock" VNull [] sample_plan 0 0 "" false false 0 0 0 1 "" false None [] 0 0 0 None 0 "".
Definition stock_run : Run.Run :=
  Run.mk hex_a hex_a Leased "" "" 0 60 "" "" "" (generation_for sha_a hex_a "") 0 0 None 2 VNull false 1.
Definition stock_snapshot : SnapshotOf := snapshot_of sha_a stock_run stock_routine.
Definition boot_service : Service.Service nat unit nat := Service.mk fresh_store kept_diagnostics (of_boot hex_a) tt 0%nat.
Lemma boot_fresh : fresh team_name stock_snapshot boot_service.
Proof.
  split; [|split; [exact fresh_ok|split_and!; vm_compute; reflexivity]].
  split; [by vm_compute|]. intros q [Hq| ->]; [|by vm_compute].
  change (RoutineStore.starts_with q ["state"; "routines"]%string = true) in Hq.
  destruct q as [|a [|b q]]; cbn [RoutineStore.starts_with] in Hq; rewrite ?andb_false_r in Hq; [done..|]. rewrite !andb_true_iff in Hq. destruct Hq as (Ha & Hb & _).
  apply seqb_true in Ha as <-. apply seqb_true in Hb as <-. split; [done|by vm_compute].
Qed.
Lemma stock_binding : binding_valid (Snapshot.binding stock_snapshot) = true.
Proof. vm_compute. reflexivity. Qed.
Lemma stock_readable : readable_snapshot stock_snapshot.
Proof. split; [by vm_compute|]. split; [vm_compute; tauto|by vm_compute]. Qed.
Lemma stock_snaps network : network_of (Run.generation stock_run) (Run.run_id stock_run) = Some network -> snapshot_of network stock_run stock_routine = stock_snapshot.
Proof. intros H. assert (network_of (Run.generation stock_run) (Run.run_id stock_run) = Some sha_a) as E by by vm_compute. rewrite E in H. by injection H as <-. Qed.

Definition no_replay : ReplayRuntime := Replay.mk "" two_steps "" ∅ at_start None None.
Abbreviation opened_run s := (runtime team_name stock_run stock_routine ∅ s).
Definition replay_of (r : string + ReplayRuntime) : ReplayRuntime := match r with inr rt => rt | inl _ => no_replay end.
Definition first_replay : ReplayRuntime := Eval vm_compute in replay_of (snd (opened_run boot_service)).
Definition first_service : Service.Service nat unit nat := fst (opened_run boot_service).
Lemma first_opened : opened_run boot_service = (first_service, inr first_replay).
Proof. unfold first_service. refine (ran _ (inr first_replay) _). vm_compute. reflexivity. Qed.
(** The first step is sent; then the service restarts and opens the run again, which
    finds its protected values gone. *)
Definition first_request : ActionRequest.ActionRequest :=
  ActionRequest.mk (Replay.interrupt 0) "stock" "stock.lookup" (object [("sku"%string, text "A-1")]) [].
Abbreviation send_first x := (replay_dispatched first_request operation_a "worker-1" ["hunter2"%string] x).
Definition sent_replay : ReplayRuntime := Eval vm_compute in fst (fst (send_first (first_replay, first_service))).
Definition sent_service : Service.Service nat unit nat := snd (fst (send_first (first_replay, first_service))).
Lemma ran_replay {A B C} (p : (A * B) * C) a c : fst (fst p) = a -> snd p = c -> p = ((a, snd (fst p)), c).
Proof. destruct p as [[x y] z]. cbn. by intros -> ->. Qed.
Lemma first_sent : send_first (first_replay, first_service) = ((sent_replay, sent_service), inr tt).
Proof. unfold sent_service. refine (ran_replay _ sent_replay (inr tt) _ _); vm_compute; reflexivity. Qed.
Definition restart (boot : string) (s : Service.Service nat unit nat) : Service.Service nat unit nat :=
  let st := Service.store s in
  Service.mk (RoutineStore.mk (RoutineStore.root st) (RoutineStore.keyring st) (RoutineStore.max_state_bytes st) (RoutineStore.max_decoded_bytes st) false 0 [] (RoutineStore.disk st))
    (Service.diagnostics s) (of_boot boot) tt 0%nat.
Lemma restart_restarted boot s : restarted s (restart boot s).
Proof. split; [done|]. split; [done|]. by eexists. Qed.
Abbreviation later_service := (restart "fedcba9876543210fedcba9876543210" sent_service).
Definition second_replay : ReplayRuntime := Eval vm_compute in replay_of (snd (opened_run later_service)).
Definition second_service : Service.Service nat unit nat := fst (opened_run later_service).
Lemma second_opened : opened_run later_service = (second_service, inr second_replay).
Proof. unfold second_service. refine (ran _ (inr second_replay) _). vm_compute. reflexivity. Qed.
Abbreviation seen := (read_cursor fresh_lock (Snapshot.binding stock_snapshot) (Service.store second_service)).
Definition lost_cursor : Cursor.Cursor := Eval vm_compute in match snd seen with inr (Some c) => c | _ => at_start end.
Definition seen_store : RoutineStore.RoutineStore nat := fst seen.
Lemma loss_read : seen = (seen_store, inr (Some lost_cursor)).
Proof. unfold seen_store. refine (ran _ (inr (Some lost_cursor)) _). vm_compute. reflexivity. Qed.
Lemma found_again c : snd seen = inr (Some c) -> read_cursor fresh_lock (Snapshot.binding stock_snapshot) seen_store = (fst (read_cursor fresh_lock (Snapshot.binding stock_snapshot) seen_store), inr (Some c)).
Proof. intros H. refine (ran _ (inr (Some c)) _). rewrite <- H. vm_compute. reflexivity. Qed.
Lemma lost_again : Cursor.protection_lost lost_cursor = true.
Proof. vm_compute. reflexivity. Qed.
(** The first step is answered, then the second is sent and answered: the run is done. *)
Definition second_request : ActionRequest.ActionRequest :=
  ActionRequest.mk (Replay.interrupt 1) "stock" "stock.order" (object [("count"%string, int 7)]) [].
Definition operation_b : string := "89abcdef-0123-4def-8123-456789abcdef".
Abbreviation answer_first x := (replay_advanced (object [(Replay.interrupt 0, found)]) x).
Abbreviation send_second x := (replay_dispatched second_request operation_b "worker-1" [] x).
Abbreviation answer_second x := (replay_advanced (object [(Replay.interrupt 1, object [])]) x).
Definition answered_replay : ReplayRuntime := Eval vm_compute in fst (fst (answer_first (sent_replay, sent_service))).
Definition answered_service : Service.Service nat unit nat := snd (fst (answer_first (sent_replay, sent_service))).
Definition answered_turn := Eval vm_compute in snd (answer_first (sent_replay, sent_service)).
Lemma first_answered : answer_first (sent_replay, sent_service) = ((answered_replay, answered_service), answered_turn).
Proof. unfold answered_service. refine (ran_replay _ answered_replay answered_turn _ _); vm_compute; reflexivity. Qed.
Definition ordered_replay : ReplayRuntime := Eval vm_compute in fst (fst (send_second (answered_replay, answered_service))).
Definition ordered_service : Service.Service nat unit nat := snd (fst (send_second (answered_replay, answered_service))).
Lemma second_sent : send_second (answered_replay, answered_service) = ((ordered_replay, ordered_service), inr tt).
Proof. unfold ordered_service. refine (ran_replay _ ordered_replay (inr tt) _ _); vm_compute; reflexivity. Qed.
Definition finished_replay : ReplayRuntime := Eval vm_compute in fst (fst (answer_second (ordered_replay, ordered_service))).
Definition finished_service : Service.Service nat unit nat := snd (fst (answer_second (ordered_replay, ordered_service))).
Definition finished_turn := Eval vm_compute in snd (answer_second (ordered_replay, ordered_service)).
Lemma second_answered : answer_second (ordered_replay, ordered_service) = ((finished_replay, finished_service), finished_turn).
Proof. unfold finished_service. refine (ran_replay _ finished_replay finished_turn _ _); vm_compute; reflexivity. Qed.
Lemma steps_moved : Cursor.step (Replay.cursor sent_replay) = 0%nat /\ Cursor.step (Replay.cursor answered_replay) = 1%nat
  /\ Cursor.step (Replay.cursor ordered_replay) = 1%nat /\ Cursor.step (Replay.cursor finished_replay) = 2%nat.
Proof. by vm_compute. Qed.
Abbreviation finished := (progress team_name stock_run finished_service).
Lemma all_done : finished = (fst finished, AllDone).
Proof. refine (ran _ AllDone _). vm_compute. reflexivity. Qed.
Abbreviation progressed := (progress team_name stock_run sent_service).
Lemma partly_done : progressed = (fst progressed, Partial).
Proof. refine (ran _ Partial _). vm_compute. reflexivity. Qed.
Abbreviation not_begun := (progress team_name stock_run first_service).
Lemma nothing_done : not_begun = (fst not_begun, NoProgress).
Proof. refine (ran _ NoProgress _). vm_compute. reflexivity. Qed.
#[global] Opaque first_service sent_service second_service seen_store first_replay sent_replay second_replay lost_cursor
  answered_service answered_replay ordered_service ordered_replay finished_service finished_replay.
Definition history : list Event * Phase (F := nat) (J := unit) (U := nat) -> list Event * Phase -> Prop := rtc (moves team_name stock_snapshot).
Definition first_log : list Event := [Sent (Cursor.step (Replay.cursor first_replay)) operation_a (commitment (ActionRequest.input first_request))].
Lemma history_opened : history ([], Idle boot_service) ([], Live first_replay first_service).
Proof. apply rtc_once. eapply moves_open; [exact first_opened|exact stock_snaps]. Qed.
Lemma history_sent : history ([], Idle boot_service) (first_log, Live sent_replay sent_service).
Proof. eapply rtc_r; [exact history_opened|]. exact (moves_sent _ _ [] _ _ _ _ first_request operation_a _ _ first_sent). Qed.
Lemma history_lost : history ([], Idle boot_service)
  (LossSealed :: first_log, Live second_replay (second_service <| Service.store := seen_store |>)).
Proof.
  eapply rtc_r; [eapply rtc_r; [eapply rtc_r; [exact history_sent|]|]|].
  - exact (moves_restarted _ _ first_log (Live sent_replay sent_service) _ (restart_restarted "fedcba9876543210fedcba9876543210" sent_service)).
  - eapply moves_open; [exact second_opened|exact stock_snaps].
  - exact (moves_loss_seen _ _ first_log (Live second_replay second_service) fresh_lock seen_store lost_cursor eq_refl loss_read lost_again).
Qed.
Lemma one_operation_per_step_witness : history ([], Idle boot_service) (first_log, Live sent_replay sent_service)
  /\ forall op cm, Sent (Cursor.step (Replay.cursor first_replay)) op cm ∈ first_log -> op = operation_a.
Proof.
  split; [exact history_sent|]. intros op cm Hin.
  destruct (one_operation_per_step team_name stock_snapshot stock_binding stock_readable _ _ _ boot_fresh history_sent) as [H _].
  refine (proj1 (H _ _ _ _ _ Hin (_ : Sent _ operation_a (commitment (ActionRequest.input first_request)) ∈ first_log))). by constructor.
Defined.
Definition finished_log : list Event :=
  Completed 1 :: Answered 1 :: Sent 1 operation_b (commitment (ActionRequest.input second_request)) :: Completed 0 :: Answered 0 :: first_log.
Lemma history_finished : history ([], Idle boot_service) (finished_log, Live finished_replay finished_service).
Proof.
  destruct steps_moved as (E0 & E1 & E2 & E3). eapply rtc_r; [eapply rtc_r; [eapply rtc_r; [exact history_sent|]|]|].
  - exact (moves_advanced _ _ first_log _ _ _ _ _ _ first_answered).
  - exact (moves_sent _ _ _ _ _ _ _ second_request operation_b _ _ second_sent).
  - pose proof (moves_advanced team_name stock_snapshot (Sent 1 operation_b (commitment (ActionRequest.input second_request)) :: Completed 0 :: Answered 0 :: first_log) _ _ _ _ _ _ second_answered) as H.
    rewrite E0, E1, E2, E3 in *. exact H.
Qed.
Lemma progress_sound_witness : finished = (fst finished, AllDone)
  /\ (forall k, (k < 2)%nat -> Answered k ∈ finished_log) /\ (not_begun = (fst not_begun, NoProgress) /\ forall k op cm, Sent k op cm ∉ ([] : list Event)).
Proof.
  split; [exact all_done|]. split.
  - exact (proj1 (proj2 (progress_sound team_name stock_snapshot stock_binding stock_readable _ _ _ stock_run _ _ boot_fresh history_finished eq_refl eq_refl all_done) eq_refl)).
  - split; [exact nothing_done|].
    exact (proj1 (progress_sound team_name stock_snapshot stock_binding stock_readable _ _ _ stock_run _ _ boot_fresh history_opened eq_refl eq_refl nothing_done) eq_refl).
Defined.
Lemma loss_stays_witness : LossSealed ∈ LossSealed :: first_log /\ Cursor.protection_lost lost_cursor = true.
Proof.
  split; [by constructor|].
  eapply (loss_stays team_name stock_snapshot stock_binding stock_readable _ _ _ fresh_lock _ lost_cursor boot_fresh history_lost); [by constructor|reflexivity|].
  apply found_again. by rewrite loss_read.
Defined.

(** ** The run held, verified and continued *)
#[local] Transparent first_service sent_service first_replay sent_replay.
(** The lookup fails as its Action declares; the run is held on the Team's state. *)
Definition lookup_failed : FailedAttempt.Failed := FailedAttempt.mk operation_a FaultClass.Handled None None [].
Definition held_team : TeamRoutines.TeamRoutines :=
  TeamRoutines.mk [sample_routine <| Routine.revision := 1 |>]
    [stock_run <| Run.status := Team.Held |> <| Run.steps := 0 |> <| Run.usage := object [("duration_ms"%string, int 0)] |>] [] 5 [] [].
Abbreviation fail_first x := (classified first_request lookup_failed x).
Definition failed_replay : ReplayRuntime := Eval vm_compute in fst (fst (fail_first (sent_replay, sent_service))).
Definition failed_service : Service.Service nat unit nat := snd (fst (fail_first (sent_replay, sent_service))).
Lemma first_failed : fail_first (sent_replay, sent_service) = ((failed_replay, failed_service), inr tt).
Proof. unfold failed_service. refine (ran_replay _ failed_replay (inr tt) _ _); vm_compute; reflexivity. Qed.
Abbreviation put_held s := (update_team team_name (fun _ => mret (held_team, tt)) s).
Definition stopped_service : Service.Service nat unit nat := fst (put_held failed_service).
Lemma run_stopped_held : put_held failed_service = (stopped_service, inr tt).
Proof. unfold stopped_service. refine (ran _ (inr tt) _). vm_compute. reflexivity. Qed.
Definition held_service : Service.Service nat unit nat := fst (reconcile team_name hex_a stopped_service).
Lemma run_held : reconcile team_name hex_a stopped_service = (held_service, inr true).
Proof. unfold held_service. refine (ran _ (inr true) _). vm_compute. reflexivity. Qed.
Definition the_episode : OpenEpisode.Episode := OpenEpisode.mk 60 5 false.
Definition episode_service : Service.Service nat unit nat := fst (start_episode team_name hex_a held_service).
Lemma episode_started : start_episode team_name hex_a held_service = (episode_service, Some the_episode).
Proof. unfold episode_service. refine (ran _ (Some the_episode) _). vm_compute. reflexivity. Qed.
(** Its Action is read-only and its failure classified: its absence is proven. *)
Definition verified_service : Service.Service nat unit nat := fst (verify team_name hex_a ∅ episode_service).
Lemma absence_verified : verify team_name hex_a ∅ episode_service = (verified_service, inr "absent"%string).
Proof. unfold verified_service. refine (ran _ (inr "absent"%string) _). vm_compute. reflexivity. Qed.
Definition held_seen : Observed.Observed :=
  Eval vm_compute in default (Observed.mk at_start None None false None) (snd (observed team_name stock_snapshot episode_service)).
Lemma held_observed : snd (observed team_name stock_snapshot episode_service) = Some held_seen.
Proof. vm_compute. reflexivity. Qed.
Definition held_opened : OpenedRecovery.OpenedRecovery :=
  Eval vm_compute in match snd (open_recovery team_name hex_a verified_service) with inr o => o | inl _ => OpenedRecovery.mk stock_snapshot at_start end.
Lemma held_reopened : open_recovery team_name hex_a verified_service = (fst (open_recovery team_name hex_a verified_service), inr held_opened).
Proof. refine (ran _ (inr held_opened) _). vm_compute. reflexivity. Qed.
Definition the_continuation : Run.Run * Routine.Routine * string :=
  Eval vm_compute in match snd (continue_reopened team_name hex_a verified_service) with inr (Some x) => x | _ => (stock_run, stock_routine, ""%string) end.
Definition resumed_service : Service.Service nat unit nat := fst (continue_reopened team_name hex_a verified_service).
Lemma run_resumed : continue_reopened team_name hex_a verified_service = (resumed_service, inr (Some the_continuation)).
Proof. unfold resumed_service. refine (ran _ (inr (Some the_continuation)) _). vm_compute. reflexivity. Qed.
Lemma resumed_where : Cursor.step (OpenedRecovery.cursor held_opened) = Cursor.step (Replay.cursor first_replay).
Proof. vm_compute. reflexivity. Qed.
(** The same run, when what ended runs hold is removed between its hold and its
    continuation: nothing durable says any more that it sent something. *)
Definition drained_service : Service.Service nat unit nat := fst (drain team_name verified_service).
Abbreviation drained_continuation := (continue_reopened team_name hex_a drained_service).
Definition drained_run : Run.Run := Eval vm_compute in match snd drained_continuation with inr (Some (value, _, _)) => value | _ => stock_run end.
Lemma drained_progress_forgotten :
  drain team_name verified_service = (drained_service, inr tt)
  /\ match snd drained_continuation with inr (Some (value, _, _)) => value = drained_run | _ => False end
  /\ snd (progress team_name drained_run (fst drained_continuation)) = NoProgress
  /\ snd (Recovery.ended team_name hex_a (Lease.mk "" "") drained_run None "team-context-unavailable" (fst drained_continuation)) = inr "failed"%string.
Proof.
  split; [unfold drained_service; refine (ran _ (inr tt) _); vm_compute; reflexivity|]. split; [vm_compute; reflexivity|]. split; vm_compute; reflexivity.
Qed.
#[global] Opaque first_service sent_service first_replay sent_replay failed_replay failed_service stopped_service held_service episode_service verified_service held_seen held_opened the_continuation resumed_service drained_service.
Definition judged_log : list Event := Judged held_seen :: first_log.
Definition resumed_log : list Event := Resumed (Cursor.step (OpenedRecovery.cursor held_opened)) :: judged_log.
Lemma absence_logged : verify_events team_name stock_snapshot episode_service (inr "absent"%string) first_log = judged_log.
Proof. unfold verify_events. by rewrite held_observed. Qed.
Lemma history_judged : history ([], Idle boot_service) (judged_log, Idle verified_service).
Proof.
  eapply rtc_r; [eapply rtc_r; [eapply rtc_r; [eapply rtc_r; [eapply rtc_r; [eapply rtc_r; [exact history_sent|]|]|]|]|]|].
  - exact (moves_failed _ _ first_log _ _ _ _ _ _ _ first_failed).
  - apply moves_closed.
  - exact (moves_changed _ _ first_log (Idle failed_service) (fun _ => (held_team, tt)) _ _ run_stopped_held).
  - exact (moves_reconciled team_name stock_snapshot first_log (Idle stopped_service) _ _ run_held).
  - exact (moves_episode team_name stock_snapshot first_log _ _ _ episode_started).
  - rewrite <- absence_logged. exact (moves_verified team_name stock_snapshot first_log _ ∅ _ _ absence_verified).
Qed.
Lemma history_resumed : history ([], Idle boot_service) (resumed_log, Idle resumed_service).
Proof. eapply rtc_r; [exact history_judged|]. exact (moves_continued team_name stock_snapshot judged_log _ _ _ _ _ held_reopened run_resumed). Qed.
Lemma continuation_proven_witness : history ([], Idle boot_service) (resumed_log, Idle resumed_service)
  /\ exists o, Judged o ∈ judged_log /\ absent_by o operation_a.
Proof.
  split; [exact history_resumed|].
  destruct (continuation_proven team_name stock_snapshot stock_binding stock_readable _ _ _ _ [] judged_log boot_fresh history_resumed eq_refl) as [H _].
  assert (Sent (Cursor.step (Replay.cursor first_replay)) operation_a (commitment (ActionRequest.input first_request)) ∈ judged_log) as Hin by (apply elem_of_cons; right; by constructor).
  destruct (H _ _ _ Hin) as [Hlt|[_ Ho]]; [|exact Ho].
  rewrite resumed_where in Hlt. lia.
Defined.
